(* ===== verification/_CoqProject ===== *)
-Q . S2P
Prelude.v
GuardedPtr.v
Leb128.v
WasmStack.v
Allocator.v
Opcodes.v
Types.v
OpSigs.v
Validation.v
Writers.v
FunctionBody.v
Parser.v
ReaderProofs.v
Utf8.v
WriterLaws.v
BodySafety.v
InstrSafety.v
ParserSafety.v
ModuleSafety.v
ParserClaims.v
ValidationClaims.v
WriterAgreement.v
ParserAgreement.v
LinearMemory.v
JitAllocator.v
ExecContext.v
HostFunctions.v
Softfloat.v
FloatRounding.v
FloatInstance.v
Simd.v
Interpreter.v
Backend.v
Fixtures.v
ContextProofs.v
InstanceProofs.v
HostProofs.v
Soundness.v
IntegerOps.v
OpTypes.v
CodeTyping.v
TrackerTypes.v
WriterEffects.v
CompiledBody.v
CompiledInstrs.v
CompiledJumps.v
CompiledControl.v
CompiledLoop.v
CompiledModule.v
CompiledClaims.v
X86.v
X86Control.v
X86Integer.v
X86Float.v
X86Simd.v
X86Writer.v
X86Machine.v
X86Encoding.v
MemoryOps.v
BulkMemory.v
Execution.v
BackendProofs.v
RunTyping.v
RunSteps.v
RunSafety.v
HostTyping.v
RunClaims.v
Timed.v
X86Frame.v
X86Emit.v
X86Fold.v
X86Ops.v
X86Compare.v
X86Values.v
X86Offsets.v
X86Straight.v
X86Agree.v
X86Branch.v
X86Table.v
X86Switch.v
