(* ===== verification/Prelude.v ===== *)
(** * A verification development for EOS VM

    EOS VM (src/include/eosio/vm) is a WebAssembly engine for blockchains.  A
    [backend] parses a module, validating it and compiling its functions to the
    interpreter's bitcode or to x86-64 code as it goes, binds the imports to registered
    C++ functions, and runs exported functions in an execution context.  This
    development models the parser, the validator, the bitcode compiler, the x86-64 code
    generator, the linker, the interpreter, the allocators and the backend as
    executable definitions, and proves what each promises.

    ** How the code is modelled

    A C++ function that may throw is a function into [outcome] (this file): [Ret a]
    returns, [Throw e] throws one of the library's exceptions, [UB why] is undefined
    behaviour, made explicit wherever the source would index outside a vector, read
    an inactive alternative of a variant, overflow a signed integer, or touch memory
    outside a reserved region.  A theorem that excludes [UB] is therefore a safety
    statement about the source.  Methods that change an object are in the state monad
    [M] over a record of its members; a throwing method keeps the changes it made
    before.  Unsigned integers are [Z] with [wrap w] where the code wraps, signed ones
    [sext w].  Vectors are lists, std::vector::at is [vec_at], operator[] is [nthZ]
    with [UB] outside.  The options templates are the record [Opt.t].  [assert]s are
    dropped, as in a release build, but one that fails in the JIT or in [jit_allocator]
    is [UB].  Third-party code is a parameter: the operating
    system ([Sys]: page size, mmap, munmap, mprotect), Berkeley softfloat
    ([Softfloat], instantiated on SpecFloat in FloatInstance.v), and the host ([_rhf],
    a function from an index to a computation on the context).

    ** Files

    Foundations.  Prelude.v: exceptions, outcomes, the monad, symbolic execution
    ([wp]), integers, lists.  GuardedPtr.v (guarded_ptr.hpp), Leb128.v (leb128.hpp),
    WasmStack.v (wasm_stack.hpp), Allocator.v (allocator.hpp: the bounded, growable and
    wasm allocators), Opcodes.v (opcodes_def.hpp), Types.v (types.hpp, stack_elem.hpp).
    JitAllocator.v (allocator.hpp: [jit_allocator], and the contiguous and the stack
    allocator).

    From bytes to code.  OpSigs.v: the types the opcode macros of parser.hpp give.
    Validation.v: options, resource checkers, [operand_stack_type_tracker],
    [local_types_t].  Writers.v: the class [Writer], the interface between the parser
    and a code generator, with bitcode_writer.hpp and null_writer.hpp as instances.
    FunctionBody.v: [parse_function_body_code], one definition per group of cases.
    Parser.v: strings, entries, sections, [parse_module].

    Theorems about them.  ReaderProofs.v and Utf8.v: readers and names.  WriterLaws.v:
    the contract [WriterOk] a writer keeps (it never goes wrong on labels, branches
    and tables it made itself), and that both writers keep it.  BodySafety.v and
    InstrSafety.v: the state of a function body stays well formed through every
    instruction.  ParserSafety.v and ModuleSafety.v: the same for entries, sections
    and modules.  ParserClaims.v: the parser is safe, terminates, and returns valid
    modules.  ValidationClaims.v: [local_types_t] is the flat list of locals, aliases
    of types.  WriterAgreement.v and ParserAgreement.v: the two backends accept the
    same modules.

    Running code.  LinearMemory.v (execution_interface.hpp, the guard region),
    ExecContext.v (execution_context.hpp), HostFunctions.v (host_function.hpp),
    Softfloat.v (softfloat.hpp), Simd.v (v128 handlers), Interpreter.v
    (interpret_visitor.hpp and [execute]), Backend.v (backend.hpp), Timed.v
    ([timed_run], watchdog.hpp, the decision of signals.hpp on a fault in code).

    Theorems about them.  ContextProofs.v: stacks, calls and returns, branches,
    memory growth.  InstanceProofs.v: segments, globals, [reset].  HostProofs.v:
    linking and host calls.  Soundness.v and OpTypes.v: every instruction consumes
    and produces operands of its type and never goes wrong on them.  IntegerOps.v,
    FloatRounding.v, MemoryOps.v, BulkMemory.v: what the instructions compute.
    Execution.v: [execute] gives its context back, indirect calls.  BackendProofs.v:
    from bytes to a running module.  Fixtures.v and FloatInstance.v hold the inputs
    and the softfloat of the witnesses.

    Typed bitcode.  CodeTyping.v: typings of a list of cells with jumps.  TrackerTypes.v:
    what [operand_stack_type_tracker] knows, as types.  WriterEffects.v: the cells each
    emit function writes.  CompiledBody.v (the invariant between the parser and the
    writer), CompiledInstrs.v, CompiledJumps.v, CompiledControl.v, CompiledLoop.v,
    CompiledModule.v and CompiledClaims.v: every function the parser compiles is typed.
    RunTyping.v (well-typed states), RunSteps.v, RunSafety.v, HostTyping.v and
    RunClaims.v: runs of typed code.

    The JIT (x86_64.hpp).  X86.v: the assembler and the record of the last two
    instructions.  X86Control.v: frames, prologue and epilogue, branches, branch tables,
    calls, locals, globals, error handlers, stubs.  X86Integer.v, X86Float.v, X86Simd.v:
    an emit function per instruction.  X86Writer.v: the instance of [Writer].
    X86Machine.v: the processor, with a decoder written from the architecture's tables.
    X86Encoding.v: the decoder inverts the assembler.  X86Offsets.v: the layout of
    frames.  X86Frame.v, X86Emit.v, X86Fold.v: what emitted code does to the frame,
    with folding.  X86Ops.v, X86Compare.v, X86Values.v: instruction by instruction.
    X86Straight.v and X86Agree.v: straight-line code, against the interpreter.
    X86Branch.v, X86Table.v, X86Switch.v: branches with fields to fix, the binary search
    of a branch table, and branch tables against the interpreter.

    ** What the theorems show

    Parser: on any bytes and options it returns a valid module or throws ([parse_wasm_safe],
    [parse_wasm_valid]); validation does not depend on the code generator
    ([backends_agree]). Backend: construction from any bytes is safe and leaves a
    context that is a function of the module ([backend_construction], with
    [resolve_correct] and [reset_spec]). Interpreter: [instruction_sound] gives the
    instructions without control flow and without effects on locals, globals, tables and
    bulk memory their types and excludes undefined behaviour on well-typed operands;
    calls, branches, memory, tables and numeric instructions have functional
    specifications; bulk instructions terminate. Whole runs: what the parser compiles,
    with the option for code behind the end of a function off, is typed
    ([parse_wasm_compiled]), so a call of a function of a module that stays away from
    the listed defects never has undefined behaviour and returns a value of its type
    ([execute_sound]), from bytes to results ([constructed_backend_sound]). JIT:
    operands of instructions are encoded as the processor decodes them, but for %r12 and
    %r13 as some bases ([operand_roundtrip]); frames have disjoint slots
    ([frame_layout]); straight-line integer code without division and bit counts
    ([compiled_code_agrees]) and branch tables ([branch_table_agrees]) leave the
    processor with the operands and locals of the interpreter. Executable memory: blocks
    never overlap and freed blocks are merged, for requests that do not round to 0 pages
    ([jit_allocator_correct]). Deadlines: Timed.v is a step relation over threads with
    its invariants ([timed_run_sound]), the guarantee for one thread
    ([deadline_enforced]: every run of a call past its deadline ends) and its failure
    for two ([deadline_can_be_lost]).

    Defects are theorems too: [accepted_modules_go_wrong] runs four modules that the
    parser accepts into undefined behaviour; [call_indirect_spec],
    [grow_linear_memory_spec], [bounded_alloc_spec], [simd_signed_overflow] and
    [elem_drop_without_table] state what the code does where WebAssembly asks for
    something else; [empty_request_loses_segment] loses executable memory;
    [r12_base_misread] and [r13_base_misread] are operands that are encoded as others.

    ** Fuel

    Loops whose end is not structural take fuel and return [UB "fuel"] without it:
    [parse_wasm_safe] excludes that outcome, so the fuel, the number of bytes of the
    body or of the module plus one, is always enough ([parse_instrs],
    [parse_sections]).  [validate_utf8_string] and [strlen] take the number of bytes
    left plus one.  [execute_loop] has no bound, as WebAssembly programs may run for
    ever: it returns [None] without fuel, and the theorems on bulk memory give the
    exact number of turns.  [emit_case_loop], the loop of the JIT's binary search, takes
    33 turns: a range of at most 2^32 - 1 cases is halved at most 32 times, and
    [branch_table_agrees] excludes [UB].  The theorems about the JIT ask for room in the
    code segment, 64 bytes for an instruction and 33 for a case of a branch table.

    ** Not modelled

    Of the JIT: its execution context, the C++ functions that compiled code calls at run
    time (a parameter, [address_of]) and the adaptors of the softfloat functions; the
    agreement with the interpreter covers straight-line integer code and branch tables,
    not division, bit counts, memory accesses, floating point, vectors, calls, or the
    conditions that [if] and [br_if] fold. The debug map, the disassembler and the
    profiler, which print; the mutex of [jit_allocator]; allocation failures of
    std::vector; argument_proxy, [invoke_on] and user-defined conversions of host
    functions; the signal masks and long jumps of signals.hpp, of which the models keep
    the effect: a fault in the guard region of the memory, or in disabled code after a
    timeout, becomes [wasm_memory_exception]. A table is a list also when the code keeps
    it in the context page. Bitcode is one list per module instead of cells of the
    arena; the arena's offsets, limits and exceptions are kept.

    Open: the agreement of the JIT with the interpreter beyond the instructions above,
    the equality of one-pass and two-pass parsing, and argument proxies. *)
From stdpp Require Export base list gmap strings option numbers.
From Stdlib Require Export ZArith Lia.

#[global] Open Scope Z_scope.

(** ** Exceptions (exceptions.hpp)

    One constructor per [DECLARE_EXCEPTION]; the argument is the message the
    throw site passes. *)
Inductive exn : Type :=
  | wasm_interpreter_exception (msg : string)
  | wasm_section_length_exception (msg : string)
  | wasm_bad_alloc (msg : string)
  | wasm_double_free (msg : string)
  | wasm_vector_oob_exception (msg : string)
  | wasm_unsupported_import_exception (msg : string)
  | wasm_parse_exception (msg : string)
  | wasm_memory_exception (msg : string)
  | stack_memory_exception (msg : string)
  | wasm_invalid_element (msg : string)
  | wasm_link_exception (msg : string)
  | guarded_ptr_exception (msg : string)
  | timeout_exception (msg : string)
  | wasm_exit_exception (msg : string)
  | span_exception (msg : string)
  | profile_exception (msg : string)
  | std_out_of_range (msg : string)    (* thrown by [std::vector::at] *)
  | std_bad_variant_access.            (* thrown by [std::get] *)

(** The numeric code each exception type carries ([None]: not a type of the
    library). *)
Definition exn_code (e : exn) : option Z :=
  match e with
  | wasm_interpreter_exception _ => Some 4000000
  | wasm_section_length_exception _ => Some 4000001
  | wasm_bad_alloc _ => Some 4000002
  | wasm_double_free _ => Some 4000003
  | wasm_vector_oob_exception _ => Some 4000004
  | wasm_unsupported_import_exception _ => Some 4000005
  | wasm_parse_exception _ => Some 4000006
  | wasm_memory_exception _ => Some 4000007
  | stack_memory_exception _ => Some 4000008
  | wasm_invalid_element _ => Some 4000009
  | wasm_link_exception _ => Some 4000010
  | guarded_ptr_exception _ => Some 4010000
  | timeout_exception _ => Some 4010001
  | wasm_exit_exception _ => Some 4010002
  | span_exception _ => Some 4020000
  | profile_exception _ => Some 4030000
  | std_out_of_range _ | std_bad_variant_access => None
  end.

(** ** Outcomes

    [Ret a]: the C++ code returns [a].  [Throw e]: it throws [e].  [UB why]:
    the C++ code has undefined behaviour (an out-of-range array access, a read
    of an inactive union member, a signed overflow); a theorem that excludes
    [UB] is a memory- or type-safety statement about the source. *)
Inductive outcome (A : Type) : Type :=
  | Ret (a : A)
  | Throw (e : exn)
  | UB (why : string).
Arguments Ret {A} a.
Arguments Throw {A} e.
Arguments UB {A} why.

#[export] Instance outcome_ret : MRet outcome := @Ret.
#[export] Instance outcome_bind : MBind outcome :=
  fun A B (k : A -> outcome B) (m : outcome A) =>
    match m with
    | Ret a => k a
    | Throw e => Throw e
    | UB why => UB why
    end.

(** [EOS_VM_ASSERT(expr, exc_type, msg)] *)
Definition EOS_VM_ASSERT (expr : bool) (e : exn) : outcome unit :=
  if expr then Ret tt else Throw e.

(** An access the C++ code makes without a check. *)
Definition or_UB {A} (why : string) (o : option A) : outcome A :=
  match o with
  | Some a => Ret a
  | None => UB why
  end.

(** A read of a C++ array at an integer index. *)
Definition nthZ {A} (l : list A) (i : Z) : option A :=
  if i <? 0 then None else l !! Z.to_nat i.

(** [std::vector::at] *)
Definition vec_at {A} (l : list A) (i : Z) : outcome A :=
  match nthZ l i with
  | Some x => Ret x
  | None => Throw (std_out_of_range "vector::_M_range_check")
  end.

(** No undefined behaviour. *)
Definition ret_safe {A} (o : outcome A) : Prop :=
  match o with UB _ => False | _ => True end.

(** Element-wise application of a fallible function, left to right. *)
Fixpoint map_outcome {A B} (f : A -> outcome B) (l : list A) : outcome (list B) :=
  match l with
  | [] => Ret []
  | x :: l => y ← f x; ys ← map_outcome f l; Ret (y :: ys)
  end.

Fixpoint map2_outcome {A B C} (f : A -> B -> outcome C) (l : list A) (k : list B)
  : outcome (list C) :=
  match l, k with
  | x :: l, y :: k => z ← f x y; zs ← map2_outcome f l k; Ret (z :: zs)
  | _, _ => Ret []
  end.

Fixpoint map3_outcome {A B C D} (f : A -> B -> C -> outcome D)
    (l : list A) (k : list B) (j : list C) : outcome (list D) :=
  match l, k, j with
  | x :: l, y :: k, u :: j =>
      z ← f x y u; zs ← map3_outcome f l k j; Ret (z :: zs)
  | _, _, _ => Ret []
  end.

(** ** State with exceptions

    C++ exceptions do not roll the state back, so the state is returned next to
    the outcome. *)
Definition M (S A : Type) : Type := S -> outcome A * S.

#[export] Instance M_ret {S} : MRet (M S) := fun A (a : A) s => (Ret a, s).
#[export] Instance M_bind {S} : MBind (M S) :=
  fun A B (k : A -> M S B) (m : M S A) s =>
    match m s with
    | (Ret a, s') => k a s'
    | (Throw e, s') => (Throw e, s')
    | (UB why, s') => (UB why, s')
    end.

Definition lift {S A} (o : outcome A) : M S A := fun s => (o, s).
Definition throw {S A} (e : exn) : M S A := lift (Throw e).
Definition ub {S A} (why : string) : M S A := lift (UB why).
Definition gets {S A} (f : S -> A) : M S A := fun s => (Ret (f s), s).
Definition modify {S} (f : S -> S) : M S unit := fun s => (Ret tt, f s).
Definition assertM {S} (b : bool) (e : exn) : M S unit := lift (EOS_VM_ASSERT b e).

(** [for (auto& x : l) f(x)] *)
Fixpoint eachM {S A} (f : A -> M S unit) (l : list A) : M S unit :=
  match l with
  | [] => mret tt
  | x :: l => mbind (fun _ => eachM f l) (f x)
  end.

(** The weakest precondition of a stateful computation: [Q] holds of the result
    and the final state when it returns, [E] of the exception and the state when
    it throws, and it has no undefined behaviour. *)
Definition wp {S A} (m : M S A) (Q : A -> S -> Prop) (E : exn -> S -> Prop)
    (s : S) : Prop :=
  match m s with
  | (Ret a, s') => Q a s'
  | (Throw e, s') => E e s'
  | (UB _, _) => False
  end.

(** ** Machine integers

    A [w]-bit unsigned integer is a [Z] in [0, 2^w); [wrap] is the conversion to
    it, [sext] the conversion to the [w]-bit two's complement integer. *)
Definition wrap (w x : Z) : Z := x mod 2 ^ w.
Definition sext (w x : Z) : Z :=
  if wrap w x <? 2 ^ (w - 1) then wrap w x else wrap w x - 2 ^ w.

Definition in_u (w x : Z) : Prop := 0 <= x < 2 ^ w.
Definition in_s (w x : Z) : Prop := - 2 ^ (w - 1) <= x < 2 ^ (w - 1).

(** A C++ [int] ([int32_t]) or [int64_t] expression: signed overflow is
    undefined behaviour. *)
Definition int_expr (w x : Z) : outcome Z :=
  if (- 2 ^ (w - 1) <=? x) && (x <? 2 ^ (w - 1)) then Ret x
  else UB "signed integer overflow".

Definition b2z (b : bool) : Z := if b then 1 else 0.

(** A write to a C++ array at an integer index. *)
Definition insZ {A} (l : list A) (i : Z) (x : A) : option (list A) :=
  match nthZ l i with
  | Some _ => Some (<[Z.to_nat i := x]> l)
  | None => None
  end.

(** ** Lemmas *)
Create HintDb eosvm.
#[export] Hint Extern 1 (_ <= _) => lia : eosvm.
#[export] Hint Extern 1 (_ < _) => lia : eosvm.

Lemma wp_ret {S A} (a : A) Q E (s : S) : Q a s -> wp (mret a) Q E s.
Proof. done. Qed.

Lemma wp_bind {S A B} (m : M S A) (k : A -> M S B) Q E s :
  wp m (fun a s' => wp (k a) Q E s') E s -> wp (mbind k m) Q E s.
Proof.
  unfold wp, mbind, M_bind. by destruct (m s) as [[a|e|w] s'].
Qed.

Lemma wp_lift {S A} (o : outcome A) Q E (s : S) :
  match o with Ret a => Q a s | Throw e => E e s | UB _ => False end ->
  wp (lift o) Q E s.
Proof. unfold wp, lift. by destruct o. Qed.

Lemma wp_lift_Ret {S A} (o : outcome A) a Q E (s : S) : o = Ret a -> Q a s -> wp (lift o) Q E s.
Proof. intros ->. done. Qed.

Lemma wp_lift_Throw {S A} (o : outcome A) e Q E (s : S) : o = Throw e -> E e s -> wp (lift o) Q E s.
Proof. intros ->. done. Qed.

Lemma wp_gets {S A} (f : S -> A) Q E s : Q (f s) s -> wp (gets f) Q E s.
Proof. done. Qed.

Lemma wp_modify {S} (f : S -> S) Q E s : Q tt (f s) -> wp (modify f) Q E s.
Proof. done. Qed.

Lemma wp_assertM {S} b e Q E (s : S) :
  (b = true -> Q tt s) -> (b = false -> E e s) -> wp (assertM b e) Q E s.
Proof. unfold wp, assertM, lift, EOS_VM_ASSERT. destruct b; auto. Qed.

Lemma wp_mono {S A} (m : M S A) (Q Q' : A -> S -> Prop) (E E' : exn -> S -> Prop) s :
  wp m Q E s -> (forall a s', Q a s' -> Q' a s') -> (forall e s', E e s' -> E' e s') ->
  wp m Q' E' s.
Proof. unfold wp. destruct (m s) as [[a|e|w] s']; auto. Qed.

Lemma wp_returns {S A} (m : M S A) Q s :
  wp m Q (fun _ _ => False) s -> exists a s', m s = (Ret a, s') /\ Q a s'.
Proof. unfold wp. destruct (m s) as [[a|e|w] s']; naive_solver. Qed.

Lemma wrap_in_u w x : 0 <= w -> in_u w (wrap w x).
Proof. intros. apply Z.mod_pos_bound. lia. Qed.

Lemma wrap_small w x : in_u w x -> wrap w x = x.
Proof. apply Z.mod_small. Qed.

Lemma pow2_split w : 0 < w -> 2 ^ w = 2 * 2 ^ (w - 1).
Proof. intros. rewrite <- Z.pow_succ_r by lia. f_equal. lia. Qed.

Lemma sext_in_s w x : 0 < w -> in_s w (sext w x).
Proof.
  intros Hw. unfold sext, in_s. pose proof (wrap_in_u w x ltac:(lia)) as [H1 H2].
  pose proof (pow2_split w Hw). destruct (Z.ltb_spec (wrap w x) (2 ^ (w - 1))); lia.
Qed.

Lemma sext_small w x : 0 < w -> in_s w x -> sext w x = x.
Proof.
  intros Hw [H1 H2]. pose proof (pow2_split w Hw). unfold sext, wrap.
  destruct (Z_lt_le_dec x 0).
  - rewrite <- (Z.mod_add x 1 (2 ^ w)) by lia.
    rewrite (Z.mod_small (x + 1 * 2 ^ w)) by lia.
    destruct (Z.ltb_spec (x + 1 * 2 ^ w) (2 ^ (w - 1))); lia.
  - rewrite (Z.mod_small x) by lia.
    destruct (Z.ltb_spec x (2 ^ (w - 1))); lia.
Qed.

Lemma sext_unsigned w x :
  0 < w -> in_u w x -> sext w x = if x <? 2 ^ (w - 1) then x else x - 2 ^ w.
Proof. intros. unfold sext. by rewrite wrap_small. Qed.

Lemma wrap_sext w x : 0 < w -> wrap w (sext w x) = wrap w x.
Proof.
  intros Hw. unfold sext. destruct (wrap w x <? _).
  - apply Z.mod_mod. lia.
  - unfold wrap. rewrite Zminus_mod, Z_mod_same_full, Z.sub_0_r, !Z.mod_mod by lia. done.
Qed.

Lemma wrap_wrap w x : 0 <= w -> wrap w (wrap w x) = wrap w x.
Proof. intros. apply Z.mod_mod. lia. Qed.

Lemma sext_wrap w x : 0 <= w -> sext w (wrap w x) = sext w x.
Proof. intros. unfold sext. by rewrite wrap_wrap. Qed.

Lemma wrap_eq_sext_eq w x y : wrap w x = wrap w y -> sext w x = sext w y.
Proof. unfold sext. by intros ->. Qed.

Lemma int_expr_ret w x : in_s w x -> int_expr w x = Ret x.
Proof.
  intros [H1 H2]. unfold int_expr.
  destruct (Z.leb_spec (- 2 ^ (w - 1)) x); [|lia].
  destruct (Z.ltb_spec x (2 ^ (w - 1))); [done|lia].
Qed.

Lemma int_expr_ub w x : ~ in_s w x -> int_expr w x = UB "signed integer overflow".
Proof.
  unfold in_s, int_expr. intros H.
  destruct (Z.leb_spec (- 2 ^ (w - 1)) x), (Z.ltb_spec x (2 ^ (w - 1))); simpl; try done.
  lia.
Qed.

Lemma land_ones_wrap w x : 0 <= w -> Z.land x (Z.ones w) = wrap w x.
Proof. intros. by apply Z.land_ones. Qed.

Lemma nthZ_Some {A} (l : list A) i :
  0 <= i < Z.of_nat (length l) -> exists x, nthZ l i = Some x.
Proof.
  intros Hi. unfold nthZ. destruct (Z.ltb_spec i 0); [lia|].
  apply lookup_lt_is_Some_2. lia.
Qed.

Lemma nthZ_None {A} (l : list A) i :
  i < 0 \/ Z.of_nat (length l) <= i -> nthZ l i = None.
Proof.
  intros Hi. unfold nthZ. destruct (Z.ltb_spec i 0); [done|]. apply lookup_ge_None_2. lia.
Qed.

Lemma nthZ_nil {A} i : nthZ (@nil A) i = None.
Proof. unfold nthZ. by destruct (i <? 0). Qed.

Lemma nthZ_bounds {A} (l : list A) i x : nthZ l i = Some x -> 0 <= i < Z.of_nat (length l).
Proof.
  unfold nthZ. destruct (Z.ltb_spec i 0); [done|]. intros ?%lookup_lt_Some. lia.
Qed.

Lemma nthZ_lookup {A} (l : list A) i : 0 <= i -> nthZ l i = l !! Z.to_nat i.
Proof. intros. unfold nthZ. destruct (Z.ltb_spec i 0); [lia|done]. Qed.

Lemma nthZ_snoc_old {A} (l : list A) x i y : nthZ l i = Some y -> nthZ (l ++ [x]) i = Some y.
Proof. unfold nthZ. destruct (i <? 0); [done|]. by apply lookup_app_l_Some. Qed.
Lemma nthZ_snoc {A} (l : list A) x i y :
  nthZ (l ++ [x]) i = Some y -> nthZ l i = Some y \/ i = Z.of_nat (length l) /\ y = x.
Proof.
  unfold nthZ. destruct (Z.ltb_spec i 0); [done|]. intros [Hl|[Hlen Hx]]%lookup_app_Some; [by left|right].
  destruct (Z.to_nat i - length l)%nat eqn:E; [|done]. injection Hx as ->. split; [lia|done].
Qed.

Lemma insZ_Some {A} (l : list A) i x :
  0 <= i < Z.of_nat (length l) -> insZ l i x = Some (<[Z.to_nat i := x]> l).
Proof. intros Hi. unfold insZ. by destruct (nthZ_Some l i Hi) as [? ->]. Qed.

Lemma length_map_outcome {A B} (f : A -> outcome B) l l' :
  map_outcome f l = Ret l' -> length l' = length l.
Proof.
  revert l'. induction l as [|x l IH]; intros l'; simpl.
  - by intros [= <-].
  - unfold mbind, outcome_bind. destruct (f x); try done.
    destruct (map_outcome f l) eqn:E; try done. intros [= <-]. simpl. f_equal. by apply IH.
Qed.

Lemma map_outcome_Ret {A B} (f : A -> outcome B) (g : A -> B) l :
  (forall x, x ∈ l -> f x = Ret (g x)) -> map_outcome f l = Ret (g <$> l).
Proof.
  induction l as [|x l IH]; intros H; simpl; [done|].
  rewrite H by set_solver. simpl. rewrite IH by set_solver. done.
Qed.

Lemma map2_outcome_Ret {A B C} (f : A -> B -> outcome C) (g : A -> B -> C) l k :
  (forall x y, x ∈ l -> y ∈ k -> f x y = Ret (g x y)) ->
  map2_outcome f l k = Ret (zip_with g l k).
Proof.
  revert k. induction l as [|x l IH]; intros [|y k] H; simpl; try done.
  rewrite H by set_solver. simpl. rewrite IH by set_solver. done.
Qed.

(** ** Automation *)

(** Symbolic execution of one step of a [wp] goal; [wp_step] looks into a definition
    whose body is a sequence. *)
Ltac wp_prim :=
  lazymatch goal with
  | |- wp (mbind _ _) _ _ _ => apply wp_bind
  | |- wp (mret _) _ _ _ => apply wp_ret
  | |- wp (gets _) _ _ _ => apply wp_gets
  | |- wp (modify _) _ _ _ => apply wp_modify
  | |- wp (assertM _ _) _ _ _ => apply wp_assertM; intros ?
  | |- wp (lift _) _ _ _ => apply wp_lift
  end.
Ltac wp_step :=
  first [ wp_prim | lazymatch goal with |- wp _ _ _ _ => apply wp_bind end ].

(** Decide a closed decidable proposition by evaluation. *)
Ltac by_compute := eapply bool_decide_eq_true_1; vm_compute; reflexivity.

Ltac destruct_bools :=
  repeat match goal with
  | H : (_ && _) = true |- _ => apply andb_prop in H as [? ?]
  | H : (_ =? _) = true |- _ => apply Z.eqb_eq in H
  | H : (_ =? _) = false |- _ => apply Z.eqb_neq in H
  | H : (_ <? _) = true |- _ => apply Z.ltb_lt in H
  | H : (_ <? _) = false |- _ => apply Z.ltb_ge in H
  | H : (_ <=? _) = true |- _ => apply Z.leb_le in H
  | H : (_ <=? _) = false |- _ => apply Z.leb_gt in H
  end.

(** Case analysis on every integer comparison of the goal. *)
Ltac zcases :=
  repeat match goal with
  | |- context [?a <? ?b] => destruct (Z.ltb_spec a b)
  | |- context [?a <=? ?b] => destruct (Z.leb_spec a b)
  | |- context [?a =? ?b] => destruct (Z.eqb_spec a b)
  end.
