(* ===== verification/GuardedPtr.v ===== *)
(** * guarded_ptr: the bounds-checked cursor over the input (guarded_ptr.hpp)

    The three C++ pointers are offsets from [orig_ptr] into one buffer [data]:
    [orig_ptr] is 0, [raw_ptr] and [bnds] are the fields.  The two scope guards
    are modelled as functions that run their body between the constructor and
    the destructor of the guard. *)
From S2P Require Import Prelude.

Record guarded_ptr : Type := GuardedPtr {
  data : list Z;      (* the bytes that start at [orig_ptr] *)
  raw_ptr : Z;        (* raw_ptr - orig_ptr *)
  bnds : Z            (* bnds - orig_ptr *)
}.

Module GuardedPtr.

(** [guarded_ptr( T* rp, size_t bnds )] over the whole of a buffer *)
Definition of_buffer (bytes : list Z) : guarded_ptr :=
  GuardedPtr bytes 0 (Z.of_nat (length bytes)).

(** [operator+=(size_t i)] *)
Definition add (p : guarded_ptr) (i : Z) : outcome guarded_ptr :=
  EOS_VM_ASSERT (i <=? bnds p - raw_ptr p) (guarded_ptr_exception "overbounding pointer");;
  Ret (GuardedPtr (data p) (raw_ptr p + i) (bnds p)).

(** [operator++()] *)
Definition incr (p : guarded_ptr) : outcome guarded_ptr :=
  EOS_VM_ASSERT (raw_ptr p <? bnds p) (guarded_ptr_exception "overbounding pointer");;
  Ret (GuardedPtr (data p) (raw_ptr p + 1) (bnds p)).

(** [operator*()] *)
Definition deref (p : guarded_ptr) : outcome Z :=
  EOS_VM_ASSERT (raw_ptr p <? bnds p) (guarded_ptr_exception "accessing out of bounds");;
  or_UB "read outside the buffer" (nthZ (data p) (raw_ptr p)).

(** [at(size_t index)], [operator[]] *)
Definition at_ (p : guarded_ptr) (index : Z) : outcome Z :=
  EOS_VM_ASSERT (index <? bnds p - raw_ptr p) (guarded_ptr_exception "accessing out of bounds");;
  or_UB "read outside the buffer" (nthZ (data p) (raw_ptr p + index)).

(** [*code++]: postfix increment copies the pointer, then checks and advances. *)
Definition deref_incr (p : guarded_ptr) : outcome (Z * guarded_ptr) :=
  p' ← incr p;
  b ← deref p;
  Ret (b, p').

Definition offset (p : guarded_ptr) : Z := raw_ptr p.
Definition bounds (p : guarded_ptr) : Z := bnds p.

(** [auto guard = code.scoped_shrink_bounds(n); body]: the destructor puts the
    old bound back. *)
Definition scoped_shrink_bounds {A} (n : Z) (p : guarded_ptr)
    (body : guarded_ptr -> outcome (A * guarded_ptr)) : outcome (A * guarded_ptr) :=
  EOS_VM_ASSERT (n <=? bnds p - raw_ptr p) (guarded_ptr_exception "guarded ptr out of bounds");;
  '(a, p') ← body (GuardedPtr (data p) (raw_ptr p) (raw_ptr p + n));
  Ret (a, GuardedPtr (data p') (raw_ptr p') (bnds p)).

(** [auto guard = code.scoped_consume_items(n); body]: the destructor also
    checks that the body advanced to the shrunk bound (when it did not throw). *)
Definition scoped_consume_items {A} (n : Z) (p : guarded_ptr)
    (body : guarded_ptr -> outcome (A * guarded_ptr)) : outcome (A * guarded_ptr) :=
  EOS_VM_ASSERT (n <=? bnds p - raw_ptr p) (guarded_ptr_exception "guarded ptr out of bounds");;
  '(a, p') ← body (GuardedPtr (data p) (raw_ptr p) (raw_ptr p + n));
  EOS_VM_ASSERT (raw_ptr p' =? bnds p') (guarded_ptr_exception "guarded_ptr not advanced");;
  Ret (a, GuardedPtr (data p') (raw_ptr p') (bnds p)).

(** ** Well-formedness and the bytes that are left *)

Definition wf (p : guarded_ptr) : Prop :=
  0 <= raw_ptr p <= bnds p /\ bnds p <= Z.of_nat (length (data p)).

(** The bytes between [raw_ptr] and [bnds]: all an operation may look at. *)
Definition remaining (p : guarded_ptr) : list Z :=
  drop (Z.to_nat (raw_ptr p)) (take (Z.to_nat (bnds p)) (data p)).

(** [p'] is [p] advanced by [n] bytes. *)
Definition advanced (p : guarded_ptr) (n : Z) : guarded_ptr :=
  GuardedPtr (data p) (raw_ptr p + n) (bnds p).

(** A body that respects the guard: on return it has kept the buffer and the
    bound, and only moved forward inside it. *)
Definition moves_forward {A} (body : guarded_ptr -> outcome (A * guarded_ptr)) : Prop :=
  forall p a p', wf p -> body p = Ret (a, p') ->
    wf p' /\ data p' = data p /\ bnds p' = bnds p /\ raw_ptr p <= raw_ptr p'.

(** ** Lemmas *)

Lemma wf_of_buffer l : wf (of_buffer l).
Proof. unfold wf, of_buffer; simpl. lia. Qed.

Lemma length_remaining p : wf p -> Z.of_nat (length (remaining p)) = bnds p - raw_ptr p.
Proof. intros [? ?]. unfold remaining. rewrite length_drop, length_take. lia. Qed.

Lemma lookup_remaining p i :
  wf p -> 0 <= i < bnds p - raw_ptr p ->
  nthZ (data p) (raw_ptr p + i) = remaining p !! Z.to_nat i.
Proof.
  intros [? ?] ?. unfold nthZ, remaining.
  destruct (Z.ltb_spec (raw_ptr p + i) 0); [lia|].
  rewrite lookup_drop, lookup_take. case_decide; [|lia]. f_equal. lia.
Qed.

Lemma at_remaining p i b :
  wf p -> 0 <= i -> remaining p !! Z.to_nat i = Some b -> at_ p i = Ret b.
Proof.
  intros Hwf Hi Hb. pose proof (length_remaining p Hwf) as Hl.
  assert (Hlt : i < bnds p - raw_ptr p) by (apply lookup_lt_Some in Hb; lia).
  unfold at_, EOS_VM_ASSERT. destruct (Z.ltb_spec i (bnds p - raw_ptr p)); [|lia].
  simpl. rewrite lookup_remaining, Hb by (auto || lia). done.
Qed.

Lemma add_ret p n : 0 <= n <= bnds p - raw_ptr p -> add p n = Ret (advanced p n).
Proof.
  intros ?. unfold add, EOS_VM_ASSERT.
  destruct (Z.leb_spec n (bnds p - raw_ptr p)); [done|lia].
Qed.

Lemma advanced_wf p n : wf p -> 0 <= n <= bnds p - raw_ptr p -> wf (advanced p n).
Proof. unfold wf, advanced; simpl. lia. Qed.

Lemma remaining_advanced p n :
  wf p -> 0 <= n <= bnds p - raw_ptr p ->
  remaining (advanced p n) = drop (Z.to_nat n) (remaining p).
Proof.
  intros [? ?] ?. unfold remaining, advanced; simpl.
  rewrite drop_drop. f_equal. lia.
Qed.

Lemma deref_incr_cases p :
  wf p ->
  (remaining p = [] /\
    deref_incr p = Throw (guarded_ptr_exception "overbounding pointer")) \/
  (exists b l, remaining p = b :: l /\ deref_incr p = Ret (b, advanced p 1) /\
    wf (advanced p 1) /\ remaining (advanced p 1) = l).
Proof.
  intros Hwf. pose proof (length_remaining p Hwf) as Hl.
  unfold deref_incr, incr, deref, EOS_VM_ASSERT.
  destruct (Z.ltb_spec (raw_ptr p) (bnds p)).
  - right. destruct (remaining p) as [|b l] eqn:E; [simpl in Hl; lia|].
    exists b, l. split; [done|]. split.
    + simpl. rewrite <- (Z.add_0_r (raw_ptr p)) at 1.
      rewrite lookup_remaining, E by (auto || lia). done.
    + split; [apply advanced_wf; auto; lia|].
      rewrite remaining_advanced, E by (auto || lia). done.
  - left. destruct (remaining p); [done|]. simpl in Hl. lia.
Qed.

End GuardedPtr.

(** ** The two guards restore the bound and never let a body past it *)
Section Guards.
Import GuardedPtr.

Lemma shrink_bounds_forward {A} n (body : guarded_ptr -> outcome (A * guarded_ptr)) :
  0 <= n -> moves_forward body -> moves_forward (fun p => scoped_shrink_bounds n p body).
Proof.
  intros Hn Hb p a p' [Hw1 Hw2]. unfold scoped_shrink_bounds, EOS_VM_ASSERT.
  destruct (Z.leb_spec n (bnds p - raw_ptr p)); [simpl|done].
  destruct (body _) as [[a' q]|e|w] eqn:E; [|done|done]. simpl. intros [= -> <-].
  apply Hb in E; [|unfold wf; simpl; lia].
  unfold wf in *. simpl in *. destruct E as (E1 & -> & E2 & E3). repeat split; lia.
Qed.

(** A body under a guard stays inside the bound the guard sets. *)
Lemma consume_items_cases {A} n (body : guarded_ptr -> outcome (A * guarded_ptr)) p :
  0 <= n -> wf p -> moves_forward body ->
  match scoped_consume_items n p body with
  | Ret (_, p') => n <= bnds p - raw_ptr p /\ p' = advanced p n
  | _ => True
  end.
Proof.
  intros Hn [Hw1 Hw2] Hb. unfold scoped_consume_items, EOS_VM_ASSERT.
  destruct (Z.leb_spec n (bnds p - raw_ptr p)); [simpl|done].
  destruct (body _) as [[a' q]|e|w] eqn:E; [|done|done]. simpl.
  destruct (Z.eqb_spec (raw_ptr q) (bnds q)) as [Heq|]; [simpl|done]. split; [done|].
  apply Hb in E; [|unfold wf; simpl; lia].
  unfold advanced in *. simpl in *. destruct E as (E1 & -> & E2 & E3). by rewrite Heq, E2.
Qed.

(** A section or function body parsed under [scoped_consume_items(n)] that
    returns has consumed exactly [n] bytes of the input that was there, and the
    outer bound is back in place; a bound past the end of the input throws before
    the body runs; and guards nest: a body that only moves forward inside its
    bound still does so under either guard. *)
Theorem guards_contain_body {A} n (body : guarded_ptr -> outcome (A * guarded_ptr)) p :
  0 <= n -> wf p -> moves_forward body ->
  (forall a p', scoped_consume_items n p body = Ret (a, p') ->
     n <= bnds p - raw_ptr p /\ p' = advanced p n /\ wf p') /\
  (bnds p - raw_ptr p < n -> exists e, scoped_consume_items n p body = Throw e /\
     scoped_shrink_bounds n p body = Throw e) /\
  moves_forward (fun p => scoped_shrink_bounds n p body) /\
  moves_forward (fun p => scoped_consume_items n p body).
Proof.
  intros Hn Hwf Hb. pose proof (fun p Hp => consume_items_cases n body p Hn Hp Hb) as Hc.
  split_and!.
  - intros a p' E. specialize (Hc p Hwf). rewrite E in Hc. destruct Hc as [Hl ->].
    split_and!; [done|done|apply advanced_wf; [done|lia]].
  - intros Hlt. unfold scoped_consume_items, scoped_shrink_bounds, EOS_VM_ASSERT.
    destruct (Z.leb_spec n (bnds p - raw_ptr p)); [lia|]. by eexists.
  - by apply shrink_bounds_forward.
  - intros q a q' Hq E. specialize (Hc q Hq). rewrite E in Hc. destruct Hc as [Hl ->].
    unfold wf, advanced in *. simpl. repeat split; lia.
Qed.

Lemma deref_incr_forward : moves_forward deref_incr.
Proof.
  intros p a p' Hw. destruct (deref_incr_cases p Hw) as [[_ ->]|(b & l & _ & -> & Hw' & _)]; [done|].
  intros [= -> <-]. split; [done|]. simpl. repeat split; lia.
Qed.

Lemma guards_contain_body_witness :
  scoped_consume_items 1 (of_buffer [7; 8; 9]) deref_incr = Ret (7, GuardedPtr [7; 8; 9] 1 3) /\
  GuardedPtr [7; 8; 9] 1 3 = advanced (of_buffer [7; 8; 9]) 1 /\
  exists e, scoped_consume_items 4 (of_buffer [7; 8; 9]) deref_incr = Throw e.
Proof.
  split; [reflexivity|]. split.
  - apply (proj1 (guards_contain_body 1 deref_incr (of_buffer [7; 8; 9]) ltac:(lia)
      (wf_of_buffer _) deref_incr_forward) 7). reflexivity.
  - destruct (proj1 (proj2 (guards_contain_body 4 deref_incr (of_buffer [7; 8; 9]) ltac:(lia)
      (wf_of_buffer _) deref_incr_forward))) as (e & He & _); [reflexivity|]. by exists e.
Defined.
End Guards.
