(* ===== verification/Leb128.v ===== *)
(** * LEB128 integers (leb128.hpp)

    [varuint<N>] and [varint<N>] hold the encoded bytes ([storage]) and how many
    of them are in use ([bytes_used]).  [from_*] fill them from a value or from
    the input cursor, [to_*] read the value back.  The reference definition is
    the grammar of LEB128 integers in the WebAssembly binary format. *)
From S2P Require Import Prelude GuardedPtr.

(** [bytes_needed<N>()] *)
Definition bytes_needed (N : Z) : Z :=
  if (N =? 1) || (N =? 7) then 1 else if N =? 32 then 5 else 10.

(** [class varuint<N>] / [class varint<N>]: the members [storage] (the bytes in
    use) and [bytes_used]. *)
Record varuint : Type := Varuint { storage : list Z; bytes_used : Z }.

(** The loop of [from(uint32_t v)] and the [bytes_used++] after it: the bytes
    stored and the final count.  The first argument is the number of iterations
    left before [bytes_used < bytes_needed<N>()] fails. *)
Fixpoint varuint_from_loop (todo : nat) (v : Z) : list Z * Z :=
  match todo with
  | O => ([], 1)
  | S todo =>
      let b := Z.land v 0x7f in
      let v := Z.shiftr v 7 in
      if v =? 0 then ([b], 1)
      else let '(st, n) := varuint_from_loop todo v in (Z.lor b 0x80 :: st, n + 1)
  end.

(** [varuint<N>(uint32_t v)] *)
Definition varuint_of_u32 (N v : Z) : varuint :=
  let '(st, n) := varuint_from_loop (Z.to_nat (bytes_needed N)) v in Varuint st n.

(** [from( guarded_ptr<uint8_t>& code )]: the reading loop from byte [cnt] on.
    [fuel] counts the iterations that are todo; the check [cnt < bytes_needed]
    ends the loop before it runs out. *)
Fixpoint varuint_read (N : Z) (fuel : nat) (cnt : Z) (code : guarded_ptr)
  : outcome (list Z) :=
  match fuel with
  | O => UB "fuel"
  | S fuel =>
      EOS_VM_ASSERT (cnt <? bytes_needed N)
        (wasm_interpreter_exception "incorrect leb128 encoding");;
      EOS_VM_ASSERT (GuardedPtr.offset code + cnt <? GuardedPtr.bounds code)
        (wasm_interpreter_exception "pointer out of bounds");;
      b ← GuardedPtr.at_ code cnt;
      if Z.land b 0x80 =? 0 then
        (if cnt + 1 =? bytes_needed N then
          let mask := Z.land (wrap 8 (Z.shiftl (2 ^ 32 - 1) (N - 7 * (bytes_needed N - 1)))) 0x7F in
          EOS_VM_ASSERT (Z.land mask b =? 0)
            (wasm_parse_exception "unused bits of unsigned leb128 must be 0")
        else Ret tt);;
        Ret [b]
      else
        l ← varuint_read N fuel (cnt + 1) code;
        Ret (b :: l)
  end.

Definition leb_fuel (N : Z) : nat := S (Z.to_nat (bytes_needed N)).

Definition varuint_from (N : Z) (code : guarded_ptr) : outcome (varuint * guarded_ptr) :=
  st ← varuint_read N (leb_fuel N) 0 code;
  code ← GuardedPtr.add code (Z.of_nat (length st));
  Ret (Varuint st (Z.of_nat (length st)), code).

(** [to()] for N = 32: from the last byte down, [ret <<= 7; ret |= storage[i] & 0x7f]. *)
Definition varuint_to32 (u : varuint) : Z :=
  fold_right (fun b ret => wrap 32 (Z.lor (wrap 32 (Z.shiftl ret 7)) (Z.land b 0x7f)))
    0 (storage u).

(** [to()] for N = 1 and N = 7 *)
Definition varuint_to1 (u : varuint) : bool :=
  match storage u with b :: _ => negb (b =? 0) | [] => false end.
Definition varuint_to7 (u : varuint) : Z :=
  match storage u with b :: _ => Z.land b 0x7f | [] => 0 end.

(** The loop of [_from(T v)] for [varint<N>]; [v] is a signed integer and [>>]
    is arithmetic. *)
Fixpoint varint_from_loop (todo : nat) (v : Z) : list Z * Z :=
  match todo with
  | O => ([], 1)
  | S todo =>
      let b := Z.land v 0x7f in
      let v := Z.shiftr v 7 in
      if ((v =? -1) && negb (Z.land b 0x40 =? 0)) || ((v =? 0) && (Z.land b 0x40 =? 0))
      then ([b], 1)
      else let '(st, n) := varint_from_loop todo v in (Z.lor b 0x80 :: st, n + 1)
  end.

Definition varint_of (N v : Z) : varuint :=
  let '(st, n) := varint_from_loop (Z.to_nat (bytes_needed N)) v in Varuint st n.

(** [varint<N>::from( guarded_ptr<uint8_t>& code )] *)
Fixpoint varint_read (N : Z) (fuel : nat) (cnt : Z) (code : guarded_ptr)
  : outcome (list Z) :=
  match fuel with
  | O => UB "fuel"
  | S fuel =>
      EOS_VM_ASSERT (cnt <? bytes_needed N)
        (wasm_interpreter_exception "incorrect leb128 encoding");;
      EOS_VM_ASSERT (GuardedPtr.offset code + cnt <? GuardedPtr.bounds code)
        (wasm_interpreter_exception "pointer out of bounds");;
      b ← GuardedPtr.at_ code cnt;
      if Z.land b 0x80 =? 0 then
        (if cnt + 1 =? bytes_needed N then
          let off := N - 7 * (bytes_needed N - 1) in
          let mask := Z.land (wrap 8 (Z.shiftl (2 ^ 32 - 1) off)) 0x7F in
          let expected := if Z.land b (Z.shiftl 1 (off - 1)) =? 0 then 0 else mask in
          EOS_VM_ASSERT (Z.land mask b =? expected)
            (wasm_parse_exception "unused bits of signed leb128 must be the same as the sign bit")
        else Ret tt);;
        Ret [b]
      else
        l ← varint_read N fuel (cnt + 1) code;
        Ret (b :: l)
  end.

Definition varint_from (N : Z) (code : guarded_ptr) : outcome (varuint * guarded_ptr) :=
  st ← varint_read N (leb_fuel N) 0 code;
  code ← GuardedPtr.add code (Z.of_nat (length st));
  Ret (Varuint st (Z.of_nat (length st)), code).

(** [_to<T>()] with [T] of [w] bits ([w] = N = 32 or 64): the unsigned
    accumulation, the sign extension by [(-1ull) << shift], the reinterpretation
    as a signed integer. *)
Definition varint_to (w : Z) (u : varuint) : Z :=
  let ret := fold_right (fun b ret => wrap w (Z.lor (wrap w (Z.shiftl ret 7)) (Z.land b 0x7f)))
               0 (storage u) in
  let last_ := match nthZ (storage u) (bytes_used u - 1) with Some b => b | None => 0 end in
  let ret :=
    if (1 <=? bytes_used u) && (bytes_used u <? bytes_needed w)
       && negb (Z.land last_ 0x40 =? 0)
    then wrap w (Z.lor ret (wrap 64 (Z.shiftl (2 ^ 64 - 1) (bytes_used u * 7))))
    else ret in
  sext w ret.

(** [to()] for N = 7: [storage[0] | (~0u << 7)] narrowed to [int8_t]. *)
Definition varint_to7 (u : varuint) : Z :=
  match storage u with
  | b :: _ => if Z.land b 0x40 =? 0 then b
              else sext 8 (Z.lor b (wrap 32 (Z.shiftl (2 ^ 32 - 1) 7)))
  | [] => 0
  end.

(** The parser's entry points (parser.hpp): each constructs the integer from the
    cursor and reads it back. *)
Definition parse_varuint32 (code : guarded_ptr) : outcome (Z * guarded_ptr) :=
  '(u, code) ← varuint_from 32 code; Ret (varuint_to32 u, code).
Definition parse_varuint7 (code : guarded_ptr) : outcome (Z * guarded_ptr) :=
  '(u, code) ← varuint_from 7 code; Ret (varuint_to7 u, code).
Definition parse_varuint1 (code : guarded_ptr) : outcome (bool * guarded_ptr) :=
  '(u, code) ← varuint_from 1 code; Ret (varuint_to1 u, code).
Definition parse_varint7 (code : guarded_ptr) : outcome (Z * guarded_ptr) :=
  '(u, code) ← varint_from 7 code; Ret (varint_to7 u, code).
Definition parse_varint32 (code : guarded_ptr) : outcome (Z * guarded_ptr) :=
  '(u, code) ← varint_from 32 code; Ret (varint_to 32 u, code).
Definition parse_varint64 (code : guarded_ptr) : outcome (Z * guarded_ptr) :=
  '(u, code) ← varint_from 64 code; Ret (varint_to 64 u, code).

(** ** The reference grammar

    [leb_u N bs v]: the bytes [bs] are a [uN] integer of the binary format with
    value [v]; [leb_s N bs v]: an [sN] integer. *)
Inductive leb_u : Z -> list Z -> Z -> Prop :=
  | leb_u_last N b : 0 <= b < 128 -> b < 2 ^ N -> leb_u N [b] b
  | leb_u_more N b bs v :
      128 <= b < 256 -> 7 < N -> leb_u (N - 7) bs v ->
      leb_u N (b :: bs) (2 ^ 7 * v + (b - 128)).

Inductive leb_s : Z -> list Z -> Z -> Prop :=
  | leb_s_pos N b : 0 <= b < 64 -> b < 2 ^ (N - 1) -> leb_s N [b] b
  | leb_s_neg N b : 64 <= b < 128 -> 128 - 2 ^ (N - 1) <= b -> leb_s N [b] (b - 128)
  | leb_s_more N b bs v :
      128 <= b < 256 -> 7 < N -> leb_s (N - 7) bs v ->
      leb_s N (b :: bs) (2 ^ 7 * v + (b - 128)).

(** Input buffers hold bytes. *)
Definition bytes (l : list Z) : Prop := Forall (fun b => 0 <= b < 256) l.

(** ** Bit facts about bytes *)

(** Every byte satisfies a decidable property that a computation over the 256
    values confirms. *)
Lemma byte_forall (P : Z -> bool) :
  forallb (fun n => P (Z.of_nat n)) (seq 0 256) = true ->
  forall b, 0 <= b < 256 -> P b = true.
Proof.
  intros H b Hb. rewrite forallb_forall in H. rewrite <- (Z2Nat.id b) by lia.
  apply H, in_seq. lia.
Qed.

Lemma byte_msb b : 0 <= b < 256 -> (Z.land b 0x80 =? 0) = (b <? 128).
Proof.
  intros Hb. apply eqb_true_iff.
  exact (byte_forall (fun b => eqb (Z.land b 0x80 =? 0) (b <? 128)) eq_refl b Hb).
Qed.

Lemma byte_bit6 b : 0 <= b < 128 -> (Z.land b 0x40 =? 0) = (b <? 64).
Proof.
  intros Hb. apply eqb_true_iff.
  pose proof (byte_forall (fun b => implb (b <? 128) (eqb (Z.land b 0x40 =? 0) (b <? 64)))
    eq_refl b ltac:(lia)) as H; simpl in H.
  destruct (Z.ltb_spec b 128); [done|lia].
Qed.

Lemma land_7f b : Z.land b 0x7f = b mod 2 ^ 7.
Proof. by apply (Z.land_ones b 7). Qed.

Lemma land_shiftl_low v c k : 0 <= k -> 0 <= c < 2 ^ k -> Z.land (Z.shiftl v k) c = 0.
Proof.
  intros Hk Hc. apply Z.bits_inj'. intros i Hi. rewrite Z.land_spec, Z.bits_0.
  destruct (Z.lt_ge_cases i k); [by rewrite Z.shiftl_spec_low by lia|].
  rewrite <- (Z.mod_small c (2 ^ k)), Z.mod_pow2_bits_high by lia.
  apply andb_false_r.
Qed.

Lemma lor_shiftl_add v c k : 0 <= k -> 0 <= c < 2 ^ k -> Z.lor (Z.shiftl v k) c = 2 ^ k * v + c.
Proof.
  intros Hk Hc. pose proof (land_shiftl_low v c k Hk Hc) as H.
  rewrite <- Z.lxor_lor, <- Z.add_nocarry_lxor by done. rewrite Z.shiftl_mul_pow2 by lia. lia.
Qed.

(** ** The value of a byte string in base 128 *)
Definition val7 (l : list Z) : Z := fold_right (fun b v => 2 ^ 7 * v + b mod 2 ^ 7) 0 l.

Lemma val7_bound l : 0 <= val7 l < 2 ^ (7 * Z.of_nat (length l)).
Proof.
  induction l as [|b l IH]; [done|]. simpl length.
  replace (7 * Z.of_nat (S (length l))) with (7 + 7 * Z.of_nat (length l)) by lia.
  rewrite Z.pow_add_r by lia. simpl val7.
  pose proof (Z.mod_pos_bound b (2 ^ 7) eq_refl). change (2 ^ 7) with 128 in *. lia.
Qed.

Lemma shiftl7_wrap w x : 7 <= w -> wrap w (2 ^ 7 * x) = 2 ^ 7 * wrap (w - 7) x.
Proof.
  intros Hw. unfold wrap. replace w with (7 + (w - 7)) at 1 by lia.
  rewrite Z.pow_add_r by lia. apply Z.mul_mod_distr_l; lia.
Qed.

Lemma shiftl7_wrap_acc w x :
  7 <= w -> wrap w (Z.shiftl (wrap w x) 7) = Z.shiftl (wrap (w - 7) x) 7.
Proof.
  intros Hw. rewrite !(Z.shiftl_mul_pow2 _ 7), !(Z.mul_comm _ (2 ^ 7)) by lia.
  rewrite <- shiftl7_wrap by lia. unfold wrap. apply Z.mul_mod_idemp_r. lia.
Qed.

(** The accumulation loop of [to()] computes [val7] modulo [2^w]. *)
Lemma to_loop_val7 w l :
  7 <= w ->
  fold_right (fun b ret => wrap w (Z.lor (wrap w (Z.shiftl ret 7)) (Z.land b 0x7f))) 0 l
    = wrap w (val7 l).
Proof.
  intros Hw. induction l as [|b l IH]; simpl fold_right; [done|].
  rewrite IH, land_7f, shiftl7_wrap_acc by lia.
  rewrite lor_shiftl_add by (try apply Z.mod_pos_bound; lia).
  simpl val7. change (2 ^ 7) with 128. rewrite <- (shiftl7_wrap w) by lia.
  unfold wrap. apply Z.add_mod_idemp_l. lia.
Qed.

(** ** The grammar determines the value *)
Lemma leb_u_val7 N bs v : leb_u N bs v -> v = val7 bs /\ in_u N v /\ bs <> [].
Proof.
  induction 1 as [N b Hb Hlt|N b bs v Hb HN _ (IH1 & IH2 & _)].
  - unfold in_u. simpl. rewrite Z.mod_small by lia. split_and!; [lia|lia|lia|done].
  - change (2 ^ 7) with 128 in *. simpl val7. unfold in_u in *. rewrite <- IH1.
    replace N with (7 + (N - 7)) by lia. rewrite Z.pow_add_r by lia.
    replace (b mod 2 ^ 7) with (b - 128); [change (2 ^ 7) with 128; split_and!; [lia|lia|lia|done]|].
    apply (Z.mod_unique _ _ 1); change (2 ^ 7) with 128; lia.
Qed.

(** A signed integer of [n] bytes is [val7] of its bytes, less [2^(7n)] when bit
    6 of the last byte is set. *)
Lemma leb_s_val7 N bs v :
  leb_s N bs v ->
  in_s N v /\
  exists l b, bs = l ++ [b] /\ 0 <= b < 128 /\
    v = val7 bs - (if b <? 64 then 0 else 2 ^ (7 * Z.of_nat (length bs))).
Proof.
  induction 1 as [N b Hb Hlt|N b Hb Hlt|N b bs v Hb HN _ (IH1 & l & c & -> & Hc & ->)].
  - split; [unfold in_s; lia|]. exists [], b. simpl. rewrite Z.mod_small by lia.
    split_and!; [done|lia|lia|]. destruct (Z.ltb_spec b 64); lia.
  - split; [unfold in_s; lia|]. exists [], b. simpl. rewrite Z.mod_small by lia.
    split_and!; [done|lia|lia|]. destruct (Z.ltb_spec b 64); lia.
  - assert (Hm : b mod 128 = b - 128) by (symmetry; apply (Z.mod_unique _ _ 1); lia).
    split.
    + unfold in_s in *. replace (N - 1) with (7 + (N - 7 - 1)) by lia.
      rewrite Z.pow_add_r by lia. change (2 ^ 7) with 128. lia.
    + exists (b :: l), c. split; [done|]. split; [done|].
      simpl val7. change (2 ^ 7) with 128. rewrite Hm.
      rewrite length_cons. 
      replace (7 * Z.of_nat (S (length (l ++ [c])))) with (7 + 7 * Z.of_nat (length (l ++ [c]))) by lia.
      rewrite Z.pow_add_r by lia. change (2 ^ 7) with 128. destruct (Z.ltb_spec c 64); lia.
Qed.

(** ** The check on the unused bits of the last byte *)
Definition leb_mask (off : Z) : Z := Z.land (wrap 8 (Z.shiftl (2 ^ 32 - 1) off)) 0x7F.

Ltac case_off off :=
  assert (off = 1 \/ off = 2 \/ off = 3 \/ off = 4 \/ off = 5 \/ off = 6 \/ off = 7)
    as Hcases by lia; destruct_or! Hcases; subst off.

Lemma mask_unsigned off b :
  1 <= off <= 7 -> 0 <= b < 128 -> (Z.land (leb_mask off) b =? 0) = (b <? 2 ^ off).
Proof.
  intros Ho Hb. apply eqb_true_iff.
  case_off off;
    match goal with |- eqb (Z.land (leb_mask ?o) b =? 0) _ = true =>
      pose proof (byte_forall (fun b => implb (b <? 128)
        (eqb (Z.land (leb_mask o) b =? 0) (b <? 2 ^ o))) eq_refl b ltac:(lia)) as H
    end; cbv beta in H; destruct (Z.ltb_spec b 128); (done || lia).
Qed.

Lemma mask_signed off b :
  1 <= off <= 7 -> 0 <= b < 128 ->
  (Z.land (leb_mask off) b =?
     (if Z.land b (Z.shiftl 1 (off - 1)) =? 0 then 0 else leb_mask off))
  = (b <? 2 ^ (off - 1)) || (128 - 2 ^ (off - 1) <=? b).
Proof.
  intros Ho Hb. apply eqb_true_iff.
  case_off off;
    match goal with |- eqb (Z.land (leb_mask ?o) b =? _) _ = true =>
      pose proof (byte_forall (fun b => implb (b <? 128)
        (eqb (Z.land (leb_mask o) b =?
               (if Z.land b (Z.shiftl 1 (o - 1)) =? 0 then 0 else leb_mask o))
             ((b <? 2 ^ (o - 1)) || (128 - 2 ^ (o - 1) <=? b)))) eq_refl b ltac:(lia)) as H
    end; cbv beta in H; destruct (Z.ltb_spec b 128); (done || lia).
Qed.

(** The widths the templates are instantiated at. *)
Definition leb_width (N : Z) : Prop :=
  (7 * (bytes_needed N - 1) < N <= 7 * bytes_needed N) /\ 1 <= bytes_needed N.

Lemma leb_width_1 : leb_width 1. Proof. done. Qed.
Lemma leb_width_7 : leb_width 7. Proof. done. Qed.
Lemma leb_width_32 : leb_width 32. Proof. done. Qed.
Lemma leb_width_64 : leb_width 64. Proof. done. Qed.
#[export] Hint Resolve leb_width_1 leb_width_7 leb_width_32 leb_width_64 : eosvm.

(** ** What the reading loop sees at byte [cnt] *)
Lemma at_remaining_cases p cnt :
  GuardedPtr.wf p -> bytes (GuardedPtr.remaining p) -> 0 <= cnt ->
  (GuardedPtr.bounds p <= GuardedPtr.offset p + cnt /\
     drop (Z.to_nat cnt) (GuardedPtr.remaining p) = []) \/
  (exists b l, GuardedPtr.offset p + cnt < GuardedPtr.bounds p /\
     GuardedPtr.at_ p cnt = Ret b /\ 0 <= b < 256 /\
     drop (Z.to_nat cnt) (GuardedPtr.remaining p) = b :: l /\
     drop (Z.to_nat (cnt + 1)) (GuardedPtr.remaining p) = l).
Proof.
  intros Hwf Hby Hc. pose proof (GuardedPtr.length_remaining p Hwf) as Hl.
  unfold GuardedPtr.bounds, GuardedPtr.offset.
  destruct (GuardedPtr.remaining p !! Z.to_nat cnt) as [b|] eqn:E.
  - right. pose proof (drop_S _ _ _ E) as Hd.
    exists b, (drop (Z.to_nat (cnt + 1)) (GuardedPtr.remaining p)).
    split; [apply lookup_lt_Some in E; lia|].
    split; [by apply GuardedPtr.at_remaining|].
    split; [by eapply (Forall_lookup_1 _ _ _ _ Hby E)|].
    rewrite Hd. replace (Z.to_nat (cnt + 1)) with (S (Z.to_nat cnt)) by lia. done.
  - left. apply lookup_ge_None in E. split; [lia|]. apply drop_ge. lia.
Qed.

(** ** The reading loops follow the grammar *)

(** What a reading loop promises: it stops after the bytes of an integer of the
    grammar, or throws because the input starts with none. *)
Definition reads (leb : list Z -> Z -> Prop) (input : list Z) (o : outcome (list Z)) : Prop :=
  match o with
  | Ret st => exists v rest, input = st ++ rest /\ leb st v
  | Throw _ => forall st v rest, input = st ++ rest -> ~ leb st v
  | UB _ => False
  end.

Lemma reads_nil (leb : list Z -> Z -> Prop) e :
  (forall st v, leb st v -> st <> []) -> reads leb [] (Throw e).
Proof. intros Hne st v rest Heq Hl. symmetry in Heq. apply app_eq_nil in Heq as [-> _]. by eapply Hne. Qed.

Lemma leb_u_inv N b bs v :
  leb_u N (b :: bs) v ->
  (bs = [] /\ v = b /\ 0 <= b < 128 /\ b < 2 ^ N) \/
  (exists v', leb_u (N - 7) bs v' /\ 7 < N /\ 128 <= b < 256 /\ v = 2 ^ 7 * v' + (b - 128)).
Proof. inversion 1; subst; [by left|right; eauto 10]. Qed.

Lemma leb_s_inv N b bs v :
  leb_s N (b :: bs) v ->
  (bs = [] /\ ((0 <= b < 64 /\ b < 2 ^ (N - 1) /\ v = b) \/
               (64 <= b < 128 /\ 128 - 2 ^ (N - 1) <= b /\ v = b - 128))) \/
  (exists v', leb_s (N - 7) bs v' /\ 7 < N /\ 128 <= b < 256 /\ v = 2 ^ 7 * v' + (b - 128)).
Proof. inversion 1; subst; [by left; eauto 10|by left; eauto 10|right; eauto 10]. Qed.

Lemma leb_u_nonempty N st v : leb_u N st v -> st <> [].
Proof. by inversion 1. Qed.
Lemma leb_s_nonempty N st v : leb_s N st v -> st <> [].
Proof. by inversion 1. Qed.
#[export] Hint Resolve leb_u_nonempty leb_s_nonempty : eosvm.

Lemma leb_u_last_exists M b : 0 <= b < 128 -> b < 2 ^ M -> exists v, leb_u M [b] v.
Proof. intros. exists b. by constructor. Qed.

(** Both loops are the same but for the check of the last byte: the section
    proves it once, for a grammar [leb] whose one-byte integers of width [M] are
    the bytes of [last M]. *)
Section ReadLoop.
Context (N : Z) (p : guarded_ptr) (leb : Z -> list Z -> Z -> Prop) (last : Z -> Z -> Prop).
Context (check : Z -> outcome unit) (read : nat -> Z -> outcome (list Z)).
Hypothesis HN : leb_width N.
Hypothesis Hwf : GuardedPtr.wf p.
Hypothesis Hby : bytes (GuardedPtr.remaining p).
Hypothesis leb_cons : forall M b bs v, leb M (b :: bs) v ->
  (b < 128 /\ last M b) \/
  (exists v', leb (M - 7) bs v' /\ 7 < M /\ 128 <= b).
Hypothesis leb_nonempty : forall M st v, leb M st v -> st <> [].
Hypothesis leb_one : forall M b, 0 <= b < 128 -> last M b -> exists v, leb M [b] v.
Hypothesis leb_more : forall M b bs v, 128 <= b < 256 -> 7 < M -> leb (M - 7) bs v ->
  leb M (b :: bs) (2 ^ 7 * v + (b - 128)).
Hypothesis last_wide : forall M b, 7 < M -> 0 <= b < 128 -> last M b.
Hypothesis check_last : forall b, 0 <= b < 128 ->
  (check b = Ret tt /\ last (N - 7 * (bytes_needed N - 1)) b) \/
  (exists e, check b = Throw e /\ ~ last (N - 7 * (bytes_needed N - 1)) b).
Hypothesis read_S : forall fuel cnt, read (S fuel) cnt =
  (EOS_VM_ASSERT (cnt <? bytes_needed N)
      (wasm_interpreter_exception "incorrect leb128 encoding");;
    EOS_VM_ASSERT (GuardedPtr.offset p + cnt <? GuardedPtr.bounds p)
      (wasm_interpreter_exception "pointer out of bounds");;
    b ← GuardedPtr.at_ p cnt;
    if Z.land b 0x80 =? 0 then
      (if cnt + 1 =? bytes_needed N then check b else Ret tt);; Ret [b]
    else l ← read fuel (cnt + 1); Ret (b :: l)).

(** The case of a final byte. *)
Lemma read_last_byte cnt b l :
  0 <= cnt < bytes_needed N -> 0 <= b < 128 ->
  reads (leb (N - 7 * cnt)) (b :: l)
    ((if cnt + 1 =? bytes_needed N then check b else Ret tt);; Ret [b]).
Proof.
  intros Hc Hb. destruct HN as [HN1 HN2].
  destruct (Z.eqb_spec (cnt + 1) (bytes_needed N)) as [Hlast|Hmore].
  - replace (N - 7 * cnt) with (N - 7 * (bytes_needed N - 1)) by lia.
    destruct (check_last b Hb) as [[-> Hl]|(e & -> & Hl)]; simpl.
    + destruct (leb_one _ b Hb Hl) as [v Hv]. by exists v, l.
    + intros st v rest Heq Hs. destruct st as [|c st]; [by apply leb_nonempty in Hs|].
      simplify_eq/=. apply leb_cons in Hs as [(_ & ?)|(? & _ & _ & ?)]; [done|lia].
  - simpl. destruct (leb_one (N - 7 * cnt) b Hb) as [v Hv];
      [apply last_wide; lia|by exists v, l].
Qed.

Lemma read_loop_spec fuel cnt :
  0 <= cnt -> bytes_needed N - cnt < Z.of_nat fuel -> 0 < N - 7 * cnt ->
  reads (leb (N - 7 * cnt)) (drop (Z.to_nat cnt) (GuardedPtr.remaining p)) (read fuel cnt).
Proof using All.
  revert cnt. induction fuel as [|fuel IH]; intros cnt Hc Hf Hpos;
    pose proof HN as [HN1 HN2]; [lia|].
  rewrite read_S. unfold EOS_VM_ASSERT.
  destruct (Z.ltb_spec cnt (bytes_needed N)); [simpl|lia].
  destruct (at_remaining_cases p cnt Hwf Hby Hc)
    as [[Hb Hd]|(b & l & Hb & Hat & Hr & Hd & Hd')];
    destruct (Z.ltb_spec (GuardedPtr.offset p + cnt) (GuardedPtr.bounds p)); try lia; simpl.
  { rewrite Hd. intros st v rest Heq Hs.
    symmetry in Heq. apply app_eq_nil in Heq as [-> _]. by apply leb_nonempty in Hs. }
  rewrite Hat, Hd. simpl. rewrite byte_msb by done.
  destruct (Z.ltb_spec b 128) as [Hlt|Hge]; [apply read_last_byte; lia|].
  destruct (Z.lt_ge_cases 0 (N - 7 * (cnt + 1))) as [Hn|Hn].
  - specialize (IH (cnt + 1) ltac:(lia) ltac:(lia) Hn). rewrite Hd' in IH.
    replace (N - 7 * (cnt + 1)) with (N - 7 * cnt - 7) in IH by lia.
    destruct (read fuel (cnt + 1)) as [st|e|w]; simpl in *; [| |done].
    + destruct IH as (v & rest & -> & IH). exists (2 ^ 7 * v + (b - 128)), rest.
      split; [done|]. apply leb_more; [lia|lia|done].
    + intros st v rest Heq Hs. destruct st as [|c st]; [by apply leb_nonempty in Hs|].
      simplify_eq/=. apply leb_cons in Hs as [(? & _)|(v' & ? & _)]; [lia|]. by eapply IH.
  - assert (E : exists e, read fuel (cnt + 1) = Throw e).
    { destruct fuel; [lia|]. rewrite read_S. unfold EOS_VM_ASSERT.
      destruct (Z.ltb_spec (cnt + 1) (bytes_needed N)); [lia|]. by eexists. }
    destruct E as [e ->]. simpl. intros st v rest Heq Hs.
    destruct st as [|c st]; [by apply leb_nonempty in Hs|]. simplify_eq/=.
    apply leb_cons in Hs as [(? & _)|(v' & _ & ? & _)]; lia.
Qed.

Lemma read_spec : reads (leb N) (GuardedPtr.remaining p) (read (leb_fuel N) 0).
Proof using All.
  pose proof HN as [? ?].
  pose proof (read_loop_spec (leb_fuel N) 0 ltac:(lia) ltac:(unfold leb_fuel; lia) ltac:(lia)) as Hr.
  by replace (N - 7 * 0) with N in Hr by lia.
Qed.
End ReadLoop.

(** The one-byte signed integers of width [M]. *)
Definition last_s (M b : Z) : Prop :=
  (b < 64 /\ b < 2 ^ (M - 1)) \/ (64 <= b /\ 128 - 2 ^ (M - 1) <= b).

Lemma leb_s_last_exists M b : 0 <= b < 128 -> last_s M b -> exists v, leb_s M [b] v.
Proof.
  intros Hb [[? ?]|[? ?]]; [exists b; apply leb_s_pos; lia|exists (b - 128); apply leb_s_neg; lia].
Qed.

Lemma mask_signed_last off b :
  1 <= off <= 7 -> 0 <= b < 128 ->
  (b <? 2 ^ (off - 1)) || (128 - 2 ^ (off - 1) <=? b) = true <-> last_s off b.
Proof.
  intros Ho Hb. unfold last_s. rewrite orb_true_iff, Z.ltb_lt, Z.leb_le.
  pose proof (Z.pow_le_mono_r 2 (off - 1) 6 ltac:(lia) ltac:(lia)) as Hp.
  change (2 ^ 6) with 64 in Hp. lia.
Qed.

Lemma pow2_7 : 2 ^ 7 = 128.
Proof. reflexivity. Qed.

Lemma varuint_read_spec N p :
  leb_width N -> GuardedPtr.wf p -> bytes (GuardedPtr.remaining p) ->
  reads (leb_u N) (GuardedPtr.remaining p) (varuint_read N (leb_fuel N) 0 p).
Proof.
  intros HN Hwf Hby. pose proof HN as [? ?].
  apply (read_spec N p leb_u (fun M b => b < 2 ^ M)
    (fun b => EOS_VM_ASSERT (Z.land (leb_mask (N - 7 * (bytes_needed N - 1))) b =? 0)
       (wasm_parse_exception "unused bits of unsigned leb128 must be 0"))
    (fun fuel cnt => varuint_read N fuel cnt p)); try done; cbv beta.
  - intros M b bs v Hl. apply leb_u_inv in Hl as [?|(v' & ?)]; [lia|].
    right; exists v'; split_and!; [tauto|lia|lia].
  - apply leb_u_nonempty.
  - apply leb_u_last_exists.
  - intros. by apply leb_u_more.
  - intros M b HM Hb. pose proof (Z.pow_le_mono_r 2 7 M ltac:(lia) ltac:(lia)).
    rewrite pow2_7 in *. lia.
  - intros b Hb. rewrite mask_unsigned by lia.
    destruct (Z.ltb_spec b (2 ^ (N - 7 * (bytes_needed N - 1)))); [by left|right].
    eexists; split; [done|lia].
Qed.

Lemma varint_read_spec N p :
  leb_width N -> GuardedPtr.wf p -> bytes (GuardedPtr.remaining p) ->
  reads (leb_s N) (GuardedPtr.remaining p) (varint_read N (leb_fuel N) 0 p).
Proof.
  intros HN Hwf Hby. pose proof HN as [? ?].
  set (off := N - 7 * (bytes_needed N - 1)).
  apply (read_spec N p leb_s last_s
    (fun b => EOS_VM_ASSERT (Z.land (leb_mask off) b =?
         (if Z.land b (Z.shiftl 1 (off - 1)) =? 0 then 0 else leb_mask off))
       (wasm_parse_exception "unused bits of signed leb128 must be the same as the sign bit"))
    (fun fuel cnt => varint_read N fuel cnt p)); try done; cbv beta.
  - intros M b bs v Hl. unfold last_s.
    apply leb_s_inv in Hl as [?|(v' & ?)]; [left; lia|].
    right; exists v'; split_and!; [tauto|lia|lia].
  - apply leb_s_nonempty.
  - apply leb_s_last_exists.
  - intros. by apply leb_s_more.
  - intros M b HM Hb. pose proof (Z.pow_le_mono_r 2 6 (M - 1) ltac:(lia) ltac:(lia)).
    change (2 ^ 6) with 64 in *. unfold last_s. lia.
  - intros b Hb. rewrite mask_signed by lia. fold off.
    pose proof (mask_signed_last off b ltac:(lia) Hb) as Hm.
    destruct (_ || _); [left; split; [done|by apply Hm]|right].
    eexists; split; [done|intros Hl; by apply Hm in Hl].
Qed.

(** An integer of the grammar fits in [bytes_needed] bytes. *)
Lemma leb_u_length N bs v : 0 < N -> leb_u N bs v -> 7 * (Z.of_nat (length bs) - 1) < N.
Proof. intros HN H. revert HN. induction H; intros; rewrite ?length_cons; simpl length; lia. Qed.

Lemma leb_s_length N bs v : 0 < N -> leb_s N bs v -> 7 * (Z.of_nat (length bs) - 1) < N.
Proof. intros HN H. revert HN. induction H; intros; rewrite ?length_cons; simpl length; lia. Qed.

(** No integer of the grammar is a proper prefix of another one. *)
Lemma leb_u_prefix N bs v bs' v' r r' :
  leb_u N bs v -> leb_u N bs' v' -> bs ++ r = bs' ++ r' -> bs = bs' /\ v = v'.
Proof.
  intros H. revert bs' v'. induction H as [N b Hb Hlt|N b bs v Hb HN H IH]; intros bs' v' H' E;
    (destruct bs' as [|c bs']; [by inversion H'|]); simplify_eq/=;
    apply leb_u_inv in H' as [(-> & -> & ? & ?)|(w & ? & ? & ? & ->)]; try lia.
  - done.
  - by destruct (IH bs' w) as [-> ->].
Qed.

Lemma leb_s_prefix N bs v bs' v' r r' :
  leb_s N bs v -> leb_s N bs' v' -> bs ++ r = bs' ++ r' -> bs = bs' /\ v = v'.
Proof.
  intros H. revert bs' v'.
  induction H as [N b Hb Hlt|N b Hb Hlt|N b bs v Hb HN H IH]; intros bs' v' H' E;
    (destruct bs' as [|c bs']; [by inversion H'|]); simplify_eq/=;
    apply leb_s_inv in H' as [(-> & [(? & ? & ->)|(? & ? & ->)])|(w & ? & ? & ? & ->)];
    try lia; try done.
  by destruct (IH bs' w) as [-> ->].
Qed.

(** ** Reading the value back *)
Lemma varuint_to32_val st n v : leb_u 32 st v -> varuint_to32 (Varuint st n) = v.
Proof.
  intros (E & Hr & _)%leb_u_val7. unfold varuint_to32. simpl storage.
  rewrite to_loop_val7, <- E by lia. by apply wrap_small.
Qed.

(** [ret |= (-1ull) << shift] subtracts [2^shift] from a value below it. *)
Lemma sign_fill w k x :
  0 < w <= 64 -> 0 <= k <= 64 -> 0 <= x < 2 ^ k ->
  wrap w (Z.lor x (wrap 64 (Z.shiftl (2 ^ 64 - 1) k))) = wrap w (x - 2 ^ k).
Proof.
  intros Hw Hk Hx.
  assert (H64 : 2 ^ 64 = 2 ^ k * 2 ^ (64 - k)) by (rewrite <- Z.pow_add_r by lia; f_equal; lia).
  assert (E : wrap 64 (Z.shiftl (2 ^ 64 - 1) k) = Z.shiftl (2 ^ (64 - k) - 1) k).
  { rewrite !Z.shiftl_mul_pow2 by lia. symmetry. unfold wrap.
    pose proof (Z.pow_pos_nonneg 2 k ltac:(lia) ltac:(lia)).
    pose proof (Z.pow_pos_nonneg 2 (64 - k) ltac:(lia) ltac:(lia)).
    apply (Z.mod_unique _ _ (2 ^ k - 1)); nia. }
  rewrite E, Z.lor_comm, lor_shiftl_add by lia. unfold wrap.
  replace (2 ^ k * (2 ^ (64 - k) - 1) + x) with (x - 2 ^ k + 2 ^ (64 - w) * 2 ^ w).
  - apply Z.mod_add. lia.
  - rewrite <- Z.pow_add_r by lia. replace (64 - w + w) with 64 by lia. lia.
Qed.

Lemma nthZ_last (l : list Z) b : nthZ (l ++ [b]) (Z.of_nat (length (l ++ [b])) - 1) = Some b.
Proof.
  rewrite length_app. simpl. unfold nthZ. destruct (Z.ltb_spec (Z.of_nat (length l + 1) - 1) 0); [lia|].
  apply lookup_app_Some. right. replace (Z.to_nat _) with (length l) by lia.
  by rewrite Nat.sub_diag.
Qed.

Lemma varint_to_val w st v :
  w = 32 \/ w = 64 -> leb_s w st v -> varint_to w (Varuint st (Z.of_nat (length st))) = v.
Proof.
  intros Hw Hl. assert (0 < w <= 64) by lia.
  pose proof (leb_s_length w st v ltac:(lia) Hl) as Hlen.
  apply leb_s_val7 in Hl as (Hr & l & b & Est & Hb & Ev).
  unfold varint_to. simpl storage. simpl bytes_used.
  rewrite to_loop_val7, Est, nthZ_last, <- Est, byte_bit6 by lia.
  pose proof (val7_bound st) as Hv.
  rewrite <- (sext_small w v) by (done || lia). apply wrap_eq_sext_eq.
  set (n := Z.of_nat (length st)) in *.
  assert (Hn1 : 1 <= n) by (subst n; rewrite Est, length_app; simpl; lia).
  destruct (Z.leb_spec 1 n); [simpl|lia].
  destruct (Z.ltb_spec n (bytes_needed w)) as [Hn|Hn].
  - assert (7 * n < w) by (destruct Hw; subst w; unfold bytes_needed in Hn; simpl in Hn; lia).
    pose proof (Z.pow_lt_mono_r 2 (7 * n) w ltac:(lia) ltac:(lia) ltac:(lia)) as Hp.
    rewrite (wrap_small w (val7 st)) by (unfold in_u; lia).
    destruct (b <? 64); simpl; [rewrite Ev; f_equal; lia|].
    rewrite wrap_wrap, (Z.mul_comm n 7), sign_fill by lia. by rewrite Ev.
  - simpl. rewrite wrap_wrap by lia. rewrite Ev. destruct (b <? 64); [by rewrite Z.sub_0_r|].
    assert (w <= 7 * n) by (destruct Hw; subst w; unfold bytes_needed in Hn; simpl in Hn; lia).
    unfold wrap. replace (7 * n) with (7 * n - w + w) by lia.
    rewrite Z.pow_add_r, <- (Z.mod_add (val7 st - _) (2 ^ (7 * n - w))) by lia. f_equal. lia.
Qed.

(** ** The encoders produce the grammar *)
Lemma shiftr7 v : v = 2 ^ 7 * Z.shiftr v 7 + Z.land v 0x7f.
Proof.
  rewrite land_7f, Z.shiftr_div_pow2 by lia. apply Z.div_mod. lia.
Qed.

Lemma lor_0x80 b : 0 <= b < 128 -> Z.lor b 0x80 = b + 128.
Proof.
  intros. pose proof (lor_shiftl_add 1 b 7) as H'. rewrite pow2_7 in H'.
  change (Z.shiftl 1 7) with 128 in H'. rewrite Z.lor_comm, H' by lia. lia.
Qed.

Lemma land_7f_bound v : 0 <= Z.land v 0x7f < 128.
Proof. rewrite land_7f. by apply Z.mod_pos_bound. Qed.

Lemma varuint_from_loop_leb todo N v st n :
  0 <= v < 2 ^ N -> 0 < N <= 7 * Z.of_nat todo -> varuint_from_loop todo v = (st, n) ->
  leb_u N st v /\ n = Z.of_nat (length st).
Proof.
  revert N v st n. induction todo as [|todo IH]; intros N v st n Hv HN; [lia|].
  pose proof (shiftr7 v) as Hs. pose proof (land_7f_bound v) as Hb.
  rewrite pow2_7 in Hs. simpl. destruct (Z.eqb_spec (Z.shiftr v 7) 0) as [E|E].
  - intros [= <- <-]. split; [|done]. replace v with (Z.land v 127) at 2 by lia.
    apply leb_u_last; lia.
  - destruct (varuint_from_loop todo _) as [st' n'] eqn:El. intros [= <- <-].
    assert (0 < Z.shiftr v 7) by lia.
    assert (H7 : 7 < N).
    { destruct (Z.lt_ge_cases 7 N); [done|].
      pose proof (Z.pow_le_mono_r 2 N 7 ltac:(lia) ltac:(lia)). rewrite pow2_7 in *. lia. }
    assert (HN' : 2 ^ N = 128 * 2 ^ (N - 7))
      by (rewrite <- pow2_7, <- Z.pow_add_r by lia; f_equal; lia).
    destruct (IH (N - 7) (Z.shiftr v 7) st' n') as [IH1 ->]; [lia|lia|done|].
    rewrite lor_0x80 by lia. split; [|simpl length; lia].
    assert (Ev : v = 2 ^ 7 * Z.shiftr v 7 + (Z.land v 127 + 128 - 128)) by (rewrite pow2_7; lia).
    rewrite Ev at 2. by apply leb_u_more; [lia|lia|].
Qed.

Lemma varint_from_loop_leb todo N v st n :
  in_s N v -> 0 < N <= 7 * Z.of_nat todo -> varint_from_loop todo v = (st, n) ->
  leb_s N st v /\ n = Z.of_nat (length st).
Proof.
  unfold in_s. revert N v st n. induction todo as [|todo IH]; intros N v st n Hv HN; [lia|].
  pose proof (shiftr7 v) as Hs. pose proof (land_7f_bound v) as Hb.
  rewrite pow2_7 in Hs. simpl. rewrite byte_bit6 by lia.
  destruct (((Z.shiftr v 7 =? -1) && _) || _) eqn:E.
  - intros [= <- <-]. split; [|done].
    apply orb_true_iff in E as [E|E]; apply andb_true_iff in E as [E1 E2]; apply Z.eqb_eq in E1.
    + apply negb_true_iff, Z.ltb_ge in E2. replace v with (Z.land v 127 - 128) at 2 by lia.
      apply leb_s_neg; lia.
    + apply Z.ltb_lt in E2. replace v with (Z.land v 127) at 2 by lia. apply leb_s_pos; lia.
  - destruct (varint_from_loop todo _) as [st' n'] eqn:El. intros [= <- <-].
    apply orb_false_iff in E as [E1 E2].
    apply andb_false_iff in E1. apply andb_false_iff in E2.
    rewrite negb_false_iff, Z.ltb_lt, Z.eqb_neq in E1. rewrite Z.ltb_ge, Z.eqb_neq in E2.
    assert (H7 : 7 < N).
    { destruct (Z.lt_ge_cases 7 N); [done|].
      pose proof (Z.pow_le_mono_r 2 (N - 1) 6 ltac:(lia) ltac:(lia)).
      change (2 ^ 6) with 64 in *. lia. }
    assert (HN' : 2 ^ (N - 1) = 128 * 2 ^ (N - 7 - 1))
      by (rewrite <- pow2_7, <- Z.pow_add_r by lia; f_equal; lia).
    destruct (IH (N - 7) (Z.shiftr v 7) st' n') as [IH1 ->]; [lia|lia|done|].
    rewrite lor_0x80 by lia. split; [|simpl length; lia].
    assert (Ev : v = 2 ^ 7 * Z.shiftr v 7 + (Z.land v 127 + 128 - 128)) by (rewrite pow2_7; lia).
    rewrite Ev at 2. by apply leb_s_more; [lia|lia|].
Qed.

(** ** The parser's entry points *)

Lemma of_reads_iff {A} (leb : list Z -> A -> Prop) p (v : A) st rest :
  (forall bs bs' v v' (r r' : list Z), leb bs v -> leb bs' v' -> bs ++ r = bs' ++ r' -> bs = bs' /\ v = v') ->
  leb st v -> GuardedPtr.remaining p = st ++ rest ->
  forall v' p',
  (v, GuardedPtr.advanced p (Z.of_nat (length st))) = (v', p') <->
  exists bs rest, GuardedPtr.remaining p = bs ++ rest /\ leb bs v' /\
    p' = GuardedPtr.advanced p (Z.of_nat (length bs)).
Proof.
  intros Hpre Hv Hr v' p'. split.
  - intros [= <- <-]. eauto.
  - intros (bs' & rest' & Hr' & Hv' & ->).
    rewrite Hr in Hr'. by destruct (Hpre _ _ _ _ _ _ Hv Hv' Hr') as [-> ->].
Qed.

Lemma add_of_reads p st rest :
  GuardedPtr.wf p -> GuardedPtr.remaining p = st ++ rest ->
  GuardedPtr.add p (Z.of_nat (length st)) = Ret (GuardedPtr.advanced p (Z.of_nat (length st))).
Proof.
  intros Hwf Hr. apply GuardedPtr.add_ret.
  pose proof (GuardedPtr.length_remaining p Hwf) as Hl. rewrite Hr, length_app in Hl. lia.
Qed.

(** What an entry point does on the three outcomes of its reading loop. *)
Definition parses (leb : list Z -> Z -> Prop) (p : guarded_ptr)
    (o : outcome (Z * guarded_ptr)) : Prop :=
  ret_safe o /\
  forall v p', o = Ret (v, p') <->
    exists bs rest, GuardedPtr.remaining p = bs ++ rest /\ leb bs v /\
      p' = GuardedPtr.advanced p (Z.of_nat (length bs)).

Lemma parses_of_reads (leb : list Z -> Z -> Prop) p rd (conv : varuint -> Z) :
  (forall bs bs' v v' (r r' : list Z), leb bs v -> leb bs' v' -> bs ++ r = bs' ++ r' -> bs = bs' /\ v = v') ->
  (forall st v, leb st v -> conv (Varuint st (Z.of_nat (length st))) = v) ->
  GuardedPtr.wf p -> reads leb (GuardedPtr.remaining p) rd ->
  parses leb p
    ('(u, code) ← (st ← rd; code ← GuardedPtr.add p (Z.of_nat (length st));
                   Ret (Varuint st (Z.of_nat (length st)), code));
     Ret (conv u, code)).
Proof.
  intros Hpre Hconv Hwf Hr. destruct rd as [st|e|w]; simpl in *; [| |done].
  - destruct Hr as (v & rest & Hr & Hl).
    rewrite (add_of_reads p st rest Hwf Hr). simpl. rewrite (Hconv _ _ Hl).
    split; [done|]. intros v' p'.
    rewrite <- (of_reads_iff leb p v st rest Hpre Hl Hr v' p'). split; [by intros [= <- <-]|by intros [= <- <-]].
  - split; [done|]. intros v p'. split; [done|].
    intros (bs & rest & Hrem & Hl & _). by apply (Hr _ _ _ Hrem) in Hl.
Qed.

Lemma parse_varuint32_parses p :
  GuardedPtr.wf p -> bytes (GuardedPtr.remaining p) -> parses (leb_u 32) p (parse_varuint32 p).
Proof.
  intros. apply (parses_of_reads (leb_u 32) p _ varuint_to32); [| |done|].
  - intros *. apply leb_u_prefix.
  - intros. by apply varuint_to32_val.
  - apply varuint_read_spec; auto with eosvm.
Qed.

Lemma parse_varint32_parses p :
  GuardedPtr.wf p -> bytes (GuardedPtr.remaining p) -> parses (leb_s 32) p (parse_varint32 p).
Proof.
  intros. apply (parses_of_reads (leb_s 32) p _ (varint_to 32)); [| |done|].
  - intros *. apply leb_s_prefix.
  - intros. apply varint_to_val; auto.
  - apply varint_read_spec; auto with eosvm.
Qed.

Lemma parse_varint64_parses p :
  GuardedPtr.wf p -> bytes (GuardedPtr.remaining p) -> parses (leb_s 64) p (parse_varint64 p).
Proof.
  intros. apply (parses_of_reads (leb_s 64) p _ (varint_to 64)); [| |done|].
  - intros *. apply leb_s_prefix.
  - intros. apply varint_to_val; auto.
  - apply varint_read_spec; auto with eosvm.
Qed.

Lemma leb_u7_byte st v : leb_u 7 st v -> st = [v] /\ 0 <= v < 128.
Proof. inversion 1; subst; [done|lia]. Qed.

Lemma parse_varuint7_parses p :
  GuardedPtr.wf p -> bytes (GuardedPtr.remaining p) -> parses (leb_u 7) p (parse_varuint7 p).
Proof.
  intros. apply (parses_of_reads (leb_u 7) p _ varuint_to7); [| |done|].
  - intros *. apply leb_u_prefix.
  - intros st v [-> Hv]%leb_u7_byte. unfold varuint_to7, storage.
    rewrite land_7f. by apply Z.mod_small.
  - apply varuint_read_spec; auto with eosvm.
Qed.

Lemma varint_to7_val st n v : leb_s 7 st v -> varint_to7 (Varuint st n) = v.
Proof.
  inversion 1 as [? b Hb|? b Hb|]; subst; [| |lia]; unfold varint_to7, storage;
    rewrite byte_bit6 by lia.
  - destruct (Z.ltb_spec v 64); [done|lia].
  - destruct (Z.ltb_spec b 64); [lia|]. apply Z.eqb_eq.
    pose proof (byte_forall (fun b => implb ((64 <=? b) && (b <? 128))
      (sext 8 (Z.lor b (wrap 32 (Z.shiftl (2 ^ 32 - 1) 7))) =? b - 128)) eq_refl b ltac:(lia)) as E.
    cbv beta in E. destruct (Z.leb_spec 64 b); [|lia]. by destruct (Z.ltb_spec b 128); [|lia].
Qed.

Lemma parse_varint7_parses p :
  GuardedPtr.wf p -> bytes (GuardedPtr.remaining p) -> parses (leb_s 7) p (parse_varint7 p).
Proof.
  intros. apply (parses_of_reads (leb_s 7) p _ varint_to7); [| |done|].
  - intros *. apply leb_s_prefix.
  - intros. by apply varint_to7_val.
  - apply varint_read_spec; auto with eosvm.
Qed.

(** ** The properties *)

(** C34. On every input the unsigned LEB128 reader accepts exactly the byte
    strings of the grammar: [parse_varuint32] returns [v] and the advanced
    cursor precisely when the input starts with an encoding of [v] in [u32] —
    over-long encodings, set unused bits and truncated input throw — and it
    never reads outside its bounds. *)
Theorem parse_varuint32_correct p :
  GuardedPtr.wf p -> bytes (GuardedPtr.remaining p) ->
  ret_safe (parse_varuint32 p) /\
  forall v p', parse_varuint32 p = Ret (v, p') <->
    exists bs rest, GuardedPtr.remaining p = bs ++ rest /\ leb_u 32 bs v /\
      p' = GuardedPtr.advanced p (Z.of_nat (length bs)).
Proof. apply parse_varuint32_parses. Qed.

(** C35. The signed readers [parse_varint32] and [parse_varint64] accept exactly
    the signed LEB128 strings, with the sign-extended value, and never read
    outside the bounds. *)
Theorem parse_varint_correct p :
  GuardedPtr.wf p -> bytes (GuardedPtr.remaining p) ->
  parses (leb_s 32) p (parse_varint32 p) /\ parses (leb_s 64) p (parse_varint64 p).
Proof. intros. split; [by apply parse_varint32_parses|by apply parse_varint64_parses]. Qed.

Lemma varuint_of_u32_leb v :
  in_u 32 v ->
  leb_u 32 (storage (varuint_of_u32 32 v)) v /\
  bytes_used (varuint_of_u32 32 v) = Z.of_nat (length (storage (varuint_of_u32 32 v))).
Proof.
  intros Hv. unfold varuint_of_u32.
  destruct (varuint_from_loop _ _) as [st n] eqn:E. simpl.
  apply (varuint_from_loop_leb _ 32 v st n Hv) in E; [done|].
  rewrite Z2Nat.id by (unfold bytes_needed; simpl; lia). unfold bytes_needed; simpl; lia.
Qed.

Lemma varint_of_leb w v :
  w = 32 \/ w = 64 -> in_s w v ->
  leb_s w (storage (varint_of w v)) v /\
  bytes_used (varint_of w v) = Z.of_nat (length (storage (varint_of w v))).
Proof.
  intros Hw Hv. unfold varint_of.
  destruct (varint_from_loop _ _) as [st n] eqn:E. simpl.
  apply (varint_from_loop_leb _ w v st n Hv) in E; [done|].
  destruct Hw; subst w; rewrite Z2Nat.id by (unfold bytes_needed; simpl; lia);
    unfold bytes_needed; simpl; lia.
Qed.

(** C36. Round trip: the bytes that [varuint<32>] and [varint<32>]/[varint<64>]
    store for a value are read back as that value, consuming exactly the
    [bytes_used] bytes, whatever follows them. *)
Theorem leb128_roundtrip p v rest :
  GuardedPtr.wf p -> bytes (GuardedPtr.remaining p) ->
  (in_u 32 v -> GuardedPtr.remaining p = storage (varuint_of_u32 32 v) ++ rest ->
     parse_varuint32 p = Ret (v, GuardedPtr.advanced p (bytes_used (varuint_of_u32 32 v)))) /\
  (in_s 32 v -> GuardedPtr.remaining p = storage (varint_of 32 v) ++ rest ->
     parse_varint32 p = Ret (v, GuardedPtr.advanced p (bytes_used (varint_of 32 v)))) /\
  (in_s 64 v -> GuardedPtr.remaining p = storage (varint_of 64 v) ++ rest ->
     parse_varint64 p = Ret (v, GuardedPtr.advanced p (bytes_used (varint_of 64 v)))).
Proof.
  intros Hwf Hby. split_and!; intros Hv Hr.
  - destruct (varuint_of_u32_leb v Hv) as [? ->].
    apply (parse_varuint32_parses p Hwf Hby). eauto 6.
  - destruct (varint_of_leb 32 v) as [? ->]; [by left|done|].
    apply (parse_varint32_parses p Hwf Hby). eauto 6.
  - destruct (varint_of_leb 64 v) as [? ->]; [by right|done|].
    apply (parse_varint64_parses p Hwf Hby). eauto 6.
Qed.

(** ** Witnesses *)
Definition leb_example : guarded_ptr := GuardedPtr.of_buffer [0xe5; 0x8e; 0x26; 0x7f].

Lemma leb_example_wf : GuardedPtr.wf leb_example.
Proof. apply GuardedPtr.wf_of_buffer. Qed.
Lemma leb_example_bytes : bytes (GuardedPtr.remaining leb_example).
Proof. repeat constructor; done. Qed.

Lemma parse_varuint32_correct_witness :
  parse_varuint32 leb_example = Ret (624485, GuardedPtr.advanced leb_example 3).
Proof.
  apply (parse_varuint32_correct leb_example leb_example_wf leb_example_bytes).
  exists [0xe5; 0x8e; 0x26], [0x7f]. split; [reflexivity|]. split; [|reflexivity].
  change 624485 with (2 ^ 7 * (2 ^ 7 * 0x26 + (0x8e - 128)) + (0xe5 - 128)).
  apply leb_u_more; [lia|lia|]. apply leb_u_more; [lia|lia|]. apply leb_u_last; simpl; lia.
Defined.

Lemma parse_varint_correct_witness :
  parse_varint32 (GuardedPtr.of_buffer [0x80; 0x7f]) =
    Ret (-128, GuardedPtr.advanced (GuardedPtr.of_buffer [0x80; 0x7f]) 2).
Proof.
  apply (parse_varint_correct (GuardedPtr.of_buffer [0x80; 0x7f])).
  - apply GuardedPtr.wf_of_buffer.
  - repeat constructor; done.
  - exists [0x80; 0x7f], []. split; [reflexivity|]. split; [|reflexivity].
    change (-128) with (2 ^ 7 * (0x7f - 128) + (0x80 - 128)).
    apply leb_s_more; [lia|lia|]. apply leb_s_neg; simpl; lia.
Defined.

Lemma leb128_roundtrip_witness :
  parse_varint64 (GuardedPtr.of_buffer [0xc0; 0xbb; 0x78; 0x7f]) =
    Ret (-123456, GuardedPtr.advanced (GuardedPtr.of_buffer [0xc0; 0xbb; 0x78; 0x7f]) 3).
Proof.
  apply (leb128_roundtrip (GuardedPtr.of_buffer [0xc0; 0xbb; 0x78; 0x7f]) (-123456) [0x7f]).
  - apply GuardedPtr.wf_of_buffer.
  - repeat constructor; done.
  - unfold in_s. simpl. lia.
  - vm_compute. reflexivity.
Defined.
