(* ===== verification/WasmStack.v ===== *)
(** * The operand stack and the call stack (wasm_stack.hpp)

    [stack<ElemT, ElemSz>] over a [std::vector]: [push] doubles the vector when
    it is full, the other operations index it directly.  The abstract stack is
    the list of the elements below [_index], top first; every operation is shown
    to refine its list counterpart. *)
From S2P Require Import Prelude.

Definition initial_stack_size : Z := 8.
Definition max_call_depth : Z := 250.

Record stack (ElemT : Type) : Type := Stack { _store : list ElemT; _index : Z }.
Arguments Stack {ElemT}.
Arguments _store {ElemT}.
Arguments _index {ElemT}.

Module WStack.
Section Ops.
Context {ElemT : Type} (dflt : ElemT).   (* a value-initialised element *)

(** [stack() : _store(ElemSz)] *)
Definition make (ElemSz : Z) : stack ElemT := Stack (replicate (Z.to_nat ElemSz) dflt) 0.

Definition capacity (s : stack ElemT) : Z := Z.of_nat (length (_store s)).

(** [_store.resize(n)] *)
Definition resize (n : Z) (l : list ElemT) : list ElemT :=
  take (Z.to_nat n) l ++ replicate (Z.to_nat n - length l) dflt.

Definition push (e : ElemT) (s : stack ElemT) : outcome (stack ElemT) :=
  let st := if capacity s <=? _index s then resize (capacity s * 2) (_store s) else _store s in
  st' ← or_UB "stack write out of range" (insZ st (_index s) e);
  Ret (Stack st' (_index s + 1)).

Definition pop (s : stack ElemT) : outcome (ElemT * stack ElemT) :=
  e ← or_UB "stack read out of range" (nthZ (_store s) (_index s - 1));
  Ret (e, Stack (_store s) (_index s - 1)).

Definition get (index : Z) (s : stack ElemT) : outcome ElemT :=
  EOS_VM_ASSERT (index <=? _index s) (wasm_interpreter_exception "invalid stack index");;
  or_UB "stack read out of range" (nthZ (_store s) index).

Definition set_ (index : Z) (el : ElemT) (s : stack ElemT) : outcome (stack ElemT) :=
  EOS_VM_ASSERT (index <=? _index s) (wasm_interpreter_exception "invalid stack index");;
  st ← or_UB "stack write out of range" (insZ (_store s) index el);
  Ret (Stack st (_index s)).

Definition eat (index : Z) (s : stack ElemT) : stack ElemT := Stack (_store s) index.

(** compact the last element to the element pointed to by index *)
Definition compact (index : Z) (s : stack ElemT) : outcome (stack ElemT) :=
  e ← or_UB "stack read out of range" (nthZ (_store s) (_index s - 1));
  st ← or_UB "stack write out of range" (insZ (_store s) index e);
  Ret (Stack st (index + 1)).

(** [peek(i)], [get_back(i)]; [peek()] is [peek(0)] *)
Definition get_back (i : Z) (s : stack ElemT) : outcome ElemT :=
  or_UB "stack read out of range" (nthZ (_store s) (_index s - 1 - i)).

(** An assignment through the reference [peek()] returns. *)
Definition set_peek (el : ElemT) (s : stack ElemT) : outcome (stack ElemT) :=
  st ← or_UB "stack write out of range" (insZ (_store s) (_index s - 1) el);
  Ret (Stack st (_index s)).

Definition trim (amt : Z) (s : stack ElemT) : stack ElemT :=
  Stack (_store s) (wrap 64 (_index s - amt)).

Definition size (s : stack ElemT) : Z := _index s.

Definition reset_capacity (s : stack ElemT) : stack ElemT :=
  if initial_stack_size <? capacity s
  then Stack (resize initial_stack_size (_store s)) (_index s) else s.

(** ** The abstract stack *)
Definition wf (s : stack ElemT) : Prop := 0 <= _index s <= capacity s /\ 0 < capacity s < 2 ^ 64.

Definition contents (s : stack ElemT) : list ElemT :=
  reverse (take (Z.to_nat (_index s)) (_store s)).

Lemma contents_length s : wf s -> Z.of_nat (length (contents s)) = _index s.
Proof. intros [? ?]. unfold contents, capacity in *. rewrite length_reverse, length_take. lia. Qed.

Lemma contents_lookup s i :
  wf s -> 0 <= i < _index s ->
  contents s !! Z.to_nat i = nthZ (_store s) (_index s - 1 - i).
Proof.
  intros [H1 H2] Hi. unfold contents, capacity in *. unfold nthZ.
  destruct (Z.ltb_spec (_index s - 1 - i) 0); [lia|].
  rewrite reverse_lookup by (rewrite length_take; lia).
  rewrite length_take, lookup_take. case_decide; [|lia]. f_equal. lia.
Qed.

Lemma contents_cons s e l :
  wf s -> contents s = e :: l -> 0 < _index s /\ nthZ (_store s) (_index s - 1) = Some e.
Proof.
  intros Hwf Hc. pose proof (contents_length s Hwf) as Hl. rewrite Hc in Hl. simpl in Hl.
  split; [lia|]. replace (_index s - 1) with (_index s - 1 - 0) by lia.
  rewrite <- contents_lookup by (done || lia). by rewrite Hc.
Qed.

(** Any initial segment of the elements is a drop of the contents. *)
Lemma contents_eat n s :
  wf s -> 0 <= n <= _index s ->
  wf (eat n s) /\ contents (eat n s) = drop (Z.to_nat (_index s - n)) (contents s).
Proof.
  intros [H1 H2] Hn. split; [unfold wf, eat, capacity in *; simpl; lia|].
  unfold contents, eat; simpl.
  rewrite <- (take_drop (Z.to_nat n) (take (Z.to_nat (_index s)) (_store s))).
  rewrite reverse_app, take_take.
  replace (Z.to_nat n `min` Z.to_nat (_index s))%nat with (Z.to_nat n) by lia.
  rewrite drop_app_length'; [done|]. unfold capacity in *.
  rewrite length_reverse, length_drop, length_take. lia.
Qed.

Lemma take_insert_snoc (l : list ElemT) n x :
  (n < length l)%nat -> take (S n) (<[n := x]> l) = take n l ++ [x].
Proof.
  intros Hn. rewrite (take_S_r _ n x) by (rewrite list_lookup_insert; case_decide; intuition lia).
  by rewrite take_insert_ge.
Qed.

Lemma resize_take n k l :
  (Z.to_nat k <= length l)%nat -> (length l <= Z.to_nat n)%nat ->
  take (Z.to_nat k) (resize n l) = take (Z.to_nat k) l.
Proof.
  intros. unfold resize. rewrite take_app, take_take, length_take.
  replace (Z.to_nat k `min` Z.to_nat n)%nat with (Z.to_nat k) by lia.
  replace (Z.to_nat k - _)%nat with 0%nat by lia. by rewrite take_0, app_nil_r.
Qed.

Lemma length_resize n l : 0 <= n -> Z.of_nat (length (resize n l)) = n.
Proof. intros. unfold resize. rewrite length_app, length_take, length_replicate. lia. Qed.

Lemma push_ret e s :
  wf s -> _index s < 2 ^ 63 ->
  exists s', push e s = Ret s' /\ wf s' /\ contents s' = e :: contents s.
Proof.
  intros [H1 H2] H64. unfold push.
  set (st := if capacity s <=? _index s then _ else _).
  assert (Hst : _index s < Z.of_nat (length st) < 2 ^ 64 /\
                take (Z.to_nat (_index s)) st = take (Z.to_nat (_index s)) (_store s)).
  { subst st. destruct (Z.leb_spec (capacity s) (_index s)).
    - rewrite length_resize by lia. split; [lia|].
      apply resize_take; unfold capacity in *; lia.
    - unfold capacity in *. split; [lia|done]. }
  destruct Hst as [Hl Ht]. rewrite insZ_Some by lia. simpl.
  eexists; split; [done|]. unfold wf, capacity, contents in *. simpl.
  rewrite length_insert. split; [lia|].
  replace (Z.to_nat (_index s + 1)) with (S (Z.to_nat (_index s))) by lia.
  rewrite take_insert_snoc, Ht by lia. by rewrite reverse_app.
Qed.

Lemma pop_ret s e l :
  wf s -> contents s = e :: l ->
  exists s', pop s = Ret (e, s') /\ wf s' /\ contents s' = l /\ capacity s' = capacity s.
Proof.
  intros Hwf Hc. destruct (contents_cons s e l Hwf Hc) as [Hi Hn]. unfold pop. rewrite Hn. simpl.
  eexists; split; [done|].
  destruct (contents_eat (_index s - 1) s Hwf ltac:(lia)) as [Hw He].
  split; [exact Hw|]. split; [|done]. unfold eat in He. rewrite He, Hc.
  replace (Z.to_nat _) with 1%nat by lia. done.
Qed.

Lemma get_back_ret s i e :
  wf s -> 0 <= i -> contents s !! Z.to_nat i = Some e -> get_back i s = Ret e.
Proof.
  intros Hwf Hi Hc. pose proof (contents_length s Hwf). pose proof (lookup_lt_Some _ _ _ Hc).
  unfold get_back. rewrite <- contents_lookup, Hc by (done || lia). done.
Qed.

(** Elements counted from the bottom. *)
Lemma get_ret s i e :
  wf s -> 0 <= i < _index s -> contents s !! Z.to_nat (_index s - 1 - i) = Some e ->
  get i s = Ret e.
Proof.
  intros Hwf Hi Hc. unfold get, EOS_VM_ASSERT.
  destruct (Z.leb_spec i (_index s)); [simpl|lia].
  rewrite contents_lookup in Hc by (done || lia).
  replace (_index s - 1 - (_index s - 1 - i)) with i in Hc by lia. by rewrite Hc.
Qed.

Lemma contents_insert s i el :
  wf s -> 0 <= i < _index s ->
  contents (Stack (<[Z.to_nat i := el]> (_store s)) (_index s)) =
    <[Z.to_nat (_index s - 1 - i) := el]> (contents s).
Proof.
  intros [H1 H2] Hi. unfold contents, capacity in *; simpl. apply list_eq. intros j.
  destruct (decide (j < Z.to_nat (_index s))%nat) as [Hj|Hj].
  - rewrite reverse_lookup by (rewrite length_take, length_insert; lia).
    rewrite length_take, length_insert, lookup_take. case_decide; [|lia].
    rewrite !list_lookup_insert, length_reverse, length_take.
    rewrite reverse_lookup by (rewrite length_take; lia).
    rewrite length_take, lookup_take. repeat case_decide; try lia; done.
  - rewrite !lookup_ge_None_2; [done| |];
      rewrite ?length_insert, ?length_reverse, ?length_take, ?length_insert; lia.
Qed.

Lemma set_ret s i el :
  wf s -> 0 <= i < _index s ->
  exists s', set_ i el s = Ret s' /\ wf s' /\ capacity s' = capacity s /\
    contents s' = <[Z.to_nat (_index s - 1 - i) := el]> (contents s).
Proof.
  intros Hwf Hi. unfold set_, EOS_VM_ASSERT.
  destruct (Z.leb_spec i (_index s)); [simpl|lia].
  pose proof Hwf as [? ?]. unfold capacity in *.
  rewrite insZ_Some by lia. simpl. eexists; split; [done|].
  split; [unfold wf, capacity; simpl; rewrite length_insert; lia|].
  split; [by simpl; rewrite length_insert|]. by apply contents_insert.
Qed.

Lemma set_peek_ret s el e l :
  wf s -> contents s = e :: l ->
  exists s', set_peek el s = Ret s' /\ wf s' /\ contents s' = el :: l /\ capacity s' = capacity s.
Proof.
  intros Hwf Hc. destruct (contents_cons s e l Hwf Hc) as [Hi _].
  pose proof Hwf as [? ?]. unfold set_peek, capacity in *. rewrite insZ_Some by lia. simpl.
  eexists; split; [done|]. split; [unfold wf, capacity; simpl; rewrite length_insert; lia|].
  split; [|by simpl; rewrite length_insert].
  rewrite contents_insert, Hc by (done || lia).
  by replace (Z.to_nat (_index s - 1 - (_index s - 1))) with 0%nat by lia.
Qed.

Lemma compact_ret s n e l :
  wf s -> contents s = e :: l -> 0 <= n < _index s ->
  exists s', compact n s = Ret s' /\ wf s' /\ capacity s' = capacity s /\
    contents s' = e :: drop (Z.to_nat (_index s - n)) (contents s).
Proof.
  intros Hwf Hc Hn. destruct (contents_cons s e l Hwf Hc) as [Hi He].
  pose proof Hwf as [H1 H2]. unfold compact. rewrite He. simpl. unfold capacity in *.
  rewrite insZ_Some by lia. simpl. eexists; split; [done|].
  split; [unfold wf, capacity; simpl; rewrite length_insert; lia|].
  split; [by simpl; rewrite length_insert|].
  destruct (contents_eat n s Hwf ltac:(lia)) as [_ Ht]. rewrite <- Ht.
  unfold contents, eat; simpl.
  replace (Z.to_nat (n + 1)) with (S (Z.to_nat n)) by lia.
  rewrite take_insert_snoc by lia. by rewrite reverse_app.
Qed.

Lemma trim_ret s n :
  wf s -> 0 <= n <= _index s ->
  wf (trim n s) /\ contents (trim n s) = drop (Z.to_nat n) (contents s).
Proof.
  intros Hwf Hn. pose proof Hwf as [? ?].
  assert (E : trim n s = eat (_index s - n) s).
  { unfold trim, eat. rewrite wrap_small by (unfold in_u; lia). done. }
  rewrite E. destruct (contents_eat (_index s - n) s Hwf ltac:(lia)) as [? ->].
  by replace (_index s - (_index s - n)) with n by lia.
Qed.

Lemma make_wf n : 0 < n < 2 ^ 64 -> wf (make n) /\ contents (make n) = [].
Proof.
  intros. unfold wf, make, capacity, contents; simpl. rewrite length_replicate. split; [lia|done].
Qed.

(** ** Programs of stack operations *)

(** The operations as the interpreter issues them. *)
Inductive op : Type :=
  | Push (e : ElemT) | Pop | Get (i : Z) | SetAt (i : Z) (e : ElemT)
  | GetBack (i : Z) | SetPeek (e : ElemT) | Eat (n : Z) | Compact (n : Z) | Trim (n : Z).

(** One operation on the vector: the value it returns, if any, and the stack. *)
Definition step (o : op) (s : stack ElemT) : outcome (option ElemT * stack ElemT) :=
  match o with
  | Push e => s' ← push e s; Ret (None, s')
  | Pop => '(e, s') ← pop s; Ret (Some e, s')
  | Get i => e ← get i s; Ret (Some e, s)
  | SetAt i e => s' ← set_ i e s; Ret (None, s')
  | GetBack i => e ← get_back i s; Ret (Some e, s)
  | SetPeek e => s' ← set_peek e s; Ret (None, s')
  | Eat n => Ret (None, eat n s)
  | Compact n => s' ← compact n s; Ret (None, s')
  | Trim n => Ret (None, trim n s)
  end.

(** The same operation on the abstract stack; [None] when it is not allowed. *)
Definition abs_step (o : op) (l : list ElemT) : option (option ElemT * list ElemT) :=
  let n := Z.of_nat (length l) in
  match o with
  | Push e => Some (None, e :: l)
  | Pop => match l with e :: l => Some (Some e, l) | [] => None end
  | Get i => if i <? 0 then None else (fun e => (Some e, l)) <$> nthZ l (n - 1 - i)
  | SetAt i e =>
      if (0 <=? i) && (i <? n) then Some (None, <[Z.to_nat (n - 1 - i) := e]> l) else None
  | GetBack i => (fun e => (Some e, l)) <$> nthZ l i
  | SetPeek e => match l with _ :: l => Some (None, e :: l) | [] => None end
  | Eat k => if (0 <=? k) && (k <=? n) then Some (None, drop (Z.to_nat (n - k)) l) else None
  | Compact k =>
      match l with
      | e :: _ => if (0 <=? k) && (k <? n)
                  then Some (None, e :: drop (Z.to_nat (n - k)) l) else None
      | [] => None
      end
  | Trim k => if (0 <=? k) && (k <=? n) then Some (None, drop (Z.to_nat k) l) else None
  end.

Fixpoint run (ops : list op) (s : stack ElemT) : outcome (list (option ElemT) * stack ElemT) :=
  match ops with
  | [] => Ret ([], s)
  | o :: ops => '(r, s) ← step o s; '(rs, s) ← run ops s; Ret (r :: rs, s)
  end.

Fixpoint abs_run (ops : list op) (l : list ElemT) : option (list (option ElemT) * list ElemT) :=
  match ops with
  | [] => Some ([], l)
  | o :: ops =>
      match abs_step o l with
      | Some (r, l) =>
          match abs_run ops l with Some (rs, l) => Some (r :: rs, l) | None => None end
      | None => None
      end
  end.

Lemma step_refines o s r l' :
  wf s -> _index s < 2 ^ 63 -> abs_step o (contents s) = Some (r, l') ->
  exists s', step o s = Ret (r, s') /\ wf s' /\ contents s' = l'.
Proof.
  intros Hwf H63. pose proof (contents_length s Hwf) as Hlen.
  destruct o; simpl; rewrite ?Hlen.
  - intros [= <- <-]. destruct (push_ret e s Hwf H63) as (s' & -> & ? & ?). simpl. eauto.
  - destruct (contents s) as [|e l] eqn:Hc; [done|]. intros [= <- <-].
    destruct (pop_ret s e l Hwf Hc) as (s' & -> & ? & ? & _). simpl. eauto.
  - destruct (Z.ltb_spec i 0); [done|]. intros (e & E & [= -> ->])%fmap_Some.
    pose proof (nthZ_bounds _ _ _ E). rewrite Hlen in *. rewrite nthZ_lookup in E by lia.
    rewrite (get_ret s i e) by (done || lia). simpl. eauto.
  - destruct (Z.leb_spec 0 i), (Z.ltb_spec i (_index s)); try done. intros [= <- <-].
    destruct (set_ret s i e Hwf ltac:(lia)) as (s' & -> & ? & _ & ?). simpl. eauto.
  - intros (e & E & [= -> ->])%fmap_Some. pose proof (nthZ_bounds _ _ _ E).
    rewrite nthZ_lookup in E by lia. rewrite (get_back_ret s i e) by (done || lia). simpl. eauto.
  - destruct (contents s) as [|e' l] eqn:Hc; [done|]. intros [= <- <-].
    destruct (set_peek_ret s e e' l Hwf Hc) as (s' & -> & ? & ? & _). simpl. eauto.
  - destruct (Z.leb_spec 0 n), (Z.leb_spec n (_index s)); try done. intros [= <- <-].
    destruct (contents_eat n s Hwf ltac:(lia)). eauto.
  - destruct (contents s) as [|e l] eqn:Hc; [done|].
    destruct (Z.leb_spec 0 n), (Z.ltb_spec n (_index s)); try done. intros [= <- <-].
    destruct (compact_ret s n e l Hwf Hc ltac:(lia)) as (s' & -> & ? & _ & E).
    simpl. rewrite Hc in E. eauto.
  - destruct (Z.leb_spec 0 n), (Z.leb_spec n (_index s)); try done. intros [= <- <-].
    destruct (trim_ret s n Hwf ltac:(lia)). eauto.
Qed.

Lemma abs_step_length o l r l' :
  abs_step o l = Some (r, l') -> (length l' <= S (length l))%nat.
Proof.
  destruct o; simpl; try (by intros [= <- <-]; simpl; lia).
  - destruct l; [done|]. intros [= <- <-]. simpl. lia.
  - destruct (i <? 0); [done|]. intros (? & _ & [= -> ->])%fmap_Some. lia.
  - destruct (_ && _); [|done]. intros [= <- <-]. rewrite length_insert. lia.
  - intros (? & _ & [= -> ->])%fmap_Some. lia.
  - destruct l; [done|]. intros [= <- <-]. simpl. lia.
  - destruct (_ && _); [|done]. intros [= <- <-]. rewrite length_drop. lia.
  - destruct l; [done|]. destruct (_ && _); [|done]. intros [= <- <-].
    rewrite length_cons, length_drop. simpl. lia.
  - destruct (_ && _); [|done]. intros [= <- <-]. rewrite length_drop. lia.
Qed.

(** C19. Refinement: a program of stack operations that is allowed on the
    abstract LIFO stack returns the same values on the vector-backed stack,
    growing the vector as needed and never indexing outside it, and leaves it
    representing the same elements. *)
Theorem stack_refines_list ops s outs l' :
  wf s -> _index s + Z.of_nat (length ops) <= 2 ^ 63 ->
  abs_run ops (contents s) = Some (outs, l') ->
  exists s', run ops s = Ret (outs, s') /\ wf s' /\ contents s' = l'.
Proof.
  revert s outs. induction ops as [|o ops IH]; intros s outs Hwf Hn; simpl.
  - intros [= <- <-]. eauto.
  - destruct (abs_step o (contents s)) as [[r l1]|] eqn:Eo; [|done].
    destruct (abs_run ops l1) as [[rs l2]|] eqn:Er; [|done]. intros [= <- <-].
    pose proof (abs_step_length _ _ _ _ Eo) as Hl. rewrite length_cons in Hn.
    apply step_refines in Eo as (s1 & -> & Hwf1 & <-); [|done|lia].
    pose proof (contents_length s Hwf). pose proof (contents_length s1 Hwf1).
    destruct (IH s1 rs Hwf1 ltac:(lia) Er) as (s2 & E2 & ?). simpl. rewrite E2. simpl. eauto.
Qed.
End Ops.
End WStack.

Lemma stack_refines_list_witness :
  exists s', WStack.run 0 ((WStack.Push <$> [1; 2; 3; 4; 5; 6; 7; 8; 9]) ++ [WStack.Pop])
    (WStack.make 0 initial_stack_size) = Ret (replicate 9 None ++ [Some 9], s') /\
    WStack.wf s' /\ WStack.contents s' = [8; 7; 6; 5; 4; 3; 2; 1].
Proof.
  apply (WStack.stack_refines_list 0).
  - apply (WStack.make_wf 0 initial_stack_size). vm_compute. split; reflexivity.
  - vm_compute. discriminate.
  - reflexivity.
Defined.
