(* ===== verification/Allocator.v ===== *)
(** * Memory allocators (allocator.hpp)

    [bounded_allocator]: a bump allocator over a heap block.
    [growable_allocator]: the arena of a module; pointers are offsets from
    [_base], [alloc<T>] takes [sizeof(T)] and [alignof(T)].
    [wasm_allocator]: the linear memory, a reserved region of which the first
    [page] pages are accessible; addresses are offsets from [raw].
    System calls are parameters ([Sys]). *)
From S2P Require Import Prelude.

(** The operating system: [mmap], [munmap] and [mprotect] succeed or fail,
    [sysconf(_SC_PAGESIZE)] is a number. *)
Inductive prot : Type := PROT_NONE | PROT_READ | PROT_READ_WRITE.

Class Sys : Type := {
  syspagesize : Z;
  mmap_ok : Z -> bool;                (* length *)
  munmap_ok : Z -> Z -> bool;         (* offset, length *)
  mprotect : Z -> Z -> prot -> Z      (* offset, length, protection: the error code *)
}.

(** What the library relies on: the page size is a power of two. *)
Class SysOk (sys : Sys) : Prop := {
  pagesize_pow2 : exists k, 12 <= k < 63 /\ syspagesize = 2 ^ k
}.

(** The calls succeed. *)
Class SysSucceeds (sys : Sys) : Prop := {
  mmap_succeeds : forall n, mmap_ok n = true;
  munmap_succeeds : forall o n, munmap_ok o n = true;
  mprotect_succeeds : forall o n p, mprotect o n p = 0
}.

(** [align_offset<align_amt>], [align_to_page]: size_t arithmetic *)
Definition align_offset (align_amt offset : Z) : Z :=
  Z.land (wrap 64 (offset + align_amt - 1)) (wrap 64 (Z.lnot (align_amt - 1))).

Definition align_to_page `{Sys} (offset : Z) : Z := align_offset syspagesize offset.

(** ** bounded_allocator *)
Module Bounded.
Record t : Type := Make { mem_size : Z; index : Z }.

Definition alloc (sizeof_T size : Z) : M t Z := fun s =>
  if wrap 64 (wrap 64 (sizeof_T * size) + index s) <=? mem_size s
  then (Ret (index s), Make (mem_size s) (wrap 64 (index s + wrap 64 (sizeof_T * size))))
  else (Throw (wasm_bad_alloc "wasm failed to allocate native"), s).

Definition free : M t unit := fun s =>
  if 0 <? index s then (Ret tt, Make (mem_size s) 0)
  else (Throw (wasm_double_free "double free"), s).

Definition reset : M t unit := modify (fun s => Make (mem_size s) 0).
End Bounded.

(** ** growable_allocator *)
Module Growable.
Section Growable.
Context `{sys : Sys}.

Record t : Type := Make {
  _offset : Z;
  _largest_offset : Z;
  _capacity : Z;
  _base : bool;               (* is [_base] non-null *)
  _code_base : option Z;      (* its offset from [_base], [None] is nullptr *)
  _code_size : Z
}.

Definition max_memory_size : Z := 1024 * 1024 * 1024.

Definition empty : t := Make 0 0 0 false None 0.

Definition set_offset (o : Z) (s : t) : t :=
  Make o (_largest_offset s) (_capacity s) (_base s) (_code_base s) (_code_size s).
Definition set_largest (o : Z) (s : t) : t :=
  Make (_offset s) o (_capacity s) (_base s) (_code_base s) (_code_size s).
Definition set_capacity (c : Z) (s : t) : t :=
  Make (_offset s) (_largest_offset s) c (_base s) (_code_base s) (_code_size s).
Definition set_base (b : bool) (s : t) : t :=
  Make (_offset s) (_largest_offset s) (_capacity s) b (_code_base s) (_code_size s).
Definition set_code (b : option Z) (n : Z) (s : t) : t :=
  Make (_offset s) (_largest_offset s) (_capacity s) (_base s) b n.

Definition use_default_memory : M t unit :=
  b ← gets _base;
  assertM (negb b) (wasm_bad_alloc "default memory already allocated");;
  assertM (mmap_ok max_memory_size) (wasm_bad_alloc "failed to mmap for default memory.");;
  modify (set_base true);;
  modify (set_capacity max_memory_size).

Definition use_fixed_memory (size : Z) : M t unit :=
  assertM ((0 <? size) && (size <=? max_memory_size))
    (wasm_bad_alloc "Too large or 0 fixed memory size");;
  b ← gets _base;
  assertM (negb b) (wasm_bad_alloc "Fixed memory already allocated");;
  assertM (mmap_ok size) (wasm_bad_alloc "mmap in use_fixed_memory failed.");;
  modify (set_base true);;
  modify (set_capacity size).

(** [explicit growable_allocator(size_t size)] *)
Definition construct (size : Z) : M t unit :=
  assertM (size <=? max_memory_size) (wasm_bad_alloc "Too large initial memory size");;
  use_default_memory.

(** [alloc<T>(size)]; the returned pointer is an offset from [_base]. *)
Definition alloc (sizeof_T alignof_T size : Z) : M t Z :=
  cap ← gets _capacity;
  assertM (cap mod alignof_T =? 0) (wasm_bad_alloc "alignment must divide _capacity.");;
  modify (fun s => set_offset (align_offset alignof_T (_offset s)) s);;
  off ← gets _offset;
  assertM (size <=? wrap 64 (cap - off) / sizeof_T) (wasm_bad_alloc "Allocated too much memory");;
  let aligned := wrap 64 (wrap 64 (sizeof_T * size) + off) in
  assertM (aligned <=? cap) (wasm_bad_alloc "Allocated too much memory after aligned");;
  modify (set_offset aligned);;
  modify (fun s => if _largest_offset s <? _offset s then set_largest (_offset s) s else s);;
  mret off.

Definition start_code : M t Z :=
  modify (fun s => set_offset (align_to_page (_offset s)) s);;
  gets _offset.

(** [end_code<false>] *)
Definition end_code (code_base : Z) : M t unit :=
  modify (fun s => set_offset (align_to_page (_offset s)) s);;
  modify (fun s => set_code (Some code_base) (wrap 64 (_offset s - code_base)) s).

Definition reclaim (sizeof_T ptr size : Z) : M t unit :=
  off ← gets _offset;
  assertM (size <=? off / sizeof_T) (wasm_bad_alloc "reclaimed too much memory");;
  assertM ((size =? 0) || (ptr + sizeof_T * size =? off))
    (wasm_bad_alloc "reclaiming memory must be strictly LIFO");;
  if negb (size =? 0) then modify (set_offset ptr) else mret tt.

Definition largest_used_size (s : t) : Z := align_to_page (_largest_offset s).

Definition finalize : M t unit :=
  cap ← gets _capacity;
  off ← gets _offset;
  if negb (cap =? off) then
    let final_size := align_to_page off in
    if final_size <? cap then
      assertM (munmap_ok final_size (cap - final_size))
        (wasm_bad_alloc "failed to finalize growable_allocator");;
      modify (set_capacity final_size);;
      modify (set_offset final_size);;
      if final_size =? 0 then modify (set_base false) else mret tt
    else mret tt
  else mret tt.

Definition free : M t unit := throw (wasm_bad_alloc "unimplemented").

Definition release_base_memory : M t unit :=
  b ← gets _base;
  cap ← gets _capacity;
  if (b : bool) then
    assertM (munmap_ok 0 cap) (wasm_bad_alloc "failed to release base memory");;
    modify (set_base false)
  else mret tt.

Definition reset : M t unit := modify (set_offset 0).
End Growable.
End Growable.

(** ** wasm_allocator *)
Module WasmAlloc.

Definition page_size : Z := 64 * 1024.
Definition max_useable_memory : Z := 2 ^ 32.
Definition max_pages : Z := max_useable_memory / page_size.
Definition max_memory : Z := 2 ^ 33.

(** [page] is the member of that name (-1: no memory); [bytes] holds the
    contents of the reserved region where they are not zero. *)
Record t : Type := Make { page : Z; bytes : gmap Z Z }.

Definition byte_at (m : gmap Z Z) (a : Z) : Z := default 0 (m !! a).

(** [memset(raw + start, 0, n)] *)
Definition zero_range (start n : Z) (m : gmap Z Z) : gmap Z Z :=
  filter (fun kv => ~ (start <= kv.1 < start + n)) m.

Definition set_page (p : Z) (s : t) : t := Make p (bytes s).
Definition set_bytes (m : gmap Z Z) (s : t) : t := Make (page s) m.

Section WasmAlloc.
Context `{sys : Sys}.

Definition table_size : Z := syspagesize.
Definition prefix_size : Z := table_size + syspagesize.
Definition suffix_size : Z := syspagesize.
Definition table_offset : Z := - prefix_size.
Definition globals_end : Z := - syspagesize.

(** [alloc<char>(size)]; [size] is a [size_t], [page] an [int32_t]. *)
Definition alloc (size : Z) : M t unit :=
  if size =? 0 then mret tt else
  p ← gets page;
  assertM (0 <=? p) (wasm_bad_alloc "require memory to allocate");;
  assertM (wrap 64 (size + p) <=? max_pages) (wasm_bad_alloc "exceeded max number of pages");;
  assertM (mprotect (page_size * p) (wrap 64 (page_size * size)) PROT_READ_WRITE =? 0)
    (wasm_bad_alloc "mprotect failed");;
  modify (fun s => set_bytes (zero_range (page_size * p) (wrap 64 (page_size * size)) (bytes s)) s);;
  modify (set_page (sext 32 (p + size))).

(** [free<char>(size)] *)
Definition free (size : Z) : M t unit :=
  if size =? 0 then mret tt else
  p ← gets page;
  assertM (0 <=? p) (wasm_bad_alloc "require memory to deallocate");;
  assertM (size <=? p) (wasm_bad_alloc "freed too many pages");;
  modify (set_page (sext 32 (p - size)));;
  assertM (mprotect (page_size * (p - size)) (wrap 64 (page_size * size)) PROT_NONE =? 0)
    (wasm_bad_alloc "mprotect failed").

(** [wasm_allocator()] *)
Definition construct : outcome t :=
  EOS_VM_ASSERT (mmap_ok (max_memory + prefix_size + suffix_size))
    (wasm_bad_alloc "mmap failed to alloca pages");;
  EOS_VM_ASSERT (mprotect table_offset table_size PROT_READ_WRITE =? 0)
    (wasm_bad_alloc "mprotect failed");;
  Ret (Make (-1) ∅).

(** [reset(uint32_t new_pages)] *)
Definition reset_pages (new_pages : Z) : M t unit :=
  p ← gets page;
  (if 0 <=? p then
     modify (fun s => set_bytes (zero_range 0 (page_size * p) (bytes s)) s)
   else
     assertM (mprotect (- syspagesize) syspagesize PROT_READ =? 0)
       (wasm_bad_alloc "mprotect failed");;
     modify (set_page 0));;
  p ← gets page;
  if p <? new_pages then alloc (new_pages - p)
  else if new_pages <? p then free (p - new_pages)
  else mret tt.

(** [reset()]: signal no memory defined *)
Definition reset : M t unit :=
  p ← gets page;
  (if 0 <=? p then
     modify (fun s => set_bytes (zero_range 0 (page_size * p) (bytes s)) s);;
     assertM (mprotect (- syspagesize) (page_size * p + syspagesize) PROT_NONE =? 0)
       (wasm_bad_alloc "mprotect failed")
   else mret tt);;
  modify (set_page (-1)).

(** [is_in_region(p)] for a pointer [p] at offset [p] from [raw] *)
Definition is_in_region (p : Z) : bool := (0 <=? p) && (p <? max_memory).
End WasmAlloc.
End WasmAlloc.

(** ** Alignment *)
Lemma pow2_lnot_bits k i :
  0 <= k < 64 -> 0 <= i ->
  Z.testbit (wrap 64 (Z.lnot (2 ^ k - 1))) i = (k <=? i) && (i <? 64).
Proof.
  intros Hk Hi. unfold wrap. rewrite Z.testbit_mod_pow2 by lia.
  replace (2 ^ k - 1) with (Z.ones k) by (rewrite Z.ones_equiv; lia).
  rewrite Z.lnot_spec by lia. rewrite andb_comm. f_equal.
  destruct (Z.leb_spec k i);
    [rewrite Z.ones_spec_high by lia|rewrite Z.ones_spec_low by lia]; done.
Qed.

Lemma align_offset_wrapped k x :
  0 <= k < 63 -> align_offset (2 ^ k) x = wrap 64 (x + 2 ^ k - 1) / 2 ^ k * 2 ^ k.
Proof.
  intros Hk. unfold align_offset. set (y := wrap 64 (x + 2 ^ k - 1)).
  assert (Hy : in_u 64 y) by (apply wrap_in_u; lia). unfold in_u in Hy.
  rewrite <- Z.shiftl_mul_pow2, <- Z.shiftr_div_pow2 by lia. apply Z.bits_inj'. intros i Hi.
  rewrite Z.land_spec, pow2_lnot_bits, Z.shiftl_spec by lia.
  destruct (Z.leb_spec k i); simpl.
  - rewrite Z.shiftr_spec by lia. replace (i - k + k) with i by lia.
    destruct (Z.ltb_spec i 64); [by rewrite andb_true_r|].
    rewrite andb_false_r. symmetry. rewrite <- (Z.mod_small y (2 ^ 64)) by lia.
    apply Z.mod_pow2_bits_high. lia.
  - rewrite andb_false_r. symmetry. apply Z.testbit_neg_r. lia.
Qed.
(** The next multiple, when it fits in 64 bits *)
Lemma align_offset_next k x :
  0 <= k < 63 -> 0 <= x -> x + 2 ^ k <= 2 ^ 64 ->
  x <= align_offset (2 ^ k) x < x + 2 ^ k /\ align_offset (2 ^ k) x mod 2 ^ k = 0 /\
  forall y, x <= y -> y mod 2 ^ k = 0 -> align_offset (2 ^ k) x <= y.
Proof.
  intros Hk Hx Hs. pose proof (Z.pow_pos_nonneg 2 k ltac:(lia) ltac:(lia)).
  rewrite align_offset_wrapped, wrap_small by (unfold in_u; lia).
  pose proof (Z.div_mod (x + 2 ^ k - 1) (2 ^ k) ltac:(lia)).
  pose proof (Z.mod_pos_bound (x + 2 ^ k - 1) (2 ^ k) ltac:(lia)).
  split; [lia|]. split; [apply Z.mod_mul; lia|].
  intros y Hy Hm. apply Z.mod_divide in Hm as [q ->]; [|lia].
  apply Z.mul_le_mono_nonneg_r; [lia|].
  assert ((x + 2 ^ k - 1) / 2 ^ k < q + 1); [|lia].
  apply Z.div_lt_upper_bound; lia.
Qed.
(** Otherwise 0 *)
Lemma align_offset_overflow k x :
  0 <= k < 63 -> in_u 64 x -> x = 0 \/ 2 ^ 64 < x + 2 ^ k -> align_offset (2 ^ k) x = 0.
Proof.
  intros Hk Hx Ho. pose proof (Z.pow_pos_nonneg 2 k ltac:(lia) ltac:(lia)). unfold in_u in Hx.
  pose proof (Z.pow_lt_mono_r 2 k 63 ltac:(lia) ltac:(lia) ltac:(lia)).
  rewrite align_offset_wrapped by done. unfold wrap. rewrite Z.div_small; [done|].
  destruct Ho as [-> |Ho].
  - rewrite Z.mod_small by lia. lia.
  - rewrite <- (Z.mod_add _ (-1)), Z.mod_small by lia. lia.
Qed.
Lemma align_offset_eq k x :
  0 <= k < 63 -> 0 <= x < 2 ^ 63 -> align_offset (2 ^ k) x = (x + 2 ^ k - 1) / 2 ^ k * 2 ^ k.
Proof.
  intros Hk Hx. pose proof (Z.pow_lt_mono_r 2 k 63 ltac:(lia) ltac:(lia) ltac:(lia)).
  pose proof (Z.pow_pos_nonneg 2 k ltac:(lia) ltac:(lia)).
  by rewrite align_offset_wrapped, wrap_small by (unfold in_u; lia).
Qed.
Lemma align_offset_spec k x :
  0 <= k < 63 -> 0 <= x < 2 ^ 63 ->
  x <= align_offset (2 ^ k) x < x + 2 ^ k /\ align_offset (2 ^ k) x mod 2 ^ k = 0 /\
  forall y, x <= y -> y mod 2 ^ k = 0 -> align_offset (2 ^ k) x <= y.
Proof.
  intros Hk Hx. pose proof (Z.pow_lt_mono_r 2 k 63 ltac:(lia) ltac:(lia) ltac:(lia)).
  apply align_offset_next; lia.
Qed.

(** ** growable_allocator *)
Section GrowableProofs.
Context `{sys : Sys}.
Import Growable.

Definition growable_wf (s : t) : Prop :=
  0 <= _offset s <= _capacity s /\ _capacity s <= max_memory_size.

(** The request [alloc<T>(size)]: [sizeof(T)], [alignof(T)] and [size]. *)
Definition request_ok (sz al size : Z) : Prop :=
  0 < sz < 2 ^ 64 /\ (exists k, 0 <= k < 63 /\ al = 2 ^ k) /\ 0 <= size < 2 ^ 64.

Lemma align_le_capacity s al :
  growable_wf s -> (exists k, 0 <= k < 63 /\ al = 2 ^ k) -> _capacity s mod al = 0 ->
  0 <= _offset s <= align_offset al (_offset s) /\ align_offset al (_offset s) <= _capacity s /\
  align_offset al (_offset s) mod al = 0.
Proof.
  unfold growable_wf, max_memory_size. intros [Ho Hc] (k & Hk & ->) Hm.
  destruct (align_offset_spec k (_offset s)) as (H1 & H2 & H3); [lia|lia|].
  split; [lia|]. split; [|done]. apply H3; [lia|done].
Qed.

(** The state after a successful [alloc]. *)
Definition allocated (off : Z) (s : t) : t :=
  let s := set_offset off s in
  if _largest_offset s <? off then set_largest off s else s.

Lemma growable_alloc_eq sz al size s :
  growable_wf s -> request_ok sz al size ->
  alloc sz al size s =
    if _capacity s mod al =? 0 then
      let off := align_offset al (_offset s) in
      if off + sz * size <=? _capacity s then (Ret off, allocated (off + sz * size) s)
      else (Throw (wasm_bad_alloc "Allocated too much memory"), set_offset off s)
    else (Throw (wasm_bad_alloc "alignment must divide _capacity."), s).
Proof.
  intros Hwf (Hsz & Hal & Hsize).
  unfold alloc, mbind, M_bind, gets, assertM, modify, lift, EOS_VM_ASSERT.
  destruct (Z.eqb_spec (_capacity s mod al) 0) as [Hm|]; [simpl|done].
  destruct (align_le_capacity s al Hwf Hal Hm) as (H1 & H2 & H3).
  destruct Hwf as [Ho Hc]. unfold max_memory_size in Hc.
  set (off := align_offset al (_offset s)) in *.
  rewrite (wrap_small 64 (_capacity s - off)) by (unfold in_u; lia).
  pose proof (Z.div_le_lower_bound (_capacity s - off) sz size ltac:(lia)) as Hd.
  pose proof (Z.mul_div_le (_capacity s - off) sz ltac:(lia)).
  destruct (Z.leb_spec size ((_capacity s - off) / sz)) as [Hle|Hle];
    destruct (Z.leb_spec (off + sz * size) (_capacity s)); try nia; [|done].
  rewrite !wrap_small by (unfold in_u; rewrite ?wrap_small by (unfold in_u; nia); nia).
  destruct (Z.leb_spec (sz * size + off) (_capacity s)); [|lia].
  by rewrite (Z.add_comm off).
Qed.

Lemma growable_alloc_Ret sz al size s p s' :
  growable_wf s -> request_ok sz al size -> alloc sz al size s = (Ret p, s') ->
  s' = allocated (p + sz * size) s /\ _offset s <= p /\ p mod al = 0 /\
  p + sz * size <= _capacity s.
Proof.
  intros Hwf Hreq. rewrite growable_alloc_eq by done. destruct Hreq as (_ & Hal & _).
  destruct (Z.eqb_spec (_capacity s mod al) 0) as [Hm|]; [simpl|done].
  destruct (align_le_capacity s al Hwf Hal Hm) as (H1 & H2 & H3).
  destruct (Z.leb_spec (align_offset al (_offset s) + sz * size) (_capacity s)); [|done].
  intros [= <- <-]. split_and!; done || lia.
Qed.

Lemma allocated_fields off s :
  _offset (allocated off s) = off /\ _capacity (allocated off s) = _capacity s.
Proof. unfold allocated. simpl. destruct (_ <? _); done. Qed.

Lemma allocated_wf sz al size s p s' :
  growable_wf s -> request_ok sz al size -> alloc sz al size s = (Ret p, s') ->
  growable_wf s' /\ _offset s' = p + sz * size /\ _capacity s' = _capacity s.
Proof.
  intros Hwf Hreq E. destruct (growable_alloc_Ret _ _ _ _ _ _ Hwf Hreq E) as (-> & H1 & H2 & H3).
  destruct (allocated_fields (p + sz * size) s) as [E1 E2].
  unfold growable_wf in *. rewrite E1, E2. destruct Hreq as (? & _ & ?).
  split; [nia|done].
Qed.

(** [growable_allocator::alloc] on every request: it throws when the
    alignment does not divide the capacity and, with the offset aligned, when
    the block does not fit; otherwise it returns the least aligned offset at or
    above the current one and advances past the block, which lies inside the
    capacity.  No request, however large, overflows the 64-bit arithmetic. *)
Theorem growable_alloc_spec sz al size s :
  growable_wf s -> request_ok sz al size ->
  let off := align_offset al (_offset s) in
  (_capacity s mod al <> 0 ->
     alloc sz al size s = (Throw (wasm_bad_alloc "alignment must divide _capacity."), s)) /\
  (_capacity s mod al = 0 ->
     _offset s <= off /\ off mod al = 0 /\
     (forall y, _offset s <= y -> y mod al = 0 -> off <= y) /\
     (off + sz * size <= _capacity s ->
        alloc sz al size s = (Ret off, allocated (off + sz * size) s)) /\
     (_capacity s < off + sz * size ->
        alloc sz al size s = (Throw (wasm_bad_alloc "Allocated too much memory"), set_offset off s))).
Proof.
  intros Hwf Hreq off. rewrite growable_alloc_eq by done. fold off.
  split; intros Hm; destruct (Z.eqb_spec (_capacity s mod al) 0); try done.
  destruct Hreq as (Hsz & Hal & Hsize).
  destruct (align_le_capacity s al Hwf Hal Hm) as (H1 & H2 & H3).
  split; [lia|]. split; [done|]. split.
  { destruct Hal as (k & Hk & ->), Hwf as [? Hc]. unfold max_memory_size in Hc.
    apply (align_offset_spec k (_offset s)); lia. }
  simpl. split; intros; destruct (Z.leb_spec (off + sz * size) (_capacity s)); done || lia.
Qed.

(** A sequence of allocations and the blocks [(first, past the end)] it hands
    out. *)
Fixpoint alloc_all (reqs : list (Z * Z * Z)) : M t (list (Z * Z)) :=
  match reqs with
  | [] => mret []
  | (sz, al, size) :: reqs =>
      p ← alloc sz al size;
      l ← alloc_all reqs;
      mret ((p, p + sz * size) :: l)
  end.

Lemma alloc_all_disjoint reqs s blocks s' :
  growable_wf s -> Forall (fun '(sz, al, size) => request_ok sz al size) reqs ->
  alloc_all reqs s = (Ret blocks, s') ->
  growable_wf s' /\ _capacity s' = _capacity s /\ _offset s <= _offset s' /\
  Forall (fun '(b, e) => _offset s <= b <= e /\ e <= _offset s') blocks /\
  ForallOrdPairs (fun b1 b2 => b1.2 <= b2.1) blocks.
Proof.
  revert s blocks. induction reqs as [|[[sz al] size] reqs IH]; intros s blocks Hwf Hr.
  - intros [= <- <-]. split_and!; try done; try lia; constructor.
  - inversion Hr as [|? ? Hreq Hr']; subst. simpl. unfold mbind, M_bind at 1.
    destruct (alloc sz al size s) as [[p|e|w] s1] eqn:E1; try done.
    destruct (allocated_wf _ _ _ _ _ _ Hwf Hreq E1) as (Hwf1 & Ho1 & Hc1).
    destruct (growable_alloc_Ret _ _ _ _ _ _ Hwf Hreq E1) as (_ & Hp & _ & _).
    unfold M_bind. destruct (alloc_all reqs s1) as [[l|e|w] s2] eqn:E2; try done.
    intros [= <- <-]. destruct (IH _ _ Hwf1 Hr' E2) as (Hwf2 & Hc2 & Hle & Hall & Hpairs).
    destruct Hreq as (? & _ & ?).
    split; [done|]. split; [lia|]. split; [nia|]. split.
    + constructor; [nia|]. eapply Forall_impl; [|exact Hall]. intros [b e]. nia.
    + constructor; [|done]. simpl. eapply Forall_impl; [|exact Hall].
      intros [b e]. simpl. lia.
Qed.

(** The blocks a sequence of allocations hands out are pairwise disjoint and
    lie inside the capacity, whatever the sizes and alignments, and none
    overlaps what was allocated before. *)
Theorem growable_blocks_disjoint reqs s blocks s' :
  growable_wf s -> Forall (fun '(sz, al, size) => request_ok sz al size) reqs ->
  alloc_all reqs s = (Ret blocks, s') ->
  growable_wf s' /\
  Forall (fun '(b, e) => _offset s <= b <= e /\ e <= _capacity s) blocks /\
  ForallOrdPairs (fun b1 b2 => b1.2 <= b2.1) blocks.
Proof.
  intros Hwf Hr E. destruct (alloc_all_disjoint _ _ _ _ Hwf Hr E) as (Hwf' & Hc & Hle & Hall & Hp).
  split; [done|]. split; [|done]. eapply Forall_impl; [|exact Hall].
  intros [b e]. destruct Hwf' as [? _]. lia.
Qed.

(** [reclaim] is LIFO: right after [alloc] the whole block can be given
    back, leaving the allocator well formed with nothing at or above the block;
    a non-empty range that does not end at the top is refused. *)
Theorem growable_reclaim_lifo sz al size s p s' :
  growable_wf s -> request_ok sz al size -> alloc sz al size s = (Ret p, s') ->
  (exists s'', reclaim sz p size s' = (Ret tt, s'') /\ growable_wf s'' /\
     _capacity s'' = _capacity s /\ (0 < size -> _offset s'' = p)) /\
  (forall q n, 0 < n -> q + sz * n <> _offset s' ->
     exists e, reclaim sz q n s' = (Throw e, s')).
Proof.
  intros Hwf Hreq E. destruct (allocated_wf _ _ _ _ _ _ Hwf Hreq E) as ([Ho Hc] & Ho' & Hc').
  destruct (growable_alloc_Ret _ _ _ _ _ _ Hwf Hreq E) as (_ & Hp & _ & _).
  destruct Hwf as [? _]. destruct Hreq as (Hsz & _ & Hsize).
  pose proof (Z.div_le_lower_bound (_offset s') sz size ltac:(lia)) as Hd.
  unfold reclaim, mbind, M_bind, gets, assertM, modify, lift, EOS_VM_ASSERT. split.
  - destruct (Z.leb_spec size (_offset s' / sz)); [simpl|nia].
    rewrite Ho', Z.eqb_refl, orb_true_r. simpl.
    destruct (Z.eqb_spec size 0); simpl; (eexists; split; [done|]).
    + split; [done|]. split; [done|lia].
    + unfold growable_wf; simpl. split; [nia|done].
  - intros q n Hn Hq. destruct (n <=? _); [|by eexists]. simpl.
    destruct (Z.eqb_spec n 0); [lia|]. destruct (Z.eqb_spec (q + sz * n) (_offset s')); [done|].
    by eexists.
Qed.
End GrowableProofs.

(** ** wasm_allocator *)
Section WasmAllocProofs.
Context `{sys : Sys} {Hsucc : SysSucceeds sys}.
Import WasmAlloc.

Definition wasm_alloc_wf (s : t) : Prop := -1 <= page s <= max_pages.

(** The bytes of the first [n] pages are zero. *)
Definition all_zero (n : Z) (s : t) : Prop :=
  forall a, 0 <= a < page_size * n -> byte_at (bytes s) a = 0.

Lemma byte_at_zero_range start n m a :
  byte_at (zero_range start n m) a = if (start <=? a) && (a <? start + n) then 0 else byte_at m a.
Proof.
  unfold byte_at, zero_range. rewrite map_lookup_filter.
  destruct (m !! a) as [b|]; simpl; [|by destruct (_ && _)].
  destruct (Z.leb_spec start a), (Z.ltb_spec a (start + n)); simpl; case_guard; simpl in *;
    done || lia.
Qed.

(** [alloc] on every argument. *)
Lemma wasm_alloc_alloc_eq n s :
  wasm_alloc_wf s -> 0 <= n < 2 ^ 63 ->
  alloc n s =
    if n =? 0 then (Ret tt, s)
    else if page s <? 0 then (Throw (wasm_bad_alloc "require memory to allocate"), s)
    else if page s + n <=? max_pages
    then (Ret tt, Make (page s + n) (zero_range (page_size * page s) (page_size * n) (bytes s)))
    else (Throw (wasm_bad_alloc "exceeded max number of pages"), s).
Proof.
  intros Hwf Hn. unfold wasm_alloc_wf in Hwf. change max_pages with 65536 in *.
  unfold alloc. destruct (n =? 0); [done|].
  unfold mbind, M_bind, gets, assertM, modify, lift, EOS_VM_ASSERT.
  change max_pages with 65536.
  destruct (Z.leb_spec 0 (page s)), (Z.ltb_spec (page s) 0); try lia; [simpl|done].
  rewrite (wrap_small 64 (n + page s)) by (unfold in_u; lia). rewrite (Z.add_comm n).
  destruct (Z.leb_spec (page s + n) 65536); [simpl|done].
  rewrite mprotect_succeeds. simpl.
  rewrite wrap_small by (unfold in_u, page_size; lia).
  unfold set_page, set_bytes; simpl. rewrite sext_small by (unfold in_s; lia). done.
Qed.

Lemma wasm_alloc_free_eq n s :
  wasm_alloc_wf s -> 0 <= n ->
  free n s =
    if n =? 0 then (Ret tt, s)
    else if page s <? 0 then (Throw (wasm_bad_alloc "require memory to deallocate"), s)
    else if n <=? page s then (Ret tt, Make (page s - n) (bytes s))
    else (Throw (wasm_bad_alloc "freed too many pages"), s).
Proof.
  intros Hwf Hn. unfold wasm_alloc_wf in Hwf. change max_pages with 65536 in *.
  unfold free. destruct (n =? 0); [done|].
  unfold mbind, M_bind, gets, assertM, modify, lift, EOS_VM_ASSERT.
  destruct (Z.leb_spec 0 (page s)), (Z.ltb_spec (page s) 0); try lia; [simpl|done].
  destruct (Z.leb_spec n (page s)); [simpl|done].
  rewrite mprotect_succeeds. simpl. unfold set_page.
  rewrite sext_small by (unfold in_s; lia). done.
Qed.

Lemma reset_pages_eq n s :
  wasm_alloc_wf s -> 0 <= n < 2 ^ 32 ->
  exists s1, page s1 = Z.max 0 (page s) /\ all_zero (page s1) s1 /\
    reset_pages n s =
      if page s1 <? n then alloc (n - page s1) s1
      else if n <? page s1 then free (page s1 - n) s1 else (Ret tt, s1).
Proof.
  intros Hwf Hn. unfold wasm_alloc_wf in Hwf.
  exists (if 0 <=? page s
          then set_bytes (zero_range 0 (page_size * page s) (bytes s)) s else set_page 0 s).
  unfold reset_pages, mbind, M_bind, gets, assertM, modify, lift, EOS_VM_ASSERT.
  destruct (Z.leb_spec 0 (page s)); simpl.
  - split; [lia|]. split.
    + intros a Ha. simpl in *. rewrite byte_at_zero_range.
      destruct (Z.leb_spec 0 a), (Z.ltb_spec a (0 + page_size * page s)); done || lia.
    + destruct (_ <? _); [done|]. by destruct (_ <? _).
  - rewrite mprotect_succeeds. simpl. split; [lia|]. split.
    + intros a Ha. simpl in Ha. lia.
    + destruct (0 <? n); [done|]. by destruct (n <? 0).
Qed.

Lemma reset_pages_ret n s :
  wasm_alloc_wf s -> 0 <= n <= max_pages ->
  exists s', reset_pages n s = (Ret tt, s') /\ page s' = n /\ all_zero n s' /\ wasm_alloc_wf s'.
Proof.
  intros Hwf Hn. change max_pages with 65536 in *.
  destruct (reset_pages_eq n s Hwf ltac:(lia)) as (s1 & Hp & Hz & ->).
  unfold wasm_alloc_wf in *. change max_pages with 65536 in *.
  assert (Hwf1 : wasm_alloc_wf s1) by (unfold wasm_alloc_wf; change max_pages with 65536; lia).
  destruct (Z.ltb_spec (page s1) n) as [Hlt|].
  - rewrite wasm_alloc_alloc_eq by (done || lia). change max_pages with 65536.
    destruct (Z.eqb_spec (n - page s1) 0), (Z.ltb_spec (page s1) 0),
      (Z.leb_spec (page s1 + (n - page s1)) 65536); try lia.
    eexists; split; [done|]. simpl. split; [lia|]. split; [|lia].
    intros a Hr. simpl. rewrite byte_at_zero_range. destruct (_ && _) eqn:E; [done|].
    apply Hz. apply andb_false_iff in E as [E|E]; destruct_bools; unfold page_size in *; lia.
  - destruct (Z.ltb_spec n (page s1)) as [Hlt|].
    + rewrite wasm_alloc_free_eq by (done || lia).
      destruct (Z.eqb_spec (page s1 - n) 0), (Z.ltb_spec (page s1) 0),
        (Z.leb_spec (page s1 - n) (page s1)); try lia.
      eexists; split; [done|]. simpl. split; [lia|]. split; [|lia].
      intros a Hr. simpl. apply Hz. unfold page_size in *. lia.
    + exists s1. split; [done|]. split; [lia|]. split; [|lia]. by replace n with (page s1) by lia.
Qed.

(** The documented postcondition of [wasm_allocator::reset(new_pages)]:
    from any state, for at most [max_pages] pages, it returns with
    [get_current_page() == new_pages] and every byte of those pages zero; for
    more it throws [wasm_bad_alloc]. *)
Theorem wasm_allocator_reset_post n s :
  wasm_alloc_wf s -> 0 <= n < 2 ^ 32 ->
  (n <= max_pages ->
     exists s', reset_pages n s = (Ret tt, s') /\ page s' = n /\ all_zero n s' /\
       wasm_alloc_wf s') /\
  (max_pages < n ->
     exists s', reset_pages n s =
       (Throw (wasm_bad_alloc "exceeded max number of pages"), s') /\ wasm_alloc_wf s').
Proof.
  intros Hwf Hn. split; intros Hmax; [apply reset_pages_ret; [done|lia]|].
  destruct (reset_pages_eq n s Hwf Hn) as (s1 & Hp & Hz & ->).
  unfold wasm_alloc_wf in *. change max_pages with 65536 in *.
  assert (Hwf1 : wasm_alloc_wf s1) by (unfold wasm_alloc_wf; change max_pages with 65536; lia).
  exists s1. split; [|lia]. destruct (Z.ltb_spec (page s1) n); [|lia].
  rewrite wasm_alloc_alloc_eq by (done || lia). change max_pages with 65536.
  destruct (Z.eqb_spec (n - page s1) 0), (Z.ltb_spec (page s1) 0); [lia|lia|lia|].
  by destruct (Z.leb_spec (page s1 + (n - page s1)) 65536); [lia|].
Qed.

Lemma reset_none_ret s :
  exists s', reset s = (Ret tt, s') /\ page s' = -1.
Proof.
  unfold reset, mbind, M_bind, gets, assertM, modify, lift, EOS_VM_ASSERT.
  destruct (0 <=? page s); simpl; [rewrite mprotect_succeeds; simpl|]; eexists; (split; [done|done]).
Qed.

(** [alloc] and [free] move the end of the memory: [alloc(n)] keeps every
    byte below the old end and zero-fills the new pages, or throws and changes
    nothing when more than [max_pages] would be in use; [free(n)] keeps the
    bytes below the new end. *)
Theorem wasm_allocator_alloc_free n s :
  wasm_alloc_wf s -> 0 <= page s -> 0 < n < 2 ^ 63 ->
  (page s + n <= max_pages ->
     exists s', alloc n s = (Ret tt, s') /\ page s' = page s + n /\ wasm_alloc_wf s' /\
       (forall a, a < page_size * page s -> byte_at (bytes s') a = byte_at (bytes s) a) /\
       (forall a, page_size * page s <= a < page_size * page s' -> byte_at (bytes s') a = 0)) /\
  (max_pages < page s + n ->
     alloc n s = (Throw (wasm_bad_alloc "exceeded max number of pages"), s)) /\
  (n <= page s ->
     exists s', free n s = (Ret tt, s') /\ page s' = page s - n /\ bytes s' = bytes s) /\
  (page s < n -> free n s = (Throw (wasm_bad_alloc "freed too many pages"), s)).
Proof.
  intros Hwf Hp Hn. rewrite wasm_alloc_alloc_eq, wasm_alloc_free_eq by (done || lia).
  destruct (Z.eqb_spec n 0); [lia|]. destruct (Z.ltb_spec (page s) 0); [lia|].
  unfold wasm_alloc_wf in *.
  split_and!; intros.
  - destruct (Z.leb_spec (page s + n) max_pages); [|lia].
    eexists; split; [done|]; simpl. split; [done|]. split; [lia|].
    split; intros a Ha; rewrite byte_at_zero_range;
      destruct (Z.leb_spec (page_size * page s) a),
        (Z.ltb_spec a (page_size * page s + page_size * n)); simpl; try done;
        unfold page_size in *; lia.
  - by destruct (Z.leb_spec (page s + n) max_pages); [lia|].
  - destruct (Z.leb_spec n (page s)); [|lia]. eexists; split; [done|]. done.
  - by destruct (Z.leb_spec n (page s)); [lia|].
Qed.
End WasmAllocProofs.

(** ** Witnesses *)
Definition linux : Sys := {|
  syspagesize := 4096;
  mmap_ok _ := true;
  munmap_ok _ _ := true;
  mprotect _ _ _ := 0 |}.

#[export] Instance linux_ok : SysOk linux.
Proof. constructor. exists 12. split; [lia|reflexivity]. Qed.
#[export] Instance linux_succeeds : SysSucceeds linux.
Proof. constructor; done. Qed.

Definition arena_example : Growable.t := Growable.Make 5 5 4096 true None 0.

(** ** bounded_allocator *)

(** [bounded_allocator::alloc]: a request whose size in bytes added to the
    index fits in 64 bits gets the next block when it fits in the buffer and is
    refused otherwise.  The check is made modulo [2^64]: a request that overflows
    to a small sum is granted although the block does not fit. *)
Theorem bounded_alloc_spec sz size s :
  0 <= sz -> 0 <= size -> 0 <= Bounded.index s <= Bounded.mem_size s -> Bounded.mem_size s < 2 ^ 64 ->
  let need := sz * size + Bounded.index s in
  (need < 2 ^ 64 ->
     (need <= Bounded.mem_size s ->
        Bounded.alloc sz size s = (Ret (Bounded.index s), Bounded.Make (Bounded.mem_size s) need)) /\
     (Bounded.mem_size s < need ->
        Bounded.alloc sz size s = (Throw (wasm_bad_alloc "wasm failed to allocate native"), s))) /\
  (2 ^ 64 <= need -> wrap 64 need <= Bounded.mem_size s ->
     Bounded.mem_size s < need /\
     Bounded.alloc sz size s = (Ret (Bounded.index s), Bounded.Make (Bounded.mem_size s) (wrap 64 need))).
Proof.
  intros Hz Hs Hi Hm need. unfold Bounded.alloc.
  assert (Hw : forall x, wrap 64 (wrap 64 (sz * size) + x) = wrap 64 (sz * size + x)).
  { intros x. unfold wrap. by rewrite Z.add_mod_idemp_l. }
  rewrite Hw, (Z.add_comm (Bounded.index s)), Hw. fold need. split.
  - intros Hn. assert (0 <= need) by nia. rewrite wrap_small by (unfold in_u; lia).
    split; intros; destruct (Z.leb_spec need (Bounded.mem_size s)); done || lia.
  - intros Hn Hle. split; [lia|]. by destruct (Z.leb_spec (wrap 64 need) (Bounded.mem_size s)); [|lia].
Qed.

Lemma bounded_alloc_spec_witness :
  Bounded.alloc 4 10 (Bounded.Make 64 8) = (Ret 8, Bounded.Make 64 48) /\
  Bounded.alloc 8 (2 ^ 61) (Bounded.Make 64 8) = (Ret 8, Bounded.Make 64 8).
Proof.
  split.
  - destruct (bounded_alloc_spec 4 10 (Bounded.Make 64 8) ltac:(lia) ltac:(lia) ltac:(simpl; lia)
      ltac:(simpl; lia)) as [H _]. apply H; simpl; lia.
  - destruct (bounded_alloc_spec 8 (2 ^ 61) (Bounded.Make 64 8) ltac:(lia) ltac:(lia) ltac:(simpl; lia)
      ltac:(simpl; lia)) as [_ H]. apply H; vm_compute; discriminate.
Defined.

Lemma growable_alloc_spec_witness :
  Growable.alloc 4 8 10 arena_example = (Ret 8, Growable.Make 48 48 4096 true None 0).
Proof.
  apply (growable_alloc_spec 4 8 10 arena_example).
  - unfold growable_wf, Growable.max_memory_size; simpl. lia.
  - split; [lia|]. split; [exists 3; split; [lia|reflexivity]|lia].
  - reflexivity.
  - vm_compute. discriminate.
Defined.

Lemma growable_blocks_disjoint_witness :
  ForallOrdPairs (fun b1 b2 : Z * Z => b1.2 <= b2.1) [(8, 48); (48, 51); (52, 56)].
Proof.
  apply (growable_blocks_disjoint [(4, 8, 10); (1, 1, 3); (4, 4, 1)] arena_example
           [(8, 48); (48, 51); (52, 56)] (Growable.Make 56 56 4096 true None 0)).
  - unfold growable_wf, Growable.max_memory_size; simpl. lia.
  - repeat constructor; try lia; [exists 3|exists 0|exists 2]; (split; [lia|reflexivity]).
  - vm_compute. reflexivity.
Defined.

Lemma growable_reclaim_lifo_witness :
  exists s'', Growable.reclaim 4 8 10 (Growable.Make 48 48 4096 true None 0) = (Ret tt, s'') /\
    growable_wf s'' /\ Growable._capacity s'' = 4096 /\ (0 < 10 -> Growable._offset s'' = 8).
Proof.
  apply (growable_reclaim_lifo 4 8 10 arena_example 8).
  - unfold growable_wf, Growable.max_memory_size; simpl. lia.
  - split; [lia|]. split; [exists 3; split; [lia|reflexivity]|lia].
  - vm_compute. reflexivity.
Defined.

Lemma wasm_allocator_reset_post_witness :
  exists s', WasmAlloc.reset_pages (sys := linux) 2 (WasmAlloc.Make 1 {[ 5 := 7 ]}) = (Ret tt, s') /\
    WasmAlloc.page s' = 2 /\ all_zero 2 s' /\ wasm_alloc_wf s'.
Proof.
  refine (proj1 (wasm_allocator_reset_post (sys := linux) 2 (WasmAlloc.Make 1 {[ 5 := 7 ]}) _ _) _);
    repeat split; vm_compute; (reflexivity || discriminate).
Defined.

Lemma wasm_allocator_alloc_free_witness :
  WasmAlloc.alloc (sys := linux) 65536 (WasmAlloc.Make 1 ∅) =
    (Throw (wasm_bad_alloc "exceeded max number of pages"), WasmAlloc.Make 1 ∅).
Proof.
  refine (proj1 (proj2 (wasm_allocator_alloc_free (sys := linux) 65536 (WasmAlloc.Make 1 ∅) _ _ _)) _);
    repeat split; vm_compute; (reflexivity || discriminate).
Defined.
