(* ===== verification/Opcodes.v ===== *)
(** * Opcodes (opcodes_def.hpp, opcodes.hpp)

    One inductive type per opcode macro family, with the instructions in the
    order of the macro, the table of the numbers the macro gives them, and the
    [opcode] variant that the bitcode is made of: a constructor per payload
    struct, carrying the family's instruction and the struct's fields. *)
From S2P Require Import Prelude.

Module Op.


(** [EOS_VM_CONTROL_FLOW_OPS]: one-byte control instructions; the payload of each is a [control_flow_imm]. *)
Inductive control_flow_op : Type :=
  | unreachable | nop | block | loop | if_ | else_ | padding_cf_0 | padding_cf_1
  | padding_cf_2 | padding_cf_3 | padding_cf_4 | end_ | br | br_if.

Definition control_flow_op_code (o : control_flow_op) : Z :=
  match o with
  | unreachable => 0x0 | nop => 0x1 | block => 0x2 | loop => 0x3 | if_ => 0x4
  | else_ => 0x5 | padding_cf_0 => 0x6 | padding_cf_1 => 0x7 | padding_cf_2 => 0x8
  | padding_cf_3 => 0x9 | padding_cf_4 => 0xa | end_ => 0xb | br => 0xc
  | br_if => 0xd
  end.

Definition control_flow_op_all : list control_flow_op :=
  [unreachable; nop; block; loop; if_; else_; padding_cf_0; padding_cf_1;
   padding_cf_2; padding_cf_3; padding_cf_4; end_; br; br_if].

(** [EOS_VM_CALL_OPS]: calls and the branch-table data slots; payload [index]. *)
Inductive call_op : Type :=
  | call | call_indirect | br_table_data.

Definition call_op_code (o : call_op) : Z :=
  match o with
  | call => 0x10 | call_indirect => 0x11 | br_table_data => 0x12
  end.

Definition call_op_all : list call_op :=
  [call; call_indirect; br_table_data].

(** [EOS_VM_CALL_IMM_OPS]: payload [index], [locals], [return_type]. *)
Inductive call_imm_op : Type :=
  | call_imm | call_indirect_imm | padding_call_1 | padding_call_2 | padding_call_3
  | padding_call_4 | padding_call_5.

Definition call_imm_op_code (o : call_imm_op) : Z :=
  match o with
  | call_imm => 0x13 | call_indirect_imm => 0x14 | padding_call_1 => 0x15
  | padding_call_2 => 0x16 | padding_call_3 => 0x17 | padding_call_4 => 0x18
  | padding_call_5 => 0x19
  end.

Definition call_imm_op_all : list call_imm_op :=
  [call_imm; call_indirect_imm; padding_call_1; padding_call_2; padding_call_3;
   padding_call_4; padding_call_5].

(** [EOS_VM_PARAMETRIC_OPS]: no payload. *)
Inductive parametric_op : Type :=
  | drop_ | select_ | padding_param_0 | padding_param_1 | padding_param_2
  | padding_param_3.

Definition parametric_op_code (o : parametric_op) : Z :=
  match o with
  | drop_ => 0x1a | select_ => 0x1b | padding_param_0 => 0x1c
  | padding_param_1 => 0x1d | padding_param_2 => 0x1e | padding_param_3 => 0x1f
  end.

Definition parametric_op_all : list parametric_op :=
  [drop_; select_; padding_param_0; padding_param_1; padding_param_2;
   padding_param_3].

(** [EOS_VM_VARIABLE_ACCESS_OPS]: payload [index]. *)
Inductive variable_access_op : Type :=
  | get_local | set_local | tee_local | get_global | set_global | padding_va_0
  | padding_va_1 | padding_va_2.

Definition variable_access_op_code (o : variable_access_op) : Z :=
  match o with
  | get_local => 0x20 | set_local => 0x21 | tee_local => 0x22 | get_global => 0x23
  | set_global => 0x24 | padding_va_0 => 0x25 | padding_va_1 => 0x26
  | padding_va_2 => 0x27
  end.

Definition variable_access_op_all : list variable_access_op :=
  [get_local; set_local; tee_local; get_global; set_global; padding_va_0;
   padding_va_1; padding_va_2].

(** [EOS_VM_MEMORY_OPS]: payload [flags_align], [offset]. *)
Inductive memory_op : Type :=
  | i32_load | i64_load | f32_load | f64_load | i32_load8_s | i32_load8_u
  | i32_load16_s | i32_load16_u | i64_load8_s | i64_load8_u | i64_load16_s
  | i64_load16_u | i64_load32_s | i64_load32_u | i32_store | i64_store | f32_store
  | f64_store | i32_store8 | i32_store16 | i64_store8 | i64_store16 | i64_store32
  | current_memory | grow_memory.

Definition memory_op_code (o : memory_op) : Z :=
  match o with
  | i32_load => 0x28 | i64_load => 0x29 | f32_load => 0x2a | f64_load => 0x2b
  | i32_load8_s => 0x2c | i32_load8_u => 0x2d | i32_load16_s => 0x2e
  | i32_load16_u => 0x2f | i64_load8_s => 0x30 | i64_load8_u => 0x31
  | i64_load16_s => 0x32 | i64_load16_u => 0x33 | i64_load32_s => 0x34
  | i64_load32_u => 0x35 | i32_store => 0x36 | i64_store => 0x37 | f32_store => 0x38
  | f64_store => 0x39 | i32_store8 => 0x3a | i32_store16 => 0x3b | i64_store8 => 0x3c
  | i64_store16 => 0x3d | i64_store32 => 0x3e | current_memory => 0x3f
  | grow_memory => 0x40
  end.

Definition memory_op_all : list memory_op :=
  [i32_load; i64_load; f32_load; f64_load; i32_load8_s; i32_load8_u; i32_load16_s;
   i32_load16_u; i64_load8_s; i64_load8_u; i64_load16_s; i64_load16_u; i64_load32_s;
   i64_load32_u; i32_store; i64_store; f32_store; f64_store; i32_store8; i32_store16;
   i64_store8; i64_store16; i64_store32; current_memory; grow_memory].

(** [EOS_VM_COMPARISON_OPS]: no payload. *)
Inductive comparison_op : Type :=
  | i32_eqz | i32_eq | i32_ne | i32_lt_s | i32_lt_u | i32_gt_s | i32_gt_u | i32_le_s
  | i32_le_u | i32_ge_s | i32_ge_u | i64_eqz | i64_eq | i64_ne | i64_lt_s | i64_lt_u
  | i64_gt_s | i64_gt_u | i64_le_s | i64_le_u | i64_ge_s | i64_ge_u | f32_eq | f32_ne
  | f32_lt | f32_gt | f32_le | f32_ge | f64_eq | f64_ne | f64_lt | f64_gt | f64_le
  | f64_ge.

Definition comparison_op_code (o : comparison_op) : Z :=
  match o with
  | i32_eqz => 0x45 | i32_eq => 0x46 | i32_ne => 0x47 | i32_lt_s => 0x48
  | i32_lt_u => 0x49 | i32_gt_s => 0x4a | i32_gt_u => 0x4b | i32_le_s => 0x4c
  | i32_le_u => 0x4d | i32_ge_s => 0x4e | i32_ge_u => 0x4f | i64_eqz => 0x50
  | i64_eq => 0x51 | i64_ne => 0x52 | i64_lt_s => 0x53 | i64_lt_u => 0x54
  | i64_gt_s => 0x55 | i64_gt_u => 0x56 | i64_le_s => 0x57 | i64_le_u => 0x58
  | i64_ge_s => 0x59 | i64_ge_u => 0x5a | f32_eq => 0x5b | f32_ne => 0x5c
  | f32_lt => 0x5d | f32_gt => 0x5e | f32_le => 0x5f | f32_ge => 0x60
  | f64_eq => 0x61 | f64_ne => 0x62 | f64_lt => 0x63 | f64_gt => 0x64
  | f64_le => 0x65 | f64_ge => 0x66
  end.

Definition comparison_op_all : list comparison_op :=
  [i32_eqz; i32_eq; i32_ne; i32_lt_s; i32_lt_u; i32_gt_s; i32_gt_u; i32_le_s;
   i32_le_u; i32_ge_s; i32_ge_u; i64_eqz; i64_eq; i64_ne; i64_lt_s; i64_lt_u;
   i64_gt_s; i64_gt_u; i64_le_s; i64_le_u; i64_ge_s; i64_ge_u; f32_eq; f32_ne;
   f32_lt; f32_gt; f32_le; f32_ge; f64_eq; f64_ne; f64_lt; f64_gt; f64_le; f64_ge].

(** [EOS_VM_NUMERIC_OPS]: no payload. *)
Inductive numeric_op : Type :=
  | i32_clz | i32_ctz | i32_popcnt | i32_add | i32_sub | i32_mul | i32_div_s
  | i32_div_u | i32_rem_s | i32_rem_u | i32_and | i32_or | i32_xor | i32_shl
  | i32_shr_s | i32_shr_u | i32_rotl | i32_rotr | i64_clz | i64_ctz | i64_popcnt
  | i64_add | i64_sub | i64_mul | i64_div_s | i64_div_u | i64_rem_s | i64_rem_u
  | i64_and | i64_or | i64_xor | i64_shl | i64_shr_s | i64_shr_u | i64_rotl
  | i64_rotr | f32_abs | f32_neg | f32_ceil | f32_floor | f32_trunc | f32_nearest
  | f32_sqrt | f32_add | f32_sub | f32_mul | f32_div | f32_min | f32_max
  | f32_copysign | f64_abs | f64_neg | f64_ceil | f64_floor | f64_trunc | f64_nearest
  | f64_sqrt | f64_add | f64_sub | f64_mul | f64_div | f64_min | f64_max
  | f64_copysign | i32_extend8_s | i32_extend16_s | i64_extend8_s | i64_extend16_s
  | i64_extend32_s.

Definition numeric_op_code (o : numeric_op) : Z :=
  match o with
  | i32_clz => 0x67 | i32_ctz => 0x68 | i32_popcnt => 0x69 | i32_add => 0x6a
  | i32_sub => 0x6b | i32_mul => 0x6c | i32_div_s => 0x6d | i32_div_u => 0x6e
  | i32_rem_s => 0x6f | i32_rem_u => 0x70 | i32_and => 0x71 | i32_or => 0x72
  | i32_xor => 0x73 | i32_shl => 0x74 | i32_shr_s => 0x75 | i32_shr_u => 0x76
  | i32_rotl => 0x77 | i32_rotr => 0x78 | i64_clz => 0x79 | i64_ctz => 0x7a
  | i64_popcnt => 0x7b | i64_add => 0x7c | i64_sub => 0x7d | i64_mul => 0x7e
  | i64_div_s => 0x7f | i64_div_u => 0x80 | i64_rem_s => 0x81 | i64_rem_u => 0x82
  | i64_and => 0x83 | i64_or => 0x84 | i64_xor => 0x85 | i64_shl => 0x86
  | i64_shr_s => 0x87 | i64_shr_u => 0x88 | i64_rotl => 0x89 | i64_rotr => 0x8a
  | f32_abs => 0x8b | f32_neg => 0x8c | f32_ceil => 0x8d | f32_floor => 0x8e
  | f32_trunc => 0x8f | f32_nearest => 0x90 | f32_sqrt => 0x91 | f32_add => 0x92
  | f32_sub => 0x93 | f32_mul => 0x94 | f32_div => 0x95 | f32_min => 0x96
  | f32_max => 0x97 | f32_copysign => 0x98 | f64_abs => 0x99 | f64_neg => 0x9a
  | f64_ceil => 0x9b | f64_floor => 0x9c | f64_trunc => 0x9d | f64_nearest => 0x9e
  | f64_sqrt => 0x9f | f64_add => 0xa0 | f64_sub => 0xa1 | f64_mul => 0xa2
  | f64_div => 0xa3 | f64_min => 0xa4 | f64_max => 0xa5 | f64_copysign => 0xa6
  | i32_extend8_s => 0xc0 | i32_extend16_s => 0xc1 | i64_extend8_s => 0xc2
  | i64_extend16_s => 0xc3 | i64_extend32_s => 0xc4
  end.

Definition numeric_op_all : list numeric_op :=
  [i32_clz; i32_ctz; i32_popcnt; i32_add; i32_sub; i32_mul; i32_div_s; i32_div_u;
   i32_rem_s; i32_rem_u; i32_and; i32_or; i32_xor; i32_shl; i32_shr_s; i32_shr_u;
   i32_rotl; i32_rotr; i64_clz; i64_ctz; i64_popcnt; i64_add; i64_sub; i64_mul;
   i64_div_s; i64_div_u; i64_rem_s; i64_rem_u; i64_and; i64_or; i64_xor; i64_shl;
   i64_shr_s; i64_shr_u; i64_rotl; i64_rotr; f32_abs; f32_neg; f32_ceil; f32_floor;
   f32_trunc; f32_nearest; f32_sqrt; f32_add; f32_sub; f32_mul; f32_div; f32_min;
   f32_max; f32_copysign; f64_abs; f64_neg; f64_ceil; f64_floor; f64_trunc;
   f64_nearest; f64_sqrt; f64_add; f64_sub; f64_mul; f64_div; f64_min; f64_max;
   f64_copysign; i32_extend8_s; i32_extend16_s; i64_extend8_s; i64_extend16_s;
   i64_extend32_s].

(** [EOS_VM_CONVERSION_OPS]: no payload. *)
Inductive conversion_op : Type :=
  | i32_wrap_i64 | i32_trunc_s_f32 | i32_trunc_u_f32 | i32_trunc_s_f64
  | i32_trunc_u_f64 | i64_extend_s_i32 | i64_extend_u_i32 | i64_trunc_s_f32
  | i64_trunc_u_f32 | i64_trunc_s_f64 | i64_trunc_u_f64 | f32_convert_s_i32
  | f32_convert_u_i32 | f32_convert_s_i64 | f32_convert_u_i64 | f32_demote_f64
  | f64_convert_s_i32 | f64_convert_u_i32 | f64_convert_s_i64 | f64_convert_u_i64
  | f64_promote_f32 | i32_reinterpret_f32 | i64_reinterpret_f64 | f32_reinterpret_i32
  | f64_reinterpret_i64.

Definition conversion_op_code (o : conversion_op) : Z :=
  match o with
  | i32_wrap_i64 => 0xa7 | i32_trunc_s_f32 => 0xa8 | i32_trunc_u_f32 => 0xa9
  | i32_trunc_s_f64 => 0xaa | i32_trunc_u_f64 => 0xab | i64_extend_s_i32 => 0xac
  | i64_extend_u_i32 => 0xad | i64_trunc_s_f32 => 0xae | i64_trunc_u_f32 => 0xaf
  | i64_trunc_s_f64 => 0xb0 | i64_trunc_u_f64 => 0xb1 | f32_convert_s_i32 => 0xb2
  | f32_convert_u_i32 => 0xb3 | f32_convert_s_i64 => 0xb4 | f32_convert_u_i64 => 0xb5
  | f32_demote_f64 => 0xb6 | f64_convert_s_i32 => 0xb7 | f64_convert_u_i32 => 0xb8
  | f64_convert_s_i64 => 0xb9 | f64_convert_u_i64 => 0xba | f64_promote_f32 => 0xbb
  | i32_reinterpret_f32 => 0xbc | i64_reinterpret_f64 => 0xbd
  | f32_reinterpret_i32 => 0xbe | f64_reinterpret_i64 => 0xbf
  end.

Definition conversion_op_all : list conversion_op :=
  [i32_wrap_i64; i32_trunc_s_f32; i32_trunc_u_f32; i32_trunc_s_f64; i32_trunc_u_f64;
   i64_extend_s_i32; i64_extend_u_i32; i64_trunc_s_f32; i64_trunc_u_f32;
   i64_trunc_s_f64; i64_trunc_u_f64; f32_convert_s_i32; f32_convert_u_i32;
   f32_convert_s_i64; f32_convert_u_i64; f32_demote_f64; f64_convert_s_i32;
   f64_convert_u_i32; f64_convert_s_i64; f64_convert_u_i64; f64_promote_f32;
   i32_reinterpret_f32; i64_reinterpret_f64; f32_reinterpret_i32;
   f64_reinterpret_i64].

(** [EOS_VM_REF_OPS]: only opcode numbers. *)
Inductive ref_op : Type :=
  | ref_null | ref_is_null | ref_func.

Definition ref_op_code (o : ref_op) : Z :=
  match o with
  | ref_null => 0xd0 | ref_is_null => 0xd1 | ref_func => 0xd2
  end.

Definition ref_op_all : list ref_op :=
  [ref_null; ref_is_null; ref_func].

(** [EOS_VM_EXTENDED_OPS]: the prefixes of the two-byte opcodes. *)
Inductive extended_op : Type :=
  | ext_prefix | vector_prefix.

Definition extended_op_code (o : extended_op) : Z :=
  match o with
  | ext_prefix => 0xfc | vector_prefix => 0xfd
  end.

Definition extended_op_all : list extended_op :=
  [ext_prefix; vector_prefix].

(** [EOS_VM_EMPTY_OPS]: unassigned bytes. *)
Inductive empty_op : Type :=
  | empty0xC5 | empty0xC6 | empty0xC7 | empty0xC8 | empty0xC9 | empty0xCA | empty0xCB
  | empty0xCC | empty0xCD | empty0xCE | empty0xCF | empty0xD3 | empty0xD4 | empty0xD5
  | empty0xD6 | empty0xD7 | empty0xD8 | empty0xD9 | empty0xDA | empty0xDB | empty0xDC
  | empty0xDD | empty0xDE | empty0xDF | empty0xE1 | empty0xE2 | empty0xE3 | empty0xE4
  | empty0xE5 | empty0xE6 | empty0xE7 | empty0xE8 | empty0xE9 | empty0xEA | empty0xEB
  | empty0xEC | empty0xED | empty0xEE | empty0xEF | empty0xF0 | empty0xF1 | empty0xF2
  | empty0xF3 | empty0xF4 | empty0xF5 | empty0xF6 | empty0xF7 | empty0xF8 | empty0xF9
  | empty0xFA | empty0xFB | empty0xFE.

Definition empty_op_code (o : empty_op) : Z :=
  match o with
  | empty0xC5 => 0xc5 | empty0xC6 => 0xc6 | empty0xC7 => 0xc7 | empty0xC8 => 0xc8
  | empty0xC9 => 0xc9 | empty0xCA => 0xca | empty0xCB => 0xcb | empty0xCC => 0xcc
  | empty0xCD => 0xcd | empty0xCE => 0xce | empty0xCF => 0xcf | empty0xD3 => 0xd3
  | empty0xD4 => 0xd4 | empty0xD5 => 0xd5 | empty0xD6 => 0xd6 | empty0xD7 => 0xd7
  | empty0xD8 => 0xd8 | empty0xD9 => 0xd9 | empty0xDA => 0xda | empty0xDB => 0xdb
  | empty0xDC => 0xdc | empty0xDD => 0xdd | empty0xDE => 0xde | empty0xDF => 0xdf
  | empty0xE1 => 0xe1 | empty0xE2 => 0xe2 | empty0xE3 => 0xe3 | empty0xE4 => 0xe4
  | empty0xE5 => 0xe5 | empty0xE6 => 0xe6 | empty0xE7 => 0xe7 | empty0xE8 => 0xe8
  | empty0xE9 => 0xe9 | empty0xEA => 0xea | empty0xEB => 0xeb | empty0xEC => 0xec
  | empty0xED => 0xed | empty0xEE => 0xee | empty0xEF => 0xef | empty0xF0 => 0xf0
  | empty0xF1 => 0xf1 | empty0xF2 => 0xf2 | empty0xF3 => 0xf3 | empty0xF4 => 0xf4
  | empty0xF5 => 0xf5 | empty0xF6 => 0xf6 | empty0xF7 => 0xf7 | empty0xF8 => 0xf8
  | empty0xF9 => 0xf9 | empty0xFA => 0xfa | empty0xFB => 0xfb | empty0xFE => 0xfe
  end.

Definition empty_op_all : list empty_op :=
  [empty0xC5; empty0xC6; empty0xC7; empty0xC8; empty0xC9; empty0xCA; empty0xCB;
   empty0xCC; empty0xCD; empty0xCE; empty0xCF; empty0xD3; empty0xD4; empty0xD5;
   empty0xD6; empty0xD7; empty0xD8; empty0xD9; empty0xDA; empty0xDB; empty0xDC;
   empty0xDD; empty0xDE; empty0xDF; empty0xE1; empty0xE2; empty0xE3; empty0xE4;
   empty0xE5; empty0xE6; empty0xE7; empty0xE8; empty0xE9; empty0xEA; empty0xEB;
   empty0xEC; empty0xED; empty0xEE; empty0xEF; empty0xF0; empty0xF1; empty0xF2;
   empty0xF3; empty0xF4; empty0xF5; empty0xF6; empty0xF7; empty0xF8; empty0xF9;
   empty0xFA; empty0xFB; empty0xFE].

(** [EOS_VM_DATA_OPS]: prefix 0xFC; payload [index]. *)
Inductive data_op : Type :=
  | memory_init | data_drop | table_init | elem_drop.

Definition data_op_code (o : data_op) : Z :=
  match o with
  | memory_init => 8 | data_drop => 9 | table_init => 12 | elem_drop => 13
  end.

Definition data_op_all : list data_op :=
  [memory_init; data_drop; table_init; elem_drop].

(** [EOS_VM_EXT_OPS]: prefix 0xFC; no payload. *)
Inductive ext_op : Type :=
  | i32_trunc_sat_f32_s | i32_trunc_sat_f32_u | i32_trunc_sat_f64_s
  | i32_trunc_sat_f64_u | i64_trunc_sat_f32_s | i64_trunc_sat_f32_u
  | i64_trunc_sat_f64_s | i64_trunc_sat_f64_u | memory_copy | memory_fill
  | table_copy.

Definition ext_op_code (o : ext_op) : Z :=
  match o with
  | i32_trunc_sat_f32_s => 0 | i32_trunc_sat_f32_u => 1 | i32_trunc_sat_f64_s => 2
  | i32_trunc_sat_f64_u => 3 | i64_trunc_sat_f32_s => 4 | i64_trunc_sat_f32_u => 5
  | i64_trunc_sat_f64_s => 6 | i64_trunc_sat_f64_u => 7 | memory_copy => 10
  | memory_fill => 11 | table_copy => 14
  end.

Definition ext_op_all : list ext_op :=
  [i32_trunc_sat_f32_s; i32_trunc_sat_f32_u; i32_trunc_sat_f64_s;
   i32_trunc_sat_f64_u; i64_trunc_sat_f32_s; i64_trunc_sat_f32_u;
   i64_trunc_sat_f64_s; i64_trunc_sat_f64_u; memory_copy; memory_fill; table_copy].

(** [EOS_VM_VEC_MEMORY_OPS]: prefix 0xFD; payload [flags_align], [offset]. *)
Inductive vec_memory_op : Type :=
  | v128_load | v128_load8x8_s | v128_load8x8_u | v128_load16x4_s | v128_load16x4_u
  | v128_load32x2_s | v128_load32x2_u | v128_load8_splat | v128_load16_splat
  | v128_load32_splat | v128_load64_splat | v128_load32_zero | v128_load64_zero
  | v128_store.

Definition vec_memory_op_code (o : vec_memory_op) : Z :=
  match o with
  | v128_load => 0 | v128_load8x8_s => 1 | v128_load8x8_u => 2 | v128_load16x4_s => 3
  | v128_load16x4_u => 4 | v128_load32x2_s => 5 | v128_load32x2_u => 6
  | v128_load8_splat => 7 | v128_load16_splat => 8 | v128_load32_splat => 9
  | v128_load64_splat => 10 | v128_load32_zero => 92 | v128_load64_zero => 93
  | v128_store => 11
  end.

Definition vec_memory_op_all : list vec_memory_op :=
  [v128_load; v128_load8x8_s; v128_load8x8_u; v128_load16x4_s; v128_load16x4_u;
   v128_load32x2_s; v128_load32x2_u; v128_load8_splat; v128_load16_splat;
   v128_load32_splat; v128_load64_splat; v128_load32_zero; v128_load64_zero;
   v128_store].

(** [EOS_VM_VEC_LANE_MEMORY_OPS]: prefix 0xFD; payload [flags_align], [offset], [laneidx]. *)
Inductive vec_lane_memory_op : Type :=
  | v128_load8_lane | v128_load16_lane | v128_load32_lane | v128_load64_lane
  | v128_store8_lane | v128_store16_lane | v128_store32_lane | v128_store64_lane.

Definition vec_lane_memory_op_code (o : vec_lane_memory_op) : Z :=
  match o with
  | v128_load8_lane => 84 | v128_load16_lane => 85 | v128_load32_lane => 86
  | v128_load64_lane => 87 | v128_store8_lane => 88 | v128_store16_lane => 89
  | v128_store32_lane => 90 | v128_store64_lane => 91
  end.

Definition vec_lane_memory_op_all : list vec_lane_memory_op :=
  [v128_load8_lane; v128_load16_lane; v128_load32_lane; v128_load64_lane;
   v128_store8_lane; v128_store16_lane; v128_store32_lane; v128_store64_lane].

(** [EOS_VM_VEC_LANE_OPS]: prefix 0xFD; payload [laneidx]. *)
Inductive vec_lane_op : Type :=
  | i8x16_extract_lane_s | i8x16_extract_lane_u | i8x16_replace_lane
  | i16x8_extract_lane_s | i16x8_extract_lane_u | i16x8_replace_lane
  | i32x4_extract_lane | i32x4_replace_lane | i64x2_extract_lane | i64x2_replace_lane
  | f32x4_extract_lane | f32x4_replace_lane | f64x2_extract_lane | f64x2_replace_lane.

Definition vec_lane_op_code (o : vec_lane_op) : Z :=
  match o with
  | i8x16_extract_lane_s => 21 | i8x16_extract_lane_u => 22
  | i8x16_replace_lane => 23 | i16x8_extract_lane_s => 24
  | i16x8_extract_lane_u => 25 | i16x8_replace_lane => 26 | i32x4_extract_lane => 27
  | i32x4_replace_lane => 28 | i64x2_extract_lane => 29 | i64x2_replace_lane => 30
  | f32x4_extract_lane => 31 | f32x4_replace_lane => 32 | f64x2_extract_lane => 33
  | f64x2_replace_lane => 34
  end.

Definition vec_lane_op_all : list vec_lane_op :=
  [i8x16_extract_lane_s; i8x16_extract_lane_u; i8x16_replace_lane;
   i16x8_extract_lane_s; i16x8_extract_lane_u; i16x8_replace_lane;
   i32x4_extract_lane; i32x4_replace_lane; i64x2_extract_lane; i64x2_replace_lane;
   f32x4_extract_lane; f32x4_replace_lane; f64x2_extract_lane; f64x2_replace_lane].

(** [EOS_VM_VEC_NUMERIC_OPS]: prefix 0xFD; no payload. *)
Inductive vec_numeric_op : Type :=
  | i8x16_swizzle | i8x16_splat | i16x8_splat | i32x4_splat | i64x2_splat
  | f32x4_splat | f64x2_splat | i8x16_eq | i8x16_ne | i8x16_lt_s | i8x16_lt_u
  | i8x16_gt_s | i8x16_gt_u | i8x16_le_s | i8x16_le_u | i8x16_ge_s | i8x16_ge_u
  | i16x8_eq | i16x8_ne | i16x8_lt_s | i16x8_lt_u | i16x8_gt_s | i16x8_gt_u
  | i16x8_le_s | i16x8_le_u | i16x8_ge_s | i16x8_ge_u | i32x4_eq | i32x4_ne
  | i32x4_lt_s | i32x4_lt_u | i32x4_gt_s | i32x4_gt_u | i32x4_le_s | i32x4_le_u
  | i32x4_ge_s | i32x4_ge_u | i64x2_eq | i64x2_ne | i64x2_lt_s | i64x2_gt_s
  | i64x2_le_s | i64x2_ge_s | f32x4_eq | f32x4_ne | f32x4_lt | f32x4_gt | f32x4_le
  | f32x4_ge | f64x2_eq | f64x2_ne | f64x2_lt | f64x2_gt | f64x2_le | f64x2_ge
  | v128_not | v128_and | v128_andnot | v128_or | v128_xor | v128_bitselect
  | v128_any_true | i8x16_abs | i8x16_neg | i8x16_popcnt | i8x16_all_true
  | i8x16_bitmask | i8x16_narrow_i16x8_s | i8x16_narrow_i16x8_u | i8x16_shl
  | i8x16_shr_s | i8x16_shr_u | i8x16_add | i8x16_add_sat_s | i8x16_add_sat_u
  | i8x16_sub | i8x16_sub_sat_s | i8x16_sub_sat_u | i8x16_min_s | i8x16_min_u
  | i8x16_max_s | i8x16_max_u | i8x16_avgr_u | i16x8_extadd_pairwise_i8x16_s
  | i16x8_extadd_pairwise_i8x16_u | i16x8_abs | i16x8_neg | i16x8_q15mulr_sat_s
  | i16x8_all_true | i16x8_bitmask | i16x8_narrow_i32x4_s | i16x8_narrow_i32x4_u
  | i16x8_extend_low_i8x16_s | i16x8_extend_high_i8x16_s | i16x8_extend_low_i8x16_u
  | i16x8_extend_high_i8x16_u | i16x8_shl | i16x8_shr_s | i16x8_shr_u | i16x8_add
  | i16x8_add_sat_s | i16x8_add_sat_u | i16x8_sub | i16x8_sub_sat_s | i16x8_sub_sat_u
  | i16x8_mul | i16x8_min_s | i16x8_min_u | i16x8_max_s | i16x8_max_u | i16x8_avgr_u
  | i16x8_extmul_low_i8x16_s | i16x8_extmul_high_i8x16_s | i16x8_extmul_low_i8x16_u
  | i16x8_extmul_high_i8x16_u | i32x4_extadd_pairwise_i16x8_s
  | i32x4_extadd_pairwise_i16x8_u | i32x4_abs | i32x4_neg | i32x4_all_true
  | i32x4_bitmask | i32x4_extend_low_i16x8_s | i32x4_extend_high_i16x8_s
  | i32x4_extend_low_i16x8_u | i32x4_extend_high_i16x8_u | i32x4_shl | i32x4_shr_s
  | i32x4_shr_u | i32x4_add | i32x4_sub | i32x4_mul | i32x4_min_s | i32x4_min_u
  | i32x4_max_s | i32x4_max_u | i32x4_dot_i16x8_s | i32x4_extmul_low_i16x8_s
  | i32x4_extmul_high_i16x8_s | i32x4_extmul_low_i16x8_u | i32x4_extmul_high_i16x8_u
  | i64x2_abs | i64x2_neg | i64x2_all_true | i64x2_bitmask | i64x2_extend_low_i32x4_s
  | i64x2_extend_high_i32x4_s | i64x2_extend_low_i32x4_u | i64x2_extend_high_i32x4_u
  | i64x2_shl | i64x2_shr_s | i64x2_shr_u | i64x2_add | i64x2_sub | i64x2_mul
  | i64x2_extmul_low_i32x4_s | i64x2_extmul_high_i32x4_s | i64x2_extmul_low_i32x4_u
  | i64x2_extmul_high_i32x4_u | f32x4_ceil | f32x4_floor | f32x4_trunc
  | f32x4_nearest | f32x4_abs | f32x4_neg | f32x4_sqrt | f32x4_add | f32x4_sub
  | f32x4_mul | f32x4_div | f32x4_min | f32x4_max | f32x4_pmin | f32x4_pmax
  | f64x2_ceil | f64x2_floor | f64x2_trunc | f64x2_nearest | f64x2_abs | f64x2_neg
  | f64x2_sqrt | f64x2_add | f64x2_sub | f64x2_mul | f64x2_div | f64x2_min
  | f64x2_max | f64x2_pmin | f64x2_pmax | i32x4_trunc_sat_f32x4_s
  | i32x4_trunc_sat_f32x4_u | f32x4_convert_i32x4_s | f32x4_convert_i32x4_u
  | i32x4_trunc_sat_f64x2_s_zero | i32x4_trunc_sat_f64x2_u_zero
  | f64x2_convert_low_i32x4_s | f64x2_convert_low_i32x4_u | f32x4_demote_f64x2_zero
  | f64x2_promote_low_f32x4.

Definition vec_numeric_op_code (o : vec_numeric_op) : Z :=
  match o with
  | i8x16_swizzle => 14 | i8x16_splat => 15 | i16x8_splat => 16 | i32x4_splat => 17
  | i64x2_splat => 18 | f32x4_splat => 19 | f64x2_splat => 20 | i8x16_eq => 35
  | i8x16_ne => 36 | i8x16_lt_s => 37 | i8x16_lt_u => 38 | i8x16_gt_s => 39
  | i8x16_gt_u => 40 | i8x16_le_s => 41 | i8x16_le_u => 42 | i8x16_ge_s => 43
  | i8x16_ge_u => 44 | i16x8_eq => 45 | i16x8_ne => 46 | i16x8_lt_s => 47
  | i16x8_lt_u => 48 | i16x8_gt_s => 49 | i16x8_gt_u => 50 | i16x8_le_s => 51
  | i16x8_le_u => 52 | i16x8_ge_s => 53 | i16x8_ge_u => 54 | i32x4_eq => 55
  | i32x4_ne => 56 | i32x4_lt_s => 57 | i32x4_lt_u => 58 | i32x4_gt_s => 59
  | i32x4_gt_u => 60 | i32x4_le_s => 61 | i32x4_le_u => 62 | i32x4_ge_s => 63
  | i32x4_ge_u => 64 | i64x2_eq => 214 | i64x2_ne => 215 | i64x2_lt_s => 216
  | i64x2_gt_s => 217 | i64x2_le_s => 218 | i64x2_ge_s => 219 | f32x4_eq => 65
  | f32x4_ne => 66 | f32x4_lt => 67 | f32x4_gt => 68 | f32x4_le => 69
  | f32x4_ge => 70 | f64x2_eq => 71 | f64x2_ne => 72 | f64x2_lt => 73
  | f64x2_gt => 74 | f64x2_le => 75 | f64x2_ge => 76 | v128_not => 77
  | v128_and => 78 | v128_andnot => 79 | v128_or => 80 | v128_xor => 81
  | v128_bitselect => 82 | v128_any_true => 83 | i8x16_abs => 96 | i8x16_neg => 97
  | i8x16_popcnt => 98 | i8x16_all_true => 99 | i8x16_bitmask => 100
  | i8x16_narrow_i16x8_s => 101 | i8x16_narrow_i16x8_u => 102 | i8x16_shl => 107
  | i8x16_shr_s => 108 | i8x16_shr_u => 109 | i8x16_add => 110
  | i8x16_add_sat_s => 111 | i8x16_add_sat_u => 112 | i8x16_sub => 113
  | i8x16_sub_sat_s => 114 | i8x16_sub_sat_u => 115 | i8x16_min_s => 118
  | i8x16_min_u => 119 | i8x16_max_s => 120 | i8x16_max_u => 121
  | i8x16_avgr_u => 123 | i16x8_extadd_pairwise_i8x16_s => 124
  | i16x8_extadd_pairwise_i8x16_u => 125 | i16x8_abs => 128 | i16x8_neg => 129
  | i16x8_q15mulr_sat_s => 130 | i16x8_all_true => 131 | i16x8_bitmask => 132
  | i16x8_narrow_i32x4_s => 133 | i16x8_narrow_i32x4_u => 134
  | i16x8_extend_low_i8x16_s => 135 | i16x8_extend_high_i8x16_s => 136
  | i16x8_extend_low_i8x16_u => 137 | i16x8_extend_high_i8x16_u => 138
  | i16x8_shl => 139 | i16x8_shr_s => 140 | i16x8_shr_u => 141 | i16x8_add => 142
  | i16x8_add_sat_s => 143 | i16x8_add_sat_u => 144 | i16x8_sub => 145
  | i16x8_sub_sat_s => 146 | i16x8_sub_sat_u => 147 | i16x8_mul => 149
  | i16x8_min_s => 150 | i16x8_min_u => 151 | i16x8_max_s => 152 | i16x8_max_u => 153
  | i16x8_avgr_u => 155 | i16x8_extmul_low_i8x16_s => 156
  | i16x8_extmul_high_i8x16_s => 157 | i16x8_extmul_low_i8x16_u => 158
  | i16x8_extmul_high_i8x16_u => 159 | i32x4_extadd_pairwise_i16x8_s => 126
  | i32x4_extadd_pairwise_i16x8_u => 127 | i32x4_abs => 160 | i32x4_neg => 161
  | i32x4_all_true => 163 | i32x4_bitmask => 164 | i32x4_extend_low_i16x8_s => 167
  | i32x4_extend_high_i16x8_s => 168 | i32x4_extend_low_i16x8_u => 169
  | i32x4_extend_high_i16x8_u => 170 | i32x4_shl => 171 | i32x4_shr_s => 172
  | i32x4_shr_u => 173 | i32x4_add => 174 | i32x4_sub => 177 | i32x4_mul => 181
  | i32x4_min_s => 182 | i32x4_min_u => 183 | i32x4_max_s => 184 | i32x4_max_u => 185
  | i32x4_dot_i16x8_s => 186 | i32x4_extmul_low_i16x8_s => 188
  | i32x4_extmul_high_i16x8_s => 189 | i32x4_extmul_low_i16x8_u => 190
  | i32x4_extmul_high_i16x8_u => 191 | i64x2_abs => 192 | i64x2_neg => 193
  | i64x2_all_true => 195 | i64x2_bitmask => 196 | i64x2_extend_low_i32x4_s => 199
  | i64x2_extend_high_i32x4_s => 200 | i64x2_extend_low_i32x4_u => 201
  | i64x2_extend_high_i32x4_u => 202 | i64x2_shl => 203 | i64x2_shr_s => 204
  | i64x2_shr_u => 205 | i64x2_add => 206 | i64x2_sub => 209 | i64x2_mul => 213
  | i64x2_extmul_low_i32x4_s => 220 | i64x2_extmul_high_i32x4_s => 221
  | i64x2_extmul_low_i32x4_u => 222 | i64x2_extmul_high_i32x4_u => 223
  | f32x4_ceil => 103 | f32x4_floor => 104 | f32x4_trunc => 105
  | f32x4_nearest => 106 | f32x4_abs => 224 | f32x4_neg => 225 | f32x4_sqrt => 227
  | f32x4_add => 228 | f32x4_sub => 229 | f32x4_mul => 230 | f32x4_div => 231
  | f32x4_min => 232 | f32x4_max => 233 | f32x4_pmin => 234 | f32x4_pmax => 235
  | f64x2_ceil => 116 | f64x2_floor => 117 | f64x2_trunc => 122
  | f64x2_nearest => 148 | f64x2_abs => 236 | f64x2_neg => 237 | f64x2_sqrt => 239
  | f64x2_add => 240 | f64x2_sub => 241 | f64x2_mul => 242 | f64x2_div => 243
  | f64x2_min => 244 | f64x2_max => 245 | f64x2_pmin => 246 | f64x2_pmax => 247
  | i32x4_trunc_sat_f32x4_s => 248 | i32x4_trunc_sat_f32x4_u => 249
  | f32x4_convert_i32x4_s => 250 | f32x4_convert_i32x4_u => 251
  | i32x4_trunc_sat_f64x2_s_zero => 252 | i32x4_trunc_sat_f64x2_u_zero => 253
  | f64x2_convert_low_i32x4_s => 254 | f64x2_convert_low_i32x4_u => 255
  | f32x4_demote_f64x2_zero => 94 | f64x2_promote_low_f32x4 => 95
  end.

Definition vec_numeric_op_all : list vec_numeric_op :=
  [i8x16_swizzle; i8x16_splat; i16x8_splat; i32x4_splat; i64x2_splat; f32x4_splat;
   f64x2_splat; i8x16_eq; i8x16_ne; i8x16_lt_s; i8x16_lt_u; i8x16_gt_s; i8x16_gt_u;
   i8x16_le_s; i8x16_le_u; i8x16_ge_s; i8x16_ge_u; i16x8_eq; i16x8_ne; i16x8_lt_s;
   i16x8_lt_u; i16x8_gt_s; i16x8_gt_u; i16x8_le_s; i16x8_le_u; i16x8_ge_s;
   i16x8_ge_u; i32x4_eq; i32x4_ne; i32x4_lt_s; i32x4_lt_u; i32x4_gt_s; i32x4_gt_u;
   i32x4_le_s; i32x4_le_u; i32x4_ge_s; i32x4_ge_u; i64x2_eq; i64x2_ne; i64x2_lt_s;
   i64x2_gt_s; i64x2_le_s; i64x2_ge_s; f32x4_eq; f32x4_ne; f32x4_lt; f32x4_gt;
   f32x4_le; f32x4_ge; f64x2_eq; f64x2_ne; f64x2_lt; f64x2_gt; f64x2_le; f64x2_ge;
   v128_not; v128_and; v128_andnot; v128_or; v128_xor; v128_bitselect; v128_any_true;
   i8x16_abs; i8x16_neg; i8x16_popcnt; i8x16_all_true; i8x16_bitmask;
   i8x16_narrow_i16x8_s; i8x16_narrow_i16x8_u; i8x16_shl; i8x16_shr_s; i8x16_shr_u;
   i8x16_add; i8x16_add_sat_s; i8x16_add_sat_u; i8x16_sub; i8x16_sub_sat_s;
   i8x16_sub_sat_u; i8x16_min_s; i8x16_min_u; i8x16_max_s; i8x16_max_u; i8x16_avgr_u;
   i16x8_extadd_pairwise_i8x16_s; i16x8_extadd_pairwise_i8x16_u; i16x8_abs;
   i16x8_neg; i16x8_q15mulr_sat_s; i16x8_all_true; i16x8_bitmask;
   i16x8_narrow_i32x4_s; i16x8_narrow_i32x4_u; i16x8_extend_low_i8x16_s;
   i16x8_extend_high_i8x16_s; i16x8_extend_low_i8x16_u; i16x8_extend_high_i8x16_u;
   i16x8_shl; i16x8_shr_s; i16x8_shr_u; i16x8_add; i16x8_add_sat_s; i16x8_add_sat_u;
   i16x8_sub; i16x8_sub_sat_s; i16x8_sub_sat_u; i16x8_mul; i16x8_min_s; i16x8_min_u;
   i16x8_max_s; i16x8_max_u; i16x8_avgr_u; i16x8_extmul_low_i8x16_s;
   i16x8_extmul_high_i8x16_s; i16x8_extmul_low_i8x16_u; i16x8_extmul_high_i8x16_u;
   i32x4_extadd_pairwise_i16x8_s; i32x4_extadd_pairwise_i16x8_u; i32x4_abs;
   i32x4_neg; i32x4_all_true; i32x4_bitmask; i32x4_extend_low_i16x8_s;
   i32x4_extend_high_i16x8_s; i32x4_extend_low_i16x8_u; i32x4_extend_high_i16x8_u;
   i32x4_shl; i32x4_shr_s; i32x4_shr_u; i32x4_add; i32x4_sub; i32x4_mul; i32x4_min_s;
   i32x4_min_u; i32x4_max_s; i32x4_max_u; i32x4_dot_i16x8_s;
   i32x4_extmul_low_i16x8_s; i32x4_extmul_high_i16x8_s; i32x4_extmul_low_i16x8_u;
   i32x4_extmul_high_i16x8_u; i64x2_abs; i64x2_neg; i64x2_all_true; i64x2_bitmask;
   i64x2_extend_low_i32x4_s; i64x2_extend_high_i32x4_s; i64x2_extend_low_i32x4_u;
   i64x2_extend_high_i32x4_u; i64x2_shl; i64x2_shr_s; i64x2_shr_u; i64x2_add;
   i64x2_sub; i64x2_mul; i64x2_extmul_low_i32x4_s; i64x2_extmul_high_i32x4_s;
   i64x2_extmul_low_i32x4_u; i64x2_extmul_high_i32x4_u; f32x4_ceil; f32x4_floor;
   f32x4_trunc; f32x4_nearest; f32x4_abs; f32x4_neg; f32x4_sqrt; f32x4_add;
   f32x4_sub; f32x4_mul; f32x4_div; f32x4_min; f32x4_max; f32x4_pmin; f32x4_pmax;
   f64x2_ceil; f64x2_floor; f64x2_trunc; f64x2_nearest; f64x2_abs; f64x2_neg;
   f64x2_sqrt; f64x2_add; f64x2_sub; f64x2_mul; f64x2_div; f64x2_min; f64x2_max;
   f64x2_pmin; f64x2_pmax; i32x4_trunc_sat_f32x4_s; i32x4_trunc_sat_f32x4_u;
   f32x4_convert_i32x4_s; f32x4_convert_i32x4_u; i32x4_trunc_sat_f64x2_s_zero;
   i32x4_trunc_sat_f64x2_u_zero; f64x2_convert_low_i32x4_s;
   f64x2_convert_low_i32x4_u; f32x4_demote_f64x2_zero; f64x2_promote_low_f32x4].

(** ** Payloads (the [EOS_VM_CREATE_*_TYPES] macros) *)

(** [EOS_VM_CREATE_CONTROL_FLOW_TYPES] *)
Record control_flow_imm : Type := ControlFlowImm {
  cf_data : Z; cf_pc : Z; cf_stacksz : Z; cf_index : Z; cf_op_index : Z
}.

(** [X_t(uint32_t data)]: the other members keep their initialisers. *)
Definition control_flow_data (data : Z) : control_flow_imm := ControlFlowImm data 0 0 0 0.

(** [br_table_t::elem_t] *)
Record elem_t : Type := Elem { elem_pc : Z; elem_stack_pop : Z }.

(** v128.hpp *)
Record v128_t : Type := V128 { low : Z; high : Z }.

(** [using opcode = variant<...>]: a constructor per payload struct.  The
    entries of a [br_table] are those that the source writes into the bitcode
    slots after the instruction, which a [br_table_data] slot then skips. *)
Inductive opcode : Type :=
  | CONTROL_FLOW (o : control_flow_op) (imm : control_flow_imm)
  | BR_TABLE (size : Z) (table : list elem_t)
  | RETURN (imm : control_flow_imm)
  | CALL (o : call_op) (index : Z)
  | CALL_IMM (o : call_imm_op) (index locals return_type : Z)
  | PARAMETRIC (o : parametric_op)
  | VARIABLE_ACCESS (o : variable_access_op) (index : Z)
  | MEMORY (o : memory_op) (flags_align offset : Z)
  | I32_CONST (ui : Z)
  | I64_CONST (ui : Z)
  | F32_CONST (ui : Z)
  | F64_CONST (ui : Z)
  | COMPARISON (o : comparison_op)
  | NUMERIC (o : numeric_op)
  | CONVERSION (o : conversion_op)
  | EXIT (pc : Z)
  | EMPTY (o : empty_op)
  | DATA (o : data_op) (index : Z)
  | EXT (o : ext_op)
  | VEC_MEMORY (o : vec_memory_op) (flags_align offset : Z)
  | VEC_LANE_MEMORY (o : vec_lane_memory_op) (flags_align offset laneidx : Z)
  | V128_CONST (data : v128_t)
  | VEC_SHUFFLE (lanes : list Z)
  | VEC_LANE (o : vec_lane_op) (laneidx : Z)
  | VEC_NUMERIC (o : vec_numeric_op)
  | ERROR.

(** The static members [opcode_prefix] (where there is one) and [opcode]. *)
Definition opcode_number (o : opcode) : option Z * Z :=
  match o with
  | CONTROL_FLOW o _ => (None, control_flow_op_code o)
  | BR_TABLE _ _ => (None, 0x0E)
  | RETURN _ => (None, 0x0F)
  | CALL o _ => (None, call_op_code o)
  | CALL_IMM o _ _ _ => (None, call_imm_op_code o)
  | PARAMETRIC o => (None, parametric_op_code o)
  | VARIABLE_ACCESS o _ => (None, variable_access_op_code o)
  | MEMORY o _ _ => (None, memory_op_code o)
  | I32_CONST _ => (None, 0x41)
  | I64_CONST _ => (None, 0x42)
  | F32_CONST _ => (None, 0x43)
  | F64_CONST _ => (None, 0x44)
  | COMPARISON o => (None, comparison_op_code o)
  | NUMERIC o => (None, numeric_op_code o)
  | CONVERSION o => (None, conversion_op_code o)
  | EXIT _ => (None, 0xE0)
  | EMPTY o => (None, empty_op_code o)
  | DATA o _ => (Some 0xFC, data_op_code o)
  | EXT o => (Some 0xFC, ext_op_code o)
  | VEC_MEMORY o _ _ => (Some 0xFD, vec_memory_op_code o)
  | VEC_LANE_MEMORY o _ _ _ => (Some 0xFD, vec_lane_memory_op_code o)
  | V128_CONST _ => (Some 0xFD, 12)
  | VEC_SHUFFLE _ => (Some 0xFD, 13)
  | VEC_LANE o _ => (Some 0xFD, vec_lane_op_code o)
  | VEC_NUMERIC o => (Some 0xFD, vec_numeric_op_code o)
  | ERROR => (None, 0xFF)
  end.

(** The numbers of the three enums [opcodes], [ext_opcodes] and [vec_opcodes],
    in the order of their macros. *)
Definition opcodes : list Z :=
  (control_flow_op_code <$> control_flow_op_all) ++ [0x0E; 0x0F] ++
  (call_op_code <$> call_op_all) ++ (call_imm_op_code <$> call_imm_op_all) ++
  (parametric_op_code <$> parametric_op_all) ++
  (variable_access_op_code <$> variable_access_op_all) ++
  (memory_op_code <$> memory_op_all) ++ [0x41; 0x42; 0x43; 0x44] ++
  (comparison_op_code <$> comparison_op_all) ++ (numeric_op_code <$> numeric_op_all) ++
  (conversion_op_code <$> conversion_op_all) ++ [0xE0] ++
  (ref_op_code <$> ref_op_all) ++ (extended_op_code <$> extended_op_all) ++
  (empty_op_code <$> empty_op_all) ++ [0xFF].

Definition ext_opcodes : list Z :=
  (data_op_code <$> data_op_all) ++ (ext_op_code <$> ext_op_all).

Definition vec_opcodes : list Z :=
  (vec_memory_op_code <$> vec_memory_op_all) ++
  (vec_lane_memory_op_code <$> vec_lane_memory_op_all) ++ [12; 13] ++
  (vec_lane_op_code <$> vec_lane_op_all) ++ (vec_numeric_op_code <$> vec_numeric_op_all).

(** Reading a number back: the instruction of a family with that number. *)
Definition find_op {A} (code : A -> Z) (all : list A) (c : Z) : option A :=
  List.find (fun o => code o =? c) all.

(** ** Lemmas *)
(** The numbers of a list lie in a set of integers that is listed without gaps. *)
Lemma codes_complete (l : list Z) (n : nat) :
  forallb (fun i => bool_decide (Z.of_nat i ∈ l)) (seq 0 n) = true ->
  forall c, 0 <= c < Z.of_nat n -> c ∈ l.
Proof.
  intros H c Hc. rewrite forallb_forall in H. rewrite <- (Z2Nat.id c) by lia.
  eapply bool_decide_eq_true_1, H, in_seq. lia.
Qed.

(** The instruction encoding is unambiguous: the one-byte opcode numbers
    name every byte from 0 to 255 exactly once, the numbers behind the prefixes
    0xFC and 0xFD are distinct bytes, and looking the number of an instruction
    up gives the instruction back. *)
Theorem opcode_numbers_unique :
  (NoDup opcodes /\ forall b, b ∈ opcodes <-> 0 <= b < 256) /\
  NoDup ext_opcodes /\ (forall b, b ∈ ext_opcodes <-> 0 <= b < 15) /\
  NoDup vec_opcodes /\ Forall (fun b => 0 <= b < 256) vec_opcodes /\
  (forall o, find_op numeric_op_code numeric_op_all (numeric_op_code o) = Some o) /\
  (forall o, find_op memory_op_code memory_op_all (memory_op_code o) = Some o) /\
  (forall o, find_op vec_numeric_op_code vec_numeric_op_all (vec_numeric_op_code o) = Some o).
Proof.
  assert (Hr : forall (l : list Z) n, forallb (fun b => (0 <=? b) && (b <? n)) l = true ->
    Forall (fun b => 0 <= b < n) l).
  { intros l n H. apply Forall_forall. intros b Hb. rewrite forallb_forall in H.
    specialize (H b Hb). lia. }
  split; [split|]; [by_compute| |].
  - intros b. split; [|by apply (codes_complete opcodes 256)].
    pose proof (Hr opcodes 256 eq_refl) as H. rewrite Forall_forall in H.
    intros Hb. apply H. by apply list_elem_of_In.
  - split_and!.
    + by_compute.
    + intros b. split; [|by apply (codes_complete ext_opcodes 15)].
      pose proof (Hr ext_opcodes 15 eq_refl) as H. rewrite Forall_forall in H.
    intros Hb. apply H. by apply list_elem_of_In.
    + by_compute.
    + by apply Hr.
    + intros []; reflexivity.
    + intros []; reflexivity.
    + intros []; reflexivity.
Qed.
End Op.
