(* ===== verification/Types.v ===== *)
(** * Module data (types.hpp, stack_elem.hpp)

    The structs of a parsed module, the values of the operand stack, and the
    queries of [module] on itself.  The bitcode, which the source writes into
    the module's arena, is the list [bitcode]; an [opcode*] is an offset into it
    from [code[0].code]. *)
From S2P Require Import Prelude Allocator Opcodes.

(** [enum types] *)
Definition i32 : Z := 0x7f.
Definition i64 : Z := 0x7e.
Definition f32 : Z := 0x7d.
Definition f64 : Z := 0x7c.
Definition v128 : Z := 0x7b.
Definition anyfunc : Z := 0x70.
Definition funcref : Z := anyfunc.
Definition func : Z := 0x60.
Definition pseudo : Z := 0x40.
Definition ret_void : Z := 0x41.

(** ** Values of the operand stack (stack_elem.hpp)

    The bits of a value as an unsigned integer.  [get<T>()] of the variant does
    not check the alternative, so reading the wrong one is undefined. *)
Inductive operand_stack_elem : Type :=
  | i32_const_t (ui : Z)
  | i64_const_t (ui : Z)
  | f32_const_t (ui : Z)
  | f64_const_t (ui : Z)
  | v128_const_t (data : Op.v128_t).

Definition bad_variant : string := "read of an inactive variant alternative".

Definition to_ui32 (e : operand_stack_elem) : outcome Z :=
  match e with i32_const_t n => Ret n | _ => UB bad_variant end.
Definition to_i32 (e : operand_stack_elem) : outcome Z := n ← to_ui32 e; Ret (sext 32 n).
Definition to_ui64 (e : operand_stack_elem) : outcome Z :=
  match e with i64_const_t n => Ret n | _ => UB bad_variant end.
Definition to_i64 (e : operand_stack_elem) : outcome Z := n ← to_ui64 e; Ret (sext 64 n).
Definition to_fui32 (e : operand_stack_elem) : outcome Z :=
  match e with f32_const_t n => Ret n | _ => UB bad_variant end.
Definition to_fui64 (e : operand_stack_elem) : outcome Z :=
  match e with f64_const_t n => Ret n | _ => UB bad_variant end.
Definition to_v128 (e : operand_stack_elem) : outcome Op.v128_t :=
  match e with v128_const_t v => Ret v | _ => UB bad_variant end.

(** The type of a value, as the enum [types] names it. *)
Definition elem_type (e : operand_stack_elem) : Z :=
  match e with
  | i32_const_t _ => i32 | i64_const_t _ => i64 | f32_const_t _ => f32
  | f64_const_t _ => f64 | v128_const_t _ => v128
  end.

(** ** Structs *)
Inductive external_kind : Type := Function_ | Table | Memory | Global.
#[export] Instance external_kind_eq_dec : EqDecision external_kind.
Proof. solve_decision. Defined.

(** The program counter of the interpreter: an instruction of the bitcode, the
    context's own [_halt] instruction, or [nullptr]. *)
Inductive opcode_ptr : Type := Pc (off : Z) | PcHalt | PcNull.

Record activation_frame : Type := ActivationFrame { af_pc : opcode_ptr; af_last_op_index : Z }.

Record resizable_limits : Type := Limits { flags : bool; initial : Z; maximum : Z }.

Record func_type : Type := FuncType {
  form : Z; param_types : list Z; return_count : Z; return_type : Z
}.

(** [operator==(const func_type&, const func_type&)] *)
Definition func_type_eqb (lhs rhs : func_type) : bool :=
  (form lhs =? form rhs) &&
  (Z.of_nat (length (param_types lhs)) =? Z.of_nat (length (param_types rhs))) &&
  bool_decide (param_types lhs = param_types rhs) &&
  (return_count lhs =? return_count rhs) &&
  (negb (return_count lhs =? 0) || (return_type lhs =? return_type rhs)).

(** [union expr_value]: its 16 bytes as two 64-bit words; the members overlap at
    the low end. *)
Definition expr_value : Type := Op.v128_t.
Definition ev_i32 (v : expr_value) : Z := wrap 32 (Op.low v).
Definition ev_i64 (v : expr_value) : Z := Op.low v.
Definition ev_set_i32 (x : Z) (v : expr_value) : expr_value :=
  Op.V128 (Z.lor (Z.shiftl (Z.shiftr (Op.low v) 32) 32) (wrap 32 x)) (Op.high v).
Definition ev_set_i64 (x : Z) (v : expr_value) : expr_value := Op.V128 (wrap 64 x) (Op.high v).

Record init_expr : Type := InitExpr { ie_opcode : Z; ie_value : expr_value }.
Record global_type : Type := GlobalType { content_type : Z; mutability : bool }.
Record global_variable : Type := GlobalVariable { gl_type : global_type; gl_init : init_expr }.
Record table_type : Type := TableType { element_type : Z; table_limits : resizable_limits }.
Record table_entry : Type := TableEntry { te_type : Z; te_index : Z; te_code : opcode_ptr }.
Record memory_type : Type := MemoryType { memory_limits : resizable_limits }.

Inductive import_type : Type :=
  | ImportFunc (func_t : Z)
  | ImportTable (table_t : table_type)
  | ImportMem (mem_t : memory_type)
  | ImportGlobal (global_t : global_type).

Record import_entry : Type := ImportEntry {
  module_str : list Z; import_field_str : list Z;
  import_kind : external_kind; import_desc : import_type
}.

Record export_entry : Type := ExportEntry {
  field_str : list Z; export_kind : external_kind; export_index : Z
}.

Inductive elem_mode : Type := active | passive | declarative.

Record elem_segment : Type := ElemSegment {
  es_index : Z; es_offset : init_expr; es_mode : elem_mode; es_elems : list table_entry
}.

Record local_entry : Type := LocalEntry { local_count : Z; local_type : Z }.

Record function_body : Type := FunctionBody {
  fb_size : Z; fb_locals : list local_entry;
  fb_code : Z;             (* the offset of [code] from [code[0].code] *)
  fb_stack_size : Z
}.

Record data_segment : Type := DataSegment {
  ds_index : Z; ds_offset : init_expr; ds_passive : bool; ds_data : list Z
}.

Record name_assoc : Type := NameAssoc { na_idx : Z; na_name : list Z }.
Record indirect_name_assoc : Type := IndirectNameAssoc {
  ina_idx : Z; ina_namemap : list name_assoc
}.
Record name_section : Type := NameSection {
  module_name : option (list Z);
  function_names : option (list name_assoc);
  local_names : option (list indirect_name_assoc)
}.

Record module : Type := Module_ {
  bitcode : list Op.opcode;
  start : Z;
  types : list func_type;
  imports : list import_entry;
  functions : list Z;
  tables : list table_type;
  memories : list memory_type;
  globals : list global_variable;
  exports : list export_entry;
  elements : list elem_segment;
  code : list function_body;
  data_segments : list data_segment;
  names : option name_section;
  import_functions : list Z;
  maximum_stack : Z;
  stack_limit_is_bytes : bool;
  eosio_fp : bool;
  error : option string
}.

(** Assignments to the members of a [module]. *)
Definition with_bitcode x (m : module) : module :=
  Module_ x (start m) (types m) (imports m) (functions m) (tables m) (memories m) (globals m)
    (exports m) (elements m) (code m) (data_segments m) (names m) (import_functions m)
    (maximum_stack m) (stack_limit_is_bytes m) (eosio_fp m) (error m).
Definition with_start x (m : module) : module :=
  Module_ (bitcode m) x (types m) (imports m) (functions m) (tables m) (memories m) (globals m)
    (exports m) (elements m) (code m) (data_segments m) (names m) (import_functions m)
    (maximum_stack m) (stack_limit_is_bytes m) (eosio_fp m) (error m).
Definition with_types x (m : module) : module :=
  Module_ (bitcode m) (start m) x (imports m) (functions m) (tables m) (memories m) (globals m)
    (exports m) (elements m) (code m) (data_segments m) (names m) (import_functions m)
    (maximum_stack m) (stack_limit_is_bytes m) (eosio_fp m) (error m).
Definition with_imports x (m : module) : module :=
  Module_ (bitcode m) (start m) (types m) x (functions m) (tables m) (memories m) (globals m)
    (exports m) (elements m) (code m) (data_segments m) (names m) (import_functions m)
    (maximum_stack m) (stack_limit_is_bytes m) (eosio_fp m) (error m).
Definition with_functions x (m : module) : module :=
  Module_ (bitcode m) (start m) (types m) (imports m) x (tables m) (memories m) (globals m)
    (exports m) (elements m) (code m) (data_segments m) (names m) (import_functions m)
    (maximum_stack m) (stack_limit_is_bytes m) (eosio_fp m) (error m).
Definition with_tables x (m : module) : module :=
  Module_ (bitcode m) (start m) (types m) (imports m) (functions m) x (memories m) (globals m)
    (exports m) (elements m) (code m) (data_segments m) (names m) (import_functions m)
    (maximum_stack m) (stack_limit_is_bytes m) (eosio_fp m) (error m).
Definition with_memories x (m : module) : module :=
  Module_ (bitcode m) (start m) (types m) (imports m) (functions m) (tables m) x (globals m)
    (exports m) (elements m) (code m) (data_segments m) (names m) (import_functions m)
    (maximum_stack m) (stack_limit_is_bytes m) (eosio_fp m) (error m).
Definition with_globals x (m : module) : module :=
  Module_ (bitcode m) (start m) (types m) (imports m) (functions m) (tables m) (memories m) x
    (exports m) (elements m) (code m) (data_segments m) (names m) (import_functions m)
    (maximum_stack m) (stack_limit_is_bytes m) (eosio_fp m) (error m).
Definition with_exports x (m : module) : module :=
  Module_ (bitcode m) (start m) (types m) (imports m) (functions m) (tables m) (memories m)
    (globals m) x (elements m) (code m) (data_segments m) (names m) (import_functions m)
    (maximum_stack m) (stack_limit_is_bytes m) (eosio_fp m) (error m).
Definition with_elements x (m : module) : module :=
  Module_ (bitcode m) (start m) (types m) (imports m) (functions m) (tables m) (memories m)
    (globals m) (exports m) x (code m) (data_segments m) (names m) (import_functions m)
    (maximum_stack m) (stack_limit_is_bytes m) (eosio_fp m) (error m).
Definition with_code x (m : module) : module :=
  Module_ (bitcode m) (start m) (types m) (imports m) (functions m) (tables m) (memories m)
    (globals m) (exports m) (elements m) x (data_segments m) (names m) (import_functions m)
    (maximum_stack m) (stack_limit_is_bytes m) (eosio_fp m) (error m).
Definition with_data_segments x (m : module) : module :=
  Module_ (bitcode m) (start m) (types m) (imports m) (functions m) (tables m) (memories m)
    (globals m) (exports m) (elements m) (code m) x (names m) (import_functions m)
    (maximum_stack m) (stack_limit_is_bytes m) (eosio_fp m) (error m).
Definition with_names x (m : module) : module :=
  Module_ (bitcode m) (start m) (types m) (imports m) (functions m) (tables m) (memories m)
    (globals m) (exports m) (elements m) (code m) (data_segments m) x (import_functions m)
    (maximum_stack m) (stack_limit_is_bytes m) (eosio_fp m) (error m).
Definition with_import_functions x (m : module) : module :=
  Module_ (bitcode m) (start m) (types m) (imports m) (functions m) (tables m) (memories m)
    (globals m) (exports m) (elements m) (code m) (data_segments m) (names m) x
    (maximum_stack m) (stack_limit_is_bytes m) (eosio_fp m) (error m).
Definition with_maximum_stack x (m : module) : module :=
  Module_ (bitcode m) (start m) (types m) (imports m) (functions m) (tables m) (memories m)
    (globals m) (exports m) (elements m) (code m) (data_segments m) (names m)
    (import_functions m) x (stack_limit_is_bytes m) (eosio_fp m) (error m).
Definition with_stack_limit_is_bytes x (m : module) : module :=
  Module_ (bitcode m) (start m) (types m) (imports m) (functions m) (tables m) (memories m)
    (globals m) (exports m) (elements m) (code m) (data_segments m) (names m)
    (import_functions m) (maximum_stack m) x (eosio_fp m) (error m).
Definition with_eosio_fp x (m : module) : module :=
  Module_ (bitcode m) (start m) (types m) (imports m) (functions m) (tables m) (memories m)
    (globals m) (exports m) (elements m) (code m) (data_segments m) (names m)
    (import_functions m) (maximum_stack m) (stack_limit_is_bytes m) x (error m).

(** ** Queries of [module] *)
Module Mod.
Section Mod.
Context `{sys : Sys} (m : module).

Definition get_imported_functions_size : Z :=
  Z.of_nat (length (filter (fun i => import_kind i = Function_) (imports m))).

Definition get_functions_size : Z := Z.of_nat (length (functions m)).

(** [uint32_t] addition *)
Definition get_functions_total : Z := wrap 32 (get_imported_functions_size + get_functions_size).

Definition get_function_pc (fidx : Z) : outcome Z :=
  EOS_VM_ASSERT (get_imported_functions_size <=? fidx)
    (wasm_interpreter_exception "trying to get the PC of an imported function");;
  body ← vec_at (code m) (fidx - get_imported_functions_size);
  Ret (fb_code body).

Definition get_function_locals_size (index : Z) : outcome Z :=
  EOS_VM_ASSERT (get_imported_functions_size <=? index)
    (wasm_interpreter_exception "imported functions do not have locals");;
  body ← vec_at (code m) (index - get_imported_functions_size);
  Ret (Z.of_nat (length (fb_locals body))).

(** [imports[index].type.func_t] *)
Definition import_func_t (index : Z) : outcome Z :=
  i ← or_UB "imports[index] out of range" (nthZ (imports m) index);
  match import_desc i with ImportFunc t => Ret t | _ => UB "func_t of another import" end.

Definition get_function_type (index : Z) : outcome func_type :=
  if index <? get_imported_functions_size then
    t ← import_func_t index;
    or_UB "types[i] out of range" (nthZ (types m) t)
  else
    t ← vec_at (functions m) (index - get_imported_functions_size);
    vec_at (types m) t.

Definition get_function_stack_size (index : Z) : outcome Z :=
  if negb (stack_limit_is_bytes m) then Ret 1
  else if index <? get_imported_functions_size then Ret 0
  else body ← vec_at (code m) (index - get_imported_functions_size); Ret (fb_stack_size body).

Definition uint32_max : Z := 2 ^ 32 - 1.

(** The index of the first function export of that name, else [uint32_max]. *)
Definition get_exported_function (str : list Z) : Z :=
  match List.find (fun e => bool_decide (export_kind e = Function_) &&
                            bool_decide (field_str e = str)) (exports m) with
  | Some e => export_index e
  | None => uint32_max
  end.

(** A [table_entry] has 16 bytes, a pointer 8. *)
Definition indirect_table (i : Z) : bool :=
  match nthZ (tables m) i with
  | Some t => wrap 64 (WasmAlloc.table_size - 8) <? initial (table_limits t) * 16
  | None => false
  end.
End Mod.
End Mod.
