(* ===== verification/OpSigs.v ===== *)
(** * Instruction signatures (the macro tables of parser.hpp)

    The macro tables of [parse_function_body_code] give every instruction that is
    not control flow the operands it pops and pushes and, for a memory access, its
    largest alignment exponent.  A signature lists both with the top of the stack
    first: the parser pops the arguments in the order they are listed. *)
From S2P Require Import Prelude Opcodes Types.

Definition sig : Type := list Z * list Z.
Definition unary (t r : Z) : sig := ([t], [r]).
Definition binary (t r : Z) : sig := ([t; t], [r]).

Definition memory_type_of (o : Op.memory_op) : sig :=
  match o with
  | Op.i32_load | Op.i32_load8_s | Op.i32_load8_u | Op.i32_load16_s | Op.i32_load16_u => unary i32 i32
  | Op.i64_load | Op.i64_load8_s | Op.i64_load8_u | Op.i64_load16_s | Op.i64_load16_u
  | Op.i64_load32_s | Op.i64_load32_u => unary i32 i64
  | Op.f32_load => unary i32 f32
  | Op.f64_load => unary i32 f64
  | Op.i32_store | Op.i32_store8 | Op.i32_store16 => ([i32; i32], [])
  | Op.i64_store | Op.i64_store8 | Op.i64_store16 | Op.i64_store32 => ([i64; i32], [])
  | Op.f32_store => ([f32; i32], [])
  | Op.f64_store => ([f64; i32], [])
  | Op.current_memory => ([], [i32])
  | Op.grow_memory => unary i32 i32
  end.

(** The second argument of [LOAD_OP] and [STORE_OP] *)
Definition memory_align (o : Op.memory_op) : Z :=
  match o with
  | Op.i64_load | Op.f64_load | Op.i64_store | Op.f64_store => 3
  | Op.i32_load | Op.f32_load | Op.i64_load32_s | Op.i64_load32_u | Op.i32_store | Op.f32_store
  | Op.i64_store32 => 2
  | Op.i32_load16_s | Op.i32_load16_u | Op.i64_load16_s | Op.i64_load16_u | Op.i32_store16
  | Op.i64_store16 => 1
  | _ => 0
  end.

Definition comparison_type (o : Op.comparison_op) : sig :=
  match o with
  | Op.i32_eqz => unary i32 i32
  | Op.i64_eqz => unary i64 i32
  | Op.i32_eq | Op.i32_ne | Op.i32_lt_s | Op.i32_lt_u | Op.i32_gt_s | Op.i32_gt_u
  | Op.i32_le_s | Op.i32_le_u | Op.i32_ge_s | Op.i32_ge_u => binary i32 i32
  | Op.i64_eq | Op.i64_ne | Op.i64_lt_s | Op.i64_lt_u | Op.i64_gt_s | Op.i64_gt_u
  | Op.i64_le_s | Op.i64_le_u | Op.i64_ge_s | Op.i64_ge_u => binary i64 i32
  | Op.f32_eq | Op.f32_ne | Op.f32_lt | Op.f32_gt | Op.f32_le | Op.f32_ge => binary f32 i32
  | Op.f64_eq | Op.f64_ne | Op.f64_lt | Op.f64_gt | Op.f64_le | Op.f64_ge => binary f64 i32
  end.

Definition numeric_type (o : Op.numeric_op) : sig :=
  match o with
  | Op.i32_clz | Op.i32_ctz | Op.i32_popcnt | Op.i32_extend8_s | Op.i32_extend16_s => unary i32 i32
  | Op.i64_clz | Op.i64_ctz | Op.i64_popcnt | Op.i64_extend8_s | Op.i64_extend16_s
  | Op.i64_extend32_s => unary i64 i64
  | Op.i32_add | Op.i32_sub | Op.i32_mul | Op.i32_div_s | Op.i32_div_u | Op.i32_rem_s | Op.i32_rem_u
  | Op.i32_and | Op.i32_or | Op.i32_xor | Op.i32_shl | Op.i32_shr_s | Op.i32_shr_u | Op.i32_rotl
  | Op.i32_rotr => binary i32 i32
  | Op.i64_add | Op.i64_sub | Op.i64_mul | Op.i64_div_s | Op.i64_div_u | Op.i64_rem_s | Op.i64_rem_u
  | Op.i64_and | Op.i64_or | Op.i64_xor | Op.i64_shl | Op.i64_shr_s | Op.i64_shr_u | Op.i64_rotl
  | Op.i64_rotr => binary i64 i64
  | Op.f32_abs | Op.f32_neg | Op.f32_ceil | Op.f32_floor | Op.f32_trunc | Op.f32_nearest
  | Op.f32_sqrt => unary f32 f32
  | Op.f64_abs | Op.f64_neg | Op.f64_ceil | Op.f64_floor | Op.f64_trunc | Op.f64_nearest
  | Op.f64_sqrt => unary f64 f64
  | Op.f32_add | Op.f32_sub | Op.f32_mul | Op.f32_div | Op.f32_min | Op.f32_max
  | Op.f32_copysign => binary f32 f32
  | Op.f64_add | Op.f64_sub | Op.f64_mul | Op.f64_div | Op.f64_min | Op.f64_max
  | Op.f64_copysign => binary f64 f64
  end.

Definition conversion_type (o : Op.conversion_op) : sig :=
  match o with
  | Op.i32_wrap_i64 => unary i64 i32
  | Op.i32_trunc_s_f32 | Op.i32_trunc_u_f32 | Op.i32_reinterpret_f32 => unary f32 i32
  | Op.i32_trunc_s_f64 | Op.i32_trunc_u_f64 => unary f64 i32
  | Op.i64_extend_s_i32 | Op.i64_extend_u_i32 => unary i32 i64
  | Op.i64_trunc_s_f32 | Op.i64_trunc_u_f32 => unary f32 i64
  | Op.i64_trunc_s_f64 | Op.i64_trunc_u_f64 | Op.i64_reinterpret_f64 => unary f64 i64
  | Op.f32_convert_s_i32 | Op.f32_convert_u_i32 | Op.f32_reinterpret_i32 => unary i32 f32
  | Op.f32_convert_s_i64 | Op.f32_convert_u_i64 => unary i64 f32
  | Op.f32_demote_f64 => unary f64 f32
  | Op.f64_convert_s_i32 | Op.f64_convert_u_i32 => unary i32 f64
  | Op.f64_convert_s_i64 | Op.f64_convert_u_i64 | Op.f64_reinterpret_i64 => unary i64 f64
  | Op.f64_promote_f32 => unary f32 f64
  end.

(** [TRUNC_SAT_OP] and the bulk instructions: destination, source and count *)
Definition ext_sig (o : Op.ext_op) : sig :=
  match o with
  | Op.i32_trunc_sat_f32_s | Op.i32_trunc_sat_f32_u => unary f32 i32
  | Op.i32_trunc_sat_f64_s | Op.i32_trunc_sat_f64_u => unary f64 i32
  | Op.i64_trunc_sat_f32_s | Op.i64_trunc_sat_f32_u => unary f32 i64
  | Op.i64_trunc_sat_f64_s | Op.i64_trunc_sat_f64_u => unary f64 i64
  | Op.memory_copy | Op.memory_fill | Op.table_copy => ([i32; i32; i32], [])
  end.

Definition vec_lane_type (o : Op.vec_lane_op) : sig :=
  match o with
  | Op.i8x16_extract_lane_s | Op.i8x16_extract_lane_u | Op.i16x8_extract_lane_s
  | Op.i16x8_extract_lane_u | Op.i32x4_extract_lane => unary v128 i32
  | Op.i64x2_extract_lane => unary v128 i64
  | Op.f32x4_extract_lane => unary v128 f32
  | Op.f64x2_extract_lane => unary v128 f64
  | Op.i8x16_replace_lane | Op.i16x8_replace_lane | Op.i32x4_replace_lane => ([i32; v128], [v128])
  | Op.i64x2_replace_lane => ([i64; v128], [v128])
  | Op.f32x4_replace_lane => ([f32; v128], [v128])
  | Op.f64x2_replace_lane => ([f64; v128], [v128])
  end.

(** Lanes of the shape an instruction addresses. *)
Definition vec_lane_count (o : Op.vec_lane_op) : Z :=
  match o with
  | Op.i8x16_extract_lane_s | Op.i8x16_extract_lane_u | Op.i8x16_replace_lane => 16
  | Op.i16x8_extract_lane_s | Op.i16x8_extract_lane_u | Op.i16x8_replace_lane => 8
  | Op.i32x4_extract_lane | Op.i32x4_replace_lane | Op.f32x4_extract_lane | Op.f32x4_replace_lane => 4
  | _ => 2
  end.

(** [LOADLANE_OP], [STORELANE_OP] *)
Definition vec_lane_memory_type (o : Op.vec_lane_memory_op) : sig :=
  ([v128; i32], match o with
    | Op.v128_load8_lane | Op.v128_load16_lane | Op.v128_load32_lane | Op.v128_load64_lane => [v128]
    | _ => [] end).
Definition vec_lane_memory_align (o : Op.vec_lane_memory_op) : Z :=
  match o with
  | Op.v128_load8_lane | Op.v128_store8_lane => 0
  | Op.v128_load16_lane | Op.v128_store16_lane => 1
  | Op.v128_load32_lane | Op.v128_store32_lane => 2
  | Op.v128_load64_lane | Op.v128_store64_lane => 3
  end.
(** [1 << (4-max_align)] *)
Definition vec_lane_memory_count (o : Op.vec_lane_memory_op) : Z :=
  Z.shiftl 1 (4 - vec_lane_memory_align o).

(** [LOAD_OP], [STORE_OP] behind the vector prefix *)
Definition vec_memory_type (o : Op.vec_memory_op) : sig :=
  match o with Op.v128_store => ([v128; i32], []) | _ => unary i32 v128 end.
Definition vec_memory_align (o : Op.vec_memory_op) : Z :=
  match o with
  | Op.v128_load | Op.v128_store => 4
  | Op.v128_load8x8_s | Op.v128_load8x8_u | Op.v128_load16x4_s | Op.v128_load16x4_u
  | Op.v128_load32x2_s | Op.v128_load32x2_u | Op.v128_load64_splat | Op.v128_load64_zero => 3
  | Op.v128_load32_splat | Op.v128_load32_zero => 2
  | Op.v128_load16_splat => 1
  | Op.v128_load8_splat => 0
  end.

(** [NUMERIC_OP] *)
Definition vec_numeric_sig (o : Op.vec_numeric_op) : sig :=
  match o with
  | Op.i8x16_splat | Op.i16x8_splat | Op.i32x4_splat => unary i32 v128
  | Op.i64x2_splat => unary i64 v128
  | Op.f32x4_splat => unary f32 v128
  | Op.f64x2_splat => unary f64 v128
  | Op.v128_bitselect => ([v128; v128; v128], [v128])
  | Op.v128_any_true | Op.i8x16_all_true | Op.i8x16_bitmask | Op.i16x8_all_true | Op.i16x8_bitmask
  | Op.i32x4_all_true | Op.i32x4_bitmask | Op.i64x2_all_true | Op.i64x2_bitmask => unary v128 i32
  | Op.i8x16_shl | Op.i8x16_shr_s | Op.i8x16_shr_u | Op.i16x8_shl | Op.i16x8_shr_s | Op.i16x8_shr_u
  | Op.i32x4_shl | Op.i32x4_shr_s | Op.i32x4_shr_u | Op.i64x2_shl | Op.i64x2_shr_s | Op.i64x2_shr_u =>
      ([i32; v128], [v128])
  | Op.v128_not | Op.i8x16_abs | Op.i8x16_neg | Op.i8x16_popcnt | Op.i16x8_abs | Op.i16x8_neg
  | Op.i32x4_abs | Op.i64x2_abs | Op.i32x4_neg | Op.i64x2_neg
  | Op.i16x8_extadd_pairwise_i8x16_s | Op.i16x8_extadd_pairwise_i8x16_u
  | Op.i32x4_extadd_pairwise_i16x8_s | Op.i32x4_extadd_pairwise_i16x8_u
  | Op.i16x8_extend_low_i8x16_s | Op.i16x8_extend_high_i8x16_s
  | Op.i16x8_extend_low_i8x16_u | Op.i16x8_extend_high_i8x16_u
  | Op.i32x4_extend_low_i16x8_s | Op.i32x4_extend_high_i16x8_s
  | Op.i32x4_extend_low_i16x8_u | Op.i32x4_extend_high_i16x8_u
  | Op.i64x2_extend_low_i32x4_s | Op.i64x2_extend_high_i32x4_s
  | Op.i64x2_extend_low_i32x4_u | Op.i64x2_extend_high_i32x4_u
  | Op.f32x4_ceil | Op.f32x4_floor | Op.f32x4_trunc | Op.f32x4_nearest | Op.f32x4_abs
  | Op.f32x4_neg | Op.f32x4_sqrt
  | Op.f64x2_ceil | Op.f64x2_floor | Op.f64x2_trunc | Op.f64x2_nearest | Op.f64x2_abs
  | Op.f64x2_neg | Op.f64x2_sqrt
  | Op.i32x4_trunc_sat_f32x4_s | Op.i32x4_trunc_sat_f32x4_u
  | Op.f32x4_convert_i32x4_s | Op.f32x4_convert_i32x4_u
  | Op.i32x4_trunc_sat_f64x2_s_zero | Op.i32x4_trunc_sat_f64x2_u_zero
  | Op.f64x2_convert_low_i32x4_s | Op.f64x2_convert_low_i32x4_u
  | Op.f32x4_demote_f64x2_zero | Op.f64x2_promote_low_f32x4 => unary v128 v128
  | _ => binary v128 v128
  end.
