(* ===== verification/Validation.v ===== *)
(** * Validation state of the parser (options.hpp, parser.hpp 24-230 and 755-880)

    The options of the parser, the resource checkers of [namespace detail], the
    operand type tracker and the table of local types.  [Options] is a template
    parameter of the source and a missing member means its default: here a record
    with a field per option, where an option whose absence switches a checker off
    is an [option].  The [assert]s of the tracker, which a release build drops, are
    not part of the model. *)
From S2P Require Import Prelude Opcodes Types.

(** ** Options *)

(** An unsigned option and the width of its type, which is also the type of the
    counter compared with it. *)
Record limit : Type := Limit { limit_max : Z; limit_bits : Z }.

Module Opt.
Record t : Type := Options {
  max_mutable_global_bytes : option limit;
  max_table_elements : Z;
  max_type_section_elements : Z;
  max_import_section_elements : Z;
  max_function_section_elements : Z;
  max_global_section_elements : Z;
  max_export_section_elements : Z;
  max_element_section_elements : Z;
  max_data_section_elements : Z;
  max_element_segment_elements : Z;
  max_data_segment_bytes : Z;
  max_linear_memory_init : Z;
  max_func_local_bytes : option limit;
  max_func_local_bytes_flags : Z;
  max_local_sets : Z;
  max_nested_structures : Z;
  eosio_max_nested_structures : option limit;
  max_br_table_elements : Z;
  max_symbol_bytes : Z;
  max_memory_offset : Z;
  max_code_bytes : Z;
  max_pages : Z;
  max_call_depth : Z;
  max_stack_bytes : option limit;
  forbid_export_mutable_globals : bool;
  allow_code_after_function_end : bool;
  allow_u32_limits_flags : bool;
  allow_invalid_empty_local_set : bool;
  allow_zero_blocktype : bool;
  eosio_fp : bool;
  parse_custom_section_name : bool;
  enable_simd : bool;
  enable_bulk_memory : bool;
  enable_sign_ext : bool;
  enable_nontrapping_fptoint : bool
}.
End Opt.

Definition uint32_max : Z := 2 ^ 32 - 1.

(** [enum class max_func_local_bytes_flags_t] *)
Definition flag_params : Z := 1.
Definition flag_locals : Z := 2.
Definition flag_stack : Z := 4.
Definition has_flag (flags flag : Z) : bool := negb (Z.land flags flag =? 0).

(** [struct default_options {}]: the defaults of the [PARSER_OPTION]s *)
Definition default_options : Opt.t :=
  Opt.Options None uint32_max uint32_max uint32_max uint32_max uint32_max uint32_max uint32_max
    uint32_max uint32_max uint32_max (2 ^ 64 - 1) None (Z.lor flag_locals flag_stack) uint32_max
    uint32_max None uint32_max uint32_max uint32_max uint32_max uint32_max 251 None
    false false false false false false false true true true true.

(** [struct eosio_options] *)
Definition eosio_options : Opt.t :=
  Opt.Options (Some (Limit 1024 32)) 1024 8191 1023 1023 8191 8191 8191 8191 8191 8191 (64 * 1024)
    (Some (Limit 8192 32)) (Z.lor flag_locals flag_stack) 1023 uint32_max (Some (Limit 1023 32)) 8191
    8191 (33 * 1024 * 1024 - 1) uint32_max 528 251 None
    true true true true true true false false false false false.

(** [choose_stack_limit] *)
Definition choose_stack_limit (options : Opt.t) : Z :=
  match Opt.max_stack_bytes options with
  | Some l => limit_max l
  | None => Opt.max_call_depth options
  end.

(** ** Resource checkers *)

Definition get_size_for_type (type : Z) : Z :=
  if (type =? i32) || (type =? f32) then 4
  else if (type =? i64) || (type =? f64) then 8
  else if type =? v128 then 16 else 0.

(** [_counter += size; EOS_VM_ASSERT(_counter <= max && _counter >= size)] *)
Definition add_bounded (l : limit) (counter size : Z) (msg : string) : outcome Z :=
  let counter := wrap (limit_bits l) (counter + size) in
  EOS_VM_ASSERT ((counter <=? limit_max l) && (size <=? counter)) (wasm_parse_exception msg);;
  Ret counter.

Section Checkers.
Context (options : Opt.t).

(** [max_mutable_globals_checker]: the state is [_counter]. *)
Definition on_mutable_global (type : Z) (counter : Z) : outcome Z :=
  match Opt.max_mutable_global_bytes options with
  | None => Ret counter
  | Some l => add_bounded l counter (get_size_for_type type) "mutable globals exceeded limit"
  end.

(** [max_func_local_bytes_stack_checker], with the [_count] it inherits from
    [max_func_local_bytes_checker] *)
Record local_checker : Type := LocalChecker { _count : Z; unreachable_depth : Z }.

Definition counts (flag : Z) : bool := has_flag (Opt.max_func_local_bytes_flags options) flag.

Definition on_type (type : Z) (count : Z) : outcome Z :=
  match Opt.max_func_local_bytes options with
  | None => Ret count
  | Some l => add_bounded l count (get_size_for_type type) "local variable limit exceeded"
  end.

Fixpoint on_types (l : list Z) (count : Z) : outcome Z :=
  match l with
  | [] => Ret count
  | type :: l => count ← on_type type count; on_types l count
  end.

(** the constructor of [max_func_local_bytes_checker] *)
Definition local_checker_init (ft : func_type) : outcome Z :=
  if counts flag_params then on_types (param_types ft) 0 else Ret 0.

Definition on_local (type count_ : Z) (count : Z) : outcome Z :=
  match Opt.max_func_local_bytes options with
  | None => Ret count
  | Some l =>
      if counts flag_locals
      then add_bounded l count (get_size_for_type type * count_) "local variable limit exceeded"
      else Ret count
  end.

Definition push_stack (type : Z) (lc : local_checker) : outcome local_checker :=
  if (unreachable_depth lc =? 0) && counts flag_stack then
    count ← on_type type (_count lc); Ret (LocalChecker count (unreachable_depth lc))
  else Ret lc.

Definition pop_stack (type : Z) (lc : local_checker) : local_checker :=
  match Opt.max_func_local_bytes options with
  | None => lc
  | Some l =>
      if (unreachable_depth lc =? 0) && counts flag_stack
      then LocalChecker (wrap (limit_bits l) (_count lc - get_size_for_type type)) (unreachable_depth lc)
      else lc
  end.

Definition push_unreachable (lc : local_checker) : local_checker :=
  LocalChecker (_count lc) (wrap 32 (unreachable_depth lc + 1)).
Definition pop_unreachable (lc : local_checker) : local_checker :=
  LocalChecker (_count lc) (wrap 32 (unreachable_depth lc - 1)).

(** [eosio_max_nested_structures_checker]: the state is [_count]. *)
Definition on_control (count : Z) : outcome Z :=
  match Opt.eosio_max_nested_structures options with
  | None => Ret count
  | Some l =>
      let count := wrap (limit_bits l) (count + 1) in
      EOS_VM_ASSERT (count <=? limit_max l) (wasm_parse_exception "Nested depth exceeded");;
      Ret count
  end.

Definition on_end (count : Z) : Z :=
  match Opt.eosio_max_nested_structures options with
  | None => count
  | Some l => if count =? 0 then wrap (limit_bits l) (count + 1) else wrap (limit_bits l) (count - 1)
  end.

(** [max_stack_usage_calculator::update]: the state is [_max]. *)
Definition stack_usage_update (lc : local_checker) (_max : Z) : Z :=
  match Opt.max_stack_bytes options with
  | None => _max
  | Some _ => Z.max (_count lc) _max
  end.
End Checkers.

(** ** The operand stack type tracker *)

Definition any_type : Z := 0x82.
Definition unreachable_tag : Z := 0x80.
Definition scope_tag : Z := 0x81.

(** [state] has the back of the vector first. *)
Record tracker : Type := Tracker {
  state : list Z;
  operand_depth : Z;
  maximum_operand_depth : Z;
  local_bytes_checker : local_checker;
  stack_usage : Z
}.

Definition parse_error {S A} (msg : string) : M S A := throw (wasm_parse_exception msg).
Definition parse_assert {S} (b : bool) (msg : string) : M S unit :=
  assertM b (wasm_parse_exception msg).

Module Tracker.
Section Tracker.
Context (options : Opt.t) (get_depth_for_type : Z -> Z).

Definition make (lc : local_checker) : tracker :=
  Tracker [scope_tag] 0 0 lc (stack_usage_update options lc 0).

Definition set_state (l : list Z) (t : tracker) : tracker :=
  Tracker l (operand_depth t) (maximum_operand_depth t) (local_bytes_checker t) (stack_usage t).
Definition set_depth (d : Z) (t : tracker) : tracker :=
  Tracker (state t) d (maximum_operand_depth t) (local_bytes_checker t) (stack_usage t).
Definition set_maximum (d : Z) (t : tracker) : tracker :=
  Tracker (state t) (operand_depth t) d (local_bytes_checker t) (stack_usage t).
Definition set_checker (lc : local_checker) (t : tracker) : tracker :=
  Tracker (state t) (operand_depth t) (maximum_operand_depth t) lc (stack_usage t).
Definition set_usage (u : Z) (t : tracker) : tracker :=
  Tracker (state t) (operand_depth t) (maximum_operand_depth t) (local_bytes_checker t) u.

(** [state.back()] *)
Definition back : M tracker Z :=
  l ← gets state; lift (or_UB "back of an empty vector" (head l)).
(** [state.pop_back()] *)
Definition pop_back : M tracker unit :=
  l ← gets state;
  match l with [] => ub "pop_back of an empty vector" | _ :: l => modify (set_state l) end.

Definition grow_depth (type : Z) : M tracker unit :=
  modify (fun t => set_depth (wrap 32 (operand_depth t + get_depth_for_type type)) t).
Definition shrink_depth (type : Z) : M tracker unit :=
  modify (fun t => set_depth (wrap 32 (operand_depth t - get_depth_for_type type)) t).

Definition push (type : Z) : M tracker unit :=
  d ← gets operand_depth;
  parse_assert (d <? uint32_max) "integer overflow in operand depth";;
  grow_depth type;;
  modify (fun t => set_maximum (Z.max (operand_depth t) (maximum_operand_depth t)) t);;
  modify (fun t => set_state (type :: state t) t);;
  lc ← gets local_bytes_checker;
  lc ← lift (push_stack options type lc);
  modify (set_checker lc);;
  modify (fun t => set_usage (stack_usage_update options (local_bytes_checker t) (stack_usage t)) t).

(** [pop(expected)] *)
Definition pop_expected (expected : Z) : M tracker unit :=
  if expected =? pseudo then mret tt else
  l ← gets state;
  parse_assert (negb (bool_decide (l = []))) "unexpected pop";;
  b ← back;
  if b =? unreachable_tag then mret tt else
  parse_assert ((b =? expected) || (b =? any_type)) "wrong type";;
  modify (fun t => set_checker (pop_stack options expected (local_bytes_checker t)) t);;
  shrink_depth expected;;
  pop_back.

(** [pop()] *)
Definition pop_any : M tracker Z :=
  l ← gets state;
  parse_assert (match l with [] => false | b :: _ => negb (b =? scope_tag) end) "unexpected pop";;
  b ← back;
  if b =? unreachable_tag then mret any_type else
  shrink_depth b;;
  modify (fun t => set_checker (pop_stack options b (local_bytes_checker t)) t);;
  pop_back;;
  mret b.

Definition top (expected : Z) : M tracker unit := pop_expected expected;; push expected.

(** The loop of [start_unreachable]: the operand depth and the rest of the state. *)
Fixpoint to_scope (l : list Z) (d : Z) : list Z * Z :=
  match l with
  | [] => ([], d)
  | b :: l' =>
      if b =? scope_tag then (l, d)
      else to_scope l' (if b =? unreachable_tag then d else wrap 32 (d - get_depth_for_type b))
  end.

Definition start_unreachable : M tracker unit :=
  modify (fun t => let '(l, d) := to_scope (state t) (operand_depth t) in set_depth d (set_state l t));;
  modify (fun t => set_checker (push_unreachable (local_bytes_checker t)) t);;
  modify (fun t => set_state (unreachable_tag :: state t) t).

Definition push_scope : M tracker unit := modify (fun t => set_state (scope_tag :: state t) t).

Definition pop_scope (expected_result : Z) : M tracker unit :=
  pop_expected expected_result;;
  l ← gets state;
  parse_assert (negb (bool_decide (l = []))) "unexpected end";;
  b ← back;
  (if b =? unreachable_tag then
     modify (fun t => set_checker (pop_unreachable (local_bytes_checker t)) t);; pop_back
   else mret tt);;
  b ← back;
  parse_assert (b =? scope_tag) "unexpected end";;
  pop_back;;
  if negb (expected_result =? pseudo) then push expected_result else mret tt.

Definition depth : M tracker Z := gets operand_depth.
End Tracker.
End Tracker.

(** ** Types of the locals *)

(** [local_types_t] *)
Record local_types_t : Type := LocalTypes {
  _ft : func_type; _locals : list local_entry; _boundaries : list Z
}.

Fixpoint push_boundaries (locals : list local_entry) (count : Z) : outcome (list Z) :=
  match locals with
  | [] => Ret []
  | e :: locals =>
      EOS_VM_ASSERT (count <=? uint32_max - local_count e) (wasm_parse_exception "too many locals");;
      let count := wrap 32 (count + local_count e) in
      l ← push_boundaries locals count;
      Ret (count :: l)
  end.

(** the constructor *)
Definition local_types (ft : func_type) (locals_arg : list local_entry) : outcome local_types_t :=
  let count := Z.of_nat (length (param_types ft)) in
  l ← push_boundaries locals_arg count;
  Ret (LocalTypes ft locals_arg (count :: l)).

(** [std::upper_bound] on a sorted range: the position of the first element that is
    greater *)
Fixpoint upper_bound (l : list Z) (x : Z) : nat :=
  match l with
  | [] => O
  | b :: l => if x <? b then O else S (upper_bound l x)
  end.

(** [operator[]] *)
Definition local_type_at (lt : local_types_t) (local_idx : Z) : outcome Z :=
  total ← or_UB "back of an empty vector" (list.last (_boundaries lt));
  EOS_VM_ASSERT (local_idx <? total) (wasm_parse_exception "undefined local");;
  match upper_bound (_boundaries lt) local_idx with
  | O => or_UB "param_types[local_idx] out of range" (nthZ (param_types (_ft lt)) local_idx)
  | S pos => e ← or_UB "_locals[pos - 1] out of range" (_locals lt !! pos); Ret (local_type e)
  end.

Definition locals_count (lt : local_types_t) : outcome Z :=
  total ← or_UB "back of an empty vector" (list.last (_boundaries lt));
  Ret (wrap 64 (total - Z.of_nat (length (param_types (_ft lt))))).
