(* ===== verification/Writers.v ===== *)
(** * Code writers (bitcode_writer.hpp, null_writer.hpp)

    The parser is a template over the writer it drives.  [Writer] is that
    interface: the operations the parser calls, one per family of [emit_]
    functions, over the writer's own state [W] and its types of labels, branches
    and branch-table builders.  [BitcodeWriter] produces the interpreter's code,
    [NullWriter] nothing: a backend that only validates. *)
From S2P Require Import Prelude Allocator Opcodes Types Validation.
Import Op(opcode, v128_t).

Class Writer (W : Type) : Type := {
  label_t : Type;              (* decltype(emit_end()) *)
  branch_t : Type;             (* decltype(emit_if()) *)
  br_table_parser : Type;
  get_depth_for_type : Z -> Z;
  emit_unreachable : M W unit;
  emit_nop : M W unit;
  emit_end : M W label_t;
  emit_return (depth_change rt : Z) : M W branch_t;
  emit_block : M W unit;
  emit_loop : M W label_t;
  emit_if : M W branch_t;
  emit_else (if_loc : branch_t) : M W branch_t;
  emit_br (depth_change rt : Z) : M W branch_t;
  emit_br_if (depth_change rt : Z) : M W branch_t;
  emit_br_table (table_size : Z) : M W br_table_parser;
  emit_case (depth_change rt : Z) (handler : br_table_parser) : M W (branch_t * br_table_parser);
  emit_default (depth_change rt : Z) (handler : br_table_parser) : M W (branch_t * br_table_parser);
  emit_call (ft : func_type) (funcnum : Z) : M W unit;
  emit_call_indirect (ft : func_type) (functypeidx : Z) : M W unit;
  emit_drop (type : Z) : M W unit;
  emit_select (type : Z) : M W unit;
  emit_get_local (localidx type : Z) : M W unit;
  emit_set_local (localidx type : Z) : M W unit;
  emit_tee_local (localidx type : Z) : M W unit;
  emit_get_global (globalidx : Z) : M W unit;
  emit_set_global (globalidx : Z) : M W unit;
  emit_memory (o : Op.memory_op) (alignment offset : Z) : M W unit;
  emit_memory_size (o : Op.memory_op) : M W unit;
  emit_i32_const (value : Z) : M W unit;
  emit_i64_const (value : Z) : M W unit;
  emit_f32_const (value : Z) : M W unit;
  emit_f64_const (value : Z) : M W unit;
  emit_comparison (o : Op.comparison_op) : M W unit;
  emit_numeric (o : Op.numeric_op) : M W unit;
  emit_conversion (o : Op.conversion_op) : M W unit;
  emit_data (o : Op.data_op) (x : Z) : M W unit;
  emit_ext (o : Op.ext_op) : M W unit;
  emit_vec_memory (o : Op.vec_memory_op) (alignment offset : Z) : M W unit;
  emit_vec_lane_memory (o : Op.vec_lane_memory_op) (alignment offset laneidx : Z) : M W unit;
  emit_v128_const (value : v128_t) : M W unit;
  emit_i8x16_shuffle (lanes : list Z) : M W unit;
  emit_vec_lane (o : Op.vec_lane_op) (laneidx : Z) : M W unit;
  emit_vec_numeric (o : Op.vec_numeric_op) : M W unit;
  fix_branch (branch : branch_t) (target : label_t) : M W unit;
  (* [body] is [_mod.code[funcnum]] *)
  emit_prologue (ft : func_type) (locals : list local_entry) (funcnum : Z) (body : function_body) : M W unit;
  emit_epilogue (ft : func_type) (locals : list local_entry) : M W unit;
  finalize (body : function_body) : M W function_body;
  set_stack_usage (usage : Z) : M W unit;
  (* the constructor and the destructor; what the finished code is in a module *)
  construct (m : module) (source_bytes : Z) : M Growable.t W;
  destruct_ (w : W) : M Growable.t unit;
  install (w : W) (m : module) : module
}.

(** ** The interpreter's writer *)
Module BitcodeWriter.

(** [sizeof(opcode)], [alignof(opcode)]: a 16-bit tag and a payload of 16 bytes *)
Definition sizeof_opcode : Z := 24.
Definition alignof_opcode : Z := 8.
(** [sizeof(br_table_t::elem_t)] *)
Definition sizeof_elem : Z := 8.

(** [guarded_vector<opcode>]: [_data], an offset in the arena, and the cells
    behind it.  Cells that were never written read as [error_t]. *)
Record guarded_vector : Type := GuardedVector { gv_data : Z; gv_cells : list opcode }.

Definition gv_size (v : guarded_vector) : Z := Z.of_nat (length (gv_cells v)).

(** The members, and [written]: the cells of the finished functions, in order. *)
Record t : Type := Make {
  _allocator : Growable.t;
  _code_segment_base : Z;
  op_index : Z;
  fb : guarded_vector;
  _base_offset : Z;
  stack_usage : Z;
  written : list opcode
}.

Definition set_allocator (x : Growable.t) (w : t) : t :=
  Make x (_code_segment_base w) (op_index w) (fb w) (_base_offset w) (stack_usage w) (written w).
Definition set_op_index (x : Z) (w : t) : t :=
  Make (_allocator w) (_code_segment_base w) x (fb w) (_base_offset w) (stack_usage w) (written w).
Definition set_fb (x : guarded_vector) (w : t) : t :=
  Make (_allocator w) (_code_segment_base w) (op_index w) x (_base_offset w) (stack_usage w) (written w).
Definition set_base_offset (x : Z) (w : t) : t :=
  Make (_allocator w) (_code_segment_base w) (op_index w) (fb w) x (stack_usage w) (written w).
Definition set_usage (x : Z) (w : t) : t :=
  Make (_allocator w) (_code_segment_base w) (op_index w) (fb w) (_base_offset w) x (written w).
Definition set_written (x : list opcode) (w : t) : t :=
  Make (_allocator w) (_code_segment_base w) (op_index w) (fb w) (_base_offset w) (stack_usage w) x.

(** An instruction's [pc] member, or that of a branch-table entry. *)
Inductive branch : Type := AtInstr (i : Z) | AtCase (i j : Z).

(** [br_table_parser]: the instruction, [_i], and the entries the reserved slots hold. *)
Record table_parser : Type := TableParser { tp_instr : Z; tp_i : Z; tp_room : Z }.

Section BitcodeWriter.
Context `{sys : Sys}.

Definition on_allocator {A} (k : M Growable.t A) : M t A := fun w =>
  let '(r, a) := k (_allocator w) in (r, set_allocator a w).

Definition blank (size : Z) : list opcode := replicate (Z.to_nat size) Op.ERROR.

(** [guarded_vector<opcode>{_allocator, size}] *)
Definition gv_make (size : Z) : M Growable.t guarded_vector :=
  data ← Growable.alloc sizeof_opcode alignof_opcode size;
  mret (GuardedVector data (blank size)).

(** [fb.resize(size)] *)
Definition resize (size : Z) : M t unit :=
  v ← gets fb;
  if gv_size v <? size then
    data ← on_allocator (Growable.alloc sizeof_opcode alignof_opcode size);
    modify (set_fb (GuardedVector data (blank size)))
  else
    on_allocator (Growable.reclaim sizeof_opcode (gv_data v + sizeof_opcode * size) (gv_size v - size));;
    modify (set_fb (GuardedVector (gv_data v) (take (Z.to_nat size) (gv_cells v)))).

(** [fb[i]]: the bound check of [at] *)
Definition check_index (i : Z) : M t unit :=
  v ← gets fb;
  assertM (i <? gv_size v) (wasm_vector_oob_exception "vector read out of bounds").

(** [fb[i] = x] *)
Definition store_cell (i : Z) (x : opcode) : M t unit :=
  check_index i;;
  modify (fun w => set_fb (GuardedVector (gv_data (fb w)) (<[Z.to_nat i := x]> (gv_cells (fb w)))) w).

(** [fb[op_index++] = instr] *)
Definition append_instr (instr : opcode) : M t Z :=
  i ← gets op_index;
  modify (set_op_index (i + 1));;
  store_cell i instr;;
  mret i.
Definition append (instr : opcode) : M t unit := append_instr instr;; mret tt.

Definition unimplemented : exn := wasm_parse_exception "Sorry, not implemented.".

Definition encode_depth_change (depth_change rt : Z) : outcome Z :=
  EOS_VM_ASSERT (Z.land depth_change 0x80000000 =? 0) unimplemented;;
  if negb (rt =? pseudo) then Ret (Z.lor depth_change 0x80000000) else Ret depth_change.

(** Assign through a pointer into a cell of [fb]. *)
Definition update_cell (i : Z) (f : opcode -> outcome opcode) : M t unit :=
  v ← gets fb;
  x ← lift (or_UB "no such cell" (nthZ (gv_cells v) i));
  y ← lift (f x);
  modify (set_fb (GuardedVector (gv_data v) (<[Z.to_nat i := y]> (gv_cells v)))).

Definition set_data (data : Z) (o : opcode) : outcome opcode :=
  match o with
  | Op.CONTROL_FLOW c imm =>
      Ret (Op.CONTROL_FLOW c (Op.ControlFlowImm data (Op.cf_pc imm) (Op.cf_stacksz imm)
        (Op.cf_index imm) (Op.cf_op_index imm)))
  | _ => UB "not a control flow instruction"
  end.
Definition set_pc (pc : Z) (o : opcode) : outcome opcode :=
  match o with
  | Op.CONTROL_FLOW c imm =>
      Ret (Op.CONTROL_FLOW c (Op.ControlFlowImm (Op.cf_data imm) pc (Op.cf_stacksz imm)
        (Op.cf_index imm) (Op.cf_op_index imm)))
  | _ => UB "not a control flow instruction"
  end.
Definition set_case_pc (j pc : Z) (o : opcode) : outcome opcode :=
  match o with
  | Op.BR_TABLE size table =>
      e ← or_UB "no such entry" (nthZ table j);
      Ret (Op.BR_TABLE size (<[Z.to_nat j := Op.Elem pc (Op.elem_stack_pop e)]> table))
  | _ => UB "not a branch table"
  end.

(** [*branch = pc] *)
Definition assign (b : branch) (pc : Z) : M t unit :=
  match b with
  | AtInstr i => update_cell i (set_pc pc)
  | AtCase i j => update_cell i (set_case_pc j pc)
  end.

Definition control (o : Op.control_flow_op) : opcode := Op.CONTROL_FLOW o (Op.control_flow_data 0).

Definition emit_end : M t Z := gets op_index.
Definition emit_if : M t branch := i ← append_instr (control Op.if_); mret (AtInstr i).

Definition emit_else (if_loc : branch) : M t branch :=
  i ← append_instr (control Op.else_);
  base ← gets _base_offset;
  n ← gets op_index;
  assign if_loc (wrap 32 (base + n));;
  mret (AtInstr i).

Definition emit_branch (o : Op.control_flow_op) (depth_change rt : Z) : M t branch :=
  i ← append_instr (control o);
  d ← lift (encode_depth_change depth_change rt);
  update_cell i (set_data d);;
  mret (AtInstr i).

(** the constructor of [br_table_parser] *)
Definition emit_br_table (table_size : Z) : M t table_parser :=
  i ← append_instr (Op.BR_TABLE 0 []);
  let offset := wrap 32 (table_size * sizeof_elem / sizeof_opcode + 2) in
  n ← gets op_index;
  check_index n;;
  modify (set_op_index (n + offset));;
  store_cell (n + offset) Op.ERROR;;
  update_cell i (fun _ => Ret (Op.BR_TABLE table_size []));;
  mret (TableParser i 0 (offset * sizeof_opcode / sizeof_elem)).

Definition add_case (pop : Z) (o : opcode) : outcome opcode :=
  match o with
  | Op.BR_TABLE size table => Ret (Op.BR_TABLE size (table ++ [Op.Elem 0 pop]))
  | _ => UB "not a branch table"
  end.

Definition emit_case (depth_change rt : Z) (h : table_parser) : M t (branch * table_parser) :=
  lift (if tp_i h <? tp_room h then Ret tt else UB "branch table entry outside its slots");;
  pop ← lift (encode_depth_change depth_change rt);
  update_cell (tp_instr h) (add_case pop);;
  mret (AtCase (tp_instr h) (tp_i h), TableParser (tp_instr h) (tp_i h + 1) (tp_room h)).

Definition emit_default (depth_change rt : Z) (h : table_parser) : M t (branch * table_parser) :=
  r ← emit_case depth_change rt h;
  n ← gets op_index;
  check_index n;;
  v ← gets fb;
  canary ← lift (or_UB "no such cell" (nthZ (gv_cells v) n));
  parse_assert (match canary with Op.ERROR => true | _ => false end) "overwrote br_table data";;
  mret r.

(** The instruction families, [MEM_OP] to [NUMERIC_OP] *)
Definition emit_memory (o : Op.memory_op) (alignment offset : Z) : M t unit :=
  append (Op.MEMORY o alignment offset).
Definition emit_memory_size (o : Op.memory_op) : M t unit := append (Op.MEMORY o 0 0).
Definition emit_comparison (o : Op.comparison_op) : M t unit := append (Op.COMPARISON o).
Definition emit_numeric (o : Op.numeric_op) : M t unit := append (Op.NUMERIC o).
Definition emit_conversion (o : Op.conversion_op) : M t unit := append (Op.CONVERSION o).
Definition emit_data (o : Op.data_op) (x : Z) : M t unit := append (Op.DATA o x).
Definition emit_ext (o : Op.ext_op) : M t unit := append (Op.EXT o).
Definition emit_vec_memory (o : Op.vec_memory_op) (alignment offset : Z) : M t unit :=
  append (Op.VEC_MEMORY o alignment offset).
Definition emit_vec_lane_memory (o : Op.vec_lane_memory_op) (alignment offset laneidx : Z) : M t unit :=
  append (Op.VEC_LANE_MEMORY o alignment offset laneidx).
Definition emit_vec_lane (o : Op.vec_lane_op) (laneidx : Z) : M t unit :=
  append (Op.VEC_LANE o laneidx).
Definition emit_vec_numeric (o : Op.vec_numeric_op) : M t unit := append (Op.VEC_NUMERIC o).

Definition fix_branch (b : branch) (target : Z) : M t unit :=
  base ← gets _base_offset; assign b (wrap 32 (base + target)).

Definition emit_prologue (body : function_body) : M t unit :=
  modify (set_op_index 0);;
  v ← on_allocator (gv_make (fb_size body));
  modify (set_fb v).

(** the loop over [locals] *)
Definition count_locals (locals : list local_entry) : Z :=
  fold_left (fun n l => wrap 32 (n + local_count l)) locals 0.

Definition emit_epilogue (ft : func_type) (locals : list local_entry) : M t unit :=
  n ← gets op_index;
  resize (n + 1);;
  v ← gets fb;
  usage ← gets stack_usage;
  store_cell (gv_size v - 1)
    (Op.RETURN (Op.ControlFlowImm (wrap 32 (count_locals locals + Z.of_nat (length (param_types ft))))
       (return_count ft) usage 0 0)).

(** [body.code] is the offset of the code in the arena. *)
Definition finalize (body : function_body) : M t function_body :=
  n ← gets op_index;
  modify (set_op_index (n + 1));;
  resize (n + 1);;
  v ← gets fb;
  modify (fun w => set_base_offset (_base_offset w + (n + 1)) (set_written (written w ++ gv_cells v) w));;
  usage ← gets stack_usage;
  mret (FunctionBody (n + 1) (fb_locals body) (gv_data v) usage).

Definition set_stack_usage (usage : Z) : M t unit :=
  let usage := wrap 64 (usage + 16) in
  assertM (usage <=? 0xFFFFFFFF) unimplemented;;
  modify (set_usage usage).

Definition construct (source_bytes : Z) : M Growable.t t :=
  base ← Growable.start_code;
  v ← gv_make source_bytes;
  gets (fun a => Make a base 0 v 0 1 []).

(** [~bitcode_writer]: the allocator is the one the writer holds a reference to. *)
Definition destruct_ (w : t) : M Growable.t unit := fun _ =>
  Growable.end_code (_code_segment_base w) (_allocator w).

(** In a module a code pointer is an offset, in instructions, from the code of the
    first function. *)
Definition install (w : t) (m : module) : module :=
  let first := match code m with b :: _ => fb_code b | [] => 0 end in
  with_bitcode (written w)
    (with_code ((fun b => FunctionBody (fb_size b) (fb_locals b)
       ((fb_code b - first) / sizeof_opcode) (fb_stack_size b)) <$> code m) m).
End BitcodeWriter.
End BitcodeWriter.

#[export] Instance bitcode_writer `{sys : Sys} : Writer BitcodeWriter.t := {|
  label_t := Z;
  branch_t := BitcodeWriter.branch;
  br_table_parser := BitcodeWriter.table_parser;
  get_depth_for_type _ := 1;
  emit_unreachable := BitcodeWriter.append (BitcodeWriter.control Op.unreachable);
  emit_nop := BitcodeWriter.append (BitcodeWriter.control Op.nop);
  emit_end := BitcodeWriter.emit_end;
  emit_return := BitcodeWriter.emit_branch Op.br;
  emit_block := mret tt;
  emit_loop := BitcodeWriter.emit_end;
  emit_if := BitcodeWriter.emit_if;
  emit_else := BitcodeWriter.emit_else;
  emit_br := BitcodeWriter.emit_branch Op.br;
  emit_br_if := BitcodeWriter.emit_branch Op.br_if;
  emit_br_table := BitcodeWriter.emit_br_table;
  emit_case := BitcodeWriter.emit_case;
  emit_default := BitcodeWriter.emit_default;
  emit_call _ funcnum := BitcodeWriter.append (Op.CALL Op.call funcnum);
  emit_call_indirect _ functypeidx := BitcodeWriter.append (Op.CALL Op.call_indirect functypeidx);
  emit_drop _ := BitcodeWriter.append (Op.PARAMETRIC Op.drop_);
  emit_select _ := BitcodeWriter.append (Op.PARAMETRIC Op.select_);
  emit_get_local localidx _ := BitcodeWriter.append (Op.VARIABLE_ACCESS Op.get_local localidx);
  emit_set_local localidx _ := BitcodeWriter.append (Op.VARIABLE_ACCESS Op.set_local localidx);
  emit_tee_local localidx _ := BitcodeWriter.append (Op.VARIABLE_ACCESS Op.tee_local localidx);
  emit_get_global globalidx := BitcodeWriter.append (Op.VARIABLE_ACCESS Op.get_global globalidx);
  emit_set_global globalidx := BitcodeWriter.append (Op.VARIABLE_ACCESS Op.set_global globalidx);
  emit_memory := BitcodeWriter.emit_memory;
  emit_memory_size := BitcodeWriter.emit_memory_size;
  emit_i32_const value := BitcodeWriter.append (Op.I32_CONST value);
  emit_i64_const value := BitcodeWriter.append (Op.I64_CONST value);
  emit_f32_const value := BitcodeWriter.append (Op.F32_CONST value);
  emit_f64_const value := BitcodeWriter.append (Op.F64_CONST value);
  emit_comparison := BitcodeWriter.emit_comparison;
  emit_numeric := BitcodeWriter.emit_numeric;
  emit_conversion := BitcodeWriter.emit_conversion;
  emit_data := BitcodeWriter.emit_data;
  emit_ext := BitcodeWriter.emit_ext;
  emit_vec_memory := BitcodeWriter.emit_vec_memory;
  emit_vec_lane_memory := BitcodeWriter.emit_vec_lane_memory;
  emit_v128_const value := BitcodeWriter.append (Op.V128_CONST value);
  emit_i8x16_shuffle lanes := BitcodeWriter.append (Op.VEC_SHUFFLE lanes);
  emit_vec_lane := BitcodeWriter.emit_vec_lane;
  emit_vec_numeric := BitcodeWriter.emit_vec_numeric;
  fix_branch := BitcodeWriter.fix_branch;
  emit_prologue _ _ _ body := BitcodeWriter.emit_prologue body;
  emit_epilogue := BitcodeWriter.emit_epilogue;
  finalize := BitcodeWriter.finalize;
  set_stack_usage := BitcodeWriter.set_stack_usage;
  construct _ := BitcodeWriter.construct;
  destruct_ := BitcodeWriter.destruct_;
  install := BitcodeWriter.install
|}.

(** ** The writer of a backend that only validates *)
Module NullWriter.
Definition t : Type := unit.

Definition emit_memory (_ : Op.memory_op) (_ _ : Z) : M t unit := mret tt.
Definition emit_memory_size (_ : Op.memory_op) : M t unit := mret tt.
Definition emit_comparison (_ : Op.comparison_op) : M t unit := mret tt.
Definition emit_numeric (_ : Op.numeric_op) : M t unit := mret tt.
Definition emit_conversion (_ : Op.conversion_op) : M t unit := mret tt.
Definition emit_data (_ : Op.data_op) (_ : Z) : M t unit := mret tt.
Definition emit_ext (_ : Op.ext_op) : M t unit := mret tt.
Definition emit_vec_memory (_ : Op.vec_memory_op) (_ _ : Z) : M t unit := mret tt.
Definition emit_vec_lane_memory (_ : Op.vec_lane_memory_op) (_ _ _ : Z) : M t unit := mret tt.
Definition emit_vec_lane (_ : Op.vec_lane_op) (_ : Z) : M t unit := mret tt.
Definition emit_vec_numeric (_ : Op.vec_numeric_op) : M t unit := mret tt.
End NullWriter.

#[export] Instance null_writer : Writer NullWriter.t := {|
  label_t := unit;
  branch_t := unit;
  br_table_parser := unit;
  get_depth_for_type _ := 0;
  emit_unreachable := mret tt;
  emit_nop := mret tt;
  emit_end := mret tt;
  emit_return _ _ := mret tt;
  emit_block := mret tt;
  emit_loop := mret tt;
  emit_if := mret tt;
  emit_else _ := mret tt;
  emit_br _ _ := mret tt;
  emit_br_if _ _ := mret tt;
  emit_br_table _ := mret tt;
  emit_case _ _ _ := mret (tt, tt);
  emit_default _ _ _ := mret (tt, tt);
  emit_call _ _ := mret tt;
  emit_call_indirect _ _ := mret tt;
  emit_drop _ := mret tt;
  emit_select _ := mret tt;
  emit_get_local _ _ := mret tt;
  emit_set_local _ _ := mret tt;
  emit_tee_local _ _ := mret tt;
  emit_get_global _ := mret tt;
  emit_set_global _ := mret tt;
  emit_memory := NullWriter.emit_memory;
  emit_memory_size := NullWriter.emit_memory_size;
  emit_i32_const _ := mret tt;
  emit_i64_const _ := mret tt;
  emit_f32_const _ := mret tt;
  emit_f64_const _ := mret tt;
  emit_comparison := NullWriter.emit_comparison;
  emit_numeric := NullWriter.emit_numeric;
  emit_conversion := NullWriter.emit_conversion;
  emit_data := NullWriter.emit_data;
  emit_ext := NullWriter.emit_ext;
  emit_vec_memory := NullWriter.emit_vec_memory;
  emit_vec_lane_memory := NullWriter.emit_vec_lane_memory;
  emit_v128_const _ := mret tt;
  emit_i8x16_shuffle _ := mret tt;
  emit_vec_lane := NullWriter.emit_vec_lane;
  emit_vec_numeric := NullWriter.emit_vec_numeric;
  fix_branch _ _ := mret tt;
  emit_prologue _ _ _ _ := mret tt;
  emit_epilogue _ _ := mret tt;
  finalize body := mret body;
  set_stack_usage _ := mret tt;
  construct _ _ := mret tt;
  destruct_ _ := mret tt;
  install _ m := m
|}.
