(* ===== verification/FunctionBody.v ===== *)
(** * Validation of a function body (parser.hpp, [parse_function_body_code])

    The loop that decodes the instructions of a body, tracks the types of the
    operand stack and of the labels, and drives a writer.  One definition per
    group of [case]s; the writer is the parameter [W]. *)
From S2P Require Import Prelude GuardedPtr Leb128 Allocator Opcodes Types OpSigs Validation Writers.
Import Op(opcode, v128_t, V128).

(** ** Reading the code *)

(** [*code] *)
Definition peek_byte (p : guarded_ptr) : outcome (Z * guarded_ptr) :=
  b ← GuardedPtr.deref p; Ret (b, p).
(** [code += n] *)
Definition skip (n : Z) (p : guarded_ptr) : outcome (unit * guarded_ptr) :=
  p ← GuardedPtr.add p n; Ret (tt, p).

(** [n] bytes at [code.raw()], which the source reads without a check *)
Definition raw_bytes (n : Z) (p : guarded_ptr) : outcome (list Z) :=
  if raw_ptr p + n <=? Z.of_nat (length (data p))
  then Ret (take (Z.to_nat n) (drop (Z.to_nat (raw_ptr p)) (data p)))
  else UB "read outside the buffer".

(** A little-endian integer *)
Definition of_le (l : list Z) : Z := fold_right (fun b v => b + 256 * v) 0 l.

(** [parse_raw<T>], [n] = [sizeof(T)] *)
Definition parse_raw (n : Z) (p : guarded_ptr) : outcome (Z * guarded_ptr) :=
  GuardedPtr.scoped_shrink_bounds n p (fun p =>
    l ← raw_bytes n p;
    p ← GuardedPtr.add p n;
    Ret (of_le l, p)).

Definition parse_v128 (p : guarded_ptr) : outcome (v128_t * guarded_ptr) :=
  GuardedPtr.scoped_shrink_bounds 16 p (fun p =>
    l ← raw_bytes 16 p;
    p ← GuardedPtr.add p 16;
    Ret (V128 (of_le (take 8 l)) (of_le (drop 8 l)), p)).

(** ** Decoding *)

(** The names of the enums [opcodes], [ext_opcodes] and [vec_opcodes]. *)
Inductive opcode_name : Type :=
  | N_CONTROL_FLOW (o : Op.control_flow_op)
  | N_BR_TABLE
  | N_RETURN
  | N_CALL (o : Op.call_op)
  | N_PARAMETRIC (o : Op.parametric_op)
  | N_VARIABLE_ACCESS (o : Op.variable_access_op)
  | N_MEMORY (o : Op.memory_op)
  | N_I32_CONST | N_I64_CONST | N_F32_CONST | N_F64_CONST
  | N_COMPARISON (o : Op.comparison_op)
  | N_NUMERIC (o : Op.numeric_op)
  | N_CONVERSION (o : Op.conversion_op)
  | N_VECTOR_PREFIX | N_EXT_PREFIX.

Inductive vec_name : Type :=
  | N_VEC_MEMORY (o : Op.vec_memory_op)
  | N_VEC_LANE_MEMORY (o : Op.vec_lane_memory_op)
  | N_V128_CONST
  | N_VEC_SHUFFLE
  | N_VEC_LANE (o : Op.vec_lane_op)
  | N_VEC_NUMERIC (o : Op.vec_numeric_op).

Inductive ext_name : Type :=
  | N_DATA (o : Op.data_op)
  | N_EXT (o : Op.ext_op).

Definition named {A N} (code : A -> Z) (name : A -> N) (all : list A) : list (Z * N) :=
  (fun o => (code o, name o)) <$> all.

Definition opcode_names : list (Z * opcode_name) :=
  named Op.control_flow_op_code N_CONTROL_FLOW Op.control_flow_op_all ++
  [(0x0E, N_BR_TABLE); (0x0F, N_RETURN)] ++
  named Op.call_op_code N_CALL Op.call_op_all ++
  named Op.parametric_op_code N_PARAMETRIC Op.parametric_op_all ++
  named Op.variable_access_op_code N_VARIABLE_ACCESS Op.variable_access_op_all ++
  named Op.memory_op_code N_MEMORY Op.memory_op_all ++
  [(0x41, N_I32_CONST); (0x42, N_I64_CONST); (0x43, N_F32_CONST); (0x44, N_F64_CONST)] ++
  named Op.comparison_op_code N_COMPARISON Op.comparison_op_all ++
  named Op.numeric_op_code N_NUMERIC Op.numeric_op_all ++
  named Op.conversion_op_code N_CONVERSION Op.conversion_op_all ++
  [(0xFC, N_EXT_PREFIX); (0xFD, N_VECTOR_PREFIX)].

Definition vec_names : list (Z * vec_name) :=
  named Op.vec_memory_op_code N_VEC_MEMORY Op.vec_memory_op_all ++
  named Op.vec_lane_memory_op_code N_VEC_LANE_MEMORY Op.vec_lane_memory_op_all ++
  [(12, N_V128_CONST); (13, N_VEC_SHUFFLE)] ++
  named Op.vec_lane_op_code N_VEC_LANE Op.vec_lane_op_all ++
  named Op.vec_numeric_op_code N_VEC_NUMERIC Op.vec_numeric_op_all.

Definition ext_names : list (Z * ext_name) :=
  named Op.data_op_code N_DATA Op.data_op_all ++ named Op.ext_op_code N_EXT Op.ext_op_all.

(** The [case] of a [switch]; [None]: [default]. *)
Definition case_of {N} (names : list (Z * N)) (c : Z) : option N :=
  snd <$> List.find (fun p => p.1 =? c) names.

(** ** The state of the loop *)

Section Body.
Context {W : Type} `{wr : Writer W}.

(** [pc_element_t] *)
Record pc_element_t : Type := PcElement {
  pe_operand_depth : Z;
  expected_result : Z;
  label_result : Z;
  is_if : bool;
  relocations : label_t + list branch_t
}.

(** The locals of [parse_function_body_code] and the members of the parser it
    changes; [pc_stack] has its back first. *)
Record body_state : Type := BodyState {
  bs_code : guarded_ptr;
  op_stack : tracker;
  pc_stack : list pc_element_t;
  _nested_checker : Z;
  code_writer : W
}.

Definition set_code (x : guarded_ptr) (s : body_state) : body_state :=
  BodyState x (op_stack s) (pc_stack s) (_nested_checker s) (code_writer s).
Definition set_op_stack (x : tracker) (s : body_state) : body_state :=
  BodyState (bs_code s) x (pc_stack s) (_nested_checker s) (code_writer s).
Definition set_pc_stack (x : list pc_element_t) (s : body_state) : body_state :=
  BodyState (bs_code s) (op_stack s) x (_nested_checker s) (code_writer s).
Definition set_nested_checker (x : Z) (s : body_state) : body_state :=
  BodyState (bs_code s) (op_stack s) (pc_stack s) x (code_writer s).
Definition set_code_writer (x : W) (s : body_state) : body_state :=
  BodyState (bs_code s) (op_stack s) (pc_stack s) (_nested_checker s) x.

Definition from_code {A} (k : guarded_ptr -> outcome (A * guarded_ptr)) : M body_state A := fun s =>
  match k (bs_code s) with
  | Ret (a, p) => (Ret a, set_code p s)
  | Throw e => (Throw e, s)
  | UB w => (UB w, s)
  end.
Definition on_stack {A} (k : M tracker A) : M body_state A := fun s =>
  let '(r, t) := k (op_stack s) in (r, set_op_stack t s).
Definition emits {A} (k : M W A) : M body_state A := fun s =>
  let '(r, w) := k (code_writer s) in (r, set_code_writer w s).

Definition next_byte : M body_state Z := from_code GuardedPtr.deref_incr.

(** the check that a reserved byte is 0, and the step over it *)
Definition zero_byte (msg : string) : M body_state unit :=
  b ← from_code peek_byte;
  parse_assert (b =? 0) msg;;
  next_byte;; mret tt.

(** What the body is validated against: the options, the module parsed so far, the
    data count and the type aliases of the parser, the locals of the function. *)
Context (options : Opt.t) (_mod : module) (_datacount : option Z) (type_aliases : list Z)
  (locals : local_types_t).

Definition pop_expected (t : Z) : M body_state unit :=
  on_stack (Tracker.pop_expected options get_depth_for_type t).
Definition pop_any : M body_state Z := on_stack (Tracker.pop_any options get_depth_for_type).
Definition push (t : Z) : M body_state unit := on_stack (Tracker.push options get_depth_for_type t).
Definition top (t : Z) : M body_state unit := on_stack (Tracker.top options get_depth_for_type t).
Definition start_unreachable : M body_state unit :=
  on_stack (Tracker.start_unreachable get_depth_for_type).
Definition pop_scope (t : Z) : M body_state unit :=
  on_stack (Tracker.pop_scope options get_depth_for_type t).

(** pop the arguments of a signature, push its results *)
Definition apply_sig (s : sig) : M body_state unit := eachM pop_expected s.1;; eachM push s.2.

Definition pc_stack_size : M body_state Z := gets (fun s => Z.of_nat (length (pc_stack s))).
(** [pc_stack.back()] *)
Definition pc_back : M body_state pc_element_t :=
  l ← gets pc_stack; lift (or_UB "back of an empty vector" (head l)).
(** [pc_stack[pc_stack.size() - label - 1]] *)
Definition pc_at (label : Z) : M body_state pc_element_t :=
  l ← gets pc_stack; lift (or_UB "pc_stack index out of range" (nthZ l label)).
Definition push_pc (e : pc_element_t) : M body_state unit :=
  modify (fun s => set_pc_stack (e :: pc_stack s) s).

(** the lambda [handle_branch_target] *)
Definition handle_branch_target (label : Z) (address : branch_t) : M body_state unit :=
  n ← pc_stack_size;
  parse_assert (label <? n) "invalid label";;
  e ← pc_at label;
  match relocations e with
  | inl target => emits (fix_branch address target)
  | inr l =>
      modify (fun s => set_pc_stack (<[Z.to_nat label :=
        PcElement (pe_operand_depth e) (expected_result e) (label_result e) (is_if e)
          (inr (l ++ [address]))]> (pc_stack s)) s)
  end.

(** the lambda [compute_depth_change] *)
Definition compute_depth_change (label : Z) : M body_state (Z * Z) :=
  n ← pc_stack_size;
  parse_assert (label <? n) "invalid label";;
  e ← pc_at label;
  d ← on_stack Tracker.depth;
  let result := wrap 32 (d - pe_operand_depth e) in
  (if negb (label_result e =? pseudo) then top (label_result e) else mret tt);;
  mret (result, label_result e).

(** the lambda [exit_scope] *)
Definition exit_scope : M body_state unit :=
  n ← pc_stack_size;
  parse_assert (negb (n =? 0)) "unexpected end instruction";;
  e ← pc_back;
  parse_assert (negb (is_if e) || (expected_result e =? pseudo)) "wrong type";;
  end_pos ← emits emit_end;
  match relocations e with
  | inr l => eachM (fun branch_op => emits (fix_branch branch_op end_pos)) l
  | inl _ => mret tt
  end;;
  pop_scope (expected_result e);;
  modify (fun s => set_pc_stack (tail (pc_stack s)) s).

(** the lambda [check_in_bounds] *)
Definition check_in_bounds : M body_state unit :=
  n ← pc_stack_size;
  parse_assert (negb (Opt.allow_code_after_function_end options) || negb (n =? 0))
    "code after function end".

(** ** Control flow *)

Definition is_value_type (t : Z) : bool :=
  (t =? i32) || (t =? i64) || (t =? f32) || (t =? f64) || ((t =? v128) && Opt.enable_simd options).

(** The type byte of a [block], [loop] or [if]. *)
Definition block_type (msg : string) : M body_state Z :=
  t ← next_byte;
  let t := if Opt.allow_zero_blocktype options && (t =? 0) then pseudo else t in
  parse_assert (is_value_type t || (t =? pseudo)) msg;;
  mret t.

Definition on_control_ : M body_state unit :=
  n ← gets _nested_checker; n ← lift (on_control options n); modify (set_nested_checker n).

Definition parse_end (bounds : Z) : M body_state unit :=
  check_in_bounds;;
  exit_scope;;
  n ← pc_stack_size;
  code ← gets bs_code;
  parse_assert (Opt.allow_code_after_function_end options || negb (n =? 0)
                || (GuardedPtr.offset code =? bounds)) "function too short";;
  modify (fun s => set_nested_checker (on_end options (_nested_checker s)) s).

Definition parse_block : M body_state unit :=
  expected ← block_type "Invalid type code in block";
  d ← on_stack Tracker.depth;
  push_pc (PcElement d expected expected false (inr []));;
  emits emit_block;;
  on_stack Tracker.push_scope;;
  on_control_.

Definition parse_loop_instr : M body_state unit :=
  expected ← block_type "Invalid type code in loop";
  pos ← emits emit_loop;
  d ← on_stack Tracker.depth;
  push_pc (PcElement d expected pseudo false (inl pos));;
  on_stack Tracker.push_scope;;
  on_control_.

Definition parse_if : M body_state unit :=
  check_in_bounds;;
  expected ← block_type "Invalid type code in if";
  branch ← emits emit_if;
  pop_expected i32;;
  d ← on_stack Tracker.depth;
  push_pc (PcElement d expected expected true (inr [branch]));;
  on_stack Tracker.push_scope;;
  on_control_.

Definition parse_else : M body_state unit :=
  check_in_bounds;;
  old_index ← pc_back;
  parse_assert (is_if old_index) "else outside if";;
  l ← lift (match relocations old_index with
            | inr (first :: l) => Ret (first, l)
            | _ => UB "bad variant access"
            end);
  pop_expected (expected_result old_index);;
  pop_scope pseudo;;
  on_stack Tracker.push_scope;;
  branch ← emits (emit_else l.1);
  modify (fun s => set_pc_stack
    (PcElement (pe_operand_depth old_index) (expected_result old_index) (label_result old_index)
       false (inr (branch :: l.2)) :: tail (pc_stack s)) s);;
  on_control_.

Definition parse_br : M body_state unit :=
  check_in_bounds;;
  label ← from_code parse_varuint32;
  dc ← compute_depth_change label;
  branch ← emits (emit_br dc.1 dc.2);
  handle_branch_target label branch;;
  start_unreachable.

Definition parse_br_if : M body_state unit :=
  check_in_bounds;;
  label ← from_code parse_varuint32;
  pop_expected i32;;
  dc ← compute_depth_change label;
  branch ← emits (emit_br_if dc.1 dc.2);
  handle_branch_target label branch.

Definition parse_return : M body_state unit :=
  check_in_bounds;;
  n ← pc_stack_size;
  let label := wrap 32 (n - 1) in
  dc ← compute_depth_change label;
  branch ← emits (emit_return dc.1 dc.2);
  handle_branch_target label branch;;
  start_unreachable.

(** The loop over the labels of a [br_table], [i] the index of the next one. *)
Fixpoint parse_cases (todo : nat) (i : Z) (result_type : Z) (handler : br_table_parser)
  : M body_state (Z * br_table_parser) :=
  match todo with
  | O => mret (result_type, handler)
  | S todo =>
      label ← from_code parse_varuint32;
      dc ← compute_depth_change label;
      b ← emits (emit_case dc.1 dc.2 handler);
      handle_branch_target label b.1;;
      e ← pc_at label;
      let one_result := wrap 8 (label_result e) in
      if i =? 0 then parse_cases todo (i + 1) one_result b.2
      else
        parse_assert (result_type =? one_result) "br_table labels must have the same type";;
        parse_cases todo (i + 1) result_type b.2
  end.

Definition parse_br_table : M body_state unit :=
  check_in_bounds;;
  table_size ← from_code parse_varuint32;
  parse_assert (table_size <=? Opt.max_br_table_elements options) "Too many labels in br_table";;
  pop_expected i32;;
  handler ← emits (emit_br_table table_size);
  r ← parse_cases (Z.to_nat table_size) 0 0 handler;
  label ← from_code parse_varuint32;
  dc ← compute_depth_change label;
  b ← emits (emit_default dc.1 dc.2 r.2);
  handle_branch_target label b.1;;
  e ← pc_at label;
  parse_assert ((table_size =? 0) || (r.1 =? label_result e))
    "br_table labels must have the same type";;
  start_unreachable.

Definition parse_control_flow (bounds : Z) (o : Op.control_flow_op) : M body_state unit :=
  match o with
  | Op.unreachable => check_in_bounds;; emits emit_unreachable;; start_unreachable
  | Op.nop => emits emit_nop
  | Op.end_ => parse_end bounds
  | Op.block => parse_block
  | Op.loop => parse_loop_instr
  | Op.if_ => parse_if
  | Op.else_ => parse_else
  | Op.br => parse_br
  | Op.br_if => parse_br_if
  | _ => parse_error "Illegal instruction"
  end.

(** ** Calls *)

(** pop the parameters, the last one first; push the result *)
Definition apply_func_type (ft : func_type) : M body_state unit :=
  eachM pop_expected (rev (param_types ft));;
  parse_assert (return_count ft <=? 1) "unsupported";;
  if negb (return_count ft =? 0) then push (return_type ft) else mret tt.

Definition parse_call : M body_state unit :=
  check_in_bounds;;
  funcnum ← from_code parse_varuint32;
  ft ← lift (Mod.get_function_type _mod funcnum);
  apply_func_type ft;;
  emits (emit_call ft funcnum).

Definition parse_call_indirect : M body_state unit :=
  check_in_bounds;;
  functypeidx ← from_code parse_varuint32;
  ft ← lift (vec_at (types _mod) functypeidx);
  parse_assert (negb (bool_decide (tables _mod = []))) "call_indirect requires a table";;
  pop_expected i32;;
  apply_func_type ft;;
  alias ← lift (or_UB "type_aliases index out of range" (nthZ type_aliases functypeidx));
  emits (emit_call_indirect ft alias);;
  zero_byte "call_indirect must end with 0x00.".

Definition parse_call_op (o : Op.call_op) : M body_state unit :=
  match o with
  | Op.call => parse_call
  | Op.call_indirect => parse_call_indirect
  | _ => parse_error "Illegal instruction"
  end.

(** ** Parametric and variable instructions *)

Definition parse_parametric (o : Op.parametric_op) : M body_state unit :=
  match o with
  | Op.drop_ => check_in_bounds;; t ← pop_any; emits (emit_drop t)
  | Op.select_ =>
      check_in_bounds;;
      pop_expected i32;;
      t0 ← pop_any;
      t1 ← pop_any;
      parse_assert ((t0 =? t1) || (t0 =? any_type) || (t1 =? any_type)) "incorrect types for select";;
      push (if negb (t0 =? any_type) then t0 else t1);;
      emits (emit_select t0)
  | _ => parse_error "Illegal instruction"
  end.

Definition local_at (local_idx : Z) : M body_state Z := lift (local_type_at locals local_idx).
Definition global_at (global_idx : Z) : M body_state global_type :=
  gv ← lift (vec_at (globals _mod) global_idx); mret (gl_type gv).

Definition parse_variable_access (o : Op.variable_access_op) : M body_state unit :=
  match o with
  | Op.get_local =>
      local_idx ← from_code parse_varuint32;
      t ← local_at local_idx; push t;; emits (emit_get_local local_idx t)
  | Op.set_local =>
      check_in_bounds;;
      local_idx ← from_code parse_varuint32;
      t ← local_at local_idx; pop_expected t;; emits (emit_set_local local_idx t)
  | Op.tee_local =>
      check_in_bounds;;
      local_idx ← from_code parse_varuint32;
      t ← local_at local_idx; top t;; emits (emit_tee_local local_idx t)
  | Op.get_global =>
      global_idx ← from_code parse_varuint32;
      g ← global_at global_idx; push (content_type g);; emits (emit_get_global global_idx)
  | Op.set_global =>
      check_in_bounds;;
      global_idx ← from_code parse_varuint32;
      g ← global_at global_idx;
      parse_assert (mutability g) "cannot set const global";;
      pop_expected (content_type g);; emits (emit_set_global global_idx)
  | _ => parse_error "Illegal instruction"
  end.

(** ** Memory *)

Definition has_memory (msg : string) : M body_state unit :=
  parse_assert (negb (bool_decide (memories _mod = []))) msg.

(** The immediates of an access: the alignment and the offset. *)
Definition parse_memarg : M body_state (Z * Z) :=
  alignment ← from_code parse_varuint32;
  offset ← from_code parse_varuint32;
  mret (alignment, offset).
Definition check_memarg (max_align : Z) (a : Z * Z) (msg : string) : M body_state unit :=
  parse_assert (a.1 <=? max_align) "alignment cannot be greater than size.";;
  parse_assert (a.2 <=? Opt.max_memory_offset options) msg.

Definition is_store (o : Op.memory_op) : bool := bool_decide ((memory_type_of o).2 = []).

(** [LOAD_OP], [STORE_OP] *)
Definition parse_memory_access (store : bool) (max_align : Z) (s : sig) (emit : Z -> Z -> M W unit)
  : M body_state unit :=
  check_in_bounds;;
  has_memory (if store then "store requires memory" else "load requires memory");;
  a ← parse_memarg;
  check_memarg max_align a (if store then "store offset too large." else "load offset too large.");;
  apply_sig s;;
  emits (emit a.1 a.2).

Definition parse_memory (o : Op.memory_op) : M body_state unit :=
  match o with
  | Op.current_memory =>
      has_memory "memory.size requires memory";;
      push i32;;
      zero_byte "memory.size must end with 0x00";;
      emits (emit_memory_size Op.current_memory)
  | Op.grow_memory =>
      check_in_bounds;;
      has_memory "memory.grow requires memory";;
      pop_expected i32;;
      push i32;;
      zero_byte "memory.grow must end with 0x00";;
      emits (emit_memory_size Op.grow_memory)
  | _ => parse_memory_access (is_store o) (memory_align o) (memory_type_of o) (emit_memory o)
  end.

(** ** Numeric instructions *)

(** [UNOP], [BINOP], [CASTOP] *)
Definition parse_numeric_op (s : sig) (emit : M W unit) : M body_state unit :=
  check_in_bounds;; emits emit;; apply_sig s.

Definition is_extend (o : Op.numeric_op) : bool :=
  match o with
  | Op.i32_extend8_s | Op.i32_extend16_s | Op.i64_extend8_s | Op.i64_extend16_s
  | Op.i64_extend32_s => true
  | _ => false
  end.

(** [EXTENDOP] *)
Definition parse_extend_op (o : Op.numeric_op) : M body_state unit :=
  check_in_bounds;;
  parse_assert (Opt.enable_sign_ext options) "Sign-extension operators not enabled";;
  emits (emit_numeric o);;
  apply_sig (numeric_type o).

(** ** Vector instructions *)

(** [LOADLANE_OP], [STORELANE_OP] *)
Definition parse_vec_lane_memory (o : Op.vec_lane_memory_op) : M body_state unit :=
  check_in_bounds;;
  has_memory "load requires memory";;
  a ← parse_memarg;
  lane ← next_byte;
  check_memarg (vec_lane_memory_align o) a "load offset too large.";;
  parse_assert (lane <? vec_lane_memory_count o) "laneidx out of bounds";;
  apply_sig (vec_lane_memory_type o);;
  emits (emit_vec_lane_memory o a.1 a.2 lane).

Definition parse_shuffle : M body_state unit :=
  check_in_bounds;;
  start ← gets bs_code;
  from_code (skip 16);;
  lanes ← lift (raw_bytes 16 start);
  parse_assert (forallb (fun l => l <? 32) lanes) "shuffle laneidx must be less than 32";;
  emits (emit_i8x16_shuffle lanes);;
  apply_sig (binary v128 v128).

(** [EXTRACT_LANE_OP], [REPLACE_LANE_OP] *)
Definition parse_vec_lane (o : Op.vec_lane_op) : M body_state unit :=
  check_in_bounds;;
  laneidx ← next_byte;
  parse_assert (laneidx <? vec_lane_count o) "laneidx must be smaller than dim(shape)";;
  apply_sig (vec_lane_type o);;
  emits (emit_vec_lane o laneidx).

Definition is_vec_store (o : Op.vec_memory_op) : bool := bool_decide ((vec_memory_type o).2 = []).

Definition parse_vector (o : vec_name) : M body_state unit :=
  match o with
  | N_VEC_MEMORY o =>
      parse_memory_access (is_vec_store o) (vec_memory_align o) (vec_memory_type o) (emit_vec_memory o)
  | N_VEC_LANE_MEMORY o => parse_vec_lane_memory o
  | N_V128_CONST =>
      check_in_bounds;; v ← from_code parse_v128; emits (emit_v128_const v);; push v128
  | N_VEC_SHUFFLE => parse_shuffle
  | N_VEC_LANE o => parse_vec_lane o
  | N_VEC_NUMERIC o =>
      check_in_bounds;; apply_sig (vec_numeric_sig o);; emits (emit_vec_numeric o)
  end.

(** ** Extended instructions *)

Definition bulk_enabled : M body_state unit :=
  parse_assert (Opt.enable_bulk_memory options) "Bulk memory not enabled".
Definition has_table (msg : string) : M body_state unit :=
  parse_assert (negb (bool_decide (tables _mod = []))) msg.

Definition check_data_index (name : string) (x : Z) : M body_state unit :=
  n ← lift (match _datacount with
            | Some n => Ret n
            | None => Throw (wasm_parse_exception (name +:+ " requires datacount section"))
            end);
  parse_assert (x <? n) "data segment does not exist".

Definition parse_data (o : Op.data_op) : M body_state unit :=
  match o with
  | Op.memory_init =>
      check_in_bounds;; bulk_enabled;;
      has_memory "memory.init requires memory";;
      eachM pop_expected [i32; i32; i32];;
      x ← from_code parse_varuint32;
      check_data_index "memory.init" x;;
      zero_byte "memory.init must end with 0x00";;
      emits (emit_data Op.memory_init x)
  | Op.data_drop =>
      check_in_bounds;; bulk_enabled;;
      x ← from_code parse_varuint32;
      check_data_index "data.drop" x;;
      emits (emit_data Op.data_drop x)
  | Op.table_init =>
      check_in_bounds;; bulk_enabled;;
      has_table "table.init requires table";;
      x ← from_code parse_varuint32;
      zero_byte "table.init must end with 0x00";;
      eachM pop_expected [i32; i32; i32];;
      emits (emit_data Op.table_init x)
  | Op.elem_drop =>
      check_in_bounds;; bulk_enabled;;
      x ← from_code parse_varuint32;
      parse_assert (x <? Z.of_nat (length (elements _mod))) "elem segment does not exist";;
      emits (emit_data Op.elem_drop x)
  end.

Definition parse_ext_op (o : Op.ext_op) : M body_state unit :=
  match o with
  | Op.memory_copy =>
      check_in_bounds;; bulk_enabled;;
      has_memory "memory.copy requires memory";;
      apply_sig (ext_sig o);;
      zero_byte "memory.copy must end with 0x00 0x00";;
      zero_byte "memory.copy must end with 0x00 0x00";;
      emits (emit_ext o)
  | Op.memory_fill =>
      check_in_bounds;; bulk_enabled;;
      has_memory "memory.fill requires memory";;
      apply_sig (ext_sig o);;
      zero_byte "memory.fill must end with 0x00";;
      emits (emit_ext o)
  | Op.table_copy =>
      check_in_bounds;; bulk_enabled;;
      has_table "table.copy requires table";;
      zero_byte "table.copy must end with 0x00 0x00";;
      zero_byte "table.copy must end with 0x00 0x00";;
      apply_sig (ext_sig o);;
      emits (emit_ext o)
  | _ =>
      check_in_bounds;;
      parse_assert (Opt.enable_nontrapping_fptoint options)
        "Non-trapping float-to-int conversions not enabled";;
      apply_sig (ext_sig o);;
      emits (emit_ext o)
  end.

(** ** The loop *)

Definition parse_opcode (bounds : Z) (o : opcode_name) : M body_state unit :=
  match o with
  | N_CONTROL_FLOW o => parse_control_flow bounds o
  | N_BR_TABLE => parse_br_table
  | N_RETURN => parse_return
  | N_CALL o => parse_call_op o
  | N_PARAMETRIC o => parse_parametric o
  | N_VARIABLE_ACCESS o => parse_variable_access o
  | N_MEMORY o => parse_memory o
  | N_I32_CONST => v ← from_code parse_varint32; emits (emit_i32_const (wrap 32 v));; push i32
  | N_I64_CONST => v ← from_code parse_varint64; emits (emit_i64_const (wrap 64 v));; push i64
  | N_F32_CONST => v ← from_code (parse_raw 4); emits (emit_f32_const v);; push f32
  | N_F64_CONST => v ← from_code (parse_raw 8); emits (emit_f64_const v);; push f64
  | N_COMPARISON o => parse_numeric_op (comparison_type o) (emit_comparison o)
  | N_NUMERIC o =>
      if is_extend o then parse_extend_op o else parse_numeric_op (numeric_type o) (emit_numeric o)
  | N_CONVERSION o => parse_numeric_op (conversion_type o) (emit_conversion o)
  | N_VECTOR_PREFIX =>
      parse_assert (Opt.enable_simd options) "SIMD not enabled";;
      c ← from_code parse_varuint32;
      match case_of vec_names c with
      | Some o => parse_vector o
      | None => parse_error "Illegal instruction"
      end
  | N_EXT_PREFIX =>
      c ← from_code parse_varuint32;
      match case_of ext_names c with
      | Some (N_DATA o) => parse_data o
      | Some (N_EXT o) => parse_ext_op o
      | None => parse_error "Illegal instruction"
      end
  end.

(** One turn of the loop. *)
Definition parse_instr (bounds : Z) : M body_state unit :=
  n ← pc_stack_size;
  parse_assert (n <=? Opt.max_nested_structures options) "nested structures validation failure";;
  b ← next_byte;
  match case_of opcode_names b with
  | Some o => parse_opcode bounds o
  | None => parse_error "Illegal instruction"
  end.

(** [while (code.offset() < bounds)]; every turn reads at least one byte. *)
Fixpoint parse_instrs (fuel : nat) (bounds : Z) : M body_state unit :=
  match fuel with
  | O => ub "fuel"
  | S fuel =>
      code ← gets bs_code;
      if GuardedPtr.offset code <? bounds then parse_instr bounds;; parse_instrs fuel bounds
      else mret tt
  end.

Definition function_result (ft : func_type) : Z :=
  if negb (return_count ft =? 0) then return_type ft else pseudo.

Definition initial_state (code : guarded_ptr) (lc : local_checker) (ft : func_type) (nested : Z)
    (w : W) : body_state :=
  BodyState code (Tracker.make options lc)
    [PcElement 0 (function_result ft) (function_result ft) false (inr [])] nested w.

(** [parse_function_body_code], run from [initial_state]; returns the stack
    requirement that [maximum_stack] is raised to. *)
Definition parse_function_body_code (bounds : Z) : M body_state Z :=
  parse_instrs (S (Z.to_nat bounds)) bounds;;
  match Opt.max_stack_bytes options with
  | Some _ => s ← gets op_stack; emits (set_stack_usage (Validation.stack_usage s))
  | None => mret tt
  end;;
  n ← pc_stack_size;
  parse_assert (n =? 0) "function body too long";;
  s ← gets op_stack;
  count ← lift (locals_count locals);
  mret (wrap 64 (maximum_operand_depth s + count)).
End Body.
