(* ===== verification/Parser.v ===== *)
(** * The binary parser (parser.hpp)

    [parse_module] and everything it calls but the code of function bodies.  A
    [reader] moves the cursor of its argument; what the parser keeps in members is
    the record [parser], passed along by the section loop. *)
From S2P Require Import Prelude GuardedPtr Leb128 Allocator Opcodes Types Validation Writers FunctionBody.

(** ** Readers *)
Definition reader (A : Type) : Type := guarded_ptr -> outcome (A * guarded_ptr).

#[export] Instance reader_ret : MRet reader := fun A (a : A) p => Ret (a, p).
#[export] Instance reader_bind : MBind reader :=
  fun A B (k : A -> reader B) (m : reader A) p => '(a, p) ← m p; k a p.

Definition pure_ {A} (o : outcome A) : reader A := fun p => a ← o; Ret (a, p).
Definition fail {A} (e : exn) : reader A := fun _ => Throw e.
Definition require (b : bool) (e : exn) : reader unit := pure_ (EOS_VM_ASSERT b e).
Definition check (b : bool) (msg : string) : reader unit := require b (wasm_parse_exception msg).
Definition read_byte : reader Z := GuardedPtr.deref_incr.
Definition cursor : reader guarded_ptr := fun p => Ret (p, p).
Definition shrunk {A} (n : Z) (k : reader A) : reader A := fun p =>
  GuardedPtr.scoped_shrink_bounds n p k.
Definition consumed {A} (n : Z) (k : reader A) : reader A := fun p =>
  GuardedPtr.scoped_consume_items n p k.

(** ** Strings *)

Definition bad_utf8 {A} : reader A := fail (wasm_parse_exception "invalid utf8 encoding").

(** The next byte, which has to be a continuation byte; its 6 bits. *)
Definition continuation : reader Z :=
  b ← read_byte;
  check (Z.land b 0xC0 =? 0x80) "invalid utf8 encoding";;
  mret (wrap 32 (b - 0x80)).

Definition validate_utf8_code_point : reader Z :=
  ch ← read_byte;
  if ch <? 0x80 then mret 1
  else if ch <? 0xE0 then
    check (Z.land ch 0xC0 =? 0xC0) "invalid utf8 encoding";;
    b2 ← continuation;
    let code_point := wrap 32 (wrap 32 (Z.shiftl (wrap 32 (ch - 0xC0)) 6) + b2) in
    check ((0x80 <=? code_point) && (code_point <? 0x800)) "invalid utf8 encoding";;
    mret 2
  else if ch <? 0xF0 then
    b2 ← continuation;
    b3 ← continuation;
    let code_point := wrap 32 (wrap 32 (Z.shiftl (wrap 32 (ch - 0xE0)) 12) +
                               wrap 32 (Z.shiftl b2 6) + b3) in
    check (((0x800 <=? code_point) && (code_point <? 0xD800)) ||
           ((0xE000 <=? code_point) && (code_point <? 0x10000))) "invalid utf8 encoding";;
    mret 3
  else if ch <? 0xF8 then
    b2 ← continuation;
    b3 ← continuation;
    b4 ← continuation;
    let code_point := wrap 32 (wrap 32 (Z.shiftl (wrap 32 (ch - 0xF0)) 18) +
                               wrap 32 (Z.shiftl b2 12) + wrap 32 (Z.shiftl b3 6) + b4) in
    check ((0x10000 <=? code_point) && (code_point <? 0x110000)) "invalid utf8 encoding";;
    mret 4
  else bad_utf8.

(** [while(bytes != 0) bytes -= validate_utf8_code_point(code)] *)
Fixpoint validate_utf8_loop (fuel : nat) (bytes : Z) : reader unit :=
  if bytes =? 0 then mret tt else
  match fuel with
  | O => fun _ => UB "fuel"
  | S fuel => n ← validate_utf8_code_point; validate_utf8_loop fuel (wrap 32 (bytes - n))
  end.
Definition validate_utf8_string (bytes : Z) : reader unit :=
  validate_utf8_loop (S (Z.to_nat bytes)) bytes.

Definition parse_utf8_string (max_size : Z) : reader (list Z) :=
  len ← parse_varuint32;
  check (len <=? max_size) "name too long";;
  shrunk len (p ← cursor; result ← pure_ (raw_bytes len p); validate_utf8_string len;; mret result).

(** ** Expressions and types *)

Definition no_value : expr_value := Op.V128 0 0.

Definition parse_init_expr (options : Opt.t) (type : Z) : reader init_expr :=
  opcode ← read_byte;
  value ← (
    if opcode =? 0x41 then
      v ← parse_varint32;
      check (type =? i32) "expected i32 initializer";; mret (ev_set_i32 v no_value)
    else if opcode =? 0x42 then
      v ← parse_varint64;
      check (type =? i64) "expected i64 initializer";; mret (ev_set_i64 v no_value)
    else if opcode =? 0x43 then
      v ← parse_raw 4;
      check (type =? f32) "expected f32 initializer";; mret (ev_set_i32 v no_value)
    else if opcode =? 0x44 then
      v ← parse_raw 8;
      check (type =? f64) "expected f64 initializer";; mret (ev_set_i64 v no_value)
    else if opcode =? 0xFD then
      check (Opt.enable_simd options) "SIMD not enabled";;
      c ← parse_varuint32;
      check (c =? 12) "Expected v128.const";;
      v ← parse_v128;
      check (type =? v128) "expected v128 initializer";; mret v
    else fail (wasm_parse_exception
      "initializer expression can only acception i32.const, i64.const, f32.const, f64.const and v128.const"));
  e ← read_byte;
  check (e =? 0x0B) "no end op found";;
  mret (InitExpr opcode value).

(** [for (i = 0; i < n; ++i) ...]: [n] elements, the index of the first and a state. *)
Fixpoint parse_elems {A St} (elem_parse : Z -> St -> reader (A * St)) (todo : nat) (i : Z) (st : St)
  : reader (list A * St) :=
  match todo with
  | O => mret ([], st)
  | S todo =>
      r ← elem_parse i st;
      rs ← parse_elems elem_parse todo (i + 1) r.2;
      mret (r.1 :: rs.1, rs.2)
  end.

Definition stateless {A} (k : reader A) : Z -> unit -> reader (A * unit) :=
  fun _ _ => a ← k; mret (a, tt).
Definition parse_many {A} (k : reader A) (n : Z) : reader (list A) :=
  r ← parse_elems (stateless k) (Z.to_nat n) 0 tt; mret r.1.

(** [parse_section_impl] *)
Definition parse_section_impl {A St} (max_elements : Z) (elem_parse : Z -> St -> reader (A * St)) (st : St)
  : reader (list A * St) :=
  count ← parse_varuint32;
  check (count <=? max_elements) "number of section elements exceeded limit";;
  parse_elems elem_parse (Z.to_nat count) 0 st.
Definition parse_vector_of {A} (max_elements : Z) (k : reader A) : reader (list A) :=
  r ← parse_section_impl max_elements (stateless k) tt; mret r.1.

Section Entries.
Context (options : Opt.t).

Definition value_type (msg : string) : reader Z :=
  t ← read_byte; check (is_value_type options t) msg;; mret t.

Definition parse_func_type : reader func_type :=
  form ← read_byte;
  check (form =? 0x60) "invalid function type";;
  n ← parse_varuint32;
  params ← parse_many (value_type "invalid function param type") n;
  return_count ← read_byte;
  check (return_count <? 2) "invalid function return count";;
  return_type ← (if 0 <? return_count then value_type "invalid function return type" else mret 0);
  mret (FuncType form params return_count return_type).

Definition parse_import_entry (_mod : module) : reader import_entry :=
  module_str ← parse_utf8_string (Opt.max_symbol_bytes options);
  field_str ← parse_utf8_string (Opt.max_symbol_bytes options);
  kind ← read_byte;
  type ← parse_varuint32;
  if kind =? 0 then
    check (type <? Z.of_nat (length (types _mod))) "Invalid function type";;
    mret (ImportEntry module_str field_str Function_ (ImportFunc type))
  else fail (wasm_unsupported_import_exception "only function imports are supported").

Definition parse_flags : reader bool :=
  if Opt.allow_u32_limits_flags options then
    v ← parse_varuint32; mret (negb (Z.land v 1 =? 0))
  else
    b ← peek_byte;
    check ((b =? 0) || (b =? 1)) "invalid flags";;
    b ← read_byte; mret (negb (b =? 0)).

Definition parse_table_type : reader table_type :=
  element_type ← read_byte;
  check (element_type =? anyfunc) "table must have type anyfunc";;
  flags ← parse_flags;
  initial ← parse_varuint32;
  maximum ← (if (flags : bool) then
               maximum ← parse_varuint32;
               check (initial <=? maximum) "table max size less than min size";; mret maximum
             else mret 0);
  check (initial <=? Opt.max_table_elements options) "table size exceeds limit";;
  mret (TableType element_type (Limits flags initial maximum)).

Definition parse_memory_type : reader memory_type :=
  flags ← parse_flags;
  initial ← parse_varuint32;
  check (initial <=? Opt.max_pages options) "initial memory out of range";;
  check (initial <=? 65536) "initial memory out of range";;
  maximum ← (if (flags : bool) then
               maximum ← parse_varuint32;
               check (initial <=? maximum) "maximum must be at least minimum";;
               check (maximum <=? 65536) "maximum memory out of range";; mret maximum
             else mret 0);
  mret (MemoryType (Limits flags initial maximum)).

(** The state is the counter of [_globals_checker]. *)
Definition parse_global_variable (counter : Z) : reader (global_variable * Z) :=
  ct ← value_type "invalid global content type";
  mutability ← parse_varuint1;
  counter ← (if (mutability : bool) then pure_ (on_mutable_global options ct counter) else mret counter);
  init ← parse_init_expr options ct;
  mret (GlobalVariable (GlobalType ct mutability) init, counter).

Definition parse_export_entry (_mod : module) : reader export_entry :=
  field_str ← parse_utf8_string (Opt.max_symbol_bytes options);
  kind ← read_byte;
  index ← parse_varuint32;
  if kind =? 0 then
    check (index <? Mod.get_functions_total _mod) "function export out of range";;
    mret (ExportEntry field_str Function_ index)
  else if kind =? 1 then
    check (index <? Z.of_nat (length (tables _mod))) "table export out of range";;
    mret (ExportEntry field_str Table index)
  else if kind =? 2 then
    check (index <? Z.of_nat (length (memories _mod))) "memory export out of range";;
    mret (ExportEntry field_str Memory index)
  else if kind =? 3 then
    check (index <? Z.of_nat (length (globals _mod))) "global export out of range";;
    (if Opt.forbid_export_mutable_globals options then
       gv ← pure_ (vec_at (globals _mod) index);
       check (negb (mutability (gl_type gv))) "cannot export mutable globals"
     else mret tt);;
    mret (ExportEntry field_str Global index)
  else fail (wasm_parse_exception "Unknown export kind").

Definition parse_elem_expr (_mod : module) (fast_functions : list Z) : reader table_entry :=
  opcode ← read_byte;
  te ← (if opcode =? 0xD0 then
          b ← peek_byte;
          check (b =? funcref) "Unknown type for elem";;
          read_byte;; mret (TableEntry uint32_max uint32_max PcNull)
        else if opcode =? 0xD2 then
          index ← parse_varuint32;
          check (index <? Mod.get_functions_total _mod) "elem for undefined function";;
          type ← pure_ (vec_at fast_functions index);
          mret (TableEntry type index PcNull)
        else fail (wasm_parse_exception "elem expression can only acception ref.null and ref.func"));
  e ← read_byte;
  check (e =? 0x0B) "no end op found";;
  mret te.

Definition parse_elem_index (_mod : module) (fast_functions : list Z) : reader table_entry :=
  index ← parse_varuint32;
  type ← pure_ (vec_at fast_functions index);
  check (index <? Mod.get_functions_total _mod) "elem for undefined function";;
  mret (TableEntry type index PcNull).

(** [es] is the zero-initialised segment of the resized vector. *)
Definition parse_elem_segment (_mod : module) (fast_functions : list Z) : reader elem_segment :=
  let es_index := 0 in
  flags ← parse_varuint32;
  check ((es_index =? 0) || Opt.enable_bulk_memory options) "Bulk memory not enabled";;
  check (es_index <=? 7) "Illegal flags for elem";;
  index ← (if (flags =? 2) || (flags =? 6) then parse_varuint32 else mret 0);
  head ← (if Z.land flags 1 =? 0 then
            offset ← parse_init_expr options i32;
            check (index <? Z.of_nat (length (tables _mod))) "wrong table in elem";;
            tt_ ← pure_ (or_UB "tables index out of range" (nthZ (tables _mod) index));
            mret (active, offset, element_type tt_ =? anyfunc)
          else mret (if negb (Z.land flags 2 =? 0) then declarative else passive,
                     InitExpr 0 no_value, true));
  (if (flags =? 1) || (flags =? 2) || (flags =? 3) then
     elemkind ← read_byte; check (elemkind =? 0) "elemkind must be funcref"
   else if (flags =? 5) || (flags =? 6) || (flags =? 7) then
     reftype ← read_byte; check (reftype =? funcref) "elem type must be funcref"
   else mret tt);;
  let '(mode, offset, table_ok) := head in
  check table_ok "elem type does not match table type";;
  size ← parse_varuint32;
  check (size <=? Opt.max_element_segment_elements options) "elem segment too large";;
  elems ← parse_many (if negb (Z.land flags 4 =? 0) then parse_elem_expr _mod fast_functions
                      else parse_elem_index _mod fast_functions) size;
  mret (ElemSegment index offset mode elems).

Definition parse_data_segment (_mod : module) : reader data_segment :=
  flag ← parse_varuint32;
  r ← (if (flag =? 0) || negb (Opt.enable_bulk_memory options) then
         offset ← parse_init_expr options i32;
         check (negb (bool_decide (memories _mod = []))) "data requires memory";;
         mret (flag, offset, false)
       else if flag =? 1 then mret (flag, InitExpr 0x41 no_value, true)
       else if flag =? 2 then
         index ← parse_varuint32;
         offset ← parse_init_expr options i32;
         check (index <? Z.of_nat (length (memories _mod))) "Data uses nonexistent memory";;
         mret (index, offset, false)
       else fail (wasm_parse_exception "Unexpected flag for data"));
  let '(index, offset, is_passive) := r in
  len ← parse_varuint32;
  check (len <=? Opt.max_data_segment_bytes options) "data segment too large.";;
  check (ev_i32 (ie_value offset) + len <=? Opt.max_linear_memory_init options)
    "out-of-bounds data section";;
  shrunk len (p ← cursor;
    bytes ← pure_ (raw_bytes len p);
    skip len;;
    mret (DataSegment index offset is_passive bytes)).

(** ** Function bodies *)

Definition parse_local (count : Z) : reader (local_entry * Z) :=
  n ← parse_varuint32;
  type ← read_byte;
  let type := if Opt.allow_invalid_empty_local_set options && (n =? 0) then i32 else type in
  check (is_value_type options type) "invalid local type";;
  count ← pure_ (on_local options type n count);
  mret (LocalEntry n type, count).

(** The body, and the cursor and the byte count that [_function_bodies] keeps for it. *)
Definition parse_function_body (_mod : module) (idx : Z) : reader (function_body * (guarded_ptr * Z)) :=
  size ← parse_varuint32;
  check (size <=? Opt.max_code_bytes options) "Function body too large";;
  before ← cursor;
  local_cnt ← parse_varuint32;
  check (local_cnt <=? Opt.max_local_sets options) "Number of local sets exceeds limit";;
  t ← pure_ (vec_at (functions _mod) idx);
  ft ← pure_ (vec_at (types _mod) t);
  count ← pure_ (local_checker_init options ft);
  r ← parse_elems (fun _ => parse_local) (Z.to_nat local_cnt) 0 count;
  after ← cursor;
  let size := wrap 32 (size - (GuardedPtr.offset after - GuardedPtr.offset before)) in
  shrunk size (
    p ← cursor;
    skip (wrap 32 (size - 1));;
    (if Opt.allow_code_after_function_end options then mret tt
     else b ← peek_byte; check (b =? 0x0B) "failed parsing function body, expected 'end'");;
    GuardedPtr.deref_incr;;
    mret (FunctionBody size r.1 0 0,
          (GuardedPtr (drop (Z.to_nat (raw_ptr p)) (data p)) 0 size, r.2))).
End Entries.

(** ** Names *)

Definition parse_name_assoc : reader name_assoc :=
  idx ← parse_varuint32; name ← parse_utf8_string uint32_max; mret (NameAssoc idx name).
Definition parse_name_map (size : Z) : reader (list name_assoc) := parse_many parse_name_assoc size.

Definition at_end : reader bool := p ← cursor; mret (GuardedPtr.bounds p =? GuardedPtr.offset p).

(** The body of subsection [id] when it is next. *)
Definition subsection {A} (id : Z) (k : reader A) : reader (option A) :=
  b ← peek_byte;
  if b =? id then
    read_byte;;
    n ← parse_varuint32;
    a ← consumed n k;
    mret (Some a)
  else mret None.

Definition parse_local_names : reader (list indirect_name_assoc) :=
  size ← parse_varuint32;
  parse_many (idx ← parse_varuint32; n ← parse_varuint32; m ← parse_name_map n;
              mret (IndirectNameAssoc idx m)) size.

Definition parse_name_section : reader name_section :=
  e ← at_end;
  if (e : bool) then mret (NameSection None None None) else
  mn ← subsection 0 (parse_utf8_string uint32_max);
  e ← at_end;
  if (e : bool) then mret (NameSection mn None None) else
  fns ← subsection 1 (size ← parse_varuint32; parse_name_map size);
  e ← at_end;
  if (e : bool) then mret (NameSection mn fns None) else
  lns ← subsection 2 parse_local_names;
  e ← at_end;
  if (e : bool) then mret (NameSection mn fns lns) else
  fail (wasm_parse_exception "Invalid subsection Id").

(** ** Module-level checks *)

(** [normalize_types]: the first loop, the index of the first equal type *)
Fixpoint first_equal (l : list func_type) (ft : func_type) (i : Z) : Z :=
  match l with
  | [] => i
  | t :: l => if func_type_eqb t ft then i else first_equal l ft (i + 1)
  end.
Definition normalize_aliases (l : list func_type) : list Z :=
  imap (fun i ft => first_equal (take i l) ft 0) l.

(** [_mod->imports[i].type.func_t] for the first [n] imports *)
Definition import_aliases (_mod : module) (type_aliases : list Z) : outcome (list Z) :=
  map_outcome (fun i => t ← Mod.import_func_t _mod i; vec_at type_aliases t)
    (seqZ 0 (Mod.get_imported_functions_size _mod)).
Definition function_aliases (_mod : module) (type_aliases : list Z) : outcome (list Z) :=
  map_outcome (vec_at type_aliases) (functions _mod).

(** [std::sort] and [std::adjacent_find] over the names: are two of them equal? *)
Fixpoint has_duplicate (names : list (list Z)) : bool :=
  match names with
  | [] => false
  | n :: names => bool_decide (n ∈ names) || has_duplicate names
  end.
Definition validate_exports (_mod : module) : outcome unit :=
  EOS_VM_ASSERT (negb (has_duplicate (field_str <$> exports _mod)))
    (wasm_parse_exception "duplicate export name").

(** ** The parser *)

(** [binary_parser]'s members, the module it fills included *)
Record parser : Type := Parser {
  pr_mod : module;
  pr_datacount : option Z;
  pr_type_aliases : list Z;
  pr_fast_functions : list Z;
  pr_globals_checker : Z;
  pr_nested_checker : Z;
  pr_allocator : Growable.t
}.

Definition set_mod (m : module) (p : parser) : parser :=
  Parser m (pr_datacount p) (pr_type_aliases p) (pr_fast_functions p) (pr_globals_checker p)
    (pr_nested_checker p) (pr_allocator p).

(** Run a stateful computation from a state. *)
Definition run {S A} (k : M S A) (s : S) : outcome (A * S) :=
  let '(r, s') := k s in a ← r; Ret (a, s').

Section Parser.
Context {W : Type} `{wr : Writer W} (options : Opt.t).

(** One turn of the loop of [write_code_out]: [i] is the function's index; the
    state is the writer, the nesting checker and [maximum_stack]. *)
Definition write_function (p : parser) (i : Z) (body : function_body) (code : guarded_ptr) (count : Z)
    (w : W) (nested maximum : Z) : outcome (function_body * (W * Z * Z)) :=
  t ← vec_at (functions (pr_mod p)) i;
  ft ← vec_at (types (pr_mod p)) t;
  lt ← local_types ft (fb_locals body);
  '(_, w) ← run (emit_prologue ft (fb_locals body) i body) w;
  '(usage, s) ← run (parse_function_body_code options (pr_mod p) (pr_datacount p) (pr_type_aliases p) lt
                       (fb_size body))
                  (initial_state options code (LocalChecker count 0) ft nested w);
  '(_, w) ← run (emit_epilogue ft (fb_locals body)) (code_writer s);
  '(body, w) ← run (finalize body) w;
  Ret (body, (w, _nested_checker s, Z.max maximum usage)).

Fixpoint write_functions (p : parser) (i : Z) (l : list (function_body * (guarded_ptr * Z)))
    (w : W) (nested maximum : Z) : outcome (list function_body * (W * Z * Z)) :=
  match l with
  | [] => Ret ([], (w, nested, maximum))
  | (body, (code, count)) :: l =>
      '(body, (w, nested, maximum)) ← write_function p i body code count w nested maximum;
      '(bodies, st) ← write_functions p (i + 1) l w nested maximum;
      Ret (body :: bodies, st)
  end.

Definition write_code_out (source_bytes : Z) (l : list (function_body * (guarded_ptr * Z))) (p : parser)
  : outcome parser :=
  '(w, a) ← run (construct (with_code l.*1 (pr_mod p)) source_bytes) (pr_allocator p);
  '(bodies, (w, nested, maximum)) ← write_functions p 0 l w (pr_nested_checker p)
                                      (maximum_stack (pr_mod p));
  '(_, a) ← run (destruct_ w) a;
  Ret (Parser (install w (with_maximum_stack maximum (with_code bodies (pr_mod p))))
         (pr_datacount p) (pr_type_aliases p) (pr_fast_functions p) (pr_globals_checker p) nested a).

(** ** Sections *)

Definition normalize_types (p : parser) : outcome parser :=
  let aliases := normalize_aliases (types (pr_mod p)) in
  imported ← import_aliases (pr_mod p) aliases;
  defined ← function_aliases (pr_mod p) aliases;
  Ret (Parser (pr_mod p) (pr_datacount p) aliases (imported ++ defined) (pr_globals_checker p)
         (pr_nested_checker p) (pr_allocator p)).

Definition parse_custom (p : parser) : reader parser :=
  section_name ← parse_utf8_string uint32_max;
  if Opt.parse_custom_section_name options && bool_decide (section_name = [110; 97; 109; 101]) then
    n ← parse_name_section; mret (set_mod (with_names (Some n) (pr_mod p)) p)
  else
    c ← cursor; skip (GuardedPtr.bounds c - GuardedPtr.offset c);; mret p.

Definition parse_start (p : parser) : reader parser :=
  start ← parse_varuint32;
  ft ← pure_ (Mod.get_function_type (pr_mod p) start);
  check ((return_count ft =? 0) && bool_decide (param_types ft = [])) "wrong type for start";;
  mret (set_mod (with_start start (pr_mod p)) p).

Definition parse_memory_entry (idx : Z) (_ : unit) : reader (memory_type * unit) :=
  check (idx =? 0) "only one memory is permitted";;
  mt ← parse_memory_type options; mret (mt, tt).

Definition parse_code_section (p : parser) : reader parser :=
  r ← parse_section_impl (Opt.max_function_section_elements options)
        (fun idx _ => b ← parse_function_body options (pr_mod p) idx; mret (b, tt)) tt;
  check (Z.of_nat (length r.1) =? Z.of_nat (length (functions (pr_mod p))))
    "code section must have the same size as the function section";;
  c ← cursor;
  pure_ (write_code_out (GuardedPtr.bounds c - GuardedPtr.offset c) r.1 p).

Definition parse_data_section (p : parser) : reader parser :=
  l ← parse_vector_of (Opt.max_data_section_elements options) (parse_data_segment options (pr_mod p));
  match pr_datacount p with
  | Some n => check (n =? Z.of_nat (length l)) "data count does not match data"
  | None => mret tt
  end;;
  mret (set_mod (with_data_segments l (pr_mod p)) p).

(** The [switch] of [parse_module] *)
Definition parse_section (id : Z) (p : parser) : reader parser :=
  let m := pr_mod p in
  let fill {A} (update : A -> module -> module) (k : reader A) : reader parser :=
    x ← k; mret (set_mod (update x m) p) in
  if id =? 0 then parse_custom p
  else if id =? 1 then
    fill with_types (parse_vector_of (Opt.max_type_section_elements options) (parse_func_type options))
  else if id =? 2 then
    fill with_imports
      (parse_vector_of (Opt.max_import_section_elements options) (parse_import_entry options m))
  else if id =? 3 then
    p ← fill with_functions
          (parse_vector_of (Opt.max_function_section_elements options) parse_varuint32);
    pure_ (normalize_types p)
  else if id =? 4 then fill with_tables (parse_vector_of 1 (parse_table_type options))
  else if id =? 5 then
    r ← parse_section_impl 1 parse_memory_entry tt;
    mret (set_mod (with_memories r.1 m) p)
  else if id =? 6 then
    r ← parse_section_impl (Opt.max_global_section_elements options)
          (fun _ => parse_global_variable options) (pr_globals_checker p);
    mret (Parser (with_globals r.1 m) (pr_datacount p) (pr_type_aliases p) (pr_fast_functions p) r.2
            (pr_nested_checker p) (pr_allocator p))
  else if id =? 7 then
    p ← fill with_exports
          (parse_vector_of (Opt.max_export_section_elements options) (parse_export_entry options m));
    pure_ (validate_exports (pr_mod p));; mret p
  else if id =? 8 then parse_start p
  else if id =? 9 then
    fill with_elements (parse_vector_of (Opt.max_element_section_elements options)
                          (parse_elem_segment options m (pr_fast_functions p)))
  else if id =? 10 then parse_code_section p
  else if id =? 11 then parse_data_section p
  else if id =? 12 then
    n ← parse_varuint32;
    mret (Parser m (Some n) (pr_type_aliases p) (pr_fast_functions p) (pr_globals_checker p)
            (pr_nested_checker p) (pr_allocator p))
  else fail (wasm_parse_exception "error invalid section id").

(** [make_section_order] *)
Definition section_order : list Z := [0; 1; 2; 3; 4; 5; 6; 7; 8; 9; 11; 12; 10].

(** The loop of [parse_module]; every section has at least two bytes. *)
Fixpoint parse_sections (fuel : nat) (sz : Z) (highest_section_id : Z) (p : parser) : reader parser :=
  match fuel with
  | O => fun _ => UB "fuel"
  | S fuel =>
      c ← cursor;
      if GuardedPtr.offset c =? sz then mret p else
      id ← read_byte;
      len ← parse_varuint32;
      check (id <? 13) "invalid section id";;
      order ← pure_ (or_UB "order index out of range" (nthZ section_order id));
      check ((id =? 0) || (highest_section_id <? order)) "section out of order";;
      p ← consumed len (parse_section id p);
      parse_sections fuel sz (Z.max highest_section_id order) p
  end.

Definition magic : Z := 0x6D736100.
Definition version : Z := 1.

Definition initial_parser (m : module) (a : Growable.t) : parser :=
  Parser (with_eosio_fp (Opt.eosio_fp options) m) None [] [] 0 0 a.

(** [parse_module(code_ptr, sz, mod, debug)] *)
Definition parse_module (sz : Z) (m : module) (a : Growable.t) : reader parser :=
  x ← parse_raw 4;
  check (x =? magic) "magic number did not match";;
  v ← parse_raw 4;
  check (v =? version) "version number did not match";;
  p ← parse_sections (S (Z.to_nat sz)) sz 0 (initial_parser m a);
  check (Z.of_nat (length (code (pr_mod p))) =? Z.of_nat (length (functions (pr_mod p))))
    "code section must have the same size as the function section";;
  mret (set_mod (with_stack_limit_is_bytes
    (match Opt.max_stack_bytes options with Some _ => true | None => false end) (pr_mod p)) p).

(** [parse_module(wasm_code& code, module& mod, debug)] *)
Definition parse_wasm (code : list Z) (m : module) (a : Growable.t) : outcome parser :=
  '(p, _) ← parse_module (Z.of_nat (length code)) m a (GuardedPtr.of_buffer code);
  Ret p.
End Parser.

(** [module{}] *)
Definition empty_module : module :=
  Module_ [] uint32_max [] [] [] [] [] [] [] [] [] [] None [] 0 false false None.
