(* ===== verification/ReaderProofs.v ===== *)
(** * Readers keep inside their bounds (parser.hpp)

    [rwp] is the weakest precondition of a reader; [reads_ok n k Q]: on any cursor
    inside its buffer the reader [k] returns a result in [Q] after at least [n]
    bytes, or throws, and never has undefined behaviour. *)
From S2P Require Import Prelude GuardedPtr Leb128 Allocator Opcodes Types Validation Writers FunctionBody Parser.

(** ** Cursors *)
Definition cursor_ok (p : guarded_ptr) : Prop := GuardedPtr.wf p /\ bytes (data p).

(** [p'] is [p] moved forward by at least [n] bytes. *)
Record moved (n : Z) (p p' : guarded_ptr) : Prop := Moved {
  moved_data : data p' = data p;
  moved_bnds : bnds p' = bnds p;
  moved_raw : raw_ptr p + n <= raw_ptr p';
  moved_ok : cursor_ok p'
}.

Lemma moved_refl p : cursor_ok p -> moved 0 p p.
Proof. constructor; [done|done|lia|done]. Qed.
Lemma moved_trans n n' p q r : moved n p q -> moved n' q r -> moved (n + n') p r.
Proof. intros [? ? ? ?] [? ? ? ?]. constructor; [congruence|congruence|lia|done]. Qed.
Lemma moved_weaken n n' p q : moved n p q -> n' <= n -> moved n' p q.
Proof. intros [? ? ? ?] ?. constructor; [done|done|lia|done]. Qed.

Lemma cursor_ok_remaining p : cursor_ok p -> bytes (GuardedPtr.remaining p).
Proof. intros [_ H]. unfold GuardedPtr.remaining. by apply Forall_drop, Forall_take. Qed.

Lemma cursor_of_buffer l : bytes l -> cursor_ok (GuardedPtr.of_buffer l).
Proof. intros H. split; [apply GuardedPtr.wf_of_buffer|done]. Qed.

(** ** The weakest precondition of a reader *)
Definition rwp {A} (k : reader A) (Q : A -> guarded_ptr -> Prop) (p : guarded_ptr) : Prop :=
  match k p with Ret (a, p') => Q a p' | Throw _ => True | UB _ => False end.

Definition reads_ok {A} (n : Z) (k : reader A) (Q : A -> Prop) : Prop :=
  forall p, cursor_ok p -> rwp k (fun a p' => moved n p p' /\ Q a) p.

Lemma rwp_bind {A B} (k : reader A) (f : A -> reader B) Q p :
  rwp k (fun a p' => rwp (f a) Q p') p -> rwp (mbind f k) Q p.
Proof. unfold rwp, mbind, reader_bind, mbind, outcome_bind. by destruct (k p) as [[a p']|e|w]. Qed.

Lemma rwp_mono {A} (k : reader A) (Q R : A -> guarded_ptr -> Prop) p :
  rwp k Q p -> (forall a p', Q a p' -> R a p') -> rwp k R p.
Proof. unfold rwp. destruct (k p) as [[a p']|e|w]; auto. Qed.

Lemma ok_ret {A} (a : A) (Q : A -> Prop) : Q a -> reads_ok 0 (mret a) Q.
Proof. intros HQ p Hp. split; [by apply moved_refl|done]. Qed.

Lemma ok_bind {A B} n n' (k : reader A) (f : A -> reader B) Q R :
  reads_ok n k Q -> (forall a, Q a -> reads_ok n' (f a) R) -> reads_ok (n + n') (mbind f k) R.
Proof.
  intros Hk Hf p Hp. apply rwp_bind. eapply rwp_mono; [by apply Hk|].
  intros a q [Hm HQ]. eapply rwp_mono; [apply (Hf a HQ q); by destruct Hm|].
  intros b r [Hm' HR]. split; [by eapply moved_trans|done].
Qed.

Lemma ok_mono {A} n n' (k : reader A) (Q R : A -> Prop) :
  reads_ok n k Q -> n' <= n -> (forall a, Q a -> R a) -> reads_ok n' k R.
Proof.
  intros Hk Hn HQ p Hp. eapply rwp_mono; [by apply Hk|]. intros a q [Hm H].
  split; [by eapply moved_weaken|auto].
Qed.

Lemma ok_bind0 {A B} (k : reader A) (f : A -> reader B) Q R :
  reads_ok 0 k Q -> (forall a, Q a -> reads_ok 0 (f a) R) -> reads_ok 0 (mbind f k) R.
Proof. intros Hk Hf. exact (ok_bind 0 0 k f Q R Hk Hf). Qed.

Lemma ok_fail {A} n e (Q : A -> Prop) : reads_ok n (fail e) Q.
Proof. by intros p _. Qed.
Lemma ok_pure {A} (o : outcome A) (Q : A -> Prop) :
  match o with Ret a => Q a | Throw _ => True | UB _ => False end -> reads_ok 0 (pure_ o) Q.
Proof.
  intros H p Hp. unfold pure_, rwp. destruct o; simpl; [|done|done].
  split; [by apply moved_refl|done].
Qed.
Lemma ok_require b e : reads_ok 0 (require b e) (fun _ => b = true).
Proof. apply ok_pure. by destruct b. Qed.
Lemma ok_check b msg : reads_ok 0 (check b msg) (fun _ => b = true).
Proof. apply ok_require. Qed.

Definition is_byte (b : Z) : Prop := 0 <= b < 256.

Lemma ok_read_byte : reads_ok 1 read_byte is_byte.
Proof.
  intros p Hp. pose proof (cursor_ok_remaining p Hp) as Hb. destruct Hp as [Hw Hd].
  unfold rwp, read_byte.
  destruct (GuardedPtr.deref_incr_cases p Hw) as [[_ ->]|(b & l & Hr & -> & Hw' & _)]; [done|].
  rewrite Hr in Hb. inversion Hb; subst. split; [|done]. by constructor.
Qed.

Lemma ok_peek : reads_ok 0 peek_byte is_byte.
Proof.
  intros p Hp. unfold rwp, peek_byte, GuardedPtr.deref, EOS_VM_ASSERT.
  destruct Hp as [Hw Hd]. destruct (Z.ltb_spec (raw_ptr p) (bnds p)) as [Hlt|]; [|done].
  destruct Hw as [? ?]. destruct (nthZ_Some (data p) (raw_ptr p)) as [b Hb]; [lia|].
  simpl. rewrite Hb. simpl. split; [by apply moved_refl|].
  rewrite nthZ_lookup in Hb by lia. exact (Forall_lookup_1 _ _ _ _ Hd Hb).
Qed.

Lemma ok_skip n : 0 <= n -> reads_ok n (skip n) (fun _ => True).
Proof.
  intros Hn p [Hw Hd]. unfold rwp, skip, GuardedPtr.add, EOS_VM_ASSERT.
  destruct (Z.leb_spec n (bnds p - raw_ptr p)); [|done]. simpl. split; [|done].
destruct Hw. constructor; simpl; [done|done|lia|]. split; [unfold GuardedPtr.wf; simpl; lia|done].
Qed.

(** The integer readers *)
Lemma ok_parses (leb : list Z -> Z -> Prop) (k : reader Z) (Q : Z -> Prop) :
  (forall p, GuardedPtr.wf p -> bytes (GuardedPtr.remaining p) -> parses leb p (k p)) ->
  (forall bs v, leb bs v -> bs <> [] /\ Q v) -> reads_ok 1 k Q.
Proof.
  intros Hk HQ p Hp. pose proof (Hk p (proj1 Hp) (cursor_ok_remaining p Hp)) as [Hs Hr].
  unfold rwp. destruct (k p) as [[v p']|e|w]; [|done|done].
  destruct (proj1 (Hr v p') eq_refl) as (bs & rest & Hrem & Hl & ->).
  destruct (HQ _ _ Hl) as [Hne Hv]. split; [|done].
  pose proof (GuardedPtr.length_remaining p (proj1 Hp)) as Hlen. rewrite Hrem, length_app in Hlen.
  destruct bs as [|b bs]; [done|]. simpl length in *. destruct Hp as [Hw Hd].
  constructor; [done|done|simpl; lia|]. split; [|done]. apply GuardedPtr.advanced_wf; [done|lia].
Qed.

Lemma ok_varuint32 : reads_ok 1 parse_varuint32 (in_u 32).
Proof.
  apply (ok_parses (leb_u 32)); [exact parse_varuint32_parses|].
  intros bs v Hl. destruct (leb_u_val7 _ _ _ Hl) as (_ & ? & ?). done.
Qed.
Lemma ok_varint32 : reads_ok 1 parse_varint32 (in_s 32).
Proof.
  apply (ok_parses (leb_s 32)); [exact parse_varint32_parses|].
  intros bs v Hl. split; [by eapply leb_s_nonempty|]. by destruct (leb_s_val7 _ _ _ Hl) as (? & ?).
Qed.
Lemma ok_varint64 : reads_ok 1 parse_varint64 (in_s 64).
Proof.
  apply (ok_parses (leb_s 64)); [exact parse_varint64_parses|].
  intros bs v Hl. split; [by eapply leb_s_nonempty|]. by destruct (leb_s_val7 _ _ _ Hl) as (? & ?).
Qed.

(** The one-bit integer *)
Lemma ok_varuint1 : reads_ok 1 parse_varuint1 (fun _ => True).
Proof.
  intros p Hp. pose proof (varuint_read_spec 1 p ltac:(auto with eosvm) (proj1 Hp) (cursor_ok_remaining p Hp)) as Hr.
  unfold rwp, parse_varuint1, varuint_from.
  destruct (varuint_read 1 (leb_fuel 1) 0 p) as [st|e|w]; simpl in *; [|done|done].
  destruct Hr as (v & rest & Hr & Hl). rewrite (add_of_reads p st rest (proj1 Hp) Hr). simpl.
  split; [|done]. pose proof (GuardedPtr.length_remaining p (proj1 Hp)) as Hlen.
  rewrite Hr, length_app in Hlen. pose proof (leb_u_nonempty _ _ _ Hl).
  destruct st as [|b st]; [done|]. simpl length in *. destruct Hp as [Hw Hd].
  constructor; [done|done|simpl; lia|]. split; [|done]. apply GuardedPtr.advanced_wf; [done|lia].
Qed.

(** Raw bytes, and the guards *)
Lemma of_le_range l : bytes l -> in_u (8 * Z.of_nat (length l)) (of_le l).
Proof.
  induction 1 as [|b l Hb _ IH]; [done|]. simpl length. rewrite Nat2Z.inj_succ. simpl of_le.
  unfold in_u in *. replace (8 * Z.succ (Z.of_nat (length l))) with (8 + 8 * Z.of_nat (length l)) by lia.
  rewrite Z.pow_add_r by lia. change (2 ^ 8) with 256. lia.
Qed.

Lemma raw_bytes_ok n p :
  cursor_ok p -> 0 <= n <= bnds p - raw_ptr p ->
  exists l, raw_bytes n p = Ret l /\ bytes l /\ Z.of_nat (length l) = n.
Proof.
  intros [[Hw1 Hw2] Hd] Hn. unfold raw_bytes.
  destruct (Z.leb_spec (raw_ptr p + n) (Z.of_nat (length (data p)))); [|lia].
  eexists; split; [done|]. split; [by apply Forall_take, Forall_drop|].
  rewrite length_take, length_drop. lia.
Qed.

(** A body under [scoped_shrink_bounds(n)] has [n] bytes. *)
Lemma rwp_shrunk {A} n n' (k : reader A) (Q : A -> Prop) p :
  cursor_ok p -> 0 <= n ->
  (forall q, cursor_ok q -> bnds q = raw_ptr q + n -> rwp k (fun a q' => moved n' q q' /\ Q a) q) ->
  rwp (shrunk n k) (fun a p' => moved n' p p' /\ Q a) p.
Proof.
  intros [[Hw1 Hw2] Hd] Hn Hk. unfold rwp, shrunk, GuardedPtr.scoped_shrink_bounds, EOS_VM_ASSERT.
  destruct (Z.leb_spec n (bnds p - raw_ptr p)); [|done]. simpl.
  specialize (Hk (GuardedPtr (data p) (raw_ptr p) (raw_ptr p + n))).
  unfold rwp in Hk. destruct (k _) as [[a q']|e|w]; simpl;
    [|done|by apply Hk; [split; [unfold GuardedPtr.wf; simpl; lia|done]|done]].
  destruct Hk as [[Hm1 Hm2 Hm3 [[Hm4 Hm5] Hm6]] HQ];
    [split; [unfold GuardedPtr.wf; simpl; lia|done]|done|]. simpl in *.
  split; [|done]. constructor; simpl; [done|done|lia|].
  split; [unfold GuardedPtr.wf; simpl; rewrite Hm1; lia|by rewrite Hm1].
Qed.

Lemma ok_shrunk {A} n n' (k : reader A) (Q : A -> Prop) :
  0 <= n -> reads_ok n' k Q -> reads_ok n' (shrunk n k) Q.
Proof. intros Hn Hk p Hp. apply rwp_shrunk; [done|done|]. intros q Hq _. by apply Hk. Qed.

Lemma ok_consumed {A} n n' (k : reader A) (Q : A -> Prop) :
  0 <= n -> reads_ok n' k Q -> reads_ok n' (consumed n k) Q.
Proof.
  intros Hn Hk p Hp. pose proof (ok_shrunk n n' k Q Hn Hk p Hp) as H. revert H.
  unfold rwp, consumed, shrunk, GuardedPtr.scoped_consume_items, GuardedPtr.scoped_shrink_bounds,
    EOS_VM_ASSERT.
  destruct (n <=? bnds p - raw_ptr p); [|done]. simpl.
  destruct (k _) as [[a q']|e|w]; simpl; [|done|done].
  by destruct (raw_ptr q' =? bnds q').
Qed.

(** A guarded reader that takes the raw bytes first. *)
Lemma ok_shrunk_raw {A} n n' (f : list Z -> reader A) (Q : A -> Prop) :
  0 <= n -> (forall l, bytes l -> Z.of_nat (length l) = n -> reads_ok n' (f l) Q) ->
  reads_ok n' (shrunk n (p ← cursor; l ← pure_ (raw_bytes n p); f l)) Q.
Proof.
  intros Hn Hf p Hp. apply rwp_shrunk; [done|done|]. intros q Hq Hb.
  apply rwp_bind. unfold cursor, rwp at 1. apply rwp_bind.
  destruct (raw_bytes_ok n q Hq ltac:(lia)) as (l & Hl & Hby & Hlen).
  unfold pure_, rwp at 1. rewrite Hl. simpl. by apply Hf.
Qed.

Lemma parse_raw_shrunk n p :
  parse_raw n p = shrunk n (p ← cursor; l ← pure_ (raw_bytes n p); skip n;; mret (of_le l)) p.
Proof.
  unfold parse_raw, shrunk, GuardedPtr.scoped_shrink_bounds.
  destruct (EOS_VM_ASSERT _ _) as [[]|e|w]; simpl; [|done|done]. unfold mbind, reader_bind, cursor, pure_.
  simpl. destruct (raw_bytes _ _) as [l|e|w]; simpl; [|done|done]. unfold skip.
  by destruct (GuardedPtr.add _ _).
Qed.

Lemma parse_v128_shrunk p :
  parse_v128 p = shrunk 16 (p ← cursor; l ← pure_ (raw_bytes 16 p); skip 16;;
    mret (Op.V128 (of_le (take 8 l)) (of_le (drop 8 l)))) p.
Proof.
  unfold parse_v128, shrunk, GuardedPtr.scoped_shrink_bounds.
  destruct (EOS_VM_ASSERT _ _) as [[]|e|w]; simpl; [|done|done]. unfold mbind, reader_bind, cursor, pure_.
  simpl. destruct (raw_bytes _ _) as [l|e|w]; simpl; [|done|done]. unfold skip.
  by destruct (GuardedPtr.add _ _).
Qed.

Lemma ok_ext {A} n (k k' : reader A) Q : (forall p, k p = k' p) -> reads_ok n k' Q -> reads_ok n k Q.
Proof. intros E H p Hp. unfold rwp. rewrite E. by apply H. Qed.

Lemma ok_parse_raw n : 0 <= n -> reads_ok n (parse_raw n) (in_u (8 * n)).
Proof.
  intros Hn. eapply ok_ext; [apply parse_raw_shrunk|]. apply ok_shrunk_raw; [done|]. intros l Hl Hlen.
  rewrite <- (Z.add_0_r n) at 1. eapply ok_bind; [by apply ok_skip|]. intros _ _. apply ok_ret.
  rewrite <- Hlen. by apply of_le_range.
Qed.

Lemma ok_parse_v128 : reads_ok 16 parse_v128 (fun v => in_u 64 (Op.low v) /\ in_u 64 (Op.high v)).
Proof.
  eapply ok_ext; [apply parse_v128_shrunk|]. apply ok_shrunk_raw; [done|]. intros l Hl Hlen.
  eapply (ok_bind 16 0); [by apply ok_skip|]. intros _ _. apply ok_ret. simpl.
  assert (length (take 8 l) = 8%nat /\ length (drop 8 l) = 8%nat) as [H1 H2].
  { rewrite length_take, length_drop. lia. }
  pose proof (of_le_range (take 8 l) ltac:(by apply Forall_take)) as R1.
  pose proof (of_le_range (drop 8 l) ltac:(by apply Forall_drop)) as R2.
  by rewrite H1 in R1; rewrite H2 in R2.
Qed.

(** [n] elements *)
Lemma ok_elems {A St} (f : Z -> St -> reader (A * St)) (P : A -> Prop) (R : St -> Prop) todo i st :
  (forall i st, R st -> reads_ok 0 (f i st) (fun r => P r.1 /\ R r.2)) -> R st ->
  reads_ok 0 (parse_elems f todo i st)
    (fun r => Forall P r.1 /\ R r.2 /\ length r.1 = todo).
Proof.
  intros Hf. revert i st. induction todo as [|todo IH]; intros i st HR; simpl; [by apply ok_ret|].
  eapply ok_bind0; [by apply Hf|]. intros [a st'] [HP HR']. simpl in *.
  eapply ok_bind0; [by apply IH|]. intros [l st''] (HF & HR'' & Hlen). simpl in *.
  apply ok_ret. split_and!; [by constructor|done|simpl; congruence].
Qed.

Lemma ok_stateless {A} (k : reader A) (P : A -> Prop) i st :
  reads_ok 0 k P -> reads_ok 0 (stateless k i st) (fun r => P r.1 /\ True).
Proof. intros Hk. eapply ok_bind0; [exact Hk|]. intros a Ha. by apply ok_ret. Qed.

Lemma ok_many {A} (k : reader A) (P : A -> Prop) n :
  reads_ok 0 k P -> 0 <= n -> reads_ok 0 (parse_many k n) (fun l => Forall P l /\ Z.of_nat (length l) = n).
Proof.
  intros Hk Hn. unfold parse_many.
  eapply ok_bind0; [apply (ok_elems _ P (fun _ => True)); [intros; by apply ok_stateless|done]|].
  intros [l st] (HF & _ & Hlen). apply ok_ret. simpl in *. split; [done|lia].
Qed.
