(* ===== verification/Utf8.v ===== *)
(** * UTF-8 names (parser.hpp, [parse_utf8_string])

    The reference is the encoding of scalar values; the validator of the parser
    accepts a name exactly when it is the encoding of a list of them. *)
From S2P Require Import Prelude GuardedPtr Leb128 Validation FunctionBody Parser ReaderProofs.
Import GuardedPtr(advanced, remaining).

(** ** The encoding *)
Definition scalar (c : Z) : Prop := 0 <= c < 0xD800 \/ 0xE000 <= c < 0x110000.

Definition encode_utf8 (c : Z) : list Z :=
  if c <? 0x80 then [c]
  else if c <? 0x800 then [0xC0 + c / 64; 0x80 + c mod 64]
  else if c <? 0x10000 then [0xE0 + c / 4096; 0x80 + c / 64 mod 64; 0x80 + c mod 64]
  else [0xF0 + c / 262144; 0x80 + c / 4096 mod 64; 0x80 + c / 64 mod 64; 0x80 + c mod 64].

Definition utf8 (l : list Z) : Prop :=
  exists cs, Forall scalar cs /\ l = mjoin (encode_utf8 <$> cs).

Lemma utf8_nil : utf8 [].
Proof. by exists []. Qed.
Lemma utf8_cons c l : scalar c -> utf8 l -> utf8 (encode_utf8 c ++ l).
Proof. intros Hc (cs & Hcs & ->). exists (c :: cs). split; [by constructor|done]. Qed.

Lemma encode_utf8_length c : (1 <= length (encode_utf8 c) <= 4)%nat.
Proof. unfold encode_utf8. repeat case_match; simpl; lia. Qed.

(** ** Decoding one scalar value of a list of bytes *)
Definition cont (b : Z) : bool := (128 <=? b) && (b <? 192).

(** The value and the length of the encoding at the head of the input. *)
Definition decode_utf8 (l : list Z) : option (Z * Z) :=
  match l with
  | [] => None
  | ch :: l =>
      if ch <? 0x80 then Some (ch, 1)
      else if ch <? 0xC0 then None
      else if ch <? 0xE0 then
        match l with
        | b2 :: _ =>
            let c := (ch - 0xC0) * 64 + (b2 - 128) in
            if cont b2 && (0x80 <=? c) then Some (c, 2) else None
        | _ => None
        end
      else if ch <? 0xF0 then
        match l with
        | b2 :: b3 :: _ =>
            let c := (ch - 0xE0) * 4096 + (b2 - 128) * 64 + (b3 - 128) in
            if cont b2 && cont b3 && (((0x800 <=? c) && (c <? 0xD800)) || (0xE000 <=? c))
            then Some (c, 3) else None
        | _ => None
        end
      else if ch <? 0xF8 then
        match l with
        | b2 :: b3 :: b4 :: _ =>
            let c := (ch - 0xF0) * 262144 + (b2 - 128) * 4096 + (b3 - 128) * 64 + (b4 - 128) in
            if cont b2 && cont b3 && cont b4 && ((0x10000 <=? c) && (c <? 0x110000))
            then Some (c, 4) else None
        | _ => None
        end
      else None
  end.

Ltac euclid := Z.div_mod_to_equations; lia.

Lemma cont_spec b : cont b = true <-> 128 <= b < 192.
Proof. unfold cont. rewrite andb_true_iff, Z.leb_le, Z.ltb_lt. lia. Qed.

Ltac conts :=
  repeat match goal with
  | H : _ && _ = true |- _ => apply andb_prop in H as [? ?]
  | H : cont _ = true |- _ => apply cont_spec in H
  | H : _ || _ = true |- _ => apply orb_prop in H
  end; destruct_bools.

(** The bytes of an encoding, one by one *)
Ltac cells := eexists; simpl; repeat first [reflexivity | apply (f_equal2 cons); [euclid|]].

Lemma decode_sound l c n :
  bytes l -> decode_utf8 l = Some (c, n) ->
  scalar c /\ n = Z.of_nat (length (encode_utf8 c)) /\ exists rest, l = encode_utf8 c ++ rest.
Proof.
  unfold decode_utf8, scalar. intros Hl H.
  repeat (case_match; try discriminate); simplify_eq; conts;
    inversion Hl as [|? ? Hb Hl']; subst; unfold encode_utf8.
  - destruct (Z.ltb_spec c 128); [|lia]. split; [lia|]. split; [done|]. by eexists.
  - set (c := (z - 192) * 64 + (z0 - 128)) in *.
    destruct (Z.ltb_spec c 128), (Z.ltb_spec c 2048); try lia. split; [lia|]. split; [done|].
    cells.
  - set (c := (z - 224) * 4096 + (z0 - 128) * 64 + (z1 - 128)) in *.
    match goal with H : _ \/ _ |- _ => destruct H end; conts;
    (destruct (Z.ltb_spec c 128), (Z.ltb_spec c 2048), (Z.ltb_spec c 65536); try lia;
     split; [lia|]; split; [done|];
     cells).
  - set (c := (z - 240) * 262144 + (z0 - 128) * 4096 + (z1 - 128) * 64 + (z2 - 128)) in *.
    destruct (Z.ltb_spec c 128), (Z.ltb_spec c 2048), (Z.ltb_spec c 65536); try lia.
    split; [lia|]. split; [done|].
    cells.
Qed.

Lemma decode_complete c rest :
  scalar c -> decode_utf8 (encode_utf8 c ++ rest) = Some (c, Z.of_nat (length (encode_utf8 c))).
Proof.
  unfold scalar, encode_utf8. intros Hc.
  destruct (Z.ltb_spec c 128); simpl; [by destruct (Z.ltb_spec c 128); [|lia]|].
  assert (Hm : forall x, cont (128 + x mod 64) = true)
    by (intros x; apply cont_spec; pose proof (Z.mod_pos_bound x 64); lia).
  assert (Hs : forall (b : bool) (x y n : Z), b = true -> x = y ->
    (if b then Some (x, n) else None) = Some (y, n)) by (by intros ? ? ? ? -> ->).
  destruct (Z.ltb_spec c 2048); simpl; [|destruct (Z.ltb_spec c 65536); simpl].
  - pose proof (Z.div_le_lower_bound c 64 2). pose proof (Z.div_lt_upper_bound c 64 32).
    destruct (Z.ltb_spec (192 + c / 64) 128); [lia|]. destruct (Z.ltb_spec (192 + c / 64) 192); [lia|].
    destruct (Z.ltb_spec (192 + c / 64) 224); [|lia]. apply Hs; [rewrite Hm|]; simpl; euclid.
  - pose proof (Z.div_lt_upper_bound c 4096 16). pose proof (Z.div_pos c 4096).
    destruct (Z.ltb_spec (224 + c / 4096) 128); [lia|]. destruct (Z.ltb_spec (224 + c / 4096) 192); [lia|].
    destruct (Z.ltb_spec (224 + c / 4096) 224); [lia|]. destruct (Z.ltb_spec (224 + c / 4096) 240); [|lia].
    assert (E : (224 + c / 4096 - 224) * 4096 + (128 + c / 64 mod 64 - 128) * 64 + (128 + c mod 64 - 128) = c)
      by euclid.
    apply Hs; [|done]. rewrite E, !Hm. simpl. lia.
  - pose proof (Z.div_lt_upper_bound c 262144 5). pose proof (Z.div_pos c 262144).
    destruct (Z.ltb_spec (240 + c / 262144) 128); [lia|]. destruct (Z.ltb_spec (240 + c / 262144) 192); [lia|].
    destruct (Z.ltb_spec (240 + c / 262144) 224); [lia|]. destruct (Z.ltb_spec (240 + c / 262144) 240); [lia|].
    destruct (Z.ltb_spec (240 + c / 262144) 248); [|lia].
    assert (E : (240 + c / 262144 - 240) * 262144 + (128 + c / 4096 mod 64 - 128) * 4096 +
      (128 + c / 64 mod 64 - 128) * 64 + (128 + c mod 64 - 128) = c) by euclid.
    apply Hs; [|done]. rewrite E, !Hm. simpl. lia.
Qed.

(** ** The validator decodes *)

(** On [q] the reader returns a result after [n] bytes, or throws. *)
Definition runs_to {A} (k : reader A) (q : guarded_ptr) (o : option (A * Z)) : Prop :=
  match o with
  | Some (a, n) => k q = Ret (a, advanced q n)
  | None => exists e, k q = Throw e
  end.

Lemma advanced_advanced p a b : advanced (advanced p a) b = advanced p (a + b).
Proof. unfold advanced. simpl. f_equal. lia. Qed.

Lemma cursor_advanced q b l :
  cursor_ok q -> remaining q = b :: l ->
  cursor_ok (advanced q 1) /\ remaining (advanced q 1) = l /\ is_byte b.
Proof.
  intros Hq Hr. pose proof (cursor_ok_remaining q Hq) as Hb. rewrite Hr in Hb. inversion Hb; subst.
  pose proof (GuardedPtr.length_remaining q (proj1 Hq)) as Hl. rewrite Hr in Hl. simpl in Hl.
  split; [split|]; [apply GuardedPtr.advanced_wf; [apply Hq|lia]|apply Hq|].
  rewrite GuardedPtr.remaining_advanced, Hr by (apply Hq || lia). done.
Qed.

Lemma read_byte_cons q b l :
  cursor_ok q -> remaining q = b :: l -> read_byte q = Ret (b, advanced q 1).
Proof.
  intros Hq Hr. unfold read_byte.
  destruct (GuardedPtr.deref_incr_cases q (proj1 Hq)) as [[E _]|(b' & l' & E & -> & _)]; congruence.
Qed.
Lemma read_byte_nil q : cursor_ok q -> remaining q = [] -> exists e, read_byte q = Throw e.
Proof.
  intros Hq Hr. unfold read_byte.
  destruct (GuardedPtr.deref_incr_cases q (proj1 Hq)) as [[_ ->]|(b' & l' & E & _)]; [by eexists|congruence].
Qed.

Definition shift {A} (o : option (A * Z)) : option (A * Z) :=
  match o with Some (a, n) => Some (a, n + 1) | None => None end.

Lemma runs_to_step {A} (k : reader Z) (f : Z -> reader A) x q o :
  k q = Ret (x, advanced q 1) -> runs_to (f x) (advanced q 1) o -> runs_to (b ← k; f b) q (shift o).
Proof.
  intros Hk Ho. unfold runs_to, mbind, reader_bind in *. rewrite Hk. simpl.
  destruct o as [[a n]|]; simpl; [|done]. rewrite Ho, advanced_advanced. do 3 f_equal. lia.
Qed.

Lemma continuation_spec q :
  cursor_ok q ->
  runs_to continuation q
    match remaining q with b :: _ => if cont b then Some (b - 128, 1) else None | [] => None end.
Proof.
  intros Hq. unfold runs_to, continuation, mbind, reader_bind. destruct (remaining q) as [|b l] eqn:E.
  - destruct (read_byte_nil q Hq E) as [e He]. exists e. by rewrite He.
  - rewrite (read_byte_cons q b l Hq E). destruct (cursor_advanced q b l Hq E) as (_ & _ & Hby).
    simpl. unfold reader_bind, check, require, pure_, EOS_VM_ASSERT.
    pose proof (byte_forall (fun b => Bool.eqb (Z.land b 192 =? 128) (cont b)) eq_refl b Hby) as Hf.
    apply Bool.eqb_prop in Hf. rewrite Hf. destruct (cont b) eqn:Hc; simpl; [|by eexists].
    apply cont_spec in Hc. by rewrite wrap_small by (unfold in_u; lia).
Qed.

(** Reading one continuation byte and going on *)
Lemma continuation_bind {A} (f : Z -> reader A) (o : Z -> list Z -> option (A * Z)) q :
  cursor_ok q ->
  (forall b l, remaining q = b :: l -> cont b = true ->
     runs_to (f (b - 128)) (advanced q 1) (o b (remaining (advanced q 1)))) ->
  runs_to (b ← continuation; f b) q
    match remaining q with b :: l => if cont b then shift (o b l) else None | [] => None end.
Proof.
  intros Hq Ho. pose proof (continuation_spec q Hq) as Hc. unfold runs_to in Hc.
  destruct (remaining q) as [|b l] eqn:E.
  - destruct Hc as [e He]. exists e. unfold mbind, reader_bind. by rewrite He.
  - destruct (cont b) eqn:Hcb; [|destruct Hc as [e He]; exists e; unfold mbind, reader_bind; by rewrite He].
    destruct (cursor_advanced q b l Hq E) as (_ & Hl & _).
    rewrite <- Hl. by eapply runs_to_step; [|apply (Ho b l)].
Qed.

Lemma check_ret (b : bool) msg (q : guarded_ptr) (x : Z) :
  runs_to (check b msg;; mret x) q (if b then Some (x, 0) else None).
Proof.
  destruct b; simpl; [|by eexists]. unfold mbind, reader_bind. simpl.
  f_equal. f_equal. unfold advanced. rewrite Z.add_0_r. by destruct q.
Qed.

Lemma shiftl_wrap x k : 0 <= x < 64 -> 0 <= k <= 18 -> wrap 32 (Z.shiftl x k) = x * 2 ^ k.
Proof.
  intros Hx Hk. rewrite Z.shiftl_mul_pow2 by lia. apply wrap_small.
  pose proof (Z.pow_le_mono_r 2 k 18 ltac:(lia) ltac:(lia)).
  pose proof (Z.pow_pos_nonneg 2 k ltac:(lia) ltac:(lia)).
  unfold in_u. change (2 ^ 18) with 262144 in *. nia.
Qed.

(** The three longer encodings *)
Definition checked (b : bool) (n : Z) : option (Z * Z) := if b then Some (n, 0) else None.
Definition with_cont (o : Z -> list Z -> option (Z * Z)) (l : list Z) : option (Z * Z) :=
  match l with b :: l => if cont b then shift (o b l) else None | [] => None end.

Lemma ret_spec (x : Z) q : runs_to (mret x) q (Some (x, 0)).
Proof. simpl. f_equal. f_equal. unfold advanced. rewrite Z.add_0_r. by destruct q. Qed.

Lemma check_spec (b b' : bool) msg n q : b = b' -> runs_to (check b msg;; mret n) q (checked b' n).
Proof. intros ->. apply check_ret. Qed.

Lemma cont_range b : cont b = true -> 0 <= b - 128 < 64.
Proof. intros ?%cont_spec. lia. Qed.

(** One more continuation byte: its six bits are [Hx], the input after it [Hq]. *)
Ltac next_cont :=
  eapply continuation_bind; [assumption|];
  let Hr := fresh "Hr" in let Hc := fresh "Hc" in intros ? ? Hr Hc;
  match goal with Hq : cursor_ok ?q, Hr : remaining ?q = _ |- _ =>
    destruct (cursor_advanced q _ _ Hq Hr) as (? & ? & _) end;
  apply cont_range in Hc.

Lemma two_bytes ch q :
  cursor_ok q -> 192 <= ch < 224 ->
  runs_to (b2 ← continuation;
    let code_point := wrap 32 (wrap 32 (Z.shiftl (wrap 32 (ch - 0xC0)) 6) + b2) in
    check ((0x80 <=? code_point) && (code_point <? 0x800)) "invalid utf8 encoding";;
    mret 2) q
  (with_cont (fun b2 _ => checked (0x80 <=? (ch - 0xC0) * 64 + (b2 - 128)) 2) (remaining q)).
Proof.
  intros Hq Hch. next_cont. apply check_spec.
  rewrite (wrap_small 32 (ch - 192)) by (unfold in_u; lia).
  rewrite shiftl_wrap by lia. rewrite wrap_small by (unfold in_u; lia). change (2 ^ 6) with 64.
  zcases; simpl; lia.
Qed.

Lemma three_bytes ch q :
  cursor_ok q -> 224 <= ch < 240 ->
  runs_to (b2 ← continuation; b3 ← continuation;
    let code_point := wrap 32 (wrap 32 (Z.shiftl (wrap 32 (ch - 0xE0)) 12) +
                               wrap 32 (Z.shiftl b2 6) + b3) in
    check (((0x800 <=? code_point) && (code_point <? 0xD800)) ||
           ((0xE000 <=? code_point) && (code_point <? 0x10000))) "invalid utf8 encoding";;
    mret 3) q
  (with_cont (fun b2 => with_cont (fun b3 _ =>
     let c := (ch - 0xE0) * 4096 + (b2 - 128) * 64 + (b3 - 128) in
     checked (((0x800 <=? c) && (c <? 0xD800)) || (0xE000 <=? c)) 3)) (remaining q)).
Proof.
  intros Hq Hch. next_cont. next_cont. apply check_spec.
  rewrite (wrap_small 32 (ch - 224)) by (unfold in_u; lia).
  rewrite !shiftl_wrap by lia. rewrite wrap_small by (unfold in_u; lia).
  change (2 ^ 6) with 64. change (2 ^ 12) with 4096. zcases; simpl; lia.
Qed.

Lemma four_bytes ch q :
  cursor_ok q -> 240 <= ch < 248 ->
  runs_to (b2 ← continuation; b3 ← continuation; b4 ← continuation;
    let code_point := wrap 32 (wrap 32 (Z.shiftl (wrap 32 (ch - 0xF0)) 18) +
                               wrap 32 (Z.shiftl b2 12) + wrap 32 (Z.shiftl b3 6) + b4) in
    check ((0x10000 <=? code_point) && (code_point <? 0x110000)) "invalid utf8 encoding";;
    mret 4) q
  (with_cont (fun b2 => with_cont (fun b3 => with_cont (fun b4 _ =>
     let c := (ch - 0xF0) * 262144 + (b2 - 128) * 4096 + (b3 - 128) * 64 + (b4 - 128) in
     checked ((0x10000 <=? c) && (c <? 0x110000)) 4))) (remaining q)).
Proof.
  intros Hq Hch. next_cont. next_cont. next_cont. apply check_spec.
  rewrite (wrap_small 32 (ch - 240)) by (unfold in_u; lia).
  rewrite !shiftl_wrap by lia. rewrite wrap_small by (unfold in_u; lia). done.
Qed.

Lemma code_point_spec q :
  cursor_ok q ->
  runs_to validate_utf8_code_point q
    match decode_utf8 (remaining q) with Some (_, n) => Some (n, n) | None => None end.
Proof.
  intros Hq. unfold validate_utf8_code_point. destruct (remaining q) as [|ch l] eqn:E.
  { destruct (read_byte_nil q Hq E) as [e He]. exists e. unfold mbind, reader_bind. by rewrite He. }
  destruct (cursor_advanced q ch l Hq E) as (Hq1 & Hr1 & Hch). unfold is_byte in Hch.
  assert (Hstep : forall (f : Z -> reader Z) o o',
    runs_to (f ch) (advanced q 1) o -> shift o = o' -> runs_to (ch ← read_byte; f ch) q o').
  { intros f o o' Ho <-. by eapply runs_to_step; [apply (read_byte_cons q ch l)|]. }
  assert (Hlow : ch < 224 -> (Z.land ch 192 =? 192) = (192 <=? ch) || (ch <? 0)).
  { intros Hlt. pose proof (byte_forall (fun ch => implb (ch <? 224)
      (Bool.eqb (Z.land ch 192 =? 192) ((192 <=? ch) || (ch <? 0)))) eq_refl ch Hch) as Hf.
    cbv beta in Hf. destruct (Z.ltb_spec ch 224); [|lia]. by apply Bool.eqb_prop in Hf. }
  unfold decode_utf8. destruct (Z.ltb_spec ch 128) as [H1|H1].
  { eapply (Hstep _ (Some (1, 0))); [|done]. cbv beta. destruct (Z.ltb_spec ch 128); [apply ret_spec|lia]. }
  destruct (Z.ltb_spec ch 192) as [H2|H2].
  { eapply (Hstep _ None); [|done]. cbv beta.
    destruct (Z.ltb_spec ch 128), (Z.ltb_spec ch 224); try lia. rewrite Hlow by lia.
    destruct (Z.leb_spec 192 ch); [lia|]. destruct (Z.ltb_spec ch 0); [lia|]. by eexists. }
  destruct (Z.ltb_spec ch 224) as [H3|H3]; [|destruct (Z.ltb_spec ch 240) as [H4|H4];
    [|destruct (Z.ltb_spec ch 248) as [H5|H5]]].
  - eapply Hstep; cbv beta.
    + destruct (Z.ltb_spec ch 128), (Z.ltb_spec ch 224); try lia. rewrite Hlow by lia.
      destruct (Z.leb_spec 192 ch); [|lia]. apply two_bytes; [done|lia].
    + rewrite Hr1. destruct l as [|b2 l]; [done|]. simpl. destruct (cont b2); [|done].
      simpl. unfold checked. by destruct (128 <=? _).
  - eapply Hstep; cbv beta.
    + destruct (Z.ltb_spec ch 128), (Z.ltb_spec ch 224), (Z.ltb_spec ch 240); try lia.
      apply three_bytes; [done|lia].
    + rewrite Hr1. destruct l as [|b2 [|b3 l]]; simpl; try done; destruct (cont b2); try done.
      simpl. destruct (cont b3); [|done]. simpl. unfold checked. by case_match.
  - eapply Hstep; cbv beta.
    + destruct (Z.ltb_spec ch 128), (Z.ltb_spec ch 224), (Z.ltb_spec ch 240), (Z.ltb_spec ch 248); try lia.
      apply four_bytes; [done|lia].
    + rewrite Hr1. destruct l as [|b2 [|b3 [|b4 l]]]; simpl; try done; destruct (cont b2); try done;
        simpl; destruct (cont b3); try done. simpl. destruct (cont b4); [|done].
      simpl. unfold checked. by case_match.
  - eapply (Hstep _ None); [|done]. cbv beta.
    destruct (Z.ltb_spec ch 128), (Z.ltb_spec ch 224), (Z.ltb_spec ch 240), (Z.ltb_spec ch 248); try lia.
    by eexists.
Qed.

(** ** The whole string *)

(** The loop, run on exactly the bytes of the string *)
Lemma utf8_loop_spec fuel q :
  cursor_ok q -> (length (remaining q) < fuel)%nat -> Z.of_nat (length (remaining q)) < 2 ^ 32 ->
  (utf8 (remaining q) /\
     validate_utf8_loop fuel (Z.of_nat (length (remaining q))) q =
       Ret (tt, advanced q (Z.of_nat (length (remaining q))))) \/
  (~ utf8 (remaining q) /\
     exists e, validate_utf8_loop fuel (Z.of_nat (length (remaining q))) q = Throw e).
Proof.
  revert q. induction fuel as [|fuel IH]; intros q Hq Hf Hb; [lia|].
  pose proof (code_point_spec q Hq) as Hc. cbn [validate_utf8_loop].
  destruct (Z.eqb_spec (Z.of_nat (length (remaining q))) 0) as [H0|H0].
  { left. destruct (remaining q) eqn:E; [|simpl in H0; lia]. split; [apply utf8_nil|].
    simpl. unfold advanced. rewrite Z.add_0_r. by destruct q. }
  destruct (decode_utf8 (remaining q)) as [[c n]|] eqn:Hd.
  - destruct (decode_sound _ _ _ (cursor_ok_remaining q Hq) Hd) as (Hs & -> & rest & Hr).
    set (k := Z.of_nat (length (encode_utf8 c))) in *.
    assert (Hk : 1 <= k <= 4) by (pose proof (encode_utf8_length c); unfold k; lia).
    assert (Hlen : Z.of_nat (length (remaining q)) = k + Z.of_nat (length rest))
      by (rewrite Hr, length_app; unfold k; lia).
    pose proof (GuardedPtr.length_remaining q (proj1 Hq)) as Hl.
    assert (Hq' : cursor_ok (advanced q k)).
    { split; [apply GuardedPtr.advanced_wf; [apply Hq|lia]|apply Hq]. }
    assert (Hr' : remaining (advanced q k) = rest).
    { rewrite GuardedPtr.remaining_advanced, Hr by (apply Hq || lia). unfold k.
      rewrite Nat2Z.id. apply drop_app_length. }
    unfold mbind, reader_bind. simpl in Hc. rewrite Hc. simpl.
    rewrite wrap_small by (unfold in_u; lia). rewrite Hlen.
    replace (k + Z.of_nat (length rest) - k) with (Z.of_nat (length rest)) by lia.
    rewrite <- Hr'. destruct (IH (advanced q k) Hq') as [[Hu Hret]|[Hn [e He]]]; [rewrite Hr'; lia..| |].
    + left. rewrite Hr' in *. split; [rewrite Hr; by apply utf8_cons|].
      rewrite Hret. by rewrite advanced_advanced.
    + right. split; [|by exists e]. intros (cs & Hcs & Heq). apply Hn. rewrite Hr'.
      destruct cs as [|c' cs]; [by rewrite Heq in H0|]. inversion Hcs; subst.
      change (remaining q = encode_utf8 c' ++ mjoin (encode_utf8 <$> cs)) in Heq.
      pose proof (decode_complete c' (mjoin (encode_utf8 <$> cs)) ltac:(done)) as Hd'.
      rewrite <- Heq, Hd in Hd'. injection Hd' as <- _. exists cs. split; [done|].
      rewrite Hr in Heq. by apply app_inv_head in Heq.
  - right. destruct Hc as [e He]. split.
    + intros (cs & Hcs & Heq). destruct cs as [|c cs]; [by rewrite Heq in H0|].
      inversion Hcs; subst.
      change (remaining q = encode_utf8 c ++ mjoin (encode_utf8 <$> cs)) in Heq. rewrite Heq, decode_complete in Hd by done. done.
    + exists e. unfold mbind, reader_bind. by rewrite He.
Qed.

(** The guarded part of [parse_utf8_string] *)
Definition utf8_body (len : Z) : reader (list Z) :=
  shrunk len (p ← cursor; result ← pure_ (raw_bytes len p); validate_utf8_string len;; mret result).

Lemma utf8_body_spec len p :
  cursor_ok p -> in_u 32 len ->
  let s := take (Z.to_nat len) (remaining p) in
  (len <= bnds p - raw_ptr p /\ utf8 s /\ utf8_body len p = Ret (s, advanced p len)) \/
  (~ (len <= bnds p - raw_ptr p /\ utf8 s) /\ exists e, utf8_body len p = Throw e).
Proof.
  intros Hp Hlen s. pose proof Hp as [[Hw1 Hw2] Hd]. unfold in_u in Hlen.
  unfold utf8_body, shrunk, GuardedPtr.scoped_shrink_bounds, EOS_VM_ASSERT.
  destruct (Z.leb_spec len (bnds p - raw_ptr p)) as [Hle|]; [|right; split; [lia|by eexists]].
  set (q := GuardedPtr (data p) (raw_ptr p) (raw_ptr p + len)).
  assert (Hq : cursor_ok q) by (split; [unfold GuardedPtr.wf; simpl; lia|done]).
  assert (Hs : remaining q = s).
  { unfold s, remaining. simpl. rewrite take_drop_commute, take_take. do 2 f_equal. lia. }
  assert (Hlq : Z.of_nat (length (remaining q)) = len)
    by (rewrite GuardedPtr.length_remaining by apply Hq; simpl; lia).
  assert (Hraw : raw_bytes len q = Ret s).
  { unfold raw_bytes. simpl. destruct (Z.leb_spec (raw_ptr p + len) (Z.of_nat (length (data p)))); [|lia].
    rewrite <- Hs. unfold remaining. simpl. f_equal.
    rewrite take_drop_commute. do 2 f_equal. lia. }
  destruct (utf8_loop_spec (S (Z.to_nat len)) q Hq) as [[Hu Hr]|[Hn [e He]]]; [lia..| |];
    rewrite Hs in Hu || rewrite Hs in Hn.
  - left. split; [done|]. split; [done|]. unfold mbind, reader_bind, cursor, pure_. simpl.
    rewrite Hraw. simpl. unfold validate_utf8_string. rewrite <- Hlq at 2. rewrite Hr. simpl.
    rewrite Hlq. done.
  - right. split; [tauto|]. exists e. unfold mbind, reader_bind, cursor, pure_. simpl.
    rewrite Hraw. simpl. unfold validate_utf8_string. rewrite <- Hlq at 2. by rewrite He.
Qed.

(** C28. Names: on any input, [parse_utf8_string] returns [s] precisely when the
    input starts with an unsigned LEB128 length, at most the limit, followed by
    that many bytes [s] that are the UTF-8 encoding of a list of Unicode scalar
    values (so no overlong form, no surrogate, nothing above U+10FFFF, no truncated
    sequence), and then the cursor is just behind [s]; it never reads outside its
    bounds. *)
Theorem parse_utf8_string_correct max_size p :
  cursor_ok p -> max_size < 2 ^ 32 ->
  ret_safe (parse_utf8_string max_size p) /\
  forall s p', parse_utf8_string max_size p = Ret (s, p') <->
    exists bs rest, remaining p = bs ++ s ++ rest /\ leb_u 32 bs (Z.of_nat (length s)) /\
      Z.of_nat (length s) <= max_size /\ utf8 s /\
      p' = advanced p (Z.of_nat (length bs + length s)).
Proof.
  intros Hp Hmax. pose proof (parse_varuint32_parses p (proj1 Hp) (cursor_ok_remaining p Hp)) as [Hs Hv].
  change (parse_utf8_string max_size)
    with (len ← parse_varuint32; check (len <=? max_size) "name too long";; utf8_body len).
  unfold mbind, reader_bind. destruct (parse_varuint32 p) as [[len p1]|e|w]; simpl in *; [| |done].
  2:{ split; [done|]. intros s p'. split; [done|]. intros (bs & rest & Hr & Hl & _).
      assert (Throw e = Ret (Z.of_nat (length s), advanced p (Z.of_nat (length bs)))); [|done].
      apply Hv. eauto. }
  destruct (proj1 (Hv len p1) eq_refl) as (bs & rest & Hr & Hl & ->).
  pose proof (leb_u_val7 _ _ _ Hl) as (_ & Hlen & _).
  set (k := Z.of_nat (length bs)) in *.
  pose proof (GuardedPtr.length_remaining p (proj1 Hp)) as Hlp. rewrite Hr, length_app in Hlp.
  assert (Hp1 : cursor_ok (advanced p k)) by (split; [apply GuardedPtr.advanced_wf; [apply Hp|lia]|apply Hp]).
  assert (Hrem : remaining (advanced p k) = rest).
  { rewrite GuardedPtr.remaining_advanced, Hr by (apply Hp || lia). unfold k.
    rewrite Nat2Z.id. apply drop_app_length. }
  assert (Huniq : forall s, (exists bs' rest', bs ++ rest = bs' ++ s ++ rest' /\
      leb_u 32 bs' (Z.of_nat (length s))) ->
      s = take (Z.to_nat len) rest /\ len <= Z.of_nat (length rest) /\ Z.of_nat (length s) = len).
  { intros s (bs' & rest' & Heq & Hl').
    destruct (leb_u_prefix _ _ _ _ _ _ _ Hl Hl' Heq) as [-> ->].
    apply app_inv_head in Heq. rewrite Heq, Nat2Z.id, take_app_length, length_app. split; [done|lia]. }
  rewrite Hr. destruct (utf8_body_spec len (advanced p k) Hp1 Hlen) as [(Hle & Hu & Hret)|[Hn [e He]]];
    rewrite Hrem in *; simpl in *.
  - unfold check, require, pure_, EOS_VM_ASSERT. destruct (Z.leb_spec len max_size) as [Hm|Hm]; simpl.
    + rewrite Hret. split; [done|]. intros s p'. split.
      * intros [= <- <-]. exists bs, (drop (Z.to_nat len) rest).
        rewrite take_drop, length_take. split; [done|]. unfold in_u in Hlen.
        replace (Z.of_nat (Z.to_nat len `min` length rest)) with len by lia.
        split_and!; [done|done|done|]. rewrite advanced_advanced. f_equal. lia.
      * intros (bs' & rest' & Heq & Hl' & _ & _ & ->).
        destruct (Huniq s) as (-> & _ & Hls); [eauto|]. do 2 f_equal.
        rewrite advanced_advanced. f_equal.
        destruct (leb_u_prefix _ _ _ _ _ _ _ Hl Hl' Heq) as [-> _]. unfold k. lia.
    + split; [done|]. intros s p'. split; [done|]. intros (bs' & rest' & Heq & Hl' & Hle' & _).
      destruct (Huniq s) as (_ & _ & Hls); [eauto|]. lia.
  - unfold check, require, pure_, EOS_VM_ASSERT. destruct (len <=? max_size); simpl.
    + rewrite He. split; [done|]. intros s p'. split; [done|].
      intros (bs' & rest' & Heq & Hl' & _ & Hu & _).
      destruct (Huniq s) as (-> & Hls & _); [eauto|]. exfalso. apply Hn. split; [lia|done].
    + split; [done|]. intros s p'. split; [done|]. intros (bs' & rest' & Heq & Hl' & _ & Hu & _).
      destruct (Huniq s) as (-> & Hls & _); [eauto|]. exfalso. apply Hn. split; [lia|done].
Qed.

(** "é€" and what is left of the input *)
Lemma parse_utf8_string_correct_witness :
  parse_utf8_string 16 (GuardedPtr.of_buffer [5; 0xC3; 0xA9; 0xE2; 0x82; 0xAC; 7]) =
    Ret ([0xC3; 0xA9; 0xE2; 0x82; 0xAC], GuardedPtr [5; 0xC3; 0xA9; 0xE2; 0x82; 0xAC; 7] 6 7) /\
  ~ utf8 [0xC0; 0x80].
Proof.
  split.
  - apply (parse_utf8_string_correct 16 (GuardedPtr.of_buffer [5; 0xC3; 0xA9; 0xE2; 0x82; 0xAC; 7])).
    + apply cursor_of_buffer. by_compute.
    + reflexivity.
    + exists [5], [7]. split; [reflexivity|]. split; [constructor; simpl; lia|]. split; [simpl; lia|].
      split; [|reflexivity]. exists [0xE9; 0x20AC]. split; [|reflexivity].
      repeat constructor; unfold scalar; lia.
  - intros Hu.
    assert (H : exists p', parse_utf8_string 16 (GuardedPtr.of_buffer [2; 0xC0; 0x80]) = Ret ([0xC0; 0x80], p')).
    { eexists. apply (parse_utf8_string_correct 16 (GuardedPtr.of_buffer [2; 0xC0; 0x80])).
      - apply cursor_of_buffer. by_compute.
      - reflexivity.
      - exists [2], []. split; [reflexivity|]. split; [constructor; simpl; lia|]. split; [simpl; lia|].
        split; [exact Hu|reflexivity]. }
    destruct H as [p' H]. vm_compute in H. discriminate H.
Defined.
