(* ===== verification/WriterLaws.v ===== *)
(** * What the parser may assume of a writer (bitcode_writer.hpp, null_writer.hpp)

    [WriterOk] states the contract between the parser and a writer: under the
    writer's invariant no operation the parser calls has undefined behaviour, and
    the branches it hands out stay valid until they are fixed.  Both writers
    implement it. *)
From S2P Require Import Prelude Allocator Opcodes Types Validation Writers.
Import Op(opcode).

(** A computation without undefined behaviour whose results satisfy [Q]. *)
Abbreviation safe m Q s := (wp m Q (fun _ _ => True) s).

(** The operations that take no branch and return nothing. *)
Inductive plain {W} `{wr : Writer W} : M W unit -> Prop :=
  | plain_unreachable : plain emit_unreachable
  | plain_nop : plain emit_nop
  | plain_block : plain emit_block
  | plain_call ft n : plain (emit_call ft n)
  | plain_call_indirect ft n : plain (emit_call_indirect ft n)
  | plain_drop t : plain (emit_drop t)
  | plain_select t : plain (emit_select t)
  | plain_get_local x t : plain (emit_get_local x t)
  | plain_set_local x t : plain (emit_set_local x t)
  | plain_tee_local x t : plain (emit_tee_local x t)
  | plain_get_global x : plain (emit_get_global x)
  | plain_set_global x : plain (emit_set_global x)
  | plain_memory o a off : plain (emit_memory o a off)
  | plain_memory_size o : plain (emit_memory_size o)
  | plain_i32_const v : plain (emit_i32_const v)
  | plain_i64_const v : plain (emit_i64_const v)
  | plain_f32_const v : plain (emit_f32_const v)
  | plain_f64_const v : plain (emit_f64_const v)
  | plain_comparison o : plain (emit_comparison o)
  | plain_numeric o : plain (emit_numeric o)
  | plain_conversion o : plain (emit_conversion o)
  | plain_data o x : plain (emit_data o x)
  | plain_ext o : plain (emit_ext o)
  | plain_vec_memory o a off : plain (emit_vec_memory o a off)
  | plain_vec_lane_memory o a off l : plain (emit_vec_lane_memory o a off l)
  | plain_v128_const v : plain (emit_v128_const v)
  | plain_shuffle l : plain (emit_i8x16_shuffle l)
  | plain_vec_lane o l : plain (emit_vec_lane o l)
  | plain_vec_numeric o : plain (emit_vec_numeric o).
Create HintDb plain.
#[export] Hint Constructors plain : plain.

(** [winv]: the invariant while a function is compiled.  [bok w b]: the branch [b]
    may be fixed.  [hok w h k]: [k] more entries may be added to the table [h]. *)
Class WriterOk (W : Type) `{wr : Writer W} : Type := {
  winv : W -> Prop;
  bok : W -> branch_t -> Prop;
  hok : W -> br_table_parser -> Z -> Prop;
  extends (w w' : W) : Prop := forall b, bok w b -> bok w' b;

  plain_ok k w : plain k -> winv w -> safe k (fun _ w' => winv w' /\ extends w w') w;
  emit_end_ok w : winv w -> safe emit_end (fun _ w' => winv w' /\ extends w w') w;
  emit_loop_ok w : winv w -> safe emit_loop (fun _ w' => winv w' /\ extends w w') w;
  emit_if_ok w : winv w -> safe emit_if (fun b w' => winv w' /\ extends w w' /\ bok w' b) w;
  emit_else_ok b w : winv w -> bok w b ->
    safe (emit_else b) (fun b' w' => winv w' /\ extends w w' /\ bok w' b') w;
  emit_return_ok d rt w : winv w ->
    safe (emit_return d rt) (fun b w' => winv w' /\ extends w w' /\ bok w' b) w;
  emit_br_ok d rt w : winv w ->
    safe (emit_br d rt) (fun b w' => winv w' /\ extends w w' /\ bok w' b) w;
  emit_br_if_ok d rt w : winv w ->
    safe (emit_br_if d rt) (fun b w' => winv w' /\ extends w w' /\ bok w' b) w;
  emit_br_table_ok n w : winv w -> in_u 32 n ->
    safe (emit_br_table n) (fun h w' => winv w' /\ extends w w' /\ hok w' h (n + 1)) w;
  emit_case_ok d rt h k w : winv w -> hok w h k -> 0 < k ->
    safe (emit_case d rt h)
      (fun r w' => winv w' /\ extends w w' /\ bok w' r.1 /\ hok w' r.2 (k - 1)) w;
  emit_default_ok d rt h k w : winv w -> hok w h k -> 0 < k ->
    safe (emit_default d rt h) (fun r w' => winv w' /\ extends w w' /\ bok w' r.1) w;
  fix_branch_ok b pos w : winv w -> bok w b ->
    safe (fix_branch b pos) (fun _ w' =>
      winv w' /\ extends w w' /\ forall h k, hok w h k -> hok w' h k) w;
  set_stack_usage_ok u w : winv w -> safe (set_stack_usage u) (fun _ w' => winv w' /\ extends w w') w;
  emit_prologue_ok ft locals i body w : safe (emit_prologue ft locals i body) (fun _ w' => winv w') w;
  emit_epilogue_ok ft locals w : winv w -> safe (emit_epilogue ft locals) (fun _ w' => winv w') w;
  finalize_ok body w : winv w -> safe (finalize body) (fun _ w' => True) w;
  construct_ok m n a : safe (construct m n) (fun _ _ => True) a;
  destruct_ok w a : safe (destruct_ w) (fun _ _ => True) a;
  install_ok w m : exists b c, install w m = with_bitcode b (with_code c m) /\ length c = length (code m)
}.

Lemma extends_refl {W} `{WriterOk W} w : extends w w.
Proof. by intros b. Qed.
Lemma extends_trans {W} `{WriterOk W} w1 w2 w3 : extends w1 w2 -> extends w2 w3 -> extends w1 w3.
Proof. unfold extends. auto. Qed.

(** ** The writer that does nothing *)
#[export, refine] Instance null_writer_ok : WriterOk NullWriter.t := {|
  winv _ := True; bok _ _ := True; hok _ _ _ := True
|}.
Proof.
  all: try (intros; try destruct w; done).
  - by intros k w [].
  - intros w m. exists (bitcode m), (code m). by destruct m.
Defined.

(** ** The interpreter's writer *)
Module BitcodeLaws.
Import BitcodeWriter.
Section BitcodeLaws.
Context `{sys : Sys}.

Definition cell (w : t) (i : Z) : option opcode := nthZ (gv_cells (fb w)) i.

Definition winv (w : t) : Prop := 0 <= op_index w.

Definition bok (w : t) (b : branch) : Prop :=
  match b with
  | AtInstr i => 0 <= i < op_index w /\ exists c imm, cell w i = Some (Op.CONTROL_FLOW c imm)
  | AtCase i j => 0 <= i < op_index w /\
      exists size table, cell w i = Some (Op.BR_TABLE size table) /\ 0 <= j < Z.of_nat (length table)
  end.

Definition hok (w : t) (h : table_parser) (k : Z) : Prop :=
  0 <= tp_instr h < op_index w /\ tp_i h + k <= tp_room h /\
  exists size table, cell w (tp_instr h) = Some (Op.BR_TABLE size table) /\
    Z.of_nat (length table) = tp_i h.

(** Does [o'] still hold the branch targets of [o]? *)
Definition grows (o o' : opcode) : Prop :=
  match o with
  | Op.CONTROL_FLOW _ _ => exists c imm, o' = Op.CONTROL_FLOW c imm
  | Op.BR_TABLE _ table => exists size table', o' = Op.BR_TABLE size table' /\ (length table <= length table')%nat
  | _ => True
  end.
Definition same_shape (o o' : opcode) : Prop :=
  match o with
  | Op.CONTROL_FLOW _ _ => exists c imm, o' = Op.CONTROL_FLOW c imm
  | Op.BR_TABLE _ table => exists size table', o' = Op.BR_TABLE size table' /\ length table = length table'
  | _ => True
  end.

(** The cells below [op_index] only change in the way [R] allows. *)
Definition keeps (R : opcode -> opcode -> Prop) (w w' : t) : Prop :=
  op_index w <= op_index w' /\
  forall i o, 0 <= i < op_index w -> cell w i = Some o -> exists o', cell w' i = Some o' /\ R o o'.

Lemma grows_refl o : grows o o.
Proof. destruct o; simpl; eauto. Qed.
Lemma same_refl o : same_shape o o.
Proof. destruct o; simpl; eauto. Qed.
Lemma same_grows o o' : same_shape o o' -> grows o o'.
Proof. destruct o; simpl; auto. intros (? & ? & -> & ?). eauto with lia. Qed.

Lemma same_trans o1 o2 o3 : same_shape o1 o2 -> same_shape o2 o3 -> same_shape o1 o3.
Proof.
  destruct o1; simpl; auto.
  - intros (? & ? & ->). simpl. auto.
  - intros (? & ? & -> & ->). simpl. auto.
Qed.

Lemma keeps_refl R w : (forall o, R o o) -> keeps R w w.
Proof. intros HR. split; [lia|]. eauto. Qed.
Lemma keeps_mono R R' w w' : (forall o o', R o o' -> R' o o') -> keeps R w w' -> keeps R' w w'.
Proof. intros HR [? H]. split; [done|]. intros i o Hi Ho. destruct (H i o Hi Ho) as (? & ? & ?). eauto. Qed.

Lemma keeps_trans R w1 w2 w3 :
  (forall o1 o2 o3, R o1 o2 -> R o2 o3 -> R o1 o3) ->
  keeps R w1 w2 -> keeps R w2 w3 -> keeps R w1 w3.
Proof.
  intros HR [Hle1 H1] [Hle2 H2]. split; [lia|]. intros i o Hi Ho.
  destruct (H1 _ _ Hi Ho) as (o1 & Ho1 & Hs1). destruct (H2 i o1) as (o2 & Ho2 & Hs2); [lia|done|]. eauto.
Qed.
Lemma keeps_same_trans w1 w2 w3 :
  keeps same_shape w1 w2 -> keeps same_shape w2 w3 -> keeps same_shape w1 w3.
Proof. apply keeps_trans. eauto using same_trans. Qed.

Lemma keeps_bok w w' b : keeps grows w w' -> bok w b -> bok w' b.
Proof.
  intros [Hn Hc]. destruct b as [i|i j]; simpl.
  - intros [Hi (c & imm & Ho)]. split; [lia|]. destruct (Hc _ _ Hi Ho) as (o' & -> & c' & imm' & ->). eauto.
  - intros [Hi (size & table & Ho & Hj)]. split; [lia|].
    destruct (Hc _ _ Hi Ho) as (o' & -> & size' & table' & -> & ?). do 2 eexists. split; [done|lia].
Qed.
Lemma keeps_hok w w' h k : keeps same_shape w w' -> hok w h k -> hok w' h k.
Proof.
  intros [Hn Hc] (Hi & Hk & size & table & Ho & Hlen). split; [lia|]. split; [done|].
  destruct (Hc _ _ Hi Ho) as (o' & -> & size' & table' & -> & ?). do 2 eexists. split; [done|lia].
Qed.

(** Cells after a store *)
Lemma cell_insert {A} (l : list A) i j x :
  0 <= i < Z.of_nat (length l) ->
  nthZ (<[Z.to_nat i := x]> l) j = if decide (i = j) then Some x else nthZ l j.
Proof.
  intros Hi. unfold nthZ. destruct (Z.ltb_spec j 0).
  - destruct (decide (i = j)); [lia|done].
  - destruct (decide (i = j)) as [->|Hne].
    + rewrite list_lookup_insert_eq; [done|lia].
    + rewrite list_lookup_insert_ne; [done|lia].
Qed.

Lemma append_instr_ok o w :
  winv w ->
  safe (append_instr o) (fun i w' => winv w' /\ keeps same_shape w w' /\
    i = op_index w /\ op_index w' = i + 1 /\ cell w' i = Some o) w.
Proof.
  unfold winv. intros Hw. unfold append_instr, store_cell, check_index.
  repeat wp_step; [|done]. simpl. simpl in *. destruct_bools.
  assert (Hi : 0 <= op_index w < Z.of_nat (length (gv_cells (fb w)))) by (unfold gv_size in *; lia).
  split_and!; [lia| |done|done|].
  - split; [simpl; lia|]. intros i o' Hi' Ho. exists o'. unfold cell in *. simpl.
    rewrite cell_insert by done. destruct (decide _); [lia|]. split; [done|apply same_refl].
  - unfold cell. simpl. rewrite cell_insert by done. by destruct (decide _).
Qed.

Lemma update_cell_ok R i f o o' w :
  0 <= i -> (forall o, R o o) -> cell w i = Some o -> f o = Ret o' -> R o o' ->
  safe (update_cell i f) (fun _ w' => op_index w' = op_index w /\ keeps R w w' /\ cell w' i = Some o') w.
Proof.
  intros Hi HR Ho Hf Hoo. unfold update_cell. repeat wp_step. unfold cell in Ho. rewrite Ho. simpl.
  repeat wp_step. rewrite Hf. repeat wp_step. pose proof (nthZ_bounds _ _ _ Ho) as Hb.
  split_and!; [done| |].
  - split; [simpl; lia|]. intros j oj Hj Hoj. unfold cell in *. simpl. rewrite cell_insert by done.
    destruct (decide (i = j)) as [->|]; [|eauto]. exists o'. split; [done|congruence].
  - unfold cell. simpl. rewrite cell_insert by done. by destruct (decide _).
Qed.

Lemma assign_ok b pc w :
  winv w -> bok w b ->
  safe (assign b pc) (fun _ w' => op_index w' = op_index w /\ keeps same_shape w w') w.
Proof.
  intros Hw Hb. destruct b as [i|i j]; simpl in *.
  - destruct Hb as [Hi (c & imm & Ho)].
    eapply wp_mono; [eapply (update_cell_ok same_shape);
      [lia|apply same_refl|done|simpl; reflexivity|simpl; eauto]| |done].
    intros _ w' (? & ? & _). done.
  - destruct Hb as [Hi (size & table & Ho & Hj)]. destruct (nthZ_Some table j Hj) as [e He].
    eapply wp_mono; [eapply (update_cell_ok same_shape);
      [lia|apply same_refl|done|simpl; rewrite He; simpl; reflexivity|]| |done].
    + simpl. do 2 eexists. split; [done|]. by rewrite length_insert.
    + intros _ w' (? & ? & _). done.
Qed.

Lemma plain_append (k : M t unit) : plain k -> k = emit_block \/ exists o, k = append o.
Proof. intros Hk. destruct Hk; [..]; (right; eexists; reflexivity) || (left; reflexivity). Qed.

Lemma append_ok o w : winv w -> safe (append o) (fun _ w' => winv w' /\ keeps same_shape w w') w.
Proof.
  intros Hw. unfold append. wp_step. eapply wp_mono; [by apply append_instr_ok| |done].
  intros i w' (? & ? & _). by wp_step.
Qed.

(** An instruction with a branch target *)
Lemma emit_branch_ok o d rt w :
  winv w -> safe (emit_branch o d rt) (fun b w' => winv w' /\ keeps same_shape w w' /\ bok w' b) w.
Proof.
  intros Hw. unfold emit_branch. wp_step. eapply wp_mono; [by apply append_instr_ok| |done].
  intros i w1 (Hw1 & Hk1 & -> & Hn & Hc). wp_step. unfold encode_depth_change. wp_step.
  unfold EOS_VM_ASSERT. destruct (_ =? 0); simpl; [|done].
  assert (Hd : forall d', safe
    (update_cell (op_index w) (set_data d');; mret (AtInstr (op_index w)))
    (fun b w' => winv w' /\ keeps same_shape w w' /\ bok w' b) w1).
  { intros d'. wp_step. eapply wp_mono;
      [eapply (update_cell_ok same_shape); [exact Hw|apply same_refl|done|simpl; reflexivity|simpl; eauto]| |done].
    intros _ w2 (Hn2 & Hk2 & Hc2). wp_step. unfold winv in *. split; [lia|]. split.
    - by eapply keeps_same_trans.
    - simpl. split; [lia|]. eauto. }
  destruct (negb _); apply Hd.
Qed.

Lemma emit_if_ok w : winv w -> safe emit_if (fun b w' => winv w' /\ keeps same_shape w w' /\ bok w' b) w.
Proof.
  intros Hw. unfold emit_if. wp_step. eapply wp_mono; [by apply append_instr_ok| |done].
  intros i w1 (Hw1 & Hk1 & -> & Hn & Hc). wp_step. split_and!; [done|done|]. simpl.
  split; [unfold winv in *; lia|]. unfold control in Hc. eauto.
Qed.

Lemma emit_else_ok b w :
  winv w -> bok w b -> safe (emit_else b) (fun b' w' => winv w' /\ keeps same_shape w w' /\ bok w' b') w.
Proof.
  intros Hw Hb. unfold emit_else. wp_step. eapply wp_mono; [by apply append_instr_ok| |done].
  intros i w1 (Hw1 & Hk1 & -> & Hn & Hc). do 4 wp_step. wp_step.
  eapply wp_mono; [apply assign_ok; [done|]| |done].
  - eapply keeps_bok; [|done]. eapply keeps_mono; [|done]. apply same_grows.
  - intros _ w2 [Hn2 Hk2]. wp_step. split_and!; [unfold winv in *; lia|by eapply keeps_same_trans|].
    destruct Hk2 as [_ H2]. simpl. split; [unfold winv in *; lia|].
    destruct (H2 (op_index w) _ ltac:(unfold winv in *; lia) Hc) as (o' & Ho' & Hs). simpl in Hs.
    destruct Hs as (c & imm & ->). eauto.
Qed.

Lemma fix_branch_ok b pos w :
  winv w -> bok w b -> safe (fix_branch b pos) (fun _ w' => winv w' /\ keeps same_shape w w') w.
Proof.
  intros Hw Hb. unfold fix_branch. do 2 wp_step. eapply wp_mono; [by apply assign_ok| |done].
  intros _ w' [Hn Hk]. split; [unfold winv in *; lia|done].
Qed.

(** The reserved slots are enough for the entries and the default. *)
Lemma table_room n : in_u 32 n ->
  let offset := wrap 32 (n * sizeof_elem / sizeof_opcode + 2) in
  0 <= offset /\ n + 1 <= offset * sizeof_opcode / sizeof_elem.
Proof.
  intros Hn. unfold sizeof_elem, sizeof_opcode.
  assert (H : in_u 32 (n * 8 / 24 + 2)).
  { unfold in_u in *. pose proof (Z.div_mod (n * 8) 24 ltac:(lia)). pose proof (Z.mod_pos_bound (n * 8) 24 ltac:(lia)). lia. }
  rewrite (wrap_small _ _ H). unfold in_u in *. split; [lia|].
  replace ((n * 8 / 24 + 2) * 24) with ((n * 8 / 24 + 2) * 3 * 8) by lia. rewrite Z.div_mul by lia.
  pose proof (Z.div_mod (n * 8) 24 ltac:(lia)). pose proof (Z.mod_pos_bound (n * 8) 24 ltac:(lia)). lia.
Qed.

Lemma emit_br_table_ok n w :
  winv w -> in_u 32 n ->
  safe (emit_br_table n) (fun h w' => winv w' /\ keeps same_shape w w' /\ hok w' h (n + 1)) w.
Proof.
  intros Hw Hn. destruct (table_room n Hn) as [Hoff Hroom]. unfold emit_br_table. wp_step.
  eapply wp_mono; [by apply append_instr_ok| |done]. intros i w1 (Hw1 & Hk1 & -> & Hn1 & Hc1).
  set (offset := wrap 32 (n * sizeof_elem / sizeof_opcode + 2)) in *. unfold winv in *.
  do 2 wp_step. unfold check_index, store_cell. unfold check_index.
  repeat (wp_prim || done).
  simpl in *. destruct_bools.
  match goal with |- wp _ _ _ ?x => assert (Hk : keeps same_shape w1 x /\ cell x (op_index w) = Some (Op.BR_TABLE 0 [])) end.
  { assert (Hc : forall j, j <= op_index w -> nthZ (<[Z.to_nat (op_index w1 + offset):=Op.ERROR]> (gv_cells (fb w1))) j
      = nthZ (gv_cells (fb w1)) j).
    { intros j Hj. unfold gv_size in *. simpl in *. rewrite cell_insert by lia. destruct (decide _); [lia|done]. }
    split; [|by unfold cell in *; simpl; rewrite Hc by lia]. split; [simpl; lia|]. intros j oj Hj Hoj.
    exists oj. split; [|apply same_refl]. unfold cell in *. simpl. by rewrite Hc by lia. }
  destruct Hk as [Hk2 Hc2].
  eapply wp_mono; [eapply (update_cell_ok same_shape); [exact Hw|apply same_refl|exact Hc2|simpl; reflexivity|]| |done].
  - simpl. eauto.
  - simpl. intros _ w2 (Hn2 & Hk3 & Hc3). wp_step. simpl in *. split; [lia|]. split.
    + eapply keeps_same_trans; [done|]. by eapply keeps_same_trans.
    + split; simpl; [lia|]. split; [lia|]. eauto.
Qed.

Lemma emit_case_ok d rt h k w :
  winv w -> hok w h k -> 0 < k ->
  safe (emit_case d rt h) (fun r w' => winv w' /\ keeps grows w w' /\ op_index w' = op_index w /\
    bok w' r.1 /\ hok w' r.2 (k - 1)) w.
Proof.
  intros Hw (Hi & Hroom & size & table & Hc & Hlen) Hk. unfold emit_case, encode_depth_change. wp_step. wp_step.
  destruct (Z.ltb_spec (tp_i h) (tp_room h)); [|lia]. wp_step. wp_step.
  unfold EOS_VM_ASSERT. destruct (_ =? 0); simpl; [|done].
  assert (H0 : forall pop, safe (update_cell (tp_instr h) (add_case pop);;
      mret (AtCase (tp_instr h) (tp_i h), TableParser (tp_instr h) (tp_i h + 1) (tp_room h)))
    (fun r w' => winv w' /\ keeps grows w w' /\ op_index w' = op_index w /\
      bok w' r.1 /\ hok w' r.2 (k - 1)) w).
  { intros pop. wp_step. eapply wp_mono;
      [eapply (update_cell_ok grows); [lia|apply grows_refl|exact Hc|simpl; reflexivity|]| |done].
    - simpl. do 2 eexists. split; [done|]. rewrite length_app. lia.
    - intros _ w' (Hn & Hk' & Hc'). wp_step. split_and!; [unfold winv in *; lia|done|done| |]; simpl.
      + split; [lia|]. do 2 eexists. split; [done|]. rewrite length_app. simpl. lia.
      + split; simpl; [lia|]. split; [lia|]. do 2 eexists. split; [done|]. rewrite length_app. simpl. lia. }
  destruct (negb _); apply H0.
Qed.

Lemma emit_default_ok d rt h k w :
  winv w -> hok w h k -> 0 < k ->
  safe (emit_default d rt h) (fun r w' => winv w' /\ keeps grows w w' /\ bok w' r.1) w.
Proof.
  intros Hw Hh Hk. unfold emit_default. wp_step. eapply wp_mono; [by eapply emit_case_ok| |done].
  intros r w1 (Hw1 & Hk1 & Hn1 & Hb & _). wp_step. wp_step. wp_step. unfold check_index. do 2 wp_step. wp_step; [|done].
  repeat wp_step. destruct_bools.
  destruct (nthZ_Some (gv_cells (fb w1)) (op_index w1)) as [c Hc]; [unfold winv, gv_size in *; lia|].
  rewrite Hc. simpl. unfold parse_assert. repeat wp_step; done.
Qed.

(** Allocation has no undefined behaviour. *)
Lemma on_allocator_ok {A} (k : M Growable.t A) w :
  (forall a, safe k (fun _ _ => True) a) ->
  safe (on_allocator k) (fun _ w' => op_index w' = op_index w /\ fb w' = fb w) w.
Proof. intros Hk. specialize (Hk (_allocator w)). unfold wp, on_allocator in *. by destruct (k _) as [[a|e|y] s]. Qed.

Lemma alloc_ok x y n a : safe (Growable.alloc x y n) (fun _ _ => True) a.
Proof. unfold Growable.alloc. repeat (wp_step || done). Qed.
Lemma reclaim_ok x p n a : safe (Growable.reclaim x p n) (fun _ _ => True) a.
Proof. unfold Growable.reclaim. repeat (wp_step || done). destruct (negb _); by wp_step. Qed.
Lemma gv_make_ok n a : safe (gv_make n) (fun _ _ => True) a.
Proof. unfold gv_make. wp_step. eapply wp_mono; [apply alloc_ok| |done]. intros. by wp_step. Qed.

Lemma resize_ok n w : 0 <= n -> safe (resize n) (fun _ w' => op_index w' = op_index w /\ n <= gv_size (fb w')) w.
Proof.
  intros Hn. unfold resize. do 2 wp_step. destruct (Z.ltb_spec (gv_size (fb w)) n) as [Hlt|Hge]; wp_step.
  - eapply wp_mono; [apply on_allocator_ok; intros; apply alloc_ok| |done].
    intros d w' [Hn' _]. wp_step. split; [done|]. unfold gv_size, blank. simpl. rewrite length_replicate. lia.
  - eapply wp_mono; [apply on_allocator_ok; intros; apply reclaim_ok| |done].
    intros _ w' [Hn' _]. wp_step. split; [done|]. unfold gv_size in *. simpl. rewrite length_take. lia.
Qed.

Lemma set_stack_usage_ok u w : winv w -> safe (set_stack_usage u) (fun _ w' => winv w' /\ keeps same_shape w w') w.
Proof.
  intros Hw. unfold set_stack_usage. repeat (wp_prim || done). split; [done|].
  split; [done|]. intros i o _ Ho. exists o. split; [done|apply same_refl].
Qed.

Lemma emit_prologue_ok body w : safe (emit_prologue body) (fun _ w' => winv w') w.
Proof.
  unfold emit_prologue. repeat wp_prim.
  eapply wp_mono; [apply on_allocator_ok; intros; apply gv_make_ok| |done].
  intros v w' [Hn _]. wp_prim. unfold winv. simpl. rewrite Hn. done.
Qed.

Lemma emit_epilogue_ok ft locals w : winv w -> safe (emit_epilogue ft locals) (fun _ w' => winv w') w.
Proof.
  intros Hw. unfold emit_epilogue. repeat wp_prim. unfold winv in *.
  eapply wp_mono; [apply resize_ok; lia| |done].
  intros _ w' [Hn _]. repeat wp_prim. unfold store_cell, check_index. repeat (wp_prim || done). simpl. lia.
Qed.

Lemma finalize_ok body w : winv w -> safe (finalize body) (fun _ _ => True) w.
Proof.
  intros Hw. unfold finalize. repeat wp_prim. unfold winv in *.
  eapply wp_mono; [apply resize_ok; simpl; lia| |done]. intros _ w' _. repeat (wp_prim || done).
Qed.

Lemma construct_ok n a : safe (construct n) (fun _ _ => True) a.
Proof.
  unfold construct, Growable.start_code. repeat wp_prim.
  eapply wp_mono; [apply gv_make_ok| |done]. intros v a' _. by wp_prim.
Qed.

Lemma destruct_ok w a : safe (destruct_ w) (fun _ _ => True) a.
Proof. done. Qed.
End BitcodeLaws.
End BitcodeLaws.

#[export, refine] Instance bitcode_writer_ok `{sys : Sys} : WriterOk BitcodeWriter.t := {|
  winv := BitcodeLaws.winv; bok := BitcodeLaws.bok; hok := BitcodeLaws.hok
|}.
Proof.
  all: pose proof (fun w w' b => BitcodeLaws.keeps_bok w w' b) as Hg.
  all: assert (Hs : forall w w' b, BitcodeLaws.keeps BitcodeLaws.same_shape w w' ->
         BitcodeLaws.bok w b -> BitcodeLaws.bok w' b)
         by (intros w w' b Hk; apply Hg; eapply BitcodeLaws.keeps_mono; [apply BitcodeLaws.same_grows|done]).
  - intros k w Hk Hw. destruct (BitcodeLaws.plain_append k Hk) as [->|[o ->]]; [by split|].
    eapply wp_mono; [by apply BitcodeLaws.append_ok| |done]. cbv beta. intuition eauto.
  - intros w Hw. by split.
  - intros w Hw. by split.
  - intros w Hw. eapply wp_mono; [by apply BitcodeLaws.emit_if_ok| |done]. cbv beta. intuition eauto.
  - intros b w Hw Hb. eapply wp_mono; [by apply BitcodeLaws.emit_else_ok| |done]. cbv beta. intuition eauto.
  - intros d rt w Hw. eapply wp_mono; [by apply BitcodeLaws.emit_branch_ok| |done]. cbv beta. intuition eauto.
  - intros d rt w Hw. eapply wp_mono; [by apply BitcodeLaws.emit_branch_ok| |done]. cbv beta. intuition eauto.
  - intros d rt w Hw. eapply wp_mono; [by apply BitcodeLaws.emit_branch_ok| |done]. cbv beta. intuition eauto.
  - intros n w Hw Hn. eapply wp_mono; [by apply BitcodeLaws.emit_br_table_ok| |done]. cbv beta. intuition eauto.
  - intros d rt h k w Hw Hh Hk. eapply wp_mono; [by eapply BitcodeLaws.emit_case_ok| |done]. cbv beta. intuition eauto.
  - intros d rt h k w Hw Hh Hk. eapply wp_mono; [by eapply BitcodeLaws.emit_default_ok| |done]. cbv beta. intuition eauto.
  - intros b pos w Hw Hb. eapply wp_mono; [by apply BitcodeLaws.fix_branch_ok| |done].
    intros _ w' [Hw' Hk]. split_and!; [done|by intros b'; apply Hs|].
    intros h k. by apply BitcodeLaws.keeps_hok.
  - intros u w Hw. eapply wp_mono; [by apply BitcodeLaws.set_stack_usage_ok| |done]. cbv beta. intuition eauto.
  - intros ft locals i body w. apply BitcodeLaws.emit_prologue_ok.
  - intros ft locals w Hw. by apply BitcodeLaws.emit_epilogue_ok.
  - intros body w Hw. by apply BitcodeLaws.finalize_ok.
  - intros m n a. apply BitcodeLaws.construct_ok.
  - intros w a. apply BitcodeLaws.destruct_ok.
  - intros w m. do 2 eexists. split; [reflexivity|]. by rewrite length_fmap.
Defined.
