(* ===== verification/BodySafety.v ===== *)
(** * Validation of a body is safe (parser.hpp, [parse_function_body_code])

    On any bytes, the loop of [parse_function_body_code] ends within its fuel and
    never has undefined behaviour, for any writer that keeps the contract
    [WriterOk].  The invariant relates the two stacks of the loop: the tracker has
    one scope tag per element of [pc_stack], and a dead-code tag only directly
    above a scope tag. *)
From S2P Require Import Prelude GuardedPtr Leb128 Allocator Opcodes Types OpSigs Validation Writers FunctionBody Parser ReaderProofs WriterLaws.
Import Op(opcode, v128_t, V128).

(** ** The operand type tracker *)

Definition nontag (t : Z) : Prop := t <> unreachable_tag /\ t <> scope_tag.

(** The tracker's stack holds [n] scopes. *)
Inductive tags_ok : list Z -> nat -> Prop :=
  | tags_nil : tags_ok [] 0
  | tags_value t l n : nontag t -> tags_ok l n -> tags_ok (t :: l) n
  | tags_scope l n : tags_ok l n -> tags_ok (scope_tag :: l) (S n)
  | tags_dead l n : tags_ok l n -> tags_ok (unreachable_tag :: scope_tag :: l) (S n).

Ltac nontag := by_compute || (split; by_compute).
Lemma nontag_any : nontag any_type. Proof. split; by_compute. Qed.
Lemma nontag_i32 : nontag i32. Proof. split; by_compute. Qed.
Lemma nontag_i64 : nontag i64. Proof. split; by_compute. Qed.
Lemma nontag_f32 : nontag f32. Proof. split; by_compute. Qed.
Lemma nontag_f64 : nontag f64. Proof. split; by_compute. Qed.
Lemma nontag_v128 : nontag v128. Proof. split; by_compute. Qed.
Lemma nontag_pseudo : nontag pseudo. Proof. split; by_compute. Qed.
Create HintDb body.
#[export] Hint Resolve nontag_any nontag_i32 nontag_i64 nontag_f32 nontag_f64 nontag_v128 nontag_pseudo : body.

Definition tr_ok (n : nat) (t : tracker) : Prop := tags_ok (state t) n.

Section Tracker.
Context (options : Opt.t) (gd : Z -> Z).

Lemma on_type_safe type count : ret_safe (on_type options type count).
Proof.
  unfold on_type, add_bounded, EOS_VM_ASSERT. destruct (Opt.max_func_local_bytes options); [|done].
  by destruct (_ && _).
Qed.

Lemma push_stack_safe type lc : ret_safe (push_stack options type lc).
Proof.
  unfold push_stack. destruct (_ && _); [|done].
  pose proof (on_type_safe type (_count lc)). by destruct (on_type _ _ _).
Qed.

Lemma push_tags t n tr :
  tr_ok n tr -> nontag t -> safe (Tracker.push options gd t) (fun _ tr' => tr_ok n tr') tr.
Proof.
  intros Hn Ht. unfold Tracker.push, parse_assert, Tracker.grow_depth. repeat wp_prim; [|done].
  pose proof (push_stack_safe t (local_bytes_checker tr)) as Hs. simpl in *.
  destruct (push_stack _ _ _); [|done|done]. repeat wp_prim. by constructor.
Qed.

Lemma pop_expected_tags t n tr :
  tr_ok n tr -> nontag t -> safe (Tracker.pop_expected options gd t) (fun _ tr' => tr_ok n tr') tr.
Proof.
  intros Hn Ht. unfold Tracker.pop_expected, Tracker.back, Tracker.pop_back, parse_assert, Tracker.shrink_depth.
  destruct (t =? pseudo); [by wp_prim|]. repeat wp_prim; [|done].
  destruct (state tr) as [|b l] eqn:El; [done|]. simpl in *. repeat wp_prim.
  destruct (Z.eqb_spec b unreachable_tag); repeat wp_prim; [done|simpl|done].
  rewrite El. unfold tr_ok in *. rewrite El in Hn. repeat wp_prim. simpl.
  inversion Hn; subst; [done|exfalso|done].
  destruct Ht as [Ht1 Ht2]. apply orb_prop in H0 as [H0|H0]; [|done]. apply Z.eqb_eq in H0. congruence.
Qed.

Lemma pop_any_tags n tr :
  tr_ok n tr -> safe (Tracker.pop_any options gd) (fun t tr' => nontag t /\ tr_ok n tr') tr.
Proof.
  intros Hn. unfold Tracker.pop_any, Tracker.back, Tracker.pop_back, parse_assert, Tracker.shrink_depth.
  repeat wp_prim; [|done]. destruct (state tr) as [|b l] eqn:El; [done|]. simpl in *. repeat wp_prim.
  destruct (Z.eqb_spec b unreachable_tag); repeat wp_prim; simpl; [auto with body|].
  rewrite El. unfold tr_ok in *. rewrite El in Hn. repeat wp_prim. inversion Hn; subst; done.
Qed.

Lemma top_tags t n tr :
  tr_ok n tr -> nontag t -> safe (Tracker.top options gd t) (fun _ tr' => tr_ok n tr') tr.
Proof.
  intros Hn Ht. unfold Tracker.top. wp_prim. eapply wp_mono; [by apply pop_expected_tags| |done].
  intros ? tr' Hn'. by apply push_tags.
Qed.

Lemma to_scope_tags l n d :
  tags_ok l (S n) -> exists l' d', Tracker.to_scope gd l d = (scope_tag :: l', d') /\ tags_ok l' n.
Proof.
  intros H. remember (S n) as k eqn:Ek. revert d.
  induction H as [|t l k [Ht1 Ht2] Hl IH|l k Hl _|l k Hl _]; intros d; simplify_eq; simpl.
  - destruct (Z.eqb_spec t scope_tag); [done|]. apply IH. done.
  - eauto.
  - eauto.
Qed.

Lemma start_unreachable_tags n tr :
  tr_ok (S n) tr -> safe (Tracker.start_unreachable gd) (fun _ => tr_ok (S n)) tr.
Proof.
  intros Hn. unfold Tracker.start_unreachable. repeat wp_prim. simpl.
  destruct (to_scope_tags _ n (operand_depth tr) Hn) as (l & d & -> & Hl). simpl. by constructor.
Qed.

Lemma push_scope_tags n tr : tr_ok n tr -> safe Tracker.push_scope (fun _ => tr_ok (S n)) tr.
Proof. intros Hn. unfold Tracker.push_scope. wp_prim. by constructor. Qed.

Lemma pop_scope_tags t n tr :
  tr_ok n tr -> nontag t ->
  safe (Tracker.pop_scope options gd t) (fun _ tr' => exists m, n = S m /\ tr_ok m tr') tr.
Proof.
  intros Hn Ht. unfold Tracker.pop_scope. wp_prim. eapply wp_mono; [by apply pop_expected_tags| |done].
  clear tr Hn. intros ? tr Hn. unfold Tracker.back, Tracker.pop_back, parse_assert. repeat wp_prim; [|done].
  unfold tr_ok in *. destruct (state tr) as [|b l] eqn:El; [done|]. simpl. repeat wp_prim.
  assert (Hpush : forall m tr', tags_ok (state tr') m ->
    safe (if negb (t =? pseudo) then Tracker.push options gd t else mret tt)
      (fun _ tr'' => exists m', S m = S m' /\ tags_ok (state tr'') m') tr').
  { intros m tr' Hm. destruct (t =? pseudo); simpl; [wp_prim; eauto|].
    eapply wp_mono; [by apply (push_tags t m)| |done]. eauto. }
  inversion Hn as [|? ? ? [Hb1 Hb2]|? m Hl|? m Hl]; subst.
  - destruct (Z.eqb_spec b unreachable_tag); [done|]. repeat wp_prim. rewrite El. simpl. repeat wp_prim; [|done].
    destruct_bools. done.
  - repeat first [wp_prim | rewrite El | progress simpl]; by try apply Hpush.
  - repeat first [wp_prim | rewrite El | progress simpl]; by try apply Hpush.
Qed.
End Tracker.

(** ** Signatures have no tags *)
Definition sig_ok (s : sig) : Prop := Forall nontag s.1 /\ Forall nontag s.2.
Ltac sig_ok := split; repeat (apply Forall_nil_2 || apply Forall_cons_2); auto with body.
Lemma numeric_sig_ok o : sig_ok (numeric_type o). Proof. destruct o; sig_ok. Qed.
Lemma comparison_sig_ok o : sig_ok (comparison_type o). Proof. destruct o; sig_ok. Qed.
Lemma conversion_sig_ok o : sig_ok (conversion_type o). Proof. destruct o; sig_ok. Qed.
Lemma memory_sig_ok o : sig_ok (memory_type_of o). Proof. destruct o; sig_ok. Qed.
Lemma ext_sig_ok o : sig_ok (ext_sig o). Proof. destruct o; sig_ok. Qed.
Lemma vec_lane_sig_ok o : sig_ok (vec_lane_type o). Proof. destruct o; sig_ok. Qed.
Lemma vec_lane_memory_sig_ok o : sig_ok (vec_lane_memory_type o). Proof. destruct o; sig_ok. Qed.
Lemma vec_memory_sig_ok o : sig_ok (vec_memory_type o). Proof. destruct o; sig_ok. Qed.
Lemma vec_numeric_sig_ok o : sig_ok (vec_numeric_sig o). Proof. destruct o; sig_ok. Qed.
#[export] Hint Resolve numeric_sig_ok comparison_sig_ok conversion_sig_ok memory_sig_ok ext_sig_ok
  vec_lane_sig_ok vec_lane_memory_sig_ok vec_memory_sig_ok vec_numeric_sig_ok : body.

(** ** The invariant of the loop *)
Section Body.
Context {W : Type} `{wok : WriterOk W}.
Implicit Types s : body_state (W := W).

Record pc_ok (w : W) (e : pc_element_t) : Prop := PcOk {
  pc_expected : nontag (expected_result e);
  pc_label : nontag (label_result e);
  pc_if : is_if e = true -> exists b l, relocations e = inr (b :: l);
  pc_branches : match relocations e with inl _ => True | inr l => Forall (bok w) l end
}.

(** [n] scopes of the tracker, [m] elements of [pc_stack] *)
Record inv (n m : nat) (s : body_state) : Prop := Inv {
  inv_code : cursor_ok (bs_code s);
  inv_tags : tr_ok n (op_stack s);
  inv_length : length (pc_stack s) = m;
  inv_pcs : Forall (pc_ok (code_writer s)) (pc_stack s);
  inv_writer : winv (code_writer s)
}.

Record later (k : Z) (s s' : body_state) : Prop := Later {
  later_code : moved k (bs_code s) (bs_code s');
  later_writer : extends (code_writer s) (code_writer s')
}.

Lemma later_refl s : cursor_ok (bs_code s) -> later 0 s s.
Proof. intros. split; [by apply moved_refl|apply extends_refl]. Qed.
Lemma later_same s s' :
  cursor_ok (bs_code s) -> bs_code s' = bs_code s -> code_writer s' = code_writer s -> later 0 s s'.
Proof. intros Hc H1 H2. split; [rewrite H1; by apply moved_refl|rewrite H2; apply extends_refl]. Qed.
Lemma later_trans k k' s1 s2 s3 : later k s1 s2 -> later k' s2 s3 -> later (k + k') s1 s3.
Proof. intros [? ?] [? ?]. split; [by eapply moved_trans|by eapply extends_trans]. Qed.
Lemma later_trans0 k s1 s2 s3 : later k s1 s2 -> later 0 s2 s3 -> later k s1 s3.
Proof. intros H1 H2. rewrite <- (Z.add_0_r k). by eapply later_trans. Qed.

Lemma pc_ok_extends w w' l : extends w w' -> Forall (pc_ok w) l -> Forall (pc_ok w') l.
Proof.
  intros He. apply Forall_impl. intros e [? ? ? Hb]. split; [done..|].
  destruct (relocations e); [done|]. revert Hb. apply Forall_impl. intros b. apply He.
Qed.

(** [k] takes the invariant from [n], [m] to [n'], [m'], moves the cursor by [d]
    bytes or more, and returns a result in [Q]. *)
Definition ok {A} (n m : nat) (k : M body_state A) (d : Z) (n' m' : nat) (Q : A -> Prop) : Prop :=
  forall s, inv n m s -> safe k (fun a s' => inv n' m' s' /\ later d s s' /\ Q a) s.

Lemma ok_bind_ {A B} n m n1 m1 n2 m2 d d' (k : M body_state A) (f : A -> M body_state B) Q R :
  ok n m k d n1 m1 Q -> (forall a, Q a -> ok n1 m1 (f a) d' n2 m2 R) ->
  ok n m (mbind f k) (d + d') n2 m2 R.
Proof.
  intros Hk Hf s Hs. wp_prim. eapply wp_mono; [by apply Hk| |done]. intros a s1 (Hs1 & Hl1 & Ha).
  eapply wp_mono; [by apply Hf| |done]. intros b s2 (Hs2 & Hl2 & Hb).
  split_and!; [done|by eapply later_trans|done].
Qed.
Lemma ok_bind_0 {A B} n m n1 m1 n2 m2 (k : M body_state A) (f : A -> M body_state B) Q R :
  ok n m k 0 n1 m1 Q -> (forall a, Q a -> ok n1 m1 (f a) 0 n2 m2 R) -> ok n m (mbind f k) 0 n2 m2 R.
Proof. intros Hk Hf. exact (ok_bind_ _ _ _ _ _ _ 0 0 _ _ _ _ Hk Hf). Qed.
Lemma ok_weaken {A} n m n' m' d d' (k : M body_state A) (Q R : A -> Prop) :
  ok n m k d n' m' Q -> d' <= d -> (forall a, Q a -> R a) -> ok n m k d' n' m' R.
Proof.
  intros Hk Hd HQ s Hs. eapply wp_mono; [by apply Hk| |done]. intros a s' (? & [? ?] & ?).
  split_and!; [done| |auto]. split; [by eapply moved_weaken|done].
Qed.
Lemma ok_any {A} n m n' m' d (k : M body_state A) (Q : A -> Prop) :
  ok n m k d n' m' Q -> ok n m k d n' m' (fun _ => True).
Proof. intros Hk. by eapply ok_weaken. Qed.

(** ** The primitive steps *)
Lemma ok_mret {A} n m (a : A) (Q : A -> Prop) : Q a -> ok n m (mret a) 0 n m Q.
Proof. intros Ha s Hs. wp_prim. split_and!; [done|apply later_refl; by destruct Hs|done]. Qed.
Lemma ok_lift {A} n m (o : outcome A) (Q : A -> Prop) :
  match o with Ret a => Q a | Throw _ => True | UB _ => False end -> ok n m (lift o) 0 n m Q.
Proof.
  intros Ho s Hs. wp_prim. destruct o; [|done|done].
  split_and!; [done|apply later_refl; by destruct Hs|done].
Qed.
Lemma ok_assert n m b msg : ok n m (parse_assert b msg) 0 n m (fun _ => b = true).
Proof. apply ok_lift. by destruct b. Qed.
Lemma ok_error {A} n m n' m' d msg (Q : A -> Prop) : ok n m (parse_error msg) d n' m' Q.
Proof. by intros s Hs. Qed.
Lemma ok_gets {A} n m (f : body_state -> A) (Q : A -> Prop) :
  (forall s, inv n m s -> Q (f s)) -> ok n m (gets f) 0 n m Q.
Proof. intros Hf s Hs. wp_prim. split_and!; [done|apply later_refl; by destruct Hs|by apply Hf]. Qed.
Lemma ok_size n m : ok n m pc_stack_size 0 n m (fun x => x = Z.of_nat m).
Proof. apply ok_gets. intros s Hs. by rewrite (inv_length _ _ _ Hs). Qed.
Lemma ok_nested n m x : ok n m (modify (set_nested_checker x)) 0 n m (fun _ => True).
Proof. intros s [? ? ? ? ?]. wp_prim. split_and!; [by split|by apply later_same|done]. Qed.

Lemma ok_read {A} n m d (k : reader A) (Q : A -> Prop) :
  reads_ok d k Q -> ok n m (from_code k) d n m Q.
Proof.
  intros Hk s [Hc ? ? ? ?]. specialize (Hk _ Hc). unfold rwp in Hk. unfold wp, from_code.
  destruct (k (bs_code s)) as [[a p]|e|y]; [|done|done]. destruct Hk as [Hm Ha].
  split_and!; [split; [by destruct Hm|done..]| |done]. split; [done|apply extends_refl].
Qed.
Lemma ok_read0 {A} n m (k : reader A) (Q : A -> Prop) d :
  reads_ok d k Q -> 0 <= d -> ok n m (from_code k) 0 n m Q.
Proof. intros Hk Hd. eapply ok_weaken; [by apply ok_read|done|done]. Qed.

Lemma ok_on_stack {A} n n' m (k : M tracker A) (Q : A -> Prop) :
  (forall tr, tr_ok n tr -> safe k (fun a tr' => tr_ok n' tr' /\ Q a) tr) -> ok n m (on_stack k) 0 n' m Q.
Proof.
  intros Hk s [Hc Ht ? ? ?]. specialize (Hk _ Ht). unfold wp, on_stack in *.
  destruct (k (op_stack s)) as [[a|e|y] tr]; [|done|done]. destruct Hk as [Ht' Ha].
  split_and!; [by split|by apply later_same|done].
Qed.

Lemma emits_ok {A} n m (k : M W A) (Q : A -> W -> Prop) s :
  inv n m s -> safe k (fun a w' => winv w' /\ extends (code_writer s) w' /\ Q a w') (code_writer s) ->
  safe (emits k) (fun a s' => inv n m s' /\ later 0 s s' /\ Q a (code_writer s')) s.
Proof.
  intros [Hc Ht ? Hpc Hw] Hk. unfold wp, emits in *.
  destruct (k (code_writer s)) as [[a|e|y] w]; [|done|done]. destruct Hk as (Hw' & He & Ha).
  split_and!; [|by split; [apply moved_refl|]|done]. split; simpl; [done..| |done].
  by eapply pc_ok_extends.
Qed.
Lemma ok_plain n m k : plain k -> ok n m (emits k) 0 n m (fun _ => True).
Proof.
  intros Hk s Hs. apply (emits_ok _ _ _ (fun _ _ => True)); [done|].
  eapply wp_mono; [apply plain_ok; by destruct Hs| |done]. intros _ w' [? ?]. done.
Qed.

(** ** What the body is validated against *)
Definition ft_ok (ft : func_type) : Prop :=
  Forall nontag (param_types ft) /\ (return_count ft <> 0 -> nontag (return_type ft)).

Section Instructions.
Context (options : Opt.t) (_mod : module) (_datacount : option Z) (type_aliases : list Z)
  (locals : local_types_t).

Record context_ok : Prop := ContextOk {
  cx_types : Forall ft_ok (types _mod);
  cx_function i : 0 <= i -> match Mod.get_function_type _mod i with
                  | Ret ft => ft_ok ft | Throw _ => True | UB _ => False end;
  cx_globals : Forall (fun g => nontag (content_type (gl_type g))) (globals _mod);
  cx_aliases : length type_aliases = length (types _mod);
  cx_local i : 0 <= i -> match local_type_at locals i with
               | Ret t => nontag t | Throw _ => True | UB _ => False end
}.
Context (cx : context_ok).

Lemma ok_pop n m t : nontag t -> ok n m (pop_expected options t) 0 n m (fun _ => True).
Proof.
  intros Ht. apply ok_on_stack. intros tr Htr. eapply wp_mono; [by apply pop_expected_tags| |done]. done.
Qed.
Lemma ok_pop_any n m : ok n m (pop_any options) 0 n m nontag.
Proof. apply ok_on_stack. intros tr Htr. eapply wp_mono; [by apply pop_any_tags| |done]. by intros ? ? [? ?]. Qed.
Lemma ok_push n m t : nontag t -> ok n m (push options t) 0 n m (fun _ => True).
Proof. intros Ht. apply ok_on_stack. intros tr Htr. eapply wp_mono; [by apply push_tags| |done]. done. Qed.
Lemma ok_top n m t : nontag t -> ok n m (top options t) 0 n m (fun _ => True).
Proof. intros Ht. apply ok_on_stack. intros tr Htr. eapply wp_mono; [by apply top_tags| |done]. done. Qed.
Lemma ok_start n m : ok (S n) m start_unreachable 0 (S n) m (fun _ => True).
Proof. apply ok_on_stack. intros tr Htr. eapply wp_mono; [by apply start_unreachable_tags| |done]. done. Qed.
Lemma ok_push_scope n m : ok n m (on_stack Tracker.push_scope) 0 (S n) m (fun _ => True).
Proof. apply ok_on_stack. intros tr Htr. eapply wp_mono; [by apply push_scope_tags| |done]. done. Qed.
Lemma ok_depth n m : ok n m (on_stack Tracker.depth) 0 n m (fun _ => True).
Proof. apply ok_on_stack. intros tr Htr. by unfold Tracker.depth; wp_prim. Qed.

Lemma ok_each {A} n m (f : A -> M body_state unit) l :
  Forall (fun a => ok n m (f a) 0 n m (fun _ => True)) l -> ok n m (eachM f l) 0 n m (fun _ => True).
Proof.
  induction 1 as [|a l Ha _ IH]; simpl; [by apply ok_mret|]. eapply ok_bind_0; [exact Ha|]. intros _ _. exact IH.
Qed.
Lemma ok_pops n m l : Forall nontag l -> ok n m (eachM (pop_expected options) l) 0 n m (fun _ => True).
Proof. intros Hl. apply ok_each. revert Hl. apply Forall_impl. intros t. apply ok_pop. Qed.
Lemma ok_pushes n m l : Forall nontag l -> ok n m (eachM (push options) l) 0 n m (fun _ => True).
Proof. intros Hl. apply ok_each. revert Hl. apply Forall_impl. intros t. apply ok_push. Qed.
Lemma ok_sig n m sg : sig_ok sg -> ok n m (apply_sig options sg) 0 n m (fun _ => True).
Proof. intros [H1 H2]. eapply ok_bind_0; [by apply ok_pops|]. intros _ _. by apply ok_pushes. Qed.

Lemma ok_u32 n m : ok n m (from_code parse_varuint32) 0 n m (in_u 32).
Proof. eapply ok_read0; [apply ok_varuint32|done]. Qed.
Lemma ok_byte n m : ok n m next_byte 1 n m is_byte.
Proof. apply ok_read, ok_read_byte. Qed.
Lemma ok_byte0 n m : ok n m next_byte 0 n m is_byte.
Proof. eapply ok_read0; [apply ok_read_byte|done]. Qed.
Lemma ok_peek_ n m : ok n m (from_code peek_byte) 0 n m is_byte.
Proof. eapply ok_read0; [apply ok_peek|done]. Qed.
Lemma ok_s32 n m : ok n m (from_code parse_varint32) 0 n m (in_s 32).
Proof. eapply ok_read0; [apply ok_varint32|done]. Qed.
Lemma ok_s64 n m : ok n m (from_code parse_varint64) 0 n m (in_s 64).
Proof. eapply ok_read0; [apply ok_varint64|done]. Qed.
Lemma ok_raw n m k : 0 <= k -> ok n m (from_code (parse_raw k)) 0 n m (in_u (8 * k)).
Proof. intros Hk. eapply ok_read0; [by apply ok_parse_raw|done]. Qed.
Lemma ok_v128 n m : ok n m (from_code parse_v128) 0 n m (fun _ => True).
Proof. eapply ok_read0; [|by instantiate (1 := 0)]. eapply ok_mono; [apply ok_parse_v128|done|done]. Qed.
End Instructions.
End Body.

#[export] Hint Resolve ok_pop ok_pop_any ok_push ok_top ok_start ok_push_scope ok_depth ok_pops ok_pushes
  ok_sig ok_u32 ok_byte0 ok_peek_ ok_s32 ok_s64 ok_v128 ok_size ok_assert ok_error : body.
#[export] Hint Extern 1 (ok _ _ (emits _) _ _ _ _) => apply ok_plain; auto with plain : body.
#[export] Hint Extern 1 (ok _ _ (from_code (parse_raw _)) _ _ _ _) => apply ok_raw; lia : body.

#[export] Hint Extern 1 (nontag (if ?b then _ else _)) => destruct b : body.

(** Symbolic execution of an [ok] goal; the primitives are hints of [body]. *)
Ltac ok_prim := solve [eauto with body nocore].
Ltac oks :=
  repeat lazymatch goal with
  | |- ok _ _ (mbind _ _) _ _ _ _ => eapply ok_bind_0; [oks; fail|intros ? ?; cbv beta in *]
  | |- ok _ _ (mret _) _ _ _ _ => apply ok_mret
  | |- ok _ _ (if ?b then _ else _) _ _ _ _ => destruct b eqn:?
  | |- ok _ _ (match ?x with _ => _ end) _ _ _ _ => destruct x eqn:?
  | |- ok _ _ _ _ _ _ (fun _ => True) => eapply ok_any; ok_prim
  | |- ok _ _ _ _ _ _ _ => ok_prim
  end.
