(* ===== verification/InstrSafety.v ===== *)
(** * Every instruction keeps the invariant (parser.hpp, the [switch] of
    [parse_function_body_code])

    Instruction by instruction, then the loop: [parse_function_body_code] on any
    bytes returns or throws, with any writer. *)
From S2P Require Import Prelude GuardedPtr Leb128 Allocator Opcodes Types OpSigs Validation Writers FunctionBody Parser ReaderProofs WriterLaws BodySafety.
Import Op(opcode, v128_t, V128).

Section Instructions.
Context {W : Type} `{wok : WriterOk W}.
Context (options : Opt.t) (_mod : module) (_datacount : option Z) (type_aliases : list Z)
  (locals : local_types_t).
Context (cx : context_ok _mod type_aliases locals).

(** Instructions that leave the label stack alone *)
Definition steady (m : nat) (k : M (body_state (W := W)) unit) : Prop := ok m m k 0 m m (fun _ => True).

(** [check_in_bounds] fails unless the function is still open. *)
Definition live (m : nat) : Prop := Opt.allow_code_after_function_end options = false -> m <> O.

Lemma ok_in_bounds m :
  live m -> ok m m (check_in_bounds (W := W) options) 0 m m (fun _ => m <> O).
Proof.
  intros Hm. unfold check_in_bounds. eapply ok_bind_0; [apply ok_size|]. intros x ->.
  eapply ok_weaken; [apply ok_assert|done|]. intros ? Hb. cbv beta in Hb. unfold live in *.
  destruct (Opt.allow_code_after_function_end options); simpl in Hb; [|auto].
  apply negb_true_iff, Z.eqb_neq in Hb. lia.
Qed.
Lemma in_bounds {A} m (k : M (body_state (W := W)) A) d m' Q :
  live m -> (m <> O -> ok m m k d m' m' Q) -> ok m m (check_in_bounds options;; k) d m' m' Q.
Proof. intros Hm Hk. eapply (ok_bind_ _ _ _ _ _ _ 0 d); [by apply ok_in_bounds|]. auto. Qed.

Lemma ok_zero n m msg : ok n m (zero_byte (W := W) msg) 0 n m (fun _ => True).
Proof. unfold zero_byte. oks; try done. Qed.
Hint Resolve ok_zero : body.

(** *** Memory *)
Lemma ok_has_memory n m msg : ok n m (has_memory (W := W) _mod msg) 0 n m (fun _ => True).
Proof. unfold has_memory. oks. Qed.
Hint Resolve ok_has_memory : body.
Lemma ok_memarg n m : ok n m (parse_memarg (W := W)) 0 n m (fun _ => True).
Proof. unfold parse_memarg. oks. done. Qed.
Hint Resolve ok_memarg : body.
Lemma ok_check_memarg n m x a msg : ok n m (check_memarg (W := W) options x a msg) 0 n m (fun _ => True).
Proof. unfold check_memarg. oks. Qed.
Hint Resolve ok_check_memarg : body.

Lemma ok_access m store x sg (emit : Z -> Z -> M W unit) :
  live m -> sig_ok sg -> (forall a b, plain (emit a b)) ->
  steady m (parse_memory_access options _mod store x sg emit).
Proof. intros Hm Hs He. apply in_bounds; [done|]. intros _. oks. Qed.

Lemma ok_memory m o : live m -> steady m (parse_memory options _mod o).
Proof.
  intros Hm. unfold parse_memory. destruct o; try (apply ok_access; auto with body plain; fail).
  - unfold steady. oks.
  - apply in_bounds; [done|]. intros _. oks.
Qed.

(** *** Numeric instructions *)
Lemma ok_numeric_op m sg (emit : M W unit) :
  live m -> sig_ok sg -> plain emit -> steady m (parse_numeric_op options sg emit).
Proof. intros Hm Hs He. apply in_bounds; [done|]. intros _. oks. Qed.
Lemma ok_extend m o : live m -> steady m (parse_extend_op (W := W) options o).
Proof. intros Hm. apply in_bounds; [done|]. intros _. oks. Qed.

(** *** Vector and extended instructions *)
Lemma ok_vec_lane_memory m o : live m -> steady m (parse_vec_lane_memory options _mod o).
Proof. intros Hm. apply in_bounds; [done|]. intros _. oks. Qed.
Lemma ok_vec_lane m o : live m -> steady m (parse_vec_lane (W := W) options o).
Proof. intros Hm. apply in_bounds; [done|]. intros _. oks. Qed.

(** [skip 16] leaves the 16 bytes behind the cursor in the buffer. *)
Lemma ok_shuffle m : live m -> steady m (parse_shuffle (W := W) options).
Proof.
  intros Hm. apply in_bounds; [done|]. intros _ s Hs. wp_prim. wp_prim. wp_prim.
  pose proof (ok_skip 16 ltac:(lia) (bs_code s) (inv_code _ _ _ Hs)) as Hk.
  pose proof (ok_read m m 16 _ _ (ok_skip 16 ltac:(lia)) s Hs) as Hk'.
  eapply wp_mono; [exact Hk'| |done]. intros _ s1 (Hs1 & Hl1 & _).
  assert (exists l, raw_bytes 16 (bs_code s) = Ret l) as [l Hl].
  { destruct Hl1 as [[Hd Hb Hr [[? ?] ?]] _]. rewrite Hd in *. rewrite Hb in *. pose proof (inv_code _ _ _ Hs) as [[? ?] ?].
    destruct (raw_bytes_ok 16 (bs_code s) (inv_code _ _ _ Hs) ltac:(lia)) as (l & Hl & _). eauto. }
  assert (Hrest : steady m (lanes ← lift (raw_bytes 16 (bs_code s));
    parse_assert (forallb (fun l => l <? 32) lanes) "shuffle laneidx must be less than 32";;
    emits (emit_i8x16_shuffle lanes);; apply_sig options (binary v128 v128))).
  { eapply ok_bind_0; [apply (ok_lift _ _ _ (fun _ => True)); by rewrite Hl|]. intros lanes _.
    oks. eapply ok_any, ok_sig. sig_ok. }
  eapply wp_mono; [by apply Hrest| |done]. intros _ s2 (Hs2 & Hl2 & _). split_and!; [done| |done].
  eapply later_trans0; [|done]. destruct Hl1 as [Hm1 ?]. split; [|done]. by eapply moved_weaken.
Qed.

Lemma ok_vector m o : live m -> steady m (parse_vector options _mod o).
Proof.
  intros Hm. destruct o; simpl.
  - apply ok_access; auto with body plain.
  - by apply ok_vec_lane_memory.
  - apply in_bounds; [done|]. intros _. oks.
  - by apply ok_shuffle.
  - by apply ok_vec_lane.
  - apply in_bounds; [done|]. intros _. oks.
Qed.

Lemma ok_has_table n m msg : ok n m (has_table (W := W) _mod msg) 0 n m (fun _ => True).
Proof. unfold has_table. oks. Qed.
Lemma ok_bulk n m : ok n m (bulk_enabled (W := W) options) 0 n m (fun _ => True).
Proof. unfold bulk_enabled. oks. Qed.
Lemma ok_data_index n m name x : ok n m (check_data_index (W := W) _datacount name x) 0 n m (fun _ => True).
Proof.
  unfold check_data_index. eapply ok_bind_0; [apply (ok_lift _ _ _ (fun _ => True)); by destruct _datacount|].
  intros k _. oks.
Qed.
Lemma ok_pops3 n m : ok n m (eachM (pop_expected (W := W) options) [i32; i32; i32]) 0 n m (fun _ => True).
Proof. apply ok_pops. repeat constructor; auto with body. Qed.
Hint Resolve ok_has_table ok_bulk ok_data_index ok_pops3 : body.

Lemma ok_data m o : live m -> steady m (parse_data options _mod _datacount o).
Proof. intros Hm. destruct o; apply in_bounds; (done || intros _; oks). Qed.
Lemma ok_ext_op m o : live m -> steady m (parse_ext_op options _mod o).
Proof. intros Hm. destruct o; apply in_bounds; (done || intros _; oks). Qed.

(** *** Calls, locals and globals *)
Lemma ok_apply_func_type m ft : ft_ok ft -> steady m (apply_func_type (W := W) options ft).
Proof.
  intros [Hp Hr]. unfold steady, apply_func_type. eapply ok_bind_0; [by apply ok_pops, Forall_rev|]. intros _ _.
  oks; try done. eapply ok_any, ok_push, Hr. by destruct (Z.eqb_spec (return_count ft) 0).
Qed.
Hint Resolve ok_apply_func_type : body.

Lemma ok_call m : live m -> steady m (parse_call options _mod).
Proof.
  intros Hm. apply in_bounds; [done|]. intros _. eapply ok_bind_0; [apply ok_u32|]. intros x [Hx _].
  eapply ok_bind_0; [by apply ok_lift, (cx_function _ _ _ cx)|]. intros ft Hft.
  eapply ok_bind_0; [by apply ok_apply_func_type|]. intros _ _. oks.
Qed.

Lemma vec_at_all {A} (P : A -> Prop) l i :
  Forall P l -> match vec_at l i with Ret a => P a | Throw _ => True | UB _ => False end.
Proof.
  intros HP. unfold vec_at, nthZ. destruct (i <? 0); [done|]. destruct (l !! Z.to_nat i) eqn:E; [|done].
  by eapply Forall_lookup_1.
Qed.

Lemma ok_call_indirect m : live m -> steady m (parse_call_indirect options _mod type_aliases).
Proof.
  intros Hm. apply in_bounds; [done|]. intros _. eapply ok_bind_0; [apply ok_u32|]. intros x Hx.
  destruct (vec_at (types _mod) x) as [ft|e|y] eqn:E; [|by intros s Hs|].
  2:{ pose proof (vec_at_all _ _ x (cx_types _ _ _ cx)) as H. by rewrite E in H. }
  eapply ok_bind_0; [apply (ok_lift _ _ _ ft_ok)|].
  { pose proof (vec_at_all _ _ x (cx_types _ _ _ cx)) as H. by rewrite E in H. }
  intros ft' Hft. eapply ok_bind_0; [apply ok_assert|]. intros ? _.
  eapply ok_bind_0; [apply ok_pop; auto with body|]. intros _ _.
  eapply ok_bind_0; [by apply ok_apply_func_type|]. intros _ _.
  eapply ok_bind_0; [apply (ok_lift _ _ _ (fun _ => True))|intros al _; oks].
  unfold vec_at in E. destruct (nthZ (types _mod) x) eqn:En; [|done]. apply nthZ_bounds in En.
  rewrite <- (cx_aliases _ _ _ cx) in En. by destruct (nthZ_Some _ _ En) as [? ->].
Qed.

Lemma ok_call_op m o : live m -> steady m (parse_call_op options _mod type_aliases o).
Proof. intros Hm. destruct o; [by apply ok_call|by apply ok_call_indirect|apply ok_error..]. Qed.

Lemma ok_parametric m o : live m -> steady m (parse_parametric (W := W) options o).
Proof.
  intros Hm. destruct o; try apply ok_error; (apply in_bounds; [done|]; intros _; oks).
Qed.

Lemma ok_local_at n m x : in_u 32 x -> ok n m (local_at (W := W) locals x) 0 n m nontag.
Proof. intros [Hx _]. by apply ok_lift, (cx_local _ _ _ cx). Qed.
Lemma ok_global_at n m x :
  ok n m (global_at (W := W) _mod x) 0 n m (fun g => nontag (content_type g)).
Proof.
  unfold global_at. eapply ok_bind_0; [apply ok_lift, vec_at_all, (cx_globals _ _ _ cx)|]. intros g Hg. oks. done.
Qed.
Hint Resolve ok_local_at ok_global_at : body.

Lemma ok_variable m o : live m -> steady m (parse_variable_access options _mod locals o).
Proof.
  intros Hm. destruct o; simpl; try apply ok_error; try (apply in_bounds; [done|]; intros _); unfold steady; oks.
Qed.

(** ** Labels and branches *)

Lemma pc_at_ok n m label s e :
  inv n m s -> nthZ (pc_stack s) label = Some e -> pc_ok (code_writer s) e.
Proof.
  intros Hs. pose proof (inv_pcs _ _ _ Hs) as Hp. unfold nthZ. destruct (label <? 0); [done|].
  intros He. by eapply Forall_lookup_1.
Qed.

(** A label that passed the check is one of the stack. *)
Lemma checked_label n m label s :
  inv n m s -> 0 <= label -> (label <? Z.of_nat (length (pc_stack s))) = true ->
  exists e, nthZ (pc_stack s) label = Some e /\ pc_ok (code_writer s) e.
Proof.
  intros Hs H0 Hl. destruct_bools. destruct (nthZ_Some (pc_stack s) label) as [e He]; [lia|].
  eauto using pc_at_ok.
Qed.

(** Steps that change the cursor and the tracker only *)
Definition quiet {A} (k : M (body_state (W := W)) A) : Prop :=
  forall s, code_writer (k s).2 = code_writer s /\ pc_stack (k s).2 = pc_stack s.
Lemma quiet_bind {A B} (k : M body_state A) (f : A -> M body_state B) :
  quiet k -> (forall a, quiet (f a)) -> quiet (mbind f k).
Proof.
  intros Hk Hf s. unfold mbind, M_bind. specialize (Hk s). destruct (k s) as [[a|e|y] s']; simpl in *; [|done|done].
  destruct (Hf a s') as [-> ->]. done.
Qed.
Lemma quiet_lift {A} (o : outcome A) : quiet (lift o).
Proof. by intros s. Qed.
Lemma quiet_gets {A} (f : body_state -> A) : quiet (gets f).
Proof. by intros s. Qed.
Lemma quiet_on_stack {A} (k : M tracker A) : quiet (on_stack k).
Proof. intros s. unfold on_stack. by destruct (k (op_stack s)). Qed.
Lemma quiet_from_code {A} (k : reader A) : quiet (from_code k).
Proof. intros s. unfold from_code. by destruct (k (bs_code s)) as [[? ?]|?|?]. Qed.
Lemma safe_quiet {A} (k : M body_state A) Q s :
  quiet k -> safe k Q s ->
  safe k (fun a s' => Q a s' /\ code_writer s' = code_writer s /\ pc_stack s' = pc_stack s) s.
Proof. intros Hk. specialize (Hk s). unfold wp. destruct (k s) as [[a|e|y] s']; simpl in *; auto. Qed.

Lemma quiet_depth_change label : quiet (compute_depth_change (W := W) options label).
Proof.
  unfold compute_depth_change, pc_stack_size, pc_at, parse_assert, top.
  repeat first [apply quiet_bind; [|intros ?] | apply quiet_lift | apply quiet_gets | apply quiet_on_stack].
  by destruct (negb _); [apply quiet_on_stack|apply quiet_lift].
Qed.

Lemma ok_depth_change n m label :
  0 <= label -> ok n m (compute_depth_change (W := W) options label) 0 n m (fun _ => True).
Proof.
  intros H0. unfold compute_depth_change. intros s Hs. unfold pc_stack_size, pc_at, parse_assert.
  repeat wp_prim; [|done].
  destruct (checked_label _ _ _ _ Hs H0 H) as (e & He & Hpc). rewrite He. simpl.
  match goal with |- safe ?k _ _ => enough (Hk : ok n m k 0 n m (fun _ => True)) by by apply Hk end.
  eapply ok_bind_0; [apply ok_depth|]. intros d _.
  eapply ok_bind_0 with (Q := fun _ => True); [|intros; by apply ok_mret].
  destruct (negb _); [apply ok_top, Hpc|by apply ok_mret].
Qed.
Hint Resolve ok_depth_change : body.

(** A step that needs a valid branch *)
Definition with_branch (b : branch_t) (n m : nat) (k : M body_state unit) (n' m' : nat) : Prop :=
  forall s, inv n m s -> bok (code_writer s) b ->
    safe k (fun _ s' => inv n' m' s' /\ later 0 s s') s.

Lemma ok_emit_branch n m n' m' (k : M W branch_t) (f : branch_t -> M body_state unit) :
  (forall w, winv w -> safe k (fun b w' => winv w' /\ extends w w' /\ bok w' b) w) ->
  (forall b, with_branch b n m (f b) n' m') ->
  ok n m (b ← emits k; f b) 0 n' m' (fun _ => True).
Proof.
  intros Hk Hf s Hs. wp_prim.
  assert (He : safe (emits k) (fun b s' => inv n m s' /\ later 0 s s' /\ bok (code_writer s') b) s).
  { apply (emits_ok _ _ _ (fun b w => bok w b)); [done|]. apply Hk. by destruct Hs. }
  eapply wp_mono; [exact He| |done]. intros b s1 (Hs1 & Hl1 & Hb).
  eapply wp_mono; [by apply Hf| |done]. intros _ s2 [Hs2 Hl2]. split_and!; [done| |done].
  by eapply later_trans0.
Qed.

Lemma with_branch_bind b n m n1 m1 n' m' {A} (k : M body_state A) (f : A -> M body_state unit) Q :
  ok n m k 0 n1 m1 Q -> (forall a, Q a -> with_branch b n1 m1 (f a) n' m') ->
  with_branch b n m (mbind f k) n' m'.
Proof.
  intros Hk Hf s Hs Hb. wp_prim. eapply wp_mono; [by apply Hk| |done]. intros a s1 (Hs1 & Hl1 & Ha).
  eapply wp_mono; [apply (Hf a Ha s1 Hs1); by apply (later_writer _ _ _ Hl1)| |done].
  intros _ s2 [Hs2 Hl2]. split; [done|]. by eapply later_trans0.
Qed.
Lemma with_branch_then b n m n1 m1 n' m' (k k' : M body_state unit) :
  with_branch b n m k n1 m1 -> ok n1 m1 k' 0 n' m' (fun _ => True) -> with_branch b n m (k;; k') n' m'.
Proof.
  intros Hk Hk' s Hs Hb. wp_prim. eapply wp_mono; [by apply Hk| |done]. intros _ s1 [Hs1 Hl1].
  eapply wp_mono; [by apply Hk'| |done]. intros _ s2 (Hs2 & Hl2 & _). split; [done|]. by eapply later_trans0.
Qed.

Lemma push_pc_ok b n m e :
  nontag (expected_result e) -> nontag (label_result e) -> relocations e = inr [b] ->
  with_branch b n m (push_pc e) n (S m).
Proof.
  intros H1 H2 Hr s [Hc Ht Hlen Hpc Hw] Hb. unfold push_pc. wp_prim.
  split; [|by apply later_same]. split; simpl; [done|done|by rewrite Hlen| |done].
  constructor; [|done]. split; [done|done|rewrite Hr; eauto|]. rewrite Hr. by repeat constructor.
Qed.
Lemma ok_push_pc n m e :
  nontag (expected_result e) -> nontag (label_result e) -> is_if e = false ->
  match relocations e with inl _ => True | inr l => l = [] end ->
  ok n m (push_pc (W := W) e) 0 n (S m) (fun _ => True).
Proof.
  intros H1 H2 Hi Hr s [Hc Ht Hlen Hpc Hw]. unfold push_pc. wp_prim.
  split_and!; [|by apply later_same|done]. split; simpl; [done|done|by rewrite Hlen| |done].
  constructor; [|done]. split; [done|done|by rewrite Hi|]. destruct (relocations e) as [|l]; [done|].
  subst l. constructor.
Qed.

(** [handle_branch_target] keeps the branch tables that are being filled. *)
Lemma branch_target_ok n m label b s :
  inv n m s -> bok (code_writer s) b -> 0 <= label ->
  safe (handle_branch_target label b) (fun _ s' => inv n m s' /\ later 0 s s' /\
    (forall h k, hok (code_writer s) h k -> hok (code_writer s') h k) /\ label < Z.of_nat m) s.
Proof.
  intros Hs Hb H0. unfold handle_branch_target, pc_stack_size, pc_at, parse_assert. repeat wp_prim; [|done].
  assert (Hlt : label < Z.of_nat m) by (rewrite <- (inv_length _ _ _ Hs); destruct_bools; lia).
  destruct (checked_label _ _ _ _ Hs H0 H) as (e & He & Hpc). rewrite He. simpl.
  destruct (relocations e) as [target|l] eqn:Er.
  - eapply wp_mono; [apply (emits_ok n m _ (fun _ w => forall h k, hok (code_writer s) h k -> hok w h k)); [done|]| |done].
    + apply fix_branch_ok; [by destruct Hs|done].
    + intros _ s' (? & ? & ?). done.
  - wp_prim. destruct Hs as [Hc Ht Hlen Hpcs Hw].
    split_and!; [|by apply later_same|done..]. split; simpl; [done|done|by rewrite length_insert| |done].
    apply Forall_insert; [done|]. destruct Hpc as [H1 H2 Hi Hbr]. rewrite Er in Hi, Hbr.
    split; simpl; [done|done| |by apply Forall_app; split; [|repeat constructor]].
    intros Hif. destruct (Hi Hif) as (b' & l' & [= ->]). by exists b', (l' ++ [b]).
Qed.
Lemma with_branch_target n m label b : 0 <= label -> with_branch b n m (handle_branch_target label b) n m.
Proof.
  intros H0 s Hs Hb. eapply wp_mono; [by apply branch_target_ok| |done]. by intros _ s' (? & ? & _ & _).
Qed.

(** ** Control flow *)

Lemma ok_br m : live m -> steady m (parse_br (W := W) options).
Proof.
  intros Hm. apply in_bounds; [done|]. intros H0. destruct m as [|m]; [done|].
  eapply ok_bind_0; [apply ok_u32|]. intros label [Hl _]. eapply ok_bind_0; [by apply ok_depth_change|]. intros dc _.
  apply ok_emit_branch; [apply emit_br_ok|]. intros b.
  eapply with_branch_then; [by apply with_branch_target|]. apply ok_start.
Qed.
Lemma ok_br_if m : live m -> steady m (parse_br_if (W := W) options).
Proof.
  intros Hm. apply in_bounds; [done|]. intros H0.
  eapply ok_bind_0; [apply ok_u32|]. intros label [Hl _]. eapply ok_bind_0; [apply ok_pop; auto with body|]. intros _ _.
  eapply ok_bind_0; [by apply ok_depth_change|]. intros dc _.
  apply ok_emit_branch; [apply emit_br_if_ok|]. intros b. by apply with_branch_target.
Qed.
Lemma ok_return_instr m : live m -> steady m (parse_return (W := W) options).
Proof.
  intros Hm. apply in_bounds; [done|]. intros H0. destruct m as [|m]; [done|].
  eapply ok_bind_0; [apply ok_size|]. intros n ->.
  assert (Hl : 0 <= wrap 32 (Z.of_nat (S m) - 1)) by (apply wrap_in_u; lia).
  eapply ok_bind_0; [by apply ok_depth_change|]. intros dc _.
  apply ok_emit_branch; [apply emit_return_ok|]. intros b.
  eapply with_branch_then; [by apply with_branch_target|]. apply ok_start.
Qed.

(** The reads of one label of a [br_table]. *)
Lemma label_depth_ok n m s :
  inv n m s ->
  safe (label ← from_code parse_varuint32; dc ← compute_depth_change options label; mret (label, dc))
    (fun r s' => inv n m s' /\ later 0 s s' /\ code_writer s' = code_writer s /\ 0 <= r.1) s.
Proof.
  intros Hs. eapply wp_mono; [apply safe_quiet| |done].
  - apply quiet_bind; [apply quiet_from_code|]. intros label.
    apply quiet_bind; [apply quiet_depth_change|]. intros dc. apply quiet_lift.
  - assert (Hk : ok n m (label ← from_code parse_varuint32; dc ← compute_depth_change options label; mret (label, dc))
      0 n m (fun r : Z * (Z * Z) => 0 <= r.1)).
    { eapply ok_bind_0; [apply ok_u32|]. intros label [Hl _]. eapply ok_bind_0; [by apply ok_depth_change|].
      intros dc _. by apply ok_mret. }
    by apply Hk.
  - intros r s' [(H1 & H2 & H3) [H4 _]]. done.
Qed.

(** One label: the entry is added and its branch noted or fixed. *)
Lemma one_case_ok (emit : Z -> Z -> br_table_parser -> M W (branch_t * br_table_parser)) (k : Z) n m h s
    (P : W -> br_table_parser -> Prop) :
  (forall d rt w, winv w -> hok w h k ->
    safe (emit d rt h) (fun r w' => winv w' /\ extends w w' /\ bok w' r.1 /\ P w' r.2) w) ->
  (forall w w' h', (forall h k, hok w h k -> hok w' h k) -> P w h' -> P w' h') ->
  inv n m s -> hok (code_writer s) h k ->
  safe (label ← from_code parse_varuint32; dc ← compute_depth_change options label;
        b ← emits (emit dc.1 dc.2 h); handle_branch_target label b.1;; e ← pc_at label; mret (b, e))
    (fun r s' => inv n m s' /\ later 0 s s' /\ P (code_writer s') r.1.2) s.
Proof.
  intros Hemit HP Hs Hh.
  assert (Hsplit : forall Q, safe (r ← (label ← from_code parse_varuint32; dc ← compute_depth_change options label;
        mret (label, dc)); b ← emits (emit r.2.1 r.2.2 h); handle_branch_target r.1 b.1;; e ← pc_at r.1; mret (b, e)) Q s ->
      safe (label ← from_code parse_varuint32; dc ← compute_depth_change options label;
        b ← emits (emit dc.1 dc.2 h); handle_branch_target label b.1;; e ← pc_at label; mret (b, e)) Q s).
  { intros Q. unfold wp, mbind, M_bind. destruct (from_code parse_varuint32 s) as [[l|?|?] s1]; [|done|done].
    by destruct (compute_depth_change options l s1) as [[dc|?|?] s2]. }
  apply Hsplit. clear Hsplit. wp_prim. eapply wp_mono; [by apply label_depth_ok| |done].
  intros [label dc] s1 (Hs1 & Hl1 & Hw1 & H0). simpl in *. rewrite <- Hw1 in Hh. wp_prim.
  assert (He : safe (emits (emit dc.1 dc.2 h)) (fun r s' => inv n m s' /\ later 0 s1 s' /\
      bok (code_writer s') r.1 /\ P (code_writer s') r.2) s1).
  { apply (emits_ok _ _ _ (fun r w => bok w r.1 /\ P w r.2)); [done|]. apply Hemit; [by destruct Hs1|done]. }
  eapply wp_mono; [exact He| |done]. intros [b h'] s2 (Hs2 & Hl2 & Hb & Hp). simpl in *. wp_prim.
  eapply wp_mono; [by apply branch_target_ok| |done]. intros _ s3 (Hs3 & Hl3 & Hpres & Hlt).
  unfold pc_at. repeat wp_prim.
  destruct (nthZ_Some (pc_stack s3) label) as [e ->]; [rewrite (inv_length _ _ _ Hs3); lia|]. simpl.
  repeat wp_prim. split_and!; [done| |by eapply HP].
  eapply later_trans0; [done|]. by eapply later_trans0.
Qed.

Lemma cases_ok m todo : forall i rt h s,
  inv m m s -> hok (code_writer s) h (Z.of_nat todo + 1) ->
  safe (parse_cases options todo i rt h)
    (fun r s' => inv m m s' /\ later 0 s s' /\ hok (code_writer s') r.2 1) s.
Proof.
  induction todo as [|todo IH]; intros i rt h s Hs Hh; simpl.
  { wp_prim. split_and!; [done|by apply later_same; destruct Hs|done]. }
  pose proof (one_case_ok emit_case (Z.of_nat (S todo) + 1) m m h s (fun w h' => hok w h' (Z.of_nat todo + 1))) as H1.
  assert (Hrest : forall i rt h s1, inv m m s1 -> later 0 s s1 -> hok (code_writer s1) h (Z.of_nat todo + 1) ->
    safe (parse_cases options todo i rt h)
      (fun r s' => inv m m s' /\ later 0 s s' /\ hok (code_writer s') r.2 1) s1).
  { intros i' rt' h' s1 Hs1 Hl1 Hh1. eapply wp_mono; [by apply IH| |done]. intros r s2 (? & ? & ?).
    split_and!; [done|by eapply later_trans0|done]. }
  assert (Hone : safe (label ← from_code parse_varuint32; dc ← compute_depth_change options label;
        b ← emits (emit_case dc.1 dc.2 h); handle_branch_target label b.1;; e ← pc_at label; mret (b, e))
    (fun r s' => inv m m s' /\ later 0 s s' /\ hok (code_writer s') r.1.2 (Z.of_nat todo + 1)) s).
  { apply H1; [|auto|done|done]. intros d rt' w Hw Hh'.
    eapply wp_mono; [eapply emit_case_ok; [done|exact Hh'|lia]| |done].
    intros r w' (? & ? & ? & ?). split_and!; [done..|]. by replace (Z.of_nat todo + 1) with (Z.of_nat (S todo) + 1 - 1) by lia. }
  clear H1 IH. revert Hone. unfold wp, mbind, M_bind.
  destruct (from_code parse_varuint32 s) as [[l|?|?] s1]; [|done|done].
  destruct (compute_depth_change options l s1) as [[dc|?|?] s2]; [|done|done].
  destruct (emits _ s2) as [[b|?|?] s3]; [|done|done].
  destruct (handle_branch_target l b.1 s3) as [[[]|?|?] s4]; [|done|done].
  destruct (pc_at l s4) as [[e|?|?] s5]; [|done|done]. simpl. intros (Hs5 & Hl5 & Hh5).
  destruct (i =? 0); [by apply Hrest|]. unfold parse_assert, assertM, lift, EOS_VM_ASSERT.
  destruct (_ =? _); [|done]. by apply Hrest.
Qed.

Lemma ok_br_table m : live m -> steady m (parse_br_table (W := W) options).
Proof.
  intros Hm. apply in_bounds; [done|]. intros H0. destruct m as [|m]; [done|].
  eapply ok_bind_0; [apply ok_u32|]. intros size Hsize. eapply ok_bind_0; [apply ok_assert|]. intros ? _.
  eapply ok_bind_0; [apply ok_pop; auto with body|]. intros _ _ s Hs. wp_prim.
  assert (He : safe (emits (emit_br_table size)) (fun h s' => inv (S m) (S m) s' /\ later 0 s s' /\
      hok (code_writer s') h (size + 1)) s).
  { apply (emits_ok _ _ _ (fun h w => hok w h (size + 1))); [done|].
    apply emit_br_table_ok; [by destruct Hs|done]. }
  eapply wp_mono; [exact He| |done]. intros h s1 (Hs1 & Hl1 & Hh). wp_prim.
  destruct Hsize as [Hsz _]. eapply wp_mono; [apply cases_ok; [done|]| |done].
  { by rewrite Z2Nat.id. }
  intros [rt h'] s2 (Hs2 & Hl2 & Hh2). simpl in *.
  assert (Hone : safe (label ← from_code parse_varuint32; dc ← compute_depth_change options label;
        b ← emits (emit_default dc.1 dc.2 h'); handle_branch_target label b.1;; e ← pc_at label; mret (b, e))
    (fun r s' => inv (S m) (S m) s' /\ later 0 s2 s' /\ True) s2).
  { apply (one_case_ok emit_default 1 _ _ h' s2 (fun _ _ => True)); [|done|done|done].
    intros d rt' w Hw Hh'. eapply wp_mono; [by eapply emit_default_ok| |done].
    intros r w' (? & ? & ?). done. }
  assert (Hend : forall e s3, inv (S m) (S m) s3 -> later 0 s2 s3 ->
    safe (parse_assert ((size =? 0) || (rt =? label_result e)) "br_table labels must have the same type";;
      start_unreachable) (fun _ s' => inv (S m) (S m) s' /\ later 0 s s' /\ True) s3).
  { intros e s3 Hs3 Hl3. wp_prim. eapply wp_mono; [by apply ok_assert| |done]. intros _ s4 (Hs4 & Hl4 & _).
    eapply wp_mono; [by apply ok_start| |done]. intros _ s5 (Hs5 & Hl5 & _). split_and!; [done| |done].
    do 4 (eapply later_trans0; [done|]). done. }
  revert Hone. unfold wp, mbind, M_bind.
  destruct (from_code parse_varuint32 s2) as [[l|?|?] s3]; [|done|done].
  destruct (compute_depth_change options l s3) as [[dc|?|?] s4]; [|done|done].
  destruct (emits _ s4) as [[b|?|?] s5]; [|done|done].
  destruct (handle_branch_target l b.1 s5) as [[[]|?|?] s6]; [|done|done].
  destruct (pc_at l s6) as [[e|?|?] s7]; [|done|done]. simpl. intros (Hs7 & Hl7 & _).
  apply (Hend e s7 Hs7 Hl7).
Qed.

(** A step that may open or close a scope: the function is still open after it, or
    the code is at an end. *)
Definition goes (bounds : Z) (m : nat) (k : M (body_state (W := W)) unit) : Prop :=
  forall s, inv m m s -> safe k (fun _ s' => exists m', inv m' m' s' /\ later 0 s s' /\
    (live m' \/ GuardedPtr.offset (bs_code s') = bounds)) s.

Lemma goes_steady bounds m k : live m -> steady m k -> goes bounds m k.
Proof. intros Hm Hk s Hs. eapply wp_mono; [by apply Hk| |done]. intros _ s' (? & ? & _). eauto. Qed.
Lemma goes_open bounds m k : ok m m k 0 (S m) (S m) (fun _ => True) -> goes bounds m k.
Proof.
  intros Hk s Hs. eapply wp_mono; [by apply Hk| |done]. intros _ s' (? & ? & _). exists (S m).
  split_and!; [done|done|]. left. by intros _.
Qed.

Lemma nontag_value t : is_value_type options t = true -> nontag t.
Proof.
  unfold is_value_type. intros H. unfold nontag.
  split; intros ->; vm_compute in H; by destruct (Opt.enable_simd options).
Qed.

Lemma ok_block_type m msg : ok m m (block_type (W := W) options msg) 0 m m nontag.
Proof.
  unfold block_type. eapply ok_bind_0; [apply ok_byte0|]. intros b _. cbv zeta. match goal with |- context [if ?c then pseudo else b] => set (t := if c then pseudo else b) end.
  eapply ok_bind_0; [apply ok_assert|]. intros ? Ht. cbv beta in Ht. apply ok_mret.
  apply orb_prop in Ht as [Ht|Ht]; [by apply nontag_value|]. apply Z.eqb_eq in Ht. rewrite Ht. apply nontag_pseudo.
Qed.

Lemma ok_control n m : ok n m (on_control_ (W := W) options) 0 n m (fun _ => True).
Proof.
  unfold on_control_. eapply ok_bind_0; [by apply (ok_gets _ _ _ (fun _ : Z => True))|]. intros x _.
  eapply ok_bind_0; [apply (ok_lift _ _ _ (fun _ : Z => True))|intros; apply ok_nested].
  unfold on_control, EOS_VM_ASSERT. destruct (Opt.eosio_max_nested_structures options); [|done].
  by destruct (_ <=? _).
Qed.

Lemma ok_emit_end n m : ok n m (emits (emit_end (W := W))) 0 n m (fun _ => True).
Proof.
  intros s Hs. apply (emits_ok _ _ _ (fun _ _ => True)); [done|].
  eapply wp_mono; [apply emit_end_ok; by destruct Hs| |done]. intros _ w' [? ?]. done.
Qed.
Lemma ok_emit_loop n m : ok n m (emits (emit_loop (W := W))) 0 n m (fun _ => True).
Proof.
  intros s Hs. apply (emits_ok _ _ _ (fun _ _ => True)); [done|].
  eapply wp_mono; [apply emit_loop_ok; by destruct Hs| |done]. intros _ w' [? ?]. done.
Qed.

Lemma ok_block m : ok m m (parse_block (W := W) options) 0 (S m) (S m) (fun _ => True).
Proof.
  unfold parse_block. eapply ok_bind_0; [apply ok_block_type|]. intros t Ht.
  eapply ok_bind_0; [apply ok_depth|]. intros d _. eapply ok_bind_0; [by apply ok_push_pc|]. intros _ _.
  eapply ok_bind_0; [apply ok_plain; auto with plain|]. intros _ _.
  eapply ok_bind_0; [apply ok_push_scope|]. intros _ _. apply ok_control.
Qed.
Lemma ok_loop_instr m : ok m m (parse_loop_instr (W := W) options) 0 (S m) (S m) (fun _ => True).
Proof.
  unfold parse_loop_instr. eapply ok_bind_0; [apply ok_block_type|]. intros t Ht.
  eapply ok_bind_0; [apply ok_emit_loop|]. intros pos _.
  eapply ok_bind_0; [apply ok_depth|]. intros d _.
  eapply ok_bind_0; [apply ok_push_pc; simpl; auto with body|]. intros _ _.
  eapply ok_bind_0; [apply ok_push_scope|]. intros _ _. apply ok_control.
Qed.
Lemma ok_if m : live m -> ok m m (parse_if (W := W) options) 0 (S m) (S m) (fun _ => True).
Proof.
  intros Hm. unfold parse_if. eapply ok_bind_0; [by apply ok_in_bounds|]. intros _ _.
  eapply ok_bind_0; [apply ok_block_type|]. intros t Ht.
  apply ok_emit_branch; [apply emit_if_ok|]. intros b.
  eapply with_branch_bind; [apply ok_pop; auto with body|]. intros _ _.
  eapply with_branch_bind; [apply ok_depth|]. intros d _.
  eapply with_branch_then; [by apply push_pc_ok|].
  eapply ok_bind_0; [apply ok_push_scope|]. intros _ _. apply ok_control.
Qed.

Lemma ok_pop_scope n m t s :
  inv n m s -> nontag t ->
  safe (pop_scope options t) (fun _ s' => exists k, n = S k /\ inv k m s' /\ later 0 s s') s.
Proof.
  intros [Hc Ht Hlen Hpcs Hw] Hn.
  pose proof (pop_scope_tags options get_depth_for_type t n _ Ht Hn) as Hp.
  unfold wp, pop_scope, on_stack in *.
  destruct (Tracker.pop_scope options get_depth_for_type t (op_stack s)) as [[a|e|y] tr]; [|done|done].
  destruct Hp as (k & -> & Hk). exists k. split_and!; [done|by split|by apply later_same].
Qed.

(** [pc_stack.back()] *)
Lemma pc_back_ok n m s :
  inv n m s -> m <> O ->
  exists e l, pc_stack s = e :: l /\ pc_back s = (Ret e, s) /\ pc_ok (code_writer s) e.
Proof.
  intros [_ _ Hlen Hpc _] Hm. unfold pc_back, gets, lift, mbind, M_bind. destruct (pc_stack s) as [|e l]; [done|].
  exists e, l. inversion Hpc; subst. done.
Qed.

Lemma ok_else m : live m -> steady m (parse_else (W := W) options).
Proof.
  intros Hm. apply in_bounds; [done|]. intros H0 s Hs. destruct m as [|m]; [done|].
  destruct (pc_back_ok _ _ s Hs H0) as (e & pcs & Epc & Hback & Hpc). wp_prim.
  unfold wp at 1. rewrite Hback. wp_prim. unfold parse_assert. wp_prim; [|done].
  destruct Hpc as [H1 H2 Hif Hbr]. destruct (Hif H) as (b & l & Er). rewrite Er in Hbr |- *. simpl.
  inversion Hbr as [|? ? Hb Hbl]; subst. repeat wp_prim. simpl.
  eapply wp_mono; [by apply (ok_pop options (S m) (S m))| |done]. intros _ s1 (Hs1 & Hl1 & _).
  wp_prim. eapply wp_mono; [by apply ok_pop_scope; [|auto with body]| |done].
  intros _ s2 (k & [= <-] & Hs2 & Hl2). wp_prim.
  eapply wp_mono; [by apply ok_push_scope| |done]. intros _ s3 (Hs3 & Hl3 & _).
  assert (Hl13 : later 0 s s3) by (do 2 (eapply later_trans0; [eassumption|]); done).
  pose proof (later_writer _ _ _ Hl13) as Hw3. wp_prim.
  eapply wp_mono; [apply (emits_ok (S m) (S m) _ (fun b' w => bok w b')); [done|apply emit_else_ok; [by destruct Hs3|by apply Hw3]]| |done].
  intros b' s4 (Hs4 & Hl4 & Hb'). wp_prim. wp_prim.
  match goal with |- safe _ _ ?x => set (s5 := x) end.
  assert (H5 : inv (S m) (S m) s5 /\ later 0 s4 s5).
  { destruct Hs4 as [Hc Ht Hlen Hpcs Hw]. split; [|by apply later_same].
    split; simpl; [done|done| | |done].
    - destruct (pc_stack s4); [done|]. simpl in *. done.
    - constructor; [|by apply Forall_tail]. split; simpl; [done|done|done|]. constructor; [done|].
      revert Hbl. apply Forall_impl. intros x Hx. by apply (later_writer _ _ _ Hl4), Hw3. }
  destruct H5 as [Hs5 Hl5]. eapply wp_mono; [by apply ok_control| |done]. intros _ s6 (Hs6 & Hl6 & _). split_and!; [done| |done].
  do 3 (eapply later_trans0; [eassumption|]). done.
Qed.

Lemma fix_all_ok n m pos l s :
  inv n m s -> Forall (bok (code_writer s)) l ->
  safe (eachM (fun b => emits (fix_branch b pos)) l) (fun _ s' => inv n m s' /\ later 0 s s') s.
Proof.
  intros Hs Hl. revert s Hs Hl. induction l as [|b l IH]; intros s Hs Hl; simpl.
  { wp_prim. split; [done|]. apply later_refl. by destruct Hs. }
  inversion Hl as [|? ? Hb Hbl]; subst. wp_prim.
  eapply wp_mono; [apply (emits_ok n m _ (fun _ _ => True)); [done|]| |done].
  - eapply wp_mono; [apply fix_branch_ok; [by destruct Hs|done]| |done]. intros _ w' (? & ? & _). done.
  - intros _ s1 (Hs1 & Hl1 & _). eapply wp_mono; [apply IH; [done|]| |done].
    + revert Hbl. apply Forall_impl. intros x. apply (later_writer _ _ _ Hl1).
    + intros _ s2 [Hs2 Hl2]. split; [done|]. by eapply later_trans0.
Qed.

Lemma exit_scope_ok m s :
  inv m m s ->
  safe (exit_scope options) (fun _ s' => exists m', m = S m' /\ inv m' m' s' /\ later 0 s s') s.
Proof.
  intros Hs. unfold exit_scope, pc_stack_size, parse_assert. repeat wp_prim; [|done].
  assert (Hm : m <> O) by (rewrite (inv_length _ _ _ Hs) in H; destruct m; [done|lia]).
  destruct (pc_back_ok _ _ s Hs Hm) as (e & pcs & Epc & Hback & Hpc).
  unfold wp at 1. rewrite Hback. wp_prim. wp_prim; [|done].
  destruct Hpc as [H1 H2 Hif Hbr]. wp_prim.
  eapply wp_mono; [by apply ok_emit_end| |done]. intros pos s1 (Hs1 & Hl1 & _). wp_prim.
  assert (Hfix : safe (match relocations e with
    | inr l => eachM (fun branch_op => emits (fix_branch branch_op pos)) l | inl _ => mret tt end)
    (fun _ s' => inv m m s' /\ later 0 s1 s') s1).
  { destruct (relocations e) as [|l].
    - wp_prim. split; [done|]. apply later_refl. by destruct Hs1.
    - apply fix_all_ok; [done|]. revert Hbr. apply Forall_impl. intros x. apply (later_writer _ _ _ Hl1). }
  eapply wp_mono; [exact Hfix| |done]. intros _ s2 [Hs2 Hl2]. wp_prim.
  eapply wp_mono; [by apply ok_pop_scope| |done]. intros _ s3 (k & -> & Hs3 & Hl3). wp_prim.
  exists k. split; [done|]. destruct Hs3 as [Hc Ht Hlen Hpcs Hw]. split.
  - split; simpl; [done|done| |by apply Forall_tail|done]. destruct (pc_stack s3); [done|]. simpl in *. lia.
  - eapply later_trans0; [exact Hl1|]. eapply later_trans0; [exact Hl2|]. eapply later_trans0; [exact Hl3|].
    by apply later_same.
Qed.

Lemma goes_end bounds m : live m -> goes bounds m (parse_end (W := W) options bounds).
Proof.
  intros Hm s Hs. unfold parse_end. wp_prim. eapply wp_mono; [by apply ok_in_bounds| |done].
  intros _ s1 (Hs1 & Hl1 & _). wp_prim. eapply wp_mono; [by apply exit_scope_ok| |done].
  intros _ s2 (m' & -> & Hs2 & Hl2). unfold pc_stack_size, parse_assert. repeat wp_prim; [|done].
  match goal with |- exists _, inv _ _ ?x /\ _ => set (s3 := x) end. exists m'. split_and!.
  - destruct Hs2. by split.
  - eapply later_trans0; [exact Hl1|]. eapply later_trans0; [exact Hl2|]. apply later_same; [|done..]. by destruct Hs2.
  - rewrite (inv_length _ _ _ Hs2) in H. unfold live.
    destruct (Opt.allow_code_after_function_end options); [by left|].
    destruct (Z.eqb_spec (Z.of_nat m') 0) as [E|E]; simpl in H; [|left; intros _; lia].
    right. by apply Z.eqb_eq in H.
Qed.

(** ** The loop *)

Lemma goes_error bounds m msg : goes bounds m (parse_error msg).
Proof. by intros s Hs. Qed.

Lemma goes_control_flow bounds m o : live m -> goes bounds m (parse_control_flow (W := W) options bounds o).
Proof.
  intros Hm. destruct o; simpl; try apply goes_error.
  - apply goes_steady; [done|]. apply in_bounds; [done|]. intros H0. destruct m as [|m]; [done|].
    eapply ok_bind_0; [apply ok_plain; auto with plain|]. intros _ _. apply ok_start.
  - apply goes_steady; [done|]. apply ok_plain. auto with plain.
  - apply goes_open, ok_block.
  - apply goes_open, ok_loop_instr.
  - by apply goes_open, ok_if.
  - by apply goes_steady, ok_else.
  - by apply goes_end.
  - by apply goes_steady, ok_br.
  - by apply goes_steady, ok_br_if.
Qed.

Lemma goes_read {A} bounds m (k : reader A) (f : A -> M body_state unit) d Q :
  reads_ok d k Q -> 0 <= d -> (forall a, goes bounds m (f a)) -> goes bounds m (a ← from_code k; f a).
Proof.
  intros Hk Hd Hf s Hs. wp_prim. eapply wp_mono; [by eapply ok_read0| |done]. intros a s1 (Hs1 & Hl1 & _).
  eapply wp_mono; [by apply Hf| |done]. intros _ s2 (m' & Hs2 & Hl2 & Hend). exists m'.
  split_and!; [done|by eapply later_trans0|done].
Qed.

Lemma goes_opcode bounds m o :
  live m -> goes bounds m (parse_opcode options _mod _datacount type_aliases locals bounds o).
Proof.
  intros Hm. destruct o; simpl; try (apply goes_steady; [done|]; unfold steady; oks; fail).
  - by apply goes_control_flow.
  - by apply goes_steady, ok_br_table.
  - by apply goes_steady, ok_return_instr.
  - by apply goes_steady, ok_call_op.
  - by apply goes_steady, ok_parametric.
  - by apply goes_steady, ok_variable.
  - by apply goes_steady, ok_memory.
  - apply goes_steady, ok_numeric_op; auto with body plain.
  - destruct (is_extend o); [by apply goes_steady, ok_extend|]. apply goes_steady, ok_numeric_op; auto with body plain.
  - apply goes_steady, ok_numeric_op; auto with body plain.
  - intros s Hs. wp_prim. eapply wp_mono; [by apply ok_assert| |done]. intros _ s1 (Hs1 & Hl1 & _).
    assert (Hg : goes bounds m (c ← from_code parse_varuint32;
      match case_of vec_names c with
      | Some o => parse_vector options _mod o | None => parse_error "Illegal instruction" end)).
    { eapply goes_read; [apply ok_varuint32|done|]. intros c. destruct (case_of _ c) as [o|]; [|apply goes_error].
      by apply goes_steady, ok_vector. }
    eapply wp_mono; [by apply Hg| |done]. intros _ s2 (m' & Hs2 & Hl2 & Hend). exists m'.
    split_and!; [done|by eapply later_trans0|done].
  - eapply goes_read; [apply ok_varuint32|done|]. intros c. destruct (case_of _ c) as [[o|o]|]; [| |apply goes_error].
    + by apply goes_steady, ok_data.
    + by apply goes_steady, ok_ext_op.
Qed.

Lemma instr_ok bounds m s :
  live m -> inv m m s ->
  safe (parse_instr options _mod _datacount type_aliases locals bounds)
    (fun _ s' => exists m', inv m' m' s' /\ later 1 s s' /\
      (live m' \/ GuardedPtr.offset (bs_code s') = bounds)) s.
Proof.
  intros Hm Hs. unfold parse_instr, pc_stack_size, parse_assert. repeat wp_prim; [|done].
  eapply wp_mono; [by apply (ok_byte m m)| |done]. intros b s1 (Hs1 & Hl1 & _).
  assert (Hg : goes bounds m (match case_of opcode_names b with
    | Some o => parse_opcode options _mod _datacount type_aliases locals bounds o
    | None => parse_error "Illegal instruction" end)).
  { destruct (case_of _ b); [by apply goes_opcode|apply goes_error]. }
  eapply wp_mono; [by apply Hg| |done]. intros _ s2 (m' & Hs2 & Hl2 & Hend). exists m'.
  split_and!; [done|by eapply later_trans0|done].
Qed.

(** Every turn reads a byte, so the fuel is enough; when the function is closed
    before its last byte the loop has stopped. *)
Lemma instrs_ok bounds fuel : forall m s,
  live m \/ GuardedPtr.offset (bs_code s) = bounds -> inv m m s ->
  Z.max 0 (bounds - GuardedPtr.offset (bs_code s)) < Z.of_nat fuel ->
  safe (parse_instrs options _mod _datacount type_aliases locals fuel bounds)
    (fun _ s' => exists m', inv m' m' s' /\ later 0 s s') s.
Proof.
  induction fuel as [|fuel IH]; intros m s Hm Hs Hf; [lia|]. simpl. repeat wp_prim.
  destruct (Z.ltb_spec (GuardedPtr.offset (bs_code s)) bounds) as [Hlt|Hge].
  - destruct Hm as [Hm|Hm]; [|lia]. wp_prim. eapply wp_mono; [by apply (instr_ok bounds m)| |done].
    intros _ s1 (m1 & Hs1 & Hl1 & Hend). pose proof (moved_raw _ _ _ (later_code _ _ _ Hl1)) as Hr.
    unfold GuardedPtr.offset in *. eapply wp_mono; [apply (IH m1); [done|done|lia]| |done].
    intros _ s2 (m2 & Hs2 & Hl2). exists m2. split; [done|].
    destruct Hl1 as [Hc1 Hw1], Hl2 as [Hc2 Hw2]. split; [|by eapply extends_trans].
    eapply moved_weaken; [by eapply moved_trans|lia].
  - wp_prim. exists m. split; [done|]. apply later_refl. by destruct Hs.
Qed.

Lemma initial_inv code lc ft nested (w : W) :
  cursor_ok code -> winv w -> ft_ok ft ->
  inv 1 1 (initial_state options code lc ft nested w).
Proof.
  intros Hc Hw [_ Hr]. split; simpl; [done|by repeat constructor|done| |done].
  assert (Hn : nontag (function_result ft)).
  { unfold function_result. destruct (Z.eqb_spec (return_count ft) 0); [apply nontag_pseudo|by apply Hr]. }
  repeat constructor; simpl; done || apply Hn.
Qed.

(** The body of a function: it returns or throws, and the writer can still be
    finished. *)
Lemma body_code_ok bounds code lc ft nested (w : W) :
  cursor_ok code -> raw_ptr code = 0 -> winv w -> ft_ok ft -> ret_safe (locals_count locals) ->
  safe (parse_function_body_code options _mod _datacount type_aliases locals bounds)
    (fun _ s' => winv (code_writer s')) (initial_state options code lc ft nested w).
Proof.
  intros Hc H0 Hw Hft Hcount. unfold parse_function_body_code. wp_prim.
  eapply wp_mono; [apply (instrs_ok bounds _ 1%nat)| |done].
  { left. by intros _. } { by apply initial_inv. } { unfold GuardedPtr.offset. simpl. rewrite H0. lia. }
  intros _ s (m & Hs & _). wp_prim.
  assert (Husage : safe (match Opt.max_stack_bytes options with
     | Some _ => s ← gets op_stack; emits (set_stack_usage (Validation.stack_usage s))
     | None => mret tt end) (fun _ s' => winv (code_writer s')) s).
  { destruct (Opt.max_stack_bytes options); repeat wp_prim; [|by destruct Hs].
    eapply wp_mono; [apply (emits_ok m m _ (fun _ _ => True)); [done|]| |done].
    - eapply wp_mono; [apply set_stack_usage_ok; by destruct Hs| |done]. intros _ w' [? ?]. done.
    - intros _ s' (Hs' & _ & _). by destruct Hs'. }
  eapply wp_mono; [exact Husage| |done]. intros ? s' Hw'. unfold pc_stack_size, parse_assert.
  repeat wp_prim; [|done]. destruct (locals_count locals); [|done|done]. by wp_prim.
Qed.
End Instructions.
