(* ===== verification/ParserSafety.v ===== *)
(** * The parser is safe and validates the module (parser.hpp)

    Whatever the bytes, [parse_wasm] returns a module or throws a library
    exception, within its fuel and without undefined behaviour, for every writer
    that keeps the contract; the module it returns is well formed. *)
From S2P Require Import Prelude GuardedPtr Leb128 Allocator Opcodes Types OpSigs Validation Writers FunctionBody Parser ReaderProofs Utf8 WriterLaws BodySafety InstrSafety.

(** ** Outcomes without undefined behaviour *)
Definition yields {A} (o : outcome A) (Q : A -> Prop) : Prop :=
  match o with Ret a => Q a | Throw _ => True | UB _ => False end.
Lemma yields_bind {A B} (o : outcome A) (f : A -> outcome B) Q R :
  yields o Q -> (forall a, Q a -> yields (f a) R) -> yields (mbind f o) R.
Proof. destruct o; simpl; auto. Qed.
Lemma yields_Ret {A} (o : outcome A) (Q R : A -> Prop) : yields o Q -> (forall a, o = Ret a -> R a) -> yields o R.
Proof. destruct o; simpl; auto. Qed.
Lemma yields_mono {A} (o : outcome A) (Q R : A -> Prop) : yields o Q -> (forall a, Q a -> R a) -> yields o R.
Proof. destruct o; simpl; auto. Qed.
Lemma yields_run {S A} (k : M S A) s (Q : A -> S -> Prop) :
  safe k Q s -> yields (run k s) (fun r => Q r.1 r.2).
Proof. unfold wp, run. by destruct (k s) as [[a|e|y] s']. Qed.
Lemma yields_vec_at {A} (l : list A) i :
  yields (vec_at l i) (fun a => l !! Z.to_nat i = Some a /\ 0 <= i < Z.of_nat (length l)).
Proof.
  unfold vec_at. destruct (nthZ l i) eqn:E; [|done]. pose proof (nthZ_bounds _ _ _ E).
  rewrite nthZ_lookup in E by lia. done.
Qed.
Lemma yields_map {A B} (f : A -> outcome B) (P : A -> Prop) l :
  (forall a, P a -> yields (f a) (fun _ => True)) -> Forall P l ->
  yields (map_outcome f l) (fun l' => length l' = length l).
Proof.
  intros Hf. induction 1 as [|a l Ha _ IH]; simpl; [done|].
  eapply yields_bind; [by apply Hf|]. intros b _. eapply yields_bind; [exact IH|]. intros l' Hl. simpl. congruence.
Qed.
Lemma ok_yields {A} (o : outcome A) (Q : A -> Prop) : yields o Q -> reads_ok 0 (pure_ o) Q.
Proof. intros H. by apply ok_pure. Qed.

Lemma yields_safe {A} (o : outcome A) : ret_safe o -> yields o (fun _ => True).
Proof. by destruct o. Qed.
Lemma add_bounded_safe l counter size msg : ret_safe (add_bounded l counter size msg).
Proof. unfold add_bounded, EOS_VM_ASSERT. by destruct (_ && _). Qed.

(** ** Locals *)
Section Locals.
Context (options : Opt.t).

Definition value_type_ok (t : Z) : Prop := is_value_type options t = true.

Record func_type_ok (ft : func_type) : Prop := FuncTypeOk {
  fto_params : Forall value_type_ok (param_types ft);
  fto_count : 0 <= return_count ft < 2;
  fto_result : return_count ft <> 0 -> value_type_ok (return_type ft);
  fto_size : Z.of_nat (length (param_types ft)) < 2 ^ 32
}.

Lemma func_type_ft_ok ft : func_type_ok ft -> ft_ok ft.
Proof.
  intros [Hp _ Hr _]. split; [|intros H; by eapply nontag_value, Hr].
  revert Hp. apply Forall_impl. intros t. apply nontag_value.
Qed.

Lemma push_boundaries_length locals count l :
  push_boundaries locals count = Ret l -> length l = length locals.
Proof.
  revert count l. induction locals as [|e locals IH]; intros count l; simpl; [by intros [= <-]|].
  unfold EOS_VM_ASSERT. destruct (_ <=? _); simpl; [|done].
  destruct (push_boundaries locals _) eqn:E; simpl; [|done|done]. intros [= <-]. simpl. f_equal. eauto.
Qed.

Lemma upper_bound_lt l x b : list.last l = Some b -> x < b -> (upper_bound l x < length l)%nat.
Proof.
  induction l as [|c l IH]; [done|]. intros Hl Hx. simpl. destruct (Z.ltb_spec x c); [lia|].
  destruct l as [|d l]; [simpl in Hl; simplify_eq; lia|]. assert (upper_bound (d :: l) x < length (d :: l))%nat by eauto.
  simpl in *. lia.
Qed.

Lemma local_types_safe ft entries :
  Forall value_type_ok (param_types ft) -> Forall (fun e => value_type_ok (local_type e)) entries ->
  yields (local_types ft entries) (fun lt =>
    (forall i, 0 <= i -> yields (local_type_at lt i) value_type_ok) /\ ret_safe (locals_count lt)).
Proof.
  intros Hp He. unfold local_types. destruct (push_boundaries entries _) as [l|e|y] eqn:E; simpl; [|done|].
  2:{ exfalso. revert E. generalize (Z.of_nat (length (param_types ft))). clear. revert y.
      induction entries as [|e entries IH]; intros y c; simpl; [done|]. unfold EOS_VM_ASSERT.
      destruct (_ <=? _); simpl; [|done]. destruct (push_boundaries entries _) eqn:E; simpl; [done|done|].
      intros _. by eapply IH in E. }
  apply push_boundaries_length in E. set (c := Z.of_nat (length (param_types ft))).
  assert (Hlast : exists b, list.last (c :: l) = Some b).
  { destruct (list.last (c :: l)) eqn:El; [eauto|]. by apply last_None in El. }
  destruct Hlast as [b Hb]. split.
  - intros i Hi. unfold local_type_at. simpl _boundaries. rewrite Hb. simpl. unfold EOS_VM_ASSERT.
    destruct (Z.ltb_spec i b) as [Hlt|]; simpl; [|done].
    pose proof (upper_bound_lt _ _ _ Hb Hlt) as Hu. simpl in Hu.
    destruct (Z.ltb_spec i c) as [Hc|Hc].
    + destruct (nthZ_Some (param_types ft) i) as [t Ht]; [lia|]. rewrite Ht. simpl.
      rewrite nthZ_lookup in Ht by done. by eapply Forall_lookup_1 in Ht.
    + destruct (lookup_lt_is_Some_2 entries (upper_bound l i)) as [e Hl]; [lia|]. rewrite Hl. simpl.
      exact (Forall_lookup_1 _ _ _ _ He Hl).
  - unfold locals_count. simpl _boundaries. by rewrite Hb.
Qed.
End Locals.

(** ** The sections' entries *)
Create HintDb reads.
#[export] Hint Resolve ok_check ok_require ok_peek : reads.

Lemma ok_read_byte0 : reads_ok 0 read_byte is_byte.
Proof. eapply ok_mono; [apply ok_read_byte|done|done]. Qed.
Lemma ok_varuint32_0 : reads_ok 0 parse_varuint32 (in_u 32).
Proof. eapply ok_mono; [apply ok_varuint32|done|done]. Qed.
Lemma ok_varint32_0 : reads_ok 0 parse_varint32 (in_s 32).
Proof. eapply ok_mono; [apply ok_varint32|done|done]. Qed.
Lemma ok_varint64_0 : reads_ok 0 parse_varint64 (in_s 64).
Proof. eapply ok_mono; [apply ok_varint64|done|done]. Qed.
Lemma ok_varuint1_0 : reads_ok 0 parse_varuint1 (fun _ => True).
Proof. eapply ok_mono; [apply ok_varuint1|done|done]. Qed.
Lemma ok_raw0 n : 0 <= n -> reads_ok 0 (parse_raw n) (in_u (8 * n)).
Proof. intros Hn. eapply ok_mono; [by apply ok_parse_raw|done|done]. Qed.
Lemma ok_v128_0 : reads_ok 0 parse_v128 (fun v => in_u 64 (Op.low v) /\ in_u 64 (Op.high v)).
Proof. eapply ok_mono; [apply ok_parse_v128|done|done]. Qed.
Lemma ok_skip0 n : 0 <= n -> reads_ok 0 (skip n) (fun _ => True).
Proof. intros Hn. eapply ok_mono; [by apply ok_skip|done|done]. Qed.
Lemma ok_failed {A} e (Q : A -> Prop) : reads_ok 0 (fail e) Q.
Proof. apply ok_fail. Qed.
#[export] Hint Resolve ok_read_byte0 ok_varuint32_0 ok_varint32_0 ok_varint64_0 ok_varuint1_0 ok_v128_0
  ok_failed : reads.
#[export] Hint Extern 1 (reads_ok 0 (parse_raw _) _) => apply ok_raw0; lia : reads.

Lemma ok_forget {A} (k : reader A) Q : reads_ok 0 k Q -> reads_ok 0 k (fun _ => True).
Proof. intros Hk. by eapply ok_mono. Qed.

(** Symbolic execution of a reader *)
Ltac rprim := solve [eauto with reads nocore].
Ltac rsteps :=
  repeat lazymatch goal with
  | |- reads_ok 0 (mbind _ _) _ => eapply ok_bind0; [rsteps; fail|intros ? ?; cbv beta in *]
  | |- reads_ok 0 (mret _) _ => apply ok_ret
  | |- reads_ok 0 (if ?b then _ else _) _ => destruct b eqn:?
  | |- reads_ok 0 _ (fun _ => True) => eapply ok_forget; rprim
  | |- reads_ok 0 _ _ => rprim
  end.

Lemma ok_utf8_string max_size : reads_ok 0 (parse_utf8_string max_size) (fun _ => True).
Proof.
  change (parse_utf8_string max_size)
    with (len ← parse_varuint32; check (len <=? max_size) "name too long";; utf8_body len).
  eapply ok_bind0; [apply ok_varuint32_0|]. intros len Hlen. eapply ok_bind0; [apply ok_check|]. intros _ _.
  intros p Hp. pose proof (utf8_body_spec len p Hp Hlen) as [(Hle & _ & Hret)|[_ [e He]]]; unfold rwp.
  - rewrite Hret. split; [|done]. destruct Hp as [Hw Hd]. unfold in_u in Hlen. unfold GuardedPtr.advanced.
    constructor; simpl; [done|done|lia|]. split; [|done]. by apply GuardedPtr.advanced_wf; [|lia].
  - by rewrite He.
Qed.
#[export] Hint Resolve ok_utf8_string : reads.

(** A section or a vector of entries *)
Lemma ok_section {A St} max_elements (f : Z -> St -> reader (A * St)) (P : A -> Prop) (R : St -> Prop) st :
  (forall i st, R st -> reads_ok 0 (f i st) (fun r => P r.1 /\ R r.2)) -> R st ->
  reads_ok 0 (parse_section_impl max_elements f st)
    (fun r => Forall P r.1 /\ R r.2 /\ Z.of_nat (length r.1) <= max_elements).
Proof.
  intros Hf HR. unfold parse_section_impl. eapply ok_bind0; [apply ok_varuint32_0|]. intros n [Hn _].
  eapply ok_bind0; [apply ok_check|]. intros ? Hmax. cbv beta in Hmax. apply Z.leb_le in Hmax.
  eapply ok_mono; [by apply (ok_elems f P R)|done|]. intros [l st'] (? & ? & Hlen). simpl in *.
  split_and!; [done|done|]. rewrite Hlen. lia.
Qed.
Lemma ok_vector_of {A} max_elements (k : reader A) (P : A -> Prop) :
  reads_ok 0 k P ->
  reads_ok 0 (parse_vector_of max_elements k) (fun l => Forall P l /\ Z.of_nat (length l) <= max_elements).
Proof.
  intros Hk. unfold parse_vector_of.
  eapply ok_bind0; [apply (ok_section _ _ P (fun _ => True)); [intros; by apply ok_stateless|done]|].
  intros [l st] (? & _ & ?). by apply ok_ret.
Qed.

Section Entries.
Context (options : Opt.t).
Local Abbreviation value_type_ok := (value_type_ok options).

Lemma ok_value_type msg : reads_ok 0 (value_type options msg) value_type_ok.
Proof.
  unfold value_type. eapply ok_bind0; [apply ok_read_byte0|]. intros t _.
  eapply ok_bind0; [apply ok_check|]. intros ? Ht. by apply ok_ret.
Qed.
Hint Resolve ok_value_type : reads.

Lemma ok_func_type : reads_ok 0 (parse_func_type options) (func_type_ok options).
Proof.
  unfold parse_func_type. eapply ok_bind0; [apply ok_read_byte0|]. intros form _.
  eapply ok_bind0; [apply ok_check|]. intros ? _. eapply ok_bind0; [apply ok_varuint32_0|]. intros n [Hn Hn'].
  eapply ok_bind0; [apply ok_many; [apply ok_value_type|done]|]. intros params [Hp Hlen].
  eapply ok_bind0; [apply ok_read_byte0|]. intros rc [Hrc _].
  eapply ok_bind0; [apply ok_check|]. intros ? Hlt. cbv beta in Hlt. apply Z.ltb_lt in Hlt.
  eapply ok_bind0 with (Q := fun t => rc <> 0 -> value_type_ok t).
  - destruct (Z.ltb_spec 0 rc); [|apply ok_ret; lia]. eapply ok_mono; [apply ok_value_type|done|done].
  - intros t Ht. apply ok_ret. split; simpl; try done. by rewrite Hlen.
Qed.

(** An import is a function of a known type. *)
Definition import_ok (ntypes : nat) (i : import_entry) : Prop :=
  exists t, import_desc i = ImportFunc t /\ import_kind i = Function_ /\ 0 <= t < Z.of_nat ntypes.
Lemma ok_import_entry m : reads_ok 0 (parse_import_entry options m) (import_ok (length (types m))).
Proof.
  unfold parse_import_entry. eapply ok_bind0; [apply ok_utf8_string|]. intros ms _.
  eapply ok_bind0; [apply ok_utf8_string|]. intros fs _. eapply ok_bind0; [apply ok_read_byte0|]. intros kind _.
  eapply ok_bind0; [apply ok_varuint32_0|]. intros t [Ht _]. destruct (kind =? 0); [|apply ok_failed].
  eapply ok_bind0; [apply ok_check|]. intros ? Hlt. cbv beta in Hlt. apply Z.ltb_lt in Hlt. apply ok_ret.
  exists t. simpl. auto.
Qed.

Lemma ok_flags : reads_ok 0 (parse_flags options) (fun _ => True).
Proof. unfold parse_flags. rsteps; done. Qed.
Hint Resolve ok_flags : reads.

(** The least size is within the bound and, when there is a greatest, below it. *)
Definition limits_ok (bound : Z) (l : resizable_limits) : Prop :=
  0 <= initial l <= bound /\ (flags l = true -> initial l <= maximum l).

Lemma ok_table_type :
  reads_ok 0 (parse_table_type options) (fun t =>
    element_type t = anyfunc /\ limits_ok (Opt.max_table_elements options) (table_limits t)).
Proof.
  unfold parse_table_type. eapply ok_bind0; [apply ok_read_byte0|]. intros et _.
  eapply ok_bind0; [apply ok_check|]. intros ? Het. cbv beta in Het. apply Z.eqb_eq in Het.
  eapply ok_bind0; [apply ok_flags|]. intros fl _. eapply ok_bind0; [apply ok_varuint32_0|]. intros mn [Hmn _].
  eapply ok_bind0 with (Q := fun mx => fl = true -> mn <= mx).
  - destruct fl; [|by apply ok_ret]. eapply ok_bind0; [apply ok_varuint32_0|]. intros mx _.
    eapply ok_bind0; [apply ok_check|]. intros ? Hle. cbv beta in Hle. apply Z.leb_le in Hle. by apply ok_ret.
  - intros mx Hmx. eapply ok_bind0; [apply ok_check|]. intros ? Hle. cbv beta in Hle. apply Z.leb_le in Hle.
    by apply ok_ret.
Qed.

(** A memory has at most 65536 pages. *)
Definition memory_ok (t : memory_type) : Prop :=
  limits_ok 65536 (memory_limits t) /\
  (flags (memory_limits t) = true -> maximum (memory_limits t) <= 65536).
Lemma ok_memory_type : reads_ok 0 (parse_memory_type options) memory_ok.
Proof.
  unfold parse_memory_type. eapply ok_bind0; [apply ok_flags|]. intros fl _.
  eapply ok_bind0; [apply ok_varuint32_0|]. intros mn [Hmn _].
  eapply ok_bind0; [apply ok_check|]. intros ? _. eapply ok_bind0; [apply ok_check|].
  intros ? Hle. cbv beta in Hle. apply Z.leb_le in Hle.
  eapply ok_bind0 with (Q := fun mx => fl = true -> mn <= mx <= 65536).
  - destruct fl; [|by apply ok_ret]. eapply ok_bind0; [apply ok_varuint32_0|]. intros mx _.
    eapply ok_bind0; [apply ok_check|]. intros ? H1. cbv beta in H1. apply Z.leb_le in H1.
    eapply ok_bind0; [apply ok_check|]. intros ? H2. cbv beta in H2. apply Z.leb_le in H2. by apply ok_ret.
  - intros mx Hmx. apply ok_ret. split; [split|]; simpl; [lia|intros; by apply Hmx|intros; by apply Hmx].
Qed.

(** The type of an initialiser *)
Definition init_type (opcode : Z) : option Z :=
  if opcode =? 0x41 then Some i32 else if opcode =? 0x42 then Some i64
  else if opcode =? 0x43 then Some f32 else if opcode =? 0x44 then Some f64
  else if opcode =? 0xFD then Some v128 else None.

(** The bits of an initial value *)
Definition init_value_ok (v : expr_value) : Prop := in_u 64 (Op.low v) /\ in_u 64 (Op.high v).

Lemma ev_set_i32_ok n v : init_value_ok v -> init_value_ok (ev_set_i32 n v).
Proof.
  intros [[H1 H2] H3]. split; [|done]. simpl. pose proof (wrap_in_u 32 n ltac:(done)) as [Hn1 Hn2].
  rewrite Z.shiftl_mul_pow2, Z.shiftr_div_pow2 by done.
  assert (Hq : 0 <= Op.low v / 2 ^ 32 < 2 ^ 32).
  { split; [by apply Z.div_pos|]. apply Z.div_lt_upper_bound; lia. }
  assert (Hl : Z.land (Op.low v / 2 ^ 32 * 2 ^ 32) (wrap 32 n) = 0).
  { unfold wrap. rewrite <- Z.land_ones, <- Z.shiftl_mul_pow2 by done. apply Z.bits_inj'. intros i Hi.
    rewrite !Z.land_spec, Z.bits_0, Z.shiftl_spec, Z.testbit_ones_nonneg by lia.
    destruct (Z.ltb_spec i 32); [|by rewrite !andb_false_r]. by rewrite Z.testbit_neg_r by lia. }
  rewrite <- Z.lxor_lor, <- Z.add_nocarry_lxor by done. unfold in_u. lia.
Qed.

Lemma ev_set_i64_ok n v : init_value_ok v -> init_value_ok (ev_set_i64 n v).
Proof. intros [_ H]. split; [|done]. by apply wrap_in_u. Qed.

Lemma no_value_ok : init_value_ok no_value.
Proof. done. Qed.
#[local] Hint Resolve ev_set_i32_ok ev_set_i64_ok no_value_ok : core.

Lemma ok_init_expr t :
  reads_ok 0 (parse_init_expr options t) (fun ie => init_type (ie_opcode ie) = Some t /\ init_value_ok (ie_value ie)).
Proof.
  unfold parse_init_expr. eapply ok_bind0; [apply ok_read_byte0|]. intros op _.
  eapply ok_bind0 with (Q := fun v => init_type op = Some t /\ init_value_ok v).
  - unfold init_type. repeat destruct (op =? _); [..|apply ok_failed].
    + eapply ok_bind0; [apply ok_varint32_0|]. intros v _. eapply ok_bind0; [apply ok_check|].
      intros ? Ht%Z.eqb_eq. apply ok_ret. rewrite Ht. by auto.
    + eapply ok_bind0; [apply ok_varint64_0|]. intros v _. eapply ok_bind0; [apply ok_check|].
      intros ? Ht%Z.eqb_eq. apply ok_ret. rewrite Ht. by auto.
    + eapply ok_bind0; [by apply (ok_raw0 4)|]. intros v _. eapply ok_bind0; [apply ok_check|].
      intros ? Ht%Z.eqb_eq. apply ok_ret. rewrite Ht. by auto.
    + eapply ok_bind0; [by apply (ok_raw0 8)|]. intros v _. eapply ok_bind0; [apply ok_check|].
      intros ? Ht%Z.eqb_eq. apply ok_ret. rewrite Ht. by auto.
    + eapply ok_bind0; [apply ok_check|]. intros ? _. eapply ok_bind0; [apply ok_varuint32_0|]. intros c _.
      eapply ok_bind0; [apply ok_check|]. intros ? _. eapply ok_bind0; [apply ok_v128_0|]. intros v Hv.
      eapply ok_bind0; [apply ok_check|]. intros ? Ht%Z.eqb_eq. apply ok_ret. by rewrite Ht.
  - intros v Ht. eapply ok_bind0; [apply ok_read_byte0|]. intros e _. eapply ok_bind0; [apply ok_check|].
    intros ? _. by apply ok_ret.
Qed.

(** A global has a value type, and its initialiser that type and a value in range. *)
Definition global_ok (g : global_variable) : Prop :=
  value_type_ok (content_type (gl_type g)) /\
  init_type (ie_opcode (gl_init g)) = Some (content_type (gl_type g)) /\ init_value_ok (ie_value (gl_init g)).
Lemma ok_global counter :
  reads_ok 0 (parse_global_variable options counter) (fun r => global_ok r.1 /\ True).
Proof.
  unfold parse_global_variable. eapply ok_bind0; [apply ok_value_type|]. intros ct Hct.
  eapply ok_bind0; [apply ok_varuint1_0|]. intros mut _.
  eapply ok_bind0 with (Q := fun _ => True).
  - destruct mut; [|by apply ok_ret]. apply ok_yields, yields_safe. unfold on_mutable_global.
    destruct (Opt.max_mutable_global_bytes options); [apply add_bounded_safe|done].
  - intros c _. eapply ok_bind0; [apply ok_init_expr|]. intros ie Hie. by apply ok_ret.
Qed.

(** An export refers to something of its kind. *)
Definition export_ok (m : module) (e : export_entry) : Prop :=
  0 <= export_index e < match export_kind e with
    | Function_ => Mod.get_functions_total m
    | Table => Z.of_nat (length (tables m))
    | Memory => Z.of_nat (length (memories m))
    | Global => Z.of_nat (length (globals m))
    end.
Lemma ok_export_entry m : reads_ok 0 (parse_export_entry options m) (export_ok m).
Proof.
  unfold parse_export_entry. eapply ok_bind0; [apply ok_utf8_string|]. intros fs _.
  eapply ok_bind0; [apply ok_read_byte0|]. intros kind _. eapply ok_bind0; [apply ok_varuint32_0|]. intros x [Hx _].
  repeat destruct (kind =? _); [..|apply ok_failed];
    (eapply ok_bind0; [apply ok_check|]; intros ? Hlt%Z.ltb_lt); try (apply ok_ret; unfold export_ok; simpl; lia).
  eapply ok_bind0 with (Q := fun _ => True); [|intros _ _; apply ok_ret; unfold export_ok; simpl; lia].
  destruct (Opt.forbid_export_mutable_globals options); [|by apply ok_ret].
  eapply ok_bind0; [apply ok_yields, yields_vec_at|]. intros g _. eapply ok_forget, ok_check.
Qed.

(** An entry of an element segment is null or a function. *)
Definition table_entry_ok (m : module) (te : table_entry) : Prop :=
  te_index te = uint32_max \/ 0 <= te_index te < Mod.get_functions_total m.
Lemma ok_elem_expr m ff : reads_ok 0 (parse_elem_expr m ff) (table_entry_ok m).
Proof.
  unfold parse_elem_expr. eapply ok_bind0; [apply ok_read_byte0|]. intros op _.
  eapply ok_bind0 with (Q := table_entry_ok m).
  - repeat destruct (op =? _); [| |apply ok_failed].
    + eapply ok_bind0; [eapply ok_mono; [apply ok_peek|done|done]|]. intros b _. eapply ok_bind0; [apply ok_check|].
      intros ? _. eapply ok_bind0; [apply ok_read_byte0|]. intros _ _. apply ok_ret. by left.
    + eapply ok_bind0; [apply ok_varuint32_0|]. intros x [Hx _]. eapply ok_bind0; [apply ok_check|].
      intros ? Hlt%Z.ltb_lt. eapply ok_bind0; [apply ok_yields, yields_vec_at|]. intros t _. apply ok_ret. by right.
  - intros te Hte. eapply ok_bind0; [apply ok_read_byte0|]. intros e _. eapply ok_bind0; [apply ok_check|].
    intros ? _. by apply ok_ret.
Qed.
Lemma ok_elem_index m ff : reads_ok 0 (parse_elem_index m ff) (table_entry_ok m).
Proof.
  unfold parse_elem_index. eapply ok_bind0; [apply ok_varuint32_0|]. intros x [Hx _].
  eapply ok_bind0; [apply ok_yields, yields_vec_at|]. intros t _. eapply ok_bind0; [apply ok_check|].
  intros ? Hlt%Z.ltb_lt. apply ok_ret. by right.
Qed.

(** An active segment needs its table; every entry is null or a function. *)
Definition elem_segment_ok (m : module) (es : elem_segment) : Prop :=
  (es_mode es = active -> 0 <= es_index es < Z.of_nat (length (tables m))) /\
  Forall (table_entry_ok m) (es_elems es).
Lemma ok_elem_segment m ff : reads_ok 0 (parse_elem_segment options m ff) (elem_segment_ok m).
Proof.
  unfold parse_elem_segment. eapply ok_bind0; [apply ok_varuint32_0|]. intros fl _.
  eapply ok_bind0; [apply ok_check|]. intros ? _. eapply ok_bind0; [apply ok_check|]. intros ? _.
  eapply ok_bind0 with (Q := fun x => 0 <= x).
  { destruct (_ || _); [|by apply ok_ret]. eapply ok_mono; [apply ok_varuint32_0|done|]. by intros x [? _]. }
  intros x Hx.
  eapply ok_bind0 with (Q := fun h => h.1.1 = active -> 0 <= x < Z.of_nat (length (tables m))).
  { destruct (Z.land fl 1 =? 0).
    - eapply ok_bind0; [apply ok_init_expr|]. intros off _. eapply ok_bind0; [apply ok_check|]. intros ? Hlt%Z.ltb_lt.
      destruct (nthZ_Some (tables m) x) as [tt_ Ht]; [lia|].
      eapply ok_bind0; [apply (ok_yields _ (fun _ => True)); by rewrite Ht|]. intros t _. by apply ok_ret.
    - apply ok_ret. simpl. by destruct (Z.land fl 2 =? 0). }
  intros [[mode off] tok] Hmode. simpl in Hmode. eapply ok_bind0 with (Q := fun _ => True).
  { destruct (_ || _); [|destruct (_ || _)]; rsteps; done. }
  intros _ _. eapply ok_bind0; [apply ok_check|]. intros ? _. eapply ok_bind0; [apply ok_varuint32_0|]. intros n [Hn _].
  eapply ok_bind0; [apply ok_check|]. intros ? _. eapply ok_bind0; [apply (ok_many _ (table_entry_ok m)); [|done]|].
  { destruct (negb _); [apply ok_elem_expr|apply ok_elem_index]. }
  intros l [Hl _]. by apply ok_ret.
Qed.

(** A segment that is copied when the module is instantiated needs a memory. *)
Definition data_segment_ok (m : module) (ds : data_segment) : Prop :=
  ds_passive ds = false -> memories m <> [].

Lemma raw_then_skip {A} n (f : list Z -> A) (Q : A -> Prop) :
  0 <= n -> (forall l, Q (f l)) ->
  reads_ok 0 (shrunk n (p ← cursor; bytes ← pure_ (raw_bytes n p); skip n;; mret (f bytes))) Q.
Proof.
  intros Hn HQ. apply (ok_shrunk_raw n 0 (fun l => skip n;; mret (f l))); [done|]. intros l _ _.
  eapply ok_bind0; [by apply ok_skip0|]. intros _ _. apply ok_ret, HQ.
Qed.

Lemma ok_data_segment m : reads_ok 0 (parse_data_segment options m) (data_segment_ok m).
Proof.
  unfold parse_data_segment. eapply ok_bind0; [apply ok_varuint32_0|]. intros fl _.
  eapply ok_bind0 with (Q := fun r => r.2 = false -> memories m <> []).
  { destruct (_ || _); [|destruct (_ =? 1); [|destruct (_ =? 2)]].
    - eapply ok_bind0; [apply ok_init_expr|]. intros off _. eapply ok_bind0; [apply ok_check|]. intros ? Hm.
      apply ok_ret. intros _ E. by rewrite E in Hm.
    - by apply ok_ret.
    - eapply ok_bind0; [apply ok_varuint32_0|]. intros x [Hx _]. eapply ok_bind0; [apply ok_init_expr|]. intros off _.
      eapply ok_bind0; [apply ok_check|]. intros ? Hlt%Z.ltb_lt. apply ok_ret. intros _ E. rewrite E in Hlt. simpl in Hlt. lia.
    - apply ok_failed. }
  intros [[x off] pas] Hpas. eapply ok_bind0; [apply ok_varuint32_0|]. intros len [Hlen _].
  eapply ok_bind0; [apply ok_check|]. intros ? _. eapply ok_bind0; [apply ok_check|]. intros ? _.
  by apply raw_then_skip.
Qed.

(** ** Bodies *)

Definition local_ok (e : local_entry) : Prop := value_type_ok (local_type e) /\ in_u 32 (local_count e).

Lemma ok_local count : reads_ok 0 (parse_local options count) (fun r => local_ok r.1 /\ True).
Proof.
  unfold parse_local. eapply ok_bind0; [apply ok_varuint32_0|]. intros n Hn.
  eapply ok_bind0; [apply ok_read_byte0|]. intros t0 _. cbv zeta.
  match goal with |- context [is_value_type options ?x] => set (t := x) end.
  eapply ok_bind0; [apply ok_check|]. intros ? Ht. cbv beta in Ht.
  eapply ok_bind0; [apply ok_yields, yields_safe|intros c _; by apply ok_ret].
  unfold on_local. destruct (Opt.max_func_local_bytes options); [|done].
  destruct (counts _ _); [apply add_bounded_safe|done].
Qed.

(** A body and the bytes of its code: the cursor is at their start. *)
Definition body_ok (b : function_body * (guarded_ptr * Z)) : Prop :=
  Forall local_ok (fb_locals b.1) /\ cursor_ok b.2.1 /\ raw_ptr b.2.1 = 0 /\ in_u 32 (fb_size b.1).

Lemma on_types_safe l count : ret_safe (on_types options l count).
Proof.
  revert count. induction l as [|t l IH]; intros count; simpl; [done|].
  pose proof (on_type_safe options t count). destruct (on_type _ _ _); simpl; [apply IH|done|done].
Qed.

Lemma ok_function_body m idx : reads_ok 0 (parse_function_body options m idx) body_ok.
Proof.
  unfold parse_function_body. eapply ok_bind0; [apply ok_varuint32_0|]. intros size [Hsize _].
  eapply ok_bind0; [apply ok_check|]. intros ? _.
  assert (Hcursor : reads_ok 0 cursor (fun _ => True)).
  { intros p Hp. split; [by apply moved_refl|done]. }
  eapply ok_bind0; [exact Hcursor|]. intros before _. eapply ok_bind0; [apply ok_varuint32_0|]. intros n [Hn _].
  eapply ok_bind0; [apply ok_check|]. intros ? _.
  eapply ok_bind0; [apply ok_yields, yields_vec_at|]. intros t _.
  eapply ok_bind0; [apply ok_yields, yields_vec_at|]. intros ft _.
  eapply ok_bind0; [apply ok_yields, yields_safe|].
  { unfold local_checker_init. destruct (counts _ _); [apply on_types_safe|done]. }
  intros count _. eapply ok_bind0.
  { apply (ok_elems _ local_ok (fun _ => True)); [|done].
    intros i c _. apply ok_local. }
  intros [locals c] (Hlocals & _ & _). eapply ok_bind0; [exact Hcursor|]. intros after _. cbv zeta. simpl in *.
  set (sz := wrap 32 _). assert (Hszu : in_u 32 sz) by by apply wrap_in_u.
  assert (Hsz : 0 <= sz) by apply Hszu.
  intros p Hp. apply rwp_shrunk; [done|done|]. intros q Hq Hb. apply rwp_bind. unfold cursor, rwp at 1.
  match goal with |- rwp ?k _ _ => enough (Hk : reads_ok 0 k body_ok) by by apply Hk end.
  assert (Hs : 0 <= wrap 32 (sz - 1)) by (apply wrap_in_u; lia).
  eapply ok_bind0; [by apply ok_skip0|]. intros _ _. eapply ok_bind0 with (Q := fun _ => True).
  { destruct (Opt.allow_code_after_function_end options); [by apply ok_ret|]. eapply ok_bind0.
    - eapply ok_mono; [apply ok_peek|done|done].
    - intros b _. eapply ok_forget, ok_check. }
  intros _ _. eapply ok_bind0; [apply ok_read_byte0|]. intros _ _. apply ok_ret. split; [done|]. simpl.
  split; [|done]. destruct Hq as [[Hq1 Hq2] Hqd]. split; [|by apply Forall_drop].
  unfold GuardedPtr.wf. simpl. rewrite length_drop. lia.
Qed.
End Entries.
