(* ===== verification/ModuleSafety.v ===== *)
(** * Sections and modules (parser.hpp, [parse_module])

    The invariant [parsed] of the section loop says what is known of the module
    after the sections up to an order; each section establishes its part and the
    order of sections keeps the others. *)
From S2P Require Import Prelude GuardedPtr Leb128 Allocator Opcodes Types OpSigs Validation Writers FunctionBody Parser ReaderProofs WriterLaws BodySafety InstrSafety ParserSafety.

(** ** Names *)
Lemma ok_cursor : reads_ok 0 cursor (fun _ => True).
Proof. intros p Hp. split; [by apply moved_refl|done]. Qed.
Lemma ok_peek0 : reads_ok 0 peek_byte (fun _ => True).
Proof. eapply ok_mono; [apply ok_peek|done|done]. Qed.
#[export] Hint Resolve ok_cursor ok_peek0 : reads.

Lemma ok_many_any {A} (k : reader A) n :
  0 <= n -> reads_ok 0 k (fun _ => True) -> reads_ok 0 (parse_many k n) (fun _ => True).
Proof. intros Hn Hk. eapply ok_forget, ok_many; done. Qed.

Lemma ok_name_map n : 0 <= n -> reads_ok 0 (parse_name_map n) (fun _ => True).
Proof. intros Hn. apply ok_many_any; [done|]. unfold parse_name_assoc. rsteps. done. Qed.

Lemma ok_local_names : reads_ok 0 parse_local_names (fun _ => True).
Proof.
  unfold parse_local_names. eapply ok_bind0; [apply ok_varuint32_0|]. intros n [Hn _].
  apply ok_many_any; [done|]. eapply ok_bind0; [apply ok_varuint32_0|]. intros i _.
  eapply ok_bind0; [apply ok_varuint32_0|]. intros k [Hk _].
  eapply ok_bind0; [by apply ok_name_map|]. intros l _. by apply ok_ret.
Qed.

Lemma ok_subsection {A} id (k : reader A) :
  reads_ok 0 k (fun _ => True) -> reads_ok 0 (subsection id k) (fun _ => True).
Proof.
  intros Hk. unfold subsection. eapply ok_bind0; [apply ok_peek0|]. intros b _.
  destruct (b =? id); [|by apply ok_ret]. eapply ok_bind0; [apply ok_read_byte0|]. intros _ _.
  eapply ok_bind0; [apply ok_varuint32_0|]. intros n [Hn _].
  eapply ok_bind0; [by apply ok_consumed|]. intros a _. by apply ok_ret.
Qed.

Lemma ok_at_end : reads_ok 0 at_end (fun _ => True).
Proof. unfold at_end. rsteps. done. Qed.

Lemma ok_name_section : reads_ok 0 parse_name_section (fun _ => True).
Proof.
  unfold parse_name_section. eapply ok_bind0; [apply ok_at_end|]. intros [] _; [by apply ok_ret|].
  eapply ok_bind0; [by apply ok_subsection, ok_utf8_string|]. intros mn _.
  eapply ok_bind0; [apply ok_at_end|]. intros [] _; [by apply ok_ret|].
  eapply ok_bind0.
  { apply ok_subsection. eapply ok_bind0; [apply ok_varuint32_0|]. intros n [Hn _]. by apply ok_name_map. }
  intros fns _. eapply ok_bind0; [apply ok_at_end|]. intros [] _; [by apply ok_ret|].
  eapply ok_bind0; [apply ok_subsection, ok_local_names|]. intros lns _.
  eapply ok_bind0; [apply ok_at_end|]. intros [] _; [by apply ok_ret|]. apply ok_failed.
Qed.

(** ** What the parser knows of the module *)
Section Module.
Context {W : Type} `{wok : WriterOk W} (options : Opt.t) (a0 : Growable.t).

Definition in_range (n : nat) (i : Z) : Prop := 0 <= i < Z.of_nat n.

(** A start function takes and returns nothing. *)
Definition start_ok (m : module) : Prop :=
  start m = uint32_max \/
  exists ft, Mod.get_function_type m (start m) = Ret ft /\ param_types ft = [] /\ return_count ft = 0.

(** A valid module *)
Record module_valid (m : module) : Prop := ModuleValid {
  mv_types : Forall (func_type_ok options) (types m);
  mv_imports : Forall (import_ok (length (types m))) (imports m);
  mv_functions : Forall (in_range (length (types m))) (functions m);
  mv_code : length (code m) = length (functions m);
  mv_tables : (length (tables m) <= 1)%nat /\
    Forall (fun t => element_type t = anyfunc /\
                     limits_ok (Opt.max_table_elements options) (table_limits t)) (tables m);
  mv_memories : (length (memories m) <= 1)%nat /\ Forall memory_ok (memories m);
  mv_globals : Forall (global_ok options) (globals m);
  mv_exports : Forall (export_ok m) (exports m) /\ NoDup (field_str <$> exports m);
  mv_start : start_ok m;
  mv_elements : Forall (elem_segment_ok m) (elements m);
  mv_data : Forall (data_segment_ok m) (data_segments m)
}.

(** The first loop of [normalize_types] fills one alias per type. *)
Lemma aliases_length l : length (normalize_aliases l) = length l.
Proof. apply length_imap. Qed.

(** The state of the section loop, started with the allocator [a0], after the sections
    of order at most [h] *)
Record parsed (h : Z) (p : parser) : Prop := Parsed {
  ps_order : 0 <= h;
  ps_types : Forall (func_type_ok options) (types (pr_mod p));
  ps_imports : Forall (import_ok (length (types (pr_mod p)))) (imports (pr_mod p));
  ps_aliases : functions (pr_mod p) <> [] -> pr_type_aliases p = normalize_aliases (types (pr_mod p));
  ps_functions : code (pr_mod p) <> [] ->
    Forall (in_range (length (types (pr_mod p)))) (functions (pr_mod p));
  ps_tables : (length (tables (pr_mod p)) <= 1)%nat /\
    Forall (fun t => element_type t = anyfunc /\
                     limits_ok (Opt.max_table_elements options) (table_limits t)) (tables (pr_mod p));
  ps_memories : (length (memories (pr_mod p)) <= 1)%nat /\ Forall memory_ok (memories (pr_mod p));
  ps_globals : Forall (global_ok options) (globals (pr_mod p));
  ps_exports : Forall (export_ok (pr_mod p)) (exports (pr_mod p)) /\ NoDup (field_str <$> exports (pr_mod p));
  ps_start : start_ok (pr_mod p);
  ps_elements : Forall (elem_segment_ok (pr_mod p)) (elements (pr_mod p));
  ps_data : Forall (data_segment_ok (pr_mod p)) (data_segments (pr_mod p));
  st_types : h < 1 -> types (pr_mod p) = [];
  st_imports : h < 2 -> imports (pr_mod p) = [];
  st_functions : h < 3 -> functions (pr_mod p) = [];
  st_tables : h < 4 -> tables (pr_mod p) = [];
  st_memories : h < 5 -> memories (pr_mod p) = [];
  st_globals : h < 6 -> globals (pr_mod p) = [];
  st_exports : h < 7 -> exports (pr_mod p) = [];
  st_start : h < 8 -> start (pr_mod p) = uint32_max;
  st_elements : h < 9 -> elements (pr_mod p) = [];
  st_code : h < 11 -> code (pr_mod p) = [];
  st_data : h < 12 -> data_segments (pr_mod p) = [];
  st_allocator : h < 11 -> pr_allocator p = a0
}.

Lemma function_type_safe m i :
  Forall (func_type_ok options) (types m) -> Forall (import_ok (length (types m))) (imports m) -> 0 <= i ->
  yields (Mod.get_function_type m i) (func_type_ok options).
Proof.
  intros Ht Hi H0. unfold Mod.get_function_type, Mod.import_func_t.
  destruct (Z.ltb_spec i (Mod.get_imported_functions_size m)) as [Hlt|_].
  - unfold Mod.get_imported_functions_size in Hlt.
    pose proof (length_filter (fun i => import_kind i = Function_) (imports m)) as Hlen.
    destruct (nthZ_Some (imports m) i) as [e He]; [lia|]. rewrite He. simpl.
    rewrite nthZ_lookup in He by done. pose proof (Forall_lookup_1 _ _ _ _ Hi He) as (t & Hd & _ & Hr).
    rewrite Hd. simpl. destruct (nthZ_Some (types m) t Hr) as [ft Hft]. rewrite Hft. simpl.
    rewrite nthZ_lookup in Hft by lia. by eapply Forall_lookup_1 in Hft.
  - eapply yields_bind; [apply yields_vec_at|]. intros t _. eapply yields_mono; [apply yields_vec_at|].
    intros ft [Hft _]. by eapply Forall_lookup_1 in Hft.
Qed.

(** ** The code section *)

Lemma write_function_ok h p i body code count (w : W) nested maximum :
  parsed h p -> body_ok options (body, (code, count)) ->
  yields (write_function options p i body code count w nested maximum) (fun _ =>
    exists t, functions (pr_mod p) !! Z.to_nat i = Some t /\ 0 <= i /\ in_range (length (types (pr_mod p))) t).
Proof.
  intros Hp (Hlocals & Hcode & Hraw & _). simpl in *. unfold write_function.
  eapply yields_bind; [apply yields_vec_at|]. intros t [Ht Hi].
  eapply yields_bind; [apply yields_vec_at|]. intros ft [Hft Hr].
  pose proof (Forall_lookup_1 _ _ _ _ (ps_types _ _ Hp) Hft) as Hfto.
  eapply yields_bind; [apply (local_types_safe options); [by destruct Hfto|eapply Forall_impl; [|exact Hlocals]; by intros e []]|]. intros lt [Hlt Hcount].
  eapply yields_bind; [apply yields_run, emit_prologue_ok|]. intros [[] w1] Hw1. simpl in Hw1.
  assert (Hctx : context_ok (pr_mod p) (pr_type_aliases p) lt).
  { split.
    - eapply Forall_impl; [|exact (ps_types _ _ Hp)]. apply func_type_ft_ok.
    - intros j Hj. pose proof (function_type_safe (pr_mod p) j (ps_types _ _ Hp) (ps_imports _ _ Hp) Hj) as Hj'.
      destruct (Mod.get_function_type _ _); [by eapply func_type_ft_ok|done|done].
    - eapply Forall_impl; [|exact (ps_globals _ _ Hp)]. intros g [Hg _]. by eapply nontag_value.
    - rewrite (ps_aliases _ _ Hp); [apply aliases_length|]. intros E. by rewrite E in Ht.
    - intros j Hj. specialize (Hlt j Hj). destruct (local_type_at lt j); [by eapply nontag_value|done|done]. }
  eapply yields_bind; [apply yields_run; apply (body_code_ok options (pr_mod p) (pr_datacount p) _ lt Hctx);
    [done|done|done|by eapply func_type_ft_ok|done]|].
  intros [usage s] Hs. simpl in Hs.
  eapply yields_bind; [apply yields_run; by apply emit_epilogue_ok|]. intros [[] w2] Hw2. simpl in Hw2.
  eapply yields_bind; [apply yields_run; by apply finalize_ok|]. intros [b w3] _. simpl. eauto with lia.
Qed.

Lemma write_functions_ok h p l : forall i (w : W) nested maximum,
  parsed h p -> Forall (body_ok options) l -> 0 <= i ->
  yields (write_functions options p i l w nested maximum) (fun r =>
    length r.1 = length l /\
    forall k, (k < length l)%nat ->
      exists t, functions (pr_mod p) !! (Z.to_nat i + k)%nat = Some t /\ in_range (length (types (pr_mod p))) t).
Proof.
  induction l as [|[body [code count]] l IH]; intros i w nested maximum Hp Hl Hi; simpl.
  { split; [done|]. intros k Hk. lia. }
  inversion Hl as [|? ? Hb Hl']; subst.
  eapply yields_bind; [by eapply write_function_ok|]. intros [b [[w1 n1] m1]] (t & Ht & _ & Hr).
  eapply yields_bind; [apply (IH (i + 1)); [done|done|lia]|]. intros [bs st] [Hlen Hall]. simpl in *. split; [congruence|].
  intros [|k] Hk; [rewrite Nat.add_0_r; eauto|]. destruct (Hall k ltac:(lia)) as (t' & Ht' & Hr').
  exists t'. split; [|done]. rewrite <- Ht'. f_equal. lia.
Qed.

Lemma code_ok h p l n :
  parsed h p -> h < 11 -> Forall (body_ok options) l -> length l = length (functions (pr_mod p)) ->
  yields (write_code_out (W := W) options n l p) (parsed 11).
Proof.
  intros Hp Hh Hl Hlen. unfold write_code_out.
  eapply yields_bind; [apply yields_run, construct_ok|]. intros [w a] _.
  eapply yields_bind; [by eapply write_functions_ok|]. intros [bodies [[w1 n1] m1]] [Hb Hall]. simpl in Hb, Hall.
  eapply yields_bind; [apply yields_run, destruct_ok|]. intros [_ a1] _. simpl.
  destruct (install_ok w1 (with_maximum_stack m1 (with_code bodies (pr_mod p)))) as (bc & c & -> & Hc).
  simpl in Hc. destruct Hp. split; simpl; try done; try (intros; lia).
  - intros _. apply Forall_lookup. intros k t Ht. pose proof (lookup_lt_Some _ _ _ Ht).
    destruct (Hall k ltac:(lia)) as (t' & Ht' & Hr). simpl in Ht'. congruence.
  - intros. apply st_data0. lia.
Qed.

(** ** The other sections

    A section of order [k] finds the parts of later orders empty, so what they say
    of its part holds trivially. *)
Ltac stages :=
  repeat match goal with
  | H : _ < _ -> _ = _ |- _ => specialize (H ltac:(lia)) || clear H
  end.
Ltac section_part :=
  first
    [ assumption
    | lia
    | intros; lia
    | intros; congruence
    | left; assumption
    | match goal with H : _ = [] |- _ => rewrite H; by repeat constructor end ].
(** [p] is what the loop has; one part of it changes. *)
Ltac section_done Hp := destruct Hp; stages; split; simpl; try section_part.

Lemma ok_vector_part {A} n (k : reader A) (P : A -> Prop) (f : list A -> parser) h' :
  reads_ok 0 k P -> (forall l, Forall P l -> Z.of_nat (length l) <= n -> parsed h' (f l)) ->
  reads_ok 0 (l ← parse_vector_of n k; mret (f l)) (parsed h').
Proof. intros Hk Hf. eapply ok_bind0; [by apply ok_vector_of|]. intros l [? ?]. apply ok_ret. auto. Qed.

Lemma set_types_ok h p l :
  parsed h p -> h < 1 -> Forall (func_type_ok options) l -> parsed 1 (set_mod (with_types l (pr_mod p)) p).
Proof. intros Hp Hh Hl. section_done Hp. Qed.
Lemma set_imports_ok h p l :
  parsed h p -> h < 2 -> Forall (import_ok (length (types (pr_mod p)))) l ->
  parsed 2 (set_mod (with_imports l (pr_mod p)) p).
Proof. intros Hp Hh Hl. section_done Hp. Qed.
Lemma set_tables_ok h p l :
  parsed h p -> h < 4 -> Z.of_nat (length l) <= 1 ->
  Forall (fun t => element_type t = anyfunc /\
                   limits_ok (Opt.max_table_elements options) (table_limits t)) l ->
  parsed 4 (set_mod (with_tables l (pr_mod p)) p).
Proof. intros Hp Hh Hn Hl. section_done Hp. split; [lia|done]. Qed.
Lemma set_memories_ok h p l :
  parsed h p -> h < 5 -> Z.of_nat (length l) <= 1 -> Forall memory_ok l ->
  parsed 5 (set_mod (with_memories l (pr_mod p)) p).
Proof. intros Hp Hh Hn Hl. section_done Hp. split; [lia|done]. Qed.
Lemma set_globals_ok h p l c :
  parsed h p -> h < 6 -> Forall (global_ok options) l ->
  parsed 6 (Parser (with_globals l (pr_mod p)) (pr_datacount p) (pr_type_aliases p) (pr_fast_functions p) c
             (pr_nested_checker p) (pr_allocator p)).
Proof. intros Hp Hh Hl. section_done Hp. Qed.
Lemma set_exports_ok h p l :
  parsed h p -> h < 7 -> Forall (export_ok (pr_mod p)) l -> NoDup (field_str <$> l) ->
  parsed 7 (set_mod (with_exports l (pr_mod p)) p).
Proof. intros Hp Hh Hl Hd. section_done Hp. done. Qed.
Lemma set_elements_ok h p l :
  parsed h p -> h < 9 -> Forall (elem_segment_ok (pr_mod p)) l ->
  parsed 9 (set_mod (with_elements l (pr_mod p)) p).
Proof. intros Hp Hh Hl. section_done Hp. Qed.
Lemma set_data_ok h p l :
  parsed h p -> h < 12 -> Forall (data_segment_ok (pr_mod p)) l ->
  parsed 12 (set_mod (with_data_segments l (pr_mod p)) p).
Proof. intros Hp Hh Hl. section_done Hp. Qed.
Lemma set_names_ok h p n : parsed h p -> parsed h (set_mod (with_names n (pr_mod p)) p).
Proof. intros Hp. destruct Hp. by split. Qed.
Lemma set_start_ok h p s :
  parsed h p -> h < 8 -> start_ok (with_start s (pr_mod p)) ->
  parsed 8 (set_mod (with_start s (pr_mod p)) p).
Proof. intros Hp Hh Hs. section_done Hp. Qed.
Lemma advance_ok h k p : parsed h p -> h <= k -> parsed k p.
Proof. intros Hp Hk. destruct Hp. split; try done; try lia; (intros; match goal with H : _ -> ?g |- ?g => apply H; lia end). Qed.

Lemma normalize_ok h p l :
  parsed h p -> h < 3 -> yields (normalize_types (set_mod (with_functions l (pr_mod p)) p)) (parsed 3).
Proof.
  intros Hp Hh. unfold normalize_types. simpl.
  eapply yields_bind; [apply yields_safe|].
  { unfold import_aliases.
    pose proof (yields_map (fun i => t ← Mod.import_func_t (with_functions l (pr_mod p)) i;
        vec_at (normalize_aliases (types (pr_mod p))) t)
      (fun i => 0 <= i < Mod.get_imported_functions_size (with_functions l (pr_mod p)))
      (seqZ 0 (Mod.get_imported_functions_size (with_functions l (pr_mod p))))) as Hm.
    destruct (map_outcome _ _) as [x|e|y]; [done|done|]. apply Hm.
    - intros i Hi. unfold Mod.import_func_t, Mod.get_imported_functions_size in *. simpl in *.
      pose proof (length_filter (fun i => import_kind i = Function_) (imports (pr_mod p))) as Hlen.
      destruct (nthZ_Some (imports (pr_mod p)) i) as [e He]; [lia|]. rewrite He. simpl.
      rewrite nthZ_lookup in He by lia. pose proof (Forall_lookup_1 _ _ _ _ (ps_imports _ _ Hp) He) as (t & -> & _ & _).
      simpl. unfold vec_at. by destruct (nthZ _ t).
    - apply Forall_lookup. intros j i [-> Hi]%lookup_seqZ. lia. }
  intros im _. eapply yields_bind; [apply yields_safe|].
  { unfold function_aliases.
    pose proof (yields_map (vec_at (normalize_aliases (types (pr_mod p)))) (fun _ => True) l) as Hm.
    simpl. destruct (map_outcome _ l) as [x|e|y]; [done|done|]. apply Hm.
    - intros t _. unfold vec_at. by destruct (nthZ _ t).
    - by apply Forall_true. }
  intros df _. simpl. section_done Hp.
Qed.

Lemma has_duplicate_spec l : has_duplicate l = false -> NoDup l.
Proof.
  induction l as [|n l IH]; simpl; [constructor|]. intros H. apply orb_false_iff in H as [Hn Hl].
  constructor; [|auto]. by apply bool_decide_eq_false in Hn.
Qed.

(** The order of a section and the states in which it is read *)
Lemma section_ok h id k p :
  parsed h p -> nthZ section_order id = Some k -> id = 0 \/ h < k ->
  reads_ok 0 (parse_section options id p) (parsed (Z.max h k)).
Proof.
  intros Hp Hk Hor. pose proof (ps_order _ _ Hp) as H0. pose proof (nthZ_bounds _ _ _ Hk) as Hid.
  rewrite nthZ_lookup in Hk by lia. change (length section_order) with 13%nat in Hid.
  unfold parse_section. cbv zeta.
  destruct (Z.eqb_spec id 0) as [->|Hne].
  { simpl in Hk. simplify_eq. rewrite Z.max_l by lia. unfold parse_custom.
    eapply ok_bind0; [apply ok_utf8_string|]. intros name _. destruct (_ && _).
    - eapply ok_bind0; [apply ok_name_section|]. intros n _. apply ok_ret. by apply set_names_ok.
    - intros q Hq. apply rwp_bind. unfold cursor, rwp at 1.
      match goal with |- rwp ?f _ _ => enough (Hf : reads_ok 0 f (parsed h)) by by apply Hf end.
      eapply ok_bind0; [apply ok_skip0|intros; by apply ok_ret].
      destruct Hq as [[? ?] _]. unfold GuardedPtr.bounds, GuardedPtr.offset. lia. }
  destruct Hor as [?|Hlt]; [done|]. rewrite Z.max_r by lia.
  assert (Hcases : id = 1 \/ id = 2 \/ id = 3 \/ id = 4 \/ id = 5 \/ id = 6 \/ id = 7 \/ id = 8 \/
    id = 9 \/ id = 10 \/ id = 11 \/ id = 12) by lia.
  clear Hid Hne. destruct_or! Hcases; subst id; simpl in Hk; injection Hk as <-; cbn [Z.eqb Pos.eqb].
  - eapply ok_vector_part; [apply ok_func_type|]. intros l Hl _. by eapply set_types_ok.
  - eapply ok_vector_part; [apply ok_import_entry|]. intros l Hl _. by eapply set_imports_ok.
  - eapply ok_bind0 with (Q := fun p' => yields (normalize_types p') (parsed 3)).
    + eapply ok_bind0; [apply (ok_vector_of _ _ (fun _ => True)); eapply ok_forget, ok_varuint32_0|].
      intros l _. apply ok_ret. by eapply normalize_ok.
    + intros p' Hp'. by apply ok_yields.
  - eapply ok_vector_part; [apply ok_table_type|]. intros l Hl Hn. by eapply set_tables_ok.
  - eapply ok_bind0.
    + apply (ok_section 1 (parse_memory_entry options) memory_ok (fun _ => True)); [|done].
      intros i st _. unfold parse_memory_entry. eapply ok_bind0; [apply ok_check|]. intros ? _.
      eapply ok_bind0; [apply ok_memory_type|]. intros mt Hmt. by apply ok_ret.
    + intros [l st] (Hl & _ & Hn). apply ok_ret. by eapply set_memories_ok.
  - eapply ok_bind0.
    + apply (ok_section _ (fun _ => parse_global_variable options) (global_ok options) (fun _ => True)); [|done].
      intros i c _. apply ok_global.
    + intros [l c] (Hl & _ & _). apply ok_ret. by eapply set_globals_ok.
  - eapply ok_bind0 with (Q := fun p' => exists l, p' = set_mod (with_exports l (pr_mod p)) p /\
      Forall (export_ok (pr_mod p)) l).
    + eapply ok_bind0; [apply ok_vector_of, ok_export_entry|]. intros l [Hl _]. apply ok_ret. eauto.
    + intros p' (l & -> & Hl). unfold validate_exports. simpl.
      eapply ok_bind0 with (Q := fun _ => has_duplicate (field_str <$> l) = false).
      * apply ok_yields. unfold EOS_VM_ASSERT. by destruct (has_duplicate _).
      * intros _ Hd%has_duplicate_spec. apply ok_ret. by eapply set_exports_ok.
  - unfold parse_start. eapply ok_bind0; [apply ok_varuint32_0|]. intros x [Hx _].
    pose proof (function_type_safe (pr_mod p) x (ps_types _ _ Hp) (ps_imports _ _ Hp) Hx) as Hft.
    destruct (Mod.get_function_type (pr_mod p) x) as [ft|e|y] eqn:E; [|apply ok_failed|done].
    eapply ok_bind0 with (Q := fun ft' => ft' = ft); [by apply ok_ret|]. intros ? ->.
    eapply ok_bind0; [apply ok_check|]. intros ? Hb. cbv beta in Hb. apply andb_prop in Hb as [Hc Hb].
    apply ok_ret. eapply set_start_ok; [done|done|]. right. exists ft. split; [done|].
    apply Z.eqb_eq in Hc. by apply bool_decide_eq_true in Hb.
  - eapply ok_vector_part; [apply ok_elem_segment|]. intros l Hl _. by eapply set_elements_ok.
  - unfold parse_code_section. eapply ok_bind0.
    + apply (ok_section _ (fun idx _ => b ← parse_function_body options (pr_mod p) idx; mret (b, tt))
        (body_ok options) (fun _ => True)); [|done].
      intros i st _. eapply ok_bind0; [apply ok_function_body|]. intros b Hb. by apply ok_ret.
    + intros [l st] (Hl & _ & _). eapply ok_bind0; [apply ok_check|]. intros ? Hlen%Z.eqb_eq. simpl in *.
      eapply ok_bind0; [apply ok_cursor|]. intros c _. apply ok_yields. eapply code_ok; [done|done|done|lia].
  - unfold parse_data_section. eapply ok_bind0; [apply ok_vector_of, ok_data_segment|]. intros l [Hl _].
    eapply ok_bind0 with (Q := fun _ => True).
    + destruct (pr_datacount p); [eapply ok_forget, ok_check|by apply ok_ret].
    + intros _ _. apply ok_ret. by eapply set_data_ok.
  - eapply ok_bind0; [apply ok_varuint32_0|]. intros n _. apply ok_ret.
    apply (advance_ok h); [|lia]. destruct Hp. by split.
Qed.

(** ** What the code section promises

    A property [K] of modules that the writer establishes for the functions it
    compiles, and that the sections after the code do not change *)
Record of_code (K : module -> Prop) : Prop := OfCode {
  oc_none m : code m = [] -> K m;
  oc_code h p n l p' : parsed h p -> h < 11 -> Forall (body_ok options) l ->
    length l = length (functions (pr_mod p)) -> write_code_out (W := W) options n l p = Ret p' -> K (pr_mod p');
  oc_data l m : K m -> K (with_data_segments l m);
  oc_names n m : K m -> K (with_names n m);
  oc_limit b m : K m -> K (with_stack_limit_is_bytes b m)
}.
Context (K : module -> Prop) (HK : of_code K).

Definition known (h : Z) (p : parser) : Prop := parsed h p /\ K (pr_mod p).

Lemma reads_ok_and {A} n (k : reader A) (P Q : A -> Prop) :
  reads_ok n k P -> reads_ok n k Q -> reads_ok n k (fun a => P a /\ Q a).
Proof.
  intros HP HQ p Hp. specialize (HP p Hp). specialize (HQ p Hp). unfold rwp in *.
  destruct (k p) as [[a q]|e|x]; [|done|done]. destruct HP, HQ. done.
Qed.

Lemma section_known h id k p :
  known h p -> nthZ section_order id = Some k -> id = 0 \/ h < k ->
  reads_ok 0 (parse_section options id p) (known (Z.max h k)).
Proof.
  intros [Hp Hm] Hk Hor. apply reads_ok_and; [by apply section_ok|].
  pose proof (nthZ_bounds _ _ _ Hk) as Hid. change (length section_order) with 13%nat in Hid.
  destruct (Z.eqb_spec id 0) as [->|H0]; [|destruct (Z.eqb_spec id 10) as [->|H10];
    [|destruct (Z.eqb_spec id 11) as [->|H11]]].
  - unfold parse_section, parse_custom. cbn [Z.eqb]. eapply ok_bind0; [apply ok_utf8_string|]. intros name _.
    destruct (_ && _).
    + eapply ok_bind0; [apply ok_name_section|]. intros n _. apply ok_ret. by apply (oc_names _ HK).
    + intros q Hq. apply rwp_bind. unfold cursor, rwp at 1.
      match goal with |- rwp ?f _ _ => enough (Hf : reads_ok 0 f (fun p => K (pr_mod p))) by by apply Hf end.
      eapply ok_bind0; [apply ok_skip0|intros; by apply ok_ret].
      destruct Hq as [[? ?] _]. unfold GuardedPtr.bounds, GuardedPtr.offset. lia.
  - vm_compute in Hk. injection Hk as <-. destruct Hor as [?|Hlt]; [done|].
    unfold parse_section, parse_code_section. cbn [Z.eqb Pos.eqb]. eapply ok_bind0.
    + apply (ok_section _ (fun idx _ => b ← parse_function_body options (pr_mod p) idx; mret (b, tt))
        (body_ok options) (fun _ => True)); [|done].
      intros i st _. eapply ok_bind0; [apply ok_function_body|]. intros b Hb. by apply ok_ret.
    + intros [l st] (Hl & _ & _). eapply ok_bind0; [apply ok_check|]. intros ? Hlen%Z.eqb_eq. simpl in *.
      eapply ok_bind0; [apply ok_cursor|]. intros c _. apply ok_yields.
      eapply yields_Ret; [eapply code_ok; [exact Hp|done|done|lia]|].
      intros p'. eapply (oc_code _ HK); [exact Hp|done|done|lia].
  - unfold parse_section, parse_data_section. cbn [Z.eqb Pos.eqb].
    eapply ok_bind0; [apply ok_vector_of, ok_data_segment|]. intros l _.
    eapply ok_bind0 with (Q := fun _ => True).
    + destruct (pr_datacount p); [eapply ok_forget, ok_check|by apply ok_ret].
    + intros _ _. apply ok_ret. by apply (oc_data _ HK).
  - eapply ok_mono; [apply (section_ok h id k p Hp Hk Hor)|done|]. intros p' Hp'. apply (oc_none _ HK), (st_code _ _ Hp').
    destruct Hor as [?|Hor]; [done|]. rewrite Z.max_r by lia.
    assert (Hids : id ∈ [1; 2; 3; 4; 5; 6; 7; 8; 9; 12]) by (rewrite !elem_of_cons; lia).
    repeat (apply elem_of_cons in Hids as [->|Hids]; [vm_compute in Hk; injection Hk as <-; lia|]).
    by apply elem_of_nil in Hids.
Qed.

(** ** The loop *)
Lemma sections_ok fuel sz : forall h p q,
  known h p -> cursor_ok q -> bnds q = sz -> sz - raw_ptr q < Z.of_nat fuel ->
  rwp (parse_sections options fuel sz h p) (fun p' q' => cursor_ok q' /\ exists h', known h' p') q.
Proof.
  induction fuel as [|fuel IH]; intros h p q Hp Hq Hb Hf.
  { destruct Hq as [[? ?] _]. lia. }
  simpl. apply rwp_bind. unfold cursor, rwp at 1. destruct (Z.eqb_spec (GuardedPtr.offset q) sz) as [E|E].
  { split; [done|eauto]. }
  assert (Hstep : reads_ok 1 (id ← read_byte; len ← parse_varuint32; check (id <? 13) "invalid section id";;
      order ← pure_ (or_UB "order index out of range" (nthZ section_order id));
      check ((id =? 0) || (h <? order)) "section out of order";;
      p ← consumed len (parse_section options id p); mret (p, Z.max h order))
    (fun r => known r.2 r.1)).
  { rewrite <- (Z.add_0_r 1). eapply ok_bind; [apply ok_read_byte|]. intros id [Hid _].
    eapply ok_bind0; [apply ok_varuint32_0|]. intros len [Hlen _]. eapply ok_bind0; [apply ok_check|].
    intros ? Hlt%Z.ltb_lt. destruct (nthZ_Some section_order id) as [k Hk]; [simpl; lia|].
    eapply ok_bind0 with (Q := fun k' => k' = k); [apply ok_yields; by rewrite Hk|]. intros ? ->.
    eapply ok_bind0; [apply ok_check|]. intros ? Hor. cbv beta in Hor.
    eapply ok_bind0; [apply ok_consumed; [done|]; apply (section_known h id k); [done|done|]|].
    - apply orb_prop in Hor as [?%Z.eqb_eq|?%Z.ltb_lt]; auto.
    - intros p' Hp'. by apply ok_ret. }
  specialize (Hstep q Hq). revert Hstep. unfold rwp, mbind, reader_bind, mbind, outcome_bind.
  destruct (read_byte q) as [[id q1]|?|?]; [|done|done].
  destruct (parse_varuint32 q1) as [[len q2]|?|?]; [|done|done].
  destruct (check (id <? 13) _ q2) as [[[] q3]|?|?]; [|done|done].
  destruct (pure_ _ q3) as [[k q4]|?|?]; [|done|done].
  destruct (check _ _ q4) as [[[] q5]|?|?]; [|done|done].
  destruct (consumed len _ q5) as [[p' q6]|?|?]; [|done|done]. simpl. intros [Hm Hp'].
  destruct Hm as [_ Hb' Hr Hq']. apply IH; [done|done|congruence|]. simpl. lia.
Qed.

Lemma empty_parsed : parsed 0 (initial_parser options empty_module a0).
Proof. split; simpl; try done; try (by repeat constructor). Qed.

Lemma parse_wasm_known bs :
  bytes bs -> yields (parse_wasm options bs empty_module a0) (fun p => module_valid (pr_mod p) /\ K (pr_mod p)).
Proof.
  intros Hbs. unfold parse_wasm.
  assert (Hk : rwp (parse_module options (Z.of_nat (length bs)) empty_module a0)
    (fun p _ => module_valid (pr_mod p) /\ K (pr_mod p)) (GuardedPtr.of_buffer bs)).
  { unfold parse_module. pose proof (cursor_of_buffer bs Hbs) as Hc.
    apply rwp_bind. eapply rwp_mono; [by apply (ok_raw0 4)|]. intros x q1 [Hm1 _].
    apply rwp_bind. eapply rwp_mono; [apply ok_check; by destruct Hm1|]. intros ? q2 [Hm2 _].
    apply rwp_bind. eapply rwp_mono; [apply (ok_raw0 4); [done|by destruct Hm2]|]. intros v q3 [Hm3 _].
    apply rwp_bind. eapply rwp_mono; [apply ok_check; by destruct Hm3|]. intros ? q4 [Hm4 _].
    pose proof (moved_trans _ _ _ _ _ Hm1 (moved_trans _ _ _ _ _ Hm2 (moved_trans _ _ _ _ _ Hm3 Hm4))) as Hm.
    destruct Hm as [_ Hb Hr Hq4]. simpl in Hb, Hr.
    apply rwp_bind. eapply rwp_mono; [apply (sections_ok _ _ 0); [by split; [apply empty_parsed|apply (oc_none _ HK)]|done|done|]|].
    { destruct Hq4. lia. }
    intros p q5 [Hq5 [h [Hp Hm]]]. apply rwp_bind. eapply rwp_mono; [by apply ok_check|]. intros ? q6 [_ Hlen%Z.eqb_eq].
    split; [|by apply (oc_limit _ HK)]. destruct Hp. split; simpl; try done; [|lia].
    destruct (code (pr_mod p)) eqn:Ec; [|by apply ps_functions0].
    destruct (functions (pr_mod p)); [constructor|done]. }
  unfold rwp in Hk. by destruct (parse_module _ _ _ _ _) as [[p q]|e|y].
Qed.
End Module.

Lemma nothing_of_code {W} `{WriterOk W} options a0 : of_code (W := W) options a0 (fun _ => True).
Proof. by split. Qed.

Lemma parse_wasm_ok {W} `{wok : WriterOk W} options bs a :
  bytes bs -> yields (parse_wasm options bs empty_module a) (fun p => module_valid options (pr_mod p)).
Proof.
  intros Hbs. eapply yields_mono; [by apply (parse_wasm_known options a (fun _ => True) (nothing_of_code _ _))|].
  by intros p [Hp _].
Qed.
