(* ===== verification/ParserClaims.v ===== *)
(** * Theorems about the parser (parser.hpp) *)
From S2P Require Import Prelude GuardedPtr Leb128 Allocator Opcodes Types OpSigs Validation Writers FunctionBody Parser ReaderProofs WriterLaws BodySafety InstrSafety ParserSafety ModuleSafety.

(** ** A module with every section

    [m(i32) -> i32], with two locals: [block block local.get 0; br_table 0 1 end
    call 0 end; local.get 0; if global.get 0 else i32.const -1 end]. *)
#[local] Existing Instance linux.

Module Example.
Definition fbody : list Z :=
  [0x02; 0x40; 0x02; 0x40; 0x20; 0; 0x0E; 1; 0; 1; 0x0B; 0x10; 0; 0x0B;
   0x20; 0; 0x04; 0x7F; 0x23; 0; 0x05; 0x41; 0x7F; 0x0B; 0x0B].
Definition sections : list Z :=
  [1; 9; 2; 0x60; 1; 0x7F; 1; 0x7F; 0x60; 0; 0] ++
  [2; 7; 1; 1; 101; 1; 102; 0; 1] ++
  [3; 2; 1; 0] ++
  [4; 4; 1; 0x70; 0; 2] ++
  [5; 3; 1; 0; 1] ++
  [6; 6; 1; 0x7F; 1; 0x41; 7; 0x0B] ++
  [7; 5; 1; 1; 109; 0; 1] ++
  [8; 1; 0] ++
  [9; 7; 1; 0; 0x41; 0; 0x0B; 1; 1] ++
  [10; 30; 1; 28; 1; 2; 0x7E] ++ fbody ++
  [11; 7; 1; 0; 0x41; 4; 0x0B; 1; 42].
Definition wasm : list Z := [0; 0x61; 0x73; 0x6D; 1; 0; 0; 0] ++ sections.
Definition arena : Growable.t := (Growable.construct (sys := linux) 0 Growable.empty).2.

(** The code of [m]: a branch lands behind its block, [else] behind its [if]. *)
Definition branches_to (l : list Op.opcode) : list Z :=
  omap (fun o => match o with
                 | Op.CONTROL_FLOW _ imm => Some (Op.cf_pc imm)
                 | _ => None end) l.
Example compiled :
  (p ← parse_wasm (W := BitcodeWriter.t) default_options wasm empty_module arena;
   Ret (length (bitcode (pr_mod p)), branches_to (bitcode (pr_mod p)), maximum_stack (pr_mod p)))
  = Ret (11%nat, [9; 10], 3).
Proof. reflexivity. Qed.
End Example.

Section Claims.
Context {W : Type} `{wok : WriterOk W} (options : Opt.t).

(** C6. Whatever the bytes and the options, the parser, with any writer that keeps
    the contract [WriterOk], returns a module or throws (an exception of the library, or
    std::out_of_range where a vector is read with at()): no undefined behaviour (no read
    outside the input, no unchecked access outside a vector, no unset branch), and both
    the section loop and the instruction loop end within their fuel. *)
Theorem parse_wasm_safe bs a :
  bytes bs ->
  (exists p, parse_wasm options bs empty_module a = Ret p) \/
  (exists e, parse_wasm options bs empty_module a = Throw e).
Proof.
  intros Hbs. pose proof (parse_wasm_ok options bs a Hbs).
  destruct (parse_wasm options bs empty_module a); [eauto|eauto|done].
Qed.

(** C8. A module the parser returns is valid: types are made of value types with
    at most one result, functions and imports have a type of the module, every
    function has a body, there is at most one table and one memory within their
    limits, globals and their initialisers agree, exports are unique and refer to
    something of their kind, the start function takes and returns nothing, and
    segments refer to functions, to the table and to the memory. *)
Theorem parse_wasm_valid bs a p :
  bytes bs -> parse_wasm options bs empty_module a = Ret p -> module_valid options (pr_mod p).
Proof. intros Hbs Hp. pose proof (parse_wasm_ok options bs a Hbs) as H. by rewrite Hp in H. Qed.
End Claims.

Lemma wasm_bytes : bytes Example.wasm.
Proof. by_compute. Qed.

(** The example, with both writers, and a truncated one *)
Lemma parse_wasm_safe_witness :
  ((exists p, parse_wasm (W := NullWriter.t) eosio_options (take 40 Example.wasm) empty_module Example.arena = Ret p) \/
   (exists e, parse_wasm (W := NullWriter.t) eosio_options (take 40 Example.wasm) empty_module Example.arena = Throw e)) /\
  ((exists p, parse_wasm (W := BitcodeWriter.t) default_options Example.wasm empty_module Example.arena = Ret p) \/
   (exists e, parse_wasm (W := BitcodeWriter.t) default_options Example.wasm empty_module Example.arena = Throw e)).
Proof.
  split.
  - apply parse_wasm_safe. by apply Forall_take, wasm_bytes.
  - apply (parse_wasm_safe (W := BitcodeWriter.t)). apply wasm_bytes.
Defined.

Lemma parse_wasm_valid_witness :
  exists p, parse_wasm (W := BitcodeWriter.t) default_options Example.wasm empty_module Example.arena = Ret p /\
    module_valid default_options (pr_mod p).
Proof.
  destruct (parse_wasm (W := BitcodeWriter.t) default_options Example.wasm empty_module Example.arena) as [p|e|y] eqn:E.
  - exists p. split; [reflexivity|]. exact (parse_wasm_valid default_options _ _ _ wasm_bytes E).
  - exfalso. vm_compute in E. discriminate E.
  - exfalso. vm_compute in E. discriminate E.
Defined.
