(* ===== verification/ValidationClaims.v ===== *)
(** * Locals and type aliases (parser.hpp, [local_types_t] and [normalize_types]) *)
From S2P Require Import Prelude Opcodes Types Validation Parser.

(** ** The types of the locals *)

(** The locals as one list: the parameters, then every group spelled out. *)
Definition expand (entries : list local_entry) : list Z :=
  mjoin ((fun e => replicate (Z.to_nat (local_count e)) (local_type e)) <$> entries).
Definition all_locals (ft : func_type) (entries : list local_entry) : list Z :=
  param_types ft ++ expand entries.

Lemma expand_cons e entries :
  expand (e :: entries) = replicate (Z.to_nat (local_count e)) (local_type e) ++ expand entries.
Proof. done. Qed.

Definition total (entries : list local_entry) : Z := Z.of_nat (length (expand entries)).

Lemma push_boundaries_fits entries c :
  Forall (fun e => in_u 32 (local_count e)) entries -> in_u 32 c ->
  if c + total entries <=? uint32_max
  then exists l, push_boundaries entries c = Ret l /\ length l = length entries /\
         list.last (c :: l) = Some (c + total entries)
  else push_boundaries entries c = Throw (wasm_parse_exception "too many locals").
Proof.
  intros Hc. revert c. induction Hc as [|e entries He _ IH]; intros c Hc; simpl push_boundaries.
  - change (total []) with 0. unfold in_u, uint32_max in *. destruct (Z.leb_spec (c + 0) (2 ^ 32 - 1)); [|lia].
    exists []. split_and!; [done|done|]. simpl. f_equal. lia.
  - unfold total in *. rewrite expand_cons, length_app, length_replicate. unfold in_u, uint32_max in *.
    unfold EOS_VM_ASSERT. destruct (Z.leb_spec c (2 ^ 32 - 1 - local_count e)) as [Hle|Hgt]; simpl.
    + rewrite wrap_small by (unfold in_u; lia). specialize (IH (c + local_count e) ltac:(lia)).
      replace (c + local_count e + Z.of_nat (length (expand entries)))
        with (c + Z.of_nat (Z.to_nat (local_count e) + length (expand entries))) in IH by lia.
      destruct (c + _ <=? _).
      * destruct IH as (l & -> & Hlen & Hlast). simpl. eexists. split_and!; [done|simpl; congruence|done].
      * by rewrite IH.
    + destruct (Z.leb_spec (c + Z.of_nat (Z.to_nat (local_count e) + length (expand entries))) (2 ^ 32 - 1)); [lia|done].
Qed.

Lemma upper_bound_spec entries : forall c l i,
  Forall (fun e => in_u 32 (local_count e)) entries -> in_u 32 c ->
  push_boundaries entries c = Ret l -> c <= i < c + total entries ->
  exists e, entries !! upper_bound l i = Some e /\
    expand entries !! Z.to_nat (i - c) = Some (local_type e).
Proof.
  induction entries as [|e entries IH]; intros c l i Hall Hc Hl Hi; [unfold total, expand in Hi; simpl in Hi; lia|].
  inversion Hall as [|? ? He Hall']; subst. unfold total in *. rewrite expand_cons in *. rewrite length_app, length_replicate in Hi.
  revert Hl. simpl push_boundaries. unfold EOS_VM_ASSERT, in_u, uint32_max in *.
  destruct (Z.leb_spec c (2 ^ 32 - 1 - local_count e)) as [Hle|]; simpl; [|done].
  rewrite wrap_small by (unfold in_u; lia).
  destruct (push_boundaries entries (c + local_count e)) as [l'|x|y] eqn:El; simpl; [|done|done]. intros [= <-].
  simpl. destruct (Z.ltb_spec i (c + local_count e)) as [Hlt|Hge].
  - exists e. split; [done|]. rewrite lookup_app_l by (rewrite length_replicate; lia).
    apply lookup_replicate_2. lia.
  - destruct (IH (c + local_count e) l' i Hall' ltac:(lia) El ltac:(lia)) as (e' & He' & Hx). exists e'. split; [done|].
    rewrite lookup_app_r, length_replicate by (rewrite length_replicate; lia).
    rewrite <- Hx. f_equal. lia.
Qed.

Lemma local_types_flat_ok ft entries :
  Forall (fun e => in_u 32 (local_count e)) entries -> Z.of_nat (length (param_types ft)) < 2 ^ 32 ->
  if Z.of_nat (length (all_locals ft entries)) <=? uint32_max then
    exists lt, local_types ft entries = Ret lt /\
      (forall i, 0 <= i -> local_type_at lt i =
         match all_locals ft entries !! Z.to_nat i with
         | Some t => Ret t
         | None => Throw (wasm_parse_exception "undefined local")
         end) /\
      locals_count lt = Ret (total entries)
  else local_types ft entries = Throw (wasm_parse_exception "too many locals").
Proof.
  intros Hall Hp. unfold local_types, all_locals. rewrite length_app, Nat2Z.inj_add. fold (total entries).
  set (c := Z.of_nat (length (param_types ft))). assert (Hc : in_u 32 c) by (unfold in_u; lia).
  pose proof (push_boundaries_fits entries c Hall Hc) as Hfit.
  destruct (Z.leb_spec (c + total entries) uint32_max) as [Hle|]; [|by rewrite Hfit].
  destruct Hfit as (l & Hl & Hlen & Hlast). rewrite Hl. simpl. eexists. split; [done|]. split.
  - intros i Hi. unfold local_type_at. simpl _boundaries. rewrite Hlast. simpl. unfold EOS_VM_ASSERT.
    destruct (Z.ltb_spec i (c + total entries)) as [Hlt|Hge]; simpl.
    + destruct (Z.ltb_spec i c) as [Hic|Hic].
      * rewrite lookup_app_l by lia. destruct (nthZ_Some (param_types ft) i) as [t Ht]; [lia|]. rewrite Ht.
        rewrite nthZ_lookup in Ht by done. by rewrite Ht.
      * destruct (upper_bound_spec entries c l i Hall Hc Hl ltac:(lia)) as (e & He & Hx). rewrite He. simpl.
        rewrite lookup_app_r by lia. replace (Z.to_nat i - length (param_types ft))%nat with (Z.to_nat (i - c)) by lia.
        by rewrite Hx.
    + rewrite lookup_ge_None_2; [done|]. rewrite length_app. unfold total in *. lia.
  - unfold locals_count. simpl _boundaries. rewrite Hlast. simpl. f_equal. unfold wrap, uint32_max in *.
    rewrite Z.mod_small; unfold c, total in *; lia.
Qed.

(** C27. The groups of locals with their boundaries behave as the flat list of
    parameters and locals: the constructor succeeds exactly when that list has at
    most 2^32-1 elements, [operator[]] is its element at the index, or throws for an
    index past its end, and [locals_count] is its length without the parameters. *)
Theorem local_types_flat ft entries :
  Forall (fun e => in_u 32 (local_count e)) entries -> Z.of_nat (length (param_types ft)) < 2 ^ 32 ->
  if Z.of_nat (length (all_locals ft entries)) <=? uint32_max then
    exists lt, local_types ft entries = Ret lt /\
      (forall i, 0 <= i -> local_type_at lt i =
         match all_locals ft entries !! Z.to_nat i with
         | Some t => Ret t
         | None => Throw (wasm_parse_exception "undefined local")
         end) /\
      locals_count lt = Ret (total entries)
  else local_types ft entries = Throw (wasm_parse_exception "too many locals").
Proof. apply local_types_flat_ok. Qed.

Lemma local_types_flat_witness :
  let ft := FuncType func [i32; i64] 0 0 in
  let entries := [LocalEntry 2 f32; LocalEntry 0 i32; LocalEntry 1 f64] in
  exists lt, local_types ft entries = Ret lt /\ local_type_at lt 3 = Ret f32 /\ local_type_at lt 4 = Ret f64 /\
    local_type_at lt 5 = Throw (wasm_parse_exception "undefined local").
Proof.
  intros ft entries.
  assert (H : if Z.of_nat (length (all_locals ft entries)) <=? uint32_max then _ else _)
    by (apply (local_types_flat ft entries); [repeat constructor; by_compute|reflexivity]).
  simpl in H. destruct H as (lt & Hlt & Hat & _). exists lt. split; [exact Hlt|].
  repeat split; rewrite Hat by lia; reflexivity.
Defined.

(** ** Type aliases *)

(** [operator==] of [func_type] is an equivalence. *)
Record same_func_type (a b : func_type) : Prop := SameFuncType {
  sf_form : form a = form b;
  sf_params : param_types a = param_types b;
  sf_count : return_count a = return_count b;
  sf_result : return_count a = 0 -> return_type a = return_type b
}.
Lemma func_type_eqb_same a b : func_type_eqb a b = true <-> same_func_type a b.
Proof.
  unfold func_type_eqb. split.
  - intros H. destruct_bools. apply bool_decide_eq_true in H2. split; [done..|]. intros E.
    apply orb_prop in H0 as [H0|H0]; [by rewrite E in H0|by apply Z.eqb_eq].
  - intros [-> -> -> H]. rewrite !Z.eqb_refl, bool_decide_true by done. simpl.
    destruct (Z.eqb_spec (return_count b) 0) as [E|E]; [|done]. simpl. apply Z.eqb_eq. auto.
Qed.
Lemma same_func_type_refl a : same_func_type a a.
Proof. by split. Qed.
Lemma same_func_type_sym a b : same_func_type a b -> same_func_type b a.
Proof. intros [H1 H2 H3 H4]. split; [done..|]. rewrite <- H3. intros E. symmetry. auto. Qed.
Lemma same_func_type_trans a b c : same_func_type a b -> same_func_type b c -> same_func_type a c.
Proof. intros [H1 H2 H3 H4] [K1 K2 K3 K4]. split; [congruence..|]. intros E. rewrite H4 by done. apply K4. congruence. Qed.
#[export] Instance same_func_type_equiv : Equivalence same_func_type.
Proof. split; red; eauto using same_func_type_refl, same_func_type_sym, same_func_type_trans. Qed.

(** [std::find]: the index of the first match, or the end *)
Lemma first_equal_spec l ft n :
  exists k, first_equal l ft n = n + Z.of_nat k /\ (k <= length l)%nat /\
    (forall j t, (j < k)%nat -> l !! j = Some t -> ~ same_func_type t ft) /\
    (forall t, l !! k = Some t -> same_func_type t ft).
Proof.
  revert n. induction l as [|t l IH]; intros n; simpl.
  - exists O. split_and!; [lia|lia|intros; lia|done].
  - destruct (func_type_eqb t ft) eqn:E.
    + exists O. split_and!; [lia|lia|intros; lia|]. intros ? [= <-]. by apply func_type_eqb_same.
    + destruct (IH (n + 1)) as (k & Hk & Hlen & Hlt & Hat). exists (S k). split_and!; [lia|simpl; lia| |done].
      intros [|j] t' Hj Hl; [|by eapply Hlt; [|exact Hl]; lia].
      simpl in Hl. simplify_eq. intros Hs%func_type_eqb_same. congruence.
Qed.

(** The alias of type [i] is the first type equal to it. *)
Lemma alias_spec l i ft :
  l !! i = Some ft ->
  exists k t, normalize_aliases l !! i = Some (Z.of_nat k) /\ l !! k = Some t /\ same_func_type t ft /\
    (forall j t', (j < k)%nat -> l !! j = Some t' -> ~ same_func_type t' ft).
Proof.
  intros Hi. unfold normalize_aliases. rewrite list_lookup_imap, Hi. simpl.
  destruct (first_equal_spec (take i l) ft 0) as (k & -> & Hlen & Hlt & Hat).
  rewrite Z.add_0_l. pose proof (lookup_lt_Some _ _ _ Hi). rewrite length_take in Hlen.
  assert (Hbelow : forall j t', (j < k)%nat -> l !! j = Some t' -> ~ same_func_type t' ft).
  { intros j t' Hj Ht'. apply (Hlt j t' Hj). rewrite lookup_take. destruct (decide _); [done|lia]. }
  destruct (decide (k = i)) as [->|Hne]; [exists i, ft; split_and!; done|].
  destruct (lookup_lt_is_Some_2 l k) as [t Ht]; [lia|]. exists k, t. split_and!; [done|done| |done].
  apply Hat. rewrite lookup_take. destruct (decide _); [done|lia].
Qed.

(** [normalize_types] gives two types the same alias exactly when they are
    equal for [operator==], and the alias is an earlier or the same type. *)
Theorem normalize_aliases_correct l i j a b :
  l !! i = Some a -> l !! j = Some b ->
  (normalize_aliases l !! i = normalize_aliases l !! j <-> func_type_eqb a b = true) /\
  exists k, normalize_aliases l !! i = Some (Z.of_nat k) /\ (k <= i)%nat.
Proof.
  intros Hi Hj. rewrite func_type_eqb_same.
  destruct (alias_spec l i a Hi) as (k & t & Hk & Ht & Hta & Hkmin).
  destruct (alias_spec l j b Hj) as (k' & t' & Hk' & Ht' & Htb & Hkmin').
  rewrite Hk, Hk'. split.
  - split; intros E.
    + assert (k = k') as <- by (injection E; lia). rewrite Ht in Ht'. simplify_eq. by rewrite <- Hta.
    + assert (k = k') as ->; [|done]. destruct (Nat.lt_trichotomy k k') as [Hlt|[?|Hlt]]; [|done|].
      * exfalso. apply (Hkmin' _ _ Hlt Ht). by rewrite Hta.
      * exfalso. apply (Hkmin _ _ Hlt Ht'). by rewrite Htb.
  - exists k. split; [done|]. destruct (le_lt_dec k i); [done|]. exfalso. by apply (Hkmin i a).
Qed.

Lemma normalize_aliases_correct_witness :
  let a := FuncType func [i32] 1 i64 in
  let b := FuncType func [i64] 0 0 in
  normalize_aliases [a; b; a] = [0; 1; 0] /\
  (Some 0 = Some 1 <-> func_type_eqb a b = true).
Proof.
  split; [reflexivity|].
  exact (proj1 (normalize_aliases_correct
    [FuncType func [i32] 1 i64; FuncType func [i64] 0 0; FuncType func [i32] 1 i64] 0 1 _ _ eq_refl eq_refl)).
Defined.
