(* ===== verification/WriterAgreement.v ===== *)
(** * Validation does not depend on the writer (bitcode_writer.hpp, null_writer.hpp)

    A backend that only validates and the interpreter's backend accept the same
    functions: the two runs of the parser agree step by step, unless the
    interpreter's writer meets one of its own limits. *)
From S2P Require Import Prelude GuardedPtr Leb128 Allocator Opcodes Types OpSigs Validation Writers FunctionBody Parser.
Import Op(opcode, v128_t, V128).

(** ** Limits of the interpreter's writer

    An arena that is full, a code buffer that is too small, a depth or a stack
    size that its encodings cannot hold. *)
Definition limit_exn (e : exn) : Prop :=
  match e with
  | wasm_bad_alloc _ | wasm_vector_oob_exception _ => True
  | wasm_parse_exception msg =>
      msg = "Sorry, not implemented." \/ msg = "overwrote br_table data" \/
      msg = "integer overflow in operand depth"
  | _ => False
  end.

(** The left computation meets a limit, or both throw the same, or both return
    related results; the left one may be undefined. *)
Definition agree {S1 S2 A1 A2} (R : S1 -> S2 -> Prop) (Q : A1 -> A2 -> Prop)
    (k1 : M S1 A1) (k2 : M S2 A2) : Prop :=
  forall s1 s2, R s1 s2 ->
    match k1 s1 with
    | (Ret a, s1') => exists b s2', k2 s2 = (Ret b, s2') /\ Q a b /\ R s1' s2'
    | (Throw e, _) => limit_exn e \/ exists s2', k2 s2 = (Throw e, s2')
    | (UB _, _) => True
    end.

Section Rules.
Context {S1 S2 : Type} (R : S1 -> S2 -> Prop).

Lemma agree_bind {A1 A2 B1 B2} (k1 : M S1 A1) (k2 : M S2 A2) (f1 : A1 -> M S1 B1) (f2 : A2 -> M S2 B2) Q Q' :
  agree R Q k1 k2 -> (forall a b, Q a b -> agree R Q' (f1 a) (f2 b)) -> agree R Q' (mbind f1 k1) (mbind f2 k2).
Proof.
  intros Hk Hf s1 s2 Hs. specialize (Hk s1 s2 Hs). unfold mbind, M_bind.
  destruct (k1 s1) as [[a|e|y] s1']; [|destruct Hk as [?|[s2' ->]]; eauto|done].
  destruct Hk as (b & s2' & -> & Hab & Hs'). by apply Hf.
Qed.
Lemma agree_mono {A1 A2} (k1 : M S1 A1) (k2 : M S2 A2) (Q Q' : A1 -> A2 -> Prop) :
  agree R Q k1 k2 -> (forall a b, Q a b -> Q' a b) -> agree R Q' k1 k2.
Proof.
  intros Hk HQ s1 s2 Hs. specialize (Hk s1 s2 Hs). destruct (k1 s1) as [[a|e|y] s1']; [|done..].
  destruct Hk as (b & s2' & ? & ? & ?). eauto 6.
Qed.
Lemma agree_any {A1 A2} (k1 : M S1 A1) (k2 : M S2 A2) (Q : A1 -> A2 -> Prop) :
  agree R Q k1 k2 -> agree R (fun _ _ => True) k1 k2.
Proof. intros Hk. by eapply agree_mono. Qed.
Lemma agree_ret {A1 A2} (a : A1) (b : A2) (Q : A1 -> A2 -> Prop) : Q a b -> agree R Q (mret a) (mret b).
Proof. intros HQ s1 s2 Hs. simpl. eauto. Qed.
Lemma agree_lift {A} (o : outcome A) : agree R eq (lift o) (lift o).
Proof. intros s1 s2 Hs. unfold lift. destruct o; eauto 6. Qed.
Lemma agree_assert b msg : agree R eq (parse_assert b msg) (parse_assert b msg).
Proof. apply agree_lift. Qed.
Lemma agree_error {A1 A2} msg (Q : A1 -> A2 -> Prop) : agree R Q (parse_error msg) (parse_error msg).
Proof. intros s1 s2 Hs. right. by eexists. Qed.
Lemma agree_gets {A1 A2} (f : S1 -> A1) (g : S2 -> A2) (Q : A1 -> A2 -> Prop) :
  (forall s1 s2, R s1 s2 -> Q (f s1) (g s2)) -> agree R Q (gets f) (gets g).
Proof. intros HQ s1 s2 Hs. simpl. eauto 6. Qed.
Lemma agree_modify (f : S1 -> S1) (g : S2 -> S2) :
  (forall s1 s2, R s1 s2 -> R (f s1) (g s2)) -> agree R eq (modify f) (modify g).
Proof. intros HR s1 s2 Hs. simpl. eauto 6. Qed.
Lemma agree_each {A} (f1 : A -> M S1 unit) (f2 : A -> M S2 unit) l :
  (forall a, agree R (fun _ _ => True) (f1 a) (f2 a)) ->
  agree R (fun _ _ => True) (eachM f1 l) (eachM f2 l).
Proof.
  intros Hf. induction l as [|a l IH]; simpl; [by apply agree_ret|]. eapply agree_bind; [apply Hf|]. auto.
Qed.
End Rules.

(** ** The tracker: only the operand depth differs. *)
Record same_tracker (t1 t2 : tracker) : Prop := SameTracker {
  st_state : state t2 = state t1;
  st_depth : operand_depth t2 = 0;
  st_checker : local_bytes_checker t2 = local_bytes_checker t1;
  st_usage : stack_usage t2 = stack_usage t1
}.
Definition no_depth (_ : Z) : Z := 0.

Section Tracker.
Context (options : Opt.t) (gd : Z -> Z).
Local Abbreviation agrees := (agree same_tracker).

Lemma agree_back : agrees eq Tracker.back Tracker.back.
Proof.
  unfold Tracker.back. eapply agree_bind; [apply (agree_gets _ _ _ eq); by intros ? ? []|].
  intros l ? <-. apply agree_lift.
Qed.
Lemma agree_pop_back : agrees eq Tracker.pop_back Tracker.pop_back.
Proof.
  unfold Tracker.pop_back. eapply agree_bind; [apply (agree_gets _ _ _ eq); by intros ? ? []|].
  intros l ? <-. destruct l; [by intros s1 s2 _|]. apply agree_modify. intros ? ? []. by split.
Qed.
Lemma agree_push t : agrees eq (Tracker.push options gd t) (Tracker.push options no_depth t).
Proof.
  intros t1 t2 [H1 H2 H3 H4]. unfold Tracker.push, Tracker.grow_depth, parse_assert.
  unfold mbind, M_bind, gets, modify, assertM, lift, EOS_VM_ASSERT. rewrite H2. simpl.
  destruct (operand_depth t1 <? uint32_max); simpl; [|auto].
  rewrite H3. destruct (push_stack _ _ _); simpl; [|eauto|done].
  eexists _, _. split; [done|]. split; [done|]. split; simpl; [by rewrite H1|done|done|by rewrite H4].
Qed.
Lemma agree_pop_expected t :
  agrees eq (Tracker.pop_expected options gd t) (Tracker.pop_expected options no_depth t).
Proof.
  unfold Tracker.pop_expected. destruct (t =? pseudo); [by apply agree_ret|].
  eapply agree_bind; [apply (agree_gets _ _ _ eq); by intros ? ? []|]. intros l ? <-.
  eapply agree_bind; [apply agree_assert|]. intros _ _ _. eapply agree_bind; [apply agree_back|]. intros b ? <-.
  destruct (b =? unreachable_tag); [by apply agree_ret|]. eapply agree_bind; [apply agree_assert|]. intros _ _ _.
  eapply agree_bind; [apply agree_modify; intros ? ? [? ? Hc ?]; split; simpl; try done; by rewrite Hc|]. intros _ _ _.
  eapply agree_bind; [apply agree_modify; intros ? ? [? Hd ? ?]; split; simpl; try done; by rewrite Hd|]. intros _ _ _.
  apply agree_pop_back.
Qed.
Lemma agree_pop_any : agrees eq (Tracker.pop_any options gd) (Tracker.pop_any options no_depth).
Proof.
  unfold Tracker.pop_any. eapply agree_bind; [apply (agree_gets _ _ _ eq); by intros ? ? []|]. intros l ? <-.
  eapply agree_bind; [apply agree_assert|]. intros _ _ _. eapply agree_bind; [apply agree_back|]. intros b ? <-.
  destruct (b =? unreachable_tag); [by apply agree_ret|].
  eapply agree_bind; [apply agree_modify; intros ? ? [? Hd ? ?]; split; simpl; try done; by rewrite Hd|]. intros _ _ _.
  eapply agree_bind; [apply agree_modify; intros ? ? [? ? Hc ?]; split; simpl; try done; by rewrite Hc|]. intros _ _ _.
  eapply agree_bind; [apply agree_pop_back|]. intros _ _ _. by apply agree_ret.
Qed.
Lemma agree_top t : agrees eq (Tracker.top options gd t) (Tracker.top options no_depth t).
Proof. unfold Tracker.top. eapply agree_bind; [apply agree_pop_expected|]. intros _ _ _. apply agree_push. Qed.

Lemma to_scope_fst l d d' : (Tracker.to_scope no_depth l d').1 = (Tracker.to_scope gd l d).1.
Proof.
  revert d d'. induction l as [|b l IH]; intros d d'; simpl; [done|]. destruct (b =? scope_tag); [done|apply IH].
Qed.
Lemma to_scope_snd l : (Tracker.to_scope no_depth l 0).2 = 0.
Proof. induction l as [|b l IH]; simpl; [done|]. destruct (b =? scope_tag); [done|]. by destruct (b =? unreachable_tag). Qed.

Lemma agree_start_unreachable : agrees eq (Tracker.start_unreachable gd) (Tracker.start_unreachable no_depth).
Proof.
  unfold Tracker.start_unreachable.
  eapply agree_bind; [apply agree_modify|].
  { intros t1 t2 [H1 H2 H3 H4]. rewrite H1, H2. pose proof (to_scope_fst (state t1) (operand_depth t1) 0) as Hf.
    pose proof (to_scope_snd (state t1)) as Hs.
    destruct (Tracker.to_scope no_depth _ _), (Tracker.to_scope gd _ _). simpl in *. subst. by split. }
  intros _ _ _. eapply agree_bind; [apply agree_modify; intros ? ? [? ? Hc ?]; split; simpl; try done; by rewrite Hc|].
  intros _ _ _. apply agree_modify. intros ? ? [Hs ? ? ?]. split; simpl; try done. by rewrite Hs.
Qed.
Lemma agree_push_scope : agrees eq Tracker.push_scope Tracker.push_scope.
Proof. apply agree_modify. intros ? ? [Hs ? ? ?]. split; simpl; try done. by rewrite Hs. Qed.
Lemma agree_pop_scope t : agrees eq (Tracker.pop_scope options gd t) (Tracker.pop_scope options no_depth t).
Proof.
  unfold Tracker.pop_scope. eapply agree_bind; [apply agree_pop_expected|]. intros _ _ _.
  eapply agree_bind; [apply (agree_gets _ _ _ eq); by intros ? ? []|]. intros l ? <-.
  eapply agree_bind; [apply agree_assert|]. intros _ _ _. eapply agree_bind; [apply agree_back|]. intros b ? <-.
  eapply agree_bind.
  { destruct (b =? unreachable_tag); [|by apply (agree_ret _ _ _ eq)].
    eapply agree_bind; [apply agree_modify; intros ? ? [? ? Hc ?]; split; simpl; try done; by rewrite Hc|].
    intros _ _ _. apply agree_pop_back. }
  intros _ _ _. eapply agree_bind; [apply agree_back|]. intros b' ? <-. eapply agree_bind; [apply agree_assert|].
  intros _ _ _. eapply agree_bind; [apply agree_pop_back|]. intros _ _ _.
  destruct (negb _); [apply agree_push|by apply agree_ret].
Qed.
End Tracker.

(** ** The interpreter's writer only throws its limits. *)
Definition only {S A} (k : M S A) : Prop :=
  forall s, match (k s).1 with Throw e => limit_exn e | _ => True end.

Create HintDb only.
Section Only.
Context `{sys : Sys}.
Import BitcodeWriter.

Lemma only_bind {S A B} (k : M S A) (f : A -> M S B) : only k -> (forall a, only (f a)) -> only (mbind f k).
Proof.
  intros Hk Hf s. specialize (Hk s). unfold mbind, M_bind.
  destruct (k s) as [[a|e|y] s']; simpl in *; [apply Hf|done|done].
Qed.
Lemma only_ret {S A} (a : A) : only (S := S) (mret a).
Proof. by intros s. Qed.
Lemma only_gets {S A} (f : S -> A) : only (gets f).
Proof. by intros s. Qed.
Lemma only_modify {S} (f : S -> S) : only (modify f).
Proof. by intros s. Qed.
Lemma only_assert {S} b e : limit_exn e -> only (S := S) (assertM b e).
Proof. intros He s. unfold assertM, lift, EOS_VM_ASSERT. by destruct b. Qed.
Lemma only_or_UB {S A} msg (o : option A) : only (S := S) (lift (or_UB msg o)).
Proof. intros s. by destruct o. Qed.
Lemma only_lift {S A} (o : outcome A) : match o with Throw e => limit_exn e | _ => True end -> only (S := S) (lift o).
Proof. intros H s. by destruct o. Qed.
Lemma only_on_allocator {A} (k : M Growable.t A) : only k -> only (on_allocator k).
Proof. intros Hk w. specialize (Hk (_allocator w)). unfold on_allocator. by destruct (k _). Qed.

Hint Resolve only_ret only_gets only_modify only_or_UB : only.
Ltac only_step :=
  first
    [ solve [auto with only]
    | lazymatch goal with |- only (mbind _ _) => apply only_bind; [|intros ?] end
    | apply only_assert; simpl; by auto
    | apply only_on_allocator ].

Lemma only_alloc x y n : only (Growable.alloc x y n).
Proof. unfold Growable.alloc. repeat only_step. Qed.
Lemma only_reclaim x p n : only (Growable.reclaim x p n).
Proof. unfold Growable.reclaim. repeat only_step. destruct (negb _); auto with only. Qed.
Hint Resolve only_alloc only_reclaim : only.
Lemma only_store i x : only (store_cell i x).
Proof. unfold store_cell, check_index. repeat only_step. Qed.
Hint Resolve only_store : only.
Lemma only_append_instr o : only (append_instr o).
Proof. unfold append_instr. repeat only_step. Qed.
Hint Resolve only_append_instr : only.
Lemma only_append o : only (append o).
Proof. unfold append. repeat only_step. Qed.
Lemma only_encode d rt : only (S := t) (lift (encode_depth_change d rt)).
Proof.
  apply only_lift. unfold encode_depth_change, EOS_VM_ASSERT. destruct (_ =? 0); simpl; [|auto].
  by destruct (negb _).
Qed.
Lemma only_update i f : (forall o, match f o with Throw _ => False | _ => True end) -> only (update_cell i f).
Proof.
  intros Hf. unfold update_cell. repeat only_step. apply only_lift. pose proof (Hf a0). by destruct (f a0).
Qed.
Lemma only_assign b pc : only (assign b pc).
Proof.
  destruct b; apply only_update; intros []; simpl; try done. by destruct (nthZ _ _).
Qed.
Hint Resolve only_append only_encode only_assign : only.
Lemma only_branch o d rt : only (emit_branch o d rt).
Proof. unfold emit_branch. repeat only_step. by apply only_update; intros []. Qed.
Lemma only_if : only emit_if.
Proof. unfold emit_if. repeat only_step. Qed.
Lemma only_else b : only (emit_else b).
Proof. unfold emit_else. repeat only_step. Qed.
Lemma only_br_table n : only (emit_br_table n).
Proof. unfold emit_br_table, check_index. repeat only_step. by apply only_update. Qed.
Lemma only_case d rt h : only (emit_case d rt h).
Proof.
  unfold emit_case. apply only_bind; [apply only_lift; by destruct (_ <? _)|intros _]. repeat only_step.
  by apply only_update; intros [].
Qed.
Hint Resolve only_case : only.
Lemma only_default d rt h : only (emit_default d rt h).
Proof. unfold emit_default, check_index, parse_assert. repeat only_step. Qed.
Lemma only_fix b pos : only (fix_branch b pos).
Proof. unfold fix_branch. repeat only_step. Qed.
Lemma only_usage u : only (set_stack_usage u).
Proof. unfold set_stack_usage. repeat only_step. Qed.
Lemma only_gv_make n : only (gv_make n).
Proof. unfold gv_make. repeat only_step. Qed.
Lemma only_resize n : only (resize n).
Proof. unfold resize. apply only_bind; [auto with only|]. intros v. destruct (_ <? n); repeat only_step. Qed.
Hint Resolve only_gv_make only_resize : only.
Lemma only_prologue body : only (emit_prologue body).
Proof. unfold emit_prologue. repeat only_step. Qed.
Lemma only_epilogue ft locals : only (emit_epilogue ft locals).
Proof. unfold emit_epilogue. repeat only_step. Qed.
Lemma only_finalize body : only (finalize body).
Proof. unfold finalize. repeat only_step. Qed.
Lemma only_construct n : only (construct n).
Proof. unfold construct, Growable.start_code. repeat only_step. Qed.
End Only.
#[export] Hint Resolve only_ret only_gets only_append only_branch only_if only_else only_br_table only_case only_default only_fix
  only_usage only_prologue only_epilogue only_finalize only_construct : only.

(** ** The body of a function *)
Section Body.
Context `{sys : Sys}.
Local Abbreviation left := (body_state (W := BitcodeWriter.t)).
Local Abbreviation right := (body_state (W := NullWriter.t)).
Local Abbreviation pc_left := (pc_element_t (W := BitcodeWriter.t)).
Local Abbreviation pc_right := (pc_element_t (W := NullWriter.t)).

Record same_pc (e1 : pc_left) (e2 : pc_right) : Prop := SamePc {
  sp_expected : expected_result e2 = expected_result e1;
  sp_label : label_result e2 = label_result e1;
  sp_if : is_if e2 = is_if e1;
  sp_relocations : match relocations e1, relocations e2 with
                   | inl _, inl _ => True | inr l1, inr l2 => length l2 = length l1 | _, _ => False end
}.

Record same_body (s1 : left) (s2 : right) : Prop := SameBody {
  sb_code : bs_code s2 = bs_code s1;
  sb_stack : same_tracker (op_stack s1) (op_stack s2);
  sb_pcs : Forall2 same_pc (pc_stack s1) (pc_stack s2);
  sb_nested : _nested_checker s2 = _nested_checker s1
}.
Local Abbreviation agrees := (agree same_body).
Local Abbreviation agrees_any := (agree same_body (fun _ _ => True)).

Lemma agree_code {A} (k : reader A) : agrees eq (from_code k) (from_code k).
Proof.
  intros s1 s2 [H1 H2 H3 H4]. unfold from_code. rewrite H1. destruct (k (bs_code s1)) as [[a p]|e|y]; [|eauto|done].
  eexists _, _. split; [done|]. by split.
Qed.
Lemma agree_stack {A} (k1 k2 : M tracker A) :
  agree same_tracker eq k1 k2 -> agrees eq (on_stack k1) (on_stack k2).
Proof.
  intros Hk s1 s2 [H1 H2 H3 H4]. specialize (Hk _ _ H2). unfold on_stack.
  destruct (k1 (op_stack s1)) as [[a|e|y] t1]; [|destruct Hk as [?|[t2 ->]]; eauto|done].
  destruct Hk as (b & t2 & -> & Hab & Ht). eexists _, _. split; [done|]. by split.
Qed.
Lemma agree_depth : agrees (fun _ _ => True) (on_stack Tracker.depth) (on_stack Tracker.depth).
Proof. intros s1 s2 [H1 H2 H3 H4]. eexists _, _. split; [done|]. by split. Qed.
Lemma agree_emits {A1 A2} (k1 : M BitcodeWriter.t A1) (k2 : M NullWriter.t A2) (b : A2) :
  only k1 -> k2 = mret b -> agrees_any (emits k1) (emits k2).
Proof.
  intros Hk -> s1 s2 [H1 H2 H3 H4]. specialize (Hk (code_writer s1)). unfold emits.
  destruct (k1 (code_writer s1)) as [[a|e|y] w]; simpl in *; [|auto|done].
  eexists _, _. split; [done|]. by split.
Qed.
Lemma agree_size : agrees eq (pc_stack_size (W := BitcodeWriter.t)) (pc_stack_size (W := NullWriter.t)).
Proof. apply agree_gets. intros s1 s2 [_ _ H3 _]. by rewrite (Forall2_length H3). Qed.
Lemma agree_head {A1 A2} (Q : A1 -> A2 -> Prop) l1 l2 msg :
  Forall2 Q l1 l2 -> agrees Q (lift (or_UB msg (head l1))) (lift (or_UB msg (head l2))).
Proof. intros [|a b l1' l2' Hab _] s1 s2 Hs; [done|]. simpl. eauto. Qed.
Lemma agree_back_pc : agrees same_pc pc_back pc_back.
Proof.
  unfold pc_back. eapply agree_bind; [apply (agree_gets _ _ _ (Forall2 same_pc)); by intros ? ? []|].
  intros l1 l2 Hl. by apply agree_head.
Qed.
Lemma Forall2_nthZ {A1 A2} (Q : A1 -> A2 -> Prop) l1 l2 i a :
  Forall2 Q l1 l2 -> nthZ l1 i = Some a -> exists b, nthZ l2 i = Some b /\ Q a b.
Proof. intros Hl. unfold nthZ. destruct (i <? 0); [done|]. intros Ha. eapply Forall2_lookup_l in Ha; eauto. Qed.
Lemma agree_pc_at label : agrees same_pc (pc_at label) (pc_at label).
Proof.
  unfold pc_at. eapply agree_bind; [apply (agree_gets _ _ _ (Forall2 same_pc)); by intros ? ? []|].
  intros l1 l2 Hl s1 s2 Hs. unfold lift. destruct (nthZ l1 label) as [a|] eqn:E; simpl; [|done].
  destruct (Forall2_nthZ _ _ _ _ _ Hl E) as (b & -> & Hab). eexists _, _. split; [reflexivity|done].
Qed.
Lemma agree_push_pc e1 e2 : same_pc e1 e2 -> agrees eq (push_pc e1) (push_pc e2).
Proof. intros He. apply agree_modify. intros ? ? []. split; simpl; try done. by constructor. Qed.

Lemma agree_branch_target label b1 b2 :
  agrees_any (handle_branch_target label b1) (handle_branch_target label b2).
Proof.
  unfold handle_branch_target. eapply agree_bind; [apply agree_size|]. intros n ? <-.
  eapply agree_bind; [apply agree_assert|]. intros _ _ _. eapply agree_bind; [apply agree_pc_at|].
  intros e1 e2 [H1 H2 H3 H4]. destruct (relocations e1) as [t1|l1], (relocations e2) as [t2|l2]; try done.
  - eapply agree_emits; [apply only_fix|done].
  - eapply agree_any, agree_modify. intros s1 s2 []. split; simpl; try done.
    apply Forall2_insert; [done|]. split; simpl; [done..|]. rewrite !length_app. f_equal. exact H4.
Qed.

(** What the body is validated against *)
Context (options : Opt.t) (_mod : module) (_datacount : option Z) (type_aliases : list Z)
  (locals : local_types_t).
Local Abbreviation WL := BitcodeWriter.t.
Local Abbreviation WR := NullWriter.t.

Lemma agree_pop t : agrees eq (pop_expected (W := WL) options t) (pop_expected (W := WR) options t).
Proof. apply agree_stack, agree_pop_expected. Qed.
Lemma agree_pop_any_ : agrees eq (pop_any (W := WL) options) (pop_any (W := WR) options).
Proof. apply agree_stack, agree_pop_any. Qed.
Lemma agree_push_ t : agrees eq (push (W := WL) options t) (push (W := WR) options t).
Proof. apply agree_stack, agree_push. Qed.
Lemma agree_top_ t : agrees eq (top (W := WL) options t) (top (W := WR) options t).
Proof. apply agree_stack, agree_top. Qed.
Lemma agree_start : agrees eq (start_unreachable (W := WL)) (start_unreachable (W := WR)).
Proof. apply agree_stack, agree_start_unreachable. Qed.
Lemma agree_pop_scope_ t : agrees eq (pop_scope (W := WL) options t) (pop_scope (W := WR) options t).
Proof. apply agree_stack, agree_pop_scope. Qed.
Lemma agree_scope : agrees eq (on_stack (W := WL) Tracker.push_scope) (on_stack (W := WR) Tracker.push_scope).
Proof. apply agree_stack, agree_push_scope. Qed.
Lemma agree_next : agrees eq (next_byte (W := WL)) (next_byte (W := WR)).
Proof. apply agree_code. Qed.
Lemma agree_nested n : agrees eq (modify (set_nested_checker (W := WL) n)) (modify (set_nested_checker (W := WR) n)).
Proof. apply agree_modify. intros ? ? []. by split. Qed.
Lemma agree_pops l : agrees_any (eachM (pop_expected (W := WL) options) l) (eachM (pop_expected (W := WR) options) l).
Proof. apply agree_each. intros t. eapply agree_any, agree_pop. Qed.
Lemma agree_pushes l : agrees_any (eachM (push (W := WL) options) l) (eachM (push (W := WR) options) l).
Proof. apply agree_each. intros t. eapply agree_any, agree_push_. Qed.
End Body.

Create HintDb agree.
#[export] Hint Resolve agree_lift agree_assert agree_error agree_code agree_depth agree_size agree_back_pc agree_pc_at agree_pop
  agree_pop_any_ agree_push_ agree_top_ agree_start agree_pop_scope_ agree_scope agree_next agree_nested agree_pops
  agree_pushes agree_branch_target : agree.
#[export] Hint Extern 1 (agree _ _ (emits _) (emits _)) => (eapply agree_emits; [by (apply only_append || (simpl; auto with only))|reflexivity]) : agree.

(** Both sides have the same shape. *)
Ltac agree_prim := solve [eauto with agree nocore].
Ltac agrees :=
  repeat lazymatch goal with
  | |- agree _ _ (mbind _ _) (mbind _ _) => eapply agree_bind; [agrees; fail|intros ? ? ?; simplify_eq]
  | |- agree _ _ (mret _) (mret _) => by apply agree_ret
  | |- agree _ _ (parse_error _) (parse_error _) => apply agree_error
  | |- agree _ _ (if ?b then _ else _) _ => destruct b eqn:?
  | |- agree _ (fun _ _ => True) _ _ => eapply agree_any; agree_prim
  | |- agree _ _ _ _ => agree_prim
  end.

Section Instructions.
Context `{sys : Sys}.
Context (options : Opt.t) (_mod : module) (_datacount : option Z) (type_aliases : list Z)
  (locals : local_types_t).
Local Abbreviation WL := BitcodeWriter.t.
Local Abbreviation WR := NullWriter.t.
Local Abbreviation same k := (agree same_body (fun _ _ => True) (k WL _) (k WR _)).

Lemma agree_in_bounds : same (fun W wr => check_in_bounds (W := W) (wr := wr) options).
Proof. unfold check_in_bounds. agrees. Qed.
Hint Resolve agree_in_bounds : agree.
Lemma agree_zero msg : same (fun W wr => zero_byte (W := W) (wr := wr) msg).
Proof. unfold zero_byte. agrees. Qed.
Hint Resolve agree_zero : agree.
Lemma agree_sig sg : same (fun W wr => apply_sig (W := W) (wr := wr) options sg).
Proof. unfold apply_sig. agrees. Qed.
Hint Resolve agree_sig : agree.
Lemma agree_has_memory msg : same (fun W wr => has_memory (W := W) (wr := wr) _mod msg).
Proof. unfold has_memory. agrees. Qed.
Lemma agree_has_table msg : same (fun W wr => has_table (W := W) (wr := wr) _mod msg).
Proof. unfold has_table. agrees. Qed.
Lemma agree_bulk : same (fun W wr => bulk_enabled (W := W) (wr := wr) options).
Proof. unfold bulk_enabled. agrees. Qed.
Lemma agree_data_index name x : same (fun W wr => check_data_index (W := W) (wr := wr) _datacount name x).
Proof. unfold check_data_index. agrees. Qed.
Lemma agree_memarg : agree same_body eq (parse_memarg (W := WL)) (parse_memarg (W := WR)).
Proof. unfold parse_memarg. agrees. Qed.
Lemma agree_check_memarg n a msg : same (fun W wr => check_memarg (W := W) (wr := wr) options n a msg).
Proof. unfold check_memarg. agrees. Qed.
Hint Resolve agree_has_memory agree_has_table agree_bulk agree_data_index agree_memarg agree_check_memarg : agree.

Lemma agree_access store n sg e1 e2 :
  (forall a b, only (e1 a b)) -> (forall a b, e2 a b = mret tt) ->
  agree same_body (fun _ _ => True) (parse_memory_access (W := WL) options _mod store n sg e1)
    (parse_memory_access (W := WR) options _mod store n sg e2).
Proof.
  intros H1 H2. unfold parse_memory_access. eapply agree_bind; [apply agree_in_bounds|]. intros _ _ _.
  eapply agree_bind; [apply agree_has_memory|]. intros _ _ _. eapply agree_bind; [apply agree_memarg|]. intros a ? <-.
  eapply agree_bind; [apply agree_check_memarg|]. intros _ _ _. eapply agree_bind; [apply agree_sig|]. intros _ _ _.
  eapply agree_emits; [apply H1|apply H2].
Qed.
Lemma agree_memory o : same (fun W wr => parse_memory (W := W) (wr := wr) options _mod o).
Proof.
  unfold parse_memory. destruct o; try (apply agree_access; [intros; apply only_append|done]); agrees.
Qed.
Lemma agree_numeric_op sg e1 e2 :
  only e1 -> e2 = mret tt ->
  agree same_body (fun _ _ => True) (parse_numeric_op (W := WL) options sg e1) (parse_numeric_op (W := WR) options sg e2).
Proof.
  intros H1 H2. unfold parse_numeric_op. eapply agree_bind; [apply agree_in_bounds|]. intros _ _ _.
  eapply agree_bind; [by eapply agree_emits|]. intros _ _ _. apply agree_sig.
Qed.
Lemma agree_extend o : same (fun W wr => parse_extend_op (W := W) (wr := wr) options o).
Proof. unfold parse_extend_op. agrees. Qed.
Lemma agree_lane_memory o : same (fun W wr => parse_vec_lane_memory (W := W) (wr := wr) options _mod o).
Proof. unfold parse_vec_lane_memory. agrees. Qed.
Lemma agree_shuffle : same (fun W wr => parse_shuffle (W := W) (wr := wr) options).
Proof.
  unfold parse_shuffle. eapply agree_bind; [apply agree_in_bounds|]. intros _ _ _.
  eapply agree_bind; [apply (agree_gets _ _ _ eq); by intros ? ? []|]. intros p ? <-. agrees.
Qed.
Lemma agree_lane o : same (fun W wr => parse_vec_lane (W := W) (wr := wr) options o).
Proof. unfold parse_vec_lane. agrees. Qed.
Hint Resolve agree_lane_memory agree_shuffle agree_lane : agree.
Lemma agree_vector o : same (fun W wr => parse_vector (W := W) (wr := wr) options _mod o).
Proof.
  destruct o; simpl; try (apply agree_access; [intros; apply only_append|done]); agrees.
Qed.
Lemma agree_data o : same (fun W wr => parse_data (W := W) (wr := wr) options _mod _datacount o).
Proof. destruct o; unfold parse_data; agrees. Qed.
Lemma agree_ext o : same (fun W wr => parse_ext_op (W := W) (wr := wr) options _mod o).
Proof. destruct o; unfold parse_ext_op; agrees. Qed.

Lemma agree_func_type ft : same (fun W wr => apply_func_type (W := W) (wr := wr) options ft).
Proof. unfold apply_func_type. agrees. Qed.
Hint Resolve agree_func_type : agree.
Lemma agree_call_op o : same (fun W wr => parse_call_op (W := W) (wr := wr) options _mod type_aliases o).
Proof. destruct o; simpl; unfold parse_call, parse_call_indirect; agrees. Qed.
Lemma agree_parametric o : same (fun W wr => parse_parametric (W := W) (wr := wr) options o).
Proof. destruct o; simpl; agrees. Qed.
Lemma agree_local_at x : agree same_body eq (local_at (W := WL) locals x) (local_at (W := WR) locals x).
Proof. apply agree_lift. Qed.
Lemma agree_global_at x : agree same_body eq (global_at (W := WL) _mod x) (global_at (W := WR) _mod x).
Proof. unfold global_at. agrees. Qed.
Hint Resolve agree_local_at agree_global_at : agree.
Lemma agree_variable o : same (fun W wr => parse_variable_access (W := W) (wr := wr) options _mod locals o).
Proof. destruct o; simpl; agrees. Qed.

(** Control flow *)
Lemma agree_block_type msg : agree same_body eq (block_type (W := WL) options msg) (block_type (W := WR) options msg).
Proof. unfold block_type. agrees. Qed.
Lemma agree_control : same (fun W wr => on_control_ (W := W) (wr := wr) options).
Proof.
  unfold on_control_. eapply agree_bind; [apply (agree_gets _ _ _ eq); by intros ? ? []|]. intros n ? <-. agrees.
Qed.
Hint Resolve agree_block_type agree_control : agree.
Lemma agree_depth_change label :
  agree same_body (fun _ _ => True) (compute_depth_change (W := WL) options label) (compute_depth_change (W := WR) options label).
Proof.
  unfold compute_depth_change. eapply agree_bind; [apply agree_size|]. intros n ? <-.
  eapply agree_bind; [apply agree_assert|]. intros _ _ _. eapply agree_bind; [apply agree_pc_at|].
  intros e1 e2 [_ He _ _]. eapply agree_bind; [apply agree_depth|]. intros d1 d2 _. rewrite He.
  eapply (agree_bind _ _ _ _ _ (fun _ _ => True)); [|intros; by apply agree_ret].
  destruct (negb _); [eapply agree_any, agree_top_|by apply agree_ret].
Qed.
Hint Resolve agree_depth_change : agree.
Lemma agree_fix_all l1 l2 p1 p2 :
  length l2 = length l1 ->
  agree same_body (fun _ _ => True) (eachM (fun b => emits (W := WL) (fix_branch b p1)) l1)
    (eachM (fun b => emits (W := WR) (fix_branch b p2)) l2).
Proof.
  revert l2. induction l1 as [|b1 l1 IH]; intros [|b2 l2] Hl; try done; simpl; [by apply agree_ret|].
  eapply agree_bind; [eapply agree_emits; [apply only_fix|done]|]. intros _ _ _. apply IH. by injection Hl.
Qed.
Lemma agree_drop_pc :
  agree same_body (fun _ _ => True) (modify (fun s => set_pc_stack (W := WL) (tail (pc_stack s)) s))
    (modify (fun s => set_pc_stack (W := WR) (tail (pc_stack s)) s)).
Proof. eapply agree_any, agree_modify. intros ? ? [? ? H ?]. split; simpl; try done. by destruct H. Qed.
Lemma agree_exit : same (fun W wr => exit_scope (W := W) (wr := wr) options).
Proof.
  unfold exit_scope. eapply agree_bind; [apply agree_size|]. intros n ? <-.
  eapply agree_bind; [apply agree_assert|]. intros _ _ _. eapply agree_bind; [apply agree_back_pc|].
  intros e1 e2 [He _ Hi Hr]. rewrite He, Hi. eapply agree_bind; [apply agree_assert|]. intros _ _ _.
  eapply agree_bind; [eapply agree_emits; [by simpl; auto with only|done]|]. intros p1 p2 _.
  eapply (agree_bind _ _ _ _ _ (fun _ _ => True)).
  - destruct (relocations e1), (relocations e2); try done; [by apply agree_ret|by apply agree_fix_all].
  - intros _ _ _. eapply agree_bind; [apply agree_pop_scope_|]. intros _ _ _. apply agree_drop_pc.
Qed.
Hint Resolve agree_exit : agree.
Lemma agree_end bounds : same (fun W wr => parse_end (W := W) (wr := wr) options bounds).
Proof.
  unfold parse_end. eapply agree_bind; [apply agree_in_bounds|]. intros _ _ _.
  eapply agree_bind; [apply agree_exit|]. intros _ _ _. eapply agree_bind; [apply agree_size|]. intros n ? <-.
  eapply agree_bind; [apply (agree_gets _ _ _ eq); by intros ? ? []|]. intros p ? <-.
  eapply agree_bind; [apply agree_assert|]. intros _ _ _.
  eapply agree_any, agree_modify. intros ? ? [? ? ? H]. split; simpl; try done. by rewrite H.
Qed.
Lemma agree_block : same (fun W wr => parse_block (W := W) (wr := wr) options).
Proof.
  unfold parse_block. eapply agree_bind; [apply agree_block_type|]. intros t ? <-.
  eapply agree_bind; [apply agree_depth|]. intros d1 d2 _. eapply agree_bind; [by apply agree_push_pc|]. intros _ _ _. agrees.
Qed.
Lemma agree_loop : same (fun W wr => parse_loop_instr (W := W) (wr := wr) options).
Proof.
  unfold parse_loop_instr. eapply agree_bind; [apply agree_block_type|]. intros t ? <-.
  eapply agree_bind; [eapply agree_emits; [by simpl; auto with only|done]|]. intros p1 p2 _.
  eapply agree_bind; [apply agree_depth|]. intros d1 d2 _. eapply agree_bind; [by apply agree_push_pc|]. intros _ _ _. agrees.
Qed.
Lemma agree_if : same (fun W wr => parse_if (W := W) (wr := wr) options).
Proof.
  unfold parse_if. eapply agree_bind; [apply agree_in_bounds|]. intros _ _ _.
  eapply agree_bind; [apply agree_block_type|]. intros t ? <-.
  eapply agree_bind; [eapply agree_emits; [by simpl; auto with only|done]|]. intros b1 b2 _.
  eapply agree_bind; [apply agree_pop|]. intros _ _ _.
  eapply agree_bind; [apply agree_depth|]. intros d1 d2 _. eapply agree_bind; [by apply agree_push_pc|]. intros _ _ _. agrees.
Qed.
Lemma agree_else : same (fun W wr => parse_else (W := W) (wr := wr) options).
Proof.
  unfold parse_else. eapply agree_bind; [apply agree_in_bounds|]. intros _ _ _.
  eapply agree_bind; [apply agree_back_pc|]. intros e1 e2 [He Hl Hi Hr]. rewrite Hi.
  eapply agree_bind; [apply agree_assert|]. intros _ _ _.
  eapply (agree_bind _ _ _ _ _ (fun x y => length y.2 = length x.2)).
  { destruct (relocations e1) as [|[|b1 l1]], (relocations e2) as [|[|b2 l2]]; try done; intros s1 s2 Hs; try done.
    eexists _, _. split; [reflexivity|]. split; [|done]. simpl in *. congruence. }
  intros [b1 l1] [b2 l2] Hlen. simpl in Hlen. rewrite He.
  eapply agree_bind; [apply agree_pop|]. intros _ _ _. eapply agree_bind; [apply agree_pop_scope_|]. intros _ _ _.
  eapply agree_bind; [apply agree_scope|]. intros _ _ _.
  eapply agree_bind; [eapply agree_emits; [by simpl; auto with only|done]|]. intros b1' b2' _.
  eapply agree_bind; [|intros ? ? _; apply agree_control].
  eapply agree_modify. intros s1 s2 [H1 H2 H3 H4]. split; simpl; try done. constructor; [|by destruct H3].
  split; simpl; [done..|]. simpl. congruence.
Qed.
Lemma agree_br : same (fun W wr => parse_br (W := W) (wr := wr) options).
Proof. unfold parse_br. agrees. Qed.
Lemma agree_br_if : same (fun W wr => parse_br_if (W := W) (wr := wr) options).
Proof. unfold parse_br_if. agrees. Qed.
Lemma agree_return : same (fun W wr => parse_return (W := W) (wr := wr) options).
Proof. unfold parse_return. agrees. Qed.
Lemma agree_cases todo : forall i t h1 h2,
  agree same_body (fun x y => y.1 = x.1) (parse_cases (W := WL) options todo i t h1) (parse_cases (W := WR) options todo i t h2).
Proof.
  induction todo as [|todo IH]; intros i t h1 h2; simpl; [by apply agree_ret|].
  eapply agree_bind; [apply agree_code|]. intros label ? <-. eapply agree_bind; [apply agree_depth_change|]. intros d1 d2 _.
  eapply agree_bind; [eapply agree_emits; [by simpl; auto with only|done]|]. intros b1 b2 _.
  eapply agree_bind; [apply agree_branch_target|]. intros _ _ _. eapply agree_bind; [apply agree_pc_at|].
  intros e1 e2 [_ He _ _]. rewrite He. destruct (i =? 0); [apply IH|].
  eapply agree_bind; [apply agree_assert|]. intros _ _ _. apply IH.
Qed.
Lemma agree_br_table : same (fun W wr => parse_br_table (W := W) (wr := wr) options).
Proof.
  unfold parse_br_table. eapply agree_bind; [apply agree_in_bounds|]. intros _ _ _.
  eapply agree_bind; [apply agree_code|]. intros n ? <-. eapply agree_bind; [apply agree_assert|]. intros _ _ _.
  eapply agree_bind; [apply agree_pop|]. intros _ _ _.
  eapply agree_bind; [eapply agree_emits; [by simpl; auto with only|done]|]. intros h1 h2 _.
  eapply agree_bind; [apply agree_cases|]. intros r1 r2 Hr.
  eapply agree_bind; [apply agree_code|]. intros label ? <-. eapply agree_bind; [apply agree_depth_change|]. intros d1 d2 _.
  eapply agree_bind; [eapply agree_emits; [by simpl; auto with only|done]|]. intros b1 b2 _.
  eapply agree_bind; [apply agree_branch_target|]. intros _ _ _. eapply agree_bind; [apply agree_pc_at|].
  intros e1 e2 [_ He _ _]. rewrite He, Hr. agrees.
Qed.

(** The loop *)
Lemma agree_opcode bounds o :
  same (fun W wr => parse_opcode (W := W) (wr := wr) options _mod _datacount type_aliases locals bounds o).
Proof.
  destruct o as [o| | |o|o|o|o| | | | |o|o|o| |]; simpl parse_opcode; try (agrees; fail).
  - destruct o; unfold parse_control_flow; try apply agree_error; try (agrees; fail).
    + apply agree_block.
    + apply agree_loop.
    + apply agree_if.
    + apply agree_else.
    + apply agree_end.
    + apply agree_br.
    + apply agree_br_if.
  - apply agree_br_table.
  - apply agree_return.
  - apply agree_call_op.
  - apply agree_parametric.
  - apply agree_variable.
  - apply agree_memory.
  - apply agree_numeric_op; [apply only_append|done].
  - destruct (is_extend o); [apply agree_extend|]. apply agree_numeric_op; [apply only_append|done].
  - apply agree_numeric_op; [apply only_append|done].
  - eapply agree_bind; [apply agree_assert|]. intros _ _ _. eapply agree_bind; [apply agree_code|]. intros c ? <-.
    destruct (case_of vec_names c); [apply agree_vector|apply agree_error].
  - eapply agree_bind; [apply agree_code|]. intros c ? <-.
    destruct (case_of ext_names c) as [[o|o]|]; [apply agree_data|apply agree_ext|apply agree_error].
Qed.

Lemma agree_instr bounds :
  same (fun W wr => parse_instr (W := W) (wr := wr) options _mod _datacount type_aliases locals bounds).
Proof.
  unfold parse_instr. eapply agree_bind; [apply agree_size|]. intros n ? <-.
  eapply agree_bind; [apply agree_assert|]. intros _ _ _. eapply agree_bind; [apply agree_next|]. intros b ? <-.
  destruct (case_of opcode_names b); [apply agree_opcode|apply agree_error].
Qed.

Lemma agree_instrs fuel bounds :
  same (fun W wr => parse_instrs (W := W) (wr := wr) options _mod _datacount type_aliases locals fuel bounds).
Proof.
  induction fuel as [|fuel IH]; simpl; [by intros s1 s2 _|].
  eapply agree_bind; [apply (agree_gets _ _ _ eq); by intros ? ? []|]. intros p ? <-.
  destruct (_ <? bounds); [|by apply agree_ret]. eapply agree_bind; [apply agree_instr|]. intros _ _ _. exact IH.
Qed.

Lemma agree_body bounds :
  same (fun W wr => parse_function_body_code (W := W) (wr := wr) options _mod _datacount type_aliases locals bounds).
Proof.
  unfold parse_function_body_code. eapply agree_bind; [apply agree_instrs|]. intros _ _ _.
  eapply (agree_bind _ _ _ _ _ (fun _ _ => True)).
  { destruct (Opt.max_stack_bytes options); [|by apply agree_ret].
    eapply agree_bind; [apply (agree_gets _ _ _ (fun t1 t2 => True)); done|]. intros t1 t2 _.
    eapply agree_emits; [apply only_usage|done]. }
  intros _ _ _. eapply agree_bind; [apply agree_size|]. intros n ? <-.
  eapply agree_bind; [apply agree_assert|]. intros _ _ _.
  eapply agree_bind; [apply (agree_gets _ _ _ (fun _ _ => True)); done|]. intros t1 t2 _.
  eapply agree_bind; [apply agree_lift|]. intros c ? <-. by apply agree_ret.
Qed.

Lemma initial_same code lc ft nested (w1 : WL) (w2 : WR) :
  same_body (initial_state options code lc ft nested w1) (initial_state options code lc ft nested w2).
Proof. split; simpl; [done|by split| |done]. by repeat constructor. Qed.
End Instructions.
