(* ===== verification/ParserAgreement.v ===== *)
(** * The two backends parse the same modules (parser.hpp)

    The agreement of function bodies carried to sections and modules. *)
From S2P Require Import Prelude GuardedPtr Leb128 Allocator Opcodes Types Validation Writers FunctionBody Parser WriterLaws ParserSafety ModuleSafety ParserClaims WriterAgreement.

(** ** Outcomes and readers *)
Definition oagree {A1 A2} (Q : A1 -> A2 -> Prop) (o1 : outcome A1) (o2 : outcome A2) : Prop :=
  match o1 with
  | Ret a => exists b, o2 = Ret b /\ Q a b
  | Throw e => limit_exn e \/ o2 = Throw e
  | UB _ => True
  end.
Definition ragree {A1 A2} (Q : A1 -> A2 -> Prop) (k1 : reader A1) (k2 : reader A2) : Prop :=
  forall q, oagree (fun x y => Q x.1 y.1 /\ x.2 = y.2) (k1 q) (k2 q).

Lemma oagree_bind {A1 A2 B1 B2} (o1 : outcome A1) (o2 : outcome A2) (f1 : A1 -> outcome B1) (f2 : A2 -> outcome B2) Q Q' :
  oagree Q o1 o2 -> (forall a b, Q a b -> oagree Q' (f1 a) (f2 b)) -> oagree Q' (mbind f1 o1) (mbind f2 o2).
Proof.
  intros Ho Hf. destruct o1 as [a|e|y]; simpl in *; [|destruct Ho as [?| ->]; auto|done].
  destruct Ho as (b & -> & Hab). by apply Hf.
Qed.
Lemma oagree_refl {A} (o : outcome A) : oagree eq o o.
Proof. destruct o; simpl; eauto. Qed.
Lemma oagree_run {S1 S2 A1 A2} (R : S1 -> S2 -> Prop) (Q : A1 -> A2 -> Prop) k1 k2 s1 s2 :
  agree R Q k1 k2 -> R s1 s2 -> oagree (fun x y => Q x.1 y.1 /\ R x.2 y.2) (run k1 s1) (run k2 s2).
Proof.
  intros Hk Hs. specialize (Hk _ _ Hs). unfold run. destruct (k1 s1) as [[a|e|y] s1']; simpl; [| |done].
  - destruct Hk as (b & s2' & -> & ? & ?). simpl. eauto.
  - destruct Hk as [?|[s2' ->]]; simpl; auto.
Qed.
Lemma oagree_only {S1 S2 A1 A2} (k1 : M S1 A1) (k2 : M S2 A2) s1 s2 b :
  only k1 -> k2 = mret b -> oagree (fun x y => y = (b, s2)) (run k1 s1) (run k2 s2).
Proof.
  intros Hk ->. specialize (Hk s1). unfold run. destruct (k1 s1) as [[a|e|y] s1']; simpl in *; [eauto|auto|done].
Qed.

Lemma ragree_bind {A1 A2 B1 B2} (k1 : reader A1) (k2 : reader A2) (f1 : A1 -> reader B1) (f2 : A2 -> reader B2) Q Q' :
  ragree Q k1 k2 -> (forall a b, Q a b -> ragree Q' (f1 a) (f2 b)) -> ragree Q' (mbind f1 k1) (mbind f2 k2).
Proof.
  intros Hk Hf q. unfold mbind, reader_bind. eapply oagree_bind; [apply Hk|].
  intros [a p1] [b p2] [Hab Hp]. simpl in *. subst p2. by apply Hf.
Qed.
Lemma ragree_refl {A} (k : reader A) : ragree eq k k.
Proof. intros q. destruct (k q) as [[a p]|e|y]; simpl; eauto. Qed.
Lemma ragree_ret {A1 A2} (a : A1) (b : A2) (Q : A1 -> A2 -> Prop) : Q a b -> ragree Q (mret a) (mret b).
Proof. intros HQ q. simpl. eauto. Qed.
Lemma ragree_pure {A1 A2} (o1 : outcome A1) (o2 : outcome A2) (Q : A1 -> A2 -> Prop) :
  oagree Q o1 o2 -> ragree Q (pure_ o1) (pure_ o2).
Proof.
  intros Ho q. unfold pure_. eapply oagree_bind; [exact Ho|]. intros a b Hab. simpl. eauto.
Qed.
Lemma ragree_consumed {A1 A2} n (k1 : reader A1) (k2 : reader A2) (Q : A1 -> A2 -> Prop) :
  ragree Q k1 k2 -> ragree Q (consumed n k1) (consumed n k2).
Proof.
  intros Hk q. unfold consumed, GuardedPtr.scoped_consume_items.
  eapply oagree_bind; [apply oagree_refl|]. intros _ _ _. eapply oagree_bind; [apply Hk|].
  intros [a1 p1] [b1 p2] [Hab Hp]. simpl in *. subst p2.
  eapply oagree_bind; [apply oagree_refl|]. intros _ _ _. simpl. eauto.
Qed.

(** ** Parsers that differ in what the writer made *)
Record same_parser (p1 p2 : parser) : Prop := SameParser {
  sp_mod : exists b c x, length c = length (code (pr_mod p1)) /\
    pr_mod p2 = with_bitcode b (with_code c (with_maximum_stack x (pr_mod p1)));
  sp_datacount : pr_datacount p2 = pr_datacount p1;
  sp_aliases : pr_type_aliases p2 = pr_type_aliases p1;
  sp_fast : pr_fast_functions p2 = pr_fast_functions p1;
  sp_globals : pr_globals_checker p2 = pr_globals_checker p1;
  sp_nested : pr_nested_checker p2 = pr_nested_checker p1
}.

Section Parsers.
Context `{sys : Sys} (options : Opt.t).
Local Abbreviation WL := BitcodeWriter.t.
Local Abbreviation WR := NullWriter.t.

Lemma agree_write_function p1 p2 i body code count (w1 : WL) (w2 : WR) nested x1 x2 :
  same_parser p1 p2 ->
  oagree (fun r1 r2 => r2.2.1.2 = r1.2.1.2) (write_function options p1 i body code count w1 nested x1)
    (write_function options p2 i body code count w2 nested x2).
Proof.
  intros [(b & c & x & _ & Hm) Hd Ha _ _ _]. unfold write_function. rewrite Hm, Hd, Ha.
  eapply oagree_bind; [apply oagree_refl|]. intros t ? <-.
  eapply oagree_bind; [apply oagree_refl|]. intros ft ? <-.
  eapply oagree_bind; [apply oagree_refl|]. intros lt ? <-.
  eapply oagree_bind; [apply oagree_only; [apply only_prologue|done]|]. intros [u1 w1'] ? ->.
  eapply oagree_bind.
  { eapply oagree_run; [|apply initial_same].
    exact (agree_body options (pr_mod p1) (pr_datacount p1) (pr_type_aliases p1) lt (fb_size body)). }
  intros [us1 s1] [us2 s2] [_ Hs]. simpl in Hs.
  eapply oagree_bind; [apply oagree_only; [apply only_epilogue|done]|]. intros [u2 w2'] ? ->.
  eapply oagree_bind; [apply oagree_only; [apply only_finalize|done]|]. intros [b2 w3'] ? ->. simpl.
  eexists. split; [done|]. simpl. by destruct Hs.
Qed.

Lemma agree_write_functions p1 p2 l : forall i (w1 : WL) (w2 : WR) nested x1 x2,
  same_parser p1 p2 ->
  oagree (fun r1 r2 => length r2.1 = length r1.1 /\ r2.2.1.2 = r1.2.1.2)
    (write_functions options p1 i l w1 nested x1) (write_functions options p2 i l w2 nested x2).
Proof.
  induction l as [|[body [code count]] l IH]; intros i w1 w2 nested x1 x2 Hp; simpl; [eauto|].
  eapply oagree_bind; [by apply agree_write_function|]. intros [b1 [[w1' n1] m1]] [b2 [[w2' n2] m2]] Hn.
  simpl in Hn. subst n2. eapply oagree_bind; [by apply IH|]. intros [bs1 st1] [bs2 st2] [Hlen Hst]. simpl in *.
  eexists. split; [done|]. simpl. split; [congruence|done].
Qed.

Lemma agree_code_out n l p1 p2 :
  same_parser p1 p2 ->
  oagree same_parser (write_code_out (W := WL) options n l p1) (write_code_out (W := WR) options n l p2).
Proof.
  intros Hp. unfold write_code_out.
  eapply oagree_bind; [apply oagree_only; [apply only_construct|done]|]. intros [w1 a1] ? ->.
  rewrite (sp_nested _ _ Hp).
  eapply oagree_bind; [by apply agree_write_functions|].
  intros [bs1 [[w1' n1] m1]] [bs2 [[w2' n2] m2]] [Hlen Hn]. simpl in *. subst n2.
  eexists. split; [done|]. destruct Hp as [(b & c & x & Hc & Hm) Hd Ha Hf Hg Hnn]. split; simpl; try done.
  exists b, bs2, m2. split; [by rewrite length_fmap|]. rewrite Hm. done.
Qed.

(** The sections that do not involve the writer *)
Ltac same_sections :=
  repeat lazymatch goal with
  | |- ragree _ (mbind _ _) (mbind _ _) => eapply ragree_bind; [apply ragree_refl|intros ? ? <-]
  | |- ragree _ (mret _) (mret _) => apply ragree_ret
  end.

Lemma agree_section id p1 p2 :
  same_parser p1 p2 ->
  ragree same_parser (parse_section (W := WL) options id p1) (parse_section (W := WR) options id p2).
Proof.
  intros Hp. destruct p1 as [m1 dc ta ff gc nc a1], p2 as [m2 dc2 ta2 ff2 gc2 nc2 a2].
  pose proof Hp as [(b & c & x & Hc & Hm) Hd Ha Hf Hg Hn]. simpl in *. subst.
  unfold parse_section. cbv zeta. simpl pr_mod.
  destruct (id =? 0).
  { unfold parse_custom. same_sections. destruct (_ && _); same_sections; split; simpl; try done; by exists b, c, x. }
  destruct (id =? 1); [same_sections; split; simpl; try done; by exists b, c, x|].
  destruct (id =? 2); [same_sections; split; simpl; try done; by exists b, c, x|].
  destruct (id =? 3).
  { eapply ragree_bind; [eapply (ragree_bind _ _ _ _ eq (fun p1 p2 => exists l,
      p1 = set_mod (with_functions l m1) (Parser m1 dc ta ff gc nc a1) /\
      p2 = set_mod (with_functions l (with_bitcode b (with_code c (with_maximum_stack x m1))))
             (Parser (with_bitcode b (with_code c (with_maximum_stack x m1))) dc ta ff gc nc a2)));
      [apply ragree_refl|]|].
    - intros l ? <-. apply ragree_ret. eauto.
    - intros q1 q2 (l & -> & ->). apply ragree_pure. unfold normalize_types. simpl.
      eapply oagree_bind; [apply oagree_refl|]. intros im ? <-. eapply oagree_bind; [apply oagree_refl|]. intros df ? <-.
      simpl. eexists. split; [done|]. split; simpl; try done. by exists b, c, x. }
  destruct (id =? 4); [same_sections; split; simpl; try done; by exists b, c, x|].
  destruct (id =? 5); [same_sections; split; simpl; try done; by exists b, c, x|].
  destruct (id =? 6); [same_sections; split; simpl; try done; by exists b, c, x|].
  destruct (id =? 7).
  { eapply ragree_bind; [eapply (ragree_bind _ _ _ _ eq (fun p1 p2 => exists l,
      p1 = set_mod (with_exports l m1) (Parser m1 dc ta ff gc nc a1) /\
      p2 = set_mod (with_exports l (with_bitcode b (with_code c (with_maximum_stack x m1))))
             (Parser (with_bitcode b (with_code c (with_maximum_stack x m1))) dc ta ff gc nc a2)));
      [apply ragree_refl|]|].
    - intros l ? <-. apply ragree_ret. eauto.
    - intros q1 q2 (l & -> & ->). same_sections. split; simpl; try done; by exists b, c, x. }
  destruct (id =? 8).
  { unfold parse_start. same_sections. split; simpl; try done; by exists b, c, x. }
  destruct (id =? 9); [same_sections; split; simpl; try done; by exists b, c, x|].
  destruct (id =? 10).
  { unfold parse_code_section. same_sections. apply ragree_pure. by apply agree_code_out. }
  destruct (id =? 11).
  { unfold parse_data_section. same_sections. split; simpl; try done; by exists b, c, x. }
  destruct (id =? 12); [same_sections; split; simpl; try done; by exists b, c, x|].
  intros q. by right.
Qed.

Lemma agree_sections fuel sz : forall h p1 p2,
  same_parser p1 p2 ->
  ragree same_parser (parse_sections (W := WL) options fuel sz h p1) (parse_sections (W := WR) options fuel sz h p2).
Proof.
  induction fuel as [|fuel IH]; intros h p1 p2 Hp; simpl; [by intros q|].
  eapply ragree_bind; [apply ragree_refl|]. intros q ? <-. destruct (_ =? sz); [by apply ragree_ret|].
  do 5 (eapply ragree_bind; [apply ragree_refl|]; intros ? ? <-).
  eapply ragree_bind; [by apply ragree_consumed, agree_section|]. intros p1' p2' Hp'. by apply IH.
Qed.

(** The same module but for the code the writer made. *)
Definition same_module (m1 m2 : module) : Prop :=
  exists b c x, length c = length (code m1) /\
    m2 = with_bitcode b (with_code c (with_maximum_stack x m1)).

Lemma agree_parse bs a1 a2 :
  oagree (fun p1 p2 => same_module (pr_mod p1) (pr_mod p2))
    (parse_wasm (W := WL) options bs empty_module a1) (parse_wasm (W := WR) options bs empty_module a2).
Proof.
  unfold parse_wasm.
  assert (Hk : ragree (fun p1 p2 => same_module (pr_mod p1) (pr_mod p2))
    (parse_module (W := WL) options (Z.of_nat (length bs)) empty_module a1)
    (parse_module (W := WR) options (Z.of_nat (length bs)) empty_module a2)).
  { unfold parse_module. do 4 (eapply ragree_bind; [apply ragree_refl|]; intros ? ? <-).
    eapply ragree_bind; [apply agree_sections|].
    - split; simpl; try done. by exists [], [], 0.
    - intros p1 p2 [(b & c & x & Hc & Hm) _ _ _ _ _]. rewrite Hm. simpl. rewrite Hc.
      eapply ragree_bind; [apply ragree_refl|]. intros ? ? <-. apply ragree_ret. simpl. by exists b, c, x. }
  eapply oagree_bind; [apply Hk|]. intros [p1 q1] [p2 q2] [Hm _]. simpl. eauto.
Qed.
End Parsers.

(** C15. The backend that only validates and the interpreter's backend agree on
    every input: both return the same module, up to the code the writers made; or
    both throw the same exception; or the interpreter's writer meets a limit of its
    own (arena full, code buffer too small, a depth or stack size its instructions
    cannot encode). *)
Theorem backends_agree `{sys : Sys} options bs a1 a2 :
  bytes bs ->
  let i := parse_wasm (W := BitcodeWriter.t) options bs empty_module a1 in
  let v := parse_wasm (W := NullWriter.t) options bs empty_module a2 in
  (exists p1 p2, i = Ret p1 /\ v = Ret p2 /\ same_module (pr_mod p1) (pr_mod p2)) \/
  (exists e, i = Throw e /\ v = Throw e) \/
  (exists e, i = Throw e /\ limit_exn e).
Proof.
  intros Hbs i v. pose proof (agree_parse options bs a1 a2) as Ha.
  pose proof (parse_wasm_ok (W := BitcodeWriter.t) options bs a1 Hbs) as Hsafe.
  fold i v in Ha. fold i in Hsafe. destruct i as [p1|e|y]; simpl in Ha; [|destruct Ha|done].
  - destruct Ha as (p2 & -> & Hm). left. eauto 6.
  - eauto.
  - eauto.
Qed.

(** The example parses the same; one that is too short is refused by both. *)
Lemma backends_agree_witness :
  (exists p1 p2, parse_wasm (W := BitcodeWriter.t) (wr := bitcode_writer (sys := linux)) default_options Example.wasm empty_module Example.arena = Ret p1 /\
     parse_wasm (W := NullWriter.t) default_options Example.wasm empty_module Example.arena = Ret p2 /\
     same_module (pr_mod p1) (pr_mod p2)) /\
  (exists e, parse_wasm (W := BitcodeWriter.t) (wr := bitcode_writer (sys := linux)) default_options (take 40 Example.wasm) empty_module Example.arena = Throw e /\
     parse_wasm (W := NullWriter.t) default_options (take 40 Example.wasm) empty_module Example.arena = Throw e).
Proof.
  split.
  - destruct (backends_agree (sys := linux) default_options Example.wasm Example.arena Example.arena wasm_bytes)
      as [H|[(e & H & _)|(e & H & _)]]; [exact H|exfalso; vm_compute in H; discriminate H..].
  - destruct (backends_agree (sys := linux) default_options (take 40 Example.wasm) Example.arena Example.arena
      (Forall_take _ _ _ wasm_bytes)) as [(p & _ & H & _)|[H|(e & H & He)]].
    + exfalso. vm_compute in H. discriminate H.
    + exact H.
    + exfalso. vm_compute in H. injection H as <-. exact He.
Defined.
