(* ===== verification/LinearMemory.v ===== *)
(** * The linear memory as bytes (interpret_visitor.hpp, execution_interface.hpp)

    Reads and writes of [sizeof(T)] bytes at an address relative to the memory
    base.  The pages in use are accessible; the rest of the region that
    [wasm_allocator] reserves faults, and the signal handler turns the fault
    into [wasm_memory_exception]; an address outside the region is undefined
    behaviour. *)
From S2P Require Import Prelude Allocator.
Import WasmAlloc.

(** ** Little-endian integers *)
Fixpoint le_decode (l : list Z) : Z :=
  match l with [] => 0 | b :: l => b + 2 ^ 8 * le_decode l end.

Fixpoint le_encode (n : nat) (x : Z) : list Z :=
  match n with O => [] | S n => wrap 8 x :: le_encode n (Z.shiftr x 8) end.

(** ** Bytes of the memory *)
Definition load_bytes (n : nat) (a : Z) (m : gmap Z Z) : list Z :=
  (fun i => byte_at m (a + Z.of_nat i)) <$> seq 0 n.

Fixpoint store_bytes (a : Z) (l : list Z) (m : gmap Z Z) : gmap Z Z :=
  match l with [] => m | b :: l => store_bytes (a + 1) l (<[a := b]> m) end.

Definition page_bytes (s : t) : Z := page_size * page s.

Definition oob : exn := wasm_memory_exception "wasm memory out-of-bounds".

Section Access.
Context `{sys : Sys}.

(** The effect of touching [n] bytes at [a]; [low] is the lowest accessible
    address (the context page below the memory is readable when there is a
    memory). *)
Definition access (low a n : Z) (s : t) : outcome unit :=
  if (low <=? a) && (a + n <=? page_bytes s) && (0 <=? page s) then Ret tt
  else if (- prefix_size <=? a) && (a + n <=? max_memory + suffix_size) then Throw oob
  else UB "access outside the reserved region".

(** [read_unaligned<T>(raw + a)] for a [T] of [n] bytes *)
Definition read_unaligned (n : nat) (a : Z) (s : t) : outcome Z :=
  access 0 a (Z.of_nat n) s;;
  Ret (le_decode (load_bytes n a (bytes s))).

(** [write_unaligned(raw + a, value)] *)
Definition write_unaligned (n : nat) (a value : Z) (s : t) : outcome t :=
  access 0 a (Z.of_nat n) s;;
  Ret (Make (page s) (store_bytes a (le_encode n value) (bytes s))).

(** [execution_interface::validate_pointer<T>(ptr, len)] *)
Definition validate_pointer (sizeof_T ptr len : Z) (s : t) : outcome unit :=
  EOS_VM_ASSERT (len <=? (2 ^ 32 - 1) / sizeof_T)
    (wasm_interpreter_exception "length will overflow");;
  access (- syspagesize) (ptr + len * sizeof_T - 1) 1 s.
End Access.

(** ** Lemmas *)
Definition byte (b : Z) : Prop := 0 <= b < 256.
Definition mem_ok (m : gmap Z Z) : Prop := forall a, byte (byte_at m a).

Lemma le_encode_byte n x : Forall byte (le_encode n x).
Proof.
  revert x. induction n as [|n IH]; intros x; constructor; [|apply IH].
  unfold byte. change 256 with (2 ^ 8). apply wrap_in_u. lia.
Qed.

Lemma length_le_encode n x : length (le_encode n x) = n.
Proof. revert x. induction n; intros; simpl; auto. Qed.

Lemma le_decode_encode n x : le_decode (le_encode n x) = wrap (8 * Z.of_nat n) x.
Proof.
  revert x. induction n as [|n IH]; intros x.
  - simpl. unfold wrap. by rewrite Z.mod_1_r.
  - simpl le_encode. simpl le_decode. rewrite IH.
    replace (8 * Z.of_nat (S n)) with (8 + 8 * Z.of_nat n) by lia.
    unfold wrap. rewrite Z.shiftr_div_pow2, Z.pow_add_r by lia.
    rewrite Z.rem_mul_r by lia. done.
Qed.

Lemma le_decode_bound l : Forall byte l -> in_u (8 * Z.of_nat (length l)) (le_decode l).
Proof.
  unfold in_u, byte. induction 1 as [|b l Hb _ IH]; [simpl; lia|].
  simpl length. replace (8 * Z.of_nat (S (length l))) with (8 + 8 * Z.of_nat (length l)) by lia.
  rewrite Z.pow_add_r by lia. simpl le_decode. change (2 ^ 8) with 256. lia.
Qed.

Lemma le_encode_decode l : Forall byte l -> le_encode (length l) (le_decode l) = l.
Proof.
  unfold byte. induction 1 as [|b l Hb _ IH]; [done|]. simpl le_decode. simpl length. simpl le_encode.
  f_equal.
  - unfold wrap. symmetry. apply (Z.mod_unique _ _ (le_decode l)); change (2 ^ 8) with 256; lia.
  - rewrite Z.shiftr_div_pow2 by lia.
    replace ((b + 2 ^ 8 * le_decode l) / 2 ^ 8) with (le_decode l); [done|].
    apply (Z.div_unique _ _ _ b); change (2 ^ 8) with 256; lia.
Qed.

Lemma length_load_bytes n a m : length (load_bytes n a m) = n.
Proof. unfold load_bytes. by rewrite length_fmap, length_seq. Qed.

Lemma load_bytes_S n a m : load_bytes (S n) a m = byte_at m a :: load_bytes n (a + 1) m.
Proof.
  unfold load_bytes. simpl. f_equal; [f_equal; lia|].
  rewrite <- seq_shift, <- list_fmap_compose. apply list_fmap_ext. intros i x _. simpl. f_equal. lia.
Qed.

Lemma load_bytes_byte n a m : mem_ok m -> Forall byte (load_bytes n a m).
Proof.
  intros Hm. unfold load_bytes. apply Forall_fmap, Forall_forall. intros i _. apply Hm.
Qed.

Lemma byte_at_insert a b m a' :
  byte_at (<[a := b]> m) a' = if a' =? a then b else byte_at m a'.
Proof.
  unfold byte_at. destruct (Z.eqb_spec a' a) as [->|]; [by rewrite lookup_insert_eq|].
  by rewrite lookup_insert_ne.
Qed.

(** What a store leaves at every address. *)
Lemma byte_at_store l a m a' :
  byte_at (store_bytes a l m) a' =
    match nthZ l (a' - a) with Some b => b | None => byte_at m a' end.
Proof.
  revert a m. induction l as [|b l IH]; intros a m; simpl.
  - unfold nthZ. destruct (_ <? 0); done.
  - rewrite IH, byte_at_insert. unfold nthZ.
    destruct (Z.ltb_spec (a' - (a + 1)) 0), (Z.ltb_spec (a' - a) 0), (Z.eqb_spec a' a); try lia; try done.
    + by replace (Z.to_nat (a' - a)) with 0%nat by lia.
    + replace (Z.to_nat (a' - a)) with (S (Z.to_nat (a' - (a + 1)))) by lia. done.
Qed.

Lemma store_bytes_ok l a m : mem_ok m -> Forall byte l -> mem_ok (store_bytes a l m).
Proof.
  intros Hm Hl a'. rewrite byte_at_store. unfold nthZ. destruct (_ <? 0); [apply Hm|].
  destruct (l !! _) as [b|] eqn:E; [|apply Hm]. by eapply Forall_lookup_1 in E.
Qed.

Lemma load_store_same l a m : load_bytes (length l) a (store_bytes a l m) = l.
Proof.
  apply list_eq. intros i. unfold load_bytes. rewrite list_lookup_fmap.
  destruct (decide (i < length l)%nat) as [Hi|Hi].
  - rewrite lookup_seq_lt by done. simpl. rewrite byte_at_store. unfold nthZ.
    destruct (Z.ltb_spec (a + Z.of_nat i - a) 0); [lia|].
    replace (Z.to_nat (a + Z.of_nat i - a)) with i by lia.
    by destruct (lookup_lt_is_Some_2 l i Hi) as [b ->].
  - rewrite lookup_seq_ge by lia. simpl. symmetry. apply lookup_ge_None. lia.
Qed.

Lemma load_store_disjoint n l a a' m :
  a' + Z.of_nat n <= a \/ a + Z.of_nat (length l) <= a' ->
  load_bytes n a' (store_bytes a l m) = load_bytes n a' m.
Proof.
  intros Hd. unfold load_bytes. apply list_fmap_ext. intros i x [-> Hi]%lookup_seq. simpl.
  rewrite byte_at_store, nthZ_None by lia. done.
Qed.

Section AccessProofs.
Context `{sys : Sys}.

(** An access within 16 bytes of an effective address the interpreter can form,
    a 32-bit base plus a 32-bit offset, stays in the reserved region: it
    succeeds inside the pages in use and traps everywhere else. *)
Lemma access_cases n a s :
  16 <= syspagesize -> 0 <= a -> 0 <= n -> a + n <= 2 * (2 ^ 32 - 1) + 16 ->
  access 0 a n s = if (a + n <=? page_bytes s) && (0 <=? page s) then Ret tt else Throw oob.
Proof.
  intros Hp Ha Hn Han. unfold access, prefix_size, suffix_size, table_size, max_memory.
  destruct (Z.leb_spec 0 a); [simpl|lia]. destruct (_ && _); [done|].
  destruct (Z.leb_spec (- (syspagesize + syspagesize)) a); [simpl|lia].
  destruct (Z.leb_spec (a + n) (2 ^ 33 + syspagesize)); [done|lia].
Qed.

(** What was stored is read back, and a store leaves the other bytes alone. *)
Lemma read_write_same n a v s s' :
  write_unaligned n a v s = Ret s' -> read_unaligned n a s' = Ret (wrap (8 * Z.of_nat n) v).
Proof.
  unfold write_unaligned, read_unaligned. destruct (access 0 a _ s) as [[]|e|w] eqn:E; try done.
  simpl. intros [= <-]. unfold access, page_bytes in *. simpl.
  destruct (_ && _); [|by destruct (_ && _)]. simpl.
  pose proof (load_store_same (le_encode n v) a (bytes s)) as Hs.
  rewrite length_le_encode in Hs. rewrite Hs. by rewrite le_decode_encode.
Qed.

Lemma read_write_disjoint n n' a a' v s s' :
  write_unaligned n a v s = Ret s' ->
  a' + Z.of_nat n' <= a \/ a + Z.of_nat n <= a' ->
  read_unaligned n' a' s' = read_unaligned n' a' s.
Proof.
  unfold write_unaligned, read_unaligned. destruct (access 0 a _ s) as [[]|e|w] eqn:E; try done.
  simpl. intros [= <-] Hd. unfold access, page_bytes. simpl.
  rewrite load_store_disjoint by (rewrite length_le_encode; lia). done.
Qed.

Lemma write_unaligned_page n a v s s' :
  write_unaligned n a v s = Ret s' -> page s' = page s /\ (mem_ok (bytes s) -> mem_ok (bytes s')).
Proof.
  unfold write_unaligned. destruct (access 0 a _ s) as [[]|e|w]; try done. simpl. intros [= <-].
  split; [done|]. intros. simpl. apply store_bytes_ok; [done|apply le_encode_byte].
Qed.

Lemma read_unaligned_bound n a s v :
  mem_ok (bytes s) -> read_unaligned n a s = Ret v -> in_u (8 * Z.of_nat n) v.
Proof.
  intros Hm. unfold read_unaligned. destruct (access 0 a _ s) as [[]|e|w]; try done.
  simpl. intros [= <-]. rewrite <- (length_load_bytes n a (bytes s)) at 1.
  apply le_decode_bound, load_bytes_byte, Hm.
Qed.
End AccessProofs.
