(* ===== verification/JitAllocator.v ===== *)
(** * The allocator of executable memory, and two small ones (allocator.hpp)

    [jit_allocator] keeps the blocks of the segments it has mapped, free and allocated,
    each in a map by address and in a set by size.  [contiguous_allocator] is a bump
    allocator that moves to a larger mapping; [stack_allocator] maps a stack when the
    program's is too small.  Where [mmap] puts memory is a parameter. *)
From S2P Require Import Prelude Allocator LinearMemory.

(** ** Ordered containers *)

(** The first element of a std::set or std::map in the order [lt] *)
Definition least {A} (lt : A -> A -> bool) (l : list A) : option A :=
  foldr (fun x acc => match acc with Some y => if lt y x then acc else Some x | None => Some x end) None l.

(** ** jit_allocator *)
Module JitAlloc.
Section JitAlloc.
Context `{sys : Sys}.
(** The mappings that exist and the length of a new one: its address, or MAP_FAILED *)
Variable mmap : list (Z * Z) -> Z -> option Z.

Definition segment_size : Z := 1024 * 1024 * 1024.

(** [block]: size and address; [by_size] orders blocks. *)
Definition block : Type := Z * Z.
Definition by_size (lhs rhs : block) : bool := (lhs.1 <? rhs.1) || ((lhs.1 =? rhs.1) && (lhs.2 <? rhs.2)).

Record t : Type := Make {
  _segments : list (Z * Z);                     (* base, size *)
  free_blocks_by_size : gset block;
  allocated_blocks_by_size : gset block;
  free_blocks : gmap Z Z;
  allocated_blocks : gmap Z Z
}.
Definition set_segments x s := Make x (free_blocks_by_size s) (allocated_blocks_by_size s) (free_blocks s) (allocated_blocks s).
Definition set_free_by_size x s := Make (_segments s) x (allocated_blocks_by_size s) (free_blocks s) (allocated_blocks s).
Definition set_allocated_by_size x s := Make (_segments s) (free_blocks_by_size s) x (free_blocks s) (allocated_blocks s).
Definition set_free x s := Make (_segments s) (free_blocks_by_size s) (allocated_blocks_by_size s) x (allocated_blocks s).
Definition set_allocated x s := Make (_segments s) (free_blocks_by_size s) (allocated_blocks_by_size s) (free_blocks s) x.
Definition empty : t := Make [] ∅ ∅ ∅ ∅.

Definition round_to_page (offset : Z) : Z := align_to_page offset.

(** [std::map::insert] keeps an element that is there. *)
Definition insert_new (k v : Z) (m : gmap Z Z) : gmap Z Z :=
  match m !! k with Some _ => m | None => <[k := v]> m end.

(** [free_blocks_by_size.lower_bound(size)] *)
Definition lower_bound (size : Z) (s : t) : option block :=
  least by_size (filter (fun b => size <= b.1) (elements (free_blocks_by_size s))).
(** The neighbours of an element of [free_blocks] *)
Definition next_of (p : Z) (m : gmap Z Z) : option Z := least Z.ltb (filter (fun q => p < q) (map_to_list m).*1).
Definition prev_of (p : Z) (m : gmap Z Z) : option Z := least (fun a b => b <? a) (filter (fun q => q < p) (map_to_list m).*1).

(** [transfer_node], of a map and of a set *)
Definition transfer_free (p : Z) : M t unit :=
  from ← gets free_blocks;
  to ← gets allocated_blocks;
  match from !! p, to !! p with
  | Some n, None => modify (set_free (delete p from));; modify (set_allocated (<[p := n]> to))
  | _, _ => ub "precondition of transfer_node"
  end.
Definition transfer_allocated (p : Z) : M t Z :=
  from ← gets allocated_blocks;
  to ← gets free_blocks;
  match from !! p, to !! p with
  | Some n, None => modify (set_allocated (delete p from));; modify (set_free (<[p := n]> to));; mret n
  | _, _ => ub "precondition of transfer_node"
  end.
Definition transfer_free_by_size (b : block) : M t unit :=
  from ← gets free_blocks_by_size;
  to ← gets allocated_blocks_by_size;
  if bool_decide (b ∈ from /\ b ∉ to) then
    modify (set_free_by_size (from ∖ {[b]}));; modify (set_allocated_by_size (to ∪ {[b]}))
  else ub "precondition of transfer_node".
Definition transfer_allocated_by_size (b : block) : M t unit :=
  from ← gets allocated_blocks_by_size;
  to ← gets free_blocks_by_size;
  if bool_decide (b ∈ from /\ b ∉ to) then
    modify (set_allocated_by_size (from ∖ {[b]}));; modify (set_free_by_size (to ∪ {[b]}))
  else ub "precondition of transfer_node".

Definition allocate_segment (min_size : Z) : M t block :=
  let size := Z.max min_size segment_size in
  segments ← gets _segments;
  base ← lift (match mmap segments size with
               | Some base => Ret base
               | None => Throw (wasm_bad_alloc "failed to allocate jit segment")
               end);
  modify (set_segments (segments ++ [(base, size)]));;
  modify (fun s => set_free_by_size (free_blocks_by_size s ∪ {[(size, base)]}) s);;
  modify (fun s => set_free (insert_new base size (free_blocks s)) s);;
  mret (size, base).

Definition split_block (pos : block) (size : Z) : M t block :=
  let new1 := (size, pos.2) in
  let new2 := (wrap 64 (pos.1 - size), wrap 64 (pos.2 + size)) in
  modify (fun s => set_free_by_size (free_blocks_by_size s ∪ {[new1]}) s);;
  modify (fun s => set_free_by_size (free_blocks_by_size s ∪ {[new2]}) s);;
  modify (fun s => set_free (insert_new new2.2 new2.1 (free_blocks s)) s);;
  modify (fun s => set_free_by_size (free_blocks_by_size s ∖ {[pos]}) s);;
  modify (fun s => set_free (<[new1.2 := new1.1]> (free_blocks s)) s);;
  mret new1.

Definition alloc (size : Z) : M t Z :=
  let size := round_to_page size in
  best ← gets (lower_bound size);
  best ← match best with Some best => mret best | None => allocate_segment size end;
  best ← (if size <? best.1 then split_block best size else mret best);
  transfer_free best.2;;
  transfer_free_by_size best;;
  mret best.2.

(** The iterators are the addresses of their blocks. *)
Definition maybe_consolidate_blocks (lhs rhs : Z) : M t Z :=
  free ← gets free_blocks;
  match free !! lhs, free !! rhs with
  | Some n, Some k =>
      if wrap 64 (lhs + n) =? rhs then
        blocks ← gets free_blocks_by_size;
        if bool_decide ((n, lhs) ∈ blocks) then
          modify (set_free_by_size (((blocks ∖ {[(n, lhs)]}) ∪ {[(wrap 64 (n + k), lhs)]}) ∖ {[(k, rhs)]}));;
          modify (set_free (delete rhs (<[lhs := wrap 64 (n + k)]> free)));;
          mret lhs
        else ub "value of an empty node"
      else mret rhs
  | _, _ => ub "iterator without element"
  end.

Definition free (ptr : Z) : M t unit :=
  size ← transfer_allocated ptr;
  transfer_allocated_by_size (size, ptr);;
  prev ← gets (fun s => prev_of ptr (free_blocks s));
  pos ← match prev with Some prev => maybe_consolidate_blocks prev ptr | None => mret ptr end;
  next ← gets (fun s => next_of pos (free_blocks s));
  match next with
  | Some next => maybe_consolidate_blocks pos next;; mret tt
  | None => mret tt
  end.

(** [span()] *)
Definition span (s : t) : list (Z * Z) := _segments s.
End JitAlloc.
End JitAlloc.

(** ** contiguous_allocator *)
Module Contiguous.
Section Contiguous.
Context `{sys : Sys}.
Variable mmap : Z -> option Z.

Record t : Type := Make { _offset : Z; _size : Z; _base : Z; memory : gmap Z Z }.
Definition set_offset x s := Make x (_size s) (_base s) (memory s).

Definition construct (size : Z) : outcome t :=
  let size := align_to_page size in
  match mmap size with
  | Some base => Ret (Make 0 size base ∅)
  | None => Throw (wasm_bad_alloc "mmap failed.")
  end.
(** [memcpy] and [munmap]: the memory at the old address is gone. *)
Definition move_to (new_base new_size : Z) (s : t) : t :=
  Make (_offset s) new_size new_base (store_bytes new_base (load_bytes (Z.to_nat (_size s)) (_base s) (memory s)) ∅).
Definition alloc (sizeof_T alignof_T size : Z) : M t Z :=
  modify (fun s => set_offset (align_offset alignof_T (_offset s)) s);;
  off ← gets _offset;
  let aligned := wrap 64 (wrap 64 (sizeof_T * size) + off) in
  sz ← gets _size;
  (if sz <? aligned then
     let new_size := align_to_page aligned in
     new_base ← lift (match mmap new_size with Some base => Ret base | None => Throw (wasm_bad_alloc "mmap failed.") end);
     modify (move_to new_base new_size)
   else mret tt);;
  base ← gets _base;
  modify (set_offset aligned);;
  mret (base + off).
Definition reclaim : M t unit := mret tt.
Definition free : M t unit := mret tt.
End Contiguous.
End Contiguous.

(** ** stack_allocator *)
Module StackAlloc.
Section StackAlloc.
Context `{sys : Sys}.
Variable mmap : Z -> option Z.

Record t : Type := Make { _ptr : option Z; _size : Z }.   (* [_size] is set with [_ptr] *)
Definition construct (min_size available : Z) : outcome t :=
  if available <? min_size then
    let size := wrap 64 (align_to_page min_size + 4 * 1024 * 1024) in
    match mmap size with
    | Some p => Ret (Make (Some p) size)
    | None => Throw (wasm_bad_alloc "Failed to allocate stack")
    end
  else Ret (Make None 0).
Definition top (s : t) : option Z := (fun p => p + _size s) <$> _ptr s.
End StackAlloc.
End StackAlloc.

(** ** Proofs *)
Lemma least_none {A} (lt : A -> A -> bool) l : least lt l = None -> l = [].
Proof. destruct l as [|x l]; [done|]. simpl. destruct (least lt l); [by destruct (lt _ _)|done]. Qed.
Lemma least_some {A} (lt : A -> A -> bool) l x :
  (forall a b, lt a b = true -> lt b a = false) -> (forall a b c, lt a b = false -> lt b c = false -> lt a c = false) ->
  least lt l = Some x -> x ∈ l /\ forall y, y ∈ l -> lt y x = false.
Proof.
  intros Has Htr. revert x. induction l as [|z l IH]; intros x; [done|]. simpl.
  assert (Hirr : forall a, lt a a = false) by (intros a; destruct (lt a a) eqn:E; [by rewrite (Has _ _ E) in E|done]).
  destruct (least lt l) as [y|] eqn:El.
  - destruct (IH y eq_refl) as [Hin Hle]. destruct (lt y z) eqn:E; intros [= <-].
    + split; [by right|]. intros w [->|Hw]%elem_of_cons; [by apply Has|by apply Hle].
    + split; [by left|]. intros w [->|Hw]%elem_of_cons; [done|]. eapply Htr; [by apply Hle|done].
  - apply least_none in El as ->. intros [= <-]. split; [by left|]. by intros w [->|[]%elem_of_nil]%elem_of_cons.
Qed.

(** Two computations in sequence, and what comes behind them *)
Lemma wp_then {S A B C} (k1 : M S A) (k2 : A -> M S B) (f : B -> M S C) Q Q' E s :
  wp (a ← k1; k2 a) Q E s -> (forall b s', Q b s' -> wp (f b) Q' E s') -> wp (a ← k1; b ← k2 a; f b) Q' E s.
Proof.
  unfold wp, mbind, M_bind. destruct (k1 s) as [[a|e|w] s1]; [|done|done]. destruct (k2 a s1) as [[b|e|w] s2]; [|done|done].
  intros H Hf. by apply Hf.
Qed.

Module JitAllocProofs.
Import JitAlloc.
Section Proofs.
Context `{sys : Sys} `{!SysOk sys}.
Variable mmap : list (Z * Z) -> Z -> option Z.
Implicit Types (s : t) (b : block).

(** *** Tilings *)

(** Blocks of whole pages that are apart and cover [C] *)
Record tiles (B : Z -> Z -> Prop) (C : Z -> Prop) : Prop := {
  ti_block p n : B p n -> 0 < n /\ 0 < p /\ p + n <= 2 ^ 63 /\ (syspagesize | p) /\ (syspagesize | n);
  ti_apart p n q k : B p n -> B q k -> p = q /\ n = k \/ p + n <= q \/ q + k <= p;
  ti_cover a : C a <-> exists p n, B p n /\ p <= a < p + n
}.
Lemma tiles_ext (B B' : Z -> Z -> Prop) (C C' : Z -> Prop) :
  (forall p n, B p n <-> B' p n) -> (forall a, C a <-> C' a) -> tiles B C -> tiles B' C'.
Proof.
  intros HB HC [T1 T2 T3]. constructor.
  - intros p n H%HB. by apply T1.
  - intros p n q k H1%HB H2%HB. by apply T2.
  - intros a. rewrite <- HC, T3. by setoid_rewrite HB.
Qed.
(** The region from [p] to [p + n] *)
Definition covers (p n a : Z) : Prop := p <= a < p + n.
Lemma tiles_add B C p n :
  tiles B C -> 0 < n -> 0 < p -> p + n <= 2 ^ 63 -> (syspagesize | p) -> (syspagesize | n) -> (forall a, covers p n a -> ~ C a) ->
  tiles (fun q k => q = p /\ k = n \/ B q k) (fun a => covers p n a \/ C a).
Proof.
  intros [T1 T2 T3] Hn Hp Hu Hap Han Hfresh.
  assert (Hout : forall q k, B q k -> p + n <= q \/ q + k <= p).
  { intros q k Hb. pose proof (T1 _ _ Hb) as (Hk & _). destruct (Z.le_gt_cases (p + n) q); [by left|].
    destruct (Z.le_gt_cases (q + k) p); [by right|]. exfalso. apply (Hfresh (Z.max p q)); [unfold covers; lia|].
    apply T3. exists q, k. split; [done|lia]. }
  constructor.
  - intros q k [[-> ->]|Hb]; [done|by apply T1].
  - intros q k q' k' [[-> ->]|H1] [[-> ->]|H2]; [by left| | |by apply T2].
    + apply Hout in H2. lia.
    + apply Hout in H1. lia.
  - intros a. rewrite T3. unfold covers. split.
    + intros [Ha|(q & k & Hb & Ha)]; [exists p, n; tauto|exists q, k; tauto].
    + intros (q & k & [[-> ->]|Hb] & Ha); [by left|right; by exists q, k].
Qed.
Lemma tiles_split B C p n k :
  tiles B C -> B p n -> 0 < k < n -> (syspagesize | k) ->
  tiles (fun q m => q = p /\ m = k \/ q = p + k /\ m = n - k \/ q <> p /\ B q m) C.
Proof.
  intros [T1 T2 T3] Hb Hk Hak. pose proof (T1 _ _ Hb) as (Hn & Hp & Hu & Hap & Han).
  assert (Hout : forall q m, q <> p -> B q m -> p + n <= q \/ q + m <= p).
  { intros q m Hne H. destruct (T2 _ _ _ _ Hb H) as [[? _]|?]; [congruence|done]. }
  constructor.
  - intros q m [[-> ->]|[[-> ->]|[_ H]]]; [split_and!; done || lia| |by apply T1].
    split_and!; try lia; [by apply Z.divide_add_r|by apply Z.divide_sub_r].
  - intros q m q' m' [[-> ->]|[[-> ->]|[Hq H]]] [[-> ->]|[[-> ->]|[Hq' H']]]; try lia;
      try (pose proof (Hout _ _ Hq H) as Ho; pose proof (T1 _ _ H)); try (pose proof (Hout _ _ Hq' H') as Ho'; pose proof (T1 _ _ H')); try lia.
    by apply T2.
  - intros a. rewrite T3. split.
    + intros (q & m & H & Ha). destruct (decide (q = p)) as [->|Hne]; [|exists q, m; tauto].
      assert (m = n) as ->. { destruct (T2 _ _ _ _ Hb H) as [[_ ?]|?]; [done|]. pose proof (T1 _ _ H). lia. }
      destruct (Z.lt_ge_cases a (p + k)); [exists p, k|exists (p + k), (n - k)]; (split; [tauto|lia]).
    + intros (q & m & [[-> ->]|[[-> ->]|[Hne H]]] & Ha); [exists p, n|exists p, n|exists q, m]; (split; [done|lia]).
Qed.
Lemma tiles_merge B C p n k :
  tiles B C -> B p n -> B (p + n) k ->
  tiles (fun q m => q = p /\ m = n + k \/ q <> p /\ q <> p + n /\ B q m) C.
Proof.
  intros [T1 T2 T3] Hb1 Hb2. pose proof (T1 _ _ Hb1) as (Hn & Hp & Hu & Hap & Han). pose proof (T1 _ _ Hb2) as (Hk & _ & Hu2 & _ & Hak).
  assert (Hout : forall q m, q <> p -> q <> p + n -> B q m -> p + n + k <= q \/ q + m <= p).
  { intros q m H1 H2 H. pose proof (T1 _ _ H). destruct (T2 _ _ _ _ Hb1 H) as [[? _]|?]; [congruence|].
    destruct (T2 _ _ _ _ Hb2 H) as [[? _]|?]; [congruence|]. lia. }
  constructor.
  - intros q m [[-> ->]|[_ [_ H]]]; [|by apply T1]. split_and!; try done; try lia. by apply Z.divide_add_r.
  - intros q m q' m' [[-> ->]|[H1 [H2 H]]] [[-> ->]|[H1' [H2' H']]]; try lia; [| |by apply T2].
    + pose proof (Hout _ _ H1' H2' H'). lia.
    + pose proof (Hout _ _ H1 H2 H). lia.
  - intros a. rewrite T3. split.
    + intros (q & m & H & Ha). destruct (decide (q = p)) as [->|Hne1]; [|destruct (decide (q = p + n)) as [->|Hne2]; [|exists q, m; tauto]].
      * assert (m = n) as ->. { destruct (T2 _ _ _ _ Hb1 H) as [[_ ?]|?]; [done|]. pose proof (T1 _ _ H). lia. }
        exists p, (n + k). split; [tauto|lia].
      * assert (m = k) as ->. { destruct (T2 _ _ _ _ Hb2 H) as [[_ ?]|?]; [done|]. pose proof (T1 _ _ H). lia. }
        exists p, (n + k). split; [tauto|lia].
    + intros (q & m & [[-> ->]|[Hne1 [Hne2 H]]] & Ha); [|by exists q, m].
      destruct (Z.lt_ge_cases a (p + n)); [exists p, n|exists (p + n), k]; (split; [done|lia]).
Qed.

(** *** The state *)
Definition is_block s (p n : Z) : Prop := free_blocks s !! p = Some n \/ allocated_blocks s !! p = Some n.
Definition mapped s (a : Z) : Prop := Exists (fun seg => covers seg.1 seg.2 a) (_segments s).
Record wf s : Prop := {
  wf_tiles : tiles (is_block s) (mapped s);
  wf_once p n : free_blocks s !! p = Some n -> allocated_blocks s !! p = None;
  wf_free n p : (n, p) ∈ free_blocks_by_size s <-> free_blocks s !! p = Some n;
  wf_allocated n p : (n, p) ∈ allocated_blocks_by_size s <-> allocated_blocks s !! p = Some n
}.

Lemma wf_empty : wf empty.
Proof.
  constructor; simpl; [|by intros ?? ?%lookup_empty_Some|..].
  - constructor; unfold is_block, mapped; simpl.
    + by intros p n [?%lookup_empty_Some|?%lookup_empty_Some].
    + by intros p n q k [?%lookup_empty_Some|?%lookup_empty_Some].
    + intros a. rewrite Exists_nil. split; [done|]. by intros (p & n & [?%lookup_empty_Some|?%lookup_empty_Some] & _).
  - intros n p. rewrite lookup_empty. set_solver.
  - intros n p. rewrite lookup_empty. set_solver.
Qed.
(** An address starts at most one block. *)
Lemma block_unique s p n k : wf s -> is_block s p n -> is_block s p k -> n = k.
Proof.
  intros W H1 H2. destruct (ti_apart _ _ (wf_tiles s W) _ _ _ _ H1 H2) as [[_ ?]|?]; [done|].
  pose proof (ti_block _ _ (wf_tiles s W) _ _ H1). pose proof (ti_block _ _ (wf_tiles s W) _ _ H2). lia.
Qed.

Lemma insert_new_eq k v m : m !! k = None -> insert_new k v m = <[k := v]> m.
Proof. unfold insert_new. by intros ->. Qed.

(** *** Choosing a block *)
Lemma lower_bound_some size s b : wf s -> lower_bound size s = Some b ->
  free_blocks s !! b.2 = Some b.1 /\ size <= b.1 /\ forall p n, free_blocks s !! p = Some n -> size <= n -> b.1 <= n.
Proof.
  intros W E. unfold lower_bound in E. apply least_some in E as [Hin Hle].
  - apply list_elem_of_filter in Hin as [Hs Hin%elem_of_elements]. destruct b as [n p]. apply wf_free in Hin; [|done].
    split; [done|]. split; [done|]. intros q k Hq Hk. specialize (Hle (k, q)). unfold by_size in Hle. simpl in Hle.
    destruct (Z.ltb_spec k n); [|done]. exfalso. assert (true = false); [|done]. rewrite <- Hle; [done|].
    apply list_elem_of_filter. split; [done|]. apply elem_of_elements. by apply wf_free.
  - intros [a1 a2] [b1 b2]. unfold by_size. simpl. lia.
  - intros [a1 a2] [b1 b2] [c1 c2]. unfold by_size. simpl. lia.
Qed.
Lemma lower_bound_none size s p n : wf s -> lower_bound size s = None -> free_blocks s !! p = Some n -> n < size.
Proof.
  intros W E%least_none Hp. apply wf_free in Hp; [|done]. destruct (Z.lt_ge_cases n size); [done|]. exfalso.
  cut ((n, p) ∈ ([] : list block)); [by intros ?%elem_of_nil|]. rewrite <- E.
  apply list_elem_of_filter. split; [done|by apply elem_of_elements].
Qed.

(** *** Segments *)

(** What mmap promises: whole pages of the lower half of the address space that are not mapped *)
Definition mmap_fresh : Prop := forall segments n base, mmap segments n = Some base ->
  0 < base /\ base + n <= 2 ^ 63 /\ (syspagesize | base) /\ forall a, covers base n a -> ~ Exists (fun seg => covers seg.1 seg.2 a) segments.
Hypotheses (mmap_ok : mmap_fresh) (segment_pages : (syspagesize | segment_size)).
(** Only the free blocks and the segments may differ. *)
Definition same_allocated s s' : Prop :=
  allocated_blocks s' = allocated_blocks s /\ allocated_blocks_by_size s' = allocated_blocks_by_size s.

Lemma allocate_segment_ok size s :
  wf s -> 0 < size -> (syspagesize | size) ->
  wp (allocate_segment mmap size)
    (fun b s' => wf s' /\ free_blocks s' !! b.2 = Some b.1 /\ b.1 = Z.max size segment_size /\ same_allocated s s' /\
       _segments s' = _segments s ++ [(b.2, b.1)])
    (fun e s' => s' = s /\ e = wasm_bad_alloc "failed to allocate jit segment" /\ mmap (_segments s) (Z.max size segment_size) = None) s.
Proof.
  intros W Hs Hp. unfold allocate_segment. set (n := Z.max size segment_size).
  assert (Hn : (syspagesize | n)) by (unfold n; destruct (Z.max_spec size segment_size) as [[_ ->]|[_ ->]]; done).
  apply wp_bind, wp_gets, wp_bind. destruct (mmap (_segments s) n) as [base|] eqn:E; [|done].
  destruct (mmap_ok _ _ _ E) as (Hb & Hu & Hpb & Hfresh). eapply wp_lift_Ret; [done|].
  apply wp_bind, wp_modify, wp_bind, wp_modify, wp_bind, wp_modify, wp_ret. simpl.
  pose proof (tiles_add _ _ base n (wf_tiles s W) ltac:(lia) Hb Hu Hpb Hn Hfresh) as T.
  assert (Hnew : forall k, ~ is_block s base k).
  { intros k H. apply (Hfresh base); [unfold covers; lia|]. apply (ti_cover _ _ (wf_tiles s W)). exists base, k. split; [done|].
    pose proof (ti_block _ _ (wf_tiles s W) _ _ H). lia. }
  assert (Hf : free_blocks s !! base = None) by (destruct (free_blocks s !! base) as [k|] eqn:Ek; [by destruct (Hnew k); left|done]).
  assert (Ha : allocated_blocks s !! base = None) by (destruct (allocated_blocks s !! base) as [k|] eqn:Ek; [by destruct (Hnew k); right|done]).
  rewrite insert_new_eq by done. split; [|split; [apply lookup_insert_eq|done]].
  destruct W as [W1 W2 W3 W4]. constructor; simpl.
  - eapply tiles_ext; [| |exact T].
    + intros p k. unfold is_block. simpl. destruct (decide (p = base)) as [->|Hne].
      * rewrite lookup_insert_eq, Hf, Ha. (intuition congruence).
      * rewrite lookup_insert_ne by done. (intuition congruence).
    + intros a. unfold mapped. simpl. rewrite Exists_app, Exists_cons, Exists_nil. simpl. tauto.
  - intros p k. destruct (decide (p = base)) as [->|Hne]; [done|]. rewrite lookup_insert_ne by done. apply W2.
  - intros k p. rewrite elem_of_union, elem_of_singleton. destruct (decide (p = base)) as [->|Hne].
    + rewrite lookup_insert_eq, W3, Hf. (intuition congruence).
    + rewrite lookup_insert_ne by done. rewrite W3. (intuition congruence).
  - done.
Qed.

(** *** Splitting *)
Lemma split_block_ok pos size s :
  wf s -> free_blocks s !! pos.2 = Some pos.1 -> 0 < size < pos.1 -> (syspagesize | size) ->
  wp (split_block pos size)
    (fun b s' => b = (size, pos.2) /\ wf s' /\ free_blocks s' !! pos.2 = Some size /\ same_allocated s s' /\ _segments s' = _segments s)
    (fun _ _ => False) s.
Proof.
  destruct pos as [n p]. simpl. intros W Hf Hs Hp. unfold split_block.
  repeat (apply wp_bind, wp_modify). apply wp_ret. simpl.
  assert (Hb : is_block s p n) by by left. pose proof (ti_block _ _ (wf_tiles s W) _ _ Hb) as (Hn & Hp0 & Hu & _).
  rewrite (wrap_small 64 (n - size)), (wrap_small 64 (p + size)) by (unfold in_u; lia).
  pose proof (tiles_split _ _ p n size (wf_tiles s W) Hb Hs Hp) as T.
  assert (Hnew : forall k, ~ is_block s (p + size) k).
  { intros k H. pose proof (ti_block _ _ (wf_tiles s W) _ _ H). destruct (ti_apart _ _ (wf_tiles s W) _ _ _ _ Hb H) as [[? _]|?]; lia. }
  assert (Hf2 : free_blocks s !! (p + size) = None) by (destruct (free_blocks s !! (p + size)) as [k|] eqn:Ek; [by destruct (Hnew k); left|done]).
  assert (Ha2 : allocated_blocks s !! (p + size) = None) by (destruct (allocated_blocks s !! (p + size)) as [k|] eqn:Ek; [by destruct (Hnew k); right|done]).
  pose proof (wf_once s W _ _ Hf) as Ha. rewrite insert_new_eq by done.
  split; [done|]. split; [|split; [apply lookup_insert_eq|done]]. destruct W as [W1 W2 W3 W4].
  assert (Hlook : forall q, (<[p := size]> (<[p + size := n - size]> (free_blocks s))) !! q =
    if decide (q = p) then Some size else if decide (q = p + size) then Some (n - size) else free_blocks s !! q).
  { intros q. destruct (decide (q = p)) as [->|H1]; [apply lookup_insert_eq|]. rewrite lookup_insert_ne by done.
    destruct (decide (q = p + size)) as [->|H2]; [apply lookup_insert_eq|by rewrite lookup_insert_ne]. }
  constructor; simpl.
  - eapply tiles_ext; [| |exact T]; [|done]. intros q k. unfold is_block. simpl. rewrite Hlook.
    destruct (decide (q = p)) as [->|H1]; [rewrite Ha; intuition (congruence || lia)|].
    destruct (decide (q = p + size)) as [->|H2]; [rewrite Hf2, Ha2; intuition (congruence || lia)|intuition congruence].
  - intros q k. rewrite Hlook. destruct (decide (q = p)) as [->|]; [done|]. destruct (decide (q = p + size)) as [->|]; [done|apply W2].
  - intros k q. rewrite Hlook, elem_of_difference, !elem_of_union, !elem_of_singleton, W3.
    destruct (decide (q = p)) as [->|H1]; [rewrite Hf; intuition (congruence || (simplify_eq; lia))|].
    destruct (decide (q = p + size)) as [->|H2]; [rewrite Hf2; intuition congruence|intuition congruence].
  - done.
Qed.

(** *** Moving a block *)

(** The block at [p] moves between the free and the allocated ones. *)
Lemma is_block_moved (f a : gmap Z Z) p n : f !! p = Some n -> forall q k,
  (f !! q = Some k \/ a !! q = Some k) <-> (delete p f !! q = Some k \/ <[p := n]> a !! q = Some k) \/ a !! p = Some k /\ q = p.
Proof.
  intros Hf q k. destruct (decide (q = p)) as [->|Hne].
  - rewrite lookup_delete_eq, lookup_insert_eq, Hf. intuition congruence.
  - rewrite lookup_delete_ne, lookup_insert_ne by done. intuition congruence.
Qed.
Lemma member_deleted (S : gset block) (m : gmap Z Z) p n :
  (forall k q, (k, q) ∈ S <-> m !! q = Some k) -> m !! p = Some n ->
  forall k q, (k, q) ∈ S ∖ {[(n, p)]} <-> delete p m !! q = Some k.
Proof.
  intros HS Hp k q. rewrite elem_of_difference, elem_of_singleton, HS. destruct (decide (q = p)) as [->|Hne].
  - rewrite lookup_delete_eq, Hp. intuition congruence.
  - rewrite lookup_delete_ne by done. intuition congruence.
Qed.
Lemma member_inserted (S : gset block) (m : gmap Z Z) p n :
  (forall k q, (k, q) ∈ S <-> m !! q = Some k) -> m !! p = None ->
  forall k q, (k, q) ∈ S ∪ {[(n, p)]} <-> <[p := n]> m !! q = Some k.
Proof.
  intros HS Hp k q. rewrite elem_of_union, elem_of_singleton, HS. destruct (decide (q = p)) as [->|Hne].
  - rewrite lookup_insert_eq, Hp. intuition congruence.
  - rewrite lookup_insert_ne by done. intuition congruence.
Qed.
Lemma not_member (S : gset block) (m : gmap Z Z) p n :
  (forall k q, (k, q) ∈ S <-> m !! q = Some k) -> m !! p = None -> (n, p) ∉ S.
Proof. intros HS Hp H%HS. congruence. Qed.

Lemma transfer_to_allocated s p n :
  wf s -> free_blocks s !! p = Some n ->
  wp (transfer_free p;; transfer_free_by_size (n, p))
    (fun _ s' => wf s' /\ allocated_blocks s' = <[p := n]> (allocated_blocks s) /\ free_blocks s' = delete p (free_blocks s) /\
       _segments s' = _segments s) (fun _ _ => False) s.
Proof.
  intros W Hf. pose proof (wf_once s W _ _ Hf) as Ha. unfold transfer_free, transfer_free_by_size.
  apply wp_bind, wp_bind, wp_gets, wp_bind, wp_gets. rewrite Hf, Ha. apply wp_bind, wp_modify, wp_modify.
  apply wp_bind, wp_gets, wp_bind, wp_gets. simpl.
  rewrite bool_decide_eq_true_2 by (split; [by apply wf_free|by eapply not_member; [apply (wf_allocated s W)|]]).
  apply wp_bind, wp_modify, wp_modify. simpl. split; [|done]. destruct W as [W1 W2 W3 W4]. constructor; simpl.
  - eapply tiles_ext; [| |exact W1]; [|done]. intros q k. unfold is_block. simpl. rewrite (is_block_moved _ _ _ _ Hf).
    rewrite Ha. intuition congruence.
  - intros q k. destruct (decide (q = p)) as [->|Hne]; [by rewrite lookup_delete_eq|].
    rewrite lookup_delete_ne, lookup_insert_ne by done. apply W2.
  - by apply member_deleted.
  - by apply member_inserted.
Qed.
Lemma transfer_to_free s p n :
  wf s -> allocated_blocks s !! p = Some n ->
  wp (size ← transfer_allocated p; transfer_allocated_by_size (size, p))
    (fun _ s' => wf s' /\ allocated_blocks s' = delete p (allocated_blocks s) /\ free_blocks s' = <[p := n]> (free_blocks s) /\
       _segments s' = _segments s) (fun _ _ => False) s.
Proof.
  intros W Ha. assert (Hf : free_blocks s !! p = None).
  { destruct (free_blocks s !! p) as [k|] eqn:E; [|done]. apply wf_once in E; [congruence|done]. }
  unfold transfer_allocated, transfer_allocated_by_size.
  apply wp_bind, wp_bind, wp_gets, wp_bind, wp_gets. rewrite Hf, Ha. apply wp_bind, wp_modify, wp_bind, wp_modify, wp_ret.
  apply wp_bind, wp_gets, wp_bind, wp_gets. simpl.
  rewrite bool_decide_eq_true_2 by (split; [by apply wf_allocated|by eapply not_member; [apply (wf_free s W)|]]).
  apply wp_bind, wp_modify, wp_modify. simpl. split; [|done]. destruct W as [W1 W2 W3 W4]. constructor; simpl.
  - eapply tiles_ext; [| |exact W1]; [|done]. intros q k. unfold is_block. simpl.
    pose proof (is_block_moved _ (free_blocks s) _ _ Ha q k) as M. rewrite Hf in M. intuition congruence.
  - intros q k. destruct (decide (q = p)) as [->|Hne]; [by rewrite lookup_delete_eq|].
    rewrite lookup_delete_ne, lookup_insert_ne by done. apply W2.
  - by apply member_inserted.
  - by apply member_deleted.
Qed.

(** *** Merging *)
Lemma merge_ok s p n k :
  wf s -> free_blocks s !! p = Some n -> free_blocks s !! (p + n) = Some k ->
  wf (set_free (delete (p + n) (<[p := n + k]> (free_blocks s)))
       (set_free_by_size (((free_blocks_by_size s ∖ {[(n, p)]}) ∪ {[(n + k, p)]}) ∖ {[(k, p + n)]}) s)).
Proof.
  intros W H1 H2. pose proof (tiles_merge _ _ p n k (wf_tiles s W) (or_introl H1) (or_introl H2)) as T.
  pose proof (ti_block _ _ (wf_tiles s W) _ _ (or_introl H1)) as (Hn & _). pose proof (ti_block _ _ (wf_tiles s W) _ _ (or_introl H2)) as (Hk & _).
  pose proof (wf_once s W _ _ H1) as A1. pose proof (wf_once s W _ _ H2) as A2. destruct W as [W1 W2 W3 W4].
  assert (Hlook : forall q, delete (p + n) (<[p := n + k]> (free_blocks s)) !! q =
    if decide (q = p) then Some (n + k) else if decide (q = p + n) then None else free_blocks s !! q).
  { intros q. destruct (decide (q = p)) as [->|Hp]; [rewrite lookup_delete_ne by lia; apply lookup_insert_eq|].
    destruct (decide (q = p + n)) as [->|Hpn]; [apply lookup_delete_eq|]. by rewrite lookup_delete_ne, lookup_insert_ne. }
  constructor; simpl.
  - eapply tiles_ext; [| |exact T]; [|done]. intros q m. unfold is_block. simpl. rewrite Hlook.
    destruct (decide (q = p)) as [->|Hp]; [rewrite A1; intuition congruence|].
    destruct (decide (q = p + n)) as [->|Hpn]; [rewrite A2; intuition congruence|intuition congruence].
  - intros q m. rewrite Hlook. destruct (decide (q = p)) as [->|]; [done|]. destruct (decide (q = p + n)); [done|apply W2].
  - intros m q. rewrite Hlook, elem_of_difference, elem_of_union, elem_of_difference, !elem_of_singleton, W3.
    destruct (decide (q = p)) as [->|Hp]; [rewrite H1; split; [intuition congruence|]|].
    { intros [= <-]. split; [by right|]. intros [= ? ?]. lia. }
    destruct (decide (q = p + n)) as [->|Hpn]; [rewrite H2; intuition congruence|intuition congruence].
  - done.
Qed.

Lemma consolidate_ok s lhs rhs n k :
  wf s -> free_blocks s !! lhs = Some n -> free_blocks s !! rhs = Some k ->
  wp (maybe_consolidate_blocks lhs rhs)
    (fun pos s' => wf s' /\ allocated_blocks s' = allocated_blocks s /\ _segments s' = _segments s /\
       (if lhs + n =? rhs then pos = lhs /\ free_blocks s' = delete rhs (<[lhs := n + k]> (free_blocks s)) else pos = rhs /\ s' = s))
    (fun _ _ => False) s.
Proof.
  intros W H1 H2. unfold maybe_consolidate_blocks. apply wp_bind, wp_gets. rewrite H1, H2.
  pose proof (ti_block _ _ (wf_tiles s W) _ _ (or_introl H1)) as (Hn & Hl & Hu & _).
  rewrite (wrap_small 64 (lhs + n)) by (unfold in_u; lia). destruct (Z.eqb_spec (lhs + n) rhs) as [<-|Hne]; [|by apply wp_ret].
  pose proof (ti_block _ _ (wf_tiles s W) _ _ (or_introl H2)) as (Hk & _ & Hu2 & _).
  apply wp_bind, wp_gets. rewrite bool_decide_eq_true_2 by (by apply wf_free).
  rewrite (wrap_small 64 (n + k)) by (unfold in_u; lia). apply wp_bind, wp_modify, wp_bind, wp_modify, wp_ret.
  split; [by apply merge_ok|done].
Qed.

(** *** Neighbours *)
Lemma key_in (m : gmap Z Z) q : q ∈ (map_to_list m).*1 <-> is_Some (m !! q).
Proof.
  rewrite list_elem_of_fmap. split.
  - intros ([q' k] & -> & H%elem_of_map_to_list). by exists k.
  - intros [k H]. exists (q, k). split; [done|by apply elem_of_map_to_list].
Qed.
Lemma prev_of_some p m q : prev_of p m = Some q -> q < p /\ is_Some (m !! q) /\ forall q', is_Some (m !! q') -> q' < p -> q' <= q.
Proof.
  intros E. unfold prev_of in E. apply least_some in E as [[Hq Hin%key_in]%list_elem_of_filter Hle]; [|lia|lia].
  split_and!; [done|done|]. intros q' Hin' Hq'. specialize (Hle q' ltac:(apply list_elem_of_filter; split; [done|by apply key_in])). lia.
Qed.
Lemma prev_of_none p m q : prev_of p m = None -> is_Some (m !! q) -> p <= q.
Proof.
  intros E%least_none Hin. destruct (Z.le_gt_cases p q); [done|]. exfalso.
  cut (q ∈ ([] : list Z)); [by intros ?%elem_of_nil|]. rewrite <- E. apply list_elem_of_filter. split; [lia|by apply key_in].
Qed.
Lemma next_of_some p m q : next_of p m = Some q -> p < q /\ is_Some (m !! q) /\ forall q', is_Some (m !! q') -> p < q' -> q <= q'.
Proof.
  intros E. unfold next_of in E. apply least_some in E as [[Hq Hin%key_in]%list_elem_of_filter Hle]; [|lia|lia].
  split_and!; [done|done|]. intros q' Hin' Hq'. specialize (Hle q' ltac:(apply list_elem_of_filter; split; [done|by apply key_in])). lia.
Qed.
Lemma next_of_none p m q : next_of p m = None -> is_Some (m !! q) -> q <= p.
Proof.
  intros E%least_none Hin. destruct (Z.le_gt_cases q p); [done|]. exfalso.
  cut (q ∈ ([] : list Z)); [by intros ?%elem_of_nil|]. rewrite <- E. apply list_elem_of_filter. split; [lia|by apply key_in].
Qed.
Lemma free_apart s p n q k : wf s -> free_blocks s !! p = Some n -> free_blocks s !! q = Some k -> 0 < n /\ 0 < k /\
  (p = q /\ n = k \/ p + n <= q \/ q + k <= p).
Proof.
  intros W H1 H2. split; [apply (ti_block _ _ (wf_tiles s W) p n); by left|]. split; [apply (ti_block _ _ (wf_tiles s W) q k); by left|].
  by apply (ti_apart _ _ (wf_tiles s W)); left.
Qed.

Lemma left_merged s p n :
  wf s -> free_blocks s !! p = Some n ->
  wp (prev ← gets (fun s => prev_of p (free_blocks s));
      match prev with Some prev => maybe_consolidate_blocks prev p | None => mret p end)
    (fun pos s' => wf s' /\ allocated_blocks s' = allocated_blocks s /\ _segments s' = _segments s /\
       exists m, free_blocks s' !! pos = Some m /\ pos <= p /\ pos + m = p + n /\
         forall q k, free_blocks s' !! q = Some k -> q + k <> p) (fun _ _ => False) s.
Proof.
  intros W Hp. apply wp_bind, wp_gets. destruct (prev_of p (free_blocks s)) as [q|] eqn:E.
  - apply prev_of_some in E as (Hq & [k Hk] & Hle). pose proof (free_apart s q k p n W Hk Hp) as (Hk0 & Hn0 & Ha).
    eapply wp_mono; [exact (consolidate_ok s q p k n W Hk Hp)| |done]. intros pos s' (W' & Ea & Es & Hc).
    split; [done|]. split; [done|]. split; [done|]. destruct (Z.eqb_spec (q + k) p) as [Heq|Hne]; destruct Hc as [-> Hc].
    + rewrite Hc. exists (k + n). rewrite lookup_delete_ne, lookup_insert_eq by lia. split; [done|]. split; [lia|]. split; [lia|].
      intros q' k' Hq'. destruct (decide (q' = p)) as [->|H1]; [by rewrite lookup_delete_eq in Hq'|]. rewrite lookup_delete_ne in Hq' by done.
      destruct (decide (q' = q)) as [->|H2]; [rewrite lookup_insert_eq in Hq'; injection Hq' as <-; lia|]. rewrite lookup_insert_ne in Hq' by done.
      pose proof (free_apart s q' k' q k W Hq' Hk). lia.
    + subst s'. exists n. split; [done|]. split; [lia|]. split; [lia|]. intros q' k' Hq' Heq.
      pose proof (free_apart s q' k' q k W Hq' Hk) as (? & ? & Hb). pose proof (Hle q' ltac:(by eexists) ltac:(lia)). lia.
  - apply wp_ret. split; [done|]. split; [done|]. split; [done|]. exists n. split; [done|]. split; [lia|]. split; [lia|].
    intros q k Hk Heq. pose proof (prev_of_none _ _ q E ltac:(by eexists)). pose proof (free_apart s q k p n W Hk Hp). lia.
Qed.
Lemma right_merged s p n :
  wf s -> free_blocks s !! p = Some n ->
  wp (next ← gets (fun s => next_of p (free_blocks s));
      match next with Some next => maybe_consolidate_blocks p next;; mret tt | None => mret tt end)
    (fun _ s' => wf s' /\ allocated_blocks s' = allocated_blocks s /\ _segments s' = _segments s /\
       exists m, free_blocks s' !! p = Some m /\ n <= m /\
         forall q k, free_blocks s' !! q = Some k -> q <> p + n /\ (q = p \/ free_blocks s !! q = Some k)) (fun _ _ => False) s.
Proof.
  intros W Hp. apply wp_bind, wp_gets. destruct (next_of p (free_blocks s)) as [q|] eqn:E.
  - apply next_of_some in E as (Hq & [k Hk] & Hle). pose proof (free_apart s q k p n W Hk Hp) as (Hk0 & Hn0 & Ha).
    apply wp_bind. eapply wp_mono; [exact (consolidate_ok s p q n k W Hp Hk)| |done]. intros pos s' (W' & Ea & Es & Hc). apply wp_ret.
    split; [done|]. split; [done|]. split; [done|]. destruct (Z.eqb_spec (p + n) q) as [Heq|Hne]; destruct Hc as [_ Hc].
    + rewrite Hc. exists (n + k). rewrite lookup_delete_ne, lookup_insert_eq by lia. split; [done|]. split; [lia|].
      intros q' k' Hq'. destruct (decide (q' = q)) as [->|H1]; [by rewrite lookup_delete_eq in Hq'|]. rewrite lookup_delete_ne in Hq' by done.
      destruct (decide (q' = p)) as [->|H2]; [split; [lia|by left]|]. rewrite lookup_insert_ne in Hq' by done. split; [lia|by right].
    + subst s'. exists n. split; [done|]. split; [lia|]. intros q' k' Hq'. split; [|by right]. intros Heq.
      pose proof (free_apart s q' k' q k W Hq' Hk) as (? & ? & Hb). pose proof (Hle q' ltac:(by eexists) ltac:(lia)). lia.
  - apply wp_ret. split; [done|]. split; [done|]. split; [done|]. exists n. split; [done|]. split; [lia|]. intros q k Hk. split; [|by right].
    intros Heq. pose proof (next_of_none _ _ q E ltac:(by eexists)). pose proof (free_apart s q k p n W Hk Hp). lia.
Qed.

(** *** The operations *)

(** The requests that do not round to 0: some bytes, and so few that the sum with the page
    size does not overflow *)
Definition request_ok (size : Z) : Prop := 0 < size /\ size + syspagesize <= 2 ^ 64.
Lemma round_to_page_ok size : request_ok size ->
  size <= round_to_page size < size + syspagesize /\ (syspagesize | round_to_page size).
Proof.
  intros [H1 H2]. destruct (pagesize_pow2 (sys := sys)) as (k & Hk & E). unfold round_to_page, align_to_page. rewrite E in *.
  destruct (align_offset_next k size ltac:(lia) ltac:(lia) ltac:(lia)) as (Ha & Hb & _). split; [lia|].
  apply Z.mod_divide; [|done]. pose proof (Z.pow_pos_nonneg 2 k ltac:(lia) ltac:(lia)). lia.
Qed.
Lemma round_to_page_refused size : in_u 64 size -> ~ request_ok size -> round_to_page size = 0.
Proof.
  intros Hs Hr. destruct (pagesize_pow2 (sys := sys)) as (k & Hk & E). unfold round_to_page, align_to_page, request_ok in *.
  rewrite E in *. apply align_offset_overflow; [lia|done|]. unfold in_u in Hs. lia.
Qed.
(** A block of the requested size is taken from the smallest free block that is large
    enough, or from a new segment when there is none. *)
Definition taken_from s s' (p n : Z) : Prop :=
  (exists k, free_blocks s !! p = Some k /\ n <= k /\ (forall q m, free_blocks s !! q = Some m -> n <= m -> k <= m) /\
     _segments s' = _segments s) \/
  ((forall q m, free_blocks s !! q = Some m -> m < n) /\ _segments s' = _segments s ++ [(p, Z.max n segment_size)]).

Lemma take_ok best size s :
  wf s -> free_blocks s !! best.2 = Some best.1 -> size <= best.1 -> 0 < size -> (syspagesize | size) ->
  wp (best ← (if size <? best.1 then split_block best size else mret best);
      transfer_free best.2;; transfer_free_by_size best;; mret best.2)
    (fun p s' => p = best.2 /\ wf s' /\ allocated_blocks s' = <[p := size]> (allocated_blocks s) /\ _segments s' = _segments s)
    (fun _ _ => False) s.
Proof.
  intros W Hf Hs H0 Hp. apply wp_bind.
  assert (Hrest : forall s1, wf s1 -> free_blocks s1 !! best.2 = Some size -> allocated_blocks s1 = allocated_blocks s ->
      _segments s1 = _segments s ->
      wp (transfer_free best.2;; transfer_free_by_size (size, best.2);; mret best.2)
        (fun p s' => p = best.2 /\ wf s' /\ allocated_blocks s' = <[p := size]> (allocated_blocks s) /\ _segments s' = _segments s)
        (fun _ _ => False) s1).
  { intros s1 W1 H1 Ha Hsg. eapply (wp_then _ (fun _ => transfer_free_by_size (size, best.2))); [exact (transfer_to_allocated s1 best.2 size W1 H1)|].
    intros _ s3 (W3 & E1 & _ & E2). apply wp_ret. split; [done|]. split; [done|]. split; congruence. }
  destruct (Z.ltb_spec size best.1) as [Hlt|Hge].
  - eapply wp_mono; [apply (split_block_ok best size s W Hf); [lia|done]| |done].
    intros b s1 (-> & W1 & H1 & [Ha _] & Hsg). by apply Hrest.
  - apply wp_ret. assert (best.1 = size) as E by lia. rewrite E in Hf. destruct best as [n p]. simpl in *. subst n. by apply Hrest.
Qed.
Lemma jit_alloc_ok size s :
  wf s -> request_ok size ->
  wp (alloc mmap size)
    (fun p s' => let n := round_to_page size in wf s' /\ size <= n < size + syspagesize /\
       allocated_blocks s !! p = None /\ allocated_blocks s' = <[p := n]> (allocated_blocks s) /\ taken_from s s' p n)
    (fun e s' => s' = s /\ e = wasm_bad_alloc "failed to allocate jit segment" /\ exists n, mmap (_segments s) n = None) s.
Proof.
  intros W Hreq. destruct (round_to_page_ok size Hreq) as [Hr Hp]. destruct Hreq as [H0 _]. unfold alloc.
  set (n := round_to_page size) in *. apply wp_bind, wp_gets, wp_bind. destruct (lower_bound n s) as [best|] eqn:E.
  - destruct (lower_bound_some n s best W E) as (Hf & Hn & Hbest). apply wp_ret.
    eapply wp_mono; [apply (take_ok best n s W Hf Hn); [lia|done]| |done].
    intros p s' (-> & W' & Ha & Hsg). split; [done|]. split; [done|]. split; [exact (wf_once s W _ _ Hf)|]. split; [done|].
    left. by exists best.1.
  - eapply wp_mono; [apply (allocate_segment_ok n s W); [lia|done]| |].
    + intros best s1 (W1 & Hf & Hn & [Ha1 _] & Hsg1).
      eapply wp_mono; [apply (take_ok best n s1 W1 Hf); [lia|lia|done]| |done].
      intros p s' (-> & W' & Ha & Hsg). split; [done|]. split; [done|]. split; [rewrite <- Ha1; exact (wf_once s1 W1 _ _ Hf)|].
      split; [by rewrite Ha, Ha1|]. right. split; [intros q m Hq; exact (lower_bound_none n s q m W E Hq)|].
      by rewrite Hsg, Hsg1, Hn.
    + intros e s1 (-> & -> & Hm). split; [done|]. split; [done|]. by eexists.
Qed.

(** The freed block is part of a free block, and no free block next to it is left apart. *)
Definition returned s' (p n : Z) : Prop :=
  exists q k, free_blocks s' !! q = Some k /\ q <= p /\ p + n <= q + k /\
    forall q' k', free_blocks s' !! q' = Some k' -> q' + k' <> p /\ q' <> p + n.
Lemma jit_free_ok p n s :
  wf s -> allocated_blocks s !! p = Some n ->
  wp (free p) (fun _ s' => wf s' /\ allocated_blocks s' = delete p (allocated_blocks s) /\ _segments s' = _segments s /\ returned s' p n)
    (fun _ _ => False) s.
Proof.
  intros W Ha. pose proof (transfer_to_free s p n W Ha) as T. unfold free.
  eapply (wp_then _ (fun size => transfer_allocated_by_size (size, p))); [exact T|]. intros _ s1 (W1 & Ea1 & Ef1 & Es1).
  assert (Hp : free_blocks s1 !! p = Some n) by (rewrite Ef1; apply lookup_insert_eq).
  eapply (wp_then _ (fun prev => match prev with Some prev => maybe_consolidate_blocks prev p | None => mret p end)); [exact (left_merged s1 p n W1 Hp)|].
  intros pos s2 (W2 & Ea2 & Es2 & m & Hm & Hle & Heq & Hleft). eapply wp_mono; [exact (right_merged s2 pos m W2 Hm)| |done].
  intros _ s3 (W3 & Ea3 & Es3 & m' & Hm' & Hle' & Hright). split; [done|]. split; [congruence|]. split; [congruence|].
  pose proof (free_apart s1 p n p n W1 Hp Hp) as (Hn & _).
  exists pos, m'. split; [done|]. split; [done|]. split; [lia|]. intros q' k' Hq. destruct (Hright q' k' Hq) as [H1 H2]. split; [|lia].
  destruct H2 as [->|H2]; [|by eapply Hleft]. rewrite Hm' in Hq. injection Hq as <-. lia.
Qed.

(** *** Runs *)

(** The states that calls of [alloc] and of [free], for what was allocated, lead to *)
Inductive reachable : t -> Prop :=
  | reach_empty : reachable empty
  | reach_alloc s size p s' : reachable s -> request_ok size -> alloc mmap size s = (Ret p, s') -> reachable s'
  | reach_failed s size e s' : reachable s -> request_ok size -> alloc mmap size s = (Throw e, s') -> reachable s'
  | reach_free s p n s' : reachable s -> allocated_blocks s !! p = Some n -> free p s = (Ret tt, s') -> reachable s'.
Lemma reachable_wf s : reachable s -> wf s.
Proof.
  induction 1 as [|s size p s' _ W Hr E|s size e s' _ W Hr E|s p n s' _ W Ha E].
  - apply wf_empty.
  - pose proof (jit_alloc_ok size s W Hr) as H. unfold wp in H. rewrite E in H. apply H.
  - pose proof (jit_alloc_ok size s W Hr) as H. unfold wp in H. rewrite E in H. by destruct H as [-> _].
  - pose proof (jit_free_ok p n s W Ha) as H. unfold wp in H. rewrite E in H. apply H.
Qed.
(** A block is whole pages of mapped memory that no other block has. *)
Definition block_ok s (p n : Z) : Prop :=
  0 < n /\ (syspagesize | p) /\ (syspagesize | n) /\
  forall a, covers p n a -> mapped s a /\ forall q k, is_block s q k -> covers q k a -> q = p /\ k = n.
Lemma allocated_ok s p n : wf s -> allocated_blocks s !! p = Some n -> block_ok s p n.
Proof.
  intros W Ha. assert (Hb : is_block s p n) by by right. pose proof (ti_block _ _ (wf_tiles s W) _ _ Hb) as (H0 & _ & _ & H1 & H2).
  split_and!; try done. intros a Hca. split; [apply (ti_cover _ _ (wf_tiles s W)); by exists p, n|].
  intros q k Hq Hcq. unfold covers in *. destruct (ti_apart _ _ (wf_tiles s W) _ _ _ _ Hb Hq) as [[-> ->]|?]; [done|lia].
Qed.

(** C33. The allocator of executable memory keeps its blocks apart.  The states are those
    that allocating and freeing lead to, when mmap gives fresh regions of whole pages, when
    what is freed was allocated, and when no request rounds to 0, which 0 does and the
    sizes of the last page below 2^64 ([request_ok] excludes exactly these; the code does
    not, see [empty_request_loses_segment]).  In such a state an allocated block is whole
    pages of mapped memory that no other block has.  [alloc] of such a request rounds it
    up to pages and returns such a block, new, cut from the smallest free block that is
    large enough or from a new segment if there is none; it throws only when mmap fails,
    and then nothing has changed.  [free] of an allocated block returns; the block is then
    part of a free block, with no free neighbour left apart. *)
Theorem jit_allocator_correct s :
  reachable s ->
  (forall p n, allocated_blocks s !! p = Some n -> block_ok s p n) /\
  (forall size, in_u 64 size -> ~ request_ok size -> round_to_page size = 0) /\
  (forall size, request_ok size ->
     wp (alloc mmap size)
       (fun p s' => let n := round_to_page size in size <= n < size + syspagesize /\ block_ok s' p n /\
          allocated_blocks s !! p = None /\ allocated_blocks s' = <[p := n]> (allocated_blocks s) /\ taken_from s s' p n)
       (fun e s' => s' = s /\ e = wasm_bad_alloc "failed to allocate jit segment" /\ exists n, mmap (_segments s) n = None) s) /\
  (forall p n, allocated_blocks s !! p = Some n ->
     wp (free p)
       (fun _ s' => allocated_blocks s' = delete p (allocated_blocks s) /\ _segments s' = _segments s /\ returned s' p n)
       (fun _ _ => False) s).
Proof.
  intros W%reachable_wf. split; [intros p n; by apply allocated_ok|]. split; [exact round_to_page_refused|]. split.
  - intros size Hr. eapply wp_mono; [by apply jit_alloc_ok| |done]. intros p s' (W' & Hn & Hp & Ha & Ht). split; [done|].
    split; [apply allocated_ok; [done|rewrite Ha; apply lookup_insert_eq]|done].
  - intros p n Ha. eapply wp_mono; [by apply (jit_free_ok p n)| |done]. by intros _ s' (_ & ?).
Qed.
End Proofs.
End JitAllocProofs.

(** ** contiguous_allocator: blocks do not overlap, and growing keeps what they hold.  The
    memory may move, so pointers from before are good only as offsets. *)
Module ContiguousProofs.
Import Contiguous WasmAlloc(byte_at).
Section Proofs.
Context `{sys : Sys} `{!SysOk sys}.
Variable mmap : Z -> option Z.

Lemma contiguous_alloc_ok sizeof_T k size s :
  let off := align_offset (2 ^ k) (_offset s) in
  0 <= k < 63 -> 0 <= _offset s -> 0 <= sizeof_T * size -> _offset s + 2 ^ k + sizeof_T * size + syspagesize <= 2 ^ 63 ->
  wp (alloc mmap sizeof_T (2 ^ k) size)
    (fun p s' => p = _base s' + off /\ _offset s <= off /\ off mod 2 ^ k = 0 /\ _offset s' = off + sizeof_T * size /\
       _offset s' <= _size s' /\ forall i, 0 <= i < _size s -> byte_at (memory s') (_base s' + i) = byte_at (memory s) (_base s + i))
    (fun e s' => e = wasm_bad_alloc "mmap failed." /\ memory s' = memory s /\ _base s' = _base s) s.
Proof.
  intros off Hk Ho Hn Hsum. pose proof (Z.pow_pos_nonneg 2 k ltac:(lia) ltac:(lia)) as Hpow.
  destruct (pagesize_pow2 (sys := sys)) as (g & Hg & Eg). pose proof (Z.pow_pos_nonneg 2 g ltac:(lia) ltac:(lia)) as Hpage.
  destruct (align_offset_spec k (_offset s) Hk ltac:(lia)) as (H1 & H2 & _). fold off in H1, H2. unfold alloc.
  apply wp_bind, wp_modify, wp_bind, wp_gets. simpl. fold off.
  rewrite (wrap_small 64 (sizeof_T * size)), (wrap_small 64 (_ + off)) by (unfold in_u; lia).
  apply wp_bind, wp_gets, wp_bind. simpl. destruct (Z.ltb_spec (_size s) (sizeof_T * size + off)) as [Hlt|Hge].
  - destruct (align_offset_spec g (sizeof_T * size + off) ltac:(lia) ltac:(lia)) as (H3 & _ & _).
    unfold align_to_page. rewrite Eg. apply wp_bind. destruct (mmap _) as [base|]; [|by split].
    eapply wp_lift_Ret; [done|]. apply wp_modify, wp_bind, wp_gets, wp_bind, wp_modify, wp_ret. simpl. split_and!; [done|lia|done|lia|lia|].
    intros i Hi. rewrite byte_at_store. replace (base + i - base) with i by lia.
    unfold load_bytes. rewrite nthZ_lookup, list_lookup_fmap, lookup_seq_lt by lia. simpl. by rewrite Z2Nat.id by lia.
  - apply wp_ret, wp_bind, wp_gets, wp_bind, wp_modify, wp_ret. simpl. by split_and!; try lia.
Qed.
End Proofs.
End ContiguousProofs.

(** ** An example: two blocks, the first of which is freed *)

(** Mappings grow upwards. *)
Definition last_end (segments : list (Z * Z)) : Z := foldr (fun seg acc => Z.max (seg.1 + seg.2) acc) 0 segments.
Definition upwards (segments : list (Z * Z)) (n : Z) : option Z :=
  let base := 4096 * (1 + last_end segments / 4096) in
  if base + n <=? 2 ^ 63 then Some base else None.
Lemma last_end_nonneg segments : 0 <= last_end segments.
Proof. induction segments; simpl; lia. Qed.
Lemma below_last_end segments a : Exists (fun seg => JitAllocProofs.covers seg.1 seg.2 a) segments -> a < last_end segments.
Proof. unfold JitAllocProofs.covers. induction 1 as [seg segs Hc|seg segs _ IH]; simpl; lia. Qed.
Lemma upwards_fresh : JitAllocProofs.mmap_fresh (sys := linux) upwards.
Proof.
  intros segments n base. unfold upwards. pose proof (last_end_nonneg segments).
  pose proof (Z.div_mod (last_end segments) 4096 ltac:(lia)). pose proof (Z.mod_pos_bound (last_end segments) 4096 ltac:(lia)).
  pose proof (Z.div_pos (last_end segments) 4096 ltac:(lia) ltac:(lia)).
  destruct (Z.leb_spec (4096 * (1 + last_end segments / 4096) + n) (2 ^ 63)); [|done]. intros [= <-].
  split; [lia|]. split; [lia|]. split; [exists (1 + last_end segments / 4096); apply Z.mul_comm|].
  intros a Ha Hex%below_last_end. unfold JitAllocProofs.covers in Ha. lia.
Qed.
Definition after {A} (k : M JitAlloc.t A) (s : JitAlloc.t) : JitAlloc.t := (k s).2.
Definition jit_alloc_example (size : Z) : M JitAlloc.t Z := JitAlloc.alloc (sys := linux) upwards size.
Definition one_block : JitAlloc.t := after (jit_alloc_example 5000) JitAlloc.empty.
Definition two_blocks : JitAlloc.t := after (jit_alloc_example 100) one_block.
Definition jit_example : JitAlloc.t := after (JitAlloc.free 4096) two_blocks.
(** A request of no bytes loses the block it is taken from: nothing is free afterwards,
    and the block that is allocated is empty. *)
Example empty_request_loses_segment :
  let s := after (jit_alloc_example 0) JitAlloc.empty in
  JitAlloc.span s = [(4096, 1073741824)] /\ JitAlloc.free_blocks_by_size s = ∅ /\ JitAlloc.free_blocks s = ∅ /\
  JitAlloc.allocated_blocks s = {[4096 := 0]}.
Proof. by vm_compute. Qed.
Lemma jit_allocator_correct_witness :
  JitAlloc.allocated_blocks jit_example !! 12288 = Some 4096 /\ JitAllocProofs.block_ok (sys := linux) jit_example 12288 4096 /\
  exists p s', jit_alloc_example 8000 jit_example = (Ret p, s') /\ JitAllocProofs.block_ok (sys := linux) s' p 8192.
Proof.
  assert (R : JitAllocProofs.reachable (sys := linux) upwards jit_example).
  { eapply (JitAllocProofs.reach_free upwards two_blocks 4096 8192); [|vm_compute; reflexivity|vm_compute; reflexivity].
    eapply (JitAllocProofs.reach_alloc upwards one_block 100 12288); [|split; [reflexivity|vm_compute; discriminate]|vm_compute; reflexivity].
    eapply (JitAllocProofs.reach_alloc upwards JitAlloc.empty 5000 4096); [constructor|split; [reflexivity|vm_compute; discriminate]|vm_compute; reflexivity]. }
  destruct (JitAllocProofs.jit_allocator_correct (sys := linux) upwards upwards_fresh ltac:(by exists 262144) jit_example R) as (H1 & _ & H2 & _).
  assert (E : JitAlloc.allocated_blocks jit_example !! 12288 = Some 4096) by (vm_compute; reflexivity).
  split; [exact E|]. split; [by apply H1|].
  assert (Hr : JitAllocProofs.request_ok (sys := linux) 8000) by (split; [reflexivity|vm_compute; discriminate]).
  specialize (H2 8000 Hr). set (r := JitAlloc.alloc upwards 8000) in H2. unfold wp in H2.
  assert (Er : r jit_example = (Ret 4096, after (jit_alloc_example 8000) jit_example)) by (vm_compute; reflexivity).
  rewrite Er in H2. exists 4096, (after (jit_alloc_example 8000) jit_example). split; [exact Er|]. exact (proj1 (proj2 H2)).
Defined.
