(* ===== verification/ExecContext.v ===== *)
(** * The execution context (execution_context.hpp)

    [ctx] holds the members of [execution_context_base] and of the interpreter's
    [execution_context]; the module [m] and the host functions [_rhf] are
    parameters.  Each method is a computation in [M ctx]: it may throw, and the
    state reached so far survives the exception, as it does in the source. *)
From S2P Require Import Prelude WasmStack Allocator Opcodes Types LinearMemory.

Record ctx : Type := Ctx {
  _wasm_alloc : WasmAlloc.t;   (* the linear memory *)
  _max_pages : Z;
  _os : stack operand_stack_elem;
  _as : stack activation_frame;
  _globals : list init_expr;
  _dropped_elems : list bool;
  _dropped_data : list bool;
  _table : list table_entry;   (* the entries of table 0 *)
  as_index : Z;   (* _state.as_index *)
  os_index : Z;   (* _state.os_index *)
  pc : opcode_ptr;   (* _state.pc *)
  exiting : bool;   (* _state.exiting *)
  _error_code : Z;
  _last_op_index : Z;
  _remaining_call_depth : Z
}.

Definition set_wasm_alloc (x : WasmAlloc.t) (c : ctx) : ctx :=
  Ctx x (_max_pages c) (_os c) (_as c) (_globals c) (_dropped_elems c) (_dropped_data c)
      (_table c) (as_index c) (os_index c) (pc c) (exiting c) (_error_code c)
      (_last_op_index c) (_remaining_call_depth c).
Definition set_max_pages (x : Z) (c : ctx) : ctx :=
  Ctx (_wasm_alloc c) x (_os c) (_as c) (_globals c) (_dropped_elems c) (_dropped_data c)
      (_table c) (as_index c) (os_index c) (pc c) (exiting c) (_error_code c)
      (_last_op_index c) (_remaining_call_depth c).
Definition set_os (x : stack operand_stack_elem) (c : ctx) : ctx :=
  Ctx (_wasm_alloc c) (_max_pages c) x (_as c) (_globals c) (_dropped_elems c)
      (_dropped_data c) (_table c) (as_index c) (os_index c) (pc c) (exiting c)
      (_error_code c) (_last_op_index c) (_remaining_call_depth c).
Definition set_as (x : stack activation_frame) (c : ctx) : ctx :=
  Ctx (_wasm_alloc c) (_max_pages c) (_os c) x (_globals c) (_dropped_elems c)
      (_dropped_data c) (_table c) (as_index c) (os_index c) (pc c) (exiting c)
      (_error_code c) (_last_op_index c) (_remaining_call_depth c).
Definition set_globals (x : list init_expr) (c : ctx) : ctx :=
  Ctx (_wasm_alloc c) (_max_pages c) (_os c) (_as c) x (_dropped_elems c)
      (_dropped_data c) (_table c) (as_index c) (os_index c) (pc c) (exiting c)
      (_error_code c) (_last_op_index c) (_remaining_call_depth c).
Definition set_dropped_elems (x : list bool) (c : ctx) : ctx :=
  Ctx (_wasm_alloc c) (_max_pages c) (_os c) (_as c) (_globals c) x (_dropped_data c)
      (_table c) (as_index c) (os_index c) (pc c) (exiting c) (_error_code c)
      (_last_op_index c) (_remaining_call_depth c).
Definition set_dropped_data (x : list bool) (c : ctx) : ctx :=
  Ctx (_wasm_alloc c) (_max_pages c) (_os c) (_as c) (_globals c) (_dropped_elems c) x
      (_table c) (as_index c) (os_index c) (pc c) (exiting c) (_error_code c)
      (_last_op_index c) (_remaining_call_depth c).
Definition set_table (x : list table_entry) (c : ctx) : ctx :=
  Ctx (_wasm_alloc c) (_max_pages c) (_os c) (_as c) (_globals c) (_dropped_elems c)
      (_dropped_data c) x (as_index c) (os_index c) (pc c) (exiting c) (_error_code c)
      (_last_op_index c) (_remaining_call_depth c).
Definition set_as_index (x : Z) (c : ctx) : ctx :=
  Ctx (_wasm_alloc c) (_max_pages c) (_os c) (_as c) (_globals c) (_dropped_elems c)
      (_dropped_data c) (_table c) x (os_index c) (pc c) (exiting c) (_error_code c)
      (_last_op_index c) (_remaining_call_depth c).
Definition set_os_index (x : Z) (c : ctx) : ctx :=
  Ctx (_wasm_alloc c) (_max_pages c) (_os c) (_as c) (_globals c) (_dropped_elems c)
      (_dropped_data c) (_table c) (as_index c) x (pc c) (exiting c) (_error_code c)
      (_last_op_index c) (_remaining_call_depth c).
Definition set_pc (x : opcode_ptr) (c : ctx) : ctx :=
  Ctx (_wasm_alloc c) (_max_pages c) (_os c) (_as c) (_globals c) (_dropped_elems c)
      (_dropped_data c) (_table c) (as_index c) (os_index c) x (exiting c) (_error_code c)
      (_last_op_index c) (_remaining_call_depth c).
Definition set_exiting (x : bool) (c : ctx) : ctx :=
  Ctx (_wasm_alloc c) (_max_pages c) (_os c) (_as c) (_globals c) (_dropped_elems c)
      (_dropped_data c) (_table c) (as_index c) (os_index c) (pc c) x (_error_code c)
      (_last_op_index c) (_remaining_call_depth c).
Definition set_error_code (x : Z) (c : ctx) : ctx :=
  Ctx (_wasm_alloc c) (_max_pages c) (_os c) (_as c) (_globals c) (_dropped_elems c)
      (_dropped_data c) (_table c) (as_index c) (os_index c) (pc c) (exiting c) x
      (_last_op_index c) (_remaining_call_depth c).
Definition set_last_op_index (x : Z) (c : ctx) : ctx :=
  Ctx (_wasm_alloc c) (_max_pages c) (_os c) (_as c) (_globals c) (_dropped_elems c)
      (_dropped_data c) (_table c) (as_index c) (os_index c) (pc c) (exiting c)
      (_error_code c) x (_remaining_call_depth c).
Definition set_remaining_call_depth (x : Z) (c : ctx) : ctx :=
  Ctx (_wasm_alloc c) (_max_pages c) (_os c) (_as c) (_globals c) (_dropped_elems c)
      (_dropped_data c) (_table c) (as_index c) (os_index c) (pc c) (exiting c)
      (_error_code c) (_last_op_index c) x.

(** Run a computation on one member. *)
Definition on_wasm_alloc {A} (k : M WasmAlloc.t A) : M ctx A := fun c =>
  let '(r, wa) := k (_wasm_alloc c) in (r, set_wasm_alloc wa c).
Definition on_os {A} (k : stack operand_stack_elem -> outcome (A * stack operand_stack_elem))
  : M ctx A := fun c =>
  match k (_os c) with
  | Ret (a, os) => (Ret a, set_os os c)
  | Throw e => (Throw e, c)
  | UB w => (UB w, c)
  end.
Definition on_as {A} (k : stack activation_frame -> outcome (A * stack activation_frame))
  : M ctx A := fun c =>
  match k (_as c) with
  | Ret (a, s) => (Ret a, set_as s c)
  | Throw e => (Throw e, c)
  | UB w => (UB w, c)
  end.

(** [scope_guard]: run [f] on the way out, by return or by exception. *)
Definition guarded {A} (f : ctx -> ctx) (k : M ctx A) : M ctx A := fun c =>
  let '(r, c') := k c in (r, f c').

Definition set_nth_true (l : list bool) (x : Z) : outcome (list bool) :=
  or_UB "vector<bool> index out of range" (insZ l x true).

(** Pointer arithmetic on the bitcode. *)
Definition ptr_add (p : opcode_ptr) (n : Z) : outcome opcode_ptr :=
  match p with
  | Pc o => Ret (Pc (o + n))
  | _ => UB "arithmetic on a pointer outside the bitcode"
  end.

(** [for (auto& x : l) body(x)] *)
Fixpoint for_each {A} (body : A -> M ctx unit) (l : list A) : M ctx unit :=
  match l with
  | [] => mret tt
  | x :: l => body x;; for_each body l
  end.

Definition dflt_elem : operand_stack_elem := i32_const_t 0.
Definition dflt_frame : activation_frame := ActivationFrame PcNull 0.

Section Context_.
Context `{sys : Sys} (m : module) (_rhf : Z -> M ctx unit).

(** [execution_context(module& m, uint32_t max_call_depth)] with a fresh
    [wasm_allocator] and the default page limit *)
Definition initial_ctx (wa : WasmAlloc.t) (max_depth : Z) : ctx :=
  Ctx wa WasmAlloc.max_pages (WStack.make dflt_elem initial_stack_size)
    (WStack.make dflt_frame (max_call_depth + 1)) [] [] [] [] 0 0 PcNull false 0 0 max_depth.

(** ** Stacks *)
Definition push_operand (el : operand_stack_elem) : M ctx unit :=
  on_os (fun os => os ← WStack.push dflt_elem el os; Ret (tt, os)).
Definition pop_operand : M ctx operand_stack_elem := on_os WStack.pop.
Definition peek_operand (i : Z) : M ctx operand_stack_elem :=
  on_os (fun os => e ← WStack.get_back i os; Ret (e, os)).
(** assignment through [peek_operand()] *)
Definition set_top (el : operand_stack_elem) : M ctx unit :=
  on_os (fun os => os ← WStack.set_peek el os; Ret (tt, os)).
Definition get_operand (index : Z) : M ctx operand_stack_elem :=
  l ← gets _last_op_index;
  on_os (fun os => e ← WStack.get (wrap 32 (l + index)) os; Ret (e, os)).
Definition set_operand (index : Z) (el : operand_stack_elem) : M ctx unit :=
  l ← gets _last_op_index;
  on_os (fun os => os ← WStack.set_ (wrap 32 (l + index)) el os; Ret (tt, os)).
Definition eat_operands (index : Z) : M ctx unit :=
  on_os (fun os => Ret (tt, WStack.eat (wrap 32 index) os)).
Definition compact_operand (index : Z) : M ctx unit :=
  on_os (fun os => os ← WStack.compact (wrap 32 index) os; Ret (tt, os)).
Definition os_size : M ctx Z := gets (fun c => WStack.size (_os c)).
Definition push_frame (el : activation_frame) : M ctx unit :=
  on_as (fun s => s ← WStack.push dflt_frame el s; Ret (tt, s)).
Definition pop_call : M ctx activation_frame := on_as WStack.pop.

(** ** Program counter *)
Definition inc_pc_by (offset : Z) : M ctx unit :=
  p ← gets pc; p ← lift (ptr_add p offset); modify (set_pc p).
Definition inc_pc : M ctx unit := inc_pc_by 1.
Definition set_relative_pc (pc_offset : Z) : M ctx unit :=
  lift (or_UB "code[0] out of range" (nthZ (code m) 0));;
  modify (set_pc (Pc pc_offset)).

(** ** Linear memory *)
Definition current_linear_memory : M ctx Z := gets (fun c => WasmAlloc.page (_wasm_alloc c)).

Definition grow_linear_memory (pages : Z) : M ctx Z :=
  sz ← current_linear_memory;
  if pages <? 0 then
    s ← lift (int_expr 32 (sz + pages));
    if s <? 0 then mret (-1) else
    n ← lift (int_expr 32 (- pages));
    on_wasm_alloc (WasmAlloc.free n);;
    mret sz
  else
    mp ← gets _max_pages;
    match memories m with
    | [] => mret (-1)
    | mem :: _ =>
        if wrap 32 (mp - sz) <? pages then mret (-1) else
        too_many ← (if flags (memory_limits mem) then
                      room ← lift (int_expr 32 (sext 32 (maximum (memory_limits mem)) - sz));
                      mret (room <? pages)
                    else mret false);
        if (too_many : bool) then mret (-1) else
        on_wasm_alloc (WasmAlloc.alloc pages);;
        mret sz
    end.

Definition set_max_pages_ (n : Z) : M ctx unit :=
  modify (set_max_pages (Z.min n WasmAlloc.max_pages)).

(** [memcpy(_linear_memory + a, l.data(), l.size())] *)
Definition copy_to_memory (a : Z) (l : list Z) : M ctx unit :=
  wa ← gets _wasm_alloc;
  lift (access 0 a (Z.of_nat (length l)) wa);;
  modify (set_wasm_alloc (WasmAlloc.set_bytes (store_bytes a l (WasmAlloc.bytes wa)) wa)).

Definition init_linear_memory (x d s n : Z) : M ctx unit :=
  seg ← lift (or_UB "data[x] out of range" (nthZ (data_segments m) x));
  dd ← gets _dropped_data;
  dropped ← lift (or_UB "_dropped_data[x] out of range" (nthZ dd x));
  let data_len := if (dropped : bool) then 0 else Z.of_nat (length (ds_data seg)) in
  assertM (s + n <=? data_len) (wasm_memory_exception "data out of range");;
  wa ← gets _wasm_alloc;
  lift (validate_pointer 1 d n wa);;
  if negb (data_len =? 0) && negb (n =? 0)
  then copy_to_memory d (take (Z.to_nat n) (drop (Z.to_nat s) (ds_data seg)))
  else mret tt.

Definition drop_data (x : Z) : M ctx unit :=
  dd ← gets _dropped_data; dd ← lift (set_nth_true dd x); modify (set_dropped_data dd).

(** ** Tables *)
Definition table0 : outcome table_type := or_UB "tables[0] out of range" (nthZ (tables m) 0).

(** [memcpy(table_base + d, src, n * sizeof(table_entry))] *)
Definition write_table (d : Z) (l : list table_entry) : M ctx unit :=
  t ← gets _table;
  if (0 <=? d) && (d + Z.of_nat (length l) <=? Z.of_nat (length t))
  then modify (set_table (list_inserts (Z.to_nat d) l t))
  else ub "table write out of range".

Definition init_table (x d s n : Z) : M ctx unit :=
  seg ← lift (or_UB "elements[x] out of range" (nthZ (elements m) x));
  de ← gets _dropped_elems;
  dropped ← lift (or_UB "_dropped_elems[x] out of range" (nthZ de x));
  let elem_len := if (dropped : bool) then 0 else Z.of_nat (length (es_elems seg)) in
  assertM (s + n <=? elem_len) (wasm_memory_exception "elem out of range");;
  t ← lift table0;
  assertM (d + n <=? initial (table_limits t)) oob;;
  if negb (elem_len =? 0)
  then write_table d (take (Z.to_nat n) (drop (Z.to_nat s) (es_elems seg)))
  else mret tt.

Definition drop_elem (x : Z) : M ctx unit :=
  de ← gets _dropped_elems; de ← lift (set_nth_true de x); modify (set_dropped_elems de).

(** [get_table_ptr(base, size)]: the index of the entry the pointer is at *)
Definition get_table_ptr (base size : Z) : M ctx Z :=
  t ← lift table0;
  assertM (base + size <=? initial (table_limits t)) (wasm_memory_exception "table out of range");;
  mret base.

Definition table_elem (i : Z) : M ctx Z :=
  t ← lift (vec_at (tables m) 0);
  assertM (i <? initial (table_limits t)) (wasm_interpreter_exception "table index out of range");;
  tb ← gets _table;
  e ← lift (or_UB "table read out of range" (nthZ tb i));
  mret (te_index e).

(** ** Globals *)
Definition get_global (index : Z) : M ctx operand_stack_elem :=
  assertM (index <? Z.of_nat (length (globals m)))
    (wasm_interpreter_exception "global index out of range");;
  gs ← gets _globals;
  assertM (index <? Z.of_nat (length gs))
    (wasm_interpreter_exception "index for _globals out of range in get_global for interpreter");;
  gl ← lift (or_UB "globals[index]" (nthZ (globals m) index));
  ie ← lift (or_UB "_globals[index]" (nthZ gs index));
  let t := content_type (gl_type gl) in
  let v := ie_value ie in
  if t =? i32 then mret (i32_const_t (ev_i32 v))
  else if t =? i64 then mret (i64_const_t (ev_i64 v))
  else if t =? f32 then mret (f32_const_t (ev_i32 v))
  else if t =? f64 then mret (f64_const_t (ev_i64 v))
  else if t =? v128 then mret (v128_const_t v)
  else throw (wasm_interpreter_exception "invalid global type").

(** The union member a value is assigned to. *)
Definition store_global_value (el : operand_stack_elem) (v : expr_value) : expr_value :=
  match el with
  | i32_const_t n | f32_const_t n => ev_set_i32 n v
  | i64_const_t n | f64_const_t n => ev_set_i64 n v
  | v128_const_t d => d
  end.

Definition set_global_type_error (el : operand_stack_elem) : exn :=
  wasm_interpreter_exception
    match el with
    | i32_const_t _ => "expected i32 global type"
    | i64_const_t _ => "expected i64 global type"
    | f32_const_t _ => "expected f32 global type"
    | f64_const_t _ => "expected f64 global type"
    | v128_const_t _ => "expected v128 global type"
    end.

Definition set_global (index : Z) (el : operand_stack_elem) : M ctx unit :=
  assertM (index <? Z.of_nat (length (globals m)))
    (wasm_interpreter_exception "global index out of range");;
  gs ← gets _globals;
  assertM (index <? Z.of_nat (length gs))
    (wasm_interpreter_exception "index for _globals out of range");;
  gl ← lift (or_UB "globals[index]" (nthZ (globals m) index));
  assertM (mutability (gl_type gl)) (wasm_interpreter_exception "global is not mutable");;
  assertM (content_type (gl_type gl) =? elem_type el) (set_global_type_error el);;
  ie ← lift (or_UB "_globals[index]" (nthZ gs index));
  gs' ← lift (or_UB "_globals[index]"
          (insZ gs index (InitExpr (ie_opcode ie) (store_global_value el (ie_value ie)))));
  modify (set_globals gs').

(** ** Conditions and host-call type checks *)
Definition is_true (el : operand_stack_elem) : M ctx bool :=
  match el with
  | i32_const_t n => mret (negb (n =? 0))
  | _ => throw (wasm_invalid_element "should be an i32 type")
  end.

Definition type_check (ft : func_type) : M ctx unit :=
  let n := Z.of_nat (length (param_types ft)) in
  for_each (fun '(i, t) =>
      op ← peek_operand (n - 1 - i);
      assertM (t =? elem_type op) (wasm_interpreter_exception "function param type mismatch"))
    (zip (seqZ 0 n) (param_types ft)).

(** ** Calls *)
Definition enter_frame (frame_size : Z) : M ctx unit :=
  depth ← gets _remaining_call_depth;
  assertM (frame_size <=? depth) (wasm_interpreter_exception "stack overflow");;
  modify (set_remaining_call_depth (depth - frame_size)).

(** [push_call<Should_Exit>(index)] *)
Definition push_call (should_exit : bool) (index : Z) : M ctx unit :=
  p ← gets pc;
  return_pc ← (if should_exit then mret PcHalt else lift (ptr_add p 1));
  frame_size ← lift (Mod.get_function_stack_size m index);
  enter_frame frame_size;;
  l ← gets _last_op_index;
  push_frame (ActivationFrame return_pc l);;
  sz ← os_size;
  ft ← lift (Mod.get_function_type m index);
  modify (set_last_op_index (wrap 32 (sz - Z.of_nat (length (param_types ft))))).

Definition zero_local (t : Z) : outcome operand_stack_elem :=
  if t =? i32 then Ret (i32_const_t 0)
  else if t =? i64 then Ret (i64_const_t 0)
  else if t =? f32 then Ret (f32_const_t 0)
  else if t =? f64 then Ret (f64_const_t 0)
  else if t =? v128 then Ret (v128_const_t (Op.V128 0 0))
  else Throw (wasm_interpreter_exception "invalid function param type").

Definition setup_locals (index : Z) : M ctx unit :=
  fn ← lift (or_UB "code[i] out of range"
         (nthZ (code m) (index - Mod.get_imported_functions_size m)));
  for_each (fun l => for_each (fun _ : nat => el ← lift (zero_local (local_type l)); push_operand el)
                       (seq 0 (Z.to_nat (local_count l))))
    (fb_locals fn).

(** A host call: [import_functions[index]] through [_rhf]. *)
Definition call_host (index : Z) : M ctx unit :=
  h ← lift (or_UB "import_functions[index] out of range" (nthZ (import_functions m) index));
  _rhf h.

Definition call (index : Z) : M ctx unit :=
  if index <? Mod.get_imported_functions_size m then
    t ← lift (Mod.import_func_t m index);
    ft ← lift (or_UB "types[i] out of range" (nthZ (types m) t));
    type_check ft;;
    inc_pc;;
    frame_size ← lift (Mod.get_function_stack_size m index);
    saved ← gets _remaining_call_depth;
    assertM (frame_size <=? saved) (wasm_interpreter_exception "stack overflow");;
    guarded (set_remaining_call_depth saved)
      (modify (set_remaining_call_depth (saved - frame_size));;
       push_frame (ActivationFrame PcNull 0);;
       call_host index;;
       pop_call;;
       mret tt)
  else
    push_call false index;;
    setup_locals index;;
    p ← lift (Mod.get_function_pc m index);
    modify (set_pc (Pc p)).

Definition apply_pop_call (num_locals return_count frame_size : Z) : M ctx unit :=
  af ← pop_call;
  modify (set_pc (af_pc af));;
  modify (set_last_op_index (af_last_op_index af));;
  sz ← os_size;
  (if negb (return_count =? 0) then compact_operand (sz - num_locals - 1)
   else eat_operands (sz - num_locals));;
  modify (fun c => set_remaining_call_depth (wrap 32 (_remaining_call_depth c + frame_size)) c).

Definition jump (pop_info new_pc : Z) : M ctx unit :=
  set_relative_pc new_pc;;
  if negb (Z.land pop_info 0x80000000 =? 0) then
    op ← pop_operand;
    sz ← os_size;
    eat_operands (sz - wrap 32 (Z.land pop_info 0x7FFFFFFF - 1));;
    push_operand op
  else
    sz ← os_size;
    eat_operands (sz - pop_info).

(** [exit(err)], called by host functions *)
Definition exit_ (err : Z) : M ctx unit :=
  modify (set_error_code err);; modify (set_pc PcHalt);; modify (set_exiting true).

(** ** Reset *)
Definition reset_memory : M ctx unit :=
  match memories m with
  | mem :: _ =>
      mp ← gets _max_pages;
      assertM (initial (memory_limits mem) <=? mp)
        (wasm_bad_alloc "Cannot allocate initial linear memory.");;
      on_wasm_alloc (WasmAlloc.reset_pages (initial (memory_limits mem)))
  | [] => on_wasm_alloc WasmAlloc.reset
  end.

Definition reset_data_segment '((i, seg) : Z * data_segment) : M ctx unit :=
  let offset := ev_i32 (ie_value (ds_offset seg)) in
  if ds_passive seg then mret tt else
  mem ← lift (or_UB "memories[0] out of range" (nthZ (memories m) 0));
  let available_memory := wrap 64 (initial (memory_limits mem) * WasmAlloc.page_size) in
  assertM (offset + Z.of_nat (length (ds_data seg)) <=? available_memory)
    (wasm_memory_exception "data out of range");;
  (if negb (Z.of_nat (length (ds_data seg)) =? 0) then copy_to_memory offset (ds_data seg)
   else mret tt);;
  drop_data i.

Definition unset_entry : table_entry := TableEntry (2 ^ 32 - 1) (2 ^ 32 - 1) PcNull.

Definition reset_elem_segment (t : table_type) '((i, seg) : Z * elem_segment) : M ctx unit :=
  match es_mode seg with
  | passive => mret tt
  | declarative => drop_elem i
  | active =>
      let offset := ev_i32 (ie_value (es_offset seg)) in
      assertM (offset + Z.of_nat (length (es_elems seg)) <=? initial (table_limits t))
        (wasm_memory_exception "elem out of range");;
      (if negb (Z.of_nat (length (es_elems seg)) =? 0) then write_table offset (es_elems seg)
       else mret tt);;
      drop_elem i
  end.

Definition indexed {A} (l : list A) : list (Z * A) := zip (seqZ 0 (Z.of_nat (length l))) l.

Definition reset_table : M ctx unit :=
  match tables m with
  | [] => mret tt
  | t :: _ =>
      modify (set_table (replicate (Z.to_nat (initial (table_limits t))) unset_entry));;
      modify (set_dropped_elems (replicate (length (elements m)) false));;
      for_each (reset_elem_segment t) (indexed (elements m))
  end.

(** [execution_context_base::reset(mod)] *)
Definition reset_base : M ctx unit :=
  match error m with
  | Some msg => throw (wasm_interpreter_exception msg)
  | None => mret tt
  end;;
  modify (fun c => set_os (WStack.reset_capacity dflt_elem (_os c)) c);;
  reset_memory;;
  modify (set_dropped_data (replicate (length (data_segments m)) false));;
  for_each reset_data_segment (indexed (data_segments m));;
  modify (set_globals (gl_init <$> globals m));;
  reset_table.

(** [execution_context::reset()] *)
Definition reset : M ctx unit :=
  reset_base;;
  modify (set_as_index 0);; modify (set_os_index 0);;
  modify (set_pc PcNull);; modify (set_exiting false);;
  modify (fun c => set_os (WStack.eat 0 (_os c)) c);;
  modify (fun c => set_as (WStack.eat 0 (_as c)) c).

(** [initialize_globals()] *)
Definition initialize_globals : M ctx unit :=
  gs ← gets _globals;
  assertM (bool_decide (gs = []))
    (wasm_memory_exception "initialize_globals called on non-empty _globals");;
  modify (set_globals (gl_init <$> globals m)).
End Context_.
