(* ===== verification/HostFunctions.v ===== *)
(** * Host functions (host_function.hpp, execution_interface.hpp)

    The registry that maps names to C++ functions, the wrapper that reads a
    function's arguments from the operand stack and pushes its result, and the
    linking of a module's imports against the registry.  The templates over the
    C++ signature become data: [native_type] lists the parameter types for which
    [type_converter] has a conversion. *)
From S2P Require Import Prelude WasmStack Allocator Opcodes Types Validation LinearMemory ExecContext.

(** ** execution_interface *)
Section Interface.
Context `{sys : Sys}.

Definition trim_operands (amt : Z) : M ctx unit := modify (fun c => set_os (WStack.trim amt (_os c)) c).
Definition operand_from_back (index : Z) : M ctx operand_stack_elem := peek_operand index.

(** [std::strlen(memory + ptr)]: the first zero byte, or the fault at the end of
    the memory. *)
Fixpoint strlen (fuel : nat) (a : Z) (s : WasmAlloc.t) : outcome Z :=
  match fuel with
  | O => UB "fuel"
  | S fuel =>
      b ← read_unaligned 1 a s;
      if b =? 0 then Ret 0 else n ← strlen fuel (a + 1) s; Ret (n + 1)
  end.
(** The loop ends at the latest at the first byte behind the memory. *)
Definition validate_null_terminated_pointer (ptr : Z) (s : WasmAlloc.t) : outcome Z :=
  strlen (S (Z.to_nat (page_bytes s - ptr))) ptr s.
End Interface.

(** ** Types of parameters and results *)
Inductive native_type : Type :=
  | Arith (t : Z)            (* an arithmetic type of 4 or 8 bytes *)
  | VoidPtr                  (* void*, const void* *)
  | Bool
  | Span (sizeof_T : Z).     (* span<T> *)

(** A converted argument, and what a function returns; pointers are offsets from
    the linear memory. *)
Inductive host_value : Type :=
  | HArith (e : operand_stack_elem)
  | HPtr (a : Z)
  | HBool (b : bool)
  | HSpan (a len : Z).

Inductive host_result : Type :=
  | RVoid
  | RArith (e : operand_stack_elem)
  | RPtr (a : Z)
  | RBool (b : bool).

(** [from_wasm_type_deducer_t], or the type itself *)
Definition flatten_type (t : native_type) : list Z :=
  match t with Arith t => [t] | VoidPtr => [i32] | Bool => [i32] | Span _ => [i32; i32] end.

(** [skip_amount], [value_operand_size_v], [total_operands_v] *)
Definition skip_amount (t : native_type) : Z := Z.of_nat (length (flatten_type t)).
Fixpoint total_operands (args : list native_type) : Z :=
  match args with [] => 0 | t :: args => skip_amount t + total_operands args end.

(** [as_value<T>] of an arithmetic [T]: [val.get<...>()] *)
Definition as_value (t : Z) (val : operand_stack_elem) : outcome operand_stack_elem :=
  if elem_type val =? t then Ret val else UB "read of an inactive variant alternative".

(** [create_value<Args, S, At>]; [offset] is [total_operands_v - 1]. *)
Definition create_value `{sys : Sys} (offset At : Z) (S : native_type) : M ctx host_value :=
  match S with
  | Arith t => e ← operand_from_back (offset - At); v ← lift (as_value t e); mret (HArith v)
  | VoidPtr => e ← operand_from_back (offset - At); a ← lift (to_ui32 e); mret (HPtr a)
  | Bool => e ← operand_from_back (offset - At); v ← lift (to_ui32 e); mret (HBool (negb (v =? 0)))
  | Span sizeof_T =>
      e ← operand_from_back (offset - At);
      ptr ← lift (to_ui32 e);
      e ← operand_from_back (offset - (At + 1));
      len ← lift (to_ui32 e);
      wa ← gets _wasm_alloc;
      lift (validate_pointer sizeof_T ptr len wa);;
      mret (HSpan ptr len)
  end.

(** [get_values<Args, At, Skip_Amt>]: the tail is converted first. *)
Fixpoint get_values `{sys : Sys} (offset : Z) (args : list native_type) (Skip_Amt : Z)
  : M ctx (list host_value) :=
  match args with
  | [] => mret []
  | source_t :: args =>
      tail ← get_values offset args (Skip_Amt + skip_amount source_t);
      v ← create_value offset Skip_Amt source_t;
      mret (v :: tail)
  end.

(** [resolve_result]: [to_wasm] of a [bool], else [as_result] *)
Definition resolve_result (r : host_result) : option operand_stack_elem :=
  match r with
  | RVoid => None
  | RArith e => Some e
  | RPtr a => Some (i32_const_t (wrap 32 a))
  | RBool b => Some (i32_const_t (if b then 1 else 0))
  end.

Definition maybe_push_result (res : host_result) (trim_amt : Z) : M ctx unit :=
  trim_operands trim_amt;;
  match resolve_result res with Some e => push_operand e | None => mret tt end.

Fixpoint preconditions_runner (preconditions : list (list host_value -> M ctx unit)) (args : list host_value)
  : M ctx unit :=
  match preconditions with
  | [] => mret tt
  | condition :: preconditions => condition args;; preconditions_runner preconditions args
  end.

(** [create_function]: the wrapper of the C++ function [F], with [invoke_with_host] *)
Definition create_function `{sys : Sys} (Args : list native_type) (preconditions : list (list host_value -> M ctx unit))
    (F : list host_value -> M ctx host_result) : M ctx unit :=
  args ← get_values (total_operands Args - 1) Args 0;
  preconditions_runner preconditions args;;
  res ← F args;
  maybe_push_result res (total_operands Args).

(** ** host_function *)
Record host_function : Type := HostFunction { hf_params : list Z; hf_ret : list Z }.

(** [operator==(host_function, Func_type)] *)
Definition host_function_eq (lhs : host_function) (rhs : func_type) : bool :=
  (Z.of_nat (length (hf_params lhs)) =? Z.of_nat (length (param_types rhs))) &&
  bool_decide (hf_params lhs = param_types rhs) &&
  (Z.of_nat (length (hf_ret lhs)) =? return_count rhs) &&
  match hf_ret lhs with [] => true | r :: _ => r =? return_type rhs end.

(** [function_types_provider<Type_Converter, Ret, Args>]; [None] is [void]. *)
Definition function_types_provider (Ret_ : option native_type) (Args : list native_type) : host_function :=
  HostFunction (flat_map flatten_type Args)
    (match Ret_ with Some t => take 1 (flatten_type t) | None => [] end).

(** ** registered_host_functions *)
Definition host_func_pair : Type := list Z * list Z.

Section Registry.
Context {F : Type}.   (* std::function<void(Cls*, Type_Converter&)> *)

Record mappings : Type := Mappings {
  named_mapping : gmap host_func_pair Z;
  mp_functions : list F;
  host_functions : list host_function;
  current_index : Z
}.

Definition no_mappings : mappings := Mappings ∅ [] [] 0.

(** [add_mapping<F, R, Args, Preconditions>(mod, name)]: [f] and [hf] are what
    [create_function] and [function_types_provider] make. *)
Definition add_mapping (mod_ name : list Z) (f : F) (hf : host_function) (mp : mappings) : mappings :=
  Mappings (<[(mod_, name) := wrap 32 (current_index mp)]> (named_mapping mp))
    (mp_functions mp ++ [f]) (host_functions mp ++ [hf]) (wrap 64 (current_index mp + 1)).

Definition link_error (msg : string) (name : list Z) : exn :=
  wasm_link_exception (msg +:+ String.string_of_list_ascii (Ascii.ascii_of_N ∘ Z.to_N <$> name)).

(** [{ mod_name, fn_name }] *)
Definition import_name (e : import_entry) : host_func_pair := (module_str e, import_field_str e).

(** One turn of the loop of [resolve_impl]; [imports] is [mod.import_functions]. *)
Definition resolve_import (mp : mappings) (m : module) (i : Z) (e : import_entry) (imports : list Z)
  : outcome (list Z) :=
  index ← match named_mapping mp !! import_name e with
          | Some index => Ret index
          | None => Throw (link_error "no mapping for imported function " (import_field_str e))
          end;
  (if (0 <=? i) && (i <? Z.of_nat (length imports)) then Ret tt else UB "imports[i] out of range");;
  let imports := <[Z.to_nat i := index]> imports in
  EOS_VM_ASSERT (bool_decide (import_kind e = Function_)) (link_error "importing non-function " (import_field_str e));;
  hf ← or_UB "host_functions[imports[i]] out of range" (nthZ (host_functions mp) index);
  t ← match import_desc e with ImportFunc t => Ret t | _ => UB "func_t of another import" end;
  ft ← or_UB "types[i] out of range" (nthZ (types m) t);
  EOS_VM_ASSERT (host_function_eq hf ft) (link_error "wrong type for imported function " (import_field_str e));;
  Ret imports.

Fixpoint resolve_imports (mp : mappings) (m : module) (i : Z) (l : list import_entry) (imports : list Z)
  : outcome (list Z) :=
  match l with
  | [] => Ret imports
  | e :: l => imports ← resolve_import mp m i e imports; resolve_imports mp m (i + 1) l imports
  end.

(** [resolve], [resolve_impl] *)
Definition resolve (mp : mappings) (m : module) : outcome module :=
  imports_ ← resolve_imports mp m 0 (imports m) (import_functions m);
  Ret (with_import_functions imports_ m).

(** [operator()(host, ei, index)]: the function it invokes *)
Definition function_at (mp : mappings) (index : Z) : outcome F :=
  or_UB "functions[index] out of range" (nthZ (mp_functions mp) index).
End Registry.
Arguments mappings : clear implicits.

(** [registered_host_functions::operator()] and [null_host_functions::operator()]:
    the [_rhf] of a context *)
Definition invoke_host (mp : mappings (M ctx unit)) (index : Z) : M ctx unit :=
  f ← lift (function_at mp index); f.
Definition invoke_null_host (_ : Z) : M ctx unit :=
  throw (wasm_interpreter_exception
    "Should never get here because it's impossible to link a module that imports any host functions, when no host functions are available").

(** [add<Func, Preconditions...>(mod, name)] *)
Definition add `{sys : Sys} (Ret_ : option native_type) (Args : list native_type)
    (preconditions : list (list host_value -> M ctx unit)) (Func : list host_value -> M ctx host_result)
    (mod_ name : list Z) (mp : mappings (M ctx unit)) : mappings (M ctx unit) :=
  add_mapping mod_ name (create_function Args preconditions Func) (function_types_provider Ret_ Args) mp.
