(* ===== verification/Softfloat.v ===== *)
(** * Deterministic floating point (softfloat.hpp)

    A [float] or [double] is its bit pattern.  The IEEE operations are those of
    the Berkeley softfloat library, a parameter of the model ([Softfloat]); what
    this file translates is everything the library adds around them: NaN
    propagation, [min]/[max], the bit-level sign operations, the rounding
    functions, and the range checks of the conversions. *)
From S2P Require Import Prelude Opcodes.

(** The functions of Berkeley softfloat and of its C++ glue, on bit patterns.
    Conversions to integers return the integer. *)
Class Softfloat : Type := {
  to_softfloat32 : Z -> Z; from_softfloat32 : Z -> Z;
  to_softfloat64 : Z -> Z; from_softfloat64 : Z -> Z;
  f32_is_nan : Z -> bool; f64_is_nan : Z -> bool;
  f32_sign_bit : Z -> bool; f64_sign_bit : Z -> bool;
  f32_add : Z -> Z -> Z; f32_sub : Z -> Z -> Z; f32_mul : Z -> Z -> Z; f32_div : Z -> Z -> Z;
  f32_sqrt : Z -> Z;
  f32_eq : Z -> Z -> bool; f32_lt : Z -> Z -> bool; f32_le : Z -> Z -> bool;
  f64_add : Z -> Z -> Z; f64_sub : Z -> Z -> Z; f64_mul : Z -> Z -> Z; f64_div : Z -> Z -> Z;
  f64_sqrt : Z -> Z;
  f64_eq : Z -> Z -> bool; f64_lt : Z -> Z -> bool; f64_le : Z -> Z -> bool;
  f32_to_f64 : Z -> Z; f64_to_f32 : Z -> Z;
  (* (value, rounding mode, exact) *)
  f32_to_i32 : Z -> Z -> bool -> Z; f32_to_ui32 : Z -> Z -> bool -> Z;
  f32_to_i64 : Z -> Z -> bool -> Z; f32_to_ui64 : Z -> Z -> bool -> Z;
  f64_to_i32 : Z -> Z -> bool -> Z; f64_to_ui32 : Z -> Z -> bool -> Z;
  f64_to_i64 : Z -> Z -> bool -> Z; f64_to_ui64 : Z -> Z -> bool -> Z;
  (* (value, exact) *)
  f32_to_i32_r_minMag : Z -> bool -> Z; f32_to_ui32_r_minMag : Z -> bool -> Z;
  f32_to_i64_r_minMag : Z -> bool -> Z; f32_to_ui64_r_minMag : Z -> bool -> Z;
  f64_to_i32_r_minMag : Z -> bool -> Z; f64_to_ui32_r_minMag : Z -> bool -> Z;
  f64_to_i64_r_minMag : Z -> bool -> Z; f64_to_ui64_r_minMag : Z -> bool -> Z;
  i32_to_f32 : Z -> Z; i64_to_f32 : Z -> Z; ui32_to_f32 : Z -> Z; ui64_to_f32 : Z -> Z;
  i32_to_f64 : Z -> Z; i64_to_f64 : Z -> Z; ui32_to_f64 : Z -> Z; ui64_to_f64 : Z -> Z
}.

Definition inv_float_eps : Z := 0x4B000000.
Definition inv_double_eps : Z := 0x4330000000000000.

(** The floating-point literals of the source. *)
Definition F32_2p31 : Z := 0x4F000000.
Definition F32_m2p31 : Z := 0xCF000000.
Definition F32_2p32 : Z := 0x4F800000.
Definition F32_m1 : Z := 0xBF800000.
Definition F32_2p63 : Z := 0x5F000000.
Definition F32_m2p63 : Z := 0xDF000000.
Definition F32_2p64 : Z := 0x5F800000.
Definition F64_2p31 : Z := 0x41E0000000000000.
Definition F64_m2p31 : Z := 0xC1E0000000000000.
Definition F64_m2p31m1 : Z := 0xC1E0000000200000.   (* -2147483649.0 *)
Definition F64_2p32 : Z := 0x41F0000000000000.
Definition F64_m1 : Z := 0xBFF0000000000000.
Definition F64_1 : Z := 0x3FF0000000000000.
Definition F64_2p63 : Z := 0x43E0000000000000.
Definition F64_m2p63 : Z := 0xC3E0000000000000.
Definition F64_2p64 : Z := 0x43F0000000000000.
Definition F32_m0 : Z := 0x80000000.
Definition F64_m0 : Z := 0x8000000000000000.

Section Softfloat.
Context `{sf : Softfloat}.

Definition propagate_nan32 (force_arithmetic : bool) (a : Z) : Z :=
  if force_arithmetic then Z.lor a 0x00400000 else a.

Definition propagate_nan64 (force_arithmetic : bool) (a : Z) : Z :=
  if force_arithmetic then Z.lor a 0x0008000000000000 else a.

Definition _eosio_f32_add (a b : Z) : Z :=
  from_softfloat32 (f32_add (to_softfloat32 a) (to_softfloat32 b)).
Definition _eosio_f32_sub (a b : Z) : Z :=
  from_softfloat32 (f32_sub (to_softfloat32 a) (to_softfloat32 b)).
Definition _eosio_f32_mul (a b : Z) : Z :=
  from_softfloat32 (f32_mul (to_softfloat32 a) (to_softfloat32 b)).
Definition _eosio_f32_div (a b : Z) : Z :=
  from_softfloat32 (f32_div (to_softfloat32 a) (to_softfloat32 b)).
Definition _eosio_f64_add (a b : Z) : Z :=
  from_softfloat64 (f64_add (to_softfloat64 a) (to_softfloat64 b)).
Definition _eosio_f64_sub (a b : Z) : Z :=
  from_softfloat64 (f64_sub (to_softfloat64 a) (to_softfloat64 b)).
Definition _eosio_f64_mul (a b : Z) : Z :=
  from_softfloat64 (f64_mul (to_softfloat64 a) (to_softfloat64 b)).
Definition _eosio_f64_div (a b : Z) : Z :=
  from_softfloat64 (f64_div (to_softfloat64 a) (to_softfloat64 b)).

Definition _eosio_f32_min (arith_nan : bool) (af bf : Z) : Z :=
  let a := to_softfloat32 af in
  let b := to_softfloat32 bf in
  if f32_is_nan a then from_softfloat32 (propagate_nan32 arith_nan a)
  else if f32_is_nan b then from_softfloat32 (propagate_nan32 arith_nan b)
  else if negb (eqb (f32_sign_bit a) (f32_sign_bit b)) then (if f32_sign_bit a then af else bf)
  else if f32_lt a b then af else bf.

Definition _eosio_f32_max (arith_nan : bool) (af bf : Z) : Z :=
  let a := to_softfloat32 af in
  let b := to_softfloat32 bf in
  if f32_is_nan a then from_softfloat32 (propagate_nan32 arith_nan a)
  else if f32_is_nan b then from_softfloat32 (propagate_nan32 arith_nan b)
  else if negb (eqb (f32_sign_bit a) (f32_sign_bit b)) then (if f32_sign_bit a then bf else af)
  else if f32_lt a b then bf else af.

(** [a.v &= ~(1 << 31)] *)
Definition clear_sign32 (a : Z) : Z := Z.land a (2 ^ 31 - 1).

Definition _eosio_f32_copysign (af bf : Z) : Z :=
  let a := clear_sign32 (to_softfloat32 af) in
  let b := to_softfloat32 bf in
  from_softfloat32 (Z.lor a (Z.shiftl (Z.shiftr b 31) 31)).

Definition _eosio_f32_abs (af : Z) : Z := from_softfloat32 (clear_sign32 (to_softfloat32 af)).

Definition _eosio_f32_neg (af : Z) : Z :=
  let a := to_softfloat32 af in
  let sign := Z.shiftr a 31 in
  from_softfloat32 (Z.lor (clear_sign32 a) (Z.shiftl (b2z (sign =? 0)) 31)).

Definition _eosio_f32_sqrt (a : Z) : Z := from_softfloat32 (f32_sqrt (to_softfloat32 a)).

Definition _eosio_f64_min (arith_nan : bool) (af bf : Z) : Z :=
  let a := to_softfloat64 af in
  let b := to_softfloat64 bf in
  if f64_is_nan a then from_softfloat64 (propagate_nan64 arith_nan a)
  else if f64_is_nan b then from_softfloat64 (propagate_nan64 arith_nan b)
  else if negb (eqb (f64_sign_bit a) (f64_sign_bit b)) then (if f64_sign_bit a then af else bf)
  else if f64_lt a b then af else bf.

Definition _eosio_f64_max (arith_nan : bool) (af bf : Z) : Z :=
  let a := to_softfloat64 af in
  let b := to_softfloat64 bf in
  if f64_is_nan a then from_softfloat64 (propagate_nan64 arith_nan a)
  else if f64_is_nan b then from_softfloat64 (propagate_nan64 arith_nan b)
  else if negb (eqb (f64_sign_bit a) (f64_sign_bit b)) then (if f64_sign_bit a then bf else af)
  else if f64_lt a b then bf else af.

(** [a.v &= ~(1 << 63)] *)
Definition clear_sign64 (a : Z) : Z := Z.land a (2 ^ 63 - 1).

Definition _eosio_f64_copysign (af bf : Z) : Z :=
  let a := clear_sign64 (to_softfloat64 af) in
  let b := to_softfloat64 bf in
  from_softfloat64 (Z.lor a (Z.shiftl (Z.shiftr b 63) 63)).

Definition _eosio_f64_abs (af : Z) : Z := from_softfloat64 (clear_sign64 (to_softfloat64 af)).

Definition _eosio_f64_neg (af : Z) : Z :=
  let a := to_softfloat64 af in
  let sign := Z.shiftr a 63 in
  from_softfloat64 (Z.lor (clear_sign64 a) (Z.shiftl (b2z (sign =? 0)) 63)).

Definition _eosio_f64_sqrt (a : Z) : Z := from_softfloat64 (f64_sqrt (to_softfloat64 a)).

Definition _eosio_f32_ceil (arith_nan : bool) (af : Z) : Z :=
  let a := to_softfloat32 af in
  let e := Z.land (Z.shiftr a 23) 0xFF - 0x7F in
  if arith_nan && f32_is_nan a then from_softfloat32 (propagate_nan32 arith_nan a)
  else if 23 <=? e then af
  else if 0 <=? e then
    let m := Z.shiftr 0x007FFFFF e in
    if Z.land a m =? 0 then af
    else
      let a := if Z.shiftr a 31 =? 0 then wrap 32 (a + m) else a in
      from_softfloat32 (Z.ldiff a m)
  else if negb (Z.shiftr a 31 =? 0) then from_softfloat32 0x80000000
  else if negb (wrap 32 (Z.shiftl a 1) =? 0) then from_softfloat32 0x3F800000
  else from_softfloat32 a.

Definition _eosio_f32_floor (arith_nan : bool) (af : Z) : Z :=
  let a := to_softfloat32 af in
  let e := Z.land (Z.shiftr a 23) 0xFF - 0x7F in
  if arith_nan && f32_is_nan a then from_softfloat32 (propagate_nan32 arith_nan a)
  else if 23 <=? e then af
  else if 0 <=? e then
    let m := Z.shiftr 0x007FFFFF e in
    if Z.land a m =? 0 then af
    else
      let a := if negb (Z.shiftr a 31 =? 0) then wrap 32 (a + m) else a in
      from_softfloat32 (Z.ldiff a m)
  else if Z.shiftr a 31 =? 0 then from_softfloat32 0
  else if negb (wrap 32 (Z.shiftl a 1) =? 0) then from_softfloat32 0xBF800000
  else from_softfloat32 a.

Definition _eosio_f32_trunc (arith_nan : bool) (af : Z) : Z :=
  let a := to_softfloat32 af in
  let e := Z.land (Z.shiftr a 23) 0xFF - 0x7F + 9 in
  if arith_nan && f32_is_nan a then from_softfloat32 (propagate_nan32 arith_nan a)
  else if 23 + 9 <=? e then af
  else
    let e := if e <? 9 then 1 else e in
    let m := Z.shiftr (2 ^ 32 - 1) e in
    if Z.land a m =? 0 then af else from_softfloat32 (Z.ldiff a m).

Definition _eosio_f32_nearest (arith_nan : bool) (af : Z) : Z :=
  let a := to_softfloat32 af in
  let e := Z.land (Z.shiftr a 23) 0xFF in
  let s := negb (Z.shiftr a 31 =? 0) in
  let eps := inv_float_eps in
  if arith_nan && f32_is_nan a then from_softfloat32 (propagate_nan32 arith_nan a)
  else if 0x7F + 23 <=? e then af
  else
    let y := if s then f32_add (f32_sub a eps) eps else f32_sub (f32_add a eps) eps in
    if f32_eq y 0 then (if s then F32_m0 else 0) else from_softfloat32 y.

Definition _eosio_f64_trunc (arith_nan : bool) (af : Z) : Z :=
  let a := to_softfloat64 af in
  let e := Z.land (Z.shiftr a 52) 0x7FF - 0x3FF + 12 in
  if arith_nan && f64_is_nan a then from_softfloat64 (propagate_nan64 arith_nan a)
  else if 52 + 12 <=? e then af
  else
    let e := if e <? 12 then 1 else e in
    let m := Z.shiftr (2 ^ 64 - 1) e in
    if Z.land a m =? 0 then af else from_softfloat64 (Z.ldiff a m).

Definition _eosio_f64_nearest (arith_nan : bool) (af : Z) : Z :=
  let a := to_softfloat64 af in
  let e := Z.land (Z.shiftr a 52) 0x7FF in
  let s := negb (Z.shiftr a 63 =? 0) in
  let eps := inv_double_eps in
  if arith_nan && f64_is_nan a then from_softfloat64 (propagate_nan64 arith_nan a)
  else if 0x3FF + 52 <=? e then af
  else
    let y := if s then f64_add (f64_sub a eps) eps else f64_sub (f64_add a eps) eps in
    if f64_eq y 0 then (if s then F64_m0 else 0) else from_softfloat64 y.

Definition _eosio_f64_ceil (arith_nan : bool) (af : Z) : Z :=
  let a := to_softfloat64 af in
  let e := Z.land (Z.shiftr a 52) 0x7FF in
  if arith_nan && f64_is_nan a then from_softfloat64 (propagate_nan64 arith_nan a)
  else if (0x3FF + 52 <=? e) || f64_eq a 0 then af
  else
    let y := if negb (Z.shiftr a 63 =? 0)
             then f64_sub (f64_add (f64_sub a inv_double_eps) inv_double_eps) a
             else f64_sub (f64_sub (f64_add a inv_double_eps) inv_double_eps) a in
    if e <=? 0x3FF - 1 then (if negb (Z.shiftr a 63 =? 0) then F64_m0 else F64_1)
    else if f64_lt y (to_softfloat64 0)
    then from_softfloat64 (f64_add (f64_add a y) (to_softfloat64 F64_1))
    else from_softfloat64 (f64_add a y).

Definition _eosio_f64_floor (arith_nan : bool) (af : Z) : Z :=
  let a := to_softfloat64 af in
  let e := Z.land (Z.shiftr a 52) 0x7FF in
  if arith_nan && f64_is_nan a then from_softfloat64 (propagate_nan64 arith_nan a)
  else if a =? 0x8000000000000000 then af
  else if (0x3FF + 52 <=? e) || (a =? 0) then af
  else
    let y := if negb (Z.shiftr a 63 =? 0)
             then f64_sub (f64_add (f64_sub a inv_double_eps) inv_double_eps) a
             else f64_sub (f64_sub (f64_add a inv_double_eps) inv_double_eps) a in
    if e <=? 0x3FF - 1 then (if negb (Z.shiftr a 63 =? 0) then F64_m1 else 0)
    else if negb (f64_le y 0)
    then from_softfloat64 (f64_sub (f64_add a y) (to_softfloat64 F64_1))
    else from_softfloat64 (f64_add a y).

Definition _eosio_f32_eq (a b : Z) : bool := f32_eq (to_softfloat32 a) (to_softfloat32 b).
Definition _eosio_f32_ne (a b : Z) : bool := negb (f32_eq (to_softfloat32 a) (to_softfloat32 b)).
Definition _eosio_f32_lt (a b : Z) : bool := f32_lt (to_softfloat32 a) (to_softfloat32 b).
Definition _eosio_f32_le (a b : Z) : bool := f32_le (to_softfloat32 a) (to_softfloat32 b).
Definition _eosio_f32_gt (af bf : Z) : bool :=
  let a := to_softfloat32 af in
  let b := to_softfloat32 bf in
  if f32_is_nan a then false else if f32_is_nan b then false else negb (f32_le a b).
Definition _eosio_f32_ge (af bf : Z) : bool :=
  let a := to_softfloat32 af in
  let b := to_softfloat32 bf in
  if f32_is_nan a then false else if f32_is_nan b then false else negb (f32_lt a b).

Definition _eosio_f64_eq (a b : Z) : bool := f64_eq (to_softfloat64 a) (to_softfloat64 b).
Definition _eosio_f64_ne (a b : Z) : bool := negb (f64_eq (to_softfloat64 a) (to_softfloat64 b)).
Definition _eosio_f64_lt (a b : Z) : bool := f64_lt (to_softfloat64 a) (to_softfloat64 b).
Definition _eosio_f64_le (a b : Z) : bool := f64_le (to_softfloat64 a) (to_softfloat64 b).
Definition _eosio_f64_gt (af bf : Z) : bool :=
  let a := to_softfloat64 af in
  let b := to_softfloat64 bf in
  if f64_is_nan a then false else if f64_is_nan b then false else negb (f64_le a b).
Definition _eosio_f64_ge (af bf : Z) : bool :=
  let a := to_softfloat64 af in
  let b := to_softfloat64 bf in
  if f64_is_nan a then false else if f64_is_nan b then false else negb (f64_lt a b).

Definition _eosio_f32_promote (a : Z) : Z := from_softfloat64 (f32_to_f64 (to_softfloat32 a)).
Definition _eosio_f64_demote (a : Z) : Z := from_softfloat32 (f64_to_f32 (to_softfloat64 a)).

(** ** Trapping conversions to integers

    The results are the C++ integers of the return type. *)
Definition _eosio_f32_trunc_i32s (af : Z) : outcome Z :=
  let a := to_softfloat32 af in
  EOS_VM_ASSERT (negb (_eosio_f32_ge af F32_2p31 || _eosio_f32_lt af F32_m2p31))
    (wasm_interpreter_exception "Error, f32.convert_s/i32 overflow");;
  EOS_VM_ASSERT (negb (f32_is_nan a))
    (wasm_interpreter_exception "Error, f32.convert_s/i32 unrepresentable");;
  Ret (f32_to_i32 (to_softfloat32 (_eosio_f32_trunc false af)) 0 false).

Definition _eosio_f64_trunc_i32s (fixed_bound : bool) (af : Z) : outcome Z :=
  let a := to_softfloat64 af in
  EOS_VM_ASSERT (negb (_eosio_f64_ge af F64_2p31 ||
      (if fixed_bound then _eosio_f64_le af F64_m2p31m1 else _eosio_f64_lt af F64_m2p31)))
    (wasm_interpreter_exception "Error, f64.convert_s/i32 overflow");;
  EOS_VM_ASSERT (negb (f64_is_nan a))
    (wasm_interpreter_exception "Error, f64.convert_s/i32 unrepresentable");;
  Ret (f64_to_i32 (to_softfloat64 (_eosio_f64_trunc false af)) 0 false).

Definition _eosio_f32_trunc_i32u (af : Z) : outcome Z :=
  let a := to_softfloat32 af in
  EOS_VM_ASSERT (negb (_eosio_f32_ge af F32_2p32 || _eosio_f32_le af F32_m1))
    (wasm_interpreter_exception "Error, f32.convert_u/i32 overflow");;
  EOS_VM_ASSERT (negb (f32_is_nan a))
    (wasm_interpreter_exception "Error, f32.convert_u/i32 unrepresentable");;
  Ret (f32_to_ui32 (to_softfloat32 (_eosio_f32_trunc false af)) 0 false).

Definition _eosio_f64_trunc_i32u (af : Z) : outcome Z :=
  let a := to_softfloat64 af in
  EOS_VM_ASSERT (negb (_eosio_f64_ge af F64_2p32 || _eosio_f64_le af F64_m1))
    (wasm_interpreter_exception "Error, f64.convert_u/i32 overflow");;
  EOS_VM_ASSERT (negb (f64_is_nan a))
    (wasm_interpreter_exception "Error, f64.convert_u/i32 unrepresentable");;
  Ret (f64_to_ui32 (to_softfloat64 (_eosio_f64_trunc false af)) 0 false).

Definition _eosio_f32_trunc_i64s (af : Z) : outcome Z :=
  let a := to_softfloat32 af in
  EOS_VM_ASSERT (negb (_eosio_f32_ge af F32_2p63 || _eosio_f32_lt af F32_m2p63))
    (wasm_interpreter_exception "Error, f32.convert_s/i64 overflow");;
  EOS_VM_ASSERT (negb (f32_is_nan a))
    (wasm_interpreter_exception "Error, f32.convert_s/i64 unrepresentable");;
  Ret (f32_to_i64 (to_softfloat32 (_eosio_f32_trunc false af)) 0 false).

Definition _eosio_f64_trunc_i64s (af : Z) : outcome Z :=
  let a := to_softfloat64 af in
  EOS_VM_ASSERT (negb (_eosio_f64_ge af F64_2p63 || _eosio_f64_lt af F64_m2p63))
    (wasm_interpreter_exception "Error, f64.convert_s/i64 overflow");;
  EOS_VM_ASSERT (negb (f64_is_nan a))
    (wasm_interpreter_exception "Error, f64.convert_s/i64 unrepresentable");;
  Ret (f64_to_i64 (to_softfloat64 (_eosio_f64_trunc false af)) 0 false).

Definition _eosio_f32_trunc_i64u (af : Z) : outcome Z :=
  let a := to_softfloat32 af in
  EOS_VM_ASSERT (negb (_eosio_f32_ge af F32_2p64 || _eosio_f32_le af F32_m1))
    (wasm_interpreter_exception "Error, f32.convert_u/i64 overflow");;
  EOS_VM_ASSERT (negb (f32_is_nan a))
    (wasm_interpreter_exception "Error, f32.convert_u/i64 unrepresentable");;
  Ret (f32_to_ui64 (to_softfloat32 (_eosio_f32_trunc false af)) 0 false).

Definition _eosio_f64_trunc_i64u (af : Z) : outcome Z :=
  let a := to_softfloat64 af in
  EOS_VM_ASSERT (negb (_eosio_f64_ge af F64_2p64 || _eosio_f64_le af F64_m1))
    (wasm_interpreter_exception "Error, f64.convert_u/i64 overflow");;
  EOS_VM_ASSERT (negb (f64_is_nan a))
    (wasm_interpreter_exception "Error, f64.convert_u/i64 unrepresentable");;
  Ret (f64_to_ui64 (to_softfloat64 (_eosio_f64_trunc false af)) 0 false).

(** ** Conversions from integers: the argument is the C++ integer *)
Definition _eosio_i32_to_f32 (a : Z) : Z := from_softfloat32 (i32_to_f32 a).
Definition _eosio_i64_to_f32 (a : Z) : Z := from_softfloat32 (i64_to_f32 a).
Definition _eosio_ui32_to_f32 (a : Z) : Z := from_softfloat32 (ui32_to_f32 a).
Definition _eosio_ui64_to_f32 (a : Z) : Z := from_softfloat32 (ui64_to_f32 a).
Definition _eosio_i32_to_f64 (a : Z) : Z := from_softfloat64 (i32_to_f64 a).
Definition _eosio_i64_to_f64 (a : Z) : Z := from_softfloat64 (i64_to_f64 a).
Definition _eosio_ui32_to_f64 (a : Z) : Z := from_softfloat64 (ui32_to_f64 a).
Definition _eosio_ui64_to_f64 (a : Z) : Z := from_softfloat64 (ui64_to_f64 a).

(** ** Saturating conversions *)
Definition _eosio_i32_trunc_sat_f32_s (af : Z) : Z :=
  let a := to_softfloat32 af in
  if f32_is_nan a then 0
  else if _eosio_f32_ge af F32_2p31 then 2 ^ 31 - 1
  else if _eosio_f32_lt af F32_m2p31 then - 2 ^ 31
  else f32_to_i32_r_minMag a false.

Definition _eosio_i32_trunc_sat_f32_u (af : Z) : Z :=
  let a := to_softfloat32 af in
  if f32_is_nan a then 0
  else if _eosio_f32_ge af F32_2p32 then 2 ^ 32 - 1
  else if _eosio_f32_le af F32_m1 then 0
  else f32_to_ui32_r_minMag a false.

Definition _eosio_i32_trunc_sat_f64_s (af : Z) : Z :=
  let a := to_softfloat64 af in
  if f64_is_nan a then 0
  else if _eosio_f64_ge af F64_2p31 then 2 ^ 31 - 1
  else if _eosio_f64_lt af F64_m2p31 then - 2 ^ 31
  else f64_to_i32_r_minMag a false.

Definition _eosio_i32_trunc_sat_f64_u (af : Z) : Z :=
  let a := to_softfloat64 af in
  if f64_is_nan a then 0
  else if _eosio_f64_ge af F64_2p32 then 2 ^ 32 - 1
  else if _eosio_f64_le af F64_m1 then 0
  else f64_to_ui32_r_minMag a false.

Definition _eosio_i64_trunc_sat_f32_s (af : Z) : Z :=
  let a := to_softfloat32 af in
  if f32_is_nan a then 0
  else if _eosio_f32_ge af F32_2p63 then 2 ^ 63 - 1
  else if _eosio_f32_lt af F32_m2p63 then - 2 ^ 63
  else f32_to_i64_r_minMag a false.

Definition _eosio_i64_trunc_sat_f32_u (af : Z) : Z :=
  let a := to_softfloat32 af in
  if f32_is_nan a then 0
  else if _eosio_f32_ge af F32_2p64 then 2 ^ 64 - 1
  else if _eosio_f32_le af F32_m1 then 0
  else f32_to_ui64_r_minMag a false.

Definition _eosio_i64_trunc_sat_f64_s (af : Z) : Z :=
  let a := to_softfloat64 af in
  if f64_is_nan a then 0
  else if _eosio_f64_ge af F64_2p63 then 2 ^ 63 - 1
  else if _eosio_f64_lt af F64_m2p63 then - 2 ^ 63
  else f64_to_i64_r_minMag a false.

Definition _eosio_i64_trunc_sat_f64_u (af : Z) : Z :=
  let a := to_softfloat64 af in
  if f64_is_nan a then 0
  else if _eosio_f64_ge af F64_2p64 then 2 ^ 64 - 1
  else if _eosio_f64_le af F64_m1 then 0
  else f64_to_ui64_r_minMag a false.

End Softfloat.
