(* ===== verification/FloatRounding.v ===== *)
(** * Correctness of the floating-point glue (softfloat.hpp)

    The value of a finite float is an integer multiple of the smallest
    subnormal; [value] is that integer, so rounding to an integral float is
    rounding to a multiple of [one].  The bit manipulation of [ceil], [floor] and
    [trunc] is shown to compute exactly that, and [min], [max], the comparisons
    and the range checks of the conversions are characterised by it. *)
From S2P Require Import Prelude Opcodes Softfloat.

(** ** The value of a bit pattern

    [p] fraction bits, exponent bias [B], the sign at bit [T]. *)
Section Format.
Context (p B T : Z).
Hypothesis Hp : 0 < p.
Hypothesis HB : 0 < B.

(** Magnitude of the pattern without its sign, in units of the smallest
    subnormal. *)
Definition mag (k : Z) : Z :=
  if k / 2 ^ p =? 0 then k mod 2 ^ p else (2 ^ p + k mod 2 ^ p) * 2 ^ (k / 2 ^ p - 1).

Definition neg_sign (a : Z) : bool := negb (a / 2 ^ T =? 0).

Definition value (a : Z) : Z :=
  if neg_sign a then - mag (a mod 2 ^ T) else mag (a mod 2 ^ T).

(** The value of 1.0. *)
Definition one : Z := 2 ^ (B + p - 1).

Lemma one_pos : 0 < one.
Proof using HB Hp. apply Z.pow_pos_nonneg; lia. Qed.

Lemma mag_small k : 0 <= k -> k / 2 ^ p < B -> 0 <= mag k < one.
Proof using HB Hp.
  intros Hk He. unfold mag, one. pose proof (Z.mod_pos_bound k (2 ^ p) ltac:(lia)).
  pose proof (Z.div_pos k (2 ^ p) Hk ltac:(lia)).
  destruct (Z.eqb_spec (k / 2 ^ p) 0).
  - pose proof (Z.pow_le_mono_r 2 p (B + p - 1) ltac:(lia) ltac:(lia)). lia.
  - pose proof (Z.pow_le_mono_r 2 (k / 2 ^ p - 1) (B - 2) ltac:(lia) ltac:(lia)).
    pose proof (Z.pow_pos_nonneg 2 (k / 2 ^ p - 1) ltac:(lia) ltac:(lia)).
    replace (B + p - 1) with (p + 1 + (B - 2)) by lia. rewrite !Z.pow_add_r by lia.
    change (2 ^ 1) with 2. nia.
Qed.

Lemma mag_zero k : 0 <= k -> mag k = 0 <-> k = 0.
Proof using HB Hp.
  intros Hk. unfold mag. pose proof (Z.mod_pos_bound k (2 ^ p) ltac:(lia)).
  pose proof (Z.div_mod k (2 ^ p) ltac:(lia)). pose proof (Z.div_pos k (2 ^ p) Hk ltac:(lia)).
  destruct (Z.eqb_spec (k / 2 ^ p) 0).
  - nia.
  - pose proof (Z.pow_pos_nonneg 2 (k / 2 ^ p - 1) ltac:(lia) ltac:(lia)). split; [nia|].
    intros ->. rewrite Z.div_0_l in * by lia. done.
Qed.

Lemma mag_integral k : B + p <= k / 2 ^ p -> mag k mod one = 0.
Proof using HB Hp.
  intros He. unfold mag, one. destruct (Z.eqb_spec (k / 2 ^ p) 0); [lia|].
  replace (k / 2 ^ p - 1) with (k / 2 ^ p - B - p + (B + p - 1)) by lia.
  rewrite Z.pow_add_r, Z.mul_assoc by lia. apply Z.mod_mul. lia.
Qed.

(** Fraction bits below the point, for an exponent in [0, p). *)
Section Fraction.
Context (k : Z).
Hypothesis Hk : 0 <= k.
Hypothesis He : B <= k / 2 ^ p < B + p.
Let j : Z := p - (k / 2 ^ p - B).

Lemma fraction_bits : 0 < j <= p.
Proof using He Hp. subst j. lia. Qed.

Lemma pow_split : 2 ^ p = 2 ^ (p - j) * 2 ^ j.
Proof using He Hp. pose proof fraction_bits. rewrite <- Z.pow_add_r by lia. f_equal. lia. Qed.

Lemma one_split : one = 2 ^ j * 2 ^ (k / 2 ^ p - 1).
Proof using He Hp HB. unfold one. rewrite <- Z.pow_add_r by lia. f_equal. subst j. lia. Qed.

Lemma mag_normal f : 0 <= f < 2 ^ p ->
  mag (k / 2 ^ p * 2 ^ p + f) = (2 ^ p + f) * 2 ^ (k / 2 ^ p - 1).
Proof using He Hp HB.
  intros Hf. unfold mag. rewrite Z.div_add_l, (Z.div_small f), Z.add_0_r by lia.
  rewrite Z.add_comm, Z.mod_add, Z.mod_small by lia.
  destruct (Z.eqb_spec (k / 2 ^ p) 0); [lia|done].
Qed.

Lemma low_bits : k mod 2 ^ j = (k mod 2 ^ p) mod 2 ^ j.
Proof using He Hp.
  pose proof fraction_bits. rewrite pow_split, (Z.mul_comm (2 ^ (p - j))), Z.rem_mul_r by lia.
  rewrite (Z.mul_comm (2 ^ j)), Z.mod_add, Z.mod_mod by lia. done.
Qed.

Lemma mag_normal_self : mag k = (2 ^ p + k mod 2 ^ p) * 2 ^ (k / 2 ^ p - 1).
Proof using Hk He Hp HB.
  pose proof (Z.mod_pos_bound k (2 ^ p) ltac:(lia)).
  rewrite <- mag_normal by lia. f_equal. pose proof (Z.div_mod k (2 ^ p) ltac:(lia)). lia.
Qed.

Lemma mag_mod : mag k mod one = (k mod 2 ^ j) * 2 ^ (k / 2 ^ p - 1).
Proof using Hk He Hp HB.
  pose proof fraction_bits. pose proof (Z.pow_pos_nonneg 2 (k / 2 ^ p - 1) ltac:(lia) ltac:(lia)).
  rewrite mag_normal_self, one_split, Z.mul_mod_distr_r, low_bits by lia. f_equal.
  rewrite pow_split at 1. rewrite Z.add_comm, Z.mod_add by lia. done.
Qed.

Lemma mag_clear : mag (k - k mod 2 ^ j) = mag k / one * one.
Proof using Hk He Hp HB.
  pose proof fraction_bits. pose proof (Z.mod_pos_bound k (2 ^ p) ltac:(lia)) as Hf.
  pose proof (Z.mod_pos_bound (k mod 2 ^ p) (2 ^ j) ltac:(lia)) as Hr.
  pose proof (Z.mod_le (k mod 2 ^ p) (2 ^ j) ltac:(lia) ltac:(lia)).
  pose proof (Z.div_mod (k mod 2 ^ p) (2 ^ j) ltac:(lia)) as Hd.
  pose proof (Z.pow_pos_nonneg 2 (k / 2 ^ p - 1) ltac:(lia) ltac:(lia)).
  rewrite low_bits.
  replace (k - (k mod 2 ^ p) mod 2 ^ j)
    with (k / 2 ^ p * 2 ^ p + (k mod 2 ^ p - (k mod 2 ^ p) mod 2 ^ j))
    by (pose proof (Z.div_mod k (2 ^ p) ltac:(lia)); lia).
  rewrite mag_normal, mag_normal_self, one_split by lia.
  set (E := 2 ^ (k / 2 ^ p - 1)) in *. set (q := (k mod 2 ^ p) / 2 ^ j) in *.
  replace ((2 ^ p + k mod 2 ^ p) * E / (2 ^ j * E)) with (2 ^ (p - j) + q).
  - rewrite pow_split at 1. nia.
  - rewrite Z.div_mul_cancel_r by lia. rewrite pow_split at 1.
    rewrite Z.div_add_l by lia. done.
Qed.

Lemma mag_next : mag (k - k mod 2 ^ j + 2 ^ j) = mag (k - k mod 2 ^ j) + one.
Proof using Hk He Hp HB.
  pose proof fraction_bits. pose proof (Z.mod_pos_bound k (2 ^ p) ltac:(lia)) as Hf.
  pose proof (Z.mod_pos_bound (k mod 2 ^ p) (2 ^ j) ltac:(lia)) as Hr.
  pose proof (Z.mod_le (k mod 2 ^ p) (2 ^ j) ltac:(lia) ltac:(lia)).
  pose proof (Z.div_mod (k mod 2 ^ p) (2 ^ j) ltac:(lia)) as Hd.
  rewrite low_bits.
  replace (k - (k mod 2 ^ p) mod 2 ^ j)
    with (k / 2 ^ p * 2 ^ p + (k mod 2 ^ p - (k mod 2 ^ p) mod 2 ^ j))
    by (pose proof (Z.div_mod k (2 ^ p) ltac:(lia)); lia).
  set (f := k mod 2 ^ p - (k mod 2 ^ p) mod 2 ^ j) in *.
  assert (Hfj : f = 2 ^ j * ((k mod 2 ^ p) / 2 ^ j)) by lia.
  assert (Hle : f + 2 ^ j <= 2 ^ p).
  { assert ((k mod 2 ^ p) / 2 ^ j < 2 ^ (p - j)).
    { apply Z.div_lt_upper_bound; [lia|]. rewrite Z.mul_comm, <- pow_split. lia. }
    pose proof pow_split. nia. }
  rewrite (mag_normal f), one_split by lia.
  destruct (Z.eq_dec (f + 2 ^ j) (2 ^ p)) as [Heq|Hne].
  - replace (k / 2 ^ p * 2 ^ p + f + 2 ^ j) with ((k / 2 ^ p + 1) * 2 ^ p) by lia.
    unfold mag. rewrite Z.div_mul, Z.mod_mul by lia.
    destruct (Z.eqb_spec (k / 2 ^ p + 1) 0); [lia|].
    replace (k / 2 ^ p + 1 - 1) with (1 + (k / 2 ^ p - 1)) by lia.
    rewrite Z.pow_add_r by lia. change (2 ^ 1) with 2. nia.
  - rewrite <- Z.add_assoc, mag_normal by lia. nia.
Qed.
End Fraction.

(** ** Rounding the magnitude: toward zero, and away from it *)
Definition frac_bits (k : Z) : Z := p - (k / 2 ^ p - B).

Definition toward_zero (k : Z) : Z :=
  if B + p <=? k / 2 ^ p then k
  else if k / 2 ^ p <? B then 0
  else k - k mod 2 ^ frac_bits k.

Definition away (k : Z) : Z :=
  if B + p <=? k / 2 ^ p then k
  else if k / 2 ^ p <? B then (if k =? 0 then 0 else B * 2 ^ p)
  else if k mod 2 ^ frac_bits k =? 0 then k
  else k - k mod 2 ^ frac_bits k + 2 ^ frac_bits k.

Lemma mag_toward_zero k : 0 <= k -> mag (toward_zero k) = mag k / one * one.
Proof using HB Hp.
  intros Hk. pose proof one_pos. unfold toward_zero.
  destruct (Z.leb_spec (B + p) (k / 2 ^ p)) as [Hi|Hi].
  - pose proof (mag_integral k Hi). pose proof (Z.div_mod (mag k) one ltac:(lia)). lia.
  - destruct (Z.ltb_spec (k / 2 ^ p) B) as [Hs|Hs].
    + rewrite (Z.div_small (mag k)) by (by apply mag_small). unfold mag.
      by rewrite Z.div_0_l, Z.mod_0_l by lia.
    + apply mag_clear; lia.
Qed.

Lemma mag_away k : 0 <= k -> mag (away k) = - (- mag k / one) * one.
Proof using HB Hp.
  intros Hk. pose proof one_pos. unfold away.
  destruct (Z.leb_spec (B + p) (k / 2 ^ p)) as [Hi|Hi].
  - pose proof (mag_integral k Hi). rewrite Z.div_opp_l_z by lia.
    pose proof (Z.div_mod (mag k) one ltac:(lia)). lia.
  - destruct (Z.ltb_spec (k / 2 ^ p) B) as [Hs|Hs].
    + pose proof (mag_small k Hk Hs). destruct (Z.eqb_spec k 0) as [->|Hne].
      * unfold mag. by rewrite Z.div_0_l, Z.mod_0_l by lia.
      * assert (mag k <> 0) by (by rewrite mag_zero).
        rewrite Z.div_opp_l_nz, (Z.div_small (mag k)) by (rewrite ?Z.mod_small by lia; lia).
        unfold mag. rewrite Z.div_mul, Z.mod_mul by lia.
        destruct (Z.eqb_spec B 0); [lia|]. unfold one.
        replace (B + p - 1) with (p + (B - 1)) by lia. rewrite Z.pow_add_r by lia. lia.
    + pose proof (mag_clear k Hk ltac:(lia)) as Hc. fold (frac_bits k) in Hc.
      destruct (Z.eqb_spec (k mod 2 ^ frac_bits k) 0) as [Hz|Hz].
      * rewrite Hz, Z.sub_0_r in Hc. rewrite Z.div_opp_l_z; [lia|lia|].
        rewrite Hc. apply Z.mod_mul. lia.
      * pose proof (mag_next k Hk ltac:(lia)) as Hn. fold (frac_bits k) in Hn.
        rewrite Hn, Hc. rewrite Z.div_opp_l_nz; [lia|lia|].
        rewrite mag_mod by lia. fold (frac_bits k).
        pose proof (Z.pow_pos_nonneg 2 (k / 2 ^ p - 1) ltac:(lia) ltac:(lia)). nia.
Qed.
End Format.

(** ** The bit fields *)
Section Fields.
Context (p eb : Z).
Hypothesis Hp : 0 < p.
Hypothesis Heb : 0 < eb.
Let T : Z := p + eb.

(** A pattern is its sign bit above its magnitude bits. *)
Lemma sign_split a : 0 <= a < 2 ^ (T + 1) ->
  exists s k, (s = 0 \/ s = 1) /\ 0 <= k < 2 ^ T /\ a = s * 2 ^ T + k /\
    a mod 2 ^ T = k /\ a / 2 ^ T = s.
Proof using Hp Heb.
  intros Ha. exists (a / 2 ^ T), (a mod 2 ^ T).
  pose proof (Z.mod_pos_bound a (2 ^ T) ltac:(subst T; lia)).
  pose proof (Z.div_mod a (2 ^ T) ltac:(subst T; lia)).
  rewrite Z.pow_add_r in Ha by (subst T; lia). change (2 ^ 1) with 2 in Ha.
  assert (0 <= a / 2 ^ T < 2).
  { split; [apply Z.div_pos; lia|apply Z.div_lt_upper_bound; lia]. }
  split; [lia|]. split; [done|]. split; [lia|done].
Qed.

Lemma exponent_field s k : 0 <= s -> 0 <= k < 2 ^ T ->
  Z.land (Z.shiftr (s * 2 ^ T + k) p) (Z.ones eb) = k / 2 ^ p.
Proof using Hp Heb.
  intros Hs Hk. rewrite Z.land_ones, Z.shiftr_div_pow2 by lia.
  unfold T in *. rewrite Z.pow_add_r, (Z.mul_comm (2 ^ p)), Z.mul_assoc, Z.div_add_l in * by lia.
  rewrite Z.add_comm, Z.mod_add, Z.mod_small; [done| |lia].
  split; [apply Z.div_pos; lia|]. apply Z.div_lt_upper_bound; lia.
Qed.

Lemma low_mask s k j : 0 <= j <= T -> 0 <= k ->
  Z.land (s * 2 ^ T + k) (Z.ones j) = k mod 2 ^ j /\
  Z.ldiff (s * 2 ^ T + k) (Z.ones j) = s * 2 ^ T + (k - k mod 2 ^ j).
Proof using Hp Heb.
  intros Hj Hk. assert (E : (s * 2 ^ T + k) mod 2 ^ j = k mod 2 ^ j).
  { replace (s * 2 ^ T) with (s * 2 ^ (T - j) * 2 ^ j)
      by (rewrite <- Z.mul_assoc, <- Z.pow_add_r by lia; f_equal; f_equal; lia).
    rewrite Z.add_comm, Z.mod_add by lia. done. }
  rewrite Z.land_ones by lia. split; [done|].
  rewrite Z.ldiff_ones_r, Z.shiftl_mul_pow2, Z.shiftr_div_pow2 by lia.
  pose proof (Z.div_mod (s * 2 ^ T + k) (2 ^ j) ltac:(lia)). lia.
Qed.

(** Adding the mask before clearing it rounds up. *)
Lemma add_then_clear s k j : 0 <= j <= T -> 0 <= k -> k mod 2 ^ j <> 0 ->
  Z.ldiff (s * 2 ^ T + k + Z.ones j) (Z.ones j) = s * 2 ^ T + (k - k mod 2 ^ j + 2 ^ j).
Proof using Hp Heb.
  intros Hj Hk Hn. rewrite <- Z.add_assoc.
  destruct (low_mask s (k + Z.ones j) j Hj) as [_ ->].
  { pose proof (Z.ones_equiv j). pose proof (Z.pow_pos_nonneg 2 j ltac:(lia) ltac:(lia)). lia. }
  pose proof (Z.mod_pos_bound k (2 ^ j) ltac:(lia)). pose proof (Z.div_mod k (2 ^ j) ltac:(lia)).
  rewrite Z.ones_equiv in *.
  replace ((k + Z.pred (2 ^ j)) mod 2 ^ j) with (k mod 2 ^ j - 1); [lia|].
  apply (Z.mod_unique _ _ (k / 2 ^ j + 1)); lia.
Qed.

Lemma sign_shift s k : 0 <= k < 2 ^ T -> Z.shiftr (s * 2 ^ T + k) T = s.
Proof using Hp Heb.
  intros Hk. rewrite Z.shiftr_div_pow2, Z.div_add_l, Z.div_small by (subst T; lia). lia.
Qed.
End Fields.

(** ** What the library relies on *)

(** The glue of the softfloat headers: the conversions between [float] and
    [float32_t] keep the bits; the classification functions read the fields. *)
Class SoftfloatBits (sf : Softfloat) : Prop := {
  to_softfloat32_id : forall a, to_softfloat32 a = a;
  from_softfloat32_id : forall a, from_softfloat32 a = a;
  to_softfloat64_id : forall a, to_softfloat64 a = a;
  from_softfloat64_id : forall a, from_softfloat64 a = a;
  f32_is_nan_spec : forall a, in_u 32 a -> f32_is_nan a = (0x7F800000 <? a mod 2 ^ 31);
  f64_is_nan_spec : forall a, in_u 64 a -> f64_is_nan a = (0x7FF0000000000000 <? a mod 2 ^ 63);
  f32_sign_bit_spec : forall a, in_u 32 a -> f32_sign_bit a = neg_sign 31 a;
  f64_sign_bit_spec : forall a, in_u 64 a -> f64_sign_bit a = neg_sign 63 a
}.

Definition value32 : Z -> Z := value 23 31.
Definition value64 : Z -> Z := value 52 63.
Definition one32 : Z := one 23 127.
Definition one64 : Z := one 52 1023.

(** Finite patterns: the exponent field is not all ones. *)
Definition finite32 (a : Z) : Prop := in_u 32 a /\ a mod 2 ^ 31 < 0x7F800000.
Definition finite64 (a : Z) : Prop := in_u 64 a /\ a mod 2 ^ 63 < 0x7FF0000000000000.

(** The comparisons are those of the values (infinities included: their
    patterns have the largest magnitude) and false on NaN. *)
Class SoftfloatCompare (sf : Softfloat) : Prop := {
  f32_lt_spec : forall a b, in_u 32 a -> in_u 32 b ->
    f32_lt a b = negb (f32_is_nan a) && negb (f32_is_nan b) && (value32 a <? value32 b);
  f32_le_spec : forall a b, in_u 32 a -> in_u 32 b ->
    f32_le a b = negb (f32_is_nan a) && negb (f32_is_nan b) && (value32 a <=? value32 b);
  f32_eq_spec : forall a b, in_u 32 a -> in_u 32 b ->
    f32_eq a b = negb (f32_is_nan a) && negb (f32_is_nan b) && (value32 a =? value32 b);
  f64_lt_spec : forall a b, in_u 64 a -> in_u 64 b ->
    f64_lt a b = negb (f64_is_nan a) && negb (f64_is_nan b) && (value64 a <? value64 b);
  f64_le_spec : forall a b, in_u 64 a -> in_u 64 b ->
    f64_le a b = negb (f64_is_nan a) && negb (f64_is_nan b) && (value64 a <=? value64 b);
  f64_eq_spec : forall a b, in_u 64 a -> in_u 64 b ->
    f64_eq a b = negb (f64_is_nan a) && negb (f64_is_nan b) && (value64 a =? value64 b)
}.

(** ** ceil, floor and trunc *)
Section Rounding.
Context `{sf : Softfloat} {Hbits : SoftfloatBits sf}.

(** The pattern with sign [s] and magnitude bits [k]. *)
Definition pat32 (s k : Z) : Z := s * 2 ^ 31 + k.
Definition pat64 (s k : Z) : Z := s * 2 ^ 63 + k.

Lemma pat32_split a : finite32 a ->
  exists s k, (s = 0 \/ s = 1) /\ 0 <= k < 0x7F800000 /\ a = pat32 s k.
Proof.
  intros [Ha Hf].
  destruct (sign_split 23 8 ltac:(lia) ltac:(lia) a Ha) as (s & k & Hs & Hk & E & Em & _).
  change (23 + 8) with 31 in *. exists s, k. rewrite Em in Hf. split; [done|]. split; [lia|done].
Qed.

Lemma not_nan32 s k : (s = 0 \/ s = 1) -> 0 <= k < 0x7F800000 -> f32_is_nan (pat32 s k) = false.
Proof using Hbits.
  intros Hs Hk. unfold pat32. rewrite f32_is_nan_spec by (unfold in_u; lia).
  rewrite Z.add_comm, Z.mod_add, Z.mod_small by lia. apply Z.ltb_ge. lia.
Qed.

Lemma value_pat32 s k : (s = 0 \/ s = 1) -> 0 <= k < 2 ^ 31 ->
  value32 (pat32 s k) = (if s =? 0 then mag 23 k else - mag 23 k) /\
  neg_sign 31 (pat32 s k) = negb (s =? 0).
Proof.
  intros Hs Hk. unfold value32, value, neg_sign, pat32.
  rewrite Z.div_add_l, (Z.div_small k), Z.add_0_r by lia.
  rewrite Z.add_comm, Z.mod_add, Z.mod_small by lia.
  by destruct Hs as [-> | ->].
Qed.

Lemma mask32 e : 0 <= e <= 23 -> Z.shiftr 0x007FFFFF e = Z.ones (23 - e).
Proof.
  intros He. change 0x007FFFFF with (Z.ones 23). rewrite Z.shiftr_div_pow2 by lia.
  by apply Z.ones_div_pow2.
Qed.

(** The fields of a finite pattern as [ceil], [floor] and [trunc] read them. *)
Lemma fields32 s k : (s = 0 \/ s = 1) -> 0 <= k < 0x7F800000 ->
  Z.land (Z.shiftr (pat32 s k) 23) 0xFF = k / 2 ^ 23 /\
  Z.shiftr (pat32 s k) 31 = s /\
  (wrap 32 (Z.shiftl (pat32 s k) 1) =? 0) = (k =? 0) /\
  (forall j, 0 <= j <= 31 -> Z.land (pat32 s k) (Z.ones j) = k mod 2 ^ j /\
     Z.ldiff (pat32 s k) (Z.ones j) = pat32 s (k - k mod 2 ^ j) /\
     (k mod 2 ^ j <> 0 -> Z.ldiff (pat32 s k + Z.ones j) (Z.ones j) =
        pat32 s (k - k mod 2 ^ j + 2 ^ j))).
Proof.
  intros Hs Hk. unfold pat32. split; [|split; [|split]].
  - apply (exponent_field 23 8); simpl; lia.
  - apply (sign_shift 23 8); simpl; lia.
  - unfold wrap. rewrite Z.shiftl_mul_pow2 by lia.
    replace ((s * 2 ^ 31 + k) * 2 ^ 1) with (k * 2 + s * 2 ^ 32) by lia.
    rewrite Z.mod_add, Z.mod_small by lia.
    destruct (Z.eqb_spec (k * 2) 0), (Z.eqb_spec k 0); done || lia.
  - intros j Hj.
    split; [by apply (low_mask 23 8 ltac:(lia) ltac:(lia) s k j Hj); lia|].
    split; [by apply (low_mask 23 8 ltac:(lia) ltac:(lia) s k j Hj); lia|].
    intros Hn. by apply (add_then_clear 23 8 ltac:(lia) ltac:(lia) s k j Hj ltac:(lia)).
Qed.

(** [ceil] of a finite float takes the magnitude away from zero when positive,
    toward zero when negative; [floor] the other way; [trunc] toward zero. *)
Lemma ceil32_pat n s k : (s = 0 \/ s = 1) -> 0 <= k < 0x7F800000 ->
  _eosio_f32_ceil n (pat32 s k) =
    pat32 s (if s =? 0 then away 23 127 k else toward_zero 23 127 k).
Proof using Hbits.
  intros Hs Hk. unfold _eosio_f32_ceil. rewrite !to_softfloat32_id, !from_softfloat32_id.
  destruct (fields32 s k Hs Hk) as (-> & -> & -> & Hm).
  rewrite not_nan32, andb_false_r by done.
  unfold away, toward_zero, frac_bits.
  destruct (Z.leb_spec 23 (k / 2 ^ 23 - 0x7F)), (Z.leb_spec (127 + 23) (k / 2 ^ 23)); try lia.
  { by destruct (s =? 0). }
  destruct (Z.leb_spec 0 (k / 2 ^ 23 - 0x7F)), (Z.ltb_spec (k / 2 ^ 23) 127); try lia.
  - rewrite mask32 by lia. set (j := 23 - (k / 2 ^ 23 - 127)) in *.
    destruct (Hm j) as (-> & Hc & Hn); [subst j; lia|].
    destruct (Z.eqb_spec (k mod 2 ^ j) 0) as [->|Hz]; [rewrite Z.sub_0_r; by destruct (s =? 0)|].
    destruct (Z.eqb_spec s 0) as [->|]; [|done].
    assert (Hj : 2 ^ j <= 2 ^ 23) by (apply Z.pow_le_mono_r; subst j; lia).
    rewrite wrap_small; [by apply Hn|]. unfold in_u, pat32. rewrite Z.ones_equiv.
    pose proof (Z.pow_pos_nonneg 2 j ltac:(lia)). lia.
  - destruct Hs as [-> | ->]; simpl.
    + destruct (Z.eqb_spec k 0) as [->|]; done.
    + done.
Qed.

Lemma floor32_pat n s k : (s = 0 \/ s = 1) -> 0 <= k < 0x7F800000 ->
  _eosio_f32_floor n (pat32 s k) =
    pat32 s (if s =? 0 then toward_zero 23 127 k else away 23 127 k).
Proof using Hbits.
  intros Hs Hk. unfold _eosio_f32_floor. rewrite !to_softfloat32_id, !from_softfloat32_id.
  destruct (fields32 s k Hs Hk) as (-> & -> & -> & Hm).
  rewrite not_nan32, andb_false_r by done.
  unfold away, toward_zero, frac_bits.
  destruct (Z.leb_spec 23 (k / 2 ^ 23 - 0x7F)), (Z.leb_spec (127 + 23) (k / 2 ^ 23)); try lia.
  { by destruct (s =? 0). }
  destruct (Z.leb_spec 0 (k / 2 ^ 23 - 0x7F)), (Z.ltb_spec (k / 2 ^ 23) 127); try lia.
  - rewrite mask32 by lia. set (j := 23 - (k / 2 ^ 23 - 127)) in *.
    destruct (Hm j) as (-> & Hc & Hn); [subst j; lia|].
    destruct (Z.eqb_spec (k mod 2 ^ j) 0) as [->|Hz]; [rewrite Z.sub_0_r; by destruct (s =? 0)|].
    destruct (Z.eqb_spec s 0) as [->|]; [done|].
    assert (Hj : 2 ^ j <= 2 ^ 23) by (apply Z.pow_le_mono_r; subst j; lia).
    simpl negb. cbv iota. rewrite wrap_small; [by apply Hn|].
    unfold in_u, pat32. rewrite Z.ones_equiv.
    pose proof (Z.pow_pos_nonneg 2 j ltac:(lia)). lia.
  - destruct Hs as [-> | ->]; simpl.
    + done.
    + destruct (Z.eqb_spec k 0) as [->|]; done.
Qed.

Lemma trunc32_pat n s k : (s = 0 \/ s = 1) -> 0 <= k < 0x7F800000 ->
  _eosio_f32_trunc n (pat32 s k) = pat32 s (toward_zero 23 127 k).
Proof using Hbits.
  intros Hs Hk. unfold _eosio_f32_trunc. rewrite !to_softfloat32_id, !from_softfloat32_id.
  destruct (fields32 s k Hs Hk) as (-> & _ & _ & Hm).
  rewrite not_nan32, andb_false_r by done.
  unfold toward_zero, frac_bits. change (2 ^ 32 - 1) with (Z.ones 32).
  destruct (Z.leb_spec (23 + 9) (k / 2 ^ 23 - 0x7F + 9)), (Z.leb_spec (127 + 23) (k / 2 ^ 23));
    try lia.
  rewrite (Z.shiftr_div_pow2 (Z.ones 32)) by (destruct (_ <? _) eqn:E; destruct_bools; lia).
  rewrite Z.ones_div_pow2 by (destruct (_ <? _) eqn:E; destruct_bools; lia).
  destruct (Z.ltb_spec (k / 2 ^ 23 - 0x7F + 9) 9), (Z.ltb_spec (k / 2 ^ 23) 127); try lia.
  - destruct (Hm (32 - 1) ltac:(lia)) as (-> & -> & _). rewrite (Z.mod_small k) by lia.
    destruct (Z.eqb_spec k 0) as [->|]; [done|]. by rewrite Z.sub_diag.
  - replace (32 - (k / 2 ^ 23 - 127 + 9)) with (23 - (k / 2 ^ 23 - 127)) by lia.
    destruct (Hm (23 - (k / 2 ^ 23 - 127)) ltac:(lia)) as (-> & -> & _).
    destruct (Z.eqb_spec (k mod 2 ^ (23 - (k / 2 ^ 23 - 127))) 0) as [->|]; [by rewrite Z.sub_0_r|done].
Qed.

(** The same for [double]; only [trunc] works on the bits there. *)
Lemma pat64_split a : finite64 a ->
  exists s k, (s = 0 \/ s = 1) /\ 0 <= k < 0x7FF0000000000000 /\ a = pat64 s k.
Proof.
  intros [Ha Hf].
  destruct (sign_split 52 11 ltac:(lia) ltac:(lia) a Ha) as (s & k & Hs & Hk & E & Em & _).
  change (52 + 11) with 63 in *. exists s, k. rewrite Em in Hf. split; [done|]. split; [lia|done].
Qed.

Lemma not_nan64 s k : (s = 0 \/ s = 1) -> 0 <= k < 0x7FF0000000000000 ->
  f64_is_nan (pat64 s k) = false.
Proof using Hbits.
  intros Hs Hk. unfold pat64. rewrite f64_is_nan_spec by (unfold in_u; lia).
  rewrite Z.add_comm, Z.mod_add, Z.mod_small by lia. apply Z.ltb_ge. lia.
Qed.

Lemma value_pat64 s k : (s = 0 \/ s = 1) -> 0 <= k < 2 ^ 63 ->
  value64 (pat64 s k) = (if s =? 0 then mag 52 k else - mag 52 k) /\
  neg_sign 63 (pat64 s k) = negb (s =? 0).
Proof.
  intros Hs Hk. unfold value64, value, neg_sign, pat64.
  rewrite Z.div_add_l, (Z.div_small k), Z.add_0_r by lia.
  rewrite Z.add_comm, Z.mod_add, Z.mod_small by lia.
  by destruct Hs as [-> | ->].
Qed.

Lemma trunc64_pat n s k : (s = 0 \/ s = 1) -> 0 <= k < 0x7FF0000000000000 ->
  _eosio_f64_trunc n (pat64 s k) = pat64 s (toward_zero 52 1023 k).
Proof using Hbits.
  intros Hs Hk. unfold _eosio_f64_trunc. rewrite !to_softfloat64_id, !from_softfloat64_id.
  assert (Hm : forall j, 0 <= j <= 63 -> Z.land (pat64 s k) (Z.ones j) = k mod 2 ^ j /\
     Z.ldiff (pat64 s k) (Z.ones j) = pat64 s (k - k mod 2 ^ j)).
  { intros j Hj. apply (low_mask 52 11 ltac:(lia) ltac:(lia) s k j Hj). lia. }
  assert (He : Z.land (Z.shiftr (pat64 s k) 52) 0x7FF = k / 2 ^ 52)
    by (apply (exponent_field 52 11); simpl; lia).
  rewrite He, not_nan64, andb_false_r by done.
  unfold toward_zero, frac_bits. change (2 ^ 64 - 1) with (Z.ones 64).
  destruct (Z.leb_spec (52 + 12) (k / 2 ^ 52 - 0x3FF + 12)), (Z.leb_spec (1023 + 52) (k / 2 ^ 52));
    try lia.
  rewrite (Z.shiftr_div_pow2 (Z.ones 64)) by (destruct (_ <? _) eqn:E; destruct_bools; lia).
  rewrite Z.ones_div_pow2 by (destruct (_ <? _) eqn:E; destruct_bools; lia).
  destruct (Z.ltb_spec (k / 2 ^ 52 - 0x3FF + 12) 12), (Z.ltb_spec (k / 2 ^ 52) 1023); try lia.
  - destruct (Hm (64 - 1) ltac:(lia)) as (-> & ->). rewrite (Z.mod_small k) by lia.
    destruct (Z.eqb_spec k 0) as [->|]; [done|]. by rewrite Z.sub_diag.
  - replace (64 - (k / 2 ^ 52 - 1023 + 12)) with (52 - (k / 2 ^ 52 - 1023)) by lia.
    destruct (Hm (52 - (k / 2 ^ 52 - 1023)) ltac:(lia)) as (-> & ->).
    destruct (Z.eqb_spec (k mod 2 ^ (52 - (k / 2 ^ 52 - 1023))) 0) as [->|]; [by rewrite Z.sub_0_r|done].
Qed.

Lemma toward_zero_bound p B k : 0 < p -> 0 <= k -> 0 <= toward_zero p B k <= k.
Proof.
  intros Hp Hk. unfold toward_zero, frac_bits. destruct (Z.leb_spec (B + p) (k / 2 ^ p)); [lia|].
  destruct (Z.ltb_spec (k / 2 ^ p) B); [lia|].
  set (j := p - (k / 2 ^ p - B)). pose proof (Z.pow_pos_nonneg 2 j ltac:(lia) ltac:(subst j; lia)).
  pose proof (Z.mod_pos_bound k (2 ^ j) ltac:(lia)). pose proof (Z.mod_le k (2 ^ j) Hk ltac:(lia)). lia.
Qed.

Lemma away32_bound k : 0 <= k < 0x7F800000 -> 0 <= away 23 127 k < 2 ^ 31.
Proof.
  intros Hk. unfold away, frac_bits. destruct (Z.leb_spec (127 + 23) (k / 2 ^ 23)); [lia|].
  destruct (Z.ltb_spec (k / 2 ^ 23) 127); [destruct (k =? 0); lia|].
  set (j := 23 - (k / 2 ^ 23 - 127)). pose proof (Z.pow_pos_nonneg 2 j ltac:(lia) ltac:(subst j; lia)).
  pose proof (Z.pow_le_mono_r 2 j 23 ltac:(lia) ltac:(subst j; lia)).
  pose proof (Z.mod_pos_bound k (2 ^ j) ltac:(lia)).
  pose proof (Z.mod_le k (2 ^ j) ltac:(lia) ltac:(lia)). destruct (_ =? 0); lia.
Qed.

Lemma mag_nonneg p k : 0 < p -> 0 <= mag p k.
Proof.
  intros Hp. unfold mag. pose proof (Z.mod_pos_bound k (2 ^ p) ltac:(lia)).
  destruct (_ =? 0); [lia|]. apply Z.mul_nonneg_nonneg; [lia|]. apply Z.pow_nonneg. lia.
Qed.

(** C39. [ceil], [floor] and [trunc] on [float]: for every finite input, with
    or without arithmetic NaNs, the bit manipulation returns the integral float
    whose value is the input rounded up, down, or toward zero, with the sign of
    the input (so a zero result keeps it). *)
Theorem f32_rounding_correct n a :
  finite32 a ->
  (value32 (_eosio_f32_ceil n a) = - (- value32 a / one32) * one32 /\
   neg_sign 31 (_eosio_f32_ceil n a) = neg_sign 31 a) /\
  (value32 (_eosio_f32_floor n a) = value32 a / one32 * one32 /\
   neg_sign 31 (_eosio_f32_floor n a) = neg_sign 31 a) /\
  (value32 (_eosio_f32_trunc n a) = Z.quot (value32 a) one32 * one32 /\
   neg_sign 31 (_eosio_f32_trunc n a) = neg_sign 31 a).
Proof using Hbits.
  intros Ha. destruct (pat32_split a Ha) as (s & k & Hs & Hk & ->).
  rewrite ceil32_pat, floor32_pat, trunc32_pat by done.
  pose proof (toward_zero_bound 23 127 k ltac:(lia) ltac:(lia)) as Ht.
  pose proof (away32_bound k Hk) as Haw.
  destruct (value_pat32 s k Hs ltac:(lia)) as [-> ->].
  destruct (value_pat32 s (toward_zero 23 127 k) Hs ltac:(lia)) as [Vt St].
  destruct (value_pat32 s (away 23 127 k) Hs Haw) as [Va Sa].
  pose proof (one_pos 23 127 ltac:(lia) ltac:(lia)) as Hone.
  rewrite mag_toward_zero in Vt by lia. rewrite mag_away in Va by lia.
  fold one32 in *. pose proof (mag_nonneg 23 k ltac:(lia)) as Hmag.
  destruct Hs as [-> | ->]; simpl Z.eqb in *; cbv iota in *; rewrite Va, Vt, Sa, St.
  - rewrite Z.quot_div_nonneg by lia. repeat split; lia.
  - rewrite Z.opp_involutive, Z.quot_opp_l, Z.quot_div_nonneg by lia. repeat split; lia.
Qed.

Lemma trunc32_value n a :
  finite32 a -> value32 (_eosio_f32_trunc n a) = Z.quot (value32 a) one32 * one32.
Proof using Hbits.
  intros Ha. destruct (pat32_split a Ha) as (s & k & Hs & Hk & ->).
  rewrite trunc32_pat by done. pose proof (toward_zero_bound 23 127 k ltac:(lia) ltac:(lia)) as Ht.
  destruct (value_pat32 s k Hs ltac:(lia)) as [-> _].
  destruct (value_pat32 s (toward_zero 23 127 k) Hs ltac:(lia)) as [-> _].
  pose proof (one_pos 23 127 ltac:(lia) ltac:(lia)) as Hone. rewrite mag_toward_zero by lia. fold one32 in *.
  pose proof (mag_nonneg 23 k ltac:(lia)) as Hmag. destruct Hs as [-> | ->]; simpl Z.eqb; cbv iota.
  - by rewrite Z.quot_div_nonneg by lia.
  - rewrite Z.quot_opp_l, Z.quot_div_nonneg by lia. lia.
Qed.
Lemma trunc64_value n a :
  finite64 a ->
  value64 (_eosio_f64_trunc n a) = Z.quot (value64 a) one64 * one64 /\
  neg_sign 63 (_eosio_f64_trunc n a) = neg_sign 63 a.
Proof using Hbits.
  intros Ha. destruct (pat64_split a Ha) as (s & k & Hs & Hk & ->).
  rewrite trunc64_pat by done.
  pose proof (toward_zero_bound 52 1023 k ltac:(lia) ltac:(lia)) as Ht.
  destruct (value_pat64 s k Hs ltac:(lia)) as [-> ->].
  destruct (value_pat64 s (toward_zero 52 1023 k) Hs ltac:(lia)) as [Vt St].
  pose proof (one_pos 52 1023 ltac:(lia) ltac:(lia)) as Hone.
  rewrite mag_toward_zero in Vt by lia. fold one64 in *.
  pose proof (mag_nonneg 52 k ltac:(lia)) as Hmag.
  rewrite Vt, St. destruct Hs as [-> | ->]; simpl Z.eqb in *; cbv iota in *.
  - rewrite Z.quot_div_nonneg by lia. done.
  - rewrite Z.quot_opp_l, Z.quot_div_nonneg by lia. split; [lia|done].
Qed.
(** [trunc] on [double]: for every finite input the result is the value
    rounded toward zero, with the sign of the input. *)
Theorem f64_trunc_correct n a :
  finite64 a ->
  value64 (_eosio_f64_trunc n a) = Z.quot (value64 a) one64 * one64 /\
  neg_sign 63 (_eosio_f64_trunc n a) = neg_sign 63 a.
Proof using Hbits. apply trunc64_value. Qed.
End Rounding.

(** ** Comparisons, minimum and maximum *)
Section Compare.
Context `{sf : Softfloat} {Hbits : SoftfloatBits sf} {Hcmp : SoftfloatCompare sf}.

Lemma value_sign p T a : 0 < p -> if neg_sign T a then value p T a <= 0 else 0 <= value p T a.
Proof.
  intros Hp. unfold value. pose proof (mag_nonneg p (a mod 2 ^ T) Hp). destruct (neg_sign T a); lia.
Qed.

(** [min] and [max] on [float]: a NaN operand makes the result that NaN
    (made arithmetic when asked); otherwise the result is one of the operands,
    has the smaller (larger) value, and on zeros of different sign [min] returns
    the negative and [max] the positive one. *)
Theorem f32_min_max_correct n a b :
  in_u 32 a -> in_u 32 b ->
  let mn := _eosio_f32_min n a b in
  let mx := _eosio_f32_max n a b in
  (f32_is_nan a = true -> mn = propagate_nan32 n a /\ mx = propagate_nan32 n a) /\
  (f32_is_nan a = false -> f32_is_nan b = true ->
     mn = propagate_nan32 n b /\ mx = propagate_nan32 n b) /\
  (f32_is_nan a = false -> f32_is_nan b = false ->
     (mn = a \/ mn = b) /\ value32 mn = Z.min (value32 a) (value32 b) /\
     neg_sign 31 mn = neg_sign 31 a || neg_sign 31 b /\
     (mx = a \/ mx = b) /\ value32 mx = Z.max (value32 a) (value32 b) /\
     neg_sign 31 mx = neg_sign 31 a && neg_sign 31 b).
Proof using Hbits Hcmp.
  intros Ha Hb. unfold _eosio_f32_min, _eosio_f32_max.
  rewrite !to_softfloat32_id, !from_softfloat32_id. cbv zeta.
  split; [by intros ->|]. split; [by intros -> ->|].
  intros Na Nb. rewrite !f32_lt_spec, !f32_sign_bit_spec, Na, Nb by done. simpl negb. simpl andb.
  pose proof (value_sign 23 31 a ltac:(lia)) as Va. pose proof (value_sign 23 31 b ltac:(lia)) as Vb.
  fold value32 in Va, Vb.
  destruct (neg_sign 31 a) eqn:Sa, (neg_sign 31 b) eqn:Sb; simpl;
    destruct (Z.ltb_spec (value32 a) (value32 b)); rewrite ?Sa, ?Sb;
    split_and!; try done; try (by left); try (by right); lia.
Qed.

(** ** Range checks of the conversions *)
Lemma quot_lt v u n : 0 < u -> 0 < n -> Z.quot v u < n <-> v < n * u.
Proof.
  intros Hu Hn. destruct (Z.lt_ge_cases v 0).
  - pose proof (Z.quot_opp_l (- v) u ltac:(lia)) as E. rewrite Z.opp_involutive in E.
    pose proof (Z.quot_pos (- v) u ltac:(lia) ltac:(lia)). nia.
  - rewrite Z.quot_div_nonneg by lia. split; intros Hl.
    + pose proof (Z.div_mod v u ltac:(lia)). pose proof (Z.mod_pos_bound v u Hu). nia.
    + apply Z.div_lt_upper_bound; lia.
Qed.

Lemma quot_ge v u n : 0 < u -> 0 <= n -> - n <= Z.quot v u <-> - (n + 1) * u < v.
Proof.
  intros Hu Hn. pose proof (quot_lt (- v) u (n + 1) Hu ltac:(lia)) as Hq.
  rewrite Z.quot_opp_l in Hq by lia. lia.
Qed.

(** Above [2^p] every value is integral, so nothing lies strictly between
    [2^n] and [2^n + 1]. *)
Lemma mag_gap p B k n :
  0 < p -> 0 < B -> p <= n -> 2 ^ n * one p B < mag p k -> (2 ^ n + 1) * one p B <= mag p k.
Proof.
  intros Hp HB Hn Hlt. pose proof (one_pos p B Hp HB) as Ho.
  assert (He : B + p <= k / 2 ^ p).
  { destruct (Z.lt_ge_cases (k / 2 ^ p) (B + p)) as [He|]; [exfalso|done].
    pose proof (Z.mod_pos_bound k (2 ^ p) ltac:(lia)). unfold mag in Hlt.
    pose proof (Z.pow_le_mono_r 2 p n ltac:(lia) ltac:(lia)).
    destruct (Z.eqb_spec (k / 2 ^ p) 0).
    - nia.
    - assert (2 ^ (k / 2 ^ p - 1) <= 2 ^ (B + p - 2)) as Hle.
      { destruct (Z.lt_ge_cases (k / 2 ^ p - 1) 0); [|apply Z.pow_le_mono_r; lia].
        rewrite Z.pow_neg_r by lia. apply Z.pow_nonneg. lia. }
      pose proof (Z.pow_nonneg 2 (k / 2 ^ p - 1) ltac:(lia)).
      unfold one in *. replace (B + p - 1) with (1 + (B + p - 2)) in * by lia.
      rewrite Z.pow_add_r in * by lia. change (2 ^ 1) with 2 in *. nia. }
  pose proof (mag_integral p B Hp HB k He) as Hm.
  pose proof (Z.div_mod (mag p k) (one p B) ltac:(lia)) as Hd.
  set (q := mag p k / one p B) in *. assert (2 ^ n < q) by nia.
  rewrite Hd, Hm. nia.
Qed.

Lemma value_gap p B T a n :
  0 < p -> 0 < B -> p <= n ->
  - (2 ^ n + 1) * one p B < value p T a <-> - 2 ^ n * one p B <= value p T a.
Proof.
  intros Hp HB Hn. pose proof (one_pos p B Hp HB) as Ho.
  pose proof (mag_gap p B (a mod 2 ^ T) n Hp HB Hn) as Hg.
  pose proof (mag_nonneg p (a mod 2 ^ T) Hp). pose proof (Z.pow_nonneg 2 n ltac:(lia)).
  unfold value. destruct (neg_sign T a); nia.
Qed.

(** The integer a float truncates to. *)
Definition int_value32 (a : Z) : Z := Z.quot (value32 a) one32.
Definition int_value64 (a : Z) : Z := Z.quot (value64 a) one64.

Lemma int_value32_s32 a : in_s 32 (int_value32 a) <-> - 2 ^ 31 * one32 <= value32 a < 2 ^ 31 * one32.
Proof.
  unfold in_s, int_value32. pose proof (one_pos 23 127 ltac:(lia) ltac:(lia)) as Ho.
  rewrite quot_lt, quot_ge by (try apply Ho; lia).
  pose proof (value_gap 23 127 31 a 31 ltac:(lia) ltac:(lia) ltac:(lia)) as Hg.
  change (32 - 1) with 31. fold value32 in Hg. fold one32 in Hg. tauto.
Qed.

Lemma int_value32_s64 a : in_s 64 (int_value32 a) <-> - 2 ^ 63 * one32 <= value32 a < 2 ^ 63 * one32.
Proof.
  unfold in_s, int_value32. pose proof (one_pos 23 127 ltac:(lia) ltac:(lia)) as Ho.
  rewrite quot_lt, quot_ge by (try apply Ho; lia).
  pose proof (value_gap 23 127 31 a 63 ltac:(lia) ltac:(lia) ltac:(lia)) as Hg.
  change (64 - 1) with 63. fold value32 in Hg. fold one32 in Hg. tauto.
Qed.

Lemma int_value64_s64 a : in_s 64 (int_value64 a) <-> - 2 ^ 63 * one64 <= value64 a < 2 ^ 63 * one64.
Proof.
  unfold in_s, int_value64. pose proof (one_pos 52 1023 ltac:(lia) ltac:(lia)) as Ho.
  rewrite quot_lt, quot_ge by (try apply Ho; lia).
  pose proof (value_gap 52 1023 63 a 63 ltac:(lia) ltac:(lia) ltac:(lia)) as Hg.
  change (64 - 1) with 63. fold value64 in Hg. fold one64 in Hg. tauto.
Qed.

Lemma int_value64_s32 a :
  in_s 32 (int_value64 a) <-> - (2 ^ 31 + 1) * one64 < value64 a < 2 ^ 31 * one64.
Proof.
  unfold in_s, int_value64. pose proof (one_pos 52 1023 ltac:(lia) ltac:(lia)) as Ho.
  by rewrite quot_lt, quot_ge by (try apply Ho; lia).
Qed.

Lemma int_value32_u w a : 0 < w -> in_u w (int_value32 a) <-> - one32 < value32 a < 2 ^ w * one32.
Proof.
  intros Hw. unfold in_u, int_value32. pose proof (one_pos 23 127 ltac:(lia) ltac:(lia)) as Ho.
  fold one32 in Ho. pose proof (Z.pow_pos_nonneg 2 w ltac:(lia) ltac:(lia)).
  rewrite quot_lt by lia. pose proof (quot_ge (value32 a) one32 0 Ho ltac:(lia)). lia.
Qed.

Lemma int_value64_u w a : 0 < w -> in_u w (int_value64 a) <-> - one64 < value64 a < 2 ^ w * one64.
Proof.
  intros Hw. unfold in_u, int_value64. pose proof (one_pos 52 1023 ltac:(lia) ltac:(lia)) as Ho.
  fold one64 in Ho. pose proof (Z.pow_pos_nonneg 2 w ltac:(lia) ltac:(lia)).
  rewrite quot_lt by lia. pose proof (quot_ge (value64 a) one64 0 Ho ltac:(lia)). lia.
Qed.

(** A conversion that throws on NaN and outside a range, and otherwise returns
    [r]. *)
Definition traps_outside (nan : bool) (in_range : Prop) (r : Z) (o : outcome Z) : Prop :=
  (nan = true -> exists msg, o = Throw (wasm_interpreter_exception msg)) /\
  (nan = false -> in_range -> o = Ret r) /\
  (nan = false -> ~ in_range -> exists msg, o = Throw (wasm_interpreter_exception msg)).

Lemma traps_outside_intro nan (bad : bool) (in_range : Prop) r e1 e2 :
  (nan = true -> bad = false) -> (nan = false -> bad = false <-> in_range) ->
  traps_outside nan in_range r
    (EOS_VM_ASSERT (negb bad) (wasm_interpreter_exception e1);;
     EOS_VM_ASSERT (negb nan) (wasm_interpreter_exception e2);; Ret r).
Proof.
  intros H1 H2. unfold traps_outside. split_and!; intros ->.
  - rewrite H1 by done. by eexists.
  - intros Hr. apply H2 in Hr as ->; done.
  - intros Hr. destruct bad; [by eexists|]. destruct Hr. by apply H2.
Qed.

(** A literal that is a number. *)
Definition number32 (c : Z) : bool :=
  (0 <=? c) && (c <? 2 ^ 32) && (c mod 2 ^ 31 <=? 0x7F800000).

Lemma f32_traps a hi lo (strict : bool) P r e1 e2 :
  in_u 32 a -> number32 hi = true -> number32 lo = true ->
  (P <-> (if strict then value32 lo <= value32 a else value32 lo < value32 a) /\
          value32 a < value32 hi) ->
  traps_outside (f32_is_nan a) P r
    (EOS_VM_ASSERT (negb (_eosio_f32_ge a hi ||
        (if strict then _eosio_f32_lt a lo else _eosio_f32_le a lo))) (wasm_interpreter_exception e1);;
     EOS_VM_ASSERT (negb (f32_is_nan a)) (wasm_interpreter_exception e2);; Ret r).
Proof using Hbits Hcmp.
  unfold number32. intros Ha Hh Hl HP.
  assert (Hn : forall c, (0 <=? c) && (c <? 2 ^ 32) && (c mod 2 ^ 31 <=? 0x7F800000) = true ->
    in_u 32 c /\ f32_is_nan c = false).
  { intros c [[? ?]%andb_prop Hm]%andb_prop. destruct_bools.
    assert (in_u 32 c) by (unfold in_u; lia). split; [done|].
    rewrite f32_is_nan_spec by done. apply Z.ltb_ge. lia. }
  apply Hn in Hh as [Hh Nh]. apply Hn in Hl as [Hl Nl].
  unfold _eosio_f32_ge, _eosio_f32_lt, _eosio_f32_le.
  rewrite !to_softfloat32_id, !f32_lt_spec, !f32_le_spec, Nh, Nl by done.
  apply traps_outside_intro; intros ->; simpl; [by destruct strict|]. rewrite HP.
  destruct strict; rewrite orb_false_iff, negb_false_iff, Z.ltb_lt, ?Z.ltb_ge, ?Z.leb_gt; tauto.
Qed.

(** A literal that is a number. *)
Definition number64 (c : Z) : bool :=
  (0 <=? c) && (c <? 2 ^ 64) && (c mod 2 ^ 63 <=? 0x7FF0000000000000).

Lemma f64_traps a hi lo (strict : bool) P r e1 e2 :
  in_u 64 a -> number64 hi = true -> number64 lo = true ->
  (P <-> (if strict then value64 lo <= value64 a else value64 lo < value64 a) /\
          value64 a < value64 hi) ->
  traps_outside (f64_is_nan a) P r
    (EOS_VM_ASSERT (negb (_eosio_f64_ge a hi ||
        (if strict then _eosio_f64_lt a lo else _eosio_f64_le a lo))) (wasm_interpreter_exception e1);;
     EOS_VM_ASSERT (negb (f64_is_nan a)) (wasm_interpreter_exception e2);; Ret r).
Proof using Hbits Hcmp.
  unfold number64. intros Ha Hh Hl HP.
  assert (Hn : forall c, (0 <=? c) && (c <? 2 ^ 64) && (c mod 2 ^ 63 <=? 0x7FF0000000000000) = true ->
    in_u 64 c /\ f64_is_nan c = false).
  { intros c [[? ?]%andb_prop Hm]%andb_prop. destruct_bools.
    assert (in_u 64 c) by (unfold in_u; lia). split; [done|].
    rewrite f64_is_nan_spec by done. apply Z.ltb_ge. lia. }
  apply Hn in Hh as [Hh Nh]. apply Hn in Hl as [Hl Nl].
  unfold _eosio_f64_ge, _eosio_f64_lt, _eosio_f64_le.
  rewrite !to_softfloat64_id, !f64_lt_spec, !f64_le_spec, Nh, Nl by done.
  apply traps_outside_intro; intros ->; simpl; [by destruct strict|]. rewrite HP.
  destruct strict; rewrite orb_false_iff, negb_false_iff, Z.ltb_lt, ?Z.ltb_ge, ?Z.leb_gt; tauto.
Qed.

Lemma literals32 :
  value32 F32_2p31 = 2 ^ 31 * one32 /\ value32 F32_2p32 = 2 ^ 32 * one32 /\
  value32 F32_2p63 = 2 ^ 63 * one32 /\ value32 F32_2p64 = 2 ^ 64 * one32 /\
  value32 F32_m2p31 = - 2 ^ 31 * one32 /\ value32 F32_m2p63 = - 2 ^ 63 * one32 /\
  value32 F32_m1 = - one32.
Proof. vm_compute. tauto. Qed.

Lemma literals64 :
  value64 F64_2p31 = 2 ^ 31 * one64 /\ value64 F64_2p32 = 2 ^ 32 * one64 /\
  value64 F64_2p63 = 2 ^ 63 * one64 /\ value64 F64_2p64 = 2 ^ 64 * one64 /\
  value64 F64_m2p31m1 = - (2 ^ 31 + 1) * one64 /\ value64 F64_m2p63 = - 2 ^ 63 * one64 /\
  value64 F64_m1 = - one64 /\ value64 F64_m2p31 = - 2 ^ 31 * one64.
Proof. vm_compute. tauto. Qed.

(** *** The integer that is returned *)

(** The conversions of the library are exact: a float whose value is an integer of the
    result type is converted to it, whatever the rounding mode and the flag [exact]. *)
Definition converts32 (f : Z -> Z -> bool -> Z) (in_range : Z -> Prop) : Prop :=
  forall a mode exact, finite32 a -> value32 a mod one32 = 0 -> in_range (int_value32 a) -> f a mode exact = int_value32 a.
Definition converts64 (f : Z -> Z -> bool -> Z) (in_range : Z -> Prop) : Prop :=
  forall a mode exact, finite64 a -> value64 a mod one64 = 0 -> in_range (int_value64 a) -> f a mode exact = int_value64 a.
Class SoftfloatConvert (sf : Softfloat) : Prop := {
  f32_to_i32_spec : converts32 f32_to_i32 (in_s 32); f32_to_ui32_spec : converts32 f32_to_ui32 (in_u 32);
  f32_to_i64_spec : converts32 f32_to_i64 (in_s 64); f32_to_ui64_spec : converts32 f32_to_ui64 (in_u 64);
  f64_to_i32_spec : converts64 f64_to_i32 (in_s 32); f64_to_ui32_spec : converts64 f64_to_ui32 (in_u 32);
  f64_to_i64_spec : converts64 f64_to_i64 (in_s 64); f64_to_ui64_spec : converts64 f64_to_ui64 (in_u 64)
}.

(** An infinity is outside every integer type. *)
Lemma mag_large p B k n : 0 < p -> 0 < B -> n + B + p <= k / 2 ^ p -> 0 <= n -> 2 ^ n * one p B <= mag p k.
Proof.
  intros Hp HB Hk Hn. unfold mag, one. pose proof (Z.mod_pos_bound k (2 ^ p) ltac:(lia)).
  destruct (Z.eqb_spec (k / 2 ^ p) 0); [lia|].
  rewrite <- Z.pow_add_r by lia. pose proof (Z.pow_le_mono_r 2 (n + (B + p - 1)) (k / 2 ^ p - 1) ltac:(lia) ltac:(lia)).
  pose proof (Z.pow_pos_nonneg 2 p ltac:(lia) ltac:(lia)). nia.
Qed.
Lemma in_range_finite32 a : in_u 32 a -> Z.abs (int_value32 a) <= 2 ^ 64 -> finite32 a.
Proof.
  intros Ha Hi. split; [done|]. destruct (Z.lt_ge_cases (a mod 2 ^ 31) 0x7F800000) as [|Hk]; [done|exfalso].
  pose proof (mag_large 23 127 (a mod 2 ^ 31) 65 ltac:(lia) ltac:(lia)) as Hm.
  assert (255 <= a mod 2 ^ 31 / 2 ^ 23) by (apply Z.div_le_lower_bound; lia).
  specialize (Hm ltac:(lia) ltac:(lia)). unfold int_value32, value32, value in Hi. fold one32 in Hm.
  pose proof (one_pos 23 127 ltac:(lia) ltac:(lia)) as Ho. fold one32 in Ho.
  pose proof (Z.quot_le_mono (2 ^ 65 * one32) (mag 23 (a mod 2 ^ 31)) one32 Ho Hm) as Hq. rewrite Z.quot_mul in Hq by lia.
  destruct (neg_sign 31 a); rewrite ?Z.quot_opp_l in Hi by lia; lia.
Qed.
Lemma in_range_finite64 a : in_u 64 a -> Z.abs (int_value64 a) <= 2 ^ 64 -> finite64 a.
Proof.
  intros Ha Hi. split; [done|]. destruct (Z.lt_ge_cases (a mod 2 ^ 63) 0x7FF0000000000000) as [|Hk]; [done|exfalso].
  pose proof (mag_large 52 1023 (a mod 2 ^ 63) 65 ltac:(lia) ltac:(lia)) as Hm.
  assert (2047 <= a mod 2 ^ 63 / 2 ^ 52) by (apply Z.div_le_lower_bound; lia).
  specialize (Hm ltac:(lia) ltac:(lia)). unfold int_value64, value64, value in Hi. fold one64 in Hm.
  pose proof (one_pos 52 1023 ltac:(lia) ltac:(lia)) as Ho. fold one64 in Ho.
  pose proof (Z.quot_le_mono (2 ^ 65 * one64) (mag 52 (a mod 2 ^ 63)) one64 Ho Hm) as Hq. rewrite Z.quot_mul in Hq by lia.
  destruct (neg_sign 63 a); rewrite ?Z.quot_opp_l in Hi by lia; lia.
Qed.

(** [trunc] is finite, integral, and truncates to the same integer. *)
Lemma trunc32_int a : finite32 a ->
  let y := _eosio_f32_trunc false a in finite32 y /\ value32 y mod one32 = 0 /\ int_value32 y = int_value32 a.
Proof using Hbits.
  intros Ha y. pose proof (trunc32_value false a Ha) as Hv. fold y in Hv.
  pose proof (one_pos 23 127 ltac:(lia) ltac:(lia)) as Ho. fold one32 in Ho. split; [|split].
  - destruct (pat32_split a Ha) as (s & k & Hs & Hk & ->). unfold y. rewrite trunc32_pat by done.
    pose proof (toward_zero_bound 23 127 k ltac:(lia) ltac:(lia)). unfold finite32, in_u, pat32.
    split; [destruct Hs; subst; lia|]. rewrite Z.add_comm, Z.mod_add, Z.mod_small by lia. lia.
  - rewrite Hv. apply Z.mod_mul. lia.
  - unfold int_value32. rewrite Hv. apply Z.quot_mul. lia.
Qed.
Lemma trunc64_int a : finite64 a ->
  let y := _eosio_f64_trunc false a in finite64 y /\ value64 y mod one64 = 0 /\ int_value64 y = int_value64 a.
Proof using Hbits.
  intros Ha y. destruct (pat64_split a Ha) as (s & k & Hs & Hk & E).
  pose proof (trunc64_value false a Ha) as [Hv _]. fold y in Hv.
  pose proof (one_pos 52 1023 ltac:(lia) ltac:(lia)) as Ho. fold one64 in Ho. split; [|split].
  - unfold y. rewrite E, trunc64_pat by done.
    pose proof (toward_zero_bound 52 1023 k ltac:(lia) ltac:(lia)). unfold finite64, in_u, pat64.
    split; [destruct Hs; subst; lia|]. rewrite Z.add_comm, Z.mod_add, Z.mod_small by lia. lia.
  - rewrite Hv. apply Z.mod_mul. lia.
  - unfold int_value64. rewrite Hv. apply Z.quot_mul. lia.
Qed.

(** Inside the range the converted float is the truncated value. *)
Lemma traps_exact nan (P : Prop) r r' o : (P -> r = r') -> traps_outside nan P r o -> traps_outside nan P r' o.
Proof. intros E (H1 & H2 & H3). split_and!; try done. intros Hn HP. rewrite <- E by done. by apply H2. Qed.
Lemma converted32 f R a : (forall x, R x -> Z.abs x <= 2 ^ 64) -> converts32 f R -> in_u 32 a -> R (int_value32 a) ->
  f (_eosio_f32_trunc false a) 0 false = int_value32 a.
Proof using Hbits.
  intros HR Hf Ha Hr. destruct (trunc32_int a (in_range_finite32 a Ha (HR _ Hr))) as (H1 & H2 & H3).
  rewrite <- H3. apply Hf; [done|done|by rewrite H3].
Qed.
Lemma converted64 f R a : (forall x, R x -> Z.abs x <= 2 ^ 64) -> converts64 f R -> in_u 64 a -> R (int_value64 a) ->
  f (_eosio_f64_trunc false a) 0 false = int_value64 a.
Proof using Hbits.
  intros HR Hf Ha Hr. destruct (trunc64_int a (in_range_finite64 a Ha (HR _ Hr))) as (H1 & H2 & H3).
  rewrite <- H3. apply Hf; [done|done|by rewrite H3].
Qed.

(** C38. The trapping conversions decide representability exactly: each throws on
    NaN and when the truncated value is outside the target type (so on infinities too),
    and otherwise returns the truncated value.  The conversion of [double] to [int32_t]
    has a setting, which eosio_fp selects, with an older bound: it also throws between
    -2147483649 and -2147483648, whose values truncate to the least [int32_t]. *)
Theorem trunc_traps_exactly {Hconv : SoftfloatConvert sf} a b :
  in_u 32 a -> in_u 64 b ->
  let x := int_value32 a in
  let y := int_value64 b in
  traps_outside (f32_is_nan a) (in_s 32 x) x (_eosio_f32_trunc_i32s a) /\
  traps_outside (f32_is_nan a) (in_u 32 x) x (_eosio_f32_trunc_i32u a) /\
  traps_outside (f32_is_nan a) (in_s 64 x) x (_eosio_f32_trunc_i64s a) /\
  traps_outside (f32_is_nan a) (in_u 64 x) x (_eosio_f32_trunc_i64u a) /\
  traps_outside (f64_is_nan b) (in_s 32 y) y (_eosio_f64_trunc_i32s true b) /\
  traps_outside (f64_is_nan b) (in_s 32 y /\ - 2 ^ 31 * one64 <= value64 b) y (_eosio_f64_trunc_i32s false b) /\
  traps_outside (f64_is_nan b) (in_u 32 y) y (_eosio_f64_trunc_i32u b) /\
  traps_outside (f64_is_nan b) (in_s 64 y) y (_eosio_f64_trunc_i64s b) /\
  traps_outside (f64_is_nan b) (in_u 64 y) y (_eosio_f64_trunc_i64u b).
Proof using Hbits Hcmp.
  intros Ha Hb x y. subst x y.
  assert (Rs : forall w z, w = 32 \/ w = 64 -> in_s w z -> Z.abs z <= 2 ^ 64) by (intros w z [-> | ->]; unfold in_s; simpl; lia).
  assert (Ru : forall w z, w = 32 \/ w = 64 -> in_u w z -> Z.abs z <= 2 ^ 64) by (intros w z [-> | ->]; unfold in_u; lia).
  unfold _eosio_f32_trunc_i32s, _eosio_f32_trunc_i32u, _eosio_f32_trunc_i64s, _eosio_f32_trunc_i64u,
    _eosio_f64_trunc_i32s, _eosio_f64_trunc_i32u, _eosio_f64_trunc_i64s, _eosio_f64_trunc_i64u.
  rewrite !to_softfloat32_id, !to_softfloat64_id.
  split_and!;
    [ eapply traps_exact; [apply converted32; [by eauto|apply f32_to_i32_spec|done]|apply (f32_traps a F32_2p31 F32_m2p31 true)]
    | eapply traps_exact; [apply converted32; [by eauto|apply f32_to_ui32_spec|done]|apply (f32_traps a F32_2p32 F32_m1 false)]
    | eapply traps_exact; [apply converted32; [by eauto|apply f32_to_i64_spec|done]|apply (f32_traps a F32_2p63 F32_m2p63 true)]
    | eapply traps_exact; [apply converted32; [by eauto|apply f32_to_ui64_spec|done]|apply (f32_traps a F32_2p64 F32_m1 false)]
    | eapply traps_exact; [apply converted64; [by eauto|apply f64_to_i32_spec|done]|apply (f64_traps b F64_2p31 F64_m2p31m1 false)]
    | eapply traps_exact; [intros [Hr _]; revert Hr; apply converted64; [by eauto|apply f64_to_i32_spec|done]|apply (f64_traps b F64_2p31 F64_m2p31 true)]
    | eapply traps_exact; [apply converted64; [by eauto|apply f64_to_ui32_spec|done]|apply (f64_traps b F64_2p32 F64_m1 false)]
    | eapply traps_exact; [apply converted64; [by eauto|apply f64_to_i64_spec|done]|apply (f64_traps b F64_2p63 F64_m2p63 true)]
    | eapply traps_exact; [apply converted64; [by eauto|apply f64_to_ui64_spec|done]|apply (f64_traps b F64_2p64 F64_m1 false)] ]; try done; cbv iota;
    rewrite ?int_value32_s32, ?int_value32_s64, ?int_value64_s32, ?int_value64_s64,
      ?int_value32_u, ?int_value64_u by lia;
    destruct literals32 as (L1 & L2 & L3 & L4 & L5 & L6 & L7);
    destruct literals64 as (M1 & M2 & M3 & M4 & M5 & M6 & M7 & M8);
    rewrite ?L1, ?L2, ?L3, ?L4, ?L5, ?L6, ?L7, ?M1, ?M2, ?M3, ?M4, ?M5, ?M6, ?M7, ?M8; try apply iff_refl.
  clear -b. pose proof (one_pos 52 1023 ltac:(lia) ltac:(lia)) as Ho. fold one64 in Ho. lia.
Qed.
End Compare.
