(* ===== verification/FloatInstance.v ===== *)
(** * A concrete softfloat

    One executable instance of the [Softfloat] parameter, built on the
    Standard Library's [SpecFloat], for which the laws hold: it shows that the
    hypotheses of the floating-point theorems are satisfiable and lets the
    interpreter run. *)
From S2P Require Import Prelude Opcodes Softfloat FloatRounding.
From Stdlib Require Import Floats.SpecFloat.

(** [mw] fraction bits, [ew] exponent bits. *)
Section Format.
Context (mw ew : Z).
Definition prec : Z := mw + 1.
Definition emax : Z := 2 ^ (ew - 1).
Definition emin : Z := 3 - emax - prec.

Definition of_bits (x : Z) : spec_float :=
  let s := negb (x / 2 ^ (mw + ew) =? 0) in
  let e := (x mod 2 ^ (mw + ew)) / 2 ^ mw in
  let f := x mod 2 ^ mw in
  if e =? 2 ^ ew - 1 then (if f =? 0 then S754_infinity s else S754_nan)
  else if e =? 0 then
    match f with Zpos m => S754_finite s m emin | _ => S754_zero s end
  else match 2 ^ mw + f with Zpos m => S754_finite s m (e + emin - 1) | _ => S754_nan end.

Definition sign_bits (s : bool) : Z := if s then 2 ^ (mw + ew) else 0.

Definition to_bits (f : spec_float) : Z :=
  match f with
  | S754_zero s => sign_bits s
  | S754_infinity s => sign_bits s + (2 ^ ew - 1) * 2 ^ mw
  | S754_nan => (2 ^ ew - 1) * 2 ^ mw + 2 ^ (mw - 1)
  | S754_finite s m e =>
      sign_bits s + (if Zpos m <? 2 ^ mw then Zpos m
                     else (e - emin + 1) * 2 ^ mw + (Zpos m - 2 ^ mw))
  end.

Definition of_int (z : Z) : Z := to_bits (binary_normalize prec emax z 0 false).
Definition lift2 (op : Z -> Z -> spec_float -> spec_float -> spec_float) (a b : Z) : Z :=
  to_bits (op prec emax (of_bits a) (of_bits b)).
Definition round_to (f : spec_float) : Z :=
  match f with
  | S754_finite s m e => to_bits (binary_normalize prec emax (if s then Zneg m else Zpos m) e s)
  | _ => to_bits f
  end.
End Format.

(** The nearest integer to [v / u], ties to even. *)
Definition nearest_even (v u : Z) : Z :=
  let q := v / u in let r := v mod u in
  if (2 * r <? u) || ((2 * r =? u) && Z.even q) then q else q + 1.

Definition nan32 (a : Z) : bool := 0x7F800000 <? a mod 2 ^ 31.
Definition nan64 (a : Z) : bool := 0x7FF0000000000000 <? a mod 2 ^ 63.

#[export] Instance reference_softfloat : Softfloat := {|
  to_softfloat32 a := a; from_softfloat32 a := a;
  to_softfloat64 a := a; from_softfloat64 a := a;
  f32_is_nan := nan32; f64_is_nan := nan64;
  f32_sign_bit := neg_sign 31; f64_sign_bit := neg_sign 63;
  f32_add := lift2 23 8 SFadd; f32_sub := lift2 23 8 SFsub;
  f32_mul := lift2 23 8 SFmul; f32_div := lift2 23 8 SFdiv;
  f32_sqrt a := to_bits 23 8 (SFsqrt (prec 23) (emax 8) (of_bits 23 8 a));
  f32_eq a b := negb (nan32 a) && negb (nan32 b) && (value32 a =? value32 b);
  f32_lt a b := negb (nan32 a) && negb (nan32 b) && (value32 a <? value32 b);
  f32_le a b := negb (nan32 a) && negb (nan32 b) && (value32 a <=? value32 b);
  f64_add := lift2 52 11 SFadd; f64_sub := lift2 52 11 SFsub;
  f64_mul := lift2 52 11 SFmul; f64_div := lift2 52 11 SFdiv;
  f64_sqrt a := to_bits 52 11 (SFsqrt (prec 52) (emax 11) (of_bits 52 11 a));
  f64_eq a b := negb (nan64 a) && negb (nan64 b) && (value64 a =? value64 b);
  f64_lt a b := negb (nan64 a) && negb (nan64 b) && (value64 a <? value64 b);
  f64_le a b := negb (nan64 a) && negb (nan64 b) && (value64 a <=? value64 b);
  f32_to_f64 a := round_to 52 11 (of_bits 23 8 a);
  f64_to_f32 a := round_to 23 8 (of_bits 52 11 a);
  f32_to_i32 a _ _ := nearest_even (value32 a) one32;
  f32_to_ui32 a _ _ := nearest_even (value32 a) one32;
  f32_to_i64 a _ _ := nearest_even (value32 a) one32;
  f32_to_ui64 a _ _ := nearest_even (value32 a) one32;
  f64_to_i32 a _ _ := nearest_even (value64 a) one64;
  f64_to_ui32 a _ _ := nearest_even (value64 a) one64;
  f64_to_i64 a _ _ := nearest_even (value64 a) one64;
  f64_to_ui64 a _ _ := nearest_even (value64 a) one64;
  f32_to_i32_r_minMag a _ := int_value32 a; f32_to_ui32_r_minMag a _ := int_value32 a;
  f32_to_i64_r_minMag a _ := int_value32 a; f32_to_ui64_r_minMag a _ := int_value32 a;
  f64_to_i32_r_minMag a _ := int_value64 a; f64_to_ui32_r_minMag a _ := int_value64 a;
  f64_to_i64_r_minMag a _ := int_value64 a; f64_to_ui64_r_minMag a _ := int_value64 a;
  i32_to_f32 := of_int 23 8; i64_to_f32 := of_int 23 8;
  ui32_to_f32 := of_int 23 8; ui64_to_f32 := of_int 23 8;
  i32_to_f64 := of_int 52 11; i64_to_f64 := of_int 52 11;
  ui32_to_f64 := of_int 52 11; ui64_to_f64 := of_int 52 11
|}.

#[export] Instance reference_bits : SoftfloatBits reference_softfloat.
Proof. constructor; done. Qed.

#[export] Instance reference_compare : SoftfloatCompare reference_softfloat.
Proof. constructor; done. Qed.

Lemma nearest_even_exact v u : 0 < u -> v mod u = 0 -> nearest_even v u = Z.quot v u.
Proof.
  intros Hu Hv. unfold nearest_even. rewrite Hv, (proj2 (Z.ltb_lt _ _)) by lia. simpl.
  symmetry. apply Z.quot_div_exact; [lia|by apply Z.mod_divide; [lia|]].
Qed.
#[export] Instance reference_convert : SoftfloatConvert reference_softfloat.
Proof.
  pose proof (one_pos 23 127 ltac:(lia) ltac:(lia)). pose proof (one_pos 52 1023 ltac:(lia) ltac:(lia)).
  constructor; intros a mode exact _ Ha _; by apply nearest_even_exact.
Qed.

(** ** Witnesses of the floating-point properties *)

Ltac by_bounds := repeat split; vm_compute; (reflexivity || discriminate).

(** 2.5 *)
Lemma f32_rounding_correct_witness :
  _eosio_f32_ceil false 0x40200000 = 0x40400000 /\
  value32 (_eosio_f32_ceil false 0x40200000) = 3 * one32.
Proof.
  split; [reflexivity|].
  rewrite (proj1 (proj1 (f32_rounding_correct false 0x40200000 ltac:(by_bounds)))).
  vm_compute. reflexivity.
Defined.

(** -2.5 *)
Lemma f64_trunc_correct_witness :
  value64 (_eosio_f64_trunc true 0xC004000000000000) = -2 * one64.
Proof.
  rewrite (proj1 (f64_trunc_correct true 0xC004000000000000 ltac:(by_bounds))). vm_compute. reflexivity.
Defined.

(** min(-0, +0) is -0. *)
Lemma f32_min_max_correct_witness :
  neg_sign 31 (_eosio_f32_min false F32_m0 0) = true /\ F32_m0 <> 0.
Proof.
  split; [|discriminate].
  destruct (f32_min_max_correct false F32_m0 0 ltac:(by_bounds) ltac:(by_bounds)) as (_ & _ & H).
  destruct (H eq_refl eq_refl) as (_ & _ & Hs & _). rewrite Hs. reflexivity.
Defined.

(** -2147483648.5 truncates to the least [int32_t], but traps with the old bound; 2^31 traps. *)
Lemma trunc_traps_exactly_witness :
  _eosio_f64_trunc_i32s true 0xC1E0000000100000 = Ret (- 2 ^ 31) /\
  (exists msg, _eosio_f64_trunc_i32s false 0xC1E0000000100000 = Throw (wasm_interpreter_exception msg)) /\
  exists msg, _eosio_f32_trunc_i32s F32_2p31 = Throw (wasm_interpreter_exception msg).
Proof.
  destruct (trunc_traps_exactly F32_2p31 0xC1E0000000100000) as ((_ & _ & H1) & _ & _ & _ & (_ & H2 & _) & (_ & _ & H3) & _);
    [by_bounds|by_bounds|].
  split; [|split].
  - rewrite H2; [vm_compute; reflexivity|reflexivity|by_bounds].
  - apply H3; [reflexivity|]. vm_compute. intros [_ H]. apply H. reflexivity.
  - apply H1; [reflexivity|]. vm_compute. intros [_ H]. discriminate.
Defined.
