(* ===== verification/Simd.v ===== *)
(** * 128-bit vectors (interpret_visitor.hpp, softfloat.hpp)

    A [v128_t] is read as an array of lanes of an integer type ([ity]) and
    written back from one, as the [memcpy]s of the source do.  The lambdas of the
    handlers are functions on C++ integers; arithmetic on promoted operands goes
    through [int_expr], so signed overflow shows as undefined behaviour. *)
From S2P Require Import Prelude Opcodes Softfloat.
Import Op(v128_t, V128, low, high).

(** ** Lane types *)
Record ity : Type := Ity { signed : bool; bits : Z }.
Definition I8 := Ity true 8.
Definition U8 := Ity false 8.
Definition I16 := Ity true 16.
Definition U16 := Ity false 16.
Definition I32 := Ity true 32.
Definition U32 := Ity false 32.
Definition I64 := Ity true 64.
Definition U64 := Ity false 64.

(** Conversion of an integer to the type. *)
Definition conv (t : ity) (x : Z) : Z := if signed t then sext (bits t) x else wrap (bits t) x.

Definition lanes_of (t : ity) : nat := Z.to_nat (128 / bits t).

(** The vector as one integer, lane 0 at the low end. *)
Definition to_bits128 (v : v128_t) : Z := low v + 2 ^ 64 * high v.
Definition of_bits128 (x : Z) : v128_t := V128 (wrap 64 x) (wrap 64 (Z.shiftr x 64)).

(** [A a; memcpy(&a, &v, 16)] *)
Definition get_lanes (t : ity) (v : v128_t) : list Z :=
  (fun i => conv t (Z.shiftr (to_bits128 v) (bits t * Z.of_nat i))) <$> seq 0 (lanes_of t).

(** The integer with the given lanes of [w] bits. *)
Fixpoint join (w : Z) (l : list Z) : Z :=
  match l with [] => 0 | x :: l => wrap w x + 2 ^ w * join w l end.

(** [memcpy(&res, &r, 16)]; storing into a lane narrows to its type. *)
Definition put_lanes (t : ity) (l : list Z) : v128_t := of_bits128 (join (bits t) l).

(** ** The array combinators: [A] is the lane type read, [R] the one written;
    the lambda converts its arguments to its parameter types itself. *)
Definition unop_array (A R : ity) (f : list Z -> outcome (list Z)) (c1 : v128_t) : outcome v128_t :=
  r ← f (get_lanes A c1); Ret (put_lanes R r).
Definition binop_array (A R : ity) (f : list Z -> list Z -> outcome (list Z)) (c1 c2 : v128_t)
  : outcome v128_t :=
  r ← f (get_lanes A c1) (get_lanes A c2); Ret (put_lanes R r).

(** [v128_unop<A>], [v128_binop<A>], [v128_ternop<A>] *)
Definition unop_lanes (A : ity) (f : Z -> outcome Z) : v128_t -> outcome v128_t :=
  unop_array A A (map_outcome f).
Definition binop_lanes (A : ity) (f : Z -> Z -> outcome Z) : v128_t -> v128_t -> outcome v128_t :=
  binop_array A A (map2_outcome f).
Definition ternop_lanes (A : ity) (f : Z -> Z -> Z -> outcome Z) (c1 c2 c3 : v128_t)
  : outcome v128_t :=
  r ← map3_outcome f (get_lanes A c1) (get_lanes A c2) (get_lanes A c3); Ret (put_lanes A r).

(** [v128_narrow<A, R>] *)
Definition narrow (A R : ity) (f : Z -> outcome Z) : v128_t -> v128_t -> outcome v128_t :=
  binop_array A R (fun a b => r1 ← map_outcome f a; r2 ← map_outcome f b; Ret (r1 ++ r2)).

(** The lanes the widening operations read: the low or the high half. *)
Definition half (high : bool) (n : nat) (l : list Z) : list Z :=
  take n (if high then drop n l else l).

(** [v128_extend<A, R>(high)] *)
Definition extend (A R : ity) (high : bool) : v128_t -> outcome v128_t :=
  unop_array A R (fun a => Ret (half high (lanes_of R) a)).

(** An addition or a multiplication of C++ integers of the type [t] after the
    usual promotions: in [int] for narrow types, modulo [2^w] for unsigned ones. *)
Definition arith (t : ity) (x : Z) : outcome Z :=
  if bits t <? 32 then int_expr 32 x
  else if signed t then int_expr (bits t) x else Ret (wrap (bits t) x).

Fixpoint pairwise (f : Z -> Z -> outcome Z) (l : list Z) : outcome (list Z) :=
  match l with
  | a :: b :: l => x ← f a b; xs ← pairwise f l; Ret (x :: xs)
  | _ => Ret []
  end.

(** [v128_extadd_pairwise<A, R>], [v128_extmul<A, R>(high)] *)
Definition extadd_pairwise (A R : ity) : v128_t -> outcome v128_t :=
  unop_array A R (pairwise (fun a b => arith R (conv R a + b))).
Definition extmul (A R : ity) (high : bool) : v128_t -> v128_t -> outcome v128_t :=
  binop_array A R (fun a b =>
    map2_outcome (fun x y => arith R (conv R x * y))
      (half high (lanes_of R) a) (half high (lanes_of R) b)).

(** ** The lambdas *)
Definition cmp (b : bool) : outcome Z := Ret (if b then -1 else 0).

(** [auto r = ...; if(r < lo) return lo; else if(r > hi) return hi; else return r;] *)
Definition clamp (lo hi r : Z) : Z := if r <? lo then lo else if hi <? r then hi else r.
Definition sat (lo hi : Z) (r : outcome Z) : outcome Z := r ← r; Ret (clamp lo hi r).

Definition abs_lane (t : ity) (a : Z) : outcome Z :=
  let a := conv t a in if a <? 0 then int_expr (Z.max 32 (bits t)) (- a) else Ret a.

Definition min_lane (a b : Z) : outcome Z := Ret (if a <? b then a else b).
Definition max_lane (a b : Z) : outcome Z := Ret (if a <? b then b else a).
Definition avgr_lane (a b : Z) : outcome Z := s ← int_expr 32 (a + b + 1); Ret (Z.quot s 2).

(** [uint16_t tmp = (static_cast<int32_t>(a) * b + 0x4000) >> 15; if(tmp == 0x8000) ...] *)
Definition q15mulr_lane (a b : Z) : outcome Z :=
  p ← int_expr 32 (conv I16 a * conv I16 b);
  s ← int_expr 32 (p + 0x4000);
  let tmp := wrap 16 (Z.shiftr s 15) in
  Ret (if tmp =? 0x8000 then 0x7fff else tmp).

(** [__builtin_popcount] *)
Definition popcount (w x : Z) : Z :=
  fold_right (fun i n => n + b2z (Z.testbit x (Z.of_nat i))) 0 (seq 0 (Z.to_nat w)).

Definition dot_lanes (a b : list Z) : outcome (list Z) :=
  p ← map2_outcome (fun x y => int_expr 32 (x * y)) a b;
  pairwise (fun p1 p2 => int_expr 32 (p1 + p2)) p.

(** [v128_unop_i32] lambdas *)
Definition any_true_lanes (l : list Z) : Z :=
  fold_left (fun result a => if negb (a =? 0) then 1 else result) l 0.
Definition all_true_lanes (l : list Z) : Z :=
  fold_left (fun result a => if a =? 0 then 0 else result) l 1.
Definition bitmask_lanes (l : list Z) : Z :=
  fold_left (fun result '(i, a) => Z.lor result (Z.shiftl (b2z (a <? 0)) i))
    (zip (seqZ 0 (Z.of_nat (length l))) l) 0.

(** [a[laneidx]] *)
Definition extract_lane (A : ity) (laneidx : Z) (c : v128_t) : outcome Z :=
  or_UB "lane index out of range" (nthZ (get_lanes A c) laneidx).
Definition replace_lane (A : ity) (laneidx x : Z) (c : v128_t) : outcome v128_t :=
  l ← or_UB "lane index out of range" (insZ (get_lanes A c) laneidx x);
  Ret (put_lanes A l).
Definition splat (A : ity) (x : Z) : v128_t := put_lanes A (replicate (lanes_of A) x).

(** [i8x16_shuffle], [i8x16_swizzle] *)
Definition shuffle (lanes : list Z) (c1 c2 : v128_t) : outcome v128_t :=
  r ← map_outcome (fun i => or_UB "lane index out of range"
        (nthZ (get_lanes U8 c1 ++ get_lanes U8 c2) i)) lanes;
  Ret (put_lanes U8 r).
Definition swizzle (c1 c2 : v128_t) : outcome v128_t :=
  r ← map_outcome (fun i => if i <? 16 then
        or_UB "lane index out of range" (nthZ (get_lanes U8 c1) i) else Ret 0) (get_lanes U8 c2);
  Ret (put_lanes U8 r).

(** ** Floating-point lanes (softfloat.hpp): [T] is the parameter type of the
    applied function, [R] its result type. *)
Definition apply_unop (T R : ity) (f : Z -> Z) (a : v128_t) : v128_t :=
  put_lanes R (f <$> get_lanes T a).
Definition apply_binop (T R : ity) (f : Z -> Z -> Z) (a b : v128_t) : v128_t :=
  put_lanes R (zip_with f (get_lanes T a) (get_lanes T b)).
(** [apply_f64x2_zero]: two results, then two zero lanes *)
Definition apply_zero (T R : ity) (f : Z -> Z) (a : v128_t) : v128_t :=
  put_lanes R ((f <$> get_lanes T a) ++ [0; 0]).
(** [apply_f32x4_low]: the two low lanes *)
Definition apply_low (T R : ity) (f : Z -> Z) (a : v128_t) : v128_t :=
  put_lanes R (f <$> take 2 (get_lanes T a)).

Section FloatLanes.
Context `{sf : Softfloat}.
Definition cmp_lane (b : bool) : Z := if b then -1 else 0.

Definition _eosio_f32x4_eq : v128_t -> v128_t -> v128_t :=
  apply_binop U32 I32 (fun a b => cmp_lane (f32_eq a b)).
Definition _eosio_f32x4_ne : v128_t -> v128_t -> v128_t :=
  apply_binop U32 I32 (fun a b => cmp_lane (negb (f32_eq a b))).
Definition _eosio_f32x4_lt : v128_t -> v128_t -> v128_t :=
  apply_binop U32 I32 (fun a b => cmp_lane (f32_lt a b)).
Definition _eosio_f32x4_gt : v128_t -> v128_t -> v128_t :=
  apply_binop U32 I32 (fun a b => cmp_lane (f32_lt b a)).
Definition _eosio_f32x4_le : v128_t -> v128_t -> v128_t :=
  apply_binop U32 I32 (fun a b => cmp_lane (f32_le a b)).
Definition _eosio_f32x4_ge : v128_t -> v128_t -> v128_t :=
  apply_binop U32 I32 (fun a b => cmp_lane (f32_le b a)).
Definition _eosio_f32x4_ceil : v128_t -> v128_t := apply_unop U32 U32 (_eosio_f32_ceil true).
Definition _eosio_f32x4_floor : v128_t -> v128_t := apply_unop U32 U32 (_eosio_f32_floor true).
Definition _eosio_f32x4_trunc : v128_t -> v128_t := apply_unop U32 U32 (_eosio_f32_trunc true).
Definition _eosio_f32x4_nearest : v128_t -> v128_t := apply_unop U32 U32 (_eosio_f32_nearest true).
Definition _eosio_f32x4_abs : v128_t -> v128_t := apply_unop U32 U32 _eosio_f32_abs.
Definition _eosio_f32x4_neg : v128_t -> v128_t := apply_unop U32 U32 _eosio_f32_neg.
Definition _eosio_f32x4_sqrt : v128_t -> v128_t := apply_unop U32 U32 _eosio_f32_sqrt.
Definition _eosio_f32x4_add : v128_t -> v128_t -> v128_t := apply_binop U32 U32 f32_add.
Definition _eosio_f32x4_sub : v128_t -> v128_t -> v128_t := apply_binop U32 U32 f32_sub.
Definition _eosio_f32x4_mul : v128_t -> v128_t -> v128_t := apply_binop U32 U32 f32_mul.
Definition _eosio_f32x4_div : v128_t -> v128_t -> v128_t := apply_binop U32 U32 f32_div.
Definition _eosio_f32x4_min : v128_t -> v128_t -> v128_t := apply_binop U32 U32 (_eosio_f32_min true).
Definition _eosio_f32x4_max : v128_t -> v128_t -> v128_t := apply_binop U32 U32 (_eosio_f32_max true).
Definition _eosio_f32x4_pmin : v128_t -> v128_t -> v128_t :=
  apply_binop U32 U32 (fun a b => if f32_lt b a then b else a).
Definition _eosio_f32x4_pmax : v128_t -> v128_t -> v128_t :=
  apply_binop U32 U32 (fun a b => if f32_lt a b then b else a).
Definition _eosio_f64x2_eq : v128_t -> v128_t -> v128_t :=
  apply_binop U64 I64 (fun a b => cmp_lane (f64_eq a b)).
Definition _eosio_f64x2_ne : v128_t -> v128_t -> v128_t :=
  apply_binop U64 I64 (fun a b => cmp_lane (negb (f64_eq a b))).
Definition _eosio_f64x2_lt : v128_t -> v128_t -> v128_t :=
  apply_binop U64 I64 (fun a b => cmp_lane (f64_lt a b)).
Definition _eosio_f64x2_gt : v128_t -> v128_t -> v128_t :=
  apply_binop U64 I64 (fun a b => cmp_lane (f64_lt b a)).
Definition _eosio_f64x2_le : v128_t -> v128_t -> v128_t :=
  apply_binop U64 I64 (fun a b => cmp_lane (f64_le a b)).
Definition _eosio_f64x2_ge : v128_t -> v128_t -> v128_t :=
  apply_binop U64 I64 (fun a b => cmp_lane (f64_le b a)).
Definition _eosio_f64x2_ceil : v128_t -> v128_t := apply_unop U64 U64 (_eosio_f64_ceil true).
Definition _eosio_f64x2_floor : v128_t -> v128_t := apply_unop U64 U64 (_eosio_f64_floor true).
Definition _eosio_f64x2_trunc : v128_t -> v128_t := apply_unop U64 U64 (_eosio_f64_trunc true).
Definition _eosio_f64x2_nearest : v128_t -> v128_t := apply_unop U64 U64 (_eosio_f64_nearest true).
Definition _eosio_f64x2_abs : v128_t -> v128_t := apply_unop U64 U64 _eosio_f64_abs.
Definition _eosio_f64x2_neg : v128_t -> v128_t := apply_unop U64 U64 _eosio_f64_neg.
Definition _eosio_f64x2_sqrt : v128_t -> v128_t := apply_unop U64 U64 _eosio_f64_sqrt.
Definition _eosio_f64x2_add : v128_t -> v128_t -> v128_t := apply_binop U64 U64 f64_add.
Definition _eosio_f64x2_sub : v128_t -> v128_t -> v128_t := apply_binop U64 U64 f64_sub.
Definition _eosio_f64x2_mul : v128_t -> v128_t -> v128_t := apply_binop U64 U64 f64_mul.
Definition _eosio_f64x2_div : v128_t -> v128_t -> v128_t := apply_binop U64 U64 f64_div.
Definition _eosio_f64x2_min : v128_t -> v128_t -> v128_t := apply_binop U64 U64 (_eosio_f64_min true).
Definition _eosio_f64x2_max : v128_t -> v128_t -> v128_t := apply_binop U64 U64 (_eosio_f64_max true).
Definition _eosio_f64x2_pmin : v128_t -> v128_t -> v128_t :=
  apply_binop U64 U64 (fun a b => if f64_lt b a then b else a).
Definition _eosio_f64x2_pmax : v128_t -> v128_t -> v128_t :=
  apply_binop U64 U64 (fun a b => if f64_lt a b then b else a).
Definition _eosio_i32x4_trunc_sat_f32x4_s : v128_t -> v128_t := apply_unop U32 I32 _eosio_i32_trunc_sat_f32_s.
Definition _eosio_i32x4_trunc_sat_f32x4_u : v128_t -> v128_t := apply_unop U32 U32 _eosio_i32_trunc_sat_f32_u.
Definition _eosio_f32x4_convert_i32x4_s : v128_t -> v128_t := apply_unop I32 U32 _eosio_i32_to_f32.
Definition _eosio_f32x4_convert_i32x4_u : v128_t -> v128_t := apply_unop U32 U32 _eosio_ui32_to_f32.
Definition _eosio_i32x4_trunc_sat_f64x2_s_zero : v128_t -> v128_t := apply_zero U64 I32 _eosio_i32_trunc_sat_f64_s.
Definition _eosio_i32x4_trunc_sat_f64x2_u_zero : v128_t -> v128_t := apply_zero U64 U32 _eosio_i32_trunc_sat_f64_u.
Definition _eosio_f64x2_convert_low_i32x4_s : v128_t -> v128_t := apply_low I32 U64 _eosio_i32_to_f64.
Definition _eosio_f64x2_convert_low_i32x4_u : v128_t -> v128_t := apply_low U32 U64 _eosio_ui32_to_f64.
Definition _eosio_f32x4_demote_f64x2_zero : v128_t -> v128_t := apply_zero U64 U32 _eosio_f64_demote.
Definition _eosio_f64x2_promote_low_f32x4 : v128_t -> v128_t := apply_low U32 U64 _eosio_f32_promote.
End FloatLanes.
