(* ===== verification/Interpreter.v ===== *)
(** * The interpreter (interpret_visitor.hpp)

    One handler per instruction family, each a computation on the execution
    context that reads as the visitor's [operator()]s do: the program counter is
    advanced, operands are popped, the top of the stack is updated in place.  The
    template helpers of the visitor are the combinators of the first part.
    [use_softfloat] is on and [should_align_memory_ops] off, the defaults of
    config.hpp.  A group that covers only part of a family returns [None] for the
    other instructions. *)
From S2P Require Import Prelude WasmStack Allocator Opcodes Types LinearMemory ExecContext Softfloat Simd.
Import Op(opcode, v128_t, V128).

Section Interpreter.
Context `{sys : Sys} `{sf : Softfloat} (m : module) (_rhf : Z -> M ctx unit).

Abbreviation interp_error msg := (wasm_interpreter_exception msg).

(** ** Combinators *)

(** Storing an integer in a 32- or 64-bit member. *)
Definition mk_i32 (x : Z) : operand_stack_elem := i32_const_t (wrap 32 x).
Definition mk_i64 (x : Z) : operand_stack_elem := i64_const_t (wrap 64 x).
Definition mk_f32 (x : Z) : operand_stack_elem := f32_const_t (wrap 32 x).
Definition mk_f64 (x : Z) : operand_stack_elem := f64_const_t (wrap 64 x).

(** [auto& oper = context.peek_operand(); oper = R{f(oper.get())}] *)
Definition unop {A} (get : operand_stack_elem -> outcome A) (f : A -> outcome operand_stack_elem)
  : M ctx unit :=
  inc_pc;;
  oper ← peek_operand 0;
  a ← lift (get oper);
  r ← lift (f a);
  set_top r.

(** [const auto& rhs = context.pop_operand().get(); auto& lhs = context.peek_operand(); ...] *)
Definition binop {A B} (get_l : operand_stack_elem -> outcome A) (get_r : operand_stack_elem -> outcome B)
    (f : A -> B -> outcome operand_stack_elem) : M ctx unit :=
  inc_pc;;
  rhs ← pop_operand;
  rhs ← lift (get_r rhs);
  lhs ← peek_operand 0;
  lhs ← lift (get_l lhs);
  r ← lift (f lhs rhs);
  set_top r.

Definition un_i32 (f : Z -> Z) : M ctx unit := unop to_ui32 (fun a => Ret (mk_i32 (f a))).
Definition un_i64 (f : Z -> Z) : M ctx unit := unop to_ui64 (fun a => Ret (mk_i64 (f a))).
Definition un_f32 (f : Z -> Z) : M ctx unit := unop to_fui32 (fun a => Ret (mk_f32 (f a))).
Definition un_f64 (f : Z -> Z) : M ctx unit := unop to_fui64 (fun a => Ret (mk_f64 (f a))).
Definition bin_i32 (f : Z -> Z -> Z) : M ctx unit :=
  binop to_ui32 to_ui32 (fun a b => Ret (mk_i32 (f a b))).
Definition bin_i64 (f : Z -> Z -> Z) : M ctx unit :=
  binop to_ui64 to_ui64 (fun a b => Ret (mk_i64 (f a b))).
Definition bin_f32 (f : Z -> Z -> Z) : M ctx unit :=
  binop to_fui32 to_fui32 (fun a b => Ret (mk_f32 (f a b))).
Definition bin_f64 (f : Z -> Z -> Z) : M ctx unit :=
  binop to_fui64 to_fui64 (fun a b => Ret (mk_f64 (f a b))).
(** comparisons; [get] fixes the signedness *)
Definition compare (get : operand_stack_elem -> outcome Z) (f : Z -> Z -> bool) : M ctx unit :=
  binop get get (fun a b => Ret (mk_i32 (b2z (f a b)))).

(** [context.pop_operand().to_v128()] *)
Definition pop_v128 : M ctx v128_t := e ← pop_operand; lift (to_v128 e).
Definition pop_ui32 : M ctx Z := e ← pop_operand; lift (to_ui32 e).
Definition push_v128 (v : v128_t) : M ctx unit := push_operand (v128_const_t v).

(** [v128_unop], [v128_binop], [v128_ternop], [v128_unop_i32] *)
Definition v128_unop (f : v128_t -> outcome v128_t) : M ctx unit :=
  inc_pc;; c1 ← pop_v128; r ← lift (f c1); push_v128 r.
Definition v128_binop (f : v128_t -> v128_t -> outcome v128_t) : M ctx unit :=
  inc_pc;; c2 ← pop_v128; c1 ← pop_v128; r ← lift (f c1 c2); push_v128 r.
Definition v128_ternop (f : v128_t -> v128_t -> v128_t -> outcome v128_t) : M ctx unit :=
  inc_pc;; c3 ← pop_v128; c2 ← pop_v128; c1 ← pop_v128; r ← lift (f c1 c2 c3); push_v128 r.
Definition v128_unop_i32 (A : ity) (f : list Z -> Z) : M ctx unit :=
  inc_pc;; c1 ← pop_v128; push_operand (mk_i32 (f (get_lanes A c1))).
(** a shift pops its count before the vector operation starts *)
Definition v128_shift (A : ity) (mask : Z) (f : Z -> Z -> outcome Z) : M ctx unit :=
  n ← pop_ui32; v128_unop (unop_lanes A (fun a => f a (Z.land n mask))).

(** [pop_memop_addr]: the address relative to the memory base *)
Definition pop_memop_addr (offset : Z) : M ctx Z :=
  ptr ← pop_operand; p ← lift (to_ui32 ptr); mret (offset + p).
Definition read_mem (n : nat) (a : Z) : M ctx Z :=
  wa ← gets _wasm_alloc; lift (read_unaligned n a wa).
Definition write_mem (n : nat) (a v : Z) : M ctx unit :=
  wa ← gets _wasm_alloc; wa ← lift (write_unaligned n a v wa); modify (set_wasm_alloc wa).

(** a load: [mk] converts the little-endian integer read *)
Definition load (n : nat) (mk : Z -> operand_stack_elem) (offset : Z) : M ctx unit :=
  inc_pc;; a ← pop_memop_addr offset; v ← read_mem n a; push_operand (mk v).
Definition store (n : nat) (get : operand_stack_elem -> outcome Z) (offset : Z) : M ctx unit :=
  inc_pc;; val ← pop_operand; a ← pop_memop_addr offset; v ← lift (get val); write_mem n a v.

(** The first group that has a handler for the instruction. *)
Definition alt {A} (x y : option A) : option A := match x with Some _ => x | None => y end.
Definition handler (h : option (M ctx unit)) : M ctx unit :=
  match h with Some k => k | None => throw (interp_error "invalid opcode") end.

(** ** Control flow *)
Definition exec_control_flow (o : Op.control_flow_op) (imm : Op.control_flow_imm) : M ctx unit :=
  match o with
  | Op.unreachable => inc_pc;; throw (interp_error "unreachable")
  | Op.nop | Op.end_ | Op.block | Op.loop => inc_pc
  | Op.if_ =>
      inc_pc;;
      oper ← pop_operand;
      c ← lift (to_ui32 oper);
      if c =? 0 then set_relative_pc m (Op.cf_pc imm) else mret tt
  | Op.else_ => set_relative_pc m (Op.cf_pc imm)
  | Op.br => jump m (Op.cf_data imm) (Op.cf_pc imm)
  | Op.br_if =>
      val ← pop_operand;
      b ← is_true val;
      if (b : bool) then jump m (Op.cf_data imm) (Op.cf_pc imm) else inc_pc
  | _ => throw (interp_error "invalid opcode")
  end.

Definition exec_br_table (size : Z) (table : list Op.elem_t) : M ctx unit :=
  in_ ← pop_ui32;
  entry ← lift (or_UB "branch table read out of range" (nthZ table (Z.min in_ size)));
  jump m (Op.elem_stack_pop entry) (Op.elem_pc entry).

Definition exec_call_indirect (type_index : Z) : M ctx unit :=
  index ← pop_ui32;
  fn ← table_elem m index;
  expected_type ← lift (vec_at (types m) type_index);
  actual_type ← lift (Mod.get_function_type m fn);
  assertM (func_type_eqb actual_type expected_type) (interp_error "bad call_indirect type");;
  call m _rhf fn.

Definition exec_call (o : Op.call_op) (index : Z) : M ctx unit :=
  match o with
  | Op.call => call m _rhf index
  | Op.call_indirect => exec_call_indirect index
  | Op.br_table_data => inc_pc_by index
  end.

Definition exec_parametric (o : Op.parametric_op) : M ctx unit :=
  match o with
  | Op.drop_ => pop_operand;; inc_pc
  | Op.select_ =>
      c ← pop_operand;
      v2 ← pop_operand;
      n ← lift (to_ui32 c);
      (if n =? 0 then set_top v2 else mret tt);;
      inc_pc
  | _ => throw (interp_error "invalid opcode")
  end.

Definition exec_variable_access (o : Op.variable_access_op) (index : Z) : M ctx unit :=
  match o with
  | Op.get_local => inc_pc;; el ← get_operand index; push_operand el
  | Op.set_local => inc_pc;; el ← pop_operand; set_operand index el
  | Op.tee_local => inc_pc;; el ← pop_operand; set_operand index el;; push_operand el
  | Op.get_global => inc_pc;; gl ← get_global m index; push_operand gl
  | Op.set_global => inc_pc;; el ← pop_operand; set_global m index el
  | _ => throw (interp_error "invalid opcode")
  end.

(** ** Memory *)
Definition exec_load (o : Op.memory_op) (offset : Z) : option (M ctx unit) :=
  match o with
  | Op.i32_load => Some (load 4 mk_i32 offset)
  | Op.i32_load8_s => Some (load 1 (fun v => mk_i32 (sext 8 v)) offset)
  | Op.i32_load16_s => Some (load 2 (fun v => mk_i32 (sext 16 v)) offset)
  | Op.i32_load8_u => Some (load 1 mk_i32 offset)
  | Op.i32_load16_u => Some (load 2 mk_i32 offset)
  | Op.i64_load => Some (load 8 mk_i64 offset)
  | Op.i64_load8_s => Some (load 1 (fun v => mk_i64 (sext 8 v)) offset)
  | Op.i64_load16_s => Some (load 2 (fun v => mk_i64 (sext 16 v)) offset)
  | Op.i64_load32_s => Some (load 4 (fun v => mk_i64 (sext 32 v)) offset)
  | Op.i64_load8_u => Some (load 1 mk_i64 offset)
  | Op.i64_load16_u => Some (load 2 mk_i64 offset)
  | Op.i64_load32_u => Some (load 4 mk_i64 offset)
  | Op.f32_load => Some (load 4 mk_f32 offset)
  | Op.f64_load => Some (load 8 mk_f64 offset)
  | _ => None
  end.

Definition exec_store (o : Op.memory_op) (offset : Z) : option (M ctx unit) :=
  match o with
  | Op.i32_store => Some (store 4 to_ui32 offset)
  | Op.i32_store8 => Some (store 1 to_ui32 offset)
  | Op.i32_store16 => Some (store 2 to_ui32 offset)
  | Op.i64_store => Some (store 8 to_ui64 offset)
  | Op.i64_store8 => Some (store 1 to_ui64 offset)
  | Op.i64_store16 => Some (store 2 to_ui64 offset)
  | Op.i64_store32 => Some (store 4 to_ui64 offset)
  | Op.f32_store => Some (store 4 to_fui32 offset)
  | Op.f64_store => Some (store 8 to_fui64 offset)
  | _ => None
  end.

Definition exec_memory_size (o : Op.memory_op) : option (M ctx unit) :=
  match o with
  | Op.current_memory => Some (inc_pc;; n ← current_linear_memory; push_operand (mk_i32 n))
  | Op.grow_memory =>
      Some (inc_pc;;
            oper ← peek_operand 0;
            n ← lift (to_ui32 oper);
            r ← grow_linear_memory m (sext 32 n);
            set_top (mk_i32 r))
  | _ => None
  end.

Definition exec_memory (o : Op.memory_op) (offset : Z) : M ctx unit :=
  handler (alt (exec_load o offset) (alt (exec_store o offset) (exec_memory_size o))).

(** ** Comparisons *)
Definition exec_i32_comparison (o : Op.comparison_op) : option (M ctx unit) :=
  match o with
  | Op.i32_eqz => Some (un_i32 (fun t => b2z (t =? 0)))
  | Op.i32_eq => Some (compare to_ui32 Z.eqb)
  | Op.i32_ne => Some (compare to_ui32 (fun a b => negb (a =? b)))
  | Op.i32_lt_s => Some (compare to_i32 Z.ltb)
  | Op.i32_lt_u => Some (compare to_ui32 Z.ltb)
  | Op.i32_le_s => Some (compare to_i32 Z.leb)
  | Op.i32_le_u => Some (compare to_ui32 Z.leb)
  | Op.i32_gt_s => Some (compare to_i32 Z.gtb)
  | Op.i32_gt_u => Some (compare to_ui32 Z.gtb)
  | Op.i32_ge_s => Some (compare to_i32 Z.geb)
  | Op.i32_ge_u => Some (compare to_ui32 Z.geb)
  | _ => None
  end.

Definition exec_i64_comparison (o : Op.comparison_op) : option (M ctx unit) :=
  match o with
  | Op.i64_eqz => Some (unop to_ui64 (fun t => Ret (mk_i32 (b2z (t =? 0)))))
  | Op.i64_eq => Some (compare to_ui64 Z.eqb)
  | Op.i64_ne => Some (compare to_ui64 (fun a b => negb (a =? b)))
  | Op.i64_lt_s => Some (compare to_i64 Z.ltb)
  | Op.i64_lt_u => Some (compare to_ui64 Z.ltb)
  | Op.i64_le_s => Some (compare to_i64 Z.leb)
  | Op.i64_le_u => Some (compare to_ui64 Z.leb)
  | Op.i64_gt_s => Some (compare to_i64 Z.gtb)
  | Op.i64_gt_u => Some (compare to_ui64 Z.gtb)
  | Op.i64_ge_s => Some (compare to_i64 Z.geb)
  | Op.i64_ge_u => Some (compare to_ui64 Z.geb)
  | _ => None
  end.

Definition exec_f32_comparison (o : Op.comparison_op) : option (M ctx unit) :=
  match o with
  | Op.f32_eq => Some (compare to_fui32 _eosio_f32_eq)
  | Op.f32_ne => Some (compare to_fui32 _eosio_f32_ne)
  | Op.f32_lt => Some (compare to_fui32 _eosio_f32_lt)
  | Op.f32_gt => Some (compare to_fui32 _eosio_f32_gt)
  | Op.f32_le => Some (compare to_fui32 _eosio_f32_le)
  | Op.f32_ge => Some (compare to_fui32 _eosio_f32_ge)
  | _ => None
  end.

Definition exec_f64_comparison (o : Op.comparison_op) : option (M ctx unit) :=
  match o with
  | Op.f64_eq => Some (compare to_fui64 _eosio_f64_eq)
  | Op.f64_ne => Some (compare to_fui64 _eosio_f64_ne)
  | Op.f64_lt => Some (compare to_fui64 _eosio_f64_lt)
  | Op.f64_gt => Some (compare to_fui64 _eosio_f64_gt)
  | Op.f64_le => Some (compare to_fui64 _eosio_f64_le)
  | Op.f64_ge => Some (compare to_fui64 _eosio_f64_ge)
  | _ => None
  end.

Definition exec_comparison (o : Op.comparison_op) : M ctx unit :=
  handler (alt (exec_i32_comparison o) (alt (exec_i64_comparison o)
    (alt (exec_f32_comparison o) (exec_f64_comparison o)))).

(** ** Integer arithmetic *)

(** [__builtin_clz], [__builtin_ctz] behind the test for 0 *)
Definition clz (w x : Z) : Z := if x =? 0 then w else w - 1 - Z.log2 x.
Fixpoint ctz_pos (p : positive) : Z :=
  match p with xO p => 1 + ctz_pos p | _ => 0 end.
Definition ctz (w x : Z) : Z := match x with Zpos p => ctz_pos p | _ => w end.

(** [(lhs << c) | (lhs >> (-c & mask))] on a [w]-bit unsigned integer *)
Definition rotl (w lhs rhs : Z) : Z :=
  let mask := w - 1 in
  let c := Z.land (wrap 32 rhs) mask in
  Z.lor (wrap w (Z.shiftl lhs c)) (Z.shiftr lhs (Z.land (wrap 32 (- c)) mask)).
Definition rotr (w lhs rhs : Z) : Z :=
  let mask := w - 1 in
  let c := Z.land (wrap 32 rhs) mask in
  Z.lor (Z.shiftr lhs c) (wrap w (Z.shiftl lhs (Z.land (wrap 32 (- c)) mask))).

Definition div_s (w : Z) (zero ovf : string) (lhs rhs : Z) : outcome Z :=
  EOS_VM_ASSERT (negb (rhs =? 0)) (interp_error zero);;
  EOS_VM_ASSERT (negb ((lhs =? - 2 ^ (w - 1)) && (rhs =? -1))) (interp_error ovf);;
  Ret (Z.quot lhs rhs).
Definition div_u (zero : string) (lhs rhs : Z) : outcome Z :=
  EOS_VM_ASSERT (negb (rhs =? 0)) (interp_error zero);; Ret (lhs / rhs).
Definition rem_s (w : Z) (zero : string) (lhs rhs : Z) : outcome Z :=
  EOS_VM_ASSERT (negb (rhs =? 0)) (interp_error zero);;
  Ret (if (lhs =? - 2 ^ (w - 1)) && (rhs =? -1) then 0 else Z.rem lhs rhs).
Definition rem_u (zero : string) (lhs rhs : Z) : outcome Z :=
  EOS_VM_ASSERT (negb (rhs =? 0)) (interp_error zero);; Ret (lhs mod rhs).

Definition to_elem (mk : Z -> operand_stack_elem) (f : Z -> Z -> outcome Z) (a b : Z)
  : outcome operand_stack_elem := r ← f a b; Ret (mk r).

Definition exec_i32_numeric (o : Op.numeric_op) : option (M ctx unit) :=
  match o with
  | Op.i32_clz => Some (un_i32 (clz 32))
  | Op.i32_ctz => Some (un_i32 (ctz 32))
  | Op.i32_popcnt => Some (un_i32 (popcount 32))
  | Op.i32_add => Some (bin_i32 Z.add)
  | Op.i32_sub => Some (bin_i32 Z.sub)
  | Op.i32_mul => Some (bin_i32 Z.mul)
  | Op.i32_div_s =>
      Some (binop to_i32 to_i32 (to_elem mk_i32
        (div_s 32 "i32.div_s divide by zero" "i32.div_s traps when I32_MAX/-1")))
  | Op.i32_div_u => Some (binop to_ui32 to_ui32 (to_elem mk_i32 (div_u "i32.div_u divide by zero")))
  | Op.i32_rem_s =>
      Some (binop to_i32 to_i32 (to_elem mk_i32 (rem_s 32 "i32.rem_s divide by zero")))
  | Op.i32_rem_u => Some (binop to_ui32 to_ui32 (to_elem mk_i32 (rem_u "i32.rem_u divide by zero")))
  | Op.i32_and => Some (bin_i32 Z.land)
  | Op.i32_or => Some (bin_i32 Z.lor)
  | Op.i32_xor => Some (bin_i32 Z.lxor)
  | Op.i32_shl => Some (bin_i32 (fun lhs rhs => Z.shiftl lhs (Z.land rhs 31)))
  | Op.i32_shr_s =>
      Some (binop to_i32 to_ui32 (fun lhs rhs => Ret (mk_i32 (Z.shiftr lhs (Z.land rhs 31)))))
  | Op.i32_shr_u => Some (bin_i32 (fun lhs rhs => Z.shiftr lhs (Z.land rhs 31)))
  | Op.i32_rotl => Some (bin_i32 (rotl 32))
  | Op.i32_rotr => Some (bin_i32 (rotr 32))
  | _ => None
  end.

Definition exec_i64_numeric (o : Op.numeric_op) : option (M ctx unit) :=
  match o with
  | Op.i64_clz => Some (un_i64 (clz 64))
  | Op.i64_ctz => Some (un_i64 (ctz 64))
  | Op.i64_popcnt => Some (un_i64 (popcount 64))
  | Op.i64_add => Some (bin_i64 Z.add)
  | Op.i64_sub => Some (bin_i64 Z.sub)
  | Op.i64_mul => Some (bin_i64 Z.mul)
  | Op.i64_div_s =>
      Some (binop to_i64 to_i64 (to_elem mk_i64
        (div_s 64 "i64.div_s divide by zero" "i64.div_s traps when I64_MAX/-1")))
  | Op.i64_div_u => Some (binop to_ui64 to_ui64 (to_elem mk_i64 (div_u "i64.div_u divide by zero")))
  | Op.i64_rem_s =>
      Some (binop to_i64 to_i64 (to_elem mk_i64 (rem_s 64 "i64.rem_s divide by zero")))
  | Op.i64_rem_u => Some (binop to_ui64 to_ui64 (to_elem mk_i64 (rem_u "i64.rem_s divide by zero")))
  | Op.i64_and => Some (bin_i64 Z.land)
  | Op.i64_or => Some (bin_i64 Z.lor)
  | Op.i64_xor => Some (bin_i64 Z.lxor)
  | Op.i64_shl => Some (bin_i64 (fun lhs rhs => Z.shiftl lhs (Z.land rhs 63)))
  | Op.i64_shr_s =>
      Some (binop to_i64 to_ui64 (fun lhs rhs => Ret (mk_i64 (Z.shiftr lhs (Z.land rhs 63)))))
  | Op.i64_shr_u => Some (bin_i64 (fun lhs rhs => Z.shiftr lhs (Z.land rhs 63)))
  | Op.i64_rotl => Some (bin_i64 (rotl 64))
  | Op.i64_rotr => Some (bin_i64 (rotr 64))
  | _ => None
  end.

Definition exec_extend (o : Op.numeric_op) : option (M ctx unit) :=
  match o with
  | Op.i32_extend8_s => Some (unop to_i32 (fun a => Ret (mk_i32 (sext 8 a))))
  | Op.i32_extend16_s => Some (unop to_i32 (fun a => Ret (mk_i32 (sext 16 a))))
  | Op.i64_extend8_s => Some (unop to_i64 (fun a => Ret (mk_i64 (sext 8 a))))
  | Op.i64_extend16_s => Some (unop to_i64 (fun a => Ret (mk_i64 (sext 16 a))))
  | Op.i64_extend32_s => Some (unop to_i64 (fun a => Ret (mk_i64 (sext 32 a))))
  | _ => None
  end.

(** ** Floating point; the module's [eosio_fp] turns NaN canonicalisation off *)
Definition arith_nan : bool := negb (eosio_fp m).

Definition exec_f32_numeric (o : Op.numeric_op) : option (M ctx unit) :=
  match o with
  | Op.f32_abs => Some (un_f32 _eosio_f32_abs)
  | Op.f32_neg => Some (un_f32 _eosio_f32_neg)
  | Op.f32_ceil => Some (un_f32 (_eosio_f32_ceil arith_nan))
  | Op.f32_floor => Some (un_f32 (_eosio_f32_floor arith_nan))
  | Op.f32_trunc => Some (un_f32 (_eosio_f32_trunc arith_nan))
  | Op.f32_nearest => Some (un_f32 (_eosio_f32_nearest arith_nan))
  | Op.f32_sqrt => Some (un_f32 _eosio_f32_sqrt)
  | Op.f32_add => Some (bin_f32 _eosio_f32_add)
  | Op.f32_sub => Some (bin_f32 _eosio_f32_sub)
  | Op.f32_mul => Some (bin_f32 _eosio_f32_mul)
  | Op.f32_div => Some (bin_f32 _eosio_f32_div)
  | Op.f32_min => Some (bin_f32 (_eosio_f32_min arith_nan))
  | Op.f32_max => Some (bin_f32 (_eosio_f32_max arith_nan))
  | Op.f32_copysign => Some (bin_f32 _eosio_f32_copysign)
  | _ => None
  end.

Definition exec_f64_numeric (o : Op.numeric_op) : option (M ctx unit) :=
  match o with
  | Op.f64_abs => Some (un_f64 _eosio_f64_abs)
  | Op.f64_neg => Some (un_f64 _eosio_f64_neg)
  | Op.f64_ceil => Some (un_f64 (_eosio_f64_ceil arith_nan))
  | Op.f64_floor => Some (un_f64 (_eosio_f64_floor arith_nan))
  | Op.f64_trunc => Some (un_f64 (_eosio_f64_trunc arith_nan))
  | Op.f64_nearest => Some (un_f64 (_eosio_f64_nearest arith_nan))
  | Op.f64_sqrt => Some (un_f64 _eosio_f64_sqrt)
  | Op.f64_add => Some (bin_f64 _eosio_f64_add)
  | Op.f64_sub => Some (bin_f64 _eosio_f64_sub)
  | Op.f64_mul => Some (bin_f64 _eosio_f64_mul)
  | Op.f64_div => Some (bin_f64 _eosio_f64_div)
  | Op.f64_min => Some (bin_f64 (_eosio_f64_min arith_nan))
  | Op.f64_max => Some (bin_f64 (_eosio_f64_max arith_nan))
  | Op.f64_copysign => Some (bin_f64 _eosio_f64_copysign)
  | _ => None
  end.

Definition exec_numeric (o : Op.numeric_op) : M ctx unit :=
  handler (alt (exec_i32_numeric o) (alt (exec_i64_numeric o)
    (alt (exec_f32_numeric o) (alt (exec_f64_numeric o) (exec_extend o))))).

(** ** Conversions *)
Definition trunc_to (get : operand_stack_elem -> outcome Z) (f : Z -> outcome Z)
    (mk : Z -> operand_stack_elem) : M ctx unit :=
  unop get (fun a => r ← f a; Ret (mk r)).
Definition convert_to (get : operand_stack_elem -> outcome Z) (f : Z -> Z)
    (mk : Z -> operand_stack_elem) : M ctx unit :=
  unop get (fun a => Ret (mk (f a))).

Definition exec_trunc (o : Op.conversion_op) : option (M ctx unit) :=
  match o with
  | Op.i32_trunc_s_f32 => Some (trunc_to to_fui32 _eosio_f32_trunc_i32s mk_i32)
  | Op.i32_trunc_u_f32 => Some (trunc_to to_fui32 _eosio_f32_trunc_i32u mk_i32)
  | Op.i32_trunc_s_f64 => Some (trunc_to to_fui64 (_eosio_f64_trunc_i32s (negb (eosio_fp m))) mk_i32)
  | Op.i32_trunc_u_f64 => Some (trunc_to to_fui64 _eosio_f64_trunc_i32u mk_i32)
  | Op.i64_trunc_s_f32 => Some (trunc_to to_fui32 _eosio_f32_trunc_i64s mk_i64)
  | Op.i64_trunc_u_f32 => Some (trunc_to to_fui32 _eosio_f32_trunc_i64u mk_i64)
  | Op.i64_trunc_s_f64 => Some (trunc_to to_fui64 _eosio_f64_trunc_i64s mk_i64)
  | Op.i64_trunc_u_f64 => Some (trunc_to to_fui64 _eosio_f64_trunc_i64u mk_i64)
  | _ => None
  end.

Definition exec_convert (o : Op.conversion_op) : option (M ctx unit) :=
  match o with
  | Op.i32_wrap_i64 => Some (convert_to to_i64 (sext 32) mk_i32)
  | Op.i64_extend_s_i32 => Some (convert_to to_i32 (fun a => a) mk_i64)
  | Op.i64_extend_u_i32 => Some (convert_to to_ui32 (fun a => a) mk_i64)
  | Op.f32_convert_s_i32 => Some (convert_to to_i32 _eosio_i32_to_f32 mk_f32)
  | Op.f32_convert_u_i32 => Some (convert_to to_ui32 _eosio_ui32_to_f32 mk_f32)
  | Op.f32_convert_s_i64 => Some (convert_to to_i64 _eosio_i64_to_f32 mk_f32)
  | Op.f32_convert_u_i64 => Some (convert_to to_ui64 _eosio_ui64_to_f32 mk_f32)
  | Op.f32_demote_f64 => Some (convert_to to_fui64 _eosio_f64_demote mk_f32)
  | Op.f64_convert_s_i32 => Some (convert_to to_i32 _eosio_i32_to_f64 mk_f64)
  | Op.f64_convert_u_i32 => Some (convert_to to_ui32 _eosio_ui32_to_f64 mk_f64)
  | Op.f64_convert_s_i64 => Some (convert_to to_i64 _eosio_i64_to_f64 mk_f64)
  | Op.f64_convert_u_i64 => Some (convert_to to_ui64 _eosio_ui64_to_f64 mk_f64)
  | Op.f64_promote_f32 => Some (convert_to to_fui32 _eosio_f32_promote mk_f64)
  | Op.i32_reinterpret_f32 => Some (convert_to to_fui32 (fun a => a) mk_i32)
  | Op.i64_reinterpret_f64 => Some (convert_to to_fui64 (fun a => a) mk_i64)
  | Op.f32_reinterpret_i32 => Some (convert_to to_ui32 (fun a => a) mk_f32)
  | Op.f64_reinterpret_i64 => Some (convert_to to_ui64 (fun a => a) mk_f64)
  | _ => None
  end.

Definition exec_conversion (o : Op.conversion_op) : M ctx unit :=
  handler (alt (exec_trunc o) (exec_convert o)).

Definition exec_trunc_sat (o : Op.ext_op) : option (M ctx unit) :=
  match o with
  | Op.i32_trunc_sat_f32_s => Some (convert_to to_fui32 _eosio_i32_trunc_sat_f32_s mk_i32)
  | Op.i32_trunc_sat_f32_u => Some (convert_to to_fui32 _eosio_i32_trunc_sat_f32_u mk_i32)
  | Op.i32_trunc_sat_f64_s => Some (convert_to to_fui64 _eosio_i32_trunc_sat_f64_s mk_i32)
  | Op.i32_trunc_sat_f64_u => Some (convert_to to_fui64 _eosio_i32_trunc_sat_f64_u mk_i32)
  | Op.i64_trunc_sat_f32_s => Some (convert_to to_fui32 _eosio_i64_trunc_sat_f32_s mk_i64)
  | Op.i64_trunc_sat_f32_u => Some (convert_to to_fui32 _eosio_i64_trunc_sat_f32_u mk_i64)
  | Op.i64_trunc_sat_f64_s => Some (convert_to to_fui64 _eosio_i64_trunc_sat_f64_s mk_i64)
  | Op.i64_trunc_sat_f64_u => Some (convert_to to_fui64 _eosio_i64_trunc_sat_f64_u mk_i64)
  | _ => None
  end.

(** ** Bulk memory and tables

    [memory.copy], [memory.fill] and [table.copy] move one element per dispatch
    and leave the program counter on themselves until the count is 0. *)
Definition peek3 : M ctx (Z * Z * Z) :=
  size ← peek_operand 0; src ← peek_operand 1; dst ← peek_operand 2;
  size ← lift (to_ui32 size); src ← lift (to_ui32 src); dst ← lift (to_ui32 dst);
  mret (size, src, dst).

(** assignments through the three references *)
Definition set_operands3 (size src dst : Z) : M ctx unit :=
  pop_operand;; pop_operand;; set_top (mk_i32 dst);;
  push_operand (mk_i32 src);; push_operand (mk_i32 size).

Definition pop3_inc : M ctx unit := pop_operand;; pop_operand;; pop_operand;; inc_pc.

Definition validate (ptr len : Z) : M ctx unit :=
  wa ← gets _wasm_alloc; lift (validate_pointer 1 ptr len wa).

Definition exec_memory_copy : M ctx unit :=
  '(size, src, dst) ← peek3;
  validate src size;;
  validate dst size;;
  if size =? 0 then pop3_inc
  else if dst <=? src then
    b ← read_mem 1 src;
    write_mem 1 dst b;;
    set_operands3 (size - 1) (src + 1) (dst + 1)
  else
    b ← read_mem 1 (src + (size - 1));
    write_mem 1 (dst + (size - 1)) b;;
    set_operands3 (size - 1) src dst.

Definition exec_memory_fill : M ctx unit :=
  size ← peek_operand 0; src ← peek_operand 1; dst ← peek_operand 2;
  size ← lift (to_ui32 size); dst ← lift (to_ui32 dst);
  validate dst size;;
  if size =? 0 then pop3_inc
  else
    src ← lift (to_ui32 src);
    write_mem 1 dst (wrap 8 src);;
    set_operands3 (size - 1) src (dst + 1).

Definition exec_table_copy : M ctx unit :=
  '(size, src, dst) ← peek3;
  s ← get_table_ptr m src size;
  d ← get_table_ptr m dst size;
  if size =? 0 then pop3_inc
  else if dst <=? src then
    tb ← gets _table;
    e ← lift (or_UB "table read out of range" (nthZ tb s));
    write_table d [e];;
    set_operands3 (size - 1) (src + 1) (dst + 1)
  else
    tb ← gets _table;
    e ← lift (or_UB "table read out of range" (nthZ tb (s + (size - 1))));
    write_table (d + (size - 1)) [e];;
    set_operands3 (size - 1) src dst.

Definition exec_ext (o : Op.ext_op) : M ctx unit :=
  match o with
  | Op.memory_copy => exec_memory_copy
  | Op.memory_fill => exec_memory_fill
  | Op.table_copy => exec_table_copy
  | o => handler (exec_trunc_sat o)
  end.

(** [memory_init], [table_init]: pop size, src and dst, then run *)
Definition pop3 (k : Z -> Z -> Z -> M ctx unit) : M ctx unit :=
  size ← pop_operand; src ← pop_operand; dst ← pop_operand;
  inc_pc;;
  d ← lift (to_ui32 dst); s ← lift (to_ui32 src); n ← lift (to_ui32 size);
  k d s n.

Definition exec_data (o : Op.data_op) (index : Z) : M ctx unit :=
  match o with
  | Op.memory_init => pop3 (init_linear_memory m index)
  | Op.data_drop => inc_pc;; drop_data index
  | Op.table_init => pop3 (init_table m index)
  | Op.elem_drop => inc_pc;; drop_elem index
  end.

(** ** Vector memory *)

(** [sizeof(U)]-byte elements read one by one, converted to the lanes of [T] *)
Definition v128_load_extend (T U : ity) (offset : Z) : M ctx unit :=
  inc_pc;;
  a ← pop_memop_addr offset;
  wa ← gets _wasm_alloc;
  let n := Z.to_nat (bits U / 8) in
  l ← lift (map_outcome (fun i => v ← read_unaligned n (a + Z.of_nat i * (bits U / 8)) wa;
                                  Ret (conv U v)) (seq 0 (lanes_of T)));
  push_v128 (put_lanes T l).

Definition v128_load_splat (T : ity) (offset : Z) : M ctx unit :=
  inc_pc;; a ← pop_memop_addr offset;
  v ← read_mem (Z.to_nat (bits T / 8)) a; push_v128 (splat T v).

Definition v128_load_zero (T : ity) (offset : Z) : M ctx unit :=
  inc_pc;; a ← pop_memop_addr offset;
  v ← read_mem (Z.to_nat (bits T / 8)) a;
  push_v128 (put_lanes T (v :: replicate (lanes_of T - 1) 0)).

Definition v128_load_lane (T : ity) (offset laneidx : Z) : M ctx unit :=
  inc_pc;; val ← pop_v128; a ← pop_memop_addr offset;
  v ← read_mem (Z.to_nat (bits T / 8)) a;
  r ← lift (replace_lane T laneidx v val); push_v128 r.

Definition v128_store_lane (T : ity) (offset laneidx : Z) : M ctx unit :=
  inc_pc;; val ← pop_v128; a ← pop_memop_addr offset;
  v ← lift (extract_lane T laneidx val); write_mem (Z.to_nat (bits T / 8)) a v.

Definition exec_vec_memory (o : Op.vec_memory_op) (offset : Z) : M ctx unit :=
  match o with
  | Op.v128_load => load 16 (fun v => v128_const_t (of_bits128 v)) offset
  | Op.v128_load8x8_s => v128_load_extend I16 I8 offset
  | Op.v128_load8x8_u => v128_load_extend U16 U8 offset
  | Op.v128_load16x4_s => v128_load_extend I32 I16 offset
  | Op.v128_load16x4_u => v128_load_extend U32 U16 offset
  | Op.v128_load32x2_s => v128_load_extend I64 I32 offset
  | Op.v128_load32x2_u => v128_load_extend U64 U32 offset
  | Op.v128_load8_splat => v128_load_splat U8 offset
  | Op.v128_load16_splat => v128_load_splat U16 offset
  | Op.v128_load32_splat => v128_load_splat U32 offset
  | Op.v128_load64_splat => v128_load_splat U64 offset
  | Op.v128_load32_zero => v128_load_zero U32 offset
  | Op.v128_load64_zero => v128_load_zero U64 offset
  | Op.v128_store => store 16 (fun e => v ← to_v128 e; Ret (to_bits128 v)) offset
  end.

Definition exec_vec_lane_memory (o : Op.vec_lane_memory_op) (offset laneidx : Z) : M ctx unit :=
  match o with
  | Op.v128_load8_lane => v128_load_lane U8 offset laneidx
  | Op.v128_load16_lane => v128_load_lane U16 offset laneidx
  | Op.v128_load32_lane => v128_load_lane U32 offset laneidx
  | Op.v128_load64_lane => v128_load_lane U64 offset laneidx
  | Op.v128_store8_lane => v128_store_lane U8 offset laneidx
  | Op.v128_store16_lane => v128_store_lane U16 offset laneidx
  | Op.v128_store32_lane => v128_store_lane U32 offset laneidx
  | Op.v128_store64_lane => v128_store_lane U64 offset laneidx
  end.

(** ** Lanes *)
Definition v128_extract_lane (A : ity) (mk : Z -> operand_stack_elem) (laneidx : Z) : M ctx unit :=
  inc_pc;; c ← pop_v128; x ← lift (extract_lane A laneidx c); push_operand (mk x).
(** the scalar is popped before the vector *)
Definition v128_replace_lane (A : ity) (get : operand_stack_elem -> outcome Z) (laneidx : Z)
  : M ctx unit :=
  e ← pop_operand; c1 ← lift (get e);
  inc_pc;; c2 ← pop_v128; r ← lift (replace_lane A laneidx c1 c2); push_v128 r.
Definition v128_splat (A : ity) (get : operand_stack_elem -> outcome Z) : M ctx unit :=
  e ← pop_operand; t ← lift (get e); inc_pc;; push_v128 (splat A t).

Definition exec_vec_lane (o : Op.vec_lane_op) (i : Z) : M ctx unit :=
  match o with
  | Op.i8x16_extract_lane_s => v128_extract_lane I8 mk_i32 i
  | Op.i8x16_extract_lane_u => v128_extract_lane U8 mk_i32 i
  | Op.i8x16_replace_lane => v128_replace_lane U8 to_ui32 i
  | Op.i16x8_extract_lane_s => v128_extract_lane I16 mk_i32 i
  | Op.i16x8_extract_lane_u => v128_extract_lane U16 mk_i32 i
  | Op.i16x8_replace_lane => v128_replace_lane U16 to_ui32 i
  | Op.i32x4_extract_lane => v128_extract_lane U32 mk_i32 i
  | Op.i32x4_replace_lane => v128_replace_lane U32 to_ui32 i
  | Op.i64x2_extract_lane => v128_extract_lane U64 mk_i64 i
  | Op.i64x2_replace_lane => v128_replace_lane U64 to_ui64 i
  | Op.f32x4_extract_lane => v128_extract_lane U32 mk_f32 i
  | Op.f32x4_replace_lane => v128_replace_lane U32 to_fui32 i
  | Op.f64x2_extract_lane => v128_extract_lane U64 mk_f64 i
  | Op.f64x2_replace_lane => v128_replace_lane U64 to_fui64 i
  end.

Definition exec_splat (o : Op.vec_numeric_op) : option (M ctx unit) :=
  match o with
  | Op.i8x16_swizzle => Some (inc_pc;; c2 ← pop_v128; c1 ← pop_v128;
                              r ← lift (swizzle c1 c2); push_v128 r)
  | Op.i8x16_splat => Some (v128_splat U8 to_ui32)
  | Op.i16x8_splat => Some (v128_splat U16 to_ui32)
  | Op.i32x4_splat => Some (v128_splat U32 to_ui32)
  | Op.i64x2_splat => Some (v128_splat U64 to_ui64)
  | Op.f32x4_splat => Some (v128_splat U32 to_fui32)
  | Op.f64x2_splat => Some (v128_splat U64 to_fui64)
  | _ => None
  end.

(** ** Vector comparisons *)
Definition v128_compare (A : ity) (f : Z -> Z -> bool) : M ctx unit :=
  v128_binop (binop_lanes A (fun a b => cmp (f a b))).

Definition exec_vec_comparison (o : Op.vec_numeric_op) : option (M ctx unit) :=
  match o with
  | Op.i8x16_eq => Some (v128_compare U8 Z.eqb)
  | Op.i8x16_ne => Some (v128_compare U8 (fun a b => negb (a =? b)))
  | Op.i8x16_lt_s => Some (v128_compare I8 Z.ltb)
  | Op.i8x16_lt_u => Some (v128_compare U8 Z.ltb)
  | Op.i8x16_gt_s => Some (v128_compare I8 Z.gtb)
  | Op.i8x16_gt_u => Some (v128_compare U8 Z.gtb)
  | Op.i8x16_le_s => Some (v128_compare I8 Z.leb)
  | Op.i8x16_le_u => Some (v128_compare U8 Z.leb)
  | Op.i8x16_ge_s => Some (v128_compare I8 Z.geb)
  | Op.i8x16_ge_u => Some (v128_compare U8 Z.geb)
  | Op.i16x8_eq => Some (v128_compare U16 Z.eqb)
  | Op.i16x8_ne => Some (v128_compare U16 (fun a b => negb (a =? b)))
  | Op.i16x8_lt_s => Some (v128_compare I16 Z.ltb)
  | Op.i16x8_lt_u => Some (v128_compare U16 Z.ltb)
  | Op.i16x8_gt_s => Some (v128_compare I16 Z.gtb)
  | Op.i16x8_gt_u => Some (v128_compare U16 Z.gtb)
  | Op.i16x8_le_s => Some (v128_compare I16 Z.leb)
  | Op.i16x8_le_u => Some (v128_compare U16 Z.leb)
  | Op.i16x8_ge_s => Some (v128_compare I16 Z.geb)
  | Op.i16x8_ge_u => Some (v128_compare U16 Z.geb)
  | Op.i32x4_eq => Some (v128_compare U32 Z.eqb)
  | Op.i32x4_ne => Some (v128_compare U32 (fun a b => negb (a =? b)))
  | Op.i32x4_lt_s => Some (v128_compare I32 Z.ltb)
  | Op.i32x4_lt_u => Some (v128_compare U32 Z.ltb)
  | Op.i32x4_gt_s => Some (v128_compare I32 Z.gtb)
  | Op.i32x4_gt_u => Some (v128_compare U32 Z.gtb)
  | Op.i32x4_le_s => Some (v128_compare I32 Z.leb)
  | Op.i32x4_le_u => Some (v128_compare U32 Z.leb)
  | Op.i32x4_ge_s => Some (v128_compare I32 Z.geb)
  | Op.i32x4_ge_u => Some (v128_compare U32 Z.geb)
  | Op.i64x2_eq => Some (v128_compare U64 Z.eqb)
  | Op.i64x2_ne => Some (v128_compare U64 (fun a b => negb (a =? b)))
  | Op.i64x2_lt_s => Some (v128_compare I64 Z.ltb)
  | Op.i64x2_gt_s => Some (v128_compare I64 Z.gtb)
  | Op.i64x2_le_s => Some (v128_compare I64 Z.leb)
  | Op.i64x2_ge_s => Some (v128_compare I64 Z.geb)
  | _ => None
  end.

(** A total function on vectors as a fallible one. *)
Definition ret1 (f : v128_t -> v128_t) (a : v128_t) : outcome v128_t := Ret (f a).
Definition ret2 (f : v128_t -> v128_t -> v128_t) (a b : v128_t) : outcome v128_t := Ret (f a b).

Definition exec_vec_float_comparison (o : Op.vec_numeric_op) : option (M ctx unit) :=
  match o with
  | Op.f32x4_eq => Some (v128_binop (ret2 _eosio_f32x4_eq))
  | Op.f32x4_ne => Some (v128_binop (ret2 _eosio_f32x4_ne))
  | Op.f32x4_lt => Some (v128_binop (ret2 _eosio_f32x4_lt))
  | Op.f32x4_gt => Some (v128_binop (ret2 _eosio_f32x4_gt))
  | Op.f32x4_le => Some (v128_binop (ret2 _eosio_f32x4_le))
  | Op.f32x4_ge => Some (v128_binop (ret2 _eosio_f32x4_ge))
  | Op.f64x2_eq => Some (v128_binop (ret2 _eosio_f64x2_eq))
  | Op.f64x2_ne => Some (v128_binop (ret2 _eosio_f64x2_ne))
  | Op.f64x2_lt => Some (v128_binop (ret2 _eosio_f64x2_lt))
  | Op.f64x2_gt => Some (v128_binop (ret2 _eosio_f64x2_gt))
  | Op.f64x2_le => Some (v128_binop (ret2 _eosio_f64x2_le))
  | Op.f64x2_ge => Some (v128_binop (ret2 _eosio_f64x2_ge))
  | _ => None
  end.

(** ** Bitwise vector operations *)
Definition exec_vec_bitwise (o : Op.vec_numeric_op) : option (M ctx unit) :=
  match o with
  | Op.v128_not => Some (v128_unop (unop_lanes U64 (fun a => Ret (wrap 64 (Z.lnot a)))))
  | Op.v128_and => Some (v128_binop (binop_lanes U64 (fun a b => Ret (Z.land a b))))
  | Op.v128_andnot => Some (v128_binop (binop_lanes U64 (fun a b => Ret (Z.ldiff a b))))
  | Op.v128_or => Some (v128_binop (binop_lanes U64 (fun a b => Ret (Z.lor a b))))
  | Op.v128_xor => Some (v128_binop (binop_lanes U64 (fun a b => Ret (Z.lxor a b))))
  | Op.v128_bitselect =>
      Some (v128_ternop (ternop_lanes U64 (fun a b c => Ret (Z.lor (Z.land a c) (Z.ldiff b c)))))
  | Op.v128_any_true => Some (v128_unop_i32 U64 any_true_lanes)
  | _ => None
  end.

(** ** Integer lanes *)

(** A lambda whose sum or difference is computed in [int], or modulo [2^w]. *)
Definition lane_op (A : ity) (f : Z -> Z -> Z) (a b : Z) : outcome Z := arith A (f a b).

Definition exec_i8x16 (o : Op.vec_numeric_op) : option (M ctx unit) :=
  match o with
  | Op.i8x16_abs => Some (v128_unop (unop_lanes U8 (abs_lane I8)))
  | Op.i8x16_neg => Some (v128_unop (unop_lanes U8 (fun a => arith U8 (- a))))
  | Op.i8x16_all_true => Some (v128_unop_i32 U8 all_true_lanes)
  | Op.i8x16_bitmask => Some (v128_unop_i32 I8 bitmask_lanes)
  | Op.i8x16_shl => Some (v128_shift U8 0x7 (fun a b => arith U8 (Z.shiftl a b)))
  | Op.i8x16_shr_s => Some (v128_shift U8 0x7 (fun a b => Ret (Z.shiftr (conv I8 a) b)))
  | Op.i8x16_shr_u => Some (v128_shift U8 0x7 (fun a b => Ret (Z.shiftr a b)))
  | Op.i8x16_add => Some (v128_binop (binop_lanes U8 (lane_op U8 Z.add)))
  | Op.i8x16_sub => Some (v128_binop (binop_lanes U8 (lane_op U8 Z.sub)))
  | Op.i8x16_min_s => Some (v128_binop (binop_lanes I8 min_lane))
  | Op.i8x16_min_u => Some (v128_binop (binop_lanes U8 min_lane))
  | Op.i8x16_max_s => Some (v128_binop (binop_lanes I8 max_lane))
  | Op.i8x16_max_u => Some (v128_binop (binop_lanes U8 max_lane))
  | Op.i8x16_add_sat_s =>
      Some (v128_binop (binop_lanes I8 (fun a b => sat (-0x80) 0x7f (lane_op I8 Z.add a b))))
  | Op.i8x16_add_sat_u =>
      Some (v128_binop (binop_lanes U8 (fun a b => sat 0 0xff (lane_op U8 Z.add a b))))
  | Op.i8x16_sub_sat_s =>
      Some (v128_binop (binop_lanes I8 (fun a b => sat (-0x80) 0x7f (lane_op I8 Z.sub a b))))
  | Op.i8x16_sub_sat_u =>
      Some (v128_binop (binop_lanes U8 (fun a b => sat 0 0xff (lane_op U8 Z.sub a b))))
  | Op.i8x16_avgr_u => Some (v128_binop (binop_lanes U8 avgr_lane))
  | Op.i8x16_popcnt => Some (v128_unop (unop_lanes U8 (fun a => Ret (popcount 8 a))))
  | Op.i8x16_narrow_i16x8_s => Some (v128_binop (narrow I16 I8 (fun a => Ret (clamp (-0x80) 0x7f a))))
  | Op.i8x16_narrow_i16x8_u => Some (v128_binop (narrow I16 U8 (fun a => Ret (clamp 0 0xff a))))
  | _ => None
  end.

Definition exec_i16x8 (o : Op.vec_numeric_op) : option (M ctx unit) :=
  match o with
  | Op.i16x8_abs => Some (v128_unop (unop_lanes U16 (abs_lane I16)))
  | Op.i16x8_neg => Some (v128_unop (unop_lanes U16 (fun a => arith U16 (- a))))
  | Op.i16x8_all_true => Some (v128_unop_i32 U16 all_true_lanes)
  | Op.i16x8_bitmask => Some (v128_unop_i32 I16 bitmask_lanes)
  | Op.i16x8_shl => Some (v128_shift U16 0xf (fun a b => arith U16 (Z.shiftl a b)))
  | Op.i16x8_shr_s => Some (v128_shift U16 0xf (fun a b => Ret (Z.shiftr (conv I16 a) b)))
  | Op.i16x8_shr_u => Some (v128_shift U16 0xf (fun a b => Ret (Z.shiftr a b)))
  | Op.i16x8_add => Some (v128_binop (binop_lanes U16 (lane_op U16 Z.add)))
  | Op.i16x8_sub => Some (v128_binop (binop_lanes U16 (lane_op U16 Z.sub)))
  | Op.i16x8_mul => Some (v128_binop (binop_lanes U16 (lane_op U16 Z.mul)))
  | Op.i16x8_min_s => Some (v128_binop (binop_lanes I16 min_lane))
  | Op.i16x8_min_u => Some (v128_binop (binop_lanes U16 min_lane))
  | Op.i16x8_max_s => Some (v128_binop (binop_lanes I16 max_lane))
  | Op.i16x8_max_u => Some (v128_binop (binop_lanes U16 max_lane))
  | Op.i16x8_add_sat_s =>
      Some (v128_binop (binop_lanes I16 (fun a b => sat (-0x8000) 0x7fff (lane_op I16 Z.add a b))))
  | Op.i16x8_add_sat_u =>
      Some (v128_binop (binop_lanes U16 (fun a b => sat 0 0xffff (lane_op U16 Z.add a b))))
  | Op.i16x8_sub_sat_s =>
      Some (v128_binop (binop_lanes I16 (fun a b => sat (-0x8000) 0x7fff (lane_op I16 Z.sub a b))))
  | Op.i16x8_sub_sat_u =>
      Some (v128_binop (binop_lanes U16 (fun a b => sat 0 0xffff (lane_op U16 Z.sub a b))))
  | Op.i16x8_avgr_u => Some (v128_binop (binop_lanes U16 avgr_lane))
  | Op.i16x8_q15mulr_sat_s => Some (v128_binop (binop_lanes U16 q15mulr_lane))
  | Op.i16x8_narrow_i32x4_s => Some (v128_binop (narrow I32 I16 (fun a => Ret (clamp (-0x8000) 0x7fff a))))
  | Op.i16x8_narrow_i32x4_u =>
      Some (v128_binop (narrow U32 U16 (fun a => Ret (clamp 0 0xffff (conv I32 a)))))
  | _ => None
  end.

Definition exec_i16x8_widen (o : Op.vec_numeric_op) : option (M ctx unit) :=
  match o with
  | Op.i16x8_extend_low_i8x16_s => Some (v128_unop (extend I8 I16 false))
  | Op.i16x8_extmul_low_i8x16_s => Some (v128_binop (extmul I8 I16 false))
  | Op.i16x8_extend_low_i8x16_u => Some (v128_unop (extend U8 U16 false))
  | Op.i16x8_extmul_low_i8x16_u => Some (v128_binop (extmul U8 U16 false))
  | Op.i16x8_extend_high_i8x16_s => Some (v128_unop (extend I8 I16 true))
  | Op.i16x8_extmul_high_i8x16_s => Some (v128_binop (extmul I8 I16 true))
  | Op.i16x8_extend_high_i8x16_u => Some (v128_unop (extend U8 U16 true))
  | Op.i16x8_extmul_high_i8x16_u => Some (v128_binop (extmul U8 U16 true))
  | Op.i16x8_extadd_pairwise_i8x16_s => Some (v128_unop (extadd_pairwise I8 I16))
  | Op.i16x8_extadd_pairwise_i8x16_u => Some (v128_unop (extadd_pairwise U8 U16))
  | _ => None
  end.

Definition exec_i32x4 (o : Op.vec_numeric_op) : option (M ctx unit) :=
  match o with
  | Op.i32x4_abs => Some (v128_unop (unop_lanes U32 (abs_lane I32)))
  | Op.i32x4_neg => Some (v128_unop (unop_lanes U32 (fun a => arith U32 (- a))))
  | Op.i32x4_all_true => Some (v128_unop_i32 U32 all_true_lanes)
  | Op.i32x4_bitmask => Some (v128_unop_i32 I32 bitmask_lanes)
  | Op.i32x4_shl => Some (v128_shift U32 0x1f (fun a b => arith U32 (Z.shiftl a b)))
  | Op.i32x4_shr_s => Some (v128_shift U32 0x1f (fun a b => Ret (Z.shiftr (conv I32 a) b)))
  | Op.i32x4_shr_u => Some (v128_shift U32 0x1f (fun a b => Ret (Z.shiftr a b)))
  | Op.i32x4_add => Some (v128_binop (binop_lanes U32 (lane_op U32 Z.add)))
  | Op.i32x4_sub => Some (v128_binop (binop_lanes U32 (lane_op U32 Z.sub)))
  | Op.i32x4_mul => Some (v128_binop (binop_lanes U32 (lane_op U32 Z.mul)))
  | Op.i32x4_min_s => Some (v128_binop (binop_lanes I32 min_lane))
  | Op.i32x4_min_u => Some (v128_binop (binop_lanes U32 min_lane))
  | Op.i32x4_max_s => Some (v128_binop (binop_lanes I32 max_lane))
  | Op.i32x4_max_u => Some (v128_binop (binop_lanes U32 max_lane))
  | Op.i32x4_dot_i16x8_s => Some (v128_binop (binop_array I16 I32 dot_lanes))
  | _ => None
  end.

Definition exec_i32x4_widen (o : Op.vec_numeric_op) : option (M ctx unit) :=
  match o with
  | Op.i32x4_extend_low_i16x8_s => Some (v128_unop (extend I16 I32 false))
  | Op.i32x4_extmul_low_i16x8_s => Some (v128_binop (extmul I16 I32 false))
  | Op.i32x4_extend_low_i16x8_u => Some (v128_unop (extend U16 U32 false))
  | Op.i32x4_extmul_low_i16x8_u => Some (v128_binop (extmul U16 U32 false))
  | Op.i32x4_extend_high_i16x8_s => Some (v128_unop (extend I16 I32 true))
  | Op.i32x4_extmul_high_i16x8_s => Some (v128_binop (extmul I16 I32 true))
  | Op.i32x4_extend_high_i16x8_u => Some (v128_unop (extend U16 U32 true))
  | Op.i32x4_extmul_high_i16x8_u => Some (v128_binop (extmul U16 U32 true))
  | Op.i32x4_extadd_pairwise_i16x8_s => Some (v128_unop (extadd_pairwise I16 I32))
  | Op.i32x4_extadd_pairwise_i16x8_u => Some (v128_unop (extadd_pairwise U16 U32))
  | _ => None
  end.

Definition exec_i64x2 (o : Op.vec_numeric_op) : option (M ctx unit) :=
  match o with
  | Op.i64x2_abs => Some (v128_unop (unop_lanes U64 (abs_lane I64)))
  | Op.i64x2_neg => Some (v128_unop (unop_lanes U64 (fun a => arith U64 (- a))))
  | Op.i64x2_all_true => Some (v128_unop_i32 U64 all_true_lanes)
  | Op.i64x2_bitmask => Some (v128_unop_i32 I64 bitmask_lanes)
  | Op.i64x2_shl => Some (v128_shift U64 0x3f (fun a b => arith U64 (Z.shiftl a b)))
  | Op.i64x2_shr_s => Some (v128_shift U64 0x3f (fun a b => Ret (Z.shiftr (conv I64 a) b)))
  | Op.i64x2_shr_u => Some (v128_shift U64 0x3f (fun a b => Ret (Z.shiftr a b)))
  | Op.i64x2_add => Some (v128_binop (binop_lanes U64 (lane_op U64 Z.add)))
  | Op.i64x2_sub => Some (v128_binop (binop_lanes U64 (lane_op U64 Z.sub)))
  | Op.i64x2_mul => Some (v128_binop (binop_lanes U64 (lane_op U64 Z.mul)))
  | _ => None
  end.

Definition exec_i64x2_widen (o : Op.vec_numeric_op) : option (M ctx unit) :=
  match o with
  | Op.i64x2_extend_low_i32x4_s => Some (v128_unop (extend I32 I64 false))
  | Op.i64x2_extmul_low_i32x4_s => Some (v128_binop (extmul I32 I64 false))
  | Op.i64x2_extend_low_i32x4_u => Some (v128_unop (extend U32 U64 false))
  | Op.i64x2_extmul_low_i32x4_u => Some (v128_binop (extmul U32 U64 false))
  | Op.i64x2_extend_high_i32x4_s => Some (v128_unop (extend I32 I64 true))
  | Op.i64x2_extmul_high_i32x4_s => Some (v128_binop (extmul I32 I64 true))
  | Op.i64x2_extend_high_i32x4_u => Some (v128_unop (extend U32 U64 true))
  | Op.i64x2_extmul_high_i32x4_u => Some (v128_binop (extmul U32 U64 true))
  | _ => None
  end.

Definition exec_f32x4 (o : Op.vec_numeric_op) : option (M ctx unit) :=
  match o with
  | Op.f32x4_ceil => Some (v128_unop (ret1 _eosio_f32x4_ceil))
  | Op.f32x4_floor => Some (v128_unop (ret1 _eosio_f32x4_floor))
  | Op.f32x4_trunc => Some (v128_unop (ret1 _eosio_f32x4_trunc))
  | Op.f32x4_nearest => Some (v128_unop (ret1 _eosio_f32x4_nearest))
  | Op.f32x4_abs => Some (v128_unop (ret1 _eosio_f32x4_abs))
  | Op.f32x4_neg => Some (v128_unop (ret1 _eosio_f32x4_neg))
  | Op.f32x4_sqrt => Some (v128_unop (ret1 _eosio_f32x4_sqrt))
  | Op.f32x4_add => Some (v128_binop (ret2 _eosio_f32x4_add))
  | Op.f32x4_sub => Some (v128_binop (ret2 _eosio_f32x4_sub))
  | Op.f32x4_mul => Some (v128_binop (ret2 _eosio_f32x4_mul))
  | Op.f32x4_div => Some (v128_binop (ret2 _eosio_f32x4_div))
  | Op.f32x4_min => Some (v128_binop (ret2 _eosio_f32x4_min))
  | Op.f32x4_max => Some (v128_binop (ret2 _eosio_f32x4_max))
  | Op.f32x4_pmin => Some (v128_binop (ret2 _eosio_f32x4_pmin))
  | Op.f32x4_pmax => Some (v128_binop (ret2 _eosio_f32x4_pmax))
  | _ => None
  end.

Definition exec_f64x2 (o : Op.vec_numeric_op) : option (M ctx unit) :=
  match o with
  | Op.f64x2_ceil => Some (v128_unop (ret1 _eosio_f64x2_ceil))
  | Op.f64x2_floor => Some (v128_unop (ret1 _eosio_f64x2_floor))
  | Op.f64x2_trunc => Some (v128_unop (ret1 _eosio_f64x2_trunc))
  | Op.f64x2_nearest => Some (v128_unop (ret1 _eosio_f64x2_nearest))
  | Op.f64x2_abs => Some (v128_unop (ret1 _eosio_f64x2_abs))
  | Op.f64x2_neg => Some (v128_unop (ret1 _eosio_f64x2_neg))
  | Op.f64x2_sqrt => Some (v128_unop (ret1 _eosio_f64x2_sqrt))
  | Op.f64x2_add => Some (v128_binop (ret2 _eosio_f64x2_add))
  | Op.f64x2_sub => Some (v128_binop (ret2 _eosio_f64x2_sub))
  | Op.f64x2_mul => Some (v128_binop (ret2 _eosio_f64x2_mul))
  | Op.f64x2_div => Some (v128_binop (ret2 _eosio_f64x2_div))
  | Op.f64x2_min => Some (v128_binop (ret2 _eosio_f64x2_min))
  | Op.f64x2_max => Some (v128_binop (ret2 _eosio_f64x2_max))
  | Op.f64x2_pmin => Some (v128_binop (ret2 _eosio_f64x2_pmin))
  | Op.f64x2_pmax => Some (v128_binop (ret2 _eosio_f64x2_pmax))
  | _ => None
  end.

Definition exec_vec_conversion (o : Op.vec_numeric_op) : option (M ctx unit) :=
  match o with
  | Op.i32x4_trunc_sat_f32x4_s => Some (v128_unop (ret1 _eosio_i32x4_trunc_sat_f32x4_s))
  | Op.i32x4_trunc_sat_f32x4_u => Some (v128_unop (ret1 _eosio_i32x4_trunc_sat_f32x4_u))
  | Op.f32x4_convert_i32x4_s => Some (v128_unop (ret1 _eosio_f32x4_convert_i32x4_s))
  | Op.f32x4_convert_i32x4_u => Some (v128_unop (ret1 _eosio_f32x4_convert_i32x4_u))
  | Op.i32x4_trunc_sat_f64x2_s_zero => Some (v128_unop (ret1 _eosio_i32x4_trunc_sat_f64x2_s_zero))
  | Op.i32x4_trunc_sat_f64x2_u_zero => Some (v128_unop (ret1 _eosio_i32x4_trunc_sat_f64x2_u_zero))
  | Op.f64x2_convert_low_i32x4_s => Some (v128_unop (ret1 _eosio_f64x2_convert_low_i32x4_s))
  | Op.f64x2_convert_low_i32x4_u => Some (v128_unop (ret1 _eosio_f64x2_convert_low_i32x4_u))
  | Op.f32x4_demote_f64x2_zero => Some (v128_unop (ret1 _eosio_f32x4_demote_f64x2_zero))
  | Op.f64x2_promote_low_f32x4 => Some (v128_unop (ret1 _eosio_f64x2_promote_low_f32x4))
  | _ => None
  end.

Definition exec_vec_numeric (o : Op.vec_numeric_op) : M ctx unit :=
  handler (alt (exec_splat o) (alt (exec_vec_comparison o) (alt (exec_vec_float_comparison o)
    (alt (exec_vec_bitwise o) (alt (exec_i8x16 o) (alt (exec_i16x8 o) (alt (exec_i16x8_widen o)
    (alt (exec_i32x4 o) (alt (exec_i32x4_widen o) (alt (exec_i64x2 o) (alt (exec_i64x2_widen o)
    (alt (exec_f32x4 o) (alt (exec_f64x2 o) (exec_vec_conversion o)))))))))))))).

Definition exec_shuffle (lanes : list Z) : M ctx unit :=
  inc_pc;; c2 ← pop_v128; c1 ← pop_v128; r ← lift (shuffle lanes c1 c2); push_v128 r.

(** ** Dispatch *)

(** A constant pushes itself. *)
Definition exec_const (el : operand_stack_elem) : M ctx unit := inc_pc;; push_operand el.

(** The visitor applied to an instruction; [EXIT] and [EMPTY] never reach it. *)
Definition exec (o : opcode) : M ctx unit :=
  match o with
  | Op.CONTROL_FLOW o imm => exec_control_flow o imm
  | Op.BR_TABLE size table => exec_br_table size table
  | Op.RETURN imm => apply_pop_call (Op.cf_data imm) (Op.cf_pc imm) (Op.cf_stacksz imm)
  | Op.CALL o index => exec_call o index
  | Op.CALL_IMM _ _ _ _ => throw (interp_error "invalid opcode")
  | Op.PARAMETRIC o => exec_parametric o
  | Op.VARIABLE_ACCESS o index => exec_variable_access o index
  | Op.MEMORY o _ offset => exec_memory o offset
  | Op.I32_CONST n => exec_const (i32_const_t n)
  | Op.I64_CONST n => exec_const (i64_const_t n)
  | Op.F32_CONST n => exec_const (f32_const_t n)
  | Op.F64_CONST n => exec_const (f64_const_t n)
  | Op.COMPARISON o => exec_comparison o
  | Op.NUMERIC o => exec_numeric o
  | Op.CONVERSION o => exec_conversion o
  | Op.EXIT _ => mret tt
  | Op.EMPTY _ => throw (interp_error "empty operand")
  | Op.DATA o index => exec_data o index
  | Op.EXT o => exec_ext o
  | Op.VEC_MEMORY o _ offset => exec_vec_memory o offset
  | Op.VEC_LANE_MEMORY o _ offset laneidx => exec_vec_lane_memory o offset laneidx
  | Op.V128_CONST v => exec_const (v128_const_t v)
  | Op.VEC_SHUFFLE lanes => exec_shuffle lanes
  | Op.VEC_LANE o laneidx => exec_vec_lane o laneidx
  | Op.VEC_NUMERIC o => exec_vec_numeric o
  | Op.ERROR => throw (interp_error "invalid opcode")
  end.

(** The instruction a program counter is at; [_halt] is an [exit_t]. *)
Definition fetch (p : opcode_ptr) : outcome opcode :=
  match p with
  | Pc o => or_UB "program counter outside the bitcode" (nthZ (bitcode m) o)
  | PcHalt => Ret (Op.EXIT 0)
  | PcNull => UB "null program counter"
  end.

(** One turn of the dispatch loop: [true] when it returns (at [exit_t]). *)
Definition dispatch : M ctx bool :=
  p ← gets pc;
  o ← lift (fetch p);
  match o with
  | Op.EXIT _ => mret true
  | o => exec o;; mret false
  end.

(** The dispatch loop with at most [fuel] turns; [None] when they are used up. *)
Fixpoint execute_loop (fuel : nat) (c : ctx) : option (outcome unit * ctx) :=
  match fuel with
  | O => None
  | S fuel =>
      match dispatch c with
      | (Ret true, c) => Some (Ret tt, c)
      | (Ret false, c) => execute_loop fuel c
      | (Throw e, c) => Some (Throw e, c)
      | (UB w, c) => Some (UB w, c)
      end
  end.

(** ** Entry point *)

(** [type_check_args] *)
Definition type_check_args (ft : func_type) (args : list operand_stack_elem) : outcome unit :=
  EOS_VM_ASSERT (Z.of_nat (length args) =? Z.of_nat (length (param_types ft)))
    (interp_error "wrong number of arguments");;
  EOS_VM_ASSERT (bool_decide ((elem_type <$> args) = param_types ft))
    (interp_error "unexpected argument type").

(** The body of [execute(host, visitor, func_index, args...)] between the saving
    of the calling context and the scope guard. *)
Definition execute_prologue (func_index : Z) (args : list operand_stack_elem) : M ctx unit :=
  ft ← lift (Mod.get_function_type m func_index);
  lift (type_check_args ft args);;
  for_each push_operand args;;
  push_call m true func_index;;
  if func_index <? Mod.get_imported_functions_size m then call_host m _rhf func_index
  else
    p ← lift (Mod.get_function_pc m func_index);
    modify (set_pc (Pc p));;
    setup_locals m func_index.

Definition execute_epilogue (func_index : Z) : M ctx (option operand_stack_elem) :=
  ft ← lift (Mod.get_function_type m func_index);
  ex ← gets exiting;
  if negb (return_count ft =? 0) && negb ex then e ← pop_operand; mret (Some e) else mret None.

(** What the scope guard restores. *)
Definition restore (saved : ctx) (c : ctx) : ctx :=
  set_os (WStack.eat (os_index c) (_os c))
    (set_as (WStack.eat (as_index c) (_as c))
      (set_as_index (as_index saved) (set_os_index (os_index saved)
        (set_pc (pc saved) (set_exiting (exiting saved)
          (set_last_op_index (_last_op_index saved)
            (set_remaining_call_depth (_remaining_call_depth saved) c))))))).

(** [execute(host, visitor, func_index, args...)] *)
Definition execute (fuel : nat) (func_index : Z) (args : list operand_stack_elem) (c : ctx)
  : option (outcome (option operand_stack_elem) * ctx) :=
  if negb (func_index <? Mod.uint32_max)
  then Some (Throw (interp_error "cannot execute function, function not found"), c)
  else
    let saved := c in
    let c := set_as_index (wrap 32 (WStack.size (_as c))) (set_os_index (wrap 32 (WStack.size (_os c))) c) in
    match execute_prologue func_index args c with
    | (Throw e, c) => Some (Throw e, restore saved c)
    | (UB w, c) => Some (UB w, c)
    | (Ret _, c) =>
        match (if func_index <? Mod.get_imported_functions_size m then Some (Ret tt, c)
               else execute_loop fuel c) with
        | None => None
        | Some (Throw e, c) => Some (Throw e, restore saved c)
        | Some (UB w, c) => Some (UB w, c)
        | Some (Ret _, c) =>
            let '(r, c) := execute_epilogue func_index c in Some (r, restore saved c)
        end
    end.

(** [execute(host, visitor, name, args...)], [execute_func_table], [execute_start] *)
Definition execute_name (fuel : nat) (name : list Z) (args : list operand_stack_elem) (c : ctx) :=
  execute fuel (Mod.get_exported_function m name) args c.

Definition execute_start (fuel : nat) (c : ctx) : option (outcome (option operand_stack_elem) * ctx) :=
  if negb (start m =? Mod.uint32_max) then execute fuel (start m) [] c else Some (Ret None, c).
End Interpreter.
