(* ===== verification/Backend.v ===== *)
(** * The backend (backend.hpp)

    [backend] owns a module and, usually, an execution context, and puts the
    parser, the linker and the context together.  This is the backend of the
    interpreter, and [null_backend], which parses and links only.  A [module] is
    not written to after [construct], so backends that share one hold copies.  A
    context carries the [wasm_allocator] it points to; [memory_alloc] says whether
    the backend has one.  [assert]s are dropped, as with [NDEBUG]. *)
From S2P Require Import Prelude GuardedPtr WasmStack Allocator Opcodes Types Validation Writers Parser LinearMemory ExecContext HostFunctions Softfloat Simd Interpreter.

(** [impl]: the [Impl] of the template *)
Inductive impl : Type := interpreter | null_backend.

(** A context: its [_mod] pointer and the rest of its state. *)
Record context_t : Type := Context { x_mod : option module; x_state : ctx }.

Record backend : Type := Backend {
  memory_alloc : bool;
  b_mod : module;
  b_allocator : Growable.t;      (* mod->allocator *)
  b_ctx : option context_t;      (* ctx.ptr *)
  ctx_owns : bool;               (* ctx.owns *)
  mod_sharable : bool;
  initial_max_call_depth : Z;
  initial_max_pages : Z
}.

Definition set_b_ctx (x : option context_t) (b : backend) : backend :=
  Backend (memory_alloc b) (b_mod b) (b_allocator b) x (ctx_owns b) (mod_sharable b)
    (initial_max_call_depth b) (initial_max_pages b).

(** A step of the backend that may throw, and may run for too long: the outcome
    and the backend after it. *)
Definition running (A : Type) : Type := option (outcome A * backend).

Section Backend.
Context `{sys : Sys} `{sf : Softfloat}.
(** [HostFunctions]: the registry, [None] for [std::nullptr_t] *)
Context (host_functions_ : option (mappings (M ctx unit))).

Definition _rhf : Z -> M ctx unit :=
  match host_functions_ with Some mp => invoke_host mp | None => invoke_null_host end.

(** ** Parsing *)
Section Parse.
Context {W : Type} `{wr : Writer W} (options : Opt.t).

(** [parse_module(code, options)] *)
Definition parse_module (code : list Z) (m : module) (a : Growable.t) : outcome parser :=
  '(_, a) ← run Growable.use_default_memory a;
  parse_wasm options code m a.

(** [parse_module2] of the parser: the code is at [ptr] *)
Definition parse_at (sz : Z) (m : module) (ptr : guarded_ptr) (a : Growable.t) : outcome parser :=
  '(p, _) ← Parser.parse_module options sz m a ptr; Ret p.

(** [module::finalize] *)
Definition finalize (m : module) (a : Growable.t) : outcome (module * Growable.t) :=
  let n := Z.to_nat (Mod.get_imported_functions_size m) in
  '(_, a) ← run Growable.finalize a;
  Ret (with_import_functions (take n (import_functions m) ++ replicate (n - length (import_functions m)) 0) m, a).

(** [parse_module2(ptr, sz, options, single_parsing)] *)
Definition parse_module2 (ptr : guarded_ptr) (sz : Z) (single_parsing : bool) (m : module) (a : Growable.t)
  : outcome parser :=
  if single_parsing then
    '(_, a) ← run Growable.use_default_memory a;
    parse_at sz m ptr a
  else
    '(_, first_pass_allocator) ← run Growable.use_default_memory Growable.empty;
    p ← parse_at sz empty_module ptr first_pass_allocator;
    '(_, first_pass_allocator) ← finalize (pr_mod p) (pr_allocator p);
    let largest_size := Growable.largest_used_size first_pass_allocator in
    '(_, a) ← run (Growable.use_fixed_memory largest_size) a;
    parse_at sz m ptr a.
End Parse.

(** ** Construction and initialisation *)

(** [context_t{mod, max_call_depth}] and [set_max_pages] *)
Definition new_context (m : module) (max_call_depth max_pages : Z) : context_t :=
  Context (Some m) (set_max_pages_ max_pages (initial_ctx (WasmAlloc.Make (-1) ∅) max_call_depth)).2.

Definition on_context {A} (b : backend) (k : module -> ctx -> option (outcome A * ctx)) : running A :=
  match b_ctx b with
  | None => Some (UB "null context", b)
  | Some (Context None _) => Some (UB "context without a module", b)
  | Some (Context (Some m) c) =>
      match k m c with
      | None => None
      | Some (r, c) => Some (r, set_b_ctx (Some (Context (Some m) c)) b)
      end
  end.

(** [initialize(host)] *)
Definition initialize (fuel : nat) (b : backend) : running unit :=
  if negb (memory_alloc b) then Some (Ret tt, b) else
  on_context b (fun m c =>
    match ExecContext.reset m c with
    | (Ret _, c) =>
        match execute_start m _rhf fuel c with
        | None => None
        | Some (r, c) => Some ((_ ← r; Ret tt), c)
        end
    | (Throw e, c) => Some (Throw e, c)
    | (UB w, c) => Some (UB w, c)
    end).

(** [initialize(host, new_options)] *)
Definition initialize_with (new_options : Opt.t) (fuel : nat) (b : backend) : running unit :=
  match b_ctx b with
  | None => Some (UB "null context", b)
  | Some (Context om c) =>
      initialize fuel (set_b_ctx (Some (Context om
        (set_max_pages_ (Opt.max_pages new_options)
          (set_remaining_call_depth (choose_stack_limit new_options) c)).2)) b)
  end.

(** [construct(host)] up to the initialisation; the [_mod] of the context is the
    module itself, so it has what [finalize] and [resolve] write. *)
Definition prepare (alloc : option WasmAlloc.t) (b : backend) : outcome backend :=
  '(m, a) ← finalize (b_mod b) (b_allocator b);
  x ← (if ctx_owns b then
         x ← or_UB "null context" (b_ctx b);
         let c := match alloc with Some wa => set_wasm_alloc wa (x_state x) | None => x_state x end in
         '(_, c) ← run (initialize_globals m) c;
         Ret (Some c)
       else Ret None);
  m ← match host_functions_ with Some mp => resolve mp m | None => Ret m end;
  Ret (Backend (memory_alloc b) m a
         (match x with Some c => Some (Context (Some m) c) | None => b_ctx b end)
         (ctx_owns b) (mod_sharable b) (initial_max_call_depth b) (initial_max_pages b)).

(** [construct(host)] *)
Definition construct (i : impl) (alloc : option WasmAlloc.t) (fuel : nat) (b : backend) : running unit :=
  match prepare alloc b with
  | Throw e => Some (Throw e, b)
  | UB w => Some (UB w, b)
  | Ret b =>
      match i with
      | interpreter => if ctx_owns b then initialize fuel b else Some (Ret tt, b)
      | null_backend => Some (Ret tt, b)
      end
  end.

(** The constructors up to [construct].  Those that always make a context leave
    [initial_max_call_depth] and [initial_max_pages] at their default, 0. *)
Definition has_alloc (alloc : option WasmAlloc.t) : bool := match alloc with Some _ => true | None => false end.
Definition with_new_context (options : Opt.t) (alloc : option WasmAlloc.t) (p : parser) : backend :=
  Backend (has_alloc alloc) (pr_mod p) (pr_allocator p)
    (Some (new_context (pr_mod p) (choose_stack_limit options) (Opt.max_pages options))) true true 0 0.
Definition with_limits (options : Opt.t) (alloc : option WasmAlloc.t) (exec_ctx_by_backend : bool) (p : parser)
  : backend :=
  let depth := choose_stack_limit options in
  let pages := Opt.max_pages options in
  Backend (has_alloc alloc) (pr_mod p) (pr_allocator p)
    (if exec_ctx_by_backend then Some (new_context (pr_mod p) depth pages) else None)
    exec_ctx_by_backend true depth pages.

(** Parse, then [construct]; an exception leaves no backend. *)
Definition constructed (i : impl) (alloc : option WasmAlloc.t) (fuel : nat) (parsed : outcome parser)
    (make : parser -> backend) : option (outcome backend) :=
  match parsed with
  | Throw e => Some (Throw e)
  | UB w => Some (UB w)
  | Ret p =>
      match construct i alloc fuel (make p) with
      | None => None
      | Some (r, b) => Some (_ ← r; Ret b)
      end
  end.

(** [backend(code, host, alloc, options)], [backend(code, alloc, options)] *)
Definition backend_of_code {W} `{wr : Writer W} (i : impl) (code : list Z) (alloc : option WasmAlloc.t)
    (options : Opt.t) (fuel : nat) : option (outcome backend) :=
  constructed i alloc fuel (parse_module options code empty_module Growable.empty) (with_new_context options alloc).

(** [backend(ptr, sz, host, alloc, options)] *)
Definition backend_of_ptr {W} `{wr : Writer W} (i : impl) (ptr : guarded_ptr) (sz : Z) (alloc : option WasmAlloc.t)
    (options : Opt.t) (fuel : nat) : option (outcome backend) :=
  constructed i alloc fuel (parse_module2 options ptr sz true empty_module Growable.empty) (with_new_context options alloc).

(** [backend(ptr, sz, alloc, options, single_parsing, exec_ctx_by_backend)] *)
Definition backend_of_ptr_ {W} `{wr : Writer W} (i : impl) (ptr : guarded_ptr) (sz : Z) (alloc : option WasmAlloc.t)
    (options : Opt.t) (single_parsing exec_ctx_by_backend : bool) (fuel : nat) : option (outcome backend) :=
  constructed i alloc fuel (parse_module2 options ptr sz single_parsing empty_module Growable.empty)
    (with_limits options alloc exec_ctx_by_backend).

(** [backend()]; it has no module yet. *)
Definition empty_backend : backend :=
  Backend false empty_module Growable.empty None true false 0 0.

(** ** Sharing and the context of another *)

(** [share(from)] *)
Definition share (from b : backend) : backend :=
  Backend (memory_alloc b) (b_mod from) (b_allocator from) (b_ctx b) (ctx_owns from) (mod_sharable b)
    (initial_max_call_depth from) (initial_max_pages from).

(** [set_context(ctx_ptr)] *)
Definition set_context (x : option context_t) (b : backend) : backend :=
  Backend (memory_alloc b) (b_mod b) (b_allocator b) x false (mod_sharable b)
    (initial_max_call_depth b) (initial_max_pages b).

(** [execution_context_base::set_module] *)
Definition set_module (m : module) (x : context_t) : context_t := Context (Some m) (x_state x).

Definition with_state (f : ctx -> ctx) (b : backend) : outcome backend :=
  x ← or_UB "null context" (b_ctx b);
  Ret (set_b_ctx (Some (Context (x_mod x) (f (x_state x)))) b).
(** [reset_max_call_depth()], [reset_max_pages()] *)
Definition reset_max_call_depth (b : backend) : outcome backend :=
  with_state (set_remaining_call_depth (initial_max_call_depth b)) b.
Definition reset_max_pages (b : backend) : outcome backend :=
  with_state (fun c => (set_max_pages_ (initial_max_pages b) c).2) b.
(** [set_wasm_allocator(alloc)] *)
Definition set_wasm_allocator (wa : WasmAlloc.t) (b : backend) : outcome backend :=
  b ← with_state (set_wasm_alloc wa) b;
  Ret (Backend true (b_mod b) (b_allocator b) (b_ctx b) (ctx_owns b) (mod_sharable b)
         (initial_max_call_depth b) (initial_max_pages b)).

(** ** Calls *)

(** [call(host, mod, func, args...)], [operator()], and [call_with_return] with the
    result *)
Definition call_with_return (fuel : nat) (func : list Z) (args : list operand_stack_elem) (b : backend)
  : running (option operand_stack_elem) :=
  on_context b (fun m c => execute_name m _rhf fuel func args c).

Definition dropped {A} (r : running A) : running bool :=
  match r with None => None | Some (o, b) => Some (_ ← o; Ret true, b) end.

Definition call (fuel : nat) (func : list Z) (args : list operand_stack_elem) (b : backend) : running bool :=
  dropped (call_with_return fuel func args b).

(** [call(host, func_index, args...)] *)
Definition call_by_index (fuel : nat) (func_index : Z) (args : list operand_stack_elem) (b : backend)
  : running bool :=
  dropped (on_context b (fun m c => execute m _rhf fuel func_index args c)).

(** [call_indirect(host, func_index, args...)] *)
Definition call_indirect (fuel : nat) (table_index : Z) (args : list operand_stack_elem) (b : backend)
  : running bool :=
  dropped (on_context b (fun m c =>
    match table_elem m table_index c with
    | (Ret i, c) => execute m _rhf fuel i args c
    | (Throw e, c) => Some (Throw e, c)
    | (UB w, c) => Some (UB w, c)
    end)).

(** The function that [execute_all] times: every exported function in order, by
    name and without arguments; the first exception ends it. *)
Fixpoint execute_exports (fuel : nat) (l : list export_entry) (b : backend) : running unit :=
  match l with
  | [] => Some (Ret tt, b)
  | e :: l =>
      if bool_decide (export_kind e = Function_) then
        match call_with_return fuel (field_str e) [] b with
        | Some (Ret _, b) => execute_exports fuel l b
        | Some (Throw x, b) => Some (Throw x, b)
        | Some (UB w, b) => Some (UB w, b)
        | None => None
        end
      else execute_exports fuel l b
  end.
Definition execute_all (fuel : nat) (b : backend) : running unit :=
  execute_exports fuel (exports (b_mod b)) b.
End Backend.
