(* ===== verification/Fixtures.v ===== *)
(** * A small module and states of it

    The inputs of the examples and witnesses: one imported function, a function
    [add] of two parameters and a local, a memory, a table, two globals, an active
    and a passive segment of each kind. *)
From S2P Require Import Prelude WasmStack Allocator Opcodes Types LinearMemory ExecContext.
Import Op(V128).

Definition add_type : func_type := FuncType func [i32; i32] 1 i32.
Definition host_type : func_type := FuncType func [] 0 0.

(** get_local 0; get_local 1; i32.add; return *)
Definition add_code : list Op.opcode :=
  [ Op.VARIABLE_ACCESS Op.get_local 0; Op.VARIABLE_ACCESS Op.get_local 1; Op.NUMERIC Op.i32_add;
    Op.RETURN (Op.ControlFlowImm 3 1 1 0 0) ].
Definition add_body : function_body := FunctionBody 0 [LocalEntry 1 i64] 0 1.

Definition at_offset (n : Z) : init_expr := InitExpr 0x41 (V128 n 0).
Definition example_data : data_segment := DataSegment 0 (at_offset 8) false [1; 2; 3].
Definition example_passive : data_segment := DataSegment 0 (at_offset 0) true [9; 8; 7; 6].
Definition example_elem : elem_segment :=
  ElemSegment 0 (at_offset 1) active [TableEntry 0 1 PcNull; TableEntry 0 0 PcNull].
Definition example_passive_elem : elem_segment :=
  ElemSegment 0 (at_offset 0) passive [TableEntry 7 7 PcNull].

Definition example_memory : memory_type := MemoryType (Limits true 1 4).
Definition example_table : table_type := TableType funcref (Limits false 4 0).
Definition example_global : global_variable :=
  GlobalVariable (GlobalType i32 true) (at_offset 7).
Definition constant_global : global_variable :=
  GlobalVariable (GlobalType i64 false) (at_offset 5).

Definition example_module : module :=
  Module_ add_code Mod.uint32_max [add_type; host_type]
    [ImportEntry [101] [102] Function_ (ImportFunc 1)] [0]
    [example_table] [example_memory] [example_global; constant_global]
    [ExportEntry [97; 100; 100] Function_ 1]
    [example_elem; example_passive_elem] [add_body] [example_data; example_passive] None
    [0] 0 false false None.

(** The same module with the bulk instructions as its code, and a type that differs
    from that of [add] in the type of the result only. *)
Definition bulk_module : module :=
  Module_ [Op.EXT Op.memory_copy; Op.EXT Op.memory_fill; Op.EXT Op.table_copy] Mod.uint32_max [add_type; host_type; FuncType func [i32; i32] 1 i64]
    [ImportEntry [101] [102] Function_ (ImportFunc 1)] [0]
    [example_table] [example_memory] [example_global; constant_global]
    [ExportEntry [97; 100; 100] Function_ 1]
    [example_elem; example_passive_elem] [add_body] [example_data; example_passive] None
    [0] 0 false false None.

(** A module with a passive element segment and no table. *)
Definition tableless_module : module :=
  Module_ add_code Mod.uint32_max [add_type] [] [0] [] [] [] []
    [example_passive_elem] [add_body] [] None [] 0 false false None.

Definition no_host : Z -> M ctx unit := fun _ => mret tt.

(** A stack that holds [l], top first. *)
Definition holding {A} (d : A) (l : list A) : stack A :=
  Stack (reverse l ++ [d]) (Z.of_nat (length l)).

Lemma holding_wf {A} (d : A) l :
  Z.of_nat (length l) < 2 ^ 63 -> WStack.wf (holding d l) /\ WStack.contents (holding d l) = l.
Proof.
  intros Hl. unfold WStack.wf, WStack.contents, WStack.capacity, holding; simpl.
  rewrite length_app, length_reverse. simpl. split; [lia|].
  rewrite Nat2Z.id, <- (length_reverse l), take_app_length, reverse_involutive. done.
Qed.

(** One page of zeroes, the operands [l], at instruction [p]. *)
Definition example_ctx (p : Z) (l : list operand_stack_elem) : ctx :=
  Ctx (WasmAlloc.Make 1 ∅) WasmAlloc.max_pages (holding dflt_elem l) (holding dflt_frame [])
    (gl_init <$> globals example_module) [true; false] [true; false]
    (replicate 4 unset_entry) 0 0 (Pc p) false 0 0 250.
