(* ===== verification/ContextProofs.v ===== *)
(** * Properties of the execution context (execution_context.hpp)

    Symbolic-execution lemmas for the stack and program-counter operations, then
    calls and returns, branches, and the growth of the linear memory. *)
From S2P Require Import Prelude WasmStack Allocator Opcodes Types LinearMemory ExecContext Fixtures.

(** The operand stack of [c] holds [l], top first. *)
Definition stk (c : ctx) (l : list operand_stack_elem) : Prop :=
  WStack.wf (_os c) /\ WStack.contents (_os c) = l.
(** The call stack of [c] holds [l], top first. *)
Definition frames (c : ctx) (l : list activation_frame) : Prop :=
  WStack.wf (_as c) /\ WStack.contents (_as c) = l.

(** Indices into a stack are [uint32_t]. *)
Definition small {A} (l : list A) : Prop := Z.of_nat (length l) < 2 ^ 32.

Lemma stk_index c l : stk c l -> _index (_os c) = Z.of_nat (length l).
Proof. intros [Hw Hc]. by rewrite <- Hc, WStack.contents_length. Qed.

Lemma frames_index c l : frames c l -> _index (_as c) = Z.of_nat (length l).
Proof. intros [Hw Hc]. by rewrite <- Hc, WStack.contents_length. Qed.

Lemma set_os_id c : set_os (_os c) c = c.
Proof. by destruct c. Qed.

(** ** Operations on the operand stack *)
Section Ops.
Context `{sys : Sys} (m : module).
Implicit Types (c : ctx) (E : exn -> ctx -> Prop).

Lemma wp_on_os {A} (k : stack operand_stack_elem -> outcome (A * stack operand_stack_elem))
    (Q : A -> ctx -> Prop) E c a os :
  k (_os c) = Ret (a, os) -> Q a (set_os os c) -> wp (on_os k) Q E c.
Proof. intros Hk HQ. unfold wp, on_os. by rewrite Hk. Qed.

Lemma wp_push el l Q E c :
  stk c l -> Z.of_nat (length l) < 2 ^ 63 ->
  (forall os, WStack.wf os -> WStack.contents os = el :: l -> Q tt (set_os os c)) ->
  wp (push_operand el) Q E c.
Proof.
  intros Hs Hl HQ. pose proof (stk_index c l Hs). destruct Hs as [Hw Hc].
  destruct (WStack.push_ret dflt_elem el (_os c) Hw ltac:(lia)) as (os & Hp & ? & He).
  eapply wp_on_os; [by rewrite Hp|]. apply HQ; [done|]. by rewrite He, Hc.
Qed.

Lemma wp_pop e l Q E c :
  stk c (e :: l) ->
  (forall os, WStack.wf os -> WStack.contents os = l -> Q e (set_os os c)) ->
  wp pop_operand Q E c.
Proof.
  intros [Hw Hc] HQ. destruct (WStack.pop_ret (_os c) e l Hw Hc) as (os & Hp & ? & ? & _).
  eapply wp_on_os; [by rewrite Hp|]. auto.
Qed.

Lemma wp_peek i e l Q E c :
  stk c l -> 0 <= i -> l !! Z.to_nat i = Some e -> Q e c -> wp (peek_operand i) Q E c.
Proof.
  intros [Hw Hc] Hi Hl HQ. eapply wp_on_os.
  - rewrite (WStack.get_back_ret _ i e Hw Hi); [done|by rewrite Hc].
  - by rewrite set_os_id.
Qed.

Lemma wp_set_top el e l Q E c :
  stk c (e :: l) ->
  (forall os, WStack.wf os -> WStack.contents os = el :: l -> Q tt (set_os os c)) ->
  wp (set_top el) Q E c.
Proof.
  intros [Hw Hc] HQ.
  destruct (WStack.set_peek_ret (_os c) el e l Hw Hc) as (os & Hp & ? & ? & _).
  eapply wp_on_os; [by rewrite Hp|]. auto.
Qed.

Lemma wp_eat n l Q E c :
  stk c l -> small l -> 0 <= n <= Z.of_nat (length l) ->
  (forall os, WStack.wf os -> WStack.contents os = drop (length l - Z.to_nat n) l ->
     Q tt (set_os os c)) ->
  wp (eat_operands n) Q E c.
Proof.
  intros Hs Hl Hn HQ. pose proof (stk_index c l Hs). unfold small in Hl.
  destruct Hs as [Hw Hc]. eapply wp_on_os; [done|].
  rewrite wrap_small by (unfold in_u; lia).
  destruct (WStack.contents_eat n (_os c) Hw ltac:(lia)) as [? He].
  apply HQ; [done|]. rewrite He, Hc. f_equal. lia.
Qed.

Lemma wp_compact n e l Q E c :
  stk c (e :: l) -> small (e :: l) -> 0 <= n < Z.of_nat (length (e :: l)) ->
  (forall os, WStack.wf os ->
     WStack.contents os = e :: drop (length (e :: l) - Z.to_nat n) (e :: l) ->
     Q tt (set_os os c)) ->
  wp (compact_operand n) Q E c.
Proof.
  intros Hs Hl Hn HQ. pose proof (stk_index c _ Hs). unfold small in Hl.
  destruct Hs as [Hw Hc].
  destruct (WStack.compact_ret (_os c) n e l Hw Hc ltac:(lia)) as (os & Hp & ? & _ & He).
  eapply wp_on_os; [rewrite wrap_small by (unfold in_u; lia); by rewrite Hp|].
  apply HQ; [done|]. rewrite He, Hc. do 2 f_equal. lia.
Qed.

(** Locals, counted from the base of the frame. *)
Definition local_slot (c : ctx) (l : list operand_stack_elem) (index : Z) : nat :=
  length l - 1 - Z.to_nat (_last_op_index c + index).

Lemma wp_get_operand index l e Q E c :
  stk c l -> small l -> 0 <= _last_op_index c + index < Z.of_nat (length l) ->
  l !! local_slot c l index = Some e -> Q e c -> wp (get_operand index) Q E c.
Proof.
  intros Hs Hl Hn He HQ. pose proof (stk_index c l Hs). unfold small, local_slot in *.
  destruct Hs as [Hw Hc]. unfold get_operand. apply wp_bind, wp_gets.
  eapply wp_on_os; [|by rewrite set_os_id].
  rewrite wrap_small by (unfold in_u; lia).
  rewrite (WStack.get_ret (_os c) _ e); [done|done|lia|]. rewrite Hc, <- He. f_equal. lia.
Qed.

Lemma wp_set_operand index el l Q E c :
  stk c l -> small l -> 0 <= _last_op_index c + index < Z.of_nat (length l) ->
  (forall os, WStack.wf os -> WStack.contents os = <[local_slot c l index := el]> l ->
     Q tt (set_os os c)) ->
  wp (set_operand index el) Q E c.
Proof.
  intros Hs Hl Hn HQ. pose proof (stk_index c l Hs). unfold small, local_slot in *.
  destruct Hs as [Hw Hc]. unfold set_operand. apply wp_bind, wp_gets.
  destruct (WStack.set_ret (_os c) (_last_op_index c + index) el Hw ltac:(lia))
    as (os & Hp & ? & _ & He).
  eapply wp_on_os; [rewrite wrap_small by (unfold in_u; lia); by rewrite Hp|].
  apply HQ; [done|]. rewrite He, Hc. f_equal. lia.
Qed.

Lemma wp_inc_pc p Q E c :
  pc c = Pc p -> Q tt (set_pc (Pc (p + 1)) c) -> wp inc_pc Q E c.
Proof. intros Hp HQ. unfold inc_pc, inc_pc_by, wp, mbind, M_bind, gets, lift, modify. by rewrite Hp. Qed.

Lemma wp_os_size l Q E c : stk c l -> Q (Z.of_nat (length l)) c -> wp os_size Q E c.
Proof. intros Hs HQ. apply wp_gets. unfold WStack.size. by rewrite (stk_index c l Hs). Qed.

(** ** Operations on the call stack *)
Lemma wp_push_frame f l Q E c :
  frames c l -> Z.of_nat (length l) < 2 ^ 63 ->
  (forall s, WStack.wf s -> WStack.contents s = f :: l -> Q tt (set_as s c)) ->
  wp (push_frame f) Q E c.
Proof.
  intros Hs Hl HQ. pose proof (frames_index c l Hs). destruct Hs as [Hw Hc].
  destruct (WStack.push_ret dflt_frame f (_as c) Hw ltac:(lia)) as (s & Hp & ? & He).
  unfold wp, push_frame, on_as. rewrite Hp. apply HQ; [done|]. by rewrite He, Hc.
Qed.

Lemma wp_pop_call f l Q E c :
  frames c (f :: l) ->
  (forall s, WStack.wf s -> WStack.contents s = l -> Q f (set_as s c)) ->
  wp pop_call Q E c.
Proof.
  intros [Hw Hc] HQ. destruct (WStack.pop_ret (_as c) f l Hw Hc) as (s & Hp & ? & ? & _).
  unfold wp, pop_call, on_as. rewrite Hp. auto.
Qed.
End Ops.

(** ** Calls and returns *)

(** What a local of type [t] starts with. *)
Definition zero_value (t : Z) : operand_stack_elem :=
  match zero_local t with Ret e => e | _ => dflt_elem end.
Definition value_type (t : Z) : Prop := t ∈ [i32; i64; f32; f64; v128].

Lemma zero_local_ret t : value_type t -> zero_local t = Ret (zero_value t).
Proof. unfold value_type. intros H. repeat (apply elem_of_cons in H as [->|H]; [done|]). by apply elem_of_nil in H. Qed.

(** The declared locals of a function, in order. *)
Definition zero_locals (ls : list local_entry) : list operand_stack_elem :=
  ls ≫= fun l => replicate (Z.to_nat (local_count l)) (zero_value (local_type l)).

Section Calls.
Context `{sys : Sys} (m : module) (_rhf : Z -> M ctx unit).
Implicit Types (c : ctx) (E : exn -> ctx -> Prop).

Lemma wp_push_zeros t (ks : list nat) l (Q : unit -> ctx -> Prop) E c :
  value_type t -> stk c l -> Z.of_nat (length ks + length l) < 2 ^ 63 ->
  (forall os, WStack.wf os ->
     WStack.contents os = replicate (length ks) (zero_value t) ++ l -> Q tt (set_os os c)) ->
  wp (for_each (fun _ => el ← lift (zero_local t); push_operand el) ks) Q E c.
Proof.
  intros Ht. revert l c. induction ks as [|k ks IH]; intros l c Hs Hl HQ; simpl.
  - destruct Hs. rewrite <- (set_os_id c). by apply HQ.
  - apply wp_bind, wp_bind. eapply wp_lift_Ret; [by apply zero_local_ret|].
    simpl in Hl. eapply wp_push; [done|lia|]. intros os Hw Hc.
    apply (IH (zero_value t :: l)); [done|simpl; lia|].
    intros os' Hw' Hc'. apply (HQ os'); [done|]. rewrite Hc'.
    replace (length (k :: ks)) with (length ks + 1)%nat by (simpl; lia).
    by rewrite replicate_add, <- app_assoc.
Qed.

Lemma wp_setup_locals f fn l (Q : unit -> ctx -> Prop) E c :
  nthZ (code m) (f - Mod.get_imported_functions_size m) = Some fn ->
  Forall (fun e => value_type (local_type e)) (fb_locals fn) ->
  stk c l -> Z.of_nat (length (zero_locals (fb_locals fn)) + length l) < 2 ^ 63 ->
  (forall os, WStack.wf os ->
     WStack.contents os = reverse (zero_locals (fb_locals fn)) ++ l -> Q tt (set_os os c)) ->
  wp (setup_locals m f) Q E c.
Proof.
  intros Hfn Ht Hs Hl HQ. unfold setup_locals. apply wp_bind. eapply wp_lift_Ret; [by rewrite Hfn|].
  clear Hfn. revert l c Hs Hl HQ. induction Ht as [|e ls He Hls IH]; intros l c Hs Hl HQ; simpl.
  - destruct Hs. rewrite <- (set_os_id c). by apply HQ.
  - apply wp_bind. simpl in Hl. rewrite length_app, length_replicate in Hl.
    eapply wp_push_zeros; [done|done|rewrite length_seq; lia|].
    intros os Hw Hc. rewrite length_seq in Hc.
    eapply IH; [split; [done|exact Hc]|rewrite length_app, length_replicate; lia|].
    intros os' Hw' Hc'. apply (HQ os'); [done|].
    rewrite Hc'. simpl. rewrite reverse_app, <- app_assoc. by rewrite reverse_replicate.
Qed.

(** A function the module defines, with its type and the depth one of its frames
    uses. *)
Record defined_function (f : Z) (ft : func_type) (fn : function_body) (size : Z) : Prop := {
  df_index : Mod.get_imported_functions_size m <= f;
  df_type : Mod.get_function_type m f = Ret ft;
  df_body : nthZ (code m) (f - Mod.get_imported_functions_size m) = Some fn;
  df_locals : Forall (fun e => value_type (local_type e)) (fb_locals fn);
  df_size : Mod.get_function_stack_size m f = Ret size
}.

Lemma df_pc f ft fn size :
  defined_function f ft fn size -> Mod.get_function_pc m f = Ret (fb_code fn).
Proof.
  intros [Hi _ Hb _ _]. unfold Mod.get_function_pc, EOS_VM_ASSERT, vec_at.
  destruct (Z.leb_spec (Mod.get_imported_functions_size m) f); [simpl|lia]. by rewrite Hb.
Qed.

(** The state in which the body of a called function starts. *)
Record entered (c : ctx) (ft : func_type) (fn : function_body) (size : Z) (ret : opcode_ptr)
    (l : list operand_stack_elem) (fs : list activation_frame) (c1 : ctx) : Prop := {
  en_pc : pc c1 = Pc (fb_code fn);
  en_stk : stk c1 (reverse (zero_locals (fb_locals fn)) ++ l);
  en_frames : frames c1 (ActivationFrame ret (_last_op_index c) :: fs);
  en_base : _last_op_index c1 = Z.of_nat (length l) - Z.of_nat (length (param_types ft));
  en_depth : _remaining_call_depth c1 = _remaining_call_depth c - size;
  en_rest : c1 = set_pc (pc c1) (set_os (_os c1) (set_as (_as c1)
    (set_last_op_index (_last_op_index c1)
      (set_remaining_call_depth (_remaining_call_depth c1) c))))
}.

(** Room for the call on both stacks. *)
Definition room (ft : func_type) (fn : function_body) (l : list operand_stack_elem)
    (fs : list activation_frame) : Prop :=
  (length (param_types ft) <= length l)%nat /\
  Z.of_nat (length (zero_locals (fb_locals fn)) + length l) < 2 ^ 32 /\
  Z.of_nat (length fs) < 2 ^ 32.

Lemma wp_call_depth f ft fn size p l fs c :
  defined_function f ft fn size -> pc c = Pc p -> stk c l -> frames c fs -> room ft fn l fs ->
  wp (call m _rhf f) (fun _ => entered c ft fn size (Pc (p + 1)) l fs) (fun _ _ => _remaining_call_depth c < size) c.
Proof.
  intros Hf Hp Hs Hfs (Hn & Hl & Hfl). pose proof Hf as [Hi Ht Hb Hlt Hsz].
  unfold call. destruct (Z.ltb_spec f (Mod.get_imported_functions_size m)); [lia|].
  unfold push_call. do 3 (apply wp_bind; try apply wp_gets).
  eapply wp_lift_Ret; [by rewrite Hp|]. apply wp_bind. eapply wp_lift_Ret; [exact Hsz|].
  unfold enter_frame. apply wp_bind, wp_bind, wp_gets, wp_bind, wp_assertM; intros Hle;
    destruct_bools; [|done].
  apply wp_modify, wp_bind, wp_gets, wp_bind.
  eapply (wp_push_frame _ fs); [exact Hfs|lia|]. intros s Hsw Hsc.
  apply wp_bind. eapply (wp_os_size l); [exact Hs|]. apply wp_bind. eapply wp_lift_Ret; [exact Ht|].
  apply wp_modify, wp_bind.
  eapply (wp_setup_locals f fn l); [exact Hb|exact Hlt|exact Hs|lia|]. intros os Hw Hc.
  apply wp_bind. eapply wp_lift_Ret; [exact (df_pc _ _ _ _ Hf)|]. apply wp_modify.
  split; try done. simpl. apply wrap_small. unfold in_u. lia.
Qed.

Lemma wp_call f ft fn size p l fs c :
  defined_function f ft fn size -> pc c = Pc p -> stk c l -> frames c fs -> room ft fn l fs ->
  size <= _remaining_call_depth c ->
  wp (call m _rhf f) (fun _ => entered c ft fn size (Pc (p + 1)) l fs) (fun _ _ => False) c.
Proof.
  intros Hf Hp Hs Hfs Hr Hd. eapply wp_mono; [by apply wp_call_depth|done|]. intros e c' H. simpl in H. lia.
Qed.

(** [apply_pop_call] with the immediates of the function's [return]: the number
    of its parameters and locals, whether it returns a value, and its frame
    size. *)
Lemma wp_apply_pop_call n rc size ret base results vars rest fs c :
  stk c (results ++ vars ++ rest) -> small (results ++ vars ++ rest) ->
  frames c (ActivationFrame ret base :: fs) ->
  n = Z.of_nat (length vars) -> rc = Z.of_nat (length results) -> rc <= 1 ->
  0 <= size -> 0 <= _remaining_call_depth c -> _remaining_call_depth c + size < 2 ^ 32 ->
  wp (apply_pop_call n rc size)
    (fun _ c' => pc c' = ret /\ _last_op_index c' = base /\ stk c' (results ++ rest) /\
       frames c' fs /\ _remaining_call_depth c' = _remaining_call_depth c + size /\
       c' = set_pc (pc c') (set_os (_os c') (set_as (_as c') (set_last_op_index (_last_op_index c')
         (set_remaining_call_depth (_remaining_call_depth c') c)))))
    (fun _ _ => False) c.
Proof.
  intros Hs Hsm Hf -> -> Hrc Hsz Hd Hov. unfold apply_pop_call.
  apply wp_bind. eapply wp_pop_call; [exact Hf|]. intros s Hsw Hsc.
  apply wp_bind, wp_modify, wp_bind, wp_modify, wp_bind.
  eapply (wp_os_size (results ++ vars ++ rest)); [exact Hs|]. apply wp_bind.
  assert (Hw : wrap 32 (_remaining_call_depth c + size) = _remaining_call_depth c + size)
    by (apply wrap_small; unfold in_u; lia).
  destruct results as [|e [|? ?]]; simpl in *; [| |lia].
  - rewrite length_app in *. eapply wp_eat; [exact Hs|exact Hsm|rewrite length_app; lia|].
    intros os Hw' Hc. rewrite length_app in Hc.
    replace (length vars + length rest - Z.to_nat _)%nat with (length vars) in Hc by lia.
    rewrite drop_app_length in Hc. apply wp_modify. simpl. rewrite Hw. done.
  - rewrite length_app in *. eapply wp_compact; [exact Hs|exact Hsm|simpl; rewrite length_app; lia|].
    intros os Hw' Hc. simpl length in Hc. rewrite length_app in Hc.
    replace (S (length vars + length rest) - Z.to_nat _)%nat with (S (length vars)) in Hc by lia.
    simpl in Hc. rewrite drop_app_length in Hc. apply wp_modify. simpl. rewrite Hw. done.
Qed.
End Calls.

Section CallTheorems.
Context `{sys : Sys} (m : module) (_rhf : Z -> M ctx unit).
Implicit Types (c : ctx).

(** C14. A call of a function the module defines enters its body with the
    parameters and the zero-initialised locals above the caller's operands, and the
    matching return restores the caller: the program counter after the call, the
    frame base, the call depth and the call stack, with exactly the arguments
    replaced by the result. *)
Theorem call_then_return f ft fn size p args rest fs c :
  defined_function m f ft fn size -> pc c = Pc p ->
  stk c (args ++ rest) -> frames c fs -> room ft fn (args ++ rest) fs ->
  length args = length (param_types ft) ->
  0 <= size <= _remaining_call_depth c -> _remaining_call_depth c < 2 ^ 32 ->
  exists c1, call m _rhf f c = (Ret tt, c1) /\
    entered c ft fn size (Pc (p + 1)) (args ++ rest) fs c1 /\
    forall c2 results vars,
      frames c2 (ActivationFrame (Pc (p + 1)) (_last_op_index c) :: fs) ->
      _remaining_call_depth c2 = _remaining_call_depth c1 ->
      stk c2 (results ++ vars ++ rest) -> small (results ++ vars ++ rest) ->
      length vars = (length args + length (zero_locals (fb_locals fn)))%nat ->
      (length results <= 1)%nat ->
      exists c3,
        apply_pop_call (Z.of_nat (length args + length (zero_locals (fb_locals fn))))
          (Z.of_nat (length results)) size c2 = (Ret tt, c3) /\
        pc c3 = Pc (p + 1) /\ _last_op_index c3 = _last_op_index c /\
        stk c3 (results ++ rest) /\ frames c3 fs /\
        _remaining_call_depth c3 = _remaining_call_depth c.
Proof.
  intros Hf Hp Hs Hfs Hr Ha Hd Hd32.
  destruct (wp_returns _ _ _ (wp_call m _rhf f ft fn size p _ fs c Hf Hp Hs Hfs Hr ltac:(lia)))
    as ([] & c1 & Hc & He).
  exists c1. split; [done|]. split; [done|]. intros c2 results vars Hf2 Hd2 Hs2 Hsm Hv Hres.
  destruct He as [_ _ _ _ Hdep _].
  destruct (wp_returns _ _ _ (wp_apply_pop_call
      (Z.of_nat (length args + length (zero_locals (fb_locals fn))))
      (Z.of_nat (length results)) size _ _ results vars rest fs c2 Hs2 Hsm Hf2
      ltac:(lia) eq_refl ltac:(lia) ltac:(lia) ltac:(lia) ltac:(lia)))
    as ([] & c3 & Hc3 & ? & ? & ? & ? & ? & _).
  exists c3. split_and!; try done. lia.
Qed.

Lemma guarded_final {A} (g : ctx -> ctx) (k : M ctx A) c r c' :
  guarded g k c = (r, c') -> exists c0, c' = g c0.
Proof. unfold guarded. destruct (k c) as [r0 c0]. intros [= <- <-]. eauto. Qed.

Lemma type_check_state ft c : (type_check ft c).2 = c.
Proof.
  unfold type_check. generalize (zip (seqZ 0 (Z.of_nat (length (param_types ft)))) (param_types ft)).
  generalize (Z.of_nat (length (param_types ft))) as n.
  intros n l. induction l as [|[i t] l IH]; simpl; [done|].
  unfold mbind, M_bind at 1, M_bind at 1, peek_operand, on_os, assertM, lift, EOS_VM_ASSERT.
  destruct (WStack.get_back (n - 1 - i) (_os c)) as [e|e|w]; simpl; try done.
  rewrite set_os_id. destruct (t =? elem_type e); [exact IH|done].
Qed.

Lemma call_too_deep f c ft fn size p :
  defined_function m f ft fn size -> pc c = Pc p -> _remaining_call_depth c < size ->
  call m _rhf f c = (Throw (wasm_interpreter_exception "stack overflow"), c).
Proof.
  intros [Hi Ht Hb _ Hsz] Hp Hd. unfold call.
  destruct (Z.ltb_spec f (Mod.get_imported_functions_size m)); [lia|].
  unfold push_call, enter_frame, mbind, M_bind, gets, lift, assertM, modify, EOS_VM_ASSERT.
  rewrite Hp. simpl. rewrite Hsz.
  destruct (Z.leb_spec size (_remaining_call_depth c)); [lia|done].
Qed.

(** A host call has moved the pc when it finds that the depth is used up. *)
Lemma host_call_too_deep f c t ft size p :
  f < Mod.get_imported_functions_size m -> Mod.import_func_t m f = Ret t -> nthZ (types m) t = Some ft ->
  (type_check ft c).1 = Ret tt -> pc c = Pc p -> Mod.get_function_stack_size m f = Ret size ->
  _remaining_call_depth c < size ->
  call m _rhf f c = (Throw (wasm_interpreter_exception "stack overflow"), set_pc (Pc (p + 1)) c).
Proof.
  intros Hi Ht Hft Hc Hp Hs Hd. unfold call. rewrite (proj2 (Z.ltb_lt _ _) Hi).
  unfold mbind, M_bind at 1, lift. rewrite Ht. unfold M_bind at 1. rewrite Hft. simpl or_UB.
  unfold M_bind at 1. pose proof (type_check_state ft c) as Hst. destruct (type_check ft c) as [r c1]. simpl in Hst, Hc. subst.
  unfold M_bind at 1, inc_pc, inc_pc_by, mbind, M_bind at 1, gets, M_bind at 1, lift. rewrite Hp. simpl ptr_add. unfold modify.
  unfold M_bind at 1. rewrite Hs. unfold M_bind at 1, M_bind at 1, assertM, EOS_VM_ASSERT, lift. simpl _remaining_call_depth.
  by rewrite (proj2 (Z.leb_gt _ _) Hd).
Qed.

(** C30. The call-depth limit.  A call whose frame does not fit in the remaining depth
    throws "stack overflow": a call of a defined function before anything changes, a call
    of a host function, when its operands have the types it takes, with the pc moved to the
    next instruction and nothing else changed.  A call of a host function, whatever the
    host function does, leaves the remaining depth as it found it when it returns and when
    it throws. *)
Theorem call_depth_limit f c :
  (forall ft fn size p, defined_function m f ft fn size -> pc c = Pc p ->
     _remaining_call_depth c < size ->
     call m _rhf f c = (Throw (wasm_interpreter_exception "stack overflow"), c)) /\
  (forall t ft size p, f < Mod.get_imported_functions_size m -> Mod.import_func_t m f = Ret t ->
     nthZ (types m) t = Some ft -> (type_check ft c).1 = Ret tt -> pc c = Pc p ->
     Mod.get_function_stack_size m f = Ret size -> _remaining_call_depth c < size ->
     call m _rhf f c = (Throw (wasm_interpreter_exception "stack overflow"), set_pc (Pc (p + 1)) c)) /\
  (forall r c', f < Mod.get_imported_functions_size m -> call m _rhf f c = (r, c') ->
     _remaining_call_depth c' = _remaining_call_depth c).
Proof.
  split; [|split].
  - intros ft fn size p. apply call_too_deep.
  - intros t ft size p. apply host_call_too_deep.
  - intros r c' Hi. unfold call.
    destruct (Z.ltb_spec f (Mod.get_imported_functions_size m)); [|lia].
    unfold mbind, M_bind at 1, lift. destruct (Mod.import_func_t m f) as [t|e|w]; try (by intros [= <- <-]).
    unfold M_bind at 1. destruct (or_UB _ _) as [ft|e|w]; try (by intros [= <- <-]).
    unfold M_bind at 1. pose proof (type_check_state ft c) as Hst.
    destruct (type_check ft c) as [[[]|e|w] c1]; simpl in Hst; subst c1; try (by intros [= <- <-]).
    unfold M_bind at 1, inc_pc, inc_pc_by, mbind, M_bind at 1, gets, M_bind at 1, lift.
    destruct (ptr_add _ 1) as [q|e|w]; try (by intros [= <- <-]). unfold modify.
    unfold M_bind at 1. destruct (Mod.get_function_stack_size m f) as [n|e|w]; try (by intros [= <- <-]).
    unfold M_bind at 1, M_bind at 1, assertM, EOS_VM_ASSERT, lift.
    destruct (_ <=? _); [|by intros [= <- <-]].
    intros [c0 ->]%guarded_final. done.
Qed.
End CallTheorems.

(** ** Branches *)
Section Jump.
Context (m : module).
Implicit Types (c : ctx).

Lemma land_flag n : 0 <= n < 2 ^ 31 ->
  Z.land n 0x80000000 = 0 /\ Z.land (2 ^ 31 + n) 0x80000000 = 0x80000000 /\
  Z.land (2 ^ 31 + n) 0x7FFFFFFF = n.
Proof.
  intros Hn. assert (Ht : forall i, 31 <= i -> Z.testbit n i = false).
  { intros i Hi. rewrite <- (Z.mod_small n (2 ^ 31)) by lia. apply Z.mod_pow2_bits_high. lia. }
  assert (H0 : Z.land n (2 ^ 31) = 0).
  { apply Z.bits_inj'. intros i Hi. rewrite Z.land_spec, Z.pow2_bits_eqb, Z.bits_0 by lia.
    destruct (Z.eqb_spec 31 i); [subst; by rewrite Ht|by rewrite andb_false_r]. }
  assert (Hor : 2 ^ 31 + n = Z.lor (2 ^ 31) n).
  { rewrite Z.land_comm in H0. by rewrite Z.add_nocarry_lxor, Z.lxor_lor. }
  change 0x80000000 with (2 ^ 31). change 0x7FFFFFFF with (Z.ones 31).
  split; [done|]. split.
  - rewrite Hor, Z.land_lor_distr_l, H0, Z.land_diag, Z.lor_0_r. done.
  - rewrite Z.land_ones by lia. rewrite <- (Z.mod_small n (2 ^ 31)) at 2 by lia.
    rewrite Z.add_comm. replace (2 ^ 31) with (1 * 2 ^ 31) at 1 by lia. by rewrite Z.mod_add.
Qed.

Lemma jump_ok n new_pc l c :
  nthZ (code m) 0 <> None -> 0 <= n < 2 ^ 31 -> stk c l -> small l ->
  (n <= Z.of_nat (length l) ->
     exists c', jump m n new_pc c = (Ret tt, c') /\ pc c' = Pc new_pc /\
       stk c' (drop (Z.to_nat n) l) /\ c' = set_pc (Pc new_pc) (set_os (_os c') c)) /\
  (forall v rest, l = v :: rest -> 1 <= n <= Z.of_nat (length l) ->
     exists c', jump m (2 ^ 31 + n) new_pc c = (Ret tt, c') /\ pc c' = Pc new_pc /\
       stk c' (v :: drop (Z.to_nat (n - 1)) rest) /\ c' = set_pc (Pc new_pc) (set_os (_os c') c)).
Proof.
  intros Hcode Hn Hs Hl. destruct (land_flag n Hn) as (H0 & H1 & H2).
  assert (Hrel : forall Q (E : exn -> ctx -> Prop) c0,
    Q tt (set_pc (Pc new_pc) c0) -> wp (set_relative_pc m new_pc) Q E c0).
  { intros Q E c0 HQ. unfold set_relative_pc. apply wp_bind.
    destruct (nthZ (code m) 0) as [fn|] eqn:Hf; [|done].
    eapply wp_lift_Ret; [done|]. by apply wp_modify. }
  split.
  - intros Hlen.
    edestruct (wp_returns (jump m n new_pc) (fun _ c' => pc c' = Pc new_pc /\
      stk c' (drop (Z.to_nat n) l) /\ c' = set_pc (Pc new_pc) (set_os (_os c') c)) c) as ([] & c' & ? & ? & ? & ?); [|eauto].
    unfold jump. apply wp_bind, Hrel. rewrite H0. simpl. apply wp_bind.
    eapply (wp_os_size l); [done|].
    eapply (wp_eat _ l); [exact Hs|done|lia|]. intros os Hw Hc. split; [done|].
    split; [|done]. split; [done|]. simpl. rewrite Hc. f_equal. lia.
  - intros v rest -> Hlen.
    edestruct (wp_returns (jump m (2 ^ 31 + n) new_pc) (fun _ c' => pc c' = Pc new_pc /\
      stk c' (v :: drop (Z.to_nat (n - 1)) rest) /\ c' = set_pc (Pc new_pc) (set_os (_os c') c)) c) as ([] & c' & ? & ? & ? & ?); [|eauto].
    unfold jump. apply wp_bind, Hrel. rewrite H1, H2. simpl. unfold small in Hl. simpl in *.
    apply wp_bind. eapply (wp_pop v rest); [exact Hs|]. intros os Hw Hc.
    apply wp_bind. eapply (wp_os_size rest); [by split|]. apply wp_bind.
    rewrite wrap_small by (unfold in_u; lia).
    eapply (wp_eat _ rest); [by split|unfold small; lia|lia|]. intros os2 Hw2 Hc2.
    eapply (wp_push v); [by split|rewrite length_drop; lia|].
    intros os3 Hw3 Hc3. split; [done|]. split; [|done]. split; [done|]. simpl. rewrite Hc3. do 2 f_equal. lia.
Qed.

(** C26. A taken branch lands on its target and pops exactly the operands its
    immediate counts, leaving the rest of the context alone: [n] of them when the label carries no value, and, when it
    carries one (bit 31 set), the [n - 1] below the top, which stays. *)
Theorem jump_pops n new_pc l c :
  nthZ (code m) 0 <> None -> 0 <= n < 2 ^ 31 -> stk c l -> small l ->
  (n <= Z.of_nat (length l) ->
     exists c', jump m n new_pc c = (Ret tt, c') /\ pc c' = Pc new_pc /\
       stk c' (drop (Z.to_nat n) l) /\ c' = set_pc (Pc new_pc) (set_os (_os c') c)) /\
  (forall v rest, l = v :: rest -> 1 <= n <= Z.of_nat (length l) ->
     exists c', jump m (2 ^ 31 + n) new_pc c = (Ret tt, c') /\ pc c' = Pc new_pc /\
       stk c' (v :: drop (Z.to_nat (n - 1)) rest) /\ c' = set_pc (Pc new_pc) (set_os (_os c') c)).
Proof. apply jump_ok. Qed.
End Jump.

(** ** Growing the linear memory *)
Section Grow.
Context `{sys : Sys} {Hsucc : SysSucceeds sys} (m : module).
Import WasmAlloc.

(** The page limit in force: the context's, and the module's when it declares a
    maximum. *)
Definition page_limit (mem : memory_type) (c : ctx) : Z :=
  if flags (memory_limits mem) then Z.min (_max_pages c) (maximum (memory_limits mem))
  else _max_pages c.

Lemma grow_nonneg_eq pages mem mems c :
  memories m = mem :: mems -> 0 <= pages < 2 ^ 31 ->
  0 <= page (_wasm_alloc c) <= _max_pages c -> _max_pages c <= max_pages ->
  (flags (memory_limits mem) = true -> page (_wasm_alloc c) <= maximum (memory_limits mem) <= max_pages) ->
  grow_linear_memory m pages c =
    if page_limit mem c <? page (_wasm_alloc c) + pages then (Ret (-1), c)
    else (on_wasm_alloc (alloc pages);; mret (page (_wasm_alloc c))) c.
Proof.
  intros Hm Hp Hsz Hmax Hmm. change max_pages with 65536 in *.
  set (sz := page (_wasm_alloc c)) in *.
  unfold grow_linear_memory, current_linear_memory, page_limit.
  unfold mbind, M_bind, gets, lift. fold sz. rewrite Hm.
  destruct (Z.ltb_spec pages 0); [lia|].
  rewrite (wrap_small 32 (_max_pages c - sz)) by (unfold in_u; lia).
  destruct (flags (memory_limits mem)); [specialize (Hmm eq_refl)|clear Hmm].
  - rewrite sext_small, int_expr_ret by (unfold in_s; lia). simpl.
    zcases; simpl; done || lia.
  - simpl. zcases; simpl; done || lia.
Qed.

(** C25. [memory.grow]: for a non-negative argument the memory grows by that many
    zero pages, keeps its contents and the old size is returned, exactly when the
    new size is within the page limit; otherwise the result is -1 and nothing
    changes.  The limit is the smaller of the context's and the maximum the memory
    declares, or the context's alone when it declares none.  A negative argument gives
    pages back instead of failing, if there are so many; otherwise the result is -1. *)
Theorem grow_linear_memory_spec pages mem mems c :
  memories m = mem :: mems -> in_s 32 pages ->
  0 <= page (_wasm_alloc c) <= _max_pages c -> _max_pages c <= max_pages ->
  (flags (memory_limits mem) = true -> page (_wasm_alloc c) <= maximum (memory_limits mem) <= max_pages) ->
  let sz := page (_wasm_alloc c) in
  (0 <= pages -> sz + pages <= page_limit mem c ->
     exists wa, grow_linear_memory m pages c = (Ret sz, set_wasm_alloc wa c) /\
       page wa = sz + pages /\
       (forall a, a < page_size * sz -> byte_at (bytes wa) a = byte_at (bytes (_wasm_alloc c)) a) /\
       (forall a, page_size * sz <= a < page_size * page wa -> byte_at (bytes wa) a = 0)) /\
  (0 <= pages -> page_limit mem c < sz + pages -> grow_linear_memory m pages c = (Ret (-1), c)) /\
  (pages < 0 -> 0 <= sz + pages ->
     exists wa, grow_linear_memory m pages c = (Ret sz, set_wasm_alloc wa c) /\
       page wa = sz + pages) /\
  (pages < 0 -> sz + pages < 0 -> grow_linear_memory m pages c = (Ret (-1), c)).
Proof.
  intros Hm Hp Hsz Hmax Hmm sz. fold sz in Hsz, Hmm.
  assert (Hwf : wasm_alloc_wf (_wasm_alloc c)) by (unfold wasm_alloc_wf; fold sz; lia).
  assert (Hpos : 0 <= pages -> _) by
    (intros; exact (grow_nonneg_eq pages mem mems c Hm ltac:(unfold in_s in Hp; lia) Hsz Hmax Hmm)).
  fold sz in Hpos. change max_pages with 65536 in *. unfold in_s in Hp.
  split_and!; intros.
  - rewrite Hpos by lia. destruct (Z.ltb_spec (page_limit mem c) (sz + pages)); [lia|].
    unfold mbind, M_bind, on_wasm_alloc. rewrite wasm_alloc_alloc_eq by (done || lia). fold sz.
    assert (sz + pages <= 65536) by (unfold page_limit in *; destruct (flags _); lia).
    destruct (Z.eqb_spec pages 0) as [->|].
    { exists (_wasm_alloc c). split; [done|]. fold sz. split; [lia|].
      split; [done|]. intros a Ha. unfold page_size in *. lia. }
    destruct (Z.ltb_spec sz 0); [lia|].
    change max_pages with 65536. destruct (Z.leb_spec (sz + pages) 65536); [|lia].
    eexists; split; [done|]. simpl. split; [done|].
    split; intros a Ha; rewrite byte_at_zero_range;
      destruct (Z.leb_spec (page_size * sz) a), (Z.ltb_spec a (page_size * sz + page_size * pages));
      simpl; try done; unfold page_size in *; lia.
  - rewrite Hpos by lia. by destruct (Z.ltb_spec (page_limit mem c) (sz + pages)); [|lia].
  - unfold grow_linear_memory, current_linear_memory, mbind, M_bind, gets, lift, on_wasm_alloc.
    fold sz. destruct (Z.ltb_spec pages 0); [|lia]. rewrite int_expr_ret by (unfold in_s; lia).
    destruct (Z.ltb_spec (sz + pages) 0); [lia|]. rewrite int_expr_ret by (unfold in_s; lia).
    rewrite wasm_alloc_free_eq by (done || lia). fold sz.
    destruct (Z.eqb_spec (- pages) 0); [lia|]. destruct (Z.ltb_spec sz 0); [lia|].
    destruct (Z.leb_spec (- pages) sz); [|lia]. eexists; split; [done|]. simpl. lia.
  - unfold grow_linear_memory, current_linear_memory, mbind, M_bind, gets, lift.
    fold sz. destruct (Z.ltb_spec pages 0); [|lia]. rewrite int_expr_ret by (unfold in_s; lia).
    destruct (Z.ltb_spec (sz + pages) 0); [done|lia].
Qed.
End Grow.

(** ** Witnesses *)
Lemma example_defined : defined_function example_module 1 add_type add_body 1.
Proof. constructor; try reflexivity. repeat constructor. Qed.
Definition call_example : ctx := example_ctx 5 [i32_const_t 2; i32_const_t 40; i32_const_t 1].
Lemma call_then_return_witness :
  exists c1, call example_module no_host 1 call_example = (Ret tt, c1) /\ pc c1 = Pc 0 /\
    _remaining_call_depth c1 = 249.
Proof.
  destruct (call_then_return example_module no_host 1 add_type add_body 1 5
    [i32_const_t 2; i32_const_t 40] [i32_const_t 1] [] call_example) as (c1 & Hc & He & _).
  - exact example_defined.
  - reflexivity.
  - apply holding_wf. reflexivity.
  - apply holding_wf. reflexivity.
  - split; [simpl; lia|]. split; reflexivity.
  - reflexivity.
  - vm_compute. split; discriminate.
  - reflexivity.
  - exists c1. split; [exact Hc|]. split; [exact (en_pc _ _ _ _ _ _ _ _ He)|exact (en_depth _ _ _ _ _ _ _ _ He)].
Defined.

Lemma call_depth_limit_witness :
  call example_module no_host 1 (set_remaining_call_depth 0 call_example) =
    (Throw (wasm_interpreter_exception "stack overflow"), set_remaining_call_depth 0 call_example) /\
  call example_module no_host 0 (set_remaining_call_depth 0 call_example) =
    (Throw (wasm_interpreter_exception "stack overflow"), set_pc (Pc 6) (set_remaining_call_depth 0 call_example)).
Proof.
  split.
  - refine (proj1 (call_depth_limit example_module no_host 1 (set_remaining_call_depth 0 call_example))
      add_type add_body 1 5 example_defined _ _); reflexivity.
  - refine (proj1 (proj2 (call_depth_limit example_module no_host 0 (set_remaining_call_depth 0 call_example)))
      1 host_type 1 5 _ _ _ _ _ _ _); reflexivity.
Defined.

Lemma jump_pops_witness :
  exists c', jump example_module (2 ^ 31 + 2) 3 call_example = (Ret tt, c') /\ pc c' = Pc 3 /\
    stk c' [i32_const_t 2; i32_const_t 1] /\ c' = set_pc (Pc 3) (set_os (_os c') call_example).
Proof.
  destruct (jump_pops example_module 2 3 [i32_const_t 2; i32_const_t 40; i32_const_t 1] call_example)
    as [_ H].
  - vm_compute. discriminate.
  - lia.
  - apply holding_wf. reflexivity.
  - reflexivity.
  - apply (H (i32_const_t 2) [i32_const_t 40; i32_const_t 1]); [reflexivity|simpl; lia].
Defined.

(** A memory of at most four pages, and one without a declared maximum in a context with
    room for five pages *)
Definition unbounded_memory : memory_type := MemoryType (Limits false 1 0).
Definition unbounded_module : module := with_memories [unbounded_memory] example_module.
Definition small_context : ctx := set_max_pages 5 call_example.
Lemma grow_linear_memory_spec_witness :
  (exists wa, grow_linear_memory (sys := linux) example_module 3 call_example = (Ret 1, set_wasm_alloc wa call_example) /\
     WasmAlloc.page wa = 4) /\
  grow_linear_memory (sys := linux) example_module 4 call_example = (Ret (-1), call_example) /\
  (exists wa, grow_linear_memory (sys := linux) unbounded_module 4 small_context = (Ret 1, set_wasm_alloc wa small_context) /\
     WasmAlloc.page wa = 5) /\
  grow_linear_memory (sys := linux) unbounded_module 5 small_context = (Ret (-1), small_context).
Proof.
  assert (Hp : forall n, 0 <= n < 100 -> in_s 32 n) by (unfold in_s; lia).
  assert (Hb : forall a b, (a <=? b) = true -> a <= b) by (intros; destruct_bools; lia).
  pose proof (fun n H => grow_linear_memory_spec (sys := linux) example_module n example_memory [] call_example
    eq_refl (Hp n H) ltac:(split; by apply Hb) ltac:(by apply Hb) ltac:(intros _; split; by apply Hb)) as G.
  pose proof (fun n H => grow_linear_memory_spec (sys := linux) unbounded_module n unbounded_memory [] small_context
    eq_refl (Hp n H) ltac:(split; by apply Hb) ltac:(by apply Hb) ltac:(discriminate)) as U.
  split; [|split; [|split]].
  - destruct (proj1 (G 3 ltac:(lia)) ltac:(lia) ltac:(by apply Hb)) as (wa & E & Hpg & _). by exists wa.
  - exact (proj1 (proj2 (G 4 ltac:(lia))) ltac:(lia) ltac:(reflexivity)).
  - destruct (proj1 (U 4 ltac:(lia)) ltac:(lia) ltac:(by apply Hb)) as (wa & E & Hpg & _). by exists wa.
  - exact (proj1 (proj2 (U 5 ltac:(lia))) ltac:(lia) ltac:(reflexivity)).
Defined.
