(* ===== verification/InstanceProofs.v ===== *)
(** * Segments, tables, globals and [reset] (execution_context.hpp)

    What [memory.init], [table.init], the drops, the global accessors and the
    re-initialisation of a context do, on every branch. *)
From S2P Require Import Prelude WasmStack Allocator Opcodes Types LinearMemory ExecContext Fixtures.
Import WasmAlloc.

(** The bytes of [l] at offset [s], [n] of them. *)
Definition slice {A} (s n : Z) (l : list A) : list A := take (Z.to_nat n) (drop (Z.to_nat s) l).

Lemma length_slice {A} s n (l : list A) :
  0 <= s -> 0 <= n -> s + n <= Z.of_nat (length l) -> length (slice s n l) = Z.to_nat n.
Proof. intros. unfold slice. rewrite length_take, length_drop. lia. Qed.

Section Segments.
Context `{sys : Sys} {Hok : SysOk sys} (m : module).
Implicit Types (c : ctx).

Lemma syspagesize_pos : 1 <= syspagesize.
Proof. destruct Hok as [(k & Hk & ->)]. pose proof (Z.pow_pos_nonneg 2 k). lia. Qed.

(** A well-formed memory: there is one, of at most 4 GiB. *)
Definition memory_ok (s : t) : Prop := 0 <= page s <= max_pages.

Lemma page_bytes_bound s : memory_ok s -> 0 <= page_bytes s <= 2 ^ 32.
Proof. unfold memory_ok, page_bytes. change max_pages with 65536. unfold page_size. lia. Qed.

(** [validate_pointer] on bytes decides whether the range is inside the memory,
    the empty range included. *)
Lemma validate_pointer_bytes ptr len s :
  memory_ok s -> in_u 32 ptr -> in_u 32 len ->
  validate_pointer 1 ptr len s = if ptr + len <=? page_bytes s then Ret tt else Throw oob.
Proof.
  intros Hm [Hp1 Hp2] [Hl1 Hl2]. pose proof (page_bytes_bound s Hm). pose proof syspagesize_pos.
  unfold validate_pointer, EOS_VM_ASSERT, access, prefix_size, suffix_size, table_size, max_memory.
  rewrite Z.div_1_r, Z.mul_1_r. destruct (Z.leb_spec len (2 ^ 32 - 1)); [|lia].
  unfold memory_ok in Hm. simpl. zcases; simpl; done || lia.
Qed.

(** Writing inside the memory. *)
Lemma copy_to_memory_eq a l c :
  memory_ok (_wasm_alloc c) -> 0 <= a -> a + Z.of_nat (length l) <= page_bytes (_wasm_alloc c) ->
  copy_to_memory a l c =
    (Ret tt, set_wasm_alloc (set_bytes (store_bytes a l (bytes (_wasm_alloc c))) (_wasm_alloc c)) c).
Proof.
  intros Hm Ha Hl. unfold memory_ok in Hm.
  unfold copy_to_memory, mbind, M_bind, gets, lift, modify, access.
  destruct (Z.leb_spec 0 a); [simpl|lia].
  destruct (Z.leb_spec (a + Z.of_nat (length l)) (page_bytes (_wasm_alloc c))); [simpl|lia].
  by destruct (Z.leb_spec 0 (page (_wasm_alloc c))); [|lia].
Qed.

(** C23. [memory.init]: it copies [n] bytes of the segment, or of an empty one
    once it is dropped, to address [d] and changes nothing else; it throws, with
    nothing written, exactly when the source range is not inside the segment or
    the destination range not inside the memory. *)
Theorem init_linear_memory_spec x d s n seg dropped c :
  nthZ (data_segments m) x = Some seg -> nthZ (_dropped_data c) x = Some dropped ->
  memory_ok (_wasm_alloc c) -> in_u 32 d -> in_u 32 s -> in_u 32 n ->
  let data := if dropped then [] else ds_data seg in
  (Z.of_nat (length data) < s + n ->
     init_linear_memory m x d s n c = (Throw (wasm_memory_exception "data out of range"), c)) /\
  (s + n <= Z.of_nat (length data) -> page_bytes (_wasm_alloc c) < d + n ->
     init_linear_memory m x d s n c = (Throw oob, c)) /\
  (s + n <= Z.of_nat (length data) -> d + n <= page_bytes (_wasm_alloc c) ->
     exists mem, init_linear_memory m x d s n c =
       (Ret tt, set_wasm_alloc (set_bytes mem (_wasm_alloc c)) c) /\
       forall a, byte_at mem a =
         match nthZ (slice s n data) (a - d) with
         | Some b => b | None => byte_at (bytes (_wasm_alloc c)) a end).
Proof.
  intros Hseg Hdr Hm Hd Hs Hn data.
  unfold init_linear_memory, mbind, M_bind, lift, gets, assertM, EOS_VM_ASSERT.
  rewrite Hseg. simpl. rewrite Hdr. simpl.
  assert (Hlen : (if dropped then 0 else Z.of_nat (length (ds_data seg))) = Z.of_nat (length data))
    by (unfold data; by destruct dropped).
  rewrite Hlen.
  destruct (Z.leb_spec (s + n) (Z.of_nat (length data))); (split; [|split]); intros; try lia; [| |done].
  - rewrite validate_pointer_bytes by done.
    by destruct (Z.leb_spec (d + n) (page_bytes (_wasm_alloc c))); [lia|].
  - rewrite validate_pointer_bytes by done.
    destruct (Z.leb_spec (d + n) (page_bytes (_wasm_alloc c))); [|lia].
    destruct Hd as [Hd _], Hs as [Hs _], Hn as [Hn _].
    destruct (Z.eqb_spec n 0) as [->|]; [|destruct (Z.eqb_spec (Z.of_nat (length data)) 0); [lia|]].
    + rewrite andb_false_r. exists (bytes (_wasm_alloc c)). split.
      * destruct c as [[] ? ? ? ? ? ? ? ? ? ? ? ? ? ?]. done.
      * intros a. unfold slice. simpl. unfold nthZ. by destruct (_ <? 0).
    + simpl. destruct dropped; simpl in *; [lia|].
      assert (Hls : length (slice s n (ds_data seg)) = Z.to_nat n) by (apply length_slice; lia).
      fold (slice s n (ds_data seg)). rewrite copy_to_memory_eq by (done || lia).
      eexists; split; [done|]. intros a. apply byte_at_store.
Qed.

(** ** Tables *)
Lemma list_inserts_lookup {A} (l t : list A) (d i : nat) :
  (d + length l <= length t)%nat ->
  list_inserts d l t !! i =
    if decide (d <= i < d + length l)%nat then l !! (i - d)%nat else t !! i.
Proof.
  intros Hl. case_decide as H.
  - rewrite list_lookup_inserts by lia. done.
  - destruct (decide (i < d)%nat).
    + by rewrite list_lookup_inserts_lt.
    + by rewrite list_lookup_inserts_ge by lia.
Qed.

(** C24. [table.init] copies [n] entries of the element segment, or of an empty
    one once it is dropped, to index [d]; it throws, with no entry written,
    exactly when the source range is not inside the segment or the destination
    range not inside the table. *)
Theorem init_table_spec x d s n seg dropped t ts c :
  nthZ (elements m) x = Some seg -> nthZ (_dropped_elems c) x = Some dropped ->
  tables m = t :: ts -> Z.of_nat (length (_table c)) = initial (table_limits t) ->
  in_u 32 d -> in_u 32 s -> in_u 32 n ->
  let elems := if dropped then [] else es_elems seg in
  (Z.of_nat (length elems) < s + n ->
     init_table m x d s n c = (Throw (wasm_memory_exception "elem out of range"), c)) /\
  (s + n <= Z.of_nat (length elems) -> initial (table_limits t) < d + n ->
     init_table m x d s n c = (Throw oob, c)) /\
  (s + n <= Z.of_nat (length elems) -> d + n <= initial (table_limits t) ->
     exists tb, init_table m x d s n c = (Ret tt, set_table tb c) /\
       length tb = length (_table c) /\
       forall i : nat, tb !! i =
         if decide (d <= Z.of_nat i < d + n) then elems !! Z.to_nat (s + (Z.of_nat i - d))
         else _table c !! i).
Proof.
  intros Hseg Hdr Ht Htl [Hd _] [Hs _] [Hn _] elems.
  unfold init_table, mbind, M_bind, lift, gets, assertM, EOS_VM_ASSERT.
  rewrite Hseg. simpl. rewrite Hdr. simpl.
  assert (Hlen : (if dropped then 0 else Z.of_nat (length (es_elems seg))) = Z.of_nat (length elems))
    by (unfold elems; by destruct dropped).
  rewrite Hlen.
  destruct (Z.leb_spec (s + n) (Z.of_nat (length elems))); (split; [|split]); intros; try lia; [| |done];
    unfold table0; rewrite Ht; simpl.
  - by destruct (Z.leb_spec (d + n) (initial (table_limits t))); [lia|].
  - destruct (Z.leb_spec (d + n) (initial (table_limits t))); [|lia].
    destruct (Z.eqb_spec (Z.of_nat (length elems)) 0) as [E|].
    + simpl. exists (_table c). split; [by destruct c|]. split; [done|].
      intros i. case_decide; [lia|done].
    + simpl. destruct dropped; simpl in *; [lia|].
      assert (Hls : length (slice s n (es_elems seg)) = Z.to_nat n) by (apply length_slice; lia).
      fold (slice s n (es_elems seg)).
      unfold write_table, mbind, M_bind, gets, modify.
      destruct (Z.leb_spec 0 d); [simpl|lia].
      destruct (Z.leb_spec (d + Z.of_nat (length (slice s n (es_elems seg)))) (Z.of_nat (length (_table c))));
        [simpl|lia].
      eexists; split; [done|]. split; [apply length_inserts|]. intros i.
      rewrite list_inserts_lookup by lia.
      repeat case_decide; try lia; [|done].
      unfold slice. rewrite lookup_take, lookup_drop. case_decide; [|lia]. f_equal. lia.
Qed.
End Segments.

(** ** Globals *)

(** The bits of a value are in range. *)
Definition value_ok (e : operand_stack_elem) : Prop :=
  match e with
  | i32_const_t n | f32_const_t n => in_u 32 n
  | i64_const_t n | f64_const_t n => in_u 64 n
  | v128_const_t v => in_u 64 (Op.low v) /\ in_u 64 (Op.high v)
  end.

Lemma ev_i32_set n v : in_u 32 n -> ev_i32 (ev_set_i32 n v) = n.
Proof.
  intros Hn. unfold ev_i32, ev_set_i32. simpl. rewrite (wrap_small 32 n) by done.
  rewrite <- land_ones_wrap, Z.land_lor_distr_l by lia.
  rewrite !land_ones_wrap, (wrap_small 32 n) by (lia || done).
  unfold wrap. rewrite Z.shiftl_mul_pow2, Z.mod_mul by lia. apply Z.lor_0_l.
Qed.

Lemma ev_i64_set n v : in_u 64 n -> ev_i64 (ev_set_i64 n v) = n.
Proof. intros. unfold ev_i64, ev_set_i64. simpl. by apply wrap_small. Qed.

Section Globals.
Context `{sys : Sys} (m : module).
Implicit Types (c : ctx).

Lemma get_global_eq index gl ie c :
  nthZ (globals m) index = Some gl -> nthZ (_globals c) index = Some ie ->
  get_global m index c =
    let t := content_type (gl_type gl) in
    let v := ie_value ie in
    (if t =? i32 then Ret (i32_const_t (ev_i32 v))
     else if t =? i64 then Ret (i64_const_t (ev_i64 v))
     else if t =? f32 then Ret (f32_const_t (ev_i32 v))
     else if t =? f64 then Ret (f64_const_t (ev_i64 v))
     else if t =? v128 then Ret (v128_const_t v)
     else Throw (wasm_interpreter_exception "invalid global type"), c).
Proof.
  intros Hg Hi. pose proof (nthZ_bounds _ _ _ Hg). pose proof (nthZ_bounds _ _ _ Hi).
  unfold get_global, mbind, M_bind, assertM, EOS_VM_ASSERT, gets, lift.
  destruct (Z.ltb_spec index (Z.of_nat (length (globals m)))); [simpl|lia].
  destruct (Z.ltb_spec index (Z.of_nat (length (_globals c)))); [simpl|lia].
  rewrite Hg. simpl. rewrite Hi. simpl. by repeat case_match.
Qed.

Lemma get_global_ext j c c' :
  length (_globals c) = length (_globals c') -> nthZ (_globals c) j = nthZ (_globals c') j ->
  (get_global m j c).1 = (get_global m j c').1.
Proof.
  intros Hl Hn. unfold get_global, mbind, M_bind, assertM, EOS_VM_ASSERT, gets, lift.
  destruct (j <? Z.of_nat (length (globals m))); [simpl|done]. rewrite Hl.
  destruct (j <? _); [simpl|done]. destruct (nthZ (globals m) j); [simpl|done]. rewrite Hn.
  destruct (nthZ (_globals c') j); [simpl|done]. by repeat destruct (_ =? _).
Qed.

Lemma nthZ_insert {A} (l : list A) i j x :
  0 <= i -> nthZ (<[Z.to_nat i := x]> l) j =
    if (j =? i) && (i <? Z.of_nat (length l)) then Some x else nthZ l j.
Proof.
  intros Hi. unfold nthZ. destruct (Z.eqb_spec j i) as [->|Hne]; simpl.
  - destruct (Z.ltb_spec i 0); [lia|]. rewrite list_lookup_insert.
    destruct (Z.ltb_spec i (Z.of_nat (length l))); case_decide as Hd; try done; try lia.
  - destruct (Z.ltb_spec j 0); [done|]. rewrite list_lookup_insert_ne by lia. done.
Qed.

(** A global reads back what was stored in it and no other global changes; a
    store to an immutable global, or of another type than the global's, throws
    and changes nothing; a read has the global's type. *)
Theorem global_access index gl ie el c :
  nthZ (globals m) index = Some gl -> nthZ (_globals c) index = Some ie -> value_ok el ->
  (mutability (gl_type gl) = true -> content_type (gl_type gl) = elem_type el ->
     exists c', set_global m index el c = (Ret tt, c') /\
       get_global m index c' = (Ret el, c') /\
       (forall j, j <> index -> (get_global m j c').1 = (get_global m j c).1)) /\
  (mutability (gl_type gl) = false ->
     set_global m index el c = (Throw (wasm_interpreter_exception "global is not mutable"), c)) /\
  (mutability (gl_type gl) = true -> content_type (gl_type gl) <> elem_type el ->
     set_global m index el c = (Throw (set_global_type_error el), c)) /\
  (forall v c', get_global m index c = (Ret v, c') ->
     elem_type v = content_type (gl_type gl) /\ c' = c).
Proof.
  intros Hg Hi Hel. pose proof (nthZ_bounds _ _ _ Hg). pose proof (nthZ_bounds _ _ _ Hi) as Hb.
  assert (Hset : set_global m index el c =
    if mutability (gl_type gl) then
      if content_type (gl_type gl) =? elem_type el then
        (Ret tt, set_globals (<[Z.to_nat index :=
           InitExpr (ie_opcode ie) (store_global_value el (ie_value ie))]> (_globals c)) c)
      else (Throw (set_global_type_error el), c)
    else (Throw (wasm_interpreter_exception "global is not mutable"), c)).
  { unfold set_global, mbind, M_bind, assertM, EOS_VM_ASSERT, gets, lift, modify.
    destruct (Z.ltb_spec index (Z.of_nat (length (globals m)))); [simpl|lia].
    destruct (Z.ltb_spec index (Z.of_nat (length (_globals c)))); [simpl|lia].
    rewrite Hg. simpl. destruct (mutability _); [|done].
    destruct (_ =? elem_type el); [|done]. rewrite Hi. simpl. rewrite insZ_Some by lia. done. }
  split_and!.
  - intros Hmut Hty. rewrite Hset, Hmut, Hty, Z.eqb_refl. eexists; split; [done|]. split.
    + erewrite get_global_eq; [|exact Hg|simpl; rewrite nthZ_insert by lia;
        rewrite Z.eqb_refl; by destruct (Z.ltb_spec index (Z.of_nat (length (_globals c)))); [|lia]].
      rewrite Hty. destruct el; cbn [elem_type store_global_value ie_value value_ok] in *;
        rewrite ?(ev_i32_set _ _ Hel), ?(ev_i64_set _ _ Hel); done.
    + intros j Hj. apply get_global_ext; simpl; [by rewrite length_insert|].
      rewrite nthZ_insert by lia. by destruct (Z.eqb_spec j index).
  - intros Hmut. by rewrite Hset, Hmut.
  - intros Hmut Hty. rewrite Hset, Hmut. by destruct (Z.eqb_spec (content_type (gl_type gl)) (elem_type el)).
  - intros v c'. rewrite (get_global_eq _ _ _ _ Hg Hi). simpl.
    repeat (match goal with |- context [?t =? ?k] => destruct (Z.eqb_spec t k) as [->|] end;
      [intros [= <- <-]; done|]). done.
Qed.
End Globals.

(** ** Re-initialisation *)
Lemma set_table_id c : set_table (_table c) c = c.
Proof. by destruct c. Qed.

Section Reset.
Context `{sys : Sys} {Hsys : SysOk sys} {Hsucc : SysSucceeds sys} (m : module).
Implicit Types (c : ctx).

Definition seg_offset (seg : data_segment) : Z := ev_i32 (ie_value (ds_offset seg)).
Definition elem_offset (seg : elem_segment) : Z := ev_i32 (ie_value (es_offset seg)).

(** The memory, the dropped flags and the table that the active segments leave. *)
Definition data_image (segs : list data_segment) (b : gmap Z Z) : gmap Z Z :=
  fold_left (fun b seg => if ds_passive seg then b else store_bytes (seg_offset seg) (ds_data seg) b)
    segs b.
Definition data_active (segs : list data_segment) : list bool := (fun s => negb (ds_passive s)) <$> segs.

Definition elem_image (segs : list elem_segment) (t : list table_entry) : list table_entry :=
  fold_left (fun t seg => match es_mode seg with
    | active => list_inserts (Z.to_nat (elem_offset seg)) (es_elems seg) t
    | _ => t end) segs t.
Definition elem_gone (segs : list elem_segment) : list bool :=
  (fun s => match es_mode s with passive => false | _ => true end) <$> segs.

(** A segment fits: a passive one always does. *)
Definition data_fits (seg : data_segment) : Prop :=
  ds_passive seg = false ->
  exists mem mems, memories m = mem :: mems /\
    seg_offset seg + Z.of_nat (length (ds_data seg)) <= initial (memory_limits mem) * page_size.
Definition elem_fits (t : table_type) (seg : elem_segment) : Prop :=
  es_mode seg = active ->
  elem_offset seg + Z.of_nat (length (es_elems seg)) <= initial (table_limits t).

Lemma ev_i32_range v : in_u 32 (ev_i32 v).
Proof. apply wrap_in_u. lia. Qed.

(** The flags of the segments processed so far, then those still to come. *)
Lemma set_flag (done : list bool) todo :
  set_nth_true (done ++ false :: todo) (Z.of_nat (length done)) = Ret ((done ++ [true]) ++ todo).
Proof.
  unfold set_nth_true. rewrite insZ_Some by (rewrite length_app; simpl; lia). simpl.
  rewrite Nat2Z.id, insert_app_r_alt, Nat.sub_diag by done. simpl. by rewrite <- app_assoc.
Qed.

Lemma indexed_cons {A} i (x : A) l :
  zip (seqZ i (Z.of_nat (length (x :: l)))) (x :: l) =
  (i, x) :: zip (seqZ (i + 1) (Z.of_nat (length l))) l.
Proof.
  rewrite (seqZ_cons i) by (simpl; lia). simpl. do 3 f_equal. lia.
Qed.

Lemma wp_copy_data a l c :
  memory_ok (_wasm_alloc c) -> 0 <= a -> a + Z.of_nat (length l) <= page_bytes (_wasm_alloc c) ->
  wp (if negb (Z.of_nat (length l) =? 0) then copy_to_memory a l else mret tt)
    (fun _ c' => c' = set_wasm_alloc (set_bytes (store_bytes a l (bytes (_wasm_alloc c))) (_wasm_alloc c)) c)
    (fun _ _ => False) c.
Proof.
  intros Hok Ha Hl. destruct l as [|b l].
  - apply wp_ret. by destruct c as [[] ? ? ? ? ? ? ? ? ? ? ? ? ? ?].
  - simpl negb. unfold wp. by rewrite copy_to_memory_eq.
Qed.

(** One data segment; [flags] are those of the segments before it. *)
Lemma wp_data_segment seg flags todo c mem mems :
  memories m = mem :: mems -> in_u 32 (initial (memory_limits mem)) ->
  memory_ok (_wasm_alloc c) -> page (_wasm_alloc c) = initial (memory_limits mem) ->
  _dropped_data c = flags ++ false :: todo ->
  wp (reset_data_segment m (Z.of_nat (length flags), seg))
    (fun _ c' => data_fits seg /\
       c' = set_dropped_data ((flags ++ [negb (ds_passive seg)]) ++ todo)
              (set_wasm_alloc (set_bytes (data_image [seg] (bytes (_wasm_alloc c))) (_wasm_alloc c)) c))
    (fun _ _ => ~ data_fits seg) c.
Proof.
  intros Hm Hi Hok Hp Hd. unfold reset_data_segment. cbv zeta beta iota. fold (seg_offset seg).
  unfold data_image. simpl fold_left. destruct (ds_passive seg) eqn:Hps.
  { apply wp_ret. split; [intros ?; congruence|]. simpl. rewrite <- app_assoc. simpl. rewrite <- Hd.
    by destruct c as [[] ? ? ? ? ? ? ? ? ? ? ? ? ? ?]. }
  assert (Hav : wrap 64 (initial (memory_limits mem) * page_size) = initial (memory_limits mem) * page_size)
    by (apply wrap_small; unfold in_u, page_size in *; lia).
  apply wp_bind. eapply wp_lift_Ret; [by rewrite Hm|].
  apply wp_bind, wp_assertM; intros Hle; destruct_bools; rewrite Hav in Hle.
  - apply wp_bind. eapply wp_mono; [apply wp_copy_data| |done].
    + done.
    + apply ev_i32_range.
    + unfold page_bytes. rewrite Hp. lia.
    + intros _ c1 ->. unfold drop_data. apply wp_bind, wp_gets, wp_bind.
      eapply wp_lift_Ret; [simpl; rewrite Hd; apply set_flag|]. apply wp_modify. split; [|done].
      intros _. exists mem, mems. split; [done|lia].
  - intros Hf. destruct (Hf Hps) as (? & ? & Hm' & ?). rewrite Hm in Hm'. injection Hm' as <- <-. lia.
Qed.

Lemma wp_data_segments (segs : list data_segment) flags c mem mems :
  memories m = mem :: mems -> in_u 32 (initial (memory_limits mem)) ->
  memory_ok (_wasm_alloc c) -> page (_wasm_alloc c) = initial (memory_limits mem) ->
  _dropped_data c = flags ++ replicate (length segs) false ->
  wp (for_each (reset_data_segment m) (zip (seqZ (Z.of_nat (length flags)) (Z.of_nat (length segs))) segs))
    (fun _ c' => Forall data_fits segs /\
       c' = set_dropped_data (flags ++ data_active segs)
              (set_wasm_alloc (set_bytes (data_image segs (bytes (_wasm_alloc c))) (_wasm_alloc c)) c))
    (fun _ _ => ~ Forall data_fits segs) c.
Proof.
  intros Hm Hi. revert flags c.
  induction segs as [|seg segs IH]; intros flags c Hok Hp Hd.
  - simpl in *. apply wp_ret. split; [done|].
    destruct c as [[] ? ? ? ? ? ? ? ? ? ? ? ? ? ?]. simpl in *. by subst.
  - rewrite indexed_cons. simpl for_each. apply wp_bind.
    eapply wp_mono; [by eapply (wp_data_segment seg flags (replicate (length segs) false))| |].
    + intros _ c1 [Hfit ->].
      replace (Z.of_nat (length flags) + 1) with (Z.of_nat (length (flags ++ [negb (ds_passive seg)])))
        by (rewrite length_app; simpl; lia).
      eapply wp_mono; [apply (IH (flags ++ [negb (ds_passive seg)])); done| |].
      * intros _ c' [Hf ->]. split; [by constructor|]. by rewrite <- app_assoc.
      * intros e c' Hn Hf. apply Hn. by inversion Hf.
    + intros e c1 Hn Hf. apply Hn. by inversion Hf.
Qed.

(** One element segment, and all of them. *)
Lemma wp_elem_segment t seg flags todo c :
  Z.of_nat (length (_table c)) = initial (table_limits t) ->
  _dropped_elems c = flags ++ false :: todo ->
  wp (reset_elem_segment t (Z.of_nat (length flags), seg))
    (fun _ c' => elem_fits t seg /\
       c' = set_dropped_elems ((flags ++ elem_gone [seg]) ++ todo)
              (set_table (elem_image [seg] (_table c)) c))
    (fun _ _ => ~ elem_fits t seg) c.
Proof.
  intros Ht Hd. unfold reset_elem_segment, elem_image, elem_gone, elem_fits. simpl fold_left.
  cbv zeta. fold (elem_offset seg).
  assert (Hdrop : forall tb, wp (drop_elem (Z.of_nat (length flags)))
    (fun _ c' => c' = set_dropped_elems ((flags ++ [true]) ++ todo) (set_table tb c))
    (fun _ _ => False) (set_table tb c)).
  { intros tb. unfold drop_elem. apply wp_bind, wp_gets, wp_bind.
    eapply wp_lift_Ret; [simpl; rewrite Hd; apply set_flag|]. by apply wp_modify. }
  simpl fmap. destruct (es_mode seg) eqn:Hmode.
  - apply wp_bind, wp_assertM; intros Hle; destruct_bools; [|intros Hf; specialize (Hf eq_refl); lia].
    apply wp_bind. eapply wp_mono with (Q := fun _ c1 =>
      c1 = set_table (list_inserts (Z.to_nat (elem_offset seg)) (es_elems seg) (_table c)) c)
      (E := fun _ _ => False); [|intros _ c1 ->|done].
    + pose proof (ev_i32_range (ie_value (es_offset seg))) as [Ho _]. fold (elem_offset seg) in Ho.
      destruct (Z.eqb_spec (Z.of_nat (length (es_elems seg))) 0) as [E|]; simpl negb.
      { destruct (es_elems seg); [apply wp_ret; by destruct c|done]. }
      unfold write_table. apply wp_bind, wp_gets.
      destruct (Z.leb_spec 0 (elem_offset seg)); [simpl andb|lia].
      destruct (Z.leb_spec (elem_offset seg + Z.of_nat (length (es_elems seg)))
                  (Z.of_nat (length (_table c)))); [by apply wp_modify|lia].
    + eapply wp_mono; [apply Hdrop| |done]. intros _ c' ->. split; [intros _; lia|done].
  - apply wp_ret. split; [done|]. rewrite <- app_assoc. simpl. rewrite <- Hd. by destruct c.
  - specialize (Hdrop (_table c)). rewrite set_table_id in Hdrop.
    eapply wp_mono; [exact Hdrop| |done]. intros _ c' ->. split; [done|]. by destruct c.
Qed.

Lemma length_elem_image segs tb : length (elem_image segs tb) = length tb.
Proof.
  unfold elem_image. revert tb. induction segs as [|seg segs IH]; intros tb; simpl; [done|].
  rewrite IH. destruct (es_mode seg); [apply length_inserts|done|done].
Qed.

Lemma wp_elem_segments t (segs : list elem_segment) flags c :
  Z.of_nat (length (_table c)) = initial (table_limits t) ->
  _dropped_elems c = flags ++ replicate (length segs) false ->
  wp (for_each (reset_elem_segment t) (zip (seqZ (Z.of_nat (length flags)) (Z.of_nat (length segs))) segs))
    (fun _ c' => Forall (elem_fits t) segs /\
       c' = set_dropped_elems (flags ++ elem_gone segs) (set_table (elem_image segs (_table c)) c))
    (fun _ _ => ~ Forall (elem_fits t) segs) c.
Proof.
  revert flags c. induction segs as [|seg segs IH]; intros flags c Ht Hd.
  - simpl in *. apply wp_ret. split; [done|]. destruct c. simpl in *. by subst.
  - rewrite indexed_cons. simpl for_each. apply wp_bind.
    eapply wp_mono; [by eapply (wp_elem_segment t seg flags (replicate (length segs) false))| |].
    + intros _ c1 [Hfit ->].
      replace (Z.of_nat (length flags) + 1) with (Z.of_nat (length (flags ++ elem_gone [seg])))
        by (rewrite length_app; simpl; lia).
      eapply wp_mono; [apply (IH (flags ++ elem_gone [seg]))| |].
      * cbn [_table set_table set_dropped_elems]. by rewrite length_elem_image.
      * done.
      * intros _ c' [Hf ->]. split; [by constructor|]. rewrite <- app_assoc. done.
      * intros e c' Hn Hf. apply Hn. by inversion Hf.
    + intros e c1 Hn Hf. apply Hn. by inversion Hf.
Qed.

(** The module can be instantiated in [c]: it parsed, its memory is allowed, and
    every active segment fits. *)
Record instantiable (c : ctx) : Prop := {
  in_error : error m = None;
  in_memory : forall mem mems, memories m = mem :: mems ->
    initial (memory_limits mem) <= _max_pages c;
  in_data : Forall data_fits (data_segments m);
  in_elems : forall t ts, tables m = t :: ts -> Forall (elem_fits t) (elements m)
}.

(** What [reset] leaves, in terms of the module alone, except for the table
    fields of a module without tables. *)
Record fresh (c c' : ctx) : Prop := {
  fr_os : WStack.wf (_os c') /\ WStack.contents (_os c') = [];
  fr_as : WStack.wf (_as c') /\ WStack.contents (_as c') = [];
  fr_pc : pc c' = PcNull /\ exiting c' = false;
  fr_globals : _globals c' = gl_init <$> globals m;
  fr_dropped : _dropped_data c' = data_active (data_segments m);
  fr_memory : match memories m with
    | mem :: _ => page (_wasm_alloc c') = initial (memory_limits mem) /\
        forall a, 0 <= a < page_bytes (_wasm_alloc c') ->
          byte_at (bytes (_wasm_alloc c')) a = byte_at (data_image (data_segments m) ∅) a
    | [] => page (_wasm_alloc c') = -1
    end;
  fr_table : match tables m with
    | t :: _ =>
        _table c' = elem_image (elements m)
          (replicate (Z.to_nat (initial (table_limits t))) unset_entry) /\
        _dropped_elems c' = elem_gone (elements m)
    | [] => _table c' = _table c /\ _dropped_elems c' = _dropped_elems c
    end
}.

(** What the parser guarantees of the limits and segments. *)
Record limits_ok : Prop := {
  lo_memory : forall mem mems, memories m = mem :: mems -> in_u 32 (initial (memory_limits mem));
  lo_data : memories m = [] -> Forall (fun s => ds_passive s = true) (data_segments m);
  lo_table : forall t ts, tables m = t :: ts -> 0 <= initial (table_limits t)
}.

Lemma byte_at_data_image segs b1 b2 a :
  byte_at b1 a = byte_at b2 a -> byte_at (data_image segs b1) a = byte_at (data_image segs b2) a.
Proof.
  unfold data_image. revert b1 b2. induction segs as [|seg segs IH]; intros b1 b2 E; simpl; [done|].
  apply IH. destruct (ds_passive seg); [done|]. rewrite !byte_at_store. by destruct (nthZ _ _).
Qed.

Lemma passive_segments segs i c :
  Forall (fun s => ds_passive s = true) segs ->
  for_each (reset_data_segment m) (zip (seqZ i (Z.of_nat (length segs))) segs) c = (Ret tt, c) /\
  Forall data_fits segs /\ data_active segs = replicate (length segs) false.
Proof.
  intros Hp. revert i. induction Hp as [|seg segs Hs Hp IH]; intros i; [done|].
  rewrite indexed_cons. simpl. rewrite Hs. destruct (IH (i + 1)) as (E & Hf & Ha).
  split; [|split].
  - exact E.
  - constructor; [|done]. intros ?. congruence.
  - simpl. by rewrite Ha.
Qed.

Lemma wp_reset_memory c :
  wasm_alloc_wf (_wasm_alloc c) -> _max_pages c <= max_pages -> limits_ok ->
  wp (reset_memory m)
    (fun _ c' => (forall mem mems, memories m = mem :: mems ->
         initial (memory_limits mem) <= _max_pages c) /\
       exists wa, c' = set_wasm_alloc wa c /\
       match memories m with
       | mem :: _ => page wa = initial (memory_limits mem) /\ all_zero (initial (memory_limits mem)) wa
           /\ memory_ok wa
       | [] => page wa = -1
       end)
    (fun _ _ => ~ instantiable c) c.
Proof.
  intros Hwf Hmax [Hlm _ _]. unfold reset_memory. destruct (memories m) as [|mem mems] eqn:Hm.
  - destruct (reset_none_ret (_wasm_alloc c)) as (wa & E & Hp).
    unfold wp, on_wasm_alloc. rewrite E. split; [done|]. by exists wa.
  - apply wp_bind, wp_gets, wp_bind, wp_assertM; intros Hle; destruct_bools.
    + pose proof (Hlm mem mems eq_refl) as [? ?].
      destruct (reset_pages_ret (initial (memory_limits mem)) (_wasm_alloc c) Hwf ltac:(lia))
        as (wa & E & Hp & Hz & Hw).
      unfold wp, on_wasm_alloc. rewrite E. split; [by intros ? ? [= <- <-]|].
      exists wa. split; [done|]. split; [done|]. split; [done|]. unfold memory_ok. lia.
    + intros [_ Hi _ _]. specialize (Hi mem mems Hm). lia.
Qed.

(** The memory with all active segments in place. *)
Definition loaded (wa : t) : Prop :=
  match memories m with
  | mem :: _ => page wa = initial (memory_limits mem) /\
      forall a, 0 <= a < page_bytes wa ->
        byte_at (bytes wa) a = byte_at (data_image (data_segments m) ∅) a
  | [] => page wa = -1
  end.

Lemma wp_reset_data c :
  limits_ok ->
  match memories m with
  | mem :: _ => page (_wasm_alloc c) = initial (memory_limits mem) /\
      all_zero (initial (memory_limits mem)) (_wasm_alloc c) /\ memory_ok (_wasm_alloc c)
  | [] => page (_wasm_alloc c) = -1
  end ->
  _dropped_data c = replicate (length (data_segments m)) false ->
  wp (for_each (reset_data_segment m) (indexed (data_segments m)))
    (fun _ c' => Forall data_fits (data_segments m) /\
       exists wa, loaded wa /\
         c' = set_dropped_data (data_active (data_segments m)) (set_wasm_alloc wa c))
    (fun _ _ => ~ Forall data_fits (data_segments m)) c.
Proof.
  intros [Hlm Hld _] Hmem Hd. unfold loaded. destruct (memories m) as [|mem mems] eqn:Hm.
  - destruct (passive_segments (data_segments m) 0 c (Hld eq_refl)) as (E & Hf & Ha).
    unfold wp, indexed. rewrite E. split; [done|]. exists (_wasm_alloc c). split; [done|].
    rewrite Ha, <- Hd. by destruct c.
  - destruct Hmem as (Hp & Hz & Hok). pose proof (Hlm mem mems eq_refl) as Hi.
    eapply wp_mono; [exact (wp_data_segments (data_segments m) [] c mem mems Hm Hi Hok Hp Hd)| |done].
    intros _ c' [Hf ->]. split; [done|]. eexists; split; [|done]. simpl. split; [done|].
    intros a Ha. apply byte_at_data_image. unfold all_zero in Hz. rewrite Hz; [done|].
    unfold page_bytes in Ha. simpl in Ha. by rewrite Hp in Ha.
Qed.

Lemma wp_reset_table c :
  limits_ok ->
  wp (reset_table m)
    (fun _ c' => (forall t ts, tables m = t :: ts -> Forall (elem_fits t) (elements m)) /\
       c' = match tables m with
            | t :: _ => set_dropped_elems (elem_gone (elements m))
                (set_table (elem_image (elements m)
                   (replicate (Z.to_nat (initial (table_limits t))) unset_entry)) c)
            | [] => c
            end)
    (fun _ _ => ~ instantiable c) c.
Proof.
  intros [_ _ Hlt]. unfold reset_table. destruct (tables m) as [|t ts] eqn:Ht; [by apply wp_ret|].
  specialize (Hlt t ts eq_refl).
  apply wp_bind, wp_modify, wp_bind, wp_modify.
  eapply wp_mono; [apply (wp_elem_segments t (elements m) [])| |].
  - simpl. rewrite length_replicate. lia.
  - done.
  - intros _ c' [Hf ->]. split; [by intros ? ? [= <- <-]|done].
  - intros e c' Hn [_ _ _ Hi]. apply Hn. by eapply Hi.
Qed.

Lemma reset_capacity_wf (s : stack operand_stack_elem) :
  WStack.wf s -> 0 < WStack.capacity (WStack.reset_capacity dflt_elem s) < 2 ^ 64.
Proof.
  intros [H1 H2]. unfold WStack.reset_capacity.
  destruct (Z.ltb_spec initial_stack_size (WStack.capacity s)); [|done].
  unfold WStack.capacity. cbn [_store]. rewrite WStack.length_resize; unfold initial_stack_size; lia.
Qed.

Lemma eat_empty {A} (s : stack A) :
  0 < WStack.capacity s < 2 ^ 64 -> WStack.wf (WStack.eat 0 s) /\ WStack.contents (WStack.eat 0 s) = [].
Proof. intros H. split; [unfold WStack.wf; simpl; unfold WStack.capacity in *; simpl; lia|done]. Qed.

Lemma wp_reset_base c :
  wasm_alloc_wf (_wasm_alloc c) -> _max_pages c <= max_pages -> limits_ok ->
  wp (reset_base m)
    (fun _ c' => instantiable c /\
       exists wa, loaded wa /\
         let c1 := set_globals (gl_init <$> globals m)
           (set_dropped_data (data_active (data_segments m)) (set_wasm_alloc wa
             (set_os (WStack.reset_capacity dflt_elem (_os c)) c))) in
         c' = match tables m with
              | t :: _ => set_dropped_elems (elem_gone (elements m))
                  (set_table (elem_image (elements m)
                     (replicate (Z.to_nat (initial (table_limits t))) unset_entry)) c1)
              | [] => c1
              end)
    (fun _ _ => ~ instantiable c) c.
Proof.
  intros Hwf Hmax Hl. unfold reset_base. apply wp_bind.
  destruct (error m) as [msg|] eqn:He; [intros [He' _ _ _]; congruence|].
  apply wp_ret, wp_bind, wp_modify, wp_bind.
  eapply wp_mono; [by apply wp_reset_memory| |intros e c1 Hn [_ ? ? ?]; apply Hn; by constructor].
  intros _ c1 (Hmem & wa & -> & Hwa). apply wp_bind, wp_modify, wp_bind.
  eapply wp_mono; [apply wp_reset_data; [done|exact Hwa|done]| |intros e c1 Hn [_ _ ? _]; by apply Hn].
  intros _ c1 (Hdata & wa2 & Hload & ->). apply wp_bind, wp_modify.
  eapply wp_mono; [by apply wp_reset_table| |intros e c1 Hn [? ? ? ?]; apply Hn; by constructor].
  intros _ c1 [Helems ->]. split; [by constructor|]. exists wa2. split; [done|]. by destruct (tables m).
Qed.

Lemma wp_reset c :
  wasm_alloc_wf (_wasm_alloc c) -> WStack.wf (_os c) -> WStack.wf (_as c) ->
  _max_pages c <= max_pages -> limits_ok ->
  wp (ExecContext.reset m) (fun _ c' => instantiable c /\ fresh c c') (fun _ _ => ~ instantiable c) c.
Proof.
  intros Hwf Hos Has Hmax Hl.
  unfold ExecContext.reset. apply wp_bind. eapply wp_mono; [by apply wp_reset_base| |done].
  intros _ c1 (Hi & wa & Hload & ->). unfold loaded in Hload.
  do 5 (apply wp_bind, wp_modify). apply wp_modify. split; [done|].
  destruct (eat_empty (WStack.reset_capacity dflt_elem (_os c)) (reset_capacity_wf _ Hos)).
  destruct (eat_empty (_as c) ltac:(apply Has)).
  split; destruct (tables m); try done.
Qed.

(** C17. Re-initialisation: from any state of the context, [reset] returns exactly
    when the module can be instantiated, with empty stacks, a null program
    counter, the declared globals, zeroed memory overwritten by the active data
    segments in order, and the table that the active element segments give; when
    it cannot, [reset] throws. *)
Theorem reset_spec c :
  wasm_alloc_wf (_wasm_alloc c) -> WStack.wf (_os c) -> WStack.wf (_as c) ->
  _max_pages c <= max_pages -> limits_ok ->
  (instantiable c -> exists c', ExecContext.reset m c = (Ret tt, c') /\ fresh c c') /\
  (~ instantiable c -> exists e c', ExecContext.reset m c = (Throw e, c')).
Proof.
  intros Hwf Hos Has Hmax Hl.
  pose proof (wp_reset c Hwf Hos Has Hmax Hl) as H.
  unfold wp in H. destruct (ExecContext.reset m c) as [[[]|e|w] c'] eqn:E; [| |done].
  - destruct H as [Hi Hf]. split; [by exists c'|done].
  - split; [done|]. by exists e, c'.
Qed.
End Reset.

(** ** Witnesses *)
Definition memory_example : ctx := example_ctx 0 [].

Lemma init_linear_memory_spec_witness :
  exists mem, init_linear_memory (sys := linux) example_module 1 65534 1 2 memory_example =
      (Ret tt, set_wasm_alloc (set_bytes mem (_wasm_alloc memory_example)) memory_example) /\
    byte_at mem 65534 = 8 /\ byte_at mem 65535 = 7.
Proof.
  destruct (proj2 (proj2 (init_linear_memory_spec (sys := linux) example_module 1 65534 1 2
      example_passive false memory_example eq_refl eq_refl ltac:(vm_compute; split; discriminate)
      ltac:(unfold in_u; lia) ltac:(unfold in_u; lia) ltac:(unfold in_u; lia)))
    ltac:(vm_compute; discriminate) ltac:(vm_compute; discriminate)) as (mem & E & Hb).
  exists mem. split; [exact E|]. by rewrite !Hb.
Defined.

Lemma init_table_spec_witness :
  exists tb, init_table example_module 1 3 0 1 memory_example = (Ret tt, set_table tb memory_example) /\
    length tb = 4%nat.
Proof.
  destruct (proj2 (proj2 (init_table_spec example_module 1 3 0 1 example_passive_elem false
      example_table [] memory_example eq_refl eq_refl eq_refl eq_refl
      ltac:(unfold in_u; lia) ltac:(unfold in_u; lia) ltac:(unfold in_u; lia)))
    ltac:(vm_compute; discriminate) ltac:(vm_compute; discriminate)) as (tb & E & Hl & _).
  by exists tb.
Defined.

Lemma global_access_witness :
  (exists c', set_global example_module 0 (i32_const_t 9) memory_example = (Ret tt, c') /\
     get_global example_module 0 c' = (Ret (i32_const_t 9), c')) /\
  set_global example_module 1 (i64_const_t 9) memory_example =
    (Throw (wasm_interpreter_exception "global is not mutable"), memory_example).
Proof.
  split.
  - destruct (proj1 (global_access example_module 0 example_global (at_offset 7) (i32_const_t 9)
      memory_example eq_refl eq_refl ltac:(vm_compute; split; congruence)) eq_refl eq_refl)
      as (c' & E & Hg & _). by exists c'.
  - exact (proj1 (proj2 (global_access example_module 1 constant_global (at_offset 5) (i64_const_t 9)
      memory_example eq_refl eq_refl ltac:(vm_compute; split; congruence))) eq_refl).
Defined.

Lemma example_limits : limits_ok example_module.
Proof.
  constructor.
  - intros mem mems [= <- <-]. vm_compute. split; congruence.
  - discriminate.
  - intros t ts [= <- <-]. vm_compute. discriminate.
Qed.

Lemma example_instantiable : instantiable example_module memory_example.
Proof.
  constructor.
  - reflexivity.
  - intros mem mems [= <- <-]. vm_compute. discriminate.
  - repeat constructor.
    + intros _. exists example_memory, []. split; [reflexivity|]. vm_compute. discriminate.
    + discriminate.
  - intros t ts [= <- <-]. repeat constructor; intros H; [vm_compute; discriminate|discriminate H].
Qed.

Lemma reset_spec_witness :
  exists c', ExecContext.reset (sys := linux) example_module memory_example = (Ret tt, c') /\
    fresh example_module memory_example c'.
Proof.
  refine (proj1 (reset_spec (sys := linux) example_module memory_example _ _ _ _ example_limits)
    example_instantiable); vm_compute; repeat split; congruence.
Defined.
