(* ===== verification/HostProofs.v ===== *)
(** * Theorems about host functions (host_function.hpp)

    Linking gives every import the function that was registered last under its
    name, and the wrapper of a function hands it exactly the operands the caller
    pushed, with every span inside the linear memory. *)
From S2P Require Import Prelude WasmStack Allocator Opcodes Types Validation LinearMemory ExecContext HostFunctions Fixtures ParserSafety ContextProofs InstanceProofs.

(** ** The registry as a finite map *)
Section Registry.
Context {F : Type}.
Implicit Types (mp : mappings F) (n : host_func_pair).

Definition registration : Type := host_func_pair * (F * host_function).

(** A sequence of calls of [add] *)
Definition register (regs : list registration) : mappings F :=
  fold_left (fun mp r => add_mapping r.1.1 r.1.2 r.2.1 r.2.2 mp) regs no_mappings.

(** The last of them for a name *)
Fixpoint last_registered (regs : list registration) n : option (F * host_function) :=
  match regs with
  | [] => None
  | r :: regs =>
      match last_registered regs n with
      | Some x => Some x
      | None => if bool_decide (r.1 = n) then Some r.2 else None
      end
  end.

(** What a name is mapped to *)
Definition mapped mp n : option (F * host_function) :=
  i ← named_mapping mp !! n;
  f ← nthZ (mp_functions mp) i;
  hf ← nthZ (host_functions mp) i;
  Some (f, hf).

Record registry_wf mp : Prop := RegistryWf {
  rw_functions : Z.of_nat (length (mp_functions mp)) = current_index mp;
  rw_types : Z.of_nat (length (host_functions mp)) = current_index mp;
  rw_named : forall n i, named_mapping mp !! n = Some i -> 0 <= i < current_index mp
}.

Lemma nthZ_app_l {A} (l k : list A) i : i < Z.of_nat (length l) -> nthZ (l ++ k) i = nthZ l i.
Proof.
  intros Hi. unfold nthZ. destruct (Z.ltb_spec i 0); [done|]. rewrite lookup_app_l by lia. done.
Qed.
Lemma nthZ_app_end {A} (l : list A) x i : i = Z.of_nat (length l) -> nthZ (l ++ [x]) i = Some x.
Proof.
  intros ->. rewrite nthZ_lookup by lia. rewrite Nat2Z.id. by apply list_lookup_middle.
Qed.

Lemma add_mapping_spec md nm f hf mp :
  registry_wf mp -> current_index mp < 2 ^ 32 ->
  registry_wf (add_mapping md nm f hf mp) /\
  forall n, mapped (add_mapping md nm f hf mp) n =
    if bool_decide ((md, nm) = n) then Some (f, hf) else mapped mp n.
Proof.
  intros [Hf Ht Hn] Hi. unfold add_mapping.
  rewrite !wrap_small by (unfold in_u; lia). split.
  - split; simpl.
    + rewrite length_app. simpl. lia.
    + rewrite length_app. simpl. lia.
    + intros n i [[<- <-]|[_ Hl]]%lookup_insert_Some; [lia|]. apply Hn in Hl. lia.
  - intros n. unfold mapped. simpl. destruct (bool_decide_reflect ((md, nm) = n)) as [<-|Hne].
    + rewrite lookup_insert_eq. simpl. by rewrite !nthZ_app_end by lia.
    + rewrite lookup_insert_ne by done. destruct (named_mapping mp !! n) as [i|] eqn:E; [|done].
      simpl. apply Hn in E. by rewrite !nthZ_app_l by lia.
Qed.

(** The registry refines the association list of registrations. *)
Lemma register_from regs mp :
  registry_wf mp -> current_index mp + Z.of_nat (length regs) <= 2 ^ 32 ->
  let mp' := fold_left (fun mp r => add_mapping r.1.1 r.1.2 r.2.1 r.2.2 mp) regs mp in
  registry_wf mp' /\
  forall n, mapped mp' n = match last_registered regs n with Some x => Some x | None => mapped mp n end.
Proof.
  revert mp. induction regs as [|[[md nm] [f hf]] regs IH]; intros mp Hw Hl; simpl; [done|].
  destruct (add_mapping_spec md nm f hf mp Hw ltac:(simpl in Hl; lia)) as [Hw' Hm].
  destruct (IH _ Hw') as [Hw'' Hm''].
  - simpl in *. rewrite wrap_small by (unfold in_u; destruct Hw; lia). lia.
  - split; [done|]. intros n. rewrite Hm''. destruct (last_registered regs n); [done|].
    rewrite Hm. simpl. by destruct (bool_decide _).
Qed.

Lemma register_ok regs :
  Z.of_nat (length regs) <= 2 ^ 32 ->
  registry_wf (register regs) /\ forall n, mapped (register regs) n = last_registered regs n.
Proof.
  intros Hl. destruct (register_from regs no_mappings) as [Hw Hm]; [by split; simpl; [..|intros ? ? ?]|done|].
  split; [done|]. intros n. rewrite Hm. by destruct (last_registered regs n).
Qed.

(** ** Linking *)

(** The C++ signature is that of the WebAssembly type. *)
Definition same_signature (hf : host_function) (ft : func_type) : Prop :=
  hf_params hf = param_types ft /\ Z.of_nat (length (hf_ret hf)) = return_count ft /\
  (forall r, head (hf_ret hf) = Some r -> r = return_type ft).

Lemma host_function_eq_spec hf ft : host_function_eq hf ft = true <-> same_signature hf ft.
Proof.
  unfold host_function_eq, same_signature. rewrite !andb_true_iff, bool_decide_eq_true, !Z.eqb_eq. split.
  - intros [[[_ ?] ?] Hr]. split_and!; [done|done|]. intros r E. destruct (hf_ret hf); [done|]. simpl in *.
    simplify_eq. by apply Z.eqb_eq in Hr.
  - intros (E & ? & Hr). rewrite E. split_and!; try done. destruct (hf_ret hf); [done|]. by apply Z.eqb_eq, Hr.
Qed.

(** The import [e] is served by [f], registered under its name with its type. *)
Definition linked (regs : list registration) (m : module) (e : import_entry) (f : F) : Prop :=
  exists hf t ft, last_registered regs (import_name e) = Some (f, hf) /\ import_desc e = ImportFunc t /\
    nthZ (types m) t = Some ft /\ same_signature hf ft.

Lemma resolve_import_spec regs m i e fs :
  Z.of_nat (length regs) <= 2 ^ 32 -> import_ok (length (types m)) e -> 0 <= i < Z.of_nat (length fs) ->
  match resolve_import (register regs) m i e fs with
  | Ret fs' => exists x f, fs' = <[Z.to_nat i := x]> fs /\ function_at (register regs) x = Ret f /\ linked regs m e f
  | Throw x => (exists msg, x = wasm_link_exception msg) /\ ~ exists f, linked regs m e f
  | UB _ => False
  end.
Proof.
  intros Hl (t & Hd & Hk & Ht) Hi. destruct (register_ok regs Hl) as [[Hf Hh Hn] Hm].
  specialize (Hm (import_name e)). unfold mapped in Hm. unfold resolve_import, function_at.
  rewrite Hd. destruct (nthZ_Some (types m) t Ht) as [ft Hft].
  destruct (named_mapping (register regs) !! import_name e) as [x|] eqn:Ex; simpl in *.
  2:{ split; [by eexists|]. intros (f & hf & t' & ft' & E & _). congruence. }
  apply Hn in Ex. destruct (Z.leb_spec 0 i), (Z.ltb_spec i (Z.of_nat (length fs))); try lia. simpl.
  unfold EOS_VM_ASSERT. rewrite bool_decide_true by done. simpl.
  destruct (nthZ_Some (mp_functions (register regs)) x ltac:(lia)) as [f Ef].
  destruct (nthZ_Some (host_functions (register regs)) x ltac:(lia)) as [hf Eh].
  rewrite Ef, Eh in Hm. simpl in Hm. rewrite Eh. simpl. rewrite Hft. simpl. destruct (host_function_eq hf ft) eqn:E; simpl.
  - apply host_function_eq_spec in E. exists x, f. rewrite Ef. split_and!; try done. by exists hf, t, ft.
  - split; [by eexists|]. intros (f' & hf' & t' & ft' & E1 & E2 & E3 & E4). rewrite <- Hm in E1. simplify_eq.
    apply host_function_eq_spec in E4. congruence.
Qed.

Lemma resolve_imports_spec regs m l : forall k (done_ : list Z),
  Z.of_nat (length regs) <= 2 ^ 32 -> Forall (import_ok (length (types m))) l ->
  length k = length l ->
  match resolve_imports (register regs) m (Z.of_nat (length done_)) l (done_ ++ k) with
  | Ret fs => exists xs, fs = done_ ++ xs /\
      Forall2 (fun e x => exists f, function_at (register regs) x = Ret f /\ linked regs m e f) l xs
  | Throw x => (exists msg, x = wasm_link_exception msg) /\ Exists (fun e => ~ exists f, linked regs m e f) l
  | UB _ => False
  end.
Proof.
  induction l as [|e l IH]; intros [|x k] done_ Hl Hi Hk; try done; simpl.
  { exists []. done. }
  inversion Hi as [|? ? He Hi']; subst.
  pose proof (resolve_import_spec regs m (Z.of_nat (length done_)) e (done_ ++ x :: k) Hl He) as Hs.
  rewrite length_app in Hs. specialize (Hs ltac:(simpl; lia)).
  destruct (resolve_import _ _ _ _ _) as [fs|e'|w]; simpl; [|by destruct Hs; split; [|left]|done].
  destruct Hs as (y & f & -> & Hf & Hlk). rewrite Nat2Z.id, insert_app_r_alt by lia.
  rewrite Nat.sub_diag. simpl. specialize (IH k (done_ ++ [y]) Hl Hi' ltac:(simpl in Hk; lia)).
  rewrite length_app, <- (assoc_L (++)) in IH. simpl in IH. rewrite Nat2Z.inj_add in IH. simpl in IH.
  destruct (resolve_imports _ _ _ _ _) as [fs|e'|w]; [|by destruct IH; split; [|right]|done].
  destruct IH as (xs & -> & Hxs). exists (y :: xs). split; [by rewrite <- (assoc_L (++))|].
  constructor; [by exists f|done].
Qed.

Lemma resolve_links regs m :
  Z.of_nat (length regs) <= 2 ^ 32 -> Forall (import_ok (length (types m))) (imports m) ->
  length (import_functions m) = length (imports m) ->
  match resolve (register regs) m with
  | Ret m' => exists xs, m' = with_import_functions xs m /\
      Forall2 (fun e x => exists f, function_at (register regs) x = Ret f /\ linked regs m e f) (imports m) xs
  | Throw x => (exists msg, x = wasm_link_exception msg) /\ Exists (fun e => ~ exists f, linked regs m e f) (imports m)
  | UB _ => False
  end.
Proof.
  intros Hl Hi Hk. unfold resolve. pose proof (resolve_imports_spec regs m (imports m) (import_functions m) [] Hl Hi Hk) as H.
  simpl in H. destruct (resolve_imports _ _ _ _ _); simpl; [|done|done]. destruct H as (xs & -> & ?). eauto.
Qed.
End Registry.
Arguments registration : clear implicits.

(** C11. Linking a module: when it returns, the host-function index of every import
    is that of the function registered last under the import's two names, and that
    function has the import's type; when it throws, it is a [wasm_link_exception] and
    some import has no such function, so a module links exactly when all its imports do. *)
Theorem resolve_correct {F} (regs : list (registration F)) m :
  Z.of_nat (length regs) <= 2 ^ 32 -> Forall (import_ok (length (types m))) (imports m) ->
  length (import_functions m) = length (imports m) ->
  match resolve (register regs) m with
  | Ret m' => exists xs, m' = with_import_functions xs m /\
      Forall2 (fun e x => exists f, function_at (register regs) x = Ret f /\ linked regs m e f) (imports m) xs
  | Throw x => (exists msg, x = wasm_link_exception msg) /\ Exists (fun e => ~ exists f, linked regs m e f) (imports m)
  | UB _ => False
  end.
Proof. apply resolve_links. Qed.

(** ** Arguments *)
Section Arguments.
Context `{sys : Sys} {Hok : SysOk sys}.
Implicit Types (c : ctx) (vals rest : list operand_stack_elem).

(** The conversion of operands to arguments, in order *)
Fixpoint host_args (Args : list native_type) vals : list host_value :=
  match Args, vals with
  | Arith t :: Args, v :: vals => HArith v :: host_args Args vals
  | VoidPtr :: Args, i32_const_t a :: vals => HPtr a :: host_args Args vals
  | Bool :: Args, i32_const_t v :: vals => HBool (negb (v =? 0)) :: host_args Args vals
  | Span _ :: Args, i32_const_t ptr :: i32_const_t len :: vals => HSpan ptr len :: host_args Args vals
  | _, _ => []
  end.

(** Every span lies in a memory of [bytes] bytes and has less than 4 GiB. *)
Fixpoint spans_fit (bytes : Z) (Args : list native_type) vals : bool :=
  match Args, vals with
  | Span sizeof_T :: Args, i32_const_t ptr :: i32_const_t len :: vals =>
      (ptr + len * sizeof_T <=? bytes) && (len * sizeof_T <? 2 ^ 32) && spans_fit bytes Args vals
  | Span _ :: _, _ => false
  | _ :: Args, _ :: vals => spans_fit bytes Args vals
  | _, _ => true
  end.

Definition span_sizes_ok (Args : list native_type) : Prop :=
  Forall (fun t => match t with Span sizeof_T => 0 < sizeof_T < 2 ^ 32 | _ => True end) Args.

Lemma validate_pointer_span sizeof_T ptr len s :
  wasm_alloc_wf s -> 0 < sizeof_T < 2 ^ 32 -> in_u 32 ptr -> in_u 32 len ->
  match validate_pointer sizeof_T ptr len s with
  | Ret _ => (ptr + len * sizeof_T <=? page_bytes s) && (len * sizeof_T <? 2 ^ 32) = true
  | Throw _ => (ptr + len * sizeof_T <=? page_bytes s) && (len * sizeof_T <? 2 ^ 32) = false
  | UB _ => False
  end.
Proof.
  intros Hm Hs [Hp1 Hp2] [Hl1 Hl2]. pose proof syspagesize_pos.
  unfold validate_pointer, EOS_VM_ASSERT, access, WasmAlloc.prefix_size, WasmAlloc.suffix_size, WasmAlloc.table_size, WasmAlloc.max_memory.
  pose proof (Z.mul_div_le (2 ^ 32 - 1) sizeof_T ltac:(lia)).
  pose proof (Z.div_le_lower_bound (2 ^ 32 - 1) sizeof_T len ltac:(lia)).
  unfold wasm_alloc_wf in Hm; change WasmAlloc.max_pages with 65536 in Hm.
  assert (WasmAlloc.page s < 0 -> page_bytes s < 0) by (unfold page_bytes, WasmAlloc.page_size; lia).
  destruct (Z.leb_spec len ((2 ^ 32 - 1) / sizeof_T)); simpl.
  - destruct (Z.ltb_spec (len * sizeof_T) (2 ^ 32)); [|nia]. zcases; simpl; try done; nia.
  - destruct (Z.ltb_spec (len * sizeof_T) (2 ^ 32)); [nia|]. by rewrite andb_false_r.
Qed.

Lemma total_operands_length Args : total_operands Args = Z.of_nat (length (flat_map flatten_type Args)).
Proof. induction Args as [|t Args IH]; simpl; [done|]. rewrite IH, length_app. unfold skip_amount. lia. Qed.

(** The operand that was pushed as number [k] *)
Lemma wp_operand_from_back k pre e post vals rest (Q : operand_stack_elem -> ctx -> Prop) E c :
  vals = pre ++ e :: post -> stk c (reverse vals ++ rest) -> k = Z.of_nat (length pre) -> Q e c ->
  wp (operand_from_back (Z.of_nat (length vals) - 1 - k)) Q E c.
Proof.
  intros -> Hs -> HQ. eapply wp_peek; [exact Hs| | |exact HQ].
  - rewrite length_app. simpl. lia.
  - rewrite length_app. simpl. replace (Z.to_nat _) with (length (reverse post)) by (rewrite length_reverse; lia).
    rewrite reverse_app, reverse_cons, <- !(assoc_L (++)). simpl. by apply list_lookup_middle.
Qed.

(** One operand of a parameter *)
Lemma typed_cons t ts vals :
  elem_type <$> vals = t :: ts -> exists v vals', vals = v :: vals' /\ elem_type v = t /\ elem_type <$> vals' = ts.
Proof. destruct vals as [|v vals']; [done|]. intros [= <- <-]. eauto. Qed.
Lemma typed_i32 v : elem_type v = i32 -> exists n, v = i32_const_t n.
Proof. destruct v; try done. eauto. Qed.

Lemma small_value n : value_ok (i32_const_t n) -> in_u 32 n.
Proof. done. Qed.

(** One argument: the operands [now] are behind [pre], those of the arguments that
    follow are [later]. *)
Lemma wp_create_value t Args all pre now later rest c :
  all = pre ++ now ++ later -> stk c (reverse all ++ rest) -> elem_type <$> now = flatten_type t ->
  Forall value_ok now -> wasm_alloc_wf (_wasm_alloc c) ->
  match t with Span sizeof_T => 0 < sizeof_T < 2 ^ 32 | _ => True end ->
  let bytes := page_bytes (_wasm_alloc c) in
  spans_fit bytes Args later = true ->
  wp (create_value (Z.of_nat (length all) - 1) (Z.of_nat (length pre)) t)
    (fun v c' => c' = c /\ host_args (t :: Args) (now ++ later) = v :: host_args Args later /\
       spans_fit bytes (t :: Args) (now ++ later) = true)
    (fun _ c' => c' = c /\ spans_fit bytes (t :: Args) (now ++ later) = false) c.
Proof.
  intros Hall Hs Hn Hv Hp Hz bytes Hfit.
  destruct t as [t| | |sizeof_T]; simpl flatten_type in Hn; apply typed_cons in Hn as (v & now' & -> & Ev & Hn);
    cbn [create_value].
  - apply fmap_nil_inv in Hn as ->. apply wp_bind.
    eapply wp_operand_from_back; [exact Hall|exact Hs|done|]. unfold as_value. rewrite Ev, Z.eqb_refl.
    apply wp_bind, wp_lift. simpl. by apply wp_ret.
  - apply fmap_nil_inv in Hn as ->. apply typed_i32 in Ev as [n ->]. apply wp_bind.
    eapply wp_operand_from_back; [exact Hall|exact Hs|done|]. apply wp_bind, wp_lift. simpl. by apply wp_ret.
  - apply fmap_nil_inv in Hn as ->. apply typed_i32 in Ev as [n ->]. apply wp_bind.
    eapply wp_operand_from_back; [exact Hall|exact Hs|done|]. apply wp_bind, wp_lift. simpl. by apply wp_ret.
  - apply typed_cons in Hn as (l & now'' & -> & El & Hn). apply fmap_nil_inv in Hn as ->.
    apply typed_i32 in Ev as [ptr ->]. apply typed_i32 in El as [len ->].
    inversion Hv as [|? ? Hptr Hv']; subst. inversion Hv' as [|? ? Hlen _]; subst.
    apply wp_bind. eapply wp_operand_from_back; [done|exact Hs|done|]. apply wp_bind, wp_lift. simpl.
    apply wp_bind. eapply (wp_operand_from_back _ (pre ++ [i32_const_t ptr])); [|exact Hs| |].
    { by rewrite <- !(assoc_L (++)). }
    { rewrite length_app. simpl. lia. }
    apply wp_bind, wp_lift. simpl. apply wp_bind, wp_gets, wp_bind, wp_lift.
    pose proof (validate_pointer_span sizeof_T ptr len (_wasm_alloc c) Hp Hz Hptr Hlen) as Hval.
    simpl. unfold bytes in *. rewrite Hfit, andb_true_r.
    destruct (validate_pointer _ _ _ _); [by apply wp_ret|done|done].
Qed.

Lemma spans_fit_later bytes t Args now later :
  elem_type <$> now = flatten_type t -> spans_fit bytes Args later = false ->
  spans_fit bytes (t :: Args) (now ++ later) = false.
Proof.
  intros Hn Hf. destruct t as [t| | |sizeof_T]; simpl flatten_type in Hn; apply typed_cons in Hn as (v & now' & -> & Ev & Hn).
  1-3: by apply fmap_nil_inv in Hn as ->.
  apply typed_cons in Hn as (l & now'' & -> & El & Hn). apply fmap_nil_inv in Hn as ->.
  apply typed_i32 in Ev as [ptr ->]. apply typed_i32 in El as [len ->]. simpl. by rewrite Hf, andb_false_r.
Qed.

Lemma wp_get_values Args : forall all pre vals rest c,
  all = pre ++ vals -> stk c (reverse all ++ rest) -> elem_type <$> vals = flat_map flatten_type Args ->
  Forall value_ok vals -> wasm_alloc_wf (_wasm_alloc c) -> span_sizes_ok Args ->
  wp (get_values (Z.of_nat (length all) - 1) Args (Z.of_nat (length pre)))
    (fun args c' => c' = c /\ args = host_args Args vals /\ spans_fit (page_bytes (_wasm_alloc c)) Args vals = true)
    (fun _ c' => c' = c /\ spans_fit (page_bytes (_wasm_alloc c)) Args vals = false) c.
Proof.
  induction Args as [|t Args IH]; intros all pre vals rest c Hall Hs Ht Hv Hp Hz; cbn [get_values].
  { apply wp_ret. by destruct vals. }
  inversion Hz as [|? ? Hz1 Hz2]; subst.
  simpl in Ht. apply fmap_app_inv in Ht as (now & later & Hn & Hl & ->). symmetry in Hn, Hl.
  apply Forall_app in Hv as [Hv1 Hv2].
  assert (Hskip : Z.of_nat (length pre) + skip_amount t = Z.of_nat (length (pre ++ now))).
  { unfold skip_amount. rewrite <- Hn, length_fmap, length_app. lia. }
  rewrite Hskip. apply wp_bind. eapply wp_mono; [eapply (IH _ (pre ++ now) later rest)| |]; try done.
  { by rewrite <- (assoc_L (++)). }
  - intros tail c' (-> & -> & Hfit). apply wp_bind.
    eapply wp_mono; [by eapply (wp_create_value t Args)| |done].
    intros v c' (-> & E & E'). apply wp_ret. simpl in *. by rewrite E.
  - intros e c' [-> Hfit]. split; [done|]. by apply spans_fit_later.
Qed.

(** What the function's result adds to the operands *)
Definition pushed (r : host_result) : list operand_stack_elem :=
  match resolve_result r with Some e => [e] | None => [] end.

Lemma maybe_push_result_spec r vals rest c :
  stk c (reverse vals ++ rest) -> Z.of_nat (length rest) < 2 ^ 63 ->
  exists os, maybe_push_result r (Z.of_nat (length vals)) c = (Ret tt, set_os os c) /\
    WStack.wf os /\ WStack.contents os = pushed r ++ rest.
Proof.
  intros Hs Hr. pose proof (stk_index _ _ Hs) as Hi. rewrite length_app, length_reverse in Hi.
  destruct Hs as [Hw Hc]. destruct (WStack.trim_ret (_os c) (Z.of_nat (length vals)) Hw ltac:(lia)) as [Hw' Hc'].
  rewrite Hc, Nat2Z.id, drop_app_length' in Hc' by (by rewrite length_reverse).
  unfold maybe_push_result, trim_operands, pushed. unfold mbind, M_bind, modify.
  destruct (resolve_result r) as [e|]; [|by eexists].
  destruct (wp_returns (push_operand e) (fun _ c' => exists os, c' = set_os os c /\ WStack.wf os /\
      WStack.contents os = e :: rest) (set_os (WStack.trim (Z.of_nat (length vals)) (_os c)) c))
    as ([] & c' & E & os & -> & ? & ?).
  - eapply wp_push; [by split|done|]. intros os H1 H2. by exists os.
  - rewrite E. by exists os.
Qed.

(** A host function may run anything, but leaves the operands as it found them. *)
Lemma host_call_ok Args preconditions F vals rest c :
  stk c (reverse vals ++ rest) -> Z.of_nat (length rest) < 2 ^ 63 ->
  elem_type <$> vals = flat_map flatten_type Args -> Forall value_ok vals ->
  wasm_alloc_wf (_wasm_alloc c) -> span_sizes_ok Args ->
  let args := host_args Args vals in
  (spans_fit (page_bytes (_wasm_alloc c)) Args vals = true -> forall c1 c2 r,
     preconditions_runner preconditions args c = (Ret tt, c1) -> F args c1 = (Ret r, c2) ->
     stk c2 (reverse vals ++ rest) ->
     exists os, create_function Args preconditions F c = (Ret tt, set_os os c2) /\
       WStack.wf os /\ WStack.contents os = pushed r ++ rest) /\
  (spans_fit (page_bytes (_wasm_alloc c)) Args vals = false ->
     exists e, create_function Args preconditions F c = (Throw e, c)).
Proof.
  intros Hs Hr Ht Hv Hp Hz args.
  pose proof (wp_get_values Args vals [] vals rest c eq_refl Hs Ht Hv Hp Hz) as Hg.
  assert (Hn : total_operands Args = Z.of_nat (length vals)).
  { by rewrite total_operands_length, <- Ht, length_fmap. }
  unfold create_function. rewrite Hn. unfold wp in Hg. cbn [length] in Hg. change (Z.of_nat 0) with 0 in Hg.
  destruct (get_values _ _ _ c) as [[vs|e|w] c'] eqn:E; [| |done].
  - destruct Hg as (-> & -> & Hfit). split; [|by rewrite Hfit].
    intros _ c1 c2 r Hpre HF Hs2. unfold mbind, M_bind. rewrite E. fold args. rewrite Hpre, HF.
    by apply maybe_push_result_spec.
  - destruct Hg as [-> Hfit]. split; [by rewrite Hfit|]. intros _. exists e. unfold mbind, M_bind. by rewrite E.
Qed.
End Arguments.

(** C18. The wrapper of a registered C++ function.  On operands of the types that
    its registration declares, it converts them in order, the first argument from
    the operand pushed first, runs the preconditions and calls the function; then
    exactly those operands are gone and the result, if any, is on top.  The
    function only ever sees spans inside the linear memory and shorter than 4 GiB:
    otherwise the wrapper throws with nothing changed. *)
Theorem host_call_correct `{sys : Sys} {Hok : SysOk sys} Ret_ Args preconditions F vals rest c :
  stk c (reverse vals ++ rest) -> Z.of_nat (length rest) < 2 ^ 63 ->
  elem_type <$> vals = hf_params (function_types_provider Ret_ Args) -> Forall value_ok vals ->
  wasm_alloc_wf (_wasm_alloc c) -> span_sizes_ok Args ->
  let args := host_args Args vals in
  (spans_fit (page_bytes (_wasm_alloc c)) Args vals = true -> forall c1 c2 r,
     preconditions_runner preconditions args c = (Ret tt, c1) -> F args c1 = (Ret r, c2) ->
     stk c2 (reverse vals ++ rest) ->
     exists os, create_function Args preconditions F c = (Ret tt, set_os os c2) /\
       WStack.wf os /\ WStack.contents os = pushed r ++ rest) /\
  (spans_fit (page_bytes (_wasm_alloc c)) Args vals = false ->
     exists e, create_function Args preconditions F c = (Throw e, c)).
Proof. apply host_call_ok. Qed.

(** ** Witnesses *)

(** [f(i32 x, span<char> s)] returns [x + s.size()]. *)
Definition example_host (args : list host_value) : M ctx host_result :=
  match args with
  | [HArith (i32_const_t x); HSpan _ len] => mret (RArith (i32_const_t (wrap 32 (x + len))))
  | _ => mret RVoid
  end.
Definition example_params : list native_type := [Arith i32; Span 1].

Lemma host_call_correct_witness :
  (exists os, create_function (sys := linux) example_params [] example_host
       (example_ctx 0 [i32_const_t 16; i32_const_t 8; i32_const_t 5; i64_const_t 1])
     = (Ret tt, set_os os (example_ctx 0 [i32_const_t 16; i32_const_t 8; i32_const_t 5; i64_const_t 1])) /\
     WStack.wf os /\ WStack.contents os = [i32_const_t 21; i64_const_t 1]) /\
  (exists e, create_function (sys := linux) example_params [] example_host
       (example_ctx 0 [i32_const_t 16; i32_const_t 65530; i32_const_t 5])
     = (Throw e, example_ctx 0 [i32_const_t 16; i32_const_t 65530; i32_const_t 5])).
Proof.
  split.
  - refine (proj1 (host_call_correct (sys := linux) (Some (Arith i32)) example_params [] example_host
      [i32_const_t 5; i32_const_t 8; i32_const_t 16] [i64_const_t 1]
      (example_ctx 0 [i32_const_t 16; i32_const_t 8; i32_const_t 5; i64_const_t 1]) _ _ _ _ _ _) _ _ _
      (RArith (i32_const_t 21)) eq_refl eq_refl _).
    + by apply holding_wf.
    + reflexivity.
    + reflexivity.
    + repeat constructor; vm_compute; congruence.
    + vm_compute. split; congruence.
    + repeat constructor; vm_compute; congruence.
    + reflexivity.
    + by apply holding_wf.
  - refine (proj2 (host_call_correct (sys := linux) (Some (Arith i32)) example_params [] example_host
      [i32_const_t 5; i32_const_t 65530; i32_const_t 16] []
      (example_ctx 0 [i32_const_t 16; i32_const_t 65530; i32_const_t 5]) _ _ _ _ _ _) _).
    + by apply holding_wf.
    + reflexivity.
    + reflexivity.
    + repeat constructor; vm_compute; congruence.
    + vm_compute. split; congruence.
    + repeat constructor; vm_compute; congruence.
    + reflexivity.
Defined.

(** The import of the example module, bound to the second of two registrations; and
    not bound when the function has another type. *)
Definition example_regs (hf : host_function) : list (registration nat) :=
  [(([101], [102]), (0%nat, HostFunction [i32] [])); (([101], [103]), (1%nat, HostFunction [] []));
   (([101], [102]), (2%nat, hf))].

Lemma resolve_correct_witness :
  (exists xs, resolve (register (example_regs (HostFunction [] []))) example_module =
       Ret (with_import_functions xs example_module) /\
     Forall2 (fun e x => exists f, function_at (register (example_regs (HostFunction [] []))) x = Ret f /\
       linked (example_regs (HostFunction [] [])) example_module e f) (imports example_module) xs) /\
  Exists (fun e => ~ exists f, linked (example_regs (HostFunction [] [i64])) example_module e f)
    (imports example_module).
Proof.
  assert (Hi : Forall (import_ok (length (types example_module))) (imports example_module)).
  { repeat constructor. exists 1. split_and!; [done|done|lia|by vm_compute]. }
  split.
  - pose proof (resolve_correct (example_regs (HostFunction [] [])) example_module ltac:(simpl; lia) Hi eq_refl) as H.
    destruct (resolve (register (example_regs (HostFunction [] []))) example_module) as [m'|e|w] eqn:E;
      [|exfalso; vm_compute in E; discriminate E|done].
    destruct H as (xs & -> & H). by exists xs.
  - pose proof (resolve_correct (example_regs (HostFunction [] [i64])) example_module ltac:(simpl; lia) Hi eq_refl) as H.
    destruct (resolve (register (example_regs (HostFunction [] [i64]))) example_module) as [m'|e|w] eqn:E;
      [exfalso; vm_compute in E; discriminate E|by destruct H|done].
Defined.
