(* ===== verification/Soundness.v ===== *)
(** * Type soundness of the interpreter's instructions (interpret_visitor.hpp)

    Every instruction that is not control flow has a type, the operands it takes
    and the ones it leaves.  On a stack that starts with operands of those types
    the handler takes exactly them, pushes results of the result types, advances
    the program counter by one and changes nothing else of the context but the
    memory; or it traps; it never has undefined behaviour. *)
From S2P Require Import Prelude WasmStack Allocator Opcodes Types LinearMemory ExecContext Softfloat Simd Interpreter ContextProofs InstanceProofs.
Import Op(opcode, v128_t, V128, low, high).

(** ** States and results *)
(** The memory of a module that declares one is defined. *)
Definition memory_inv (m : module) (wa : WasmAlloc.t) : Prop :=
  wasm_alloc_wf wa /\ (memories m <> [] -> 0 <= WasmAlloc.page wa).

Record ready (m : module) (c : ctx) (p : Z) (l : list operand_stack_elem) : Prop := {
  rd_stk : stk c l;
  rd_pc : pc c = Pc p;
  rd_values : Forall value_ok l;
  rd_memory : memory_inv m (_wasm_alloc c)
}.

(** [c'] differs from [c] in its operands, its program counter and its memory. *)
Definition same_rest (c c' : ctx) : Prop :=
  c' = set_wasm_alloc (_wasm_alloc c') (set_os (_os c') (set_pc (pc c') c)).

(** The exceptions a trap raises. *)
Definition is_trap (e : exn) : Prop :=
  match e with
  | wasm_interpreter_exception _ | wasm_memory_exception _ | wasm_bad_alloc _ => True
  | _ => False
  end.

(** The handler [k] has the type [args] -> [res], both top first. *)
Definition instr_ok (m : module) (args res : list Z) (k : M ctx unit) : Prop :=
  forall c p la rest,
    ready m c p (la ++ rest) -> small rest -> elem_type <$> la = args ->
    wp k (fun _ c' => exists lr, elem_type <$> lr = res /\ ready m c' (p + 1) (lr ++ rest) /\
            same_rest c c')
         (fun e _ => is_trap e) c.

(** A computed operand: a value of type [t], or a trap. *)
Definition result_ok (t : Z) (o : outcome operand_stack_elem) : Prop :=
  match o with
  | Ret e => elem_type e = t /\ value_ok e
  | Throw e => is_trap e
  | UB _ => False
  end.

Definition vec_ok (v : v128_t) : Prop := in_u 64 (low v) /\ in_u 64 (high v).

(** [get] reads a value of type [t]; what it reads satisfies [P]. *)
Definition reads_as {A} (t : Z) (get : operand_stack_elem -> outcome A) (P : A -> Prop) : Prop :=
  forall e, elem_type e = t -> value_ok e -> exists a, get e = Ret a /\ P a.

Lemma reads_ui32 : reads_as i32 to_ui32 (in_u 32).
Proof. intros [] H Hv; try discriminate H. by eexists. Qed.
Lemma reads_ui64 : reads_as i64 to_ui64 (in_u 64).
Proof. intros [] H Hv; try discriminate H. by eexists. Qed.
Lemma reads_i32 : reads_as i32 to_i32 (in_s 32).
Proof. intros [] H Hv; try discriminate H. eexists; split; [done|]. by apply sext_in_s. Qed.
Lemma reads_i64 : reads_as i64 to_i64 (in_s 64).
Proof. intros [] H Hv; try discriminate H. eexists; split; [done|]. by apply sext_in_s. Qed.
Lemma reads_fui32 : reads_as f32 to_fui32 (in_u 32).
Proof. intros [] H Hv; try discriminate H. by eexists. Qed.
Lemma reads_fui64 : reads_as f64 to_fui64 (in_u 64).
Proof. intros [] H Hv; try discriminate H. by eexists. Qed.
Lemma reads_v128 : reads_as v128 to_v128 vec_ok.
Proof. intros [] H Hv; try discriminate H. by eexists. Qed.

(** What each way of making an operand gives. *)
Definition makes {A} (t : Z) (mk : A -> operand_stack_elem) : Prop :=
  forall x, elem_type (mk x) = t /\ value_ok (mk x).

Lemma makes_i32 : makes i32 mk_i32.
Proof. intros x. split; [done|]. apply wrap_in_u. lia. Qed.
Lemma makes_i64 : makes i64 mk_i64.
Proof. intros x. split; [done|]. apply wrap_in_u. lia. Qed.
Lemma makes_f32 : makes f32 mk_f32.
Proof. intros x. split; [done|]. apply wrap_in_u. lia. Qed.
Lemma makes_f64 : makes f64 mk_f64.
Proof. intros x. split; [done|]. apply wrap_in_u. lia. Qed.

Lemma of_bits128_ok x : vec_ok (of_bits128 x).
Proof. split; apply wrap_in_u; lia. Qed.
Lemma put_lanes_ok A l : vec_ok (put_lanes A l).
Proof. apply of_bits128_ok. Qed.

#[export] Hint Resolve reads_ui32 reads_ui64 reads_i32 reads_i64 reads_fui32 reads_fui64 reads_v128
  makes_i32 makes_i64 makes_f32 makes_f64 of_bits128_ok put_lanes_ok : eosvm.

Lemma types1 la t : elem_type <$> la = [t] -> exists e, la = [e] /\ elem_type e = t.
Proof. destruct la as [|e [|]]; intros [= <-]; eauto. Qed.
Lemma types2 la t u : elem_type <$> la = [t; u] ->
  exists e f, la = [e; f] /\ elem_type e = t /\ elem_type f = u.
Proof. destruct la as [|e [|f [|]]]; intros [= <- <-]; eauto. Qed.
Lemma types3 la t u v : elem_type <$> la = [t; u; v] ->
  exists e f g, la = [e; f; g] /\ elem_type e = t /\ elem_type f = u /\ elem_type g = v.
Proof. destruct la as [|e [|f [|g [|]]]]; intros [= <- <- <-]; eauto 10. Qed.

(** ** Symbolic execution *)

(** One operation at the head of a [wp] goal; the facts about the operand stack
    and the program counter are hypotheses up to conversion. *)
Ltac vstep :=
  lazymatch goal with
  | |- wp (mbind _ _) _ _ _ => apply wp_bind
  | |- wp inc_pc _ _ _ => eapply wp_inc_pc; [eassumption|]
  | |- wp pop_operand _ _ _ => eapply wp_pop; [split; eassumption|]; intros ? ? ?
  | |- wp (peek_operand _) _ _ _ => eapply wp_peek; [split; eassumption|done|done|]
  | |- wp (set_top _) _ _ _ => eapply wp_set_top; [split; eassumption|]; intros ? ? ?
  | |- wp (push_operand _) _ _ _ =>
      eapply wp_push; [split; eassumption|unfold small in *; simpl in *; lia|]; intros ? ? ?
  | |- wp (lift ?o) _ _ _ =>
      match goal with H : o = Ret _ |- _ => eapply wp_lift_Ret; [exact H|] end
  | |- wp (gets _) _ _ _ => apply wp_gets
  | |- wp (modify _) _ _ _ => apply wp_modify
  end.
Ltac vsteps := repeat vstep.

Lemma read_one {A} t get (P : A -> Prop) e l :
  reads_as t get P -> Forall value_ok (e :: l) -> elem_type e = t -> exists a, get e = Ret a /\ P a.
Proof. intros Hg Hv Ht. inversion Hv; subst. by apply Hg. Qed.

(** ** Scalar handlers *)
Section Scalar.
Context `{sys : Sys} {Hok : SysOk sys} (m : module).

Lemma page_at_least_16 : 16 <= syspagesize.
Proof.
  destruct Hok as [(k & Hk & ->)]. pose proof (Z.pow_le_mono_r 2 12 k ltac:(lia) ltac:(lia)). lia.
Qed.

Lemma unop_ok {A} t r (get : operand_stack_elem -> outcome A) P f :
  reads_as t get P -> (forall a, P a -> result_ok r (f a)) -> instr_ok m [t] [r] (unop get f).
Proof.
  intros Hg Hf c p la rest [Hs Hp Hv Hm] Hsm (e & -> & Ht)%types1. destruct Hs as [Hw Hc].
  destruct (read_one t get P e rest Hg Hv Ht) as (a & Ha & HPa). specialize (Hf a HPa).
  unfold unop. simpl in *. vsteps. apply wp_lift.
  destruct (f a) as [v|x|w]; simpl in Hf; [|done|done]. vsteps.
  exists [v]. simpl. destruct Hf as [<- Hvv]. split; [done|]. split; [|done].
  constructor; try done. inversion Hv; subst. by constructor.
Qed.

Lemma binop_ok {A B} t u r (gl : operand_stack_elem -> outcome A) (gr : operand_stack_elem -> outcome B)
    P R f :
  reads_as t gl P -> reads_as u gr R -> (forall a b, P a -> R b -> result_ok r (f a b)) ->
  instr_ok m [u; t] [r] (binop gl gr f).
Proof.
  intros Hgl Hgr Hf c p la rest [Hs Hp Hv Hm] Hsm (e2 & e1 & -> & Ht2 & Ht1)%types2.
  destruct Hs as [Hw Hc]. simpl in *.
  destruct (read_one u gr R e2 _ Hgr Hv Ht2) as (b & Hb & HRb).
  inversion Hv as [|? ? ? Hv1]; subst.
  destruct (read_one _ gl P e1 _ Hgl Hv1 eq_refl) as (a & Ha & HPa).
  specialize (Hf a b HPa HRb). unfold binop. vsteps. apply wp_lift.
  destruct (f a b) as [v|x|w]; simpl in Hf; [|done|done]. vsteps.
  exists [v]. simpl. destruct Hf as [<- Hvv]. split; [done|]. split; [|done].
  constructor; try done. inversion Hv1; subst. by constructor.
Qed.

Lemma const_ok el : value_ok el -> instr_ok m [] [elem_type el] (exec_const el).
Proof.
  intros He c p la rest [[Hw Hc] Hp Hv Hm] Hsm Hla%fmap_nil_inv. subst la. simpl in *.
  unfold exec_const. vsteps. exists [el]. split; [done|]. split; [|done].
  constructor; try done. simpl. by constructor.
Qed.

Lemma drop_ok t : instr_ok m [t] [] (exec_parametric Op.drop_).
Proof.
  intros c p la rest [[Hw Hc] Hp Hv Hm] Hsm (e & -> & Ht)%types1. simpl in *.
  vsteps. exists []. split; [done|]. split; [|done].
  constructor; try done. by inversion Hv.
Qed.

(** ** Memory handlers *)
Lemma effective_address e l offset :
  Forall value_ok (e :: l) -> elem_type e = i32 -> in_u 32 offset ->
  exists a, to_ui32 e = Ret a /\ 0 <= offset + a <= 2 * (2 ^ 32 - 1).
Proof.
  intros Hv Ht Ho. destruct (read_one _ _ _ e l reads_ui32 Hv Ht) as (a & -> & Ha).
  exists a. split; [done|]. unfold in_u in *. lia.
Qed.

Lemma wp_read_mem n a c :
  (n <= 16)%nat -> 0 <= a <= 2 * (2 ^ 32 - 1) ->
  wp (read_mem n a) (fun _ c' => c' = c) (fun e _ => is_trap e) c.
Proof.
  intros Hn Ha. unfold read_mem. apply wp_bind, wp_gets, wp_lift.
  unfold read_unaligned. rewrite access_cases by (pose proof page_at_least_16; lia).
  by destruct (_ && _).
Qed.

Lemma wp_write_mem n a v c :
  (n <= 16)%nat -> 0 <= a <= 2 * (2 ^ 32 - 1) -> memory_inv m (_wasm_alloc c) ->
  wp (write_mem n a v)
    (fun _ c' => exists wa, c' = set_wasm_alloc wa c /\ memory_inv m wa)
    (fun e _ => is_trap e) c.
Proof.
  intros Hn Ha Hwf. unfold write_mem. apply wp_bind, wp_gets, wp_bind, wp_lift.
  unfold write_unaligned. rewrite access_cases by (pose proof page_at_least_16; lia).
  destruct (_ && _); [|done]. simpl. apply wp_modify. by eexists.
Qed.

Lemma load_ok n mk r offset :
  (n <= 16)%nat -> in_u 32 offset -> makes r mk -> instr_ok m [i32] [r] (load n mk offset).
Proof.
  intros Hn Ho Hmk c p la rest [[Hw Hc] Hp Hv Hm] Hsm (e & -> & Ht)%types1. simpl in *.
  destruct (effective_address e rest offset Hv Ht Ho) as (a & Ha & Hb).
  unfold load, pop_memop_addr. vsteps. apply wp_ret. vsteps.
  eapply wp_mono; [by apply wp_read_mem| |done]. intros v c' ->. vsteps.
  exists [mk v]. destruct (Hmk v) as [<- Hvk]. split; [done|]. split; [|done].
  constructor; try done. inversion Hv; subst. simpl. by constructor.
Qed.

Lemma store_ok n t get P offset :
  (n <= 16)%nat -> in_u 32 offset -> reads_as t get P -> instr_ok m [t; i32] [] (store n get offset).
Proof.
  intros Hn Ho Hg c p la rest [[Hw Hc] Hp Hv Hm] Hsm (e2 & e1 & -> & Ht2 & Ht1)%types2. simpl in *.
  destruct (read_one t get P e2 _ Hg Hv Ht2) as (v & Hr & _).
  inversion Hv as [|? ? ? Hv1]; subst.
  destruct (effective_address e1 rest offset Hv1 Ht1 Ho) as (a & Ha & Hb).
  unfold store, pop_memop_addr. vsteps. apply wp_ret. vsteps.
  eapply wp_mono; [by apply wp_write_mem| |done]. intros _ c' (wa & -> & Hwf).
  exists []. split; [done|]. split; [|done]. constructor; try done. by inversion Hv1.
Qed.

Lemma wp_wasm_alloc n s :
  memory_inv m s -> 0 <= n < 2 ^ 32 ->
  wp (WasmAlloc.alloc n) (fun _ => memory_inv m) (fun e _ => is_trap e) s.
Proof.
  unfold memory_inv, wasm_alloc_wf. change WasmAlloc.max_pages with 65536. intros [Hwf Hp] Hn.
  unfold WasmAlloc.alloc. destruct (Z.eqb_spec n 0); [by apply wp_ret|].
  apply wp_bind, wp_gets.
  apply wp_bind, wp_assertM; intros H1; [|done].
  apply wp_bind, wp_assertM; intros H2; [|done].
  apply wp_bind, wp_assertM; intros _; [|done].
  apply wp_bind, wp_modify, wp_modify. destruct_bools. change WasmAlloc.max_pages with 65536 in H2.
  rewrite wrap_small in H2 by (unfold in_u; lia). simpl. rewrite sext_small by (unfold in_s; lia).
  split; lia.
Qed.

Lemma wp_wasm_free n s :
  memory_inv m s -> 0 <= n ->
  wp (WasmAlloc.free n) (fun _ => memory_inv m) (fun e _ => is_trap e) s.
Proof.
  unfold memory_inv, wasm_alloc_wf. change WasmAlloc.max_pages with 65536. intros [Hwf Hp] Hn.
  unfold WasmAlloc.free. destruct (Z.eqb_spec n 0); [by apply wp_ret|].
  apply wp_bind, wp_gets.
  apply wp_bind, wp_assertM; intros H1; [|done].
  apply wp_bind, wp_assertM; intros H2; [|done].
  apply wp_bind, wp_modify, wp_assertM; intros _; [|done]. destruct_bools.
  simpl. rewrite sext_small by (unfold in_s; lia). split; lia.
Qed.

(** What the parser guarantees of a declared memory. *)
Definition memory_limits_ok : Prop :=
  forall mem mems, memories m = mem :: mems -> flags (memory_limits mem) = true ->
    0 <= maximum (memory_limits mem) <= WasmAlloc.max_pages.

Lemma wp_on_wasm_alloc (k : M WasmAlloc.t unit) (Q : unit -> ctx -> Prop) c :
  wp k (fun _ => memory_inv m) (fun e _ => is_trap e) (_wasm_alloc c) ->
  (forall wa, memory_inv m wa -> Q tt (set_wasm_alloc wa c)) ->
  wp (on_wasm_alloc k) Q (fun e _ => is_trap e) c.
Proof.
  unfold wp, on_wasm_alloc. destruct (k (_wasm_alloc c)) as [[[]|e|w] wa]; auto.
Qed.

Lemma wp_grow pages c :
  memory_limits_ok -> memories m <> [] -> memory_inv m (_wasm_alloc c) -> in_s 32 pages ->
  wp (grow_linear_memory m pages)
    (fun _ c' => exists wa, c' = set_wasm_alloc wa c /\ memory_inv m wa)
    (fun e _ => is_trap e) c.
Proof.
  intros Hl Hmem Hwf [Hp1 Hp2]. pose proof Hwf as [[Hw1 Hw2] Hw3]. specialize (Hw3 Hmem).
  change WasmAlloc.max_pages with 65536 in Hw2.
  assert (Hsame : exists wa, c = set_wasm_alloc wa c /\ memory_inv m wa).
  { exists (_wasm_alloc c). by destruct c. }
  unfold grow_linear_memory, current_linear_memory. apply wp_bind, wp_gets.
  destruct (Z.ltb_spec pages 0).
  - apply wp_bind. eapply wp_lift_Ret; [apply int_expr_ret; unfold in_s; lia|].
    destruct (Z.ltb_spec (WasmAlloc.page (_wasm_alloc c) + pages) 0); [by apply wp_ret|].
    apply wp_bind. eapply wp_lift_Ret; [apply int_expr_ret; unfold in_s; lia|].
    apply wp_bind, wp_on_wasm_alloc; [apply wp_wasm_free; [done|lia]|].
    intros wa Hwa. apply wp_ret. by exists wa.
  - apply wp_bind, wp_gets. destruct (memories m) as [|mem mems] eqn:Hm; [done|].
    destruct (_ <? pages); [by apply wp_ret|]. apply wp_bind.
    apply wp_mono with (Q := fun _ c' => c' = c) (E := fun _ _ => False).
    + destruct (flags (memory_limits mem)) eqn:Hfl; [|by apply wp_ret].
      pose proof (Hl mem mems Hm Hfl) as [? ?]. change WasmAlloc.max_pages with 65536 in *.
      apply wp_bind. rewrite sext_small by (unfold in_s; lia).
      eapply wp_lift_Ret; [apply int_expr_ret; unfold in_s; lia|by apply wp_ret].
    + intros [] c' ->; [by apply wp_ret|].
      apply wp_bind, wp_on_wasm_alloc; [apply wp_wasm_alloc; [done|lia]|].
      intros wa Hwa. apply wp_ret. by exists wa.
    + done.
Qed.

Lemma memory_size_ok : instr_ok m [] [i32] (inc_pc;; n ← current_linear_memory; push_operand (mk_i32 n)).
Proof.
  intros c p la rest [[Hw Hc] Hp Hv Hm] Hsm Hla%fmap_nil_inv. subst la. simpl in *. vsteps.
  unfold current_linear_memory. vsteps.
  eexists [mk_i32 _]. split; [done|]. split; [|done]. constructor; try done.
  simpl. constructor; [apply makes_i32|done].
Qed.

Lemma memory_grow_ok :
  memory_limits_ok -> memories m <> [] ->
  instr_ok m [i32] [i32]
    (inc_pc;; oper ← peek_operand 0; n ← lift (to_ui32 oper);
     r ← grow_linear_memory m (sext 32 n); set_top (mk_i32 r)).
Proof.
  intros Hl Hmem c p la rest [[Hw Hc] Hp Hv Hm] Hsm (e & -> & Ht)%types1. simpl in *.
  destruct (read_one _ _ _ e rest reads_ui32 Hv Ht) as (n & Hn & Hb). vsteps.
  eapply wp_mono; [apply wp_grow; [done|done|done|apply sext_in_s; lia]| |done].
  intros r c' (wa & -> & Hwa). vsteps. eexists [mk_i32 _]. split; [done|]. split; [|done].
  constructor; try done. simpl. constructor; [apply makes_i32|by inversion Hv].
Qed.
End Scalar.

(** ** Vector handlers *)

(** The range of a lane. *)
Definition lane (A : ity) (x : Z) : Prop := if signed A then in_s (bits A) x else in_u (bits A) x.

Lemma conv_lane A x : 0 < bits A -> lane A (conv A x).
Proof.
  intros H. unfold lane, conv. destruct (signed A); [by apply sext_in_s|apply wrap_in_u; lia].
Qed.

Lemma length_get_lanes A v : length (get_lanes A v) = lanes_of A.
Proof. unfold get_lanes. by rewrite length_fmap, length_seq. Qed.

Lemma get_lanes_range A v : 0 < bits A -> Forall (lane A) (get_lanes A v).
Proof. intros H. unfold get_lanes. apply Forall_fmap, Forall_forall. intros i _. by apply conv_lane. Qed.

Definition total1 {X Y} (P : X -> Prop) (f : X -> outcome Y) : Prop :=
  forall x, P x -> exists y, f x = Ret y.
Definition total2 {X X' Y} (P : X -> Prop) (P' : X' -> Prop) (f : X -> X' -> outcome Y) : Prop :=
  forall x x', P x -> P' x' -> exists y, f x x' = Ret y.

Lemma map_outcome_total {X Y} (P : X -> Prop) (f : X -> outcome Y) l :
  total1 P f -> Forall P l -> exists l', map_outcome f l = Ret l'.
Proof.
  intros Hf. induction 1 as [|x l Hx _ [l' IH]]; simpl; [by eexists|].
  destruct (Hf x Hx) as [y ->]. simpl. rewrite IH. by eexists.
Qed.

Lemma map2_outcome_total {X X' Y} (P : X -> Prop) (P' : X' -> Prop) (f : X -> X' -> outcome Y) l k :
  total2 P P' f -> Forall P l -> Forall P' k -> exists r, map2_outcome f l k = Ret r.
Proof.
  intros Hf Hl. revert k. induction Hl as [|x l Hx _ IH]; intros k Hk; [by eexists|].
  destruct Hk as [|y k Hy Hk]; simpl; [by eexists|].
  destruct (Hf x y Hx Hy) as [z ->]. simpl. destruct (IH k Hk) as [r ->]. by eexists.
Qed.

Lemma map3_outcome_total {Y} (f : Z -> Z -> Z -> outcome Y) l k j :
  (forall x y z, exists r, f x y z = Ret r) -> exists r, map3_outcome f l k j = Ret r.
Proof.
  intros Hf. revert k j. induction l as [|x l IH]; intros [|y k] [|z j]; simpl; try by eexists.
  destruct (Hf x y z) as [r ->]. simpl. destruct (IH k j) as [r' ->]. by eexists.
Qed.

Lemma pairwise_total (P : Z -> Prop) f l :
  total2 P P f -> Forall P l -> exists r, pairwise f l = Ret r.
Proof.
  intros Hf Hl. cut (forall n l, (length l <= n)%nat -> Forall P l -> exists r, pairwise f l = Ret r); [eauto|].
  clear l Hl. induction n as [|n IH]; intros l Hn Hl.
  - destruct l; [by eexists|simpl in Hn; lia].
  - destruct Hl as [|x l Hx Hl]; [by eexists|]. destruct Hl as [|y l Hy Hl]; [by eexists|]. simpl.
    destruct (Hf x y Hx Hy) as [z ->]. simpl in *. destruct (IH l ltac:(lia) Hl) as [r ->]. by eexists.
Qed.

(** A total operation on vectors. *)
Definition vec1_ok (f : v128_t -> outcome v128_t) : Prop := forall a, exists r, f a = Ret r /\ vec_ok r.
Definition vec2_ok (f : v128_t -> v128_t -> outcome v128_t) : Prop :=
  forall a b, exists r, f a b = Ret r /\ vec_ok r.

Lemma unop_array_ok A R f :
  0 < bits A -> total1 (Forall (lane A)) f -> vec1_ok (unop_array A R f).
Proof.
  intros HA Hf a. unfold unop_array. destruct (Hf (get_lanes A a)) as [r ->]; [by apply get_lanes_range|].
  simpl. eexists; split; [done|apply put_lanes_ok].
Qed.

Lemma binop_array_ok A R f :
  0 < bits A -> total2 (Forall (lane A)) (Forall (lane A)) f -> vec2_ok (binop_array A R f).
Proof.
  intros HA Hf a b. unfold binop_array.
  destruct (Hf (get_lanes A a) (get_lanes A b)) as [r ->]; [by apply get_lanes_range..|].
  simpl. eexists; split; [done|apply put_lanes_ok].
Qed.

Lemma unop_lanes_ok A f : 0 < bits A -> total1 (lane A) f -> vec1_ok (unop_lanes A f).
Proof. intros HA Hf. apply unop_array_ok; [done|]. intros l Hl. by eapply map_outcome_total. Qed.

Lemma binop_lanes_ok A f : 0 < bits A -> total2 (lane A) (lane A) f -> vec2_ok (binop_lanes A f).
Proof. intros HA Hf. apply binop_array_ok; [done|]. intros l k Hl Hk. by eapply map2_outcome_total. Qed.

Lemma narrow_ok A R f : 0 < bits A -> total1 (lane A) f -> vec2_ok (narrow A R f).
Proof.
  intros HA Hf. apply binop_array_ok; [done|]. intros l k Hl Hk.
  destruct (map_outcome_total (lane A) f l Hf Hl) as [r ->].
  destruct (map_outcome_total (lane A) f k Hf Hk) as [r' ->]. simpl. by eexists.
Qed.

Lemma half_range P h n (l : list Z) : Forall P l -> Forall P (half h n l).
Proof. intros H. unfold half. apply Forall_take. destruct h; [by apply Forall_drop|done]. Qed.

Lemma extend_ok A R h : 0 < bits A -> vec1_ok (extend A R h).
Proof. intros HA. apply unop_array_ok; [done|]. intros l _. by eexists. Qed.

Lemma extadd_pairwise_ok A R :
  0 < bits A -> total2 (lane A) (lane A) (fun a b => arith R (conv R a + b)) ->
  vec1_ok (extadd_pairwise A R).
Proof. intros HA Hf. apply unop_array_ok; [done|]. intros l Hl. by eapply pairwise_total. Qed.

Lemma extmul_ok A R h :
  0 < bits A -> total2 (lane A) (lane A) (fun x y => arith R (conv R x * y)) ->
  vec2_ok (extmul A R h).
Proof.
  intros HA Hf. apply binop_array_ok; [done|]. intros l k Hl Hk.
  eapply map2_outcome_total; [exact Hf|by apply half_range..].
Qed.

Lemma ternop_lanes_ok A f :
  (forall x y z, exists r, f x y z = Ret r) ->
  forall a b c, exists r, ternop_lanes A f a b c = Ret r /\ vec_ok r.
Proof.
  intros Hf a b c. unfold ternop_lanes.
  destruct (map3_outcome_total f (get_lanes A a) (get_lanes A b) (get_lanes A c) Hf) as [r ->].
  simpl. eexists; split; [done|apply put_lanes_ok].
Qed.

Lemma apply_ok (f : v128_t -> v128_t) : (forall a, vec_ok (f a)) -> vec1_ok (ret1 f).
Proof. intros H a. by exists (f a). Qed.
Lemma apply2_ok (f : v128_t -> v128_t -> v128_t) : (forall a b, vec_ok (f a b)) -> vec2_ok (ret2 f).
Proof. intros H a b. by exists (f a b). Qed.

Lemma extract_lane_ok A i v :
  0 <= i < Z.of_nat (lanes_of A) -> exists x, extract_lane A i v = Ret x.
Proof.
  intros Hi. unfold extract_lane.
  destruct (nthZ_Some (get_lanes A v) i) as [x ->]; [by rewrite length_get_lanes|by eexists].
Qed.

Lemma replace_lane_ok A i x v :
  0 <= i < Z.of_nat (lanes_of A) -> exists r, replace_lane A i x v = Ret r /\ vec_ok r.
Proof.
  intros Hi. unfold replace_lane. rewrite insZ_Some by (by rewrite length_get_lanes). simpl.
  eexists; split; [done|apply put_lanes_ok].
Qed.

Lemma swizzle_ok : vec2_ok swizzle.
Proof.
  intros a b. unfold swizzle.
  destruct (map_outcome_total (lane U8) (fun i => if i <? 16 then
      or_UB "lane index out of range" (nthZ (get_lanes U8 a) i) else Ret 0) (get_lanes U8 b)) as [r ->].
  - intros i [Hi _]. destruct (Z.ltb_spec i 16); [|by eexists].
    destruct (nthZ_Some (get_lanes U8 a) i) as [x ->]; [|by eexists].
    rewrite length_get_lanes. change (lanes_of U8) with 16%nat. lia.
  - by apply get_lanes_range.
  - simpl. eexists; split; [done|apply put_lanes_ok].
Qed.

Lemma shuffle_ok lanes : Forall (fun i => 0 <= i < 32) lanes -> vec2_ok (shuffle lanes).
Proof.
  intros Hl a b. unfold shuffle.
  destruct (map_outcome_total (fun i => 0 <= i < 32) (fun i => or_UB "lane index out of range"
      (nthZ (get_lanes U8 a ++ get_lanes U8 b) i)) lanes) as [r ->].
  - intros i Hi. destruct (nthZ_Some (get_lanes U8 a ++ get_lanes U8 b) i) as [x ->]; [|by eexists].
    rewrite length_app, !length_get_lanes. change (lanes_of U8) with 16%nat. lia.
  - done.
  - simpl. eexists; split; [done|apply put_lanes_ok].
Qed.

Section Vector.
Context `{sys : Sys} {Hok : SysOk sys} (m : module).

Lemma read_vec e l :
  Forall value_ok (e :: l) -> elem_type e = v128 -> exists v, to_v128 e = Ret v.
Proof. intros Hv Ht. destruct (read_one _ _ _ e l reads_v128 Hv Ht) as (v & ? & _). by eexists. Qed.

(** Close a goal about the final state; [e] is the operand pushed. *)
Ltac finish e := exists e; split; [done|]; split; [|done]; constructor; [done|done| |done]; simpl;
  repeat match goal with H : Forall value_ok (_ :: _) |- _ => inversion H; clear H; subst end;
  (apply Forall_cons; [|assumption]).

Lemma v128_unop_ok f : vec1_ok f -> instr_ok m [v128] [v128] (v128_unop f).
Proof.
  intros Hf c p la rest [[Hw Hc] Hp Hv Hm] Hsm (e & -> & Ht)%types1. simpl in *.
  destruct (read_vec e rest Hv Ht) as (v & Hr). destruct (Hf v) as (r & Hfr & Hrok).
  unfold v128_unop, pop_v128, push_v128. vsteps. finish [v128_const_t r]. apply Hrok.
Qed.

Lemma v128_binop_ok f : vec2_ok f -> instr_ok m [v128; v128] [v128] (v128_binop f).
Proof.
  intros Hf c p la rest [[Hw Hc] Hp Hv Hm] Hsm (e2 & e1 & -> & Ht2 & Ht1)%types2. simpl in *.
  destruct (read_vec e2 _ Hv Ht2) as (v2 & Hr2). inversion Hv as [|? ? ? Hv1]; subst.
  destruct (read_vec e1 rest Hv1 Ht1) as (v1 & Hr1). destruct (Hf v1 v2) as (r & Hfr & Hrok).
  unfold v128_binop, pop_v128, push_v128. vsteps. finish [v128_const_t r]. apply Hrok.
Qed.

Lemma v128_ternop_ok f :
  (forall a b c, exists r, f a b c = Ret r /\ vec_ok r) ->
  instr_ok m [v128; v128; v128] [v128] (v128_ternop f).
Proof.
  intros Hf c p la rest [[Hw Hc] Hp Hv Hm] Hsm (e3 & e2 & e1 & -> & Ht3 & Ht2 & Ht1)%types3. simpl in *.
  destruct (read_vec e3 _ Hv Ht3) as (v3 & Hr3). inversion Hv as [|? ? ? Hv2]; subst.
  destruct (read_vec e2 _ Hv2 Ht2) as (v2 & Hr2). inversion Hv2 as [|? ? ? Hv1]; subst.
  destruct (read_vec e1 rest Hv1 Ht1) as (v1 & Hr1). destruct (Hf v1 v2 v3) as (r & Hfr & Hrok).
  unfold v128_ternop, pop_v128, push_v128. vsteps. finish [v128_const_t r]. apply Hrok.
Qed.

Lemma v128_unop_i32_ok A f : instr_ok m [v128] [i32] (v128_unop_i32 A f).
Proof.
  intros c p la rest [[Hw Hc] Hp Hv Hm] Hsm (e & -> & Ht)%types1. simpl in *.
  destruct (read_vec e rest Hv Ht) as (v & Hr).
  unfold v128_unop_i32, pop_v128. vsteps. finish [mk_i32 (f (get_lanes A v))]. apply makes_i32.
Qed.

(** A shift pops its count first. *)
Lemma v128_shift_ok A mask f :
  0 < bits A -> 0 <= mask -> (forall n, 0 <= n <= mask -> total1 (lane A) (fun a => f a n)) ->
  instr_ok m [i32; v128] [v128] (v128_shift A mask f).
Proof.
  intros HA Hmask Hf c p la rest [[Hw Hc] Hp Hv Hm] Hsm (e2 & e1 & -> & Ht2 & Ht1)%types2. simpl in *.
  destruct (read_one _ _ _ e2 _ reads_ui32 Hv Ht2) as (n & Hn & Hb).
  inversion Hv as [|? ? ? Hv1]; subst. destruct (read_vec e1 rest Hv1 Ht1) as (v1 & Hr1).
  assert (Hln : 0 <= Z.land n mask <= mask).
  { split; [by apply Z.land_nonneg; right|]. destruct Hb as [Hb _].
    rewrite <- (Z2N.id n), <- (Z2N.id mask), <- N2Z.inj_land by done. apply N2Z.inj_le, N.land_le_r. }
  destruct (unop_lanes_ok A (fun a => f a (Z.land n mask)) HA (Hf _ Hln) v1) as (r & Hfr & Hrok).
  unfold v128_shift, pop_ui32, v128_unop, pop_v128, push_v128. vsteps.
  finish [v128_const_t r]. apply Hrok.
Qed.

Lemma v128_splat_ok A t get P : reads_as t get P -> instr_ok m [t] [v128] (v128_splat A get).
Proof.
  intros Hg c p la rest [[Hw Hc] Hp Hv Hm] Hsm (e & -> & Ht)%types1. simpl in *.
  destruct (read_one _ _ _ e rest Hg Hv Ht) as (x & Hx & _).
  unfold v128_splat, push_v128. vsteps. finish [v128_const_t (splat A x)]. apply put_lanes_ok.
Qed.

Lemma v128_extract_lane_ok A r mk i :
  makes r mk -> 0 <= i < Z.of_nat (lanes_of A) ->
  instr_ok m [v128] [r] (v128_extract_lane A mk i).
Proof.
  intros Hmk Hi c p la rest [[Hw Hc] Hp Hv Hm] Hsm (e & -> & Ht)%types1. simpl in *.
  destruct (read_vec e rest Hv Ht) as (v & Hr). destruct (extract_lane_ok A i v Hi) as (x & Hx).
  destruct (Hmk x) as [<- ?].
  unfold v128_extract_lane, pop_v128. vsteps. finish [mk x]. done.
Qed.

Lemma v128_replace_lane_ok A t get P i :
  reads_as t get P -> 0 <= i < Z.of_nat (lanes_of A) ->
  instr_ok m [t; v128] [v128] (v128_replace_lane A get i).
Proof.
  intros Hg Hi c p la rest [[Hw Hc] Hp Hv Hm] Hsm (e2 & e1 & -> & Ht2 & Ht1)%types2. simpl in *.
  destruct (read_one _ _ _ e2 _ Hg Hv Ht2) as (x & Hx & _).
  inversion Hv as [|? ? ? Hv1]; subst. destruct (read_vec e1 rest Hv1 Ht1) as (v1 & Hr1).
  destruct (replace_lane_ok A i x v1 Hi) as (r & Hfr & Hrok).
  unfold v128_replace_lane, pop_v128, push_v128. vsteps. finish [v128_const_t r]. apply Hrok.
Qed.

Lemma exec_swizzle_ok k : exec_splat Op.i8x16_swizzle = Some k -> instr_ok m [v128; v128] [v128] k.
Proof. intros [= <-]. apply (v128_binop_ok swizzle), swizzle_ok. Qed.

Lemma exec_shuffle_ok lanes :
  Forall (fun i => 0 <= i < 32) lanes -> instr_ok m [v128; v128] [v128] (exec_shuffle lanes).
Proof. intros H. by apply (v128_binop_ok (shuffle lanes)), shuffle_ok. Qed.

(** *** Vector loads and stores *)

(** A load that turns the bytes read at the effective address into a vector. *)
Lemma vec_load_ok n (f : Z -> v128_t) offset :
  (n <= 16)%nat -> in_u 32 offset -> (forall v, vec_ok (f v)) ->
  instr_ok m [i32] [v128] (inc_pc;; a ← pop_memop_addr offset; v ← read_mem n a; push_v128 (f v)).
Proof.
  intros Hn Ho Hf. apply (load_ok m n (fun v => v128_const_t (f v)) v128 offset Hn Ho).
  intros v. split; [done|]. apply Hf.
Qed.

Lemma v128_load_extend_ok T U offset :
  0 < bits U -> Z.of_nat (lanes_of T) * (bits U / 8) <= 8 -> in_u 32 offset ->
  instr_ok m [i32] [v128] (v128_load_extend T U offset).
Proof.
  intros HU Hsz Ho c p la rest [[Hw Hc] Hp Hv Hm] Hsm (e & -> & Ht)%types1. simpl in *.
  destruct (effective_address e rest offset Hv Ht Ho) as (a & Ha & Hb).
  unfold v128_load_extend, pop_memop_addr, push_v128. vsteps. apply wp_ret. vsteps.
  assert (Hstep : 0 <= bits U / 8) by (apply Z.div_pos; lia).
  apply wp_lift. cbn [_wasm_alloc set_os set_pc].
  assert (Hread : forall k i : nat, (i + k <= lanes_of T)%nat ->
    match map_outcome (fun i : nat => v ← read_unaligned (Z.to_nat (bits U / 8))
        (offset + a + Z.of_nat i * (bits U / 8)) (_wasm_alloc c); Ret (conv U v)) (seq i k)
    with Ret _ => True | Throw e => is_trap e | UB _ => False end).
  { induction k as [|k IH]; intros i Hi; [done|]. simpl.
    unfold read_unaligned. rewrite access_cases by (pose proof page_at_least_16; nia).
    destruct (_ && _); [simpl|done]. specialize (IH (S i) ltac:(lia)). unfold read_unaligned in IH.
    by destruct (map_outcome _ (seq (S i) k)). }
  specialize (Hread (lanes_of T) 0%nat ltac:(lia)).
  destruct (map_outcome _ _) as [l|x|w]; [|done|done]. vsteps.
  finish [v128_const_t (put_lanes T l)]. apply put_lanes_ok.
Qed.

Lemma v128_load_lane_ok T offset i :
  0 < bits T <= 128 -> in_u 32 offset -> 0 <= i < Z.of_nat (lanes_of T) ->
  instr_ok m [v128; i32] [v128] (v128_load_lane T offset i).
Proof.
  intros HT Ho Hi c p la rest [[Hw Hc] Hp Hv Hm] Hsm (e2 & e1 & -> & Ht2 & Ht1)%types2. simpl in *.
  destruct (read_vec e2 _ Hv Ht2) as (v2 & Hr2). inversion Hv as [|? ? ? Hv1]; subst.
  destruct (effective_address e1 rest offset Hv1 Ht1 Ho) as (a & Ha & Hb).
  unfold v128_load_lane, pop_v128, pop_memop_addr, push_v128. vsteps. apply wp_ret. vsteps.
  assert (bits T / 8 <= 16) by (apply Z.div_le_upper_bound; lia).
  eapply wp_mono; [apply wp_read_mem; [lia|done]| |done]. intros x c' ->.
  destruct (replace_lane_ok T i x v2 Hi) as (r & Hfr & Hrok). vsteps.
  finish [v128_const_t r]. apply Hrok.
Qed.

Lemma v128_store_lane_ok T offset i :
  0 < bits T <= 128 -> in_u 32 offset -> 0 <= i < Z.of_nat (lanes_of T) ->
  instr_ok m [v128; i32] [] (v128_store_lane T offset i).
Proof.
  intros HT Ho Hi c p la rest [[Hw Hc] Hp Hv Hm] Hsm (e2 & e1 & -> & Ht2 & Ht1)%types2. simpl in *.
  destruct (read_vec e2 _ Hv Ht2) as (v2 & Hr2). inversion Hv as [|? ? ? Hv1]; subst.
  destruct (effective_address e1 rest offset Hv1 Ht1 Ho) as (a & Ha & Hb).
  destruct (extract_lane_ok T i v2 Hi) as (x & Hx).
  unfold v128_store_lane, pop_v128, pop_memop_addr. vsteps. apply wp_ret. vsteps.
  assert (bits T / 8 <= 16) by (apply Z.div_le_upper_bound; lia).
  eapply wp_mono; [apply wp_write_mem; [lia|done|done]| |done]. intros _ c' (wa & -> & Hwf).
  exists []. split; [done|]. split; [|done]. constructor; try done. by inversion Hv1.
Qed.
End Vector.
