(* ===== verification/IntegerOps.v ===== *)
(** * The integer instructions (interpret_visitor.hpp)

    What the arithmetic instructions compute, at both widths, on the operand stack
    of the interpreter: division and remainder with their traps, rotations and bit
    counts. *)
From S2P Require Import Prelude WasmStack Allocator Opcodes Types LinearMemory ExecContext Softfloat Simd Interpreter Fixtures ContextProofs InstanceProofs Soundness FloatInstance.

(** The two integer types. *)
Definition width (wide : bool) : Z := if wide then 64 else 32.
Definition const (wide : bool) (n : Z) : operand_stack_elem := if wide then i64_const_t n else i32_const_t n.

(** Running [k] at [p] replaces the operands by [l], or throws [e]. *)
Definition yields (k : M ctx unit) (c : ctx) (p : Z) (l : list operand_stack_elem) : Prop :=
  exists os, WStack.wf os /\ WStack.contents os = l /\ k c = (Ret tt, set_os os (set_pc (Pc (p + 1)) c)).
Definition throws (k : M ctx unit) (c : ctx) (e : exn) : Prop := exists c', k c = (Throw e, c').

Lemma wp_yields k c p l :
  wp k (fun _ c' => exists os, WStack.wf os /\ WStack.contents os = l /\
          c' = set_os os (set_pc (Pc (p + 1)) c)) (fun _ _ => False) c ->
  yields k c p l.
Proof. intros H. apply wp_returns in H as ([] & c' & E & os & Hw & Hc & ->). by exists os. Qed.

Lemma binop_yields {A B} (gl : operand_stack_elem -> outcome A) (gr : operand_stack_elem -> outcome B)
    f c p e2 e1 rest a b :
  stk c (e2 :: e1 :: rest) -> pc c = Pc p -> gr e2 = Ret b -> gl e1 = Ret a ->
  match f a b with
  | Ret r => yields (binop gl gr f) c p (r :: rest)
  | Throw e => throws (binop gl gr f) c e
  | UB _ => True
  end.
Proof.
  intros [Hw Hc] Hp Hb Ha. destruct (f a b) as [r|e|w] eqn:Hf; [| |done].
  - apply wp_yields. unfold binop. vsteps. by eexists.
  - assert (H : wp (binop gl gr f) (fun _ _ => False) (fun e' _ => e' = e) c).
    { unfold binop. vsteps. by eapply wp_lift_Throw. }
    unfold throws. unfold wp in H. destruct (binop gl gr f c) as [[[]|e'|w] c']; [done| |done].
    subst. by eexists.
Qed.

Lemma unop_yields {A} (get : operand_stack_elem -> outcome A) f c p e rest a r :
  stk c (e :: rest) -> pc c = Pc p -> get e = Ret a -> f a = Ret r ->
  yields (unop get f) c p (r :: rest).
Proof. intros [Hw Hc] Hp Ha Hf. apply wp_yields. unfold unop. vsteps. by eexists. Qed.

(** ** Bits *)
Section Bits.
Implicit Types (w x n i : Z).

Lemma wrap_testbit w x i : 0 <= w -> 0 <= i -> Z.testbit (wrap w x) i = (i <? w) && Z.testbit x i.
Proof. intros. unfold wrap. by rewrite Z.testbit_mod_pow2. Qed.

Lemma in_u_testbit w x i : in_u w x -> 0 <= w -> w <= i -> Z.testbit x i = false.
Proof.
  intros Hx Hw Hi. rewrite <- (wrap_small w x Hx), wrap_testbit by lia.
  by destruct (Z.ltb_spec i w); [lia|].
Qed.

(** The count modulo the width, as the masks compute it. *)
Lemma rotate_count k n :
  0 < k <= 32 -> Z.land (wrap 32 n) (2 ^ k - 1) = n mod 2 ^ k /\
  Z.land (wrap 32 (- (Z.land (wrap 32 n) (2 ^ k - 1)))) (2 ^ k - 1) = (- n) mod 2 ^ k.
Proof.
  intros Hk. replace (2 ^ k - 1) with (Z.ones k) by (rewrite Z.ones_equiv; lia).
  assert (H : forall x, Z.land (wrap 32 x) (Z.ones k) = x mod 2 ^ k).
  { intros x. rewrite land_ones_wrap by lia. unfold wrap.
    replace 32 with (k + (32 - k)) by lia. rewrite Z.pow_add_r by lia.
    rewrite Z.rem_mul_r, (Z.mul_comm (2 ^ k)), Z.mod_add, Z.mod_mod by lia. done. }
  rewrite !H. split; [done|]. rewrite <- Z.sub_0_l, Zminus_mod_idemp_r. f_equal.
Qed.

Lemma mod_cases w i r : 0 <= r < w -> 0 <= i < w ->
  (i - r) mod w = if r <=? i then i - r else i - r + w.
Proof.
  intros Hr Hi. destruct (Z.leb_spec r i); [apply Z.mod_small; lia|].
  rewrite <- (Z.mod_add _ 1) by lia. rewrite Z.mod_small; lia.
Qed.

Lemma opp_mod w n : 0 < w -> (- n) mod w = if n mod w =? 0 then 0 else w - n mod w.
Proof.
  intros Hw. destruct (Z.eqb_spec (n mod w) 0).
  - by apply Z_mod_zero_opp_full.
  - by apply Z_mod_nz_opp_full.
Qed.

(** Bit [i] of a rotation. *)
Lemma rotl_testbit w x n i :
  w = 32 \/ w = 64 -> in_u w x -> 0 <= i < w ->
  Z.testbit (rotl w x n) i = Z.testbit x ((i - n) mod w).
Proof.
  intros Hw Hx Hi. assert (exists k, 0 < k <= 32 /\ w = 2 ^ k) as (k & Hk & Hwk).
  { destruct Hw as [->| ->]; [by exists 5|by exists 6]. }
  unfold rotl. cbv zeta. rewrite Hwk. destruct (rotate_count k n Hk) as [-> _].
  assert (Hc : Z.land (wrap 32 (- (n mod 2 ^ k))) (2 ^ k - 1) = (- n) mod 2 ^ k).
  { pose proof (rotate_count k n Hk) as [E1 E2]. by rewrite E1 in E2. }
  rewrite Hc. rewrite <- Hwk. set (r := n mod w).
  pose proof (Z.mod_pos_bound n w ltac:(lia)) as Hr. fold r in Hr.
  rewrite opp_mod by lia. fold r.
  replace ((i - n) mod w) with ((i - r) mod w) by (unfold r; by rewrite Zminus_mod_idemp_r).
  rewrite mod_cases by lia.
  rewrite Z.lor_spec, wrap_testbit, Z.shiftl_spec, Z.shiftr_spec by lia.
  destruct (Z.ltb_spec i w); [simpl|lia].
  destruct (Z.eqb_spec r 0), (Z.leb_spec r i); try lia.
  - rewrite Z.add_0_r. replace (i - r) with i by lia. by rewrite orb_diag.
  - rewrite (in_u_testbit w x (i + (w - r))) by (done || lia). by rewrite orb_false_r.
  - rewrite Z.testbit_neg_r by lia. simpl. f_equal. lia.
Qed.

Lemma rotr_testbit w x n i :
  w = 32 \/ w = 64 -> in_u w x -> 0 <= i < w ->
  Z.testbit (rotr w x n) i = Z.testbit x ((i + n) mod w).
Proof.
  intros Hw Hx Hi. assert (exists k, 0 < k <= 32 /\ w = 2 ^ k) as (k & Hk & Hwk).
  { destruct Hw as [->| ->]; [by exists 5|by exists 6]. }
  unfold rotr. cbv zeta. rewrite Hwk. destruct (rotate_count k n Hk) as [-> _].
  assert (Hc : Z.land (wrap 32 (- (n mod 2 ^ k))) (2 ^ k - 1) = (- n) mod 2 ^ k).
  { pose proof (rotate_count k n Hk) as [E1 E2]. by rewrite E1 in E2. }
  rewrite Hc. rewrite <- Hwk. set (r := n mod w).
  pose proof (Z.mod_pos_bound n w ltac:(lia)) as Hr. fold r in Hr.
  rewrite opp_mod by lia. fold r.
  replace ((i + n) mod w) with ((i - (if r =? 0 then 0 else w - r)) mod w).
  2: { unfold r. rewrite <- opp_mod by lia. rewrite Zminus_mod_idemp_r. f_equal. lia. }
  destruct (Z.eqb_spec r 0) as [Hz|Hz].
  - rewrite mod_cases by lia. rewrite Hz, Z.shiftr_0_r, Z.shiftl_0_r, Z.lor_spec, wrap_testbit by lia.
    destruct (Z.ltb_spec i w), (Z.leb_spec 0 i); try lia. simpl. by rewrite orb_diag, Z.sub_0_r.
  - rewrite mod_cases by lia.
    rewrite Z.lor_spec, wrap_testbit, Z.shiftl_spec, Z.shiftr_spec by lia.
    destruct (Z.ltb_spec i w); [simpl|lia].
    destruct (Z.leb_spec (w - r) i).
    + rewrite (in_u_testbit w x (i + r)) by (done || lia). done.
    + rewrite (Z.testbit_neg_r x (i - (w - r))) by lia. rewrite orb_false_r. f_equal. lia.
Qed.

Lemma ctz_spec w x : 0 < x -> Z.testbit x (ctz w x) = true /\ forall i, 0 <= i < ctz w x -> Z.testbit x i = false.
Proof.
  destruct x as [|p|p]; [done| |done]. intros _. simpl ctz. induction p as [p _|p IH|].
  - simpl ctz_pos. split; [done|lia].
  - simpl ctz_pos. destruct IH as [H1 H2].
    assert (Hnn : 0 <= ctz_pos p) by (clear; induction p; simpl; lia).
    replace (Z.pos p~0) with (2 * Z.pos p) by done. split.
    + replace (1 + ctz_pos p) with (Z.succ (ctz_pos p)) by lia. by rewrite Z.double_bits_succ.
    + intros i Hi. destruct (Z.eqb_spec i 0) as [->|]; [apply Z.testbit_even_0|].
      replace i with (Z.succ (i - 1)) by lia. rewrite Z.double_bits_succ. apply H2. lia.
  - simpl ctz_pos. split; [done|lia].
Qed.

Lemma ctz_range w x : 0 < w -> in_u w x -> 0 <= ctz w x <= w.
Proof.
  intros Hw Hx. destruct (Z.eqb_spec x 0) as [->|Hz]; [simpl; lia|].
  destruct (ctz_spec w x) as [H1 H2]; [unfold in_u in Hx; lia|]. split.
  - destruct x; simpl; try lia. clear. induction p; simpl; lia.
  - destruct (Z.le_gt_cases (ctz w x) w); [done|].
    rewrite (in_u_testbit w x (ctz w x)) in H1 by (done || lia). done.
Qed.

Lemma clz_spec w x : 0 < x -> in_u w x -> 0 < w ->
  0 <= clz w x < w /\ Z.testbit x (w - 1 - clz w x) = true /\
  forall i, w - 1 - clz w x < i -> Z.testbit x i = false.
Proof.
  intros Hx [_ Hu] Hw. unfold clz. destruct (Z.eqb_spec x 0); [lia|].
  pose proof (Z.log2_nonneg x). pose proof (proj1 (Z.log2_lt_pow2 x w Hx) Hu).
  replace (w - 1 - (w - 1 - Z.log2 x)) with (Z.log2 x) by lia.
  split; [lia|]. split; [by apply Z.bit_log2|]. intros i Hi. by apply Z.bits_above_log2; lia.
Qed.
End Bits.

(** ** The instructions *)
Section Instructions.
Context `{sys : Sys} `{sf : Softfloat} (m : module) (_rhf : Z -> M ctx unit).

Definition run (o : Op.numeric_op) : M ctx unit := exec m _rhf (Op.NUMERIC o).

Lemma bin_yields (wide : bool) o f a b p rest c :
  run o = (if wide then bin_i64 f else bin_i32 f) ->
  stk c (const wide b :: const wide a :: rest) -> pc c = Pc p ->
  yields (run o) c p (const wide (wrap (width wide) (f a b)) :: rest).
Proof.
  intros -> Hs Hp. destruct wide.
  - exact (binop_yields to_ui64 to_ui64 (fun a b => Ret (mk_i64 (f a b))) c p _ _ rest a b Hs Hp eq_refl eq_refl).
  - exact (binop_yields to_ui32 to_ui32 (fun a b => Ret (mk_i32 (f a b))) c p _ _ rest a b Hs Hp eq_refl eq_refl).
Qed.

Lemma un_yields (wide : bool) o f a p rest c :
  run o = (if wide then un_i64 f else un_i32 f) ->
  stk c (const wide a :: rest) -> pc c = Pc p ->
  yields (run o) c p (const wide (wrap (width wide) (f a)) :: rest).
Proof.
  intros -> Hs Hp. destruct wide.
  - exact (unop_yields to_ui64 (fun a => Ret (mk_i64 (f a))) c p _ rest a _ Hs Hp eq_refl eq_refl).
  - exact (unop_yields to_ui32 (fun a => Ret (mk_i32 (f a))) c p _ rest a _ Hs Hp eq_refl eq_refl).
Qed.

(** [rotl] and [rotr] rotate: bit [i] of the result is bit [i - n], and bit
    [i + n], of the operand, indices modulo the width, for every count [n]. *)
Theorem rotate_correct wide x n p rest c :
  let w := width wide in
  in_u w x -> stk c (const wide n :: const wide x :: rest) -> pc c = Pc p ->
  exists l r,
    yields (run (if wide then Op.i64_rotl else Op.i32_rotl)) c p (const wide l :: rest) /\
    yields (run (if wide then Op.i64_rotr else Op.i32_rotr)) c p (const wide r :: rest) /\
    in_u w l /\ in_u w r /\
    forall i, 0 <= i < w ->
      Z.testbit l i = Z.testbit x ((i - n) mod w) /\ Z.testbit r i = Z.testbit x ((i + n) mod w).
Proof.
  intros w Hx Hs Hp. assert (Hw : w = 32 \/ w = 64) by (destruct wide; [by right|by left]).
  exists (wrap w (rotl w x n)), (wrap w (rotr w x n)).
  split; [|split; [|split; [apply wrap_in_u; lia|split; [apply wrap_in_u; lia|]]]].
  - apply (bin_yields wide _ (rotl w)); [by destruct wide|done|done].
  - apply (bin_yields wide _ (rotr w)); [by destruct wide|done|done].
  - intros i Hi. rewrite !wrap_testbit by lia. destruct (Z.ltb_spec i w); [|lia].
    simpl. by rewrite rotl_testbit, rotr_testbit.
Qed.

(** [clz] and [ctz] locate the highest and the lowest bit set, and give the
    width for 0. *)
Theorem count_zeros_correct wide x p rest c :
  let w := width wide in
  in_u w x -> stk c (const wide x :: rest) -> pc c = Pc p ->
  exists hi lo,
    yields (run (if wide then Op.i64_clz else Op.i32_clz)) c p (const wide hi :: rest) /\
    yields (run (if wide then Op.i64_ctz else Op.i32_ctz)) c p (const wide lo :: rest) /\
    (x = 0 -> hi = w /\ lo = w) /\
    (x <> 0 ->
       0 <= hi < w /\ Z.testbit x (w - 1 - hi) = true /\ (forall i, w - 1 - hi < i -> Z.testbit x i = false) /\
       Z.testbit x lo = true /\ (forall i, 0 <= i < lo -> Z.testbit x i = false)).
Proof.
  intros w Hx Hs Hp. assert (Hw : w = 32 \/ w = 64) by (destruct wide; [by right|by left]).
  assert (Hpow : w < 2 ^ w) by (destruct Hw as [->| ->]; reflexivity).
  assert (Hclz : 0 <= clz w x <= w).
  { destruct (Z.eqb_spec x 0) as [->|]; [unfold clz; simpl; lia|].
    destruct (clz_spec w x) as (? & _); [unfold in_u in Hx; lia|done|lia|lia]. }
  pose proof (ctz_range w x ltac:(lia) Hx) as Hctz.
  exists (clz w x), (ctz w x). split; [|split; [|split]].
  - rewrite <- (wrap_small w (clz w x)) by (unfold in_u; lia).
    apply (un_yields wide _ (clz w)); [by destruct wide|done|done].
  - rewrite <- (wrap_small w (ctz w x)) by (unfold in_u; lia).
    apply (un_yields wide _ (ctz w)); [by destruct wide|done|done].
  - by intros ->.
  - intros Hz. unfold in_u in Hx.
    destruct (clz_spec w x) as (? & ? & ?); [lia|done|lia|].
    destruct (ctz_spec w x) as (? & ?); [lia|]. done.
Qed.

(** What a division instruction leaves: a quotient or a remainder. *)
Definition op_div_s (wide : bool) := if wide then Op.i64_div_s else Op.i32_div_s.
Definition op_rem_s (wide : bool) := if wide then Op.i64_rem_s else Op.i32_rem_s.
Definition op_div_u (wide : bool) := if wide then Op.i64_div_u else Op.i32_div_u.
Definition op_rem_u (wide : bool) := if wide then Op.i64_rem_u else Op.i32_rem_u.

Lemma division_yields wide (o : Op.numeric_op) a b p rest c f :
  stk c (const wide b :: const wide a :: rest) -> pc c = Pc p ->
  run o = (if wide then binop to_i64 to_i64 (to_elem mk_i64 f) else binop to_i32 to_i32 (to_elem mk_i32 f)) ->
  match f (sext (width wide) a) (sext (width wide) b) with
  | Ret r => yields (run o) c p (const wide (wrap (width wide) r) :: rest)
  | Throw e => throws (run o) c e
  | UB _ => True
  end.
Proof.
  intros Hs Hp ->. destruct wide.
  - pose proof (binop_yields to_i64 to_i64 (to_elem mk_i64 f) c p _ _ rest _ _ Hs Hp eq_refl eq_refl) as H.
    unfold to_elem, mbind, outcome_bind in H. unfold width. by destruct (f (sext 64 a) (sext 64 b)).
  - pose proof (binop_yields to_i32 to_i32 (to_elem mk_i32 f) c p _ _ rest _ _ Hs Hp eq_refl eq_refl) as H.
    unfold to_elem, mbind, outcome_bind in H. unfold width. by destruct (f (sext 32 a) (sext 32 b)).
Qed.

Lemma division_u_yields wide (o : Op.numeric_op) a b p rest c f :
  stk c (const wide b :: const wide a :: rest) -> pc c = Pc p ->
  run o = (if wide then binop to_ui64 to_ui64 (to_elem mk_i64 f) else binop to_ui32 to_ui32 (to_elem mk_i32 f)) ->
  match f a b with
  | Ret r => yields (run o) c p (const wide (wrap (width wide) r) :: rest)
  | Throw e => throws (run o) c e
  | UB _ => True
  end.
Proof.
  intros Hs Hp ->. destruct wide.
  - pose proof (binop_yields to_ui64 to_ui64 (to_elem mk_i64 f) c p _ _ rest _ _ Hs Hp eq_refl eq_refl) as H.
    unfold to_elem, mbind, outcome_bind in H. by destruct (f a b).
  - pose proof (binop_yields to_ui32 to_ui32 (to_elem mk_i32 f) c p _ _ rest _ _ Hs Hp eq_refl eq_refl) as H.
    unfold to_elem, mbind, outcome_bind in H. by destruct (f a b).
Qed.

Lemma quot_in_s w x y : 0 < w -> in_s w x -> in_s w y -> y <> 0 -> ~ (x = - 2 ^ (w - 1) /\ y = -1) ->
  in_s w (Z.quot x y) /\ in_s w (Z.rem x y).
Proof.
  intros Hw Hx Hy Hy0 Hn. pose proof (Z.pow_pos_nonneg 2 (w - 1) ltac:(lia) ltac:(lia)).
  pose proof (Z.quot_rem' x y) as E. pose proof (Z.rem_bound_abs x y Hy0) as Hb.
  assert (Hq : Z.abs (Z.quot x y) * Z.abs y <= Z.abs x).
  { rewrite <- Z.quot_abs by done. pose proof (Z.mul_quot_le (Z.abs x) (Z.abs y)). lia. }
  unfold in_s in *. split; [|lia].
  destruct (Z.eq_dec (Z.abs y) 1) as [Hy1|]; [|nia].
  assert (y = 1 \/ y = -1) as [->| ->] by lia.
  - rewrite Z.quot_1_r. lia.
  - replace (-1) with (- (1)) by lia. rewrite Z.quot_opp_r, Z.quot_1_r by lia. lia.
Qed.

(** C37. Integer division.  By 0, all four instructions trap.  Otherwise the
    unsigned ones give the Euclidean quotient and remainder, and the signed ones a
    quotient [q] and a remainder [r] with [a = b * q + r], [|r| < |b|] and [r] of
    the sign of [a], except that the one overflowing quotient traps while its
    remainder is 0. *)
Theorem integer_division wide a b p rest c :
  let w := width wide in
  in_u w a -> in_u w b -> stk c (const wide b :: const wide a :: rest) -> pc c = Pc p ->
  let sa := sext w a in
  let sb := sext w b in
  (b = 0 -> forall o, o ∈ [op_div_s wide; op_rem_s wide; op_div_u wide; op_rem_u wide] ->
     exists msg, throws (run o) c (wasm_interpreter_exception msg)) /\
  (b <> 0 ->
     yields (run (op_div_u wide)) c p (const wide (a / b) :: rest) /\
     yields (run (op_rem_u wide)) c p (const wide (a mod b) :: rest)) /\
  (sa = - 2 ^ (w - 1) -> sb = -1 ->
     (exists msg, throws (run (op_div_s wide)) c (wasm_interpreter_exception msg)) /\
     yields (run (op_rem_s wide)) c p (const wide 0 :: rest)) /\
  (b <> 0 -> ~ (sa = - 2 ^ (w - 1) /\ sb = -1) ->
     exists q r,
       yields (run (op_div_s wide)) c p (const wide (wrap w q) :: rest) /\
       yields (run (op_rem_s wide)) c p (const wide (wrap w r) :: rest) /\
       in_s w q /\ in_s w r /\ sa = sb * q + r /\ Z.abs r < Z.abs sb /\ 0 <= r * sa).
Proof.
  intros w Ha Hb Hs Hp sa sb. assert (Hw : w = 32 \/ w = 64) by (destruct wide; [by right|by left]).
  assert (Hz : sb = 0 <-> b = 0).
  { unfold sb. rewrite sext_unsigned by (lia || done). unfold in_u in Hb.
    pose proof (pow2_split w ltac:(lia)). destruct (Z.ltb_spec b (2 ^ (w - 1))); lia. }
  assert (Hsa : in_s w sa) by (apply sext_in_s; lia). assert (Hsb : in_s w sb) by (apply sext_in_s; lia).
  pose proof (fun o f E => division_yields wide o a b p rest c f Hs Hp E) as D. fold w sa sb in D.
  pose proof (fun o f E => division_u_yields wide o a b p rest c f Hs Hp E) as U. fold w in U.
  assert (Hds : exists z v, run (op_div_s wide) = (if wide then binop to_i64 to_i64 (to_elem mk_i64 (div_s w z v))
    else binop to_i32 to_i32 (to_elem mk_i32 (div_s w z v)))) by (destruct wide; by eexists _, _).
  assert (Hrs : exists z, run (op_rem_s wide) = (if wide then binop to_i64 to_i64 (to_elem mk_i64 (rem_s w z))
    else binop to_i32 to_i32 (to_elem mk_i32 (rem_s w z)))) by (destruct wide; by eexists _).
  assert (Hdu : exists z, run (op_div_u wide) = (if wide then binop to_ui64 to_ui64 (to_elem mk_i64 (div_u z))
    else binop to_ui32 to_ui32 (to_elem mk_i32 (div_u z)))) by (destruct wide; by eexists _).
  assert (Hru : exists z, run (op_rem_u wide) = (if wide then binop to_ui64 to_ui64 (to_elem mk_i64 (rem_u z))
    else binop to_ui32 to_ui32 (to_elem mk_i32 (rem_u z)))) by (destruct wide; by eexists _).
  destruct Hds as (zd & vd & Hds), Hrs as (zr & Hrs), Hdu as (zu & Hdu), Hru as (zv & Hru).
  apply D in Hds. apply D in Hrs. apply U in Hdu. apply U in Hru. clear D U.
  unfold div_s, rem_s, div_u, rem_u, EOS_VM_ASSERT in *.
  split_and!.
  - intros -> o Ho. rewrite (proj2 Hz eq_refl) in *. simpl in *.
    repeat (apply elem_of_cons in Ho as [->|Ho]; [by eexists|]). by apply elem_of_nil in Ho.
  - intros Hb0. destruct (Z.eqb_spec b 0); [done|]. simpl in *. unfold in_u in *.
    pose proof (Z.div_pos a b ltac:(lia) ltac:(lia)). pose proof (Z.mod_pos_bound a b ltac:(lia)).
    assert (a / b <= a) by (apply Z.div_le_upper_bound; nia).
    rewrite (wrap_small w (a / b)) in Hdu by (unfold in_u; lia).
    rewrite (wrap_small w (a mod b)) in Hru by (unfold in_u; lia). done.
  - intros E1 E2. rewrite E1, E2, Z.eqb_refl in *. simpl in *. split; [by eexists|].
    by rewrite (wrap_small w 0) in Hrs by (unfold in_u; lia).
  - intros Hb0 Hn. assert (Hsb0 : sb <> 0) by (intros E; apply Hb0; by apply Hz).
    exists (Z.quot sa sb), (Z.rem sa sb). destruct (Z.eqb_spec sb 0); [done|].
    destruct ((sa =? - 2 ^ (w - 1)) && (sb =? -1)) eqn:E; [destruct_bools; tauto|]. simpl in *.
    destruct (quot_in_s w sa sb ltac:(lia) Hsa Hsb Hsb0 Hn) as [Hq Hr].
    split; [done|]. split; [done|]. split; [done|]. split; [done|].
    split; [apply Z.quot_rem'|]. split; [by apply Z.rem_bound_abs|]. by apply Z.rem_sign_mul.
Qed.
End Instructions.

(** ** Witnesses *)
Lemma rotate_correct_witness :
  exists l r, yields (run (sys := linux) (sf := reference_softfloat) example_module no_host Op.i32_rotl)
      (example_ctx 0 [i32_const_t 4; i32_const_t 0x80000001]) 0 [i32_const_t l] /\
    in_u 32 l /\ in_u 32 r /\ Z.testbit l 3 = true /\ Z.testbit l 4 = true.
Proof.
  destruct (rotate_correct (sys := linux) (sf := reference_softfloat) example_module no_host false
      0x80000001 4 0 [] (example_ctx 0 [i32_const_t 4; i32_const_t 0x80000001]))
    as (l & r & Hl & _ & Hul & Hur & Hb).
  - unfold in_u. simpl. lia.
  - apply holding_wf. reflexivity.
  - reflexivity.
  - exists l, r. split; [exact Hl|]. split; [exact Hul|]. split; [exact Hur|].
    split; [rewrite (proj1 (Hb 3 ltac:(simpl; lia)))|rewrite (proj1 (Hb 4 ltac:(simpl; lia)))]; reflexivity.
Defined.

Lemma count_zeros_correct_witness :
  exists hi lo, yields (run (sys := linux) (sf := reference_softfloat) example_module no_host Op.i64_ctz)
      (example_ctx 0 [i64_const_t 12]) 0 [i64_const_t lo] /\
    Z.testbit 12 (64 - 1 - hi) = true /\ Z.testbit 12 lo = true.
Proof.
  destruct (count_zeros_correct (sys := linux) (sf := reference_softfloat) example_module no_host true
      12 0 [] (example_ctx 0 [i64_const_t 12])) as (hi & lo & _ & Hlo & _ & Hb).
  - unfold in_u. simpl. lia.
  - apply holding_wf. reflexivity.
  - reflexivity.
  - destruct (Hb ltac:(discriminate)) as (_ & ? & _ & ? & _). by exists hi, lo.
Defined.

Lemma integer_division_witness :
  yields (run (sys := linux) (sf := reference_softfloat) example_module no_host Op.i32_rem_s)
    (example_ctx 0 [i32_const_t 0xffffffff; i32_const_t 0x80000000]) 0 [i32_const_t 0].
Proof.
  refine (proj2 (proj1 (proj2 (proj2 (integer_division (sys := linux) (sf := reference_softfloat)
      example_module no_host false 0x80000000 0xffffffff 0 []
      (example_ctx 0 [i32_const_t 0xffffffff; i32_const_t 0x80000000]) _ _ _ _))) _ _)).
  - unfold in_u. simpl. lia.
  - unfold in_u. simpl. lia.
  - apply holding_wf. reflexivity.
  - reflexivity.
  - reflexivity.
  - reflexivity.
Defined.
