(* ===== verification/OpTypes.v ===== *)
(** * The types of the instructions, and their soundness theorem

    [op_type] gives the operands an instruction takes and leaves, top first; the
    theorem says that every handler the interpreter dispatches to for one of these
    instructions respects it. *)
From S2P Require Import Prelude WasmStack Allocator Opcodes Types LinearMemory ExecContext Softfloat Simd OpSigs Interpreter ContextProofs InstanceProofs Soundness FloatInstance Fixtures.
Import Op(opcode, v128_t, V128, low, high).

(** ** The types *)

(** The bulk instructions are state machines of their own. *)
Definition ext_type (o : Op.ext_op) : option sig :=
  match o with
  | Op.memory_copy | Op.memory_fill | Op.table_copy => None
  | _ => Some (ext_sig o)
  end.

(** Four instructions are left out: their signed arithmetic overflows (see
    [simd_signed_overflow]). *)
Definition vec_numeric_type (o : Op.vec_numeric_op) : option sig :=
  match o with
  | Op.i16x8_mul | Op.i32x4_abs | Op.i64x2_abs | Op.i32x4_dot_i16x8_s => None
  | _ => Some (vec_numeric_sig o)
  end.

Definition op_type (o : opcode) : option sig :=
  match o with
  | Op.MEMORY o _ _ => Some (memory_type_of o)
  | Op.I32_CONST _ => Some ([], [i32])
  | Op.I64_CONST _ => Some ([], [i64])
  | Op.F32_CONST _ => Some ([], [f32])
  | Op.F64_CONST _ => Some ([], [f64])
  | Op.V128_CONST _ => Some ([], [v128])
  | Op.COMPARISON o => Some (comparison_type o)
  | Op.NUMERIC o => Some (numeric_type o)
  | Op.CONVERSION o => Some (conversion_type o)
  | Op.EXT o => ext_type o
  | Op.VEC_MEMORY o _ _ => Some (vec_memory_type o)
  | Op.VEC_LANE_MEMORY o _ _ _ => Some (vec_lane_memory_type o)
  | Op.VEC_SHUFFLE _ => Some (binary v128 v128)
  | Op.VEC_LANE o _ => Some (vec_lane_type o)
  | Op.VEC_NUMERIC o => vec_numeric_type o
  | _ => None
  end.

(** The immediates the parser admits. *)
Definition op_valid (m : module) (o : opcode) : Prop :=
  match o with
  | Op.MEMORY _ _ offset | Op.VEC_MEMORY _ _ offset => in_u 32 offset /\ memories m <> []
  | Op.VEC_LANE_MEMORY o _ offset i =>
      in_u 32 offset /\ memories m <> [] /\ 0 <= i < vec_lane_memory_count o
  | Op.I32_CONST n | Op.F32_CONST n => in_u 32 n
  | Op.I64_CONST n | Op.F64_CONST n => in_u 64 n
  | Op.V128_CONST v => vec_ok v
  | Op.VEC_SHUFFLE lanes => Forall (fun i => 0 <= i < 32) lanes
  | Op.VEC_LANE o i => 0 <= i < vec_lane_count o
  | _ => True
  end.

(** ** Lanes on which the scalar functions are total *)
Lemma conv_small R x : 0 < bits R -> lane R x -> conv R x = x.
Proof.
  intros HR Hx. unfold lane, conv in *. destruct (signed R); [by apply sext_small|by apply wrap_small].
Qed.

Lemma arith_total t x :
  (bits t < 32 -> in_s 32 x) -> (32 <= bits t -> signed t = true -> in_s (bits t) x) ->
  exists y, arith t x = Ret y.
Proof.
  intros Hn Hw. unfold arith. destruct (Z.ltb_spec (bits t) 32).
  - rewrite int_expr_ret by auto. by eexists.
  - destruct (signed t); [|by eexists]. rewrite int_expr_ret by auto. by eexists.
Qed.

(** Evaluate the ranges of concrete lane types. *)
Ltac lane_bounds :=
  unfold lane, in_s, in_u in *; cbn [signed bits I8 U8 I16 U16 I32 U32 I64 U64] in *;
  repeat match goal with
  | H : context [2 ^ ?n] |- _ => let v := eval vm_compute in (2 ^ n) in change (2 ^ n) with v in H
  | |- context [2 ^ ?n] => let v := eval vm_compute in (2 ^ n) in change (2 ^ n) with v
  end.

Ltac arith_lanes := intros; apply arith_total; intros; lane_bounds; (discriminate || lia || nia).

Lemma narrow_shiftl_total A a n :
  A = U8 \/ A = U16 -> lane A a -> 0 <= n <= bits A - 1 -> exists y, arith A (Z.shiftl a n) = Ret y.
Proof.
  intros HA Ha Hn. rewrite Z.shiftl_mul_pow2 by lia.
  pose proof (Z.pow_pos_nonneg 2 n ltac:(lia) ltac:(lia)).
  pose proof (Z.pow_le_mono_r 2 n (bits A - 1) ltac:(lia) ltac:(lia)) as Hp.
  destruct HA as [-> | ->]; apply arith_total; intros; try discriminate; lane_bounds.
  - change (2 ^ (8 - 1)) with 128 in Hp. nia.
  - change (2 ^ (16 - 1)) with 32768 in Hp. nia.
Qed.

Lemma abs_total A t : bits t = 8 \/ bits t = 16 -> signed t = true -> total1 (lane A) (abs_lane t).
Proof.
  intros Ht Hs x _. unfold abs_lane. pose proof (conv_lane t x ltac:(lia)) as Hc.
  unfold lane in Hc. rewrite Hs in Hc. destruct (Z.ltb_spec (conv t x) 0); [|by eexists].
  rewrite int_expr_ret; [by eexists|].
  destruct Ht as [Ht|Ht]; rewrite Ht in *; lane_bounds; change (Z.max 32 _) with 32; lia.
Qed.

Lemma sat_total {P : Z -> Prop} lo hi f :
  total2 P P f -> total2 P P (fun a b => sat lo hi (f a b)).
Proof. intros Hf x y Hx Hy. destruct (Hf x y Hx Hy) as [r E]. unfold sat. rewrite E. by eexists. Qed.

Lemma avgr_total A : A = U8 \/ A = U16 -> total2 (lane A) (lane A) avgr_lane.
Proof.
  intros HA x y Hx Hy. unfold avgr_lane. rewrite int_expr_ret; [by eexists|].
  destruct HA as [-> | ->]; lane_bounds; lia.
Qed.

Lemma q15mulr_total : total2 (lane U16) (lane U16) q15mulr_lane.
Proof.
  intros x y _ _. unfold q15mulr_lane.
  pose proof (conv_lane I16 x ltac:(done)). pose proof (conv_lane I16 y ltac:(done)).
  set (a := conv I16 x) in *. set (b := conv I16 y) in *. lane_bounds.
  rewrite int_expr_ret by (unfold in_s; nia). simpl.
  rewrite int_expr_ret by (unfold in_s; nia). by eexists.
Qed.

(** A lane of a narrower type, converted. *)
Lemma widen_lane A R x :
  0 < bits A -> bits A < bits R -> signed A = signed R -> lane A x -> conv R x = x.
Proof.
  intros HA HR Hs Hx. apply conv_small; [lia|]. unfold lane in *. rewrite <- Hs.
  pose proof (Z.pow_lt_mono_r 2 (bits A) (bits R) ltac:(lia) ltac:(lia) ltac:(lia)).
  pose proof (Z.pow_lt_mono_r 2 (bits A - 1) (bits R - 1) ltac:(lia) ltac:(lia) ltac:(lia)).
  unfold in_s, in_u in *. destruct (signed A); lia.
Qed.

Ltac widen_lanes :=
  match goal with |- total2 (lane ?A) _ (fun a b => arith ?R _) =>
    intros x y Hx Hy; rewrite (widen_lane A R x) by done; arith_lanes end.

Lemma extmul_total A R :
  (A, R) ∈ [(I8, I16); (U8, U16); (I16, I32); (U16, U32); (I32, I64); (U32, U64)] ->
  total2 (lane A) (lane A) (fun x y => arith R (conv R x * y)).
Proof. intros H. repeat (apply elem_of_cons in H as [[= -> ->]|H]; [widen_lanes|]). by apply elem_of_nil in H. Qed.

Lemma extadd_total A R :
  (A, R) ∈ [(I8, I16); (U8, U16); (I16, I32); (U16, U32)] ->
  total2 (lane A) (lane A) (fun a b => arith R (conv R a + b)).
Proof. intros H. repeat (apply elem_of_cons in H as [[= -> ->]|H]; [widen_lanes|]). by apply elem_of_nil in H. Qed.

(** ** The families *)
Section Families.
Context `{sys : Sys} {Hok : SysOk sys} `{sf : Softfloat} (m : module) (_rhf : Z -> M ctx unit).

Lemma ret_ok {A} t (mk : A -> operand_stack_elem) x : makes t mk -> result_ok t (Ret (mk x)).
Proof. intros H. apply H. Qed.

(** A scalar instruction whose result is made by one of the constructors. *)
Lemma unop_makes {A} t r (get : operand_stack_elem -> outcome A) P (mk : Z -> operand_stack_elem) f :
  reads_as t get P -> makes r mk -> instr_ok m [t] [r] (unop get (fun a => Ret (mk (f a)))).
Proof. intros Hg Hmk. eapply unop_ok; [exact Hg|]. intros a _. by apply ret_ok. Qed.

Lemma binop_makes {A B} t u r (gl : operand_stack_elem -> outcome A) (gr : operand_stack_elem -> outcome B)
    P R (mk : Z -> operand_stack_elem) f :
  reads_as t gl P -> reads_as u gr R -> makes r mk ->
  instr_ok m [u; t] [r] (binop gl gr (fun a b => Ret (mk (f a b)))).
Proof. intros Hl Hr Hmk. eapply binop_ok; [exact Hl|exact Hr|]. intros a b _ _. by apply ret_ok. Qed.

Ltac reads := first [ exact reads_ui32 | exact reads_ui64 | exact reads_i32 | exact reads_i64
  | exact reads_fui32 | exact reads_fui64 | exact reads_v128 ].
Ltac made := first [ exact makes_i32 | exact makes_i64 | exact makes_f32 | exact makes_f64 ].
Ltac scalar :=
  first [ refine (unop_makes _ _ _ _ _ _ _ _); [reads|made]
        | refine (binop_makes _ _ _ _ _ _ _ _ _ _ _ _); [reads|reads|made] ].

Lemma comparison_sound o : instr_ok m (comparison_type o).1 (comparison_type o).2 (exec_comparison o).
Proof. destruct o; cbv beta iota zeta delta [exec_comparison handler alt exec_i32_comparison exec_i64_comparison
    exec_f32_comparison exec_f64_comparison comparison_type unary binary fst snd compare un_i32]; scalar. Qed.

(** A computation that returns or traps. *)
Definition safe {A} (o : outcome A) : Prop :=
  match o with Ret _ => True | Throw e => is_trap e | UB _ => False end.

Lemma safe_ret {A} (a : A) : safe (Ret a).
Proof. done. Qed.
Lemma safe_assert {A} b e (k : outcome A) : is_trap e -> safe k -> safe (EOS_VM_ASSERT b e;; k).
Proof. intros He Hk. by destruct b. Qed.

Lemma safe_result {A} t (mk : A -> operand_stack_elem) (o : outcome A) :
  makes t mk -> safe o -> result_ok t (r ← o; Ret (mk r)).
Proof. intros Hmk Ho. destruct o; try done. apply Hmk. Qed.

Ltac safely := repeat first [ apply safe_ret | apply safe_assert; [exact I|] ].

Ltac division :=
  eapply binop_ok; [reads|reads|]; intros a b _ _; apply safe_result; [made|];
  first [unfold div_s | unfold div_u | unfold rem_s | unfold rem_u]; safely.

Lemma numeric_sound o : instr_ok m (numeric_type o).1 (numeric_type o).2 (exec_numeric m o).
Proof.
  destruct o; cbv beta iota zeta delta [exec_numeric handler alt exec_i32_numeric exec_i64_numeric
    exec_f32_numeric exec_f64_numeric exec_extend numeric_type unary binary fst snd
    un_i32 un_i64 un_f32 un_f64 bin_i32 bin_i64 bin_f32 bin_f64];
  lazymatch goal with |- instr_ok _ _ _ (binop _ _ (to_elem _ _)) => division | _ => scalar end.
Qed.

(** The trapping conversions return or trap. *)
Ltac truncation :=
  eapply unop_ok; [reads|]; intros a _; apply safe_result; [made|];
  unfold _eosio_f32_trunc_i32s, _eosio_f32_trunc_i32u, _eosio_f64_trunc_i32s, _eosio_f64_trunc_i32u,
    _eosio_f32_trunc_i64s, _eosio_f32_trunc_i64u, _eosio_f64_trunc_i64s, _eosio_f64_trunc_i64u; safely.

Lemma conversion_sound o : instr_ok m (conversion_type o).1 (conversion_type o).2 (exec_conversion m o).
Proof.
  destruct o; cbv beta iota zeta delta [exec_conversion handler alt exec_trunc exec_convert
    conversion_type unary fst snd];
  lazymatch goal with
  | |- instr_ok _ _ _ (trunc_to _ _ _) => unfold trunc_to; truncation
  | _ => unfold convert_to; scalar
  end.
Qed.

Lemma ext_sound o args res :
  ext_type o = Some (args, res) -> instr_ok m args res (exec_ext m o).
Proof. destruct o; try discriminate; intros [= <- <-];
  cbv beta iota zeta delta [exec_ext handler exec_trunc_sat convert_to]; scalar. Qed.

Lemma memory_sound o offset :
  memory_limits_ok m -> memories m <> [] -> in_u 32 offset ->
  instr_ok m (memory_type_of o).1 (memory_type_of o).2 (exec_memory m o offset).
Proof.
  intros Hl Hm Ho.
  destruct o; cbv beta iota zeta delta [exec_memory handler alt exec_load exec_store exec_memory_size
    memory_type_of unary fst snd];
    first [ refine (load_ok m _ _ _ _ _ Ho _); [lia|made]
          | apply load_ok; [lia|done|]; intros x; (apply makes_i32 || apply makes_i64)
          | refine (store_ok m _ _ _ _ _ _ Ho _); [lia|reads]
          | apply memory_size_ok
          | by apply memory_grow_ok ].
Qed.

Lemma vec_lane_sound o i :
  0 <= i < vec_lane_count o -> instr_ok m (vec_lane_type o).1 (vec_lane_type o).2 (exec_vec_lane o i).
Proof.
  intros Hi. destruct o; cbv beta iota zeta delta [exec_vec_lane vec_lane_type unary fst snd];
    first [ eapply v128_extract_lane_ok; [made|exact Hi]
          | eapply v128_replace_lane_ok; [reads|exact Hi] ].
Qed.

Lemma reads_bits : reads_as v128 (fun e => v ← to_v128 e; Ret (to_bits128 v)) (fun _ => True).
Proof. intros [] H Hv; try discriminate H. by eexists. Qed.

Lemma vec_memory_sound o offset :
  in_u 32 offset ->
  instr_ok m (match o with Op.v128_store => ([v128; i32], []) | _ => unary i32 v128 end).1
    (match o with Op.v128_store => ([v128; i32], []) | _ => unary i32 v128 end).2
    (exec_vec_memory o offset).
Proof.
  intros Ho. destruct o; cbv beta iota zeta delta [exec_vec_memory unary fst snd v128_load_splat v128_load_zero];
    first [ apply v128_load_extend_ok; [done|vm_compute; discriminate|done]
          | apply vec_load_ok; [vm_compute; lia|done|intros; apply put_lanes_ok]
          | apply (vec_load_ok m 16 of_bits128); [done|done|apply of_bits128_ok]
          | eapply store_ok; [lia|done|exact reads_bits] ].
Qed.

Lemma vec_lane_memory_sound o offset i :
  in_u 32 offset -> 0 <= i < vec_lane_memory_count o ->
  instr_ok m [v128; i32] (match o with
      | Op.v128_load8_lane | Op.v128_load16_lane | Op.v128_load32_lane | Op.v128_load64_lane => [v128]
      | _ => [] end) (exec_vec_lane_memory o offset i).
Proof.
  intros Ho Hi. destruct o; cbv beta iota zeta delta [exec_vec_lane_memory];
    first [ apply v128_load_lane_ok; [done|done|exact Hi]
          | apply v128_store_lane_ok; [done|done|exact Hi] ].
Qed.
End Families.

(** ** The vector instructions *)
Section VecNumeric.
Context `{sys : Sys} {Hok : SysOk sys} `{sf : Softfloat} (m : module) (_rhf : Z -> M ctx unit).

(** A scalar function on lanes is total: it just returns, or one of the lemmas
    above says so. *)
Ltac trivially := first [ by (intros ? _; eexists; reflexivity) | by (intros ? ? _ _; eexists; reflexivity) ].
Ltac one_of := first [by left | by right].
Ltac lanes_total :=
  first [ trivially
        | apply abs_total; [one_of|done]
        | apply avgr_total; one_of
        | apply q15mulr_total
        | apply sat_total; intros ? ? ? ?; unfold lane_op; arith_lanes
        | intros ? ?; unfold lane_op; arith_lanes
        | intros ? ? ? ?; unfold lane_op; arith_lanes ].
Ltac widened := apply list_elem_of_In; simpl; tauto.

Ltac vec1 :=
  first [ apply unop_lanes_ok; [done|lanes_total]
        | apply extend_ok; done
        | apply extadd_pairwise_ok; [done|apply extadd_total; widened]
        | apply apply_ok; intros; apply put_lanes_ok ].
Ltac vec2 :=
  first [ apply binop_lanes_ok; [done|lanes_total]
        | apply narrow_ok; [done|lanes_total]
        | apply extmul_ok; [done|apply extmul_total; widened]
        | apply apply2_ok; intros; apply put_lanes_ok ].
Ltac vec_shift :=
  apply v128_shift_ok; [done|done|]; intros n Hn;
  first [ trivially
        | intros a Ha; apply narrow_shiftl_total; [one_of|done|done] ].

Ltac vector :=
  lazymatch goal with
  | |- instr_ok _ _ _ (v128_unop _) => apply v128_unop_ok; vec1
  | |- instr_ok _ _ _ (v128_binop _) => apply v128_binop_ok; vec2
  | |- instr_ok _ _ _ (v128_compare _ _) => unfold v128_compare; apply v128_binop_ok; vec2
  | |- instr_ok _ _ _ (v128_ternop _) =>
      apply v128_ternop_ok, ternop_lanes_ok; intros; eexists; reflexivity
  | |- instr_ok _ _ _ (v128_unop_i32 _ _) => apply v128_unop_i32_ok
  | |- instr_ok _ _ _ (v128_shift _ _ _) => vec_shift
  | |- instr_ok _ _ _ (v128_splat _ to_ui32) => exact (v128_splat_ok m _ _ _ _ reads_ui32)
  | |- instr_ok _ _ _ (v128_splat _ to_ui64) => exact (v128_splat_ok m _ _ _ _ reads_ui64)
  | |- instr_ok _ _ _ (v128_splat _ to_fui32) => exact (v128_splat_ok m _ _ _ _ reads_fui32)
  | |- instr_ok _ _ _ (v128_splat _ to_fui64) => exact (v128_splat_ok m _ _ _ _ reads_fui64)
  | |- _ => by eapply exec_swizzle_ok
  end.

Lemma vec_numeric_sound o args res :
  vec_numeric_type o = Some (args, res) -> instr_ok m args res (exec_vec_numeric o).
Proof.
  destruct o; try discriminate; intros [= <- <-];
    cbv beta iota zeta delta [exec_vec_numeric handler alt exec_splat exec_vec_comparison
      exec_vec_float_comparison exec_vec_bitwise exec_i8x16 exec_i16x8 exec_i16x8_widen exec_i32x4
      exec_i32x4_widen exec_i64x2 exec_i64x2_widen exec_f32x4 exec_f64x2 exec_vec_conversion
      unary binary]; vector.
Qed.
End VecNumeric.

Section Sound.
Context `{sys : Sys} {Hok : SysOk sys} `{sf : Softfloat} (m : module) (_rhf : Z -> M ctx unit).

Lemma typed_instruction o args res :
  op_type o = Some (args, res) -> op_valid m o -> memory_limits_ok m -> instr_ok m args res (exec m _rhf o).
Proof.
  intros Hty Hval Hl.
  destruct o; try discriminate Hty; simpl in Hty, Hval; simpl exec.
  - injection Hty as Hty. destruct Hval. pose proof (memory_sound m o offset Hl) as Hs.
    rewrite Hty in Hs. by apply Hs.
  - injection Hty as <- <-. by apply (const_ok m (i32_const_t ui)).
  - injection Hty as <- <-. by apply (const_ok m (i64_const_t ui)).
  - injection Hty as <- <-. by apply (const_ok m (f32_const_t ui)).
  - injection Hty as <- <-. by apply (const_ok m (f64_const_t ui)).
  - injection Hty as Hty. pose proof (comparison_sound m o) as Hs. by rewrite Hty in Hs.
  - injection Hty as Hty. pose proof (numeric_sound m o) as Hs. by rewrite Hty in Hs.
  - injection Hty as Hty. pose proof (conversion_sound m o) as Hs. by rewrite Hty in Hs.
  - by apply ext_sound.
  - destruct Hval as [Ho _]. pose proof (vec_memory_sound m o offset Ho) as Hs.
    destruct o; injection Hty as <- <-; exact Hs.
  - destruct Hval as (Ho & _ & Hi). injection Hty as <- <-. by apply vec_lane_memory_sound.
  - injection Hty as <- <-. by apply (const_ok m (v128_const_t data)).
  - injection Hty as <- <-. by apply exec_shuffle_ok.
  - injection Hty as Hty. pose proof (vec_lane_sound m o laneidx Hval) as Hs. by rewrite Hty in Hs.
  - by apply vec_numeric_sound.
Qed.

End Sound.


(** ** The four instructions left out *)

(** Two lanes of [i32x4.dot_i16x8_s] are summed. *)
Definition dot_pair (a b c d : Z) : outcome (list Z) := dot_lanes [a; c] [b; d].

(** C40. The signed arithmetic of four vector instructions overflows, which is
    undefined in C++, on inputs WebAssembly defines: [i16x8.mul] as soon as two
    unsigned lanes have a product of [2^31] or more, [i32x4.abs] and [i64x2.abs] on
    the least integer, [i32x4.dot_i16x8_s] when the four lanes it combines are all
    -32768.  On every other input the lane computation returns. *)
Theorem simd_signed_overflow a b c d :
  (lane U16 a -> lane U16 b ->
     ((exists r, lane_op U16 Z.mul a b = Ret r) <-> a * b < 2 ^ 31)) /\
  ((exists r, abs_lane I32 a = Ret r) <-> conv I32 a <> - 2 ^ 31) /\
  ((exists r, abs_lane I64 a = Ret r) <-> conv I64 a <> - 2 ^ 63) /\
  (lane I16 a -> lane I16 b -> lane I16 c -> lane I16 d ->
     ((exists r, dot_pair a b c d = Ret r) <->
      ~ (a = -32768 /\ b = -32768 /\ c = -32768 /\ d = -32768))).
Proof.
  assert (Habs : forall w x, 32 <= w -> in_s w x ->
    ((exists r, (if x <? 0 then int_expr w (- x) else Ret x) = Ret r) <-> x <> - 2 ^ (w - 1))).
  { intros w x Hw [H1 H2]. destruct (Z.ltb_spec x 0); [|split; [lia|by eexists]]. split.
    - intros [r Hr] ->. rewrite int_expr_ub in Hr by (unfold in_s; lia). done.
    - intros Hne. rewrite int_expr_ret by (unfold in_s; lia). by eexists. }
  split_and!.
  - intros Ha Hb. unfold lane_op, arith. simpl. lane_bounds. split.
    + intros [r Hr]. destruct (Z.lt_ge_cases (a * b) 2147483648) as [|Hge]; [done|].
      rewrite int_expr_ub in Hr by (unfold in_s; lia). done.
    + intros Hlt. rewrite int_expr_ret by (unfold in_s; nia). by eexists.
  - apply (Habs 32); [done|]. by apply sext_in_s.
  - apply (Habs 64); [done|]. by apply sext_in_s.
  - intros Ha Hb Hc Hd. lane_bounds. unfold dot_pair, dot_lanes. simpl.
    rewrite int_expr_ret by (unfold in_s; nia). simpl.
    rewrite int_expr_ret by (unfold in_s; nia). simpl. split.
    + intros [r Hr] (-> & -> & -> & ->). done.
    + intros Hn. rewrite int_expr_ret; [by eexists|]. unfold in_s. change (2 ^ (32 - 1)) with 2147483648.
      assert (-1073741824 < a * b <= 1073741824) by nia.
      assert (-1073741824 < c * d <= 1073741824) by nia.
      assert (a * b = 1073741824 -> a = -32768 /\ b = -32768) by nia.
      assert (c * d = 1073741824 -> c = -32768 /\ d = -32768) by nia. lia.
Qed.

Lemma simd_signed_overflow_witness :
  (exists r, lane_op U16 Z.mul 46340 46340 = Ret r) /\ ~ (exists r, lane_op U16 Z.mul 65535 65535 = Ret r).
Proof.
  split.
  - apply (proj1 (simd_signed_overflow 46340 46340 0 0)); vm_compute; try (split; congruence).
  - intros H.
    apply (proj1 (simd_signed_overflow 65535 65535 0 0)) in H; vm_compute in *; try (split; congruence).
    discriminate.
Defined.
