(* ===== verification/CodeTyping.v ===== *)
(** * Typing of the interpreter's code (bitcode_writer.hpp, interpret_visitor.hpp)

    The code of a function is a list of cells, with jumps between them.  A typing
    gives, for the cells that can be reached, the types of the operands of the
    frame when the cell is executed; [cell_typed] says that a cell fits the typings of
    the cells that may follow it. *)
From S2P Require Import Prelude Allocator Opcodes Types OpSigs Validation Writers OpTypes ContextProofs.
Import Op(opcode).

(** ** Instructions without jumps *)

(** The operands of a result or of a label *)
Definition results (ft : func_type) : list Z :=
  if return_count ft =? 0 then [] else [return_type ft].
Definition label_types (t : Z) : list Z := if t =? pseudo then [] else [t].

(** The operands a cell takes and leaves, top first, in a function whose parameters
    and locals are [locals]. *)
Inductive step_type (m : module) (locals : list Z) : opcode -> list Z -> list Z -> Prop :=
  | st_op o args res : op_type o = Some (args, res) -> op_valid m o -> step_type m locals o args res
  | st_vec o : step_type m locals (Op.VEC_NUMERIC o) (vec_numeric_sig o).1 (vec_numeric_sig o).2
  | st_nop imm : step_type m locals (Op.CONTROL_FLOW Op.nop imm) [] []
  | st_drop t : step_type m locals (Op.PARAMETRIC Op.drop_) [t] []
  | st_select t : step_type m locals (Op.PARAMETRIC Op.select_) [i32; t; t] [t]
  | st_get_local x t : nthZ locals x = Some t ->
      step_type m locals (Op.VARIABLE_ACCESS Op.get_local x) [] [t]
  | st_set_local x t : nthZ locals x = Some t ->
      step_type m locals (Op.VARIABLE_ACCESS Op.set_local x) [t] []
  | st_tee_local x t : nthZ locals x = Some t ->
      step_type m locals (Op.VARIABLE_ACCESS Op.tee_local x) [t] [t]
  | st_get_global x g : nthZ (globals m) x = Some g ->
      step_type m locals (Op.VARIABLE_ACCESS Op.get_global x) [] [content_type (gl_type g)]
  | st_set_global x g : nthZ (globals m) x = Some g -> mutability (gl_type g) = true ->
      step_type m locals (Op.VARIABLE_ACCESS Op.set_global x) [content_type (gl_type g)] []
  | st_call f ft : 0 <= f -> Mod.get_function_type m f = Ret ft ->
      step_type m locals (Op.CALL Op.call f) (rev (param_types ft)) (results ft)
  | st_call_indirect x ft te : nthZ (types m) x = Some te -> ft ∈ types m -> func_type_eqb te ft = true ->
      tables m <> [] ->
      step_type m locals (Op.CALL Op.call_indirect x) (i32 :: rev (param_types ft)) (results ft)
  | st_memory_init x : memories m <> [] -> 0 <= x ->
      step_type m locals (Op.DATA Op.memory_init x) [i32; i32; i32] []
  | st_data_drop x : 0 <= x -> step_type m locals (Op.DATA Op.data_drop x) [] []
  | st_table_init x : tables m <> [] -> 0 <= x ->
      step_type m locals (Op.DATA Op.table_init x) [i32; i32; i32] []
  | st_elem_drop x : 0 <= x < Z.of_nat (length (elements m)) ->
      step_type m locals (Op.DATA Op.elem_drop x) [] []
  | st_memory_copy : memories m <> [] -> step_type m locals (Op.EXT Op.memory_copy) [i32; i32; i32] []
  | st_memory_fill : memories m <> [] -> step_type m locals (Op.EXT Op.memory_fill) [i32; i32; i32] []
  | st_table_copy : tables m <> [] -> step_type m locals (Op.EXT Op.table_copy) [i32; i32; i32] [].

(** ** Jumps *)

(** The immediate [pop] of a jump: operands of types [ts] become operands of
    types [ts']. *)
Inductive jumps : Z -> list Z -> list Z -> Prop :=
  | jumps_void l ts : Z.of_nat (length l) < 2 ^ 31 -> jumps (Z.of_nat (length l)) (l ++ ts) ts
  | jumps_value t l ts : Z.of_nat (length l) + 1 < 2 ^ 31 ->
      jumps (2 ^ 31 + (Z.of_nat (length l) + 1)) (t :: l ++ ts) (t :: ts).

(** The types of the operands before a cell; [None]: it cannot be reached. *)
Definition typing : Type := Z -> option (list Z).

Section Cells.
Context (m : module) (locals : list Z).

(** [heads b ts]: the jump [b] goes where the operands have types [ts]. *)
Definition cell_typed (Φ : typing) (heads : BitcodeWriter.branch -> list Z -> Prop) (i : Z) (o : opcode)
    (ts : list Z) : Prop :=
  let here := BitcodeWriter.AtInstr i in
  match o with
  | Op.CONTROL_FLOW Op.unreachable _ => True
  | Op.CONTROL_FLOW Op.if_ _ =>
      exists rest, ts = i32 :: rest /\ Φ (i + 1) = Some rest /\ heads here rest
  | Op.CONTROL_FLOW Op.else_ _ => heads here ts
  | Op.CONTROL_FLOW Op.br imm => exists ts', jumps (Op.cf_data imm) ts ts' /\ heads here ts'
  | Op.CONTROL_FLOW Op.br_if imm =>
      exists rest ts', ts = i32 :: rest /\ Φ (i + 1) = Some rest /\
        jumps (Op.cf_data imm) rest ts' /\ heads here ts'
  | Op.BR_TABLE size table =>
      exists rest, ts = i32 :: rest /\ 0 <= size /\ Z.of_nat (length table) = size + 1 /\
        forall j e, nthZ table j = Some e ->
          exists ts', jumps (Op.elem_stack_pop e) rest ts' /\ heads (BitcodeWriter.AtCase i j) ts'
  | _ => exists args res rest, step_type m locals o args res /\ ts = args ++ rest /\
           Φ (i + 1) = Some (res ++ rest)
  end.

(** The cell a jump belongs to *)
Definition cell_of (b : BitcodeWriter.branch) : Z :=
  match b with BitcodeWriter.AtInstr i | BitcodeWriter.AtCase i _ => i end.

Definition weaker (Φ Φ' : typing) : Prop := forall i ts, Φ i = Some ts -> Φ' i = Some ts.

(** The parts of a cell that matter to its type *)
Definition same_but_target (o o' : opcode) : Prop :=
  match o with
  | Op.CONTROL_FLOW c imm => exists imm', o' = Op.CONTROL_FLOW c imm' /\ Op.cf_data imm' = Op.cf_data imm
  | Op.BR_TABLE size table =>
      exists table', o' = Op.BR_TABLE size table' /\
        (Op.elem_stack_pop <$> table') = (Op.elem_stack_pop <$> table)
  | _ => o' = o
  end.

Lemma same_but_target_refl o : same_but_target o o.
Proof. destruct o; simpl; eauto. Qed.
Lemma same_but_target_trans o1 o2 o3 :
  same_but_target o1 o2 -> same_but_target o2 o3 -> same_but_target o1 o3.
Proof.
  destruct o1; simpl; try (by intros -> ->).
  - intros (imm2 & -> & H2). simpl. intros (imm3 & -> & H3). eexists. split; [done|congruence].
  - intros (t2 & -> & H2). simpl. intros (t3 & -> & H3). eexists. split; [done|congruence].
Qed.

Lemma same_case (table table' : list Op.elem_t) j e' :
  (Op.elem_stack_pop <$> table') = (Op.elem_stack_pop <$> table) -> nthZ table' j = Some e' ->
  exists e, nthZ table j = Some e /\ Op.elem_stack_pop e' = Op.elem_stack_pop e.
Proof.
  intros Heq. unfold nthZ. destruct (j <? 0); [done|]. intros Hj.
  assert (H : (Op.elem_stack_pop <$> table) !! Z.to_nat j = Some (Op.elem_stack_pop e')).
  { rewrite <- Heq, list_lookup_fmap, Hj. done. }
  rewrite list_lookup_fmap in H. destruct (table !! Z.to_nat j) as [e|] eqn:E; [|done].
  injection H as H. eauto.
Qed.

Lemma step_type_same o o' args res :
  same_but_target o o' -> step_type m locals o args res -> step_type m locals o' args res.
Proof.
  intros Hs H. destruct H as [o args res Hty Hv| | | | | | | | | | | | | | | | | | ]; simpl in Hs;
    try (subst o'; econstructor; eauto; fail).
  - destruct o; try discriminate Hty; simpl in Hs; subst o'; by apply st_op.
  - destruct Hs as (imm' & -> & _). apply st_nop.
Qed.

(** Typings and jumps may become better known, and targets are filled in. *)
Lemma cell_typed_mono Φ Φ' (h h' : BitcodeWriter.branch -> list Z -> Prop) i o o' ts :
  weaker Φ Φ' -> (forall b ts, cell_of b = i -> h b ts -> h' b ts) -> same_but_target o o' ->
  cell_typed Φ h i o ts -> cell_typed Φ' h' i o' ts.
Proof.
  intros HΦ Hh Hs Ho.
  assert (Hstep : (exists args res rest, step_type m locals o args res /\ ts = args ++ rest /\
      Φ (i + 1) = Some (res ++ rest)) ->
    exists args res rest, step_type m locals o' args res /\ ts = args ++ rest /\ Φ' (i + 1) = Some (res ++ rest)).
  { intros (args & res & rest & H1 & H2 & H3). exists args, res, rest.
    split_and!; [by eapply step_type_same|done|by apply HΦ]. }
  destruct o as [c imm|size table| | | | | | | | | | | | | | | | | | | | | | | | ];
    try (simpl in Hs; subst o'; exact (Hstep Ho)).
  - simpl in Hs. destruct Hs as (imm' & -> & Hd).
    destruct c; simpl in *; rewrite ?Hd; first
      [ done | exact (Hstep Ho) | by apply Hh
      | destruct Ho as (ts' & H1 & H2); exists ts'; by auto
      | destruct Ho as (rest & H1 & H2 & H3); exists rest; by auto
      | destruct Ho as (rest & ts' & H1 & H2 & H3 & H4); exists rest, ts'; by auto ].
  - simpl in Hs. destruct Hs as (table' & -> & Hp). simpl in *.
    destruct Ho as (rest & -> & Hsize & Hlen & Hall). exists rest. split; [done|]. split; [done|]. split.
    + rewrite <- (length_fmap Op.elem_stack_pop table'), Hp, length_fmap. done.
    + intros j e' He'. destruct (same_case _ _ _ _ Hp He') as (e & He & ->).
      destruct (Hall j e He) as (ts' & ? & ?). eauto.
Qed.
End Cells.

(** The target a jump has in the code [get]. *)
Definition target (get : Z -> option opcode) (b : BitcodeWriter.branch) : option Z :=
  match b with
  | BitcodeWriter.AtInstr i =>
      match get i with Some (Op.CONTROL_FLOW _ imm) => Some (Op.cf_pc imm) | _ => None end
  | BitcodeWriter.AtCase i j =>
      match get i with Some (Op.BR_TABLE _ table) => Op.elem_pc <$> nthZ table j | _ => None end
  end.

(** ** Functions *)

(** The code of a function in the cells [bits]: [fb_size fn - 1] cells and the [return];
    [depth] bounds the operands. *)
Record function_typed (m : module) (bits : list opcode) (fn : function_body) (ft : func_type) (locals : list Z)
    (depth : Z) (Φ : typing) : Prop := FunctionTyped {
  fy_start : Φ 0 = Some [];
  fy_range i ts : Φ i = Some ts -> 0 <= i <= fb_size fn - 1 /\ Z.of_nat (length ts) <= depth;
  fy_cell i ts : Φ i = Some ts -> i < fb_size fn - 1 ->
    exists o, nthZ bits (fb_code fn + i) = Some o /\
      cell_typed m locals Φ (fun b ts' => exists k,
        target (fun i => nthZ bits (fb_code fn + i)) b = Some (fb_code fn + k) /\ Φ k = Some ts') i o ts;
  fy_end ts : Φ (fb_size fn - 1) = Some ts -> ts = results ft;
  fy_return : exists imm, nthZ bits (fb_code fn + (fb_size fn - 1)) = Some (Op.RETURN imm) /\
    Op.cf_data imm = Z.of_nat (length locals) /\ Op.cf_pc imm = return_count ft /\
    Op.cf_stacksz imm = fb_stack_size fn
}.

Lemma target_mono (get get' : Z -> option opcode) b k :
  (forall i o, get i = Some o -> get' i = Some o) -> target get b = Some k -> target get' b = Some k.
Proof. intros H. destruct b; simpl; (destruct (get i) as [o|] eqn:E; [by rewrite (H _ _ E)|done]). Qed.

(** What the types of instructions depend on *)
Record same_context (m m' : module) : Prop := SameContext {
  sc_types : types m' = types m;
  sc_imports : imports m' = imports m;
  sc_functions : functions m' = functions m;
  sc_tables : tables m' = tables m;
  sc_memories : memories m' = memories m;
  sc_globals : globals m' = globals m;
  sc_elements : elements m' = elements m
}.

Lemma step_type_context m m' locals o args res :
  same_context m m' -> step_type m locals o args res -> step_type m' locals o args res.
Proof.
  intros [H1 H2 H3 H4 H5 H6 H7] H.
  assert (Hv : forall o, op_valid m o -> op_valid m' o) by (intros []; simpl; rewrite ?H5; done).
  assert (Hf : forall f, Mod.get_function_type m' f = Mod.get_function_type m f).
  { intros f. unfold Mod.get_function_type, Mod.get_imported_functions_size, Mod.import_func_t. by rewrite H1, H2, H3. }
  destruct H; try (by apply st_op; auto); try (constructor; rewrite ?H4, ?H5, ?H6, ?H7, ?Hf; by auto).
  eapply st_call_indirect; rewrite ?H1, ?H4; eauto.
Qed.

Lemma cell_typed_context m m' locals Φ h i o ts :
  same_context m m' -> cell_typed m locals Φ h i o ts -> cell_typed m' locals Φ h i o ts.
Proof.
  intros Hm. assert (Hstep : forall o, (exists args res rest, step_type m locals o args res /\ ts = args ++ rest /\
      Φ (i + 1) = Some (res ++ rest)) ->
    exists args res rest, step_type m' locals o args res /\ ts = args ++ rest /\ Φ (i + 1) = Some (res ++ rest)).
  { intros o' (args & res & rest & H & ?). exists args, res, rest. split; [by eapply step_type_context|done]. }
  destruct o as [c imm| | | | | | | | | | | | | | | | | | | | | | | | | ]; try apply Hstep; [|done].
  destruct c; try apply Hstep; done.
Qed.

(** More code, and the same context *)
Lemma function_typed_mono m m' bits bits' fn ft locals depth Φ :
  same_context m m' -> (forall i o, nthZ bits i = Some o -> nthZ bits' i = Some o) ->
  function_typed m bits fn ft locals depth Φ -> function_typed m' bits' fn ft locals depth Φ.
Proof.
  intros Hm Hb [F1 F2 F3 F4 (imm & F5 & F6)]. split; try done.
  - intros i ts Hi Hlt. destruct (F3 i ts Hi Hlt) as (o & Ho & Hty). exists o. split; [by apply Hb|].
    eapply cell_typed_context; [exact Hm|]. eapply cell_typed_mono; [|  |apply same_but_target_refl|exact Hty].
    + by intros j tj.
    + intros b ts' _ (k & Hk & HΦ). exists k. split; [|done]. eapply target_mono; [|exact Hk]. intros j o'. apply Hb.
  - exists imm. split; [by apply Hb|done].
Qed.
