(* ===== verification/TrackerTypes.v ===== *)
(** * What the operand tracker knows (parser.hpp, [operand_stack_type_tracker])

    The tracker keeps one list of types with tags between the scopes.  Here it is
    read as a list of scopes, each with the types pushed in it and whether the code
    at its end can be reached; the operations of the tracker move the types of the
    operands of reachable code. *)
From S2P Require Import Prelude Opcodes Types OpSigs Validation BodySafety ContextProofs CodeTyping.

(** ** Computations that return *)

(** [Q] holds of the result and the final state when the computation returns. *)
Definition post {S A} (k : M S A) (Q : A -> S -> Prop) (s : S) : Prop :=
  forall a s', k s = (Ret a, s') -> Q a s'.

Section Post.
Context {S : Type}.
Implicit Type s : S.
Lemma post_ret {A} (a : A) (Q : A -> S -> Prop) s : Q a s -> post (mret a) Q s.
Proof. intros H ? ? [= <- <-]. done. Qed.
Lemma post_bind {A B} (k : M S A) (f : A -> M S B) Q s :
  post k (fun a s' => post (f a) Q s') s -> post (mbind f k) Q s.
Proof.
  intros H b s'. unfold mbind, M_bind. destruct (k s) as [[a|e|w] s1] eqn:E; [|done|done].
  intros Hf. by eapply (H a s1).
Qed.
Lemma post_gets {A} (f : S -> A) (Q : A -> S -> Prop) s : Q (f s) s -> post (gets f) Q s.
Proof. intros H ? ? [= <- <-]. done. Qed.
Lemma post_modify (f : S -> S) (Q : unit -> S -> Prop) s : Q tt (f s) -> post (modify f) Q s.
Proof. intros H ? ? [= <- <-]. done. Qed.
Lemma post_lift {A} (o : outcome A) (Q : A -> S -> Prop) s :
  (forall a, o = Ret a -> Q a s) -> post (lift o) Q s.
Proof. intros H ? ? [= -> <-]. auto. Qed.
Lemma post_assert b msg (Q : unit -> S -> Prop) s : (b = true -> Q tt s) -> post (parse_assert b msg) Q s.
Proof. intros H [] s'. unfold parse_assert, assertM, lift, EOS_VM_ASSERT. destruct b; [|done]. intros [= <-]. auto. Qed.
Lemma post_mono {A} (k : M S A) (Q R : A -> S -> Prop) s :
  post k Q s -> (forall a s', Q a s' -> R a s') -> post k R s.
Proof. intros H HQ a s' E. auto. Qed.
Lemma post_throw {A} e (Q : A -> S -> Prop) s : post (throw e) Q s.
Proof. done. Qed.
Lemma post_ub {A} w (Q : A -> S -> Prop) s : post (ub w) Q s.
Proof. done. Qed.
Lemma post_wp {A} (k : M S A) Q s : wp k Q (fun _ _ => True) s -> post k Q s.
Proof. intros H a s' E. unfold wp in H. by rewrite E in H. Qed.
End Post.

Ltac post_prim :=
  lazymatch goal with
  | |- post (mbind _ _) _ _ => apply post_bind
  | |- post (mret _) _ _ => apply post_ret
  | |- post (gets _) _ _ => apply post_gets
  | |- post (modify _) _ _ => apply post_modify
  | |- post (parse_assert _ _) _ _ => apply post_assert; intros ?
  | |- post (lift _) _ _ => apply post_lift; intros ? ?
  | |- post (throw _) _ _ => apply post_throw
  | |- post (parse_error _) _ _ => apply post_throw
  end.

(** ** Scopes *)

(** [vals]: the types pushed in the scope, last first; [dead]: the code at its end
    cannot be reached. *)
Record scope : Type := Scope { vals : list Z; dead : bool }.

Definition enc1 (s : scope) : list Z :=
  vals s ++ (if dead s then [unreachable_tag] else []) ++ [scope_tag].
Definition enc (g : list scope) : list Z := g ≫= enc1.

(** The operands of all scopes, and whether they are all reachable *)
Definition ops (g : list scope) : list Z := g ≫= vals.
Definition alive (g : list scope) : bool := forallb (fun s => negb (dead s)) g.
Definition cur (g : list scope) : option (list Z) := if alive g then Some (ops g) else None.

#[global] Arguments enc : simpl never.
#[global] Arguments ops : simpl never.
#[global] Arguments alive : simpl never.

(** Reachable operands have value types. *)
Fixpoint good (g : list scope) : Prop :=
  match g with
  | [] => True
  | s :: r => Forall nontag (vals s) /\ (alive g = true -> Forall value_type (vals s)) /\ good r
  end.

(** The tracker holds [g], and its maximum has reached [low]. *)
Record tracked (low : Z) (g : list scope) (tr : tracker) : Prop := Tracked {
  tk_state : state tr = enc g;
  tk_depth : operand_depth tr = Z.of_nat (length (ops g));
  tk_max : Z.max low (operand_depth tr) <= maximum_operand_depth tr < 2 ^ 32;
  tk_good : good g
}.

Lemma tracked_low low g tr : tracked low g tr -> tracked (maximum_operand_depth tr) g tr.
Proof. intros [? ? ? ?]. split; [done|done|lia|done]. Qed.
Lemma tracked_weaken low low' g tr : low' <= low -> tracked low g tr -> tracked low' g tr.
Proof. intros ? [? ? ? ?]. split; [done|done|lia|done]. Qed.
Lemma tracked_max low g tr : tracked low g tr -> low <= maximum_operand_depth tr.
Proof. intros [? ? ? ?]. lia. Qed.

Lemma enc_cons s g : enc (s :: g) = vals s ++ (if dead s then [unreachable_tag] else []) ++ scope_tag :: enc g.
Proof. unfold enc. simpl. unfold enc1. by rewrite <- !app_assoc. Qed.
Lemma ops_cons s g : ops (s :: g) = vals s ++ ops g.
Proof. done. Qed.
Lemma alive_cons s g : alive (s :: g) = negb (dead s) && alive g.
Proof. done. Qed.
Lemma alive_tail s g : alive (s :: g) = true -> alive g = true.
Proof. rewrite alive_cons. by intros [_ ?]%andb_prop. Qed.
Lemma cur_Some g ts : cur g = Some ts <-> alive g = true /\ ts = ops g.
Proof. unfold cur. destruct (alive g); split; [by intros [= <-]|by intros [_ ->]|done|by intros [? _]]. Qed.

(** [g'] differs from [g] in the types of its innermost scope. *)
Definition same_scopes (g g' : list scope) : Prop :=
  exists v v' d r, g = Scope v d :: r /\ g' = Scope v' d :: r.

(** From [g] to [g'], the operands [args] of the innermost scope are replaced by
    [res], when the code can be reached. *)
Definition turns (args res : list Z) (g g' : list scope) : Prop :=
  exists v v' d r, g = Scope v d :: r /\ g' = Scope v' d :: r /\
    (alive g = true -> exists rest, v = args ++ rest /\ v' = res ++ rest).

Lemma same_scopes_alive g g' : same_scopes g g' -> alive g' = alive g.
Proof. by intros (v & v' & d & r & -> & ->). Qed.
Lemma turns_scopes args res g g' : turns args res g g' -> same_scopes g g'.
Proof. intros (v & v' & d & r & -> & -> & _). by repeat eexists. Qed.
Lemma turns_alive args res g g' : turns args res g g' -> alive g' = alive g.
Proof. intros H. by eapply same_scopes_alive, turns_scopes. Qed.
Lemma turns_cur args res g g' ts :
  turns args res g g' -> cur g = Some ts -> exists rest, ts = args ++ rest /\ cur g' = Some (res ++ rest).
Proof.
  intros Hm [Ha ->]%cur_Some. pose proof (turns_alive _ _ _ _ Hm) as Ha'. destruct Hm as (v & v' & d & r & -> & -> & H).
  destruct (H Ha) as (rest & -> & ->). exists (rest ++ ops r). rewrite ops_cons. simpl. rewrite <- app_assoc.
  split; [done|]. apply cur_Some. rewrite ops_cons. simpl. by rewrite app_assoc, Ha'.
Qed.

Lemma turns_refl s r : turns [] [] (s :: r) (s :: r).
Proof. destruct s as [v d]. exists v, v, d, r. split_and!; [done|done|]. intros _. by exists v. Qed.
Lemma turns_self g : g <> [] -> turns [] [] g g.
Proof. destruct g; [done|]. intros _. apply turns_refl. Qed.
Lemma turns_then a1 a2 res g1 g2 g3 : turns a1 [] g1 g2 -> turns a2 res g2 g3 -> turns (a1 ++ a2) res g1 g3.
Proof.
  intros Hm1 Hm2. pose proof (turns_alive _ _ _ _ Hm1) as Ha. destruct Hm1 as (v1 & v2 & d & r & -> & -> & H1).
  destruct Hm2 as (? & v3 & ? & ? & [= <- <- <-] & -> & H2). exists v1, v3, d, r. split_and!; [done|done|].
  intros Hal. destruct (H1 Hal) as (r1 & -> & E). rewrite Ha in H2. destruct (H2 Hal) as (r2 & E' & ->).
  simpl in E. subst. exists r2. by rewrite app_assoc.
Qed.
Lemma turns_pops a1 a2 g1 g2 g3 : turns a1 [] g1 g2 -> turns a2 [] g2 g3 -> turns (a1 ++ a2) [] g1 g3.
Proof. apply turns_then. Qed.
Lemma turns_pops_push a res g1 g2 g3 : turns a [] g1 g2 -> turns [] res g2 g3 -> turns a res g1 g3.
Proof. intros H1 H2. rewrite <- (app_nil_r a). by eapply turns_then. Qed.
(** Looking at the top changes nothing. *)
Lemma turns_look a l g1 g2 g3 : turns a [] g1 g2 -> turns l l g2 g3 -> turns a [] g1 g3.
Proof.
  intros Hm1 Hm2. pose proof (turns_alive _ _ _ _ Hm1) as Ha. destruct Hm1 as (v1 & v2 & d & r & -> & -> & H1).
  destruct Hm2 as (? & v3 & ? & ? & [= <- <- <-] & -> & H2). exists v1, v3, d, r. split_and!; [done|done|].
  intros Hal. destruct (H1 Hal) as (r1 & -> & E). rewrite Ha in H2. destruct (H2 Hal) as (r2 & E' & ->).
  exists r1. simpl in *. split; congruence.
Qed.
Lemma turns_dead args res v v' r : turns args res (Scope v true :: r) (Scope v' true :: r).
Proof. exists v, v', true, r. split_and!; [done|done|]. by intros Ha. Qed.

(** ** The operations *)
Section Operations.
Context (options : Opt.t) (low : Z).
Local Abbreviation gd := (fun _ : Z => 1).

Lemma value_nontag t : value_type t -> nontag t.
Proof.
  unfold value_type. intros H.
  repeat (apply elem_of_cons in H as [->|H]; [auto with body|]). by apply elem_of_nil in H.
Qed.
Lemma value_not_any t : value_type t -> t <> any_type.
Proof. intros H ->. apply (bool_decide_eq_true_2 _) in H. vm_compute in H. discriminate H. Qed.
Lemma value_not_pseudo t : value_type t -> t <> pseudo.
Proof. intros H ->. apply (bool_decide_eq_true_2 _) in H. vm_compute in H. discriminate H. Qed.

Lemma push_tracked s r t tr :
  tracked low (s :: r) tr -> nontag t -> (alive (s :: r) = true -> value_type t) ->
  post (Tracker.push options gd t) (fun _ tr' => tracked low (Scope (t :: vals s) (dead s) :: r) tr') tr.
Proof.
  intros [Hs Hd Hm Hg] Ht Hv. unfold Tracker.push, Tracker.grow_depth. repeat post_prim. simpl.
  destruct_bools. unfold uint32_max in *. rewrite wrap_small by (unfold in_u; lia).
  rewrite enc_cons in Hs. destruct Hg as (Hg1 & Hg2 & Hg3). split; simpl.
  - rewrite enc_cons. simpl. by rewrite Hs.
  - rewrite ops_cons in *. simpl. lia.
  - unfold uint32_max in *. lia.
  - split; [by constructor|]. split; [|done]. intros Ha. constructor; auto.
Qed.

Lemma pop_expected_tracked s r t tr :
  tracked low (s :: r) tr -> nontag t -> t <> pseudo ->
  post (Tracker.pop_expected options gd t) (fun _ tr' => exists s',
    tracked low (s' :: r) tr' /\ turns [t] [] (s :: r) (s' :: r)) tr.
Proof.
  intros Htk [Ht1 Ht2] Hp. pose proof Htk as [Hs Hd Hm Hg]. unfold Tracker.pop_expected.
  destruct (Z.eqb_spec t pseudo); [done|]. unfold Tracker.back. repeat post_prim.
  rewrite enc_cons in Hs. destruct s as [v d]. simpl in Hs. rewrite Hs in *.
  destruct Hg as (Hg1 & Hg2 & Hg3). simpl in Hg1, Hg2.
  destruct v as [|b v]; simpl in *.
  - destruct d; simpl in *; match goal with E : Ret _ = Ret _ |- _ => injection E as <- end.
    + rewrite Z.eqb_refl. post_prim. exists (Scope [] true).
      split; [done|]. apply turns_dead.
    + destruct (Z.eqb_spec scope_tag unreachable_tag); [done|]. repeat post_prim.
      change (scope_tag =? any_type) with false in *. rewrite orb_false_r in *. destruct_bools. congruence.
  - match goal with E : Ret _ = Ret _ |- _ => injection E as <- end.
    inversion Hg1 as [|? ? [Hb1 Hb2] Hv]; subst. destruct (Z.eqb_spec b unreachable_tag); [done|].
    unfold Tracker.shrink_depth, Tracker.pop_back. repeat post_prim. simpl. rewrite Hs. post_prim. simpl.
    exists (Scope v d). unfold uint32_max in *. split.
    + split; simpl.
      * by rewrite enc_cons.
      * rewrite wrap_small by (unfold in_u; lia). rewrite ops_cons. simpl. lia.
      * rewrite wrap_small by (unfold in_u; lia). lia.
      * split; [done|]. split; [|done]. intros Ha. specialize (Hg2 Ha). by inversion Hg2.
    + exists (b :: v), v, d, r. split_and!; [done|done|]. intros Ha. exists v.
      specialize (Hg2 Ha). inversion Hg2 as [|? ? Hva]; subst.
      match goal with H : (_ || _) = true |- _ => apply orb_prop in H as [H%Z.eqb_eq|H%Z.eqb_eq] end.
      * by subst.
      * by apply value_not_any in Hva.
Qed.

Lemma push_turns s r t : turns [] [t] (s :: r) (Scope (t :: vals s) (dead s) :: r).
Proof.
  destruct s as [v d]. exists v, (t :: v), d, r. split_and!; [done|done|]. intros _. by exists v.
Qed.

Lemma top_tracked s r t tr :
  tracked low (s :: r) tr -> value_type t ->
  post (Tracker.top options gd t) (fun _ tr' => exists s',
    tracked low (s' :: r) tr' /\ turns [t] [t] (s :: r) (s' :: r)) tr.
Proof.
  intros Htk Ht. unfold Tracker.top. post_prim.
  eapply post_mono; [apply pop_expected_tracked; [done|by apply value_nontag|by apply value_not_pseudo]|].
  intros _ tr1 (s1 & Htk1 & Hm1). eapply post_mono; [apply push_tracked; [done|by apply value_nontag|done]|].
  intros [] tr2 Htk2. eexists; split; [exact Htk2|]. eapply turns_pops_push; [done|apply push_turns].
Qed.

Lemma pop_any_tracked s r tr :
  tracked low (s :: r) tr ->
  post (Tracker.pop_any options gd) (fun t tr' => nontag t /\ (alive (s :: r) = true -> value_type t) /\
    exists s', tracked low (s' :: r) tr' /\ turns [t] [] (s :: r) (s' :: r)) tr.
Proof.
  intros Htk. pose proof Htk as [Hs Hd Hm Hg]. unfold Tracker.pop_any, Tracker.back. repeat post_prim.
  rewrite enc_cons in Hs. destruct s as [v d]. simpl in Hs. rewrite Hs in *.
  destruct Hg as (Hg1 & Hg2 & Hg3). simpl in Hg1, Hg2.
  destruct v as [|b v]; simpl in *.
  - destruct d; simpl in *; [|done]. match goal with E : Ret _ = Ret _ |- _ => injection E as <- end.
    rewrite Z.eqb_refl. post_prim. split; [auto with body|]. split; [done|].
    exists (Scope [] true). split; [done|]. apply turns_dead.
  - match goal with E : Ret _ = Ret _ |- _ => injection E as <- end.
    inversion Hg1 as [|? ? [Hb1 Hb2] Hv]; subst. destruct (Z.eqb_spec b unreachable_tag); [done|].
    unfold Tracker.shrink_depth, Tracker.pop_back. repeat post_prim. simpl. rewrite Hs. repeat post_prim. simpl.
    split; [done|]. split; [intros Ha; specialize (Hg2 Ha); by inversion Hg2|].
    exists (Scope v d). split.
    + split; simpl.
      * by rewrite enc_cons.
      * rewrite wrap_small by (unfold in_u; lia). rewrite ops_cons. simpl. lia.
      * rewrite wrap_small by (unfold in_u; lia). lia.
      * split; [done|]. split; [|done]. intros Ha. specialize (Hg2 Ha). by inversion Hg2.
    + exists (b :: v), v, d, r. split_and!; [done|done|]. intros _. by exists v.
Qed.

Lemma to_scope_vals v (d : bool) r k :
  Forall nontag v -> Z.of_nat (length v) <= k < 2 ^ 32 ->
  Tracker.to_scope gd (v ++ (if d then [unreachable_tag] else []) ++ scope_tag :: enc r) k =
    (scope_tag :: enc r, k - Z.of_nat (length v)).
Proof.
  intros Hv. revert k. induction Hv as [|t v [Ht1 Ht2] Hv IH]; intros k Hk; simpl in *.
  - rewrite Z.sub_0_r. by destruct d.
  - destruct (Z.eqb_spec t scope_tag); [done|]. destruct (Z.eqb_spec t unreachable_tag); [done|].
    rewrite wrap_small by (unfold in_u; lia). rewrite IH by lia. f_equal. lia.
Qed.

Lemma start_unreachable_tracked s r tr :
  tracked low (s :: r) tr ->
  post (Tracker.start_unreachable gd) (fun _ tr' => tracked low (Scope [] true :: r) tr') tr.
Proof.
  intros [Hs Hd Hm (Hg1 & Hg2 & Hg3)]. unfold Tracker.start_unreachable. repeat post_prim. simpl.
  rewrite enc_cons in Hs. rewrite ops_cons, length_app in Hd.
  rewrite Hs, to_scope_vals by (done || lia). split; simpl; [done| |lia|].
  - change (ops (Scope [] true :: r)) with (ops r). lia.
  - by repeat constructor.
Qed.

Lemma push_scope_tracked g tr :
  tracked low g tr -> post Tracker.push_scope (fun _ tr' => tracked low (Scope [] false :: g) tr') tr.
Proof.
  intros [Hs Hd Hm Hg]. unfold Tracker.push_scope. post_prim. split; simpl; [by rewrite Hs|done|done|].
  by repeat constructor.
Qed.

Lemma push_max t tr :
  maximum_operand_depth tr < 2 ^ 32 ->
  post (Tracker.push options gd t)
    (fun _ tr' => Z.max (maximum_operand_depth tr) (wrap 32 (operand_depth tr + 1)) <= maximum_operand_depth tr' < 2 ^ 32) tr.
Proof.
  intros Hm. unfold Tracker.push, Tracker.grow_depth. repeat post_prim. simpl.
  destruct_bools. unfold uint32_max in *. pose proof (wrap_in_u 32 (operand_depth tr + 1) ltac:(done)) as Hw. unfold in_u in Hw. lia.
Qed.

(** The result of a block: a value type or none *)
Definition result_type (t : Z) : Prop := t = pseudo \/ value_type t.
Lemma result_nontag t : result_type t -> nontag t.
Proof. intros [->|?]; [auto with body|by apply value_nontag]. Qed.

Lemma pop_result_tracked s r t tr :
  tracked low (s :: r) tr -> result_type t ->
  post (Tracker.pop_expected options gd t) (fun _ tr' => exists s',
    tracked low (s' :: r) tr' /\ turns (label_types t) [] (s :: r) (s' :: r)) tr.
Proof.
  intros Htk Ht. unfold label_types. destruct (Z.eqb_spec t pseudo) as [->|Hne].
  - unfold Tracker.pop_expected. rewrite Z.eqb_refl. post_prim. exists s. split; [done|]. apply turns_refl.
  - apply pop_expected_tracked; [done|by apply result_nontag|done].
Qed.

(** A scope that ends with a result of type [t]: what it held was that result, and
    the result joins the scope around it. *)
Lemma pop_scope_tracked s r t tr :
  tracked low (s :: r) tr -> result_type t ->
  post (Tracker.pop_scope options gd t) (fun _ tr' =>
    (alive (s :: r) = true -> vals s = label_types t) /\
    match r with
    | [] => Z.max low (Z.of_nat (length (label_types t))) <= maximum_operand_depth tr' < 2 ^ 32
    | s1 :: r1 => tracked low (Scope (label_types t ++ vals s1) (dead s1) :: r1) tr'
    end) tr.
Proof.
  intros Htk Ht. unfold Tracker.pop_scope. post_prim.
  eapply post_mono; [by apply pop_result_tracked|]. intros _ tr1 (s' & [Hs Hd Hm (Hg1 & Hg2 & Hg3)] & Hmoves).
  rewrite enc_cons in Hs. rewrite ops_cons, length_app in Hd. unfold Tracker.back, Tracker.pop_back.
  assert (Hrest : forall tr', state tr' = scope_tag :: enc r -> vals s' = [] ->
      operand_depth tr' = operand_depth tr1 -> maximum_operand_depth tr' = maximum_operand_depth tr1 ->
    post (b ← (l ← gets state; lift (or_UB "back of an empty vector" (head l)));
          parse_assert (b =? scope_tag) "unexpected end";;
          (l ← gets state; match l with [] => ub "pop_back of an empty vector" | _ :: l => modify (Tracker.set_state l) end);;
          (if negb (t =? pseudo) then Tracker.push options gd t else mret tt))
      (fun _ tr' => (alive (s :: r) = true -> vals s = label_types t) /\
        match r with
        | [] => Z.max low (Z.of_nat (length (label_types t))) <= maximum_operand_depth tr' < 2 ^ 32
        | s1 :: r1 => tracked low (Scope (label_types t ++ vals s1) (dead s1) :: r1) tr'
        end) tr').
  { intros tr' Hst Hv Hd' Hm'. repeat post_prim. rewrite Hst. post_prim.
    assert (Hvals : alive (s :: r) = true -> vals s = label_types t).
    { intros Ha. destruct Hmoves as (v & v' & d & r' & E1 & E2 & Hal). simplify_eq. destruct (Hal Ha) as (rest & -> & E).
      simpl in *. subst. by rewrite app_nil_r. }
    assert (Htk' : tracked low r (Tracker.set_state (enc r) tr')).
    { split; simpl; [done| |lia|done]. rewrite Hd', Hd, Hv. simpl. lia. }
    destruct r as [|s1 r1].
    { pose proof (tk_depth _ _ _ Htk') as Hd0. unfold label_types in *. destruct (Z.eqb_spec t pseudo); simpl.
      - post_prim. split; [done|]. simpl. lia.
      - eapply post_mono; [apply push_max; simpl; lia|]. intros [] tr2 H2. split; [done|]. rewrite Hd0 in H2.
        rewrite wrap_small in H2 by done. simpl in *. lia. }
    unfold label_types in *. destruct (Z.eqb_spec t pseudo); simpl.
    - post_prim. split; [done|]. by destruct s1.
    - destruct Ht as [?|Ht]; [done|].
      eapply post_mono; [apply push_tracked; [done|by apply value_nontag|done]|]. by intros [] tr2 Htk2. }
  repeat post_prim. destruct s' as [v d]. simpl in Hs. rewrite Hs in *. destruct v as [|b v]; simpl in *.
  - destruct d; simpl in *; match goal with E : Ret _ = Ret _ |- _ => injection E as <- end.
    + rewrite Z.eqb_refl. repeat post_prim. simpl. rewrite Hs. post_prim. by apply Hrest.
    + destruct (Z.eqb_spec scope_tag unreachable_tag); [done|]. post_prim. by apply Hrest.
  - match goal with E : Ret _ = Ret _ |- _ => injection E as <- end.
    inversion Hg1 as [|? ? [Hb1 Hb2] Hv]; subst. destruct (Z.eqb_spec b unreachable_tag); [done|].
    repeat post_prim. match goal with E : state _ = _ |- _ => rewrite E in * end. simpl in *.
    match goal with E : Ret _ = Ret _ |- _ => injection E as <- end. destruct_bools. done.
Qed.

Lemma initial_tracked lc : tracked 0 [Scope [] false] (Tracker.make options lc).
Proof. split; simpl; [done|done|done|]. by repeat constructor. Qed.

End Operations.
