(* ===== verification/WriterEffects.v ===== *)
(** * What the operations of the interpreter's writer do (bitcode_writer.hpp)

    The cells they write, the jumps they direct; everything else stays. *)
From S2P Require Import Prelude Allocator Opcodes Types Validation Writers WriterLaws OpTypes CodeTyping BodySafety TrackerTypes.
Import Op(opcode).
Import BitcodeWriter.

Section Effects.
Context `{sys : Sys}.
Implicit Types w : t.

(** The writer but for [op_index] and the contents of [fb] *)
Definition frame_of w : Growable.t * Z * Z * Z * list opcode * Z * Z :=
  (_allocator w, _code_segment_base w, _base_offset w, stack_usage w, written w, gv_data (fb w), gv_size (fb w)).
Abbreviation cell := BitcodeLaws.cell.

(** [o] is appended. *)
Record appended (o : opcode) w w' : Prop := Appended {
  ap_index : op_index w' = op_index w + 1;
  ap_room : op_index w < gv_size (fb w);
  ap_frame : frame_of w' = frame_of w;
  ap_cell : cell w' (op_index w) = Some o;
  ap_others j : j <> op_index w -> cell w' j = cell w j
}.

(** The jump [b] is directed to [pc]. *)
Record directed (b : branch) (pc : Z) w w' : Prop := Directed {
  di_index : op_index w' = op_index w;
  di_frame : frame_of w' = frame_of w;
  di_target : target (cell w') b = Some pc;
  di_others b' : b' <> b -> target (cell w') b' = target (cell w) b';
  di_cells j o : cell w j = Some o -> exists o', cell w' j = Some o' /\ same_but_target o o'
}.

Lemma frame_base w w' : frame_of w' = frame_of w -> _base_offset w' = _base_offset w.
Proof. by intros [= ]. Qed.

Lemma update_cell_post i f w :
  post (update_cell i f) (fun _ w' => exists o o', cell w i = Some o /\ f o = Ret o' /\
    op_index w' = op_index w /\ frame_of w' = frame_of w /\ cell w' i = Some o' /\
    forall j, j <> i -> cell w' j = cell w j) w.
Proof.
  unfold update_cell. repeat post_prim. unfold cell.
  destruct (nthZ (gv_cells (fb w)) i) as [o|] eqn:E; [|done]. simpl in *.
  match goal with H : Ret _ = Ret _ |- _ => injection H as -> end.
  pose proof (nthZ_bounds _ _ _ E) as Hb. eexists _, _. split_and!; [done|done|done| | |].
  - unfold frame_of, gv_size. simpl. by rewrite length_insert.
  - simpl. rewrite BitcodeLaws.cell_insert by done. by destruct (decide _).
  - intros j Hj. simpl. rewrite BitcodeLaws.cell_insert by done. by destruct (decide _).
Qed.

Lemma append_instr_post o w :
  0 <= op_index w -> post (append_instr o) (fun i w' => i = op_index w /\ appended o w w') w.
Proof.
  intros Hn. unfold append_instr, store_cell, check_index. repeat post_prim. simpl in *.
  unfold assertM. post_prim. unfold EOS_VM_ASSERT in *. destruct (Z.ltb_spec (op_index w) (gv_size (fb w))); [|done].
  repeat post_prim. split; [done|]. unfold gv_size in *. split; simpl; [done|done| | |].
  - unfold frame_of, gv_size. simpl. by rewrite length_insert.
  - unfold cell. simpl. rewrite BitcodeLaws.cell_insert by lia. by destruct (decide _).
  - intros j Hj. unfold cell. simpl. rewrite BitcodeLaws.cell_insert by lia. by destruct (decide _).
Qed.

Lemma append_post o w : 0 <= op_index w -> post (append o) (fun _ w' => appended o w w') w.
Proof.
  intros Hn. unfold append. post_prim. eapply post_mono; [by apply append_instr_post|].
  intros i w' [_ ?]. by post_prim.
Qed.

(** A jump that is emitted, with its immediate *)
Lemma emit_branch_post o d rt w :
  0 <= op_index w ->
  post (emit_branch o d rt) (fun b w' => b = AtInstr (op_index w) /\
    exists imm, appended (Op.CONTROL_FLOW o imm) w w' /\ encode_depth_change d rt = Ret (Op.cf_data imm)) w.
Proof.
  intros Hn. unfold emit_branch. post_prim. eapply post_mono; [by apply append_instr_post|].
  intros i w1 (-> & [Hi Hr Hf Hc Ho]). repeat post_prim.
  eapply post_mono; [apply update_cell_post|].
  intros _ w2 (x & y & Hx & Hy & Hi2 & Hf2 & Hc2 & Ho2). post_prim. split; [done|].
  rewrite Hc in Hx. injection Hx as <-. simpl in Hy. injection Hy as <-. eexists. split.
  - split; [congruence|exact Hr|congruence|exact Hc2|]. intros j Hj. rewrite Ho2 by done. by apply Ho.
  - done.
Qed.

Lemma emit_if_post w :
  0 <= op_index w ->
  post emit_if (fun b w' => b = AtInstr (op_index w) /\ appended (control Op.if_) w w') w.
Proof.
  intros Hn. unfold emit_if. post_prim. eapply post_mono; [by apply append_instr_post|].
  intros i w1 (-> & Ha). by post_prim.
Qed.

Lemma directed_case i j pc size table e w w' :
  cell w i = Some (Op.BR_TABLE size table) -> nthZ table j = Some e ->
  op_index w' = op_index w -> frame_of w' = frame_of w ->
  cell w' i = Some (Op.BR_TABLE size (<[Z.to_nat j := Op.Elem pc (Op.elem_stack_pop e)]> table)) ->
  (forall k, k <> i -> cell w' k = cell w k) -> directed (AtCase i j) pc w w'.
Proof.
  intros Hc He Hi Hf Hc' Ho. pose proof (nthZ_bounds _ _ _ He) as Hj. split; [done|done| | |].
  - simpl. rewrite Hc', BitcodeLaws.cell_insert by done. by destruct (decide _).
  - intros b Hb. destruct b as [k|k k2]; simpl.
    + destruct (decide (k = i)) as [->|]; [by rewrite Hc', Hc|by rewrite Ho].
    + destruct (decide (k = i)) as [->|]; [|by rewrite Ho]. rewrite Hc', Hc, BitcodeLaws.cell_insert by done.
      destruct (decide (j = k2)) as [->|]; [done|]. done.
  - intros k o Hk. destruct (decide (k = i)) as [->|]; [|rewrite Ho by done; eauto using same_but_target_refl].
    rewrite Hc in Hk. injection Hk as <-. rewrite Hc'. eexists. split; [done|]. simpl. eexists. split; [done|].
    rewrite list_fmap_insert. simpl. apply list_insert_id. rewrite list_lookup_fmap.
    rewrite nthZ_lookup in He by lia. by rewrite He.
Qed.

Lemma assign_post b pc w : post (assign b pc) (fun _ w' => directed b pc w w') w.
Proof.
  destruct b as [i|i j]; simpl; (eapply post_mono; [apply update_cell_post|]);
    intros _ w' (x & y & Hx & Hy & Hi & Hf & Hc & Ho).
  - destruct x; simpl in Hy; try discriminate Hy. injection Hy as <-. split; [done|done| | |].
    + simpl. by rewrite Hc.
    + intros b Hb. destruct b as [k|k k2]; simpl.
      * rewrite Ho; [done|congruence].
      * destruct (decide (k = i)) as [->|]; [by rewrite Hc, Hx|by rewrite Ho].
    + intros k o' Hk. destruct (decide (k = i)) as [->|]; [|rewrite Ho by done; eauto using same_but_target_refl].
      rewrite Hx in Hk. injection Hk as <-. rewrite Hc. eexists. split; [done|]. simpl. by eexists.
  - destruct x; simpl in Hy; try discriminate Hy. destruct (nthZ table j) as [e|] eqn:Ee; [|done].
    simpl in Hy. injection Hy as <-. by eapply directed_case.
Qed.

Lemma fix_branch_post b k w :
  post (fix_branch b k) (fun _ w' => directed b (wrap 32 (_base_offset w + k)) w w') w.
Proof. unfold fix_branch. repeat post_prim. apply assign_post. Qed.

Lemma emit_else_post b w :
  0 <= op_index w ->
  post (emit_else b) (fun b' w' => b' = AtInstr (op_index w) /\ exists w1,
    appended (control Op.else_) w w1 /\ directed b (wrap 32 (_base_offset w + (op_index w + 1))) w1 w') w.
Proof.
  intros Hn. unfold emit_else. post_prim. eapply post_mono; [by apply append_instr_post|].
  intros i w1 (-> & Ha). repeat post_prim. eapply post_mono; [apply assign_post|]. intros [] w2 Hd. post_prim.
  split; [done|]. exists w1. split; [done|]. by rewrite <- (frame_base w w1 (ap_frame _ _ _ Ha)), <- (ap_index _ _ _ Ha).
Qed.

Lemma set_stack_usage_post u w :
  post (set_stack_usage u) (fun _ w' => exists usage, w' = set_usage usage w) w.
Proof. unfold set_stack_usage, assertM. repeat post_prim. by eexists. Qed.

(** ** Branch tables *)

(** The table [size] with the entries [table] is the cell [i]; slots are reserved behind
    it. *)
Record reserved (size i : Z) (table : list Op.elem_t) w w' : Prop := Reserved {
  re_index : op_index w' = i + 1 + wrap 32 (size * sizeof_elem / sizeof_opcode + 2);
  re_cell : cell w' i = Some (Op.BR_TABLE size table);
  re_frame : frame_of w' = frame_of w;
  re_others j : j < i -> cell w' j = cell w j
}.

Lemma emit_br_table_post size w :
  0 <= op_index w -> in_u 32 size ->
  post (emit_br_table size) (fun h w' => tp_instr h = op_index w /\ tp_i h = 0 /\
    reserved size (op_index w) [] w w') w.
Proof.
  intros Hn Hs. destruct (BitcodeLaws.table_room size Hs) as [Hoff _]. unfold emit_br_table. post_prim.
  eapply post_mono; [by apply append_instr_post|]. intros i w1 (-> & Ha). destruct Ha as [Hi Hr Hf Hc Ho].
  set (offset := wrap 32 (size * sizeof_elem / sizeof_opcode + 2)) in *.
  unfold check_index, store_cell, check_index, assertM, EOS_VM_ASSERT.
  repeat post_prim. simpl in *.
  destruct (Z.ltb_spec (op_index w1 + offset) (gv_size (fb w1))) as [Hlt|]; [|done].
  eapply post_mono; [apply update_cell_post|]. intros _ w2 (x & y & Hx & Hy & Hi2 & Hf2 & Hc2 & Ho2). post_prim.
  simpl in *. injection Hy as <-. split_and!; [done|done|]. split; simpl.
  - by rewrite Hi2, Hi.
  - done.
  - rewrite Hf2, <- Hf. unfold frame_of, gv_size. simpl. by rewrite length_insert.
  - intros j Hj. rewrite Ho2 by lia. rewrite <- Ho by lia. unfold cell. simpl. unfold gv_size in Hlt.
    rewrite BitcodeLaws.cell_insert by lia. destruct (decide _); [lia|done].
Qed.

(** An entry is added. *)
Record entered_case (i pop : Z) w w' : Prop := EnteredCase {
  ec_index : op_index w' = op_index w;
  ec_frame : frame_of w' = frame_of w;
  ec_cell : exists size table, cell w i = Some (Op.BR_TABLE size table) /\
    cell w' i = Some (Op.BR_TABLE size (table ++ [Op.Elem 0 pop]));
  ec_others k : k <> i -> cell w' k = cell w k
}.

Lemma emit_case_post d rt h w :
  post (emit_case d rt h) (fun r w' => r.1 = AtCase (tp_instr h) (tp_i h) /\
    tp_instr r.2 = tp_instr h /\ tp_i r.2 = tp_i h + 1 /\
    exists pop, encode_depth_change d rt = Ret pop /\ entered_case (tp_instr h) pop w w') w.
Proof.
  unfold emit_case. repeat post_prim.
  eapply post_mono; [apply update_cell_post|]. intros _ w2 (x & y & Hx & Hy & Hi2 & Hf2 & Hc2 & Ho2). post_prim.
  simpl. split_and!; [done|done|done|]. eexists. split; [done|].
  destruct x; simpl in Hy; try discriminate Hy. injection Hy as <-. by split; eauto.
Qed.

Lemma emit_default_post d rt h w :
  post (emit_default d rt h) (fun r w' => r.1 = AtCase (tp_instr h) (tp_i h) /\
    exists pop, encode_depth_change d rt = Ret pop /\ entered_case (tp_instr h) pop w w') w.
Proof.
  unfold emit_default. post_prim. eapply post_mono; [apply emit_case_post|].
  intros r w1 (H1 & H2 & H3 & H4). unfold check_index, assertM. repeat post_prim. done.
Qed.
End Effects.
