(* ===== verification/CompiledBody.v ===== *)
(** * The code compiled for a body is well typed (parser.hpp, bitcode_writer.hpp)

    While [parse_function_body_code] drives the interpreter's writer, the cells
    written so far have a typing that agrees with the tracker: the operands of
    reachable code are the ones the tracker knows.  A jump is either directed
    already, to a cell where its operands have the types it leaves, or waits in
    [pc_stack] for the end of a block whose result it carries. *)
From S2P Require Import Prelude GuardedPtr Leb128 Allocator Opcodes Types OpSigs Validation Writers FunctionBody Parser ReaderProofs WriterLaws BodySafety ContextProofs OpTypes CodeTyping TrackerTypes WriterEffects.
Import Op(opcode).
Import BitcodeWriter(branch, AtInstr, AtCase, op_index, fb, _base_offset).

Section Body.
Context `{sys : Sys}.
Local Abbreviation W := BitcodeWriter.t.
Local Abbreviation bstate := (body_state (W := W)).
Local Abbreviation pc_elem := (pc_element_t (W := W)).
Implicit Types (w : W) (s : body_state (W := W)) (g : list scope) (b : branch) (Φ : typing).
Local Abbreviation cell := BitcodeLaws.cell.

(** Where jumps go: the types they leave, once they are emitted. *)
Definition jump_types : Type := branch -> option (list Z).
Implicit Type G : jump_types.

(** ** Labels *)

(** The types at the label of a block around which the scopes are [below] *)
Definition label_of (e : pc_elem) (below : list scope) : list Z :=
  label_types (label_result e) ++ ops below.

(** The types a jump in the list of the block leaves: the first one of an [if] goes
    to its [else], without the result. *)
Definition waits_for (e : pc_elem) (below : list scope) (j : nat) : list Z :=
  if is_if e && (j =? 0)%nat then ops below else label_of e below.

Record pc_typed (fr : Z) Φ G (n : Z) (e : pc_elem) (below : list scope) : Prop := PcTyped {
  pt_depth : pe_operand_depth e = Z.of_nat (length (ops below));
  pt_expected : result_type (expected_result e);
  pt_function : below = [] -> label_result e = fr /\ is_if e = false;
  pt_relocations :
    match (relocations e : Z + list branch) with
    | inl k => is_if e = false /\ label_result e = pseudo /\ 0 <= k <= n /\ below <> [] /\
               (alive below = true -> Φ k = Some (ops below))
    | inr l => label_result e = expected_result e /\ (is_if e = true -> l <> []) /\
        forall j b, l !! j = Some b -> cell_of b < n /\
          forall ts, G b = Some ts -> alive below = true /\ ts = waits_for e below j
    end
}.

Inductive pcs_typed (fr : Z) Φ G (n : Z) : list pc_elem -> list scope -> Prop :=
  | pcs_nil : pcs_typed fr Φ G n [] []
  | pcs_cons e es sc g : pc_typed fr Φ G n e g -> pcs_typed fr Φ G n es g ->
      pcs_typed fr Φ G n (e :: es) (sc :: g).

Definition waiting (pcs : list pc_elem) b : Prop :=
  exists (e : pc_elem) (l : list branch), e ∈ pcs /\ relocations e = inr l /\ b ∈ l.

Definition fixed Φ (n : Z) w b (ts : list Z) : Prop :=
  exists k, 0 <= k <= n /\ target (cell w) b = Some (wrap 32 (_base_offset w + k)) /\ Φ k = Some ts.

(** ** The invariant *)
Section Typed.
Context (m : module) (locals : list Z) (fr : Z).

Record typed Φ G g s : Prop := Typed {
  ty_start : Φ 0 = Some [];
  ty_tracked : tracked 0 g (op_stack s);
  ty_index : 0 <= op_index (code_writer s);
  ty_pcs : pcs_typed fr Φ G (op_index (code_writer s)) (pc_stack s) g;
  ty_cur : Φ (op_index (code_writer s)) = cur g;
  ty_range i ts : Φ i = Some ts -> 0 <= i <= op_index (code_writer s) /\
    Z.of_nat (length ts) <= maximum_operand_depth (op_stack s);
  ty_cell i ts : i < op_index (code_writer s) -> Φ i = Some ts ->
    exists o, cell (code_writer s) i = Some o /\ cell_typed m locals Φ (fun b ts => G b = Some ts) i o ts;
  ty_jump b ts : G b = Some ts -> cell_of b < op_index (code_writer s) /\
    (waiting (pc_stack s) b \/ fixed Φ (op_index (code_writer s)) (code_writer s) b ts)
}.

(** The typing after a step: the cell [n] is next, with [v] before it. *)
Definition extend Φ (n : Z) (v : option (list Z)) : typing :=
  fun i => if i =? n then v else if i <? n then Φ i else None.

Lemma extend_next Φ n v : extend Φ n v n = v.
Proof. unfold extend. by rewrite Z.eqb_refl. Qed.

(** [n] cells are typed; up to [n'], nothing that was known is lost. *)
Lemma extend_weaker Φ G g s n' v :
  typed Φ G g s -> op_index (code_writer s) <= n' ->
  (op_index (code_writer s) = n' -> forall ts, cur g = Some ts -> v = Some ts) ->
  weaker Φ (extend Φ n' v).
Proof.
  intros Ht Hn Hc i ts Hi. destruct (ty_range _ _ _ _ Ht i ts Hi) as [Hr _]. unfold extend.
  destruct (Z.eqb_spec i n') as [->|Hne].
  - apply Hc; [lia|]. rewrite <- (ty_cur _ _ _ _ Ht). by replace (op_index (code_writer s)) with n' by lia.
  - destruct (Z.ltb_spec i n'); [done|lia].
Qed.

Lemma pc_typed_mono Φ Φ' G G' n n' e g :
  weaker Φ Φ' -> n <= n' -> (forall b, cell_of b < n -> G' b = G b) ->
  pc_typed fr Φ G n e g -> pc_typed fr Φ' G' n' e g.
Proof.
  intros HΦ Hn HG [H1 H2 H3 H4]. split; [done|done|done|].
  destruct (relocations e) as [k|l].
  - destruct H4 as (? & ? & ? & ? & ?). split_and!; [done|done|lia|lia|done|]. intros. apply HΦ. auto.
  - destruct H4 as (? & ? & Hl). split_and!; [done|done|]. intros j b Hb. destruct (Hl j b Hb) as [Hc Hts].
    split; [lia|]. intros ts. rewrite HG by done. apply Hts.
Qed.
Lemma pcs_typed_mono Φ Φ' G G' n n' es g :
  weaker Φ Φ' -> n <= n' -> (forall b, cell_of b < n -> G' b = G b) ->
  pcs_typed fr Φ G n es g -> pcs_typed fr Φ' G' n' es g.
Proof. intros HΦ Hn HG. induction 1; constructor; [by eapply pc_typed_mono|done]. Qed.
Lemma pcs_typed_length Φ G n es g : pcs_typed fr Φ G n es g -> length es = length g.
Proof. induction 1; simpl; congruence. Qed.
(** The innermost scope does not matter to the labels. *)
Lemma pcs_typed_head Φ G n es sc sc' g : pcs_typed fr Φ G n es (sc :: g) -> pcs_typed fr Φ G n es (sc' :: g).
Proof. intros H. inversion H; subst. by constructor. Qed.
Lemma pcs_typed_scopes Φ G n es g g' : same_scopes g g' -> pcs_typed fr Φ G n es g -> pcs_typed fr Φ G n es g'.
Proof. intros (v & v' & d & r & -> & ->). apply pcs_typed_head. Qed.

(** A step keeps the cells before [op_index] but for their targets, and types the
    cell it writes there. *)
Lemma typed_step Φ G g s G' g' s' :
  let n := op_index (code_writer s) in
  let n' := op_index (code_writer s') in
  let Φ' := extend Φ n' (cur g') in
  typed Φ G g s ->
  tracked (maximum_operand_depth (op_stack s)) g' (op_stack s') -> n <= n' ->
  (n = n' -> forall ts, cur g = Some ts -> cur g' = Some ts) ->
  (forall b, cell_of b < n -> G' b = G b) ->
  pcs_typed fr Φ' G' n' (pc_stack s') g' ->
  (forall i o, i < n -> cell (code_writer s) i = Some o ->
     exists o', cell (code_writer s') i = Some o' /\ same_but_target o o') ->
  (n < n' -> forall ts, cur g = Some ts ->
     exists o, cell (code_writer s') n = Some o /\ cell_typed m locals Φ' (fun b ts => G' b = Some ts) n o ts) ->
  (forall b ts, G' b = Some ts -> cell_of b < n' /\
     (waiting (pc_stack s') b \/ fixed Φ' n' (code_writer s') b ts)) ->
  typed Φ' G' g' s'.
Proof.
  intros n n' Φ' Ht Htk Hn Hcur HG Hpcs Hcells Hnew Hjumps.
  assert (Hw : weaker Φ Φ') by (by eapply extend_weaker).
  pose proof (tracked_max _ _ _ Htk) as Hmax.
  pose proof (ty_index _ _ _ _ Ht) as H0. fold n in H0.
  split; [by apply Hw; apply Ht| |fold n'; lia|done|apply extend_next| | |done].
  { eapply tracked_weaken; [|done]. destruct (ty_tracked _ _ _ _ Ht). lia. }
  - intros i ts. unfold Φ', extend. fold n'. destruct (Z.eqb_spec i n') as [->|Hne].
    + intros [_ ->]%cur_Some. destruct Htk as [_ Hd Hm _]. split; [lia|]. lia.
    + destruct (Z.ltb_spec i n'); [|done]. intros Hi. destruct (ty_range _ _ _ _ Ht i ts Hi). lia.
  - intros i ts Hi HΦi. fold n' in Hi. destruct (Z.lt_trichotomy i n) as [Hlt|[Heq|Hgt]].
    + assert (HΦo : Φ i = Some ts).
      { revert HΦi. unfold Φ', extend. destruct (Z.eqb_spec i n'); [lia|]. by destruct (Z.ltb_spec i n'); [|lia]. }
      destruct (ty_cell _ _ _ _ Ht i ts Hlt HΦo) as (o & Ho & Hty).
      destruct (Hcells i o Hlt Ho) as (o' & Ho' & Hsame). exists o'. split; [done|].
      eapply cell_typed_mono; [exact Hw| |exact Hsame|exact Hty]. intros b ts' <-. by rewrite HG.
    + subst i. apply Hnew; [lia|]. rewrite <- (ty_cur _ _ _ _ Ht). fold n. revert HΦi. unfold Φ', extend.
      destruct (Z.eqb_spec n n'); [lia|]. by destruct (Z.ltb_spec n n'); [|lia].
    + exfalso. revert HΦi. unfold Φ', extend. destruct (Z.eqb_spec i n'); [lia|].
      destruct (Z.ltb_spec i n'); [|lia]. intros HΦi. destruct (ty_range _ _ _ _ Ht i ts HΦi) as [Hr _]. fold n in Hr. lia.
Qed.
End Typed.

(** ** Instructions without jumps *)
Lemma step_cell m locals Φ (heads : branch -> list Z -> Prop) i o args res rest :
  step_type m locals o args res -> Φ (i + 1) = Some (res ++ rest) ->
  cell_typed m locals Φ heads i o (args ++ rest).
Proof.
  intros Hs HΦ.
  assert (H : exists a r l, step_type m locals o a r /\ args ++ rest = a ++ l /\ Φ (i + 1) = Some (r ++ l))
    by (exists args, res, rest; done).
  destruct Hs; try exact H. destruct o; try discriminate; exact H.
Qed.

Section Steps.
Context (options : Opt.t) (m : module) (locals : list Z) (fr : Z) (F : Growable.t * Z * Z * Z * list opcode * Z * Z)
  (start : Z).
Local Abbreviation typed := (typed m locals fr).

(** The body is open: its code is typed, the writer has written at most one cell per
    byte but [k], and it has not moved. *)
Definition opened (k : Z) s : Prop :=
  exists Φ G g, typed Φ G g s /\ g <> [] /\ cursor_ok (bs_code s) /\
    start + op_index (code_writer s) + k <= raw_ptr (bs_code s) /\ frame_of (code_writer s) = F.

(** The reads, the tracker and the writer in a step of the body *)
Lemma post_read {A} d (k : reader A) Q (R : A -> bstate -> Prop) s :
  reads_ok d k Q -> cursor_ok (bs_code s) ->
  (forall a p, moved d (bs_code s) p -> Q a -> R a (set_code p s)) -> post (from_code k) R s.
Proof.
  intros Hk Hc HR a s'. specialize (Hk _ Hc). unfold from_code, rwp in *.
  destruct (k (bs_code s)) as [[a' p]|e|x]; [|done|done]. destruct Hk as [Hm HQ]. intros [= <- <-]. auto.
Qed.
Lemma post_on_stack {A} (k : M tracker A) (R : A -> bstate -> Prop) s :
  post k (fun a tr => R a (set_op_stack tr s)) (op_stack s) -> post (on_stack k) R s.
Proof.
  intros Hk a s'. unfold on_stack. destruct (k (op_stack s)) as [r tr] eqn:E. intros [= -> <-]. by apply Hk.
Qed.
Lemma post_emits {A} (k : M W A) (R : A -> bstate -> Prop) s :
  post k (fun a w => R a (set_code_writer w s)) (code_writer s) -> post (emits k) R s.
Proof.
  intros Hk a s'. unfold emits. destruct (k (code_writer s)) as [r w] eqn:E. intros [= -> <-]. by apply Hk.
Qed.

Lemma post_in_bounds (R : unit -> bstate -> Prop) s : R tt s -> post (check_in_bounds options) R s.
Proof. intros H. unfold check_in_bounds, pc_stack_size. by repeat post_prim. Qed.

Lemma post_append o (R : unit -> bstate -> Prop) s :
  0 <= op_index (code_writer s) ->
  (forall w, appended o (code_writer s) w -> R tt (set_code_writer w s)) ->
  post (emits (BitcodeWriter.append o)) R s.
Proof. intros Hn HR. apply post_emits. eapply post_mono; [by apply append_post|]. intros [] w Hw. auto. Qed.

Section Stack.
Context (low : Z).
Implicit Type R : unit -> body_state (W := W) -> Prop.

Lemma post_pop t g R s :
  tracked low g (op_stack s) -> g <> [] -> value_type t ->
  (forall tr g', tracked low g' tr -> turns [t] [] g g' -> g' <> [] -> R tt (set_op_stack tr s)) ->
  post (pop_expected options t) R s.
Proof.
  intros Htk Hg Ht HR. destruct g as [|sc r]; [done|]. apply post_on_stack.
  eapply post_mono; [apply (pop_expected_tracked options low sc r); [done|by apply value_nontag|by apply value_not_pseudo]|].
  intros [] tr (sc' & Htk' & Hm). by eapply HR.
Qed.
Lemma post_push_any t g R s :
  tracked low g (op_stack s) -> g <> [] -> nontag t -> (alive g = true -> value_type t) ->
  (forall tr g', tracked low g' tr -> turns [] [t] g g' -> g' <> [] -> R tt (set_op_stack tr s)) ->
  post (push options t) R s.
Proof.
  intros Htk Hg Hn Ht HR. destruct g as [|sc r]; [done|]. apply post_on_stack.
  eapply post_mono; [by apply (push_tracked options low sc r)|].
  intros [] tr Htk'. eapply HR; [done|apply push_turns|done].
Qed.
Lemma post_push t g R s :
  tracked low g (op_stack s) -> g <> [] -> value_type t ->
  (forall tr g', tracked low g' tr -> turns [] [t] g g' -> g' <> [] -> R tt (set_op_stack tr s)) ->
  post (push options t) R s.
Proof. intros Htk Hg Ht. apply post_push_any; [done|done|by apply value_nontag|done]. Qed.
Lemma post_top t g R s :
  tracked low g (op_stack s) -> g <> [] -> value_type t ->
  (forall tr g', tracked low g' tr -> turns [t] [t] g g' -> g' <> [] -> R tt (set_op_stack tr s)) ->
  post (top options t) R s.
Proof.
  intros Htk Hg Ht HR. destruct g as [|sc r]; [done|]. apply post_on_stack.
  eapply post_mono; [apply (top_tracked options low sc r); done|].
  intros [] tr (sc' & Htk' & Hm). by eapply HR.
Qed.
Lemma post_pop_any g (R : Z -> bstate -> Prop) s :
  tracked low g (op_stack s) -> g <> [] ->
  (forall t tr g', nontag t -> (alive g = true -> value_type t) -> tracked low g' tr -> turns [t] [] g g' ->
     g' <> [] -> R t (set_op_stack tr s)) ->
  post (pop_any options) R s.
Proof.
  intros Htk Hg HR. destruct g as [|sc r]; [done|]. apply post_on_stack.
  eapply post_mono; [by apply (pop_any_tracked options low sc r)|].
  intros t tr (H1 & H2 & sc' & Htk' & Hm). by eapply HR.
Qed.
Lemma post_pops l g R s :
  tracked low g (op_stack s) -> g <> [] -> Forall value_type l ->
  (forall tr g', tracked low g' tr -> turns l [] g g' -> g' <> [] -> R tt (set_op_stack tr s)) ->
  post (eachM (pop_expected options) l) R s.
Proof.
  intros Htk Hg Hl. revert s g R Htk Hg. induction Hl as [|t l Ht Hl IH]; intros s g R Htk Hg HR; simpl.
  - post_prim. destruct g as [|sc r]; [done|].
    assert (E : set_op_stack (op_stack s) s = s) by by destruct s. rewrite <- E.
    eapply HR; [done|apply turns_refl|done].
  - post_prim. eapply post_pop; [done|done|done|]. intros tr1 g1 Htk1 Hm1 Hg1.
    apply (IH _ g1); [done|done|]. intros tr2 g2 Htk2 Hm2 Hg2.
    apply (HR tr2 g2); [done| |done]. exact (turns_pops [t] l g g1 g2 Hm1 Hm2).
Qed.

(** A signature of the tables: value types, at most one result *)
Definition sig_fine (sg : sig) : Prop := Forall value_type sg.1 /\ Forall value_type sg.2 /\ (length sg.2 <= 1)%nat.

Lemma post_sig sg g R s :
  tracked low g (op_stack s) -> g <> [] -> sig_fine sg ->
  (forall tr g', tracked low g' tr -> turns sg.1 sg.2 g g' -> g' <> [] -> R tt (set_op_stack tr s)) ->
  post (apply_sig options sg) R s.
Proof.
  intros Htk Hg (H1 & H2 & H3) HR. unfold apply_sig. post_prim. eapply post_pops; [done|done|done|].
  intros tr1 g1 Htk1 Hm1 Hg1. destruct (sg.2) as [|t [|? ?]]; simpl in *; [| |lia].
  - post_prim. by eapply HR.
  - post_prim. inversion H2; subst. eapply post_push; [done|done|done|]. intros tr2 g2 Htk2 Hm2 Hg2. post_prim.
    apply (HR tr2 g2); [done| |done]. by eapply turns_pops_push.
Qed.
End Stack.

(** The step of an instruction that is one cell without a jump *)
Lemma simple_opened Φ G g s g' s' o args res :
  typed Φ G g s -> g <> [] -> frame_of (code_writer s) = F ->
  cursor_ok (bs_code s') -> start + op_index (code_writer s) + 1 <= raw_ptr (bs_code s') ->
  tracked (maximum_operand_depth (op_stack s)) g' (op_stack s') -> turns args res g g' ->
  pc_stack s' = pc_stack s -> appended o (code_writer s) (code_writer s') ->
  (alive g = true -> step_type m locals o args res) -> opened 0 s'.
Proof.
  intros Ht Hg HF Hc Hraw Htk Hm Hpcs [Ai Ar Af Ac Ao] Hty.
  pose proof (ty_index _ _ _ _ _ _ _ Ht) as H0.
  exists (extend Φ (op_index (code_writer s')) (cur g')), G, g'. split; [|split_and!; [|done|lia|congruence]].
  2:{ destruct Hm as (? & ? & ? & ? & _ & -> & _). done. }
  eapply typed_step; [exact Ht|done|lia|lia|done| | | | ].
  - rewrite Hpcs. eapply pcs_typed_scopes; [by eapply turns_scopes|]. eapply pcs_typed_mono; [| |done|exact (ty_pcs _ _ _ _ _ _ _ Ht)].
    + eapply extend_weaker; [done|lia|lia].
    + lia.
  - intros i o' Hi Ho. exists o'. split; [rewrite Ao by lia; done|apply same_but_target_refl].
  - intros _ ts Hts. destruct (turns_cur _ _ _ _ _ Hm Hts) as (rest & -> & Hc'). exists o. split; [done|].
    apply (step_cell _ _ _ _ _ _ args res); [apply Hty; by apply cur_Some in Hts as [? _]|].
    rewrite Ai, <- Hc'. by rewrite extend_next.
  - intros b ts Hb. destruct (ty_jump _ _ _ _ _ _ _ Ht b ts Hb) as [Hlt Hj]. split; [lia|].
    rewrite Hpcs. destruct Hj as [?|(k & Hk & Htg & HΦ)]; [by left|]. right. exists k. split_and!; [lia|lia| |].
    + rewrite <- (frame_base _ _ Af) in Htg. rewrite <- Htg. destruct b as [j|j j']; simpl; rewrite Ao; simpl in Hlt; done || lia.
    + eapply extend_weaker; [done|lia|lia|done].
Qed.
End Steps.
End Body.

(** Projections of a state that was changed, and what is known of a cursor that moved *)
Ltac settle :=
  cbn [set_code set_op_stack set_pc_stack set_nested_checker set_code_writer
       bs_code op_stack pc_stack _nested_checker code_writer fst snd] in *;
  try match goal with H : moved _ _ ?p |- _ => lazymatch goal with
    | _ : cursor_ok p |- _ => fail | |- _ => pose proof (moved_ok _ _ _ H); pose proof (moved_raw _ _ _ H) end end.

(** The body is open at the start. *)
Ltac begin :=
  intros s (Φ & G & g & Ht & Hg & Hc & Hraw & HF);
  pose proof (tracked_low _ _ _ (ty_tracked _ _ _ _ _ _ _ Ht)) as Htk;
  pose proof (ty_index _ _ _ _ _ _ _ Ht) as Hix.

(** ** The tables of signatures *)
#[global] Instance value_type_dec t : Decision (value_type t).
Proof. unfold value_type. apply _. Defined.
#[global] Instance sig_fine_dec sg : Decision (sig_fine sg).
Proof. unfold sig_fine. apply _. Defined.
Lemma numeric_fine o : sig_fine (numeric_type o). Proof. destruct o; by_compute. Qed.
Lemma comparison_fine o : sig_fine (comparison_type o). Proof. destruct o; by_compute. Qed.
Lemma conversion_fine o : sig_fine (conversion_type o). Proof. destruct o; by_compute. Qed.
Lemma memory_fine o : sig_fine (memory_type_of o). Proof. destruct o; by_compute. Qed.
Lemma ext_fine o : sig_fine (ext_sig o). Proof. destruct o; by_compute. Qed.
Lemma vec_lane_fine o : sig_fine (vec_lane_type o). Proof. destruct o; by_compute. Qed.
Lemma vec_lane_memory_fine o : sig_fine (vec_lane_memory_type o). Proof. destruct o; by_compute. Qed.
Lemma vec_memory_fine o : sig_fine (vec_memory_type o). Proof. destruct o; by_compute. Qed.
Lemma vec_numeric_fine o : sig_fine (vec_numeric_sig o). Proof. destruct o; by_compute. Qed.
Lemma vec_binary_fine : sig_fine (binary v128 v128). Proof. by_compute. Qed.
Lemma value_i32 : value_type i32. Proof. by_compute. Qed.
Lemma value_i64 : value_type i64. Proof. by_compute. Qed.
Lemma value_f32 : value_type f32. Proof. by_compute. Qed.
Lemma value_f64 : value_type f64. Proof. by_compute. Qed.
Lemma value_v128 : value_type v128. Proof. by_compute. Qed.
Create HintDb compiled.
#[export] Hint Resolve numeric_fine comparison_fine conversion_fine memory_fine ext_fine vec_lane_fine
  vec_lane_memory_fine vec_memory_fine vec_numeric_fine vec_binary_fine
  value_i32 value_i64 value_f32 value_f64 value_v128 : compiled.
