(* ===== verification/CompiledInstrs.v ===== *)
(** * Every instruction is compiled to well-typed code (parser.hpp, the [switch] of
    [parse_function_body_code])

    The instructions that are one cell without a jump. *)
From S2P Require Import Prelude GuardedPtr Leb128 Allocator Opcodes Types OpSigs Validation Writers FunctionBody Parser ReaderProofs WriterLaws BodySafety ContextProofs OpTypes CodeTyping TrackerTypes WriterEffects CompiledBody.
Import Op(opcode).
Import BitcodeWriter(branch, AtInstr, AtCase, op_index, fb, _base_offset).

Section Instructions.
Context `{sys : Sys} (options : Opt.t) (m : module) (_datacount : option Z) (type_aliases : list Z)
  (lt : local_types_t) (locals : list Z) (fr : Z) (F : Growable.t * Z * Z * Z * list opcode * Z * Z)
  (start : Z).
Local Abbreviation W := BitcodeWriter.t.
Local Abbreviation bstate := (body_state (W := W)).
Implicit Types (s : bstate).
Local Abbreviation opened := (opened m locals fr F start).

(** What the body is compiled against *)
Definition proper (ft : func_type) : Prop :=
  Forall value_type (param_types ft) /\ 0 <= return_count ft < 2 /\
  (return_count ft <> 0 -> value_type (return_type ft)).

Record body_context : Prop := BodyContext {
  bc_types : Forall proper (types m);
  bc_function i ft : 0 <= i -> Mod.get_function_type m i = Ret ft -> proper ft;
  bc_globals : Forall (fun gl => value_type (content_type (gl_type gl))) (globals m);
  bc_alias i a ft : nthZ type_aliases i = Some a -> nthZ (types m) i = Some ft ->
    exists te, nthZ (types m) a = Some te /\ func_type_eqb te ft = true;
  bc_local i t : 0 <= i -> local_type_at lt i = Ret t -> nthZ locals i = Some t /\ value_type t
}.
Context (cx : body_context).

(** [k] keeps the body open. *)
Definition stays (k : M bstate unit) : Prop := forall s, opened 1 s -> post k (fun _ s' => opened 0 s') s.

Lemma stays_in_bounds k : stays k -> stays (check_in_bounds options;; k).
Proof. intros Hk s Hs. post_prim. apply post_in_bounds. by apply Hk. Qed.
Lemma stays_error msg : stays (parse_error msg).
Proof. intros s _. post_prim. Qed.
Lemma stays_assert b msg k : (b = true -> stays k) -> stays (parse_assert b msg;; k).
Proof. intros Hk s Hs. post_prim. apply post_assert. intros Hb. by apply Hk. Qed.

Lemma post_has_memory msg (R : unit -> bstate -> Prop) s :
  (memories m <> [] -> R tt s) -> post (has_memory m msg) R s.
Proof. intros HR. unfold has_memory. post_prim. apply HR. intros E. by rewrite E in *. Qed.
Lemma post_has_table msg (R : unit -> bstate -> Prop) s :
  (tables m <> [] -> R tt s) -> post (has_table m msg) R s.
Proof. intros HR. unfold has_table. post_prim. apply HR. intros E. by rewrite E in *. Qed.
Lemma post_zero_byte msg (R : unit -> bstate -> Prop) s :
  cursor_ok (bs_code s) -> (forall p, moved 1 (bs_code s) p -> R tt (set_code p s)) ->
  post (zero_byte msg) R s.
Proof.
  intros Hc HR. unfold zero_byte, next_byte. post_prim. eapply post_read; [apply ok_peek|done|].
  intros b p Hp _. repeat post_prim. eapply post_read; [apply ok_read_byte|simpl; by destruct Hp|].
  intros b' p' Hp' _. simpl in *. post_prim. apply (HR p').
  eapply moved_weaken; [by eapply moved_trans|lia].
Qed.
Lemma post_data_index name x (R : unit -> bstate -> Prop) s :
  R tt s -> post (check_data_index _datacount name x) R s.
Proof. intros HR. unfold check_data_index. by repeat post_prim. Qed.

Lemma post_pops3 low g (R : unit -> bstate -> Prop) s :
  tracked low g (op_stack s) -> g <> [] ->
  (forall tr g', tracked low g' tr -> turns [i32; i32; i32] [] g g' -> g' <> [] -> R tt (set_op_stack tr s)) ->
  post (eachM (pop_expected options) [i32; i32; i32]) R s.
Proof. intros Htk Hg. apply (post_pops options low); [done|done|by_compute]. Qed.

(** One step of the symbolic execution *)
Ltac pstep :=
  lazymatch goal with
  | |- post (apply_sig _ _) _ _ => eapply post_sig; [eassumption|assumption|solve [auto with compiled]|]; intros ? ? ? ? ?
  | |- post (pop_expected _ _) _ _ => eapply post_pop; [eassumption|assumption|solve [auto with compiled]|]; intros ? ? ? ? ?
  | |- post (push _ _) _ _ => eapply post_push; [eassumption|assumption|solve [auto with compiled]|]; intros ? ? ? ? ?
  | |- post (top _ _) _ _ => eapply post_top; [eassumption|assumption|solve [auto with compiled]|]; intros ? ? ? ? ?
  | |- post (eachM _ _) _ _ => eapply post_pops3; [eassumption|assumption|]; intros ? ? ? ? ?
  | |- post (has_memory _ _) _ _ => apply post_has_memory; intros ?
  | |- post (has_table _ _) _ _ => apply post_has_table; intros ?
  | |- post (check_in_bounds _) _ _ => apply post_in_bounds
  | |- post (bulk_enabled _) _ _ => apply post_assert; intros ?
  | |- post (check_data_index _ _ _) _ _ => apply post_data_index
  | |- post (from_code parse_varuint32) _ _ => eapply post_read; [apply ok_varuint32|assumption|]; intros ? ? ? ?
  | |- post next_byte _ _ => eapply post_read; [apply ok_read_byte|assumption|]; intros ? ? ? ?
  | |- post (zero_byte _) _ _ => apply post_zero_byte; [assumption|]; intros ? ?
  | |- post (emits _) _ _ => apply post_append; [assumption|]; intros ? ?
  | |- post _ _ _ => post_prim
  end; settle.

(** One cell was written. *)
Ltac finish :=
  eapply simple_opened; [eassumption|assumption|assumption|assumption| |eassumption
    |first [eassumption | eapply turns_pops_push; eassumption | apply turns_self; assumption]|reflexivity|eassumption|];
  [simpl in *; lia|intros _].

Lemma numeric_stays sg o : sig_fine sg -> step_type m locals o sg.1 sg.2 ->
  stays (parse_numeric_op options sg (BitcodeWriter.append o)).
Proof. intros Hsg Ho. begin. unfold parse_numeric_op. repeat pstep. by finish. Qed.

Lemma typed_op o sg : op_type o = Some sg -> op_valid m o -> step_type m locals o sg.1 sg.2.
Proof. intros Hty Hv. apply st_op; [|done]. by destruct sg. Qed.

Lemma extend_stays o : stays (parse_extend_op options o).
Proof. begin. unfold parse_extend_op. repeat pstep. finish. by apply typed_op. Qed.

(** *** Memory *)
Lemma access_stays store al sg o (emit : Z -> Z -> M W unit) :
  (forall a off, emit a off = BitcodeWriter.append (o a off)) -> sig_fine sg ->
  (forall a off, in_u 32 off -> memories m <> [] -> step_type m locals (o a off) sg.1 sg.2) ->
  stays (parse_memory_access options m store al sg emit).
Proof.
  intros Hemit Hsg Ho. begin. unfold parse_memory_access, parse_memarg, check_memarg. repeat pstep.
  rewrite Hemit. repeat pstep. finish. by apply Ho.
Qed.

Lemma memory_stays o : stays (parse_memory options m o).
Proof.
  unfold parse_memory. destruct o; try (eapply access_stays; [reflexivity|auto with compiled|];
    intros a off Hoff Hmem; by apply typed_op).
  - begin. repeat pstep. finish. by apply st_op.
  - begin. repeat pstep. finish. by apply st_op.
Qed.

(** *** Vectors *)
Lemma vec_lane_memory_stays o : stays (parse_vec_lane_memory options m o).
Proof.
  begin. unfold parse_vec_lane_memory, parse_memarg, check_memarg. repeat pstep. finish.
  apply (typed_op (Op.VEC_LANE_MEMORY o _ _ _)); [done|]. simpl. destruct_bools. unfold is_byte in *. split_and!; done || lia.
Qed.
Lemma vec_lane_stays o : stays (parse_vec_lane options o).
Proof.
  begin. unfold parse_vec_lane. repeat pstep. finish.
  apply (typed_op (Op.VEC_LANE o _)); [done|]. simpl. destruct_bools. unfold is_byte in *. lia.
Qed.
Lemma v128_const_stays : stays (v ← from_code parse_v128; emits (emit_v128_const v);; push options v128).
Proof.
  begin. post_prim. eapply post_read; [apply ok_parse_v128|done|]. intros v p Hp Hv. repeat pstep. finish.
  by apply st_op.
Qed.
Lemma shuffle_stays : stays (parse_shuffle options).
Proof.
  begin. unfold parse_shuffle. pstep. pstep. pstep. pstep. pstep.
  eapply post_read; [apply (ok_skip 16); lia|done|]. intros [] p Hp _. repeat pstep. finish.
  apply (typed_op (Op.VEC_SHUFFLE _)); [done|]. simpl.
  match goal with H : raw_bytes _ _ = Ret ?l, H' : forallb _ ?l = true |- _ => rename H into Hl; rename H' into Hb end.
  destruct (moved_ok _ _ _ Hp) as [[Hw1 Hw2] _]. pose proof (moved_bnds _ _ _ Hp) as Hbn.
  destruct (raw_bytes_ok 16 (bs_code s) Hc ltac:(lia)) as (l & Hl' & Hbytes & _).
  rewrite Hl in Hl'. injection Hl' as <-. rewrite forallb_forall, <- List.Forall_forall in Hb.
  eapply Forall_impl; [|apply Forall_and; [exact Hb|exact Hbytes]].
  intros x [Hx%Z.ltb_lt [? ?]]. lia.
Qed.

Lemma vector_stays o : stays (parse_vector options m o).
Proof.
  destruct o as [o|o| | |o|o]; simpl.
  - eapply access_stays; [reflexivity|auto with compiled|]. intros a off Hoff Hmem. by apply typed_op.
  - apply vec_lane_memory_stays.
  - apply stays_in_bounds, v128_const_stays.
  - apply shuffle_stays.
  - apply vec_lane_stays.
  - begin. repeat pstep. finish. apply st_vec.
Qed.

(** *** Bulk memory and conversions *)
Lemma data_stays o : stays (parse_data options m _datacount o).
Proof.
  begin. destruct o; unfold parse_data; repeat pstep; finish; destruct_bools;
    match goal with H : in_u 32 _ |- _ => destruct H end.
  - by apply st_memory_init.
  - by apply st_data_drop.
  - by apply st_table_init.
  - by apply st_elem_drop.
Qed.

Lemma ext_op_stays o : stays (parse_ext_op options m o).
Proof.
  begin. destruct o; unfold parse_ext_op; repeat pstep; finish; simpl;
    try (by apply st_memory_copy); try (by apply st_memory_fill); try (by apply st_table_copy);
    by apply st_op.
Qed.

(** *** Locals, globals and constants *)
Lemma local_at_post x (R : Z -> bstate -> Prop) s :
  0 <= x -> (forall t, nthZ locals x = Some t -> value_type t -> R t s) -> post (local_at lt x) R s.
Proof. intros Hx HR. unfold local_at. post_prim. destruct (bc_local cx x a Hx ltac:(done)). auto. Qed.

Lemma globals_at x gl : nthZ (globals m) x = Some gl -> value_type (content_type (gl_type gl)).
Proof. unfold nthZ. destruct (x <? 0); [done|]. intros Hx. exact (Forall_lookup_1 _ _ _ _ (bc_globals cx) Hx). Qed.
Lemma global_at_post x (R : global_type -> bstate -> Prop) s :
  (forall gl, nthZ (globals m) x = Some gl -> value_type (content_type (gl_type gl)) -> R (gl_type gl) s) ->
  post (global_at m x) R s.
Proof.
  intros HR. unfold global_at. repeat post_prim. unfold vec_at in *. destruct (nthZ (globals m) x) eqn:E; [|done].
  simplify_eq. apply HR; [done|]. by eapply globals_at.
Qed.

Lemma variable_stays o : stays (parse_variable_access options m lt o).
Proof.
  begin. destruct o; unfold parse_variable_access; try (repeat post_prim; fail); repeat pstep;
    match goal with H : in_u 32 _ |- _ => pose proof (proj1 H) end.
  - apply local_at_post; [done|]. intros t Hl Hv. repeat pstep. finish. by apply st_get_local.
  - apply local_at_post; [done|]. intros t Hl Hv. repeat pstep. finish. by apply st_set_local.
  - apply local_at_post; [done|]. intros t Hl Hv. repeat pstep. finish. by apply st_tee_local.
  - apply global_at_post. intros gl Hl Hv. repeat pstep. finish. by apply st_get_global.
  - apply global_at_post. intros gl Hl Hv. repeat pstep. finish. by apply st_set_global.
Qed.

Lemma const_stays {A} d (k : reader A) Q (o : A -> opcode) t :
  reads_ok d k Q -> 0 <= d -> value_type t -> (forall a, Q a -> step_type m locals (o a) [] [t]) ->
  stays (v ← from_code k; emits (BitcodeWriter.append (o v));; push options t).
Proof.
  intros Hk Hd Hvt Ho. begin. post_prim. eapply post_read; [exact Hk|done|]. intros a p Hp Ha.
  pose proof (moved_raw _ _ _ Hp). pose proof (moved_ok _ _ _ Hp). repeat pstep. finish. by apply Ho.
Qed.

Lemma nop_stays : stays (emits emit_nop).
Proof. begin. repeat pstep. finish. apply st_nop. Qed.

(** *** Operands of any type *)
Lemma drop_stays : stays (parse_parametric options Op.drop_).
Proof.
  begin. unfold parse_parametric. repeat pstep. eapply post_pop_any; [eassumption|done|].
  intros t tr g' Hn Hv Htk' Hm Hg'. repeat pstep. finish. apply st_drop.
Qed.

Lemma select_stays : stays (parse_parametric options Op.select_).
Proof.
  begin. unfold parse_parametric. repeat pstep.
  match goal with H : turns [i32] [] _ ?x |- _ => rename H into Hm0; rename x into g0 end.
  eapply post_pop_any; [eassumption|done|]. intros t0 tr1 g1 Hn0 Hv0 Htk1 Hm1 Hg1. post_prim.
  eapply post_pop_any; [eassumption|done|]. intros t1 tr2 g2 Hn1 Hv1 Htk2 Hm2 Hg2.
  post_prim. apply post_assert. intros Hsame. post_prim.
  rewrite (turns_alive _ _ _ _ Hm1) in Hv1. rewrite (turns_alive _ _ _ _ Hm0) in Hv0, Hv1.
  assert (Ha2 : alive g2 = alive g).
  { by rewrite (turns_alive _ _ _ _ Hm2), (turns_alive _ _ _ _ Hm1), (turns_alive _ _ _ _ Hm0). }
  assert (Heq : alive g = true -> t1 = t0 /\ (t0 =? any_type) = false).
  { intros Ha. pose proof (value_not_any _ (Hv0 Ha)). pose proof (value_not_any _ (Hv1 Ha)).
    destruct (Z.eqb_spec t0 any_type), (Z.eqb_spec t1 any_type), (Z.eqb_spec t0 t1); done. }
  set (t := if negb (t0 =? any_type) then t0 else t1).
  eapply post_push_any; [eassumption|done|by unfold t; destruct (negb _)| |].
  { rewrite Ha2. intros Ha. destruct (Heq Ha) as [-> E]. unfold t. rewrite E. auto. }
  intros tr3 g3 Htk3 Hm3 Hg3. repeat pstep.
  eapply simple_opened; try eassumption; [|reflexivity|].
  - eapply turns_pops_push; [|exact Hm3]. exact (turns_pops _ _ _ _ _ Hm0 (turns_pops _ _ _ _ _ Hm1 Hm2)).
  - intros Ha. destruct (Heq Ha) as [-> E]. unfold t. rewrite E. apply st_select.
Qed.

Lemma parametric_stays o : stays (parse_parametric options o).
Proof. destruct o; try (intros s _; unfold parse_parametric; post_prim; fail); [apply drop_stays|apply select_stays]. Qed.

(** *** Calls *)
Lemma apply_type_post ft low g (R : unit -> bstate -> Prop) s :
  tracked low g (op_stack s) -> g <> [] -> proper ft ->
  (forall tr g', tracked low g' tr -> turns (rev (param_types ft)) (results ft) g g' -> g' <> [] ->
     R tt (set_op_stack tr s)) ->
  post (apply_func_type options ft) R s.
Proof.
  intros Htk Hg (Hp & Hr1 & Hr2) HR. unfold apply_func_type. post_prim.
  eapply post_pops; [done|done|by apply Forall_rev|]. intros tr1 g1 Htk1 Hm1 Hg1. repeat post_prim.
  unfold results in *. destruct (Z.eqb_spec (return_count ft) 0) as [E|E]; simpl.
  - post_prim. by eapply HR.
  - eapply post_push; [done|done|by apply Hr2|]. intros tr2 g2 Htk2 Hm2 Hg2.
    apply (HR tr2 g2); [done| |done]. by eapply turns_pops_push.
Qed.

Lemma call_stays : stays (parse_call options m).
Proof.
  begin. unfold parse_call. repeat pstep.
  match goal with H : in_u 32 _ |- _ => destruct H end.
  eapply apply_type_post; [eassumption|done|by eapply (bc_function cx)|]. intros tr g' Htk' Hm' Hg'. repeat pstep.
  finish. by apply st_call.
Qed.

Lemma call_indirect_stays : stays (parse_call_indirect options m type_aliases).
Proof.
  begin. unfold parse_call_indirect. do 6 pstep. destruct (nthZ (types m) a) as [ft|] eqn:Hft.
  2:{ match goal with H : vec_at _ _ = _ |- _ => unfold vec_at in H; by rewrite Hft in H end. }
  match goal with H : vec_at _ _ = _ |- _ => unfold vec_at in H; rewrite Hft in H; injection H as <- end.
  assert (Hin : ft ∈ types m).
  { unfold nthZ in Hft. destruct (a <? 0); [done|]. by eapply list_elem_of_lookup_2. }
  assert (Hp : proper ft).
  { unfold nthZ in Hft. destruct (a <? 0); [done|]. exact (Forall_lookup_1 _ _ _ _ (bc_types cx) Hft). }
  repeat pstep. match goal with H : turns [i32] [] _ ?x |- _ => rename H into Hm0; rename x into g0 end.
  eapply apply_type_post; [eassumption|done|done|]. intros tr1 g1 Htk1 Hm1 Hg1. repeat pstep.
  match goal with H : or_UB _ (nthZ type_aliases a) = Ret ?x |- _ => rename x into al;
    destruct (nthZ type_aliases a) as [al'|] eqn:Hal; [|done]; injection H as -> end.
  destruct (bc_alias cx a al ft Hal Hft) as (te & Hte & Heqb).
  eapply simple_opened; try eassumption; [simpl; lia|exact (turns_then _ _ _ _ _ _ Hm0 Hm1)|reflexivity|].
  intros _. eapply st_call_indirect; [done|done|done|]. intros E. by rewrite E in *.
Qed.
Lemma call_op_stays o : stays (parse_call_op options m type_aliases o).
Proof.
  destruct o; [apply call_stays|apply call_indirect_stays|apply stays_error].
Qed.
End Instructions.
