(* ===== verification/CompiledJumps.v ===== *)
(** * Blocks and jumps are compiled to well-typed code (parser.hpp,
    [handle_branch_target], [compute_depth_change], [exit_scope])

    The immediates of a jump drop exactly the operands above its label, and its
    target is a cell whose typing has what is left. *)
From S2P Require Import Prelude GuardedPtr Leb128 Allocator Opcodes Types OpSigs Validation Writers FunctionBody Parser ReaderProofs WriterLaws BodySafety ContextProofs OpTypes CodeTyping TrackerTypes WriterEffects CompiledBody CompiledInstrs.
Import Op(opcode).
Import BitcodeWriter(branch, AtInstr, AtCase, op_index, fb, _base_offset).

#[global] Instance branch_eq_dec : EqDecision branch.
Proof. solve_decision. Defined.

Section Jumps.
Context `{sys : Sys} (options : Opt.t) (m : module) (locals : list Z) (fr : Z)
  (F : Growable.t * Z * Z * Z * list opcode * Z * Z)
  (start : Z).
Local Abbreviation W := BitcodeWriter.t.
Local Abbreviation bstate := (body_state (W := W)).
Local Abbreviation pc_elem := (pc_element_t (W := W)).
Implicit Types (s : bstate) (w : W) (b : branch) (g : list scope) (Φ : typing) (G : jump_types).
Local Abbreviation typed := (typed m locals fr).
Local Abbreviation opened := (opened m locals fr F start).
Local Abbreviation cell := BitcodeLaws.cell.

(** ** Immediates *)

Lemma encoded d rt pop :
  in_u 32 d -> BitcodeWriter.encode_depth_change d rt = Ret pop ->
  d < 2 ^ 31 /\ pop = if rt =? pseudo then d else 2 ^ 31 + d.
Proof.
  unfold BitcodeWriter.encode_depth_change, EOS_VM_ASSERT, in_u. intros Hd.
  destruct (Z.eqb_spec (Z.land d 0x80000000) 0) as [H0|]; simpl; [|done].
  assert (Hlt : d < 2 ^ 31).
  { destruct (Z.lt_ge_cases d (2 ^ 31)); [done|]. exfalso.
    assert (Hb : Z.testbit (Z.land d (2 ^ 31)) 31 = true).
    { rewrite Z.land_spec, Z.pow2_bits_true by lia. rewrite andb_true_r.
      rewrite Z.testbit_true by lia. rewrite <- (Z.div_unique d (2 ^ 31) 1 (d - 2 ^ 31)) by lia. done. }
    change (2 ^ 31) with 0x80000000 in Hb. by rewrite H0, Z.bits_0 in Hb. }
  destruct (Z.eqb_spec rt pseudo); simpl; intros [= <-]; [done|]. split; [done|].
  change 0x80000000 with (2 ^ 31) in *. rewrite Z.add_comm, Z.add_nocarry_lxor, Z.lxor_lor; done.
Qed.

Lemma ops_app g1 g2 : ops (g1 ++ g2) = ops g1 ++ ops g2.
Proof. unfold ops. apply bind_app. Qed.
Lemma alive_app g1 g2 : alive (g1 ++ g2) = true -> alive g2 = true.
Proof. unfold alive. rewrite forallb_app. by intros [_ ?]%andb_prop. Qed.

(** Dropping the operands above the label leaves what the label expects. *)
Lemma depth_jumps rt g k pop :
  let below := drop (S k) g in
  Z.of_nat (length (ops g)) < 2 ^ 32 -> (k < length g)%nat -> alive g = true ->
  (rt <> pseudo -> exists v, vals <$> head g = Some (rt :: v)) ->
  BitcodeWriter.encode_depth_change (wrap 32 (Z.of_nat (length (ops g)) - Z.of_nat (length (ops below)))) rt = Ret pop ->
  jumps pop (ops g) (label_types rt ++ ops below).
Proof.
  intros below Hlen Hk Ha Hrt Hpop. subst below.
  assert (Hops : ops g = ops (take (S k) g) ++ ops (drop (S k) g)) by (by rewrite <- ops_app, take_drop).
  rewrite Hops in *. rewrite length_app in *.
  replace (Z.of_nat (length (ops (take (S k) g)) + length (ops (drop (S k) g))) - Z.of_nat (length (ops (drop (S k) g))))
    with (Z.of_nat (length (ops (take (S k) g)))) in Hpop by lia.
  rewrite wrap_small in Hpop by (unfold in_u; lia).
  apply encoded in Hpop as [Hd ->]; [|unfold in_u; lia]. unfold label_types.
  destruct (Z.eqb_spec rt pseudo) as [->|Hne]; [by apply jumps_void|].
  destruct (Hrt Hne) as [v Hv]. destruct g as [|sc g]; [done|]. injection Hv as Hv.
  simpl take in *. rewrite ops_cons, Hv in *. simpl in *.
  replace (Z.of_nat (S (length (v ++ ops (take k g))))) with (Z.of_nat (length (v ++ ops (take k g))) + 1) by lia.
  apply jumps_value. lia.
Qed.

Lemma pcs_lookup Φ G n es g k e :
  pcs_typed fr Φ G n es g -> es !! k = Some e -> pc_typed fr Φ G n e (drop (S k) g).
Proof.
  intros H. revert k. induction H as [|e0 es sc g He Hes IH]; intros k Hk; [done|].
  destruct k as [|k]; simpl in Hk; [by injection Hk as <-|]. by apply IH.
Qed.

Lemma label_result_type Φ G n e g : pc_typed fr Φ G n e g -> result_type (label_result e).
Proof.
  intros [_ H2 _ H4]. destruct (relocations e); [destruct H4 as (_ & -> & _); by left|]. by destruct H4 as [-> _].
Qed.

(** [compute_depth_change]: the change and the result of the label; what the writer
    makes of them is a jump to the label. *)
Lemma post_depth_change low label Φ G n g (R : Z * Z -> bstate -> Prop) s :
  tracked low g (op_stack s) -> g <> [] -> pcs_typed fr Φ G n (pc_stack s) g -> 0 <= label ->
  (forall d (e : pc_elem) tr g', nthZ (pc_stack s) label = Some e ->
     pc_typed fr Φ G n e (drop (S (Z.to_nat label)) g) -> tracked low g' tr -> g' <> [] ->
     turns (label_types (label_result e)) (label_types (label_result e)) g g' ->
     (forall pop, BitcodeWriter.encode_depth_change d (label_result e) = Ret pop -> alive g = true ->
        jumps pop (ops g) (label_of e (drop (S (Z.to_nat label)) g))) ->
     R (d, label_result e) (set_op_stack tr s)) ->
  post (compute_depth_change options label) R s.
Proof.
  intros Htk Hg Hpcs Hl HR. unfold compute_depth_change, pc_stack_size, pc_at. repeat post_prim.
  destruct (nthZ (pc_stack s) label) as [e|] eqn:Ee; [|done].
  match goal with H : or_UB _ _ = Ret ?x |- _ => injection H as <- end.
  pose proof Ee as Ee'. rewrite nthZ_lookup in Ee' by done. pose proof (pcs_lookup _ _ _ _ _ _ _ Hpcs Ee') as Hpc.
  pose proof (lookup_lt_Some _ _ _ Ee') as Hlt. rewrite (pcs_typed_length _ _ _ _ _ _ Hpcs) in Hlt.
  apply post_on_stack. unfold Tracker.depth. post_prim. post_prim.
  assert (E0 : set_op_stack (op_stack s) s = s) by by destruct s. rewrite E0.
  pose proof (tk_depth _ _ _ Htk) as Hd. pose proof (tk_max _ _ _ Htk) as Hm. rewrite Hd, (pt_depth _ _ _ _ _ _ Hpc).
  pose proof (label_result_type _ _ _ _ _ Hpc) as Hrt.
  set (d := wrap 32 _).
  destruct (Z.eqb_spec (label_result e) pseudo) as [E|Hne]; simpl.
  - repeat post_prim. rewrite <- E0. apply (HR d e (op_stack s) g); try done.
    + unfold label_types. rewrite E. simpl. by apply turns_self.
    + intros pop Hpop Ha. eapply depth_jumps; [lia|done|done| |exact Hpop]. by rewrite E.
  - destruct Hrt as [?|Hrt]; [done|]. eapply (post_top options low); [done|done|done|]. intros tr g' Htk' Hm' Hg'.
    post_prim. apply (HR d e tr g'); try done.
    + unfold label_types. by destruct (Z.eqb_spec (label_result e) pseudo).
    + intros pop Hpop Ha. eapply depth_jumps; [lia|done|done| |exact Hpop]. intros _.
      destruct Hm' as (v & v' & dd & r & -> & _ & Hv). destruct (Hv Ha) as (rest & -> & _). simpl. by eexists.
Qed.

(** ** A jump is noted or directed *)

(** What [handle_branch_target] does *)
Record handled (label : Z) b (e : pc_elem) s s' : Prop := Handled {
  hd_label : nthZ (pc_stack s) label = Some e;
  hd_code : bs_code s' = bs_code s;
  hd_stack : op_stack s' = op_stack s;
  hd_effect :
    match (relocations e : Z + list branch) with
    | inl k => pc_stack s' = pc_stack s /\
        directed b (wrap 32 (_base_offset (code_writer s) + k)) (code_writer s) (code_writer s')
    | inr l => code_writer s' = code_writer s /\
        pc_stack s' = <[Z.to_nat label := PcElement (W := W) (pe_operand_depth e) (expected_result e) (label_result e)
          (is_if e) (inr (l ++ [b]))]> (pc_stack s)
    end
}.

Lemma handle_branch_post label b s :
  0 <= label -> post (handle_branch_target (W := W) label b) (fun _ s' => exists e, handled label b e s s') s.
Proof.
  intros Hl. unfold handle_branch_target, pc_stack_size, pc_at. repeat post_prim.
  destruct (nthZ (pc_stack s) label) as [e|] eqn:Ee; [|done].
  match goal with H : or_UB _ _ = Ret ?x |- _ => injection H as <- end.
  destruct (relocations e : Z + list branch) as [k|l] eqn:Er.
  - apply post_emits. eapply post_mono; [apply fix_branch_post|]. intros [] w' Hd. exists e.
    split; [done|done|done|]. by rewrite Er.
  - post_prim. exists e. split; [done|done|done|]. by rewrite Er.
Qed.

(** ** The labels *)

Lemma pcs_waiting Φ G n es g b : pcs_typed fr Φ G n es g -> waiting es b -> cell_of b < n.
Proof.
  intros H (e & l & He & Hr & Hb). apply list_elem_of_lookup in He as [k Hk].
  destruct (pcs_lookup _ _ _ _ _ _ _ H Hk) as [_ _ _ H4]. rewrite Hr in H4. destruct H4 as (_ & _ & Hl).
  apply list_elem_of_lookup in Hb as [j Hj]. by destruct (Hl j b Hj).
Qed.

Lemma pc_typed_jumps Φ G G' n (e : pc_elem) g :
  (forall l b, (relocations e : Z + list branch) = inr l -> b ∈ l -> G' b = G b) ->
  pc_typed fr Φ G n e g -> pc_typed fr Φ G' n e g.
Proof.
  intros HG [H1 H2 H3 H4]. split; [done|done|done|]. destruct (relocations e) as [k|l]; [done|].
  destruct H4 as (? & ? & Hl). split_and!; [done|done|]. intros j b Hj. destruct (Hl j b Hj) as [? Hts]. split; [done|].
  rewrite (HG l b); [done|done|by eapply list_elem_of_lookup_2].
Qed.
(** Jumps that do not wait do not matter to the labels. *)
Lemma pcs_typed_jumps Φ G G' n es g :
  (forall b, waiting es b -> G' b = G b) -> pcs_typed fr Φ G n es g -> pcs_typed fr Φ G' n es g.
Proof.
  intros HG H. induction H as [|e es sc g He Hes IH]; constructor.
  - eapply pc_typed_jumps; [|done]. intros l b Hr Hb. apply HG. exists e, l. split_and!; [by left|done|done].
  - apply IH. intros b (e' & l & He' & ?). apply HG. exists e', l. split; [by right|done].
Qed.

Lemma pcs_typed_insert Φ G n es g k e' :
  pcs_typed fr Φ G n es g -> pc_typed fr Φ G n e' (drop (S k) g) -> pcs_typed fr Φ G n (<[k := e']> es) g.
Proof.
  intros H. revert k. induction H as [|e es sc g He Hes IH]; intros k Hk; [constructor|].
  destruct k as [|k]; simpl; constructor; try done. by apply IH.
Qed.

(** A jump joins the list of a label. *)
Lemma waiting_insert (es : list pc_elem) k (e e' : pc_elem) (l : list branch) b b' :
  es !! k = Some e -> relocations e = inr l -> relocations e' = inr (l ++ [b]) ->
  waiting (<[k := e']> es) b' <-> waiting es b' \/ b' = b.
Proof.
  intros Hk Hr Hr'. pose proof (lookup_lt_Some _ _ _ Hk) as Hlt. split.
  - intros (x & lx & Hx & Hrx & Hb). apply list_elem_of_lookup in Hx as [i Hi].
    destruct (decide (i = k)) as [->|Hne].
    + rewrite list_lookup_insert_eq in Hi by done. injection Hi as <-. rewrite Hr' in Hrx. injection Hrx as <-.
      apply elem_of_app in Hb as [Hb|Hb]; [|right; by apply list_elem_of_singleton in Hb].
      left. exists e, l. split_and!; [by eapply list_elem_of_lookup_2|done|done].
    + rewrite list_lookup_insert_ne in Hi by done. left. exists x, lx. split_and!; [by eapply list_elem_of_lookup_2|done|done].
  - assert (Hin : e' ∈ <[k := e']> es) by (eapply list_elem_of_lookup_2; by apply list_lookup_insert_eq).
    intros [(x & lx & Hx & Hrx & Hb)| ->].
    + apply list_elem_of_lookup in Hx as [i Hi]. destruct (decide (i = k)) as [->|Hne].
      * rewrite Hk in Hi. injection Hi as <-. rewrite Hr in Hrx. injection Hrx as <-.
        exists e', (l ++ [b]). split_and!; [done|done|]. apply elem_of_app. by left.
      * exists x, lx. split_and!; [|done|done]. eapply (list_elem_of_lookup_2 _ i). by rewrite list_lookup_insert_ne.
    + exists e', (l ++ [b]). split_and!; [done|done|]. apply elem_of_app. right. by left.
Qed.

Lemma target_same (get get' : Z -> option opcode) b :
  get' (cell_of b) = get (cell_of b) -> target get' b = target get b.
Proof. destruct b; simpl; by intros ->. Qed.

Lemma fixed_keep Φ Φ' n n' w w' b ts :
  weaker Φ Φ' -> n <= n' -> frame_of w' = frame_of w ->
  (forall pc, target (cell w) b = Some pc -> target (cell w') b = Some pc) ->
  fixed Φ n w b ts -> fixed Φ' n' w' b ts.
Proof.
  intros HΦ Hn Hf Ht (k & Hk & Htg & Hts). exists k. split_and!; [lia|lia| |by apply HΦ].
  apply Ht. by rewrite Htg, (frame_base _ _ Hf).
Qed.
Lemma fixed_mono Φ Φ' n n' w w' b ts :
  weaker Φ Φ' -> n <= n' -> frame_of w' = frame_of w -> target (cell w') b = target (cell w) b ->
  fixed Φ n w b ts -> fixed Φ' n' w' b ts.
Proof. intros HΦ Hn Hf Ht. eapply fixed_keep; [done|done|done|]. by rewrite Ht. Qed.
Lemma weaker_refl Φ : weaker Φ Φ.
Proof. by intros i ts. Qed.

(** ** Inside an instruction with jumps *)

(** The state [s'] in the step from [s], its cell written; [issued] are the jumps it
    has emitted. *)
Record mid Φ G s (issued : list branch) G' g' s' : Prop := Mid {
  md_tracked : tracked (maximum_operand_depth (op_stack s)) g' (op_stack s');
  md_index : op_index (code_writer s) < op_index (code_writer s');
  md_frame : frame_of (code_writer s') = frame_of (code_writer s);
  md_cells i o : i < op_index (code_writer s) -> cell (code_writer s) i = Some o ->
    exists o', cell (code_writer s') i = Some o' /\ same_but_target o o';
  md_old b : cell_of b < op_index (code_writer s) -> G' b = G b;
  md_pcs : pcs_typed fr Φ G' (op_index (code_writer s')) (pc_stack s') g';
  md_listed b : waiting (pc_stack s') b -> cell_of b < op_index (code_writer s) \/ b ∈ issued;
  md_jump b ts : G' b = Some ts -> cell_of b < op_index (code_writer s') /\
    (waiting (pc_stack s') b \/ fixed Φ (op_index (code_writer s')) (code_writer s') b ts)
}.

Lemma mid_start Φ G g s g' s' :
  typed Φ G g s -> tracked (maximum_operand_depth (op_stack s)) g' (op_stack s') -> same_scopes g g' ->
  pc_stack s' = pc_stack s -> op_index (code_writer s) < op_index (code_writer s') ->
  frame_of (code_writer s') = frame_of (code_writer s) ->
  (forall j, j < op_index (code_writer s) -> cell (code_writer s') j = cell (code_writer s) j) ->
  mid Φ G s [] G g' s'.
Proof.
  intros Ht Htk Hs Hpcs Hn Hf Hc. pose proof (ty_pcs _ _ _ _ _ _ _ Ht) as Hp.
  split; [done|done|done| |done| | |]; rewrite ?Hpcs.
  - intros i o Hi Ho. exists o. split; [by rewrite Hc|apply same_but_target_refl].
  - eapply pcs_typed_scopes; [done|]. eapply pcs_typed_mono; [apply weaker_refl| |done|done]. lia.
  - intros b Hb. left. by eapply pcs_waiting.
  - intros b ts Hb. destruct (ty_jump _ _ _ _ _ _ _ Ht b ts Hb) as [Hlt Hj]. split; [lia|].
    destruct Hj as [?|Hj]; [by left|]. right. eapply fixed_mono; [apply weaker_refl| |done| |done]; [lia|].
    apply target_same. by apply Hc.
Qed.

(** The rest of the step reads, and changes the innermost scope. *)
Lemma mid_stack Φ G s issued G' sc sc' g s1 s2 :
  mid Φ G s issued G' (sc :: g) s1 ->
  tracked (maximum_operand_depth (op_stack s)) (sc' :: g) (op_stack s2) ->
  code_writer s2 = code_writer s1 -> pc_stack s2 = pc_stack s1 -> mid Φ G s issued G' (sc' :: g) s2.
Proof.
  intros [M1 M2 M3 M4 M5 M6 M7 M8] Htk Hw Hp. split; rewrite ?Hw, ?Hp; try done. by eapply pcs_typed_head.
Qed.

(** A jump is emitted. *)
Definition noted G b (v : option (list Z)) : jump_types := fun b' => if decide (b' = b) then v else G b'.
Lemma noted_new G b v : noted G b v b = v.
Proof. unfold noted. by destruct (decide _). Qed.
Lemma noted_old G b v b' : b' <> b -> noted G b v b' = G b'.
Proof. unfold noted. by destruct (decide _). Qed.

(** What a jump to the label of [e] leaves *)
Definition jump_value g1 (label : Z) (e : pc_elem) : option (list Z) :=
  if alive g1 then Some (label_of e (drop (S (Z.to_nat label)) g1)) else None.
Lemma jump_value_Some g1 label (e : pc_elem) ts :
  jump_value g1 label e = Some ts ->
  alive (drop (S (Z.to_nat label)) g1) = true /\ ts = label_of e (drop (S (Z.to_nat label)) g1).
Proof.
  unfold jump_value. destruct (alive g1) eqn:Ea; [|done]. intros [= <-]. split; [|done].
  apply (alive_app (take (S (Z.to_nat label)) g1)). by rewrite take_drop.
Qed.

Section Jump.
Context Φ G s (issued : list branch) G1 g1 s1 (label : Z) b (e : pc_elem) s2.
Context (Hmid : mid Φ G s issued G1 g1 s1) (Hlabel : 0 <= label) (Hfresh : b ∉ issued).
Context (Hcell : cell_of b = op_index (code_writer s)) (Hh : handled label b e s1 s2).
Local Abbreviation G2 := (noted G1 b (jump_value g1 label e)).

Lemma jump_label : pc_stack s1 !! Z.to_nat label = Some e.
Proof. rewrite <- nthZ_lookup by done. apply Hh. Qed.

Lemma jump_pcs : pcs_typed fr Φ G2 (op_index (code_writer s1)) (pc_stack s1) g1.
Proof.
  destruct Hmid as [M1 M2 M3 M4 M5 M6 M7 M8]. eapply pcs_typed_jumps; [|done]. intros b' Hw. apply noted_old. intros ->.
  destruct (M7 b Hw); [lia|done].
Qed.

Lemma jump_directed k : (relocations e : Z + list branch) = inl k -> mid Φ G s (b :: issued) G2 g1 s2.
Proof.
  intros Er. pose proof (pcs_lookup _ _ _ _ _ _ _ (md_pcs _ _ _ _ _ _ _ Hmid) jump_label) as Hpc.
  pose proof jump_pcs as Hpcs.
  destruct Hmid as [M1 M2 M3 M4 M5 M6 M7 M8]. destruct Hh as [H1 H2 H3 H4]. rewrite Er in H4.
  destruct H4 as [Hp [D1 D2 D3 D4 D5]]. split; rewrite ?H3, ?D1, ?D2, ?Hp; try done.
  - intros i o Hi Ho. destruct (M4 i o Hi Ho) as (o1 & Ho1 & Hs1). destruct (D5 i o1 Ho1) as (o2 & Ho2 & Hs2).
    exists o2. split; [done|]. by eapply same_but_target_trans.
  - intros b' Hb'. rewrite noted_old; [by apply M5|]. intros ->. lia.
  - intros b' Hw. destruct (M7 b' Hw); [by left|]. right. by right.
  - intros b' ts. destruct (decide (b' = b)) as [->|Hne].
    + rewrite noted_new. intros [Ha ->]%jump_value_Some. split; [lia|]. right. exists k.
      destruct Hpc as [_ _ _ Hr]. rewrite Er in Hr. destruct Hr as (_ & Hlr & Hk & _ & Hts).
      split_and!; [lia|lia| |].
      * by rewrite D3, (frame_base _ _ D2).
      * unfold label_of. rewrite Hlr. by apply Hts.
    + rewrite noted_old by done. intros Hts. destruct (M8 b' ts Hts) as [? Hj]. split; [done|].
      destruct Hj as [?|Hj]; [by left|right]. eapply fixed_mono; [apply weaker_refl| |exact D2|by apply D4|done]. lia.
Qed.

Lemma jump_listed (l : list branch) :
  (relocations e : Z + list branch) = inr l -> pc_typed fr Φ G2 (op_index (code_writer s1))
    (PcElement (W := W) (pe_operand_depth e) (expected_result e) (label_result e) (is_if e) (inr (l ++ [b])))
    (drop (S (Z.to_nat label)) g1).
Proof.
  intros Er. destruct (pcs_lookup _ _ _ _ _ _ _ jump_pcs jump_label) as [P1 P2 P3 P4].
  pose proof (md_index _ _ _ _ _ _ _ Hmid) as Hn.
  split; simpl; [done|done|done|]. rewrite Er in P4. destruct P4 as (Q1 & Q2 & Q3). split_and!; [done| |].
  - intros Hi. specialize (Q2 Hi). by destruct l.
  - intros j b' [Hj|[Hj Hx]]%lookup_app_Some; [by apply Q3|].
    assert (Hjl : j = length l /\ b' = b).
    { destruct (j - length l)%nat eqn:Ej; simpl in Hx; [injection Hx as <-; split; [lia|done]|done]. }
    destruct Hjl as [-> ->]. rewrite Hcell. split; [lia|]. rewrite noted_new.
    intros ts [Ha ->]%jump_value_Some. split; [done|]. unfold waits_for. simpl.
    destruct (is_if e) eqn:Ei; simpl; [|done]. specialize (Q2 eq_refl). by destruct l.
Qed.

Lemma jump_waits (l : list branch) :
  (relocations e : Z + list branch) = inr l -> mid Φ G s (b :: issued) G2 g1 s2.
Proof.
  intros Er. pose proof (jump_listed l Er) as Hnew. pose proof jump_pcs as Hpcs. pose proof jump_label as He.
  destruct Hmid as [M1 M2 M3 M4 M5 M6 M7 M8]. destruct Hh as [H1 H2 H3 H4]. rewrite Er in H4. destruct H4 as [Hw Hp].
  assert (Hwait : forall b', waiting (pc_stack s2) b' <-> waiting (pc_stack s1) b' \/ b' = b).
  { intros b'. rewrite Hp. by eapply waiting_insert. }
  split; rewrite ?H3, ?Hw; try done.
  - intros b' Hb'. rewrite noted_old; [by apply M5|]. intros ->. lia.
  - rewrite Hp. by apply pcs_typed_insert.
  - intros b' Hb'. apply Hwait in Hb' as [Hb'| ->]; [|right; by left].
    destruct (M7 b' Hb'); [by left|]. right. by right.
  - intros b' ts. destruct (decide (b' = b)) as [->|Hne].
    + intros _. split; [lia|]. left. apply Hwait. by right.
    + rewrite noted_old by done. intros Hts. destruct (M8 b' ts Hts) as [? Hj]. split; [done|].
      destruct Hj as [?|Hj]; [left; apply Hwait; by left|by right].
Qed.

Lemma mid_jump : mid Φ G s (b :: issued) G2 g1 s2.
Proof. destruct (relocations e : Z + list branch) as [k|l] eqn:Er; [by eapply jump_directed|by eapply jump_waits]. Qed.
End Jump.

(** A branch table gets an entry. *)
Lemma mid_case Φ G s issued G1 g1 s1 pop w :
  mid Φ G s issued G1 g1 s1 -> entered_case (op_index (code_writer s)) pop (code_writer s1) w ->
  mid Φ G s issued G1 g1 (set_code_writer w s1).
Proof.
  intros [M1 M2 M3 M4 M5 M6 M7 M8] [E1 E2 (size & table & E3 & E3') E4].
  split; cbn [code_writer op_stack pc_stack set_code_writer]; rewrite ?E1, ?E2; try done.
  - intros i o Hi Ho. rewrite E4 by lia. by apply M4.
  - intros b ts Hb. destruct (M8 b ts Hb) as [? Hj]. split; [done|]. destruct Hj as [?|Hj]; [by left|right].
    eapply fixed_keep; [apply weaker_refl| |exact E2| |exact Hj]; [lia|].
    intros pc. destruct b as [i|i j]; simpl; (destruct (decide (i = op_index (code_writer s))) as [->|]; [|by rewrite E4]).
    + by rewrite E3.
    + rewrite E3, E3'. destruct (nthZ table j) as [x|] eqn:Ex; [|done]. by rewrite (nthZ_snoc_old _ _ _ _ Ex).
Qed.

Lemma mid_weaken Φ Φ' G s issued G' g' s' : weaker Φ Φ' -> mid Φ G s issued G' g' s' -> mid Φ' G s issued G' g' s'.
Proof.
  intros HΦ [M1 M2 M3 M4 M5 M6 M7 M8]. split; try done.
  - eapply pcs_typed_mono; [exact HΦ|reflexivity| |exact M6]. done.
  - intros b ts Hb. destruct (M8 b ts Hb) as [? Hj]. split; [done|]. destruct Hj as [?|Hj]; [by left|right].
    eapply fixed_mono; [exact HΦ|reflexivity|reflexivity|reflexivity|exact Hj].
Qed.

(** The step is over. *)
Lemma mid_opened_next k Φ G g s issued G' g' s' :
  let Φ' := extend Φ (op_index (code_writer s')) (cur g') in
  typed Φ G g s -> frame_of (code_writer s) = F -> mid Φ' G s issued G' g' s' -> g' <> [] -> cursor_ok (bs_code s') ->
  start + op_index (code_writer s') + k <= raw_ptr (bs_code s') ->
  (forall ts, cur g = Some ts -> exists o, cell (code_writer s') (op_index (code_writer s)) = Some o /\
     cell_typed m locals Φ' (fun b ts => G' b = Some ts) (op_index (code_writer s)) o ts) ->
  opened k s'.
Proof.
  intros Φ' Ht HF [M1 M2 M3 M4 M5 M6 M7 M8] Hg Hc Hraw Hnew. exists Φ', G', g'.
  split_and!; [|done|done|done|by rewrite M3]. eapply typed_step; [exact Ht|done|lia|lia|done..].
Qed.
Lemma mid_opened k Φ G g s issued G' g' s' :
  typed Φ G g s -> frame_of (code_writer s) = F -> mid Φ G s issued G' g' s' -> g' <> [] -> cursor_ok (bs_code s') ->
  start + op_index (code_writer s') + k <= raw_ptr (bs_code s') ->
  (forall ts, cur g = Some ts -> exists o, cell (code_writer s') (op_index (code_writer s)) = Some o /\
     cell_typed m locals (extend Φ (op_index (code_writer s')) (cur g')) (fun b ts => G' b = Some ts)
       (op_index (code_writer s)) o ts) ->
  opened k s'.
Proof.
  intros Ht HF Hmid Hg Hc Hraw Hnew. eapply mid_opened_next; try done. eapply mid_weaken; [|exact Hmid].
  pose proof (md_index _ _ _ _ _ _ _ Hmid). eapply extend_weaker; [exact Ht|lia|lia].
Qed.

(** The cell of a jump that was just emitted, once it is noted or directed *)
Lemma handled_cell label b (e : pc_elem) s s' i o :
  handled label b e s s' -> cell (code_writer s) i = Some o ->
  exists o', cell (code_writer s') i = Some o' /\ same_but_target o o'.
Proof.
  intros [_ _ _ H4] Ho. destruct (relocations e) as [k|l].
  - destruct H4 as [_ [_ _ _ _ D5]]. by apply D5.
  - destruct H4 as [-> _]. exists o. split; [done|apply same_but_target_refl].
Qed.
Lemma handled_index label b (e : pc_elem) s s' :
  handled label b e s s' -> op_index (code_writer s') = op_index (code_writer s).
Proof. intros [_ _ _ H4]. destruct (relocations e); [by destruct H4 as [_ [D1 _ _ _ _]]|by destruct H4 as [-> _]]. Qed.
End Jumps.
