(* ===== verification/CompiledControl.v ===== *)
(** * Control instructions are compiled to well-typed code (parser.hpp, the control flow
    cases of [parse_function_body_code])

    Jumps, blocks and the ends of blocks, on top of the lemmas on labels of
    CompiledJumps.v. *)
From S2P Require Import Prelude GuardedPtr Leb128 Allocator Opcodes Types OpSigs Validation Writers FunctionBody Parser ReaderProofs WriterLaws BodySafety ContextProofs OpTypes CodeTyping TrackerTypes WriterEffects CompiledBody CompiledInstrs CompiledJumps.
Import Op(opcode).
Import BitcodeWriter(branch, AtInstr, AtCase, op_index, fb, _base_offset).

Section Control.
Context `{sys : Sys} (options : Opt.t) (m : module) (locals : list Z) (fr : Z)
  (F : Growable.t * Z * Z * Z * list opcode * Z * Z) (start : Z).
Local Abbreviation W := BitcodeWriter.t.
Local Abbreviation bstate := (body_state (W := W)).
Local Abbreviation pc_elem := (pc_element_t (W := W)).
Implicit Types (s : bstate) (w : W) (b : branch) (g : list scope) (Φ : typing) (G : jump_types).
Local Abbreviation typed := (typed m locals fr).
Local Abbreviation opened := (opened m locals fr F start).
Local Abbreviation stays := (stays m locals fr F start).
Local Abbreviation mid := (mid fr).
Local Abbreviation cell := BitcodeLaws.cell.

(** The steps of the instructions here; the rest is done by hand. *)
Ltac cstep :=
  lazymatch goal with
  | |- post (check_in_bounds _) _ _ => apply post_in_bounds
  | |- post (pop_expected _ _) _ _ => eapply post_pop; [eassumption|assumption|solve [auto with compiled]|]; intros ? ? ? ? ?
  | |- post (from_code parse_varuint32) _ _ => eapply post_read; [apply ok_varuint32|assumption|]; intros ? ? ? ?
  | |- post next_byte _ _ => eapply post_read; [apply ok_read_byte|assumption|]; intros ? ? ? ?
  | |- post _ _ _ => post_prim
  end; settle.

(** ** Jumps *)

Lemma same_scopes_drop k g g' : same_scopes g g' -> drop (S k) g' = drop (S k) g.
Proof. by intros (v & v' & d & r & -> & ->). Qed.
Lemma same_scopes_trans g1 g2 g3 : same_scopes g1 g2 -> same_scopes g2 g3 -> same_scopes g1 g3.
Proof. intros (v & v' & d & r & -> & ->) (? & v2 & ? & ? & [= <- <- <-] & ->). by repeat eexists. Qed.
Lemma same_scopes_refl g : g <> [] -> same_scopes g g.
Proof. destruct g as [|[v d] g]; [done|]. by repeat eexists. Qed.

Lemma unreachable_stays : stays (check_in_bounds options;; emits emit_unreachable;; start_unreachable).
Proof.
  begin. repeat cstep. apply post_append; [done|]. intros w [Ai Ar Af Ac Ao]. repeat cstep.
  destruct g as [|sc g]; [done|].
  apply post_on_stack. eapply post_mono; [by eapply (start_unreachable_tracked _ sc g)|]. intros [] tr Htk'. settle.
  assert (Hmid : mid Φ G s [] G (Scope [] true :: g) (set_op_stack tr (set_code_writer w s))).
  { eapply mid_stack with (sc := sc) (s1 := set_code_writer w s); [|exact Htk'|done|done].
    eapply mid_start; [exact Ht|done|by apply same_scopes_refl|done|simpl; lia|done|].
    intros j Hj. apply Ao. lia. }
  eapply mid_opened; [exact Ht|exact HF|exact Hmid|done|done|simpl; lia|].
  intros ts Hts. by exists (BitcodeWriter.control Op.unreachable).
Qed.

(** A jump is emitted for the label [e], whose operands are on top. *)
Lemma post_jump o label d (e : pc_elem) Φ G g s g1 s1 (R : unit -> bstate -> Prop) :
  typed Φ G g s -> same_scopes g g1 -> tracked (maximum_operand_depth (op_stack s)) g1 (op_stack s1) ->
  pc_stack s1 = pc_stack s -> code_writer s1 = code_writer s -> 0 <= label -> nthZ (pc_stack s1) label = Some e ->
  (forall s2 imm o', mid Φ G s [AtInstr (op_index (code_writer s))]
       (noted G (AtInstr (op_index (code_writer s))) (jump_value g1 label e)) g1 s2 ->
     op_index (code_writer s2) = op_index (code_writer s) + 1 -> bs_code s2 = bs_code s1 ->
     BitcodeWriter.encode_depth_change d (label_result e) = Ret (Op.cf_data imm) ->
     cell (code_writer s2) (op_index (code_writer s)) = Some o' -> same_but_target (Op.CONTROL_FLOW o imm) o' ->
     R tt s2) ->
  post (emits (BitcodeWriter.emit_branch o d (label_result e)))
    (fun b s' => post (handle_branch_target (W := W) label b) R s') s1.
Proof.
  intros Ht Hs Htk Hpc Hw Hl He HR. pose proof (ty_index _ _ _ _ _ _ _ Ht) as Hix.
  apply post_emits. rewrite Hw. eapply post_mono; [by apply emit_branch_post|].
  intros b w (-> & imm & [Ai Ar Af Ac Ao] & Henc). eapply post_mono; [by apply handle_branch_post|].
  intros [] s2 (e' & Hh). assert (e' = e) as ->.
  { pose proof (hd_label _ _ _ _ _ Hh) as H. simpl in H. rewrite He in H. by injection H. }
  destruct (handled_cell _ _ _ _ _ _ _ Hh Ac) as (o' & Ho' & Hsame).
  eapply HR; [| |by rewrite (hd_code _ _ _ _ _ Hh)|exact Henc|exact Ho'|exact Hsame].
  - eapply mid_jump; [|exact Hl|apply not_elem_of_nil|done|exact Hh].
    eapply mid_start; [exact Ht|done|done|done|simpl; lia|done|]. intros j Hj. apply Ao. lia.
  - rewrite (handled_index _ _ _ _ _ Hh). exact Ai.
Qed.

(** The label of a jump gets what it expects. *)
Lemma jump_gets d (e : pc_elem) label g g' imm :
  same_scopes g g' -> alive g = true ->
  (forall pop, BitcodeWriter.encode_depth_change d (label_result e) = Ret pop -> alive g = true ->
     jumps pop (ops g) (label_of e (drop (S (Z.to_nat label)) g))) ->
  BitcodeWriter.encode_depth_change d (label_result e) = Ret (Op.cf_data imm) ->
  exists ts', jumps (Op.cf_data imm) (ops g) ts' /\ jump_value g' label e = Some ts'.
Proof.
  intros Hs Ha Hj He. exists (label_of e (drop (S (Z.to_nat label)) g)). split; [by apply Hj|].
  unfold jump_value. by rewrite (same_scopes_alive _ _ Hs), Ha, (same_scopes_drop _ _ _ Hs).
Qed.

(** A jump after which the code cannot be reached: [br], and [return] as a jump to the
    label of the function *)
Lemma unconditional_stays label Φ G g s s1 :
  typed Φ G g s -> g <> [] -> frame_of (code_writer s) = F -> cursor_ok (bs_code s1) ->
  start + op_index (code_writer s) + 1 <= raw_ptr (bs_code s1) ->
  op_stack s1 = op_stack s -> pc_stack s1 = pc_stack s -> code_writer s1 = code_writer s -> 0 <= label ->
  post (dc ← compute_depth_change options label;
        branch ← emits (BitcodeWriter.emit_branch Op.br dc.1 dc.2);
        handle_branch_target (W := W) label branch;;
        start_unreachable) (fun _ s' => opened 0 s') s1.
Proof.
  intros Ht Hg HF Hc Hraw Hst Hpc Hw Hl. pose proof (tracked_low _ _ _ (ty_tracked _ _ _ _ _ _ _ Ht)) as Htk.
  post_prim. eapply post_depth_change; [by rewrite Hst|exact Hg|rewrite Hpc; apply Ht|done|].
  intros d e tr g1 He _ Htk1 Hg1 Hm1 Hj. post_prim. cbn [fst snd].
  eapply post_mono; [|intros b s' H; apply post_bind; exact H].
  eapply post_jump with (g1 := g1) (R := fun _ s2 => post start_unreachable (fun _ s' => opened 0 s') s2);
    [exact Ht|by eapply turns_scopes|exact Htk1|done|done|done|exact He|].
  intros s2 imm o' Hmid Hi Hcode Henc Ho' Hsame. simpl in Hcode.
  destruct g1 as [|sc g1]; [done|]. apply post_on_stack.
  eapply post_mono; [eapply (start_unreachable_tracked _ sc g1); apply Hmid|]. intros [] tr2 Htk2. settle.
  assert (Hmid2 := Hmid). eapply mid_stack with (s2 := set_op_stack tr2 s2) in Hmid2; [|exact Htk2|done|done].
  eapply mid_opened; [exact Ht|exact HF|exact Hmid2|done|cbn; by rewrite Hcode|cbn; rewrite Hcode; lia|].
  intros ts [Ha ->]%cur_Some. exists o'. split; [done|].
  eapply cell_typed_mono; [by apply weaker_refl|by intros b ts' _ H; exact H|exact Hsame|].
  destruct (jump_gets d e label g _ imm (turns_scopes _ _ _ _ Hm1) Ha Hj Henc) as (ts' & Hj' & Hv).
  exists ts'. split; [done|]. by rewrite noted_new.
Qed.

Lemma br_stays : stays (parse_br options).
Proof.
  begin. unfold parse_br. do 4 cstep. match goal with H : in_u 32 _ |- _ => pose proof (proj1 H) end.
  eapply unconditional_stays; [exact Ht|done..|simpl; lia|done|done|done|done].
Qed.

Lemma return_stays : stays (parse_return options).
Proof.
  begin. unfold parse_return, pc_stack_size. do 4 cstep.
  eapply unconditional_stays; [exact Ht|done|done|done|lia|done|done|done|].
  pose proof (wrap_in_u 32 (Z.of_nat (length (pc_stack s)) - 1) ltac:(done)) as Hr. apply Hr.
Qed.

Lemma br_if_stays : stays (parse_br_if options).
Proof.
  begin. unfold parse_br_if. repeat cstep. match goal with H : in_u 32 _ |- _ => pose proof (proj1 H) end.
  match goal with H : turns _ _ g ?x, H2 : tracked _ ?x ?t |- _ =>
    rename H into Hm0, x into g0, H2 into Htk0, t into tr0 end.
  eapply post_depth_change with (G := G) (Φ := Φ) (n := op_index (code_writer s));
    [exact Htk0|done|eapply pcs_typed_scopes; [by eapply turns_scopes|apply Ht]|done|].
  intros d e tr g1 He _ Htk1 Hg1 Hm1 Hj. post_prim. cbn [fst snd].
  assert (Hs1 : same_scopes g g1) by (eapply same_scopes_trans; by eapply turns_scopes).
  eapply post_jump with (g1 := g1); [exact Ht|done|exact Htk1|done|done|done|exact He|].
  intros s2 imm o' Hmid Hi Hcode Henc Ho' Hsame. simpl in Hcode.
  eapply mid_opened; [exact Ht|done|exact Hmid|done|by rewrite Hcode|rewrite Hcode; simpl; lia|].
  intros ts Hts. exists o'. split; [done|].
  eapply cell_typed_mono; [by apply weaker_refl|by intros b ts' _ H'; exact H'|exact Hsame|].
  destruct (turns_cur _ _ _ _ _ Hm0 Hts) as (rest & -> & Hc0). simpl in Hc0. assert (Hc1 := Hc0).
  apply cur_Some in Hc0 as [Ha ->].
  destruct (jump_gets d e _ g0 _ imm (turns_scopes _ _ _ _ Hm1) Ha Hj Henc) as (ts' & Hj' & Hv).
  exists (ops g0), ts'. split_and!; [done| |done|by rewrite noted_new].
  rewrite Hi, extend_next. destruct (turns_cur _ _ _ _ _ Hm1 Hc1) as (rest & E & ->). by rewrite E.
Qed.

(** *** Branch tables *)
Section Table.
Context Φ G s (g1 : list scope) (size : Z).
Local Abbreviation n0 := (op_index (code_writer s)).

(** The first [i] entries are in the table; the operands below the index are those of
    [g1]. *)
Record tabled (i : Z) s2 : Prop := Tabled {
  tb_mid : exists issued G2 g2, mid Φ G s issued G2 g2 s2 /\ g2 <> [] /\
    (forall b, b ∈ issued -> exists j, b = AtCase n0 j /\ 0 <= j < i) /\
    same_scopes g1 g2 /\ (alive g1 = true -> ops g2 = ops g1) /\
    exists table, cell (code_writer s2) n0 = Some (Op.BR_TABLE size table) /\ Z.of_nat (length table) = i /\
      (alive g1 = true -> forall j e, nthZ table j = Some e -> exists ts',
         jumps (Op.elem_stack_pop e) (ops g1) ts' /\ G2 (AtCase n0 j) = Some ts');
  tb_index : op_index (code_writer s2) = n0 + 1 + wrap 32 (size * BitcodeWriter.sizeof_elem / BitcodeWriter.sizeof_opcode + 2)
}.

Lemma tabled_code i p s2 : tabled i s2 -> tabled i (set_code p s2).
Proof.
  intros [(issued & G2 & g2 & [M1 M2 M3 M4 M5 M6 M7 M8] & H) Hi]. split; [|done].
  exists issued, G2, g2. split; [by split|done].
Qed.

(** An entry is read, added, and its jump handled. *)
Lemma post_case label i h (k : Z -> Z -> M W (branch * BitcodeWriter.table_parser))
    (Q : BitcodeWriter.table_parser -> Prop) (R : BitcodeWriter.table_parser -> bstate -> Prop) s2 :
  tabled i s2 -> 0 <= label -> BitcodeWriter.tp_instr h = n0 -> BitcodeWriter.tp_i h = i -> 0 <= i ->
  (forall d rt w, post (k d rt) (fun r w' =>
     r.1 = AtCase (BitcodeWriter.tp_instr h) (BitcodeWriter.tp_i h) /\ Q r.2 /\
     exists pop, BitcodeWriter.encode_depth_change d rt = Ret pop /\ entered_case (BitcodeWriter.tp_instr h) pop w w') w) ->
  (forall s3 h', tabled (i + 1) s3 -> Q h' -> bs_code s3 = bs_code s2 -> R h' s3) ->
  post (compute_depth_change options label) (fun dc s' =>
    post (emits (k dc.1 dc.2)) (fun r s'' => post (handle_branch_target (W := W) label r.1) (fun _ => R r.2) s'') s') s2.
Proof.
  intros [(issued & G2 & g2 & Hmid & Hg2 & Hiss & Hs & Hops & table & Hc & Hlen & Hall) Hix] Hl Hh1 Hh2 Hi Hk HR.
  eapply post_depth_change; [apply Hmid|done|apply Hmid|done|]. intros d e tr g3 He _ Htk3 Hg3 Hm3 Hj. cbn [fst snd].
  assert (Hmid3 : mid Φ G s issued G2 g3 (set_op_stack tr s2)).
  { destruct (turns_scopes _ _ _ _ Hm3) as (v & v' & dd & r & -> & ->). by eapply mid_stack. }
  apply post_emits. eapply post_mono; [apply Hk|]. intros [b h'] w (Hb & HQ & pop & Henc & Hent). simpl in Hb. subst b.
  rewrite Hh1, Hh2 in *. cbn [fst snd].
  pose proof (mid_case _ _ _ _ _ _ _ _ _ _ Hmid3 Hent) as Hmid4.
  eapply post_mono; [by apply handle_branch_post|]. intros [] s4 (e' & Hhd). settle.
  assert (e' = e) as ->.
  { pose proof (hd_label _ _ _ _ _ Hhd) as H. simpl in H. rewrite He in H. by injection H. }
  destruct (ec_cell _ _ _ _ Hent) as (size' & table' & E1 & E2). simpl in E1. rewrite Hc in E1. injection E1 as <- <-.
  destruct (handled_cell _ _ _ _ _ _ _ Hhd E2) as (o' & Ho' & table2 & -> & Hsame).
  apply HR; [|done|by rewrite (hd_code _ _ _ _ _ Hhd)]. split.
  2:{ rewrite (handled_index _ _ _ _ _ Hhd). simpl. by rewrite (ec_index _ _ _ _ Hent). }
  assert (Hfresh : AtCase n0 i ∉ issued) by (intros (j & [= <-] & Hj1)%Hiss; lia).
  eexists _, _, g3.
  split; [eapply mid_jump; [exact Hmid4|exact Hl|exact Hfresh|done|exact Hhd]|]. split_and!; [done| | | |].
  - intros b [->|Hb]%elem_of_cons; [exists i; split; [done|lia]|]. destruct (Hiss b Hb) as (j & -> & ?). exists j. split; [done|lia].
  - eapply same_scopes_trans; [done|by eapply turns_scopes].
  - intros Ha. rewrite <- Hops by done. pose proof (same_scopes_alive _ _ Hs) as Ha2.
    destruct (turns_cur _ _ _ _ (ops g2) Hm3) as (rest & E & Hc3); [apply cur_Some; by rewrite Ha2|].
    apply cur_Some in Hc3 as [_ Hc3]. by rewrite E.
  - exists table2. split_and!; [done| |].
    + apply (f_equal length) in Hsame. rewrite !length_fmap, length_app in Hsame. simpl in Hsame. lia.
    + intros Ha j x Hx. destruct (same_case _ _ _ _ Hsame Hx) as (x0 & Hx0 & ->).
      pose proof (same_scopes_alive _ _ Hs) as Ha2. rewrite Ha in Ha2.
      destruct (nthZ_snoc _ _ _ _ Hx0) as [Hold|[-> ->]].
      * destruct (Hall Ha j x0 Hold) as (ts' & ? & HG). exists ts'. split; [done|].
        rewrite noted_old; [done|]. intros [= ->]. apply nthZ_bounds in Hold. lia.
      * exists (label_of e (drop (S (Z.to_nat label)) g2)). rewrite <- Hops by done. split; [by apply Hj|].
        rewrite Hlen, noted_new. unfold jump_value.
        by rewrite (same_scopes_alive _ _ (turns_scopes _ _ _ _ Hm3)), Ha2, (same_scopes_drop _ _ _ (turns_scopes _ _ _ _ Hm3)).
Qed.

Local Abbreviation cases := (parse_cases (W := W) options).

(** The rest of a turn of [parse_cases], and the next turns *)
Definition after_case (todo : nat) (j rt label : Z) (h : BitcodeWriter.table_parser) :
    M bstate (Z * BitcodeWriter.table_parser) :=
  e ← (pc_at label : M bstate pc_elem);
  let one_result := wrap 8 (label_result (e : pc_elem)) in
  if j =? 0 then cases todo (j + 1) one_result h
  else
    parse_assert (rt =? one_result) "br_table labels must have the same type";;
    cases todo (j + 1) rt h.

(** [todo] more entries, after the cursor [p] *)
Definition more_cases (i : Z) p (todo : nat) (r : Z * BitcodeWriter.table_parser) s3 : Prop :=
  tabled (i + Z.of_nat todo) s3 /\ cursor_ok (bs_code s3) /\ raw_ptr p + Z.of_nat todo <= raw_ptr (bs_code s3) /\
  BitcodeWriter.tp_instr r.2 = n0 /\ BitcodeWriter.tp_i r.2 = i + Z.of_nat todo.

Lemma post_cases todo j rt h i s2 :
  tabled i s2 -> cursor_ok (bs_code s2) -> BitcodeWriter.tp_instr h = n0 -> BitcodeWriter.tp_i h = i -> 0 <= i ->
  post (cases todo j rt h) (more_cases i (bs_code s2) todo) s2.
Proof.
  revert j rt h i s2. induction todo as [|todo IH]; intros j rt h i s2 Ht Hc Hh1 Hh2 Hi; cbn [parse_cases].
  { post_prim. unfold more_cases. rewrite Z.add_0_r. split_and!; [done|done|lia|done|done]. }
  repeat cstep. match goal with H : in_u 32 ?a, H2 : cursor_ok ?p |- _ => rename a into label, p into p; pose proof (proj1 H) as Hl end.
  eapply post_mono.
  { eapply post_case with (k := fun d rt => BitcodeWriter.emit_case d rt h) (h := h) (s2 := set_code p s2)
      (Q := fun h' => BitcodeWriter.tp_instr h' = n0 /\ BitcodeWriter.tp_i h' = i + 1)
      (R := fun h' s3 => post (after_case todo j rt label h') (more_cases (i + 1) p todo) s3);
      [by apply tabled_code|exact Hl|exact Hh1|exact Hh2|exact Hi| |].
    - intros d rt' w. eapply post_mono; [apply emit_case_post|]. intros r w' (-> & -> & -> & Hp).
      rewrite Hh2. split_and!; done.
    - intros s3 h' Ht3 [Hh1' Hh2'] Hcode. simpl in Hcode. subst p.
      assert (Hnext : forall j' rt', post (cases todo j' rt' h') (more_cases (i + 1) (bs_code s3) todo) s3).
      { intros j' rt'. by apply IH; [| | | |lia]. }
      unfold after_case, pc_at. repeat post_prim. destruct (j =? 0); [apply Hnext|]. repeat post_prim. apply Hnext. }
  intros dc s3 P1. post_prim. eapply post_mono; [exact P1|]. intros r s4 P2. apply post_bind.
  eapply post_mono; [exact P2|]. intros [] s5 P3. eapply post_mono; [exact P3|].
  intros r' s6 (Q1 & Q2 & Q3 & Q4 & Q5). split_and!; [|done|lia|done|lia].
  by replace (i + Z.of_nat (S todo)) with (i + 1 + Z.of_nat todo) by lia.
Qed.

Lemma table_fits : in_u 32 size ->
  wrap 32 (size * BitcodeWriter.sizeof_elem / BitcodeWriter.sizeof_opcode + 2) <= size + 2.
Proof.
  unfold in_u, BitcodeWriter.sizeof_elem, BitcodeWriter.sizeof_opcode. intros Hs.
  pose proof (Z.div_mod (size * 8) 24 ltac:(done)). pose proof (Z.mod_pos_bound (size * 8) 24 ltac:(done)).
  pose proof (Z.mod_le (size * 8 / 24 + 2) (2 ^ 32)). unfold wrap. lia.
Qed.

(** The table is complete; the code after it cannot be reached. *)
Lemma table_done g s2 :
  typed Φ G g s -> frame_of (code_writer s) = F -> turns [i32] [] g g1 -> in_u 32 size ->
  tabled (size + 1) s2 -> cursor_ok (bs_code s2) -> start + n0 + 1 + (size + 2) <= raw_ptr (bs_code s2) ->
  post start_unreachable (fun _ s' => opened 0 s') s2.
Proof.
  intros Ht HF Hm Hsz [(issued & G2 & g2 & Hmid & Hg2 & _ & Hs & Hops & table & Hc & Hlen & Hall) Hix] Hcur Hraw.
  destruct g2 as [|sc g2]; [done|]. apply post_on_stack.
  eapply post_mono; [eapply (start_unreachable_tracked _ sc g2); apply Hmid|]. intros [] tr2 Htk2.
  assert (Hmid2 := Hmid). eapply mid_stack with (s2 := set_op_stack tr2 s2) in Hmid2; [|exact Htk2|done|done].
  pose proof (table_fits Hsz).
  eapply mid_opened; [exact Ht|exact HF|exact Hmid2|done|done|cbn; rewrite Hix; lia|].
  intros ts Hts. destruct (turns_cur _ _ _ _ _ Hm Hts) as (rest & -> & [Ha E]%cur_Some). simpl in E. subst rest.
  exists (Op.BR_TABLE size table). split; [done|]. exists (ops g1). split_and!; [done|by destruct Hsz|done|]. by apply Hall.
Qed.
End Table.

Lemma br_table_stays : stays (parse_br_table options).
Proof.
  begin. unfold parse_br_table. repeat cstep.
  match goal with H : turns _ _ g ?x, H2 : tracked _ ?x ?t |- _ =>
    rename H into Hm0, x into g0, H2 into Htk0, t into tr0 end.
  match goal with H : in_u 32 ?a |- _ => rename a into size, H into Hsz end.
  apply post_emits. eapply post_mono; [by apply emit_br_table_post|]. intros h w (Hh1 & Hh2 & [Re1 Re2 Re3 Re4]). settle.
  set (s2 := set_code_writer w _). destruct (BitcodeLaws.table_room size Hsz) as [Hroom _].
  assert (Htab : tabled Φ G s g0 size 0 s2).
  { split; [|done]. exists [], G, g0. pose proof (turns_scopes _ _ _ _ Hm0) as Hs0.
    split; [|split_and!; [done|intros b Hb; by apply elem_of_nil in Hb|by apply same_scopes_refl|done|]].
    - eapply mid_start; [exact Ht|exact Htk0|done|done|simpl; lia|done|done].
    - exists []. split_and!; [done|done|]. intros _ j e He. by rewrite nthZ_nil in He. }
  post_prim. eapply post_mono; [by apply (post_cases Φ G s g0 size) with (i := 0)|].
  intros r s3 (T1 & T2 & T3 & T4 & T5). rewrite Z2Nat.id in * by apply Hsz. subst s2. simpl in T1, T3, T5.
  repeat cstep. match goal with H : in_u 32 ?l, H' : moved _ (bs_code s3) ?q |- _ => rename l into label, q into p'; pose proof (proj1 H) as Hl end.
  eapply post_mono.
  { eapply post_case with (k := fun d rt => BitcodeWriter.emit_default d rt r.2) (h := r.2) (s2 := set_code p' s3)
      (Q := fun _ => True)
      (R := fun _ s4 => post (e ← pc_at label; parse_assert ((size =? 0) || (r.1 =? label_result (e : pc_elem)))
         "br_table labels must have the same type";; start_unreachable) (fun _ s' => opened 0 s') s4);
      [by apply tabled_code|exact Hl|exact T4|exact T5|apply Hsz| |].
    - intros d rt w'. eapply post_mono; [apply emit_default_post|]. intros r' w2 (-> & Hp). by split.
    - intros s4 _ Ht4 _ Hcode. simpl in Hcode. unfold pc_at. repeat post_prim.
      eapply table_done; [exact Ht|exact HF|exact Hm0|exact Hsz|exact Ht4|by rewrite Hcode|rewrite Hcode; lia]. }
  intros dc s4 P1. post_prim. eapply post_mono; [exact P1|]. intros r' s5 P2. apply post_bind. exact P2.
Qed.

(** ** Blocks *)

Lemma is_value_type_ok t : is_value_type options t = true -> value_type t.
Proof.
  unfold is_value_type. intros H. repeat (apply orb_prop in H as [H|H]); destruct_bools; subst; by_compute.
Qed.

Lemma post_block_type msg (R : Z -> bstate -> Prop) s :
  cursor_ok (bs_code s) -> (forall t p, moved 1 (bs_code s) p -> result_type t -> R t (set_code p s)) ->
  post (block_type options msg) R s.
Proof.
  intros Hc HR. unfold block_type. repeat cstep. apply HR; [done|].
  match goal with H : (_ || _) = true |- _ => apply orb_prop in H as [H|H] end.
  - right. by apply is_value_type_ok.
  - left. by apply Z.eqb_eq.
Qed.

Lemma post_on_control (R : unit -> bstate -> Prop) s :
  (forall n, R tt (set_nested_checker n s)) -> post (on_control_ options) R s.
Proof. intros HR. unfold on_control_. repeat post_prim. apply HR. Qed.

Lemma post_depth (R : Z -> bstate -> Prop) s :
  R (operand_depth (op_stack s)) s -> post (on_stack Tracker.depth) R s.
Proof. intros HR. apply post_on_stack. unfold Tracker.depth. post_prim. by destruct s. Qed.

Lemma post_push_scope low g (R : unit -> bstate -> Prop) s :
  tracked low g (op_stack s) ->
  (forall tr, tracked low (Scope [] false :: g) tr -> R tt (set_op_stack tr s)) ->
  post (on_stack Tracker.push_scope) R s.
Proof.
  intros Htk HR. apply post_on_stack. eapply post_mono; [by apply push_scope_tracked|]. intros [] tr H. by apply HR.
Qed.

(** A block starts, without a cell. *)
Lemma block_opened Φ G g s s' (e : pc_elem) :
  typed Φ G g s -> frame_of (code_writer s) = F -> cursor_ok (bs_code s') ->
  start + op_index (code_writer s) <= raw_ptr (bs_code s') ->
  tracked (maximum_operand_depth (op_stack s)) (Scope [] false :: g) (op_stack s') ->
  pc_stack s' = e :: pc_stack s -> code_writer s' = code_writer s ->
  (forall Φ', weaker Φ Φ' -> Φ' (op_index (code_writer s)) = cur g ->
     pc_typed fr Φ' G (op_index (code_writer s)) e g) ->
  opened 0 s'.
Proof.
  intros Ht HF Hc Hraw Htk Hpc Hw He.
  assert (Hcur : cur (Scope [] false :: g) = cur g) by done.
  exists (extend Φ (op_index (code_writer s')) (cur (Scope [] false :: g))), G, (Scope [] false :: g).
  split; [|split_and!; [done|done|rewrite Hw; lia|by rewrite Hw]].
  assert (Hweak : weaker Φ (extend Φ (op_index (code_writer s)) (cur g))).
  { eapply extend_weaker; [done|lia|]. intros _ ts H. exact H. }
  eapply typed_step; [exact Ht|..]; rewrite ?Hw, ?Hcur; try done; [| | |].
  - rewrite Hpc. constructor; [apply He; [done|apply extend_next]|]. eapply pcs_typed_mono; [done|reflexivity|done|apply Ht].
  - intros i o Hi Ho. exists o. split; [done|apply same_but_target_refl].
  - lia.
  - intros b ts Hb. destruct (ty_jump _ _ _ _ _ _ _ Ht b ts Hb) as [Hlt Hj]. split; [done|]. rewrite Hpc.
    destruct Hj as [(e' & l & He' & ?)|Hj]; [left; exists e', l; split; [by right|done]|right].
    eapply fixed_mono; [done|reflexivity|done|done|done].
Qed.

Lemma block_stays : stays (parse_block options).
Proof.
  begin. unfold parse_block. post_prim. apply post_block_type; [done|]. intros t p Hp Hty. settle. post_prim.
  apply post_depth. unfold push_pc. repeat cstep. apply post_emits, post_ret. repeat cstep.
  eapply post_push_scope; [exact Htk|]. intros tr Htk'. settle. apply post_on_control. intros k.
  eapply block_opened; [exact Ht|exact HF|done|simpl; lia|exact Htk'|reflexivity|reflexivity|].
  intros Φ' _ _. split; simpl; [apply Htk|done|done|]. split_and!; [done|done|]. intros j b Hj. by rewrite lookup_nil in Hj.
Qed.

Lemma loop_stays : stays (parse_loop_instr options).
Proof.
  begin. unfold parse_loop_instr. post_prim. apply post_block_type; [done|]. intros t p Hp Hty. settle. post_prim.
  apply post_emits, post_gets. repeat cstep. apply post_depth. unfold push_pc. repeat cstep.
  eapply post_push_scope; [exact Htk|]. intros tr Htk'. settle. apply post_on_control. intros k.
  eapply block_opened; [exact Ht|exact HF|done|simpl; lia|exact Htk'|reflexivity|reflexivity|].
  intros Φ' _ Hn. split; simpl; [apply Htk|done|done|]. split_and!; [done|done|done|lia|done|].
  intros Ha. rewrite Hn. apply cur_Some. by split.
Qed.

(** A block starts with a jump [b] in its list, waiting for its end or its [else]. *)
Lemma mid_block Φ G s s2 (e : pc_elem) (es : list pc_elem) below b (l : list branch) v :
  tracked (maximum_operand_depth (op_stack s)) (Scope [] false :: below) (op_stack s2) ->
  op_index (code_writer s) < op_index (code_writer s2) -> frame_of (code_writer s2) = frame_of (code_writer s) ->
  (forall i o, i < op_index (code_writer s) -> cell (code_writer s) i = Some o ->
     exists o', cell (code_writer s2) i = Some o' /\ same_but_target o o') ->
  pc_stack s2 = e :: es -> relocations e = inr (b :: l) -> cell_of b = op_index (code_writer s) ->
  pcs_typed fr Φ G (op_index (code_writer s)) es below ->
  pc_typed fr Φ (noted G b v) (op_index (code_writer s2)) e below ->
  (forall b', b' ∈ l -> cell_of b' < op_index (code_writer s)) ->
  (forall b' ts, G b' = Some ts -> b' <> b -> cell_of b' < op_index (code_writer s) /\
     (waiting es b' \/ b' ∈ l \/ fixed Φ (op_index (code_writer s2)) (code_writer s2) b' ts)) ->
  mid Φ G s [b] (noted G b v) (Scope [] false :: below) s2.
Proof.
  intros Htk Hn Hf Hc Hpc He Hb Hes Hpe Hl Hj.
  assert (Hwait : forall b', waiting (pc_stack s2) b' <-> waiting es b' \/ b' ∈ b :: l).
  { intros b'. rewrite Hpc. split.
    - intros (x & lx & [->|Hx]%elem_of_cons & Hr & Hb'); [right; congruence|left; by exists x, lx].
    - intros [(x & lx & Hx & Hr)|Hb']; [exists x, lx; split; [by right|done]|]. exists e, (b :: l). split; [by left|done]. }
  assert (Hold : forall b', cell_of b' < op_index (code_writer s) -> noted G b v b' = G b').
  { intros b' Hb'. apply noted_old. intros ->. lia. }
  split; try done.
  - rewrite Hpc. constructor; [done|]. eapply pcs_typed_mono; [apply weaker_refl| |done|exact Hes]. lia.
  - intros b' [Hw|[->|Hb']%elem_of_cons]%Hwait; [left; by eapply pcs_waiting|right; by left|left; by apply Hl].
  - intros b' ts. destruct (decide (b' = b)) as [->|Hne].
    + intros _. split; [lia|]. left. apply Hwait. right. by left.
    + rewrite noted_old by done. intros Hts. destruct (Hj b' ts Hts Hne) as [? Hj']. split; [lia|].
      destruct Hj' as [?|[?|?]]; [left; apply Hwait; by left|left; apply Hwait; right; by right|by right].
Qed.

Lemma if_stays : stays (parse_if options).
Proof.
  begin. unfold parse_if. repeat cstep. apply post_block_type; [done|]. intros t p Hp Hty. settle. repeat cstep.
  apply post_emits. eapply post_mono; [by apply emit_if_post|]. intros b w (-> & [Ai Ar Af Ac Ao]). repeat cstep.
  match goal with H : turns _ _ g ?x, H2 : tracked _ ?x ?t |- _ =>
    rename H into Hm, x into g1, H2 into Htk1, t into tr1 end.
  apply post_depth. unfold push_pc. repeat cstep.
  eapply post_push_scope; [exact Htk1|]. intros tr Htk'. settle. apply post_on_control. intros k.
  set (s2 := set_nested_checker k _). pose proof (turns_scopes _ _ _ _ Hm) as Hsc.
  assert (Hpcs : pcs_typed fr Φ G (op_index (code_writer s)) (pc_stack s) g1) by (eapply pcs_typed_scopes; [done|apply Ht]).
  assert (Hmid : mid Φ G s [AtInstr (op_index (code_writer s))]
    (noted G (AtInstr (op_index (code_writer s))) (cur g1)) (Scope [] false :: g1) s2).
  { eapply mid_block with (l := []); try done; [simpl; lia| | | |].
    - intros i o Hi Ho. exists o. split; [simpl; rewrite Ao by lia; done|apply same_but_target_refl].
    - split; simpl; [apply Htk1|done|done|]. split_and!; [done|done|]. intros [|j] b Hb; [|done]. injection Hb as <-.
      split; [simpl; lia|]. rewrite noted_new. unfold cur. destruct (alive g1); [|done]. by intros ts [= <-].
    - intros b' Hb'. by apply elem_of_nil in Hb'.
    - intros b' ts Hb Hne. destruct (ty_jump _ _ _ _ _ _ _ Ht b' ts Hb) as [Hlt Hj]. split; [done|].
      destruct Hj as [?|Hj]; [by left|right; right]. eapply fixed_mono; [apply weaker_refl| |exact Af| |exact Hj]; [simpl; lia|].
      apply target_same. simpl. apply Ao. lia. }
  eapply mid_opened; [exact Ht|exact HF|exact Hmid|done|done|simpl; lia|].
  intros ts Hts. exists (BitcodeWriter.control Op.if_). split; [done|].
  destruct (turns_cur _ _ _ _ _ Hm Hts) as (rest & -> & Hc1). simpl in Hc1. exists rest. split_and!; [done| |].
  - simpl. rewrite Ai, extend_next. exact Hc1.
  - by rewrite noted_new.
Qed.

Lemma pcs_typed_cons Φ G n (e : pc_elem) (es : list pc_elem) g :
  pcs_typed fr Φ G n (e :: es) g ->
  exists sc r, g = sc :: r /\ pc_typed fr Φ G n e r /\ pcs_typed fr Φ G n es r.
Proof. intros H. inversion H; subst. by do 2 eexists. Qed.

(** The result of a block that ends is on top, alone in its scope. *)
Lemma post_pop_result low t sc r (R : unit -> bstate -> Prop) s :
  tracked low (sc :: r) (op_stack s) -> result_type t ->
  (forall tr sc', tracked low (sc' :: r) tr -> turns (label_types t) [] (sc :: r) (sc' :: r) -> R tt (set_op_stack tr s)) ->
  post (pop_expected options t) R s.
Proof.
  intros Htk Ht HR. apply post_on_stack. eapply post_mono; [by apply (pop_result_tracked options low sc r)|].
  intros [] tr (sc' & H1 & H2). by eapply HR.
Qed.
Lemma post_pop_scope low t sc r (R : unit -> bstate -> Prop) s :
  tracked low (sc :: r) (op_stack s) -> result_type t ->
  (forall tr, (alive (sc :: r) = true -> vals sc = label_types t) ->
     match r with
     | [] => Z.max low (Z.of_nat (length (label_types t))) <= maximum_operand_depth tr < 2 ^ 32
     | s1 :: r1 => tracked low (Scope (label_types t ++ vals s1) (dead s1) :: r1) tr
     end -> R tt (set_op_stack tr s)) ->
  post (pop_scope options t) R s.
Proof.
  intros Htk Ht HR. apply post_on_stack. eapply post_mono; [by apply (pop_scope_tracked options low sc r)|].
  intros [] tr [H1 H2]. by apply HR.
Qed.

(** The jump of [else], and the jump of its [if] directed behind it *)
Lemma mid_else Φ G sc r s (old : pc_elem) (es : list pc_elem) first (l : list branch) s2 w1 w2 :
  let n := op_index (code_writer s) in
  let g' := Scope [] false :: r in
  let new := PcElement (W := W) (pe_operand_depth old) (expected_result old) (label_result old) false
    (inr (AtInstr n :: l)) in
  let v := if alive (sc :: r) then Some (label_of old r) else None in
  typed Φ G (sc :: r) s -> pc_stack s = old :: es -> relocations old = inr (first :: l) -> is_if old = true ->
  appended (BitcodeWriter.control Op.else_) (code_writer s) w1 ->
  directed first (wrap 32 (_base_offset (code_writer s) + (n + 1))) w1 w2 ->
  tracked (maximum_operand_depth (op_stack s)) g' (op_stack s2) -> pc_stack s2 = new :: es -> code_writer s2 = w2 ->
  mid (extend Φ (n + 1) (cur g')) G s [AtInstr n] (noted G (AtInstr n) v) g' s2.
Proof.
  intros n g' new v Ht Hpc Hr Hif [Ai Ar Af Ac Ao] [D1 D2 D3 D4 D5] Htk Hpc2 <-.
  pose proof (ty_pcs _ _ _ _ _ _ _ Ht) as Hpcs. rewrite Hpc in Hpcs. fold n in Hpcs.
  apply pcs_typed_cons in Hpcs as (? & ? & [= <- <-] & Hold & Hes).
  assert (Hw : weaker Φ (extend Φ (n + 1) (cur g'))) by (eapply extend_weaker; [exact Ht|unfold n; lia|unfold n; lia]).
  assert (Hn' : op_index (code_writer s2) = n + 1) by (unfold n; lia).
  destruct Hold as [P1 P2 P3 P4]. rewrite Hr in P4. destruct P4 as (Q1 & _ & Q3).
  eapply mid_block with (e := new) (l := l); try done; [lia|congruence| | | | |].
  - intros i o Hi Ho. apply D5. rewrite Ao; [done|]. unfold n. lia.
  - eapply pcs_typed_mono; [exact Hw|reflexivity| |exact Hes]. done.
  - rewrite Hn'. split; simpl; [done|done|by intros E; destruct (P3 E)|]. split_and!; [done|done|].
    intros [|j] b Hb; simpl in Hb.
    + injection Hb as <-. split; [simpl; lia|]. rewrite noted_new. unfold v. destruct (alive (sc :: r)) eqn:Ea; [|done].
      intros ts [= <-]. by apply alive_tail in Ea.
    + destruct (Q3 (S j) b Hb) as [Hlt Hts]. split; [lia|]. rewrite noted_old by (intros ->; simpl in Hlt; lia).
      intros ts HG. destruct (Hts ts HG) as [? ->]. split; [done|]. unfold waits_for. by rewrite andb_false_r.
  - intros b (j & Hj)%list_elem_of_lookup. apply (Q3 (S j) b Hj).
  - intros b ts HG Hne. destruct (ty_jump _ _ _ _ _ _ _ Ht b ts HG) as [Hlt Hj]. split; [done|]. fold n in Hlt.
    destruct (decide (b = first)) as [->|Hnf].
    + right; right. destruct (Q3 0%nat first eq_refl) as [_ Hts]. destruct (Hts ts HG) as [Ha ->].
      exists (n + 1). split_and!; [unfold n; pose proof (ty_index _ _ _ _ _ _ _ Ht); lia|lia| |].
      * by rewrite D3, (frame_base (code_writer s) (code_writer s2) ltac:(congruence)).
      * rewrite extend_next. unfold waits_for. rewrite Hif. by apply cur_Some.
    + destruct Hj as [(e' & l' & He' & Hr' & Hb)|Hj].
      * rewrite Hpc in He'. apply elem_of_cons in He' as [->|He']; [|left; by exists e', l'].
        right; left. rewrite Hr in Hr'. injection Hr' as <-. by apply elem_of_cons in Hb as [?|?].
      * right; right. eapply fixed_mono; [exact Hw| | | |exact Hj]; [lia|congruence|].
        rewrite D4 by done. apply target_same. apply Ao. unfold n in Hlt. lia.
Qed.

Lemma post_back (R : pc_elem -> bstate -> Prop) s :
  (forall (e : pc_elem) (es : list pc_elem), pc_stack s = e :: es -> R e s) -> post (pc_back (W := W)) R s.
Proof.
  intros HR. unfold pc_back. repeat post_prim. destruct (pc_stack s) as [|e es] eqn:E; [done|].
  match goal with H : or_UB _ _ = Ret _ |- _ => injection H as <- end. by eapply HR.
Qed.

Lemma else_stays : stays (parse_else options).
Proof.
  begin. unfold parse_else. repeat cstep. apply post_back. intros old es Hpc. repeat cstep.
  rename H into Hif. destruct (relocations old : Z + list branch) as [k|[|first l]] eqn:Hr;
    [done|done|]. match goal with H : Ret _ = Ret ?x |- _ => injection H as <- end. cbn [fst snd].
  pose proof (ty_pcs _ _ _ _ _ _ _ Ht) as Hpcs. rewrite Hpc in Hpcs.
  destruct (pcs_typed_cons _ _ _ _ _ _ Hpcs) as (sc & r & -> & Hold & Hes). destruct Hold as [P1 P2 P3 P4].
  rewrite Hr in P4. destruct P4 as (Q1 & _ & _).
  destruct r as [|s1 r1]; [destruct (P3 eq_refl); congruence|].
  eapply post_pop_result; [exact Htk|exact P2|]. intros tr1 sc1 Htk1 Hm1. post_prim. settle.
  eapply post_pop_scope; [exact Htk1|by left|]. intros tr2 Hv2 Htk2. post_prim. settle. destruct s1 as [v1 d1].
  eapply post_push_scope; [exact Htk2|]. intros tr3 Htk3. settle. post_prim.
  apply post_emits. eapply post_mono; [by apply emit_else_post|]. intros b w2 (-> & w1 & Happ & Hdir). repeat cstep.
  apply post_on_control. intros k.
  set (s2 := set_nested_checker k _).
  pose proof (mid_else Φ G sc (Scope v1 d1 :: r1) s old es first l s2 w1 w2 Ht Hpc Hr Hif Happ Hdir Htk3
    ltac:(simpl; by rewrite Hpc) eq_refl) as Hmid.
  assert (Hn' : op_index (code_writer s2) = op_index (code_writer s) + 1).
  { simpl. rewrite (di_index _ _ _ _ Hdir). apply Happ. }
  rewrite <- Hn' in Hmid.
  eapply mid_opened_next; [exact Ht|exact HF|exact Hmid|done|done|rewrite Hn'; simpl; lia|].
  intros ts [Ha ->]%cur_Some. destruct (di_cells _ _ _ _ Hdir _ _ (ap_cell _ _ _ Happ)) as (o' & Ho' & Hsame).
  exists o'. split; [done|]. eapply cell_typed_mono; [apply weaker_refl|by intros b ts' _ H; exact H|exact Hsame|].
  simpl. rewrite noted_new, Ha. unfold label_of. rewrite Q1. f_equal. rewrite (ops_cons sc). f_equal.
  rewrite <- (turns_alive _ _ _ _ Hm1) in Ha. specialize (Hv2 Ha). rewrite (turns_alive _ _ _ _ Hm1) in Ha.
  destruct Hm1 as (v & v' & d & r & [= -> <-] & [= ->] & Hal). destruct (Hal Ha) as (rest & -> & ->).
  simpl in Hv2. subst rest. simpl. by rewrite app_nil_r.
Qed.

(** ** The end of a block *)

(** The jumps [l] are directed to [pc]. *)
Record all_directed (l : list branch) (pc : Z) w w' : Prop := AllDirected {
  ad_index : op_index w' = op_index w;
  ad_frame : frame_of w' = frame_of w;
  ad_targets b : b ∈ l -> target (cell w') b = Some pc;
  ad_others b : b ∉ l -> target (cell w') b = target (cell w) b;
  ad_cells j o : cell w j = Some o -> exists o', cell w' j = Some o' /\ same_but_target o o'
}.

Lemma all_directed_nil pc w : all_directed [] pc w w.
Proof.
  split; [done|done|by intros b Hb%elem_of_nil|done|]. intros j o Ho. exists o. split; [done|apply same_but_target_refl].
Qed.
Lemma all_directed_cons b l pc w w1 w2 :
  directed b pc w w1 -> all_directed l pc w1 w2 -> all_directed (b :: l) pc w w2.
Proof.
  intros [D1 D2 D3 D4 D5] [A1 A2 A3 A4 A5]. split; [congruence|congruence| | |].
  - intros b' Hb'. destruct (decide (b' ∈ l)) as [?|Hl]; [by apply A3|]. rewrite A4 by done.
    by apply elem_of_cons in Hb' as [->|?].
  - intros b' [Hb' Hl]%not_elem_of_cons. by rewrite A4, D4.
  - intros j o Ho. destruct (D5 j o Ho) as (o1 & Ho1 & H1). destruct (A5 j o1 Ho1) as (o2 & Ho2 & H2).
    exists o2. split; [done|]. by eapply same_but_target_trans.
Qed.

Lemma post_fix_all (l : list branch) k (R : unit -> bstate -> Prop) s :
  (forall w, all_directed l (wrap 32 (_base_offset (code_writer s) + k)) (code_writer s) w -> R tt (set_code_writer w s)) ->
  post (eachM (fun b => emits (BitcodeWriter.fix_branch b k)) l) R s.
Proof.
  revert s R. induction l as [|b l IH]; intros s R HR; cbn [eachM].
  - post_prim. assert (E : set_code_writer (code_writer s) s = s) by by destruct s.
    rewrite <- E. apply HR, all_directed_nil.
  - post_prim. apply post_emits. eapply post_mono; [apply fix_branch_post|]. intros [] w1 Hd. apply IH.
    intros w2 Ha. cbn in Ha. rewrite (frame_base _ _ (di_frame _ _ _ _ Hd)) in Ha.
    apply (HR w2). by eapply all_directed_cons.
Qed.

Section End_.
Context Φ G (sc : scope) (r : list scope) s (e : pc_elem) (es : list pc_elem) (w : W).
Local Abbreviation n0 := (op_index (code_writer s)).
Context (Ht : typed Φ G (sc :: r) s) (Hpc : pc_stack s = e :: es).
Context (Hif : is_if e = true -> expected_result e = pseudo).
Context (Hvals : alive (sc :: r) = true -> vals sc = label_types (expected_result e)).
Context (Hfix : all_directed (match (relocations e : Z + list branch) with inr l => l | inl _ => [] end)
  (wrap 32 (_base_offset (code_writer s) + n0)) (code_writer s) w).

(** What is left after the block *)
Definition left_by : option (list Z) :=
  if alive r then Some (label_types (expected_result e) ++ ops r) else None.
Local Abbreviation Φ' := (extend Φ n0 left_by).

Lemma end_label : pc_typed fr Φ G n0 e r /\ pcs_typed fr Φ G n0 es r.
Proof.
  pose proof (ty_pcs _ _ _ _ _ _ _ Ht) as H. rewrite Hpc in H.
  by apply pcs_typed_cons in H as (? & ? & [= <- <-] & ? & ?).
Qed.

Lemma end_falls ts : cur (sc :: r) = Some ts -> left_by = Some ts.
Proof.
  intros [Ha ->]%cur_Some. unfold left_by. rewrite (alive_tail _ _ Ha), ops_cons, (Hvals Ha). done.
Qed.
Lemma end_weaker : weaker Φ Φ'.
Proof. eapply extend_weaker; [exact Ht|lia|]. intros _. apply end_falls. Qed.

Lemma end_jump b ts : G b = Some ts -> cell_of b < n0 /\ (waiting es b \/ fixed Φ' n0 w b ts).
Proof.
  intros HG. destruct (ty_jump _ _ _ _ _ _ _ Ht b ts HG) as [Hlt Hj]. split; [done|].
  destruct end_label as [[P1 P2 P3 P4] _]. destruct Hfix as [A1 A2 A3 A4 A5].
  assert (Hlisted : forall l, (relocations e : Z + list branch) = inr l -> b ∈ l -> fixed Φ' n0 w b ts).
  { intros l Hr Hb. rewrite Hr in *. destruct P4 as (Q1 & Q2 & Q3). exists n0.
    split_and!; [apply Ht|lia|by rewrite A3, (frame_base _ _ A2)|].
    apply list_elem_of_lookup in Hb as [j Hb]. destruct (Q3 j b Hb) as [_ Hts]. destruct (Hts ts HG) as [Ha ->].
    rewrite extend_next. unfold left_by, waits_for, label_of. rewrite Ha, Q1. do 2 f_equal.
    destruct (is_if e) eqn:Ei; simpl; [|done]. rewrite (Hif eq_refl). by destruct (j =? 0)%nat. }
  destruct Hj as [(e' & l & He' & Hr & Hb)|Hj].
  - rewrite Hpc in He'. apply elem_of_cons in He' as [->|He']; [right; by eapply Hlisted|left; by exists e', l].
  - right. destruct (relocations e : Z + list branch) as [k|l] eqn:Hr.
    + eapply fixed_mono; [apply end_weaker|reflexivity|exact A2| |exact Hj]. by apply A4, not_elem_of_nil.
    + destruct (decide (b ∈ l)); [by eapply Hlisted|].
      eapply fixed_mono; [apply end_weaker|reflexivity|exact A2| |exact Hj]. by apply A4.
Qed.

Lemma end_cells i ts : i < n0 -> Φ i = Some ts ->
  exists o, cell w i = Some o /\ cell_typed m locals Φ' (fun b ts => G b = Some ts) i o ts.
Proof.
  intros Hi HΦ. destruct (ty_cell _ _ _ _ _ _ _ Ht i ts Hi HΦ) as (o & Ho & Hty).
  destruct (ad_cells _ _ _ _ Hfix i o Ho) as (o' & Ho' & Hsame). exists o'. split; [done|].
  eapply cell_typed_mono; [apply end_weaker|by intros b ts' _ H; exact H|exact Hsame|exact Hty].
Qed.
End End_.

(** The code of a body that is complete: [n] cells, whose jumps are all directed *)
Record code_typed Φ (n depth : Z) w : Prop := CodeTyped {
  ct_start : Φ 0 = Some [];
  ct_index : 0 <= n;
  ct_range i ts : Φ i = Some ts -> 0 <= i <= n /\ Z.of_nat (length ts) <= depth;
  ct_cell i ts : i < n -> Φ i = Some ts ->
    exists o, cell w i = Some o /\ cell_typed m locals Φ (fixed Φ n w) i o ts;
  ct_end ts : Φ n = Some ts -> ts = label_types fr
}.
Definition finished s : Prop :=
  pc_stack s = [] /\ start + op_index (code_writer s) + 1 <= raw_ptr (bs_code s) /\
  frame_of (code_writer s) = F /\ maximum_operand_depth (op_stack s) < 2 ^ 32 /\
  exists Φ, code_typed Φ (op_index (code_writer s)) (maximum_operand_depth (op_stack s)) (code_writer s).

Section End_states.
Context Φ G (sc : scope) (r : list scope) s (e : pc_elem) (es : list pc_elem) (w : W) (tr : tracker).
Local Abbreviation n0 := (op_index (code_writer s)).
Context (Ht : typed Φ G (sc :: r) s) (HF : frame_of (code_writer s) = F) (Hpc : pc_stack s = e :: es).
Context (Hif : is_if e = true -> expected_result e = pseudo).
Context (Hvals : alive (sc :: r) = true -> vals sc = label_types (expected_result e)).
Context (Hfix : all_directed (match (relocations e : Z + list branch) with inr l => l | inl _ => [] end)
  (wrap 32 (_base_offset (code_writer s) + n0)) (code_writer s) w).
Local Abbreviation s' := (set_pc_stack es (set_op_stack tr (set_code_writer w s))).

(** A block inside the function *)
Lemma end_opened sc1 r1 :
  r = sc1 :: r1 -> cursor_ok (bs_code s) -> start + n0 <= raw_ptr (bs_code s) ->
  tracked (maximum_operand_depth (op_stack s))
    (Scope (label_types (expected_result e) ++ vals sc1) (dead sc1) :: r1) tr ->
  opened 0 s'.
Proof.
  intros -> Hc Hraw Htk. set (g' := Scope _ _ :: r1) in *.
  assert (Hcur : cur g' = left_by (sc1 :: r1) e).
  { unfold cur, left_by, g'. rewrite !alive_cons, !ops_cons. simpl. by rewrite app_assoc. }
  exists (extend Φ n0 (cur g')), G, g'. rewrite Hcur.
  split; [|split_and!; [done|done|simpl; rewrite (ad_index _ _ _ _ Hfix); lia|simpl; by rewrite (ad_frame _ _ _ _ Hfix)]].
  pose proof (end_weaker _ _ _ _ _ _ Ht Hvals) as Hw.
  pose proof (ad_index _ _ _ _ Hfix) as Hi.
  assert (H : typed (extend Φ (op_index (code_writer s')) (cur g')) G g' s'); [|by cbn in H; rewrite Hi, Hcur in H].
  eapply typed_step; [exact Ht|exact Htk|..]; cbn [code_writer pc_stack op_stack set_pc_stack set_op_stack set_code_writer];
    rewrite ?Hi, ?Hcur; [lia| |done| | | |].
  - intros _ ts. by apply end_falls.
  - destruct (end_label _ _ _ _ _ _ _ Ht Hpc) as [_ Hes]. eapply pcs_typed_scopes; [|eapply pcs_typed_mono; [exact Hw|reflexivity| |exact Hes]; done].
    by destruct sc1; do 4 eexists.
  - intros i o Hlt Ho. by eapply ad_cells.
  - lia.
  - intros b ts. by apply (end_jump _ _ _ _ _ _ _ _ Ht Hpc Hif Hvals Hfix).
Qed.

(** The function *)
Lemma end_finished :
  r = [] -> cursor_ok (bs_code s) -> start + n0 + 1 <= raw_ptr (bs_code s) ->
  Z.max (maximum_operand_depth (op_stack s)) (Z.of_nat (length (label_types (expected_result e))))
    <= maximum_operand_depth tr < 2 ^ 32 -> finished s'.
Proof.
  intros Hr Hc Hraw Hmax. destruct (end_label _ _ _ _ _ _ _ Ht Hpc) as [[P1 P2 P3 P4] Hes].
  destruct (P3 Hr) as [Hfr _].
  assert (Hes' : es = []) by (rewrite Hr in Hes; by inversion Hes).
  assert (Hexp : expected_result e = fr).
  { destruct (relocations e : Z + list branch); [by destruct P4 as (_ & _ & _ & ? & _)|]. destruct P4 as [<- _]. done. }
  assert (Hleft : left_by r e = Some (label_types fr)) by (unfold left_by; rewrite Hr, Hexp; simpl; by rewrite app_nil_r).
  pose proof (ad_index _ _ _ _ Hfix) as Hi. pose proof (end_weaker _ _ _ _ _ _ Ht Hvals) as Hw.
  unfold finished. cbn [code_writer pc_stack op_stack bs_code set_pc_stack set_op_stack set_code_writer].
  rewrite Hi. split_and!; [done|done|by rewrite (ad_frame _ _ _ _ Hfix)|lia|].
  exists (extend Φ n0 (left_by r e)). split.
  - apply Hw, Ht.
  - apply Ht.
  - intros i ts. unfold extend. destruct (Z.eqb_spec i n0) as [->|Hne].
    + rewrite Hleft. intros [= <-]. split; [pose proof (ty_index _ _ _ _ _ _ _ Ht); lia|].
      rewrite <- Hexp. lia.
    + destruct (Z.ltb_spec i n0); [|done]. intros HΦ. destruct (ty_range _ _ _ _ _ _ _ Ht i ts HΦ). lia.
  - intros i ts Hlt. unfold extend at 1. destruct (Z.eqb_spec i n0); [lia|]. destruct (Z.ltb_spec i n0); [|done].
    intros HΦ. destruct (end_cells _ _ _ _ _ _ _ Ht Hvals Hfix i ts Hlt HΦ) as (o & Ho & Hty). exists o. split; [done|].
    eapply cell_typed_mono; [apply weaker_refl| |apply same_but_target_refl|exact Hty].
    intros b ts' _ HG. destruct (end_jump _ _ _ _ _ _ _ _ Ht Hpc Hif Hvals Hfix b ts' HG) as [_ [Hwt|?]]; [|done].
    rewrite Hes' in Hwt. destruct Hwt as (? & ? & Hx & _). by apply elem_of_nil in Hx.
  - intros ts. rewrite extend_next, Hleft. by intros [= <-].
Qed.
End End_states.

Lemma exit_scope_post s :
  opened 1 s -> post (exit_scope options) (fun _ s' =>
    bs_code s' = bs_code s /\ (pc_stack s' <> [] /\ opened 0 s' \/ finished s')) s.
Proof.
  revert s. begin. unfold exit_scope, pc_stack_size. repeat cstep. apply post_back. intros e es Hpc. repeat cstep.
  pose proof (ty_pcs _ _ _ _ _ _ _ Ht) as Hpcs. rewrite Hpc in Hpcs.
  destruct (pcs_typed_cons _ _ _ _ _ _ Hpcs) as (sc & r & -> & Hpt & Hes). pose proof (pt_expected _ _ _ _ _ _ Hpt) as Hexp.
  assert (Hif : is_if e = true -> expected_result e = pseudo).
  { intros E. match goal with H : (_ || _) = true |- _ => rewrite E in H; by apply Z.eqb_eq in H end. }
  apply post_emits, post_gets. post_prim.
  eapply post_mono with (Q := fun _ s1 => exists w, s1 = set_code_writer w s /\
    all_directed (match (relocations e : Z + list branch) with inr l => l | inl _ => [] end)
      (wrap 32 (_base_offset (code_writer s) + op_index (code_writer s))) (code_writer s) w).
  { assert (E : set_code_writer (code_writer s) s = s) by by destruct s. rewrite E.
    destruct (relocations e : Z + list branch) as [k|l] eqn:Hr.
    - apply post_ret. exists (code_writer s). split; [done|apply all_directed_nil].
    - apply post_fix_all. intros w Hw. by exists w. }
  intros [] s1 (w & -> & Hfix). post_prim. eapply post_pop_scope; [exact Htk|exact Hexp|].
  intros tr Hvals Htk'. post_prim. cbn. rewrite Hpc. split; [done|]. destruct r as [|sc1 r1].
  - right. by eapply (end_finished Φ G sc [] s e es w tr).
  - left. split.
    + destruct es; [inversion Hes|done].
    + eapply (end_opened Φ G sc (sc1 :: r1) s e es w tr); try done. lia.
Qed.

Lemma end_post bounds s :
  Opt.allow_code_after_function_end options = false -> opened 1 s ->
  post (parse_end options bounds) (fun _ s' =>
    opened 0 s' \/ finished s' /\ GuardedPtr.offset (bs_code s') = bounds) s.
Proof.
  intros Hopt Hs. unfold parse_end, pc_stack_size. post_prim. apply post_in_bounds. post_prim.
  eapply post_mono; [by apply exit_scope_post|]. intros [] s1 [Hcode H]. repeat post_prim.
  destruct H as [[_ (Φ & G & g & Ht & H)]|(Hpc & H)].
  - left. exists Φ, G, g. split; [|exact H]. by destruct Ht as [T1 T2 T3 T4 T5 T6 T7 T8].
  - right. rewrite Hopt, Hpc in *. simpl in *. destruct_bools. split; [by split|done].
Qed.
End Control.
