(* ===== verification/CompiledLoop.v ===== *)
(** * A function body is compiled to well-typed code (parser.hpp,
    [parse_function_body_code])

    One turn of the loop, the loop, and the whole body: what the interpreter's writer
    holds at the end is typed. *)
From S2P Require Import Prelude GuardedPtr Leb128 Allocator Opcodes Types OpSigs Validation Writers FunctionBody Parser ReaderProofs WriterLaws BodySafety ContextProofs OpTypes CodeTyping TrackerTypes WriterEffects CompiledBody CompiledInstrs CompiledJumps CompiledControl.
Import Op(opcode).
Import BitcodeWriter(branch, AtInstr, AtCase, op_index, fb, _base_offset).

Section Loop.
Context `{sys : Sys} (options : Opt.t) (m : module) (_datacount : option Z) (type_aliases : list Z)
  (lt : local_types_t) (locals : list Z) (fr : Z) (F : Growable.t * Z * Z * Z * list opcode * Z * Z) (start : Z).
Local Abbreviation W := BitcodeWriter.t.
Local Abbreviation bstate := (body_state (W := W)).
Implicit Types (s : bstate) (w : W).
Local Abbreviation opened := (opened m locals fr F start).
Local Abbreviation stays := (stays m locals fr F start).
Local Abbreviation finished := (finished m locals fr F start).
Context (cx : body_context m type_aliases lt locals).
Context (Hend : Opt.allow_code_after_function_end options = false).

(** A turn leaves the body open, or it was the last one. *)
Definition turn (bounds : Z) (k : M bstate unit) : Prop := forall s, opened 1 s ->
  post k (fun _ s' => opened 0 s' \/ finished s' /\ GuardedPtr.offset (bs_code s') = bounds) s.

Lemma stays_turn bounds k : stays k -> turn bounds k.
Proof. intros Hk s Hs. eapply post_mono; [by apply Hk|]. intros [] s' H. by left. Qed.

Lemma read_stays {A} d (k : reader A) Q f :
  reads_ok d k Q -> 0 <= d -> (forall a, Q a -> stays (f a)) -> stays (x ← from_code k; f x).
Proof.
  intros Hk Hd Hf. begin. post_prim. eapply post_read; [exact Hk|exact Hc|]. intros a p Hp Ha.
  apply Hf; [done|]. exists Φ, G, g. split; [by destruct Ht|]. split_and!; [done|by eapply moved_ok| |done].
  pose proof (moved_raw _ _ _ Hp). simpl. lia.
Qed.

Lemma control_turn bounds o : turn bounds (parse_control_flow options bounds o).
Proof.
  intros s Hs. destruct o; unfold parse_control_flow; try (by apply end_post); revert s Hs; apply stays_turn;
    auto using unreachable_stays, nop_stays, block_stays, loop_stays, if_stays, else_stays, br_stays, br_if_stays,
      stays_error.
Qed.

Lemma opcode_stays bounds o : turn bounds (parse_opcode options m _datacount type_aliases lt bounds o).
Proof.
  destruct o; unfold parse_opcode; [apply control_turn|..]; apply stays_turn.
  - apply br_table_stays.
  - apply return_stays.
  - by eapply call_op_stays.
  - by apply parametric_stays.
  - by eapply variable_stays.
  - apply memory_stays.
  - eapply const_stays with (o := fun v => Op.I32_CONST (wrap 32 v)); [apply ok_varint32|done|auto with compiled|].
    intros v _. apply st_op; [done|]. by apply wrap_in_u.
  - eapply const_stays with (o := fun v => Op.I64_CONST (wrap 64 v)); [apply ok_varint64|done|auto with compiled|].
    intros v _. apply st_op; [done|]. by apply wrap_in_u.
  - eapply const_stays with (o := fun v => Op.F32_CONST v); [by apply (ok_parse_raw 4)|done|auto with compiled|].
    intros v Hv. by apply st_op.
  - eapply const_stays with (o := fun v => Op.F64_CONST v); [by apply (ok_parse_raw 8)|done|auto with compiled|].
    intros v Hv. by apply st_op.
  - apply numeric_stays; [auto with compiled|]. by apply typed_op.
  - destruct (is_extend o); [apply extend_stays|]. apply numeric_stays; [auto with compiled|]. by apply typed_op.
  - apply numeric_stays; [auto with compiled|]. by apply typed_op.
  - apply stays_assert. intros _. eapply read_stays; [apply ok_varuint32|done|]. intros c _.
    destruct (case_of vec_names c); [apply vector_stays|apply stays_error].
  - eapply read_stays; [apply ok_varuint32|done|]. intros c _.
    destruct (case_of ext_names c) as [[o|o]|]; [apply data_stays|apply ext_op_stays|apply stays_error].
Qed.

Local Abbreviation loop := (parse_instrs options m _datacount type_aliases lt).

Lemma instr_turn bounds s : opened 0 s ->
  post (parse_instr options m _datacount type_aliases lt bounds)
    (fun _ s' => opened 0 s' \/ finished s' /\ GuardedPtr.offset (bs_code s') = bounds) s.
Proof.
  revert s. begin. unfold parse_instr, pc_stack_size, next_byte. repeat post_prim.
  eapply post_read; [apply ok_read_byte|exact Hc|]. intros b p Hp _. pose proof (moved_raw _ _ _ Hp).
  destruct (case_of opcode_names b) as [o|]; [|post_prim].
  apply opcode_stays. exists Φ, G, g. split; [by destruct Ht|].
  split_and!; [done|by eapply moved_ok|simpl; lia|done].
Qed.

(** The loop ends inside a block, or the body is complete. *)
Lemma loop_post fuel bounds s : opened 0 s ->
  post (loop fuel bounds)
    (fun _ s' => pc_stack s' <> [] \/ finished s' /\ GuardedPtr.offset (bs_code s') = bounds) s.
Proof.
  revert s. induction fuel as [|fuel IH]; intros s Hs; [done|]. cbn [parse_instrs]. post_prim. post_prim.
  destruct (_ <? _).
  - post_prim. eapply post_mono; [by apply instr_turn|]. intros [] s1 [H|[H Hb]]; [by apply IH|].
    destruct fuel; [done|]. cbn [parse_instrs]. repeat post_prim. rewrite Hb, Z.ltb_irrefl. post_prim. by right.
  - post_prim. left. destruct Hs as (Φ & G & g & Ht & Hg & _).
    pose proof (pcs_typed_length _ _ _ _ _ _ (ty_pcs _ _ _ _ _ _ _ Ht)) as Hl.
    intros E. rewrite E in Hl. destruct g; [done|discriminate].
Qed.
End Loop.

(** ** The whole body *)
Section Function.
Context `{sys : Sys} (options : Opt.t) (m : module) (_datacount : option Z) (type_aliases : list Z)
  (lt : local_types_t) (locals : list Z) (ft : func_type).
Local Abbreviation W := BitcodeWriter.t.
Local Abbreviation bstate := (body_state (W := W)).
Implicit Types (s : bstate) (w : W).
Local Abbreviation fr := (function_result ft).
Context (cx : body_context m type_aliases lt locals) (Hft : proper ft).
Context (Hend : Opt.allow_code_after_function_end options = false).

Lemma function_result_type : result_type fr /\ label_types fr = results ft.
Proof.
  destruct Hft as (_ & _ & Hr). unfold function_result, results, label_types.
  destruct (Z.eqb_spec (return_count ft) 0) as [E|E]; simpl; [split; [by left|done]|].
  specialize (Hr E). split; [by right|]. by destruct (Z.eqb_spec (return_type ft) pseudo) as [H%value_not_pseudo|].
Qed.

Lemma initial_opened code lc nested w :
  cursor_ok code -> op_index w = 0 ->
  opened m locals fr (frame_of w) (raw_ptr code) 0 (initial_state options code lc ft nested w).
Proof.
  intros Hc H0. exists (fun i => if i =? 0 then Some [] else None), (fun _ => None), [Scope [] false].
  split; [|split_and!; [done|done|simpl; lia|done]].
  split; simpl; rewrite ?H0; try done.
  - constructor; [|constructor]. split; simpl; [done|apply function_result_type|done|]. split_and!; [done|done|].
    intros j b Hj. by rewrite lookup_nil in Hj.
  - intros i ts. destruct (Z.eqb_spec i 0) as [->|]; [|done]. intros [= <-]. simpl. lia.
  - intros i ts Hi. destruct (Z.eqb_spec i 0); [lia|done].
Qed.

(** What [parse_function_body_code] leaves in the writer [w'], and what it returns *)
Record compiled (code : guarded_ptr) (bounds : Z) w (maximum : Z) w' : Prop := Compiled {
  co_index : 0 <= op_index w';
  co_room : raw_ptr code + op_index w' + 1 <= bounds;
  co_frame : frame_of (BitcodeWriter.set_usage (BitcodeWriter.stack_usage w) w') = frame_of w;
  co_usage : Opt.max_stack_bytes options = None -> BitcodeWriter.stack_usage w' = BitcodeWriter.stack_usage w;
  co_code : exists Φ depth, code_typed m locals fr Φ (op_index w') depth w' /\ depth < 2 ^ 32 /\
    exists count, locals_count lt = Ret count /\ maximum = wrap 64 (depth + count)
}.

Lemma body_compiled bounds code lc nested w :
  cursor_ok code -> op_index w = 0 ->
  post (parse_function_body_code options m _datacount type_aliases lt bounds)
    (fun maximum s' => compiled code bounds w maximum (code_writer s')) (initial_state options code lc ft nested w).
Proof.
  intros Hc H0. unfold parse_function_body_code. post_prim.
  eapply post_mono; [eapply loop_post; [exact cx|exact Hend|by apply initial_opened]|]. intros [] s1 H.
  post_prim.
  eapply post_mono with (Q := fun _ s2 => bs_code s2 = bs_code s1 /\ op_stack s2 = op_stack s1 /\
    pc_stack s2 = pc_stack s1 /\ exists usage, code_writer s2 = BitcodeWriter.set_usage usage (code_writer s1) /\
      (Opt.max_stack_bytes options = None -> usage = BitcodeWriter.stack_usage (code_writer s1))).
  { destruct (Opt.max_stack_bytes options).
    - repeat post_prim. apply post_emits. eapply post_mono; [apply set_stack_usage_post|].
      intros [] w' (usage & ->). split_and!; [done|done|done|]. exists usage. by split.
    - post_prim. split_and!; [done|done|done|]. exists (BitcodeWriter.stack_usage (code_writer s1)).
      split; [by destruct s1 as [? ? ? ? []]|done]. }
  intros [] s2 (E1 & E2 & E3 & usage & E4 & Husage). unfold pc_stack_size. repeat post_prim. rewrite E3 in *.
  destruct H as [H|[(Hpc & Hraw & HF & Hmax & Φ & HΦ) Hb]].
  { match goal with H : (_ =? 0) = true |- _ => apply Z.eqb_eq in H end. by destruct (pc_stack s1). }
  unfold GuardedPtr.offset in Hb. split; rewrite E4; simpl; [apply HΦ|lia| | |].
  - unfold frame_of in *. simpl. by injection HF as -> -> -> _ -> -> ->.
  - intros Hnone. rewrite (Husage Hnone). by injection HF as _ _ _ -> _ _ _.
  - exists Φ, (maximum_operand_depth (op_stack s2)). rewrite E2. split_and!; [by destruct HΦ|done|]. eexists. by split.
Qed.
End Function.
