(* ===== verification/CompiledModule.v ===== *)
(** * A module is compiled to well-typed code (bitcode_writer.hpp and [write_code_out])

    The writer lays the code of the functions out one after the other in its arena;
    the code each function ends up with is typed. *)
From S2P Require Import Prelude GuardedPtr Leb128 Allocator Opcodes Types OpSigs Validation Writers FunctionBody Parser ReaderProofs WriterLaws BodySafety InstrSafety ParserSafety ModuleSafety ValidationClaims ContextProofs OpTypes CodeTyping TrackerTypes WriterEffects CompiledBody CompiledInstrs CompiledJumps CompiledControl CompiledLoop.
Import Op(opcode).
Import BitcodeWriter.

Section Layout.
Context `{sys : Sys}.
Implicit Types w : t.
Abbreviation offset_of w := (Growable._offset (_allocator w)).

(** Between two functions: the code of the next one follows the cells written so
    far, the first of which is at [first]. *)
Record laid_out (first : Z) w : Prop := LaidOut {
  lo_arena : growable_wf (_allocator w);
  lo_base : _base_offset w = Z.of_nat (length (written w));
  lo_next : align_offset 8 (offset_of w) = first + 24 * _base_offset w;
  lo_first : 0 <= first
}.

Lemma bitcode_request size : in_u 32 size -> request_ok sizeof_opcode alignof_opcode size.
Proof. intros Hs. unfold request_ok, sizeof_opcode, alignof_opcode, in_u in *. split_and!; [lia|lia|by exists 3|lia|lia]. Qed.

Lemma aligned_8 x : 0 <= x < 2 ^ 63 -> x mod 8 = 0 -> align_offset 8 x = x.
Proof.
  intros Hx Hm. change 8 with (2 ^ 3) in *. destruct (align_offset_spec 3 x ltac:(lia) Hx) as (H1 & _ & H3).
  specialize (H3 x ltac:(lia) Hm). lia.
Qed.

(** [alloc] of code *)
Lemma alloc_code_post size a :
  growable_wf a -> in_u 32 size ->
  post (Growable.alloc sizeof_opcode alignof_opcode size) (fun p a' => p = align_offset 8 (Growable._offset a) /\
    p mod 8 = 0 /\ 0 <= p /\ growable_wf a' /\ Growable._offset a' = p + 24 * size) a.
Proof.
  intros Hwf Hs p a' E. pose proof (bitcode_request size Hs) as Hreq.
  destruct (allocated_wf _ _ _ _ _ _ Hwf Hreq E) as (Hwf' & Hoff & _).
  destruct (growable_alloc_Ret _ _ _ _ _ _ Hwf Hreq E) as (_ & H1 & H2 & _).
  rewrite growable_alloc_eq in E by done. destruct (_ =? 0); [|done]. cbv zeta in E. destruct (_ <=? _); [|done].
  injection E as <- _. destruct Hwf as [? _]. split_and!; [done|done|lia|done|exact Hoff].
Qed.

(** Cells are given back. *)
Lemma resize_post n w (R : unit -> t -> Prop) :
  growable_wf (_allocator w) -> 0 <= gv_data (fb w) -> 0 <= n <= gv_size (fb w) ->
  offset_of w = gv_data (fb w) + 24 * gv_size (fb w) ->
  (forall a, growable_wf a -> Growable._offset a = gv_data (fb w) + 24 * n ->
     R tt (set_fb (GuardedVector (gv_data (fb w)) (take (Z.to_nat n) (gv_cells (fb w)))) (set_allocator a w))) ->
  post (resize n) R w.
Proof.
  intros Hwf H0 Hn Hoff HR. unfold resize. post_prim. post_prim.
  destruct (Z.ltb_spec (gv_size (fb w)) n); [lia|]. post_prim.
  intros [] w' E. unfold on_allocator in E.
  destruct (Growable.reclaim _ _ _ (_allocator w)) as [r a] eqn:Er. injection E as -> <-.
  assert (Ha : growable_wf a /\ Growable._offset a = gv_data (fb w) + 24 * n).
  { revert Er. unfold Growable.reclaim, assertM, gets, lift, mbind, M_bind, EOS_VM_ASSERT.
    destruct (_ <=? _); simpl; [|done]. destruct (Z.eqb_spec (gv_size (fb w) - n) 0) as [E0|E0]; simpl.
    - intros [= <-]. split; [done|]. rewrite Hoff. lia.
    - destruct (_ =? _); simpl; [|done]. intros [= <-]. unfold growable_wf in *. simpl.
      unfold sizeof_opcode in *. split; [|done]. lia. }
  destruct Ha as [Ha1 Ha2]. post_prim. by apply HR.
Qed.
End Layout.

Lemma nthZ_take {A} (l : list A) n i : i < n -> nthZ (take (Z.to_nat n) l) i = nthZ l i.
Proof.
  intros Hi. unfold nthZ. destruct (Z.ltb_spec i 0); [done|]. by rewrite lookup_take_lt by lia.
Qed.
Lemma nthZ_app_Some {A} (l l' : list A) i x : nthZ l i = Some x -> nthZ (l ++ l') i = Some x.
Proof. unfold nthZ. destruct (i <? 0); [done|]. by apply lookup_app_l_Some. Qed.
Lemma nthZ_app_r {A} (l l' : list A) i : 0 <= i -> nthZ (l ++ l') (Z.of_nat (length l) + i) = nthZ l' i.
Proof.
  intros Hi. rewrite !nthZ_lookup by lia. rewrite lookup_app_r by lia. f_equal. lia.
Qed.

Section Functions.
Context `{sys : Sys}.
Implicit Types w : t.
Abbreviation offset_of w := (Growable._offset (_allocator w)).

(** Inside a function: the cells at hand are the last of the arena. *)
Record inside (first size : Z) (done : list opcode) w : Prop := Inside {
  in_arena : growable_wf (_allocator w);
  in_base : _base_offset w = Z.of_nat (length done);
  in_written : written w = done;
  in_data : gv_data (fb w) = first + 24 * _base_offset w;
  in_aligned : gv_data (fb w) mod 8 = 0 /\ 0 <= gv_data (fb w);
  in_size : gv_size (fb w) = size;
  in_offset : offset_of w = gv_data (fb w) + 24 * gv_size (fb w);
  in_first : 0 <= first
}.

Lemma prologue_post first body w :
  laid_out first w -> in_u 32 (fb_size body) ->
  post (emit_prologue body) (fun _ w1 => op_index w1 = 0 /\ stack_usage w1 = stack_usage w /\ inside first (fb_size body) (written w) w1) w.
Proof.
  intros [L1 L2 L3 L4] Hs. unfold emit_prologue. repeat post_prim.
  intros v w1 E. unfold on_allocator in E. cbn in E.
  destruct (gv_make (fb_size body) (_allocator w)) as [r a] eqn:Em. injection E as -> <-.
  unfold gv_make in Em. assert (Hp : post (gv_make (fb_size body)) (fun v a' => exists p, v = GuardedVector p (blank (fb_size body)) /\
    p = align_offset 8 (offset_of w) /\ p mod 8 = 0 /\ 0 <= p /\ growable_wf a' /\
    Growable._offset a' = p + 24 * fb_size body) (_allocator w)).
  { unfold gv_make. post_prim. eapply post_mono; [by apply alloc_code_post|]. intros p a' H. post_prim. by exists p. }
  destruct (Hp v a Em) as (p & -> & -> & H1 & H2 & H3 & H4). repeat post_prim. simpl. split; [done|]. split; [done|].
  assert (Hsz : gv_size (GuardedVector (align_offset 8 (offset_of w)) (blank (fb_size body))) = fb_size body).
  { unfold gv_size, blank. simpl. rewrite length_replicate. unfold in_u in Hs. lia. }
  split; simpl; try done. by rewrite Hsz.
Qed.

(** Only the frame matters. *)
Lemma inside_frame first size done w w' usage :
  frame_of (set_usage usage w') = frame_of w -> inside first size done w -> inside first size done w'.
Proof. intros [= E1 E2 E3 _ E5 E6 E7] []. split; rewrite ?E1, ?E3, ?E5, ?E6, ?E7; done. Qed.

Lemma epilogue_post first size done ft locals w :
  inside first size done w -> 0 <= op_index w -> op_index w + 1 <= size ->
  post (emit_epilogue ft locals) (fun _ w1 => op_index w1 = op_index w /\
    inside first (op_index w + 1) done w1 /\ stack_usage w1 = stack_usage w /\
    (forall j, j < op_index w -> BitcodeLaws.cell w1 j = BitcodeLaws.cell w j) /\
    BitcodeLaws.cell w1 (op_index w) = Some (Op.RETURN (Op.ControlFlowImm
      (wrap 32 (count_locals locals + Z.of_nat (length (param_types ft)))) (return_count ft) (stack_usage w) 0 0))) w.
Proof.
  intros [I1 I2 I3 I4 [I5 I5'] I6 I7 I8] H0 Hn. unfold emit_epilogue. repeat post_prim.
  apply resize_post; [done|done|lia|done|]. intros a Ha Hoff. repeat post_prim. simpl.
  unfold store_cell, check_index, assertM. repeat post_prim. simpl.
  assert (Hlen : Z.of_nat (length (take (Z.to_nat (op_index w + 1)) (gv_cells (fb w)))) = op_index w + 1).
  { rewrite length_take. unfold gv_size in I6. lia. }
  split_and!; [done| |done| |].
  - split; simpl; try done; unfold gv_size; simpl; rewrite length_insert; [done|by rewrite Hoff, Hlen].
  - intros j Hj. unfold BitcodeLaws.cell. simpl. unfold gv_size. simpl. rewrite Hlen.
    rewrite BitcodeLaws.cell_insert by lia. destruct (decide _); [lia|]. apply nthZ_take. lia.
  - unfold BitcodeLaws.cell. simpl. unfold gv_size. simpl. rewrite Hlen, BitcodeLaws.cell_insert by lia.
    destruct (decide _); [done|lia].
Qed.

Lemma finalize_post first done body w :
  inside first (op_index w + 1) done w -> 0 <= op_index w ->
  post (finalize body) (fun b w1 => laid_out first w1 /\ stack_usage w1 = stack_usage w /\ written w1 = done ++ gv_cells (fb w) /\
    b = FunctionBody (op_index w + 1) (fb_locals body) (first + 24 * Z.of_nat (length done)) (stack_usage w)) w.
Proof.
  intros [I1 I2 I3 I4 [I5 I5'] I6 I7 I8] H0. unfold finalize. repeat post_prim.
  apply resize_post; [done|done|simpl; lia|done|]. intros a Ha Hoff. repeat post_prim. simpl in *.
  assert (Htake : take (Z.to_nat (op_index w + 1)) (gv_cells (fb w)) = gv_cells (fb w)).
  { apply take_ge. unfold gv_size in I6. lia. }
  rewrite Htake. split_and!; [|done|by rewrite I3|f_equal; lia].
  split; simpl; [done|rewrite I3, length_app; unfold gv_size in I6; lia| |done].
  rewrite Hoff, I4, I2, aligned_8; [lia| |].
  - destruct Ha as [Ha1 Ha2]. unfold Growable.max_memory_size in Ha2. lia.
  - rewrite <- I2, <- I4. replace (24 * (op_index w + 1)) with ((3 * (op_index w + 1)) * 8) by lia.
    by rewrite Z.mod_add.
Qed.
End Functions.

(** ** One function *)

Lemma bind_Ret {A B} (o : outcome A) (f : A -> outcome B) b :
  mbind f o = Ret b -> exists a, o = Ret a /\ f a = Ret b.
Proof. destruct o as [a|e|x]; [by exists a|done|done]. Qed.
Lemma run_post {S A} (k : M S A) (Q : A -> S -> Prop) s a s' : post k Q s -> run k s = Ret (a, s') -> Q a s'.
Proof.
  intros Hk. unfold run. destruct (k s) as [r s1] eqn:E. destruct r as [x|e|y]; simpl; [|done|done].
  intros [= <- <-]. by apply Hk.
Qed.

Lemma func_type_proper options ft : func_type_ok options ft -> proper ft.
Proof.
  intros [Hp Hc Hr _]. split_and!; [|lia|lia|].
  - eapply Forall_impl; [|exact Hp]. intros t. by apply is_value_type_ok.
  - intros H. by eapply is_value_type_ok, Hr.
Qed.

Lemma vec_at_Ret {A} (l : list A) i x : vec_at l i = Ret x -> nthZ l i = Some x.
Proof. unfold vec_at. destruct (nthZ l i); [by intros [= <-]|done]. Qed.

(** The locals of a function: their types are known to the validator and counted by
    the [return]. *)
Record locals_of options (ft : func_type) (entries : list local_entry) (lt : local_types_t) : Prop := LocalsOf {
  lc_at i t : 0 <= i -> local_type_at lt i = Ret t ->
    nthZ (all_locals ft entries) i = Some t /\ value_type t;
  lc_count : locals_count lt = Ret (total entries);
  lc_values : Forall value_type (all_locals ft entries);
  lc_bound : Z.of_nat (length (all_locals ft entries)) < 2 ^ 32;
  lc_return : wrap 32 (count_locals entries + Z.of_nat (length (param_types ft))) =
    Z.of_nat (length (all_locals ft entries));
  lc_proper : func_type_ok options ft
}.

Lemma count_locals_total entries : forall n,
  Forall (fun e => in_u 32 (local_count e)) entries -> 0 <= n -> n + total entries < 2 ^ 32 ->
  fold_left (fun n l => wrap 32 (n + local_count l)) entries n = n + total entries.
Proof.
  induction entries as [|e entries IH]; intros n Hall Hn Hb; simpl; [unfold total; simpl; lia|].
  inversion Hall as [|? ? He Hall']; subst. unfold total in *. rewrite expand_cons, length_app, length_replicate in *.
  unfold in_u in *. rewrite wrap_small by (unfold in_u; lia). rewrite IH; [lia|done|lia|lia].
Qed.

Lemma local_value_types options entries :
  Forall (local_ok options) entries -> Forall (fun e => value_type (local_type e)) entries.
Proof. apply Forall_impl. intros e [He _]. by eapply is_value_type_ok. Qed.

Lemma locals_known options ft entries lt :
  func_type_ok options ft -> Forall (local_ok options) entries -> local_types ft entries = Ret lt ->
  locals_of options ft entries lt.
Proof.
  intros Hft Hl Hlt. pose proof (func_type_proper _ _ Hft) as (Hp & _). pose proof (fto_size _ _ Hft) as Hsz.
  assert (Hcounts : Forall (fun e => in_u 32 (local_count e)) entries).
  { eapply Forall_impl; [|exact Hl]. by intros e []. }
  assert (Hvals : Forall value_type (all_locals ft entries)).
  { apply Forall_app. split; [done|]. clear Hlt Hcounts. induction Hl as [|e entries [He _] Hl IH]; [constructor|].
    rewrite expand_cons. apply Forall_app. split; [|done]. apply Forall_replicate. by eapply is_value_type_ok. }
  pose proof (local_types_flat_ok ft entries Hcounts Hsz) as Hflat.
  destruct (Z.leb_spec (Z.of_nat (length (all_locals ft entries))) uint32_max) as [Hle|]; [|congruence].
  destruct Hflat as (lt' & Hlt' & Hat & Hcount). rewrite Hlt' in Hlt. injection Hlt as ->.
  assert (Hlen : Z.of_nat (length (all_locals ft entries)) = Z.of_nat (length (param_types ft)) + total entries).
  { unfold all_locals, total. rewrite length_app. lia. }
  unfold uint32_max in Hle. split; try done; [|lia|].
  - intros i t Hi. rewrite Hat by done. destruct (all_locals ft entries !! Z.to_nat i) as [t'|] eqn:E; [|done].
    intros [= ->]. rewrite nthZ_lookup by done. split; [done|]. by eapply Forall_lookup_1 in E.
  - unfold count_locals. rewrite count_locals_total by (done || lia). rewrite wrap_small by (unfold in_u; lia). lia.
Qed.

Section Writing.
Context `{sys : Sys} (options : Opt.t) (a0 : Growable.t).
Context (Hend : Opt.allow_code_after_function_end options = false).
Implicit Types (w : t) (p : parser) (b : function_body).
Local Abbreviation parsed := (parsed options a0).

Lemma parsed_context h p lt entries ft t :
  parsed h p -> nthZ (functions (pr_mod p)) t <> None -> locals_of options ft entries lt ->
  body_context (pr_mod p) (pr_type_aliases p) lt (all_locals ft entries).
Proof.
  intros Hp Ht Hlt. split.
  - eapply Forall_impl; [|exact (ps_types _ _ _ _ Hp)]. apply func_type_proper.
  - intros i ft' Hi Hft'. eapply (func_type_proper options).
    pose proof (function_type_safe options (pr_mod p) i (ps_types _ _ _ _ Hp) (ps_imports _ _ _ _ Hp) Hi) as Hy.
    by rewrite Hft' in Hy.
  - eapply Forall_impl; [|exact (ps_globals _ _ _ _ Hp)]. intros g [Hg _]. by eapply is_value_type_ok.
  - intros i al ft' Hal Hft'. rewrite (ps_aliases _ _ _ _ Hp) in Hal.
    2:{ intros E. rewrite E in Ht. by rewrite nthZ_nil in Ht. }
    pose proof (nthZ_bounds _ _ _ Hft') as Hi. rewrite nthZ_lookup in Hft' by lia. rewrite nthZ_lookup in Hal by lia.
    destruct (alias_spec _ _ _ Hft') as (k & te & Hk & Hte & Hsame & _). rewrite Hk in Hal. injection Hal as <-.
    exists te. split; [|by apply func_type_eqb_same]. rewrite nthZ_lookup by lia. by rewrite Nat2Z.id.
  - apply Hlt.
Qed.

(** [install] on one function *)
Definition placed (first : Z) b : function_body :=
  FunctionBody (fb_size b) (fb_locals b) ((fb_code b - first) / sizeof_opcode) (fb_stack_size b).

(** The cells of a complete body, behind those written before *)
Lemma code_typed_function m fn ft locals Φ depth w w3 (before : list opcode) imm :
  proper ft -> code_typed m locals (function_result ft) Φ (op_index w) depth w ->
  _base_offset w = Z.of_nat (length before) -> Z.of_nat (length before) + op_index w < 2 ^ 32 ->
  (forall j, j < op_index w -> BitcodeLaws.cell w3 j = BitcodeLaws.cell w j) ->
  BitcodeLaws.cell w3 (op_index w) = Some (Op.RETURN imm) ->
  Op.cf_data imm = Z.of_nat (length locals) -> Op.cf_pc imm = return_count ft -> Op.cf_stacksz imm = fb_stack_size fn ->
  fb_size fn = op_index w + 1 -> fb_code fn = Z.of_nat (length before) ->
  function_typed m (before ++ gv_cells (fb w3)) fn ft locals depth Φ.
Proof.
  intros Hft [C1 C2 C3 C4 C5] Hbase Hsmall Hcells Hret Hd Hc Hs Hsz Hcode.
  assert (Hget : forall i, 0 <= i -> nthZ (before ++ gv_cells (fb w3)) (fb_code fn + i) = BitcodeLaws.cell w3 i).
  { intros i Hi. rewrite Hcode. by apply nthZ_app_r. }
  assert (Hn : fb_size fn - 1 = op_index w) by lia.
  split; rewrite ?Hn.
  - done.
  - intros i ts Hi. by apply C3.
  - intros i ts Hi Hlt. destruct (C3 i ts Hi) as [Hr _]. destruct (C4 i ts Hlt Hi) as (o & Ho & Hty).
    exists o. split; [by rewrite Hget, Hcells by lia|].
    eapply cell_typed_mono; [| |apply same_but_target_refl|exact Hty]; [by intros j tj|].
    intros b ts' Hb (k & Hk & Htg & HΦ). exists k. split; [|done].
    rewrite Hbase, wrap_small in Htg by (unfold in_u; lia). rewrite Hcode. rewrite <- Htg.
    apply target_same. rewrite Hb. rewrite <- Hcode, Hget, Hcells by lia. done.
  - intros ts Hts. destruct (function_result_type ft Hft) as [_ <-]. by apply C5.
  - exists imm. split; [by rewrite Hget|done].
Qed.

(** The function [i] of the module, compiled to the cells [bits]; [maximum]: the
    operands and locals of all functions.  A frame counts as one when the depth of calls
    is limited by their number. *)
Definition compiled_function (m : module) (bits : list opcode) (maximum : Z) (i : Z) b : Prop :=
  exists t ft Φ depth, nthZ (functions m) i = Some t /\ nthZ (types m) t = Some ft /\
    function_typed m bits b ft (all_locals ft (fb_locals b)) depth Φ /\
    Forall value_type (all_locals ft (fb_locals b)) /\ Forall (fun e => value_type (local_type e)) (fb_locals b) /\
    depth + total (fb_locals b) <= maximum /\
    (Opt.max_stack_bytes options = None -> fb_stack_size b = 1).

Lemma compiled_function_mono m m' bits bits' maximum maximum' i b :
  same_context m m' -> (forall i o, nthZ bits i = Some o -> nthZ bits' i = Some o) -> maximum <= maximum' ->
  compiled_function m bits maximum i b -> compiled_function m' bits' maximum' i b.
Proof.
  intros Hm Hb Hmax (t & ft & Φ & depth & H1 & H2 & H3 & H4 & H5 & H6 & H7). exists t, ft, Φ, depth.
  rewrite (sc_functions _ _ Hm), (sc_types _ _ Hm). split_and!; [done|done| |done|done|lia|done]. by eapply function_typed_mono.
Qed.

(** No limit in bytes *)
Definition counted w : Prop := Opt.max_stack_bytes options = None -> stack_usage w = 1.

(** The state after some functions, from [w] *)
Record written_after first w w' : Prop := WrittenAfter {
  wa_laid : laid_out first w';
  wa_counted : counted w -> counted w';
  wa_more : exists cells, written w' = written w ++ cells
}.

Lemma write_function_post h p i first body code count w nested maximum b w' nested' maximum' :
  parsed h p -> laid_out first w -> counted w -> body_ok options (body, (code, count)) ->
  write_function options p i body code count w nested maximum = Ret (b, (w', nested', maximum')) ->
  written_after first w w' /\ maximum <= maximum' /\ fb_code b = first + 24 * Z.of_nat (length (written w)) /\
  compiled_function (pr_mod p) (written w') maximum' i (placed first b).
Proof.
  intros Hp Hw Hone (Hlocals & Hcode & Hraw & Hsize) E. simpl in Hlocals, Hcode, Hraw, Hsize. unfold write_function in E.
  apply bind_Ret in E as (t & Ht%vec_at_Ret & E). apply bind_Ret in E as (ft & Hft%vec_at_Ret & E).
  apply bind_Ret in E as (lt & Hlt & E). apply bind_Ret in E as ([[] w1] & E1 & E).
  apply bind_Ret in E as ([usage s] & E2 & E). apply bind_Ret in E as ([[] w3] & E3 & E).
  apply bind_Ret in E as ([b' w4] & E4 & E). injection E as <- <- <- <-.
  assert (Hfto : func_type_ok options ft).
  { pose proof (nthZ_bounds _ _ _ Hft). rewrite nthZ_lookup in Hft by lia.
    exact (Forall_lookup_1 _ _ _ _ (ps_types _ _ _ _ Hp) Hft). }
  pose proof (locals_known _ _ _ _ Hfto Hlocals Hlt) as Hlc.
  apply (run_post _ _ _ _ _ (prologue_post first body w Hw Hsize)) in E1 as (H0 & Hu1 & Hin1).
  eapply run_post in E2; [|eapply body_compiled; [eapply parsed_context; [exact Hp| |exact Hlc]|by eapply func_type_proper
    |exact Hend|exact Hcode|exact H0]]; [|by rewrite Ht].
  destruct E2 as [C1 C2 C3 Cu (Φ & depth & Hty & Hdepth & n & Hn & ->)]. set (w2 := code_writer s) in *.
  rewrite Hraw in C2. pose proof (inside_frame _ _ _ _ _ _ C3 Hin1) as Hin2.
  eapply run_post in E3; [|eapply epilogue_post; [exact Hin2|done|lia]]. destruct E3 as (Hn3 & Hin3 & Hu3 & Hc3 & Hr3).
  eapply run_post in E4; [|apply finalize_post; [by rewrite Hn3|by rewrite Hn3]]. destruct E4 as (Hlaid & Hu4 & Hwr & ->).
  rewrite (lc_count _ _ _ _ Hlc) in Hn. injection Hn as <-.
  pose proof (ct_range _ _ _ _ _ _ _ Hty 0 [] (ct_start _ _ _ _ _ _ _ Hty)) as [_ Hd0]. simpl in Hd0.
  assert (Htot : 0 <= total (fb_locals body) < 2 ^ 32).
  { pose proof (lc_bound _ _ _ _ Hlc) as Hb. unfold total, all_locals in *. rewrite length_app in Hb. lia. }
  rewrite (wrap_small 64) by (unfold in_u; lia).
  assert (Hbase : Z.of_nat (length (written w)) + op_index w2 < 2 ^ 32).
  { destruct Hin3 as [[I1 I1'] I2 I3 I4 I5 I6 I7 I8]. unfold Growable.max_memory_size in I1'. lia. }
  assert (Hu : Opt.max_stack_bytes options = None -> stack_usage w2 = 1).
  { intros H. rewrite (Cu H), Hu1. by apply Hone. }
  split; [split; [done| |by eexists]|].
  { intros _ H. rewrite Hu4, Hu3. by apply Hu. }
  split; [lia|]. split; [done|].
  exists t, ft, Φ, depth. split_and!; [done|done| |apply Hlc|by eapply local_value_types|simpl; lia|simpl; intros H; rewrite Hu3; by apply Hu]. rewrite Hwr.
  eapply code_typed_function; [by eapply func_type_proper|exact Hty|by destruct Hin2|done|exact Hc3|exact Hr3|apply Hlc|done| | |].
  - simpl. done.
  - simpl. by rewrite Hn3.
  - simpl. unfold sizeof_opcode. replace (first + _ - first) with (Z.of_nat (length (written w)) * 24) by lia. by apply Z.div_mul.
Qed.

Lemma same_context_refl m : same_context m m.
Proof. by split. Qed.

Lemma write_functions_post h p first l : forall i w nested maximum bodies w' nested' maximum',
  parsed h p -> laid_out first w -> counted w -> Forall (body_ok options) l ->
  write_functions options p i l w nested maximum = Ret (bodies, (w', nested', maximum')) ->
  written_after first w w' /\ maximum <= maximum' /\
  (forall b, head bodies = Some b -> fb_code b = first + 24 * Z.of_nat (length (written w))) /\
  forall k b, bodies !! k = Some b ->
    compiled_function (pr_mod p) (written w') maximum' (i + Z.of_nat k) (placed first b).
Proof.
  induction l as [|[body [code count]] l IH]; intros i w nested maximum bodies w' nested' maximum' Hp Hw Hone Hl E; simpl in E.
  { injection E as <- <- <- <-. split_and!; [split; [done|done|by exists []; rewrite app_nil_r]|lia|done|].
    intros k b Hk. by rewrite lookup_nil in Hk. }
  inversion Hl as [|? ? Hb Hl']; subst.
  apply bind_Ret in E as ([b1 [[w1 n1] m1]] & E1 & E). apply bind_Ret in E as ([bs [[w2 n2] m2]] & E2 & E).
  injection E as <- <- <- <-.
  destruct (write_function_post _ _ _ _ _ _ _ _ _ _ _ _ _ _ Hp Hw Hone Hb E1) as ([Hw1 Hone1 (c1 & Hc1)] & Hm1 & Hf1 & Hty1).
  destruct (IH _ _ _ _ _ _ _ _ Hp Hw1 (Hone1 Hone) Hl' E2) as ([Hw2 Hone2 (c2 & Hc2)] & Hm2 & _ & Hty2).
  split_and!; [split; [done|by auto|exists (c1 ++ c2); by rewrite Hc2, Hc1, app_assoc]|lia|by intros b [= <-]|].
  intros [|k] b Hk; simpl in Hk.
  - injection Hk as <-. rewrite Z.add_0_r. eapply compiled_function_mono; [apply same_context_refl| |exact Hm2|exact Hty1].
    intros j o Ho. rewrite Hc2. by apply nthZ_app_Some.
  - replace (i + Z.of_nat (S k)) with (i + 1 + Z.of_nat k) by lia. by apply Hty2.
Qed.

(** Every function of the module is compiled to typed code. *)
Definition compiled_module (m : module) : Prop :=
  forall i b, nthZ (code m) i = Some b -> compiled_function m (bitcode m) (maximum_stack m) i b.

Lemma compiled_module_same m m' :
  same_context m m' -> code m' = code m -> bitcode m' = bitcode m -> maximum_stack m' = maximum_stack m ->
  compiled_module m -> compiled_module m'.
Proof.
  intros Hc H1 H2 H3 Hm i b. rewrite H1, H2, H3. intros Hb. eapply compiled_function_mono; [exact Hc|done|done|by apply Hm].
Qed.

Lemma alloc_in_arena sz al size a :
  Growable._capacity a <= Growable.max_memory_size ->
  post (Growable.alloc sz al size) (fun _ a' => growable_wf a') a.
Proof.
  intros Hcap. unfold Growable.alloc, assertM. repeat post_prim. simpl in *.
  match goal with H : EOS_VM_ASSERT (?o <=? _) _ = Ret _ |- _ =>
    unfold EOS_VM_ASSERT in H; destruct (Z.leb_spec o (Growable._capacity a)); [clear H|done];
    pose proof (wrap_in_u 64 (wrap 64 (sz * size) + align_offset al (Growable._offset a)) ltac:(done)) as [Ho _] end.
  unfold growable_wf. destruct (_ <? _); simpl; lia.
Qed.

Lemma construct_post n a :
  Growable._capacity a <= Growable.max_memory_size ->
  post (construct n) (fun w _ => written w = [] /\ stack_usage w = 1 /\ exists first, laid_out first w) a.
Proof.
  intros Hcap. unfold construct, Growable.start_code, gv_make. repeat post_prim.
  eapply post_mono; [by apply alloc_in_arena|]. intros d a' Ha. repeat post_prim. split; [done|]. split; [done|].
  exists (align_offset 8 (Growable._offset a')). split; simpl; [exact Ha|done|lia|].
  destruct Ha as [H1 H2]. unfold Growable.max_memory_size in H2.
  destruct (align_offset_spec 3 (Growable._offset a') ltac:(lia) ltac:(lia)) as (H3 & _). change (2 ^ 3) with 8 in H3. lia.
Qed.

Context (Harena : Growable._capacity a0 <= Growable.max_memory_size).

Lemma code_section_typed h p n l p' :
  parsed h p -> h < 11 -> Forall (body_ok options) l ->
  write_code_out (W := t) options n l p = Ret p' -> compiled_module (pr_mod p').
Proof.
  intros Hp Hh Hl E. unfold write_code_out in E.
  apply bind_Ret in E as ([w a] & E1 & E). apply bind_Ret in E as ([bodies [[w1 n1] m1]] & E2 & E).
  apply bind_Ret in E as ([[] a2] & E3 & E). injection E as <-.
  apply (run_post _ _ _ _ _ (construct_post n (pr_allocator p) ltac:(by rewrite (st_allocator _ _ _ _ Hp Hh)))) in E1
    as (Hw0 & Hone & first & Hw).
  destruct (write_functions_post _ _ _ _ _ _ _ _ _ _ _ _ Hp Hw (fun _ => Hone) Hl E2) as (_ & _ & Hfirst & Hty).
  rewrite Hw0 in Hfirst. simpl in Hfirst. simpl. unfold BitcodeWriter.install. cbn [code with_code with_maximum_stack with_bitcode].
  intros i b Hb. cbn in Hb |- *. pose proof (nthZ_bounds _ _ _ Hb) as Hi. rewrite nthZ_lookup in Hb by lia.
  rewrite list_lookup_fmap in Hb. destruct (bodies !! Z.to_nat i) as [b0|] eqn:Eb; [|done]. injection Hb as <-.
  assert (Hf : match bodies with b :: _ => fb_code b | [] => 0 end = first).
  { destruct bodies as [|b1 bs]; [done|]. rewrite (Hfirst b1 eq_refl). lia. }
  rewrite Hf. specialize (Hty _ _ Eb). rewrite Z2Nat.id in Hty by lia.
  eapply compiled_function_mono; [|done|reflexivity|exact Hty]. by split.
Qed.

Lemma compiled_of_code : of_code (W := t) options a0 compiled_module.
Proof.
  split.
  - intros m Hm i b Hb. rewrite Hm, nthZ_nil in Hb. done.
  - intros. by eapply code_section_typed.
  - intros l m. by apply compiled_module_same.
  - intros n m. by apply compiled_module_same.
  - intros b m. by apply compiled_module_same.
Qed.
End Writing.
