(* ===== verification/CompiledClaims.v ===== *)
(** * The parser compiles to well-typed code

    The theorem that closes the files on the bitcode: every function of a module that
    [parse_wasm] returns is compiled to cells with a typing. *)
From S2P Require Import Prelude GuardedPtr Leb128 ReaderProofs Allocator Types Validation Writers Parser WriterLaws ModuleSafety ParserClaims CodeTyping CompiledModule.

(** C2. With the option for code behind the end of a function off, and an arena of at most
    1 GiB, what the parser compiles a module to is well typed: for each function body
    there are types of the operands at each cell that can be reached, starting with
    none at the first cell, such that every cell takes operands that are there and
    leaves those its successor expects, every jump (of [br], [br_if], [br_table],
    [if] and [else], all fixed up) lands on a cell of the same function with the
    operands left by its pop count, and the last cell is a [return] with the results
    of the function's type and with the counts the frame needs; operands and locals of
    every function fit the [maximum_stack] of the module.  (With that option on the code
    behind the end of a function is compiled too, and need not be typed.) *)
Theorem parse_wasm_compiled `{sys : Sys} options bs a p :
  Opt.allow_code_after_function_end options = false -> Growable._capacity a <= Growable.max_memory_size ->
  bytes bs -> parse_wasm (W := BitcodeWriter.t) options bs empty_module a = Ret p -> compiled_module options (pr_mod p).
Proof.
  intros Hend Ha Hbs Hp. pose proof (compiled_of_code options a Hend Ha) as HK.
  pose proof (parse_wasm_known options a (compiled_module options) HK bs Hbs) as H. rewrite Hp in H. by destruct H.
Qed.

Lemma parse_wasm_compiled_witness :
  exists p, parse_wasm (W := BitcodeWriter.t) (wr := bitcode_writer (sys := linux)) default_options Example.wasm empty_module Example.arena = Ret p /\
    compiled_module default_options (pr_mod p).
Proof.
  destruct (parse_wasm (W := BitcodeWriter.t) (wr := bitcode_writer (sys := linux)) default_options Example.wasm empty_module Example.arena) as [p|e|y] eqn:E.
  - exists p. split; [reflexivity|]. eapply parse_wasm_compiled; [| | |exact E].
    + reflexivity.
    + vm_compute. discriminate.
    + apply wasm_bytes.
  - exfalso. vm_compute in E. discriminate E.
  - exfalso. vm_compute in E. discriminate E.
Defined.
