(* ===== verification/X86.v ===== *)
(** * The assembler of the JIT (x86_64.hpp)

    [machine_code_writer] appends bytes of x86-64 code at the pointer [code].  This file
    has its state, the operands and the encodings ([emit], REX and VEX prefixes, ModRM,
    SIB and displacements), branches and their fix-ups, and the record of the last two
    instructions that folds common sequences.  Pointers are addresses; the bytes of the
    code segment are a map from addresses. *)
From S2P Require Import Prelude Allocator Types LinearMemory.

(** The build and the machine: the compile-time switches ([EOS_VM_SOFTFLOAT],
    [Context::async_backtrace()], the template parameter, [EOS_VM_VALIDATE_JIT_SIZE]), the
    answer of [cpuid], the address of the arena and those of C++ functions, and the blocks
    that [jit_allocator::instance().alloc] returns. *)
Class Jit : Type := {
  use_softfloat : bool;
  async_backtrace : bool;
  StackLimitIsBytes : bool;
  validate_jit_size : bool;
  has_tzcnt : bool;
  arena : Z;
  jit_alloc : Z -> outcome Z;
  address_of : String.string -> Z
}.

Module X86.

(** ** Operands *)

(** The register enumerations by the numbers of their members, memory operands,
    immediates, and the opcode extension in place of a register *)
Inductive operand : Type :=
  | G64 (reg : Z) | G32 (reg : Z) | G16 (reg : Z) | G8 (reg : Z) | Xmm (reg : Z)
  | Simple (reg : Z)                     (* simple_memory_ref *)
  | Disp (reg offset : Z)                (* disp_memory_ref *)
  | Sib (reg1 reg2 offset : Z)           (* sib_memory_ref *)
  | Sized (sz : Z) (value : operand)     (* sized_memory_ref *)
  | Imm8 (value : Z) | Imm32 (value : Z)
  | Int (opext : Z).

Definition rax := G64 0.
Definition rcx := G64 1.
Definition rdx := G64 2.
Definition rbx := G64 3.
Definition rsp := G64 4.
Definition rbp := G64 5.
Definition rsi := G64 6.
Definition rdi := G64 7.
Definition r8 := G64 8.
Definition r9 := G64 9.
Definition eax := G32 0.
Definition ecx := G32 1.
Definition edx := G32 2.
Definition ebx := G32 3.
Definition esi := G32 6.
Definition ax := G16 0.
Definition al := G8 0.
Definition cl := G8 1.
Definition dl := G8 2.
Definition xmm0 := Xmm 0.
Definition xmm1 := Xmm 1.
Definition xmm2 := Xmm 2.
Definition xmm3 := Xmm 3.

(** The number of a register or of an opcode extension *)
Definition num (r : operand) : Z :=
  match r with
  | G64 r | G32 r | G16 r | G8 r | Xmm r | Simple r | Disp r _ | Int r => r
  | Sib _ r _ => r
  | _ => 0
  end.

(** [*reg], [*(reg + offset)], [*(reg1 + reg2 + offset)], [dword_ptr] *)
Definition at_reg (reg : operand) : operand := Simple (num reg).
Definition at_disp (reg : operand) (offset : Z) : operand := Disp (num reg) (sext 32 offset).
Definition at_sib (reg1 reg2 : operand) (offset : Z) : operand := Sib (num reg1) (num reg2) (sext 32 offset).
Definition dword_ptr (m : operand) : operand := Sized 4 m.

(** ** Opcodes *)
Inductive VEX_mmmm : Type := mmmm_none | mmmm_0F | mmmm_0F38 | mmmm_0F3A.
Inductive VEX_pp : Type := pp_none | pp_66 | pp_F3 | pp_F2.
Definition mmmm_code (m : VEX_mmmm) : Z :=
  match m with mmmm_none => 0 | mmmm_0F => 1 | mmmm_0F38 => 2 | mmmm_0F3A => 3 end.
Definition pp_code (p : VEX_pp) : Z :=
  match p with pp_none => 0 | pp_66 => 1 | pp_F3 => 2 | pp_F2 => 3 end.

(** [W] is 0, 1 or -1, for "as the operands say". *)
Inductive instr : Type :=
  | IA32_t (W : Z) (opcode : list Z)
  | IA32_opext (W : Z) (opcode : list Z) (opext : Z)
  | IA32_imm (bits : Z) (base : instr)
  | VEX (SZ : Z) (pp : VEX_pp) (mmmm : VEX_mmmm) (W : Z) (opext : option Z) (opcode : Z).

Definition IA32 : list Z -> instr := IA32_t 0.
Definition IA32_REX_W : list Z -> instr := IA32_t 1.
Definition IA32_WX : list Z -> instr := IA32_t (-1).
Definition IA32_WX_imm8 (op : list Z) : instr := IA32_imm 8 (IA32_WX op).
Definition IA32_WX_imm32 (op : list Z) : instr := IA32_imm 32 (IA32_WX op).
(** [operator/] *)
Fixpoint over (i : instr) (opext : Z) : instr :=
  match i with
  | IA32_t W op => IA32_opext W op opext
  | IA32_imm bits base => IA32_imm bits (over base opext)
  | _ => i
  end.

Definition ADD_A := IA32_WX [0x03].
Definition ADD_imm8 := over (IA32_WX_imm8 [0x83]) 0.
Definition ADD_imm32 := over (IA32_WX_imm32 [0x81]) 0.
Definition AND_A := IA32_WX [0x23].
Definition AND_imm32 := over (IA32_WX_imm32 [0x81]) 4.
Definition BSF := IA32_WX [0x0f; 0xbc].
Definition BSR := IA32_WX [0x0f; 0xbd].
Definition CALL := over (IA32 [0xff]) 2.
Definition CDQ := IA32 [0x99].
Definition CLD := IA32 [0xFC].
Definition CMOVZ := IA32_WX [0x0f; 0x44].
Definition CMP := IA32_WX [0x3b].
Definition CMP_imm8 := over (IA32_WX_imm8 [0x83]) 7.
Definition CMP_imm32 := over (IA32_WX_imm32 [0x81]) 7.
Definition DEC := over (IA32_WX [0xFF]) 1.
Definition DECD := over (IA32 [0xFF]) 1.
Definition DIV := over (IA32_WX [0xf7]) 6.
Definition IDIV := over (IA32_WX [0xf7]) 7.
Definition IMUL := IA32_WX [0x0f; 0xaf].
Definition INCD := over (IA32 [0xFF]) 0.
(** [Jcc]: the opcode of the 8-bit form *)
Definition JB : Z := 0x72.
Definition JAE : Z := 0x73.
Definition JE : Z := 0x74.
Definition JZ : Z := 0x74.
Definition JNE : Z := 0x75.
Definition JNZ : Z := 0x75.
Definition JBE : Z := 0x76.
Definition JA : Z := 0x77.
Definition JL : Z := 0x7c.
Definition JGE : Z := 0x7d.
Definition JLE : Z := 0x7e.
Definition JG : Z := 0x7f.
Definition JMP_8 := IA32 [0xeb].
Definition JMP_32 := IA32 [0xe9].
Definition LDMXCSR := over (IA32 [0x0f; 0xae]) 2.
Definition LEA := IA32_WX [0x8d].
Definition MOVB_A := IA32 [0x8a].
Definition MOVB_B := IA32 [0x88].
Definition MOVW_B := IA32 [0x66; 0x89].
Definition MOV_A := IA32_WX [0x8b].
Definition MOV_B := IA32_WX [0x89].
Definition MOVZXB := IA32 [0x0f; 0xb6].
Definition MOVZXW := IA32_WX [0x0f; 0xb7].
Definition MOVSXB := IA32_WX [0x0f; 0xbe].
Definition MOVSXW := IA32_WX [0x0f; 0xbf].
Definition MOVSXD := IA32_WX [0x63].
Definition NEG := over (IA32_WX [0xf7]) 3.
Definition NOT := over (IA32_WX [0xf7]) 2.
Definition LZCNT := IA32_WX [0xf3; 0x0f; 0xbd].
Definition OR_A := IA32_WX [0x0B].
Definition OR_imm8 := over (IA32_WX_imm8 [0x83]) 1.
Definition OR_imm32 := over (IA32_WX_imm32 [0x81]) 1.
Definition POPCNT := IA32_WX [0xf3; 0x0f; 0xb8].
Definition ROL_cl := over (IA32_WX [0xd3]) 0.
Definition ROR_cl := over (IA32_WX [0xd3]) 1.
Definition SETZ := IA32 [0x0f; 0x94].
Definition SETNZ := IA32 [0x0f; 0x95].
Definition SAR_cl := over (IA32_WX [0xd3]) 7.
Definition SAR_imm8 := over (IA32_WX [0xc1]) 7.
Definition SHL_cl := over (IA32_WX [0xd3]) 4.
Definition SHL_imm8 := over (IA32_WX [0xc1]) 4.
Definition SHR_cl := over (IA32_WX [0xd3]) 5.
Definition SHR_imm8 := over (IA32_WX_imm8 [0xc1]) 5.
Definition STD := IA32 [0xFD].
Definition STMXCSR := over (IA32 [0x0f; 0xae]) 3.
Definition SUB_A := IA32_WX [0x2b].
Definition SUB_imm8 := over (IA32_WX_imm8 [0x83]) 5.
Definition SUB_imm32 := over (IA32_WX_imm32 [0x81]) 5.
Definition TZCNT := IA32_WX [0xf3; 0x0f; 0xbc].
Definition RET := IA32 [0xc3].
Definition TEST := IA32_WX [0x85].
Definition XOR_A := IA32_WX [0x33].
Definition XOR_imm8 := over (IA32_WX_imm8 [0x83]) 6.
Definition XOR_imm32 := over (IA32_WX_imm32 [0x81]) 6.

(** The VEX opcodes *)
Definition VEX_128_66_0F_W0 (opcode : Z) : instr := VEX 128 pp_66 mmmm_0F 0 None opcode.
Definition VEX_128_66_0F_W1 (opcode : Z) : instr := VEX 128 pp_66 mmmm_0F 1 None opcode.
Definition VEX_128_66_0F38_W0 (opcode : Z) : instr := VEX 128 pp_66 mmmm_0F38 0 None opcode.
Definition VEX_128_0F_W0 (opcode : Z) : instr := VEX 128 pp_none mmmm_0F 0 None opcode.
Definition VEX_128_66_0F3A_W0 (opcode : Z) : instr := VEX 128 pp_66 mmmm_0F3A 0 None opcode.
Definition VEX_128_66_0F3A_W1 (opcode : Z) : instr := VEX 128 pp_66 mmmm_0F3A 1 None opcode.
Definition VEX_128_F3_0F_W0 (opcode : Z) : instr := VEX 128 pp_F3 mmmm_0F 0 None opcode.
Definition VMOVD_A := VEX_128_66_0F_W0 0x6e.
Definition VMOVQ_A := VEX_128_66_0F_W1 0x6e.
Definition VMOVDQU_A := VEX_128_F3_0F_W0 0x6f.
Definition VMOVDQU_B := VEX_128_F3_0F_W0 0x7f.
Definition VMOVUPS_A := VEX_128_66_0F_W0 0x10.
Definition VMOVUPS_B := VEX_128_66_0F_W0 0x11.
Definition VMOVMSKPS := VEX_128_0F_W0 0x50.
Definition VMOVMSKPD := VEX_128_66_0F_W0 0x50.
Definition VPABSB := VEX_128_66_0F38_W0 0x1c.
Definition VPABSW := VEX_128_66_0F38_W0 0x1d.
Definition VPABSD := VEX_128_66_0F38_W0 0x1e.
Definition VPACKSSWB := VEX_128_66_0F_W0 0x63.
Definition VPACKSSDW := VEX_128_66_0F_W0 0x6b.
Definition VPACKUSWB := VEX_128_66_0F_W0 0x67.
Definition VPACKUSDW := VEX_128_66_0F38_W0 0x2b.
Definition VPADDB := VEX_128_66_0F_W0 0xfc.
Definition VPADDW := VEX_128_66_0F_W0 0xfd.
Definition VPADDD := VEX_128_66_0F_W0 0xfe.
Definition VPADDQ := VEX_128_66_0F_W0 0xd4.
Definition VPADDSB := VEX_128_66_0F_W0 0xec.
Definition VPADDSW := VEX_128_66_0F_W0 0xed.
Definition VPADDUSB := VEX_128_66_0F_W0 0xdc.
Definition VPADDUSW := VEX_128_66_0F_W0 0xdd.
Definition VPAND := VEX_128_66_0F_W0 0xdb.
Definition VPANDN := VEX_128_66_0F_W0 0xdf.
Definition VPAVGB := VEX_128_66_0F_W0 0xe0.
Definition VPAVGW := VEX_128_66_0F_W0 0xe3.
Definition VPBROADCASTB := VEX_128_66_0F38_W0 0x78.
Definition VPBROADCASTW := VEX_128_66_0F38_W0 0x79.
Definition VPBROADCASTD := VEX_128_66_0F38_W0 0x58.
Definition VPBROADCASTQ := VEX_128_66_0F38_W0 0x59.
Definition VPCMPEQB := VEX_128_66_0F_W0 0x74.
Definition VPCMPEQW := VEX_128_66_0F_W0 0x75.
Definition VPCMPEQD := VEX_128_66_0F_W0 0x76.
Definition VPCMPEQQ := VEX_128_66_0F38_W0 0x29.
Definition VPCMPGTB := VEX_128_66_0F_W0 0x64.
Definition VPCMPGTW := VEX_128_66_0F_W0 0x65.
Definition VPCMPGTD := VEX_128_66_0F_W0 0x66.
Definition VPCMPGTQ := VEX_128_66_0F38_W0 0x37.
Definition VPEXTRB := VEX_128_66_0F3A_W0 0x14.
Definition VPEXTRW := VEX_128_66_0F3A_W0 0x15.
Definition VPEXTRD := VEX_128_66_0F3A_W0 0x16.
Definition VPEXTRQ := VEX_128_66_0F3A_W1 0x16.
Definition VPINSRB := VEX_128_66_0F3A_W0 0x20.
Definition VPINSRW := VEX_128_66_0F_W0 0xc4.
Definition VPINSRD := VEX_128_66_0F3A_W0 0x22.
Definition VPINSRQ := VEX_128_66_0F3A_W1 0x22.
Definition VPHADDW := VEX_128_66_0F38_W0 0x01.
Definition VPHADDD := VEX_128_66_0F38_W0 0x02.
Definition VPMADDWD := VEX_128_66_0F_W0 0xf5.
Definition VPMAXSB := VEX_128_66_0F38_W0 0x3c.
Definition VPMAXSW := VEX_128_66_0F_W0 0xee.
Definition VPMAXSD := VEX_128_66_0F38_W0 0x3d.
Definition VPMAXUB := VEX_128_66_0F_W0 0xde.
Definition VPMAXUW := VEX_128_66_0F38_W0 0x3e.
Definition VPMAXUD := VEX_128_66_0F38_W0 0x3f.
Definition VPMINSB := VEX_128_66_0F38_W0 0x38.
Definition VPMINSW := VEX_128_66_0F_W0 0xea.
Definition VPMINSD := VEX_128_66_0F38_W0 0x39.
Definition VPMINUB := VEX_128_66_0F_W0 0xda.
Definition VPMINUW := VEX_128_66_0F38_W0 0x3a.
Definition VPMINUD := VEX_128_66_0F38_W0 0x3b.
Definition VPMOVMSKB := VEX_128_66_0F_W0 0xd7.
Definition VPMOVSXBW := VEX_128_66_0F38_W0 0x20.
Definition VPMOVSXWD := VEX_128_66_0F38_W0 0x23.
Definition VPMOVSXDQ := VEX_128_66_0F38_W0 0x25.
Definition VPMOVZXBW := VEX_128_66_0F38_W0 0x30.
Definition VPMOVZXWD := VEX_128_66_0F38_W0 0x33.
Definition VPMOVZXDQ := VEX_128_66_0F38_W0 0x35.
Definition VPMULHW := VEX_128_66_0F_W0 0xe5.
Definition VPMULHUW := VEX_128_66_0F_W0 0xe4.
Definition VPMULHRSW := VEX_128_66_0F38_W0 0x0b.
Definition VPMULLW := VEX_128_66_0F_W0 0xd5.
Definition VPMULLD := VEX_128_66_0F38_W0 0x40.
Definition VPMULDQ := VEX_128_66_0F38_W0 0x28.
Definition VPMULUDQ := VEX_128_66_0F_W0 0xf4.
Definition VPOR := VEX_128_66_0F_W0 0xeb.
Definition VPSHUFB := VEX_128_66_0F38_W0 0x00.
Definition VPSHUFD := VEX_128_66_0F_W0 0x70.
Definition VPSLLW := VEX_128_66_0F_W0 0xf1.
Definition VPSLLW_c := VEX 128 pp_66 mmmm_0F 0 (Some 6) 0x71.
Definition VPSLLD := VEX_128_66_0F_W0 0xf2.
Definition VPSLLQ := VEX_128_66_0F_W0 0xf3.
Definition VPSRAW := VEX_128_66_0F_W0 0xe1.
Definition VPSRAW_c := VEX 128 pp_66 mmmm_0F 0 (Some 4) 0x71.
Definition VPSRAD := VEX_128_66_0F_W0 0xe2.
Definition VPSRLDQ_c := VEX 128 pp_66 mmmm_0F 0 (Some 3) 0x73.
Definition VPSRLW := VEX_128_66_0F_W0 0xd1.
Definition VPSRLD := VEX_128_66_0F_W0 0xd2.
Definition VPSRLQ := VEX_128_66_0F_W0 0xd3.
Definition VPSRLQ_c := VEX 128 pp_66 mmmm_0F 0 (Some 2) 0x73.
Definition VPSUBB := VEX_128_66_0F_W0 0xf8.
Definition VPSUBW := VEX_128_66_0F_W0 0xf9.
Definition VPSUBD := VEX_128_66_0F_W0 0xfa.
Definition VPSUBQ := VEX_128_66_0F_W0 0xfb.
Definition VPSUBSB := VEX_128_66_0F_W0 0xe8.
Definition VPSUBSW := VEX_128_66_0F_W0 0xe9.
Definition VPSUBUSB := VEX_128_66_0F_W0 0xd8.
Definition VPSUBUSW := VEX_128_66_0F_W0 0xd9.
Definition VPTEST := VEX_128_66_0F38_W0 0x17.
Definition VPUNPCKHWD := VEX_128_66_0F_W0 0x69.
Definition VPUNPCKLDQ := VEX_128_66_0F_W0 0x62.
Definition VPXOR := VEX_128_66_0F_W0 0xef.

(** ** The state of the writer *)

(** What is known of the last instructions *)
Inductive recent_data : Type :=
  | no_op
  | generic_register_push_op (reg : operand)
  | get_local_op (expr : operand)
  | i32_const_op (value : Z)
  | i64_const_op (value : Z)
  | condition_op (branchop : Z)
  | xmm_register_push_op (reg : operand).
Record recent_op_t : Type := RecentOp { op_start : Z; op_end : Z; op_data : recent_data }.
(** [{}] *)
Definition no_recent : recent_op_t := RecentOp 0 0 no_op.

(** [function_locals::entry] *)
Record local_group : Type := LocalGroup { lg_end : Z; lg_end_offset : Z; lg_elem_size : Z }.

(** An element of [_function_relocations]: the calls that wait for the function, or its
    address *)
Inductive relocation : Type := Calls (branches : list Z) | Address (addr : Z).

(** The members; [bytes] is what was written to the code segment. *)
Record t : Type := Make {
  _mod : module;
  _allocator : Growable.t;
  bytes : gmap Z Z;
  _code_segment_base : Z;
  _ft : func_type;
  _params : list Z;
  _locals : list local_group;
  _code_start : Z;
  _code_end : Z;
  code : Z;
  _function_relocations : list relocation;
  fpe_handler : Z;
  call_indirect_handler : Z;
  type_error_handler : Z;
  stack_overflow_handler : Z;
  memory_handler : Z;
  _local_count : Z;
  stack_usage : Z;
  stack_limit_entry : Z;
  recent_ops0 : recent_op_t;
  recent_ops1 : recent_op_t
}.

Definition set_allocator x (s : t) : t :=
  Make (_mod s) x (bytes s) (_code_segment_base s) (_ft s) (_params s) (_locals s) (_code_start s) (_code_end s) (code s) (_function_relocations s)
    (fpe_handler s) (call_indirect_handler s) (type_error_handler s) (stack_overflow_handler s) (memory_handler s) (_local_count s)
    (stack_usage s) (stack_limit_entry s) (recent_ops0 s) (recent_ops1 s).
Definition set_bytes x (s : t) : t :=
  Make (_mod s) (_allocator s) x (_code_segment_base s) (_ft s) (_params s) (_locals s) (_code_start s) (_code_end s) (code s) (_function_relocations s)
    (fpe_handler s) (call_indirect_handler s) (type_error_handler s) (stack_overflow_handler s) (memory_handler s) (_local_count s)
    (stack_usage s) (stack_limit_entry s) (recent_ops0 s) (recent_ops1 s).
Definition set_function ft ps ls (s : t) : t :=
  Make (_mod s) (_allocator s) (bytes s) (_code_segment_base s) ft ps ls (_code_start s) (_code_end s) (code s) (_function_relocations s)
    (fpe_handler s) (call_indirect_handler s) (type_error_handler s) (stack_overflow_handler s) (memory_handler s) (_local_count s)
    (stack_usage s) (stack_limit_entry s) (recent_ops0 s) (recent_ops1 s).
Definition set_code_block start finish (s : t) : t :=
  Make (_mod s) (_allocator s) (bytes s) (_code_segment_base s) (_ft s) (_params s) (_locals s) start finish (code s) (_function_relocations s)
    (fpe_handler s) (call_indirect_handler s) (type_error_handler s) (stack_overflow_handler s) (memory_handler s) (_local_count s)
    (stack_usage s) (stack_limit_entry s) (recent_ops0 s) (recent_ops1 s).
Definition set_code x (s : t) : t :=
  Make (_mod s) (_allocator s) (bytes s) (_code_segment_base s) (_ft s) (_params s) (_locals s) (_code_start s) (_code_end s) x (_function_relocations s)
    (fpe_handler s) (call_indirect_handler s) (type_error_handler s) (stack_overflow_handler s) (memory_handler s) (_local_count s)
    (stack_usage s) (stack_limit_entry s) (recent_ops0 s) (recent_ops1 s).
Definition set_relocations x (s : t) : t :=
  Make (_mod s) (_allocator s) (bytes s) (_code_segment_base s) (_ft s) (_params s) (_locals s) (_code_start s) (_code_end s) (code s) x
    (fpe_handler s) (call_indirect_handler s) (type_error_handler s) (stack_overflow_handler s) (memory_handler s) (_local_count s)
    (stack_usage s) (stack_limit_entry s) (recent_ops0 s) (recent_ops1 s).
Definition set_handlers a b c d e (s : t) : t :=
  Make (_mod s) (_allocator s) (bytes s) (_code_segment_base s) (_ft s) (_params s) (_locals s) (_code_start s) (_code_end s) (code s) (_function_relocations s)
    a b c d e (_local_count s) (stack_usage s) (stack_limit_entry s) (recent_ops0 s) (recent_ops1 s).
Definition set_local_count x (s : t) : t :=
  Make (_mod s) (_allocator s) (bytes s) (_code_segment_base s) (_ft s) (_params s) (_locals s) (_code_start s) (_code_end s) (code s) (_function_relocations s)
    (fpe_handler s) (call_indirect_handler s) (type_error_handler s) (stack_overflow_handler s) (memory_handler s) x
    (stack_usage s) (stack_limit_entry s) (recent_ops0 s) (recent_ops1 s).
Definition set_usage x (s : t) : t :=
  Make (_mod s) (_allocator s) (bytes s) (_code_segment_base s) (_ft s) (_params s) (_locals s) (_code_start s) (_code_end s) (code s) (_function_relocations s)
    (fpe_handler s) (call_indirect_handler s) (type_error_handler s) (stack_overflow_handler s) (memory_handler s) (_local_count s)
    x (stack_limit_entry s) (recent_ops0 s) (recent_ops1 s).
Definition set_limit_entry x (s : t) : t :=
  Make (_mod s) (_allocator s) (bytes s) (_code_segment_base s) (_ft s) (_params s) (_locals s) (_code_start s) (_code_end s) (code s) (_function_relocations s)
    (fpe_handler s) (call_indirect_handler s) (type_error_handler s) (stack_overflow_handler s) (memory_handler s) (_local_count s)
    (stack_usage s) x (recent_ops0 s) (recent_ops1 s).
Definition set_recent r0 r1 (s : t) : t :=
  Make (_mod s) (_allocator s) (bytes s) (_code_segment_base s) (_ft s) (_params s) (_locals s) (_code_start s) (_code_end s) (code s) (_function_relocations s)
    (fpe_handler s) (call_indirect_handler s) (type_error_handler s) (stack_overflow_handler s) (memory_handler s) (_local_count s)
    (stack_usage s) (stack_limit_entry s) r0 r1.

Definition unimplemented {A} : M t A := throw (wasm_parse_exception "Sorry, not implemented.").

(** ** Bytes *)
Fixpoint put (a : Z) (bs : list Z) (m : gmap Z Z) : gmap Z Z :=
  match bs with [] => m | b :: bs => put (a + 1) bs (<[a := wrap 8 b]> m) end.

(** [*code++ = val]; behind the block that was allocated the write is undefined. *)
Definition emit_byte (val : Z) : M t unit := fun s =>
  if (_code_start s <=? code s) && (code s <? _code_end s)
  then (Ret tt, set_code (code s + 1) (set_bytes (<[code s := wrap 8 val]> (bytes s)) s))
  else (UB "write outside the allocated code", s).
Fixpoint emit_bytes (vals : list Z) : M t unit :=
  match vals with [] => mret tt | val :: vals => emit_byte val;; emit_bytes vals end.
Definition emit_operand16 (val : Z) : M t unit := emit_bytes (le_encode 2 val).
Definition emit_operand32 (val : Z) : M t unit := emit_bytes (le_encode 4 val).
Definition emit_operand64 (val : Z) : M t unit := emit_bytes (le_encode 8 val).
Definition emit_operand_ptr (val : Z) : M t unit := emit_operand64 val.
Definition emit_operand (imm : operand) : M t unit :=
  match imm with Imm8 v => emit_byte v | Imm32 v => emit_operand32 v | _ => ub "no such overload" end.

(** [memcpy(a, bs)] into code that was written before *)
Definition overwrite (a : Z) (bs : list Z) : M t unit := fun s =>
  if (_code_segment_base s <=? a) && (a + Z.of_nat (length bs) <=? code s)
  then (Ret tt, set_bytes (put a bs (bytes s)) s)
  else (UB "write outside the code", s).

(** ** Branches *)
Definition fix_branch (branch target : Z) : M t unit :=
  let relative := target - (branch + 4) in
  if (0x7FFFFFFF <? relative) || (relative <? -0x80000000) then unimplemented
  else overwrite branch (le_encode 4 relative).
Definition fix_branch8 (branch target : Z) : M t unit :=
  let relative := target - (branch + 1) in
  if (0x7F <? relative) || (relative <? -0x80) then unimplemented
  else overwrite branch (le_encode 1 relative).

Definition emit_branch_target32 : M t Z :=
  result ← gets code;
  emit_operand32 (wrap 32 (3735928555 - wrap 32 result));;
  mret result.
Definition emit_branch_target8 : M t Z :=
  result ← gets code;
  emit_bytes [0xcc];;
  mret result.

(** ** Instruction encoding *)
Definition bit3 (r : Z) : bool := negb (Z.land r 8 =? 0).

Definition emit_REX_prefix (W R X B : bool) : M t unit :=
  if W || R || X || B
  then emit_bytes [Z.lor (Z.lor (Z.lor (Z.lor 0x40 (Z.shiftl (b2z W) 3)) (Z.shiftl (b2z R) 2)) (Z.shiftl (b2z X) 1)) (b2z B)]
  else mret tt.
(** [emit_REX_prefix(W, r_m, reg)] *)
Fixpoint emit_REX_rm (W : bool) (r_m : operand) (reg : Z) : M t unit :=
  match r_m with
  | Sib reg1 reg2 _ => emit_REX_prefix W (bit3 reg) (bit3 reg1) (bit3 reg2)
  | Sized _ value => emit_REX_rm W value reg
  | Imm8 _ | Imm32 _ | Int _ => ub "no such overload"
  | _ => emit_REX_prefix W (bit3 reg) false (bit3 (num r_m))
  end.

Definition emit_VEX_prefix (R X B : bool) (mmmm : VEX_mmmm) (W : bool) (vvvv : Z) (L : bool) (pp : VEX_pp) : M t unit :=
  if X || B || negb (mmmm_code mmmm =? 1) || W
  then emit_bytes [0xc4;
         Z.lor (Z.lor (Z.lor (Z.shiftl (b2z (negb R)) 7) (Z.shiftl (b2z (negb X)) 6)) (Z.shiftl (b2z (negb B)) 5)) (mmmm_code mmmm);
         Z.lor (Z.lor (Z.lor (Z.shiftl (b2z W) 7) (Z.shiftl (Z.lxor vvvv 0xF) 3)) (Z.shiftl (b2z L) 2)) (pp_code pp)]
  else emit_bytes [0xc5;
         Z.lor (Z.lor (Z.lor (Z.shiftl (b2z (negb R)) 7) (Z.shiftl (Z.lxor vvvv 0xF) 3)) (Z.shiftl (b2z L) 2)) (pp_code pp)].

(** The ModRM byte of mode [mod] *)
Definition modrm (mode reg r_m : Z) : Z := Z.lor (Z.lor mode (Z.shiftl (Z.land reg 7) 3)) r_m.

Definition emit_modrm_simple (mem reg : Z) : M t unit :=
  if mem =? 4 then emit_bytes [modrm 0x00 reg 0x04; 0x24]
  else if mem =? 5 then emit_bytes [modrm 0x45 reg 0; 0x00]
  else emit_bytes [modrm 0x00 reg (Z.land mem 7)].
Fixpoint emit_modrm_sib_disp (r_m : operand) (reg : Z) : M t unit :=
  match r_m with
  | Sib reg1 reg2 offset =>
      (if (reg1 =? 4) || (reg2 =? 5) then unimplemented else mret tt);;
      let sib := Z.lor (Z.shiftl (Z.land reg1 7) 3) (Z.land reg2 7) in
      if offset =? 0 then emit_bytes [modrm 0x00 reg 0x4; sib]
      else if (-0x80 <=? offset) && (offset <=? 0x7f) then emit_bytes [modrm 0x40 reg 0x4; sib; offset]
      else emit_bytes [modrm 0x80 reg 0x4; sib];; emit_operand32 offset
  | Disp mem offset =>
      if offset =? 0 then emit_modrm_simple mem reg
      else if (-0x80 <=? offset) && (offset <=? 0x7f) then
        if mem =? 4 then emit_bytes [modrm 0x40 reg 0x04; 0x24; offset]
        else emit_bytes [modrm 0x40 reg (Z.land mem 7); offset]
      else
        (if mem =? 4 then emit_bytes [modrm 0x80 reg 0x04; 0x24]
         else emit_bytes [modrm 0x80 reg (Z.land mem 7)]);;
        emit_operand32 offset
  | Simple mem => emit_modrm_simple mem reg
  | Sized _ value => emit_modrm_sib_disp value reg
  | G64 r | G32 r | G16 r | G8 r | Xmm r => emit_bytes [modrm 0xc0 reg (Z.land r 7)]
  | Imm8 _ | Imm32 _ | Int _ => ub "no such overload"
  end.

Definition get_operand_size (W : Z) (r_m reg : operand) : bool :=
  match reg with
  | G32 _ => W =? 1
  | G64 _ => negb (W =? 0)
  | _ =>
      match r_m with
      | G32 _ | Sized 4 _ => W =? 1
      | _ => negb (W =? 0)
      end
  end.

(** [emit(IA32_t, r_m, reg)] *)
Definition emit_rm (W : Z) (opcode : list Z) (r_m reg : operand) : M t unit :=
  emit_REX_rm (get_operand_size W r_m reg) r_m (num reg);;
  emit_bytes opcode;;
  emit_modrm_sib_disp r_m (num reg).

(** [emit(VEX, r_m, vvvv, reg)]; the overloads without a second source have [vvvv] 0. *)
Definition emit_vex (SZ : Z) (pp : VEX_pp) (mmmm : VEX_mmmm) (W opcode : Z) (r_m : operand) (vvvv : Z) (reg : operand) : M t unit :=
  let X := match r_m with Sib reg1 _ _ => bit3 reg1 | _ => false end in
  emit_VEX_prefix (bit3 (num reg)) X (bit3 (num r_m)) mmmm (negb (W =? 0)) vvvv (SZ =? 256) pp;;
  emit_bytes [opcode];;
  emit_modrm_sib_disp r_m (num reg).

(** [emit(opcode, args...)], by the shape of the arguments *)
Fixpoint emit (op : instr) (args : list operand) : M t unit :=
  match op, args with
  | IA32_imm _ base, imm :: u => emit base u;; emit_operand imm
  | IA32_opext W opcode opext, [r_m] => emit_rm W opcode r_m (Int opext)
  | IA32_opext W opcode opext, [Imm8 imm; r_m] => emit_rm W opcode r_m (Int opext);; emit_byte imm
  | IA32_t W opcode, [] => emit_REX_prefix (negb (W =? 0)) false false false;; emit_bytes opcode
  | IA32_t W opcode, [r_m] => emit_rm W opcode r_m (Int 0)
  | IA32_t W opcode, [r_m; reg] => emit_rm W opcode r_m reg
  | IA32_t W opcode, [Imm8 imm; r_m; reg] => emit_rm W opcode r_m reg;; emit_byte imm
  | VEX SZ pp mmmm W None opcode, [r_m; reg] => emit_vex SZ pp mmmm W opcode r_m 0 reg
  | VEX SZ pp mmmm W (Some opext) opcode, [Imm8 imm; r_m; dest] =>
      emit_vex SZ pp mmmm W opcode r_m (num dest) (Int opext);; emit_byte imm
  | VEX SZ pp mmmm W None opcode, [Imm8 imm; r_m; reg] => emit_vex SZ pp mmmm W opcode r_m 0 reg;; emit_byte imm
  | VEX SZ pp mmmm W None opcode, [r_m; src2; dest] => emit_vex SZ pp mmmm W opcode r_m (num src2) dest
  | VEX SZ pp mmmm W None opcode, [Imm8 imm; r_m; src2; dest] =>
      emit_vex SZ pp mmmm W opcode r_m (num src2) dest;; emit_byte imm
  | _, _ => ub "no such overload"
  end.

(** [reverse_condition] *)
Definition reverse_condition (opcode : Z) : M t Z :=
  if opcode =? JA then mret JBE
  else if opcode =? JBE then mret JA
  else if opcode =? JB then mret JAE
  else if opcode =? JAE then mret JB
  else if opcode =? JE then mret JNE
  else if opcode =? JNE then mret JE
  else if opcode =? JL then mret JGE
  else if opcode =? JGE then mret JL
  else if opcode =? JG then mret JLE
  else if opcode =? JLE then mret JG
  else unimplemented.

Definition emit_setcc (opcode : Z) (reg : operand) : M t unit := emit (IA32 [0x0f; 0x20 + opcode]) [reg].
Definition emit_branch8 (opcode : Z) : M t Z := emit_bytes [opcode];; emit_branch_target8.
(** [emit_branch8(IA32_t)] *)
Definition emit_branch8_op (opcode : instr) : M t Z := emit opcode [];; emit_branch_target8.
Definition emit_branchcc32 (opcode : Z) : M t Z := emit_bytes [0x0f; 0x10 + opcode];; emit_branch_target32.

(** ** Arithmetic with an immediate *)
Definition emit_imm (op8 op32 : instr) (immediate : Z) (dest : operand) : M t unit :=
  if (immediate <=? 0x7F) && (-0x80 <=? immediate) then emit op8 [Imm8 immediate; dest]
  else emit op32 [Imm32 immediate; dest].
Definition emit_add_imm (immediate : Z) (dest : operand) : M t unit := emit_imm ADD_imm8 ADD_imm32 (sext 32 immediate) dest.
Definition emit_add (src dest : operand) : M t unit := emit ADD_A [src; dest].
Definition emit_sub_imm (immediate : Z) (dest : operand) : M t unit := emit_imm SUB_imm8 SUB_imm32 (sext 32 immediate) dest.
Definition emit_sub (src dest : operand) : M t unit := emit SUB_A [src; dest].
Definition emit_cmp (src dest : operand) : M t unit := emit CMP [src; dest].
Definition emit_cmp_imm (immediate : Z) (dest : operand) : M t unit := emit_imm CMP_imm8 CMP_imm32 (sext 32 immediate) dest.
Definition emit_and_imm (immediate : Z) (dest : operand) : M t unit :=
  emit_imm (over (IA32_WX [0x83]) 4) AND_imm32 (sext 32 immediate) dest.
Definition emit_or_imm (immediate : Z) (dest : operand) : M t unit := emit_imm OR_imm8 OR_imm32 (sext 32 immediate) dest.
Definition emit_xor (src dest : operand) : M t unit := emit XOR_A [src; dest].
Definition emit_xor_imm (immediate : Z) (dest : operand) : M t unit := emit_imm XOR_imm8 XOR_imm32 (sext 32 immediate) dest.
(** [emit_call(reg)] *)
Definition emit_call_reg (reg : operand) : M t unit := emit (over (IA32 [0xff]) 2) [reg].

(** ** Moves *)

(** [emit_mov(value, reg)] *)
Definition emit_mov_imm (src : Z) (dest : operand) : M t unit :=
  match dest with
  | G8 r => emit_REX_prefix false false false (negb (Z.land r 7 =? 0));; emit_bytes [Z.lor 0xb0 (Z.land r 7); src]
  | G32 r =>
      emit_REX_prefix false false false (bit3 r);;
      emit_bytes [Z.lor 0xb8 (Z.land r 7)];;
      emit_operand32 src
  | G64 r =>
      emit_REX_prefix true false false (bit3 r);;
      emit_bytes [Z.lor 0xb8 (Z.land r 7)];;
      emit_operand64 src
  | _ => ub "no such overload"
  end.
Definition emit_movd (src : Z) (dest : operand) : M t unit := emit (over (IA32 [0xc7]) 0) [dest];; emit_operand32 src.
(** the other overloads of [emit_mov]; a [simple_memory_ref] converts to a [disp_memory_ref]. *)
Definition emit_mov (src dest : operand) : M t unit :=
  match src, dest with
  | G32 _, (Disp _ _ | Simple _) => emit (IA32 [0x89]) [dest; src]
  | G32 _, G32 _ | (Disp _ _ | Simple _), G32 _ => emit MOV_A [src; dest]
  | G64 _, G64 _ | (Disp _ _ | Simple _), G64 _ => emit MOV_A [src; dest]
  | G64 _, (Disp _ _ | Simple _) => emit MOV_B [dest; src]
  | Sib _ _ _, G8 _ => emit MOVB_A [src; dest]
  | _, _ => ub "no such overload"
  end.
Definition is_memory (m : operand) : bool :=
  match m with Simple _ | Disp _ _ | Sib _ _ _ | Sized _ _ => true | _ => false end.
(** The loads and stores of 16 bytes, by the kinds of their arguments *)
Definition emit_vmovdqu (src dest : operand) : M t unit :=
  if is_memory src then emit VMOVDQU_A [src; dest] else emit VMOVDQU_B [dest; src].
Definition emit_vmovups (src dest : operand) : M t unit :=
  if is_memory src then emit VMOVUPS_A [src; dest] else emit VMOVUPS_B [dest; src].
Definition emit_vmovd (src dest : operand) : M t unit := emit VMOVD_A [src; dest].
Definition emit_vmovq (src dest : operand) : M t unit := emit VMOVQ_A [src; dest].
Definition emit_vpextrb (offset : Z) (src dest : operand) : M t unit := emit VPEXTRB [Imm8 offset; dest; src].
Definition emit_vpextrw (offset : Z) (src dest : operand) : M t unit := emit VPEXTRW [Imm8 offset; dest; src].
Definition emit_vpextrq (offset : Z) (src dest : operand) : M t unit := emit VPEXTRQ [Imm8 offset; dest; src].
Definition emit_const_zero (reg : operand) : M t unit := emit VPXOR [reg; reg; reg].
Definition emit_const_ones (reg : operand) : M t unit := emit VPCMPEQB [reg; reg; reg].

(** ** Folding: the last two instructions *)
Definition push_recent_op (start : Z) (op : recent_data) : M t unit := modify (fun s =>
  set_recent (if op_end (recent_ops1 s) =? code s then recent_ops0 s else recent_ops1 s)
    (RecentOp start (code s) op) s).

(** [try_pop_recent_op<T>()]; [as_T] is [std::get_if<T>]. *)
Definition try_pop_recent_op {A} (as_T : recent_data -> option A) : M t (option A) := fun s =>
  match (if op_end (recent_ops1 s) =? code s then as_T (op_data (recent_ops1 s)) else None) with
  | Some p => (Ret (Some p), set_recent no_recent (recent_ops0 s) (set_code (op_start (recent_ops1 s)) s))
  | None => (Ret None, s)
  end.
Definition as_get_local (d : recent_data) : option operand := match d with get_local_op e => Some e | _ => None end.
Definition as_i32_const (d : recent_data) : option Z := match d with i32_const_op v => Some v | _ => None end.
Definition as_i64_const (d : recent_data) : option Z := match d with i64_const_op v => Some v | _ => None end.
Definition as_condition (d : recent_data) : option Z := match d with condition_op c => Some c | _ => None end.
Definition as_register_push (d : recent_data) : option operand :=
  match d with generic_register_push_op r => Some r | _ => None end.
Definition as_xmm_push (d : recent_data) : option operand := match d with xmm_register_push_op r => Some r | _ => None end.

(** The last instruction ends in [push %rax]. *)
Definition ends_in_push (d : recent_data) : bool :=
  match d with get_local_op _ | i32_const_op _ | i64_const_op _ => true | _ => false end.
Definition try_undo_push : M t (option operand) :=
  s ← gets id;
  if op_end (recent_ops1 s) =? code s then
    res ← try_pop_recent_op as_register_push;
    match res with
    | Some reg => mret (Some reg)
    | None =>
        if ends_in_push (op_data (recent_ops1 s)) then
          modify (fun s => set_recent no_recent no_recent (set_code (code s - 1) s));;
          mret (Some rax)
        else mret None
    end
  else mret None.

Definition set_branch_target : M t unit := modify (set_recent no_recent no_recent).

(** [get_addr()], the current write address *)
Definition get_addr (s : t) : Z :=
  if op_end (recent_ops1 s) =? code s then
    if op_end (recent_ops0 s) =? op_start (recent_ops1 s) then op_start (recent_ops0 s) else op_start (recent_ops1 s)
  else code s.

Section Push.
Context `{jit : Jit}.

Definition emit_push (reg : operand) : M t unit :=
  start ← gets code;
  emit_REX_prefix false false false (bit3 (num reg));;
  emit_bytes [Z.lor 0x50 (Z.land (num reg) 7)];;
  push_recent_op start (generic_register_push_op reg).

Definition emit_pop (reg : operand) : M t unit :=
  let pop :=
    emit_REX_prefix false false false (bit3 (num reg));;
    emit_bytes [Z.lor 0x58 (Z.land (num reg) 7)] in
  if validate_jit_size then pop else
  c ← try_pop_recent_op as_i32_const;
  match c with Some value => emit_mov_imm value (G32 (num reg)) | None =>
  c ← try_pop_recent_op as_i64_const;
  match c with Some value => emit_mov_imm value reg | None =>
  push ← try_undo_push;
  match push with
  | Some r => if num r =? num reg then mret tt else emit_mov r reg
  | None => pop
  end end end.

Definition emit_push_v128 (reg : operand) : M t unit :=
  start ← gets code;
  emit_sub_imm 16 rsp;;
  emit_vmovdqu reg (at_reg rsp);;
  push_recent_op start (xmm_register_push_op reg).
Definition emit_pop_v128 (reg : operand) : M t unit :=
  push ← try_pop_recent_op as_xmm_push;
  match push with
  | Some r => if num r =? num reg then mret tt else emit VMOVDQU_A [r; reg]
  | None => emit_vmovdqu (at_reg rsp) xmm0;; emit_add_imm 16 rsp
  end.

(** The scope guards [variable_size_instr] and [fixed_size_instr] around the code they
    cover: the size is asserted when the sizes are validated. *)
Definition variable_size_instr {A} (min max : Z) (body : M t A) : M t A :=
  start ← gets code;
  r ← body;
  finish ← gets code;
  if validate_jit_size && negb ((start + min <=? finish) && (finish <=? start + max)) then ub "assertion failed: code size"
  else mret r.
Definition fixed_size_instr {A} (expected : Z) (body : M t A) : M t A := variable_size_instr expected expected body.
Definition softfloat_instr {A} (hard soft softbt : Z) (body : M t A) : M t A :=
  fixed_size_instr (if use_softfloat then (if async_backtrace then softbt else soft) else hard) body.
Definition simd_instr {A} (body : M t A) : M t A := variable_size_instr 0 64 body.
End Push.

End X86.
