(* ===== verification/X86Control.v ===== *)
(** * The JIT's control flow (x86_64.hpp)

    The helpers that keep the machine stack and the backtrace in order, the error
    handlers and host calls, branches and branch tables, calls and their
    relocations, locals and globals, and the frame of a function.  A pointer into the
    code is an address; an [assert] that fails is undefined behaviour. *)
From S2P Require Import Prelude Allocator Types LinearMemory X86.
Import X86.

Module X86Control.

Definition on_allocator {A} (k : M Growable.t A) : M t A := fun s =>
  let '(r, a) := k (_allocator s) in (r, set_allocator a s).
Definition assertion (b : bool) (why : string) : M t unit := if b then mret tt else ub why.

(** ** The stack frame *)

(** the constructor of [function_parameters]: the offsets of the parameters, the last
    one first *)
Fixpoint parameter_offsets (current_offset : Z) (types : list Z) : outcome (list Z) :=
  match types with
  | [] => Ret []
  | ty :: types =>
      EOS_VM_ASSERT (current_offset <=? 0x7fffffff) (wasm_parse_exception "Sorry, not implemented.");;
      l ← parameter_offsets (wrap 32 (current_offset + if ty =? v128 then 16 else 8)) types;
      Ret (current_offset :: l)
  end.
Definition function_parameters (ft : func_type) : outcome (list Z) :=
  l ← parameter_offsets 16 (reverse (param_types ft)); Ret (reverse l).

(** the constructor of [function_locals] *)
Fixpoint local_groups (offset frame_offset : Z) (params : list local_entry) : outcome (list local_group) :=
  match params with
  | [] => Ret []
  | p :: params =>
      let size := if local_type p =? v128 then 16 else 8 in
      let offset := wrap 32 (offset + Types.local_count p) in
      EOS_VM_ASSERT (-0x80000000 + size * Types.local_count p <=? frame_offset) (wasm_parse_exception "Sorry, not implemented.");;
      let frame_offset := sext 32 (frame_offset - size * Types.local_count p) in
      l ← local_groups offset frame_offset params;
      Ret (LocalGroup offset frame_offset size :: l)
  end.
Definition function_locals (params : list local_entry) : outcome (list local_group) := local_groups 0 0 params.

(** [std::partition_point] halves the range; [fuel] is at least its length. *)
Fixpoint partition_point {A} (fuel : nat) (pred : A -> bool) (l : list A) (first len : nat) : nat :=
  match fuel with
  | O => first
  | S fuel =>
      if (len =? 0)%nat then first else
      let half := Nat.div2 len in
      match l !! (first + half)%nat with
      | Some x =>
          if pred x then partition_point fuel pred l (first + half + 1) (len - half - 1)
          else partition_point fuel pred l first half
      | None => first
      end
  end.
(** [function_locals::get_frame_offset] *)
Definition local_offset (groups : list local_group) (paramidx : Z) : outcome Z :=
  let pos := partition_point (length groups) (fun e => lg_end e <=? paramidx) groups 0 (length groups) in
  e ← or_UB "assertion failed: no such local" (groups !! pos);
  Ret (sext 32 (lg_end_offset e + wrap 32 (wrap 32 (lg_end e - paramidx - 1) * lg_elem_size e))).
(** [machine_code_writer::get_frame_offset] *)
Definition get_frame_offset (local_idx : Z) (s : t) : outcome Z :=
  let n := Z.of_nat (length (param_types (_ft s))) in
  if local_idx <? n then o ← or_UB "offsets[localidx]" (nthZ (_params s) local_idx); Ret (sext 32 o)
  else local_offset (_locals s) (wrap 32 (local_idx - n)).

Section Control.
Context `{sys : Sys} `{jit : Jit}.

(** ** Backtraces, the alignment of the stack, error handlers *)
Definition emit_setup_backtrace : M t Z :=
  if async_backtrace then
    emit_bytes [0xe8];;
    emit_operand32 0;;
    emit_bytes [0x55];;
    emit_bytes [0x48; 0x89; 0x27];;
    mret 16
  else mret 0.
Definition emit_restore_backtrace_basic : M t unit :=
  if async_backtrace then emit_bytes [0x31; 0xd2];; emit_bytes [0x48; 0x89; 0x17] else mret tt.
Definition emit_restore_backtrace : M t unit :=
  if async_backtrace then emit_restore_backtrace_basic;; emit_bytes [0x48; 0x83; 0xc4; 0x10] else mret tt.

Definition emit_align_stack : M t unit :=
  emit_bytes [0x48; 0x89; 0xe1];;
  emit_bytes [0x48; 0x83; 0xe4; 0xf0];;
  emit_bytes [0x51];;
  emit_bytes [0x51].
(** [emit_align_stack(temp)] *)
Definition emit_align_stack_with (temp : operand) : M t unit :=
  (if bit3 (num temp) then unimplemented else mret tt);;
  emit_bytes [0x48; 0x89; Z.lor 0xe0 (num temp)];;
  emit_bytes [0x48; 0x83; 0xe4; 0xf0];;
  emit_bytes [Z.lor 0x50 (num temp)];;
  emit_bytes [Z.lor 0x50 (num temp)].
Definition emit_restore_stack : M t unit := emit_bytes [0x48; 0x8b; 0x24; 0x24].

Definition emit_error_handler (handler : Z) : M t Z :=
  result ← gets code;
  emit_bytes [0x48; 0x83; 0xe4; 0xf0];;
  emit_bytes [0x48; 0xb8];;
  emit_operand_ptr handler;;
  emit_bytes [0xff; 0xd0];;
  mret result.

Definition emit_host_call (funcnum : Z) : M t unit :=
  let extra := if async_backtrace then 8 else 0 in
  (if async_backtrace then emit_bytes [0x55];; emit_bytes [0x48; 0x89; 0x27] else mret tt);;
  emit_bytes [0xba];;
  emit_operand32 funcnum;;
  emit_bytes [0x57];;
  emit_bytes [0x56];;
  emit_bytes [0x48; 0x8d; 0x74; 0x24; 0x18 + extra];;
  emit_align_stack;;
  emit_mov ebx ecx;;
  emit_bytes [0x48; 0xb8];;
  emit_operand_ptr (address_of "call_host_function");;
  emit_bytes [0xff; 0xd0];;
  emit_restore_stack;;
  emit_bytes [0x5e];;
  emit_bytes [0x5f];;
  (if async_backtrace then emit_restore_backtrace_basic;; emit_bytes [0x5d] else mret tt);;
  emit_bytes [0xc3].

(** ** The limit on the stack: the depth of calls, or bytes *)
Definition emit_check_call_depth : M t unit :=
  if negb StackLimitIsBytes then
    fixed_size_instr 8 (
      emit DECD [ebx];;
      branch ← emit_branchcc32 JZ;
      target ← gets stack_overflow_handler;
      fix_branch branch target)
  else mret tt.
Definition emit_check_call_depth_end : M t unit :=
  if negb StackLimitIsBytes then fixed_size_instr 2 (emit INCD [ebx]) else mret tt.
Definition emit_check_stack_limit : M t unit :=
  if StackLimitIsBytes then
    emit (over (IA32 [0x81]) 5) [ebx];;
    modify (fun s => set_limit_entry (code s) s);;
    emit_bytes [0; 0; 0; 0];;
    branch ← emit_branchcc32 JB;
    target ← gets stack_overflow_handler;
    fix_branch branch target
  else mret tt.
Definition emit_check_stack_limit_end : M t unit :=
  if StackLimitIsBytes then usage ← gets stack_usage; emit_add_imm usage ebx else mret tt.

Definition set_stack_usage (usage : Z) : M t unit :=
  if StackLimitIsBytes then
    let usage := wrap 64 (usage + 16) in
    (if 0x7fffffff <=? usage then unimplemented else mret tt);;
    modify (set_usage usage);;
    entry ← gets stack_limit_entry;
    overwrite entry (le_encode 4 usage)
  else mret tt.

(** ** Dropping operands *)
Definition is_simple_multipop (count rt : Z) : bool :=
  if rt =? pseudo then count =? 0
  else if (rt =? i32) || (rt =? i64) || (rt =? f32) || (rt =? f64) then count =? 1
  else if rt =? v128 then count =? 2
  else false.

(** [emit_multipop(count, rt)] *)
Definition emit_multipop (count rt : Z) : M t unit :=
  variable_size_instr 0 17 (
    if negb (is_simple_multipop count rt) then
      (if rt =? v128 then emit_vmovups (at_reg rsp) xmm0
       else if negb (rt =? pseudo) then emit_mov (at_reg rsp) rax
       else mret tt);;
      let count := if rt =? v128 then wrap 32 (count - 2) else count in
      if negb (Z.land count 0x70000000 =? 0) then emit_bytes [0xCC]
      else
        emit_add_imm (wrap 32 (count * 8)) rsp;;
        (if rt =? v128 then emit_vmovups xmm0 (at_reg rsp)
         else if negb (rt =? pseudo) then emit_push rax
         else mret tt)
    else mret tt).

(** the loop of [emit_multipop(ft)] *)
Fixpoint total_size (total : Z) (types : list Z) : outcome Z :=
  match types with
  | [] => Ret total
  | ty :: types =>
      let total := wrap 32 (total + if ty =? v128 then 16 else 8) in
      EOS_VM_ASSERT (total <=? 0x7fffffff) (wasm_parse_exception "Sorry, not implemented.");;
      total_size total types
  end.
(** [emit_multipop(ft)] *)
Definition emit_multipop_call (ft : func_type) : M t unit :=
  variable_size_instr 0 12 (
    total_size ← lift (total_size 0 (param_types ft));
    if negb (return_count ft =? 0) && (return_type ft =? v128) then
      (if negb (total_size =? 16) then emit_add_imm (total_size - 16) rsp else mret tt);;
      emit_vmovups xmm0 (at_reg rsp)
    else
      (if negb (total_size =? 0) then emit_add_imm total_size rsp else mret tt);;
      if negb (return_count ft =? 0) then emit_push rax else mret tt).

(** ** Branches *)
Definition emit_unreachable : M t unit :=
  fixed_size_instr 16 (emit_error_handler (address_of "on_unreachable");; mret tt).
Definition emit_end : M t Z := set_branch_target;; gets code.
Definition emit_loop : M t Z := set_branch_target;; gets code.
Definition emit_if : M t Z :=
  cond ← try_pop_recent_op as_condition;
  match cond with
  | Some branchop => c ← reverse_condition branchop; emit_branchcc32 c
  | None =>
      fixed_size_instr 9 (
        emit_pop rax;;
        emit TEST [eax; eax];;
        emit_branchcc32 JZ)
  end.
Definition emit_br (depth_change rt : Z) : M t Z :=
  variable_size_instr 5 22 (
    emit_multipop depth_change rt;;
    emit_bytes [0xe9];;
    emit_branch_target32).
Definition emit_return (depth_change rt : Z) : M t Z := emit_br depth_change rt.
Definition emit_else (if_loc : Z) : M t Z :=
  fixed_size_instr 5 (
    result ← emit_br 0 pseudo;
    here ← gets code;
    fix_branch if_loc here;;
    set_branch_target;;
    mret result).
(** A branch around the operands that are dropped *)
Definition emit_br_if_skip (skipop depth_change rt : Z) : M t Z :=
  skip ← emit_branch8 skipop;
  emit_multipop depth_change rt;;
  emit JMP_32 [];;
  result ← emit_branch_target32;
  here ← gets code;
  fix_branch8 skip here;;
  mret result.
Definition emit_br_if (depth_change rt : Z) : M t Z :=
  cond ← try_pop_recent_op as_condition;
  match cond with
  | Some branchop =>
      if is_simple_multipop depth_change rt then emit_branchcc32 branchop
      else c ← reverse_condition branchop; emit_br_if_skip c depth_change rt
  | None =>
      variable_size_instr 9 27 (
        emit_pop rax;;
        emit TEST [eax; eax];;
        if is_simple_multipop depth_change rt then emit_branchcc32 JNZ
        else emit_br_if_skip JZ depth_change rt)
  end.

(** ** Branch tables *)

(** [stack_item], [br_table_generator]; the stack has its back first. *)
Record stack_item : Type := StackItem { si_min : Z; si_max : Z; branch_target : option Z }.
Record br_table_generator : Type := Generator { _i : Z; stack : list stack_item }.

Definition emit_br_table (table_size : Z) : M t br_table_generator :=
  emit_pop rax;;
  mret (Generator 0 [StackItem 0 (wrap 32 (table_size + 1)) None]).

(** The loop of [emit_case]; every turn halves the range on top of the stack. *)
Fixpoint emit_case_loop (fuel : nat) (depth_change rt : Z) (h : br_table_generator) : M t (Z * br_table_generator) :=
  match fuel with
  | O => ub "fuel"
  | S fuel =>
      match stack h with
      | [] => ub "assertion failed: the number of elements in br_table"
      | StackItem min max label :: rest =>
          match label with
          | Some label => here ← gets code; fix_branch label here
          | None => mret tt
          end;;
          if 1 <? wrap 32 (max - min) then
            let mid := wrap 32 (min + wrap 32 (max - min) / 2) in
            mid_label ← fixed_size_instr 11 (
              emit_bytes [0x3d];;
              emit_operand32 mid;;
              emit_bytes [0x0f; 0x83];;
              emit_branch_target32);
            emit_case_loop fuel depth_change rt
              (Generator (_i h) (StackItem min mid None :: StackItem mid max (Some mid_label) :: rest))
          else
            branch ← variable_size_instr 0 22 (
              assertion (min =? wrap 32 (_i h)) "assertion failed: br_table index";;
              if is_simple_multipop depth_change rt then
                match label with
                | Some label => mret label
                | None => emit_bytes [0xe9];; emit_branch_target32
                end
              else
                emit_multipop depth_change rt;;
                emit_bytes [0xe9];;
                emit_branch_target32);
            mret (branch, Generator (_i h + 1) rest)
      end
  end.
Definition emit_case (depth_change rt : Z) (h : br_table_generator) : M t (Z * br_table_generator) :=
  emit_case_loop 33 depth_change rt h.
Definition emit_default (depth_change rt : Z) (h : br_table_generator) : M t (Z * br_table_generator) :=
  r ← emit_case depth_change rt h;
  assertion (bool_decide (stack r.2 = [])) "assertion failed: unexpected default";;
  mret r.
(* end of branches *)

(** ** Calls and their relocations *)

(** [vec.resize(funcnum + 1)] if the vector is shorter *)
Definition resized (funcnum : Z) (vec : list relocation) : list relocation :=
  if Z.of_nat (length vec) <=? funcnum
  then vec ++ replicate (Z.to_nat funcnum + 1 - length vec)%nat (Calls []) else vec.
Definition assign (funcnum : Z) (r : relocation) (vec : list relocation) : M t unit :=
  vec ← lift (or_UB "vec[funcnum]" (insZ vec funcnum r));
  modify (set_relocations vec).

Definition register_call (ptr funcnum : Z) : M t unit :=
  vec ← gets (fun s => resized funcnum (_function_relocations s));
  modify (set_relocations vec);;
  e ← lift (or_UB "vec[funcnum]" (nthZ vec funcnum));
  match e with
  | Address addr => fix_branch ptr addr
  | Calls branches => assign funcnum (Calls (branches ++ [ptr])) vec
  end.
Definition start_function (func_start funcnum : Z) : M t unit :=
  vec ← gets (fun s => resized funcnum (_function_relocations s));
  modify (set_relocations vec);;
  e ← lift (or_UB "vec[funcnum]" (nthZ vec funcnum));
  match e with
  | Address _ => throw std_bad_variant_access
  | Calls branches =>
      eachM (fun branch => fix_branch branch func_start) branches;;
      assign funcnum (Address func_start) vec
  end.

Definition emit_call (ft : func_type) (funcnum : Z) : M t unit :=
  variable_size_instr 15 31 (
    emit_check_call_depth;;
    emit_bytes [0xe8];;
    branch ← emit_branch_target32;
    emit_multipop_call ft;;
    register_call branch funcnum;;
    emit_check_call_depth_end).

(** [_mod.tables[0].limits.initial] *)
Definition table_initial : M t Z :=
  m ← gets _mod;
  tt ← lift (or_UB "tables[0]" (nthZ (tables m) 0));
  mret (initial (table_limits tt)).

Definition emit_call_indirect (ft : func_type) (functypeidx : Z) : M t unit :=
  variable_size_instr 37 64 (
    emit_check_call_depth;;
    table_size ← table_initial;
    emit_pop rax;;
    emit_cmp_imm table_size eax;;
    branch ← emit_branchcc32 JAE;
    target ← gets call_indirect_handler;
    fix_branch branch target;;
    emit SHL_imm8 [Imm8 4; rax];;
    m ← gets _mod;
    (if Mod.indirect_table m 0 then
       emit_mov (at_disp rsi WasmAlloc.table_offset) rcx;;
       emit_add rcx rax
     else emit LEA [at_sib rax rsi WasmAlloc.table_offset; rax]);;
    emit_cmp_imm functypeidx (dword_ptr (at_reg rax));;
    branch ← emit_branchcc32 JNE;
    target ← gets type_error_handler;
    fix_branch branch target;;
    emit CALL [at_disp rax 8];;
    emit_multipop_call ft;;
    emit_check_call_depth_end).

(** ** Parametric instructions, locals and globals *)
Definition emit_drop (type : Z) : M t unit :=
  variable_size_instr 1 4 (if type =? v128 then emit_add_imm 16 rsp else emit_pop rax).

Definition emit_select (type : Z) : M t unit :=
  variable_size_instr 9 20 (
    if type =? v128 then
      emit_pop rax;;
      emit TEST [eax; eax];;
      cond ← emit_branch8 JNZ;
      emit_vmovups (at_reg rsp) xmm0;;
      emit_vmovups xmm0 (at_disp rsp 16);;
      here ← gets code;
      fix_branch8 cond here;;
      emit_add_imm 16 rsp
    else
      emit_pop rax;;
      emit_pop rcx;;
      emit_pop rdx;;
      emit TEST [eax; eax];;
      (if (type =? i32) || (type =? f32) then emit CMOVZ [ecx; edx] else emit CMOVZ [rcx; rdx]);;
      emit_push rdx).

(** [*(rbp + get_frame_offset(local_idx))] *)
Definition frame_slot (local_idx : Z) : M t operand :=
  s ← gets id;
  o ← lift (get_frame_offset local_idx s);
  mret (at_disp rbp o).

Definition emit_get_local (local_idx type : Z) : M t unit :=
  start ← gets code;
  variable_size_instr 5 17 (
    addr ← frame_slot local_idx;
    if negb (type =? v128) then
      emit_mov addr rax;;
      emit_push rax;;
      push_recent_op start (get_local_op addr)
    else
      emit_vmovups addr xmm0;;
      emit_sub_imm 16 rsp;;
      emit_vmovups xmm0 (at_reg rsp)).
Definition emit_set_local (local_idx type : Z) : M t unit :=
  variable_size_instr 5 17 (
    addr ← frame_slot local_idx;
    if negb (type =? v128) then
      emit_pop rax;;
      emit_mov rax addr
    else
      emit_vmovups (at_reg rsp) xmm0;;
      emit_add_imm 16 rsp;;
      emit_vmovups xmm0 addr).
Definition emit_tee_local (local_idx type : Z) : M t unit :=
  variable_size_instr 5 13 (
    addr ← frame_slot local_idx;
    if negb (type =? v128) then
      emit_pop rax;;
      (if (type =? i32) || (type =? f32) then emit_mov eax addr else emit_mov rax addr);;
      emit_push rax
    else
      emit_vmovups (at_reg rsp) xmm0;;
      emit_vmovups xmm0 addr).

(** [module::get_global_offset]: [idx * sizeof(init_expr) + offsetof(init_expr, value)] *)
Definition get_global_offset (idx : Z) : Z := idx * 24 + 8.
Definition global_type_of (globalidx : Z) : M t Z :=
  m ← gets _mod;
  gl ← lift (or_UB "globals[globalidx]" (nthZ (globals m) globalidx));
  mret (content_type (gl_type gl)).
Definition emit_global_loc (globalidx : Z) : M t operand :=
  let offset := get_global_offset globalidx in
  emit_mov (at_disp rsi (WasmAlloc.globals_end - 8)) rcx;;
  if 0x7fffffff <? offset then
    emit_mov_imm offset rdx;;
    emit_add rdx rcx;;
    mret (at_disp rcx 0)
  else mret (at_disp rcx offset).
Definition emit_get_global (globalidx : Z) : M t unit :=
  variable_size_instr 11 36 (
    type ← global_type_of globalidx;
    loc ← emit_global_loc globalidx;
    if (type =? i32) || (type =? f32) then emit_mov loc eax;; emit_push rax
    else if (type =? i64) || (type =? f64) then emit_mov loc rax;; emit_push rax
    else if type =? v128 then emit_vmovdqu loc xmm0;; emit_push_v128 xmm0
    else ub "assertion failed: unknown global type").
Definition emit_set_global (globalidx : Z) : M t unit :=
  variable_size_instr 11 36 (
    type ← global_type_of globalidx;
    (if type =? v128 then emit_pop_v128 xmm0 else emit_pop rax);;
    loc ← emit_global_loc globalidx;
    if (type =? i32) || (type =? f32) then emit_mov eax loc
    else if (type =? i64) || (type =? f64) then emit_mov rax loc
    else if type =? v128 then emit_vmovdqu xmm0 loc
    else ub "assertion failed: unknown global type").

(** ** Functions *)

(** [_code_start = _allocator.alloc<unsigned char>(size); _code_end = _code_start + size] *)
Definition alloc_block (size : Z) : M t unit :=
  p ← on_allocator (Growable.alloc 1 1 size);
  modify (set_code_block (arena + p) (arena + p + size)).
Definition code_at_start : M t unit := modify (fun s => set_code (_code_start s) s).
Definition reclaim_rest : M t unit :=
  s ← gets id;
  on_allocator (Growable.reclaim 1 (code s - arena) (_code_end s - code s)).

Definition max_prologue_size : Z := 33.
Definition max_epilogue_size : Z := 16.
Definition instruction_size_ratio_upper_bound : Z :=
  if use_softfloat then (if async_backtrace then 63 else 49) else 79.

(** the number of stack slots of the locals, a [uint64_t] *)
Definition slots (locals : list local_entry) : Z :=
  fold_left (fun count l =>
    let count := wrap 64 (count + Types.local_count l) in
    if local_type l =? v128 then wrap 64 (count + Types.local_count l) else count) locals 0.
(** the loop of single pushes *)
Fixpoint push_zeros (n : nat) : M t unit :=
  match n with O => mret tt | S n => emit_bytes [0x50];; push_zeros n end.

(** [body] is [_mod.code[funcnum]]. *)
Definition emit_prologue (locals : list local_entry) (funcnum : Z) (body : function_body) : M t unit :=
  m ← gets _mod;
  ty ← lift (or_UB "functions[funcnum]" (nthZ (functions m) funcnum));
  ft ← lift (or_UB "types[functions[funcnum]]" (nthZ (types m) ty));
  params ← lift (function_parameters ft);
  groups ← lift (function_locals locals);
  modify (set_function ft params groups);;
  alloc_block (max_prologue_size + fb_size body * instruction_size_ratio_upper_bound + max_epilogue_size);;
  code_at_start;;
  start ← gets code;
  start_function start (wrap 32 (funcnum + Mod.get_imported_functions_size m));;
  emit_bytes [0x55];;
  emit_bytes [0x48; 0x89; 0xe5];;
  emit_check_stack_limit;;
  let count := slots locals in
  modify (set_local_count count);;
  (if 0 <? count then
     emit_bytes [0x48; 0x31; 0xc0];;
     if 14 <? count then
       (if 0xFFFFFFFF <? count then emit_bytes [0x48; 0xb9];; emit_operand64 count
        else emit_bytes [0xb9];; emit_operand32 count);;
       loop ← gets code;
       emit_bytes [0x50];;
       (if 0xFFFFFFFF <? count then emit_bytes [0x48] else mret tt);;
       emit_bytes [0xff; 0xc9];;
       emit_bytes [0x0f; 0x85];;
       branch ← emit_branch_target32;
       fix_branch branch loop
     else push_zeros (Z.to_nat count)
   else mret tt);;
  s ← gets id;
  assertion (code s <=? _code_start s + max_prologue_size) "assertion failed: prologue size".

Definition emit_epilogue (ft : func_type) (locals : list local_entry) : M t unit :=
  epilogue_start ← gets code;
  emit_check_stack_limit_end;;
  (if negb (return_count ft =? 0) then
     if return_type ft =? v128 then emit_vmovups (at_reg rsp) xmm0 else emit_pop rax
   else mret tt);;
  count ← gets _local_count;
  (if (0 <? count) || (negb (return_count ft =? 0) && (return_type ft =? v128)) then emit_mov rbp rsp else mret tt);;
  emit_pop rbp;;
  emit RET [];;
  s ← gets id;
  assertion (code s <=? epilogue_start + max_epilogue_size) "assertion failed: epilogue size".

(** [body.jit_code_offset] is kept in the place of [body.code]. *)
Definition finalize (body : function_body) : M t function_body :=
  reclaim_rest;;
  s ← gets id;
  mret (FunctionBody (fb_size body) (fb_locals body) (_code_start s - _code_segment_base s) (fb_stack_size body)).

(** ** The constructor *)

(** The code that calls a function from C++ *)
Definition emit_sysv_abi_interface : M t unit :=
  emit_push rbp;;
  emit_mov rsp rbp;;
  emit_sub_imm 16 rsp;;
  emit TEST [r8; r8];;
  emit (IA32_REX_W [0x0f; 0x45]) [r8; rsp];;
  emit STMXCSR [at_disp rbp (-4)];;
  emit_movd 0x1f80 (at_disp rbp (-8));;
  emit LDMXCSR [at_disp rbp (-8)];;
  emit TEST [r9; r9];;
  loop_end ← emit_branch8 JZ;
  loop ← gets code;
  emit_mov (at_reg rdx) rax;;
  emit_add_imm 8 rdx;;
  emit_push rax;;
  emit DEC [r9];;
  branch ← emit_branch8 JNZ;
  fix_branch8 branch loop;;
  here ← gets code;
  fix_branch8 loop_end here;;
  emit_mov rbx (at_disp rbp (-16));;
  (if async_backtrace then emit_mov (at_disp rdi 16) ebx else emit_mov (at_reg rdi) ebx);;
  (if async_backtrace then emit_mov rbp (at_disp rdi 8) else mret tt);;
  emit_call_reg rcx;;
  (if async_backtrace then emit_xor edx edx;; emit_mov rdx (at_disp rdi 8) else mret tt);;
  emit_mov (at_disp rbp (-16)) rbx;;
  emit LDMXCSR [at_disp rbp (-4)];;
  emit_mov (at_disp rbp 16) edx;;
  emit TEST [edx; edx];;
  is_vector ← emit_branch8 JZ;
  emit_vpextrq 0 xmm0 rax;;
  emit_vpextrq 1 xmm0 rdx;;
  here ← gets code;
  fix_branch8 is_vector here;;
  emit_mov rbp rsp;;
  emit_pop rbp;;
  emit RET [].

Fixpoint emit_host_calls (n : nat) (i : Z) : M t unit :=
  match n with
  | O => mret tt
  | S n => here ← gets code; start_function here i;; emit_host_call i;; emit_host_calls n (i + 1)
  end.

(** The members before the body of the constructor.  Those without an initializer are
    indeterminate; of these only [recent_ops] is read before it is set, and is taken not
    to match [code]. *)
Definition initial_state (m : module) (base : Z) (a : Growable.t) : t :=
  Make m a ∅ base (FuncType 0 [] 0 0) [] [] 0 0 0 [] 0 0 0 0 0 0 0 0 no_recent no_recent.

(** The body of the constructor *)
Definition initialize : M t unit :=
  alloc_block 128;;
  code_at_start;;
  emit_sysv_abi_interface;;
  reclaim_rest;;
  let code_size := 5 * 16 in
  alloc_block code_size;;
  code_at_start;;
  a ← emit_error_handler (address_of "on_fp_error");
  b ← emit_error_handler (address_of "on_call_indirect_error");
  c ← emit_error_handler (address_of "on_type_error");
  d ← emit_error_handler (address_of "on_stack_overflow");
  e ← emit_error_handler (address_of "on_memory_error");
  modify (set_handlers a b c d e);;
  s ← gets id;
  assertion (code s =? _code_end s) "assertion failed: error handlers";;
  m ← gets _mod;
  let num_imported := Mod.get_imported_functions_size m in
  alloc_block ((42 + 10 * b2z async_backtrace) * num_imported);;
  emit_host_calls (Z.to_nat num_imported) 0;;
  s ← gets id;
  assertion (code s =? _code_end s) "assertion failed: host functions".

Definition construct (m : module) (source_bytes : Z) : M Growable.t t := fun a =>
  let '(base, a) := Growable.start_code a in
  match base with
  | Ret base => let '(r, s) := initialize (initial_state m (arena + base) a) in
      (r;; Ret s, _allocator s)
  | Throw e => (Throw e, a)
  | UB why => (UB why, a)
  end.
End Control.
End X86Control.
