(* ===== verification/X86Integer.v ===== *)
(** * The JIT's integer instructions (x86_64.hpp)

    Loads and stores, the operations on memories and tables, constants, comparisons,
    arithmetic and the conversions between the integer types. *)
From S2P Require Import Prelude Allocator Types LinearMemory X86 X86Control.
Import X86 X86Control.

Module X86Integer.
Section Integer.
Context `{sys : Sys} `{jit : Jit}.

Abbreviation table_offset := WasmAlloc.table_offset.

(** ** Addresses, loads and stores *)
Definition emit_pop_address (offset : Z) (out tmpreg : operand) : M t operand :=
  emit_pop out;;
  if negb (Z.land offset 0x80000000 =? 0) then
    emit_mov_imm offset tmpreg;;
    emit_add (G64 (num tmpreg)) out;;
    mret (at_sib out rsi 0)
  else mret (at_sib out rsi offset).
Definition emit_load_impl2 (offset : Z) (instr : X86.instr) (reg : operand) : M t unit :=
  addr ← emit_pop_address offset rax ecx;
  emit instr [addr; reg];;
  emit_push rax.
Definition emit_store_impl2 (offset : Z) (instr : X86.instr) (reg : operand) : M t unit :=
  emit_pop rax;;
  addr ← emit_pop_address offset rcx edx;
  emit instr [addr; reg].
(** [emit_pop_address(offset)]: the native address is in %rax. *)
Definition emit_pop_address_rax (offset : Z) : M t unit :=
  emit_bytes [0x58];;
  (if negb (Z.land offset 0x80000000 =? 0) then
     emit_bytes [0xb9];;
     emit_operand32 offset;;
     emit_bytes [0x48; 0x01; 0xc8]
   else if negb (offset =? 0) then
     emit_bytes [0x48; 0x05];;
     emit_operand32 offset
   else mret tt);;
  emit_bytes [0x48; 0x01; 0xf0].
Definition emit_i32_load (_ : Z) (offset : Z) : M t unit :=
  variable_size_instr 5 13 (emit_load_impl2 offset MOV_A eax).
Definition emit_i64_load (_ : Z) (offset : Z) : M t unit :=
  variable_size_instr 6 14 (emit_load_impl2 offset MOV_A rax).
Definition emit_f32_load (_ : Z) (offset : Z) : M t unit :=
  variable_size_instr 5 13 (emit_load_impl2 offset MOV_A eax).
Definition emit_f64_load (_ : Z) (offset : Z) : M t unit :=
  variable_size_instr 6 14 (emit_load_impl2 offset MOV_A rax).
Definition emit_i32_load8_s (_ : Z) (offset : Z) : M t unit :=
  variable_size_instr 6 14 (emit_load_impl2 offset MOVSXB eax).
Definition emit_i32_load16_s (_ : Z) (offset : Z) : M t unit :=
  variable_size_instr 6 14 (emit_load_impl2 offset MOVSXW eax).
Definition emit_i32_load8_u (_ : Z) (offset : Z) : M t unit :=
  variable_size_instr 6 14 (emit_load_impl2 offset MOVZXB eax).
Definition emit_i32_load16_u (_ : Z) (offset : Z) : M t unit :=
  variable_size_instr 6 14 (emit_load_impl2 offset MOVZXW eax).
Definition emit_i64_load8_s (_ : Z) (offset : Z) : M t unit :=
  variable_size_instr 7 15 (emit_load_impl2 offset MOVSXB rax).
Definition emit_i64_load16_s (_ : Z) (offset : Z) : M t unit :=
  variable_size_instr 7 15 (emit_load_impl2 offset MOVSXW rax).
Definition emit_i64_load32_s (_ : Z) (offset : Z) : M t unit :=
  variable_size_instr 6 14 (emit_load_impl2 offset MOVSXD rax).
Definition emit_i64_load8_u (_ : Z) (offset : Z) : M t unit :=
  variable_size_instr 6 14 (emit_load_impl2 offset MOVZXB eax).
Definition emit_i64_load16_u (_ : Z) (offset : Z) : M t unit :=
  variable_size_instr 6 14 (emit_load_impl2 offset MOVZXW eax).
Definition emit_i64_load32_u (_ : Z) (offset : Z) : M t unit :=
  variable_size_instr 5 13 (emit_load_impl2 offset MOV_A eax).
Definition emit_i32_store (_ : Z) (offset : Z) : M t unit :=
  variable_size_instr 5 13 (emit_store_impl2 offset MOV_B eax).
Definition emit_i64_store (_ : Z) (offset : Z) : M t unit :=
  variable_size_instr 6 14 (emit_store_impl2 offset MOV_B rax).
Definition emit_f32_store (_ : Z) (offset : Z) : M t unit :=
  variable_size_instr 5 13 (emit_store_impl2 offset MOV_B eax).
Definition emit_f64_store (_ : Z) (offset : Z) : M t unit :=
  variable_size_instr 6 14 (emit_store_impl2 offset MOV_B rax).
Definition emit_i32_store8 (_ : Z) (offset : Z) : M t unit :=
  variable_size_instr 5 13 (emit_store_impl2 offset MOVB_B al).
Definition emit_i32_store16 (_ : Z) (offset : Z) : M t unit :=
  variable_size_instr 6 14 (emit_store_impl2 offset MOVW_B ax).
Definition emit_i64_store8 (_ : Z) (offset : Z) : M t unit :=
  variable_size_instr 5 13 (emit_store_impl2 offset MOVB_B al).
Definition emit_i64_store16 (_ : Z) (offset : Z) : M t unit :=
  variable_size_instr 6 14 (emit_store_impl2 offset MOVW_B ax).
Definition emit_i64_store32 (_ : Z) (offset : Z) : M t unit :=
  variable_size_instr 5 13 (emit_store_impl2 offset MOV_B eax).

(** ** Operations on memories and tables *)
Definition emit_current_memory : M t unit :=
  variable_size_instr 17 35 (
    emit_setup_backtrace;;
    emit_push rdi;;
    emit_push rsi;;
    emit_mov_imm (address_of "current_memory") rax;;
    emit CALL [rax];;
    emit_pop rsi;;
    emit_pop rdi;;
    emit_restore_backtrace;;
    emit_push rax).
Definition emit_grow_memory : M t unit :=
  variable_size_instr 20 39 (
    emit_pop rax;;
    emit_setup_backtrace;;
    emit_push rdi;;
    emit_push rsi;;
    emit_mov eax esi;;
    emit_mov_imm (address_of "grow_memory") rax;;
    emit CALL [rax];;
    emit_pop rsi;;
    emit_pop rdi;;
    emit_restore_backtrace;;
    emit_push rax).
Definition emit_memory_init (x : Z) : M t unit :=
  variable_size_instr 25 43 (
    emit_pop r8;;
    emit_pop rcx;;
    emit_pop rdx;;
    emit_setup_backtrace;;
    emit_push rdi;;
    emit_push rsi;;
    emit_mov_imm x esi;;
    emit_mov_imm (address_of "init_memory") rax;;
    emit CALL [rax];;
    emit_pop rsi;;
    emit_pop rdi;;
    emit_restore_backtrace).
Definition emit_data_drop (x : Z) : M t unit :=
  variable_size_instr 21 39 (
    emit_setup_backtrace;;
    emit_push rdi;;
    emit_push rsi;;
    emit_mov_imm x esi;;
    emit_mov_imm (address_of "drop_data") rax;;
    emit CALL [rax];;
    emit_pop rsi;;
    emit_pop rdi;;
    emit_restore_backtrace).
Definition emit_table_init (x : Z) : M t unit :=
  variable_size_instr 25 43 (
    emit_pop r8;;
    emit_pop rcx;;
    emit_pop rdx;;
    emit_setup_backtrace;;
    emit_push rdi;;
    emit_push rsi;;
    emit_mov_imm x esi;;
    emit_mov_imm (address_of "init_table") rax;;
    emit CALL [rax];;
    emit_pop rsi;;
    emit_pop rdi;;
    emit_restore_backtrace).
Definition emit_elem_drop (x : Z) : M t unit :=
  variable_size_instr 21 39 (
    emit_setup_backtrace;;
    emit_push rdi;;
    emit_push rsi;;
    emit_mov_imm x esi;;
    emit_mov_imm (address_of "drop_elem") rax;;
    emit CALL [rax];;
    emit_pop rsi;;
    emit_pop rdi;;
    emit_restore_backtrace).
Definition emit_error : M t unit := unimplemented.
Definition emit_memory_fill : M t unit :=
  fixed_size_instr 18 (
    emit_pop rcx;;
    emit_mov rdi r8;;
    emit_pop rax;;
    emit_pop rdi;;
    emit_add rsi rdi;;
    emit_mov (at_sib rcx rdi (-1)) dl;;
    emit_bytes [0xf3];;
    emit (IA32 [0xaa]) [];;
    emit_mov r8 rdi).
Definition emit_memory_copy : M t unit :=
  fixed_size_instr 60 (
    emit_pop rcx;;
    emit_mov rsi r8;;
    emit_mov rdi r9;;
    emit_pop rsi;;
    emit_pop rdi;;
    emit_add r8 rsi;;
    emit_add r8 rdi;;
    emit_mov rdi rax;;
    emit_sub rsi rax;;
    cmp1 ← emit_branch8 JBE;
    emit_mov (at_sib rcx rdi (-1)) dl;;
    emit CMP [rcx; rax];;
    cmp2 ← emit_branch8 JAE;
    emit LEA [at_sib rcx rsi (-1); rsi];;
    emit LEA [at_sib rcx rdi (-1); rdi];;
    emit STD [];;
    emit_bytes [0xf3];;
    emit (IA32 [0xa4]) [];;
    emit CLD [];;
    emit JMP_8 [];;
    end_ ← emit_branch_target8;
    here ← gets code;
    fix_branch8 cmp1 here;;
    emit_mov (at_sib rcx rsi (-1)) dl;;
    here ← gets code;
    fix_branch8 cmp2 here;;
    emit_bytes [0xf3];;
    emit (IA32 [0xa4]) [];;
    here ← gets code;
    fix_branch8 end_ here;;
    emit_mov r8 rsi;;
    emit_mov r9 rdi).
Definition emit_table_copy : M t unit :=
  m ← gets _mod;
  fixed_size_instr 97 (
    emit_pop rcx;;
    emit_mov rsi r8;;
    emit_mov rdi r9;;
    emit_pop rsi;;
    emit_pop rdi;;
    size ← table_initial;
    emit_mov_imm size eax;;
    emit_sub rcx rax;;
    emit_cmp rax rsi;;
    branch ← emit_branchcc32 JG;
    target ← gets memory_handler;
    fix_branch branch target;;
    emit_cmp rax rdi;;
    branch ← emit_branchcc32 JG;
    target ← gets memory_handler;
    fix_branch branch target;;
    (if Mod.indirect_table m 0 then emit_mov (at_disp r8 table_offset) rax
     else emit LEA [at_disp r8 table_offset; rax]);;
    emit SHL_imm8 [Imm8 4; rsi];;
    emit SHL_imm8 [Imm8 4; rdi];;
    emit SHL_imm8 [Imm8 4; rcx];;
    emit_add rax rsi;;
    emit_add rax rdi;;
    emit_mov rdi rax;;
    emit_sub rsi rax;;
    cmp1 ← emit_branch8 JBE;
    emit CMP [rcx; rax];;
    cmp2 ← emit_branch8 JAE;
    emit LEA [at_sib rcx rsi (-1); rsi];;
    emit LEA [at_sib rcx rdi (-1); rdi];;
    emit STD [];;
    emit_bytes [0xf3];;
    emit (IA32 [0xa4]) [];;
    emit CLD [];;
    emit JMP_8 [];;
    end_ ← emit_branch_target8;
    here ← gets code;
    fix_branch8 cmp1 here;;
    fix_branch8 cmp2 here;;
    emit_bytes [0xf3];;
    emit (IA32 [0xa4]) [];;
    here ← gets code;
    fix_branch8 end_ here;;
    emit_mov r8 rsi;;
    emit_mov r9 rdi).

(** ** Constants *)
Definition emit_i32_const (value : Z) : M t unit :=
  start ← gets code;
  (if value =? 0 then
    fixed_size_instr 3 (
      emit_xor eax eax;;
      emit_push rax)
  else
    fixed_size_instr 6 (
      emit_mov_imm value eax;;
      emit_push rax));;
  push_recent_op start (i32_const_op value).
Definition emit_i64_const (value : Z) : M t unit :=
  start ← gets code;
  fixed_size_instr 11 (
    emit_mov_imm value rax;;
    emit_push rax;;
    push_recent_op start (i64_const_op value)).
Definition emit_f32_const (value : Z) : M t unit :=
  fixed_size_instr 6 (
    emit_mov_imm value eax;;
    emit_push rax).
Definition emit_f64_const (value : Z) : M t unit :=
  fixed_size_instr 11 (
    emit_mov_imm value rax;;
    emit_push rax).

(** ** Comparisons *)
Definition emit_i32_relop (opcode : Z) : M t unit :=
  emit_pop rax;;
  emit_pop rcx;;
  emit XOR_A [edx; edx];;
  emit CMP [eax; ecx];;
  start ← gets code;
  emit_setcc opcode dl;;
  emit_push rdx;;
  push_recent_op start (condition_op opcode).
Definition emit_i64_relop (opcode : Z) : M t unit :=
  emit_bytes [0x58];;
  emit_bytes [0x59];;
  emit_bytes [0x48; 0x31; 0xd2];;
  emit_bytes [0x48; 0x39; 0xc1];;
  emit_bytes [0x0f; opcode; 0xc2];;
  emit_bytes [0x52].
Definition emit_i32_eqz : M t unit :=
  fixed_size_instr 9 (
    emit_pop rax;;
    emit XOR_A [ecx; ecx];;
    emit TEST [eax; eax];;
    start ← gets code;
    emit SETZ [cl];;
    emit_push rcx;;
    push_recent_op start (condition_op JZ)).
Definition emit_i32_eq : M t unit := fixed_size_instr 10 (emit_i32_relop JE).
Definition emit_i32_ne : M t unit := fixed_size_instr 10 (emit_i32_relop JNE).
Definition emit_i32_lt_s : M t unit := fixed_size_instr 10 (emit_i32_relop JL).
Definition emit_i32_lt_u : M t unit := fixed_size_instr 10 (emit_i32_relop JB).
Definition emit_i32_gt_s : M t unit := fixed_size_instr 10 (emit_i32_relop JG).
Definition emit_i32_gt_u : M t unit := fixed_size_instr 10 (emit_i32_relop JA).
Definition emit_i32_le_s : M t unit := fixed_size_instr 10 (emit_i32_relop JLE).
Definition emit_i32_le_u : M t unit := fixed_size_instr 10 (emit_i32_relop JBE).
Definition emit_i32_ge_s : M t unit := fixed_size_instr 10 (emit_i32_relop JGE).
Definition emit_i32_ge_u : M t unit := fixed_size_instr 10 (emit_i32_relop JAE).
Definition emit_i64_eqz : M t unit :=
  fixed_size_instr 11 (
    emit_bytes [0x58];;
    emit_bytes [0x48; 0x31; 0xc9];;
    emit_bytes [0x48; 0x85; 0xc0];;
    emit_bytes [0x0f; 0x94; 0xc1];;
    emit_bytes [0x51]).
Definition emit_i64_eq : M t unit := fixed_size_instr 12 (emit_i64_relop 0x94).
Definition emit_i64_ne : M t unit := fixed_size_instr 12 (emit_i64_relop 0x95).
Definition emit_i64_lt_s : M t unit := fixed_size_instr 12 (emit_i64_relop 0x9c).
Definition emit_i64_lt_u : M t unit := fixed_size_instr 12 (emit_i64_relop 0x92).
Definition emit_i64_gt_s : M t unit := fixed_size_instr 12 (emit_i64_relop 0x9f).
Definition emit_i64_gt_u : M t unit := fixed_size_instr 12 (emit_i64_relop 0x97).
Definition emit_i64_le_s : M t unit := fixed_size_instr 12 (emit_i64_relop 0x9e).
Definition emit_i64_le_u : M t unit := fixed_size_instr 12 (emit_i64_relop 0x96).
Definition emit_i64_ge_s : M t unit := fixed_size_instr 12 (emit_i64_relop 0x9d).
Definition emit_i64_ge_u : M t unit := fixed_size_instr 12 (emit_i64_relop 0x93).

(** ** Arithmetic *)
Definition emit_i32_binop (op : list Z) : M t unit :=
  emit_bytes [0x59];;
  emit_bytes [0x58];;
  emit_bytes op.
Definition emit_i64_binop (op : list Z) : M t unit :=
  emit_bytes [0x59];;
  emit_bytes [0x58];;
  emit_bytes op.
Definition emit_i32_clz : M t unit :=
  fixed_size_instr (if has_tzcnt then 6 else 18) (
    (if negb has_tzcnt then
      emit_pop rax;;
      emit_mov_imm (-1) ecx;;
      emit BSR [eax; eax];;
      emit CMOVZ [ecx; eax];;
      emit_sub_imm 31 eax;;
      emit NEG [eax];;
      emit_push rax
    else
      emit_pop rax;;
      emit LZCNT [eax; eax];;
      emit_push rax)).
Definition emit_i32_ctz : M t unit :=
  fixed_size_instr (if has_tzcnt then 6 else 13) (
    (if negb has_tzcnt then
      emit_pop rax;;
      emit_mov_imm 32 ecx;;
      emit BSF [eax; eax];;
      emit CMOVZ [ecx; eax];;
      emit_push rax
    else
      emit_pop rax;;
      emit TZCNT [eax; eax];;
      emit_push rax)).
Definition emit_i32_popcnt : M t unit :=
  fixed_size_instr 6 (
    emit_pop rax;;
    emit POPCNT [eax];;
    emit_push rax).
Definition emit_i32_add : M t unit :=
  local ← try_pop_recent_op as_get_local;
  match local with
  | Some local =>
      emit_pop rax;;
      emit ADD_A [local; eax];;
      emit_push rax;;
      mret tt
  | None =>
      constant ← try_pop_recent_op as_i32_const;
      match constant with
      | Some constant =>
          let value := constant in
          emit_pop rax;;
          emit_add_imm value eax;;
          emit_push rax;;
          mret tt
      | None =>
          fixed_size_instr 5 (
            emit_pop rax;;
            emit_pop rcx;;
            emit_add ecx eax;;
            emit_push rax)
      end
  end.
Definition emit_i32_sub : M t unit :=
  c ← try_pop_recent_op as_i32_const;
  match c with
  | Some c =>
      emit_pop rax;;
      emit_sub_imm c eax;;
      emit_push rax;;
      mret tt
  | None =>
      fixed_size_instr 5 (
        emit_pop rcx;;
        emit_pop rax;;
        emit_sub ecx eax;;
        emit_push rax)
  end.
Definition emit_i32_mul : M t unit :=
  fixed_size_instr 6 (
    emit_pop rax;;
    emit_pop rcx;;
    emit IMUL [ecx; eax];;
    emit_push rax).
Definition emit_i32_div_s : M t unit :=
  fixed_size_instr 6 (
    emit_pop rcx;;
    emit_pop rax;;
    emit CDQ [];;
    emit IDIV [ecx];;
    emit_push rax).
Definition emit_i32_div_u : M t unit :=
  fixed_size_instr 7 (
    emit_pop rcx;;
    emit_pop rax;;
    emit_xor edx edx;;
    emit DIV [ecx];;
    emit_push rax).
Definition emit_i32_rem_s : M t unit :=
  fixed_size_instr 15 (
    emit_pop rcx;;
    emit_pop rax;;
    emit_cmp_imm (-1) ecx;;
    minus1 ← emit_branch8 JE;
    emit CDQ [];;
    emit IDIV [ecx];;
    end_ ← emit_branch8_op JMP_8;
    here ← gets code;
    fix_branch8 minus1 here;;
    emit_xor edx edx;;
    here ← gets code;
    fix_branch8 end_ here;;
    emit_push rdx).
Definition emit_i32_rem_u : M t unit :=
  fixed_size_instr 7 (
    emit_pop rcx;;
    emit_pop rax;;
    emit_xor edx edx;;
    emit DIV [ecx];;
    emit_push rdx).
Definition emit_i32_and : M t unit :=
  c ← try_pop_recent_op as_i32_const;
  match c with
  | Some c =>
      emit_pop rax;;
      emit_and_imm c eax;;
      emit_push rax;;
      mret tt
  | None =>
      fixed_size_instr 5 (
        emit_pop rax;;
        emit_pop rcx;;
        emit AND_A [ecx; eax];;
        emit_push rax)
  end.
Definition emit_i32_or : M t unit :=
  c ← try_pop_recent_op as_i32_const;
  match c with
  | Some c =>
      emit_pop rax;;
      emit_or_imm c eax;;
      emit_push rax;;
      mret tt
  | None =>
      fixed_size_instr 5 (
        emit_pop rax;;
        emit_pop rcx;;
        emit OR_A [ecx; eax];;
        emit_push rax)
  end.
Definition emit_i32_xor : M t unit :=
  c ← try_pop_recent_op as_get_local;
  match c with
  | Some c =>
      emit_pop rax;;
      emit XOR_A [c; eax];;
      emit_push rax;;
      mret tt
  | None =>
      c ← try_pop_recent_op as_i32_const;
      match c with
      | Some c =>
          emit_pop rax;;
          (if c =? 0xffffffff then emit NOT [eax] else emit_xor_imm c eax);;
          emit_push rax;;
          mret tt
      | None =>
          fixed_size_instr 5 (
            emit_pop rax;;
            emit_pop rcx;;
            emit XOR_A [ecx; eax];;
            emit_push rax)
      end
  end.
Definition emit_i32_shl : M t unit :=
  c ← try_pop_recent_op as_i32_const;
  match c with
  | Some c =>
      emit_pop rax;;
      emit SHL_imm8 [Imm8 (Z.land c 0x1f); eax];;
      emit_push rax;;
      mret tt
  | None =>
      fixed_size_instr 5 (
        emit_pop rcx;;
        emit_pop rax;;
        emit SHL_cl [eax];;
        emit_push rax)
  end.
Definition emit_i32_shr_s : M t unit :=
  fixed_size_instr 5 (
    emit_pop rcx;;
    emit_pop rax;;
    emit SAR_cl [eax];;
    emit_push rax).
Definition emit_i32_shr_u : M t unit :=
  c ← try_pop_recent_op as_i32_const;
  match c with
  | Some c =>
      emit_pop rax;;
      emit SHR_imm8 [Imm8 (Z.land c 0x1f); eax];;
      emit_push rax;;
      mret tt
  | None =>
      fixed_size_instr 5 (
        emit_pop rcx;;
        emit_pop rax;;
        emit SHR_cl [eax];;
        emit_push rax)
  end.
Definition emit_i32_rotl : M t unit :=
  fixed_size_instr 5 (
    emit_pop rcx;;
    emit_pop rax;;
    emit ROL_cl [eax];;
    emit_push rax).
Definition emit_i32_rotr : M t unit :=
  fixed_size_instr 5 (
    emit_pop rcx;;
    emit_pop rax;;
    emit ROR_cl [eax];;
    emit_push rax).
Definition emit_i64_clz : M t unit :=
  fixed_size_instr (if has_tzcnt then 7 else 24) (
    (if negb has_tzcnt then
      emit_bytes [0x58];;
      emit_bytes [0x48; 0xc7; 0xc1; 0xff; 0xff; 0xff; 0xff];;
      emit_bytes [0x48; 0x0f; 0xbd; 0xc0];;
      emit_bytes [0x48; 0x0f; 0x44; 0xc1];;
      emit_bytes [0x48; 0x83; 0xe8; 0x3f];;
      emit_bytes [0x48; 0xf7; 0xd8];;
      emit_bytes [0x50]
    else
      emit_bytes [0x58];;
      emit_bytes [0xf3; 0x48; 0x0f; 0xbd; 0xc0];;
      emit_bytes [0x50])).
Definition emit_i64_ctz : M t unit :=
  fixed_size_instr (if has_tzcnt then 7 else 17) (
    (if negb has_tzcnt then
      emit_bytes [0x58];;
      emit_bytes [0x48; 0xc7; 0xc1; 0x40; 0x00; 0x00; 0x00];;
      emit_bytes [0x48; 0x0f; 0xbc; 0xc0];;
      emit_bytes [0x48; 0x0f; 0x44; 0xc1];;
      emit_bytes [0x50]
    else
      emit_bytes [0x58];;
      emit_bytes [0xf3; 0x48; 0x0f; 0xbc; 0xc0];;
      emit_bytes [0x50])).
Definition emit_i64_popcnt : M t unit :=
  fixed_size_instr 7 (
    emit_bytes [0x58];;
    emit_bytes [0xf3; 0x48; 0x0f; 0xb8; 0xc0];;
    emit_bytes [0x50]).
Definition emit_i64_add : M t unit :=
  c ← try_pop_recent_op as_i64_const;
  match c with
  | Some c =>
      emit_pop rax;;
      emit_mov_imm c rcx;;
      emit_add rcx rax;;
      emit_push rax;;
      mret tt
  | None =>
      fixed_size_instr 6 (
        emit_pop rax;;
        emit_pop rcx;;
        emit_add rcx rax;;
        emit_push rax)
  end.
Definition emit_i64_sub : M t unit := fixed_size_instr 6 (emit_i64_binop [0x48; 0x29; 0xc8; 0x50]).
Definition emit_i64_mul : M t unit :=
  fixed_size_instr 7 (
    emit_pop rax;;
    emit_pop rcx;;
    emit IMUL [rcx; rax];;
    emit_push rax).
Definition emit_i64_div_s : M t unit :=
  fixed_size_instr 8 (emit_i64_binop [0x48; 0x99; 0x48; 0xf7; 0xf9; 0x50]).
Definition emit_i64_div_u : M t unit :=
  fixed_size_instr 9 (emit_i64_binop [0x48; 0x31; 0xd2; 0x48; 0xf7; 0xf1; 0x50]).
Definition emit_i64_rem_s : M t unit :=
  fixed_size_instr 25 (
    emit_bytes [0x59];;
    emit_bytes [0x58];;
    emit_bytes [0x48; 0x83; 0xf9; 0xff];;
    emit_bytes [0x0f; 0x84];;
    minus1 ← emit_branch_target32;
    emit_bytes [0x48; 0x99];;
    emit_bytes [0x48; 0xf7; 0xf9];;
    emit_bytes [0xe9];;
    end_ ← emit_branch_target32;
    here ← gets code;
    fix_branch minus1 here;;
    emit_bytes [0x31; 0xd2];;
    here ← gets code;
    fix_branch end_ here;;
    emit_bytes [0x52]).
Definition emit_i64_rem_u : M t unit :=
  fixed_size_instr 9 (emit_i64_binop [0x48; 0x31; 0xd2; 0x48; 0xf7; 0xf1; 0x52]).
Definition emit_i64_and : M t unit := fixed_size_instr 6 (emit_i64_binop [0x48; 0x21; 0xc8; 0x50]).
Definition emit_i64_or : M t unit := fixed_size_instr 6 (emit_i64_binop [0x48; 0x09; 0xc8; 0x50]).
Definition emit_i64_xor : M t unit := fixed_size_instr 6 (emit_i64_binop [0x48; 0x31; 0xc8; 0x50]).
Definition emit_i64_shl : M t unit :=
  c ← try_pop_recent_op as_i64_const;
  match c with
  | Some c =>
      emit_pop rax;;
      emit SHL_imm8 [Imm8 (Z.land c 0x3f); rax];;
      emit_push rax;;
      mret tt
  | None =>
      fixed_size_instr 6 (
        emit_pop rcx;;
        emit_pop rax;;
        emit SHL_cl [rax];;
        emit_push rax)
  end.
Definition emit_i64_shr_s : M t unit :=
  c ← try_pop_recent_op as_i64_const;
  match c with
  | Some c =>
      emit_pop rax;;
      emit SAR_imm8 [Imm8 (Z.land c 0x3f); rax];;
      emit_push rax;;
      mret tt
  | None =>
      fixed_size_instr 6 (
        emit_pop rcx;;
        emit_pop rax;;
        emit SAR_cl [rax];;
        emit_push rax)
  end.
Definition emit_i64_shr_u : M t unit :=
  c ← try_pop_recent_op as_i64_const;
  match c with
  | Some c =>
      emit_pop rax;;
      emit SHR_imm8 [Imm8 (Z.land c 0x3f); rax];;
      emit_push rax;;
      mret tt
  | None =>
      fixed_size_instr 6 (
        emit_pop rcx;;
        emit_pop rax;;
        emit SHR_cl [rax];;
        emit_push rax)
  end.
Definition emit_i64_rotl : M t unit := fixed_size_instr 6 (emit_i64_binop [0x48; 0xd3; 0xc0; 0x50]).
Definition emit_i64_rotr : M t unit := fixed_size_instr 6 (emit_i64_binop [0x48; 0xd3; 0xc8; 0x50]).

(** ** Conversions between the integer types *)
Definition emit_i32_wrap_i64 : M t unit :=
  fixed_size_instr 4 (
    emit_pop rax;;
    emit_mov eax eax;;
    emit_push rax).
Definition emit_i32_extend8_s : M t unit :=
  fixed_size_instr 7 (
    emit MOVSXB [at_reg rsp; eax];;
    emit_mov eax (at_reg rsp)).
Definition emit_i32_extend16_s : M t unit :=
  fixed_size_instr 7 (
    emit MOVSXW [at_reg rsp; eax];;
    emit_mov eax (at_reg rsp)).
Definition emit_i64_extend_s_i32 : M t unit :=
  fixed_size_instr 8 (
    emit_bytes [0x48; 0x63; 0x04; 0x24];;
    emit_bytes [0x48; 0x89; 0x04; 0x24]).
Definition emit_i64_extend_u_i32 : M t unit := mret tt.
Definition emit_i64_extend8_s : M t unit :=
  fixed_size_instr 9 (
    emit MOVSXB [at_reg rsp; rax];;
    emit_mov rax (at_reg rsp)).
Definition emit_i64_extend16_s : M t unit :=
  fixed_size_instr 9 (
    emit MOVSXW [at_reg rsp; rax];;
    emit_mov rax (at_reg rsp)).
Definition emit_i64_extend32_s : M t unit :=
  fixed_size_instr 8 (
    emit MOVSXD [at_reg rsp; rax];;
    emit_mov rax (at_reg rsp)).
Definition emit_i32_reinterpret_f32 : M t unit := mret tt.
Definition emit_i64_reinterpret_f64 : M t unit := mret tt.
Definition emit_f32_reinterpret_i32 : M t unit := mret tt.
Definition emit_f64_reinterpret_i64 : M t unit := mret tt.
End Integer.
End X86Integer.
