(* ===== verification/X86Float.v ===== *)
(** * The JIT's floating-point instructions (x86_64.hpp)

    Each instruction is either a call to the softfloat library or SSE code.  The
    functions that are called are parameters: [address_of] of the C++ expression. *)
From S2P Require Import Prelude Allocator Types LinearMemory X86 X86Control.
Import X86 X86Control.

Module X86Float.
Section Float.
Context `{sys : Sys} `{jit : Jit}.

(** [CHOOSE_FN(name)]: the adaptor of the function, or [nullptr] *)
Definition choose_fn (name : string) : Z := if use_softfloat then address_of name else 0.

(** ** Calls to the softfloat library *)

(** [emit_softfloat_unop<T, U>]; [T] and [U] are the sizes of the types. *)
Definition emit_softfloat_unop (T U : Z) (softfloatfun : Z) : M t unit :=
  extra ← emit_setup_backtrace;
  emit_bytes [0x57];;
  emit_bytes [0x56];;
  (if U =? 4 then
    emit_bytes [0x8b; 0x7c; 0x24; 0x10 + extra]
  else
    emit_bytes [0x48; 0x8b; 0x7c; 0x24; 0x10 + extra]);;
  emit_align_stack;;
  emit_bytes [0x48; 0xb8];;
  emit_operand_ptr softfloatfun;;
  emit_bytes [0xff; 0xd0];;
  emit_restore_stack;;
  emit_bytes [0x5e];;
  emit_bytes [0x5f];;
  emit_restore_backtrace;;
  (if T =? 4 then emit_bytes [0x89; 0x04; 0x24] else emit_bytes [0x48; 0x89; 0x04; 0x24]).
Definition emit_f32_binop_softfloat (softfloatfun : Z) : M t unit :=
  extra ← emit_setup_backtrace;
  emit_bytes [0x57];;
  emit_bytes [0x56];;
  emit_bytes [0x8b; 0x74; 0x24; 0x10 + extra];;
  emit_bytes [0x8b; 0x7c; 0x24; 0x18 + extra];;
  emit_align_stack;;
  emit_bytes [0x48; 0xb8];;
  emit_operand_ptr softfloatfun;;
  emit_bytes [0xff; 0xd0];;
  emit_restore_stack;;
  emit_bytes [0x5e];;
  emit_bytes [0x5f];;
  emit_restore_backtrace_basic;;
  emit_bytes [0x48; 0x83; 0xc4; 0x08 + extra];;
  emit_bytes [0x89; 0x04; 0x24].
Definition emit_f64_binop_softfloat (softfloatfun : Z) : M t unit :=
  extra ← emit_setup_backtrace;
  emit_bytes [0x57];;
  emit_bytes [0x56];;
  emit_bytes [0x48; 0x8b; 0x74; 0x24; 0x10 + extra];;
  emit_bytes [0x48; 0x8b; 0x7c; 0x24; 0x18 + extra];;
  emit_align_stack;;
  emit_bytes [0x48; 0xb8];;
  emit_operand_ptr softfloatfun;;
  emit_bytes [0xff; 0xd0];;
  emit_restore_stack;;
  emit_bytes [0x5e];;
  emit_bytes [0x5f];;
  emit_restore_backtrace_basic;;
  emit_bytes [0x48; 0x83; 0xc4; 0x08 + extra];;
  emit_bytes [0x48; 0x89; 0x04; 0x24].

(** ** Comparisons *)
Definition emit_f32_relop (opcode : Z) (softfloatfun : Z) (switch_params : bool) (flip_result : bool) : M t unit :=
  (if use_softfloat then
    extra ← emit_setup_backtrace;
    emit_bytes [0x57];;
    emit_bytes [0x56];;
    (if switch_params then
      emit_bytes [0x8b; 0x74; 0x24; 0x18 + extra];;
      emit_bytes [0x8b; 0x7c; 0x24; 0x10 + extra]
    else
      emit_bytes [0x8b; 0x74; 0x24; 0x10 + extra];;
      emit_bytes [0x8b; 0x7c; 0x24; 0x18 + extra]);;
    emit_align_stack;;
    emit_bytes [0x48; 0xb8];;
    emit_operand_ptr softfloatfun;;
    emit_bytes [0xff; 0xd0];;
    emit_restore_stack;;
    emit_bytes [0x5e];;
    emit_bytes [0x5f];;
    emit_restore_backtrace_basic;;
    (if flip_result then emit_bytes [0x34; 0x01] else mret tt);;
    emit_bytes [0x48; 0x83; 0xc4; 0x08 + extra];;
    emit_bytes [0x48; 0x89; 0x04; 0x24]
  else
    (if switch_params then
      emit_bytes [0xf3; 0x0f; 0x10; 0x04; 0x24];;
      emit_bytes [0xf3; 0x0f; 0xc2; 0x44; 0x24; 0x08; opcode]
    else
      emit_bytes [0xf3; 0x0f; 0x10; 0x44; 0x24; 0x08];;
      emit_bytes [0xf3; 0x0f; 0xc2; 0x04; 0x24; opcode]);;
    emit_bytes [0x66; 0x0f; 0x7e; 0xc0];;
    (if negb flip_result then emit_bytes [0x83; 0xe0; 0x01] else emit_bytes [0xff; 0xc0]);;
    emit_bytes [0x48; 0x8d; 0x64; 0x24; 0x10];;
    emit_bytes [0x50]).
Definition emit_f64_relop (opcode : Z) (softfloatfun : Z) (switch_params : bool) (flip_result : bool) : M t unit :=
  (if use_softfloat then
    extra ← emit_setup_backtrace;
    emit_bytes [0x57];;
    emit_bytes [0x56];;
    (if switch_params then
      emit_bytes [0x48; 0x8b; 0x74; 0x24; 0x18 + extra];;
      emit_bytes [0x48; 0x8b; 0x7c; 0x24; 0x10 + extra]
    else
      emit_bytes [0x48; 0x8b; 0x74; 0x24; 0x10 + extra];;
      emit_bytes [0x48; 0x8b; 0x7c; 0x24; 0x18 + extra]);;
    emit_align_stack;;
    emit_bytes [0x48; 0xb8];;
    emit_operand_ptr softfloatfun;;
    emit_bytes [0xff; 0xd0];;
    emit_restore_stack;;
    emit_bytes [0x5e];;
    emit_bytes [0x5f];;
    emit_restore_backtrace_basic;;
    (if flip_result then emit_bytes [0x34; 0x01] else mret tt);;
    emit_bytes [0x48; 0x83; 0xc4; 0x08 + extra];;
    emit_bytes [0x48; 0x89; 0x04; 0x24]
  else
    (if switch_params then
      emit_bytes [0xf2; 0x0f; 0x10; 0x04; 0x24];;
      emit_bytes [0xf2; 0x0f; 0xc2; 0x44; 0x24; 0x08; opcode]
    else
      emit_bytes [0xf2; 0x0f; 0x10; 0x44; 0x24; 0x08];;
      emit_bytes [0xf2; 0x0f; 0xc2; 0x04; 0x24; opcode]);;
    emit_bytes [0x66; 0x0f; 0x7e; 0xc0];;
    (if negb flip_result then emit_bytes [0x83; 0xe0; 0x01] else emit_bytes [0xff; 0xc0]);;
    emit_bytes [0x48; 0x8d; 0x64; 0x24; 0x10];;
    emit_bytes [0x50]).
Definition emit_f32_eq : M t unit :=
  softfloat_instr 25 45 59 (emit_f32_relop 0x00 (choose_fn "_eosio_f32_eq") false false).
Definition emit_f32_ne : M t unit :=
  softfloat_instr 24 47 61 (emit_f32_relop 0x00 (choose_fn "_eosio_f32_eq") false true).
Definition emit_f32_lt : M t unit :=
  softfloat_instr 25 45 59 (emit_f32_relop 0x01 (choose_fn "_eosio_f32_lt") false false).
Definition emit_f32_gt : M t unit :=
  softfloat_instr 25 45 59 (emit_f32_relop 0x01 (choose_fn "_eosio_f32_lt") true false).
Definition emit_f32_le : M t unit :=
  softfloat_instr 25 45 59 (emit_f32_relop 0x02 (choose_fn "_eosio_f32_le") false false).
Definition emit_f32_ge : M t unit :=
  softfloat_instr 25 45 59 (emit_f32_relop 0x02 (choose_fn "_eosio_f32_le") true false).
Definition emit_f64_eq : M t unit :=
  softfloat_instr 25 47 61 (emit_f64_relop 0x00 (choose_fn "_eosio_f64_eq") false false).
Definition emit_f64_ne : M t unit :=
  softfloat_instr 24 49 63 (emit_f64_relop 0x00 (choose_fn "_eosio_f64_eq") false true).
Definition emit_f64_lt : M t unit :=
  softfloat_instr 25 47 61 (emit_f64_relop 0x01 (choose_fn "_eosio_f64_lt") false false).
Definition emit_f64_gt : M t unit :=
  softfloat_instr 25 47 61 (emit_f64_relop 0x01 (choose_fn "_eosio_f64_lt") true false).
Definition emit_f64_le : M t unit :=
  softfloat_instr 25 47 61 (emit_f64_relop 0x02 (choose_fn "_eosio_f64_le") false false).
Definition emit_f64_ge : M t unit :=
  softfloat_instr 25 47 61 (emit_f64_relop 0x02 (choose_fn "_eosio_f64_le") true false).

(** ** Arithmetic *)
Definition emit_f32_binop (op : Z) (softfloatfun : Z) : M t unit :=
  if use_softfloat then emit_f32_binop_softfloat softfloatfun
  else
  emit_bytes [0xf3; 0x0f; 0x10; 0x44; 0x24; 0x08];;
  emit_bytes [0xf3; 0x0f; op; 0x04; 0x24];;
  emit_bytes [0x48; 0x8d; 0x64; 0x24; 0x08];;
  emit_bytes [0xf3; 0x0f; 0x11; 0x04; 0x24].
Definition emit_f64_binop (op : Z) (softfloatfun : Z) : M t unit :=
  if use_softfloat then emit_f64_binop_softfloat softfloatfun
  else
  emit_bytes [0xf2; 0x0f; 0x10; 0x44; 0x24; 0x08];;
  emit_bytes [0xf2; 0x0f; op; 0x04; 0x24];;
  emit_bytes [0x48; 0x8d; 0x64; 0x24; 0x08];;
  emit_bytes [0xf2; 0x0f; 0x11; 0x04; 0x24].
Definition emit_f32_abs : M t unit :=
  fixed_size_instr 7 (
    emit_bytes [0x58];;
    emit_bytes [0x25];;
    emit_operand32 0x7fffffff;;
    emit_bytes [0x50]).
Definition emit_f32_neg : M t unit :=
  fixed_size_instr 7 (
    emit_bytes [0x58];;
    emit_bytes [0x35];;
    emit_operand32 0x80000000;;
    emit_bytes [0x50]).
Definition emit_f32_ceil : M t unit :=
  m ← gets _mod;
  softfloat_instr 12 36 54 (
    if use_softfloat then
      if eosio_fp m then emit_softfloat_unop 4 4 (choose_fn "_eosio_f32_ceil<false>")
      else emit_softfloat_unop 4 4 (choose_fn "_eosio_f32_ceil<true>")
    else
    emit_bytes [0x66; 0x0f; 0x3a; 0x0a; 0x04; 0x24; 0x0a];;
    emit_bytes [0xf3; 0x0f; 0x11; 0x04; 0x24]).
Definition emit_f32_floor : M t unit :=
  m ← gets _mod;
  softfloat_instr 12 36 54 (
    if use_softfloat then
      if eosio_fp m then emit_softfloat_unop 4 4 (choose_fn "_eosio_f32_floor<false>")
      else emit_softfloat_unop 4 4 (choose_fn "_eosio_f32_floor<true>")
    else
    emit_bytes [0x66; 0x0f; 0x3a; 0x0a; 0x04; 0x24; 0x09];;
    emit_bytes [0xf3; 0x0f; 0x11; 0x04; 0x24]).
Definition emit_f32_trunc : M t unit :=
  m ← gets _mod;
  softfloat_instr 12 36 54 (
    if use_softfloat then
      if eosio_fp m then emit_softfloat_unop 4 4 (choose_fn "_eosio_f32_trunc<false>")
      else emit_softfloat_unop 4 4 (choose_fn "_eosio_f32_trunc<true>")
    else
    emit_bytes [0x66; 0x0f; 0x3a; 0x0a; 0x04; 0x24; 0x0b];;
    emit_bytes [0xf3; 0x0f; 0x11; 0x04; 0x24]).
Definition emit_f32_nearest : M t unit :=
  m ← gets _mod;
  softfloat_instr 12 36 54 (
    if use_softfloat then
      if eosio_fp m then emit_softfloat_unop 4 4 (choose_fn "_eosio_f32_nearest<false>")
      else emit_softfloat_unop 4 4 (choose_fn "_eosio_f32_nearest<true>")
    else
    emit_bytes [0x66; 0x0f; 0x3a; 0x0a; 0x04; 0x24; 0x08];;
    emit_bytes [0xf3; 0x0f; 0x11; 0x04; 0x24]).
Definition emit_f32_sqrt : M t unit :=
  softfloat_instr 10 36 54 (
    if use_softfloat then emit_softfloat_unop 4 4 (choose_fn "_eosio_f32_sqrt")
    else
    emit_bytes [0xf3; 0x0f; 0x51; 0x04; 0x24];;
    emit_bytes [0xf3; 0x0f; 0x11; 0x04; 0x24]).
Definition emit_f32_add : M t unit :=
  softfloat_instr 21 44 58 (emit_f32_binop 0x58 (choose_fn "_eosio_f32_add")).
Definition emit_f32_sub : M t unit :=
  softfloat_instr 21 44 58 (emit_f32_binop 0x5c (choose_fn "_eosio_f32_sub")).
Definition emit_f32_mul : M t unit :=
  softfloat_instr 21 44 58 (emit_f32_binop 0x59 (choose_fn "_eosio_f32_mul")).
Definition emit_f32_div : M t unit :=
  softfloat_instr 21 44 58 (emit_f32_binop 0x5e (choose_fn "_eosio_f32_div")).
Definition emit_f32_min : M t unit :=
  m ← gets _mod;
  softfloat_instr 47 44 58 (
    if use_softfloat then
      (if eosio_fp m then
        emit_f32_binop_softfloat (choose_fn "_eosio_f32_min<false>")
      else
        emit_f32_binop_softfloat (choose_fn "_eosio_f32_min<true>"));;
      mret tt
    else
    emit_bytes [0x8b; 0x04; 0x24];;
    emit_bytes [0x85; 0xc0];;
    emit_bytes [0x0f; 0x84];;
    zero ← emit_branch_target32;
    emit_bytes [0xf3; 0x0f; 0x10; 0x44; 0x24; 0x08];;
    emit_bytes [0xf3; 0x0f; 0x5d; 0x04; 0x24];;
    emit_bytes [0xe9];;
    done ← emit_branch_target32;
    here ← gets code;
    fix_branch zero here;;
    emit_bytes [0xf3; 0x0f; 0x10; 0x04; 0x24];;
    emit_bytes [0xf3; 0x0f; 0x5d; 0x44; 0x24; 0x08];;
    here ← gets code;
    fix_branch done here;;
    emit_bytes [0x48; 0x83; 0xc4; 0x08];;
    emit_bytes [0xf3; 0x0f; 0x11; 0x04; 0x24]).
Definition emit_f32_max : M t unit :=
  m ← gets _mod;
  softfloat_instr 47 44 58 (
    if use_softfloat then
      (if eosio_fp m then
        emit_f32_binop_softfloat (choose_fn "_eosio_f32_max<false>")
      else
        emit_f32_binop_softfloat (choose_fn "_eosio_f32_max<true>"));;
      mret tt
    else
    emit_bytes [0x8b; 0x04; 0x24];;
    emit_bytes [0x85; 0xc0];;
    emit_bytes [0x0f; 0x84];;
    zero ← emit_branch_target32;
    emit_bytes [0xf3; 0x0f; 0x10; 0x04; 0x24];;
    emit_bytes [0xf3; 0x0f; 0x5f; 0x44; 0x24; 0x08];;
    emit_bytes [0xe9];;
    done ← emit_branch_target32;
    here ← gets code;
    fix_branch zero here;;
    emit_bytes [0xf3; 0x0f; 0x10; 0x44; 0x24; 0x08];;
    emit_bytes [0xf3; 0x0f; 0x5f; 0x04; 0x24];;
    here ← gets code;
    fix_branch done here;;
    emit_bytes [0x48; 0x83; 0xc4; 0x08];;
    emit_bytes [0xf3; 0x0f; 0x11; 0x04; 0x24]).
Definition emit_f32_copysign : M t unit :=
  fixed_size_instr 16 (
    emit_bytes [0x58];;
    emit_bytes [0x25];;
    emit_operand32 0x80000000;;
    emit_bytes [0x59];;
    emit_bytes [0x81; 0xe1];;
    emit_operand32 0x7fffffff;;
    emit_bytes [0x09; 0xc8];;
    emit_bytes [0x50]).
Definition emit_f64_abs : M t unit :=
  fixed_size_instr 15 (
    emit_bytes [0x59];;
    emit_bytes [0x48; 0xb8];;
    emit_operand64 0x7fffffffffffffff;;
    emit_bytes [0x48; 0x21; 0xc8];;
    emit_bytes [0x50]).
Definition emit_f64_neg : M t unit :=
  fixed_size_instr 15 (
    emit_bytes [0x59];;
    emit_bytes [0x48; 0xb8];;
    emit_operand64 0x8000000000000000;;
    emit_bytes [0x48; 0x31; 0xc8];;
    emit_bytes [0x50]).
Definition emit_f64_ceil : M t unit :=
  m ← gets _mod;
  softfloat_instr 12 38 56 (
    if use_softfloat then
      if eosio_fp m then emit_softfloat_unop 8 8 (choose_fn "_eosio_f64_ceil<false>")
      else emit_softfloat_unop 8 8 (choose_fn "_eosio_f64_ceil<true>")
    else
    emit_bytes [0x66; 0x0f; 0x3a; 0x0b; 0x04; 0x24; 0x0a];;
    emit_bytes [0xf2; 0x0f; 0x11; 0x04; 0x24]).
Definition emit_f64_floor : M t unit :=
  m ← gets _mod;
  softfloat_instr 12 38 56 (
    if use_softfloat then
      if eosio_fp m then emit_softfloat_unop 8 8 (choose_fn "_eosio_f64_floor<false>")
      else emit_softfloat_unop 8 8 (choose_fn "_eosio_f64_floor<true>")
    else
    emit_bytes [0x66; 0x0f; 0x3a; 0x0b; 0x04; 0x24; 0x09];;
    emit_bytes [0xf2; 0x0f; 0x11; 0x04; 0x24]).
Definition emit_f64_trunc : M t unit :=
  m ← gets _mod;
  softfloat_instr 12 38 56 (
    if use_softfloat then
      if eosio_fp m then emit_softfloat_unop 8 8 (choose_fn "_eosio_f64_trunc<false>")
      else emit_softfloat_unop 8 8 (choose_fn "_eosio_f64_trunc<true>")
    else
    emit_bytes [0x66; 0x0f; 0x3a; 0x0b; 0x04; 0x24; 0x0b];;
    emit_bytes [0xf2; 0x0f; 0x11; 0x04; 0x24]).
Definition emit_f64_nearest : M t unit :=
  m ← gets _mod;
  softfloat_instr 12 38 56 (
    if use_softfloat then
      if eosio_fp m then emit_softfloat_unop 8 8 (choose_fn "_eosio_f64_nearest<false>")
      else emit_softfloat_unop 8 8 (choose_fn "_eosio_f64_nearest<true>")
    else
    emit_bytes [0x66; 0x0f; 0x3a; 0x0b; 0x04; 0x24; 0x08];;
    emit_bytes [0xf2; 0x0f; 0x11; 0x04; 0x24]).
Definition emit_f64_sqrt : M t unit :=
  softfloat_instr 10 38 56 (
    if use_softfloat then emit_softfloat_unop 8 8 (choose_fn "_eosio_f64_sqrt")
    else
    emit_bytes [0xf2; 0x0f; 0x51; 0x04; 0x24];;
    emit_bytes [0xf2; 0x0f; 0x11; 0x04; 0x24]).
Definition emit_f64_add : M t unit :=
  softfloat_instr 21 47 61 (emit_f64_binop 0x58 (choose_fn "_eosio_f64_add")).
Definition emit_f64_sub : M t unit :=
  softfloat_instr 21 47 61 (emit_f64_binop 0x5c (choose_fn "_eosio_f64_sub")).
Definition emit_f64_mul : M t unit :=
  softfloat_instr 21 47 61 (emit_f64_binop 0x59 (choose_fn "_eosio_f64_mul")).
Definition emit_f64_div : M t unit :=
  softfloat_instr 21 47 61 (emit_f64_binop 0x5e (choose_fn "_eosio_f64_div")).
Definition emit_f64_min : M t unit :=
  m ← gets _mod;
  softfloat_instr 49 47 61 (
    if use_softfloat then
      (if eosio_fp m then
        emit_f64_binop_softfloat (choose_fn "_eosio_f64_min<false>")
      else
        emit_f64_binop_softfloat (choose_fn "_eosio_f64_min<true>"));;
      mret tt
    else
    emit_bytes [0x48; 0x8b; 0x04; 0x24];;
    emit_bytes [0x48; 0x85; 0xc0];;
    emit_bytes [0x0f; 0x84];;
    zero ← emit_branch_target32;
    emit_bytes [0xf2; 0x0f; 0x10; 0x44; 0x24; 0x08];;
    emit_bytes [0xf2; 0x0f; 0x5d; 0x04; 0x24];;
    emit_bytes [0xe9];;
    done ← emit_branch_target32;
    here ← gets code;
    fix_branch zero here;;
    emit_bytes [0xf2; 0x0f; 0x10; 0x04; 0x24];;
    emit_bytes [0xf2; 0x0f; 0x5d; 0x44; 0x24; 0x08];;
    here ← gets code;
    fix_branch done here;;
    emit_bytes [0x48; 0x83; 0xc4; 0x08];;
    emit_bytes [0xf2; 0x0f; 0x11; 0x04; 0x24]).
Definition emit_f64_max : M t unit :=
  m ← gets _mod;
  softfloat_instr 49 47 61 (
    if use_softfloat then
      (if eosio_fp m then
        emit_f64_binop_softfloat (choose_fn "_eosio_f64_max<false>")
      else
        emit_f64_binop_softfloat (choose_fn "_eosio_f64_max<true>"));;
      mret tt
    else
    emit_bytes [0x48; 0x8b; 0x04; 0x24];;
    emit_bytes [0x48; 0x85; 0xc0];;
    emit_bytes [0x0f; 0x84];;
    zero ← emit_branch_target32;
    emit_bytes [0xf2; 0x0f; 0x10; 0x04; 0x24];;
    emit_bytes [0xf2; 0x0f; 0x5f; 0x44; 0x24; 0x08];;
    emit_bytes [0xe9];;
    done ← emit_branch_target32;
    here ← gets code;
    fix_branch zero here;;
    emit_bytes [0xf2; 0x0f; 0x10; 0x44; 0x24; 0x08];;
    emit_bytes [0xf2; 0x0f; 0x5f; 0x04; 0x24];;
    here ← gets code;
    fix_branch done here;;
    emit_bytes [0x48; 0x83; 0xc4; 0x08];;
    emit_bytes [0xf2; 0x0f; 0x11; 0x04; 0x24]).
Definition emit_f64_copysign : M t unit :=
  fixed_size_instr 25 (
    emit_bytes [0x59];;
    emit_bytes [0x48; 0xb8];;
    emit_operand64 0x8000000000000000;;
    emit_bytes [0x48; 0x21; 0xc1];;
    emit_bytes [0x5a];;
    emit_bytes [0x48; 0xf7; 0xd0];;
    emit_bytes [0x48; 0x21; 0xd0];;
    emit_bytes [0x48; 0x09; 0xc8];;
    emit_bytes [0x50]).

(** ** Conversions *)
Definition emit_f2i (op : list Z) : M t unit :=
  emit_bytes [0xb8; 0x80; 0x1f; 0x00; 0x00];;
  emit_bytes [0x50];;
  emit_bytes [0x0f; 0xae; 0x14; 0x24];;
  emit_bytes op;;
  emit_bytes [0x0f; 0xae; 0x1c; 0x24];;
  emit_bytes [0x59];;
  emit_bytes [0xf6; 0xc1; 0x01];;
  emit_bytes [0x0f; 0x85];;
  branch ← emit_branch_target32;
  target ← gets fpe_handler;
  fix_branch branch target.
Definition emit_i32_trunc_s_f32 : M t unit :=
  softfloat_instr 33 36 54 (
    if use_softfloat then emit_softfloat_unop 4 4 (choose_fn "softfloat_trap<&_eosio_f32_trunc_i32s>()")
    else
    emit_f2i [0xf3; 0x0f; 0x2c; 0x44; 0x24; 0x08];;
    emit_bytes [0x89; 0x04; 0x24]).
Definition emit_i32_trunc_u_f32 : M t unit :=
  softfloat_instr 46 36 54 (
    if use_softfloat then emit_softfloat_unop 4 4 (choose_fn "softfloat_trap<&_eosio_f32_trunc_i32u>()")
    else
    emit_f2i [0xf3; 0x48; 0x0f; 0x2c; 0x44; 0x24; 0x08];;
    emit_bytes [0x89; 0x04; 0x24];;
    emit_bytes [0x48; 0xc1; 0xe8; 0x20];;
    emit_bytes [0x85; 0xc0];;
    emit_bytes [0x0f; 0x85];;
    branch ← emit_branch_target32;
    target ← gets fpe_handler;
    fix_branch branch target).
Definition emit_i32_trunc_s_f64 : M t unit :=
  m ← gets _mod;
  softfloat_instr 34 38 56 (
    if use_softfloat then
      if eosio_fp m then emit_softfloat_unop 8 8 (choose_fn "softfloat_trap<&_eosio_f64_trunc_i32s<false>>()")
      else emit_softfloat_unop 8 8 (choose_fn "softfloat_trap<&_eosio_f64_trunc_i32s<true>>()")
    else
    emit_f2i [0xf2; 0x0f; 0x2c; 0x44; 0x24; 0x08];;
    emit_bytes [0x48; 0x89; 0x04; 0x24]).
Definition emit_i32_trunc_u_f64 : M t unit :=
  softfloat_instr 47 38 56 (
    if use_softfloat then emit_softfloat_unop 8 8 (choose_fn "softfloat_trap<&_eosio_f64_trunc_i32u>()")
    else
    emit_f2i [0xf2; 0x48; 0x0f; 0x2c; 0x44; 0x24; 0x08];;
    emit_bytes [0x48; 0x89; 0x04; 0x24];;
    emit_bytes [0x48; 0xc1; 0xe8; 0x20];;
    emit_bytes [0x85; 0xc0];;
    emit_bytes [0x0f; 0x85];;
    branch ← emit_branch_target32;
    target ← gets fpe_handler;
    fix_branch branch target).
Definition emit_i32_trunc_sat_f32_s : M t unit :=
  emit_softfloat_unop 4 4 (choose_fn "_eosio_i32_trunc_sat_f32_s").
Definition emit_i32_trunc_sat_f32_u : M t unit :=
  emit_softfloat_unop 4 4 (choose_fn "_eosio_i32_trunc_sat_f32_u").
Definition emit_i32_trunc_sat_f64_s : M t unit :=
  emit_softfloat_unop 8 8 (choose_fn "_eosio_i32_trunc_sat_f64_s").
Definition emit_i32_trunc_sat_f64_u : M t unit :=
  emit_softfloat_unop 8 8 (choose_fn "_eosio_i32_trunc_sat_f64_u").
Definition emit_i64_trunc_s_f32 : M t unit :=
  softfloat_instr 35 37 55 (
    if use_softfloat then emit_softfloat_unop 8 4 (choose_fn "softfloat_trap<&_eosio_f32_trunc_i64s>()")
    else
    emit_f2i [0xf3; 0x48; 0x0f; 0x2c; 0x44; 0x24; 0x08];;
    emit_bytes [0x48; 0x89; 0x04; 0x24]).
Definition emit_i64_trunc_u_f32 : M t unit :=
  softfloat_instr 101 37 55 (
    if use_softfloat then emit_softfloat_unop 8 4 (choose_fn "softfloat_trap<&_eosio_f32_trunc_i64u>()")
    else
    emit_bytes [0xb8];;
    emit_operand32 0x5f000000;;
    emit_bytes [0xf3; 0x0f; 0x10; 0x04; 0x24];;
    emit_bytes [0x89; 0x04; 0x24];;
    emit_bytes [0xf3; 0x0f; 0x10; 0x0c; 0x24];;
    emit_bytes [0x0f; 0x28; 0xd0];;
    emit_bytes [0xf3; 0x0f; 0x5c; 0xd1];;
    emit_f2i [0xf3; 0x48; 0x0f; 0x2c; 0xc2];;
    emit_bytes [0x48; 0xb9];;
    emit_operand64 0x8000000000000000;;
    emit_bytes [0x48; 0x31; 0xc1];;
    emit_bytes [0xf3; 0x48; 0x0f; 0x2c; 0xc0];;
    emit_bytes [0x48; 0x31; 0xd2];;
    emit_bytes [0x0f; 0x2e; 0xc8];;
    emit_bytes [0x48; 0x0f; 0x47; 0xd0];;
    emit_bytes [0x48; 0x0f; 0x46; 0xc1];;
    emit_bytes [0x48; 0x89; 0x04; 0x24];;
    emit_bytes [0x48; 0x0f; 0xba; 0xe2; 0x3f];;
    emit_bytes [0x0f; 0x82];;
    branch ← emit_branch_target32;
    target ← gets fpe_handler;
    fix_branch branch target).
Definition emit_i64_trunc_s_f64 : M t unit :=
  softfloat_instr 35 38 56 (
    if use_softfloat then emit_softfloat_unop 8 8 (choose_fn "softfloat_trap<&_eosio_f64_trunc_i64s>()")
    else
    emit_f2i [0xf2; 0x48; 0x0f; 0x2c; 0x44; 0x24; 0x08];;
    emit_bytes [0x48; 0x89; 0x04; 0x24]).
Definition emit_i64_trunc_u_f64 : M t unit :=
  softfloat_instr 109 38 56 (
    if use_softfloat then emit_softfloat_unop 8 8 (choose_fn "softfloat_trap<&_eosio_f64_trunc_i64u>()")
    else
    emit_bytes [0x48; 0xb8];;
    emit_operand64 0x43e0000000000000;;
    emit_bytes [0xf2; 0x0f; 0x10; 0x04; 0x24];;
    emit_bytes [0x48; 0x89; 0x04; 0x24];;
    emit_bytes [0xf2; 0x0f; 0x10; 0x0c; 0x24];;
    emit_bytes [0x66; 0x0f; 0x28; 0xd0];;
    emit_bytes [0xf2; 0x0f; 0x5c; 0xd1];;
    emit_f2i [0xf2; 0x48; 0x0f; 0x2c; 0xc2];;
    emit_bytes [0x48; 0xb9];;
    emit_operand64 0x8000000000000000;;
    emit_bytes [0x48; 0x31; 0xc1];;
    emit_bytes [0xf2; 0x48; 0x0f; 0x2c; 0xc0];;
    emit_bytes [0x48; 0x31; 0xd2];;
    emit_bytes [0x66; 0x0f; 0x2e; 0xc8];;
    emit_bytes [0x48; 0x0f; 0x47; 0xd0];;
    emit_bytes [0x48; 0x0f; 0x46; 0xc1];;
    emit_bytes [0x48; 0x89; 0x04; 0x24];;
    emit_bytes [0x48; 0x0f; 0xba; 0xe2; 0x3f];;
    emit_bytes [0x0f; 0x82];;
    branch ← emit_branch_target32;
    target ← gets fpe_handler;
    fix_branch branch target).
Definition emit_i64_trunc_sat_f32_s : M t unit :=
  emit_softfloat_unop 8 4 (choose_fn "_eosio_i64_trunc_sat_f32_s").
Definition emit_i64_trunc_sat_f32_u : M t unit :=
  emit_softfloat_unop 8 4 (choose_fn "_eosio_i64_trunc_sat_f32_u").
Definition emit_i64_trunc_sat_f64_s : M t unit :=
  emit_softfloat_unop 8 8 (choose_fn "_eosio_i64_trunc_sat_f64_s").
Definition emit_i64_trunc_sat_f64_u : M t unit :=
  emit_softfloat_unop 8 8 (choose_fn "_eosio_i64_trunc_sat_f64_u").
Definition emit_f32_convert_s_i32 : M t unit :=
  softfloat_instr 10 36 54 (
    if use_softfloat then emit_softfloat_unop 4 4 (choose_fn "_eosio_i32_to_f32")
    else
    emit_bytes [0xf3; 0x0f; 0x2a; 0x04; 0x24];;
    emit_bytes [0xf3; 0x0f; 0x11; 0x04; 0x24]).
Definition emit_f32_convert_u_i32 : M t unit :=
  softfloat_instr 11 36 54 (
    if use_softfloat then emit_softfloat_unop 4 4 (choose_fn "_eosio_ui32_to_f32")
    else
    emit_bytes [0xf3; 0x48; 0x0f; 0x2a; 0x04; 0x24];;
    emit_bytes [0xf3; 0x0f; 0x11; 0x04; 0x24]).
Definition emit_f32_convert_s_i64 : M t unit :=
  softfloat_instr 11 38 56 (
    if use_softfloat then emit_softfloat_unop 8 8 (choose_fn "_eosio_i64_to_f32")
    else
    emit_bytes [0xf3; 0x48; 0x0f; 0x2a; 0x04; 0x24];;
    emit_bytes [0xf3; 0x0f; 0x11; 0x04; 0x24]).
Definition emit_f32_convert_u_i64 : M t unit :=
  softfloat_instr 55 38 56 (
    if use_softfloat then emit_softfloat_unop 8 8 (choose_fn "_eosio_ui64_to_f32")
    else
    emit_bytes [0x48; 0x8b; 0x04; 0x24];;
    emit_bytes [0x48; 0x85; 0xc0];;
    emit_bytes [0x0f; 0x88];;
    large ← emit_branch_target32;
    emit_bytes [0xf3; 0x48; 0x0f; 0x2a; 0xc0];;
    emit_bytes [0xe9];;
    done ← emit_branch_target32;
    here ← gets code;
    fix_branch large here;;
    emit_bytes [0x48; 0x89; 0xc1];;
    emit_bytes [0x48; 0xd1; 0xe8];;
    emit_bytes [0x83; 0xe1; 0x01];;
    emit_bytes [0x48; 0x09; 0xc8];;
    emit_bytes [0xf3; 0x48; 0x0f; 0x2a; 0xc0];;
    emit_bytes [0xf3; 0x0f; 0x58; 0xc0];;
    here ← gets code;
    fix_branch done here;;
    emit_bytes [0x31; 0xc0];;
    emit_bytes [0x89; 0x44; 0x24; 0x04];;
    emit_bytes [0xf3; 0x0f; 0x11; 0x04; 0x24]).
Definition emit_f32_demote_f64 : M t unit :=
  softfloat_instr 16 38 56 (
    if use_softfloat then emit_softfloat_unop 8 8 (choose_fn "_eosio_f64_demote")
    else
    emit_bytes [0xf2; 0x0f; 0x5a; 0x04; 0x24];;
    emit_bytes [0xf3; 0x0f; 0x11; 0x04; 0x24];;
    emit_bytes [0x31; 0xc0];;
    emit_bytes [0x89; 0x44; 0x24; 0x04]).
Definition emit_f64_convert_s_i32 : M t unit :=
  softfloat_instr 10 37 55 (
    if use_softfloat then emit_softfloat_unop 8 4 (choose_fn "_eosio_i32_to_f64")
    else
    emit_bytes [0xf2; 0x0f; 0x2a; 0x04; 0x24];;
    emit_bytes [0xf2; 0x0f; 0x11; 0x04; 0x24]).
Definition emit_f64_convert_u_i32 : M t unit :=
  softfloat_instr 11 37 55 (
    if use_softfloat then emit_softfloat_unop 8 4 (choose_fn "_eosio_ui32_to_f64")
    else
    emit_bytes [0xf2; 0x48; 0x0f; 0x2a; 0x04; 0x24];;
    emit_bytes [0xf2; 0x0f; 0x11; 0x04; 0x24]).
Definition emit_f64_convert_s_i64 : M t unit :=
  softfloat_instr 11 38 56 (
    if use_softfloat then emit_softfloat_unop 8 8 (choose_fn "_eosio_i64_to_f64")
    else
    emit_bytes [0xf2; 0x48; 0x0f; 0x2a; 0x04; 0x24];;
    emit_bytes [0xf2; 0x0f; 0x11; 0x04; 0x24]).
Definition emit_f64_convert_u_i64 : M t unit :=
  softfloat_instr 49 38 56 (
    if use_softfloat then emit_softfloat_unop 8 8 (choose_fn "_eosio_ui64_to_f64")
    else
    emit_bytes [0x48; 0x8b; 0x04; 0x24];;
    emit_bytes [0x48; 0x85; 0xc0];;
    emit_bytes [0x0f; 0x88];;
    large ← emit_branch_target32;
    emit_bytes [0xf2; 0x48; 0x0f; 0x2a; 0xc0];;
    emit_bytes [0xe9];;
    done ← emit_branch_target32;
    here ← gets code;
    fix_branch large here;;
    emit_bytes [0x48; 0x89; 0xc1];;
    emit_bytes [0x48; 0xd1; 0xe8];;
    emit_bytes [0x83; 0xe1; 0x01];;
    emit_bytes [0x48; 0x09; 0xc8];;
    emit_bytes [0xf2; 0x48; 0x0f; 0x2a; 0xc0];;
    emit_bytes [0xf2; 0x0f; 0x58; 0xc0];;
    here ← gets code;
    fix_branch done here;;
    emit_bytes [0xf2; 0x0f; 0x11; 0x04; 0x24]).
Definition emit_f64_promote_f32 : M t unit :=
  softfloat_instr 10 37 55 (
    if use_softfloat then emit_softfloat_unop 8 4 (choose_fn "_eosio_f32_promote")
    else
    emit_bytes [0xf3; 0x0f; 0x5a; 0x04; 0x24];;
    emit_bytes [0xf2; 0x0f; 0x11; 0x04; 0x24]).
End Float.
End X86Float.
