(* ===== verification/X86Simd.v ===== *)
(** * The JIT's vector instructions (x86_64.hpp)

    Integer lanes are computed with AVX2 instructions, floating-point lanes by calls to
    the softfloat library. *)
From S2P Require Import Prelude Allocator Opcodes Types LinearMemory X86 X86Control X86Integer.
Import X86 X86Control X86Integer.

Module X86Simd.
Section Simd.
Context `{sys : Sys} `{jit : Jit}.

(** ** Shapes shared by the instructions *)
Definition emit_v128_loadop (op : instr) (_ : Z) (offset : Z) : M t unit :=
  simd_instr (
    expr ← emit_pop_address offset rax ecx;
    emit op [expr; xmm0];;
    emit_push_v128 xmm0).
Definition emit_v128_load_laneop (op : instr) (_ : Z) (offset : Z) (lane : Z) : M t unit :=
  simd_instr (
    emit_pop_v128 xmm0;;
    emit_pop_address_rax offset;;
    emit op [Imm8 lane; at_reg rax; xmm0; xmm0];;
    emit_sub_imm 16 rsp;;
    emit_vmovdqu xmm0 (at_reg rsp)).
Definition emit_v128_store_laneop (op : instr) (_ : Z) (offset : Z) (lane : Z) : M t unit :=
  simd_instr (
    emit_vmovdqu (at_reg rsp) xmm0;;
    emit_add_imm 16 rsp;;
    emit_pop_address_rax offset;;
    emit op [Imm8 lane; at_reg rax; xmm0]).
Definition emit_v128_extract_laneop (op : instr) (l : Z) : M t unit :=
  simd_instr (
    emit_vmovdqu (at_reg rsp) xmm0;;
    emit_add_imm 16 rsp;;
    emit op [Imm8 l; rax; xmm0];;
    emit_push rax).
Definition emit_v128_replace_laneop (op : instr) (l : Z) : M t unit :=
  simd_instr (
    emit_pop rax;;
    emit_vmovdqu (at_reg rsp) xmm0;;
    emit op [Imm8 l; rax; xmm0; xmm0];;
    emit_vmovdqu xmm0 (at_reg rsp)).
Definition emit_v128_splatop (op : instr) : M t unit :=
  emit op [at_reg rsp; xmm0];;
  emit_sub_imm 8 rsp;;
  emit_vmovdqu xmm0 (at_reg rsp).
Definition emit_v128_irelop_subsat (opcode : instr) (switch_params : bool) (flip_result : bool) : M t unit :=
  simd_instr (
    emit_vmovdqu (at_reg rsp) xmm0;;
    emit_add_imm 16 rsp;;
    (if switch_params then
      emit_vmovdqu (at_reg rsp) xmm1;;
      emit opcode [xmm0; xmm1; xmm0]
    else
      emit opcode [at_reg rsp; xmm0; xmm0]);;
    emit_const_zero xmm1;;
    emit VPCMPEQB [xmm1; xmm0; xmm0];;
    (if negb flip_result then emit VPCMPEQB [xmm1; xmm0; xmm0] else mret tt);;
    emit_vmovdqu xmm0 (at_reg rsp)).
Definition emit_v128_irelop_minmax (opcode : instr) (eq : instr) (flip_result : bool) : M t unit :=
  simd_instr (
    emit_vmovdqu (at_reg rsp) xmm0;;
    emit_add_imm 16 rsp;;
    emit opcode [at_reg rsp; xmm0; xmm1];;
    emit eq [xmm0; xmm1; xmm0];;
    (if negb flip_result then
      emit_const_zero xmm1;;
      emit VPCMPEQB [xmm1; xmm0; xmm0]
    else
      mret tt);;
    emit_vmovdqu xmm0 (at_reg rsp)).
Definition emit_v128_irelop_cmp (opcode : instr) (switch_params : bool) (flip_result : bool) : M t unit :=
  simd_instr (
    emit_vmovdqu (at_reg rsp) xmm0;;
    emit_add_imm 16 rsp;;
    (if negb switch_params then
      emit_vmovdqu (at_reg rsp) xmm1;;
      emit opcode [xmm0; xmm1; xmm0]
    else
      emit opcode [at_reg rsp; xmm0; xmm0]);;
    (if flip_result then
      emit_const_ones xmm1;;
      emit VPXOR [xmm1; xmm0; xmm0]
    else
      mret tt);;
    emit_vmovdqu xmm0 (at_reg rsp)).
Definition emit_v128_shiftop (opcode : instr) (mask : Z) : M t unit :=
  simd_instr (
    emit_pop rax;;
    emit_bytes [0x83; 0xe0; mask];;
    emit_vmovdqu (at_reg rsp) xmm0;;
    emit_vmovd eax xmm1;;
    emit opcode [xmm1; xmm0; xmm0];;
    emit_vmovdqu xmm0 (at_reg rsp)).
Definition emit_v128_unop (opcode : instr) : M t unit :=
  simd_instr (
    emit opcode [at_reg rsp; xmm0];;
    emit_vmovdqu xmm0 (at_reg rsp)).
Definition emit_v128_binop (opcode : instr) : M t unit :=
  simd_instr (
    emit_vmovdqu (at_reg rsp) xmm0;;
    emit_add_imm 16 rsp;;
    emit_vmovdqu (at_reg rsp) xmm1;;
    emit opcode [xmm0; xmm1; xmm0];;
    emit_vmovdqu xmm0 (at_reg rsp)).
Definition emit_v128_binop_r (opcode : instr) : M t unit :=
  simd_instr (
    emit_vmovdqu (at_reg rsp) xmm0;;
    emit_add_imm 16 rsp;;
    emit opcode [at_reg rsp; xmm0; xmm0];;
    emit_vmovdqu xmm0 (at_reg rsp)).
Definition emit_v128_binop_commutative (opcode : instr) : M t unit := emit_v128_binop_r opcode.
Definition emit_v128_unop_softfloat (softfloatfun : Z) : M t unit :=
  extra ← emit_setup_backtrace;
  emit_push rdi;;
  emit_push rsi;;
  emit_mov (at_disp rsp (16 + extra)) rdi;;
  emit_mov (at_disp rsp (24 + extra)) rsi;;
  emit_align_stack_with rax;;
  emit_bytes [0x48; 0xb8];;
  emit_operand_ptr softfloatfun;;
  emit_bytes [0xff; 0xd0];;
  emit_restore_stack;;
  emit_pop rsi;;
  emit_pop rdi;;
  emit_restore_backtrace;;
  emit_mov rax (at_reg rsp);;
  emit_mov rdx (at_disp rsp 8).
Definition emit_v128_binop_softfloat (softfloatfun : Z) : M t unit :=
  extra ← emit_setup_backtrace;
  emit_push rdi;;
  emit_push rsi;;
  emit_mov (at_disp rsp (16 + extra)) rdx;;
  emit_mov (at_disp rsp (24 + extra)) rcx;;
  emit_mov (at_disp rsp (32 + extra)) rdi;;
  emit_mov (at_disp rsp (40 + extra)) rsi;;
  emit_align_stack_with rax;;
  emit_bytes [0x48; 0xb8];;
  emit_operand_ptr softfloatfun;;
  emit_bytes [0xff; 0xd0];;
  emit_restore_stack;;
  emit_pop rsi;;
  emit_pop rdi;;
  emit_restore_backtrace_basic;;
  emit_add_imm (16 + extra) rsp;;
  emit_mov rax (at_reg rsp);;
  emit_mov rdx (at_disp rsp 8).

(** ** Loads and stores *)
Definition emit_v128_load (align : Z) (offset : Z) : M t unit := emit_v128_loadop VMOVDQU_A align offset.
Definition emit_v128_load8x8_s (align : Z) (offset : Z) : M t unit := emit_v128_loadop VPMOVSXBW align offset.
Definition emit_v128_load8x8_u (align : Z) (offset : Z) : M t unit := emit_v128_loadop VPMOVZXBW align offset.
Definition emit_v128_load16x4_s (align : Z) (offset : Z) : M t unit := emit_v128_loadop VPMOVSXWD align offset.
Definition emit_v128_load16x4_u (align : Z) (offset : Z) : M t unit := emit_v128_loadop VPMOVZXWD align offset.
Definition emit_v128_load32x2_s (align : Z) (offset : Z) : M t unit := emit_v128_loadop VPMOVSXDQ align offset.
Definition emit_v128_load32x2_u (align : Z) (offset : Z) : M t unit := emit_v128_loadop VPMOVZXDQ align offset.
Definition emit_v128_load8_splat (align : Z) (offset : Z) : M t unit :=
  emit_v128_loadop VPBROADCASTB align offset.
Definition emit_v128_load16_splat (align : Z) (offset : Z) : M t unit :=
  emit_v128_loadop VPBROADCASTW align offset.
Definition emit_v128_load32_splat (align : Z) (offset : Z) : M t unit :=
  emit_v128_loadop VPBROADCASTD align offset.
Definition emit_v128_load64_splat (align : Z) (offset : Z) : M t unit :=
  emit_v128_loadop VPBROADCASTQ align offset.
Definition emit_v128_load32_zero (align : Z) (offset : Z) : M t unit := emit_v128_loadop VMOVD_A align offset.
Definition emit_v128_load64_zero (align : Z) (offset : Z) : M t unit := emit_v128_loadop VMOVQ_A align offset.
Definition emit_v128_store (_ : Z) (offset : Z) : M t unit :=
  simd_instr (
    emit_vmovups (at_reg rsp) xmm0;;
    emit_add_imm 16 rsp;;
    emit_pop_address_rax offset;;
    emit_vmovups xmm0 (at_reg rax)).
Definition emit_v128_load8_lane (align : Z) (offset : Z) (lane : Z) : M t unit :=
  emit_v128_load_laneop VPINSRB align offset lane.
Definition emit_v128_load16_lane (align : Z) (offset : Z) (lane : Z) : M t unit :=
  emit_v128_load_laneop VPINSRW align offset lane.
Definition emit_v128_load32_lane (align : Z) (offset : Z) (lane : Z) : M t unit :=
  emit_v128_load_laneop VPINSRD align offset lane.
Definition emit_v128_load64_lane (align : Z) (offset : Z) (lane : Z) : M t unit :=
  emit_v128_load_laneop VPINSRQ align offset lane.
Definition emit_v128_store8_lane (align : Z) (offset : Z) (lane : Z) : M t unit :=
  emit_v128_store_laneop VPEXTRB align offset lane.
Definition emit_v128_store16_lane (align : Z) (offset : Z) (lane : Z) : M t unit :=
  emit_v128_store_laneop VPEXTRW align offset lane.
Definition emit_v128_store32_lane (align : Z) (offset : Z) (lane : Z) : M t unit :=
  emit_v128_store_laneop VPEXTRD align offset lane.
Definition emit_v128_store64_lane (align : Z) (offset : Z) (lane : Z) : M t unit :=
  emit_v128_store_laneop VPEXTRQ align offset lane.

(** ** Constants, lanes and shuffles *)
Definition emit_v128_const (value : Op.v128_t) : M t unit :=
  simd_instr (
    emit_i64_const (Op.high value);;
    emit_i64_const (Op.low value)).

(** [emit_shuffle_operand]: [~] of a lane of the second operand *)
Definition shuffle_operand (lanes : list Z) : list Z :=
  (fun lane => if lane <? 16 then Z.lnot lane else lane) <$> lanes.
Definition emit_i8x16_shuffle (lanes : list Z) : M t unit :=
  fixed_size_instr 72 (
    emit_bytes [0x48; 0xb8];;
    emit_bytes (shuffle_operand (take 8 lanes));;
    emit_vmovq rax xmm2;;
    emit_bytes [0x48; 0xb8];;
    emit_bytes (shuffle_operand (take 8 (drop 8 lanes)));;
    emit VPINSRQ [Imm8 1; rax; xmm2; xmm2];;
    emit_vmovdqu (at_reg rsp) xmm0;;
    emit VPSHUFB [xmm2; xmm0; xmm1];;
    emit_const_ones xmm0;;
    emit VPXOR [xmm0; xmm2; xmm2];;
    emit_add_imm 16 rsp;;
    emit_vmovdqu (at_reg rsp) xmm0;;
    emit VPSHUFB [xmm2; xmm0; xmm0];;
    emit VPOR [xmm1; xmm0; xmm0];;
    emit_vmovdqu xmm0 (at_reg rsp)).
Definition emit_i8x16_extract_lane_s (l : Z) : M t unit :=
  simd_instr (
    emit_vmovdqu (at_reg rsp) xmm0;;
    emit_add_imm 16 rsp;;
    emit_vpextrb l xmm0 rax;;
    emit MOVSXB [al; eax];;
    emit_push rax).
Definition emit_i8x16_extract_lane_u (l : Z) : M t unit := emit_v128_extract_laneop VPEXTRB l.
Definition emit_i8x16_replace_lane (l : Z) : M t unit := emit_v128_replace_laneop VPINSRB l.
Definition emit_i16x8_extract_lane_s (l : Z) : M t unit :=
  simd_instr (
    emit_vmovdqu (at_reg rsp) xmm0;;
    emit_add_imm 16 rsp;;
    emit_vpextrw l xmm0 rax;;
    emit MOVSXW [ax; eax];;
    emit_push rax).
Definition emit_i16x8_extract_lane_u (l : Z) : M t unit := emit_v128_extract_laneop VPEXTRW l.
Definition emit_i16x8_replace_lane (l : Z) : M t unit := emit_v128_replace_laneop VPINSRW l.
Definition emit_i32x4_extract_lane (l : Z) : M t unit := emit_v128_extract_laneop VPEXTRD l.
Definition emit_i32x4_replace_lane (l : Z) : M t unit := emit_v128_replace_laneop VPINSRD l.
Definition emit_i64x2_extract_lane (l : Z) : M t unit := emit_v128_extract_laneop VPEXTRQ l.
Definition emit_i64x2_replace_lane (l : Z) : M t unit := emit_v128_replace_laneop VPINSRQ l.
Definition emit_f32x4_extract_lane (l : Z) : M t unit := emit_v128_extract_laneop VPEXTRD l.
Definition emit_f32x4_replace_lane (l : Z) : M t unit := emit_v128_replace_laneop VPINSRD l.
Definition emit_f64x2_extract_lane (l : Z) : M t unit := emit_v128_extract_laneop VPEXTRQ l.
Definition emit_f64x2_replace_lane (l : Z) : M t unit := emit_v128_replace_laneop VPINSRQ l.
Definition emit_i8x16_swizzle : M t unit :=
  simd_instr (
    emit_vmovdqu (at_reg rsp) xmm0;;
    emit_add_imm 16 rsp;;
    emit_mov_imm 0x70707070 eax;;
    emit_vmovd eax xmm1;;
    emit VPSHUFD [Imm8 0; xmm1; xmm1];;
    emit VPADDUSB [xmm1; xmm0; xmm1];;
    emit_vmovdqu (at_reg rsp) xmm0;;
    emit VPSHUFB [xmm1; xmm0; xmm0];;
    emit_vmovdqu xmm0 (at_reg rsp)).
Definition emit_i8x16_splat : M t unit := emit_v128_splatop VPBROADCASTB.
Definition emit_i16x8_splat : M t unit := emit_v128_splatop VPBROADCASTW.
Definition emit_i32x4_splat : M t unit := emit_v128_splatop VPBROADCASTD.
Definition emit_i64x2_splat : M t unit := emit_v128_splatop VPBROADCASTQ.
Definition emit_f32x4_splat : M t unit := emit_v128_splatop VPBROADCASTD.
Definition emit_f64x2_splat : M t unit := emit_v128_splatop VPBROADCASTQ.

(** ** Comparisons *)
Definition emit_i8x16_eq : M t unit := emit_v128_irelop_cmp VPCMPEQB true false.
Definition emit_i8x16_ne : M t unit := emit_v128_irelop_cmp VPCMPEQB true true.
Definition emit_i8x16_lt_s : M t unit := emit_v128_irelop_cmp VPCMPGTB true false.
Definition emit_i8x16_lt_u : M t unit := emit_v128_irelop_minmax VPMINUB VPCMPEQB false.
Definition emit_i8x16_gt_s : M t unit := emit_v128_irelop_cmp VPCMPGTB false false.
Definition emit_i8x16_gt_u : M t unit := emit_v128_irelop_minmax VPMAXUB VPCMPEQB false.
Definition emit_i8x16_le_s : M t unit := emit_v128_irelop_cmp VPCMPGTB false true.
Definition emit_i8x16_le_u : M t unit := emit_v128_irelop_minmax VPMAXUB VPCMPEQB true.
Definition emit_i8x16_ge_s : M t unit := emit_v128_irelop_cmp VPCMPGTB true true.
Definition emit_i8x16_ge_u : M t unit := emit_v128_irelop_minmax VPMINUB VPCMPEQB true.
Definition emit_i16x8_eq : M t unit := emit_v128_irelop_cmp VPCMPEQW true false.
Definition emit_i16x8_ne : M t unit := emit_v128_irelop_cmp VPCMPEQW true true.
Definition emit_i16x8_lt_s : M t unit := emit_v128_irelop_cmp VPCMPGTW true false.
Definition emit_i16x8_lt_u : M t unit := emit_v128_irelop_minmax VPMINUW VPCMPEQW false.
Definition emit_i16x8_gt_s : M t unit := emit_v128_irelop_cmp VPCMPGTW false false.
Definition emit_i16x8_gt_u : M t unit := emit_v128_irelop_minmax VPMAXUW VPCMPEQW false.
Definition emit_i16x8_le_s : M t unit := emit_v128_irelop_cmp VPCMPGTW false true.
Definition emit_i16x8_le_u : M t unit := emit_v128_irelop_minmax VPMAXUW VPCMPEQW true.
Definition emit_i16x8_ge_s : M t unit := emit_v128_irelop_cmp VPCMPGTW true true.
Definition emit_i16x8_ge_u : M t unit := emit_v128_irelop_minmax VPMINUW VPCMPEQW true.
Definition emit_i32x4_eq : M t unit := emit_v128_irelop_cmp VPCMPEQD true false.
Definition emit_i32x4_ne : M t unit := emit_v128_irelop_cmp VPCMPEQD true true.
Definition emit_i32x4_lt_s : M t unit := emit_v128_irelop_cmp VPCMPGTD true false.
Definition emit_i32x4_lt_u : M t unit := emit_v128_irelop_minmax VPMINUD VPCMPEQD false.
Definition emit_i32x4_gt_s : M t unit := emit_v128_irelop_cmp VPCMPGTD false false.
Definition emit_i32x4_gt_u : M t unit := emit_v128_irelop_minmax VPMAXUD VPCMPEQD false.
Definition emit_i32x4_le_s : M t unit := emit_v128_irelop_cmp VPCMPGTD false true.
Definition emit_i32x4_le_u : M t unit := emit_v128_irelop_minmax VPMAXUD VPCMPEQD true.
Definition emit_i32x4_ge_s : M t unit := emit_v128_irelop_cmp VPCMPGTD true true.
Definition emit_i32x4_ge_u : M t unit := emit_v128_irelop_minmax VPMINUD VPCMPEQD true.
Definition emit_i64x2_eq : M t unit := emit_v128_irelop_cmp VPCMPEQQ true false.
Definition emit_i64x2_ne : M t unit := emit_v128_irelop_cmp VPCMPEQQ true true.
Definition emit_i64x2_lt_s : M t unit := emit_v128_irelop_cmp VPCMPGTQ true false.
Definition emit_i64x2_gt_s : M t unit := emit_v128_irelop_cmp VPCMPGTQ false false.
Definition emit_i64x2_le_s : M t unit := emit_v128_irelop_cmp VPCMPGTQ false true.
Definition emit_i64x2_ge_s : M t unit := emit_v128_irelop_cmp VPCMPGTQ true true.
Definition emit_f32x4_eq : M t unit := emit_v128_binop_softfloat (address_of "_eosio_f32x4_eq").
Definition emit_f32x4_ne : M t unit := emit_v128_binop_softfloat (address_of "_eosio_f32x4_ne").
Definition emit_f32x4_lt : M t unit := emit_v128_binop_softfloat (address_of "_eosio_f32x4_lt").
Definition emit_f32x4_gt : M t unit := emit_v128_binop_softfloat (address_of "_eosio_f32x4_gt").
Definition emit_f32x4_le : M t unit := emit_v128_binop_softfloat (address_of "_eosio_f32x4_le").
Definition emit_f32x4_ge : M t unit := emit_v128_binop_softfloat (address_of "_eosio_f32x4_ge").
Definition emit_f64x2_eq : M t unit := emit_v128_binop_softfloat (address_of "_eosio_f64x2_eq").
Definition emit_f64x2_ne : M t unit := emit_v128_binop_softfloat (address_of "_eosio_f64x2_ne").
Definition emit_f64x2_lt : M t unit := emit_v128_binop_softfloat (address_of "_eosio_f64x2_lt").
Definition emit_f64x2_gt : M t unit := emit_v128_binop_softfloat (address_of "_eosio_f64x2_gt").
Definition emit_f64x2_le : M t unit := emit_v128_binop_softfloat (address_of "_eosio_f64x2_le").
Definition emit_f64x2_ge : M t unit := emit_v128_binop_softfloat (address_of "_eosio_f64x2_ge").

(** ** Bitwise operations and integer lanes *)
Definition emit_v128_not : M t unit :=
  simd_instr (
    emit_vmovdqu (at_reg rsp) xmm0;;
    emit_const_ones xmm1;;
    emit VPXOR [xmm1; xmm0; xmm0];;
    emit_vmovdqu xmm0 (at_reg rsp)).
Definition emit_v128_and : M t unit := emit_v128_binop_commutative VPAND.
Definition emit_v128_andnot : M t unit := emit_v128_binop_r VPANDN.
Definition emit_v128_or : M t unit := emit_v128_binop_commutative VPOR.
Definition emit_v128_xor : M t unit := emit_v128_binop_commutative VPXOR.
Definition emit_v128_bitselect : M t unit :=
  simd_instr (
    emit_vmovdqu (at_reg rsp) xmm2;;
    emit_vmovdqu (at_disp rsp 16) xmm1;;
    emit_add_imm 32 rsp;;
    emit_vmovdqu (at_reg rsp) xmm0;;
    emit VPAND [xmm0; xmm2; xmm0];;
    emit VPANDN [xmm1; xmm2; xmm1];;
    emit VPOR [xmm0; xmm1; xmm0];;
    emit_vmovdqu xmm0 (at_reg rsp)).
Definition emit_v128_any_true : M t unit :=
  simd_instr (
    emit_vmovdqu (at_reg rsp) xmm0;;
    emit_add_imm 16 rsp;;
    emit_xor eax eax;;
    emit VPTEST [xmm0; xmm0];;
    emit SETNZ [al];;
    emit_push rax).
Definition emit_i8x16_abs : M t unit := emit_v128_unop VPABSB.
Definition emit_i8x16_neg : M t unit :=
  simd_instr (
    emit_const_zero xmm0;;
    emit VPSUBB [at_reg rsp; xmm0; xmm0];;
    emit_vmovdqu xmm0 (at_reg rsp)).
Definition emit_i8x16_popcnt : M t unit :=
  simd_instr (
    emit_bytes [0x48; 0xb8];;
    emit_operand_ptr (address_of "popcnt4");;
    emit_vmovdqu (at_reg rsp) xmm0;;
    emit_vmovdqu (at_reg rax) xmm3;;
    emit_mov_imm 0x0f al;;
    emit_vmovd eax xmm2;;
    emit VPBROADCASTB [xmm2; xmm2];;
    emit VPSRLQ_c [Imm8 4; xmm0; xmm1];;
    emit VPAND [xmm2; xmm0; xmm0];;
    emit VPAND [xmm2; xmm1; xmm1];;
    emit VPSHUFB [xmm0; xmm3; xmm0];;
    emit VPSHUFB [xmm1; xmm3; xmm1];;
    emit VPADDB [xmm0; xmm1; xmm0];;
    emit_vmovdqu xmm0 (at_reg rsp)).
Definition emit_i8x16_all_true : M t unit :=
  simd_instr (
    emit_const_zero xmm0;;
    emit VPCMPEQB [at_reg rsp; xmm0; xmm0];;
    emit_add_imm 16 rsp;;
    emit_xor eax eax;;
    emit VPTEST [xmm0; xmm0];;
    emit SETZ [al];;
    emit_push rax).
Definition emit_i8x16_bitmask : M t unit :=
  simd_instr (
    emit_vmovdqu (at_reg rsp) xmm0;;
    emit_add_imm 16 rsp;;
    emit VPMOVMSKB [xmm0; rax];;
    emit_push rax).
Definition emit_i8x16_narrow_i16x8_s : M t unit := emit_v128_binop VPACKSSWB.
Definition emit_i8x16_narrow_i16x8_u : M t unit := emit_v128_binop VPACKUSWB.
Definition emit_i8x16_shl : M t unit :=
  simd_instr (
    emit_pop rax;;
    emit_vmovdqu (at_reg rsp) xmm0;;
    emit_and_imm 7 eax;;
    emit_vmovd eax xmm2;;
    emit_const_ones xmm1;;
    emit VPSLLD [xmm2; xmm1; xmm1];;
    emit VPBROADCASTB [xmm1; xmm1];;
    emit VPSLLW [xmm2; xmm0; xmm0];;
    emit VPAND [xmm0; xmm1; xmm0];;
    emit_vmovdqu xmm0 (at_reg rsp)).
Definition emit_i8x16_shr_s : M t unit :=
  simd_instr (
    emit_pop rax;;
    emit_vmovdqu (at_reg rsp) xmm0;;
    emit_and_imm 7 eax;;
    emit_vmovd eax xmm2;;
    emit_const_ones xmm3;;
    emit VPSLLW_c [Imm8 8; xmm3; xmm3];;
    emit VPSLLW_c [Imm8 8; xmm0; xmm1];;
    emit VPSRAW_c [Imm8 8; xmm1; xmm1];;
    emit VPSLLW [xmm2; xmm3; xmm3];;
    emit VPANDN [xmm1; xmm3; xmm1];;
    emit VPAND [xmm3; xmm0; xmm0];;
    emit VPOR [xmm1; xmm0; xmm0];;
    emit VPSRAW [xmm2; xmm0; xmm0];;
    emit_vmovdqu xmm0 (at_reg rsp)).
Definition emit_i8x16_shr_u : M t unit :=
  simd_instr (
    emit_pop rax;;
    emit_vmovdqu (at_reg rsp) xmm0;;
    emit_and_imm 7 eax;;
    emit_vmovd eax xmm2;;
    emit_const_ones xmm1;;
    emit VPSLLW_c [Imm8 8; xmm1; xmm1];;
    emit VPSRLW [xmm2; xmm1; xmm1];;
    emit VPBROADCASTB [xmm1; xmm1];;
    emit VPSRLW [xmm2; xmm0; xmm0];;
    emit VPANDN [xmm0; xmm1; xmm0];;
    emit_vmovdqu xmm0 (at_reg rsp)).
Definition emit_i8x16_add : M t unit := emit_v128_binop_commutative VPADDB.
Definition emit_i8x16_add_sat_s : M t unit := emit_v128_binop_commutative VPADDSB.
Definition emit_i8x16_add_sat_u : M t unit := emit_v128_binop_commutative VPADDUSB.
Definition emit_i8x16_sub : M t unit := emit_v128_binop VPSUBB.
Definition emit_i8x16_sub_sat_s : M t unit := emit_v128_binop VPSUBSB.
Definition emit_i8x16_sub_sat_u : M t unit := emit_v128_binop VPSUBUSB.
Definition emit_i8x16_min_s : M t unit := emit_v128_binop_commutative VPMINSB.
Definition emit_i8x16_min_u : M t unit := emit_v128_binop_commutative VPMINUB.
Definition emit_i8x16_max_s : M t unit := emit_v128_binop_commutative VPMAXSB.
Definition emit_i8x16_max_u : M t unit := emit_v128_binop_commutative VPMAXUB.
Definition emit_i8x16_avgr_u : M t unit := emit_v128_binop_commutative VPAVGB.
Definition emit_i16x8_extadd_pairwise_i8x16_s : M t unit :=
  simd_instr (
    emit_vmovdqu (at_reg rsp) xmm0;;
    emit VPSRLDQ_c [Imm8 8; xmm0; xmm1];;
    emit VPMOVSXBW [xmm0; xmm0];;
    emit VPMOVSXBW [xmm1; xmm1];;
    emit VPHADDW [xmm1; xmm0; xmm0];;
    emit_vmovdqu xmm0 (at_reg rsp)).
Definition emit_i16x8_extadd_pairwise_i8x16_u : M t unit :=
  simd_instr (
    emit_vmovdqu (at_reg rsp) xmm0;;
    emit VPSRLDQ_c [Imm8 8; xmm0; xmm1];;
    emit VPMOVZXBW [xmm0; xmm0];;
    emit VPMOVZXBW [xmm1; xmm1];;
    emit VPHADDW [xmm1; xmm0; xmm0];;
    emit_vmovdqu xmm0 (at_reg rsp)).
Definition emit_i16x8_abs : M t unit := emit_v128_unop VPABSW.
Definition emit_i16x8_neg : M t unit :=
  simd_instr (
    emit_const_zero xmm0;;
    emit VPSUBW [at_reg rsp; xmm0; xmm0];;
    emit_vmovdqu xmm0 (at_reg rsp)).
Definition emit_i16x8_q15mulr_sat_s : M t unit :=
  simd_instr (
    emit_vmovdqu (at_reg rsp) xmm0;;
    emit_add_imm 16 rsp;;
    emit VPMULHRSW [at_reg rsp; xmm0; xmm0];;
    emit_const_ones xmm1;;
    emit VPSLLW_c [Imm8 15; xmm1; xmm1];;
    emit VPCMPEQW [xmm1; xmm0; xmm1];;
    emit VPXOR [xmm1; xmm0; xmm0];;
    emit_vmovdqu xmm0 (at_reg rsp)).
Definition emit_i16x8_all_true : M t unit :=
  simd_instr (
    emit_const_zero xmm0;;
    emit VPCMPEQW [at_reg rsp; xmm0; xmm0];;
    emit_add_imm 16 rsp;;
    emit_xor eax eax;;
    emit VPTEST [xmm0; xmm0];;
    emit SETZ [al];;
    emit_push rax).
Definition emit_i16x8_bitmask : M t unit :=
  simd_instr (
    emit_const_zero xmm0;;
    emit VPCMPGTW [at_reg rsp; xmm0; xmm1];;
    emit VPACKSSWB [xmm0; xmm1; xmm0];;
    emit_add_imm 16 rsp;;
    emit VPMOVMSKB [xmm0; rax];;
    emit_push rax).
Definition emit_i16x8_narrow_i32x4_s : M t unit := emit_v128_binop VPACKSSDW.
Definition emit_i16x8_narrow_i32x4_u : M t unit := emit_v128_binop VPACKUSDW.
Definition emit_i16x8_extend_low_i8x16_s : M t unit := emit_v128_unop VPMOVSXBW.
Definition emit_i16x8_extend_high_i8x16_s : M t unit :=
  simd_instr (
    emit_vmovdqu (at_reg rsp) xmm0;;
    emit VPSRLDQ_c [Imm8 8; xmm0; xmm0];;
    emit VPMOVSXBW [xmm0; xmm0];;
    emit_vmovdqu xmm0 (at_reg rsp)).
Definition emit_i16x8_extend_low_i8x16_u : M t unit := emit_v128_unop VPMOVZXBW.
Definition emit_i16x8_extend_high_i8x16_u : M t unit :=
  simd_instr (
    emit_vmovdqu (at_reg rsp) xmm0;;
    emit VPSRLDQ_c [Imm8 8; xmm0; xmm0];;
    emit VPMOVZXBW [xmm0; xmm0];;
    emit_vmovdqu xmm0 (at_reg rsp)).
Definition emit_i16x8_shl : M t unit := emit_v128_shiftop VPSLLW 0x0f.
Definition emit_i16x8_shr_s : M t unit := emit_v128_shiftop VPSRAW 0x0f.
Definition emit_i16x8_shr_u : M t unit := emit_v128_shiftop VPSRLW 0x0f.
Definition emit_i16x8_add : M t unit := emit_v128_binop_commutative VPADDW.
Definition emit_i16x8_add_sat_s : M t unit := emit_v128_binop_commutative VPADDSW.
Definition emit_i16x8_add_sat_u : M t unit := emit_v128_binop_commutative VPADDUSW.
Definition emit_i16x8_sub : M t unit := emit_v128_binop VPSUBW.
Definition emit_i16x8_sub_sat_s : M t unit := emit_v128_binop VPSUBSW.
Definition emit_i16x8_sub_sat_u : M t unit := emit_v128_binop VPSUBUSW.
Definition emit_i16x8_mul : M t unit := emit_v128_binop_commutative VPMULLW.
Definition emit_i16x8_min_s : M t unit := emit_v128_binop_commutative VPMINSW.
Definition emit_i16x8_min_u : M t unit := emit_v128_binop_commutative VPMINUW.
Definition emit_i16x8_max_s : M t unit := emit_v128_binop_commutative VPMAXSW.
Definition emit_i16x8_max_u : M t unit := emit_v128_binop_commutative VPMAXUW.
Definition emit_i16x8_avgr_u : M t unit := emit_v128_binop_commutative VPAVGW.
Definition emit_i16x8_extmul_low_i8x16_s : M t unit :=
  simd_instr (
    emit VPMOVSXBW [at_reg rsp; xmm1];;
    emit_add_imm 16 rsp;;
    emit VPMOVSXBW [at_reg rsp; xmm0];;
    emit VPMULLW [xmm0; xmm1; xmm0];;
    emit_vmovdqu xmm0 (at_reg rsp)).
Definition emit_i16x8_extmul_high_i8x16_s : M t unit :=
  simd_instr (
    emit_vmovdqu (at_reg rsp) xmm1;;
    emit VPSRLDQ_c [Imm8 8; xmm1; xmm1];;
    emit VPMOVSXBW [xmm1; xmm1];;
    emit_add_imm 16 rsp;;
    emit_vmovdqu (at_reg rsp) xmm0;;
    emit VPSRLDQ_c [Imm8 8; xmm0; xmm0];;
    emit VPMOVSXBW [xmm0; xmm0];;
    emit VPMULLW [xmm0; xmm1; xmm0];;
    emit_vmovdqu xmm0 (at_reg rsp)).
Definition emit_i16x8_extmul_low_i8x16_u : M t unit :=
  simd_instr (
    emit VPMOVZXBW [at_reg rsp; xmm1];;
    emit_add_imm 16 rsp;;
    emit VPMOVZXBW [at_reg rsp; xmm0];;
    emit VPMULLW [xmm0; xmm1; xmm0];;
    emit_vmovdqu xmm0 (at_reg rsp)).
Definition emit_i16x8_extmul_high_i8x16_u : M t unit :=
  simd_instr (
    emit_vmovdqu (at_reg rsp) xmm1;;
    emit VPSRLDQ_c [Imm8 8; xmm1; xmm1];;
    emit VPMOVZXBW [xmm1; xmm1];;
    emit_add_imm 16 rsp;;
    emit_vmovdqu (at_reg rsp) xmm0;;
    emit VPSRLDQ_c [Imm8 8; xmm0; xmm0];;
    emit VPMOVZXBW [xmm0; xmm0];;
    emit VPMULLW [xmm0; xmm1; xmm0];;
    emit_vmovdqu xmm0 (at_reg rsp)).
Definition emit_i32x4_extadd_pairwise_i16x8_s : M t unit :=
  simd_instr (
    emit_vmovdqu (at_reg rsp) xmm0;;
    emit VPSRLDQ_c [Imm8 8; xmm0; xmm1];;
    emit VPMOVSXWD [xmm0; xmm0];;
    emit VPMOVSXWD [xmm1; xmm1];;
    emit VPHADDD [xmm1; xmm0; xmm0];;
    emit_vmovdqu xmm0 (at_reg rsp)).
Definition emit_i32x4_extadd_pairwise_i16x8_u : M t unit :=
  simd_instr (
    emit_vmovdqu (at_reg rsp) xmm0;;
    emit VPSRLDQ_c [Imm8 8; xmm0; xmm1];;
    emit VPMOVZXWD [xmm0; xmm0];;
    emit VPMOVZXWD [xmm1; xmm1];;
    emit VPHADDD [xmm1; xmm0; xmm0];;
    emit_vmovdqu xmm0 (at_reg rsp)).
Definition emit_i32x4_abs : M t unit := emit_v128_unop VPABSD.
Definition emit_i32x4_neg : M t unit :=
  simd_instr (
    emit_const_zero xmm0;;
    emit VPSUBD [at_reg rsp; xmm0; xmm0];;
    emit_vmovdqu xmm0 (at_reg rsp)).
Definition emit_i32x4_all_true : M t unit :=
  simd_instr (
    emit_const_zero xmm0;;
    emit VPCMPEQD [at_reg rsp; xmm0; xmm0];;
    emit_add_imm 16 rsp;;
    emit_xor eax eax;;
    emit VPTEST [xmm0; xmm0];;
    emit SETZ [al];;
    emit_push rax).
Definition emit_i32x4_bitmask : M t unit :=
  simd_instr (
    emit_vmovdqu (at_reg rsp) xmm0;;
    emit_add_imm 16 rsp;;
    emit VMOVMSKPS [xmm0; rax];;
    emit_push rax).
Definition emit_i32x4_extend_low_i16x8_s : M t unit := emit_v128_unop VPMOVSXWD.
Definition emit_i32x4_extend_high_i16x8_s : M t unit :=
  simd_instr (
    emit_vmovdqu (at_reg rsp) xmm0;;
    emit VPSRLDQ_c [Imm8 8; xmm0; xmm0];;
    emit VPMOVSXWD [xmm0; xmm0];;
    emit_vmovdqu xmm0 (at_reg rsp)).
Definition emit_i32x4_extend_low_i16x8_u : M t unit := emit_v128_unop VPMOVZXWD.
Definition emit_i32x4_extend_high_i16x8_u : M t unit :=
  simd_instr (
    emit_vmovdqu (at_reg rsp) xmm0;;
    emit VPSRLDQ_c [Imm8 8; xmm0; xmm0];;
    emit VPMOVZXWD [xmm0; xmm0];;
    emit_vmovdqu xmm0 (at_reg rsp)).
Definition emit_i32x4_shl : M t unit := emit_v128_shiftop VPSLLD 0x1f.
Definition emit_i32x4_shr_s : M t unit := emit_v128_shiftop VPSRAD 0x1f.
Definition emit_i32x4_shr_u : M t unit := emit_v128_shiftop VPSRLD 0x1f.
Definition emit_i32x4_add : M t unit := emit_v128_binop_commutative VPADDD.
Definition emit_i32x4_sub : M t unit := emit_v128_binop VPSUBD.
Definition emit_i32x4_mul : M t unit := emit_v128_binop_commutative VPMULLD.
Definition emit_i32x4_min_s : M t unit := emit_v128_binop_commutative VPMINSD.
Definition emit_i32x4_min_u : M t unit := emit_v128_binop_commutative VPMINUD.
Definition emit_i32x4_max_s : M t unit := emit_v128_binop_commutative VPMAXSD.
Definition emit_i32x4_max_u : M t unit := emit_v128_binop_commutative VPMAXUD.
Definition emit_i32x4_dot_i16x8_s : M t unit := emit_v128_binop_commutative VPMADDWD.
Definition emit_i32x4_extmul_low_i16x8_s : M t unit :=
  simd_instr (
    emit_vmovdqu (at_reg rsp) xmm0;;
    emit_add_imm 16 rsp;;
    emit_vmovdqu (at_reg rsp) xmm1;;
    emit VPMOVSXWD [xmm0; xmm0];;
    emit VPMOVSXWD [xmm1; xmm1];;
    emit VPMULLD [xmm0; xmm1; xmm0];;
    emit_vmovdqu xmm0 (at_reg rsp)).
Definition emit_i32x4_extmul_high_i16x8_s : M t unit :=
  simd_instr (
    emit_vmovdqu (at_reg rsp) xmm0;;
    emit_add_imm 16 rsp;;
    emit_vmovdqu (at_reg rsp) xmm1;;
    emit VPMULLW [xmm0; xmm1; xmm2];;
    emit VPMULHW [xmm0; xmm1; xmm0];;
    emit VPUNPCKHWD [xmm0; xmm2; xmm0];;
    emit_vmovdqu xmm0 (at_reg rsp)).
Definition emit_i32x4_extmul_low_i16x8_u : M t unit :=
  simd_instr (
    emit_vmovdqu (at_reg rsp) xmm0;;
    emit_add_imm 16 rsp;;
    emit_vmovdqu (at_reg rsp) xmm1;;
    emit VPMOVZXWD [xmm0; xmm0];;
    emit VPMOVZXWD [xmm1; xmm1];;
    emit VPMULLD [xmm0; xmm1; xmm0];;
    emit_vmovdqu xmm0 (at_reg rsp)).
Definition emit_i32x4_extmul_high_i16x8_u : M t unit :=
  simd_instr (
    emit_vmovdqu (at_reg rsp) xmm0;;
    emit_add_imm 16 rsp;;
    emit_vmovdqu (at_reg rsp) xmm1;;
    emit VPMULLW [xmm0; xmm1; xmm2];;
    emit VPMULHUW [xmm0; xmm1; xmm0];;
    emit VPUNPCKHWD [xmm0; xmm2; xmm0];;
    emit_vmovdqu xmm0 (at_reg rsp)).
Definition emit_i64x2_abs : M t unit :=
  simd_instr (
    emit_vmovdqu (at_reg rsp) xmm0;;
    emit_const_zero xmm1;;
    emit VPCMPGTQ [xmm0; xmm1; xmm1];;
    emit VPXOR [xmm0; xmm1; xmm0];;
    emit VPSUBQ [xmm1; xmm0; xmm0];;
    emit_vmovdqu xmm0 (at_reg rsp)).
Definition emit_i64x2_neg : M t unit :=
  simd_instr (
    emit_const_zero xmm0;;
    emit VPSUBQ [at_reg rsp; xmm0; xmm0];;
    emit_vmovdqu xmm0 (at_reg rsp)).
Definition emit_i64x2_all_true : M t unit :=
  simd_instr (
    emit_const_zero xmm0;;
    emit VPCMPEQQ [at_reg rsp; xmm0; xmm0];;
    emit_add_imm 16 rsp;;
    emit_xor eax eax;;
    emit VPTEST [xmm0; xmm0];;
    emit SETZ [al];;
    emit_push rax).
Definition emit_i64x2_bitmask : M t unit :=
  simd_instr (
    emit_vmovdqu (at_reg rsp) xmm0;;
    emit_add_imm 16 rsp;;
    emit VMOVMSKPD [xmm0; rax];;
    emit_push rax).
Definition emit_i64x2_extend_low_i32x4_s : M t unit := emit_v128_unop VPMOVSXDQ.
Definition emit_i64x2_extend_high_i32x4_s : M t unit :=
  simd_instr (
    emit_vmovdqu (at_reg rsp) xmm0;;
    emit VPSRLDQ_c [Imm8 8; xmm0; xmm0];;
    emit VPMOVSXDQ [xmm0; xmm0];;
    emit_vmovdqu xmm0 (at_reg rsp)).
Definition emit_i64x2_extend_low_i32x4_u : M t unit := emit_v128_unop VPMOVZXDQ.
Definition emit_i64x2_extend_high_i32x4_u : M t unit :=
  simd_instr (
    emit_vmovdqu (at_reg rsp) xmm0;;
    emit VPSRLDQ_c [Imm8 8; xmm0; xmm0];;
    emit VPMOVZXDQ [xmm0; xmm0];;
    emit_vmovdqu xmm0 (at_reg rsp)).
Definition emit_i64x2_shl : M t unit := emit_v128_shiftop VPSLLQ 0x3f.
Definition emit_i64x2_shr_s : M t unit :=
  simd_instr (
    emit_pop rax;;
    emit_and_imm 0x3f eax;;
    emit_mov_imm 64 ecx;;
    emit_sub eax ecx;;
    emit_vmovdqu (at_reg rsp) xmm0;;
    emit_vmovd eax xmm1;;
    emit_vmovd ecx xmm3;;
    emit_const_zero xmm2;;
    emit VPCMPGTQ [xmm0; xmm2; xmm2];;
    emit VPSLLQ [xmm3; xmm2; xmm2];;
    emit VPSRLQ [xmm1; xmm0; xmm0];;
    emit VPOR [xmm0; xmm2; xmm0];;
    emit_vmovdqu xmm0 (at_reg rsp)).
Definition emit_i64x2_shr_u : M t unit := emit_v128_shiftop VPSRLQ 0x3f.
Definition emit_i64x2_add : M t unit := emit_v128_binop_commutative VPADDQ.
Definition emit_i64x2_sub : M t unit := emit_v128_binop VPSUBQ.
Definition emit_i64x2_mul : M t unit :=
  simd_instr (
    emit_vmovdqu (at_reg rsp) xmm0;;
    emit_add_imm 16 rsp;;
    emit_vmovdqu (at_reg rsp) xmm1;;
    emit VPMULUDQ [xmm0; xmm1; xmm2];;
    emit VPSHUFD [Imm8 0xb1; xmm0; xmm0];;
    emit VPMULLD [xmm0; xmm1; xmm0];;
    emit VPHADDD [xmm0; xmm0; xmm0];;
    emit_const_zero xmm1;;
    emit VPUNPCKLDQ [xmm0; xmm1; xmm0];;
    emit VPADDQ [xmm0; xmm2; xmm0];;
    emit_vmovdqu xmm0 (at_reg rsp)).
Definition emit_i64x2_extmul_low_i32x4_s : M t unit :=
  simd_instr (
    emit VPSHUFD [Imm8 0x10; at_reg rsp; xmm0];;
    emit_add_imm 16 rsp;;
    emit VPSHUFD [Imm8 0x10; at_reg rsp; xmm1];;
    emit VPMULDQ [xmm0; xmm1; xmm0];;
    emit_vmovdqu xmm0 (at_reg rsp)).
Definition emit_i64x2_extmul_high_i32x4_s : M t unit :=
  simd_instr (
    emit VPSHUFD [Imm8 0x32; at_reg rsp; xmm0];;
    emit_add_imm 16 rsp;;
    emit VPSHUFD [Imm8 0x32; at_reg rsp; xmm1];;
    emit VPMULDQ [xmm0; xmm1; xmm0];;
    emit_vmovdqu xmm0 (at_reg rsp)).
Definition emit_i64x2_extmul_low_i32x4_u : M t unit :=
  simd_instr (
    emit VPSHUFD [Imm8 0x10; at_reg rsp; xmm0];;
    emit_add_imm 16 rsp;;
    emit VPSHUFD [Imm8 0x10; at_reg rsp; xmm1];;
    emit VPMULUDQ [xmm0; xmm1; xmm0];;
    emit_vmovdqu xmm0 (at_reg rsp)).
Definition emit_i64x2_extmul_high_i32x4_u : M t unit :=
  simd_instr (
    emit VPSHUFD [Imm8 0x32; at_reg rsp; xmm0];;
    emit_add_imm 16 rsp;;
    emit VPSHUFD [Imm8 0x32; at_reg rsp; xmm1];;
    emit VPMULUDQ [xmm0; xmm1; xmm0];;
    emit_vmovdqu xmm0 (at_reg rsp)).

(** ** Floating-point lanes *)
Definition emit_f32x4_ceil : M t unit := emit_v128_unop_softfloat (address_of "_eosio_f32x4_ceil").
Definition emit_f32x4_floor : M t unit := emit_v128_unop_softfloat (address_of "_eosio_f32x4_floor").
Definition emit_f32x4_trunc : M t unit := emit_v128_unop_softfloat (address_of "_eosio_f32x4_trunc").
Definition emit_f32x4_nearest : M t unit := emit_v128_unop_softfloat (address_of "_eosio_f32x4_nearest").
Definition emit_f32x4_abs : M t unit := emit_v128_unop_softfloat (address_of "_eosio_f32x4_abs").
Definition emit_f32x4_neg : M t unit := emit_v128_unop_softfloat (address_of "_eosio_f32x4_neg").
Definition emit_f32x4_sqrt : M t unit := emit_v128_unop_softfloat (address_of "_eosio_f32x4_sqrt").
Definition emit_f32x4_add : M t unit := emit_v128_binop_softfloat (address_of "_eosio_f32x4_add").
Definition emit_f32x4_sub : M t unit := emit_v128_binop_softfloat (address_of "_eosio_f32x4_sub").
Definition emit_f32x4_mul : M t unit := emit_v128_binop_softfloat (address_of "_eosio_f32x4_mul").
Definition emit_f32x4_div : M t unit := emit_v128_binop_softfloat (address_of "_eosio_f32x4_div").
Definition emit_f32x4_min : M t unit := emit_v128_binop_softfloat (address_of "_eosio_f32x4_min").
Definition emit_f32x4_max : M t unit := emit_v128_binop_softfloat (address_of "_eosio_f32x4_max").
Definition emit_f32x4_pmin : M t unit := emit_v128_binop_softfloat (address_of "_eosio_f32x4_pmin").
Definition emit_f32x4_pmax : M t unit := emit_v128_binop_softfloat (address_of "_eosio_f32x4_pmax").
Definition emit_f64x2_ceil : M t unit := emit_v128_unop_softfloat (address_of "_eosio_f64x2_ceil").
Definition emit_f64x2_floor : M t unit := emit_v128_unop_softfloat (address_of "_eosio_f64x2_floor").
Definition emit_f64x2_trunc : M t unit := emit_v128_unop_softfloat (address_of "_eosio_f64x2_trunc").
Definition emit_f64x2_nearest : M t unit := emit_v128_unop_softfloat (address_of "_eosio_f64x2_nearest").
Definition emit_f64x2_abs : M t unit := emit_v128_unop_softfloat (address_of "_eosio_f64x2_abs").
Definition emit_f64x2_neg : M t unit := emit_v128_unop_softfloat (address_of "_eosio_f64x2_neg").
Definition emit_f64x2_sqrt : M t unit := emit_v128_unop_softfloat (address_of "_eosio_f64x2_sqrt").
Definition emit_f64x2_add : M t unit := emit_v128_binop_softfloat (address_of "_eosio_f64x2_add").
Definition emit_f64x2_sub : M t unit := emit_v128_binop_softfloat (address_of "_eosio_f64x2_sub").
Definition emit_f64x2_mul : M t unit := emit_v128_binop_softfloat (address_of "_eosio_f64x2_mul").
Definition emit_f64x2_div : M t unit := emit_v128_binop_softfloat (address_of "_eosio_f64x2_div").
Definition emit_f64x2_min : M t unit := emit_v128_binop_softfloat (address_of "_eosio_f64x2_min").
Definition emit_f64x2_max : M t unit := emit_v128_binop_softfloat (address_of "_eosio_f64x2_max").
Definition emit_f64x2_pmin : M t unit := emit_v128_binop_softfloat (address_of "_eosio_f64x2_pmin").
Definition emit_f64x2_pmax : M t unit := emit_v128_binop_softfloat (address_of "_eosio_f64x2_pmax").
Definition emit_i32x4_trunc_sat_f32x4_s : M t unit :=
  emit_v128_unop_softfloat (address_of "_eosio_i32x4_trunc_sat_f32x4_s").
Definition emit_i32x4_trunc_sat_f32x4_u : M t unit :=
  emit_v128_unop_softfloat (address_of "_eosio_i32x4_trunc_sat_f32x4_u").
Definition emit_f32x4_convert_i32x4_s : M t unit :=
  emit_v128_unop_softfloat (address_of "_eosio_f32x4_convert_i32x4_s").
Definition emit_f32x4_convert_i32x4_u : M t unit :=
  emit_v128_unop_softfloat (address_of "_eosio_f32x4_convert_i32x4_u").
Definition emit_i32x4_trunc_sat_f64x2_s_zero : M t unit :=
  emit_v128_unop_softfloat (address_of "_eosio_i32x4_trunc_sat_f64x2_s_zero").
Definition emit_i32x4_trunc_sat_f64x2_u_zero : M t unit :=
  emit_v128_unop_softfloat (address_of "_eosio_i32x4_trunc_sat_f64x2_u_zero").
Definition emit_f64x2_convert_low_i32x4_s : M t unit :=
  emit_v128_unop_softfloat (address_of "_eosio_f64x2_convert_low_i32x4_s").
Definition emit_f64x2_convert_low_i32x4_u : M t unit :=
  emit_v128_unop_softfloat (address_of "_eosio_f64x2_convert_low_i32x4_u").
Definition emit_f32x4_demote_f64x2_zero : M t unit :=
  emit_v128_unop_softfloat (address_of "_eosio_f32x4_demote_f64x2_zero").
Definition emit_f64x2_promote_low_f32x4 : M t unit :=
  emit_v128_unop_softfloat (address_of "_eosio_f64x2_promote_low_f32x4").
End Simd.
End X86Simd.
