(* ===== verification/X86Writer.v ===== *)
(** * The JIT's code writer as a writer of the parser (x86_64.hpp)

    The destructor, which fills in the tables of the module, and the instance of
    [Writer] that makes the parser a compiler to machine code. *)
From S2P Require Import Prelude Allocator Opcodes Types LinearMemory X86 X86Control X86Integer X86Float X86Simd Writers.
Import Op(v128_t).

Module X86Writer.
Import X86 X86Control X86Integer X86Float X86Simd.
Section Writer.
Context `{sys : Sys} `{jit : Jit}.

(** ** The destructor *)

(** [growable_allocator::end_code<true>]; the code is copied to the block that
    [jit_allocator] returns. *)
Definition end_code (code_base : Z) : M Growable.t unit :=
  Growable.end_code code_base;;
  size ← gets Growable._code_size;
  executable_code ← lift (jit_alloc size);
  assertM (mprotect executable_code size PROT_READ_WRITE =? 0) (wasm_bad_alloc "mprotect failed");;
  modify (Growable.set_code (Some (executable_code - arena)) size);;
  modify (Growable.set_offset code_base).

Definition destruct_ (w : t) : M Growable.t unit := fun _ => end_code (_code_segment_base w - arena) (_allocator w).

(** The loops over the elements; a code pointer is an offset from [_code_base]. *)
Definition entry_address (w : t) (m : module) (index : Z) : Z :=
  if index <? Mod.get_functions_total m then
    match nthZ (_function_relocations w) index with
    | Some (Address addr) => addr
    | _ => call_indirect_handler w
    end
  else call_indirect_handler w.
Definition install (w : t) (m : module) : module :=
  if Mod.get_functions_total m <=? Z.of_nat (length (_function_relocations w)) then
    with_elements
      ((fun elem => ElemSegment (es_index elem) (es_offset elem) (es_mode elem)
         ((fun entry => TableEntry (te_type entry) (te_index entry)
             (Pc (entry_address w m (te_index entry) - _code_segment_base w))) <$> es_elems elem))
        <$> elements m) m
  else m.

(** ** The instructions, by their opcodes *)

Definition emit_memory (o : Op.memory_op) (alignment offset : Z) : M t unit :=
  match o with
  | Op.i32_load => emit_i32_load alignment offset | Op.i64_load => emit_i64_load alignment offset
  | Op.f32_load => emit_f32_load alignment offset | Op.f64_load => emit_f64_load alignment offset
  | Op.i32_load8_s => emit_i32_load8_s alignment offset | Op.i32_load8_u => emit_i32_load8_u alignment offset
  | Op.i32_load16_s => emit_i32_load16_s alignment offset
  | Op.i32_load16_u => emit_i32_load16_u alignment offset | Op.i64_load8_s => emit_i64_load8_s alignment offset
  | Op.i64_load8_u => emit_i64_load8_u alignment offset | Op.i64_load16_s => emit_i64_load16_s alignment offset
  | Op.i64_load16_u => emit_i64_load16_u alignment offset
  | Op.i64_load32_s => emit_i64_load32_s alignment offset
  | Op.i64_load32_u => emit_i64_load32_u alignment offset | Op.i32_store => emit_i32_store alignment offset
  | Op.i64_store => emit_i64_store alignment offset | Op.f32_store => emit_f32_store alignment offset
  | Op.f64_store => emit_f64_store alignment offset | Op.i32_store8 => emit_i32_store8 alignment offset
  | Op.i32_store16 => emit_i32_store16 alignment offset | Op.i64_store8 => emit_i64_store8 alignment offset
  | Op.i64_store16 => emit_i64_store16 alignment offset | Op.i64_store32 => emit_i64_store32 alignment offset
  | _ => mret tt
  end.
Definition emit_memory_size (o : Op.memory_op) : M t unit :=
  match o with Op.current_memory => emit_current_memory | Op.grow_memory => emit_grow_memory | _ => mret tt end.
Definition emit_comparison (o : Op.comparison_op) : M t unit :=
  match o with
  | Op.i32_eqz => emit_i32_eqz | Op.i32_eq => emit_i32_eq | Op.i32_ne => emit_i32_ne
  | Op.i32_lt_s => emit_i32_lt_s | Op.i32_lt_u => emit_i32_lt_u | Op.i32_gt_s => emit_i32_gt_s
  | Op.i32_gt_u => emit_i32_gt_u | Op.i32_le_s => emit_i32_le_s | Op.i32_le_u => emit_i32_le_u
  | Op.i32_ge_s => emit_i32_ge_s | Op.i32_ge_u => emit_i32_ge_u | Op.i64_eqz => emit_i64_eqz
  | Op.i64_eq => emit_i64_eq | Op.i64_ne => emit_i64_ne | Op.i64_lt_s => emit_i64_lt_s
  | Op.i64_lt_u => emit_i64_lt_u | Op.i64_gt_s => emit_i64_gt_s | Op.i64_gt_u => emit_i64_gt_u
  | Op.i64_le_s => emit_i64_le_s | Op.i64_le_u => emit_i64_le_u | Op.i64_ge_s => emit_i64_ge_s
  | Op.i64_ge_u => emit_i64_ge_u | Op.f32_eq => emit_f32_eq | Op.f32_ne => emit_f32_ne
  | Op.f32_lt => emit_f32_lt | Op.f32_gt => emit_f32_gt | Op.f32_le => emit_f32_le | Op.f32_ge => emit_f32_ge
  | Op.f64_eq => emit_f64_eq | Op.f64_ne => emit_f64_ne | Op.f64_lt => emit_f64_lt | Op.f64_gt => emit_f64_gt
  | Op.f64_le => emit_f64_le | Op.f64_ge => emit_f64_ge
  end.
Definition emit_numeric (o : Op.numeric_op) : M t unit :=
  match o with
  | Op.i32_clz => emit_i32_clz | Op.i32_ctz => emit_i32_ctz | Op.i32_popcnt => emit_i32_popcnt
  | Op.i32_add => emit_i32_add | Op.i32_sub => emit_i32_sub | Op.i32_mul => emit_i32_mul
  | Op.i32_div_s => emit_i32_div_s | Op.i32_div_u => emit_i32_div_u | Op.i32_rem_s => emit_i32_rem_s
  | Op.i32_rem_u => emit_i32_rem_u | Op.i32_and => emit_i32_and | Op.i32_or => emit_i32_or
  | Op.i32_xor => emit_i32_xor | Op.i32_shl => emit_i32_shl | Op.i32_shr_s => emit_i32_shr_s
  | Op.i32_shr_u => emit_i32_shr_u | Op.i32_rotl => emit_i32_rotl | Op.i32_rotr => emit_i32_rotr
  | Op.i64_clz => emit_i64_clz | Op.i64_ctz => emit_i64_ctz | Op.i64_popcnt => emit_i64_popcnt
  | Op.i64_add => emit_i64_add | Op.i64_sub => emit_i64_sub | Op.i64_mul => emit_i64_mul
  | Op.i64_div_s => emit_i64_div_s | Op.i64_div_u => emit_i64_div_u | Op.i64_rem_s => emit_i64_rem_s
  | Op.i64_rem_u => emit_i64_rem_u | Op.i64_and => emit_i64_and | Op.i64_or => emit_i64_or
  | Op.i64_xor => emit_i64_xor | Op.i64_shl => emit_i64_shl | Op.i64_shr_s => emit_i64_shr_s
  | Op.i64_shr_u => emit_i64_shr_u | Op.i64_rotl => emit_i64_rotl | Op.i64_rotr => emit_i64_rotr
  | Op.f32_abs => emit_f32_abs | Op.f32_neg => emit_f32_neg | Op.f32_ceil => emit_f32_ceil
  | Op.f32_floor => emit_f32_floor | Op.f32_trunc => emit_f32_trunc | Op.f32_nearest => emit_f32_nearest
  | Op.f32_sqrt => emit_f32_sqrt | Op.f32_add => emit_f32_add | Op.f32_sub => emit_f32_sub
  | Op.f32_mul => emit_f32_mul | Op.f32_div => emit_f32_div | Op.f32_min => emit_f32_min
  | Op.f32_max => emit_f32_max | Op.f32_copysign => emit_f32_copysign | Op.f64_abs => emit_f64_abs
  | Op.f64_neg => emit_f64_neg | Op.f64_ceil => emit_f64_ceil | Op.f64_floor => emit_f64_floor
  | Op.f64_trunc => emit_f64_trunc | Op.f64_nearest => emit_f64_nearest | Op.f64_sqrt => emit_f64_sqrt
  | Op.f64_add => emit_f64_add | Op.f64_sub => emit_f64_sub | Op.f64_mul => emit_f64_mul
  | Op.f64_div => emit_f64_div | Op.f64_min => emit_f64_min | Op.f64_max => emit_f64_max
  | Op.f64_copysign => emit_f64_copysign | Op.i32_extend8_s => emit_i32_extend8_s
  | Op.i32_extend16_s => emit_i32_extend16_s | Op.i64_extend8_s => emit_i64_extend8_s
  | Op.i64_extend16_s => emit_i64_extend16_s | Op.i64_extend32_s => emit_i64_extend32_s
  end.
Definition emit_conversion (o : Op.conversion_op) : M t unit :=
  match o with
  | Op.i32_wrap_i64 => emit_i32_wrap_i64 | Op.i32_trunc_s_f32 => emit_i32_trunc_s_f32
  | Op.i32_trunc_u_f32 => emit_i32_trunc_u_f32 | Op.i32_trunc_s_f64 => emit_i32_trunc_s_f64
  | Op.i32_trunc_u_f64 => emit_i32_trunc_u_f64 | Op.i64_extend_s_i32 => emit_i64_extend_s_i32
  | Op.i64_extend_u_i32 => emit_i64_extend_u_i32 | Op.i64_trunc_s_f32 => emit_i64_trunc_s_f32
  | Op.i64_trunc_u_f32 => emit_i64_trunc_u_f32 | Op.i64_trunc_s_f64 => emit_i64_trunc_s_f64
  | Op.i64_trunc_u_f64 => emit_i64_trunc_u_f64 | Op.f32_convert_s_i32 => emit_f32_convert_s_i32
  | Op.f32_convert_u_i32 => emit_f32_convert_u_i32 | Op.f32_convert_s_i64 => emit_f32_convert_s_i64
  | Op.f32_convert_u_i64 => emit_f32_convert_u_i64 | Op.f32_demote_f64 => emit_f32_demote_f64
  | Op.f64_convert_s_i32 => emit_f64_convert_s_i32 | Op.f64_convert_u_i32 => emit_f64_convert_u_i32
  | Op.f64_convert_s_i64 => emit_f64_convert_s_i64 | Op.f64_convert_u_i64 => emit_f64_convert_u_i64
  | Op.f64_promote_f32 => emit_f64_promote_f32 | Op.i32_reinterpret_f32 => emit_i32_reinterpret_f32
  | Op.i64_reinterpret_f64 => emit_i64_reinterpret_f64 | Op.f32_reinterpret_i32 => emit_f32_reinterpret_i32
  | Op.f64_reinterpret_i64 => emit_f64_reinterpret_i64
  end.
Definition emit_data (o : Op.data_op) (x : Z) : M t unit :=
  match o with
  | Op.memory_init => emit_memory_init x | Op.data_drop => emit_data_drop x | Op.table_init => emit_table_init x
  | Op.elem_drop => emit_elem_drop x
  end.
Definition emit_ext (o : Op.ext_op) : M t unit :=
  match o with
  | Op.i32_trunc_sat_f32_s => emit_i32_trunc_sat_f32_s | Op.i32_trunc_sat_f32_u => emit_i32_trunc_sat_f32_u
  | Op.i32_trunc_sat_f64_s => emit_i32_trunc_sat_f64_s | Op.i32_trunc_sat_f64_u => emit_i32_trunc_sat_f64_u
  | Op.i64_trunc_sat_f32_s => emit_i64_trunc_sat_f32_s | Op.i64_trunc_sat_f32_u => emit_i64_trunc_sat_f32_u
  | Op.i64_trunc_sat_f64_s => emit_i64_trunc_sat_f64_s | Op.i64_trunc_sat_f64_u => emit_i64_trunc_sat_f64_u
  | Op.memory_copy => emit_memory_copy | Op.memory_fill => emit_memory_fill | Op.table_copy => emit_table_copy
  end.
Definition emit_vec_memory (o : Op.vec_memory_op) (alignment offset : Z) : M t unit :=
  match o with
  | Op.v128_load => emit_v128_load alignment offset | Op.v128_load8x8_s => emit_v128_load8x8_s alignment offset
  | Op.v128_load8x8_u => emit_v128_load8x8_u alignment offset
  | Op.v128_load16x4_s => emit_v128_load16x4_s alignment offset
  | Op.v128_load16x4_u => emit_v128_load16x4_u alignment offset
  | Op.v128_load32x2_s => emit_v128_load32x2_s alignment offset
  | Op.v128_load32x2_u => emit_v128_load32x2_u alignment offset
  | Op.v128_load8_splat => emit_v128_load8_splat alignment offset
  | Op.v128_load16_splat => emit_v128_load16_splat alignment offset
  | Op.v128_load32_splat => emit_v128_load32_splat alignment offset
  | Op.v128_load64_splat => emit_v128_load64_splat alignment offset
  | Op.v128_load32_zero => emit_v128_load32_zero alignment offset
  | Op.v128_load64_zero => emit_v128_load64_zero alignment offset
  | Op.v128_store => emit_v128_store alignment offset
  end.
Definition emit_vec_lane_memory (o : Op.vec_lane_memory_op) (alignment offset laneidx : Z) : M t unit :=
  match o with
  | Op.v128_load8_lane => emit_v128_load8_lane alignment offset laneidx
  | Op.v128_load16_lane => emit_v128_load16_lane alignment offset laneidx
  | Op.v128_load32_lane => emit_v128_load32_lane alignment offset laneidx
  | Op.v128_load64_lane => emit_v128_load64_lane alignment offset laneidx
  | Op.v128_store8_lane => emit_v128_store8_lane alignment offset laneidx
  | Op.v128_store16_lane => emit_v128_store16_lane alignment offset laneidx
  | Op.v128_store32_lane => emit_v128_store32_lane alignment offset laneidx
  | Op.v128_store64_lane => emit_v128_store64_lane alignment offset laneidx
  end.
Definition emit_vec_lane (o : Op.vec_lane_op) (laneidx : Z) : M t unit :=
  match o with
  | Op.i8x16_extract_lane_s => emit_i8x16_extract_lane_s laneidx
  | Op.i8x16_extract_lane_u => emit_i8x16_extract_lane_u laneidx
  | Op.i8x16_replace_lane => emit_i8x16_replace_lane laneidx
  | Op.i16x8_extract_lane_s => emit_i16x8_extract_lane_s laneidx
  | Op.i16x8_extract_lane_u => emit_i16x8_extract_lane_u laneidx
  | Op.i16x8_replace_lane => emit_i16x8_replace_lane laneidx
  | Op.i32x4_extract_lane => emit_i32x4_extract_lane laneidx
  | Op.i32x4_replace_lane => emit_i32x4_replace_lane laneidx
  | Op.i64x2_extract_lane => emit_i64x2_extract_lane laneidx
  | Op.i64x2_replace_lane => emit_i64x2_replace_lane laneidx
  | Op.f32x4_extract_lane => emit_f32x4_extract_lane laneidx
  | Op.f32x4_replace_lane => emit_f32x4_replace_lane laneidx
  | Op.f64x2_extract_lane => emit_f64x2_extract_lane laneidx
  | Op.f64x2_replace_lane => emit_f64x2_replace_lane laneidx
  end.
Definition emit_vec_numeric (o : Op.vec_numeric_op) : M t unit :=
  match o with
  | Op.i8x16_swizzle => emit_i8x16_swizzle | Op.i8x16_splat => emit_i8x16_splat
  | Op.i16x8_splat => emit_i16x8_splat | Op.i32x4_splat => emit_i32x4_splat | Op.i64x2_splat => emit_i64x2_splat
  | Op.f32x4_splat => emit_f32x4_splat | Op.f64x2_splat => emit_f64x2_splat | Op.i8x16_eq => emit_i8x16_eq
  | Op.i8x16_ne => emit_i8x16_ne | Op.i8x16_lt_s => emit_i8x16_lt_s | Op.i8x16_lt_u => emit_i8x16_lt_u
  | Op.i8x16_gt_s => emit_i8x16_gt_s | Op.i8x16_gt_u => emit_i8x16_gt_u | Op.i8x16_le_s => emit_i8x16_le_s
  | Op.i8x16_le_u => emit_i8x16_le_u | Op.i8x16_ge_s => emit_i8x16_ge_s | Op.i8x16_ge_u => emit_i8x16_ge_u
  | Op.i16x8_eq => emit_i16x8_eq | Op.i16x8_ne => emit_i16x8_ne | Op.i16x8_lt_s => emit_i16x8_lt_s
  | Op.i16x8_lt_u => emit_i16x8_lt_u | Op.i16x8_gt_s => emit_i16x8_gt_s | Op.i16x8_gt_u => emit_i16x8_gt_u
  | Op.i16x8_le_s => emit_i16x8_le_s | Op.i16x8_le_u => emit_i16x8_le_u | Op.i16x8_ge_s => emit_i16x8_ge_s
  | Op.i16x8_ge_u => emit_i16x8_ge_u | Op.i32x4_eq => emit_i32x4_eq | Op.i32x4_ne => emit_i32x4_ne
  | Op.i32x4_lt_s => emit_i32x4_lt_s | Op.i32x4_lt_u => emit_i32x4_lt_u | Op.i32x4_gt_s => emit_i32x4_gt_s
  | Op.i32x4_gt_u => emit_i32x4_gt_u | Op.i32x4_le_s => emit_i32x4_le_s | Op.i32x4_le_u => emit_i32x4_le_u
  | Op.i32x4_ge_s => emit_i32x4_ge_s | Op.i32x4_ge_u => emit_i32x4_ge_u | Op.i64x2_eq => emit_i64x2_eq
  | Op.i64x2_ne => emit_i64x2_ne | Op.i64x2_lt_s => emit_i64x2_lt_s | Op.i64x2_gt_s => emit_i64x2_gt_s
  | Op.i64x2_le_s => emit_i64x2_le_s | Op.i64x2_ge_s => emit_i64x2_ge_s | Op.f32x4_eq => emit_f32x4_eq
  | Op.f32x4_ne => emit_f32x4_ne | Op.f32x4_lt => emit_f32x4_lt | Op.f32x4_gt => emit_f32x4_gt
  | Op.f32x4_le => emit_f32x4_le | Op.f32x4_ge => emit_f32x4_ge | Op.f64x2_eq => emit_f64x2_eq
  | Op.f64x2_ne => emit_f64x2_ne | Op.f64x2_lt => emit_f64x2_lt | Op.f64x2_gt => emit_f64x2_gt
  | Op.f64x2_le => emit_f64x2_le | Op.f64x2_ge => emit_f64x2_ge | Op.v128_not => emit_v128_not
  | Op.v128_and => emit_v128_and | Op.v128_andnot => emit_v128_andnot | Op.v128_or => emit_v128_or
  | Op.v128_xor => emit_v128_xor | Op.v128_bitselect => emit_v128_bitselect
  | Op.v128_any_true => emit_v128_any_true | Op.i8x16_abs => emit_i8x16_abs | Op.i8x16_neg => emit_i8x16_neg
  | Op.i8x16_popcnt => emit_i8x16_popcnt | Op.i8x16_all_true => emit_i8x16_all_true
  | Op.i8x16_bitmask => emit_i8x16_bitmask | Op.i8x16_narrow_i16x8_s => emit_i8x16_narrow_i16x8_s
  | Op.i8x16_narrow_i16x8_u => emit_i8x16_narrow_i16x8_u | Op.i8x16_shl => emit_i8x16_shl
  | Op.i8x16_shr_s => emit_i8x16_shr_s | Op.i8x16_shr_u => emit_i8x16_shr_u | Op.i8x16_add => emit_i8x16_add
  | Op.i8x16_add_sat_s => emit_i8x16_add_sat_s | Op.i8x16_add_sat_u => emit_i8x16_add_sat_u
  | Op.i8x16_sub => emit_i8x16_sub | Op.i8x16_sub_sat_s => emit_i8x16_sub_sat_s
  | Op.i8x16_sub_sat_u => emit_i8x16_sub_sat_u | Op.i8x16_min_s => emit_i8x16_min_s
  | Op.i8x16_min_u => emit_i8x16_min_u | Op.i8x16_max_s => emit_i8x16_max_s | Op.i8x16_max_u => emit_i8x16_max_u
  | Op.i8x16_avgr_u => emit_i8x16_avgr_u
  | Op.i16x8_extadd_pairwise_i8x16_s => emit_i16x8_extadd_pairwise_i8x16_s
  | Op.i16x8_extadd_pairwise_i8x16_u => emit_i16x8_extadd_pairwise_i8x16_u | Op.i16x8_abs => emit_i16x8_abs
  | Op.i16x8_neg => emit_i16x8_neg | Op.i16x8_q15mulr_sat_s => emit_i16x8_q15mulr_sat_s
  | Op.i16x8_all_true => emit_i16x8_all_true | Op.i16x8_bitmask => emit_i16x8_bitmask
  | Op.i16x8_narrow_i32x4_s => emit_i16x8_narrow_i32x4_s | Op.i16x8_narrow_i32x4_u => emit_i16x8_narrow_i32x4_u
  | Op.i16x8_extend_low_i8x16_s => emit_i16x8_extend_low_i8x16_s
  | Op.i16x8_extend_high_i8x16_s => emit_i16x8_extend_high_i8x16_s
  | Op.i16x8_extend_low_i8x16_u => emit_i16x8_extend_low_i8x16_u
  | Op.i16x8_extend_high_i8x16_u => emit_i16x8_extend_high_i8x16_u | Op.i16x8_shl => emit_i16x8_shl
  | Op.i16x8_shr_s => emit_i16x8_shr_s | Op.i16x8_shr_u => emit_i16x8_shr_u | Op.i16x8_add => emit_i16x8_add
  | Op.i16x8_add_sat_s => emit_i16x8_add_sat_s | Op.i16x8_add_sat_u => emit_i16x8_add_sat_u
  | Op.i16x8_sub => emit_i16x8_sub | Op.i16x8_sub_sat_s => emit_i16x8_sub_sat_s
  | Op.i16x8_sub_sat_u => emit_i16x8_sub_sat_u | Op.i16x8_mul => emit_i16x8_mul
  | Op.i16x8_min_s => emit_i16x8_min_s | Op.i16x8_min_u => emit_i16x8_min_u | Op.i16x8_max_s => emit_i16x8_max_s
  | Op.i16x8_max_u => emit_i16x8_max_u | Op.i16x8_avgr_u => emit_i16x8_avgr_u
  | Op.i16x8_extmul_low_i8x16_s => emit_i16x8_extmul_low_i8x16_s
  | Op.i16x8_extmul_high_i8x16_s => emit_i16x8_extmul_high_i8x16_s
  | Op.i16x8_extmul_low_i8x16_u => emit_i16x8_extmul_low_i8x16_u
  | Op.i16x8_extmul_high_i8x16_u => emit_i16x8_extmul_high_i8x16_u
  | Op.i32x4_extadd_pairwise_i16x8_s => emit_i32x4_extadd_pairwise_i16x8_s
  | Op.i32x4_extadd_pairwise_i16x8_u => emit_i32x4_extadd_pairwise_i16x8_u | Op.i32x4_abs => emit_i32x4_abs
  | Op.i32x4_neg => emit_i32x4_neg | Op.i32x4_all_true => emit_i32x4_all_true
  | Op.i32x4_bitmask => emit_i32x4_bitmask | Op.i32x4_extend_low_i16x8_s => emit_i32x4_extend_low_i16x8_s
  | Op.i32x4_extend_high_i16x8_s => emit_i32x4_extend_high_i16x8_s
  | Op.i32x4_extend_low_i16x8_u => emit_i32x4_extend_low_i16x8_u
  | Op.i32x4_extend_high_i16x8_u => emit_i32x4_extend_high_i16x8_u | Op.i32x4_shl => emit_i32x4_shl
  | Op.i32x4_shr_s => emit_i32x4_shr_s | Op.i32x4_shr_u => emit_i32x4_shr_u | Op.i32x4_add => emit_i32x4_add
  | Op.i32x4_sub => emit_i32x4_sub | Op.i32x4_mul => emit_i32x4_mul | Op.i32x4_min_s => emit_i32x4_min_s
  | Op.i32x4_min_u => emit_i32x4_min_u | Op.i32x4_max_s => emit_i32x4_max_s | Op.i32x4_max_u => emit_i32x4_max_u
  | Op.i32x4_dot_i16x8_s => emit_i32x4_dot_i16x8_s
  | Op.i32x4_extmul_low_i16x8_s => emit_i32x4_extmul_low_i16x8_s
  | Op.i32x4_extmul_high_i16x8_s => emit_i32x4_extmul_high_i16x8_s
  | Op.i32x4_extmul_low_i16x8_u => emit_i32x4_extmul_low_i16x8_u
  | Op.i32x4_extmul_high_i16x8_u => emit_i32x4_extmul_high_i16x8_u | Op.i64x2_abs => emit_i64x2_abs
  | Op.i64x2_neg => emit_i64x2_neg | Op.i64x2_all_true => emit_i64x2_all_true
  | Op.i64x2_bitmask => emit_i64x2_bitmask | Op.i64x2_extend_low_i32x4_s => emit_i64x2_extend_low_i32x4_s
  | Op.i64x2_extend_high_i32x4_s => emit_i64x2_extend_high_i32x4_s
  | Op.i64x2_extend_low_i32x4_u => emit_i64x2_extend_low_i32x4_u
  | Op.i64x2_extend_high_i32x4_u => emit_i64x2_extend_high_i32x4_u | Op.i64x2_shl => emit_i64x2_shl
  | Op.i64x2_shr_s => emit_i64x2_shr_s | Op.i64x2_shr_u => emit_i64x2_shr_u | Op.i64x2_add => emit_i64x2_add
  | Op.i64x2_sub => emit_i64x2_sub | Op.i64x2_mul => emit_i64x2_mul
  | Op.i64x2_extmul_low_i32x4_s => emit_i64x2_extmul_low_i32x4_s
  | Op.i64x2_extmul_high_i32x4_s => emit_i64x2_extmul_high_i32x4_s
  | Op.i64x2_extmul_low_i32x4_u => emit_i64x2_extmul_low_i32x4_u
  | Op.i64x2_extmul_high_i32x4_u => emit_i64x2_extmul_high_i32x4_u | Op.f32x4_ceil => emit_f32x4_ceil
  | Op.f32x4_floor => emit_f32x4_floor | Op.f32x4_trunc => emit_f32x4_trunc
  | Op.f32x4_nearest => emit_f32x4_nearest | Op.f32x4_abs => emit_f32x4_abs | Op.f32x4_neg => emit_f32x4_neg
  | Op.f32x4_sqrt => emit_f32x4_sqrt | Op.f32x4_add => emit_f32x4_add | Op.f32x4_sub => emit_f32x4_sub
  | Op.f32x4_mul => emit_f32x4_mul | Op.f32x4_div => emit_f32x4_div | Op.f32x4_min => emit_f32x4_min
  | Op.f32x4_max => emit_f32x4_max | Op.f32x4_pmin => emit_f32x4_pmin | Op.f32x4_pmax => emit_f32x4_pmax
  | Op.f64x2_ceil => emit_f64x2_ceil | Op.f64x2_floor => emit_f64x2_floor | Op.f64x2_trunc => emit_f64x2_trunc
  | Op.f64x2_nearest => emit_f64x2_nearest | Op.f64x2_abs => emit_f64x2_abs | Op.f64x2_neg => emit_f64x2_neg
  | Op.f64x2_sqrt => emit_f64x2_sqrt | Op.f64x2_add => emit_f64x2_add | Op.f64x2_sub => emit_f64x2_sub
  | Op.f64x2_mul => emit_f64x2_mul | Op.f64x2_div => emit_f64x2_div | Op.f64x2_min => emit_f64x2_min
  | Op.f64x2_max => emit_f64x2_max | Op.f64x2_pmin => emit_f64x2_pmin | Op.f64x2_pmax => emit_f64x2_pmax
  | Op.i32x4_trunc_sat_f32x4_s => emit_i32x4_trunc_sat_f32x4_s
  | Op.i32x4_trunc_sat_f32x4_u => emit_i32x4_trunc_sat_f32x4_u
  | Op.f32x4_convert_i32x4_s => emit_f32x4_convert_i32x4_s
  | Op.f32x4_convert_i32x4_u => emit_f32x4_convert_i32x4_u
  | Op.i32x4_trunc_sat_f64x2_s_zero => emit_i32x4_trunc_sat_f64x2_s_zero
  | Op.i32x4_trunc_sat_f64x2_u_zero => emit_i32x4_trunc_sat_f64x2_u_zero
  | Op.f64x2_convert_low_i32x4_s => emit_f64x2_convert_low_i32x4_s
  | Op.f64x2_convert_low_i32x4_u => emit_f64x2_convert_low_i32x4_u
  | Op.f32x4_demote_f64x2_zero => emit_f32x4_demote_f64x2_zero
  | Op.f64x2_promote_low_f32x4 => emit_f64x2_promote_low_f32x4
  end.
End Writer.
End X86Writer.

#[export] Instance x86_writer `{sys : Sys} `{jit : Jit} : Writer X86.t := {|
  label_t := Z;
  branch_t := Z;
  br_table_parser := X86Control.br_table_generator;
  get_depth_for_type type := if type =? v128 then 2 else 1;
  emit_unreachable := X86Control.emit_unreachable;
  emit_nop := mret tt;
  emit_end := X86Control.emit_end;
  emit_return := X86Control.emit_return;
  emit_block := mret tt;
  emit_loop := X86Control.emit_loop;
  emit_if := X86Control.emit_if;
  emit_else := X86Control.emit_else;
  emit_br := X86Control.emit_br;
  emit_br_if := X86Control.emit_br_if;
  emit_br_table := X86Control.emit_br_table;
  emit_case := X86Control.emit_case;
  emit_default := X86Control.emit_default;
  emit_call := X86Control.emit_call;
  emit_call_indirect := X86Control.emit_call_indirect;
  emit_drop := X86Control.emit_drop;
  emit_select := X86Control.emit_select;
  emit_get_local := X86Control.emit_get_local;
  emit_set_local := X86Control.emit_set_local;
  emit_tee_local := X86Control.emit_tee_local;
  emit_get_global := X86Control.emit_get_global;
  emit_set_global := X86Control.emit_set_global;
  emit_memory := X86Writer.emit_memory;
  emit_memory_size := X86Writer.emit_memory_size;
  emit_i32_const := X86Integer.emit_i32_const;
  emit_i64_const := X86Integer.emit_i64_const;
  emit_f32_const := X86Integer.emit_f32_const;
  emit_f64_const := X86Integer.emit_f64_const;
  emit_comparison := X86Writer.emit_comparison;
  emit_numeric := X86Writer.emit_numeric;
  emit_conversion := X86Writer.emit_conversion;
  emit_data := X86Writer.emit_data;
  emit_ext := X86Writer.emit_ext;
  emit_vec_memory := X86Writer.emit_vec_memory;
  emit_vec_lane_memory := X86Writer.emit_vec_lane_memory;
  emit_v128_const := X86Simd.emit_v128_const;
  emit_i8x16_shuffle := X86Simd.emit_i8x16_shuffle;
  emit_vec_lane := X86Writer.emit_vec_lane;
  emit_vec_numeric := X86Writer.emit_vec_numeric;
  fix_branch := X86.fix_branch;
  emit_prologue _ := X86Control.emit_prologue;
  emit_epilogue := X86Control.emit_epilogue;
  finalize := X86Control.finalize;
  set_stack_usage := X86Control.set_stack_usage;
  construct := X86Control.construct;
  destruct_ := X86Writer.destruct_;
  install := X86Writer.install
|}.
