(* ===== verification/X86Machine.v ===== *)
(** * The part of the x86-64 that the theorems about the JIT speak of

    A machine with sixteen registers, the condition flags and a memory of bytes, a
    decoder of the instructions that integer code is made of, written from the
    architecture's encoding tables and not from the assembler, and their execution.
    Code and data are apart: the code segment is not writable when it runs.  An
    instruction outside the subset, or a condition on flags that are not defined,
    stops the machine. *)
From S2P Require Import Prelude Allocator LinearMemory.

Module Machine.

(** ** State *)
Record flag_set : Type := Flags { fz : bool; fc : bool; fs : bool; fo : bool }.
Record t : Type := Make { regs : Z -> Z; flags : option flag_set; mem : gmap Z Z; rip : Z }.

Definition upd (r v : Z) (f : Z -> Z) : Z -> Z := fun x => if x =? r then v else f x.
Definition set_reg (r v : Z) (m : t) : t := Make (upd r v (regs m)) (flags m) (mem m) (rip m).
Definition set_flags (f : option flag_set) (m : t) : t := Make (regs m) f (mem m) (rip m).
Definition set_mem (x : gmap Z Z) (m : t) : t := Make (regs m) (flags m) x (rip m).
Definition set_rip (a : Z) (m : t) : t := Make (regs m) (flags m) (mem m) a.

Definition RSP : Z := 4.

(** ** Instructions *)
Inductive rm : Type := RReg (r : Z) | RMem (base : Z) (index : option Z) (disp : Z).
Inductive alu : Type := ADD | OR | AND | SUB | XOR | CMP.
Inductive shift : Type := ROL | ROR | SHL | SHR | SAR.
(** The conditions by their numbers in the opcodes, 2 to 15 *)
Inductive instr : Type :=
  | Push (r : Z) | Pop (r : Z)
  | Mov (w : Z) (dst src : rm)
  | MovImm (w r imm : Z)
  | Alu (op : alu) (w : Z) (dst src : rm)
  | AluImm (op : alu) (w : Z) (dst : rm) (imm : Z)
  | Test (w : Z) (a b : rm)
  | Shift (op : shift) (w : Z) (dst : rm) (count : option Z)   (* [None] is %cl *)
  | Imul (w r : Z) (src : rm)
  | Not (w : Z) (dst : rm)
  | Neg (w : Z) (dst : rm)
  | Movsx (from w r : Z) (src : rm)
  | Lea (w r : Z) (src : rm)
  | Setcc (c r : Z)
  | Cmov (c w r : Z) (src : rm)
  | Jcc (c rel : Z)
  | Jmp (rel : Z).

(** ** Decoding *)

(** A displacement of [n] bytes *)
Definition take_disp (n : nat) (l : list Z) : option (Z * list Z) :=
  if (n <=? length l)%nat then Some (sext (8 * Z.of_nat n) (le_decode (take n l)), drop n l) else None.

(** ModRM, SIB and displacement; [R], [X] and [B] are the extensions in the prefix. *)
Definition decode_modrm (R X B : Z) (l : list Z) : option (Z * rm * list Z) :=
  match l with
  | [] => None
  | b :: l =>
      let mode := Z.shiftr b 6 in
      let reg := Z.land (Z.shiftr b 3) 7 + 8 * R in
      let r_m := Z.land b 7 in
      let with_disp base index l :=
        d ← (if mode =? 0 then Some (0, l) else take_disp (if mode =? 1 then 1 else 4) l);
        Some (reg, RMem base index d.1, d.2) in
      if mode =? 3 then Some (reg, RReg (r_m + 8 * B), l)
      else if r_m =? 4 then
        match l with
        | [] => None
        | sib :: l =>
            let index := Z.land (Z.shiftr sib 3) 7 + 8 * X in
            if negb (Z.shiftr sib 6 =? 0) || ((Z.land sib 7 =? 5) && (mode =? 0)) then None
            else with_disp (Z.land sib 7 + 8 * B) (if index =? 4 then None else Some index) l
        end
      else if (r_m =? 5) && (mode =? 0) then None
      else with_disp (r_m + 8 * B) None l
  end.

Definition alu_of (n : Z) : option alu :=
  match n with
  | 0 => Some ADD | 1 => Some OR | 4 => Some AND | 5 => Some SUB | 6 => Some XOR | 7 => Some CMP
  | _ => None
  end.
Definition shift_of (n : Z) : option shift :=
  match n with 0 => Some ROL | 1 => Some ROR | 4 => Some SHL | 5 => Some SHR | 7 => Some SAR | _ => None end.

(** The opcodes after [0x0f] *)
Definition decode_0f (w R X B : Z) (l : list Z) : option (instr * list Z) :=
  match l with
  | [] => None
  | op :: l =>
      if (0x80 <=? op) && (op <=? 0x8f) then '(d, l) ← take_disp 4 l; Some (Jcc (op - 0x80) d, l)
      else
        '(reg, r_m, l) ← decode_modrm R X B l;
        if (0x90 <=? op) && (op <=? 0x9f) then
          match r_m with RReg r => Some (Setcc (op - 0x90) r, l) | _ => None end
        else if (0x40 <=? op) && (op <=? 0x4f) then Some (Cmov (op - 0x40) w reg r_m, l)
        else if op =? 0xaf then Some (Imul w reg r_m, l)
        else if op =? 0xbe then Some (Movsx 8 w reg r_m, l)
        else if op =? 0xbf then Some (Movsx 16 w reg r_m, l)
        else None
  end.

(** The opcodes with a ModRM byte *)
Definition decode_op (op w R X B : Z) (l : list Z) : option (instr * list Z) :=
  '(reg, r_m, l) ← decode_modrm R X B l;
  let ext := reg - 8 * R in
  if op =? 0x63 then Some (Movsx 32 w reg r_m, l)
  else if op =? 0x81 then o ← alu_of ext; '(d, l) ← take_disp 4 l; Some (AluImm o w r_m d, l)
  else if op =? 0x83 then o ← alu_of ext; '(d, l) ← take_disp 1 l; Some (AluImm o w r_m d, l)
  else if op =? 0x85 then Some (Test w r_m (RReg reg), l)
  else if op =? 0x89 then Some (Mov w r_m (RReg reg), l)
  else if op =? 0x8b then Some (Mov w (RReg reg) r_m, l)
  else if op =? 0x8d then Some (Lea w reg r_m, l)
  else if op =? 0xc1 then o ← shift_of ext; '(d, l) ← take_disp 1 l; Some (Shift o w r_m (Some d), l)
  else if op =? 0xd3 then o ← shift_of ext; Some (Shift o w r_m None, l)
  else if (op =? 0xf7) && (ext =? 2) then Some (Not w r_m, l)
  else if (op =? 0xf7) && (ext =? 3) then Some (Neg w r_m, l)
  else
    o ← alu_of (Z.shiftr op 3);
    if Z.land op 7 =? 1 then Some (Alu o w r_m (RReg reg), l)
    else if Z.land op 7 =? 3 then Some (Alu o w (RReg reg) r_m, l)
    else None.

(** After the prefix; [w] is the width of the operands. *)
Definition decode_opcode (w R X B : Z) (l : list Z) : option (instr * list Z) :=
  match l with
  | [] => None
  | op :: l =>
      if (0x50 <=? op) && (op <=? 0x57) then Some (Push (op - 0x50 + 8 * B), l)
      else if (0x58 <=? op) && (op <=? 0x5f) then Some (Pop (op - 0x58 + 8 * B), l)
      else if (0x70 <=? op) && (op <=? 0x7f) then '(d, l) ← take_disp 1 l; Some (Jcc (op - 0x70) d, l)
      else if (0xb8 <=? op) && (op <=? 0xbf) then
        '(d, l) ← take_disp (if w =? 64 then 8 else 4) l; Some (MovImm w (op - 0xb8 + 8 * B) d, l)
      else if op =? 0x3d then '(d, l) ← take_disp 4 l; Some (AluImm CMP w (RReg 0) d, l)
      else if op =? 0xe9 then '(d, l) ← take_disp 4 l; Some (Jmp d, l)
      else if op =? 0xeb then '(d, l) ← take_disp 1 l; Some (Jmp d, l)
      else if op =? 0x0f then decode_0f w R X B l
      else decode_op op w R X B l
  end.

Definition decode (l : list Z) : option (instr * list Z) :=
  match l with
  | [] => None
  | b :: l' =>
      if Z.shiftr b 4 =? 4 then
        decode_opcode (if Z.testbit b 3 then 64 else 32)
          (b2z (Z.testbit b 2)) (b2z (Z.testbit b 1)) (b2z (Z.testbit b 0)) l'
      else decode_opcode 32 0 0 0 l
  end.

(** ** Execution *)
Definition load (n : nat) (a : Z) (m : t) : Z := le_decode (load_bytes n a (mem m)).
Definition store (n : nat) (a v : Z) (m : t) : t := set_mem (store_bytes a (le_encode n v) (mem m)) m.
Definition bytes_of (w : Z) : nat := Z.to_nat (w / 8).

Definition address (base : Z) (index : option Z) (disp : Z) (m : t) : Z :=
  wrap 64 (regs m base + (match index with Some i => regs m i | None => 0 end) + disp).
Definition get (w : Z) (o : rm) (m : t) : Z :=
  match o with
  | RReg r => wrap w (regs m r)
  | RMem base index disp => load (bytes_of w) (address base index disp m) m
  end.
(** A 32-bit result clears the upper half of a register, one of 8 bits does not. *)
Definition put (w : Z) (o : rm) (v : Z) (m : t) : t :=
  match o with
  | RReg r => set_reg r (if w =? 8 then regs m r - wrap 8 (regs m r) + wrap 8 v else wrap w v) m
  | RMem base index disp => store (bytes_of w) (address base index disp m) v m
  end.

(** The flags of [a - b] *)
Definition cmp_flags (w a b : Z) : flag_set :=
  let r := wrap w (a - b) in
  Flags (r =? 0) (a <? b) (sext w r <? 0) (negb (sext w r =? sext w a - sext w b)).
Definition logic_flags (w r : Z) : flag_set := Flags (r =? 0) false (sext w r <? 0) false.

Definition cond (c : Z) (f : flag_set) : option bool :=
  match c with
  | 2 => Some (fc f) | 3 => Some (negb (fc f))
  | 4 => Some (fz f) | 5 => Some (negb (fz f))
  | 6 => Some (fc f || fz f) | 7 => Some (negb (fc f || fz f))
  | 12 => Some (xorb (fs f) (fo f)) | 13 => Some (negb (xorb (fs f) (fo f)))
  | 14 => Some (xorb (fs f) (fo f) || fz f) | 15 => Some (negb (xorb (fs f) (fo f) || fz f))
  | _ => None
  end.
Definition holds (c : Z) (m : t) : option bool := f ← flags m; cond c f.

Definition exec_alu (op : alu) (w : Z) (dst : rm) (b : Z) (m : t) : t :=
  let a := get w dst m in
  let logic r := set_flags (Some (logic_flags w r)) (put w dst r m) in
  match op with
  | ADD => set_flags None (put w dst (wrap w (a + b)) m)
  | OR => logic (Z.lor a b)
  | AND => logic (Z.land a b)
  | XOR => logic (Z.lxor a b)
  | SUB => set_flags (Some (cmp_flags w a b)) (put w dst (wrap w (a - b)) m)
  | CMP => set_flags (Some (cmp_flags w a b)) m
  end.
Definition exec_shift (op : shift) (w a n : Z) : Z :=
  let n := Z.land n (w - 1) in
  match op with
  | SHL => wrap w (Z.shiftl a n)
  | SHR => Z.shiftr a n
  | SAR => wrap w (Z.shiftr (sext w a) n)
  | ROL => wrap w (Z.lor (Z.shiftl a n) (Z.shiftr a (w - n)))
  | ROR => wrap w (Z.lor (Z.shiftr a n) (Z.shiftl a (w - n)))
  end.

(** [rip] is that of the next instruction already. *)
Definition exec (i : instr) (m : t) : option t :=
  match i with
  | Push r =>
      let v := regs m r in
      let m := set_reg RSP (wrap 64 (regs m RSP - 8)) m in
      Some (store 8 (regs m RSP) v m)
  | Pop r =>
      let v := load 8 (regs m RSP) m in
      Some (set_reg r v (set_reg RSP (wrap 64 (regs m RSP + 8)) m))
  | Mov w dst src => Some (put w dst (get w src m) m)
  | MovImm w r imm => Some (set_reg r (wrap w imm) m)
  | Alu op w dst src => Some (exec_alu op w dst (get w src m) m)
  | AluImm op w dst imm => Some (exec_alu op w dst (wrap w imm) m)
  | Test w a b => Some (set_flags (Some (logic_flags w (Z.land (get w a m) (get w b m)))) m)
  | Shift op w dst count =>
      let n := match count with Some n => n | None => regs m 1 end in
      Some (set_flags None (put w dst (exec_shift op w (get w dst m) n) m))
  | Imul w r src => Some (set_flags None (set_reg r (wrap w (wrap w (regs m r) * get w src m)) m))
  | Not w dst => Some (put w dst (wrap w (Z.lnot (get w dst m))) m)
  | Neg w dst => Some (set_flags None (put w dst (wrap w (- get w dst m)) m))
  | Movsx from w r src => Some (set_reg r (wrap w (sext from (get from src m))) m)
  | Lea w r src =>
      match src with RMem b i d => Some (set_reg r (wrap w (address b i d m)) m) | RReg _ => None end
  | Setcc c r => b ← holds c m; Some (put 8 (RReg r) (b2z b) m)
  | Cmov c w r src =>
      b ← holds c m; Some (set_reg r (if b : bool then get w src m else wrap w (regs m r)) m)
  | Jcc c rel => b ← holds c m; Some (if b : bool then set_rip (rip m + rel) m else m)
  | Jmp rel => Some (set_rip (rip m + rel) m)
  end.

(** The longest instruction has fifteen bytes. *)
Definition fetch (bm : gmap Z Z) (a : Z) : list Z := load_bytes 15 a bm.
Definition step (bm : gmap Z Z) (m : t) : option t :=
  let l := fetch bm (rip m) in
  '(i, rest) ← decode l;
  exec i (set_rip (rip m + Z.of_nat (length l - length rest)) m).
Fixpoint steps (bm : gmap Z Z) (n : nat) (m : t) : option t :=
  match n with O => Some m | S n => m ← step bm m; steps bm n m end.

(** ** The processor against concrete bytes *)

(** [mov 0x18(%rbp),%rax], [add 0x10(%rbp),%eax], [jl +0x3c], [shl $4,%rax] *)
Example decode_examples :
  decode [0x48; 0x8b; 0x45; 0x18; 0] = Some (Mov 64 (RReg 0) (RMem 5 None 24), [0]) /\
  decode [0x03; 0x45; 0x10] = Some (Alu ADD 32 (RReg 0) (RMem 5 None 16), []) /\
  decode [0x0f; 0x8c; 0x3c; 0; 0; 0; 9] = Some (Jcc 12 60, [9]) /\
  decode [0x48; 0xc1; 0xe0; 0x04] = Some (Shift SHL 64 (RReg 0) (Some 4), []) /\
  decode [0x49; 0x0f; 0x45; 0xe0] = Some (Cmov 5 64 4 (RReg 8), []) /\
  decode [0x8b; 0x44; 0x06; 0x10] = Some (Mov 32 (RReg 0) (RMem 6 (Some 0) 16), []).
Proof. repeat split. Qed.

End Machine.
