(* ===== verification/X86Encoding.v ===== *)
(** * What the assembler writes, and that the processor reads it back (x86_64.hpp)

    A computation that only appends bytes is described by the list it appends
    ([writes]).  The encodings of the assembler are inverted by the decoder of
    [Machine]: registers and memory operands, prefixes, opcodes and immediates. *)
From S2P Require Import Prelude Allocator LinearMemory X86 X86Machine.
Import X86.

(** ** Appending bytes *)
Definition room (s : t) (n : nat) : Prop := n = 0%nat \/ (_code_start s <= code s /\ code s + Z.of_nat n <= _code_end s).
Definition append (bs : list Z) (s : t) : t :=
  set_code (code s + Z.of_nat (length bs)) (set_bytes (put (code s) bs (bytes s)) s).
(** [k] appends [bs] where there is room, and does nothing else. *)
Definition bytes_ok (l : list Z) : Prop := (wrap 8 <$> l) = l.
Definition writes (k : M t unit) (bs : list Z) : Prop := bytes_ok bs /\ forall s,
  (room s (length bs) -> k s = (Ret tt, append bs s)) /\ (forall s', k s = (Ret tt, s') -> s' = append bs s).

Lemma set_code_bytes_eta s : set_code (code s) (set_bytes (bytes s) s) = s.
Proof. by destruct s. Qed.
Lemma append_nil s : append [] s = s.
Proof. unfold append. simpl. rewrite Z.add_0_r. apply set_code_bytes_eta. Qed.
Lemma put_app a l1 l2 m : put a (l1 ++ l2) m = put (a + Z.of_nat (length l1)) l2 (put a l1 m).
Proof.
  revert a m. induction l1 as [|b l1 IH]; intros a m; simpl; [by rewrite Z.add_0_r|].
  rewrite IH. f_equal. lia.
Qed.
Lemma append_app l1 l2 s : append l2 (append l1 s) = append (l1 ++ l2) s.
Proof.
  unfold append, set_code, set_bytes. simpl. rewrite put_app, length_app. f_equal; lia.
Qed.
Lemma room_app s l1 l2 :
  room s (length (l1 ++ l2)) -> room s (length l1) /\ room (append l1 s) (length l2).
Proof. unfold room, append. rewrite length_app. destruct s; simpl. lia. Qed.

Lemma writes_nil : writes (mret tt) [].
Proof. split; [done|]. intros s. rewrite append_nil. split; [done|]. by intros s' [= <-]. Qed.
Lemma writes_seq k1 k2 l1 l2 : writes k1 l1 -> writes k2 l2 -> writes (k1;; k2) (l1 ++ l2).
Proof.
  intros [B1 H1] [B2 H2]. split; [unfold bytes_ok in *; by rewrite fmap_app, B1, B2|]. intros s. split.
  - intros [R1 R2]%room_app. unfold mbind, M_bind. rewrite (proj1 (H1 s)) by done.
    rewrite (proj1 (H2 _)) by done. by rewrite append_app.
  - intros s' E. unfold mbind, M_bind in E. destruct (k1 s) as [[[]|e|w] s1] eqn:E1; try done.
    apply (proj2 (H1 s)) in E1 as ->. apply (proj2 (H2 _)) in E as ->. apply append_app.
Qed.
Lemma writes_byte v : writes (emit_byte v) [wrap 8 v].
Proof.
  split; [unfold bytes_ok; simpl; by rewrite wrap_wrap by lia|].
  intros s. unfold emit_byte, room, append. simpl. rewrite wrap_wrap by lia. split.
  - intros [?|[R1 R2]]; [done|]. rewrite (proj2 (Z.leb_le _ _)), (proj2 (Z.ltb_lt _ _)) by lia. done.
  - intros s' E. destruct (_ && _); by inversion E.
Qed.
Lemma writes_bytes l : writes (emit_bytes l) (wrap 8 <$> l).
Proof.
  induction l as [|v l IH]; [apply writes_nil|]. simpl.
  exact (writes_seq _ _ [wrap 8 v] _ (writes_byte v) IH).
Qed.
Lemma writes_eq k l l' : writes k l -> l = l' -> writes k l'.
Proof. by intros ? <-. Qed.

#[global] Arguments emit_bytes : simpl never.
Create HintDb writes.
#[export] Hint Resolve writes_nil writes_seq writes_byte writes_bytes : writes.

Lemma le_encode_wrap n x : wrap 8 <$> le_encode n x = le_encode n x.
Proof. revert x. induction n as [|n IH]; intros x; simpl; [done|]. by rewrite wrap_wrap, IH by lia. Qed.
Lemma writes_operand32 v : writes (emit_operand32 v) (le_encode 4 v).
Proof. eapply writes_eq; [apply writes_bytes|apply le_encode_wrap]. Qed.
Lemma writes_operand64 v : writes (emit_operand64 v) (le_encode 8 v).
Proof. eapply writes_eq; [apply writes_bytes|apply le_encode_wrap]. Qed.
#[export] Hint Resolve writes_operand32 writes_operand64 : writes.

(** ** Case analysis on small numbers *)
Ltac cases_lt r n :=
  lazymatch n with
  | O => lia
  | S ?k =>
      let c := eval vm_compute in (Z.of_nat k) in
      destruct (Z.eq_dec r c) as [->|?]; [|cases_lt r k]
  end.

(** The fields of a ModRM byte *)
Definition mode_ok (m : Z) : Prop := m = 0 \/ m = 0x40 \/ m = 0x80 \/ m = 0xc0.
Lemma modrm_fields mode reg r :
  mode_ok mode -> 0 <= reg < 16 -> 0 <= r < 8 ->
  let b := modrm mode reg r in
  wrap 8 b = b /\ Z.shiftr b 6 = Z.shiftr mode 6 /\ Z.land (Z.shiftr b 3) 7 = Z.land reg 7 /\ Z.land b 7 = r.
Proof.
  intros Hm Hreg Hr. cases_lt reg 16%nat; cases_lt r 8%nat; destruct Hm as [->|[->|[->| ->]]]; by vm_compute.
Qed.
Lemma low_high r : 0 <= r < 16 -> Z.land r 7 + 8 * b2z (bit3 r) = r.
Proof. intros Hr. cases_lt r 16%nat; done. Qed.
Lemma low_bound r : 0 <= Z.land r 7 < 8.
Proof.
  change 7 with (Z.ones 3). rewrite Z.land_ones by lia. apply Z.mod_pos_bound. lia.
Qed.

(** ** Operands *)

(** The operand of the processor *)
Definition index_of (r : Z) : option Z := if r =? 4 then None else Some r.
Fixpoint meaning (o : operand) : Machine.rm :=
  match o with
  | G64 r | G32 r | G16 r | G8 r | Xmm r | Int r => Machine.RReg r
  | Simple r => Machine.RMem r None 0
  | Disp r d => Machine.RMem r None d
  | Sib r1 r2 d => Machine.RMem r2 (Some r1) d
  | Sized _ o => meaning o
  | Imm8 _ | Imm32 _ => Machine.RReg 0
  end.
(** The operands that are encoded as meant: all but %r12 as a base without an index, and
    %r13 as a base without a displacement, whose encodings are those of other operands
    ([r12_base_misread], [r13_base_misread]; the code does not use them).  %rsp as an
    index and %rbp as the base of a sum are refused. *)
Fixpoint encodable (o : operand) : Prop :=
  match o with
  | G64 r | G32 r | G16 r | G8 r | Xmm r => 0 <= r < 16
  | Simple r => 0 <= r < 16 /\ r <> 12 /\ r <> 13
  | Disp r d => 0 <= r < 16 /\ r <> 12 /\ (r = 13 -> d <> 0) /\ in_s 32 d
  | Sib r1 r2 d => 0 <= r1 < 16 /\ 0 <= r2 < 16 /\ r1 <> 4 /\ r2 <> 5 /\ (r2 = 13 -> d <> 0) /\ in_s 32 d
  | Sized _ o => encodable o
  | Imm8 _ | Imm32 _ | Int _ => False
  end.
(** The bits that extend the registers *)
Fixpoint ext_X (o : operand) : bool := match o with Sib r1 _ _ => bit3 r1 | Sized _ o => ext_X o | _ => false end.
Fixpoint ext_B (o : operand) : bool := match o with Sized _ o => ext_B o | _ => bit3 (num o) end.

(** The decoder on one operand *)
Definition reads (bs : list Z) (X B : bool) (reg : Z) (o : operand) : Prop := forall rest,
  Machine.decode_modrm (b2z (bit3 reg)) (b2z X) (b2z B) (bs ++ rest) = Some (reg, meaning o, rest).

Lemma take_disp_sext n d rest : Machine.take_disp n (le_encode n d ++ rest) = Some (sext (8 * Z.of_nat n) d, rest).
Proof.
  unfold Machine.take_disp. pose proof (length_le_encode n d) as L.
  rewrite length_app, L, (proj2 (Nat.leb_le _ _)) by lia.
  rewrite take_app_le, take_ge, drop_app_ge by lia. rewrite L, Nat.sub_diag, drop_0, le_decode_encode.
  by rewrite sext_wrap by lia.
Qed.
Lemma take_disp_encode n d rest :
  (0 < n)%nat -> in_s (8 * Z.of_nat n) d -> Machine.take_disp n (le_encode n d ++ rest) = Some (d, rest).
Proof. intros Hn Hd. by rewrite take_disp_sext, sext_small by (done || lia). Qed.
Lemma le_encode_1 d : le_encode 1 d = [wrap 8 d].
Proof. done. Qed.

(** A displacement after a ModRM byte of mode 1 or 2 *)
Definition disp_mode (mode n : Z) : Prop := (mode = 0x40 /\ n = 1) \/ (mode = 0x80 /\ n = 4).

Lemma reads_register reg r :
  0 <= reg < 16 -> 0 <= r < 16 -> forall rest,
  Machine.decode_modrm (b2z (bit3 reg)) 0 (b2z (bit3 r)) (wrap 8 (modrm 0xc0 reg (Z.land r 7)) :: rest) =
    Some (reg, Machine.RReg r, rest).
Proof.
  intros Hreg Hr rest. destruct (modrm_fields 0xc0 reg (Z.land r 7)) as (-> & E1 & E2 & E3);
    [unfold mode_ok; lia|done|apply low_bound|].
  unfold Machine.decode_modrm. rewrite E1, E2, E3. simpl. by rewrite !low_high.
Qed.

(** The memory operand that follows a ModRM byte of [mode], with a base that needs no SIB byte *)
Lemma reads_base mode n reg r d rest :
  disp_mode mode n -> 0 <= reg < 16 -> 0 <= r < 16 -> r <> 4 -> r <> 12 -> in_s (8 * n) d ->
  Machine.decode_modrm (b2z (bit3 reg)) 0 (b2z (bit3 r))
    (wrap 8 (modrm mode reg (Z.land r 7)) :: le_encode (Z.to_nat n) d ++ rest) =
    Some (reg, Machine.RMem r None d, rest).
Proof.
  intros Hm Hreg Hr H4 H12 Hd. destruct (modrm_fields mode reg (Z.land r 7)) as (-> & E1 & E2 & E3);
    [destruct Hm as [[-> _]|[-> _]]; unfold mode_ok; lia|done|apply low_bound|].
  unfold Machine.decode_modrm. rewrite E1, E2, E3, !low_high by lia.
  assert ((Z.land r 7 =? 4) = false) as -> by (clear -Hr H4 H12; cases_lt r 16%nat; done).
  destruct Hm as [[-> ->]|[-> ->]]; simpl (Z.shiftr _ 6);
    cbn [Z.eqb Pos.eqb negb andb orb]; rewrite andb_false_r, take_disp_encode by (done || lia); done.
Qed.

Lemma reads_sib mode n reg r1 r2 d rest :
  disp_mode mode n -> 0 <= reg < 16 -> 0 <= r1 < 16 -> 0 <= r2 < 16 -> in_s (8 * n) d ->
  Machine.decode_modrm (b2z (bit3 reg)) (b2z (bit3 r1)) (b2z (bit3 r2))
    (wrap 8 (modrm mode reg 4) :: wrap 8 (Z.lor (Z.shiftl (Z.land r1 7) 3) (Z.land r2 7)) :: le_encode (Z.to_nat n) d ++ rest) =
    Some (reg, Machine.RMem r2 (index_of r1) d, rest).
Proof.
  intros Hm Hreg H1 H2 Hd. destruct (modrm_fields mode reg 4) as (-> & E1 & E2 & E3);
    [destruct Hm as [[-> _]|[-> _]]; unfold mode_ok; lia|done|lia|].
  destruct (modrm_fields 0 r1 (Z.land r2 7)) as (F0 & F1 & F2 & F3);
    [unfold mode_ok; lia|done|apply low_bound|]. unfold modrm in F0, F1, F2, F3. rewrite Z.lor_0_l in F0, F1, F2, F3.
  rewrite F0. unfold Machine.decode_modrm. rewrite E1, E2, E3, F1, F2, F3, !low_high by lia.
  unfold index_of. destruct Hm as [[-> ->]|[-> ->]]; simpl (Z.shiftr _ 6);
    cbn [Z.eqb Pos.eqb negb andb orb]; rewrite andb_false_r, take_disp_encode by (done || lia); done.
Qed.

(** Without a displacement *)
Lemma reads_base0 reg r rest :
  0 <= reg < 16 -> 0 <= r < 16 -> r <> 4 -> r <> 5 -> r <> 12 -> r <> 13 ->
  Machine.decode_modrm (b2z (bit3 reg)) 0 (b2z (bit3 r)) (wrap 8 (modrm 0 reg (Z.land r 7)) :: rest) =
    Some (reg, Machine.RMem r None 0, rest).
Proof.
  intros Hreg Hr H4 H5 H12 H13. destruct (modrm_fields 0 reg (Z.land r 7)) as (-> & E1 & E2 & E3);
    [unfold mode_ok; lia|done|apply low_bound|].
  unfold Machine.decode_modrm. rewrite E1, E2, E3, !low_high by lia.
  assert ((Z.land r 7 =? 4) = false) as -> by (clear -Hr H4 H12; cases_lt r 16%nat; done).
  assert ((Z.land r 7 =? 5) = false) as -> by (clear -Hr H5 H13; cases_lt r 16%nat; done). done.
Qed.
Lemma reads_sib0 reg r1 r2 rest :
  0 <= reg < 16 -> 0 <= r1 < 16 -> 0 <= r2 < 16 -> r2 <> 5 -> r2 <> 13 ->
  Machine.decode_modrm (b2z (bit3 reg)) (b2z (bit3 r1)) (b2z (bit3 r2))
    (wrap 8 (modrm 0 reg 4) :: wrap 8 (Z.lor (Z.shiftl (Z.land r1 7) 3) (Z.land r2 7)) :: rest) =
    Some (reg, Machine.RMem r2 (index_of r1) 0, rest).
Proof.
  intros Hreg H1 H2 H5 H13. destruct (modrm_fields 0 reg 4) as (-> & E1 & E2 & E3);
    [unfold mode_ok; lia|done|lia|].
  destruct (modrm_fields 0 r1 (Z.land r2 7)) as (F0 & F1 & F2 & F3);
    [unfold mode_ok; lia|done|apply low_bound|]. unfold modrm in F0, F1, F2, F3. rewrite Z.lor_0_l in F0, F1, F2, F3.
  rewrite F0. unfold Machine.decode_modrm. rewrite E1, E2, E3, F1, F2, F3, !low_high by lia.
  assert ((Z.land r2 7 =? 5) = false) as -> by (clear -H2 H5 H13; cases_lt r2 16%nat; done). done.
Qed.

(** [k] writes bytes that the decoder reads as the operand [o]. *)
Definition writes_rm (k : M t unit) (reg : Z) (o : operand) : Prop :=
  exists bs, writes k bs /\ (length bs <= 6)%nat /\ reads bs (ext_X o) (ext_B o) reg o.

Lemma emit_simple_reads mem reg :
  0 <= reg < 16 -> 0 <= mem < 16 -> mem <> 12 -> mem <> 13 -> exists bs, writes (emit_modrm_simple mem reg) bs /\ (length bs <= 6)%nat /\
    forall rest, Machine.decode_modrm (b2z (bit3 reg)) 0 (b2z (bit3 mem)) (bs ++ rest) =
      Some (reg, Machine.RMem mem None 0, rest).
Proof.
  intros Hreg Hm H12 H13. unfold emit_modrm_simple.
  destruct (Z.eqb_spec mem 4) as [->|H4]; [|destruct (Z.eqb_spec mem 5) as [->|H5]];
    (eexists; split; [apply writes_bytes|split; [simpl; lia|]]; intros rest).
  - apply (reads_sib0 reg 4 4 rest); lia.
  - assert (modrm 0x45 reg 0 = modrm 0x40 reg 5) as -> by (unfold modrm; cases_lt reg 16%nat; done).
    exact (reads_base 0x40 1 reg 5 0 rest (or_introl (conj eq_refl eq_refl)) Hreg ltac:(lia) ltac:(lia) ltac:(lia) ltac:(done)).
  - by apply (reads_base0 reg mem rest).
Qed.

Lemma emit_disp_reads mem d reg :
  0 <= reg < 16 -> encodable (Disp mem d) -> writes_rm (emit_modrm_sib_disp (Disp mem d) reg) reg (Disp mem d).
Proof.
  intros Hreg (Hm & H12 & H13 & Hd). unfold writes_rm, reads. simpl.
  destruct (Z.eqb_spec d 0) as [->|H0]; [apply emit_simple_reads; [done|done|done|by intros E%H13]|].
  destruct ((-0x80 <=? d) && (d <=? 0x7f)) eqn:Hs.
  - assert (in_s 8 d) by (unfold in_s; simpl; lia).
    destruct (Z.eqb_spec mem 4) as [->|H4]; (eexists; split; [apply writes_bytes|split; [simpl; lia|]]; intros rest).
    + exact (reads_sib 0x40 1 reg 4 4 d rest (or_introl (conj eq_refl eq_refl)) Hreg ltac:(lia) ltac:(lia) ltac:(done)).
    + exact (reads_base 0x40 1 reg mem d rest (or_introl (conj eq_refl eq_refl)) Hreg Hm H4 H12 ltac:(done)).
  - destruct (Z.eqb_spec mem 4) as [->|H4];
      (eexists; split; [apply writes_seq; [apply writes_bytes|apply writes_operand32]|split; [simpl; lia|]]; intros rest).
    + exact (reads_sib 0x80 4 reg 4 4 d rest (or_intror (conj eq_refl eq_refl)) Hreg ltac:(lia) ltac:(lia) Hd).
    + exact (reads_base 0x80 4 reg mem d rest (or_intror (conj eq_refl eq_refl)) Hreg Hm H4 H12 Hd).
Qed.

Lemma emit_sib_reads r1 r2 d reg :
  0 <= reg < 16 -> encodable (Sib r1 r2 d) -> writes_rm (emit_modrm_sib_disp (Sib r1 r2 d) reg) reg (Sib r1 r2 d).
Proof.
  intros Hreg (H1 & H2 & H4 & H5 & H13 & Hd). unfold writes_rm, reads.
  assert (index_of r1 = Some r1) as Hi by (unfold index_of; by rewrite (proj2 (Z.eqb_neq r1 4))).
  change (meaning (Sib r1 r2 d)) with (Machine.RMem r2 (Some r1) d). rewrite <- Hi. simpl.
  rewrite (proj2 (Z.eqb_neq r1 4)), (proj2 (Z.eqb_neq r2 5)) by done. simpl orb.
  assert (Hw : forall k bs, writes k bs -> writes (mret tt;; k) bs)
    by (intros k bs Hk; exact (writes_seq _ _ [] bs writes_nil Hk)).
  destruct (Z.eqb_spec d 0) as [->|H0]; [|destruct ((-0x80 <=? d) && (d <=? 0x7f)) eqn:Hs];
    (eexists; split; [apply Hw; first [apply writes_bytes|apply writes_seq; [apply writes_bytes|apply writes_operand32]]|split; [simpl; lia|]]; intros rest).
  - apply (reads_sib0 reg r1 r2 rest); [done..|by intros E%H13].
  - assert (in_s 8 d) by (unfold in_s; simpl; lia).
    exact (reads_sib 0x40 1 reg r1 r2 d rest (or_introl (conj eq_refl eq_refl)) Hreg H1 H2 ltac:(done)).
  - exact (reads_sib 0x80 4 reg r1 r2 d rest (or_intror (conj eq_refl eq_refl)) Hreg H1 H2 Hd).
Qed.

(** Every other operand of the assembler is read back as it was meant. *)
Lemma emit_modrm_reads o reg :
  0 <= reg < 16 -> encodable o -> writes_rm (emit_modrm_sib_disp o reg) reg o.
Proof.
  intros Hreg. induction o as [r|r|r|r|r|r|r d|r1 r2 d|sz o IH|v|v|v]; intros Ho; simpl in Ho; try done.
  1-5: eexists; split; [apply writes_bytes|split; [simpl; lia|]]; intros rest; by apply (reads_register reg r).
  - destruct Ho as (H0 & H12 & H13). exact (emit_simple_reads r reg Hreg H0 H12 H13).
  - by apply emit_disp_reads.
  - by apply emit_sib_reads.
  - exact (IH Ho).
Qed.

(** %r12 as a base: the byte of the displacement is taken for a SIB byte.  %r13 as a base
    without a displacement: no base at all, which the decoder refuses. *)
Example r12_base_misread :
  writes (emit_modrm_sib_disp (Disp 12 8) 0) [0x44; 0x08] /\
  Machine.decode_modrm 0 0 1 [0x44; 0x08; 0x90] = Some (0, Machine.RMem 8 (Some 1) (-0x70), []).
Proof. split; [apply writes_bytes|reflexivity]. Qed.
Example r13_base_misread :
  writes (emit_modrm_sib_disp (Simple 13) 0) [0x05] /\ forall rest, Machine.decode_modrm 0 0 1 (0x05 :: rest) = None.
Proof. split; [apply writes_bytes|reflexivity]. Qed.
