(* ===== verification/MemoryOps.v ===== *)
(** * Loads and stores (interpret_visitor.hpp)

    What each scalar load and store does to the memory and the operand stack: the
    effective address is the 33-bit sum of operand and offset, the access traps
    exactly when it leaves the memory, and otherwise moves the little-endian bytes
    of the value. *)
From S2P Require Import Prelude WasmStack Allocator Opcodes Types LinearMemory ExecContext Softfloat Simd Interpreter Fixtures ContextProofs InstanceProofs Soundness FloatInstance IntegerOps.
Import WasmAlloc(byte_at, bytes, page, set_bytes).

(** ** The instructions *)

(** Bytes read, whether they are sign-extended, and the type of the operand. *)
Definition load_shape (o : Op.memory_op) : option (nat * bool * Z) :=
  match o with
  | Op.i32_load => Some (4%nat, false, i32)
  | Op.i64_load => Some (8%nat, false, i64)
  | Op.f32_load => Some (4%nat, false, f32)
  | Op.f64_load => Some (8%nat, false, f64)
  | Op.i32_load8_s => Some (1%nat, true, i32)
  | Op.i32_load16_s => Some (2%nat, true, i32)
  | Op.i32_load8_u => Some (1%nat, false, i32)
  | Op.i32_load16_u => Some (2%nat, false, i32)
  | Op.i64_load8_s => Some (1%nat, true, i64)
  | Op.i64_load16_s => Some (2%nat, true, i64)
  | Op.i64_load32_s => Some (4%nat, true, i64)
  | Op.i64_load8_u => Some (1%nat, false, i64)
  | Op.i64_load16_u => Some (2%nat, false, i64)
  | Op.i64_load32_u => Some (4%nat, false, i64)
  | _ => None
  end.

(** Bytes written and the type of the operand. *)
Definition store_shape (o : Op.memory_op) : option (nat * Z) :=
  match o with
  | Op.i32_store => Some (4%nat, i32)
  | Op.i64_store => Some (8%nat, i64)
  | Op.f32_store => Some (4%nat, f32)
  | Op.f64_store => Some (8%nat, f64)
  | Op.i32_store8 => Some (1%nat, i32)
  | Op.i32_store16 => Some (2%nat, i32)
  | Op.i64_store8 => Some (1%nat, i64)
  | Op.i64_store16 => Some (2%nat, i64)
  | Op.i64_store32 => Some (4%nat, i64)
  | _ => None
  end.

(** The operand of type [t] with the bits of the integer [x]. *)
Definition of_type (t x : Z) : operand_stack_elem :=
  if t =? i32 then mk_i32 x else if t =? i64 then mk_i64 x
  else if t =? f32 then mk_f32 x else mk_f64 x.

(** The bits of an operand. *)
Definition payload (e : operand_stack_elem) : Z :=
  match e with
  | i32_const_t x | i64_const_t x | f32_const_t x | f64_const_t x => x
  | v128_const_t v => to_bits128 v
  end.

(** The little-endian integer in the [n] bytes at [a]. *)
Definition read_le (n : nat) (a : Z) (wa : WasmAlloc.t) : Z := le_decode (load_bytes n a (bytes wa)).

Lemma le_encode_lookup n x j :
  0 <= j < Z.of_nat n -> nthZ (le_encode n x) j = Some (wrap 8 (Z.shiftr x (8 * j))).
Proof.
  revert x j. induction n as [|n IH]; intros x j Hj; [lia|]. simpl le_encode.
  destruct (Z.eq_dec j 0) as [->|Hne]; [by rewrite Z.shiftr_0_r|].
  assert (E : nthZ (wrap 8 x :: le_encode n (Z.shiftr x 8)) j = nthZ (le_encode n (Z.shiftr x 8)) (j - 1)).
  { unfold nthZ. destruct (Z.ltb_spec j 0), (Z.ltb_spec (j - 1) 0); try lia.
    by replace (Z.to_nat j) with (S (Z.to_nat (j - 1))) by lia. }
  rewrite E, IH by lia. rewrite Z.shiftr_shiftr by lia. do 3 f_equal. lia.
Qed.

Section Memory.
Context `{sys : Sys} {Hok : SysOk sys} `{sf : Softfloat} (m : module) (_rhf : Z -> M ctx unit).
Implicit Types (c : ctx).

Abbreviation memory_bytes c := (page_bytes (_wasm_alloc c)).
Abbreviation run_memory o align offset := (exec m _rhf (Op.MEMORY o align offset)).

(** An effective address decides between an access and a trap. *)
Lemma effective_access n a offset wa :
  memory_ok wa -> in_u 32 a -> in_u 32 offset -> (n <= 16)%nat ->
  access 0 (offset + a) (Z.of_nat n) wa =
    if a + offset + Z.of_nat n <=? page_bytes wa then Ret tt else Throw oob.
Proof.
  intros [Hm _] [Ha1 Ha2] [Ho1 Ho2] Hn.
  rewrite access_cases by (first [apply page_at_least_16|lia]).
  destruct (Z.leb_spec 0 (page wa)); [|lia]. rewrite andb_true_r. by replace (offset + a) with (a + offset) by lia.
Qed.

(** Running [k] throws [e] and leaves the memory alone. *)
Definition traps (k : M ctx unit) (c : ctx) (e : exn) : Prop :=
  exists c', k c = (Throw e, c') /\ _wasm_alloc c' = _wasm_alloc c.

Lemma load_runs n mk a rest offset p c :
  (n <= 16)%nat -> in_u 32 offset -> in_u 32 a -> memory_ok (_wasm_alloc c) ->
  stk c (i32_const_t a :: rest) -> small rest -> pc c = Pc p ->
  let ea := a + offset in
  (ea + Z.of_nat n <= memory_bytes c ->
     yields (load n mk offset) c p (mk (read_le n ea (_wasm_alloc c)) :: rest)) /\
  (memory_bytes c < ea + Z.of_nat n -> traps (load n mk offset) c oob).
Proof.
  intros Hn Ho Ha Hm [Hw Hc] Hsm Hp ea.
  pose proof (effective_access n a offset _ Hm Ha Ho Hn) as Hacc. fold ea in Hacc. split; intros Hin.
  - apply wp_yields. unfold load, pop_memop_addr, read_mem. vsteps. eapply wp_lift_Ret; [done|].
    apply wp_ret. vsteps. eapply wp_lift_Ret.
    { unfold read_unaligned. simpl. rewrite Hacc.
      destruct (Z.leb_spec (ea + Z.of_nat n) (memory_bytes c)); [done|lia]. }
    vsteps. eexists. split; [done|]. split; [|done].
    unfold read_le. replace (offset + a) with ea in * by lia. done.
  - assert (H : wp (load n mk offset) (fun _ _ => False)
        (fun e c' => e = oob /\ _wasm_alloc c' = _wasm_alloc c) c).
    { unfold load, pop_memop_addr, read_mem. vsteps. eapply wp_lift_Ret; [done|]. apply wp_ret. vsteps.
      eapply wp_lift_Throw; [|done]. unfold read_unaligned. simpl. rewrite Hacc.
      destruct (Z.leb_spec (ea + Z.of_nat n) (memory_bytes c)); [lia|done]. }
    unfold wp, traps in *. destruct (load n mk offset c) as [[[]|e|w] c']; [done| |done].
    destruct H as [-> ?]. by eexists.
Qed.

(** C20. Every scalar load: with [ea] the sum of the address operand and the offset,
    which does not wrap around, it traps exactly when the bytes at [ea] are not
    inside the memory, with the memory unchanged; otherwise it replaces the address
    by the little-endian value at [ea], sign-extended when the instruction says
    so, and changes nothing else. *)
Theorem load_spec o n sx t align offset a rest p c :
  load_shape o = Some (n, sx, t) ->
  in_u 32 offset -> in_u 32 a -> memory_ok (_wasm_alloc c) ->
  stk c (i32_const_t a :: rest) -> small rest -> pc c = Pc p ->
  let ea := a + offset in
  let v := read_le n ea (_wasm_alloc c) in
  (ea + Z.of_nat n <= memory_bytes c ->
     yields (run_memory o align offset) c p
       (of_type t (if sx then sext (8 * Z.of_nat n) v else v) :: rest)) /\
  (memory_bytes c < ea + Z.of_nat n -> traps (run_memory o align offset) c oob).
Proof.
  intros Hsh Ho Ha Hm Hs Hsm Hp ea v.
  destruct o; try discriminate Hsh; injection Hsh as <- <- <-;
    (apply load_runs; [lia|done..]).
Qed.

(** The state after a store. *)
Definition stored (c c' : ctx) (p : Z) (rest : list operand_stack_elem) (mem : gmap Z Z) : Prop :=
  exists os, WStack.wf os /\ WStack.contents os = rest /\
    c' = set_wasm_alloc (set_bytes mem (_wasm_alloc c)) (set_os os (set_pc (Pc (p + 1)) c)).

Lemma store_runs n get x el a rest offset p c :
  (n <= 16)%nat -> in_u 32 offset -> in_u 32 a -> memory_ok (_wasm_alloc c) ->
  get el = Ret x ->
  stk c (el :: i32_const_t a :: rest) -> small rest -> pc c = Pc p ->
  let ea := a + offset in
  (ea + Z.of_nat n <= memory_bytes c ->
     exists c', store n get offset c = (Ret tt, c') /\
       stored c c' p rest (store_bytes ea (le_encode n x) (bytes (_wasm_alloc c)))) /\
  (memory_bytes c < ea + Z.of_nat n -> traps (store n get offset) c oob).
Proof.
  intros Hn Ho Ha Hm Hget [Hw Hc] Hsm Hp ea.
  pose proof (effective_access n a offset _ Hm Ha Ho Hn) as Hacc. fold ea in Hacc. split; intros Hin.
  - assert (H : wp (store n get offset) (fun _ c' =>
        stored c c' p rest (store_bytes ea (le_encode n x) (bytes (_wasm_alloc c)))) (fun _ _ => False) c).
    { unfold store, pop_memop_addr, write_mem. vsteps. eapply wp_lift_Ret; [done|]. apply wp_ret. vsteps.
      eapply wp_lift_Ret.
      { unfold write_unaligned. simpl. rewrite Hacc.
        destruct (Z.leb_spec (ea + Z.of_nat n) (memory_bytes c)); [done|lia]. }
      vsteps. eexists. split; [eassumption|]. split; [done|].
      replace (offset + a) with ea by lia. done. }
    apply wp_returns in H as ([] & c' & Hr & HQ). by exists c'.
  - assert (H : wp (store n get offset) (fun _ _ => False)
        (fun e c' => e = oob /\ _wasm_alloc c' = _wasm_alloc c) c).
    { unfold store, pop_memop_addr, write_mem. vsteps. eapply wp_lift_Ret; [done|]. apply wp_ret. vsteps.
      eapply wp_lift_Throw; [|done]. unfold write_unaligned. simpl. rewrite Hacc.
      destruct (Z.leb_spec (ea + Z.of_nat n) (memory_bytes c)); [lia|done]. }
    unfold wp, traps in *. destruct (store n get offset c) as [[[]|e|w] c']; [done| |done].
    destruct H as [-> ?]. by eexists.
Qed.

(** C21. Every scalar store: it traps exactly when the bytes at the effective
    address are not inside the memory, with the memory unchanged; otherwise it
    takes both operands, puts the low bytes of the value there, the least
    significant first, changes no other byte, and a load of that width reads the
    value back modulo its size. *)
Theorem store_spec o n t el align offset a rest p c :
  store_shape o = Some (n, t) -> elem_type el = t ->
  in_u 32 offset -> in_u 32 a -> memory_ok (_wasm_alloc c) ->
  stk c (el :: i32_const_t a :: rest) -> small rest -> pc c = Pc p ->
  let ea := a + offset in
  (ea + Z.of_nat n <= memory_bytes c ->
     exists c' mem, run_memory o align offset c = (Ret tt, c') /\ stored c c' p rest mem /\
       (forall i, byte_at mem i =
          if decide (ea <= i < ea + Z.of_nat n) then wrap 8 (Z.shiftr (payload el) (8 * (i - ea)))
          else byte_at (bytes (_wasm_alloc c)) i) /\
       read_le n ea (_wasm_alloc c') = wrap (8 * Z.of_nat n) (payload el)) /\
  (memory_bytes c < ea + Z.of_nat n -> traps (run_memory o align offset) c oob).
Proof.
  intros Hsh Hel Ho Ha Hm Hs Hsm Hp ea.
  assert (H : exists get, run_memory o align offset = store n get offset /\ get el = Ret (payload el) /\ (n <= 16)%nat).
  { destruct o; try discriminate Hsh; injection Hsh as <- <-; destruct el; try discriminate Hel;
      (eexists; split_and!; [done|done|lia]). }
  destruct H as (get & -> & Hget & Hn).
  destruct (store_runs n get _ el a rest offset p c Hn Ho Ha Hm Hget Hs Hsm Hp) as [H1 H2].
  fold ea in H1, H2. split; [|done]. intros Hin. destruct (H1 Hin) as (c' & Hr & Hst).
  exists c'. eexists. split; [done|]. split; [done|]. split.
  - intros i. rewrite byte_at_store. case_decide as Hd.
    + by rewrite le_encode_lookup by lia.
    + by rewrite nthZ_None by (rewrite length_le_encode; lia).
  - destruct Hst as (os & _ & _ & ->). unfold read_le. simpl.
    pose proof (load_store_same (le_encode n (payload el)) ea (bytes (_wasm_alloc c))) as Hl.
    rewrite length_le_encode in Hl. by rewrite Hl, le_decode_encode.
Qed.
End Memory.

(** ** Examples *)
Lemma load_spec_witness :
  yields (exec (sys := linux) (sf := reference_softfloat) example_module no_host (Op.MEMORY Op.i64_load16_s 1 4))
    (example_ctx 0 [i32_const_t 8]) 0 [i64_const_t 0] /\
  traps (exec (sys := linux) (sf := reference_softfloat) example_module no_host (Op.MEMORY Op.i64_load16_s 1 (2 ^ 32 - 1)))
    (example_ctx 0 [i32_const_t (2 ^ 32 - 1)]) oob.
Proof.
  split.
  - apply (load_spec (sys := linux) (sf := reference_softfloat) example_module no_host Op.i64_load16_s 2 true i64 1 4 8 []); done.
  - apply (load_spec (sys := linux) (sf := reference_softfloat) example_module no_host Op.i64_load16_s 2 true i64 1
      (2 ^ 32 - 1) (2 ^ 32 - 1) [] 0); done.
Defined.

Lemma store_spec_witness :
  exists c' mem, exec (sys := linux) (sf := reference_softfloat) example_module no_host (Op.MEMORY Op.i32_store16 1 4)
      (example_ctx 0 [i32_const_t 0x123456; i32_const_t 8]) = (Ret tt, c') /\
    stored (example_ctx 0 [i32_const_t 0x123456; i32_const_t 8]) c' 0 [] mem /\
    byte_at mem 12 = 0x56 /\ byte_at mem 13 = 0x34.
Proof.
  destruct (store_spec (sys := linux) (sf := reference_softfloat) example_module no_host Op.i32_store16 2 i32
    (i32_const_t 0x123456) 1 4 8 [] 0 (example_ctx 0 [i32_const_t 0x123456; i32_const_t 8])) as [H _];
    try done.
  destruct H as (c' & mem & Hr & Hs & Hb & _); [vm_compute; discriminate|].
  exists c', mem. split; [exact Hr|]. split; [exact Hs|]. split; rewrite Hb; reflexivity.
Defined.
