(* ===== verification/BulkMemory.v ===== *)
(** * Bulk memory and table instructions (interpret_visitor.hpp)

    [memory.copy], [memory.fill] and [table.copy] move one element per turn of the
    dispatch loop and keep their progress in the operands.  Run to the end they
    move the whole range, as if through a temporary copy, or trap in the first
    turn with nothing moved. *)
From S2P Require Import Prelude WasmStack Allocator Opcodes Types LinearMemory ExecContext Softfloat Simd Interpreter Fixtures ContextProofs InstanceProofs Soundness FloatInstance.
Import Op(opcode).
Import WasmAlloc(byte_at, bytes, page, set_bytes).

(** ** Turns of the dispatch loop *)
Section Turns.
Context `{sys : Sys} `{sf : Softfloat} (m : module) (_rhf : Z -> M ctx unit).
Implicit Types (c : ctx).

(** [k] turns take the loop from [c] to [c']. *)
Definition runs (k : nat) (c c' : ctx) : Prop :=
  forall fuel, execute_loop m _rhf (k + fuel) c = execute_loop m _rhf fuel c'.

Definition at_op (c : ctx) (p : Z) (o : opcode) : Prop :=
  pc c = Pc p /\ nthZ (bitcode m) p = Some o /\ forall b, o <> Op.EXIT b.

Lemma dispatch_exec c p o r c' :
  at_op c p o -> exec m _rhf o c = (r, c') ->
  dispatch m _rhf c =
    (match r with Ret _ => Ret false | Throw e => Throw e | UB w => UB w end, c').
Proof.
  intros (Hp & Ho & Hx) He. unfold dispatch, mbind, M_bind, gets, lift. rewrite Hp. simpl.
  rewrite Ho. simpl. destruct o; try (by rewrite He; destruct r as [[]| |]). by edestruct Hx.
Qed.

Lemma runs_0 c : runs 0 c c.
Proof. done. Qed.

Lemma runs_S k c c1 c' : dispatch m _rhf c = (Ret false, c1) -> runs k c1 c' -> runs (S k) c c'.
Proof. intros Hd Hr fuel. simpl. rewrite Hd. apply Hr. Qed.

(** One turn at the instruction [o], by its weakest precondition. *)
Lemma turn c p o (Q : unit -> ctx -> Prop) :
  at_op c p o -> wp (exec m _rhf o) Q (fun _ _ => False) c ->
  exists c1, dispatch m _rhf c = (Ret false, c1) /\ Q tt c1.
Proof.
  intros Ho Hw. apply wp_returns in Hw as ([] & c1 & He & HQ). exists c1. split; [|done].
  exact (dispatch_exec c p o _ _ Ho He).
Qed.
End Turns.

(** ** Reading and writing one byte *)
Section Bytes.
Context `{sys : Sys} {Hok : SysOk sys}.
Implicit Types (c : ctx).

Definition inside (a : Z) (s : WasmAlloc.t) : Prop := 0 <= a < page_bytes s.

Lemma access_inside a s : memory_ok s -> inside a s -> access 0 a 1 s = Ret tt.
Proof.
  unfold memory_ok, inside, access. intros Hm Ha.
  destruct (Z.leb_spec 0 a); [simpl|lia].
  destruct (Z.leb_spec (a + 1) (page_bytes s)); [simpl|lia].
  by destruct (Z.leb_spec 0 (page s)); [|lia].
Qed.

Lemma wp_read_byte a (Q : Z -> ctx -> Prop) E c :
  memory_ok (_wasm_alloc c) -> inside a (_wasm_alloc c) ->
  Q (byte_at (bytes (_wasm_alloc c)) a) c -> wp (read_mem 1 a) Q E c.
Proof.
  intros Hm Ha HQ. unfold read_mem. apply wp_bind, wp_gets.
  eapply wp_lift_Ret; [|exact HQ]. unfold read_unaligned. rewrite access_inside by done. simpl.
  f_equal. unfold le_decode, load_bytes. simpl. by rewrite !Z.add_0_r.
Qed.

Lemma wp_write_byte a b (Q : unit -> ctx -> Prop) E c :
  memory_ok (_wasm_alloc c) -> inside a (_wasm_alloc c) -> byte b ->
  Q tt (set_wasm_alloc (set_bytes (<[a := b]> (bytes (_wasm_alloc c))) (_wasm_alloc c)) c) ->
  wp (write_mem 1 a b) Q E c.
Proof.
  intros Hm Ha Hb HQ. unfold write_mem. apply wp_bind, wp_gets, wp_bind.
  eapply wp_lift_Ret; [|by apply wp_modify].
  unfold write_unaligned. rewrite access_inside by done. simpl. rewrite wrap_small by exact Hb. done.
Qed.

Lemma wp_validate a n (Q : unit -> ctx -> Prop) E c :
  memory_ok (_wasm_alloc c) -> in_u 32 a -> in_u 32 n ->
  (a + n <= page_bytes (_wasm_alloc c) -> Q tt c) ->
  (page_bytes (_wasm_alloc c) < a + n -> E oob c) ->
  wp (validate a n) Q E c.
Proof.
  intros Hm Ha Hn HQ HE. unfold validate. apply wp_bind, wp_gets, wp_lift.
  rewrite validate_pointer_bytes by done.
  destruct (Z.leb_spec (a + n) (page_bytes (_wasm_alloc c))); auto.
Qed.
End Bytes.

(** ** The three operands *)
Definition ops3 (n s d : Z) (rest : list operand_stack_elem) : list operand_stack_elem :=
  i32_const_t n :: i32_const_t s :: i32_const_t d :: rest.

Section Operands.
Context `{sys : Sys}.
Implicit Types (c : ctx).

Lemma wp_peek3 n s d rest (Q : Z * Z * Z -> ctx -> Prop) E c :
  stk c (ops3 n s d rest) -> Q (n, s, d) c -> wp peek3 Q E c.
Proof.
  intros Hs HQ. unfold peek3.
  apply wp_bind. eapply wp_peek; [done|done|done|].
  apply wp_bind. eapply wp_peek; [done|done|done|].
  apply wp_bind. eapply wp_peek; [done|done|done|]. exact HQ.
Qed.

Lemma wp_set_operands3 n s d n' s' d' rest (Q : unit -> ctx -> Prop) E c :
  stk c (ops3 n s d rest) -> small (ops3 n s d rest) ->
  (forall os, WStack.wf os -> WStack.contents os = ops3 (wrap 32 n') (wrap 32 s') (wrap 32 d') rest ->
     Q tt (set_os os c)) ->
  wp (set_operands3 n' s' d') Q E c.
Proof.
  intros [Hw Hc] Hsm HQ. unfold set_operands3, ops3, mk_i32 in *. unfold small in Hsm. simpl in Hsm.
  do 2 (apply wp_bind; eapply wp_pop; [split; eassumption|]; clear Hw Hc; intros ? Hw Hc).
  apply wp_bind. eapply wp_set_top; [split; eassumption|]. clear Hw Hc; intros ? Hw Hc.
  apply wp_bind. eapply wp_push; [split; eassumption|simpl; lia|]. clear Hw Hc; intros ? Hw Hc.
  eapply wp_push; [split; eassumption|simpl; lia|]. clear Hw Hc; intros ? Hw Hc. by apply HQ.
Qed.

Lemma wp_pop3_inc n s d rest p (Q : unit -> ctx -> Prop) E c :
  stk c (ops3 n s d rest) -> pc c = Pc p ->
  (forall os, WStack.wf os -> WStack.contents os = rest -> Q tt (set_pc (Pc (p + 1)) (set_os os c))) ->
  wp pop3_inc Q E c.
Proof.
  intros [Hw Hc] Hp HQ. unfold pop3_inc.
  do 3 (apply wp_bind; eapply wp_pop; [split; eassumption|]; clear Hw Hc; intros ? Hw Hc).
  eapply wp_inc_pc; [done|]. by apply HQ.
Qed.
End Operands.

(** ** Copying element by element *)

(** What is at [a] after [n] elements were copied from [s] to [d] at once; [f] is
    what was at every place before. *)
Definition copied {B} (n s d : Z) (f : Z -> B) (a : Z) : B :=
  if decide (d <= a < d + n) then f (s + (a - d)) else f a.

(** The remaining copy composed with the first element is the whole copy. *)
Lemma copied_step {B} n s d (f g : Z -> B) a :
  0 < n ->
  (if d <=? s
   then (forall x, g x = if x =? d then f s else f x) ->
        copied (n - 1) (s + 1) (d + 1) g a = copied n s d f a
   else (forall x, g x = if x =? d + (n - 1) then f (s + (n - 1)) else f x) ->
        copied (n - 1) s d g a = copied n s d f a).
Proof.
  intros Hn. destruct (Z.leb_spec d s); intros H1; unfold copied; rewrite !H1;
    repeat case_decide; zcases; try lia; f_equal; lia.
Qed.

Lemma copied_0 {B} s d (f : Z -> B) a : copied 0 s d f a = f a.
Proof. unfold copied. case_decide; [lia|done]. Qed.

Lemma wrap_le w x : 0 <= w -> 0 <= x -> wrap w x <= x.
Proof. intros. unfold wrap. apply Z.mod_le; lia. Qed.

(** ** [memory.copy] *)
Section MemoryCopy.
Context `{sys : Sys} {Hok : SysOk sys} `{sf : Softfloat} (m : module) (_rhf : Z -> M ctx unit).
Implicit Types (c : ctx).

(** What the intermediate states of the loop keep. *)
Record copying (c : ctx) (p : Z) (o : opcode) (n s d : Z) (rest : list operand_stack_elem) : Prop := {
  cp_op : at_op m c p o;
  cp_stk : stk c (ops3 n s d rest);
  cp_small : small (ops3 n s d rest);
  cp_mem : memory_ok (_wasm_alloc c);
  cp_bytes : mem_ok (bytes (_wasm_alloc c));
  cp_n : in_u 32 n;
  cp_s : in_u 32 s;
  cp_d : in_u 32 d
}.

(** The state after the instruction. *)
Definition moved (c c' : ctx) (p : Z) (rest : list operand_stack_elem) : Prop :=
  pc c' = Pc (p + 1) /\ stk c' rest /\ same_rest c c' /\
  page (_wasm_alloc c') = page (_wasm_alloc c).

Lemma same_rest_trans c1 c2 c3 : same_rest c1 c2 -> same_rest c2 c3 -> same_rest c1 c3.
Proof. unfold same_rest. destruct c1, c2, c3; simpl. intros [=] [=]. by simplify_eq. Qed.

Lemma moved_step c c1 c' p rest :
  same_rest c c1 -> page (_wasm_alloc c1) = page (_wasm_alloc c) ->
  moved c1 c' p rest -> moved c c' p rest.
Proof.
  intros Hs Hp (? & ? & ? & Hp'). split_and!; try done; [by eapply same_rest_trans|by rewrite Hp'].
Qed.

(** The loop is over. *)
Lemma copy_done o c p s d rest :
  copying c p o 0 s d rest ->
  wp (exec m _rhf o)
     (fun _ c' => moved c c' p rest /\ _wasm_alloc c' = _wasm_alloc c) (fun _ _ => False) c ->
  exists c', runs m _rhf 1 c c' /\ moved c c' p rest /\
    forall a, byte_at (bytes (_wasm_alloc c')) a = byte_at (bytes (_wasm_alloc c)) a.
Proof.
  intros H Hw. destruct (turn m _rhf c p o _ (cp_op _ _ _ _ _ _ _ H) Hw) as (c1 & Hd & Hm & Ha).
  exists c1. split; [by eapply runs_S|]. split; [done|]. intros a. by rewrite Ha.
Qed.

Abbreviation fits n s c := (s + n <= page_bytes (_wasm_alloc c)).

Definition copy_op : opcode := Op.EXT Op.memory_copy.

Lemma copy_turn_0 c p s d rest :
  copying c p copy_op 0 s d rest -> fits 0 s c -> fits 0 d c ->
  exists c', runs m _rhf 1 c c' /\ moved c c' p rest /\
    forall a, byte_at (bytes (_wasm_alloc c')) a = byte_at (bytes (_wasm_alloc c)) a.
Proof.
  intros H Hs Hd. eapply copy_done; [done|]. destruct H as [(Hp & _) ? ? ? ? ? ? ?]. simpl.
  unfold exec_memory_copy. apply wp_bind. eapply wp_peek3; [done|].
  apply wp_bind, wp_validate; [done..| |lia]. intros _.
  apply wp_bind, wp_validate; [done..| |lia]. intros _. simpl.
  eapply wp_pop3_inc; [done|done|]. intros os Hw Hc. done.
Qed.

(** One turn copies one byte, the first or the last one. *)
Definition one_copied (c c' : ctx) (s d : Z) : Prop :=
  same_rest c c' /\ page (_wasm_alloc c') = page (_wasm_alloc c) /\
  forall a, byte_at (bytes (_wasm_alloc c')) a =
    if a =? d then byte_at (bytes (_wasm_alloc c)) s
    else byte_at (bytes (_wasm_alloc c)) a.

Lemma copy_turn c p n s d rest :
  copying c p copy_op n s d rest -> fits n s c -> fits n d c -> 0 < n ->
  exists c', dispatch m _rhf c = (Ret false, c') /\
    if d <=? s
    then one_copied c c' s d /\
         copying c' p copy_op (n - 1) (wrap 32 (s + 1)) (wrap 32 (d + 1)) rest
    else one_copied c c' (s + (n - 1)) (d + (n - 1)) /\ copying c' p copy_op (n - 1) s d rest.
Proof.
  intros H Hs Hd Hn0. pose proof H as [Hop Hst Hsm Hm Hb Hn Hs0 Hd0].
  assert (Hi : forall k, 0 <= k < n -> inside (s + k) (_wasm_alloc c) /\ inside (d + k) (_wasm_alloc c)).
  { intros k Hk. unfold inside, in_u in *. lia. }
  apply (turn m _rhf c p copy_op (fun _ c' => if d <=? s then _ else _) Hop). simpl.
  unfold exec_memory_copy. apply wp_bind. eapply wp_peek3; [done|].
  apply wp_bind, wp_validate; [done..| |lia]. intros _.
  apply wp_bind, wp_validate; [done..| |lia]. intros _.
  destruct (Z.eqb_spec n 0); [lia|]. destruct (d <=? s).
  - destruct (Hi 0 ltac:(lia)) as [Hi1 Hi2]. rewrite Z.add_0_r in Hi1, Hi2.
    apply wp_bind, wp_read_byte; [done..|]. apply wp_bind, wp_write_byte; [done|done|by apply Hb|].
    eapply wp_set_operands3; [done|done|]. intros os Hw Hc.
    rewrite (wrap_small 32 (n - 1)) in Hc by (unfold in_u in *; lia).
    split; [split_and!; [done|done|intros a; apply byte_at_insert]|].
    constructor; simpl; try done; try (apply wrap_in_u; lia); [|unfold in_u in *; lia].
    apply (store_bytes_ok [_]); [done|]. by constructor.
  - destruct (Hi (n - 1) ltac:(lia)) as [Hi1 Hi2].
    apply wp_bind, wp_read_byte; [done..|]. apply wp_bind, wp_write_byte; [done|done|by apply Hb|].
    eapply wp_set_operands3; [done|done|]. intros os Hw Hc.
    rewrite (wrap_small 32 (n - 1)), (wrap_small 32 s), (wrap_small 32 d) in Hc by (unfold in_u in *; lia).
    split; [split_and!; [done|done|intros a; apply byte_at_insert]|].
    constructor; simpl; try done; [|unfold in_u in *; lia].
    apply (store_bytes_ok [_]); [done|]. by constructor.
Qed.

Lemma copy_loop k c p s d rest :
  let n := Z.of_nat k in
  copying c p copy_op n s d rest -> fits n s c -> fits n d c ->
  exists c', runs m _rhf (k + 1) c c' /\ moved c c' p rest /\
    forall a, byte_at (bytes (_wasm_alloc c')) a = copied n s d (byte_at (bytes (_wasm_alloc c))) a.
Proof.
  revert c s d. induction k as [|k IH]; intros c s d n H Hs Hd.
  - destruct (copy_turn_0 c p s d rest H Hs Hd) as (c' & Hr & Hmv & Hb).
    exists c'. split_and!; [done|done|]. intros a. by rewrite Hb, copied_0.
  - pose proof H as [_ _ _ Hm _ Hn Hs0 Hd0]. pose proof (page_bytes_bound _ Hm) as Hpb.
    destruct (copy_turn c p n s d rest H Hs Hd ltac:(lia)) as (c1 & Ht & H1).
    pose proof (fun g a => copied_step n s d (byte_at (bytes (_wasm_alloc c))) g a ltac:(lia)) as Hst.
    replace (n - 1) with (Z.of_nat k) in * by lia. unfold in_u in *.
    pose proof (wrap_le 32 (s + 1) ltac:(lia) ltac:(lia)). pose proof (wrap_le 32 (d + 1) ltac:(lia) ltac:(lia)).
    destruct (d <=? s); destruct H1 as [(Hsr & Hp & Hb) Hc];
      (apply IH in Hc as (c' & Hr & Hmv & Hb'); [|unfold page_bytes in *; rewrite Hp; lia..]);
      exists c'; (split_and!; [by eapply runs_S|by eapply moved_step|]); intros a;
      rewrite Hb', <- (Hst _ a Hb); [|done].
    destruct k as [|k]; [by rewrite !copied_0|].
    by rewrite !(wrap_small 32) by (unfold in_u; lia).
Qed.

(** C22. [memory.copy] run to the end is a copy through a temporary, whichever way
    the ranges overlap: after [n + 1] turns the [n] bytes at [s] are at [d], the
    other bytes are as they were, and the loop is at the next instruction without
    the operands.  When either range leaves the memory the first turn traps and
    nothing has changed. *)
Theorem memory_copy_correct c p n s d rest :
  copying c p copy_op n s d rest ->
  (fits n s c -> fits n d c ->
     exists c', runs m _rhf (Z.to_nat n + 1) c c' /\ moved c c' p rest /\
       forall a, byte_at (bytes (_wasm_alloc c')) a = copied n s d (byte_at (bytes (_wasm_alloc c))) a) /\
  (~ (fits n s c /\ fits n d c) -> dispatch m _rhf c = (Throw oob, c)).
Proof.
  intros H. split.
  - intros Hs Hd. pose proof (cp_n _ _ _ _ _ _ _ H) as [Hn _].
    rewrite <- (Z2Nat.id n Hn) in H, Hs, Hd.
    destruct (copy_loop _ _ _ _ _ _ H Hs Hd) as (c' & Hr & Hm & Hb).
    exists c'. rewrite Z2Nat.id in Hb by done. done.
  - intros Hf. destruct H as [Hop Hst Hsm Hm Hb Hn Hs0 Hd0].
    assert (E : wp (exec m _rhf copy_op) (fun _ _ => False) (fun e c' => e = oob /\ c' = c) c).
    { simpl. unfold exec_memory_copy. apply wp_bind. eapply wp_peek3; [done|].
      apply wp_bind, wp_validate; [done..| |done]. intros ?.
      apply wp_bind, wp_validate; [done..| |done]. intros ?. lia. }
    unfold wp in E. destruct (exec m _rhf copy_op c) as [[[]|e|w] c'] eqn:Ex; try done.
    destruct E as [-> ->]. by rewrite (dispatch_exec m _rhf c p copy_op _ _ Hop Ex).
Qed.

(** ** [memory.fill] *)
Definition fill_op : opcode := Op.EXT Op.memory_fill.

(** The byte at [a] after [n] bytes at [d] were set to [v]. *)
Definition filled (n v d : Z) (f : Z -> Z) (a : Z) : Z :=
  if decide (d <= a < d + n) then wrap 8 v else f a.

Lemma fill_turn_0 c p v d rest :
  copying c p fill_op 0 v d rest -> fits 0 d c ->
  exists c', runs m _rhf 1 c c' /\ moved c c' p rest /\
    forall a, byte_at (bytes (_wasm_alloc c')) a = byte_at (bytes (_wasm_alloc c)) a.
Proof.
  intros H Hd. eapply copy_done; [done|]. destruct H as [(Hp & _) Hst ? ? ? ? ? ?]. simpl.
  unfold exec_memory_fill.
  do 3 (apply wp_bind; eapply wp_peek; [exact Hst|done|done|]).
  do 2 (apply wp_bind; eapply wp_lift_Ret; [done|]).
  apply wp_bind, wp_validate; [done..| |lia]. intros _. simpl.
  eapply wp_pop3_inc; [done|done|]. intros os Hw Hc. done.
Qed.

Lemma fill_turn c p n v d rest :
  copying c p fill_op n v d rest -> fits n d c -> 0 < n ->
  exists c', dispatch m _rhf c = (Ret false, c') /\ same_rest c c' /\
    page (_wasm_alloc c') = page (_wasm_alloc c) /\
    (forall a, byte_at (bytes (_wasm_alloc c')) a =
       if a =? d then wrap 8 v else byte_at (bytes (_wasm_alloc c)) a) /\
    copying c' p fill_op (n - 1) v (wrap 32 (d + 1)) rest.
Proof.
  intros H Hd Hn0. pose proof H as [Hop Hst Hsm Hm Hb Hn Hs0 Hd0].
  apply (turn m _rhf c p fill_op (fun _ c' => _) Hop). simpl. unfold exec_memory_fill.
  do 3 (apply wp_bind; eapply wp_peek; [exact Hst|done|done|]).
  do 2 (apply wp_bind; eapply wp_lift_Ret; [done|]).
  apply wp_bind, wp_validate; [done..| |lia]. intros _.
  destruct (Z.eqb_spec n 0); [lia|]. apply wp_bind. eapply wp_lift_Ret; [done|].
  pose proof (wrap_in_u 8 v ltac:(lia)) as Hv.
  apply wp_bind, wp_write_byte; [done|unfold inside, in_u in *; lia|done|].
  eapply wp_set_operands3; [done|done|]. intros os Hw Hc.
  rewrite (wrap_small 32 (n - 1)), (wrap_small 32 v) in Hc by (unfold in_u in *; lia).
  split_and!; [done|done|intros a; apply byte_at_insert|].
  constructor; simpl; try done; try (apply wrap_in_u; lia); [|unfold in_u in *; lia].
  apply (store_bytes_ok [_]); [done|]. by constructor.
Qed.

Lemma fill_loop k c p v d rest :
  let n := Z.of_nat k in
  copying c p fill_op n v d rest -> fits n d c ->
  exists c', runs m _rhf (k + 1) c c' /\ moved c c' p rest /\
    forall a, byte_at (bytes (_wasm_alloc c')) a = filled n v d (byte_at (bytes (_wasm_alloc c))) a.
Proof.
  revert c d. induction k as [|k IH]; intros c d n H Hd.
  - destruct (fill_turn_0 c p v d rest H Hd) as (c' & Hr & Hmv & Hb).
    exists c'. split_and!; [done|done|]. intros a. rewrite Hb. unfold filled. case_decide; [lia|done].
  - pose proof H as [_ _ _ Hm _ Hn Hs0 Hd0]. pose proof (page_bytes_bound _ Hm) as Hpb.
    destruct (fill_turn c p n v d rest H Hd ltac:(lia)) as (c1 & Ht & Hsr & Hp & Hb & Hc).
    replace (n - 1) with (Z.of_nat k) in * by lia. unfold in_u in *.
    pose proof (wrap_le 32 (d + 1) ltac:(lia) ltac:(lia)).
    apply IH in Hc as (c' & Hr & Hmv & Hb'); [|unfold page_bytes in *; rewrite Hp; lia].
    exists c'. split_and!; [by eapply runs_S|by eapply moved_step|]. intros a.
    rewrite Hb'. unfold filled. rewrite Hb.
    destruct k as [|k]; [|rewrite (wrap_small 32) by (unfold in_u; lia)];
      repeat case_decide; zcases; try done; lia.
Qed.

(** [memory.fill] run to the end sets the [n] bytes at [d] to the low byte of
    the value and changes no other; when the range leaves the memory the first
    turn traps and nothing has changed. *)
Theorem memory_fill_correct c p n v d rest :
  copying c p fill_op n v d rest ->
  (fits n d c ->
     exists c', runs m _rhf (Z.to_nat n + 1) c c' /\ moved c c' p rest /\
       forall a, byte_at (bytes (_wasm_alloc c')) a = filled n v d (byte_at (bytes (_wasm_alloc c))) a) /\
  (~ fits n d c -> dispatch m _rhf c = (Throw oob, c)).
Proof.
  intros H. split.
  - intros Hd. pose proof (cp_n _ _ _ _ _ _ _ H) as [Hn _].
    rewrite <- (Z2Nat.id n Hn) in H, Hd.
    destruct (fill_loop _ _ _ _ _ _ H Hd) as (c' & Hr & Hm & Hb).
    exists c'. rewrite Z2Nat.id in Hb by done. done.
  - intros Hf. destruct H as [Hop Hst Hsm Hm Hb Hn Hs0 Hd0].
    assert (E : wp (exec m _rhf fill_op) (fun _ _ => False) (fun e c' => e = oob /\ c' = c) c).
    { simpl. unfold exec_memory_fill.
      do 3 (apply wp_bind; eapply wp_peek; [exact Hst|done|done|]).
      do 2 (apply wp_bind; eapply wp_lift_Ret; [done|]).
      apply wp_bind, wp_validate; [done..|lia|done]. }
    unfold wp in E. destruct (exec m _rhf fill_op c) as [[[]|e|w] c'] eqn:Ex; try done.
    destruct E as [-> ->]. by rewrite (dispatch_exec m _rhf c p fill_op _ _ Hop Ex).
Qed.
End MemoryCopy.

(** ** [table.copy] *)
Section TableCopy.
Context `{sys : Sys} `{sf : Softfloat} (m : module) (_rhf : Z -> M ctx unit) (t : table_type).
Implicit Types (c : ctx).

Definition table_op : opcode := Op.EXT Op.table_copy.

(** What the intermediate states of the loop keep. *)
Record table_copying (c : ctx) (p n s d : Z) (rest : list operand_stack_elem) : Prop := {
  tc_op : at_op m c p table_op;
  tc_stk : stk c (ops3 n s d rest);
  tc_small : small (ops3 n s d rest);
  tc_table : nthZ (tables m) 0 = Some t;
  tc_length : Z.of_nat (length (_table c)) = initial (table_limits t);
  tc_limit : initial (table_limits t) < 2 ^ 32;
  tc_n : in_u 32 n;
  tc_s : in_u 32 s;
  tc_d : in_u 32 d
}.

(** [c'] differs from [c] in its operands, its program counter and its table. *)
Definition same_but_table (c c' : ctx) : Prop :=
  c' = set_table (_table c') (set_os (_os c') (set_pc (pc c') c)).

Lemma same_but_table_trans c1 c2 c3 : same_but_table c1 c2 -> same_but_table c2 c3 -> same_but_table c1 c3.
Proof. unfold same_but_table. destruct c1, c2, c3; simpl. intros [=] [=]. by simplify_eq. Qed.

Definition table_moved (c c' : ctx) (p : Z) (rest : list operand_stack_elem) : Prop :=
  pc c' = Pc (p + 1) /\ stk c' rest /\ same_but_table c c'.

Abbreviation fits n s := (s + n <= initial (table_limits t)).
Definition table_oob : exn := wasm_memory_exception "table out of range".

Lemma wp_get_table_ptr base size (Q : Z -> ctx -> Prop) E c :
  nthZ (tables m) 0 = Some t ->
  (fits size base -> Q base c) -> (~ fits size base -> E table_oob c) ->
  wp (get_table_ptr m base size) Q E c.
Proof.
  intros Ht HQ HE. unfold get_table_ptr, table0. apply wp_bind.
  eapply wp_lift_Ret; [by rewrite Ht|]. apply wp_bind, wp_assertM; intros H.
  - apply wp_ret, HQ. by apply Z.leb_le.
  - apply HE. by apply Z.leb_nle in H.
Qed.

Lemma wp_write_entry d e (Q : unit -> ctx -> Prop) E c :
  0 <= d < Z.of_nat (length (_table c)) ->
  Q tt (set_table (<[Z.to_nat d := e]> (_table c)) c) -> wp (write_table d [e]) Q E c.
Proof.
  intros Hd HQ. unfold write_table. apply wp_bind, wp_gets. simpl length.
  destruct (Z.leb_spec 0 d), (Z.leb_spec (d + Z.of_nat 1) (Z.of_nat (length (_table c)))); simpl; try lia.
  by apply wp_modify.
Qed.

Lemma table_turn_0 c p s d rest :
  table_copying c p 0 s d rest -> fits 0 s -> fits 0 d ->
  exists c', runs m _rhf 1 c c' /\ table_moved c c' p rest /\ _table c' = _table c.
Proof.
  intros H Hs Hd.
  destruct (turn m _rhf c p table_op (fun _ c' => table_moved c c' p rest /\ _table c' = _table c))
    as (c1 & Ht & Hm & Ha); [apply H| |exists c1; split_and!; [by eapply runs_S|done|done]].
  destruct H as [(Hp & _) ? ? ? ? ? ? ? ?]. simpl.
  unfold exec_table_copy. apply wp_bind. eapply wp_peek3; [done|].
  apply wp_bind, wp_get_table_ptr; [done| |done]. intros _.
  apply wp_bind, wp_get_table_ptr; [done| |done]. intros _. simpl.
  eapply wp_pop3_inc; [done|done|]. intros os Hw Hc. done.
Qed.

Definition one_entry (c c' : ctx) (s d : Z) : Prop :=
  same_but_table c c' /\ forall i, nthZ (_table c') i = if i =? d then nthZ (_table c) s else nthZ (_table c) i.

(** Moving one entry, in the state the turn is in. *)
Lemma wp_move_entry s d (k : M ctx unit) Q E c :
  0 <= s < Z.of_nat (length (_table c)) -> 0 <= d < Z.of_nat (length (_table c)) ->
  (forall tb, length tb = length (_table c) ->
     (forall i, nthZ tb i = if i =? d then nthZ (_table c) s else nthZ (_table c) i) ->
     wp k Q E (set_table tb c)) ->
  wp (tb ← gets _table; e ← lift (or_UB "table read out of range" (nthZ tb s)); write_table d [e];; k) Q E c.
Proof.
  intros Hs Hd Hk. apply wp_bind, wp_gets, wp_bind.
  destruct (nthZ_Some (_table c) s Hs) as [e He]. eapply wp_lift_Ret; [by rewrite He|].
  apply wp_bind, wp_write_entry; [done|]. apply Hk; [apply length_insert|].
  intros i. rewrite nthZ_insert by lia. rewrite He.
  destruct (Z.eqb_spec i d); [|done]. destruct (Z.ltb_spec d (Z.of_nat (length (_table c)))); [done|lia].
Qed.

Lemma table_turn c p n s d rest :
  table_copying c p n s d rest -> fits n s -> fits n d -> 0 < n ->
  exists c', dispatch m _rhf c = (Ret false, c') /\
    if d <=? s
    then one_entry c c' s d /\ table_copying c' p (n - 1) (wrap 32 (s + 1)) (wrap 32 (d + 1)) rest
    else one_entry c c' (s + (n - 1)) (d + (n - 1)) /\ table_copying c' p (n - 1) s d rest.
Proof.
  intros H Hs Hd Hn0. pose proof H as [Hop Hst Hsm Ht Hlen Hlim [Hn1 Hn2] Hs0 Hd0].
  pose proof Hs0 as [Hs1 Hs2]. pose proof Hd0 as [Hd1 Hd2].
  apply (turn m _rhf c p table_op (fun _ c' => if d <=? s then _ else _) Hop). simpl.
  unfold exec_table_copy. apply wp_bind. eapply wp_peek3; [done|].
  apply wp_bind, wp_get_table_ptr; [done| |done]. intros _.
  apply wp_bind, wp_get_table_ptr; [done| |done]. intros _.
  destruct (Z.eqb_spec n 0); [lia|].
  destruct (Z.leb_spec d s); apply wp_move_entry; try lia; intros tb Hl Htb;
    (eapply wp_set_operands3; [exact Hst|done|]); intros os Hw Hc;
    rewrite (wrap_small 32 (n - 1)) in Hc by (unfold in_u; lia).
  - split; [done|]. constructor; simpl; try done; try (apply wrap_in_u; lia); [by rewrite Hl|split; lia].
  - rewrite (wrap_small 32 s), (wrap_small 32 d) in Hc by done.
    split; [done|]. constructor; simpl; try done; [by rewrite Hl|split; lia].
Qed.

Lemma table_moved_step c c1 c' p rest : same_but_table c c1 -> table_moved c1 c' p rest -> table_moved c c' p rest.
Proof. intros H (? & ? & ?). split_and!; try done. by eapply same_but_table_trans. Qed.

Lemma table_loop k c p s d rest :
  let n := Z.of_nat k in
  table_copying c p n s d rest -> fits n s -> fits n d ->
  exists c', runs m _rhf (k + 1) c c' /\ table_moved c c' p rest /\
    forall i, nthZ (_table c') i = copied n s d (nthZ (_table c)) i.
Proof.
  revert c s d. induction k as [|k IH]; intros c s d n H Hs Hd.
  - destruct (table_turn_0 c p s d rest H Hs Hd) as (c' & Hr & Hmv & Hb).
    exists c'. split_and!; [done|done|]. intros a. by rewrite Hb, copied_0.
  - pose proof H as [_ _ _ _ _ Hlim Hn Hs0 Hd0].
    destruct (table_turn c p n s d rest H Hs Hd ltac:(lia)) as (c1 & Ht & H1).
    pose proof (fun g a => copied_step n s d (nthZ (_table c)) g a ltac:(lia)) as Hst.
    replace (n - 1) with (Z.of_nat k) in * by lia. unfold in_u in *.
    pose proof (wrap_le 32 (s + 1) ltac:(lia) ltac:(lia)). pose proof (wrap_le 32 (d + 1) ltac:(lia) ltac:(lia)).
    destruct (d <=? s); destruct H1 as [(Hsr & Hb) Hc];
      (apply IH in Hc as (c' & Hr & Hmv & Hb'); [|lia..]);
      exists c'; (split_and!; [by eapply runs_S|by eapply table_moved_step|]); intros a;
      rewrite Hb', <- (Hst _ a Hb); [|done].
    destruct k as [|k]; [by rewrite !copied_0|].
    by rewrite !(wrap_small 32) by (unfold in_u; lia).
Qed.

(** [table.copy] run to the end is a copy through a temporary, whichever way
    the ranges overlap; when either range leaves the table the first turn traps
    and nothing has changed. *)
Theorem table_copy_correct c p n s d rest :
  table_copying c p n s d rest ->
  (fits n s -> fits n d ->
     exists c', runs m _rhf (Z.to_nat n + 1) c c' /\ table_moved c c' p rest /\
       forall i, nthZ (_table c') i = copied n s d (nthZ (_table c)) i) /\
  (~ (fits n s /\ fits n d) -> dispatch m _rhf c = (Throw table_oob, c)).
Proof.
  intros H. split.
  - intros Hs Hd. pose proof (tc_n _ _ _ _ _ _ H) as [Hn _].
    rewrite <- (Z2Nat.id n Hn) in H, Hs, Hd.
    destruct (table_loop _ _ _ _ _ _ H Hs Hd) as (c' & Hr & Hm & Hb).
    exists c'. rewrite Z2Nat.id in Hb by done. done.
  - intros Hf. destruct H as [Hop Hst Hsm Ht Hlen Hlim Hn Hs0 Hd0].
    assert (E : wp (exec m _rhf table_op) (fun _ _ => False) (fun e c' => e = table_oob /\ c' = c) c).
    { simpl. unfold exec_table_copy. apply wp_bind. eapply wp_peek3; [done|].
      apply wp_bind, wp_get_table_ptr; [done| |done]. intros ?.
      apply wp_bind, wp_get_table_ptr; [done| |done]. intros ?. by destruct Hf. }
    unfold wp in E. destruct (exec m _rhf table_op c) as [[[]|e|w] c'] eqn:Ex; try done.
    destruct E as [-> ->]. by rewrite (dispatch_exec m _rhf c p table_op _ _ Hop Ex).
Qed.
End TableCopy.

(** ** Examples *)
Definition bytes_1_2_3 : gmap Z Z := <[5 := 1]> (<[6 := 2]> (<[7 := 3]> ∅)).
Definition bulk_ctx (p n s d : Z) : ctx :=
  set_wasm_alloc (WasmAlloc.Make 1 bytes_1_2_3) (example_ctx p (ops3 n s d [i64_const_t 9])).

Lemma bytes_1_2_3_ok : mem_ok bytes_1_2_3.
Proof.
  intros a. unfold bytes_1_2_3. rewrite !byte_at_insert. unfold byte.
  repeat (destruct (_ =? _); [lia|]). unfold byte_at. rewrite lookup_empty. simpl. lia.
Qed.

Lemma bulk_ctx_copying p o n s d :
  nthZ (bitcode bulk_module) p = Some o -> (forall b, o <> Op.EXIT b) ->
  in_u 32 n -> in_u 32 s -> in_u 32 d ->
  copying bulk_module (bulk_ctx p n s d) p o n s d [i64_const_t 9].
Proof.
  intros Ho Hx Hn Hs Hd.
  constructor; try done. apply bytes_1_2_3_ok.
Qed.

Lemma memory_copy_correct_witness :
  exists c', runs (sys := linux) (sf := reference_softfloat) bulk_module no_host 4 (bulk_ctx 0 3 5 6) c' /\
    stk c' [i64_const_t 9] /\
    load_bytes 5 5 (bytes (_wasm_alloc c')) = [1; 1; 2; 3; 0].
Proof.
  destruct (memory_copy_correct (sys := linux) (sf := reference_softfloat) bulk_module no_host
    (bulk_ctx 0 3 5 6) 0 3 5 6 [i64_const_t 9]) as [H _].
  - apply bulk_ctx_copying; done.
  - destruct H as (c' & Hr & (_ & Hs & _) & Hb); [done|done|].
    exists c'. split; [exact Hr|]. split; [exact Hs|].
    unfold load_bytes. simpl. rewrite !Hb. reflexivity.
Defined.

Lemma memory_fill_correct_witness :
  exists c', runs (sys := linux) (sf := reference_softfloat) bulk_module no_host 3 (bulk_ctx 1 2 0x141 6) c' /\
    stk c' [i64_const_t 9] /\
    load_bytes 4 5 (bytes (_wasm_alloc c')) = [1; 0x41; 0x41; 0].
Proof.
  destruct (memory_fill_correct (sys := linux) (sf := reference_softfloat) bulk_module no_host
    (bulk_ctx 1 2 0x141 6) 1 2 0x141 6 [i64_const_t 9]) as [H _].
  - apply bulk_ctx_copying; done.
  - destruct H as (c' & Hr & (_ & Hs & _) & Hb); [done|].
    exists c'. split; [exact Hr|]. split; [exact Hs|].
    unfold load_bytes. simpl. rewrite !Hb. reflexivity.
Defined.

Definition entry (i : Z) : table_entry := TableEntry i i PcNull.
Definition table_ctx (n s d : Z) : ctx :=
  set_table [entry 0; entry 1; entry 2; entry 3] (example_ctx 2 (ops3 n s d [])).

Lemma table_copy_correct_witness :
  exists c', runs (sys := linux) (sf := reference_softfloat) bulk_module no_host 3 (table_ctx 2 1 2) c' /\
    stk c' [] /\ nthZ (_table c') <$> seqZ 0 4 = Some <$> [entry 0; entry 1; entry 1; entry 2].
Proof.
  destruct (table_copy_correct (sys := linux) (sf := reference_softfloat) bulk_module no_host example_table
    (table_ctx 2 1 2) 2 2 1 2 []) as [H _].
  - constructor; done.
  - destruct H as (c' & Hr & (_ & Hs & _) & Hb); [done|done|].
    exists c'. split; [exact Hr|]. split; [exact Hs|].
    simpl. rewrite !Hb. reflexivity.
Defined.
