(* ===== verification/Execution.v ===== *)
(** * Running a function (execution_context.hpp)

    The entry point [execute]: what it checks before it runs anything, that it
    gives the calling context back however the run ends, and the indirect call. *)
From S2P Require Import Prelude WasmStack Allocator Opcodes Types LinearMemory ExecContext Softfloat Simd Interpreter Fixtures ContextProofs InstanceProofs Soundness FloatInstance.
Import Op(opcode).

(** ** What a computation leaves alone *)

(** [k] does not change what [view] sees of the context. *)
Definition keeps {V A} (view : ctx -> V) (k : M ctx A) : Prop := forall c, view (k c).2 = view c.

Section Keeps.
Context {V : Type} (view : ctx -> V).
Implicit Types (c : ctx).
Local Abbreviation kept := (keeps view).

Lemma kept_ret {A} (a : A) : kept (mret a).
Proof. done. Qed.
Lemma kept_bind {A B} (k : M ctx A) (f : A -> M ctx B) : kept k -> (forall a, kept (f a)) -> kept (mbind f k).
Proof.
  intros Hk Hf c. specialize (Hk c). unfold mbind, M_bind.
  destruct (k c) as [[a|e|w] c']; [|done|done]. by rewrite (Hf a c').
Qed.
Lemma kept_lift {A} (o : outcome A) : kept (lift o).
Proof. done. Qed.
Lemma kept_gets {A} (f : ctx -> A) : kept (gets f).
Proof. done. Qed.
Lemma kept_throw {A} e : kept (@throw ctx A e).
Proof. done. Qed.
Lemma kept_ub {A} w : kept (@ub ctx A w).
Proof. done. Qed.
Lemma kept_assertM b e : kept (assertM b e).
Proof. done. Qed.
Lemma kept_modify (f : ctx -> ctx) : (forall c, view (f c) = view c) -> kept (modify f).
Proof. intros H c. apply H. Qed.
Lemma kept_on_os {A} (k : stack operand_stack_elem -> outcome (A * stack operand_stack_elem)) :
  (forall os c, view (set_os os c) = view c) -> kept (on_os k).
Proof. intros H c. unfold on_os. destruct (k _) as [[a os]|e|w]; [apply H|done..]. Qed.
Lemma kept_on_as {A} (k : stack activation_frame -> outcome (A * stack activation_frame)) :
  (forall s c, view (set_as s c) = view c) -> kept (on_as k).
Proof. intros H c. unfold on_as. destruct (k _) as [[a os]|e|w]; [apply H|done..]. Qed.
Lemma kept_on_wasm_alloc {A} (k : M WasmAlloc.t A) :
  (forall wa c, view (set_wasm_alloc wa c) = view c) -> kept (on_wasm_alloc k).
Proof. intros H c. unfold on_wasm_alloc. destruct (k _). apply H. Qed.
Lemma kept_guarded {A} (f : ctx -> ctx) (k : M ctx A) :
  (forall c, view (f c) = view c) -> kept k -> kept (guarded f k).
Proof. intros Hf Hk c. specialize (Hk c). unfold guarded. destruct (k c). simpl in *. by rewrite Hf. Qed.
Lemma kept_for_each {A} (f : A -> M ctx unit) l : (forall a, kept (f a)) -> kept (for_each f l).
Proof. intros Hf. induction l; [done|]. simpl. apply kept_bind; [apply Hf|by intros _]. Qed.
End Keeps.

(** The heights that the scope guard of [execute] cuts the stacks back to *)
Definition heights (c : ctx) : Z * Z := (as_index c, os_index c).
Abbreviation kept := (keeps heights).

Ltac head_of t := lazymatch t with ?f _ => head_of f | _ => t end.

(** A computation built from operations that keep the view. *)
Ltac keep :=
  repeat match goal with
  | |- keeps _ (mbind _ _) => apply kept_bind; [|intros ?]
  | |- keeps _ (mret _) => apply kept_ret
  | |- keeps _ (lift _) => apply kept_lift
  | |- keeps _ (gets _) => apply kept_gets
  | |- keeps _ (throw _) => apply kept_throw
  | |- keeps _ (ub _) => apply kept_ub
  | |- keeps _ (assertM _ _) => apply kept_assertM
  | |- keeps _ (modify _) => apply kept_modify; intros ?; reflexivity
  | |- keeps _ (on_os _) => apply kept_on_os; intros ??; reflexivity
  | |- keeps _ (on_as _) => apply kept_on_as; intros ??; reflexivity
  | |- keeps _ (on_wasm_alloc _) => apply kept_on_wasm_alloc; intros ??; reflexivity
  | |- keeps _ (guarded _ _) => apply kept_guarded; [intros ?; reflexivity|]
  | |- keeps _ (for_each _ _) => apply kept_for_each; intros ?
  | H : forall h, keeps _ (_ h) |- _ => apply H
  | |- keeps _ (match ?x with _ => _ end) => destruct x
  | |- keeps _ (let '(_, _) := ?x in _) => destruct x
  | |- keeps _ ?k => let h := head_of k in unfold h
  end.

Section Exec.
Context `{sys : Sys} `{sf : Softfloat} (m : module) (_rhf : Z -> M ctx unit).
Hypothesis host_kept : forall h, kept (_rhf h).

Lemma call_kept index : kept (ExecContext.call m _rhf index).
Proof. keep. Qed.

Lemma control_flow_kept o imm : kept (exec_control_flow m o imm).
Proof. destruct o; keep. Qed.

Lemma exec_call_kept o index : kept (exec_call m _rhf o index).
Proof. destruct o; keep. Qed.

Lemma memory_kept o offset : kept (exec_memory m o offset).
Proof.
  destruct o; cbv beta iota zeta delta [exec_memory handler alt exec_load exec_store exec_memory_size]; keep.
Qed.

Lemma ext_kept o : kept (exec_ext m o).
Proof. destruct o; cbv beta iota zeta delta [exec_ext handler exec_trunc_sat]; keep. Qed.

Lemma numeric_kept o : kept (exec_numeric m o).
Proof.
  destruct o; cbv beta iota zeta delta [exec_numeric handler alt exec_i32_numeric exec_i64_numeric
    exec_f32_numeric exec_f64_numeric exec_extend]; keep.
Qed.

Lemma comparison_kept o : kept (exec_comparison o).
Proof.
  destruct o; cbv beta iota zeta delta [exec_comparison handler alt exec_i32_comparison
    exec_i64_comparison exec_f32_comparison exec_f64_comparison]; keep.
Qed.

Lemma conversion_kept o : kept (exec_conversion m o).
Proof. destruct o; cbv beta iota zeta delta [exec_conversion handler alt exec_trunc exec_convert]; keep. Qed.

Lemma vec_numeric_kept o : kept (exec_vec_numeric o).
Proof.
  destruct o; cbv beta iota zeta delta [exec_vec_numeric handler alt exec_splat exec_vec_comparison
    exec_vec_float_comparison exec_vec_bitwise exec_i8x16 exec_i16x8 exec_i16x8_widen exec_i32x4
    exec_i32x4_widen exec_i64x2 exec_i64x2_widen exec_f32x4 exec_f64x2 exec_vec_conversion]; keep.
Qed.

Lemma exec_kept o : kept (exec m _rhf o).
Proof.
  destruct o; simpl exec;
    auto using control_flow_kept, exec_call_kept, memory_kept, ext_kept, numeric_kept,
      comparison_kept, conversion_kept, vec_numeric_kept; try (keep; fail).
  all: destruct o; keep.
Qed.

Lemma dispatch_kept : kept (dispatch m _rhf).
Proof.
  unfold dispatch. apply kept_bind; [done|intros p]. apply kept_bind; [done|intros o].
  destruct o; try (by apply kept_ret); (apply kept_bind; [apply exec_kept|by intros _]).
Qed.

Lemma execute_loop_kept fuel c r c' : execute_loop m _rhf fuel c = Some (r, c') -> heights c' = heights c.
Proof.
  revert c. induction fuel as [|fuel IH]; intros c; simpl; [done|].
  pose proof (dispatch_kept c) as Hk. destruct (dispatch m _rhf c) as [[[]|e|w] c1]; simpl in Hk;
    [by intros [= <- <-]|intros H|by intros [= <- <-]..].
  by rewrite (IH _ H).
Qed.

Lemma prologue_kept func_index args : kept (execute_prologue m _rhf func_index args).
Proof. keep. Qed.
Lemma epilogue_kept func_index : kept (execute_epilogue m func_index).
Proof. keep. Qed.
End Exec.

(** ** The entry point *)

(** What a caller of [execute] gets back: its registers, its call depth, and its
    stacks at the height they had. *)
Definition given_back (c c' : ctx) : Prop :=
  as_index c' = as_index c /\ os_index c' = os_index c /\ pc c' = pc c /\ exiting c' = exiting c /\
  _last_op_index c' = _last_op_index c /\ _remaining_call_depth c' = _remaining_call_depth c /\
  WStack.size (_os c') = WStack.size (_os c) /\ WStack.size (_as c') = WStack.size (_as c).

Definition not_found : exn := wasm_interpreter_exception "cannot execute function, function not found".

Section Entry.
Context `{sys : Sys} `{sf : Softfloat} (m : module) (_rhf : Z -> M ctx unit).
Hypothesis host_kept : forall h, kept (_rhf h).

(** The context [execute] runs in. *)
Definition entry_ctx (c : ctx) : ctx :=
  set_as_index (wrap 32 (WStack.size (_as c))) (set_os_index (wrap 32 (WStack.size (_os c))) c).

Lemma restore_gives_back c c1 :
  in_u 32 (WStack.size (_os c)) -> in_u 32 (WStack.size (_as c)) ->
  heights c1 = heights (entry_ctx c) -> given_back c (restore c c1).
Proof.
  intros Ho Ha [= H1 H2]. unfold given_back, restore. simpl. rewrite H1, H2.
  rewrite !wrap_small by done. done.
Qed.

Lemma restore_entry c :
  in_u 32 (WStack.size (_os c)) -> in_u 32 (WStack.size (_as c)) -> restore c (entry_ctx c) = c.
Proof.
  intros Ho Ha. unfold restore, entry_ctx, WStack.eat. simpl. rewrite !wrap_small by done.
  destruct c as [? ? [] [] ? ? ? ? ? ? ? ? ? ? ?]. done.
Qed.

Lemma type_check_args_mismatch ft args :
  elem_type <$> args <> param_types ft ->
  exists msg, type_check_args ft args = Throw (wasm_interpreter_exception msg).
Proof.
  intros Hne. unfold type_check_args, EOS_VM_ASSERT. destruct (_ =? _); [simpl|by eexists].
  rewrite bool_decide_false by done. by eexists.
Qed.

(** C16. The entry point.  An unknown function and arguments of the wrong number or
    types are refused with nothing run and nothing changed.  Otherwise, whether
    the function returns, exits or throws, the caller gets back its program
    counter, frame base, call depth and stack heights, provided host functions
    leave the entry heights alone as nested calls of [execute] do. *)
Theorem execute_spec fuel func_index args c :
  in_u 32 (WStack.size (_os c)) -> in_u 32 (WStack.size (_as c)) ->
  (func_index = Mod.uint32_max -> execute m _rhf fuel func_index args c = Some (Throw not_found, c)) /\
  (forall ft, func_index < Mod.uint32_max -> Mod.get_function_type m func_index = Ret ft ->
     elem_type <$> args <> param_types ft ->
     exists msg, execute m _rhf fuel func_index args c =
       Some (Throw (wasm_interpreter_exception msg), c)) /\
  (forall r c', execute m _rhf fuel func_index args c = Some (r, c') -> ret_safe r -> given_back c c').
Proof.
  intros Ho Ha. split; [by intros ->|]. split.
  - intros ft Hlt Hft Hne. destruct (type_check_args_mismatch ft args Hne) as [msg Hm]. exists msg.
    unfold execute. destruct (Z.ltb_spec func_index Mod.uint32_max); [simpl negb; cbv iota|lia].
    fold (entry_ctx c).
    assert (E : execute_prologue m _rhf func_index args (entry_ctx c) =
      (Throw (wasm_interpreter_exception msg), entry_ctx c)).
    { unfold execute_prologue, mbind, M_bind, lift. by rewrite Hft, Hm. }
    rewrite E. by rewrite restore_entry.
  - intros r c' He Hr. unfold execute in He. destruct (negb _); [by injection He as <- <-|].
    fold (entry_ctx c) in He. pose proof (prologue_kept m _rhf host_kept func_index args (entry_ctx c)) as Hp.
    destruct (execute_prologue m _rhf func_index args (entry_ctx c)) as [[[]|e|w] c1]; simpl in Hp;
      [|injection He as <- <-; by apply restore_gives_back|by injection He as <- <-].
    destruct (if func_index <? Mod.get_imported_functions_size m then Some (Ret tt, c1)
      else execute_loop m _rhf fuel c1) as [[[[]|e|w] c2]|] eqn:Hl; try done;
      [| |by injection He as <- <-].
    all: assert (Hk : heights c2 = heights (entry_ctx c)) by
      (destruct (func_index <? Mod.get_imported_functions_size m);
       [first [discriminate Hl|by injection Hl as <-]|
        rewrite <- Hp; by eapply (execute_loop_kept m _rhf host_kept)]).
    + pose proof (epilogue_kept m func_index c2) as Hep.
      destruct (execute_epilogue m func_index c2) as [r' c3]. simpl in Hep. injection He as <- <-.
      apply restore_gives_back; [done|done|]. by rewrite Hep.
    + injection He as <- <-. by apply restore_gives_back.
Qed.
End Entry.

(** ** Indirect calls *)
Section Indirect.
Context `{sys : Sys} `{sf : Softfloat} (m : module) (_rhf : Z -> M ctx unit).

(** What [operator==] compares: the type of the result counts only when there is
    no result. *)
Definition same_signature (a b : func_type) : Prop :=
  form a = form b /\ param_types a = param_types b /\ return_count a = return_count b /\
  (return_count a = 0 -> return_type a = return_type b).
#[global] Instance same_signature_dec a b : Decision (same_signature a b).
Proof. unfold same_signature. apply _. Defined.

Lemma func_type_eqb_spec a b : func_type_eqb a b = bool_decide (same_signature a b).
Proof.
  unfold func_type_eqb. destruct (decide (same_signature a b)) as [H|H].
  - rewrite (bool_decide_true _ H). destruct H as (-> & -> & <- & H).
    rewrite !Z.eqb_refl, bool_decide_true by done. simpl.
    destruct (Z.eqb_spec (return_count a) 0) as [E|E]; [|done]. by rewrite (H E), Z.eqb_refl.
  - rewrite (bool_decide_false _ H). apply not_true_is_false. intros E. apply H.
    apply andb_prop in E as [E Hr]. destruct_bools.
    match goal with E : bool_decide _ = true |- _ => apply bool_decide_eq_true in E end.
    split_and!; [done|done|done|]. intros Hz. rewrite Hz in Hr. by apply Z.eqb_eq in Hr.
Qed.

Definition bad_type : exn := wasm_interpreter_exception "bad call_indirect type".
Definition table_range : exn := wasm_interpreter_exception "table index out of range".

(** C29. [call_indirect]: it traps when the index is outside the table and when the
    function there does not have the expected signature; otherwise it is the call
    of that function without the index operand.  The signatures are compared by
    their parameters and the number of results: when there is a result, its type
    is not compared. *)
Theorem call_indirect_spec ti te t i rest c :
  nthZ (tables m) 0 = Some t -> Z.of_nat (length (_table c)) = initial (table_limits t) ->
  nthZ (types m) ti = Some te -> 0 <= i -> stk c (i32_const_t i :: rest) ->
  exists os, WStack.wf os /\ WStack.contents os = rest /\
    let run := exec m _rhf (Op.CALL Op.call_indirect ti) c in
    (initial (table_limits t) <= i -> run = (Throw table_range, set_os os c)) /\
    (forall e ft, nthZ (_table c) i = Some e -> Mod.get_function_type m (te_index e) = Ret ft ->
       (~ same_signature ft te -> run = (Throw bad_type, set_os os c)) /\
       (same_signature ft te -> run = ExecContext.call m _rhf (te_index e) (set_os os c))).
Proof.
  intros Ht Hlen Hty Hi [Hw Hc].
  destruct (WStack.pop_ret (_os c) (i32_const_t i) rest Hw Hc) as (os & Hp & Hw' & Hc' & _).
  exists os. split; [done|]. split; [done|]. cbv zeta. simpl exec.
  unfold exec_call_indirect, pop_ui32, pop_operand, table_elem, mbind, M_bind, on_os.
  rewrite Hp. unfold lift, vec_at. simpl. rewrite Ht.
  unfold assertM, lift, EOS_VM_ASSERT, gets. split.
  - intros Hge. destruct (Z.ltb_spec i (initial (table_limits t))); [lia|done].
  - intros e ft He Hft.
    assert (i < initial (table_limits t)) by (apply nthZ_bounds in He; lia).
    destruct (Z.ltb_spec i (initial (table_limits t))); [|lia]. simpl. rewrite He. simpl.
    rewrite Hty, Hft, func_type_eqb_spec. split; intros Hs; [by rewrite bool_decide_false|].
    by rewrite bool_decide_true.
Qed.

End Indirect.

(** ** Element segments without a table *)
Section NoTable.
Context `{sys : Sys} {Hok : SysOk sys} {Hsucc : SysSucceeds sys} (m : module).

(** A module may have passive element segments and no table.  [reset] then does
    not size the flags of the dropped segments: in a fresh context there are none,
    and [elem.drop] writes outside them, whichever segment it names. *)
Theorem elem_drop_without_table x c c' :
  tables m = [] -> wasm_alloc_wf (_wasm_alloc c) -> _max_pages c <= WasmAlloc.max_pages ->
  limits_ok m -> _dropped_elems c = [] -> ExecContext.reset m c = (Ret tt, c') ->
  exists w, drop_elem x c' = (UB w, c').
Proof.
  intros Ht Hwf Hmax Hl Hd Hr. pose proof (wp_reset_base m c Hwf Hmax Hl) as H.
  unfold wp in H. unfold ExecContext.reset, mbind, M_bind in Hr.
  destruct (reset_base m c) as [[[]|e|w] c1]; [|done|done].
  destruct H as (_ & wa & _ & H). rewrite Ht in H.
  assert (E : _dropped_elems c' = []) by (injection Hr as <-; subst c1; exact Hd).
  eexists. unfold drop_elem, mbind, M_bind, gets, lift. rewrite E.
  unfold set_nth_true, insZ. by rewrite nthZ_nil.
Qed.
End NoTable.

(** ** Examples *)

(** [add] run on 2 and 3. *)
Example add_runs :
  fst <$> execute (sys := linux) (sf := reference_softfloat) example_module no_host 10 1
    [i32_const_t 2; i32_const_t 3] (example_ctx 0 []) = Some (Ret (Some (i32_const_t 5))).
Proof. vm_compute. reflexivity. Qed.

Lemma execute_spec_witness :
  (exists r c', execute (sys := linux) (sf := reference_softfloat) example_module no_host 10 1
      [i32_const_t 2; i32_const_t 3] (example_ctx 7 [i64_const_t 1]) = Some (r, c') /\
    given_back (example_ctx 7 [i64_const_t 1]) c') /\
  exists msg, execute (sys := linux) (sf := reference_softfloat) example_module no_host 10 1
      [i64_const_t 2] (example_ctx 0 []) = Some (Throw (wasm_interpreter_exception msg), example_ctx 0 []).
Proof.
  assert (Hh : forall h, kept (no_host h)) by (intros h c; reflexivity).
  split.
  - destruct (execute (sys := linux) (sf := reference_softfloat) example_module no_host 10 1
      [i32_const_t 2; i32_const_t 3] (example_ctx 7 [i64_const_t 1])) as [[r c']|] eqn:E;
      [|vm_compute in E; discriminate E].
    exists r, c'. split; [reflexivity|].
    apply (proj2 (proj2 (execute_spec (sys := linux) (sf := reference_softfloat) example_module no_host Hh 10 1
      [i32_const_t 2; i32_const_t 3] (example_ctx 7 [i64_const_t 1]) ltac:(vm_compute; split; congruence)
      ltac:(vm_compute; split; congruence))) r c' E).
    vm_compute in E. injection E as <- _. exact I.
  - apply (proj1 (proj2 (execute_spec (sys := linux) (sf := reference_softfloat) example_module no_host Hh 10 1
      [i64_const_t 2] (example_ctx 0 []) ltac:(vm_compute; split; congruence)
      ltac:(vm_compute; split; congruence))) add_type); [reflexivity|reflexivity|discriminate].
Defined.

(** Function 1 returns an [i32]; it is called through a type that returns an [i64]. *)
Definition indirect_ctx : ctx :=
  set_table (replicate 4 (TableEntry 0 1 PcNull)) (example_ctx 0 [i32_const_t 0; i32_const_t 3; i32_const_t 2]).

Lemma call_indirect_spec_witness :
  exists os, exec (sys := linux) (sf := reference_softfloat) bulk_module no_host (Op.CALL Op.call_indirect 2)
      indirect_ctx = ExecContext.call bulk_module no_host 1 (set_os os indirect_ctx) /\
    nthZ (types bulk_module) 2 = Some (FuncType func [i32; i32] 1 i64) /\
    Mod.get_function_type bulk_module 1 = Ret (FuncType func [i32; i32] 1 i32).
Proof.
  destruct (call_indirect_spec (sys := linux) (sf := reference_softfloat) bulk_module no_host 2
    (FuncType func [i32; i32] 1 i64) example_table 0 [i32_const_t 3; i32_const_t 2] indirect_ctx)
    as (os & _ & _ & _ & H); [reflexivity|reflexivity|reflexivity|reflexivity||lia|done|].
  exists os. split; [|split; reflexivity].
  apply (H (TableEntry 0 1 PcNull) add_type); [reflexivity|reflexivity|].
  split_and!; [reflexivity|reflexivity|reflexivity|discriminate].
Defined.

Lemma elem_drop_without_table_witness :
  exists c' w, ExecContext.reset (sys := linux) tableless_module
      (initial_ctx (WasmAlloc.Make 0 ∅) 250) = (Ret tt, c') /\
    elements tableless_module = [example_passive_elem] /\ drop_elem 0 c' = (UB w, c').
Proof.
  destruct (ExecContext.reset (sys := linux) tableless_module (initial_ctx (WasmAlloc.Make 0 ∅) 250))
    as [r c'] eqn:E.
  destruct (elem_drop_without_table (sys := linux) tableless_module 0 (initial_ctx (WasmAlloc.Make 0 ∅) 250) c')
    as [w Hw].
  - reflexivity.
  - split; vm_compute; congruence.
  - vm_compute. congruence.
  - constructor; [intros ? ? [=]|intros _; constructor|intros ? ? [=]].
  - reflexivity.
  - rewrite E. vm_compute in E. by injection E as <- _.
  - exists c', w. vm_compute in E. injection E as <- _. done.
Defined.
