(* ===== verification/BackendProofs.v ===== *)
(** * From bytes to a running module (backend.hpp)

    The composition of the parser, the linker and the execution context, and what
    it gives of a module that was accepted. *)
From S2P Require Import Prelude GuardedPtr Leb128 WasmStack Allocator Opcodes Types Validation Writers Parser ReaderProofs WriterLaws ParserSafety ModuleSafety ParserClaims LinearMemory ExecContext HostFunctions Softfloat Simd Interpreter Backend Fixtures ContextProofs InstanceProofs HostProofs FloatInstance Execution.

Lemma yields_wp {S A} (k : M S A) (s : S) (Q : A -> S -> Prop) :
  wp k Q (fun _ _ => True) s -> yields (run k s) (fun r => Q r.1 r.2).
Proof. unfold wp, yields, run. by destruct (k s) as [[a|e|w] s']. Qed.

Section Construction.
Context `{sys : Sys} {Hok : SysOk sys} {Hsucc : SysSucceeds sys} `{sf : Softfloat} (options : Opt.t).

Lemma finalize_yields m a :
  yields (finalize m a) (fun r => exists fs,
    r.1 = with_import_functions fs m /\ Z.of_nat (length fs) = Mod.get_imported_functions_size m).
Proof.
  unfold finalize. eapply yields_bind.
  { apply yields_wp with (Q := fun _ _ => True). unfold Growable.finalize.
    do 2 (apply wp_bind, wp_gets). destruct (negb _); [|by apply wp_ret].
    destruct (_ <? _); [|by apply wp_ret].
    apply wp_bind, wp_assertM; [intros _|done]. do 2 apply wp_bind, wp_modify.
    destruct (_ =? 0); [by apply wp_modify|by apply wp_ret]. }
  intros [u a'] _. eexists. split; [done|]. simpl. rewrite length_app, length_take, length_replicate.
  unfold Mod.get_imported_functions_size. lia.
Qed.

Lemma imports_are_functions n m :
  Forall (import_ok n) (imports m) -> Mod.get_imported_functions_size m = Z.of_nat (length (imports m)).
Proof.
  unfold Mod.get_imported_functions_size. intros H. f_equal.
  induction H as [|i l (t & _ & Hk & _) _ IH]; [done|]. rewrite filter_cons_True by done. simpl. by rewrite IH.
Qed.

(** The state a backend's own context starts from *)
Lemma valid_limits m : module_valid options m -> limits_ok m.
Proof.
  intros Hv. split.
  - intros mem mems Hm. destruct (mv_memories _ _ Hv) as [_ Hl]. rewrite Hm in Hl.
    inversion Hl as [|? ? [[Hi _] _]]; subst. unfold in_u. lia.
  - intros Hm. eapply Forall_impl; [|apply (mv_data _ _ Hv)]. intros s Hs. unfold data_segment_ok in Hs.
    destruct (ds_passive s); [done|]. by destruct (Hs eq_refl).
  - intros t ts Ht. destruct (mv_tables _ _ Hv) as [_ Hl]. rewrite Ht in Hl.
    inversion Hl as [|? ? [_ [Hi _]]]; subst. lia.
Qed.

Definition context_for (m : module) (wa : WasmAlloc.t) (depth pages : Z) : ctx :=
  set_globals (gl_init <$> globals m) (set_wasm_alloc wa (x_state (new_context m depth pages))).

Lemma wp_reset_new m wa depth pages :
  module_valid options m -> wasm_alloc_wf wa ->
  wp (ExecContext.reset m) (fun _ c' => fresh m (context_for m wa depth pages) c') (fun _ _ => True)
    (context_for m wa depth pages).
Proof.
  intros Hv Hwa. eapply wp_mono; [apply wp_reset| |done].
  - exact Hwa.
  - apply (WStack.make_wf _ initial_stack_size). unfold initial_stack_size. lia.
  - apply (WStack.make_wf _ (max_call_depth + 1)). unfold max_call_depth. lia.
  - simpl. lia.
  - by apply valid_limits.
  - by intros [] c' [_ Hf].
Qed.

Lemma reset_depth m : keeps _remaining_call_depth (ExecContext.reset m).
Proof. keep. Qed.

(** [import_functions] plays no part in the validity of a module. *)
Lemma valid_import_functions fs m : module_valid options m -> module_valid options (with_import_functions fs m).
Proof. intros []. by destruct m; split. Qed.

(** ** Construction *)
Context (regs : list (registration (M ctx unit))) (Hregs : Z.of_nat (length regs) <= 2 ^ 32).

(** A backend of the interpreter whose module is linked and whose context has been
    reset *)
Record ready (wa : WasmAlloc.t) (b : backend) : Prop := Ready {
  rd_valid : module_valid options (b_mod b);
  rd_linked : Forall2 (fun e x => exists f, function_at (register regs) x = Ret f /\ linked regs (b_mod b) e f)
                (imports (b_mod b)) (import_functions (b_mod b));
  rd_context : exists c, b_ctx b = Some (Context (Some (b_mod b)) c) /\
    fresh (b_mod b) (context_for (b_mod b) wa (choose_stack_limit options) (Opt.max_pages options)) c
}.

(** A backend made of the module [m] that was parsed *)
Definition made_of (m : module) (wa : WasmAlloc.t) (b : backend) : Prop :=
  exists fs c, b_mod b = with_import_functions fs m /\ b_ctx b = Some (Context (Some (b_mod b)) c) /\
    fresh (b_mod b) (context_for (b_mod b) wa (choose_stack_limit options) (Opt.max_pages options)) c /\
    _remaining_call_depth c = choose_stack_limit options.

Lemma prepare_yields m a wa :
  module_valid options m ->
  let b := Backend true m a (Some (new_context m (choose_stack_limit options) (Opt.max_pages options))) true true 0 0 in
  yields (prepare (Some (register regs)) (Some wa) b) (fun b' => exists fs,
    let m' := with_import_functions fs m in
    Forall2 (fun e x => exists f, function_at (register regs) x = Ret f /\ linked regs m' e f) (imports m) fs /\
    exists a', b' = Backend true m' a'
      (Some (Context (Some m') (context_for m' wa (choose_stack_limit options) (Opt.max_pages options)))) true true 0 0).
Proof.
  intros Hv b. unfold prepare, b. eapply yields_bind; [apply finalize_yields|].
  intros [m1 a1] (fs & Hm1 & Hlen). simpl in Hm1. subst m1.
  cbn [ctx_owns b_ctx b_mod memory_alloc mod_sharable initial_max_call_depth initial_max_pages or_UB] in *.
  eapply (yields_bind _ _ (fun x => x = Some (context_for m wa (choose_stack_limit options) (Opt.max_pages options))));
    [done|].
  intros x ->. eapply yields_bind.
  { instantiate (1 := fun m' => exists xs, m' = with_import_functions xs m /\
      Forall2 (fun e x => exists f, function_at (register regs) x = Ret f /\ linked regs m e f) (imports m) xs).
    assert (Hl : length fs = length (imports m)).
    { rewrite (imports_are_functions _ _ (mv_imports _ _ Hv)) in Hlen. lia. }
    pose proof (resolve_links regs (with_import_functions fs m) Hregs (mv_imports _ _ Hv) Hl) as Hr.
    unfold yields. destruct (resolve _ _); [|done|done]. destruct Hr as (xs & -> & Hr). by exists xs. }
  intros m' (xs & -> & Hx). exists xs. split; [exact Hx|]. by exists a1.
Qed.

Lemma construct_ready m a wa fuel :
  module_valid options m -> start m = uint32_max ->
  let b := Backend true m a (Some (new_context m (choose_stack_limit options) (Opt.max_pages options))) true true 0 0 in
  wasm_alloc_wf wa ->
  exists r b', construct (Some (register regs)) interpreter (Some wa) fuel b = Some (r, b') /\
    yields r (fun _ => ready wa b' /\ made_of m wa b').
Proof.
  intros Hv Hstart b Hwa. pose proof (prepare_yields m a wa Hv) as Hp. cbv zeta in Hp. fold b in Hp. unfold construct.
  destruct (prepare _ _ b) as [b1|e|w]; [|by eexists _, _; split; [reflexivity|]|done].
  destruct Hp as (fs & Hf & a' & ->). simpl ctx_owns. cbv iota. unfold initialize. simpl memory_alloc. cbv iota beta.
  unfold on_context. simpl b_ctx. cbv iota beta.
  pose proof (wp_reset_new (with_import_functions fs m) wa (choose_stack_limit options) (Opt.max_pages options)
    (valid_import_functions _ _ Hv) Hwa) as Hr. unfold wp in Hr.
  pose proof (reset_depth (with_import_functions fs m) (context_for (with_import_functions fs m) wa (choose_stack_limit options)
    (Opt.max_pages options))) as Hd.
  destruct (ExecContext.reset _ _) as [[u|e|w] c']; [|by eexists _, _; split; [reflexivity|]|done].
  unfold execute_start. simpl start. rewrite Hstart. eexists _, _. split; [reflexivity|].
  split; [split; [by apply valid_import_functions|exact Hf|by exists c']|]. exists fs, c'. by split_and!.
Qed.

Lemma backend_of_code_ready bs wa fuel :
  bytes bs -> wasm_alloc_wf wa ->
  (forall p, parse_module (W := BitcodeWriter.t) options bs empty_module Growable.empty = Ret p ->
     start (pr_mod p) = uint32_max) ->
  exists o, backend_of_code (W := BitcodeWriter.t) (Some (register regs)) interpreter bs (Some wa) options fuel = Some o /\
    yields o (fun b => ready wa b /\ exists p,
      parse_module (W := BitcodeWriter.t) options bs empty_module Growable.empty = Ret p /\ made_of (pr_mod p) wa b).
Proof.
  intros Hbs Hwa Hs. unfold backend_of_code, constructed.
  assert (Hp : yields (parse_module (W := BitcodeWriter.t) options bs empty_module Growable.empty)
    (fun p => module_valid options (pr_mod p))).
  { unfold parse_module. eapply yields_bind.
    - apply yields_wp with (Q := fun _ _ => True). unfold Growable.use_default_memory.
      apply wp_bind, wp_gets, wp_bind, wp_assertM; [intros _|done]. apply wp_bind, wp_assertM; [intros _|done].
      by apply wp_bind, wp_modify, wp_modify.
    - intros [u a] _. by apply parse_wasm_ok. }
  destruct (parse_module _ _ _ _) as [p|e|w]; [|by eexists; split; [reflexivity|]|done].
  destruct (construct_ready (pr_mod p) (pr_allocator p) wa fuel Hp (Hs _ eq_refl) Hwa) as (r & b & E & Hr).
  unfold with_new_context. simpl has_alloc. rewrite E. eexists. split; [reflexivity|].
  eapply yields_bind; [exact Hr|]. intros u [Hb Hm]. split; [exact Hb|by exists p].
Qed.
End Construction.

(** C9. A backend made of any bytes, any registry of host functions and any
    options: when the module has no start function, construction ends, and either
    throws or gives a backend whose module is valid, whose
    imports are bound to host functions of their names and types, and whose context
    has just been initialised from that module. *)
Theorem backend_construction `{sys : Sys} {Hok : SysOk sys} {Hsucc : SysSucceeds sys} `{sf : Softfloat}
    options (regs : list (registration (M ctx unit))) bs wa fuel :
  Z.of_nat (length regs) <= 2 ^ 32 -> bytes bs -> wasm_alloc_wf wa ->
  (forall p, parse_module (W := BitcodeWriter.t) options bs empty_module Growable.empty = Ret p ->
     start (pr_mod p) = uint32_max) ->
  let made := backend_of_code (W := BitcodeWriter.t) (Some (register regs)) interpreter bs (Some wa) options fuel in
  (exists b, made = Some (Ret b) /\ ready options regs wa b) \/ (exists e, made = Some (Throw e)).
Proof.
  intros Hregs Hbs Hwa Hs made.
  destruct (backend_of_code_ready options regs Hregs bs wa fuel Hbs Hwa Hs) as (o & E & Ho). fold made in E.
  rewrite E. destruct o as [b|e|w]; [left; destruct Ho|right|done]; eauto.
Qed.

(** ** Whole programs *)
#[local] Existing Instances linux reference_softfloat.

Definition header : list Z := [0; 0x61; 0x73; 0x6D; 1; 0; 0; 0].
Definition new_memory : WasmAlloc.t := WasmAlloc.Make (-1) ∅.

(** Construct a backend without host functions and call the function [f]. *)
Definition run_wasm (options : Opt.t) (bs : list Z) (f : Z) : option (outcome bool) :=
  match backend_of_code (W := BitcodeWriter.t) None interpreter bs (Some new_memory) options 1000 with
  | None => None
  | Some (Ret b) => fst <$> call_by_index None 1000 f [] b
  | Some (Throw e) => Some (Throw e)
  | Some (UB w) => Some (UB w)
  end.

(** [memory.init 0] in a module with a data count of 1 and no data section *)
Definition no_data_section : list Z :=
  header ++ [1; 4; 1; 0x60; 0; 0] ++ [3; 2; 1; 0] ++ [5; 3; 1; 0; 1] ++ [12; 1; 1] ++
  [10; 14; 1; 12; 0; 0x41; 0; 0x41; 0; 0x41; 0; 0xFC; 8; 0; 0; 0x0b].
(** [table.init 5] in a module without element segments *)
Definition no_such_segment : list Z :=
  header ++ [1; 4; 1; 0x60; 0; 0] ++ [3; 2; 1; 0] ++ [4; 4; 1; 0x70; 0; 1] ++
  [10; 14; 1; 12; 0; 0x41; 0; 0x41; 0; 0x41; 0; 0xFC; 12; 5; 0; 0x0b].
(** [i32.const 1; end; i64.const 5], two functions of type [() -> i32], the second
    [call 0; i32.eqz] *)
Definition code_after_end : list Z :=
  header ++ [1; 5; 1; 0x60; 0; 1; 0x7f] ++ [3; 3; 2; 0; 0] ++
  [10; 15; 2; 6; 0; 0x41; 1; 0x0b; 0x42; 5; 6; 0; 0x10; 0; 0x45; 0x0b; 1].
(** [call_indirect] at type [() -> i32] of a function of type [() -> i64] *)
Definition result_mismatch : list Z :=
  header ++ [1; 9; 2; 0x60; 0; 1; 0x7f; 0x60; 0; 1; 0x7e] ++ [3; 3; 2; 1; 0] ++ [4; 4; 1; 0x70; 0; 1] ++
  [9; 7; 1; 0; 0x41; 0; 0x0b; 1; 0] ++ [10; 15; 2; 4; 0; 0x42; 5; 0x0b; 8; 0; 0x41; 0; 0x11; 0; 0; 0x45; 0x0b].

(** Four modules that the parser accepts and whose execution has undefined
    behaviour: a data segment and an element segment that do not exist are indexed,
    and an operand of another type is read, after code behind the end of a function
    and after an indirect call at a type with another result. *)
Example accepted_modules_go_wrong :
  run_wasm default_options no_data_section 0 = Some (UB "data[x] out of range") /\
  run_wasm default_options no_such_segment 0 = Some (UB "elements[x] out of range") /\
  run_wasm eosio_options code_after_end 1 = Some (UB bad_variant) /\
  run_wasm default_options result_mismatch 1 = Some (UB bad_variant).
Proof. split_and!; vm_compute; reflexivity. Qed.

(** The module with every section but the start section, and its import *)
Definition no_start : list Z := take 58 Example.wasm ++ drop 61 Example.wasm.
Definition one_function : list (registration (M ctx unit)) :=
  [(([101], [102]), (create_function [] [] (fun _ => mret RVoid), function_types_provider None []))].

Lemma backend_construction_witness :
  exists b, backend_of_code (W := BitcodeWriter.t) (Some (register one_function)) interpreter no_start
      (Some new_memory) default_options 0 = Some (Ret b) /\
    ready default_options one_function new_memory b.
Proof.
  destruct (backend_construction default_options one_function no_start new_memory 0) as [H|[e H]].
  - simpl. lia.
  - by_compute.
  - vm_compute. split; congruence.
  - intros p Hp.
    assert (E : match parse_module (W := BitcodeWriter.t) default_options no_start empty_module Growable.empty with
      | Ret p => bool_decide (start (pr_mod p) = uint32_max) | _ => true end = true) by (vm_compute; reflexivity).
    rewrite Hp in E. by apply bool_decide_eq_true in E.
  - exact H.
  - exfalso. vm_compute in H. discriminate H.
Defined.
