(* ===== verification/RunTyping.v ===== *)
(** * Well-typed states of a run (execution_context.hpp, interpret_visitor.hpp)

    A run of [execute] on a module that is compiled to typed code goes through
    well-typed states: the running function is at a cell with a typing, its operands
    have the types of the cell, its locals theirs; every suspended caller expects the
    results of the function it called; and the instance (memory, globals, table,
    dropped flags) fits the module. *)
From S2P Require Import Prelude GuardedPtr Leb128 WasmStack Allocator Opcodes Types LinearMemory ExecContext Validation Writers Parser ReaderProofs WriterLaws BodySafety InstrSafety ParserSafety ModuleSafety OpSigs Softfloat Simd Interpreter ContextProofs InstanceProofs Soundness ValidationClaims OpTypes CodeTyping TrackerTypes CompiledBody CompiledInstrs CompiledModule.
Import Op(opcode).

(** ** The instance *)

(** What the memory, the globals, the table and the flags of dropped segments satisfy *)
Record instance_inv (m : module) (wa : WasmAlloc.t) (gs : list init_expr) (tb : list table_entry)
    (de dd : list bool) : Prop := InstanceInv {
  ii_memory : memory_inv m wa;
  ii_globals : length gs = length (globals m) /\ Forall (fun ie => init_value_ok (ie_value ie)) gs;
  ii_table : forall t ts, tables m = t :: ts ->
    Z.of_nat (length tb) = initial (table_limits t) /\ Forall (fun e => 0 <= te_index e) tb /\
    length de = length (elements m);
  ii_dropped : length dd = length (data_segments m)
}.
Definition instance_ok (m : module) (c : ctx) : Prop :=
  instance_inv m (_wasm_alloc c) (_globals c) (_table c) (_dropped_elems c) (_dropped_data c).

(** ** Modules whose code avoids the known defects *)

(** Instructions that index segments that exist, and no lane arithmetic that
    overflows *)
Definition instruction_avoids (m : module) (o : opcode) : bool :=
  match o with
  | Op.VEC_NUMERIC o => match vec_numeric_type o with Some _ => true | None => false end
  | Op.DATA Op.memory_init x | Op.DATA Op.data_drop x => x <? Z.of_nat (length (data_segments m))
  | Op.DATA Op.table_init x => x <? Z.of_nat (length (elements m))
  | Op.DATA Op.elem_drop _ => match tables m with [] => false | _ => true end
  | _ => true
  end.

(** Types that [operator==] takes for equal have the same result. *)
Definition results_distinguished (m : module) : bool :=
  forallb (fun a => forallb (fun b => implb (func_type_eqb a b) (bool_decide (results a = results b))) (types m))
    (types m).

Definition avoids_defects (m : module) : bool :=
  forallb (instruction_avoids m) (bitcode m) && results_distinguished m.

Lemma avoids_at m i o : avoids_defects m = true -> nthZ (bitcode m) i = Some o -> instruction_avoids m o = true.
Proof.
  intros [H _]%andb_true_iff Hi. rewrite forallb_forall in H. apply H, list_elem_of_In.
  pose proof (nthZ_bounds _ _ _ Hi). rewrite nthZ_lookup in Hi by lia. by eapply list_elem_of_lookup_2.
Qed.

Lemma avoids_results m a b :
  avoids_defects m = true -> a ∈ types m -> b ∈ types m -> func_type_eqb a b = true -> results a = results b.
Proof.
  intros [_ H]%andb_true_iff Ha%list_elem_of_In Hb%list_elem_of_In Hab. unfold results_distinguished in H.
  rewrite forallb_forall in H. specialize (H a Ha). rewrite forallb_forall in H. specialize (H b Hb).
  rewrite Hab in H. simpl in H. by apply bool_decide_eq_true in H.
Qed.

(** ** Functions and frames *)

(** A function of the module, with its type and a typing of its code *)
Record function_info : Type := FunctionInfo {
  fi_body : function_body;
  fi_type : func_type;
  fi_typing : typing;
  fi_depth : Z
}.
Definition fi_locals (f : function_info) : list Z := all_locals (fi_type f) (fb_locals (fi_body f)).
Definition fi_code (f : function_info) : Z := fb_code (fi_body f).
Definition params (f : function_info) : Z := Z.of_nat (length (param_types (fi_type f))).

Record valid_function (m : module) (f : function_info) : Prop := ValidFunction {
  vf_here : code m <> [];
  vf_typed : function_typed m (bitcode m) (fi_body f) (fi_type f) (fi_locals f) (fi_depth f) (fi_typing f);
  vf_values : Forall value_type (fi_locals f);
  vf_entries : Forall (fun e => value_type (local_type e)) (fb_locals (fi_body f));
  vf_room : fi_depth f + total (fb_locals (fi_body f)) <= maximum_stack m;
  vf_size : fb_stack_size (fi_body f) = 1;
  vf_type : proper (fi_type f)
}.

(** Operands of types [ts] *)
Definition typed (l : list operand_stack_elem) (ts : list Z) : Prop := elem_type <$> l = ts /\ Forall value_ok l.

Lemma typed_app l k ts us : typed l ts -> typed k us -> typed (l ++ k) (ts ++ us).
Proof. intros [<- H1] [<- H2]. split; [apply fmap_app|by apply Forall_app]. Qed.

Lemma typed_app_inv l ts us : typed l (ts ++ us) -> exists l1 l2, l = l1 ++ l2 /\ typed l1 ts /\ typed l2 us.
Proof.
  intros [H1 H2]. apply fmap_app_inv in H1 as (l1 & l2 & E1 & E2 & ->). apply Forall_app in H2 as [??].
  exists l1, l2. by split_and!.
Qed.

Lemma typed_length l ts : typed l ts -> length l = length ts.
Proof. intros [<- _]. by rewrite length_fmap. Qed.

Lemma typed_cons_inv l t ts : typed l (t :: ts) -> exists e k, l = e :: k /\ elem_type e = t /\ value_ok e /\ typed k ts.
Proof. intros [H1 H2]. destruct l as [|e k]; [done|]. injection H1 as <- H1. inversion H2; subst. by exists e, k. Qed.

Lemma typed_nil_inv l : typed l [] -> l = [].
Proof. intros [H _]. by apply fmap_nil_inv in H. Qed.

Section Run.
Context (m : module) (below0 : list operand_stack_elem) (fs0 : list activation_frame) (base0 : Z) (res0 : list Z)
  (args0 : Z).

(** The callers under a running function: [suspended fs below args res n] when the call
    stack is [fs], the operands under the [args] parameters of the running function are
    [below], its results are [res] and there are [n] frames since [execute] was entered
    with [below0], [fs0], the frame base [base0], [args0] arguments, for results [res0]. *)
Inductive suspended : list activation_frame -> list operand_stack_elem -> Z -> list Z -> Z -> Prop :=
  | sus_entry : suspended (ActivationFrame PcHalt base0 :: fs0) below0 args0 res0 1
  | sus_call f ops lv below fs args res n k :
      valid_function m f -> suspended fs below (params f) (results (fi_type f)) n ->
      typed lv (rev (fi_locals f)) -> Forall value_ok ops ->
      fi_typing f k = Some (res ++ (elem_type <$> ops)) -> args + Z.of_nat (length ops) <= fi_depth f ->
      suspended (ActivationFrame (Pc (fi_code f + k)) (Z.of_nat (length below)) :: fs) (ops ++ lv ++ below) args res (n + 1).

(** The part of the context that no instruction but calls and returns changes *)
Definition fixed (c : ctx) : Z * Z * Z := (_last_op_index c, as_index c, os_index c).

Context (total_depth : Z) (heights0 : Z * Z).

(** A function is running. *)
Record running_at (f : function_info) (fs : list activation_frame) (lv below : list operand_stack_elem) (n k : Z)
    (ops : list operand_stack_elem) (c : ctx) : Prop := RunningAt {
  ru_function : valid_function m f;
  ru_callers : suspended fs below (params f) (results (fi_type f)) n;
  ru_locals : typed lv (rev (fi_locals f));
  ru_typing : fi_typing f k = Some (elem_type <$> ops);
  ru_operands : Forall value_ok ops;
  ru_pc : pc c = Pc (fi_code f + k);
  ru_stk : stk c (ops ++ lv ++ below);
  ru_frames : frames c fs;
  ru_fixed : fixed c = (Z.of_nat (length below), heights0.1, heights0.2);
  ru_depth : 0 <= _remaining_call_depth c /\ _remaining_call_depth c + n = total_depth;
  ru_exiting : exiting c = false;
  ru_instance : instance_ok m c
}.
Definition running (c : ctx) : Prop := exists f fs lv below n k ops, running_at f fs lv below n k ops c.

(** The function that was entered has returned, or a host function has called [exit]. *)
Record ended (c : ctx) : Prop := Ended {
  ed_heights : (as_index c, os_index c) = heights0;
  ed_instance : instance_ok m c;
  ed_stacks : exists l k, stk c (l ++ below0) /\ frames c (k ++ fs0) /\ (exiting c = false -> typed l res0);
  ed_exit : exiting c = true -> imports m <> []
}.
Definition finished (c : ctx) : Prop := pc c = PcHalt /\ ended c.

(** ** Bounds on the stacks *)
Abbreviation base_size := (Z.of_nat (length below0) + args0).

Lemma locals_length f lv : valid_function m f -> typed lv (rev (fi_locals f)) ->
  Z.of_nat (length lv) = params f + total (fb_locals (fi_body f)) /\ 0 <= total (fb_locals (fi_body f)).
Proof.
  intros Hf H%typed_length. rewrite length_rev in H. unfold fi_locals, all_locals in H.
  unfold params, total. rewrite length_app in H. lia.
Qed.

Lemma suspended_below fs below args res n :
  suspended fs below args res n ->
  (exists k, fs = k ++ fs0) /\ (exists l, below = l ++ below0).
Proof.
  induction 1 as [|f ops lv below fs args res n k Hf Hs [[k' ->] [l ->]] Hlv Hops Hk Hroom].
  - split; [by exists [ActivationFrame PcHalt base0]|by exists []].
  - split; [by eexists (_ :: k')|]. exists (ops ++ lv ++ l). by rewrite <- !app_assoc.
Qed.

Lemma suspended_bounds fs below args res n :
  suspended fs below args res n -> 0 <= maximum_stack m ->
  1 <= n /\ Z.of_nat (length fs) = n + Z.of_nat (length fs0) /\
  Z.of_nat (length below) + args <= base_size + (n - 1) * maximum_stack m.
Proof.
  intros Hs Hm. induction Hs as [|f ops lv below fs args res n k Hf Hs (H1 & H2 & H3) Hlv Hops Hk Hroom]; simpl; [lia|].
  pose proof (locals_length f lv Hf Hlv) as [Hl _]. pose proof (vf_room _ _ Hf). rewrite !length_app. lia.
Qed.

Context (Hmax : 0 <= maximum_stack m) (Hbound : base_size + total_depth * maximum_stack m < 2 ^ 32)
  (Hframes : Z.of_nat (length fs0) + total_depth < 2 ^ 32).

Lemma running_small f fs lv below n k ops c :
  running_at f fs lv below n k ops c ->
  Z.of_nat (length (ops ++ lv ++ below)) <= base_size + n * maximum_stack m /\
  small (ops ++ lv ++ below) /\ Z.of_nat (length fs) < 2 ^ 32.
Proof.
  intros [Hf Hs Hlv Hk Hops _ _ _ _ [Hd1 Hd2] _ _].
  destruct (suspended_bounds _ _ _ _ _ Hs Hmax) as (H1 & H2 & H3).
  pose proof (locals_length f lv Hf Hlv) as [Hl _]. pose proof (vf_room _ _ Hf) as Hr.
  pose proof (fy_range _ _ _ _ _ _ _ (vf_typed _ _ Hf) k _ Hk) as [_ Hdep]. rewrite length_fmap in Hdep.
  assert (Hlen : Z.of_nat (length (ops ++ lv ++ below)) <= base_size + n * maximum_stack m).
  { rewrite !length_app. lia. }
  split; [done|]. unfold small. split; [|lia].
  assert (n * maximum_stack m <= total_depth * maximum_stack m); [|lia].
  apply Z.mul_le_mono_nonneg_r; lia.
Qed.
End Run.
