(* ===== verification/RunSteps.v ===== *)
(** * The handlers on well-typed states (interpret_visitor.hpp)

    Every handler that neither jumps nor calls takes operands of its type, leaves
    operands of its type and keeps the instance in order, or throws. *)
From S2P Require Import Prelude GuardedPtr Leb128 WasmStack Allocator Opcodes Types LinearMemory ExecContext Validation Writers Parser ReaderProofs WriterLaws BodySafety InstrSafety ParserSafety ModuleSafety OpSigs Softfloat Simd Interpreter ContextProofs InstanceProofs Soundness ValidationClaims OpTypes CodeTyping TrackerTypes CompiledBody CompiledInstrs CompiledModule BulkMemory RunTyping.
Import Op(opcode).

(** What calls and returns change is unchanged. *)
Definition same_frame (c c' : ctx) : Prop :=
  _as c' = _as c /\ fixed c' = fixed c /\ _remaining_call_depth c' = _remaining_call_depth c /\ exiting c' = exiting c.

Lemma same_frame_refl c : same_frame c c.
Proof. by split_and!. Qed.

Section Handlers.
Context `{sys : Sys} {Hok : SysOk sys} `{sf : Softfloat} (m : module) (_rhf : Z -> M ctx unit).
Implicit Types (c : ctx).
Local Abbreviation may_throw := (fun (_ : exn) (_ : ctx) => True).

(** A state in which the operands [l] are on the stack *)
Record operands (c : ctx) (p : Z) (l : list operand_stack_elem) : Prop := Operands {
  od_instance : instance_ok m c;
  od_pc : pc c = Pc p;
  od_stk : stk c l;
  od_values : Forall value_ok l
}.

(** The handler [k] has the type [args] -> [res], top first. *)
Definition handled (args res : list Z) (k : M ctx unit) : Prop :=
  forall c p la rest, operands c p (la ++ rest) -> small (la ++ rest) -> elem_type <$> la = args ->
  wp k (fun _ c' => exists lr, elem_type <$> lr = res /\ operands c' (p + 1) (lr ++ rest) /\ same_frame c c') may_throw c.

Lemma instr_handled args res k : instr_ok m args res k -> handled args res k.
Proof.
  intros Hk c p la rest [[H1 H2 H3 H4] Hp Hs Hv] Hsm Hla.
  assert (Hr : small rest) by (unfold small in *; rewrite length_app in Hsm; lia).
  eapply wp_mono; [apply (Hk c p la rest); [by constructor|exact Hr|exact Hla]| |done].
  intros _ c' (lr & Hlr & [R1 R2 R3 R4] & Hsame). exists lr. split; [done|]. split; [|by rewrite Hsame].
  constructor; try done. rewrite Hsame. by constructor.
Qed.

Lemma handled_mono args res k k' : (forall c, k' c = k c) -> handled args res k -> handled args res k'.
Proof.
  intros He Hk c p la rest Ho Hsm Hla. specialize (Hk c p la rest Ho Hsm Hla). unfold wp in *. by rewrite He.
Qed.

Lemma nop_handled imm : handled [] [] (exec_control_flow m Op.nop imm).
Proof.
  intros c p la rest [Hi Hp Hs Hv] Hsm Hla%fmap_nil_inv. subst la. simpl. eapply wp_inc_pc; [done|].
  exists []. split; [done|]. by split.
Qed.

Lemma select_handled t : handled [i32; t; t] [t] (exec_parametric Op.select_).
Proof.
  intros c p la rest [Hi Hp [Hw Hc] Hv] Hsm Hla. destruct (types3 _ _ _ _ Hla) as (e & f & g & -> & He & Hf & Hg).
  simpl in *. destruct (read_one _ _ _ e _ reads_ui32 Hv He) as (n & Hn & _). vsteps.
  inversion Hv as [|? ? _ Hv1]; subst. inversion Hv1 as [|? ? Hvf Hv2]; subst.
  destruct (n =? 0); vsteps.
  - exists [f]. simpl. split; [done|]. split; [|done]. constructor; [done|done|done|]. inversion Hv2; subst. by constructor.
  - apply wp_ret. vsteps. exists [g]. simpl. split; [by rewrite <- Hg|]. split; [|done]. by constructor.
Qed.

(** ** Globals *)
Lemma global_value t v :
  value_type t -> init_value_ok v ->
  exists e, elem_type e = t /\ value_ok e /\
    (if t =? i32 then @mret (M ctx) _ _ (i32_const_t (ev_i32 v))
     else if t =? i64 then mret (i64_const_t (ev_i64 v))
     else if t =? f32 then mret (f32_const_t (ev_i32 v))
     else if t =? f64 then mret (f64_const_t (ev_i64 v))
     else if t =? v128 then mret (v128_const_t v)
     else throw (wasm_interpreter_exception "invalid global type")) = mret e.
Proof.
  intros Ht Hv. pose proof (ev_i32_range v). destruct Hv as [H1 H2]. unfold value_type in Ht.
  repeat (apply elem_of_cons in Ht as [->|Ht]; [eexists; split; [|split; [|reflexivity]]; done|]).
  by apply elem_of_nil in Ht.
Qed.

Lemma store_value_ok el v : value_ok el -> init_value_ok v -> init_value_ok (store_global_value el v).
Proof. intros He Hv. destruct el; simpl; first [by apply ev_set_i32_ok|by apply ev_set_i64_ok|done]. Qed.

Context (Hglobals : Forall (fun g => value_type (content_type (gl_type g))) (globals m)).

Lemma nthZ_Forall {A} (P : A -> Prop) (l : list A) i x : Forall P l -> nthZ l i = Some x -> P x.
Proof. intros H Hi. pose proof (nthZ_bounds _ _ _ Hi). rewrite nthZ_lookup in Hi by lia. by eapply Forall_lookup_1. Qed.

Lemma get_global_handled x g :
  nthZ (globals m) x = Some g ->
  handled [] [content_type (gl_type g)] (exec_variable_access m Op.get_global x).
Proof.
  intros Hg c p la rest [Hi Hp [Hw Hc] Hv] Hsm Hla%fmap_nil_inv. subst la. simpl in *. vsteps.
  pose proof Hi as [_ [Hlen Hgs] _ _]. pose proof (nthZ_bounds _ _ _ Hg) as Hb.
  destruct (nthZ_Some (_globals c) x ltac:(lia)) as [ie Hie].
  destruct (global_value (content_type (gl_type g)) (ie_value ie)) as (e & Ht & Hve & He).
  { by apply (nthZ_Forall _ _ _ _ Hglobals Hg). } { by apply (nthZ_Forall _ _ _ _ Hgs Hie). }
  unfold get_global. apply wp_bind, wp_assertM; [intros _|done]. apply wp_bind, wp_gets. simpl.
  apply wp_bind, wp_assertM; [intros _|done]. apply wp_bind. eapply wp_lift_Ret; [by rewrite Hg|].
  apply wp_bind. eapply wp_lift_Ret; [by rewrite Hie|]. rewrite He. apply wp_ret. vsteps.
  exists [e]. split; [by rewrite <- Ht|]. split; [|done]. constructor; try done. by constructor.
Qed.

Lemma set_global_handled x g :
  nthZ (globals m) x = Some g ->
  handled [content_type (gl_type g)] [] (exec_variable_access m Op.set_global x).
Proof.
  intros Hg c p la rest [Hi Hp [Hw Hc] Hv] Hsm (e & -> & Ht)%types1. simpl in *. vsteps.
  inversion Hv as [|? ? Hve Hvr]; subst.
  pose proof Hi as [_ [Hlen Hgs] _ _]. pose proof (nthZ_bounds _ _ _ Hg) as Hb.
  destruct (nthZ_Some (_globals c) x ltac:(lia)) as [ie Hie].
  unfold set_global. apply wp_bind, wp_assertM; [intros _|done]. apply wp_bind, wp_gets. simpl.
  apply wp_bind, wp_assertM; [intros _|done]. apply wp_bind. eapply wp_lift_Ret; [by rewrite Hg|].
  apply wp_bind, wp_assertM; [intros _|done]. apply wp_bind, wp_assertM; [intros _|done].
  apply wp_bind. eapply wp_lift_Ret; [by rewrite Hie|]. apply wp_bind.
  eapply wp_lift_Ret; [by rewrite insZ_Some by lia|]. apply wp_modify.
  exists []. split; [done|]. split; [|done]. constructor; try done. destruct Hi. split; simpl; try done.
  rewrite length_insert. split; [done|]. apply Forall_insert; [done|]. simpl.
  apply store_value_ok; [done|]. by apply (nthZ_Forall _ _ _ _ Hgs Hie).
Qed.

(** ** Segments *)
Context (Helems : Forall (fun es => Forall (fun e => 0 <= te_index e) (es_elems es)) (elements m)).

Lemma instance_memory_ok c : memories m <> [] -> instance_ok m c -> memory_ok (_wasm_alloc c).
Proof. intros Hm [[Hwf Hp] _ _ _]. specialize (Hp Hm). unfold wasm_alloc_wf in Hwf. unfold memory_ok. lia. Qed.

Lemma set_memory_ok c mem : instance_ok m c ->
  instance_ok m (set_wasm_alloc (WasmAlloc.set_bytes mem (_wasm_alloc c)) c).
Proof. intros []. by split. Qed.

(** [pop3] gives its function three unsigned integers. *)
Lemma pop3_handled (k : Z -> Z -> Z -> M ctx unit) :
  (forall d s n c, in_u 32 d -> in_u 32 s -> in_u 32 n -> instance_ok m c ->
     wp (k d s n) (fun _ c' => instance_ok m c' /\ pc c' = pc c /\ _os c' = _os c /\ same_frame c c') may_throw c) ->
  handled [i32; i32; i32] [] (pop3 k).
Proof.
  intros Hk c p la rest [Hi Hp [Hw Hc] Hv] Hsm Hla. destruct (types3 _ _ _ _ Hla) as (e & f & g & -> & He & Hf & Hg).
  simpl in *. inversion Hv as [|? ? _ Hv1]; subst. inversion Hv1 as [|? ? _ Hv2]; subst. inversion Hv2; subst.
  destruct (read_one _ _ _ e _ reads_ui32 Hv He) as (n & Hn & Hnb).
  destruct (read_one _ _ _ f _ reads_ui32 Hv1 Hf) as (s & Hs & Hsb).
  destruct (read_one _ _ _ g _ reads_ui32 Hv2 Hg) as (d & Hd & Hdb).
  unfold pop3. vsteps. eapply wp_mono; [apply Hk; done| |done].
  intros _ c' (Hi' & Hp' & Hs' & Hf'). exists []. split; [done|]. split; [|done].
  constructor; [done|by rewrite Hp'| |done]. unfold stk. rewrite Hs'. done.
Qed.

Lemma memory_init_handled x :
  memories m <> [] -> 0 <= x < Z.of_nat (length (data_segments m)) ->
  handled [i32; i32; i32] [] (exec_data m Op.memory_init x).
Proof.
  intros Hm Hx. apply pop3_handled. intros d s n c Hd Hs Hn Hi. pose proof (instance_memory_ok c Hm Hi) as Hok'.
  pose proof Hi as [_ _ _ Hdd]. unfold init_linear_memory.
  destruct (nthZ_Some (data_segments m) x Hx) as [seg Hseg].
  destruct (nthZ_Some (_dropped_data c) x ltac:(lia)) as [dropped Hdr].
  apply wp_bind. eapply wp_lift_Ret; [by rewrite Hseg|]. apply wp_bind, wp_gets, wp_bind.
  eapply wp_lift_Ret; [by rewrite Hdr|]. apply wp_bind, wp_assertM; [intros Hsn%Z.leb_le|done].
  apply wp_bind, wp_gets, wp_bind, wp_lift. rewrite validate_pointer_bytes by done.
  destruct (Z.leb_spec (d + n) (page_bytes (_wasm_alloc c))); [|done].
  destruct (negb _ && negb _) eqn:Eb; [|by apply wp_ret].
  assert (Hlen : Z.of_nat (length (take (Z.to_nat n) (drop (Z.to_nat s) (ds_data seg)))) <= n).
  { rewrite length_take. unfold in_u in Hn. lia. }
  unfold wp. rewrite copy_to_memory_eq; [|done|apply Hd|lia].
  split; [by apply set_memory_ok|done].
Qed.

Lemma set_nth_true_Ret l x : 0 <= x < Z.of_nat (length l) -> exists l', set_nth_true l x = Ret l' /\ length l' = length l.
Proof. intros Hx. unfold set_nth_true. rewrite insZ_Some by done. eexists. split; [done|]. apply length_insert. Qed.

Lemma data_drop_handled x :
  0 <= x < Z.of_nat (length (data_segments m)) -> handled [] [] (exec_data m Op.data_drop x).
Proof.
  intros Hx c p la rest [Hi Hp Hs Hv] Hsm Hla%fmap_nil_inv. subst la. simpl in *.
  pose proof Hi as [H1 H2 H3 Hdd]. destruct (set_nth_true_Ret (_dropped_data c) x ltac:(lia)) as (l & Hl & Hlen).
  vsteps. unfold drop_data. vsteps. eapply wp_lift_Ret; [exact Hl|]. vsteps. exists []. split; [done|]. split; [|done]. constructor; try done.
  split; simpl; try done. lia.
Qed.

Lemma elem_drop_handled x :
  tables m <> [] -> 0 <= x < Z.of_nat (length (elements m)) -> handled [] [] (exec_data m Op.elem_drop x).
Proof.
  intros Ht Hx c p la rest [Hi Hp Hs Hv] Hsm Hla%fmap_nil_inv. subst la. simpl in *.
  pose proof Hi as [H1 H2 H3 H4]. destruct (tables m) as [|t ts] eqn:Et; [done|].
  destruct (H3 t ts eq_refl) as (Ha & Hb & Hc).
  destruct (set_nth_true_Ret (_dropped_elems c) x ltac:(lia)) as (l & Hl & Hlen).
  vsteps. unfold drop_elem. vsteps. eapply wp_lift_Ret; [exact Hl|]. vsteps. exists []. split; [done|]. split; [|done]. constructor; try done.
  split; simpl; try done. rewrite Et. intros ? ? [= <- <-]. split_and!; [done|done|lia].
Qed.

Lemma Forall_list_inserts {A} (P : A -> Prop) i k (l : list A) : Forall P k -> Forall P l -> Forall P (list_inserts i k l).
Proof. intros Hk Hl. apply Forall_lookup. intros j x. rewrite list_lookup_inserts_Some. intros [[_ H]|(_ & _ & H)]; [by apply (Forall_lookup_1 _ _ _ _ Hl H)|by apply (Forall_lookup_1 _ _ _ _ Hk H)]. Qed.

Lemma write_table_ok d l c t ts :
  tables m = t :: ts -> instance_ok m c -> 0 <= d -> d + Z.of_nat (length l) <= initial (table_limits t) ->
  Forall (fun e => 0 <= te_index e) l ->
  wp (write_table d l) (fun _ c' => exists tb, c' = set_table tb c /\ instance_ok m c') may_throw c.
Proof.
  intros Ht [H1 H2 H3 H4] Hd Hl Hf. destruct (H3 t ts Ht) as (Ha & Hb & Hc). unfold write_table. apply wp_bind, wp_gets.
  destruct (Z.leb_spec 0 d); [|lia]. destruct (Z.leb_spec (d + Z.of_nat (length l)) (Z.of_nat (length (_table c)))); [|lia].
  simpl. apply wp_modify. eexists. split; [done|]. split; simpl; try done. rewrite Ht. intros ? ? [= <- <-].
  rewrite length_inserts. split_and!; [done|by apply Forall_list_inserts|done].
Qed.

Lemma table_init_handled x :
  tables m <> [] -> 0 <= x < Z.of_nat (length (elements m)) ->
  handled [i32; i32; i32] [] (exec_data m Op.table_init x).
Proof.
  intros Ht Hx. apply pop3_handled. intros d s n c [Hd _] [Hs _] [Hn _] Hi.
  destruct (tables m) as [|t ts] eqn:Et; [done|]. pose proof Hi as [_ _ H3 _]. destruct (H3 t ts Et) as (Ha & Hb & Hc).
  unfold init_table. destruct (nthZ_Some (elements m) x Hx) as [seg Hseg].
  destruct (nthZ_Some (_dropped_elems c) x ltac:(lia)) as [dropped Hdr].
  apply wp_bind. eapply wp_lift_Ret; [by rewrite Hseg|]. apply wp_bind, wp_gets, wp_bind.
  eapply wp_lift_Ret; [by rewrite Hdr|]. apply wp_bind, wp_assertM; [intros Hsn%Z.leb_le|done].
  apply wp_bind. eapply wp_lift_Ret; [unfold table0; by rewrite Et|].
  apply wp_bind, wp_assertM; [intros Hdn%Z.leb_le|done].
  destruct (negb _); [|by apply wp_ret].
  eapply wp_mono; [eapply (write_table_ok _ _ _ t ts); [done|done|done| |]| |done].
  - rewrite length_take. lia.
  - apply Forall_take, Forall_drop. by apply (nthZ_Forall _ _ _ _ Helems Hseg).
  - intros _ c' (tb & -> & Hi'). done.
Qed.

(** ** Jumps *)
Context (Hcode : code m <> []).

Lemma wp_set_relative_pc pc' (Q : unit -> ctx -> Prop) E c :
  Q tt (set_pc (Pc pc') c) -> wp (set_relative_pc m pc') Q E c.
Proof.
  intros HQ. unfold set_relative_pc. apply wp_bind. destruct (code m) as [|b bs] eqn:Ec; [done|].
  eapply wp_lift_Ret; [done|]. by apply wp_modify.
Qed.

(** A jump from operands of the types it expects lands with the operands of the target. *)
Lemma jump_handled c p ops rest pop target_pc ts' :
  operands c p (ops ++ rest) -> small (ops ++ rest) -> jumps pop (elem_type <$> ops) ts' ->
  wp (jump m pop target_pc) (fun _ c' => exists ops', elem_type <$> ops' = ts' /\
    operands c' target_pc (ops' ++ rest) /\ same_frame c c') may_throw c.
Proof.
  intros [Hi Hp Hs Hv] Hsm Hj.
  assert (H0 : nthZ (code m) 0 <> None) by (by destruct (code m)).
  inversion Hj as [l ts Hl E1 E2|t l ts Hl E1 E2]; subst.
  - symmetry in E2. apply fmap_app_inv in E2 as (ol & ops' & El & -> & ->).
    destruct (jump_ok m (Z.of_nat (length l)) target_pc _ c H0 ltac:(lia) Hs Hsm) as [H _].
    assert (Hlen : length l = length ol) by (by rewrite El, length_fmap).
    destruct H as (c' & E & Hpc & Hst & Hc'); [rewrite !length_app; lia|]. unfold wp. rewrite E.
    exists ops'. split; [done|]. split; [|rewrite Hc'; by split_and!].
    rewrite Nat2Z.id, Hlen, <- app_assoc, drop_app_length in Hst.
    constructor; [by rewrite Hc'|done|done|]. rewrite <- app_assoc in Hv. by apply Forall_app in Hv as [_ Hv].
  - destruct ops as [|v ops]; [done|]. injection E2 as Ht E2. symmetry in E2.
    apply fmap_app_inv in E2 as (ol & ops' & El & -> & ->).
    assert (Hlen : length l = length ol) by (by rewrite El, length_fmap).
    destruct (jump_ok m (Z.of_nat (length l) + 1) target_pc _ c H0 ltac:(lia) Hs Hsm) as [_ H].
    destruct (H v ((ol ++ ops') ++ rest) eq_refl) as (c' & E & Hpc & Hst & Hc').
    { simpl. rewrite !length_app. lia. }
    unfold wp. rewrite E. exists (v :: ops'). split; [by rewrite Ht|]. split; [|rewrite Hc'; by split_and!].
    replace (Z.to_nat (Z.of_nat (length l) + 1 - 1)) with (length ol) in Hst by lia.
    rewrite <- app_assoc, drop_app_length in Hst.
    constructor; [by rewrite Hc'|done|done|]. inversion Hv as [|? ? H1 H2]; subst. constructor; [done|].
    rewrite <- app_assoc in H2. by apply Forall_app in H2 as [_ H2].
Qed.

(** ** One turn of a bulk instruction *)
Definition three : list Z := [i32; i32; i32].

(** A turn ends the instruction, or stays at it with three operands. *)
Definition turned (c : ctx) (p : Z) (rest : list operand_stack_elem) (c' : ctx) : Prop :=
  (operands c' (p + 1) rest \/ exists lr, elem_type <$> lr = three /\ operands c' p (lr ++ rest)) /\ same_frame c c'.
Definition turns (k : M ctx unit) : Prop :=
  forall c p la rest, operands c p (la ++ rest) -> small (la ++ rest) -> elem_type <$> la = three ->
  wp k (fun _ => turned c p rest) may_throw c.

Lemma three_i32 la : elem_type <$> la = three -> exists n s d, la = [i32_const_t n; i32_const_t s; i32_const_t d].
Proof.
  intros (e & f & g & -> & He & Hf & Hg)%types3.
  destruct e, f, g; try discriminate He; try discriminate Hf; try discriminate Hg. by eexists _, _, _.
Qed.

Lemma three_ranges n s d rest : Forall value_ok (ops3 n s d rest) -> in_u 32 n /\ in_u 32 s /\ in_u 32 d /\ Forall value_ok rest.
Proof. unfold ops3. intros H. inversion_clear H as [|? ? ? H1]. inversion_clear H1 as [|? ? ? H2]. by inversion_clear H2. Qed.

(** The end of the instruction *)
Lemma pop3_turned c c1 p n s d rest :
  operands c1 p (ops3 n s d rest) -> same_frame c c1 -> wp pop3_inc (fun _ => turned c p rest) may_throw c1.
Proof.
  intros [Hi Hp Hs Hv] Hf. eapply wp_pop3_inc; [exact Hs|exact Hp|]. intros os Hw Hc.
  apply three_ranges in Hv as (_ & _ & _ & Hv). split; [left|exact Hf]. by constructor.
Qed.

(** Another turn *)
Lemma set_operands3_turned c c1 p n s d n' s' d' rest :
  operands c1 p (ops3 n s d rest) -> small (ops3 n s d rest) -> same_frame c c1 ->
  wp (set_operands3 n' s' d') (fun _ => turned c p rest) may_throw c1.
Proof.
  intros [Hi Hp Hs Hv] Hsm Hf. eapply wp_set_operands3; [exact Hs|exact Hsm|]. intros os Hw Hc.
  apply three_ranges in Hv as (_ & _ & _ & Hv). split; [right|exact Hf].
  eexists [i32_const_t _; i32_const_t _; i32_const_t _]. split; [reflexivity|]. constructor; [done|done|split; [done|exact Hc]|].
  repeat constructor; try done; by apply wrap_in_u.
Qed.

Lemma write_byte_turned c c1 p n s d a b (k : M ctx unit) rest :
  memories m <> [] -> 0 <= a <= 2 * (2 ^ 32 - 1) -> operands c1 p (ops3 n s d rest) -> same_frame c c1 ->
  (forall c2, operands c2 p (ops3 n s d rest) -> same_frame c c2 -> wp k (fun _ => turned c p rest) may_throw c2) ->
  wp (write_mem 1 a b;; k) (fun _ => turned c p rest) may_throw c1.
Proof.
  intros Hm Ha [Hi Hp Hs Hv] Hf Hk. pose proof Hi as [Hmem _ _ _]. apply wp_bind.
  eapply wp_mono; [apply wp_write_mem; [lia|exact Ha|exact Hmem]| |done].
  intros _ c2 (wa & -> & Hwa). apply Hk; [|exact Hf]. constructor; [|done..]. by destruct Hi.
Qed.

Lemma validated a n (Q : unit -> ctx -> Prop) c :
  memory_ok (_wasm_alloc c) -> in_u 32 a -> in_u 32 n -> (a + n <= page_bytes (_wasm_alloc c) -> Q tt c) ->
  wp (validate a n) Q may_throw c.
Proof. intros Hm Ha Hn HQ. by apply wp_validate. Qed.

Lemma memory_copy_turns : memories m <> [] -> turns exec_memory_copy.
Proof.
  intros Hm c p la rest Ho Hsm (n & s & d & ->)%three_i32. pose proof Ho as [Hi Hp Hs Hv].
  pose proof (instance_memory_ok c Hm Hi) as Hmo. pose proof (page_bytes_bound _ Hmo).
  pose proof Hv as (Hn & Hsr & Hd & _)%three_ranges. unfold in_u in Hn, Hsr, Hd.
  unfold exec_memory_copy. apply wp_bind. eapply wp_peek3; [exact Hs|]. cbv beta iota.
  apply wp_bind, validated; [done..|]. intros H1. apply wp_bind, validated; [done..|]. intros H2.
  destruct (Z.eqb_spec n 0); [eapply pop3_turned; [exact Ho|apply same_frame_refl]|].
  destruct (d <=? s); apply wp_bind;
    (eapply wp_mono; [apply wp_read_mem; [lia|lia]| |done]; intros b c1 ->);
    (apply (write_byte_turned c c p n s d); [done|lia|exact Ho|apply same_frame_refl|]);
    intros c2 Ho2 Hf2; (eapply set_operands3_turned; [exact Ho2|exact Hsm|exact Hf2]).
Qed.

Lemma memory_fill_turns : memories m <> [] -> turns exec_memory_fill.
Proof.
  intros Hm c p la rest Ho Hsm (n & s & d & ->)%three_i32. pose proof Ho as [Hi Hp Hs Hv].
  pose proof (instance_memory_ok c Hm Hi) as Hmo. pose proof (page_bytes_bound _ Hmo).
  pose proof Hv as (Hn & Hsr & Hd & _)%three_ranges. unfold in_u in Hn, Hsr, Hd.
  unfold exec_memory_fill. do 3 (apply wp_bind; eapply wp_peek; [exact Hs|done|done|]). simpl.
  apply wp_bind. eapply wp_lift_Ret; [done|]. apply wp_bind. eapply wp_lift_Ret; [done|].
  apply wp_bind, validated; [done..|]. intros H1. destruct (Z.eqb_spec n 0); [eapply pop3_turned; [exact Ho|apply same_frame_refl]|].
  apply wp_bind. eapply wp_lift_Ret; [done|].
  apply (write_byte_turned c c p n s d); [done|lia|exact Ho|apply same_frame_refl|].
  intros c2 Ho2 Hf2. eapply set_operands3_turned; [exact Ho2|exact Hsm|exact Hf2].
Qed.

Lemma table_copy_turns : tables m <> [] -> turns (exec_table_copy m).
Proof.
  intros Ht c p la rest Ho Hsm (n & s & d & ->)%three_i32. pose proof Ho as [Hi Hp Hs Hv].
  pose proof Hv as ([Hn _] & [Hsr _] & [Hd _] & _)%three_ranges.
  destruct (tables m) as [|t ts] eqn:Et; [done|]. pose proof Hi as [_ _ H3 _]. destruct (H3 t ts Et) as (Ha & Hb & _).
  unfold exec_table_copy. apply wp_bind. eapply wp_peek3; [exact Hs|]. cbv beta iota.
  assert (Ht0 : nthZ (tables m) 0 = Some t) by (by rewrite Et).
  apply wp_bind. eapply wp_get_table_ptr; [exact Ht0| |done]. intros H1.
  apply wp_bind. eapply wp_get_table_ptr; [exact Ht0| |done]. intros H2.
  destruct (Z.eqb_spec n 0); [eapply pop3_turned; [exact Ho|apply same_frame_refl]|].
  assert (Hmove : forall i j n' s' d', 0 <= i < Z.of_nat (length (_table c)) -> 0 <= j -> j + 1 <= initial (table_limits t) ->
    wp (tb ← gets _table; e ← lift (or_UB "table read out of range" (nthZ tb i)); write_table j [e];; set_operands3 n' s' d')
      (fun _ => turned c p rest) may_throw c).
  { intros i j n' s' d' Hri Hj1 Hj2. apply wp_bind, wp_gets, wp_bind. destruct (nthZ_Some (_table c) i Hri) as [e He].
    eapply wp_lift_Ret; [by rewrite He|]. apply wp_bind.
    eapply wp_mono; [eapply (write_table_ok j [e] c t ts Et Hi Hj1)| |done].
    - simpl. lia.
    - constructor; [by apply (nthZ_Forall _ _ _ _ Hb He)|done].
    - intros _ c' (tb & -> & Hi'). eapply (set_operands3_turned _ _ _ n s d); [by constructor|exact Hsm|by split_and!]. }
  destruct (d <=? s); apply Hmove; lia.
Qed.

(** ** Locals *)

(** In a frame based at the height of [below], the local [x] of [lv] *)
Lemma local_lookup c (ops lv below : list operand_stack_elem) locals x t :
  _last_op_index c = Z.of_nat (length below) -> elem_type <$> lv = rev locals -> nthZ locals x = Some t ->
  exists e, elem_type e = t /\ (ops ++ lv ++ below) !! local_slot c (ops ++ lv ++ below) x = Some e /\
    0 <= _last_op_index c + x < Z.of_nat (length (ops ++ lv ++ below)) /\
    exists j, (j < length lv)%nat /\ lv !! j = Some e /\ local_slot c (ops ++ lv ++ below) x = (length ops + j)%nat.
Proof.
  intros Hb Hlv Hx. pose proof (nthZ_bounds _ _ _ Hx) as Hr. rewrite nthZ_lookup in Hx by lia.
  assert (Hlen : length lv = length locals) by (by rewrite <- (length_fmap elem_type lv), Hlv, length_rev).
  set (j := (length locals - 1 - Z.to_nat x)%nat).
  assert (Hj : rev locals !! j = Some t).
  { rewrite rev_alt. change (rev_append locals []) with (reverse locals). rewrite reverse_lookup by (unfold j; lia).
    rewrite <- Hx. f_equal. unfold j. lia. }
  rewrite <- Hlv, list_lookup_fmap in Hj. destruct (lv !! j) as [e|] eqn:Ee; [|done]. injection Hj as Ht.
  assert (Hslot : local_slot c (ops ++ lv ++ below) x = (length ops + j)%nat).
  { unfold local_slot, j. rewrite !length_app, Hb. lia. }
  pose proof (lookup_lt_Some _ _ _ Ee) as Hjl.
  exists e. split; [done|]. split; [|split].
  - rewrite Hslot, lookup_app_r by lia. replace (length ops + j - length ops)%nat with j by lia. by rewrite lookup_app_l.
  - rewrite !length_app, Hb. lia.
  - exists j. by split_and!.
Qed.

(** ** Instructions that only take and leave operands *)
Definition plain (o : opcode) : bool :=
  match o with
  | Op.VARIABLE_ACCESS (Op.get_local | Op.set_local | Op.tee_local) _ | Op.CALL _ _
  | Op.EXT (Op.memory_copy | Op.memory_fill | Op.table_copy) => false
  | _ => true
  end.

Lemma plain_handled locals o args res :
  step_type m locals o args res -> plain o = true -> instruction_avoids m o = true -> memory_limits_ok m ->
  handled args res (exec m _rhf o).
Proof.
  intros Ht Hplain Ha Hl. destruct Ht; try discriminate Hplain.
  - by apply instr_handled, typed_instruction.
  - apply instr_handled, typed_instruction; [simpl in *; by destruct o|done|done].
  - apply nop_handled.
  - apply instr_handled, drop_ok.
  - apply select_handled.
  - by apply get_global_handled.
  - by apply set_global_handled.
  - apply memory_init_handled; [done|]. simpl in Ha. apply Z.ltb_lt in Ha. lia.
  - apply data_drop_handled. simpl in Ha. apply Z.ltb_lt in Ha. lia.
  - apply table_init_handled; [done|]. simpl in Ha. apply Z.ltb_lt in Ha. lia.
  - apply elem_drop_handled; [|done]. simpl in Ha. by destruct (tables m).
Qed.
End Handlers.
