(* ===== verification/RunSafety.v ===== *)
(** * Runs of compiled modules do not go wrong (execution_context.hpp, [execute])

    A turn of the dispatch loop from a running state throws, or leads to a running
    state or to the end of the run. *)
From S2P Require Import Prelude GuardedPtr Leb128 WasmStack Allocator Opcodes Types LinearMemory ExecContext Validation Writers Parser ReaderProofs WriterLaws BodySafety InstrSafety ParserSafety ModuleSafety OpSigs Softfloat Simd Interpreter ContextProofs InstanceProofs Soundness ValidationClaims OpTypes CodeTyping TrackerTypes CompiledBody CompiledInstrs CompiledControl CompiledModule BulkMemory BackendProofs RunTyping RunSteps.
Import Op(opcode).

(** ** Host functions *)

(** What a host function of type [ft] owes to the code that calls it: it takes its
    arguments and leaves a result, or it calls [exit], or it throws; whatever it does
    in between, the instance stays in order, and the call stack, the frame base and the
    stack heights are given back. *)
Definition host_typed (m : module) (ft : func_type) (k : M ctx unit) : Prop :=
  forall c args rest fs, instance_ok m c -> frames c fs -> stk c (args ++ rest) -> small (args ++ rest) ->
    typed args (rev (param_types ft)) -> exiting c = false ->
    wp k (fun _ c' => instance_ok m c' /\ frames c' fs /\ fixed c' = fixed c /\
       ((pc c' = pc c /\ exiting c' = false /\ exists lr, typed lr (results ft) /\ stk c' (lr ++ rest)) \/
        (pc c' = PcHalt /\ exiting c' = true /\ exists l, stk c' (l ++ rest)))) (fun _ _ => True) c.

(** The host functions bound to the imports *)
Definition hosts_typed `{sys : Sys} (m : module) (_rhf : Z -> M ctx unit) : Prop :=
  forall i ft h, 0 <= i < Mod.get_imported_functions_size m -> Mod.get_function_type m i = Ret ft ->
    nthZ (import_functions m) i = Some h -> host_typed m ft (_rhf h).

Lemma zero_value_typed t : value_type t -> elem_type (zero_value t) = t /\ value_ok (zero_value t).
Proof.
  unfold value_type. intros H.
  repeat (apply elem_of_cons in H as [->|H]; [by vm_compute|]). by apply elem_of_nil in H.
Qed.

(** The locals a function starts with *)
Lemma zero_locals_typed entries :
  Forall (fun e => value_type (local_type e)) entries -> typed (zero_locals entries) (expand entries).
Proof.
  induction 1 as [|e entries He _ IH]; [by split|]. rewrite expand_cons. simpl. apply typed_app; [|done].
  destruct (zero_value_typed _ He) as [H1 H2]. split; [by rewrite fmap_replicate, H1|by apply Forall_replicate].
Qed.

Lemma typed_reverse l ts : typed l ts -> typed (reverse l) (rev ts).
Proof.
  intros [<- H]. split; [|by apply Forall_reverse]. rewrite fmap_reverse, rev_alt. done.
Qed.

Lemma results_length ft : proper ft -> return_count ft = Z.of_nat (length (results ft)).
Proof. intros (_ & Hc & _). unfold results. destruct (Z.eqb_spec (return_count ft) 0); simpl; lia. Qed.

Section Safety.
Context `{sys : Sys} {Hok : SysOk sys} `{sf : Softfloat} (options : Opt.t) (m : module) (_rhf : Z -> M ctx unit).
Implicit Types (c : ctx).

(** A module that the parser returned and the backend linked, outside the known defects *)
Record sound_module : Prop := SoundModule {
  so_valid : module_valid options m;
  so_compiled : compiled_module options m;
  so_counted : Opt.max_stack_bytes options = None /\ stack_limit_is_bytes m = false;
  so_avoids : avoids_defects m = true;
  so_linked : length (import_functions m) = length (imports m)
}.
Context (Hsound : sound_module) (Hhosts : hosts_typed m _rhf).
Local Abbreviation may_throw := (fun (_ : exn) (_ : ctx) => True).
Local Abbreviation imported := (Mod.get_imported_functions_size m).

Lemma so_imported : imported = Z.of_nat (length (imports m)).
Proof. exact (imports_are_functions _ _ (mv_imports _ _ (so_valid Hsound))). Qed.

Lemma so_globals : Forall (fun g => value_type (content_type (gl_type g))) (globals m).
Proof.
  eapply Forall_impl; [|exact (mv_globals _ _ (so_valid Hsound))]. intros g [Hg _]. by eapply is_value_type_ok.
Qed.

Lemma so_elements : Forall (fun es => Forall (fun e => 0 <= te_index e) (es_elems es)) (elements m).
Proof.
  eapply Forall_impl; [|exact (mv_elements _ _ (so_valid Hsound))]. intros es [_ He].
  eapply Forall_impl; [|exact He]. intros e [H|H]; [rewrite H; done|lia].
Qed.

Lemma so_limits : memory_limits_ok m.
Proof.
  intros mem mems Hm Hf. destruct (mv_memories _ _ (so_valid Hsound)) as [_ H]. rewrite Hm in H.
  inversion H as [|? ? [[H1 H2] H3]]; subst. specialize (H2 Hf). specialize (H3 Hf).
  change WasmAlloc.max_pages with 65536. lia.
Qed.

Lemma so_type i ft : 0 <= i -> Mod.get_function_type m i = Ret ft -> proper ft.
Proof.
  intros Hi Hft. pose proof (function_type_safe options m i (mv_types _ _ (so_valid Hsound)) (mv_imports _ _ (so_valid Hsound)) Hi) as H.
  rewrite Hft in H. by eapply func_type_proper.
Qed.

(** A function the module defines *)
Lemma so_function g ft :
  imported <= g -> Mod.get_function_type m g = Ret ft ->
  exists f, valid_function m f /\ fi_type f = ft /\ defined_function m g ft (fi_body f) 1.
Proof.
  intros Hg Hft. pose proof (so_type g ft) as Hproper. rewrite so_imported in Hg.
  specialize (Hproper ltac:(lia) Hft).
  pose proof Hft as Hft'. unfold Mod.get_function_type in Hft'. rewrite so_imported in Hft'.
  destruct (Z.ltb_spec g (Z.of_nat (length (imports m)))); [lia|].
  apply bind_Ret in Hft' as (t & Ht%vec_at_Ret & Ht'%vec_at_Ret). pose proof (nthZ_bounds _ _ _ Ht) as Hb.
  destruct (nthZ_Some (code m) (g - Z.of_nat (length (imports m)))) as [b Hbody].
  { rewrite (mv_code _ _ (so_valid Hsound)). lia. }
  destruct (so_compiled Hsound _ _ Hbody) as (t2 & ft2 & Φ & depth & H1 & H2 & H3 & H4 & H5 & H6 & H7).
  rewrite Ht in H1. injection H1 as <-. rewrite Ht' in H2. injection H2 as <-.
  exists (FunctionInfo b ft Φ depth). split; [|split; [done|]].
  - split; try done; simpl.
    + intros E. by rewrite E, nthZ_nil in Hbody.
    + apply H7, (so_counted Hsound).
  - split; rewrite ?so_imported; try done. unfold Mod.get_function_stack_size.
    by destruct (so_counted Hsound) as [_ ->].
Qed.

Lemma so_maximum f : valid_function m f -> 0 <= maximum_stack m.
Proof.
  intros Hf. pose proof (vf_typed _ _ Hf) as Ht. pose proof (vf_room _ _ Hf).
  pose proof (fy_range _ _ _ _ _ _ _ Ht 0 [] (fy_start _ _ _ _ _ _ _ Ht)) as [_ H0]. simpl in H0. unfold total in *. lia.
Qed.

(** ** One turn *)
Context (below0 : list operand_stack_elem) (fs0 : list activation_frame) (base0 : Z) (res0 : list Z) (args0 : Z)
  (total_depth : Z) (heights0 : Z * Z).
Context (Hbound : Z.of_nat (length below0) + args0 + total_depth * maximum_stack m < 2 ^ 32)
  (Hframes : Z.of_nat (length fs0) + total_depth < 2 ^ 32) (Hvalues0 : Forall value_ok below0).
Local Abbreviation suspended := (suspended m below0 fs0 base0 res0 args0).
Local Abbreviation running_at := (running_at m below0 fs0 base0 res0 args0 total_depth heights0).
Local Abbreviation running := (running m below0 fs0 base0 res0 args0 total_depth heights0).
Local Abbreviation finished := (finished m below0 fs0 res0 heights0).
Local Abbreviation operands := (operands m).

Lemma suspended_values fs below args res n : suspended fs below args res n -> Forall value_ok below.
Proof.
  induction 1 as [|f ops lv below fs args res n k Hf Hs IH Hlv Hops Hk Hroom]; [done|].
  apply Forall_app. split; [done|]. apply Forall_app. split; [apply Hlv|done].
Qed.

Lemma running_operands f fs lv below n k ops c :
  running_at f fs lv below n k ops c -> operands c (fi_code f + k) (ops ++ lv ++ below) /\ small (ops ++ lv ++ below).
Proof.
  intros Hr. pose proof Hr as [Hf Hs Hlv Hk Hops Hpc Hst Hfr Hfx Hd He Hi]. split.
  - constructor; try done. apply Forall_app. split; [done|]. apply Forall_app. split; [apply Hlv|].
    by eapply suspended_values.
  - eapply running_small; [by eapply so_maximum|exact Hbound|exact Hframes|exact Hr].
Qed.

(** The frame is at another cell, with other operands and locals. *)
Lemma running_moves f fs lv lv' below n k k' ops ops' c c' :
  running_at f fs lv below n k ops c -> fi_typing f k' = Some (elem_type <$> ops') ->
  elem_type <$> lv' = elem_type <$> lv ->
  operands c' (fi_code f + k') (ops' ++ lv' ++ below) -> same_frame c c' -> running c'.
Proof.
  intros [Hf Hs [Hlv _] Hk Hops Hpc Hst Hfr Hfx Hd He Hi] Hk' Hlv' [Oi Op_ Os Ov] (F1 & F2 & F3 & F4).
  apply Forall_app in Ov as [Ov1 Ov2]. apply Forall_app in Ov2 as [Ov2 Ov3].
  exists f, fs, lv', below, n, k', ops'. split; try done.
  - split; [by rewrite Hlv'|done].
  - unfold frames. by rewrite F1.
  - by rewrite F2.
  - by rewrite F3.
  - by rewrite F4.
Qed.

Lemma dispatch_ok c p o (Q : ctx -> Prop) :
  pc c = Pc p -> nthZ (bitcode m) p = Some o -> (forall b, o <> Op.EXIT b) ->
  wp (exec m _rhf o) (fun _ => Q) may_throw c -> wp (dispatch m _rhf) (fun b c' => b = false /\ Q c') may_throw c.
Proof.
  intros Hp Ho Hx He. unfold dispatch. apply wp_bind, wp_gets, wp_bind. eapply wp_lift_Ret; [rewrite Hp; simpl; by rewrite Ho|].
  assert (Hgo : wp (exec m _rhf o;; mret false) (fun b c' => b = false /\ Q c') may_throw c).
  { apply wp_bind. eapply wp_mono; [exact He| |done]. intros [] c' HQ. by apply wp_ret. }
  destruct o; try exact Hgo. by edestruct Hx.
Qed.

(** The cell at which a function runs, when it is not the last *)
Abbreviation heads f := (fun b ts' => exists k', target (fun i => nthZ (bitcode m) (fi_code f + i)) b = Some (fi_code f + k') /\
  fi_typing f k' = Some ts').

Lemma running_cell f fs lv below n k ops c :
  running_at f fs lv below n k ops c -> k < fb_size (fi_body f) - 1 ->
  exists o, nthZ (bitcode m) (fi_code f + k) = Some o /\
    cell_typed m (fi_locals f) (fi_typing f) (heads f) k o (elem_type <$> ops).
Proof.
  intros [Hf Hs Hlv Hk _ _ _ _ _ _ _ _] Hlt. exact (fy_cell _ _ _ _ _ _ _ (vf_typed _ _ Hf) k _ Hk Hlt).
Qed.

(** A handler with a type takes the frame to the next cell. *)
Lemma handled_runs f fs lv below n k ops c o args res rest :
  running_at f fs lv below n k ops c -> handled m args res (exec m _rhf o) ->
  elem_type <$> ops = args ++ rest -> fi_typing f (k + 1) = Some (res ++ rest) ->
  wp (exec m _rhf o) (fun _ => running) may_throw c.
Proof.
  intros Hr Ho Hty Hnext. destruct (running_operands _ _ _ _ _ _ _ _ Hr) as [Hops Hsm].
  apply fmap_app_inv in Hty as (la & ops' & -> & -> & ->). rewrite <- app_assoc in Hops, Hsm.
  eapply wp_mono; [by apply (Ho c (fi_code f + k) la)| |done]. intros _ c' (lr & Hlr & Hops' & Hf').
  eapply running_moves with (k' := k + 1) (ops' := lr ++ ops') (lv' := lv); [exact Hr|by rewrite fmap_app, Hlr|done| |exact Hf'].
  by rewrite <- app_assoc, Z.add_assoc.
Qed.

Lemma turns_runs f fs lv below n k ops c o rest :
  running_at f fs lv below n k ops c -> turns m (exec m _rhf o) ->
  elem_type <$> ops = three ++ rest -> fi_typing f (k + 1) = Some rest ->
  wp (exec m _rhf o) (fun _ => running) may_throw c.
Proof.
  intros Hr Ho Hty Hnext. destruct (running_operands _ _ _ _ _ _ _ _ Hr) as [Hops Hsm].
  pose proof (ru_typing _ _ _ _ _ _ _ _ _ _ _ _ _ _ _ _ Hr) as Hk. rewrite Hty in Hk.
  apply fmap_app_inv in Hty as (la & ops' & Hla & -> & ->). rewrite <- app_assoc in Hops, Hsm.
  eapply wp_mono; [by apply (Ho c (fi_code f + k) la)| |done]. intros _ c' [[Hops'|(lr & Hlr & Hops')] Hf'].
  - eapply running_moves with (k' := k + 1) (ops' := ops') (lv' := lv); [exact Hr|done|done| |exact Hf']. by rewrite Z.add_assoc.
  - eapply running_moves with (k' := k) (ops' := lr ++ ops') (lv' := lv); [exact Hr|by rewrite fmap_app, Hlr|done| |exact Hf'].
    by rewrite <- app_assoc.
Qed.

(** ** Locals *)
Lemma get_local_runs f fs lv below n k ops c x t :
  running_at f fs lv below n k ops c -> nthZ (fi_locals f) x = Some t ->
  fi_typing f (k + 1) = Some (t :: (elem_type <$> ops)) ->
  wp (exec m _rhf (Op.VARIABLE_ACCESS Op.get_local x)) (fun _ => running) may_throw c.
Proof.
  intros Hr Hx Hnext. destruct (running_operands _ _ _ _ _ _ _ _ Hr) as [[Oi Op_ [Ow Oc] Ov] Hsm].
  pose proof (ru_fixed _ _ _ _ _ _ _ _ _ _ _ _ _ _ _ _ Hr) as Hfx. injection Hfx as Hb _ _.
  destruct (ru_locals _ _ _ _ _ _ _ _ _ _ _ _ _ _ _ _ Hr) as [Hlv Hlvok].
  destruct (local_lookup c ops lv below _ _ _ Hb Hlv Hx) as (e & Ht & He & Hrange & j & Hj & Hej & _).
  simpl exec. apply wp_bind. eapply wp_inc_pc; [exact Op_|]. apply wp_bind.
  eapply (wp_get_operand x _ e); [by split|exact Hsm|exact Hrange|exact He|].
  eapply wp_push; [by split|unfold small in Hsm; lia|]. intros os Hw Hc.
  eapply running_moves with (k' := k + 1) (ops' := e :: ops) (lv' := lv); [exact Hr|by rewrite <- Ht in Hnext|done| |done].
  constructor; [done|simpl; f_equal; lia|by split|]. constructor; [|done]. by eapply (Forall_lookup_1 value_ok).
Qed.

Lemma assign_local_runs f fs lv below n k e ops ops' c x t (keep : bool) (tail : M ctx unit) :
  running_at f fs lv below n k (e :: ops) c -> nthZ (fi_locals f) x = Some t -> elem_type e = t ->
  ops' = (if keep then e :: ops else ops) -> tail = (if keep then push_operand e else mret tt) ->
  fi_typing f (k + 1) = Some (elem_type <$> ops') ->
  wp (inc_pc;; el ← pop_operand; set_operand x el;; (if keep then push_operand el else mret tt)) (fun _ => running) may_throw c.
Proof.
  intros Hr Hx Ht -> -> Hnext. destruct (running_operands _ _ _ _ _ _ _ _ Hr) as [[Oi Op_ [Ow Oc] Ov] Hsm].
  pose proof (ru_fixed _ _ _ _ _ _ _ _ _ _ _ _ _ _ _ _ Hr) as Hfx. injection Hfx as Hb _ _.
  destruct (ru_locals _ _ _ _ _ _ _ _ _ _ _ _ _ _ _ _ Hr) as [Hlv Hlvok].
  destruct (local_lookup c ops lv below _ _ _ Hb Hlv Hx) as (e' & Ht' & He' & Hrange & j & Hj & Hej & Hslot).
  simpl in Oc, Ov. inversion Ov as [|? ? Hve Hvr]; subst x0 l.
  assert (Hsm' : small (ops ++ lv ++ below)) by (unfold small in *; simpl in Hsm; lia).
  apply wp_bind. eapply wp_inc_pc; [exact Op_|]. apply wp_bind. eapply (wp_pop e); [by split|]. intros os1 Hw1 Hc1.
  apply wp_bind. eapply (wp_set_operand x e (ops ++ lv ++ below)); [by split|exact Hsm'|exact Hrange|]. intros os2 Hw2 Hc2.
  change (local_slot (set_os os1 (set_pc (Pc (fi_code f + k + 1)) c))) with (local_slot c) in Hc2. rewrite Hslot in Hc2.
  rewrite insert_app_r_alt in Hc2 by lia. replace (length ops + j - length ops)%nat with j in Hc2 by lia.
  rewrite insert_app_l in Hc2 by done.
  assert (Hlv' : elem_type <$> (<[j:=e]> lv) = elem_type <$> lv).
  { rewrite list_fmap_insert, Ht. apply list_insert_id. rewrite list_lookup_fmap, Hej. simpl. by rewrite Ht'. }
  apply Forall_app in Hvr as [Hv1 Hv2]. apply Forall_app in Hv2 as [Hv2 Hv3].
  assert (Hlvok' : Forall value_ok (<[j:=e]> lv)) by (by apply Forall_insert).
  destruct keep.
  - eapply wp_push; [by split|rewrite !length_app, length_insert; unfold small in Hsm'; rewrite !length_app in Hsm'; lia|].
    intros os3 Hw3 Hc3.
    eapply running_moves with (k' := k + 1) (ops' := e :: ops) (lv' := <[j:=e]> lv); [exact Hr|done|done| |done].
    constructor; [done|simpl; f_equal; lia|by split|]. constructor; [done|]. apply Forall_app; split; [done|]. by apply Forall_app.
  - apply wp_ret.
    eapply running_moves with (k' := k + 1) (ops' := ops) (lv' := <[j:=e]> lv); [exact Hr|done|done| |done].
    constructor; [done|simpl; f_equal; lia|by split|]. apply Forall_app; split; [done|]. by apply Forall_app.
Qed.

Lemma set_local_runs f fs lv below n k ops c x t rest :
  running_at f fs lv below n k ops c -> nthZ (fi_locals f) x = Some t -> elem_type <$> ops = t :: rest ->
  fi_typing f (k + 1) = Some rest ->
  wp (exec m _rhf (Op.VARIABLE_ACCESS Op.set_local x)) (fun _ => running) may_throw c.
Proof.
  intros Hr Hx Hty Hnext. destruct ops as [|e ops]; [done|]. injection Hty as Ht <-.
  pose proof (assign_local_runs f fs lv below n k e ops ops c x t false (mret tt) Hr Hx Ht eq_refl eq_refl Hnext) as H.
  simpl exec. unfold wp in *. unfold mbind, M_bind in *. destruct (inc_pc c) as [[[]|?|?] c1]; try done.
  destruct (pop_operand c1) as [[el|?|?] c2]; try done. by destruct (set_operand x el c2) as [[[]|?|?] c3].
Qed.

Lemma tee_local_runs f fs lv below n k ops c x t rest :
  running_at f fs lv below n k ops c -> nthZ (fi_locals f) x = Some t -> elem_type <$> ops = t :: rest ->
  fi_typing f (k + 1) = Some (t :: rest) ->
  wp (exec m _rhf (Op.VARIABLE_ACCESS Op.tee_local x)) (fun _ => running) may_throw c.
Proof.
  intros Hr Hx Hty Hnext. destruct ops as [|e ops]; [done|]. injection Hty as Ht <-. rewrite <- Ht in Hnext.
  exact (assign_local_runs f fs lv below n k e ops (e :: ops) c x t true (push_operand e) Hr Hx Ht eq_refl eq_refl Hnext).
Qed.

(** ** Jumps *)
Lemma jump_runs f fs lv below n k ops0 ops c c1 b p pop target_pc ts' :
  running_at f fs lv below n k ops0 c -> operands c1 p (ops ++ lv ++ below) -> same_frame c c1 ->
  (length ops <= length ops0)%nat -> jumps pop (elem_type <$> ops) ts' -> heads f b ts' ->
  target (fun i => nthZ (bitcode m) (fi_code f + i)) b = Some target_pc ->
  wp (jump m pop target_pc) (fun _ => running) may_throw c1.
Proof.
  intros Hr Hops Hf Hlen Hj (k' & Htg & HΦ) Htg'. rewrite Htg in Htg'. injection Htg' as <-.
  destruct (running_operands _ _ _ _ _ _ _ _ Hr) as [_ Hsm].
  assert (Hsm1 : small (ops ++ lv ++ below)) by (unfold small in *; rewrite length_app in *; lia).
  pose proof (vf_here _ _ (ru_function _ _ _ _ _ _ _ _ _ _ _ _ _ _ _ _ Hr)) as Hcode.
  eapply wp_mono; [by eapply jump_handled| |done]. intros _ c' (ops' & Hty & Hops' & Hf').
  eapply running_moves with (k' := k') (ops' := ops') (lv' := lv); [exact Hr|by rewrite Hty|done|done|].
  destruct Hf as (E1 & E2 & E3 & E4), Hf' as (F1 & F2 & F3 & F4). unfold same_frame.
  by rewrite F1, F2, F3, F4, E1, E2, E3, E4.
Qed.

(** The condition of a branch on top of the operands *)
Lemma pop_condition f fs lv below n k ops c rest :
  running_at f fs lv below n k ops c -> elem_type <$> ops = i32 :: rest ->
  exists v ops', ops = i32_const_t v :: ops' /\ in_u 32 v /\ elem_type <$> ops' = rest /\ (length ops' <= length ops)%nat /\
    forall os, WStack.wf os -> WStack.contents os = ops' ++ lv ++ below ->
      operands (set_os os c) (fi_code f + k) (ops' ++ lv ++ below).
Proof.
  intros Hr Hty. destruct (running_operands _ _ _ _ _ _ _ _ Hr) as [[Oi Op_ Os Ov] Hsm].
  destruct ops as [|e ops']; [done|]. injection Hty as Ht Hrest. destruct e as [v|v|v|v|v]; try discriminate Ht.
  inversion Ov; subst. exists v, ops'. split_and!; simpl; try lia; try done.
Qed.

Lemma control_runs f fs lv below n k ops c o imm :
  running_at f fs lv below n k ops c -> nthZ (bitcode m) (fi_code f + k) = Some (Op.CONTROL_FLOW o imm) ->
  cell_typed m (fi_locals f) (fi_typing f) (heads f) k (Op.CONTROL_FLOW o imm) (elem_type <$> ops) ->
  wp (exec m _rhf (Op.CONTROL_FLOW o imm)) (fun _ => running) may_throw c.
Proof.
  intros Hr Ho Hty. destruct (running_operands _ _ _ _ _ _ _ _ Hr) as [Hops Hsm].
  pose proof Hops as [Oi Op_ [Ow Oc] Ov].
  assert (Htg : target (fun i => nthZ (bitcode m) (fi_code f + i)) (BitcodeWriter.AtInstr k) = Some (Op.cf_pc imm))
    by (simpl; by rewrite Ho).
  destruct o; cbv beta iota zeta delta [cell_typed] in Hty; simpl exec;
    try (destruct Hty as (args & res & rest & Hst & Ht & Hnext); by inversion Hst).
  - apply wp_bind. eapply wp_inc_pc; [exact Op_|]. done.
  - destruct Hty as (args & res & rest & Hst & Ht & Hnext). inversion Hst; subst; [discriminate|].
    exact (handled_runs _ _ _ _ _ _ _ _ (Op.CONTROL_FLOW Op.nop imm) _ _ _ Hr (nop_handled m imm) Ht Hnext).
  - destruct Hty as (rest & Ht & Hnext & Hhead).
    destruct (pop_condition _ _ _ _ _ _ _ _ _ Hr Ht) as (v & ops' & -> & Hv & <- & Hlen & Hpop).
    apply wp_bind. eapply wp_inc_pc; [exact Op_|]. apply wp_bind. eapply (wp_pop (i32_const_t v)); [by split|].
    intros os Hw Hc. apply wp_bind. eapply wp_lift_Ret; [done|]. specialize (Hpop os Hw Hc) as [Pi Pp Ps Pv].
    destruct (v =? 0).
    + apply wp_set_relative_pc; [apply (vf_here _ _ (ru_function _ _ _ _ _ _ _ _ _ _ _ _ _ _ _ _ Hr))|].
      destruct Hhead as (k' & Hk' & HΦ). rewrite Htg in Hk'. injection Hk' as Hk'.
      eapply running_moves with (k' := k') (ops' := ops') (lv' := lv); [exact Hr|done|done| |done].
      rewrite <- Hk'. by constructor.
    + apply wp_ret. eapply running_moves with (k' := k + 1) (ops' := ops') (lv' := lv); [exact Hr|done|done| |done].
      rewrite Z.add_assoc. by constructor.
  - destruct Hty as (k' & Hk' & HΦ). rewrite Htg in Hk'. injection Hk' as Hk'.
    apply wp_set_relative_pc; [apply (vf_here _ _ (ru_function _ _ _ _ _ _ _ _ _ _ _ _ _ _ _ _ Hr))|].
    eapply running_moves with (k' := k') (ops' := ops) (lv' := lv); [exact Hr|done|done| |done].
    rewrite <- Hk'. by constructor.
  - destruct Hty as (ts' & Hj & Hhead).
    eapply jump_runs; [exact Hr|exact Hops|apply same_frame_refl|done|exact Hj|exact Hhead|exact Htg].
  - destruct Hty as (rest & ts' & Ht & Hnext & Hj & Hhead).
    destruct (pop_condition _ _ _ _ _ _ _ _ _ Hr Ht) as (v & ops' & -> & Hv & <- & Hlen & Hpop).
    apply wp_bind. eapply (wp_pop (i32_const_t v)); [by split|].
    intros os Hw Hc. apply wp_bind. simpl. apply wp_ret. specialize (Hpop os Hw Hc). destruct (negb (v =? 0)).
    + eapply jump_runs; [exact Hr|exact Hpop|done|done|exact Hj|exact Hhead|exact Htg].
    + destruct Hpop as [Pi Pp Ps Pv]. eapply wp_inc_pc; [exact Pp|].
      eapply running_moves with (k' := k + 1) (ops' := ops') (lv' := lv); [exact Hr|done|done| |done].
      rewrite Z.add_assoc. by constructor.
Qed.

Lemma br_table_runs f fs lv below n k ops c size table :
  running_at f fs lv below n k ops c -> nthZ (bitcode m) (fi_code f + k) = Some (Op.BR_TABLE size table) ->
  cell_typed m (fi_locals f) (fi_typing f) (heads f) k (Op.BR_TABLE size table) (elem_type <$> ops) ->
  wp (exec m _rhf (Op.BR_TABLE size table)) (fun _ => running) may_throw c.
Proof.
  intros Hr Ho (rest & Ht & Hsize & Hlen & Hall).
  destruct (running_operands _ _ _ _ _ _ _ _ Hr) as [[Oi Op_ [Ow Oc] Ov] Hsm].
  destruct (pop_condition _ _ _ _ _ _ _ _ _ Hr Ht) as (v & ops' & -> & [Hv _] & <- & Hl & Hpop).
  simpl exec. unfold exec_br_table, pop_ui32. apply wp_bind, wp_bind. eapply (wp_pop (i32_const_t v)); [by split|].
  intros os Hw Hc. eapply wp_lift_Ret; [done|]. apply wp_bind.
  destruct (nthZ_Some table (Z.min v size)) as [e He]; [lia|]. eapply wp_lift_Ret; [by rewrite He|].
  destruct (Hall _ _ He) as (ts' & Hj & Hhead).
  eapply jump_runs; [exact Hr|by apply Hpop|done|done|exact Hj|exact Hhead|]. simpl. rewrite Ho. by rewrite He.
Qed.

(** ** Calls *)
Lemma type_check_ok ft c l :
  stk c l -> (length (param_types ft) <= length l)%nat ->
  wp (type_check ft) (fun _ c' => c' = c) may_throw c.
Proof.
  intros Hs Hlen. unfold type_check. set (n := Z.of_nat (length (param_types ft))).
  assert (Hall : forall i t, (i, t) ∈ zip (seqZ 0 n) (param_types ft) -> 0 <= i < n).
  { intros i t Hi. apply elem_of_zip_l, elem_of_seqZ in Hi. lia. }
  induction (zip (seqZ 0 n) (param_types ft)) as [|[i t] zs IH]; simpl; [by apply wp_ret|].
  assert (Hi : 0 <= i < n) by (eapply Hall; by left).
  destruct (lookup_lt_is_Some_2 l (Z.to_nat (n - 1 - i))) as [e He]; [unfold n in *; lia|].
  apply wp_bind, wp_bind. eapply wp_peek; [exact Hs|lia|exact He|].
  apply wp_assertM; [intros _|done]. apply IH. intros i' t' Hi'. eapply Hall. right. exact Hi'.
Qed.

Lemma wp_guarded {A} (g : ctx -> ctx) (k : M ctx A) (Q : A -> ctx -> Prop) c :
  wp k (fun a c' => Q a (g c')) may_throw c -> wp (guarded g k) Q may_throw c.
Proof. unfold wp, guarded. by destruct (k c) as [[a|e|w] c']. Qed.

(** The frame of [f] is about to call a function of type [ft] on the operands [la]. *)
Record calling f fs lv below n k la ops ft c : Prop := Calling {
  cg_function : valid_function m f;
  cg_callers : suspended fs below (params f) (results (fi_type f)) n;
  cg_locals : typed lv (rev (fi_locals f));
  cg_frames : frames c fs /\ Z.of_nat (length fs) < 2 ^ 32;
  cg_fixed : fixed c = (Z.of_nat (length below), heights0.1, heights0.2);
  cg_depth : 0 <= _remaining_call_depth c /\ _remaining_call_depth c + n = total_depth;
  cg_exiting : exiting c = false;
  cg_operands : operands c (fi_code f + k) (la ++ ops ++ lv ++ below);
  cg_small : small (la ++ ops ++ lv ++ below);
  cg_size : Z.of_nat (length (la ++ ops ++ lv ++ below)) <= Z.of_nat (length below0) + args0 + n * maximum_stack m;
  cg_args : typed la (rev (param_types ft));
  cg_next : fi_typing f (k + 1) = Some (results ft ++ (elem_type <$> ops));
  cg_room : Z.of_nat (length (param_types ft) + length ops) <= fi_depth f
}.

Lemma running_calls f fs lv below n k ops0 c0 ops c ft rest :
  running_at f fs lv below n k ops0 c0 -> operands c (fi_code f + k) (ops ++ lv ++ below) -> same_frame c0 c ->
  (length ops <= length ops0)%nat -> elem_type <$> ops = rev (param_types ft) ++ rest ->
  fi_typing f (k + 1) = Some (results ft ++ rest) ->
  exists la ops', ops = la ++ ops' /\ calling f fs lv below n k la ops' ft c.
Proof.
  intros Hr Ho (F1 & F2 & F3 & F4) Hlen Hty Hnext.
  pose proof Hr as [Hf Hs Hlv Hk Hops Hpc Hst Hfr Hfx Hd He Hi].
  destruct (running_small _ _ _ _ _ _ _ _ (so_maximum f Hf) Hbound Hframes _ _ _ _ _ _ _ _ Hr) as (Hsize & Hsm & Hfl).
  apply fmap_app_inv in Hty as (la & ops' & Hla & -> & ->). rewrite <- app_assoc in Ho.
  exists la, ops'. split; [done|].
  assert (Hlla : length la = length (param_types ft)).
  { rewrite <- (length_fmap elem_type la), <- Hla. apply length_rev. }
  assert (Hk0 : Z.of_nat (length ops0) <= fi_depth f).
  { pose proof (fy_range _ _ _ _ _ _ _ (vf_typed _ _ Hf) k _ Hk) as [_ H]. by rewrite length_fmap in H. }
  pose proof (od_values _ _ _ _ Ho) as Hv. apply Forall_app in Hv as [Hv _]. rewrite length_app in Hlen.
  split; try done.
  - split; [by unfold frames; rewrite F1|done].
  - by rewrite F2.
  - by rewrite F3.
  - by rewrite F4.
  - unfold small in *. rewrite !length_app in *. lia.
  - rewrite !length_app in *. lia.
  - lia.
Qed.

(** A host function returns to the frame, or has called [exit]. *)
Lemma host_call_runs f fs lv below n k la ops c g ft :
  calling f fs lv below n k la ops ft c -> 0 <= g < imported -> Mod.get_function_type m g = Ret ft ->
  wp (ExecContext.call m _rhf g) (fun _ c' => running c' \/ finished c') may_throw c.
Proof.
  intros [Hf Hs Hlv [Hfr Hfl] Hfx Hd He [Oi Op_ Os Ov] Hsm Hsize Hargs Hnext Hroom] Hg Hft.
  destruct (nthZ_Some (import_functions m) g) as [h Hh]; [rewrite (so_linked Hsound), <- so_imported; lia|].
  pose proof (Hhosts g ft h Hg Hft Hh) as Hhost. pose proof (typed_length _ _ Hargs) as Hla. rewrite length_rev in Hla.
  apply Forall_app in Ov as [Ova Ovr]. apply Forall_app in Ovr as [Ovo _].
  unfold Mod.get_function_type in Hft. destruct (Z.ltb_spec g imported) as [Hlt|]; [|lia].
  unfold ExecContext.call. rewrite (proj2 (Z.ltb_lt _ _) Hlt). apply bind_Ret in Hft as (t & Ht & Hft).
  apply wp_bind. eapply wp_lift_Ret; [exact Ht|]. apply wp_bind. eapply wp_lift_Ret; [exact Hft|]. apply wp_bind.
  eapply wp_mono; [eapply type_check_ok; [exact Os|rewrite length_app; lia]| |done]. intros [] c1 ->.
  apply wp_bind. eapply wp_inc_pc; [exact Op_|]. apply wp_bind.
  eapply wp_lift_Ret; [unfold Mod.get_function_stack_size; destruct (so_counted Hsound) as [_ ->]; done|].
  apply wp_bind, wp_gets, wp_bind, wp_assertM; [intros _|done]. apply wp_guarded, wp_bind, wp_modify, wp_bind.
  eapply (wp_push_frame _ fs); [exact Hfr|lia|]. intros s Hsw Hsc. apply wp_bind.
  unfold call_host. apply wp_bind. eapply wp_lift_Ret; [by rewrite Hh|].
  eapply wp_mono; [apply (Hhost _ la (ops ++ lv ++ below) (ActivationFrame PcNull 0 :: fs)); [exact Oi|by split|exact Os|exact Hsm|exact Hargs|exact He]| |done].
  intros [] c2 (Hi2 & Hf2 & Hx2 & Hres). change (fixed c2 = fixed c) in Hx2. rewrite Hfx in Hx2.
  apply wp_bind. eapply wp_pop_call; [exact Hf2|]. intros s2 Hs2w Hs2c. apply wp_ret.
  destruct Hres as [(Hp2 & He2 & lr & [Hlr Hlrv] & Hs2)|(Hp2 & He2 & l & Hs2)].
  - left. exists f, fs, lv, below, n, (k + 1), (lr ++ ops). split; try done; simpl.
    + by rewrite fmap_app, Hlr.
    + by apply Forall_app.
    + rewrite Hp2. simpl. f_equal. lia.
    + by rewrite <- app_assoc.
  - right. destruct (suspended_below _ _ _ _ _ _ _ _ _ _ _ Hs) as [[kf ->] [lb ->]]. split; [done|]. split; try done.
    + injection Hx2 as _ H1 H2. simpl. rewrite H1, H2. by destruct heights0.
    + exists (l ++ ops ++ lv ++ lb), kf. split_and!; [by rewrite <- !app_assoc|by split|]. simpl. by rewrite He2.
    + intros _ E. rewrite so_imported, E in Hlt. simpl in Hlt. lia.
Qed.

(** A function of the module starts to run. *)
Lemma body_call_runs f fs lv below n k la ops c g f' :
  calling f fs lv below n k la ops (fi_type f') c -> valid_function m f' ->
  defined_function m g (fi_type f') (fi_body f') 1 ->
  wp (ExecContext.call m _rhf g) (fun _ => running) may_throw c.
Proof.
  intros [Hf Hs Hlv [Hfr Hfl] Hfx [Hd1 Hd2] He [Oi Op_ Os Ov] Hsm Hsize Hargs Hnext Hroom] Hf' Hdef.
  destruct (Z.ltb_spec (_remaining_call_depth c) 1) as [Hdep|Hdep].
  { unfold wp. by rewrite (call_too_deep m _rhf g c _ _ _ _ Hdef Op_ Hdep). }
  pose proof (so_maximum f Hf) as Hmax. pose proof (typed_length _ _ Hargs) as Hla. rewrite length_rev in Hla.
  pose proof (zero_locals_typed _ (vf_entries _ _ Hf')) as Hz. pose proof (typed_length _ _ Hz) as Hzl.
  pose proof (vf_room _ _ Hf') as Hroom'. pose proof (vf_typed _ _ Hf') as Hty'.
  pose proof (fy_range _ _ _ _ _ _ _ Hty' 0 [] (fy_start _ _ _ _ _ _ _ Hty')) as [_ Hd0]. simpl in Hd0. unfold total in Hroom'.
  assert (Hn : (n + 1) * maximum_stack m <= total_depth * maximum_stack m) by (apply Z.mul_le_mono_nonneg_r; lia).
  eapply wp_mono; [eapply (wp_call_depth m _rhf g _ _ 1 _ _ fs c Hdef Op_ Os Hfr)| |done].
  { split; [rewrite !length_app; lia|]. split; [lia|exact Hfl]. }
  intros [] c1 [E1 E2 E3 E4 E5 E6]. injection Hfx as Hb1 Hb2 Hb3.
  exists f', (ActivationFrame (Pc (fi_code f + (k + 1))) (Z.of_nat (length below)) :: fs),
    (reverse (zero_locals (fb_locals (fi_body f'))) ++ la), (ops ++ lv ++ below), (n + 1), 0, [].
  split; try done; simpl.
  - apply sus_call; try done; [|unfold params; lia].
    apply Forall_app in Ov as [_ Ov]. by apply Forall_app in Ov as [Ov _].
  - unfold fi_locals, all_locals. rewrite rev_app_distr. apply typed_app; [by apply typed_reverse|done].
  - apply (fy_start _ _ _ _ _ _ _ Hty').
  - rewrite E1. unfold fi_code. f_equal. lia.
  - by rewrite <- app_assoc.
  - rewrite Hb1 in E3. by rewrite Z.add_assoc.
  - unfold fixed. rewrite E4, !length_app. f_equal; [f_equal|]; [lia| |]; by rewrite E6.
  - rewrite E5. lia.
  - by rewrite E6.
  - rewrite E6. exact Oi.
Qed.

Lemma call_runs f fs lv below n k la ops c g ft :
  calling f fs lv below n k la ops ft c -> 0 <= g -> Mod.get_function_type m g = Ret ft ->
  wp (ExecContext.call m _rhf g) (fun _ c' => running c' \/ finished c') may_throw c.
Proof.
  intros Hc Hg Hft. destruct (Z.ltb_spec g imported); [by eapply host_call_runs|].
  destruct (so_function g ft ltac:(done) Hft) as (f' & Hf' & <- & Hdef).
  eapply wp_mono; [by eapply body_call_runs| |done]. intros [] c' H'. by left.
Qed.

Lemma func_type_eqb_params a b : func_type_eqb a b = true -> param_types a = param_types b.
Proof.
  unfold func_type_eqb. intros H. repeat (apply andb_true_iff in H as [H ?]).
  match goal with H : bool_decide _ = true |- _ => by apply bool_decide_eq_true in H end.
Qed.

Lemma type_listed i ft : Mod.get_function_type m i = Ret ft -> ft ∈ types m.
Proof.
  assert (Hin : forall t, nthZ (types m) t = Some ft -> ft ∈ types m).
  { intros t Ht. pose proof (nthZ_bounds _ _ _ Ht). rewrite nthZ_lookup in Ht by lia. by eapply list_elem_of_lookup_2. }
  unfold Mod.get_function_type. destruct (_ <? _); intros (t & _ & Ht)%bind_Ret.
  - eapply (Hin t). by destruct (nthZ (types m) t); [injection Ht as ->|].
  - by eapply Hin, vec_at_Ret.
Qed.

(** The function an indirect call finds has the parameters and results of the type
    that was validated. *)
Lemma indirect_type te ft actual :
  te ∈ types m -> ft ∈ types m -> actual ∈ types m -> func_type_eqb te ft = true -> func_type_eqb actual te = true ->
  param_types actual = param_types ft /\ results actual = results ft.
Proof.
  intros H1 H2 H3 H4 H5. split.
  - by rewrite (func_type_eqb_params _ _ H5), (func_type_eqb_params _ _ H4).
  - rewrite (avoids_results m actual te), (avoids_results m te ft); try done; apply (so_avoids Hsound).
Qed.

Lemma call_indirect_runs f fs lv below n k ops c x te ft rest :
  running_at f fs lv below n k ops c -> nthZ (types m) x = Some te -> ft ∈ types m -> func_type_eqb te ft = true ->
  tables m <> [] -> elem_type <$> ops = (i32 :: rev (param_types ft)) ++ rest ->
  fi_typing f (k + 1) = Some (results ft ++ rest) ->
  wp (exec m _rhf (Op.CALL Op.call_indirect x)) (fun _ c' => running c' \/ finished c') may_throw c.
Proof.
  intros Hr Hx Hft Heq Ht Hty Hnext.
  destruct (running_operands _ _ _ _ _ _ _ _ Hr) as [[Oi Op_ [Ow Oc] Ov] Hsm].
  destruct (pop_condition _ _ _ _ _ _ _ _ _ Hr Hty) as (v & ops' & -> & [Hv _] & Hty' & Hl & Hpop).
  simpl exec. unfold exec_call_indirect, pop_ui32. apply wp_bind, wp_bind. eapply (wp_pop (i32_const_t v)); [by split|].
  intros os Hw Hc. specialize (Hpop os Hw Hc). eapply wp_lift_Ret; [done|]. apply wp_bind.
  unfold table_elem. pose proof (od_instance _ _ _ _ Hpop) as [_ _ Htab _].
  destruct (tables m) as [|t ts] eqn:Et; [done|]. destruct (Htab t ts eq_refl) as (Hlen & Hte & _).
  apply wp_bind. eapply wp_lift_Ret; [done|]. apply wp_bind, wp_assertM; [intros Hi%Z.ltb_lt|done].
  apply wp_bind, wp_gets, wp_bind. destruct (nthZ_Some (_table (set_os os c)) v) as [e He]; [lia|].
  eapply wp_lift_Ret; [by rewrite He|]. apply wp_ret.
  assert (Hpos : 0 <= te_index e) by exact (nthZ_Forall _ _ _ _ Hte He).
  apply wp_bind. eapply wp_lift_Ret; [unfold vec_at; by rewrite Hx|]. apply wp_bind, wp_lift.
  pose proof (function_type_safe options m (te_index e) (mv_types _ _ (so_valid Hsound)) (mv_imports _ _ (so_valid Hsound)) Hpos) as Hy.
  destruct (Mod.get_function_type m (te_index e)) as [actual|ex|w] eqn:Ea; [|done|done].
  apply wp_bind, wp_assertM; [intros Hsame|done].
  assert (Hin : te ∈ types m).
  { pose proof (nthZ_bounds _ _ _ Hx). rewrite nthZ_lookup in Hx by lia. by eapply list_elem_of_lookup_2. }
  destruct (indirect_type te ft actual Hin Hft (type_listed _ _ Ea) Heq Hsame) as [Hpar Hres].
  rewrite <- Hpar in Hty'. rewrite <- Hres in Hnext.
  destruct (running_calls _ _ _ _ _ _ _ _ ops' _ actual rest Hr Hpop ltac:(done) Hl Hty' Hnext) as (la & ops2 & -> & Hcall).
  by eapply call_runs.
Qed.

(** ** Returns *)
Lemma return_runs f fs lv below n k ops c :
  running_at f fs lv below n k ops c -> k = fb_size (fi_body f) - 1 ->
  wp (dispatch m _rhf) (fun b c' => b = false /\ (running c' \/ finished c')) may_throw c.
Proof.
  intros Hr ->. pose proof Hr as [Hf Hs Hlv Hk Hops Hpc Hst Hfr Hfx [Hd1 Hd2] He Hi].
  destruct (running_operands _ _ _ _ _ _ _ _ Hr) as [Ho Hsm]. pose proof (vf_typed _ _ Hf) as Hty.
  destruct (fy_return _ _ _ _ _ _ _ Hty) as (imm & Himm & Hdata & Hcount & Hsize).
  pose proof (fy_end _ _ _ _ _ _ _ Hty _ Hk) as Hres.
  assert (Hlen : length ops = length (results (fi_type f))) by (by rewrite <- Hres, length_fmap).
  pose proof (results_length _ (vf_type _ _ Hf)) as Hrc. pose proof (vf_type _ _ Hf) as (_ & Hrb & _).
  pose proof (typed_length _ _ Hlv) as Hll. rewrite length_rev in Hll.
  eapply dispatch_ok; [exact Hpc|exact Himm|done|]. simpl exec. rewrite Hdata, Hcount, Hsize, (vf_size _ _ Hf).
  destruct (suspended_bounds _ _ _ _ _ _ _ _ _ _ _ Hs (so_maximum f Hf)) as (Hn1 & Hfl & _).
  inversion Hs as [E1 E2 E3 E4 E5|f2 ops2 lv2 below2 fs2 args2 res2 n2 k2 Hf2 Hs2 Hlv2 Hops2 Hk2 Hroom2 E1 E2 E3 E4 E5]; subst fs;
    (eapply wp_mono; [eapply (wp_apply_pop_call _ _ _ _ _ ops lv below _ c Hst Hsm Hfr); lia| |done]);
    intros [] c' (Hp' & Hb' & Hs' & Hf' & Hd' & Hc').
  - right. unfold fixed in Hfx. injection Hfx as _ Ha Hb. split; [done|]. split.
    + rewrite Hc'. simpl. rewrite Ha, Hb. by destruct heights0.
    + rewrite Hc'. exact Hi.
    + exists ops, []. split_and!; [done|done|]. intros _. by split.
    + rewrite Hc'. simpl. by rewrite He.
  - left. exists f2, fs2, lv2, below2, n2, k2, (ops ++ ops2). subst below. unfold fixed in Hfx. injection Hfx as _ Ha Hb.
    split; try done.
    + by rewrite fmap_app, Hres.
    + by apply Forall_app.
    + by rewrite <- app_assoc.
    + unfold fixed. rewrite Hb', Hc'. simpl. by rewrite Ha, Hb.
    + lia.
    + by rewrite Hc'.
    + rewrite Hc'. exact Hi.
Qed.

(** ** The dispatch loop *)
Lemma step_runs f fs lv below n k ops c o args res rest :
  running_at f fs lv below n k ops c -> nthZ (bitcode m) (fi_code f + k) = Some o ->
  step_type m (fi_locals f) o args res -> elem_type <$> ops = args ++ rest -> fi_typing f (k + 1) = Some (res ++ rest) ->
  wp (exec m _rhf o) (fun _ c' => running c' \/ finished c') may_throw c.
Proof.
  intros Hr Ho Hst Hty Hnext.
  pose proof (avoids_at m _ _ (so_avoids Hsound) Ho) as Ha.
  assert (Hgo : wp (exec m _rhf o) (fun _ => running) may_throw c ->
    wp (exec m _rhf o) (fun _ c' => running c' \/ finished c') may_throw c).
  { intros H. eapply wp_mono; [exact H| |done]. intros [] c' Hc'. by left. }
  destruct (plain o) eqn:Hplain.
  { apply Hgo. eapply handled_runs; [exact Hr| |exact Hty|exact Hnext].
    eapply plain_handled; [exact so_globals|exact so_elements|exact Hst|exact Hplain|exact Ha|exact so_limits]. }
  inversion Hst; subst; try discriminate Hplain.
  - exfalso. match goal with H : op_type _ = Some _ |- _ => rename H into Hop end.
    destruct o; try discriminate Hplain; try discriminate Hop; destruct o; first [discriminate Hplain|discriminate Hop].
  - apply Hgo. simpl in Hty. rewrite <- Hty in Hnext. by eapply get_local_runs.
  - apply Hgo. by eapply set_local_runs.
  - apply Hgo. by eapply tee_local_runs.
  - destruct (running_operands _ _ _ _ _ _ _ _ Hr) as [Hops _].
    destruct (running_calls _ _ _ _ _ _ _ _ ops _ ft rest Hr Hops (same_frame_refl c) ltac:(done) Hty Hnext) as (la & ops2 & -> & Hcall).
    simpl exec. by eapply call_runs.
  - by eapply call_indirect_runs.
  - apply Hgo. eapply turns_runs; [exact Hr| |exact Hty|exact Hnext]. by apply memory_copy_turns.
  - apply Hgo. eapply turns_runs; [exact Hr| |exact Hty|exact Hnext]. by apply memory_fill_turns.
  - apply Hgo. eapply turns_runs; [exact Hr| |exact Hty|exact Hnext]. by apply table_copy_turns.
Qed.

(** One turn of a running function *)
Lemma turn_runs c :
  running c -> wp (dispatch m _rhf) (fun b c' => b = false /\ (running c' \/ finished c')) may_throw c.
Proof.
  intros (f & fs & lv & below & n & k & ops & Hr).
  pose proof Hr as [Hf _ _ Hk _ Hpc _ _ _ _ _ _].
  pose proof (fy_range _ _ _ _ _ _ _ (vf_typed _ _ Hf) k _ Hk) as [[Hk0 Hk1] _].
  destruct (Z.eq_dec k (fb_size (fi_body f) - 1)) as [E|E]; [by eapply return_runs|].
  destruct (running_cell _ _ _ _ _ _ _ _ Hr ltac:(lia)) as (o & Ho & Hty).
  assert (Hleft : wp (exec m _rhf o) (fun _ => running) may_throw c ->
    wp (exec m _rhf o) (fun _ c' => running c' \/ finished c') may_throw c).
  { intros H. eapply wp_mono; [exact H| |done]. intros [] c' Hc'. by left. }
  assert (Hstep : (exists args res rest, step_type m (fi_locals f) o args res /\ elem_type <$> ops = args ++ rest /\
      fi_typing f (k + 1) = Some (res ++ rest)) -> wp (exec m _rhf o) (fun _ c' => running c' \/ finished c') may_throw c).
  { intros (args & res & rest & Hst & Ht & Hnext). by eapply step_runs. }
  eapply dispatch_ok; [exact Hpc|exact Ho| |].
  - intros b ->. destruct Hty as (args & res & rest & Hst & _). inversion Hst; subst; discriminate.
  - destruct o; try exact (Hstep Hty); apply Hleft; [by eapply control_runs|by eapply br_table_runs].
Qed.

Lemma finished_stops c : finished c -> dispatch m _rhf c = (Ret true, c).
Proof. intros [Hp _]. unfold dispatch, mbind, M_bind, gets, lift. by rewrite Hp. Qed.

(** A run goes on, throws or finishes. *)
Lemma loop_safe fuel c r c' :
  running c \/ finished c -> execute_loop m _rhf fuel c = Some (r, c') ->
  (r = Ret tt /\ finished c') \/ exists e, r = Throw e.
Proof.
  revert c. induction fuel as [|fuel IH]; intros c Hc E; [done|]. simpl in E.
  destruct Hc as [Hc|Hc]; [|rewrite (finished_stops c Hc) in E; injection E as <- <-; by left].
  pose proof (turn_runs c Hc) as Ht. unfold wp in Ht.
  destruct (dispatch m _rhf c) as [[[]|e|w] c1].
  - by destruct Ht.
  - destruct Ht as [_ Ht]. by apply (IH c1).
  - injection E as <- <-. right. by exists e.
  - done.
Qed.
End Safety.
