(* ===== verification/HostTyping.v ===== *)
(** * Host functions keep to their types (host_function.hpp)

    The wrappers that [add] makes of C++ functions, and the registry that links them,
    give the interpreter what it expects of a host function: [host_typed] holds of the
    wrapper of every C++ function that itself leaves the instance and the stacks in
    order, and [hosts_typed] of the imports of a linked module. *)
From S2P Require Import Prelude GuardedPtr WasmStack Allocator Opcodes Types LinearMemory ExecContext HostFunctions Validation Writers Parser WriterLaws Softfloat Interpreter Backend ContextProofs InstanceProofs HostProofs Soundness CodeTyping CompiledModule RunTyping RunSafety.

Section Hosts.
Context `{sys : Sys} {Hok : SysOk sys} (m : module).
Implicit Types (c : ctx).
Local Abbreviation may_throw := (fun (_ : exn) (_ : ctx) => True).

(** What a C++ function with its preconditions owes to the wrapper: whatever it does, it
    leaves the instance in order and gives back the stacks and the frame; its result is
    of its C++ type, unless it called [exit]. *)
Definition native_typed (Ret_ : option native_type) (Args : list native_type)
    (preconditions : list (list host_value -> M ctx unit)) (F : list host_value -> M ctx host_result) : Prop :=
  forall args l fs c, instance_ok m c -> stk c l -> frames c fs -> exiting c = false ->
    wp (preconditions_runner preconditions args;; F args)
      (fun r c' => instance_ok m c' /\ stk c' l /\ frames c' fs /\ fixed c' = fixed c /\
         ((pc c' = pc c /\ exiting c' = false /\
             typed (pushed r) (hf_ret (function_types_provider Ret_ Args))) \/
          (pc c' = PcHalt /\ exiting c' = true))) may_throw c.

Lemma signature_results hf ft : same_signature hf ft -> (length (hf_ret hf) <= 1)%nat -> results ft = hf_ret hf.
Proof.
  intros (_ & Hc & Hr) Hl. unfold results. destruct (hf_ret hf) as [|r [|? ?]]; simpl in *; [| |lia].
  - by rewrite <- Hc.
  - by rewrite <- Hc, (Hr r).
Qed.

(** The wrapper of such a function has the type it is registered with. *)
Lemma create_function_typed Ret_ Args preconditions F ft :
  span_sizes_ok Args -> native_typed Ret_ Args preconditions F ->
  same_signature (function_types_provider Ret_ Args) ft -> host_typed m ft (create_function Args preconditions F).
Proof.
  intros Hsp HF Hsig c args rest fs Hi Hf Hs Hsm [Hty Hv] He. unfold small in Hsm. rewrite length_app in Hsm.
  pose proof Hsig as (Hpar & _ & _). simpl in Hpar.
  assert (Hres : results ft = hf_ret (function_types_provider Ret_ Args)).
  { apply signature_results; [done|]. simpl. destruct Ret_ as [t|]; simpl; [|lia]. rewrite length_take. lia. }
  set (vals := reverse args). assert (Hargs : args = reverse vals) by (unfold vals; by rewrite reverse_involutive).
  assert (Htv : elem_type <$> vals = flat_map flatten_type Args).
  { destruct (typed_reverse _ _ (conj Hty Hv)) as [E _]. fold vals in E. by rewrite E, rev_involutive, Hpar. }
  rewrite Hargs in Hs. assert (Hvv : Forall value_ok vals) by by apply Forall_reverse.
  pose proof (wp_get_values Args vals [] vals rest c eq_refl Hs Htv Hvv (proj1 (ii_memory _ _ _ _ _ _ Hi)) Hsp) as Hg.
  assert (Hn : total_operands Args = Z.of_nat (length vals)).
  { by rewrite total_operands_length, <- Htv, length_fmap. }
  unfold create_function. rewrite Hn. apply wp_bind. eapply wp_mono; [exact Hg| |done].
  intros vs c1 (-> & -> & _). pose proof (HF (host_args Args vals) (reverse vals ++ rest) fs c Hi Hs Hf He) as Hw.
  unfold wp, mbind, M_bind in *.
  destruct (preconditions_runner _ _ c) as [[[]|e|w] c1]; [|done|done].
  destruct (F _ c1) as [[r|e|w] c2]; [|done|done]. destruct Hw as (Hi2 & Hs2 & Hf2 & Hx2 & Hr2).
  destruct (maybe_push_result_spec r vals rest c2 Hs2 ltac:(lia)) as (os & -> & Hw & Hcn).
  split_and!; [exact Hi2|exact Hf2|exact Hx2|]. rewrite Hres. destruct Hr2 as [(H1 & H2 & H3)|[H1 H2]].
  - left. split_and!; [exact H1|exact H2|]. exists (pushed r). by split_and!.
  - right. split_and!; [exact H1|exact H2|]. exists (pushed r). by split_and!.
Qed.

(** ** The registry *)

(** Every registered function keeps to the type it is registered with. *)
Definition registered_typed (regs : list (registration (M ctx unit))) : Prop :=
  Forall (fun r => forall ft, same_signature r.2.2 ft -> host_typed m ft r.2.1) regs.

Lemma last_registered_in {F} (regs : list (registration F)) n x :
  last_registered regs n = Some x -> exists r, r ∈ regs /\ r.2 = x.
Proof.
  induction regs as [|r regs IH]; simpl; [done|]. destruct (last_registered regs n) as [y|] eqn:E.
  - intros [= <-]. destruct (IH eq_refl) as (r' & H & <-). exists r'. split; [by right|done].
  - destruct (bool_decide _); [|done]. intros [= <-]. exists r. split; [by left|done].
Qed.

(** The type of an imported function *)
Lemma imported_type i ft :
  0 <= i < Mod.get_imported_functions_size m -> Mod.get_function_type m i = Ret ft ->
  exists e t, nthZ (imports m) i = Some e /\ import_desc e = ImportFunc t /\ nthZ (types m) t = Some ft.
Proof.
  intros Hi. unfold Mod.get_function_type. destruct (Z.ltb_spec i (Mod.get_imported_functions_size m)); [|lia].
  intros (t & Ht & Hft)%bind_Ret. unfold Mod.import_func_t in Ht.
  apply bind_Ret in Ht as (e & He & Ht). exists e, t.
  destruct (nthZ (imports m) i); [injection He as ->|done]. destruct (import_desc e); try done. injection Ht as ->.
  destruct (nthZ (types m) t); [by injection Hft as ->|done].
Qed.

(** The imports of a linked module are bound to functions of their types. *)
Lemma linked_hosts_typed regs :
  registered_typed regs ->
  Forall2 (fun e x => exists f, function_at (register regs) x = Ret f /\ linked regs m e f) (imports m) (import_functions m) ->
  hosts_typed m (_rhf (Some (register regs))).
Proof.
  intros Hr Hl i ft h Hi Hft Hh. destruct (imported_type i ft Hi Hft) as (e & t & He & Hd & Ht).
  rewrite nthZ_lookup in He by lia. rewrite nthZ_lookup in Hh by lia. destruct (Forall2_lookup_lr _ _ _ _ _ _ Hl He Hh) as (f & Hf & hf & t' & ft' & Hreg & Hd' & Ht' & Hsig).
  rewrite Hd in Hd'. injection Hd' as <-. rewrite Ht in Ht'. injection Ht' as <-.
  apply last_registered_in in Hreg as (r & Hin & Er). unfold registered_typed in Hr.
  rewrite list.Forall_forall in Hr. specialize (Hr r Hin ft). rewrite Er in Hr. specialize (Hr Hsig).
  intros c args rest fs H1 H2 H3 H4 H5 H6. unfold _rhf, invoke_host. apply wp_bind. eapply wp_lift_Ret; [exact Hf|].
  exact (Hr c args rest fs H1 H2 H3 H4 H5 H6).
Qed.
End Hosts.
