(* ===== verification/RunClaims.v ===== *)
(** * Running an exported function of a compiled module (execution_context.hpp, [execute])

    The soundness theorem of whole runs. *)
From S2P Require Import Prelude GuardedPtr Leb128 WasmStack Allocator Opcodes Types LinearMemory ExecContext HostFunctions Validation Writers Parser ReaderProofs WriterLaws BodySafety InstrSafety ParserSafety ModuleSafety ParserClaims OpSigs Softfloat Simd Interpreter Backend Fixtures ContextProofs InstanceProofs HostProofs FloatInstance Soundness ValidationClaims OpTypes CodeTyping TrackerTypes CompiledBody CompiledInstrs CompiledModule BulkMemory Execution BackendProofs RunTyping RunSteps RunSafety HostTyping.
Import Op(opcode).

Section Entry.
Context `{sys : Sys} {Hok : SysOk sys} `{sf : Softfloat} (options : Opt.t) (m : module) (_rhf : Z -> M ctx unit).
Context (Hsound : sound_module options m) (Hhosts : hosts_typed m _rhf).
Implicit Types (c : ctx).
Local Abbreviation may_throw := (fun (_ : exn) (_ : ctx) => True).
Local Abbreviation imported := (Mod.get_imported_functions_size m).

(** [execute] may be called: the operands and arguments are in range, the instance fits
    the module, and both stacks have room for the calls the depth allows. *)
Record callable (args : list operand_stack_elem) c : Prop := Callable {
  cl_instance : instance_ok m c;
  cl_stacks : WStack.wf (_os c) /\ WStack.wf (_as c);
  cl_values : Forall value_ok (WStack.contents (_os c)) /\ Forall value_ok args;
  cl_exiting : exiting c = false;
  cl_depth : 0 <= _remaining_call_depth c;
  cl_operands : 0 <= maximum_stack m /\
    Z.of_nat (length (WStack.contents (_os c)) + length args) + _remaining_call_depth c * maximum_stack m < 2 ^ 32;
  cl_frames : Z.of_nat (length (WStack.contents (_as c))) + _remaining_call_depth c < 2 ^ 32
}.

Section One.
Context (args : list operand_stack_elem) (c : ctx) (Hc : callable args c) (ft : func_type).
Local Abbreviation below0 := (WStack.contents (_os c)).
Local Abbreviation fs0 := (WStack.contents (_as c)).
Local Abbreviation heights0 := (Z.of_nat (length fs0), Z.of_nat (length below0)).
Local Abbreviation args0 := (Z.of_nat (length args)).
Local Abbreviation running := (running m below0 fs0 (_last_op_index c) (results ft) args0 (_remaining_call_depth c) heights0).
Local Abbreviation ended := (ended m below0 fs0 (results ft) heights0).

Lemma wp_push_all (l : list operand_stack_elem) : forall c1 below (Q : unit -> ctx -> Prop) E,
  stk c1 below -> Z.of_nat (length l + length below) < 2 ^ 63 ->
  (forall os, WStack.wf os -> WStack.contents os = reverse l ++ below -> Q tt (set_os os c1)) ->
  wp (for_each push_operand l) Q E c1.
Proof.
  induction l as [|e l IH]; intros c1 below Q E [Hw Hcn] Hlen HQ; simpl.
  - apply wp_ret. rewrite <- (set_os_id c1). by apply HQ.
  - simpl in Hlen. apply wp_bind. eapply (wp_push e); [by split|lia|]. intros os Hw' Hc'.
    eapply IH; [by split|simpl; lia|]. intros os2 Hw2 Hc2. apply (HQ os2); [done|].
    rewrite Hc2, reverse_cons, <- app_assoc. by simpl.
Qed.

(** The state in which [execute] enters the function *)
Definition at_entry : ctx :=
  set_as_index (wrap 32 (WStack.size (_as c))) (set_os_index (wrap 32 (WStack.size (_os c))) c).

Lemma entry_bounds :
  Z.of_nat (length below0) + args0 + _remaining_call_depth c * maximum_stack m < 2 ^ 32 /\
  Z.of_nat (length below0 + length args) < 2 ^ 32 /\ small fs0.
Proof.
  pose proof (cl_operands _ _ Hc) as [Hm Hb]. pose proof (cl_frames _ _ Hc). pose proof (cl_depth _ _ Hc) as Hd.
  pose proof (Z.mul_nonneg_nonneg _ _ Hd Hm). unfold small. lia.
Qed.

Lemma entry_heights : (as_index at_entry, os_index at_entry) = heights0.
Proof.
  destruct entry_bounds as (_ & Hb & Hf). unfold small in Hf.
  pose proof (stk_index c below0 (conj (proj1 (cl_stacks _ _ Hc)) eq_refl)) as E1.
  pose proof (frames_index c fs0 (conj (proj2 (cl_stacks _ _ Hc)) eq_refl)) as E2.
  unfold at_entry, WStack.size. simpl. rewrite E1, E2, !wrap_small by (unfold in_u; lia). done.
Qed.

(** [push_call<true>] of a function whose frame counts as one *)
Lemma wp_push_call f l c1 (Q : unit -> ctx -> Prop) :
  Mod.get_function_type m f = Ret ft -> _remaining_call_depth c1 = _remaining_call_depth c ->
  frames c1 fs0 -> stk c1 l -> Z.of_nat (length l) < 2 ^ 32 -> (length (param_types ft) <= length l)%nat ->
  (forall s, WStack.wf s -> WStack.contents s = ActivationFrame PcHalt (_last_op_index c1) :: fs0 ->
     1 <= _remaining_call_depth c ->
     Q tt (set_last_op_index (Z.of_nat (length l) - Z.of_nat (length (param_types ft)))
             (set_as s (set_remaining_call_depth (_remaining_call_depth c - 1) c1)))) ->
  wp (push_call m true f) Q may_throw c1.
Proof.
  intros Hft Hd Hfr Hs Hl Hn HQ. destruct entry_bounds as (_ & _ & Hf). unfold small in Hf.
  unfold push_call. apply wp_bind, wp_gets, wp_bind, wp_ret, wp_bind.
  eapply wp_lift_Ret; [unfold Mod.get_function_stack_size; destruct (so_counted _ _ Hsound) as [_ ->]; done|].
  unfold enter_frame. apply wp_bind, wp_bind, wp_gets, wp_bind, wp_assertM; [intros Hle%Z.leb_le|done].
  apply wp_modify, wp_bind, wp_gets, wp_bind. eapply (wp_push_frame _ fs0); [exact Hfr|lia|]. intros s Hsw Hsc.
  apply wp_bind. eapply (wp_os_size l); [exact Hs|]. apply wp_bind. eapply wp_lift_Ret; [exact Hft|]. apply wp_modify.
  rewrite wrap_small by (unfold in_u; lia). rewrite Hd in Hle. rewrite Hd. by apply HQ.
Qed.

(** The state after [push_call], with the arguments on the stack *)
Record entering s c2 : Prop := Entering {
  pu_instance : instance_ok m c2;
  pu_stk : stk c2 (reverse args ++ below0);
  pu_frames : frames c2 (ActivationFrame PcHalt (_last_op_index c) :: fs0);
  pu_fixed : fixed c2 = (Z.of_nat (length below0), heights0.1, heights0.2);
  pu_depth : _remaining_call_depth c2 + 1 = _remaining_call_depth c /\ 0 <= _remaining_call_depth c2;
  pu_exiting : exiting c2 = false;
  pu_args : typed (reverse args) (rev (param_types ft)) /\ args0 = Z.of_nat (length (param_types ft));
  pu_store : _as c2 = s
}.

Lemma host_entry f s c2 :
  entering s c2 -> 0 <= f < imported -> Mod.get_function_type m f = Ret ft ->
  wp (call_host m _rhf f) (fun _ => ended) may_throw c2.
Proof.
  intros [Pi Ps Pf Px [Pd1 Pd2] Pe [Pa Pn] _] Hf Hft. destruct entry_bounds as (_ & Hsm & _).
  pose proof (so_imported options m Hsound) as Himp.
  destruct (nthZ_Some (import_functions m) f) as [h Hh]; [rewrite (so_linked _ _ Hsound), <- Himp; lia|].
  unfold call_host. apply wp_bind. eapply wp_lift_Ret; [by rewrite Hh|].
  eapply wp_mono; [apply (Hhosts f ft h Hf Hft Hh c2 (reverse args) below0 _ Pi Pf Ps); [|exact Pa|exact Pe]| |done].
  { unfold small. rewrite length_app, length_reverse. lia. }
  intros [] c' (Hi' & Hf' & Hx' & Hres). rewrite Px in Hx'. injection Hx' as _ H1 H2. split.
  - by rewrite H1, H2.
  - exact Hi'.
  - destruct Hres as [(_ & He & lr & Hlr & Hs')|(_ & He & l & Hs')].
    + exists lr, [ActivationFrame PcHalt (_last_op_index c)]. by split_and!.
    + exists l, [ActivationFrame PcHalt (_last_op_index c)]. split_and!; [done|done|]. by rewrite He.
  - intros _ E. rewrite Himp, E in Hf. simpl in Hf. lia.
Qed.

Lemma body_entry f f' s c2 :
  entering s c2 -> valid_function m f' -> fi_type f' = ft -> defined_function m f ft (fi_body f') 1 ->
  wp (setup_locals m f) (fun _ => running) may_throw (set_pc (Pc (fb_code (fi_body f'))) c2).
Proof.
  intros [Pi Ps Pf Px [Pd1 Pd2] Pe [Pa Pn] _] Hf' Hty Hdef. destruct entry_bounds as (Hbound & Hsm & _).
  pose proof (zero_locals_typed _ (vf_entries _ _ Hf')) as Hz. pose proof (typed_length _ _ Hz) as Hzl.
  pose proof (vf_typed _ _ Hf') as Hcode. pose proof (vf_room _ _ Hf') as Hroom. unfold total in Hroom.
  pose proof (fy_range _ _ _ _ _ _ _ Hcode 0 [] (fy_start _ _ _ _ _ _ _ Hcode)) as [_ Hd0]. simpl in Hd0.
  assert (Hm : 1 * maximum_stack m <= _remaining_call_depth c * maximum_stack m).
  { apply Z.mul_le_mono_nonneg_r; [apply (cl_operands _ _ Hc)|lia]. }
  eapply (wp_setup_locals m f (fi_body f') (reverse args ++ below0));
    [exact (df_body _ _ _ _ _ Hdef)|exact (df_locals _ _ _ _ _ Hdef)|exact Ps| |].
  { rewrite length_app, length_reverse. lia. }
  intros os Hw Hcn.
  exists f', (ActivationFrame PcHalt (_last_op_index c) :: fs0), (reverse (zero_locals (fb_locals (fi_body f'))) ++ reverse args), below0, 1, 0, [].
  split; try done; simpl.
  - rewrite Hty. unfold params. rewrite Hty, <- Pn. apply sus_entry.
  - unfold fi_locals, all_locals. rewrite rev_app_distr. apply typed_app; [by apply typed_reverse|by rewrite Hty].
  - apply (fy_start _ _ _ _ _ _ _ Hcode).
  - by rewrite Z.add_0_r.
  - rewrite <- app_assoc. by split.
Qed.

(** The arguments are pushed, and the function is entered. *)
Lemma prologue_runs f :
  0 <= f -> Mod.get_function_type m f = Ret ft ->
  wp (execute_prologue m _rhf f args) (fun _ c' => if f <? imported then ended c' else running c') may_throw at_entry.
Proof.
  intros Hf Hft. destruct entry_bounds as (Hbound & Hsm & Hfs). unfold small in Hfs.
  pose proof (cl_stacks _ _ Hc) as [Hos Has]. pose proof (cl_values _ _ Hc) as [Hv0 Hva].
  unfold execute_prologue. apply wp_bind. eapply wp_lift_Ret; [exact Hft|]. apply wp_bind, wp_lift.
  unfold type_check_args, EOS_VM_ASSERT. destruct (Z.eqb_spec (Z.of_nat (length args)) (Z.of_nat (length (param_types ft)))) as [Hn|]; [|done].
  simpl. destruct (bool_decide _) eqn:Hty; [|done]. apply bool_decide_eq_true in Hty. apply wp_bind.
  eapply (wp_push_all args at_entry below0); [by split|lia|]. intros os Hw Hcn. apply wp_bind.
  assert (Htyped : typed (reverse args) (rev (param_types ft))) by (apply typed_reverse; by split).
  assert (Hla : length (reverse args) = length (param_types ft)) by (rewrite length_reverse; lia).
  eapply (wp_push_call f (reverse args ++ below0)); [exact Hft|done|by split|by split|rewrite length_app; lia|rewrite length_app; lia|].
  intros s Hsw Hsc Hd1. set (c2 := set_last_op_index _ _). pose proof entry_heights as Hh.
  assert (Hpushed : entering s c2).
  { destruct Hc as [Ci _ _ Ce _ _ _]. split; try done.
    - rewrite <- Hh. unfold c2, fixed. simpl. rewrite length_app, Hla. f_equal. f_equal. lia.
    - unfold c2. simpl. lia. }
  destruct (Z.ltb_spec f imported) as [Hlt|Hge].
  - eapply wp_mono; [by apply (host_entry f s c2)|by intros [] c' H'|done].
  - apply wp_bind. destruct (so_function options m Hsound f ft Hge Hft) as (f' & Hf' & Hft' & Hdef).
    eapply wp_lift_Ret; [by apply (df_pc _ _ _ _ _ Hdef)|]. apply wp_bind, wp_modify.
    by eapply (body_entry f f' s c2).
Qed.

(** The stacks as [execute] found them *)
Definition restored (c' : ctx) : Prop :=
  given_back c c' /\ WStack.wf (_os c') /\ WStack.contents (_os c') = below0 /\
  WStack.wf (_as c') /\ WStack.contents (_as c') = fs0 /\ instance_ok m c'.

Lemma restore_ended rs c1 : RunTyping.ended m below0 fs0 rs heights0 c1 -> restored (restore c c1).
Proof.
  intros [Eh Ei (l & k & [Ow Oc] & [Aw Ac] & _) _]. rewrite <- entry_heights in Eh.
  destruct entry_bounds as (_ & Hb & Hf). unfold small in Hf. pose proof (cl_stacks _ _ Hc) as [Hos Has].
  pose proof (WStack.contents_length _ Hos) as Lo. pose proof (WStack.contents_length _ Has) as La.
  pose proof (WStack.contents_length _ Ow) as Lo1. pose proof (WStack.contents_length _ Aw) as La1.
  split; [apply restore_gives_back; [unfold in_u, WStack.size; lia|unfold in_u, WStack.size; lia|exact Eh]|].
  rewrite entry_heights in Eh. injection Eh as E1 E2. rewrite Oc, length_app in Lo1. rewrite Ac, length_app in La1.
  destruct (WStack.contents_eat (os_index c1) (_os c1) Ow ltac:(lia)) as [W1 C1].
  destruct (WStack.contents_eat (as_index c1) (_as c1) Aw ltac:(lia)) as [W2 C2].
  simpl. split_and!; [exact W1| |exact W2| |exact Ei].
  - rewrite C1, Oc. apply drop_app_length'. lia.
  - rewrite C2, Ac. apply drop_app_length'. lia.
Qed.

(** The result of a call *)
Definition result_typed (v : option operand_stack_elem) : Prop :=
  match v with
  | Some e => results ft = [elem_type e] /\ value_ok e
  | None => results ft = [] \/ imports m <> []
  end.

Lemma epilogue_runs f c1 :
  Mod.get_function_type m f = Ret ft -> proper ft -> ended c1 ->
  wp (execute_epilogue m f) (fun v c2 => result_typed v /\ exists rs, RunTyping.ended m below0 fs0 rs heights0 c2) may_throw c1.
Proof.
  intros Hft Hp He. pose proof (results_length ft Hp) as Hl. pose proof He as [Eh Ei (l & k & Hs & Hf & Ht) Ex].
  unfold execute_epilogue. apply wp_bind. eapply wp_lift_Ret; [exact Hft|]. apply wp_bind, wp_gets.
  destruct (Z.eqb_spec (return_count ft) 0) as [E0|E0]; simpl.
  { apply wp_ret. split; [left; by apply nil_length_inv; lia|by exists (results ft)]. }
  destruct (exiting c1) eqn:Hex; simpl; [apply wp_ret; split; [right; by apply Ex|by exists (results ft)]|].
  destruct (Ht eq_refl) as [Ht1 Ht2]. unfold results in Ht1. apply Z.eqb_neq in E0. rewrite E0 in Ht1.
  destruct l as [|e [|? ?]]; try discriminate Ht1. apply wp_bind. eapply (wp_pop e); [exact Hs|].
  intros os Hw Hcn. apply wp_ret. split.
  - simpl. unfold results. rewrite E0. split; [by rewrite <- Ht1|by inversion Ht2].
  - exists []. split; [exact Eh|exact Ei| |intros Hx; simpl in Hx; congruence]. exists [], k. by split_and!.
Qed.
End One.

(** A call of [execute] *)
Lemma execute_ok fuel f args c r c' :
  callable args c -> 0 <= f -> execute m _rhf fuel f args c = Some (r, c') ->
  match r with
  | Ret v => exists ft, Mod.get_function_type m f = Ret ft /\ result_typed ft v /\ restored c c'
  | Throw _ => True
  | UB _ => False
  end.
Proof.
  intros Hc Hf E. unfold execute in E. destruct (negb _); [by injection E as <- <-|]. fold (at_entry c) in E.
  pose proof (function_type_safe options m f (mv_types _ _ (so_valid _ _ Hsound)) (mv_imports _ _ (so_valid _ _ Hsound)) Hf) as Hty.
  destruct (Mod.get_function_type m f) as [ft|e|w] eqn:Hft; [| |done].
  2: { unfold execute_prologue, mbind, M_bind, lift in E. rewrite Hft in E. by injection E as <- <-. }
  pose proof (so_type _ _ Hsound _ _ Hf Hft) as Hp. pose proof (prologue_runs args c Hc ft f Hf Hft) as Hpro.
  destruct (entry_bounds _ _ Hc) as (Hb & _ & _).
  pose proof (cl_frames _ _ Hc) as Hb2. pose proof (proj1 (cl_values _ _ Hc)) as Hv0.
  unfold wp in Hpro. destruct (execute_prologue _ _ _ _ _) as [[[]|e|w] c1]; [|by injection E as <- <-|done].
  assert (Hend : forall c2, RunTyping.ended m (WStack.contents (_os c)) (WStack.contents (_as c)) (results ft)
      (Z.of_nat (length (WStack.contents (_as c))), Z.of_nat (length (WStack.contents (_os c)))) c2 ->
    (let '(r, c3) := execute_epilogue m f c2 in Some (r, restore c c3)) = Some (r, c') ->
    match r with
    | Ret v => exists ft', Ret ft = Ret ft' /\ result_typed ft' v /\ restored c c'
    | Throw _ => True
    | UB _ => False
    end).
  { intros c2 He E2. pose proof (epilogue_runs c ft f c2 Hft Hp He) as Hepi. unfold wp in Hepi.
    destruct (execute_epilogue m f c2) as [[v|e|w] c3]; injection E2 as <- <-; [|done|done].
    destruct Hepi as [Hr [rs He3]]. exists ft. split_and!; [done|exact Hr|]. by eapply (restore_ended args c Hc). }
  destruct (f <? imported); [by eapply Hend|].
  destruct (execute_loop m _rhf fuel c1) as [[r2 c2]|] eqn:El; [|done].
  eapply (loop_safe options m _rhf Hsound Hhosts) in El; [|exact Hb|exact Hb2|exact Hv0|by left].
  destruct El as [[-> [_ He]]|[e ->]]; [by eapply Hend|by injection E as <- <-].
Qed.
End Entry.

(** ** Modules of the parser *)
Section Parsed.
Context `{sys : Sys} {Hok : SysOk sys} (options : Opt.t).
Context (Hend : Opt.allow_code_after_function_end options = false) (Hbytes : Opt.max_stack_bytes options = None).

Lemma parse_wasm_counted bs a p :
  parse_wasm (W := BitcodeWriter.t) options bs empty_module a = Ret p -> stack_limit_is_bytes (pr_mod p) = false.
Proof.
  unfold parse_wasm, parse_module. intros H. apply bind_Ret in H as ([p' q] & H & [= <-]).
  repeat (apply bind_Ret in H as ([] & _ & H)). injection H as <- _. simpl. by rewrite Hbytes.
Qed.

Lemma parse_wasm_sound bs a p fs :
  Growable._capacity a <= Growable.max_memory_size -> bytes bs ->
  parse_wasm (W := BitcodeWriter.t) options bs empty_module a = Ret p ->
  length fs = length (imports (pr_mod p)) -> avoids_defects (with_import_functions fs (pr_mod p)) = true ->
  sound_module options (with_import_functions fs (pr_mod p)).
Proof.
  intros Ha Hbs Hp Hl Hav. pose proof (compiled_of_code options a Hend Ha) as HK.
  pose proof (parse_wasm_known options a (compiled_module options) HK bs Hbs) as H. rewrite Hp in H. destruct H as [Hv Hcm].
  split; [by apply valid_import_functions| |split; [exact Hbytes|by eapply parse_wasm_counted]|exact Hav|exact Hl].
  by eapply (compiled_module_same options (pr_mod p)).
Qed.

Lemma parse_module_arena bs p :
  parse_module (W := BitcodeWriter.t) options bs empty_module Growable.empty = Ret p ->
  exists a, Growable._capacity a <= Growable.max_memory_size /\
    parse_wasm (W := BitcodeWriter.t) options bs empty_module a = Ret p.
Proof.
  unfold parse_module. intros H. apply bind_Ret in H as ([u a] & H1 & H). exists a. split; [|exact H].
  unfold run, Growable.use_default_memory, mbind, M_bind, gets, assertM, modify in H1. simpl in H1.
  destruct (mmap_ok _); simpl in H1; [|done]. injection H1 as _ <-. simpl. lia.
Qed.
End Parsed.

(** ** Contexts that have been initialised *)
Lemma elem_image_forall (P : table_entry -> Prop) segs tb :
  Forall (fun s => Forall P (es_elems s)) segs -> Forall P tb -> Forall P (elem_image segs tb).
Proof.
  unfold elem_image. intros H. revert tb. induction H as [|s segs Hs _ IH]; intros tb Ht; [done|].
  simpl. apply IH. destruct (es_mode s); [by apply Forall_list_inserts|done|done].
Qed.

Section Fresh.
Context `{sys : Sys} {Hok : SysOk sys} (options : Opt.t) (m : module) (Hsound : sound_module options m).

Lemma fresh_instance c0 c : fresh m c0 c -> instance_ok m c.
Proof.
  intros [_ _ _ Hg Hd Hm Ht]. pose proof (so_valid _ _ Hsound) as Hv. split.
  - destruct (mv_memories _ _ Hv) as [_ Hl]. unfold memory_inv, wasm_alloc_wf. change WasmAlloc.max_pages with 65536.
    destruct (memories m) as [|mem mems]; [by rewrite Hm|]. inversion Hl as [|? ? [[H1 H2] _]]; subst.
    destruct Hm as [-> _]. lia.
  - rewrite Hg, length_fmap. split; [done|]. apply Forall_fmap.
    eapply Forall_impl; [|exact (mv_globals _ _ Hv)]. intros g (_ & _ & H). exact H.
  - intros t ts E. rewrite E in Ht. destruct Ht as [-> ->]. destruct (mv_tables _ _ Hv) as [_ Hl]. rewrite E in Hl.
    inversion Hl as [|? ? [_ [Hi _]]]; subst. split_and!.
    + rewrite length_elem_image, length_replicate. lia.
    + apply elem_image_forall; [exact (so_elements _ _ Hsound)|]. apply Forall_replicate. by vm_compute.
    + apply length_fmap.
  - rewrite Hd. apply length_fmap.
Qed.

Lemma fresh_callable c0 c args :
  fresh m c0 c -> Forall value_ok args -> 0 <= _remaining_call_depth c < 2 ^ 32 -> 0 <= maximum_stack m ->
  Z.of_nat (length args) + _remaining_call_depth c * maximum_stack m < 2 ^ 32 -> callable m args c.
Proof.
  intros Hf Ha Hd Hm Hb. pose proof Hf as [[Ow Oc] [Aw Ac] [_ He] _ _ _ _].
  split; try done; rewrite ?Oc, ?Ac; simpl; try lia; [by eapply fresh_instance|by split].
Qed.
End Fresh.

Lemma exported_index options m name : module_valid options m -> 0 <= Mod.get_exported_function m name.
Proof.
  intros Hv. unfold Mod.get_exported_function. destruct (List.find _ _) as [e|] eqn:E; [|done].
  apply find_some in E as [Hin _]. destruct (mv_exports _ _ Hv) as [Hf _].
  rewrite Forall_forall in Hf. by destruct (Hf e Hin).
Qed.

Lemma callable_again m args c c' : callable m args c -> restored m c c' -> callable m args c'.
Proof.
  intros [Hi Hs Hv He Hd Ho Hf] ((_ & _ & _ & E1 & _ & E2 & _) & W1 & C1 & W2 & C2 & Hi').
  split; rewrite ?C1, ?C2, ?E1, ?E2; done.
Qed.

(** ** Constructed backends *)
Lemma constructed_ok `{sys : Sys} {Hok : SysOk sys} {Hsucc : SysSucceeds sys} `{sf : Softfloat}
    options (regs : list (registration (M ctx unit))) bs wa fuel b args :
  Opt.allow_code_after_function_end options = false -> Opt.max_stack_bytes options = None ->
  Z.of_nat (length regs) <= 2 ^ 32 -> bytes bs -> wasm_alloc_wf wa ->
  (forall p, Backend.parse_module (W := BitcodeWriter.t) options bs empty_module Growable.empty = Ret p ->
     start (pr_mod p) = Mod.uint32_max) ->
  backend_of_code (W := BitcodeWriter.t) (Some (register regs)) interpreter bs (Some wa) options fuel = Some (Ret b) ->
  avoids_defects (b_mod b) = true -> registered_typed (b_mod b) regs ->
  Forall value_ok args -> 0 <= Opt.max_call_depth options < 2 ^ 32 -> 0 <= maximum_stack (b_mod b) ->
  Z.of_nat (length args) + Opt.max_call_depth options * maximum_stack (b_mod b) < 2 ^ 32 ->
  sound_module options (b_mod b) /\ hosts_typed (b_mod b) (Backend._rhf (Some (register regs))) /\
  exists c, b_ctx b = Some (Context (Some (b_mod b)) c) /\ callable (b_mod b) args c.
Proof.
  intros Hend Hbytes Hregs Hbs Hwa Hst Hb Hav Hreg Hargs Hd Hm Hroom.
  destruct (backend_of_code_ready options regs Hregs bs wa fuel Hbs Hwa Hst) as (o & E2 & Ho).
  rewrite Hb in E2. injection E2 as <-. destruct Ho as [Hready (p & Hp & fs & c & Hmod & Hctx & Hfresh & Hdep)].
  destruct (parse_module_arena options bs p Hp) as (a & Ha & Hpw).
  assert (Hs : sound_module options (b_mod b)).
  { rewrite Hmod in *. eapply (parse_wasm_sound options Hend Hbytes bs a p); try done.
    destruct Hready as [_ Hl _]. rewrite Hmod in Hl. by apply Forall2_length in Hl. }
  split; [exact Hs|]. split; [apply linked_hosts_typed; [exact Hreg|exact (rd_linked _ _ _ _ Hready)]|].
  exists c. split; [exact Hctx|]. unfold choose_stack_limit in Hdep. rewrite Hbytes in Hdep.
  eapply (fresh_callable options); try done; rewrite Hdep; lia.
Qed.

(** ** Claims *)

(** C3. A call of a function of a module that the parser compiled and the backend
    linked never has undefined behaviour, as long as the module stays away from the
    known defects ([avoids_defects]): with arguments of any types, on any state in
    which the instance is in order and the stacks have room for the calls the depth
    allows, and with host functions that keep to their types, a run that ends either
    throws or returns, and then the result is a value of the function's result type
    (nothing for a function without a result or after an [exit]), the memory, the
    globals, the table and the flags of the segments are in order again, and both
    stacks, the depth, the program counter and the frame base are as the call found
    them. *)
Theorem execute_sound `{sys : Sys} {Hok : SysOk sys} `{sf : Softfloat} options m _rhf fuel f args c r c' :
  sound_module options m -> hosts_typed m _rhf -> callable m args c -> 0 <= f ->
  execute m _rhf fuel f args c = Some (r, c') ->
  (exists e, r = Throw e) \/
  (exists v ft, r = Ret v /\ Mod.get_function_type m f = Ret ft /\ result_typed m ft v /\ restored m c c').
Proof.
  intros Hs Hh Hc Hf E. pose proof (execute_ok options m _rhf Hs Hh fuel f args c r c' Hc Hf E) as H.
  destruct r as [v|e|w]; [|left; by exists e|done]. destruct H as (ft & Hft & Hr & Hre). right. by exists v, ft.
Qed.

(** C1. From bytes to results: a backend made of any bytes by the parser, the linker and
    the instantiation (a module without a start function, options without code behind
    the end of a function and with a counted call depth) whose module stays away from the
    known defects and whose registered functions keep to their types, when the operands of
    all the calls the depth allows fit in 32 bits, never has undefined
    behaviour when an exported function is called by name: a call that ends throws, or
    returns a value of the type of the function exported under that name, and leaves a
    backend of the same module that can be called again. *)
Theorem constructed_backend_sound `{sys : Sys} {Hok : SysOk sys} {Hsucc : SysSucceeds sys} `{sf : Softfloat}
    options (regs : list (registration (M ctx unit))) bs wa fuel b n name args r b' :
  Opt.allow_code_after_function_end options = false -> Opt.max_stack_bytes options = None ->
  Z.of_nat (length regs) <= 2 ^ 32 -> bytes bs -> wasm_alloc_wf wa ->
  (forall p, Backend.parse_module (W := BitcodeWriter.t) options bs empty_module Growable.empty = Ret p ->
     start (pr_mod p) = Mod.uint32_max) ->
  backend_of_code (W := BitcodeWriter.t) (Some (register regs)) interpreter bs (Some wa) options fuel = Some (Ret b) ->
  avoids_defects (b_mod b) = true -> registered_typed (b_mod b) regs ->
  Forall value_ok args -> 0 <= Opt.max_call_depth options < 2 ^ 32 -> 0 <= maximum_stack (b_mod b) ->
  Z.of_nat (length args) + Opt.max_call_depth options * maximum_stack (b_mod b) < 2 ^ 32 ->
  call_with_return (Some (register regs)) n name args b = Some (r, b') ->
  (exists e, r = Throw e) \/
  (exists v ft c', r = Ret v /\
     Mod.get_function_type (b_mod b) (Mod.get_exported_function (b_mod b) name) = Ret ft /\
     result_typed (b_mod b) ft v /\
     b' = set_b_ctx (Some (Context (Some (b_mod b)) c')) b /\ callable (b_mod b) args c').
Proof.
  intros Hend Hbytes Hregs Hbs Hwa Hst Hb Hav Hreg Hargs Hd Hm Hroom E.
  destruct (constructed_ok options regs bs wa fuel b args Hend Hbytes Hregs Hbs Hwa Hst Hb Hav Hreg Hargs Hd Hm Hroom)
    as (Hs & Hh & c & Hctx & Hc).
  unfold call_with_return, on_context in E. rewrite Hctx in E. unfold execute_name in E.
  destruct (execute _ _ _ _ _ _) as [[r0 c']|] eqn:Ee; [|done]. injection E as <- <-.
  pose proof (exported_index options _ name (so_valid _ _ Hs)) as Hf.
  pose proof (execute_ok options _ _ Hs Hh n _ args c r0 c' Hc Hf Ee) as H.
  destruct r0 as [v|e|w]; [|left; by exists e|done]. destruct H as (ft & Hft & Hr & Hre).
  right. exists v, ft, c'. split_and!; try done. by eapply callable_again.
Qed.

(** ** Witnesses *)
#[local] Existing Instances linux reference_softfloat.

(** The registered function does nothing. *)
Lemma one_function_typed m : registered_typed m one_function.
Proof.
  constructor; [|constructor]. intros ft Hsig. apply (create_function_typed m None []); [constructor| |exact Hsig].
  intros args l fs c Hi Hs Hf He. apply wp_bind, wp_ret, wp_ret. split_and!; try done. left. by split_and!.
Qed.

(** The backend of the module with its import, and a call of its export with 1 *)
Local Abbreviation example_backend :=
  (backend_of_code (W := BitcodeWriter.t) (Some (register one_function)) interpreter no_start (Some new_memory) default_options 0).

Lemma example_start p :
  Backend.parse_module (W := BitcodeWriter.t) default_options no_start empty_module Growable.empty = Ret p ->
  start (pr_mod p) = Mod.uint32_max.
Proof.
  intros Hp.
  assert (E : match Backend.parse_module (W := BitcodeWriter.t) default_options no_start empty_module Growable.empty with
    | Ret p => bool_decide (start (pr_mod p) = Mod.uint32_max) | _ => true end = true) by (vm_compute; reflexivity).
  rewrite Hp in E. by apply bool_decide_eq_true in E.
Qed.

Lemma example_avoids b : example_backend = Some (Ret b) -> avoids_defects (b_mod b) = true /\ maximum_stack (b_mod b) = 3.
Proof.
  intros Hb. assert (E : match example_backend with
    | Some (Ret b) => avoids_defects (b_mod b) && (maximum_stack (b_mod b) =? 3) | _ => true end = true) by (vm_compute; reflexivity).
  rewrite Hb in E. apply andb_true_iff in E as [E1 E2]. split; [exact E1|]. by apply Z.eqb_eq.
Qed.

Lemma example_args : Forall value_ok [i32_const_t 1].
Proof. constructor; [by vm_compute|constructor]. Qed.

Lemma example_room b : maximum_stack (b_mod b) = 3 -> 0 <= maximum_stack (b_mod b) /\
  Z.of_nat (length [i32_const_t 1]) + Opt.max_call_depth default_options * maximum_stack (b_mod b) < 2 ^ 32.
Proof. intros ->. by vm_compute. Qed.

Lemma constructed_backend_sound_witness :
  exists b r b', example_backend = Some (Ret b) /\
    call_with_return (Some (register one_function)) 100 [109] [i32_const_t 1] b = Some (r, b') /\
    ((exists e, r = Throw e) \/
     (exists v ft c', r = Ret v /\
        Mod.get_function_type (b_mod b) (Mod.get_exported_function (b_mod b) [109]) = Ret ft /\
        result_typed (b_mod b) ft v /\
        b' = set_b_ctx (Some (Context (Some (b_mod b)) c')) b /\ callable (b_mod b) [i32_const_t 1] c')).
Proof.
  destruct example_backend as [[b|e|w]|] eqn:Eb; [|exfalso; vm_compute in Eb; discriminate Eb..].
  assert (Er : match example_backend with
    | Some (Ret b) => match call_with_return (Some (register one_function)) 100 [109] [i32_const_t 1] b with
        | Some (Ret _, _) => true | _ => false end
    | _ => false end = true) by (vm_compute; reflexivity).
  rewrite Eb in Er. destruct (call_with_return _ 100 [109] _ b) as [[r b']|] eqn:Ec; [|discriminate Er].
  exists b, r, b'. split; [reflexivity|]. split; [exact Ec|].
  destruct (example_avoids b Eb) as [Ha Hm].
  eapply (constructed_backend_sound default_options one_function no_start new_memory 0 b 100 [109] [i32_const_t 1]).
  - reflexivity.
  - reflexivity.
  - simpl. lia.
  - by_compute.
  - vm_compute. split; congruence.
  - exact example_start.
  - exact Eb.
  - exact Ha.
  - apply one_function_typed.
  - exact example_args.
  - vm_compute. split; congruence.
  - exact (proj1 (example_room b Hm)).
  - exact (proj2 (example_room b Hm)).
  - exact Ec.
Defined.

Lemma execute_sound_witness :
  exists b c r c', example_backend = Some (Ret b) /\ b_ctx b = Some (Context (Some (b_mod b)) c) /\
    execute (b_mod b) (Backend._rhf (Some (register one_function))) 100 1 [i32_const_t 1] c = Some (r, c') /\
    ((exists e, r = Throw e) \/
     (exists v ft, r = Ret v /\ Mod.get_function_type (b_mod b) 1 = Ret ft /\ result_typed (b_mod b) ft v /\
        restored (b_mod b) c c')).
Proof.
  destruct example_backend as [[b|e|w]|] eqn:Eb; [|exfalso; vm_compute in Eb; discriminate Eb..].
  destruct (example_avoids b Eb) as [Ha Hm].
  destruct (constructed_ok default_options one_function no_start new_memory 0 b [i32_const_t 1]) as (Hs & Hh & c & Hc1 & Hc2).
  { reflexivity. } { reflexivity. } { simpl. lia. } { by_compute. } { vm_compute. split; congruence. }
  { exact example_start. } { exact Eb. } { exact Ha. } { apply one_function_typed. } { exact example_args. }
  { vm_compute. split; congruence. } { exact (proj1 (example_room b Hm)). } { exact (proj2 (example_room b Hm)). }
  assert (Er : match example_backend with
    | Some (Ret b) => match b_ctx b with
        | Some (Context (Some m) c) =>
            match execute m (Backend._rhf (Some (register one_function))) 100 1 [i32_const_t 1] c with
            | Some (Ret _, _) => true | _ => false end
        | _ => false end
    | _ => false end = true) by (vm_compute; reflexivity).
  rewrite Eb, Hc1 in Er. destruct (execute _ _ 100 1 _ c) as [[r c']|] eqn:Ec; [|discriminate Er].
  exists b, c, r, c'. split; [reflexivity|]. split; [exact Hc1|]. split; [exact Ec|].
  eapply (execute_sound default_options (b_mod b) (Backend._rhf (Some (register one_function))) 100 1 [i32_const_t 1]).
  - exact Hs.
  - exact Hh.
  - exact Hc2.
  - lia.
  - exact Ec.
Defined.
