(* ===== verification/Timed.v ===== *)
(** * Deadlines (backend.hpp [timed_run], watchdog.hpp, signals.hpp)

    A call under a watchdog involves the thread that makes the call and the
    watchdog's timer thread; several threads may run code of one shared module.
    When a timer expires, its callback sets the calling thread's flag and makes the
    pages of the module's code inaccessible, so that the next instruction faults.
    The system is a step relation over the threads' program points; the atomic
    flag and the mutex are sequentially consistent, and a critical section that
    contains one assignment is one step.  An instruction is fetched in one step, which
    needs the code to be accessible, and then executed in C++ or by the processor, which
    does not; this can return, throw, or go on to the next instruction.  A fetch of
    inaccessible code faults, and [signal_handler] decides what becomes of it. *)
From S2P Require Import Prelude.
From stdpp Require Import relations.

(** [watchdog::guard::state_t] *)
Inductive state_t : Type := running_ | interrupted | stopped.

(** How [f] ends in [timed_run], and how [timed_run] ends *)
Inductive pending : Type := Finished | MemoryFault | OtherException.
Inductive ending : Type := Returned | Timeout | Threw_memory | Threw_other.

(** The calling thread: outside any [timed_run] (with the end of the last one); in
    [f], about to fetch an instruction, executing what was fetched (or code of [f] itself
    or of a host function), and after a fault of a fetch; at the lock and at the join of
    [~guard], behind the [try] block, and at the load, the [enable_code] and the store of
    [reenable_code]. *)
Inductive caller_pc : Type :=
  | Outside (last : option ending)
  | Running
  | Executing
  | Faulted
  | Stopping (p : pending)
  | Joining (p : pending)
  | Leaving (p : pending)
  | CheckFlag (e : ending)
  | Enabling (e : ending)
  | Clearing (e : ending).

(** The timer thread in [runner]: in [wait_until], then inside the critical section
    before and after the two statements of the callback, then done *)
Inductive timer_pc : Type := Waiting | Firing | Flagged | Disabled | Exited.

(** A thread with its [_timed_out] flag; [fired] and [executed] are ghosts: whether
    the deadline of the current or last call passed, and the instructions fetched. *)
Record thread : Type := Thread {
  caller : caller_pc;
  run_state : state_t;
  timer : timer_pc;
  timed_out : bool;
  fired : bool;
  executed : nat
}.

Definition idle : thread := Thread (Outside None) stopped Exited false false 0.

(** [_mutex] is held inside the timer's critical section. *)
Definition locked (t : timer_pc) : bool :=
  match t with Firing | Flagged | Disabled => true | Waiting | Exited => false end.

(** The [catch] clause of [timed_run] *)
Definition handler (p : pending) (timed_out : bool) : ending :=
  match p with
  | Finished => Returned
  | MemoryFault => if timed_out then Timeout else Threw_memory
  | OtherException => Threw_other
  end.

(** [signal_handler] on a fault in the code: without a timeout of this thread it returns,
    and the instruction is tried again; otherwise it jumps out, and [handle_signal] throws
    [wasm_memory_exception]. *)
Definition signal_handler (timed_out : bool) : caller_pc :=
  if timed_out then Stopping MemoryFault else Running.

(** A step of one thread; the [bool] says whether the code is accessible. *)
Inductive tstep : bool -> thread -> bool -> thread -> Prop :=
  (* timed_run, scoped_run and the constructor of guard *)
  | step_start b last s t flag f n :
      tstep b (Thread (Outside last) s t flag f n) b (Thread Executing running_ Waiting flag false n)
  (* an instruction is fetched, executed, and the next one is due *)
  | step_fetch s t flag f n :
      tstep true (Thread Running s t flag f n) true (Thread Executing s t flag f (S n))
  | step_next b s t flag f n :
      tstep b (Thread Executing s t flag f n) b (Thread Running s t flag f n)
  (* the fetch faults, and the signal is delivered *)
  | step_fault s t flag f n :
      tstep false (Thread Running s t flag f n) false (Thread Faulted s t flag f n)
  | step_signal b s t flag f n :
      tstep b (Thread Faulted s t flag f n) b (Thread (signal_handler flag) s t flag f n)
  (* what is executed returns from f or throws *)
  | step_finish b p s t flag f n :
      tstep b (Thread Executing s t flag f n) b (Thread (Stopping p) s t flag f n)
  (* ~guard *)
  | step_stop b p s t flag f n : locked t = false ->
      tstep b (Thread (Stopping p) s t flag f n) b (Thread (Joining p) stopped t flag f n)
  | step_join b p s flag f n :
      tstep b (Thread (Joining p) s Exited flag f n) b (Thread (Leaving p) s Exited flag f n)
  (* the catch clause, then reenable_code *)
  | step_leave b p s t flag f n :
      tstep b (Thread (Leaving p) s t flag f n) b (Thread (CheckFlag (handler p flag)) s t flag f n)
  | step_check b e s t flag f n :
      tstep b (Thread (CheckFlag e) s t flag f n) b
        (Thread (if flag then Enabling e else Outside (Some e)) s t flag f n)
  | step_enable b e s t flag f n :
      tstep b (Thread (Enabling e) s t flag f n) true (Thread (Clearing e) s t flag f n)
  | step_clear b e s t flag f n :
      tstep b (Thread (Clearing e) s t flag f n) b (Thread (Outside (Some e)) s t false f n)
  (* runner: the time is over, or the guard is being destroyed *)
  | step_expire b c flag f n :
      tstep b (Thread c running_ Waiting flag f n) b (Thread c interrupted Firing flag true n)
  | step_cancel b c flag f n :
      tstep b (Thread c stopped Waiting flag f n) b (Thread c stopped Exited flag f n)
  (* the callback and the end of runner *)
  | step_flag b c s flag f n :
      tstep b (Thread c s Firing flag f n) b (Thread c s Flagged true f n)
  | step_disable b c s flag f n :
      tstep b (Thread c s Flagged flag f n) false (Thread c s Disabled flag f n)
  | step_exit b c s flag f n :
      tstep b (Thread c s Disabled flag f n) b (Thread c s Exited flag f n).

(** ** The system: a shared module and the threads *)
Record system : Type := System { enabled : bool; threads : list thread }.

Inductive step (i : nat) : system -> system -> Prop :=
  | step_thread b b' l t t' : l !! i = Some t -> tstep b t b' t' ->
      step i (System b l) (System b' (<[i := t']> l)).

Definition any_step (s s' : system) : Prop := exists i, step i s s'.
Definition initial (n : nat) : system := System true (replicate n idle).
Definition reachable (n : nat) (s : system) : Prop := rtc any_step (initial n) s.

(** ** Invariants *)

(** The guard of the current call has been destroyed, or there is none. *)
Definition joined (c : caller_pc) : bool :=
  match c with Running | Executing | Faulted | Stopping _ | Joining _ => false | _ => true end.

Record thread_ok (t : thread) : Prop := ThreadOk {
  ok_joined : joined (caller t) = true -> timer t = Exited;
  ok_flag : match timer t with
            | Waiting => timed_out t = false /\ fired t = false
            | Firing => timed_out t = false /\ fired t = true
            | Flagged | Disabled => timed_out t = true /\ fired t = true
            | Exited => match caller t with Outside _ => timed_out t = false | _ => timed_out t = fired t end
            end;
  ok_stopped : match caller t with
               | Joining _ => run_state t = stopped /\ locked (timer t) = false
               | Running | Executing | Faulted | Stopping _ => timer t = Waiting -> run_state t = running_
               | _ => True
               end;
  ok_running : match caller t with
               | Running | Executing | Faulted | Stopping _ => timer t = Exited -> fired t = true
               | _ => True
               end;
  ok_ending : match caller t with
              | CheckFlag Timeout | Enabling Timeout | Clearing Timeout | Outside (Some Timeout) => fired t = true
              | CheckFlag Threw_memory | Enabling Threw_memory | Clearing Threw_memory
              | Outside (Some Threw_memory) => fired t = false
              | _ => True
              end;
  ok_enabling : match caller t with Enabling _ | Clearing _ => timed_out t = true | _ => True end
}.

(** The thread's callback has disabled the code and the thread has not enabled it
    again. *)
Definition owes (t : thread) : bool :=
  match timer t, caller t with
  | Disabled, _ => true
  | Exited, Clearing _ => false
  | Exited, _ => timed_out t
  | _, _ => false
  end.

(** Case analysis on the program points a hypothesis or the goal depends on *)
Ltac points :=
  repeat match goal with
  | H : context [match ?x with _ => _ end] |- _ => is_var x; destruct x; simpl in *
  | |- context [match ?x with _ => _ end] => is_var x; destruct x; simpl in *
  end.

Lemma tstep_ok b t b' t' : tstep b t b' t' -> thread_ok t -> thread_ok t'.
Proof. intros H [H1 H2 H3 H4 H5 H6]. destruct H; simpl in *; split; simpl in *; unfold handler, signal_handler in *; points; intuition congruence. Qed.

Record system_ok (s : system) : Prop := SystemOk {
  sys_threads : Forall thread_ok (threads s);
  sys_owed : enabled s = false -> Exists (fun t => owes t = true) (threads s)
}.

Lemma owes_kept b t b' t' :
  tstep b t b' t' -> thread_ok t -> owes t = true -> b' = true \/ owes t' = true.
Proof. intros H [H1 H2 H3 H4 H5 H6]. unfold owes. destruct H; unfold signal_handler in *; simpl in *; points; intuition congruence. Qed.
Lemma owes_made t t' : tstep true t false t' -> owes t' = true.
Proof. inversion 1; subst. by destruct c. Qed.
(** While a thread owes the code to the others and is alone, nobody enables it. *)
Lemma alone_owes b t b' t' :
  tstep b t b' t' -> thread_ok t -> (owes t = true -> b = false) -> owes t' = true -> b' = false.
Proof. intros H [H1 H2 H3 H4 H5 H6]. unfold owes. destruct H; unfold signal_handler in *; simpl in *; points; intuition congruence. Qed.

Lemma step_ok s s' : any_step s s' -> system_ok s -> system_ok s'.
Proof.
  intros [i [b b' l t t' Hi Ht]] [Hok How]. simpl in *. pose proof (Forall_lookup_1 _ _ _ _ Hok Hi) as Hti. split; simpl.
  - apply Forall_insert; [done|]. by eapply tstep_ok.
  - intros ->. apply Exists_exists. pose proof (lookup_lt_Some _ _ _ Hi).
    assert (Hself : owes t' = true -> exists x, x ∈ <[i:=t']> l /\ owes x = true).
    { intros Ho. exists t'. split; [|done]. apply list_elem_of_lookup. exists i. by apply list_lookup_insert_eq. }
    destruct b; [by eapply Hself, owes_made|]. destruct (proj1 (Exists_exists _ _) (How eq_refl)) as (u & Hu & Ho).
    apply list_elem_of_lookup in Hu as [j Hj]. destruct (decide (i = j)) as [<-|Hne].
    + simplify_eq. destruct (owes_kept _ _ _ _ Ht Hti Ho); [done|auto].
    + exists u. split; [|done]. apply list_elem_of_lookup. exists j. by rewrite list_lookup_insert_ne.
Qed.

Lemma reachable_ok n s : reachable n s -> system_ok s.
Proof.
  unfold reachable. apply rtc_ind_r.
  - split; simpl; [|done]. apply Forall_replicate. by split.
  - intros s1 s2 _ Hs Hok. by eapply step_ok.
Qed.

(** The system of one thread *)
Lemma reachable_one s : reachable 1 s -> exists t, threads s = [t] /\ (owes t = true -> enabled s = false).
Proof.
  intros Hr. assert (H : reachable 1 s /\ exists t, threads s = [t] /\ (owes t = true -> enabled s = false)); [|apply H].
  unfold reachable in Hr. revert s Hr. apply rtc_ind_r.
  - split; [constructor|]. by exists idle.
  - intros s1 s2 _ Hs [Hr (t & Hl & Ho)]. split; [by eapply rtc_r|].
    destruct (reachable_ok _ _ Hr) as [Hok _]. destruct Hs as [i Hs]. inversion Hs as [b b' l u u' Hi Ht]; subst. simpl in *. subst l.
    destruct i as [|i]; [|done]. simpl in Hi. simplify_eq. exists u'. split; [done|].
    inversion Hok; subst. intros Hu. by eapply alone_owes.
Qed.

Definition outside (t : thread) : Prop := match caller t with Outside _ => True | _ => False end.

(** C10. Any number of threads under deadlines on a shared module, in any
    interleaving: when no thread is in [timed_run] the code is accessible again; a
    thread's [timed_run] throws [timeout_exception] only if its own deadline has
    passed, and passes a [wasm_memory_exception] on only if it has not (a fault before the
    deadline counts as a timeout when the deadline passes before [~guard] is over); no
    flag survives its call; and once [~guard] is over the callback neither runs nor will
    run. *)
Theorem timed_run_sound n s :
  reachable n s ->
  (Forall outside (threads s) -> enabled s = true) /\
  Forall (fun t =>
    (caller t = Outside (Some Timeout) -> fired t = true) /\
    (caller t = Outside (Some Threw_memory) -> fired t = false) /\
    (outside t -> timed_out t = false) /\
    (joined (caller t) = true -> timer t = Exited)) (threads s).
Proof.
  intros Hr. destruct (reachable_ok n s Hr) as [Hok How]. split.
  - intros Hout. destruct (enabled s); [done|]. destruct (proj1 (Exists_exists _ _) (How eq_refl)) as (t & Ht & Ho).
    apply (proj1 (Forall_forall _ _) Hout) in Ht as Hto. apply (proj1 (Forall_forall _ _) Hok) in Ht as [H1 H2 _ _ _ _].
    unfold owes, outside in *. destruct t as [c r t fl f k]; simpl in *; points; intuition congruence.
  - eapply Forall_impl; [exact Hok|]. intros [c r t fl f k] [H1 H2 H3 H4 H5 H6]. unfold outside. simpl in *.
    split_and!; intros; subst; simpl in *; points; intuition congruence.
Qed.

(** ** The deadline of a single thread *)

(** Every run from the state gets to [P], and none is stuck before. *)
Inductive inevitably (P : system -> Prop) (s : system) : Prop :=
  | inevitably_now : P s -> inevitably P s
  | inevitably_later : (exists s', any_step s s') -> (forall s', any_step s s' -> inevitably P s') -> inevitably P s.

Lemma single_step b t s' : any_step (System b [t]) s' <-> exists b' t', s' = System b' [t'] /\ tstep b t b' t'.
Proof.
  split.
  - intros [i Hs]. inversion Hs as [b0 b' l u t' Hi Ht]; subst. destruct i as [|i]; [|done]. simpl in *. simplify_eq. eauto.
  - intros (b' & t' & -> & Ht). exists 0%nat. by eapply (step_thread 0 _ _ [t]).
Qed.

(** In the call under the deadline *)
Definition in_f (c : caller_pc) : bool := match c with Running | Executing | Faulted => true | _ => false end.
(** A call that ends with [timeout_exception] once its flag is set *)
Definition doomed (c : caller_pc) : Prop :=
  match c with
  | Running | Faulted => True
  | Executing | Outside _ => False
  | Stopping p | Joining p | Leaving p => p = MemoryFault
  | CheckFlag e | Enabling e | Clearing e => e = Timeout
  end.
(** After the callback and before the end of the call: [k] instructions were fetched. *)
Definition late (k : nat) (b : bool) (t : thread) : Prop :=
  thread_ok t /\ timed_out t = true /\ (timer t = Disabled \/ timer t = Exited) /\ executed t = k /\
  match caller t with Outside _ => False | Clearing _ => b = true | _ => b = false end.
Definition rank (t : thread) : nat :=
  match caller t with
  | Executing => 10 | Running => 9 | Faulted => 8 | Stopping _ => 7 | Joining _ => 6 | Leaving _ => 5
  | CheckFlag _ => 4 | Enabling _ => 3 | Clearing _ => 2 | Outside _ => 0
  end + match timer t with Disabled => 1 | _ => 0 end.
(** The call is over, as [e]. *)
Definition ended (k : nat) (e : ending) (b : bool) (t : thread) : Prop :=
  caller t = Outside (Some e) /\ executed t = k /\ b = true /\ timed_out t = false.

Lemma late_progress k b t : late k b t -> exists b' t', tstep b t b' t'.
Proof.
  intros ([H1 _ H3 _ _ _] & Hf & Ht & _ & Hb). destruct t as [c r ti fl f n]. simpl in *.
  destruct Ht as [-> | ->]; [eexists _, _; apply step_exit|]. subst fl.
  destruct c; [done|subst b; eexists _, _; by constructor..].
Qed.
Lemma late_step k b t b' t' : late k b t -> tstep b t b' t' ->
  (late k b' t' /\ (rank t' < rank t)%nat /\ (doomed (caller t) -> doomed (caller t'))) \/
  exists e, ended k e b' t' /\ (doomed (caller t) -> e = Timeout).
Proof.
  intros (Hok & Hf & Ht & Hk & Hb) Hs. pose proof (tstep_ok _ _ _ _ Hs Hok) as Hok'. destruct Hok as [H1 _ H3 _ _ _].
  unfold late, rank, ended. destruct Hs; unfold signal_handler in *; simpl in *; subst; try done; try (by destruct Ht).
  all: try (left; split_and!; try done; try lia; by (tauto || intros ->)).
  - right. by exists e.
Qed.
Lemma late_ends k b t : late k b t ->
  inevitably (fun s' => exists t' e, threads s' = [t'] /\ ended k e (enabled s') t' /\ (doomed (caller t) -> e = Timeout)) (System b [t]).
Proof.
  remember (rank t) as n eqn:En. revert b t En. induction n as [n IH] using lt_wf_ind. intros b t -> Hl. apply inevitably_later.
  - destruct (late_progress _ _ _ Hl) as (b' & t' & Hs). exists (System b' [t']). apply single_step. eauto.
  - intros s' (b' & t' & -> & Hs)%single_step.
    destruct (late_step _ _ _ _ _ Hl Hs) as [(Hl' & Hr & Hd)|(e & He & Hd)]; [|apply inevitably_now; by exists t', e].
    pose proof (IH _ Hr b' t' eq_refl Hl') as H. clear -H Hd. induction H as [s (u & e & Hu & He & Hd')|s Hp _ IH].
    + apply inevitably_now. exists u, e. tauto.
    + by apply inevitably_later.
Qed.

(** C31. With one thread the deadline is enforced.  Once the callback has run and the
    call is still in [f], the code is inaccessible, and whatever happens then the call
    ends after finitely many steps, without having fetched another instruction, with the
    code accessible and the flag cleared; it ends with [timeout_exception] unless the
    thread was executing an instruction it had fetched before, which may end the call
    itself.  (An instruction or a host function is assumed to
    end, and not to catch the exception of a nested call.) *)
Theorem deadline_enforced s t :
  reachable 1 s -> threads s = [t] -> in_f (caller t) = true -> timed_out t = true ->
  timer t = Disabled \/ timer t = Exited ->
  enabled s = false /\
  inevitably (fun s' => exists t' e, threads s' = [t'] /\ caller t' = Outside (Some e) /\
    (caller t <> Executing -> e = Timeout) /\
    executed t' = executed t /\ enabled s' = true /\ timed_out t' = false) s.
Proof.
  intros Hr Hl Hc Hf Ht. destruct (reachable_one s Hr) as (t1 & Hl1 & Ho). rewrite Hl in Hl1. simplify_eq.
  destruct (reachable_ok _ _ Hr) as [Hok _]. destruct s as [b l]. simpl in *. subst l. inversion Hok as [|? ? Hok1]; subst.
  assert (b = false) as ->. { apply Ho. unfold owes. destruct Ht as [-> | ->]; [done|]. by destruct (caller t1). }
  split; [done|]. assert (Hlate : late (executed t1) false t1). { unfold late. by destruct (caller t1). }
  pose proof (late_ends _ _ _ Hlate) as Hi. assert (Hd : caller t1 <> Executing -> doomed (caller t1)) by by destruct (caller t1).
  clear -Hi Hd. induction Hi as [s (u & e & Hu & (Hc & Hk & Hb & Hfl) & He)|s Hp _ IH].
  - apply inevitably_now. exists u, e. tauto.
  - by apply inevitably_later.
Qed.

(** ** A lost deadline

    Two threads, both past their deadline; the first one leaves and enables the
    code for everyone, before the second one has fetched an instruction. *)
Definition timed_out_thread (k : nat) : thread := Thread Running interrupted Exited true true k.
Definition lost (k : nat) : system :=
  System true [Thread (Outside (Some Timeout)) stopped Exited false true 0; timed_out_thread k].

Ltac do_step i rule := eapply rtc_l; [exists i%nat; eapply step_thread; [reflexivity|by apply rule]|simpl].

Lemma lost_reachable : reachable 2 (lost 0).
Proof.
  unfold reachable, initial, lost, timed_out_thread, idle. simpl.
  do_step 0 step_start. do_step 0 step_next. do_step 1 step_start. do_step 1 step_next.
  do_step 0 step_expire. do_step 0 step_flag. do_step 0 step_disable. do_step 0 step_exit.
  do_step 1 step_expire. do_step 1 step_flag. do_step 1 step_disable. do_step 1 step_exit.
  do_step 0 step_fault. do_step 0 step_signal. do_step 0 step_stop. do_step 0 step_join. do_step 0 step_leave.
  do_step 0 step_check. do_step 0 step_enable. do_step 0 step_clear. constructor.
Qed.

Lemma lost_runs k n : rtc (step 1) (lost k) (lost (n + k)).
Proof.
  revert k. induction n as [|n IH]; intros k; [constructor|]. rewrite Nat.add_succ_comm.
  eapply rtc_l; [eapply (step_thread 1 _ _ [_; timed_out_thread k]); [reflexivity|apply step_fetch]|].
  eapply rtc_l; [eapply (step_thread 1 _ _ [_; Thread Executing _ _ _ _ _]); [reflexivity|apply step_next]|apply IH].
Qed.

(** C32. With two threads a deadline can be lost: a state is reachable in which a
    thread's watchdog has fired and is done, the thread is still in its call, and
    it can go on to execute any number of instructions. *)
Theorem deadline_can_be_lost :
  exists s t0 t1, reachable 2 s /\ threads s = [t0; t1] /\
    caller t1 = Running /\ fired t1 = true /\ timed_out t1 = true /\ timer t1 = Exited /\
    forall k, exists s' t1', rtc (step 1) s s' /\ threads s' = [t0; t1'] /\ caller t1' = Running /\
      (executed t1' = k + executed t1)%nat.
Proof.
  exists (lost 0). eexists _, _. split; [apply lost_reachable|]. split; [reflexivity|]. split_and!; try reflexivity.
  intros k. exists (lost (k + 0)). eexists. split; [apply lost_runs|]. split; [reflexivity|]. by split.
Qed.

(** ** Witnesses *)
Lemma timed_run_sound_witness : enabled (lost 0) = true /\ fired (Thread (Outside (Some Timeout)) stopped Exited false true 0) = true.
Proof.
  split; [reflexivity|].
  pose proof (proj2 (timed_run_sound 2 (lost 0) lost_reachable)) as H. inversion H as [|t l [H1 _] _]; subst.
  exact (H1 eq_refl).
Defined.

Definition past_deadline : thread := Thread Running interrupted Disabled true true 0.
Lemma deadline_enforced_witness :
  reachable 1 (System false [past_deadline]) /\
  inevitably (fun s' => exists t' e, threads s' = [t'] /\ caller t' = Outside (Some e) /\
    (Running <> Executing -> e = Timeout) /\
    executed t' = 0%nat /\ enabled s' = true /\ timed_out t' = false) (System false [past_deadline]).
Proof.
  assert (Hr : reachable 1 (System false [past_deadline])).
  { unfold reachable, initial, past_deadline, idle. simpl.
    do_step 0 step_start. do_step 0 step_next. do_step 0 step_expire. do_step 0 step_flag. do_step 0 step_disable. constructor. }
  split; [exact Hr|].
  exact (proj2 (deadline_enforced _ past_deadline Hr eq_refl eq_refl eq_refl (or_introl eq_refl))).
Defined.
