(* ===== verification/X86Frame.v ===== *)
(** * The stack frame of a compiled function on the processor

    The operand stack grows down from [sp]; every operand and every local has a slot of
    eight bytes.  [frame] relates a machine to the operands and the locals, and says
    what compiled code leaves alone; the lemmas give the effect of the instructions that
    touch it. *)
From S2P Require Import Prelude Allocator LinearMemory Types InstanceProofs X86Machine.
Import Machine.

#[global] Arguments le_encode : simpl never.
#[global] Arguments le_decode : simpl never.
#[global] Arguments store_bytes : simpl never.
#[global] Arguments load_bytes : simpl never.

(** A value in a slot: unsigned, with zeros above 32 bits *)
Definition slot (e : operand_stack_elem) : Z :=
  match e with
  | i32_const_t x | f32_const_t x | i64_const_t x | f64_const_t x => x
  | v128_const_t _ => 0
  end.
Lemma slot_range e : value_ok e -> in_u 64 (slot e).
Proof. destruct e; simpl; unfold in_u; lia. Qed.

(** The registers that compiled code changes: %rax, %rcx, %rdx, and the stack pointer *)
Definition scratch (r : Z) : Prop := r = 0 \/ r = 1 \/ r = 2.

Lemma load_store_slot a v m : in_u 64 v -> load 8 a (store 8 a v m) = v.
Proof.
  intros Hv. unfold load, store. simpl mem.
  pose proof (load_store_same (le_encode 8 v) a (mem m)) as E. rewrite length_le_encode in E.
  rewrite E, le_decode_encode. by apply wrap_small.
Qed.
Lemma load_store_other a b v m : a + 8 <= b \/ b + 8 <= a -> load 8 a (store 8 b v m) = load 8 a m.
Proof. intros H. unfold load, store. simpl mem. rewrite load_store_disjoint; [done|]. rewrite length_le_encode. lia. Qed.
Lemma byte_at_store_other a b v m : a < b \/ b + 8 <= a ->
  WasmAlloc.byte_at (mem (store 8 b v m)) a = WasmAlloc.byte_at (mem m) a.
Proof.
  intros H. unfold store. simpl mem. rewrite byte_at_store, nthZ_None; [done|].
  rewrite length_le_encode. lia.
Qed.

Lemma store_bytes_mem_ok n a v m : mem_ok (mem m) -> mem_ok (mem (store n a v m)).
Proof. intros H. apply store_bytes_ok; [done|]. apply le_encode_byte. Qed.
Lemma load_range n a m : mem_ok (mem m) -> in_u (8 * Z.of_nat n) (load n a m).
Proof.
  intros H. unfold load. rewrite <- (length_load_bytes n a (mem m)) at 1.
  apply le_decode_bound, load_bytes_byte, H.
Qed.

Section Frame.
(** The machine at the start, the base of the operand stack, the number of slots below
    it, and the offsets of the locals *)
Variables (m0 : Machine.t) (sp : Z) (depth : nat) (offs : list Z).
Definition bp : Z := regs m0 5.

Record geometry : Prop := {
  geo_bp : in_u 64 bp;
  geo_low : 8 * Z.of_nat depth <= sp;
  geo_high : sp < 2 ^ 64;
  geo_in : forall i o, offs !! i = Some o -> in_s 32 o /\ sp <= bp + o /\ bp + o + 8 <= 2 ^ 64;
  geo_apart : forall i j o o', i <> j -> offs !! i = Some o -> offs !! j = Some o' -> o + 8 <= o' \/ o' + 8 <= o
}.

(** The operands from [a] up *)
Fixpoint stacked (a : Z) (vs : list operand_stack_elem) (m : Machine.t) : Prop :=
  match vs with [] => True | v :: vs => load 8 a m = slot v /\ stacked (a + 8) vs m end.
Definition local_at (i : nat) (o : Z) : Prop := offs !! i = Some o.
Definition in_frame (a : Z) : Prop :=
  sp - 8 * Z.of_nat depth <= a < sp \/ exists i o, local_at i o /\ bp + o <= a < bp + o + 8.

Record frame (vs ls : list operand_stack_elem) (m : Machine.t) : Prop := {
  fr_rsp : regs m 4 = sp - 8 * Z.of_nat (length vs);
  fr_depth : (length vs <= depth)%nat;
  fr_stack : stacked (regs m 4) vs m;
  fr_locals : forall i o v, local_at i o -> ls !! i = Some v -> load 8 (bp + o) m = slot v;
  fr_regs : forall r, ~ scratch r -> r <> 4 -> regs m r = regs m0 r;
  fr_mem : forall a, ~ in_frame a -> WasmAlloc.byte_at (mem m) a = WasmAlloc.byte_at (mem m0) a;
  fr_bytes : mem_ok (mem m)
}.
Hypothesis geo : geometry.

Lemma stacked_mem a vs m m' : mem m = mem m' -> stacked a vs m -> stacked a vs m'.
Proof.
  intros E. revert a. induction vs as [|v vs IH]; intros a; simpl; [done|].
  intros [H1 H2]. split; [|by apply IH]. by unfold load in *; rewrite <- E.
Qed.
Lemma stacked_store a vs b v m : b + 8 <= a \/ a + 8 * Z.of_nat (length vs) <= b ->
  stacked a vs m -> stacked a vs (store 8 b v m).
Proof.
  revert a. induction vs as [|w vs IH]; intros a Hb; simpl; [done|]. simpl in Hb.
  intros [H1 H2]. split; [rewrite load_store_other; [done|lia]|]. apply IH; [lia|done].
Qed.

(** *** Registers and flags *)
Lemma frame_set_reg vs ls r v m : scratch r -> frame vs ls m -> frame vs ls (set_reg r v m).
Proof.
  intros Hr [F1 F2 F3 F4 F5 F6].
  assert (r <> 4) by (unfold scratch in Hr; lia).
  assert (E : forall x, x <> r -> regs (set_reg r v m) x = regs m x).
  { intros x Hx. simpl. unfold upd. by rewrite (proj2 (Z.eqb_neq x r)). }
  constructor; simpl mem; try done.
  - rewrite E; [done|lia].
  - rewrite E by lia. revert F3. by apply stacked_mem.
  - intros x Hx H4. rewrite E; [by apply F5|]. by intros ->.
Qed.
Lemma frame_set_flags vs ls f m : frame vs ls m -> frame vs ls (set_flags f m).
Proof. intros [F1 F2 F3 F4 F5 F6 F7]. constructor; try done. revert F3. by apply stacked_mem. Qed.
Lemma frame_set_rip vs ls a m : frame vs ls m -> frame vs ls (set_rip a m).
Proof. intros [F1 F2 F3 F4 F5 F6 F7]. constructor; try done. revert F3. by apply stacked_mem. Qed.

(** *** Operands *)
Lemma slot_address r d m : 0 <= regs m r + d < 2 ^ 64 -> address r None d m = regs m r + d.
Proof. intros H. unfold address. rewrite Z.add_0_r. apply wrap_small. unfold in_u. lia. Qed.

Lemma exec_push vs ls v r m :
  frame vs ls m -> (length vs < depth)%nat -> scratch r -> regs m r = slot v -> in_u 64 (slot v) ->
  exists m', exec (Push r) m = Some m' /\ frame (v :: vs) ls m' /\ rip m' = rip m.
Proof.
  intros [F1 F2 F3 F4 F5 F6 F7] Hd Hr Hv Hs. destruct geo as [G1 G2 G3 G4 G5].
  assert (Ea : wrap 64 (regs m 4 - 8) = regs m 4 - 8) by (apply wrap_small; unfold in_u; lia).
  exists (store 8 (regs m 4 - 8) (slot v) (set_reg 4 (regs m 4 - 8) m)).
  split; [unfold exec, RSP; by rewrite Ea, Hv; unfold set_reg, upd; simpl|]. split; [|done].
  assert (Er : forall x, regs (store 8 (regs m 4 - 8) (slot v) (set_reg 4 (regs m 4 - 8) m)) x =
    if x =? 4 then regs m 4 - 8 else regs m x) by done.
  constructor.
  - rewrite Er. simpl. lia.
  - simpl. lia.
  - rewrite Er. simpl stacked. split; [by apply load_store_slot|].
    apply stacked_store; [lia|]. replace (regs m 4 - 8 + 8) with (regs m 4) by lia.
    revert F3. by apply stacked_mem.
  - intros i o w Hi Hw. destruct (G4 i o Hi) as (? & ? & ?).
    rewrite load_store_other by lia. by apply (F4 i o w).
  - intros x Hx H4. rewrite Er, (proj2 (Z.eqb_neq x 4)) by done. by apply F5.
  - intros a Ha. rewrite byte_at_store_other; [by apply F6|].
    unfold in_frame in Ha. destruct (Z.lt_ge_cases a (regs m 4 - 8)); [by left|right].
    destruct (Z.lt_ge_cases a (regs m 4 - 8 + 8)); [|done]. exfalso. apply Ha. left. lia.
  - by apply store_bytes_mem_ok.
Qed.

Lemma exec_pop vs ls v r m :
  frame (v :: vs) ls m -> scratch r ->
  exists m', exec (Pop r) m = Some m' /\ frame vs ls m' /\ rip m' = rip m /\
    (forall x, x <> 4 -> regs m' x = upd r (slot v) (regs m) x).
Proof.
  intros [F1 F2 F3 F4 F5 F6 F7] Hr. destruct geo as [G1 G2 G3 G4 G5].
  assert (r <> 4) by (unfold scratch in Hr; lia). simpl length in *. destruct F3 as [F3 F3'].
  assert (Ea : wrap 64 (regs m 4 + 8) = regs m 4 + 8) by (apply wrap_small; unfold in_u; lia).
  exists (set_reg r (slot v) (set_reg 4 (regs m 4 + 8) m)).
  split; [unfold exec, RSP; by rewrite Ea, F3|]. split; [|split; [done|]].
  - apply frame_set_reg; [done|]. constructor; try done.
    + simpl. unfold upd. simpl. lia.
    + lia.
    + change (regs (set_reg 4 (regs m 4 + 8) m) 4) with (regs m 4 + 8).
      revert F3'. by apply stacked_mem.
    + intros x Hx H4. simpl. unfold upd. rewrite (proj2 (Z.eqb_neq x 4)) by done. by apply F5.
  - intros x Hx. simpl. unfold upd. by rewrite (proj2 (Z.eqb_neq x 4)) by done.
Qed.

(** *** Locals *)
Lemma local_address i o m vs ls : frame vs ls m -> local_at i o -> address 5 None o m = bp + o.
Proof.
  intros F Hi. destruct geo as [[G1 G1'] G2 G3 G4 G5]. destruct (G4 i o Hi) as (H1 & H2 & H3).
  assert (Eb : regs m 5 = bp) by (apply (fr_regs _ _ _ F); unfold scratch; lia).
  rewrite slot_address; rewrite Eb; [done|]. lia.
Qed.
Lemma get_local_64 i o v vs ls m :
  frame vs ls m -> local_at i o -> ls !! i = Some v -> get 64 (RMem 5 None o) m = slot v.
Proof.
  intros F Hi Hv. unfold get. rewrite (local_address i o m vs ls) by done. by apply (fr_locals _ _ _ F i).
Qed.

Lemma frame_store vs ls i o v m n :
  frame vs ls m -> local_at i o -> 0 < Z.of_nat n <= 8 ->
  load 8 (bp + o) (store n (bp + o) (slot v) m) = slot v ->
  frame vs (<[i := v]> ls) (store n (bp + o) (slot v) m).
Proof.
  intros [F1 F2 F3 F4 F5 F6 F7] Hi Hn Hv. destruct geo as [G1 G2 G3 G4 G5]. destruct (G4 i o Hi) as (_ & Hlo & _).
  assert (Hd : forall a k, a + Z.of_nat k <= bp + o \/ bp + o + 8 <= a ->
    load k a (store n (bp + o) (slot v) m) = load k a m).
  { intros a k Ha. unfold load, store. simpl mem. rewrite load_store_disjoint; [done|].
    rewrite length_le_encode. lia. }
  constructor; try done.
  - assert (Hs : forall l a, a + 8 * Z.of_nat (length l) <= sp -> stacked a l m ->
      stacked a l (store n (bp + o) (slot v) m)).
    { induction l as [|w l IH]; intros a Ha; simpl; [done|]. simpl in Ha.
      intros [E1 E2]. split; [rewrite Hd; [done|lia]|]. apply IH; [lia|done]. }
    change (stacked (regs m 4) vs (store n (bp + o) (slot v) m)). apply Hs; [lia|done].
  - intros j o' w Hj. destruct (Nat.eq_dec i j) as [<-|Hij].
    + intros Hw. unfold local_at in *. rewrite Hi in Hj. injection Hj as <-.
      destruct (decide (i < length ls)%nat).
      * rewrite list_lookup_insert_eq in Hw by done. by injection Hw as <-.
      * rewrite list_insert_ge in Hw by lia. apply lookup_lt_Some in Hw. lia.
    + rewrite list_lookup_insert_ne by done. intros Hw.
      destruct (G4 j o' Hj) as (_ & _ & _). pose proof (G5 i j o o' Hij Hi Hj).
      rewrite Hd by lia. by apply (F4 j).
  - intros a Ha. rewrite <- (F6 a Ha). unfold store. simpl mem. rewrite byte_at_store, nthZ_None; [done|].
    rewrite length_le_encode. destruct (Z.lt_ge_cases a (bp + o)); [left; lia|right].
    destruct (Z.lt_ge_cases (a - (bp + o)) (Z.of_nat n)); [|lia]. exfalso. apply Ha. right. exists i, o. split; [done|lia].
  - by apply store_bytes_mem_ok.
Qed.

(** The low and the high half of a slot *)
Lemma load_halves a m : load 8 a m = load 4 a m + 2 ^ 32 * load 4 (a + 4) m.
Proof.
  assert (Hc : forall b l, le_decode (b :: l) = b + 2 ^ 8 * le_decode l) by done.
  assert (H0 : forall x, le_decode (load_bytes 0 x (mem m)) = 0) by done.
  unfold load. rewrite !load_bytes_S, !Hc, !H0. replace (a + 1 + 1 + 1 + 1) with (a + 4) by lia. ring.
Qed.
Lemma store_4_high a v m : load 4 (a + 4) (store 4 a v m) = load 4 (a + 4) m.
Proof. unfold load, store. simpl mem. rewrite load_store_disjoint; [done|]. rewrite length_le_encode. lia. Qed.
Lemma load_store_4 a v m : in_u 32 v -> load 4 a (store 4 a v m) = v.
Proof.
  intros Hv. unfold load, store. simpl mem.
  pose proof (load_store_same (le_encode 4 v) a (mem m)) as E. rewrite length_le_encode in E.
  rewrite E, le_decode_encode. by apply wrap_small.
Qed.
(** A slot that holds a 32-bit value keeps zeros above it when 32 bits are stored. *)
Lemma load_store_low a v m :
  mem_ok (mem m) -> in_u 32 (load 8 a m) -> in_u 32 v -> load 8 a (store 4 a v m) = v.
Proof.
  intros Hm H8 Hv. rewrite load_halves, store_4_high, load_store_4 by done.
  pose proof (load_range 4 a m Hm). pose proof (load_range 4 (a + 4) m Hm). rewrite load_halves in H8.
  unfold in_u in *. lia.
Qed.
Lemma le_decode_app l1 l2 : le_decode (l1 ++ l2) = le_decode l1 + 2 ^ (8 * Z.of_nat (length l1)) * le_decode l2.
Proof.
  assert (Hc : forall b l, le_decode (b :: l) = b + 2 ^ 8 * le_decode l) by done.
  induction l1 as [|b l1 IH]; [simpl length; simpl app; rewrite Z.mul_0_r, Z.pow_0_r; change (le_decode []) with 0; lia|].
  simpl app. rewrite !Hc, IH. simpl length. replace (8 * Z.of_nat (S (length l1))) with (8 + 8 * Z.of_nat (length l1)) by lia.
  rewrite Z.pow_add_r by lia. ring.
Qed.
(** The low bytes of a slot *)
Lemma load_low n a m : (n <= 8)%nat -> mem_ok (mem m) -> load n a m = wrap (8 * Z.of_nat n) (load 8 a m).
Proof.
  intros Hn Hm. unfold load. replace 8%nat with (n + (8 - n))%nat by lia.
  assert (E : load_bytes (n + (8 - n)) a (mem m) = load_bytes n a (mem m) ++ load_bytes (8 - n) (a + Z.of_nat n) (mem m)).
  { generalize (8 - n)%nat as k. clear. intros k. revert a. induction n as [|n IH]; intros a; [simpl; f_equal; lia|].
    simpl (S n + k)%nat. rewrite !load_bytes_S, IH. simpl app. do 3 f_equal. lia. }
  rewrite E, le_decode_app, length_load_bytes. pose proof (load_range n a m Hm) as Hr. unfold load in Hr.
  unfold wrap. rewrite (Z.mul_comm (2 ^ _)), Z_mod_plus_full. symmetry. apply Z.mod_small, Hr.
Qed.
Lemma get_local_32 i o v vs ls m :
  frame vs ls m -> local_at i o -> ls !! i = Some v -> get 32 (RMem 5 None o) m = wrap 32 (slot v).
Proof.
  intros F Hi Hv. unfold get. rewrite (local_address i o m vs ls) by done. change (bytes_of 32) with 4%nat.
  rewrite load_low, (fr_locals _ _ _ F i o v) by (done || lia || apply F). done.
Qed.

(** *** The operand on top *)
Lemma top_address v vs ls m : frame (v :: vs) ls m -> address 4 None 0 m = regs m 4.
Proof.
  intros [F1 F2 _ _ _ _ _]. destruct geo as [_ G2 G3 _ _]. simpl length in *. rewrite slot_address; [lia|]. lia.
Qed.
Lemma frame_retype v v' vs ls m : slot v' = slot v -> frame (v :: vs) ls m -> frame (v' :: vs) ls m.
Proof.
  intros E [F1 F2 [F3 F3'] F4 F5 F6 F7]. constructor; try done. simpl. by rewrite E.
Qed.
Lemma frame_store_top n v v' vs ls m :
  frame (v :: vs) ls m -> 0 < Z.of_nat n <= 8 ->
  load 8 (regs m 4) (store n (regs m 4) (slot v') m) = slot v' ->
  frame (v' :: vs) ls (store n (regs m 4) (slot v') m).
Proof.
  intros [F1 F2 [F3 F3'] F4 F5 F6 F7] Hn Hv. destruct geo as [G1 G2 G3 G4 G5]. simpl length in *.
  assert (Hd : forall a, a + 8 <= regs m 4 \/ regs m 4 + 8 <= a ->
    load 8 a (store n (regs m 4) (slot v') m) = load 8 a m).
  { intros a Ha. unfold load, store. simpl mem. rewrite load_store_disjoint; [done|]. rewrite length_le_encode. lia. }
  constructor; try done.
  - change (regs (store n (regs m 4) (slot v') m) 4) with (regs m 4). split; [done|].
    assert (Hs : forall l a, regs m 4 + 8 <= a -> stacked a l m -> stacked a l (store n (regs m 4) (slot v') m)).
    { induction l as [|w l IH]; intros a Ha; simpl; [done|]. intros [E1 E2]. split; [rewrite Hd; [done|lia]|]. apply IH; [lia|done]. }
    apply Hs; [lia|done].
  - intros i o w Hi Hw. destruct (G4 i o Hi) as (? & ? & ?). rewrite Hd by lia. by apply (F4 i).
  - intros a Ha. rewrite <- (F6 a Ha). unfold store. simpl mem. rewrite byte_at_store, nthZ_None; [done|].
    rewrite length_le_encode. destruct (Z.lt_ge_cases a (regs m 4)); [left; lia|right].
    destruct (Z.lt_ge_cases (a - regs m 4) (Z.of_nat n)); [|lia]. exfalso. apply Ha. left. lia.
  - by apply store_bytes_mem_ok.
Qed.
End Frame.
