(* ===== verification/X86Emit.v ===== *)
(** * What emitted code does (x86_64.hpp)

    The code between [a0] and an address [a] is described by what the processor has
    done when it arrives at [a] from a start state ([reaches]).  [ok] is a triple for
    the writer: with enough room it returns, and then its state satisfies the
    postcondition. *)
From S2P Require Import Prelude Allocator LinearMemory Types Fixtures InstanceProofs X86 X86Machine X86Encoding X86Frame.
Import X86.

(** ** Bytes in memory *)
Definition agrees (m m' : gmap Z Z) (lo hi : Z) : Prop := forall a, lo <= a < hi -> m !! a = m' !! a.
Lemma agrees_trans m m' m'' lo hi : agrees m m' lo hi -> agrees m' m'' lo hi -> agrees m m'' lo hi.
Proof. intros H H' a Ha. by rewrite H, H'. Qed.
Lemma agrees_sym m m' lo hi : agrees m m' lo hi -> agrees m' m lo hi.
Proof. intros H a Ha. by rewrite H. Qed.
Lemma agrees_sub m m' lo hi hi' : agrees m m' lo hi -> hi' <= hi -> agrees m m' lo hi'.
Proof. intros H Hh a Ha. apply H. lia. Qed.

Lemma load_bytes_agrees n a m m' lo hi :
  agrees m m' lo hi -> lo <= a -> a + Z.of_nat n <= hi -> load_bytes n a m = load_bytes n a m'.
Proof.
  intros H. revert a. induction n as [|n IH]; intros a H1 H2; [done|].
  rewrite !load_bytes_S. unfold WasmAlloc.byte_at. rewrite (H a) by lia. f_equal. apply IH; lia.
Qed.
Lemma load_bytes_app n k a m :
  load_bytes (n + k) a m = load_bytes n a m ++ load_bytes k (a + Z.of_nat n) m.
Proof.
  revert a. induction n as [|n IH]; intros a; [simpl; f_equal; lia|].
  simpl (S n + k)%nat. rewrite !load_bytes_S, IH. simpl. do 3 f_equal. lia.
Qed.
Lemma put_store a l m : put a l m = store_bytes a (wrap 8 <$> l) m.
Proof. revert a m. induction l as [|b l IH]; intros a m; [done|]. apply IH. Qed.

Lemma load_put l a m : bytes_ok l -> load_bytes (length l) a (put a l m) = l.
Proof. intros H. rewrite put_store, H. apply load_store_same. Qed.
Lemma put_agrees l a m lo : agrees (put a l m) m lo a.
Proof.
  revert a m. induction l as [|b l IH]; intros a m x Hx; [done|]. simpl.
  rewrite (IH (a + 1) _ x) by lia. apply lookup_insert_ne. lia.
Qed.

(** ** Instructions *)
Definition decodes (bs : list Z) (i : Machine.instr) : Prop :=
  (0 < length bs <= 15)%nat /\ forall rest, Machine.decode (bs ++ rest) = Some (i, rest).
Definition is_jump (i : Machine.instr) : bool :=
  match i with Machine.Jcc _ _ | Machine.Jmp _ => true | _ => false end.

Lemma exec_rip i m m' : is_jump i = false -> Machine.exec i m = Some m' -> Machine.rip m' = Machine.rip m.
Proof.
  intros Hj. destruct i; try done; simpl; intros E; simplify_option_eq; try done.
  - by destruct dst.
  - by destruct op, dst.
  - by destruct op, dst.
  - by destruct dst.
  - by destruct dst.
  - by destruct dst.
  - by destruct src; simplify_eq.
Qed.

Lemma step_decodes bm m bs i :
  decodes bs i -> load_bytes (length bs) (Machine.rip m) bm = bs ->
  Machine.step bm m = Machine.exec i (Machine.set_rip (Machine.rip m + Z.of_nat (length bs)) m).
Proof.
  intros [Hl Hd] Hb. unfold Machine.step, Machine.fetch.
  replace 15%nat with (length bs + (15 - length bs))%nat by lia.
  rewrite load_bytes_app, Hb. rewrite Hd. simpl.
  rewrite length_app. do 2 f_equal. lia.
Qed.

Lemma steps_app bm n k m m' : Machine.steps bm n m = Some m' -> Machine.steps bm (n + k) m = Machine.steps bm k m'.
Proof.
  revert m. induction n as [|n IH]; intros m; simpl; [by intros [= ->]|].
  destruct (Machine.step bm m) as [m1|]; [|done]. simpl. apply IH.
Qed.

(** ** Arriving at an address *)
Section Reach.
Variables (a0 : Z) (m0 : Machine.t).

Definition reaches (bs : gmap Z Z) (a : Z) (P : Machine.t -> Prop) : Prop :=
  a0 <= a /\ forall bm, agrees bm bs a0 a ->
    exists n m, Machine.steps bm n m0 = Some m /\ Machine.rip m = a /\ P m.

Lemma reaches_mono bs a (P Q : Machine.t -> Prop) : (forall m, P m -> Q m) -> reaches bs a P -> reaches bs a Q.
Proof. intros H [Ha HP]. split; [done|]. intros bm Hb. destruct (HP bm Hb) as (n & m & ? & ? & ?). by exists n, m; eauto. Qed.
Lemma reaches_agrees bs bs' a P : agrees bs' bs a0 a -> reaches bs a P -> reaches bs' a P.
Proof.
  intros H [Ha HP]. split; [done|]. intros bm Hb. apply HP. by eapply agrees_trans.
Qed.
Lemma reaches_step bs a l i (P Q : Machine.t -> Prop) :
  reaches bs a P -> decodes l i -> is_jump i = false -> load_bytes (length l) a bs = l ->
  (forall m, P m -> exists m', Machine.exec i (Machine.set_rip (a + Z.of_nat (length l)) m) = Some m' /\ Q m') ->
  reaches bs (a + Z.of_nat (length l)) Q.
Proof.
  intros [Ha HP] Hd Hj Hl HQ. split; [lia|]. intros bm Hb.
  destruct (HP bm) as (n & m & Hn & Hr & Hm); [eapply agrees_sub; [done|lia]|].
  destruct (HQ m Hm) as (m' & E & Hm').
  exists (n + 1)%nat, m'. split; [|split; [|done]].
  - rewrite (steps_app _ _ _ _ _ Hn). simpl.
    rewrite (step_decodes bm m l i), Hr, E; [done|done|].
    rewrite Hr. rewrite <- Hl. rewrite Hl at 1. eapply load_bytes_agrees; [done|lia|lia].
  - by rewrite (exec_rip _ _ _ Hj E).
Qed.
End Reach.

(** ** Triples *)

(** Only the code, its end and the record of the last instructions differ. *)
Definition same_frame (s s' : t) : Prop :=
  s' = set_recent (recent_ops0 s') (recent_ops1 s') (set_code (code s') (set_bytes (bytes s') s)).

Lemma same_code_refl s : same_frame s s.
Proof. by destruct s. Qed.
Lemma same_frame_trans s s' s'' : same_frame s s' -> same_frame s' s'' -> same_frame s s''.
Proof. unfold same_frame. intros H1 ->. rewrite H1. by destruct s, s', s''. Qed.
Lemma same_frame_ends s s' : same_frame s s' -> _code_start s' = _code_start s /\ _code_end s' = _code_end s.
Proof. by intros ->. Qed.

(** With [n] bytes of room [k] returns; when it returns it has used at most [n] bytes. *)
Definition ok {A} (n : Z) (k : M t A) (Q : A -> t -> Prop) (s : t) : Prop :=
  (code s + n <= _code_end s -> exists a s', k s = (Ret a, s')) /\
  (forall a s', k s = (Ret a, s') -> code s' <= code s + n /\ same_frame s s' /\ Q a s').

Lemma code_ret {A} (a : A) (Q : A -> t -> Prop) s : Q a s -> ok 0 (mret a) Q s.
Proof.
  intros H. split; [by eexists _, _|]. intros a' s' [= <- <-].
  split; [lia|]. split; [apply same_code_refl|done].
Qed.
Lemma code_bind {A B} n1 n2 (k : M t A) (f : A -> M t B) (Q : B -> t -> Prop) s :
  0 <= n2 -> ok n1 k (fun a s' => ok n2 (f a) Q s') s -> ok (n1 + n2) (a ← k; f a) Q s.
Proof.
  intros Hn [H1 H2]. split.
  - intros Hr. destruct H1 as (a & s1 & E); [lia|]. destruct (H2 a s1 E) as (Hc & Hs & [H3 _]).
    destruct (same_frame_ends _ _ Hs) as [_ He]. destruct H3 as (b & s2 & E2); [lia|].
    exists b, s2. unfold mbind, M_bind. by rewrite E.
  - intros b s2. unfold mbind, M_bind. destruct (k s) as [[a|e|w] s1] eqn:E; try done.
    intros E2. destruct (H2 a s1 eq_refl) as (Hc & Hs & [_ H4]). destruct (H4 b s2 E2) as (? & ? & ?).
    split; [lia|]. split; [by eapply same_frame_trans|done].
Qed.
Lemma code_mono {A} n n' (k : M t A) (Q Q' : A -> t -> Prop) s :
  ok n k Q s -> n <= n' -> (forall a s', Q a s' -> Q' a s') -> ok n' k Q' s.
Proof.
  intros [H1 H2] Hn HQ. split; [intros; apply H1; lia|]. intros a s' E.
  destruct (H2 a s' E) as (? & ? & ?). split; [lia|]. split; [done|by apply HQ].
Qed.
Lemma ok_more {A} n n' (k : M t A) Q s : ok n k Q s -> n <= n' -> ok n' k Q s.
Proof. intros. by eapply code_mono. Qed.
Lemma code_gets {A} (f : t -> A) (Q : A -> t -> Prop) s : Q (f s) s -> ok 0 (gets f) Q s.
Proof.
  intros H. split; [by eexists _, _|]. intros a' s' [= <- <-].
  split; [lia|]. split; [apply same_code_refl|done].
Qed.
Lemma ok_eq {A} n (k k' : M t A) Q s : k s = k' s -> ok n k' Q s -> ok n k Q s.
Proof. unfold ok. by intros ->. Qed.

Lemma ok_frame {A} n (k : M t A) Q s : ok n k Q s -> ok n k (fun a s' => same_frame s s' /\ Q a s') s.
Proof. intros [H1 H2]. split; [done|]. intros a s' E. by destruct (H2 a s' E) as (? & ? & ?). Qed.
Lemma ok_bound {A} n (k : M t A) (Q : A -> t -> Prop) s : ok n k Q s -> ok n k (fun a s' => code s' <= code s + n /\ Q a s') s.
Proof. intros [H1 H2]. split; [done|]. intros a s' E. destruct (H2 a s' E) as (? & ? & ?). by split_and!. Qed.

Lemma ok_writes k bs s :
  writes k bs -> _code_start s <= code s -> ok (Z.of_nat (length bs)) k (fun _ s' => s' = append bs s) s.
Proof.
  intros [_ Hw] Hs. destruct (Hw s) as [H1 H2]. split.
  - intros Hr. exists tt, (append bs s). apply H1. by right.
  - intros [] s' E. apply H2 in E as ->. split; [unfold append; simpl; lia|]. split; [by destruct s|done].
Qed.
Lemma emit_bytes_app l1 l2 s : emit_bytes (l1 ++ l2) s = (emit_bytes l1;; emit_bytes l2) s.
Proof.
  revert s. induction l1 as [|b l1 IH]; intros s; [done|].
  change ((b :: l1) ++ l2) with (b :: l1 ++ l2).
  unfold emit_bytes; fold emit_bytes. unfold mbind, M_bind in *.
  destruct (emit_byte b s) as [[[]|e|w] s']; [|done|done]. apply IH.
Qed.

(** ** Encodings by computation *)
#[global] Arguments emit_byte : simpl never.
#[global] Arguments emit_operand32 : simpl never.
#[global] Arguments emit_operand64 : simpl never.

Ltac writes_tac :=
  repeat lazymatch goal with
    | |- writes (emit_bytes _) _ => apply writes_bytes
    | |- writes (emit_operand32 _) _ => apply writes_operand32
    | |- writes (emit_operand64 _) _ => apply writes_operand64
    | |- writes (emit_byte _) _ => apply writes_byte
    | |- writes (mret tt) _ => apply writes_nil
    | |- writes (mbind _ _) _ => eapply writes_seq
    | |- writes (emit_REX_prefix ?W ?R ?X ?B) _ =>
        let c := eval vm_compute in (W || R || X || B) in
        change (emit_REX_prefix W R X B) with
          (if c then emit_bytes [Z.lor (Z.lor (Z.lor (Z.lor 0x40 (Z.shiftl (b2z W) 3)) (Z.shiftl (b2z R) 2)) (Z.shiftl (b2z X) 1)) (b2z B)]
           else mret tt); cbv iota
    | |- writes ?k _ => let k' := eval cbn in k in progress change k with k'
    end.
Ltac decodes_tac := split; [cbv; lia|intros rest; reflexivity].

(** Decoding behind a fixed prefix of an instruction with an immediate or an operand in memory *)
Ltac take_imm :=
  lazymatch goal with
  | |- context [le_encode ?n ?x ++ ?rest] =>
      pose proof (take_disp_sext n x rest) as Htake; set (tail := le_encode n x ++ rest) in *;
      clearbody tail; lazy -[Machine.take_disp sext]; rewrite Htake; reflexivity
  end.

(** Registers below 8, 32 and 64 bits wide *)
Definition reg (w r : Z) : operand := if w =? 64 then G64 r else G32 r.
Definition width_ok (w : Z) : Prop := w = 32 \/ w = 64.

Lemma writes_mov_imm w r x : width_ok w -> scratch r ->
  exists bs, writes (emit_mov_imm x (reg w r)) bs /\ (length bs <= 10)%nat /\ decodes bs (Machine.MovImm w r (sext w x)).
Proof.
  intros [-> | ->] [-> |[-> | ->]]; (eexists; split; [unfold reg; cbn [Z.eqb Pos.eqb]; writes_tac|split; [simpl; rewrite ?length_le_encode; simpl; lia|]]).
  all: split; [simpl; rewrite ?length_le_encode; simpl; lia|].
  all: intros rest; rewrite <- !app_assoc; take_imm.
Qed.

(** ** Operands *)
(** C13. Where there is room, the assembler's encoding of an operand and a register field (ModRM,
    SIB and displacement bytes, with the extension bits of the prefix) is at most six
    bytes, is appended to the code, and is read by the processor as that register and that
    operand, whatever follows.  This holds of every register, of every base with a
    displacement but %r12, and of %r13 only with a displacement that is not 0; and of every
    sum of two registers that the assembler does not refuse, again but %r13 as a base
    without a displacement. *)
Theorem operand_roundtrip o reg s :
  0 <= reg < 16 -> encodable o -> _code_start s <= code s -> code s + 6 <= _code_end s ->
  exists bs, emit_modrm_sib_disp o reg s = (Ret tt, append bs s) /\ (length bs <= 6)%nat /\
    load_bytes (length bs) (code s) (bytes (append bs s)) = bs /\
    forall rest, Machine.decode_modrm (b2z (bit3 reg)) (b2z (ext_X o)) (b2z (ext_B o)) (bs ++ rest) = Some (reg, meaning o, rest).
Proof.
  intros Hreg Ho Hs Hr. destruct (emit_modrm_reads o reg Hreg Ho) as (bs & [Hb Hw] & Hl & Hd).
  exists bs. split; [apply (Hw s); right; lia|]. split; [done|]. split; [|exact Hd].
  simpl. by apply load_put.
Qed.

Definition example_assembler : t :=
  Make example_module arena_example ∅ 1000 add_type [24; 16] [LocalGroup 1 (-8) 8] 1000 5000 1000 []
    0 0 0 0 0 1 0 0 no_recent no_recent.
Lemma operand_roundtrip_witness :
  exists bs, emit_modrm_sib_disp (Disp 5 (-8)) 1 example_assembler = (Ret tt, append bs example_assembler) /\
    Machine.decode_modrm 0 0 0 (bs ++ [0x90]) = Some (1, Machine.RMem 5 None (-8), [0x90]).
Proof.
  destruct (operand_roundtrip (Disp 5 (-8)) 1 example_assembler) as (bs & E & _ & _ & Hd).
  - lia.
  - split_and!; [lia|lia|lia|done..].
  - simpl. lia.
  - simpl. lia.
  - exists bs. split; [exact E|exact (Hd [0x90])].
Defined.
