(* ===== verification/X86Fold.v ===== *)
(** * Folding of instructions (x86_64.hpp)

    The JIT keeps a record of its last two instructions and takes a push back when the
    next instruction pops.  [inv] says what the code so far computes and what the record
    promises about it; [emit_pop] and [emit_push] keep it, so that the value popped is in
    its register however it got there. *)
From S2P Require Import Prelude Allocator LinearMemory Types InstanceProofs X86 X86Machine X86Encoding X86Frame X86Emit.
Import X86.

(** What is known of registers and flags *)
Definition condition : Type := (Z -> Z) -> option Machine.flag_set -> Prop.
Definition regs_are (l : list (Z * Z)) : condition := fun g _ => Forall (fun p => g p.1 = p.2) l.
Abbreviation any := (regs_are []).
Abbreviation reg_is r v := (regs_are [(r, v)]).

(** The start of the code, the machine there, and the frame *)
Class Start `{jit : Jit} : Type := {
  a0 : Z;
  m0 : Machine.t;
  sp : Z;
  depth : nat;
  offs : list Z;
  geo : geometry m0 sp depth offs;
  start_positive : 0 < a0;
  release : validate_jit_size = false
}.

Section Fold.
Context `{jit : Jit} {start : Start}.
Implicit Types (vs ls : list operand_stack_elem).

(** ** Assertions *)
Lemma reg_is_1 r v g f : reg_is r v g f <-> g r = v.
Proof. unfold regs_are. rewrite Forall_singleton. done. Qed.
Definition here vs ls (Q : condition) (m : Machine.t) : Prop :=
  frame m0 sp depth offs vs ls m /\ Q (Machine.regs m) (Machine.flags m).
Definition arrives (bs : gmap Z Z) (a : Z) vs ls (Q : condition) : Prop := reaches a0 m0 bs a (here vs ls Q).

(** The code that was emitted arrives at its end with operands [vs], locals [ls] and [Q]. *)
Record emitted (s : t) vs ls (Q : condition) : Prop := {
  em_start : _code_start s <= a0;
  em_here : arrives (bytes s) (code s) vs ls Q
}.
(** The record says nothing about the code at the end. *)
Definition stale (s : t) : Prop := op_end (recent_ops1 s) < code s.
Definition done_to (s : t) vs ls (Q : condition) : Prop := emitted s vs ls Q /\ stale s.

(** What an entry of the record promises when the last operand is its own *)
Definition promise (bs : gmap Z Z) (r : recent_op_t) vs ls : Prop :=
  0 < op_start r <= op_end r /\
  match op_data r with
  | generic_register_push_op reg =>
      exists n v vs', reg = G64 n /\ scratch n /\ vs = v :: vs' /\ arrives bs (op_start r) vs' ls (reg_is n (slot v))
  | get_local_op e =>
      exists i o w v vs', vs = v :: vs' /\ local_at offs i o /\ e = Disp 5 o /\ ls !! i = Some w /\ slot w = slot v /\
        arrives bs (op_start r) vs' ls any /\ arrives bs (op_end r - 1) vs' ls (reg_is 0 (slot v))
  | i32_const_op x =>
      exists v vs', vs = v :: vs' /\ slot v = wrap 32 x /\ arrives bs (op_start r) vs' ls any
  | i64_const_op x =>
      exists v vs', vs = v :: vs' /\ slot v = wrap 64 x /\ arrives bs (op_start r) vs' ls any
  | no_op | condition_op _ | xmm_register_push_op _ => True
  end.
Definition is_register_push (r : recent_op_t) : bool :=
  match op_data r with generic_register_push_op _ => true | _ => false end.
Definition promises (bs : gmap Z Z) (r0 r1 : recent_op_t) (a : Z) vs ls : Prop :=
  op_end r1 <= a /\
  (op_end r1 = a -> promise bs r1 vs ls /\ op_end r0 <= op_start r1 /\
     (is_register_push r1 = true -> op_end r0 < op_start r1) /\
     (op_end r0 = op_start r1 -> promise bs r0 (tail vs) ls)).
Record inv (s : t) vs ls : Prop := {
  inv_emitted : emitted s vs ls any;
  inv_promises : promises (bytes s) (recent_ops0 s) (recent_ops1 s) (code s) vs ls
}.

Lemma here_mono vs ls (Q Q' : condition) m : (forall g f, Q g f -> Q' g f) -> here vs ls Q m -> here vs ls Q' m.
Proof. intros H [? ?]. split; [done|by apply H]. Qed.
Lemma arrives_mono bs a vs ls (Q Q' : condition) :
  (forall g f, Q g f -> Q' g f) -> arrives bs a vs ls Q -> arrives bs a vs ls Q'.
Proof. intros H. apply reaches_mono. intros m. by apply here_mono. Qed.
Lemma arrives_start bs a vs ls Q : arrives bs a vs ls Q -> a0 <= a.
Proof. by intros [? _]. Qed.
Lemma promise_agrees bs bs' r vs ls a :
  agrees bs' bs a0 a -> op_end r <= a -> op_start r <= a -> promise bs r vs ls -> promise bs' r vs ls.
Proof.
  intros Hb He Hs. unfold promise. intros [Hp HP]. split; [done|]. revert HP.
  assert (H : forall x ws Q, x <= a -> arrives bs x ws ls Q -> arrives bs' x ws ls Q).
  { intros x ws Q Hx. apply reaches_agrees. by eapply agrees_sub. }
  destruct (op_data r); try done.
  - intros (n & v & vs' & ? & ? & ? & ?). exists n, v, vs'. eauto.
  - intros (i & o & w & v & vs' & ? & ? & ? & ? & ? & ? & ?). exists i, o, w, v, vs'.
    do 5 (split; [done|]). split; apply H; try done. lia.
  - intros (v & vs' & ? & ? & ?). exists v, vs'. eauto.
  - intros (v & vs' & ? & ? & ?). exists v, vs'. eauto.
Qed.

Lemma arrives_any bs a vs ls Q : arrives bs a vs ls Q -> arrives bs a vs ls any.
Proof. apply arrives_mono. intros. by constructor. Qed.
Lemma emitted_mono s vs ls (Q Q' : condition) : (forall g f, Q g f -> Q' g f) -> emitted s vs ls Q -> emitted s vs ls Q'.
Proof. intros H [? ?]. split; [done|]. by eapply arrives_mono. Qed.
Lemma emitted_positive s vs ls Q : emitted s vs ls Q -> _code_start s <= code s /\ 0 < code s.
Proof. intros [H1 H2%arrives_start]. pose proof start_positive. lia. Qed.
Lemma done_inv s vs ls Q : done_to s vs ls Q -> inv s vs ls.
Proof.
  intros [H1 H2]. split; [eapply emitted_mono; [by constructor|done]|]. unfold stale in H2. split; [lia|]. intros. lia.
Qed.
Lemma done_mono s vs ls (Q Q' : condition) :
  (forall g f, Q g f -> Q' g f) -> done_to s vs ls Q -> done_to s vs ls Q'.
Proof. intros H [? ?]. split; [by eapply emitted_mono|done]. Qed.

(** ** An instruction *)
Lemma ok_instr k bs i s vs ls Q vs' ls' Q' :
  emitted s vs ls Q -> op_end (recent_ops1 s) <= code s ->
  writes k bs -> decodes bs i -> is_jump i = false ->
  (forall m, here vs ls Q m -> exists m', Machine.exec i m = Some m' /\ here vs' ls' Q' m') ->
  ok (Z.of_nat (length bs)) k (fun _ s' => s' = append bs s /\ done_to s' vs' ls' Q') s.
Proof.
  intros He Hr Hw Hd Hj Hx. destruct (emitted_positive _ _ _ _ He) as [Hs Hp]. destruct He as [Hst He].
  eapply code_mono; [by apply ok_writes|lia|]. intros _ s' ->. split; [done|].
  pose proof Hd as [[Hl _] _]. pose proof Hw as [Hb _]. split; [split; [done|]|unfold stale; simpl; lia].
  simpl. eapply reaches_step; [|done|done|by apply load_put|].
  - eapply reaches_agrees; [apply put_agrees|done].
  - intros m [Hf HQ]. apply Hx. split; [by apply frame_set_rip|done].
Qed.
(** Behind other code *)
Lemma ok_next n k bs i s vs ls Q vs' ls' Q' :
  done_to s vs ls Q -> writes k bs -> decodes bs i -> is_jump i = false -> Z.of_nat (length bs) <= n ->
  (forall m, here vs ls Q m -> exists m', Machine.exec i m = Some m' /\ here vs' ls' Q' m') ->
  ok n k (fun _ s' => done_to s' vs' ls' Q') s.
Proof.
  intros [He Hs] Hw Hd Hj Hn Hx. unfold stale in Hs.
  eapply code_mono; [by eapply ok_instr; [|lia|..]|done|]. by intros _ s' [_ ?].
Qed.

(** ** Taking back the last instruction *)
Lemma try_pop_stale {A} (as_T : recent_data -> option A) s : stale s -> try_pop_recent_op as_T s = (Ret None, s).
Proof. intros H. unfold try_pop_recent_op, stale in *. by rewrite (proj2 (Z.eqb_neq _ _)) by lia. Qed.
Lemma try_undo_stale s : stale s -> try_undo_push s = (Ret None, s).
Proof.
  intros H. unfold try_undo_push, gets, mbind, M_bind. simpl. unfold stale in H.
  by rewrite (proj2 (Z.eqb_neq _ _)) by lia.
Qed.
Lemma try_pop_cases {A} (as_T : recent_data -> option A) s :
  (try_pop_recent_op as_T s = (Ret None, s) /\ 
     (op_end (recent_ops1 s) = code s -> as_T (op_data (recent_ops1 s)) = None)) \/
  exists p, op_end (recent_ops1 s) = code s /\ as_T (op_data (recent_ops1 s)) = Some p /\ 
    try_pop_recent_op as_T s = (Ret (Some p), set_recent no_recent (recent_ops0 s) (set_code (op_start (recent_ops1 s)) s)).
Proof.
  unfold try_pop_recent_op. destruct (Z.eqb_spec (op_end (recent_ops1 s)) (code s)); [|by left].
  destruct (as_T _) as [p|] eqn:E; [right; by exists p|by left].
Qed.

(** Without its last instruction the code arrives where that began. *)
Abbreviation taken_back s := (set_recent no_recent (recent_ops0 s) (set_code (op_start (recent_ops1 s)) s)).
Lemma taken_back_inv s v vs ls :
  inv s (v :: vs) ls -> op_end (recent_ops1 s) = code s ->
  arrives (bytes s) (op_start (recent_ops1 s)) vs ls any -> inv (taken_back s) vs ls.
Proof.
  intros [[Hst _] [_ Hp]] He Ha. destruct (Hp He) as (_ & H0 & _ & H1).
  split; [by split|]. split; [done|]. simpl. intros E. specialize (H1 E).
  assert (0 < op_start (recent_ops0 s)) by apply H1.
  split; [done|]. split; [lia|]. split; [lia|]. intros. lia.
Qed.
Lemma ok_taken_back {A} n (a : A) (Q : A -> t -> Prop) s :
  op_start (recent_ops1 s) <= code s + n -> Q a (taken_back s) ->
  ok n (fun _ => (Ret a, taken_back s)) Q s.
Proof.
  intros Hs HQ. split; [by eexists _, _|]. intros a' s' [= <- <-].
  split; [done|]. split; [by destruct s|done].
Qed.

(** ** Pops and pushes *)
Definition pop_code (r : Z) : M t unit :=
  emit_REX_prefix false false false (bit3 r);; emit_bytes [Z.lor 0x58 (Z.land r 7)].
Definition push_code (r : Z) : M t unit :=
  emit_REX_prefix false false false (bit3 r);; emit_bytes [Z.lor 0x50 (Z.land r 7)].

Lemma pop_encoding r : scratch r -> exists bs, writes (pop_code r) bs /\ length bs = 1%nat /\ decodes bs (Machine.Pop r).
Proof. unfold pop_code. intros [-> |[-> | ->]]; (eexists; split; [writes_tac|split; [done|decodes_tac]]). Qed.
Lemma push_encoding r : scratch r -> exists bs, writes (push_code r) bs /\ length bs = 1%nat /\ decodes bs (Machine.Push r).
Proof. unfold push_code. intros [-> |[-> | ->]]; (eexists; split; [writes_tac|split; [done|decodes_tac]]). Qed.
Lemma mov_encoding a b : scratch a -> scratch b -> exists bs,
  writes (emit_mov (G64 a) (G64 b)) bs /\ length bs = 3%nat /\
    decodes bs (Machine.Mov 64 (Machine.RReg b) (Machine.RReg a)).
Proof.
  intros [-> |[-> | ->]] [-> |[-> | ->]]; (eexists; split; [writes_tac|split; [done|decodes_tac]]).
Qed.

(** [l] does not mention [r]. *)
Definition fresh (r : Z) (l : list (Z * Z)) : Prop := Forall (fun p => p.1 <> r) l.
Lemma regs_are_upd r v l g g' f f' :
  fresh r l -> fresh 4 l -> g' r = v -> (forall x, x <> r -> x <> 4 -> g' x = g x) ->
  regs_are l g f -> regs_are ((r, v) :: l) g' f'.
Proof.
  intros Hr H4 Hv Hg Hl. constructor; [done|]. unfold fresh, regs_are in *. rewrite Forall_forall in *.
  intros p Hp. rewrite Hg; auto.
Qed.

Lemma ok_pop_writes k bs s v vs ls l r :
  emitted s (v :: vs) ls (regs_are l) -> op_end (recent_ops1 s) <= code s -> scratch r -> fresh r l -> fresh 4 l ->
  writes k bs -> length bs = 1%nat -> decodes bs (Machine.Pop r) ->
  ok 1 k (fun _ s' => done_to s' vs ls (regs_are ((r, slot v) :: l))) s.
Proof.
  intros He Hs Hr Hf H4 Hw Hl Hd.
  eapply code_mono; [eapply ok_instr; [done|done|done|done|done|]|lia|by intros _ s' [_ ?]].
  intros m [Hm Hq]. destruct (exec_pop _ _ _ _ geo _ _ _ _ _ Hm Hr) as (m' & E & Hm' & _ & Hg).
  exists m'. split; [done|]. split; [done|]. assert (r <> 4) by (unfold scratch in Hr; lia).
  eapply (regs_are_upd r _ l (Machine.regs m)); [done|done| |..|done].
  - rewrite Hg by done. unfold Machine.upd. by rewrite Z.eqb_refl.
  - intros x Hx Hx4. rewrite Hg by done. unfold Machine.upd. by rewrite (proj2 (Z.eqb_neq x r)).
Qed.

Lemma ok_pop_code s v vs ls l r :
  emitted s (v :: vs) ls (regs_are l) -> op_end (recent_ops1 s) <= code s -> scratch r -> fresh r l -> fresh 4 l ->
  ok 1 (pop_code r) (fun _ s' => done_to s' vs ls (regs_are ((r, slot v) :: l))) s.
Proof.
  intros He Hs Hr Hf H4. destruct (pop_encoding r Hr) as (bs & Hw & Hl & Hd). by eapply ok_pop_writes.
Qed.

(** An instruction that changes registers and flags; the operands and the locals stay. *)
Definition computes vs ls (i : Machine.instr) (Q Q' : condition) : Prop := forall m,
  frame m0 sp depth offs vs ls m -> Q (Machine.regs m) (Machine.flags m) ->
  exists r x fl, (r = None \/ exists n, r = Some n /\ scratch n) /\
    Machine.exec i m = Some (Machine.set_flags fl (match r with Some n => Machine.set_reg n x m | None => m end)) /\
    Q' (match r with Some n => Machine.upd n x (Machine.regs m) | None => Machine.regs m end) fl.
Lemma ok_compute n s vs ls Q Q' bs k i :
  emitted s vs ls Q -> op_end (recent_ops1 s) <= code s ->
  writes k bs -> decodes bs i -> is_jump i = false -> Z.of_nat (length bs) <= n -> computes vs ls i Q Q' ->
  ok n k (fun _ s' => done_to s' vs ls Q') s.
Proof.
  intros He Hs Hw Hd Hj Hn Hx. eapply code_mono; [eapply ok_instr; [done|done|done|done|done|]|done|by intros _ s' [_ ?]].
  intros m [Hm Hq]. destruct (Hx m Hm Hq) as (r & x & fl & Hr & E & Hq'). eexists. split; [done|].
  destruct Hr as [-> |(r' & -> & Hr)]; (split; [|done]); by repeat first [apply frame_set_flags|apply frame_set_reg].
Qed.

Lemma ok_bind_ret {A B} n (k : M t A) (f : A -> M t B) (Q : B -> t -> Prop) a s s1 :
  k s = (Ret a, s1) -> same_frame s s1 -> code s1 <= code s -> ok n (f a) Q s1 -> ok n (a ← k; f a) Q s.
Proof.
  intros E Hs Hc [H1 H2]. unfold ok, mbind, M_bind. rewrite E. split.
  - intros Hr. apply H1. destruct (same_frame_ends _ _ Hs) as [_ ->]. lia.
  - intros b s2 E2. destruct (H2 b s2 E2) as (? & ? & ?). split; [lia|]. split; [by eapply same_frame_trans|done].
Qed.
Lemma same_frame_taken s c r0 r1 : same_frame s (set_recent r0 r1 (set_code c s)).
Proof. by destruct s. Qed.

Lemma ok_from_register s v vs ls r n :
  done_to s vs ls (reg_is n v) -> scratch n -> scratch r -> in_u 64 v ->
  ok 10 (if num (G64 n) =? num (G64 r) then mret tt else emit_mov (G64 n) (G64 r))
    (fun _ s' => done_to s' vs ls (reg_is r v)) s.
Proof.
  intros Hd Hn Hr Hv. simpl num. destruct (Z.eqb_spec n r) as [->|Hne].
  - eapply ok_more; [by apply code_ret|lia].
  - destruct (mov_encoding n r Hn Hr) as (bs & Hw & Hl & Hde). destruct Hd as [He Hs]. unfold stale in Hs.
    eapply ok_compute; [exact He|lia|done|done|done|lia|].
    intros m _ Hq. exists (Some r), (wrap 64 (wrap 64 (Machine.regs m n))), (Machine.flags m).
    split; [right; by exists r|]. split; [done|]. apply reg_is_1 in Hq. apply reg_is_1. unfold Machine.upd. by rewrite Z.eqb_refl, Hq, wrap_wrap, wrap_small by (done || lia).
Qed.

(** A constant is moved into the register instead of being pushed and popped. *)
Lemma ok_from_constant s v vs ls r w x :
  inv s vs ls -> op_end (recent_ops1 s) <= code s -> scratch r -> width_ok w -> v = wrap w x ->
  ok 10 (emit_mov_imm x (reg w r)) (fun _ s' => done_to s' vs ls (reg_is r v)) s.
Proof.
  intros [He _] Hs Hr Hw ->. destruct (writes_mov_imm w r x Hw Hr) as (bs & Hwr & Hl & Hd).
  eapply ok_compute; [exact He|done|done|done|done|lia|].
  intros m _ _. exists (Some r), (wrap w x), (Machine.flags m). split; [right; by exists r|split].
  - simpl. rewrite wrap_sext; [done|]. destruct Hw; lia.
  - apply reg_is_1. unfold Machine.upd. by rewrite Z.eqb_refl.
Qed.

Lemma ok_undo_push s v vs ls r :
  inv s (v :: vs) ls -> scratch r -> in_u 64 (slot v) ->
  (op_end (recent_ops1 s) = code s -> as_i32_const (op_data (recent_ops1 s)) = None /\ as_i64_const (op_data (recent_ops1 s)) = None) ->
  ok 10 (push ← try_undo_push;
         match push with
         | Some r' => if num r' =? num (G64 r) then mret tt else emit_mov r' (G64 r)
         | None => pop_code r
         end) (fun _ s' => done_to s' vs ls (reg_is r (slot v))) s.
Proof.
  intros Hi Hr Hv Hn. pose proof Hi as [He [Hend Hp]].
  assert (Hpop : ok 10 (pop_code r) (fun _ s' => done_to s' vs ls (reg_is r (slot v))) s).
  { eapply ok_more; [apply (ok_pop_code s v vs ls []); try done; by constructor|lia]. }
  destruct (Z.eqb_spec (op_end (recent_ops1 s)) (code s)) as [Hc|Hc].
  2: { eapply ok_bind_ret; [apply try_undo_stale; unfold stale; lia|apply same_code_refl|lia|done]. }
  destruct (Hn Hc) as [N32 N64]. destruct (Hp Hc) as ((Hpos & HP) & Hord & Hstrict & _).
  assert (Eu : try_undo_push s = match op_data (recent_ops1 s) with
    | generic_register_push_op reg => (Ret (Some reg), taken_back s)
    | get_local_op _ => (Ret (Some rax), set_recent no_recent no_recent (set_code (code s - 1) s))
    | _ => (Ret None, s)
    end).
  { unfold try_undo_push, try_pop_recent_op, gets, mbind, M_bind. simpl. rewrite Hc, Z.eqb_refl.
    destruct (op_data (recent_ops1 s)); by rewrite Hc, Z.eqb_refl. }
  destruct (op_data (recent_ops1 s)) eqn:Ed; try done.
  all: eapply ok_bind_ret; [exact Eu|first [apply same_code_refl|apply same_frame_taken]|simpl; lia|]; try done.
  - destruct HP as (n & v' & vs' & -> & Hsc & [= <- <-] & Ha).
    apply ok_from_register; [|done..]. split; [split; [apply He|done]|].
    unfold stale. simpl. apply Hstrict. unfold is_register_push. by rewrite Ed.
  - destruct HP as (i & o & w & v' & vs' & [= <- <-] & Hl & _ & _ & _ & _ & Ha).
    apply (ok_from_register _ _ _ _ r 0); [|by left|done..]. split; [split; [apply He|by rewrite <- Hc]|].
    unfold stale. simpl. apply arrives_start in Ha. pose proof start_positive. lia.
Qed.

(** [emit_pop]: the last operand is in the register. *)
Lemma code_pop s v vs ls r :
  inv s (v :: vs) ls -> scratch r -> in_u 64 (slot v) ->
  ok 10 (emit_pop (G64 r)) (fun _ s' => done_to s' vs ls (reg_is r (slot v))) s.
Proof.
  intros Hi Hr Hv. pose proof Hi as [He [Hend Hp]]. unfold emit_pop. rewrite release.
  assert (Hpop : ok 10 (pop_code r) (fun _ s' => done_to s' vs ls (reg_is r (slot v))) s).
  { eapply ok_more; [apply (ok_pop_code s v vs ls []); try done; by constructor|lia]. }
  destruct (try_pop_cases as_i32_const s) as [[E Hn32]|(x & Hc & Hx & E)];
    (eapply ok_bind_ret; [exact E|first [apply same_code_refl|apply same_frame_taken]|..]).
  { lia. } 2: { destruct (Hp Hc) as ((? & HP) & _). simpl. lia. }
  2: { destruct (Hp Hc) as ((? & HP) & ? & _).
    destruct (op_data (recent_ops1 s)) eqn:Ed; try done. injection Hx as ->.
    destruct HP as (v' & vs' & [= <- <-] & Hs & Ha).
    apply (ok_from_constant (taken_back s) (slot v) vs ls r 32 x); [by apply (taken_back_inv s v)|simpl; lia|done|by left|done]. }
  destruct (try_pop_cases as_i64_const s) as [[E2 Hn64]|(x & Hc & Hx & E2)];
    (eapply ok_bind_ret; [exact E2|first [apply same_code_refl|apply same_frame_taken]|..]).
  { lia. } 2: { destruct (Hp Hc) as ((? & HP) & _). simpl. lia. }
  2: { destruct (Hp Hc) as ((? & HP) & ? & _).
    destruct (op_data (recent_ops1 s)) eqn:Ed; try done. injection Hx as ->.
    destruct HP as (v' & vs' & [= <- <-] & Hs & Ha).
    apply (ok_from_constant (taken_back s) (slot v) vs ls r 64 x); [by apply (taken_back_inv s v)|simpl; lia|done|by right|done]. }
  apply ok_undo_push; [done..|].
  intros Hc. specialize (Hn32 Hc). specialize (Hn64 Hc). by destruct (op_data (recent_ops1 s)).
Qed.

(** *** Pushes *)
Lemma regs_are_at l r v g f : (r, v) ∈ l -> regs_are l g f -> g r = v.
Proof. intros Hin Hl. unfold regs_are in Hl. rewrite List.Forall_forall in Hl. exact (Hl (r, v) (proj1 (list_elem_of_In _ _) Hin)). Qed.
Record after_push (s s1 : t) (r : Z) v vs ls : Prop := {
  ap_code : code s1 = code s + 1;
  ap_emitted : emitted s1 (v :: vs) ls any;
  ap_recent0 : recent_ops0 s1 = recent_ops1 s;
  ap_recent1 : recent_ops1 s1 = RecentOp (code s) (code s1) (generic_register_push_op (G64 r));
  ap_bytes : agrees (bytes s1) (bytes s) a0 (code s)
}.
Lemma ok_push_code s v vs ls (Q : condition) r :
  done_to s vs ls Q -> scratch r -> (forall g f, Q g f -> g r = slot v) -> in_u 64 (slot v) -> (length vs < depth)%nat ->
  ok 1 (emit_push (G64 r)) (fun _ s1 => after_push s s1 r v vs ls) s.
Proof.
  intros [He Hs] Hr Hin Hv Hd. unfold stale in Hs.
  assert (E : emit_push (G64 r) s = (push_code r;; push_recent_op (code s) (generic_register_push_op (G64 r))) s).
  { unfold emit_push, push_code, gets, mbind, M_bind. simpl num.
    destruct (emit_REX_prefix false false false (bit3 r) s) as [[[]|e|w] s1]; done. }
  eapply ok_eq; [exact E|]. destruct (push_encoding r Hr) as (bs & Hw & Hl & Hde).
  replace 1 with (1 + 0) by lia. apply code_bind; [lia|].
  eapply code_mono; [eapply (ok_instr _ _ _ _ _ _ _ (v :: vs) ls any); [exact He|lia|exact Hw|exact Hde|done|]|lia|].
  - intros m [Hm Hq%Hin].
    destruct (exec_push _ _ _ _ geo _ _ _ _ _ Hm Hd Hr Hq Hv) as (m' & Ex & Hm' & _).
    exists m'. split; [done|]. split; [done|]. by constructor.
  - intros _ s1 [-> [He1 _]]. split; [by eexists _, _|]. intros [] s2 [= <-].
    split; [simpl; lia|]. split; [by destruct s|].
    assert (Hn : (op_end (recent_ops1 s) =? code s + Z.of_nat (length bs)) = false) by (apply Z.eqb_neq; simpl; lia).
    rewrite Hn. split; simpl; try done; try lia.
    + split; [apply He1|]. apply He1.
    + apply put_agrees.
Qed.
Lemma after_push_inv s s1 r v vs ls (Q : condition) :
  after_push s s1 r v vs ls -> done_to s vs ls Q -> scratch r -> (forall g f, Q g f -> g r = slot v) -> inv s1 (v :: vs) ls.
Proof.
  intros [E1 E2 E3 E4 E5] [He Hs] Hr Hin. unfold stale in Hs. destruct (emitted_positive _ _ _ _ He) as [_ Hp].
  split; [done|]. rewrite E3, E4. split; [simpl; lia|]. intros _. simpl.
  split; [split; [simpl; lia|]|split; [lia|split; [lia|lia]]]. simpl.
  exists r, v, vs. split; [done|]. split; [done|]. split; [done|].
  eapply reaches_agrees; [exact E5|]. eapply arrives_mono; [|apply He].
  intros g f Hq. apply reg_is_1. by eapply Hin.
Qed.
Lemma code_push s v vs ls (Q : condition) r :
  done_to s vs ls Q -> scratch r -> (forall g f, Q g f -> g r = slot v) -> in_u 64 (slot v) -> (length vs < depth)%nat ->
  ok 1 (emit_push (G64 r)) (fun _ s1 => inv s1 (v :: vs) ls) s.
Proof.
  intros. eapply code_mono; [by eapply ok_push_code|lia|]. intros [] s1 Ha. by eapply after_push_inv.
Qed.

(** An entry that replaces that of the push; the instruction began at [s0]. *)
Lemma ok_record s0 s s1 r v vs ls d :
  inv s0 vs ls -> after_push s s1 r v vs ls -> code s0 <= code s -> recent_ops1 s = recent_ops1 s0 ->
  agrees (bytes s) (bytes s0) a0 (code s0) ->
  promise (bytes s1) (RecentOp (code s0) (code s1) d) (v :: vs) ls ->
  is_register_push (RecentOp (code s0) (code s1) d) = false ->
  ok 0 (push_recent_op (code s0) d) (fun _ s2 => inv s2 (v :: vs) ls) s1.
Proof.
  intros [He [Hend Hp]] [E1 E2 E3 E4 E5] Hc Er Hb Hpr Hreg.
  split; [by eexists _, _|]. intros [] s2 [= <-].
  split; [simpl; lia|]. split; [by destruct s1|]. rewrite E4. simpl. rewrite Z.eqb_refl, E3, Er.
  split; [by split; apply E2|]. split; [simpl; lia|]. intros _.
  split; [done|]. split; [simpl; lia|]. split; [unfold is_register_push in *; simpl in *; by rewrite Hreg|].
  simpl op_start. intros Ho. destruct (Hp Ho) as [Hpr0 _]. simpl tail.
  eapply promise_agrees; [|rewrite Ho; exact (Z.le_refl (code s0))| |exact Hpr0].
  - eapply agrees_trans; [eapply agrees_sub; [exact E5|lia]|done].
  - destruct Hpr0 as [? _]. simpl. lia.
Qed.

(** *** Behind other code, and without the record *)
Lemma ok_pop_next s v vs ls l r :
  done_to s (v :: vs) ls (regs_are l) -> scratch r -> fresh r l -> fresh 4 l ->
  ok 1 (emit_pop (G64 r)) (fun _ s' => done_to s' vs ls (regs_are ((r, slot v) :: l))) s.
Proof.
  intros [He Hs] Hr Hf H4. unfold emit_pop. rewrite release.
  do 2 (eapply ok_bind_ret; [by apply try_pop_stale|apply same_code_refl|lia|]). simpl.
  eapply ok_bind_ret; [by apply try_undo_stale|apply same_code_refl|lia|]. simpl.
  unfold stale in Hs. apply ok_pop_code; try done. lia.
Qed.
Lemma ok_push_writes k bs s v vs ls (Q : condition) r :
  done_to s vs ls Q -> scratch r -> (forall g f, Q g f -> g r = slot v) -> in_u 64 (slot v) ->
  (length vs < depth)%nat -> writes k bs -> length bs = 1%nat -> decodes bs (Machine.Push r) ->
  ok 1 k (fun _ s' => inv s' (v :: vs) ls) s.
Proof.
  intros [He Hs] Hr Hq Hv Hd Hw Hl Hde. unfold stale in Hs.
  eapply code_mono; [eapply (ok_instr _ _ _ _ _ _ _ (v :: vs) ls any); [exact He|lia|exact Hw|exact Hde|done|]|lia|].
  - intros m [Hm Hm'%Hq]. destruct (exec_push _ _ _ _ geo _ _ _ _ _ Hm Hd Hr Hm' Hv) as (m' & Ex & Hf & _).
    exists m'. split; [done|]. split; [done|]. by constructor.
  - intros [] s' [_ H]. by eapply done_inv.
Qed.
(** The operands fit on the machine's stack. *)
Lemma emitted_depth s vs ls Q : emitted s vs ls Q -> (length vs <= depth)%nat.
Proof. intros [_ [_ H]]. destruct (H (bytes s)) as (n & m & _ & _ & Hf & _); [done|]. apply Hf. Qed.
Lemma inv_depth s vs ls : inv s vs ls -> (length vs <= depth)%nat.
Proof. intros [H _]. by eapply emitted_depth. Qed.

(** *** Instructions that take an operand from the record *)
Lemma ok_fold {A B} n (as_T : recent_data -> option A) (P : A -> Prop) (f : option A -> M t B) (Q : B -> t -> Prop) s v vs ls :
  inv s (v :: vs) ls ->
  (forall p, promise (bytes s) (recent_ops1 s) (v :: vs) ls -> as_T (op_data (recent_ops1 s)) = Some p ->
     P p /\ arrives (bytes s) (op_start (recent_ops1 s)) vs ls any) ->
  (forall p s', P p -> inv s' vs ls -> ok n (f (Some p)) Q s') -> ok n (f None) Q s ->
  ok n (x ← try_pop_recent_op as_T; f x) Q s.
Proof.
  intros Hi HP Hsome Hnone. pose proof Hi as [_ [_ Hp]].
  destruct (try_pop_cases as_T s) as [[E _]|(x & Hc & Hx & E)].
  - eapply ok_bind_ret; [exact E|apply same_code_refl|lia|done].
  - destruct (Hp Hc) as (Hpr & _). destruct (HP x Hpr Hx) as [Hx' Ha]. destruct Hpr as [Hpos _].
    eapply ok_bind_ret; [exact E|apply same_frame_taken|simpl; lia|].
    apply Hsome; [done|]. by eapply taken_back_inv.
Qed.
Lemma ok_fold_local {B} n (f : option operand -> M t B) (Q : B -> t -> Prop) s v vs ls :
  inv s (v :: vs) ls ->
  (forall i o w s', local_at offs i o -> ls !! i = Some w -> slot w = slot v -> inv s' vs ls -> ok n (f (Some (Disp 5 o))) Q s') ->
  ok n (f None) Q s -> ok n (x ← try_pop_recent_op as_get_local; f x) Q s.
Proof.
  intros Hi Hs. eapply (ok_fold _ _ (fun e => exists i o w, e = Disp 5 o /\ local_at offs i o /\ ls !! i = Some w /\ slot w = slot v)); [done|..].
  - intros p [_ HP] Hx. destruct (op_data (recent_ops1 s)); try done. injection Hx as ->.
    destruct HP as (i & o & w & v' & vs' & [= <- <-] & ? & ? & ? & ? & Ha & _). split; [by exists i, o, w|done].
  - intros p s' (i & o & w & -> & ? & ? & ?) Hi'. by eapply Hs.
Qed.
Lemma ok_fold_i32 {B} n (f : option Z -> M t B) (Q : B -> t -> Prop) s v vs ls :
  inv s (v :: vs) ls ->
  (forall x s', slot v = wrap 32 x -> inv s' vs ls -> ok n (f (Some x)) Q s') ->
  ok n (f None) Q s -> ok n (x ← try_pop_recent_op as_i32_const; f x) Q s.
Proof.
  intros Hi Hs. eapply (ok_fold _ _ (fun x => slot v = wrap 32 x)); [done| |done].
  intros p [_ HP] Hx. destruct (op_data (recent_ops1 s)); try done. injection Hx as ->.
  by destruct HP as (v' & vs' & [= <- <-] & ? & Ha).
Qed.
Lemma ok_fold_i64 {B} n (f : option Z -> M t B) (Q : B -> t -> Prop) s v vs ls :
  inv s (v :: vs) ls ->
  (forall x s', slot v = wrap 64 x -> inv s' vs ls -> ok n (f (Some x)) Q s') ->
  ok n (f None) Q s -> ok n (x ← try_pop_recent_op as_i64_const; f x) Q s.
Proof.
  intros Hi Hs. eapply (ok_fold _ _ (fun x => slot v = wrap 64 x)); [done| |done].
  intros p [_ HP] Hx. destruct (op_data (recent_ops1 s)); try done. injection Hx as ->.
  by destruct HP as (v' & vs' & [= <- <-] & ? & Ha).
Qed.
Lemma release_sized {A} lo hi (k : M t A) s : variable_size_instr lo hi k s = k s.
Proof.
  unfold variable_size_instr, gets, mbind, M_bind. rewrite release. simpl. by destruct (k s) as [[a|e|w] s'].
Qed.
Lemma ok_sized {A} n lo hi (k : M t A) (Q : A -> t -> Prop) s : ok n k Q s -> ok n (variable_size_instr lo hi k) Q s.
Proof.
  apply ok_eq, release_sized.
Qed.

(** An instruction that leaves its result in a register, pushes it and records [d] *)
Lemma ok_recorded k bs i r v vs ls Q d s :
  inv s vs ls -> emitted s vs ls Q -> writes k bs -> decodes bs i -> is_jump i = false -> (length bs <= 10)%nat ->
  computes vs ls i Q (reg_is r (slot v)) -> scratch r -> in_u 64 (slot v) -> (length vs < depth)%nat ->
  (forall a b, is_register_push (RecentOp a b d) = false) ->
  (forall bs' c, code s < c -> arrives bs' (code s) vs ls any -> arrives bs' (c - 1) vs ls (reg_is r (slot v)) ->
     promise bs' (RecentOp (code s) c d) (v :: vs) ls) ->
  ok 11 (k;; emit_push (G64 r);; push_recent_op (code s) d) (fun _ s' => inv s' (v :: vs) ls) s.
Proof.
  intros Hi He Hw Hd Hj Hl Hx Hr Hv Hdep Hreg Hpr. pose proof Hi as [_ [Hend _]].
  replace 11 with (10 + 1) by lia. apply code_bind; [lia|].
  eapply code_mono; [eapply (ok_instr _ _ _ _ _ _ _ vs ls (reg_is r (slot v))); [exact He|exact Hend|exact Hw|exact Hd|exact Hj|]|lia|].
  { intros m [Hm Hq]. destruct (Hx m Hm Hq) as (r' & x & fl & Hr' & E & Hq'). eexists. split; [done|].
    destruct Hr' as [-> |(n & -> & Hn)]; (split; [|done]); by repeat first [apply frame_set_flags|apply frame_set_reg]. }
  intros [] s1 [Es1 H1]. replace 1 with (1 + 0) by lia. apply code_bind; [lia|].
  assert (Hb1 : agrees (bytes s1) (bytes s) a0 (code s)) by (rewrite Es1; apply put_agrees).
  assert (Hc1 : code s < code s1) by (rewrite Es1; simpl; destruct Hd as [[? _] _]; lia).
  assert (Hr1 : recent_ops1 s1 = recent_ops1 s) by (by rewrite Es1).
  clear Es1. eapply code_mono; [eapply (ok_push_code s1 v); [exact H1|done| |done|done]|lia|].
  { intros g f. by apply reg_is_1. }
  intros [] s2 H2. pose proof H2 as [E1 E2 _ _ E5].
  assert (Hb2 : agrees (bytes s2) (bytes s) a0 (code s)) by (eapply agrees_trans; [eapply agrees_sub; [exact E5|lia]|done]).
  eapply ok_record; [exact Hi|exact H2|lia|done|done| |done].
  apply Hpr; [lia| |].
  - eapply arrives_any, reaches_agrees; [exact Hb2|]. apply He.
  - replace (code s2 - 1) with (code s1) by lia. eapply reaches_agrees; [exact E5|]. apply H1.
Qed.
Lemma bind_assoc {A B C} (k : M t A) (f : A -> M t B) (g : B -> M t C) s :
  ((a ← k; f a) ≫= g) s = (a ← k; b ← f a; g b) s.
Proof. unfold mbind, M_bind. by destruct (k s) as [[a|e|w] s']. Qed.
End Fold.
