(* ===== verification/X86Ops.v ===== *)
(** * The instructions of straight-line integer code (x86_64.hpp)

    For every instruction the operands before and after it, whatever the record of the
    last two instructions holds: the emitted code computes the value that WebAssembly
    asks for. *)
From S2P Require Import Prelude Allocator Opcodes Types LinearMemory Interpreter InstanceProofs IntegerOps X86 X86Control X86Integer X86Machine X86Encoding X86Frame X86Emit X86Fold.
Import X86 X86Control X86Integer.

(** ** Encodings *)
Ltac scratch_tac := unfold scratch; lia.
Ltac elem_tac := repeat first [apply list_elem_of_here|apply list_elem_of_further].
Ltac take2 := intros s vs ls a b Hi Ha Hb.
Ltac encode := eexists; split; [writes_tac|split; [cbv; lia|decodes_tac]].

(** The instruction of two registers: [opcode] and what it decodes to *)
Definition encodes (k : M t unit) (i : Machine.instr) : Prop :=
  exists bs, writes k bs /\ (length bs <= 10)%nat /\ decodes bs i.

Lemma encodes_alu32 (op : Machine.alu) (opcode : Z) a b :
  In (op, opcode) [(Machine.ADD, 0x03); (Machine.OR, 0x0b); (Machine.AND, 0x23); (Machine.SUB, 0x2b); (Machine.XOR, 0x33); (Machine.CMP, 0x3b)] ->
  scratch a -> scratch b ->
  encodes (emit (IA32_WX [opcode]) [G32 a; G32 b]) (Machine.Alu op 32 (Machine.RReg b) (Machine.RReg a)).
Proof.
  unfold encodes. intros Hop Ha Hb. simpl in Hop.
  repeat (destruct Hop as [[= <- <-]|Hop]; [destruct Ha as [-> |[-> | ->]], Hb as [-> |[-> | ->]]; encode|]). done.
Qed.

(** Decoding when the bytes behind the opcode are abstract *)
Ltac take_with H :=
  lazymatch type of H with
  | Machine.take_disp _ ?t = _ => let x := fresh "rest" in set (x := t) in *; clearbody x
  end; lazy -[Machine.take_disp]; rewrite H; reflexivity.

(** A local as the second operand *)
Definition alu_opcodes : list (Machine.alu * Z) :=
  [(Machine.ADD, 0x03); (Machine.OR, 0x0b); (Machine.AND, 0x23); (Machine.SUB, 0x2b); (Machine.XOR, 0x33); (Machine.CMP, 0x3b)].
Lemma encodes_local (w : bool) W op reg o i :
  in_s 32 o -> scratch (num reg) -> get_operand_size W (Disp 5 o) reg = w -> bytes_ok [op] ->
  (forall tail rest, Machine.decode_modrm 0 0 0 tail = Some (num reg, Machine.RMem 5 None o, rest) ->
     Machine.decode ((if w then [0x48] else []) ++ op :: tail) = Some (i, rest)) ->
  encodes (emit_rm W [op] (Disp 5 o) reg) i.
Proof.
  intros Ho Hr Hw Hop Hd.
  destruct (emit_modrm_reads (Disp 5 o) (num reg)) as (bs & Hwr & Hlen & Hrd);
    [unfold scratch in Hr; lia|split; [lia|done]|].
  exists ((if w then [0x48] else []) ++ [op] ++ bs). split; [|split].
  - unfold emit_rm. rewrite Hw. apply writes_seq; [|apply writes_seq; [|done]].
    + simpl. unfold bit3 at 1. destruct Hr as [-> |[-> | ->]], w; apply writes_nil || apply writes_bytes.
    + pose proof (writes_bytes [op]) as H. unfold bytes_ok in Hop. by rewrite Hop in H.
  - destruct w; simpl; lia.
  - split; [destruct w; simpl; lia|]. intros rest. rewrite <- !app_assoc. apply Hd.
    specialize (Hrd rest). destruct Hr as [Er |[Er | Er]]; rewrite Er in *; exact Hrd.
Qed.
Ltac encode_local w := apply (encodes_local w);
  [done|unfold scratch; simpl; lia|reflexivity|reflexivity
  |intros tail rest Hd; simpl in Hd; lazy -[Machine.decode_modrm]; rewrite Hd; reflexivity].

Lemma encodes_add_local o : in_s 32 o ->
  encodes (emit ADD_A [Disp 5 o; eax]) (Machine.Alu Machine.ADD 32 (Machine.RReg 0) (Machine.RMem 5 None o)).
Proof. intros Ho. encode_local false. Qed.
Lemma encodes_xor_local o : in_s 32 o ->
  encodes (emit XOR_A [Disp 5 o; eax]) (Machine.Alu Machine.XOR 32 (Machine.RReg 0) (Machine.RMem 5 None o)).
Proof. intros Ho. encode_local false. Qed.
Lemma encodes_load_local o : in_s 32 o ->
  encodes (emit_mov (Disp 5 o) rax) (Machine.Mov 64 (Machine.RReg 0) (Machine.RMem 5 None o)).
Proof. intros Ho. encode_local true. Qed.
Lemma encodes_store_local o : in_s 32 o ->
  encodes (emit_mov rax (Disp 5 o)) (Machine.Mov 64 (Machine.RMem 5 None o) (Machine.RReg 0)).
Proof. intros Ho. encode_local true. Qed.
Lemma encodes_store_local32 o : in_s 32 o ->
  encodes (emit_mov eax (Disp 5 o)) (Machine.Mov 32 (Machine.RMem 5 None o) (Machine.RReg 0)).
Proof. intros Ho. encode_local false. Qed.

(** An immediate operand of %eax; a small one takes a byte. *)
Lemma encodes_imm op op8 ext x :
  In (op, op8, ext) [(Machine.ADD, ADD_imm8, 0); (Machine.OR, OR_imm8, 1); (Machine.AND, over (IA32_WX [0x83]) 4, 4);
                     (Machine.SUB, SUB_imm8, 5); (Machine.XOR, XOR_imm8, 6)] ->
  encodes (emit_imm op8 (over (IA32_WX_imm32 [0x81]) ext) (sext 32 x) eax)
    (Machine.AluImm op 32 (Machine.RReg 0) (sext 32 x)).
Proof.
  intros Hop. pose proof (sext_in_s 32 x ltac:(lia)) as Hx. set (d := sext 32 x) in *. clearbody d.
  unfold emit_imm. destruct ((d <=? 0x7F) && (-0x80 <=? d)) eqn:Hs.
  - assert (Hd : in_s 8 d) by (unfold in_s; simpl; lia).
    assert (Htake : forall rest, Machine.take_disp 1 ([wrap 8 d] ++ rest) = Some (d, rest))
      by (intros rest; by apply (take_disp_encode 1 d); [lia|]).
    simpl in Hop. repeat (destruct Hop as [[= <- <- <-]|Hop]; [eexists; split; [writes_tac|split; [simpl; lia|]]|]); try done.
    all: split; [simpl; lia|]; intros rest; specialize (Htake rest); rewrite <- !app_assoc; take_with Htake.
  - assert (Htake : forall rest, Machine.take_disp 4 (le_encode 4 d ++ rest) = Some (d, rest))
      by (intros rest; by apply (take_disp_encode 4 d); [lia|]).
    simpl in Hop. repeat (destruct Hop as [[= <- <- <-]|Hop]; [eexists; split; [writes_tac|split; [simpl; lia|]]|]); try done.
    all: split; [simpl; lia|]; intros rest; specialize (Htake rest); rewrite <- !app_assoc; take_with Htake.
Qed.

Section Ops.
Context `{sys : Sys} `{jit : Jit} {start : Start}.
Implicit Types (vs ls : list operand_stack_elem) (s : t).

Lemma ok_then {A B} n n1 (k : M t A) (f : A -> M t B) (Q1 : A -> t -> Prop) (Q : B -> t -> Prop) s :
  ok n1 k Q1 s -> n1 <= n -> (forall a s', Q1 a s' -> ok (n - n1) (f a) Q s') -> ok n (a ← k; f a) Q s.
Proof.
  intros Hk Hn Hf. replace n with (n1 + (n - n1)) by lia. apply code_bind; [lia|].
  eapply code_mono; [exact Hk|lia|]. intros a s' H. by apply Hf.
Qed.
Lemma ok_encodes n s vs ls Q Q' k i :
  done_to s vs ls Q -> encodes k i -> is_jump i = false -> 10 <= n -> computes vs ls i Q Q' ->
  ok n k (fun _ s' => done_to s' vs ls Q') s.
Proof.
  intros [He Hs] (bs & Hw & Hl & Hd) Hj Hn Hx. unfold stale in Hs.
  eapply ok_compute; [exact He|lia|exact Hw|exact Hd|exact Hj|lia|exact Hx].
Qed.

(** Two operands popped, an instruction, its result pushed *)
Lemma ok_binary k i r1 r2 rr v1 v2 v s vs ls :
  inv s (v1 :: v2 :: vs) ls -> scratch r1 -> scratch r2 -> r1 <> r2 -> scratch rr ->
  in_u 64 (slot v1) -> in_u 64 (slot v) ->
  encodes k i -> is_jump i = false -> computes vs ls i (regs_are [(r2, slot v2); (r1, slot v1)]) (reg_is rr (slot v)) ->
  ok 64 (emit_pop (G64 r1);; emit_pop (G64 r2);; k;; emit_push (G64 rr)) (fun _ s' => inv s' (v :: vs) ls) s.
Proof.
  intros Hi H1 H2 Hne Hr Hv1 Hv Hk Hj Hc. pose proof (inv_depth _ _ _ Hi) as Hd. simpl in Hd.
  eapply ok_then; [eapply code_pop; [exact Hi|done|done]|lia|]. intros [] s1 Hs1.
  eapply ok_then; [eapply ok_pop_next; [exact Hs1|done| |]|lia|].
  { by constructor. } { constructor; [|done]. simpl. unfold scratch in H1. lia. }
  intros [] s2 Hs2. eapply ok_then; [eapply ok_encodes; [exact Hs2|exact Hk|exact Hj|exact (Z.le_refl 10)|exact Hc]|lia|].
  intros [] s3 Hs3. eapply ok_more; [eapply code_push; [exact Hs3|done| |done|lia]|lia].
  intros g f. by apply reg_is_1.
Qed.

(** *** What the instructions compute *)
Definition alu_value (op : Machine.alu) (x y : Z) : Z :=
  match op with
  | Machine.ADD => x + y | Machine.OR => Z.lor x y | Machine.AND => Z.land x y
  | Machine.SUB | Machine.CMP => x - y | Machine.XOR => Z.lxor x y
  end.
Lemma width_pos w : width_ok w -> 0 < w.
Proof. intros [-> | ->]; lia. Qed.
Lemma put_reg w r v m : width_ok w -> Machine.put w (Machine.RReg r) v m = Machine.set_reg r (wrap w v) m.
Proof. by intros [-> | ->]. Qed.
Lemma upd_same r v g : Machine.upd r v g r = v.
Proof. unfold Machine.upd. by rewrite Z.eqb_refl. Qed.

(** One register is set, and nothing else but the flags. *)
Lemma computes_set vs ls i (Q Q' : condition) r v :
  scratch r ->
  (forall m, frame m0 sp depth offs vs ls m -> Q (Machine.regs m) (Machine.flags m) ->
     exists fl, Machine.exec i m = Some (Machine.set_flags fl (Machine.set_reg r v m)) /\
       Q' (Machine.upd r v (Machine.regs m)) fl) ->
  computes vs ls i Q Q'.
Proof.
  intros Hr H m Hm Hq. destruct (H m Hm Hq) as (fl & E & Hq'). exists (Some r), v, fl.
  split; [right; by exists r|done].
Qed.
Lemma exec_alu_set op w d y m : width_ok w -> op <> Machine.CMP -> exists fl,
  Machine.exec_alu op w (Machine.RReg d) y m =
    Machine.set_flags fl (Machine.set_reg d (wrap w (alu_value op (wrap w (Machine.regs m d)) y)) m).
Proof.
  intros Hw Hop. pose proof (width_pos w Hw).
  destruct op; try done; eexists; unfold Machine.exec_alu; rewrite put_reg by done; rewrite ?wrap_wrap by lia; done.
Qed.
Lemma computes_alu vs ls op w d src x y Q :
  width_ok w -> scratch d -> op <> Machine.CMP -> in_u w x ->
  (forall m, frame m0 sp depth offs vs ls m -> Q (Machine.regs m) (Machine.flags m) ->
     Machine.regs m d = x /\ Machine.get w src m = y) ->
  computes vs ls (Machine.Alu op w (Machine.RReg d) src) Q (reg_is d (wrap w (alu_value op x y))).
Proof.
  intros Hw Hd Hop Hx H. apply (computes_set _ _ _ _ _ d (wrap w (alu_value op x y))); [done|]. intros m Hm Hq.
  destruct (H m Hm Hq) as [E1 E2]. simpl. rewrite E2.
  destruct (exec_alu_set op w d y m Hw Hop) as (fl & ->). rewrite E1, (wrap_small w x) by done.
  exists fl. split; [done|]. apply reg_is_1, upd_same.
Qed.
Lemma computes_alu_imm vs ls op w d imm x y Q :
  width_ok w -> scratch d -> op <> Machine.CMP -> in_u w x -> wrap w imm = y ->
  (forall g f, Q g f -> g d = x) ->
  computes vs ls (Machine.AluImm op w (Machine.RReg d) imm) Q (reg_is d (wrap w (alu_value op x y))).
Proof.
  intros Hw Hd Hop Hx Hy H. apply (computes_set _ _ _ _ _ d (wrap w (alu_value op x y))); [done|]. intros m Hm Hq.
  simpl. rewrite Hy. destruct (exec_alu_set op w d y m Hw Hop) as (fl & ->).
  rewrite (H _ _ Hq), (wrap_small w x) by done. exists fl. split; [done|]. apply reg_is_1, upd_same.
Qed.
Lemma computes_imul vs ls w d r x y Q :
  width_ok w -> scratch d -> in_u w x -> in_u w y -> (forall g f, Q g f -> g d = x /\ g r = y) ->
  computes vs ls (Machine.Imul w d (Machine.RReg r)) Q (reg_is d (wrap w (x * y))).
Proof.
  intros Hw Hd Hx Hy H. apply (computes_set _ _ _ _ _ d (wrap w (x * y))); [done|]. intros m _ Hq.
  destruct (H _ _ Hq) as [E1 E2]. simpl. rewrite E1, E2, (wrap_small w x), (wrap_small w y) by done. eexists.
  split; [done|]. apply reg_is_1, upd_same.
Qed.
Lemma computes_shift vs ls op w d count n x Q :
  width_ok w -> scratch d -> in_u w x ->
  (forall g f, Q g f -> g d = x /\ match count with Some c => c = n | None => g 1 = n end) ->
  computes vs ls (Machine.Shift op w (Machine.RReg d) count) Q (reg_is d (wrap w (Machine.exec_shift op w x n))).
Proof.
  intros Hw Hd Hx H. apply (computes_set _ _ _ _ _ d (wrap w (Machine.exec_shift op w x n))); [done|]. intros m _ Hq.
  destruct (H _ _ Hq) as [E1 E2]. exists None.
  assert (E : (match count with Some n => n | None => Machine.regs m 1 end) = n) by by destruct count.
  split; [|apply reg_is_1, upd_same]. unfold Machine.exec. rewrite E, put_reg by done. simpl Machine.get.
  by rewrite E1, (wrap_small w x).
Qed.
(** ** Shapes of instructions *)

(** [k] replaces operands [a] and [b], [b] on top, of width [w] by one of width [r]. *)
Definition takes2 (w : bool) (k : M t unit) (r : bool) (f : Z -> Z -> Z) : Prop := forall s vs ls a b,
  inv s (const w b :: const w a :: vs) ls -> in_u (width w) a -> in_u (width w) b ->
  ok 64 k (fun _ s' => inv s' (const r (wrap (width r) (f a b)) :: vs) ls) s.

Lemma width_cases w : width_ok (width w).
Proof. destruct w; [by right|by left]. Qed.
Lemma slot_const w n : slot (const w n) = n.
Proof. by destruct w. Qed.
Lemma in_u_64 w n : in_u (width w) n -> in_u 64 n.
Proof. unfold in_u. destruct w; simpl; lia. Qed.
Lemma in_u_wrap w n : in_u 64 (wrap (width w) n).
Proof. apply (in_u_64 w), wrap_in_u. destruct w; simpl; lia. Qed.
Lemma regs_are_2 a x b y g f : regs_are [(a, x); (b, y)] g f -> g a = x /\ g b = y.
Proof. intros H. split; eapply regs_are_at; [|exact H| |exact H]; elem_tac. Qed.

Lemma takes2_binary w r f k i r1 r2 rr :
  scratch r1 -> scratch r2 -> r1 <> r2 -> scratch rr -> encodes k i -> is_jump i = false ->
  (forall vs ls a b, in_u (width w) a -> in_u (width w) b ->
     computes vs ls i (regs_are [(r2, a); (r1, b)]) (reg_is rr (wrap (width r) (f a b)))) ->
  takes2 w (emit_pop (G64 r1);; emit_pop (G64 r2);; k;; emit_push (G64 rr)) r f.
Proof.
  intros H1 H2 Hne Hr Hk Hj Hc s vs ls a b Hi Ha Hb.
  eapply ok_binary; [exact Hi|done..| | |exact Hk|exact Hj|]; rewrite ?slot_const.
  - by eapply in_u_64.
  - apply in_u_wrap.
  - by apply Hc.
Qed.
Lemma takes2_sized w r f n1 n2 k : takes2 w k r f -> takes2 w (variable_size_instr n1 n2 k) r f.
Proof. intros H s vs ls a b Hi Ha Hb. apply ok_sized. by apply H. Qed.

(** With one operand: pop, an instruction, push *)
Lemma ok_unary k i r rr v1 v s vs ls :
  inv s (v1 :: vs) ls -> scratch r -> scratch rr -> in_u 64 (slot v1) -> in_u 64 (slot v) ->
  encodes k i -> is_jump i = false -> computes vs ls i (reg_is r (slot v1)) (reg_is rr (slot v)) ->
  ok 64 (emit_pop (G64 r);; k;; emit_push (G64 rr)) (fun _ s' => inv s' (v :: vs) ls) s.
Proof.
  intros Hi H1 Hr Hv1 Hv Hk Hj Hc. pose proof (inv_depth _ _ _ Hi) as Hd. simpl in Hd.
  eapply ok_then; [eapply code_pop; [exact Hi|done|done]|lia|]. intros [] s1 Hs1.
  eapply ok_then; [eapply ok_encodes; [exact Hs1|exact Hk|exact Hj|exact (Z.le_refl 10)|exact Hc]|lia|].
  intros [] s3 Hs3. eapply ok_more; [eapply code_push; [exact Hs3|done| |done|lia]|lia].
  intros g f. by apply reg_is_1.
Qed.
Lemma ok_assoc_ret n (k1 k2 k3 : M t unit) (Q : unit -> t -> Prop) s :
  ok n (k1;; k2;; k3) Q s -> ok n (k1;; k2;; k3;; mret tt) Q s.
Proof.
  apply ok_eq. unfold mbind, M_bind. destruct (k1 s) as [[[]|e|x] s1]; try done.
  destruct (k2 s1) as [[[]|e|x] s2]; try done. by destruct (k3 s2) as [[[]|e|x] s3].
Qed.
(** ** Binary instructions without folding *)
Lemma emit_i32_mul_ok : takes2 false emit_i32_mul false Z.mul.
Proof.
  apply takes2_sized. apply (takes2_binary _ _ _ _ (Machine.Imul 32 0 (Machine.RReg 1))); try scratch_tac; try done; [encode|].
  intros vs ls a b Ha Hb. simpl width. rewrite Z.mul_comm.
  apply computes_imul; [by left|scratch_tac|done|done|]. intros g f [E1 E2]%regs_are_2. done.
Qed.
Lemma emit_i64_mul_ok : takes2 true emit_i64_mul true Z.mul.
Proof.
  apply takes2_sized. apply (takes2_binary _ _ _ _ (Machine.Imul 64 0 (Machine.RReg 1))); try scratch_tac; try done; [encode|].
  intros vs ls a b Ha Hb. simpl width. rewrite Z.mul_comm.
  apply computes_imul; [by right|scratch_tac|done|done|]. intros g f [E1 E2]%regs_are_2. done.
Qed.
(** ** Binary instructions that fold *)

(** The second operand is a local of the frame. *)
Lemma ok_local_alu op k i o v a b n vs ls s :
  slot v = b -> in_u 32 b -> n = wrap 32 (alu_value op a b) -> inv s (const false a :: vs) ls -> local_at offs i o -> ls !! i = Some v -> in_u 32 a -> op <> Machine.CMP ->
  encodes k (Machine.Alu op 32 (Machine.RReg 0) (Machine.RMem 5 None o)) ->
  ok 64 (emit_pop rax;; k;; emit_push rax;; mret tt)
    (fun _ s' => inv s' (const false n :: vs) ls) s.
Proof.
  intros Hvb Hb -> Hi Hl Hv Ha Hop Hk. apply ok_assoc_ret. eapply ok_unary; [exact Hi|scratch_tac|scratch_tac| | |exact Hk|done|].
  - by apply (in_u_64 false).
  - apply (in_u_wrap false).
  - apply computes_alu; [by left|scratch_tac|done|done|]. intros m Hm Hq%reg_is_1. split; [done|].
    rewrite (get_local_32 m0 sp depth offs geo i o v vs ls), Hvb by done. by apply wrap_small.
Qed.
(** It is a constant. *)
Lemma ok_imm_alu op op8 ext a b x vs ls s :
  inv s (const false a :: vs) ls -> in_u 32 a -> b = wrap 32 x -> op <> Machine.CMP ->
  In (op, op8, ext) [(Machine.ADD, ADD_imm8, 0); (Machine.OR, OR_imm8, 1); (Machine.AND, over (IA32_WX [0x83]) 4, 4);
                     (Machine.SUB, SUB_imm8, 5); (Machine.XOR, XOR_imm8, 6)] ->
  ok 64 (emit_pop rax;; emit_imm op8 (over (IA32_WX_imm32 [0x81]) ext) (sext 32 x) eax;; emit_push rax;; mret tt)
    (fun _ s' => inv s' (const false (wrap 32 (alu_value op a b)) :: vs) ls) s.
Proof.
  intros Hi Ha -> Hop Hin. apply ok_assoc_ret.
  eapply ok_unary; [exact Hi|scratch_tac|scratch_tac| | |by apply encodes_imm|done|].
  - by apply (in_u_64 false).
  - apply (in_u_wrap false).
  - apply computes_alu_imm; [by left|scratch_tac|done|done|apply wrap_sext; lia|]. intros g f. by apply reg_is_1.
Qed.
(** Neither is known: two pops *)
Lemma takes2_alu (w : bool) op k f :
  op <> Machine.CMP -> encodes k (Machine.Alu op (width w) (Machine.RReg 0) (Machine.RReg 1)) ->
  (forall a b, alu_value op b a = f a b) ->
  takes2 w (emit_pop rax;; emit_pop rcx;; k;; emit_push rax) w f.
Proof.
  intros Hop Hk Hf. eapply takes2_binary; [scratch_tac|scratch_tac|lia|scratch_tac|exact Hk|done|].
  intros vs ls a b Ha Hb. rewrite <- Hf. apply computes_alu; [apply width_cases|scratch_tac|done|done|].
  intros m _ [E1 E2]%regs_are_2. split; [done|]. simpl. rewrite E1. by apply wrap_small.
Qed.

Lemma fold_value x b : slot (const false b) = wrap 32 x -> b = wrap 32 x.
Proof. done. Qed.

Lemma emit_i32_add_ok : takes2 false emit_i32_add false Z.add.
Proof.
  take2. unfold emit_i32_add. eapply ok_fold_local; [exact Hi| |].
  - intros i o w s' Hl Hv Hsl Hi'. destruct (geo_in _ _ _ _ geo i o Hl) as [Ho _].
    eapply (ok_local_alu Machine.ADD _ i o w a b);
      [exact Hsl|done|done|exact Hi'|done|done|done|done|by apply encodes_add_local].
  - eapply ok_fold_i32; [exact Hi| |].
    + intros x s' Hx Hi'. by apply (ok_imm_alu Machine.ADD ADD_imm8 0); [..|left].
    + apply ok_sized, (takes2_alu false Machine.ADD); try done; [encode|simpl; lia].
Qed.
Lemma emit_i32_sub_ok : takes2 false emit_i32_sub false Z.sub.
Proof.
  take2. unfold emit_i32_sub. eapply ok_fold_i32; [exact Hi| |].
  - intros x s' Hx Hi'. by apply (ok_imm_alu Machine.SUB SUB_imm8 5); [..|do 3 right; left].
  - apply ok_sized. eapply (takes2_binary false false Z.sub _ (Machine.Alu Machine.SUB 32 (Machine.RReg 0) (Machine.RReg 1)));
      try scratch_tac; [encode|done| |done..].
    clear. intros vs ls a b Ha Hb. apply computes_alu; [by left|scratch_tac|done|done|].
    intros m _ [E1 E2]%regs_are_2. split; [done|]. simpl. rewrite E2. by apply wrap_small.
Qed.
Lemma emit_i32_and_ok : takes2 false emit_i32_and false Z.land.
Proof.
  take2. unfold emit_i32_and. eapply ok_fold_i32; [exact Hi| |].
  - intros x s' Hx Hi'. by apply (ok_imm_alu Machine.AND (over (IA32_WX [0x83]) 4) 4); [..|do 2 right; left].
  - apply ok_sized, (takes2_alu false Machine.AND); try done; [encode|intros; apply Z.land_comm].
Qed.
Lemma emit_i32_or_ok : takes2 false emit_i32_or false Z.lor.
Proof.
  take2. unfold emit_i32_or. eapply ok_fold_i32; [exact Hi| |].
  - intros x s' Hx Hi'. by apply (ok_imm_alu Machine.OR OR_imm8 1); [..|right; left].
  - apply ok_sized, (takes2_alu false Machine.OR); try done; [encode|intros; apply Z.lor_comm].
Qed.
Lemma lxor_ones a : in_u 32 a -> Z.lxor a 0xffffffff = wrap 32 (Z.lnot a).
Proof.
  intros Ha. apply Z.bits_inj'. intros n Hn. rewrite wrap_testbit, Z.lxor_spec, Z.lnot_spec by lia.
  change 0xffffffff with (Z.ones 32). destruct (Z.ltb_spec n 32).
  - rewrite Z.ones_spec_low by lia. simpl. apply xorb_true_r.
  - rewrite Z.ones_spec_high, (in_u_testbit 32 a n) by (done || lia). done.
Qed.
Lemma computes_not vs ls x Q :
  in_u 32 x -> (forall g f, Q g f -> g 0 = x) ->
  computes vs ls (Machine.Not 32 (Machine.RReg 0)) Q (reg_is 0 (wrap 32 (Z.lnot x))).
Proof.
  intros Hx H. apply (computes_set _ _ _ _ _ 0 (wrap 32 (Z.lnot x))); [scratch_tac|]. intros m _ Hq%H.
  exists (Machine.flags m). split; [|apply reg_is_1, upd_same].
  unfold Machine.exec. rewrite put_reg by (by left). simpl Machine.get. rewrite Hq, (wrap_small 32 x) by done.
  by rewrite wrap_wrap by lia.
Qed.

Lemma emit_i32_xor_ok : takes2 false emit_i32_xor false Z.lxor.
Proof.
  take2. unfold emit_i32_xor. eapply ok_fold_local; [exact Hi| |].
  - intros i o w s' Hl Hv Hsl Hi'. destruct (geo_in _ _ _ _ geo i o Hl) as [Ho _].
    eapply (ok_local_alu Machine.XOR _ i o w a b);
      [exact Hsl|done|done|exact Hi'|done|done|done|done|by apply encodes_xor_local].
  - eapply ok_fold_i32; [exact Hi| |].
    + intros x s' Hx Hi'. destruct (Z.eqb_spec x 0xffffffff) as [->|_].
      * apply ok_assoc_ret. rewrite slot_const in Hx. rewrite Hx.
        change (wrap 32 0xffffffff) with 0xffffffff. rewrite lxor_ones by done.
        eapply (ok_unary _ (Machine.Not 32 (Machine.RReg 0)));
          [exact Hi'|scratch_tac|scratch_tac|by apply (in_u_64 false)|apply (in_u_wrap false)|encode|done|].
        simpl slot. simpl width. rewrite wrap_wrap by lia. apply computes_not; [done|]. intros g f. by apply reg_is_1.
      * by apply (ok_imm_alu Machine.XOR XOR_imm8 6); [..|do 4 right; left].
    + apply ok_sized, (takes2_alu false Machine.XOR); try done; [encode|intros; apply Z.lxor_comm].
Qed.
Lemma emit_i64_add_ok : takes2 true emit_i64_add true Z.add.
Proof.
  take2. unfold emit_i64_add. eapply ok_fold_i64; [exact Hi| |].
  - intros x s' Hx Hi'.
    pose proof (inv_depth _ _ _ Hi) as Hd. simpl in Hd. rewrite slot_const in Hx.
    eapply ok_then; [eapply code_pop; [exact Hi'|scratch_tac|by apply (in_u_64 true)]|lia|]. intros [] s1 Hs1.
    eapply ok_then; [eapply (ok_encodes 10 _ _ _ _ (regs_are [(1, b); (0, a)]) _ (Machine.MovImm 64 1 (sext 64 x)));
      [exact Hs1| |done|lia|]|lia|].
    { destruct (writes_mov_imm 64 1 x ltac:(by right) ltac:(scratch_tac)) as (bs & ? & ? & ?). by exists bs. }
    { apply (computes_set _ _ _ _ _ 1 b); [scratch_tac|]. intros m _ Hq%reg_is_1. exists (Machine.flags m).
      split; [simpl; by rewrite wrap_sext, <- Hx by lia|]. constructor; [apply upd_same|].
      constructor; [exact Hq|constructor]. }
    intros [] s2 Hs2.
    eapply ok_then; [eapply (ok_encodes 10 _ _ _ _ (reg_is 0 (wrap 64 (a + b))) _ (Machine.Alu Machine.ADD 64 (Machine.RReg 0) (Machine.RReg 1)));
      [exact Hs2|encode|done|lia|]|lia|].
    { apply computes_alu; [by right|scratch_tac|done|done|]. intros m _ [E1 E2]%regs_are_2.
      split; [done|]. simpl. rewrite E1. by apply wrap_small. }
    intros [] s3 Hs3.
    eapply ok_then; [eapply (code_push _ (const true (wrap 64 (a + b)))); [exact Hs3|scratch_tac|intros g f; by apply reg_is_1|apply (in_u_wrap true)|lia]|lia|].
    intros [] s4 Hs4. eapply ok_more; [by apply code_ret|lia].
  - apply ok_sized, (takes2_alu true Machine.ADD); try done; [encode|simpl; lia].
Qed.
End Ops.

(** * Shifts and rotations *)
Import X86 X86Control X86Integer.

(** ** The processor's shifts are WebAssembly's *)
Lemma land_wrap w b k : width_ok w -> 0 <= k <= 32 -> Z.land (wrap w b) (Z.ones k) = Z.land b (Z.ones k).
Proof.
  intros Hw Hk. rewrite !Z.land_ones by lia. unfold wrap.
  assert (E : 2 ^ w = 2 ^ k * 2 ^ (w - k)) by (rewrite <- Z.pow_add_r by (destruct Hw; lia); f_equal; lia).
  rewrite E, Z.rem_mul_r by (destruct Hw; subst; lia).
  by rewrite (Z.mul_comm (2 ^ k)), Z.mod_add, Z.mod_mod by lia.
Qed.
Lemma width_ones w : width_ok w -> exists k, 0 < k <= 32 /\ w - 1 = Z.ones k /\ w = 2 ^ k.
Proof. intros [-> | ->]; [exists 5|exists 6]; done. Qed.
Lemma count_wrap w b : width_ok w -> Z.land (wrap w b) (w - 1) = Z.land b (w - 1).
Proof. intros Hw. destruct (width_ones w Hw) as (k & Hk & -> & _). apply land_wrap; [done|lia]. Qed.
Lemma count_idem w b : Z.land (Z.land b (w - 1)) (w - 1) = Z.land b (w - 1).
Proof. by rewrite <- Z.land_assoc, Z.land_diag. Qed.
Lemma exec_shift_count op w a b : width_ok w ->
  Machine.exec_shift op w a (Z.land b (w - 1)) = Machine.exec_shift op w a (wrap w b).
Proof. intros Hw. unfold Machine.exec_shift. by rewrite count_idem, count_wrap. Qed.

Lemma rotate_count_spec w b : width_ok w ->
  Z.land (wrap 32 b) (w - 1) = Z.land b (w - 1) /\
  Z.land (wrap 32 (- Z.land b (w - 1))) (w - 1) = (if Z.land b (w - 1) =? 0 then 0 else w - Z.land b (w - 1)).
Proof.
  intros Hw. destruct (width_ones w Hw) as (k & Hk & E1 & E2). rewrite E1.
  assert (Hc : 0 <= Z.land b (Z.ones k) < w) by (rewrite Z.land_ones, E2 by lia; apply Z.mod_pos_bound; lia).
  assert (H32 : forall x, Z.land (wrap 32 x) (Z.ones k) = Z.land x (Z.ones k)) by (intros; apply land_wrap; [by left|lia]).
  rewrite !H32. split; [done|]. set (c := Z.land b (Z.ones k)) in *. rewrite Z.land_ones, <- E2 by lia.
  rewrite opp_mod, Z.mod_small by lia. done.
Qed.
Lemma exec_rotl w a b : width_ok w -> in_u w a -> wrap w (Machine.exec_shift Machine.ROL w a b) = wrap w (rotl w a b).
Proof.
  intros Hw Ha. pose proof (width_pos w Hw). unfold Machine.exec_shift, rotl. cbv zeta. rewrite wrap_wrap by lia.
  destruct (rotate_count_spec w b Hw) as [-> ->]. set (c := Z.land b (w - 1)).
  assert (Hc : 0 <= c < w).
  { destruct (width_ones w Hw) as (k & Hk & E1 & E2). unfold c. rewrite E1, Z.land_ones, E2 by lia. apply Z.mod_pos_bound. lia. }
  apply Z.bits_inj'. intros n Hn. rewrite !wrap_testbit, !Z.lor_spec, wrap_testbit by lia.
  destruct (Z.ltb_spec n w); [simpl|done]. destruct (Z.eqb_spec c 0) as [E|]; [|done].
  rewrite E, !Z.shiftl_0_r, Z.shiftr_0_r, Z.shiftr_spec, Z.sub_0_r by lia.
  by rewrite (in_u_testbit w a (n + w)), orb_false_r, orb_diag by (done || lia).
Qed.
Lemma exec_rotr w a b : width_ok w -> in_u w a -> wrap w (Machine.exec_shift Machine.ROR w a b) = wrap w (rotr w a b).
Proof.
  intros Hw Ha. pose proof (width_pos w Hw). unfold Machine.exec_shift, rotr. cbv zeta. rewrite wrap_wrap by lia.
  destruct (rotate_count_spec w b Hw) as [-> ->]. set (c := Z.land b (w - 1)).
  assert (Hc : 0 <= c < w).
  { destruct (width_ones w Hw) as (k & Hk & E1 & E2). unfold c. rewrite E1, Z.land_ones, E2 by lia. apply Z.mod_pos_bound. lia. }
  apply Z.bits_inj'. intros n Hn. rewrite !wrap_testbit, !Z.lor_spec, wrap_testbit by lia.
  destruct (Z.ltb_spec n w); [simpl|done]. destruct (Z.eqb_spec c 0) as [E|]; [|done].
  rewrite E, Z.shiftl_0_r, Z.shiftr_0_r, Z.shiftl_spec, Z.sub_0_r by lia.
  by rewrite (Z.testbit_neg_r a (n - w)), orb_false_r, orb_diag by lia.
Qed.

(** ** Encodings *)
Lemma encodes_shift_imm (w : bool) op ext c :
  In (op, ext) [(Machine.SHL, SHL_imm8); (Machine.SAR, SAR_imm8); (Machine.SHR, SHR_imm8)] -> 0 <= c < 64 ->
  encodes (emit ext [Imm8 c; if w then rax else eax]) (Machine.Shift op (width w) (Machine.RReg 0) (Some c)).
Proof.
  intros Hop Hc. assert (Htake : forall rest, Machine.take_disp 1 ([wrap 8 c] ++ rest) = Some (c, rest)).
  { intros rest. apply (take_disp_encode 1 c); [lia|]. unfold in_s. simpl. lia. }
  simpl in Hop. destruct w.
  all: repeat (destruct Hop as [[= <- <-]|Hop]; [eexists; split; [writes_tac|split; [simpl; lia|]]|]); try done.
  all: split; [simpl; lia|]; intros rest; specialize (Htake rest); rewrite <- !app_assoc; take_with Htake.
Qed.

Section Shifts.
Context `{sys : Sys} `{jit : Jit} {start : Start}.

Lemma takes2_shift (w : bool) op k f :
  encodes k (Machine.Shift op (width w) (Machine.RReg 0) None) ->
  (forall a b, in_u (width w) a -> in_u (width w) b ->
     wrap (width w) (Machine.exec_shift op (width w) a b) = wrap (width w) (f a b)) ->
  takes2 w (emit_pop rcx;; emit_pop rax;; k;; emit_push rax) w f.
Proof.
  intros Hk Hf. eapply takes2_binary; [scratch_tac|scratch_tac|lia|scratch_tac|exact Hk|done|].
  intros vs ls a b Ha Hb. rewrite <- Hf by done.
  apply computes_shift; [apply width_cases|scratch_tac|done|]. intros g f' [E1 E2]%regs_are_2. done.
Qed.
Lemma ok_imm_shift (w : bool) op ext a b x f vs ls s :
  inv s (const w a :: vs) ls -> in_u (width w) a -> b = wrap (width w) x ->
  In (op, ext) [(Machine.SHL, SHL_imm8); (Machine.SAR, SAR_imm8); (Machine.SHR, SHR_imm8)] ->
  wrap (width w) (Machine.exec_shift op (width w) a b) = wrap (width w) (f a b) ->
  ok 64 (emit_pop rax;; emit ext [Imm8 (Z.land x (width w - 1)); if w then rax else eax];; emit_push rax;; mret tt)
    (fun _ s' => inv s' (const w (wrap (width w) (f a b)) :: vs) ls) s.
Proof.
  intros Hi Ha -> Hin <-. apply ok_assoc_ret. pose proof (width_cases w) as Hw.
  eapply (ok_unary _ (Machine.Shift op (width w) (Machine.RReg 0) (Some (Z.land x (width w - 1)))));
    [exact Hi|scratch_tac|scratch_tac|rewrite slot_const; by eapply in_u_64|rewrite slot_const; apply in_u_wrap| |done|].
  - apply encodes_shift_imm; [done|]. destruct (width_ones _ Hw) as (k & Hk & E1 & E2).
    rewrite E1, Z.land_ones by lia. pose proof (Z.mod_pos_bound x (2 ^ k) ltac:(lia)). destruct w; simpl in E2; lia.
  - rewrite !slot_const, <- exec_shift_count by done.
    apply computes_shift; [done|scratch_tac|done|]. intros g f' Hq%reg_is_1. done.
Qed.

Lemma shl_law w a b : 0 < w -> wrap w (Machine.exec_shift Machine.SHL w a b) = wrap w (Z.shiftl a (Z.land b (w - 1))).
Proof. intros. unfold Machine.exec_shift. by rewrite wrap_wrap by lia. Qed.
Lemma shr_law w a b : wrap w (Machine.exec_shift Machine.SHR w a b) = wrap w (Z.shiftr a (Z.land b (w - 1))).
Proof. done. Qed.
Lemma sar_law w a b : 0 < w ->
  wrap w (Machine.exec_shift Machine.SAR w a b) = wrap w (Z.shiftr (sext w a) (Z.land b (w - 1))).
Proof. intros. unfold Machine.exec_shift. by rewrite wrap_wrap by lia. Qed.

Lemma emit_i32_shl_ok : takes2 false emit_i32_shl false (fun a b => Z.shiftl a (Z.land b 31)).
Proof.
  take2. unfold emit_i32_shl. eapply ok_fold_i32; [exact Hi| |].
  - intros x s' Hx Hi'. by apply (ok_imm_shift false Machine.SHL SHL_imm8 a b x (fun a b => Z.shiftl a (Z.land b 31)));
      [..|left|apply (shl_law 32)].
  - apply ok_sized, (takes2_shift false Machine.SHL _ (fun a b => Z.shiftl a (Z.land b 31))); try done; [encode|intros; by apply (shl_law 32)].
Qed.
Lemma emit_i32_shr_u_ok : takes2 false emit_i32_shr_u false (fun a b => Z.shiftr a (Z.land b 31)).
Proof.
  take2. unfold emit_i32_shr_u. eapply ok_fold_i32; [exact Hi| |].
  - intros x s' Hx Hi'. by apply (ok_imm_shift false Machine.SHR SHR_imm8 a b x (fun a b => Z.shiftr a (Z.land b 31)));
      [..|do 2 right; left|apply (shr_law 32)].
  - apply ok_sized, (takes2_shift false Machine.SHR _ (fun a b => Z.shiftr a (Z.land b 31))); try done; encode.
Qed.
Lemma emit_i32_shr_s_ok : takes2 false emit_i32_shr_s false (fun a b => Z.shiftr (sext 32 a) (Z.land b 31)).
Proof. apply takes2_sized, (takes2_shift false Machine.SAR _ (fun a b => Z.shiftr (sext 32 a) (Z.land b 31))); [encode|intros; by apply (sar_law 32)]. Qed.
Lemma emit_i32_rotl_ok : takes2 false emit_i32_rotl false (rotl 32).
Proof. apply takes2_sized, (takes2_shift false Machine.ROL); [encode|intros; by apply exec_rotl; [left|]]. Qed.
Lemma emit_i32_rotr_ok : takes2 false emit_i32_rotr false (rotr 32).
Proof. apply takes2_sized, (takes2_shift false Machine.ROR); [encode|intros; by apply exec_rotr; [left|]]. Qed.
Lemma emit_i64_shl_ok : takes2 true emit_i64_shl true (fun a b => Z.shiftl a (Z.land b 63)).
Proof.
  take2. unfold emit_i64_shl. eapply ok_fold_i64; [exact Hi| |].
  - intros x s' Hx Hi'. by apply (ok_imm_shift true Machine.SHL SHL_imm8 a b x (fun a b => Z.shiftl a (Z.land b 63)));
      [..|left|apply (shl_law 64)].
  - apply ok_sized, (takes2_shift true Machine.SHL _ (fun a b => Z.shiftl a (Z.land b 63))); try done; [encode|intros; by apply (shl_law 64)].
Qed.
Lemma emit_i64_shr_u_ok : takes2 true emit_i64_shr_u true (fun a b => Z.shiftr a (Z.land b 63)).
Proof.
  take2. unfold emit_i64_shr_u. eapply ok_fold_i64; [exact Hi| |].
  - intros x s' Hx Hi'. by apply (ok_imm_shift true Machine.SHR SHR_imm8 a b x (fun a b => Z.shiftr a (Z.land b 63)));
      [..|do 2 right; left|apply (shr_law 64)].
  - apply ok_sized, (takes2_shift true Machine.SHR _ (fun a b => Z.shiftr a (Z.land b 63))); try done; encode.
Qed.
Lemma emit_i64_shr_s_ok : takes2 true emit_i64_shr_s true (fun a b => Z.shiftr (sext 64 a) (Z.land b 63)).
Proof.
  take2. unfold emit_i64_shr_s. eapply ok_fold_i64; [exact Hi| |].
  - intros x s' Hx Hi'. by apply (ok_imm_shift true Machine.SAR SAR_imm8 a b x (fun a b => Z.shiftr (sext 64 a) (Z.land b 63)));
      [..|right; left|apply (sar_law 64)].
  - apply ok_sized, (takes2_shift true Machine.SAR _ (fun a b => Z.shiftr (sext 64 a) (Z.land b 63))); try done; [encode|intros; by apply (sar_law 64)].
Qed.
End Shifts.
