(* ===== verification/X86Compare.v ===== *)
(** * Comparisons and unfolded 64-bit instructions of the JIT (x86_64.hpp) *)
From S2P Require Import Prelude Allocator Opcodes Types LinearMemory Interpreter InstanceProofs IntegerOps X86 X86Control X86Integer X86Machine X86Encoding X86Frame X86Emit X86Fold X86Ops.
Import X86 X86Control X86Integer.

(** ** Conditions *)

(** What the condition number [c] asks of the operands of a comparison *)
Definition cond_test (c w a b : Z) : bool :=
  match c with
  | 2 => a <? b | 3 => a >=? b | 4 => a =? b | 5 => negb (a =? b) | 6 => a <=? b | 7 => a >? b
  | 12 => sext w a <? sext w b | 13 => sext w a >=? sext w b | 14 => sext w a <=? sext w b | 15 => sext w a >? sext w b
  | _ => false
  end.
Definition conditions : list Z := [2; 3; 4; 5; 6; 7; 12; 13; 14; 15].

Lemma wrap_sub_zero w a b : 0 < w -> in_u w a -> in_u w b -> (wrap w (a - b) =? 0) = (a =? b).
Proof.
  intros Hw Ha Hb. unfold in_u, wrap in *. pose proof (Z.pow_pos_nonneg 2 w ltac:(lia) ltac:(lia)).
  destruct (Z.eqb_spec a b) as [->|Hne]; [by rewrite Z.sub_diag, Zmod_0_l|].
  apply Z.eqb_neq. intros H0. destruct (proj1 (Z.mod_divide (a - b) (2 ^ w) ltac:(lia)) H0) as [k Hk].
  set (p := 2 ^ w) in *. clearbody p. assert (k = 0) as -> by nia. lia.
Qed.
Lemma sext_sub w a b : 0 < w ->
  xorb (sext w (wrap w (a - b)) <? 0) (negb (sext w (wrap w (a - b)) =? sext w a - sext w b)) = (sext w a <? sext w b).
Proof.
  intros Hw. rewrite sext_wrap by lia.
  assert (E : sext w (a - b) = sext w (sext w a - sext w b)).
  { apply wrap_eq_sext_eq. pose proof (wrap_sext w a Hw) as Ea. pose proof (wrap_sext w b Hw) as Eb. unfold wrap in *.
    rewrite Zminus_mod, <- Ea, <- Eb. by rewrite <- Zminus_mod. }
  rewrite E. pose proof (sext_in_s w a Hw) as Ha. pose proof (sext_in_s w b Hw) as Hb.
  set (x := sext w a) in *. set (y := sext w b) in *. clearbody x y. clear E.
  pose proof (sext_in_s w (x - y) Hw) as Hs. pose proof (wrap_sext w (x - y) Hw) as Ew.
  set (r := sext w (x - y)) in *. clearbody r. unfold in_s, wrap in *.
  pose proof (pow2_split w Hw) as Hp. pose proof (Z.pow_pos_nonneg 2 (w - 1) ltac:(lia) ltac:(lia)).
  set (h := 2 ^ (w - 1)) in *. clearbody h. rewrite Hp in *.
  assert (Hk : exists k, r = x - y + 2 * h * k).
  { pose proof (Z.div_mod r (2 * h) ltac:(lia)). pose proof (Z.div_mod (x - y) (2 * h) ltac:(lia)).
    exists (r / (2 * h) - (x - y) / (2 * h)). lia. }
  destruct Hk as [k Hk]. assert (k = 0 \/ k = 1 \/ k = -1) as [-> |[-> | ->]] by nia;
  destruct (Z.ltb_spec r 0), (Z.eqb_spec r (x - y)), (Z.ltb_spec x y); simpl; done || lia.
Qed.
Lemma cond_cmp c w a b : 0 < w -> in_u w a -> in_u w b -> In c conditions ->
  Machine.cond c (Machine.cmp_flags w a b) = Some (cond_test c w a b).
Proof.
  intros Hw Ha Hb Hc. pose proof (wrap_sub_zero w a b Hw Ha Hb) as Ez. pose proof (sext_sub w a b Hw) as Es.
  assert (Esx : (a =? b) = (sext w a =? sext w b)).
  { pose proof (wrap_sext w a Hw) as Wa. pose proof (wrap_sext w b Hw) as Wb.
    rewrite (wrap_small w a) in Wa by done. rewrite (wrap_small w b) in Wb by done.
    destruct (Z.eqb_spec a b) as [->|Hne]; [by rewrite Z.eqb_refl|]. symmetry. apply Z.eqb_neq. congruence. }
  unfold conditions in Hc. simpl in Hc.
  repeat (destruct Hc as [<-|Hc]; [unfold Machine.cmp_flags; simpl; rewrite ?Ez, ?Es|]); try done; f_equal;
    rewrite ?Z.geb_leb, ?Z.gtb_ltb;
    try lazymatch goal with |- context [sext w a <? sext w b] => rewrite Esx end.
  all: lazymatch goal with |- context [sext] => set (x := sext w a) in *; set (y := sext w b) in *; clearbody x y | _ => set (x := a); set (y := b); clearbody x y end.
  all: destruct (Z.ltb_spec x y), (Z.leb_spec x y), (Z.leb_spec y x), (Z.ltb_spec y x), (Z.eqb_spec x y); simpl; done || lia.
Qed.

Section Compare.
Context `{sys : Sys} `{jit : Jit} {start : Start}.

(** ** Instructions written as bytes: the record is not looked at *)
Lemma raw_pop r : scratch r -> writes (emit_bytes [0x58 + r]) [0x58 + r] /\ decodes [0x58 + r] (Machine.Pop r).
Proof.
  intros [-> |[-> | ->]]; (split; [eapply writes_eq; [apply writes_bytes|reflexivity]|decodes_tac]).
Qed.
Lemma raw_push r : scratch r -> writes (emit_bytes [0x50 + r]) [0x50 + r] /\ decodes [0x50 + r] (Machine.Push r).
Proof.
  intros [-> |[-> | ->]]; (split; [eapply writes_eq; [apply writes_bytes|reflexivity]|decodes_tac]).
Qed.
Lemma ok_raw_pop s v vs ls r :
  inv s (v :: vs) ls -> scratch r -> ok 1 (emit_bytes [0x58 + r]) (fun _ s' => done_to s' vs ls (reg_is r (slot v))) s.
Proof.
  intros [He [Hend _]] Hr. destruct (raw_pop r Hr) as [Hw Hd].
  eapply (ok_pop_writes _ _ _ _ _ _ []); try done; by constructor.
Qed.
Lemma ok_raw_pop_next s v vs ls l r :
  done_to s (v :: vs) ls (regs_are l) -> scratch r -> fresh r l -> fresh 4 l ->
  ok 1 (emit_bytes [0x58 + r]) (fun _ s' => done_to s' vs ls (regs_are ((r, slot v) :: l))) s.
Proof.
  intros [He Hs] Hr Hf H4. destruct (raw_pop r Hr) as [Hw Hd]. unfold stale in Hs. by eapply ok_pop_writes; [|lia|..].
Qed.
Lemma ok_raw_push s v vs ls (Q : condition) r :
  done_to s vs ls Q -> scratch r -> (forall g f, Q g f -> g r = slot v) -> in_u 64 (slot v) -> (length vs < depth)%nat ->
  ok 1 (emit_bytes [0x50 + r]) (fun _ s' => inv s' (v :: vs) ls) s.
Proof. intros Hd Hr Hq Hv Hl. destruct (raw_push r Hr) as [Hw Hde]. by eapply ok_push_writes. Qed.
Lemma ok_raw_bytes n l i s vs ls Q Q' :
  done_to s vs ls Q -> decodes l i -> bytes_ok l -> is_jump i = false -> Z.of_nat (length l) <= n -> computes vs ls i Q Q' ->
  ok n (emit_bytes l) (fun _ s' => done_to s' vs ls Q') s.
Proof.
  intros [He Hs] Hd Hb Hj Hn Hx. unfold stale in Hs.
  eapply ok_compute; [exact He|lia| |exact Hd|done|done|done].
  pose proof (writes_bytes l) as Hw. unfold bytes_ok in Hb. by rewrite Hb in Hw.
Qed.

(** [emit_i64_binop]: %rax and %rcx hold the operands. *)
Lemma takes2_i64_binop l i f :
  decodes l i -> bytes_ok l -> is_jump i = false -> (length l <= 4)%nat ->
  (forall vs ls a b, in_u 64 a -> in_u 64 b -> computes vs ls i (regs_are [(0, a); (1, b)]) (reg_is 0 (wrap 64 (f a b)))) ->
  takes2 true (emit_i64_binop (l ++ [0x50])) true f.
Proof.
  intros Hd Hok Hj Hl Hc. take2. pose proof (inv_depth _ _ _ Hi) as Hdep. simpl in Hdep. unfold emit_i64_binop.
  eapply ok_then; [eapply (ok_raw_pop _ _ _ _ 1); [exact Hi|scratch_tac]|lia|]. intros [] s1 H1.
  eapply ok_then; [eapply (ok_raw_pop_next _ _ _ _ _ 0); [exact H1|scratch_tac|by constructor|by constructor]|lia|].
  intros [] s2 H2. eapply ok_eq; [apply emit_bytes_app|].
  eapply ok_then; [eapply (ok_raw_bytes 4); [exact H2|exact Hd|done|done|lia|by apply Hc]|lia|]. intros [] s3 H3.
  eapply ok_more; [eapply (ok_raw_push _ (const true (wrap 64 (f a b))) _ _ _ 0); [exact H3|scratch_tac| |apply (in_u_wrap true)|lia]|lia].
  intros g f'. by apply reg_is_1.
Qed.
Lemma takes2_i64_alu op l f :
  op <> Machine.CMP -> decodes l (Machine.Alu op 64 (Machine.RReg 0) (Machine.RReg 1)) -> bytes_ok l -> (length l <= 4)%nat ->
  (forall a b, alu_value op a b = f a b) ->
  takes2 true (emit_i64_binop (l ++ [0x50])) true f.
Proof.
  intros Hop Hd Hb Hl Hf. eapply takes2_i64_binop; [exact Hd|done|done|done|].
  intros vs ls a b Ha Hb'. rewrite <- Hf. apply computes_alu; [by right|scratch_tac|done|done|].
  intros m _ [E1 E2]%regs_are_2. split; [done|]. simpl. rewrite E2. by apply wrap_small.
Qed.
Lemma emit_i64_sub_ok : takes2 true emit_i64_sub true Z.sub.
Proof. apply takes2_sized. by apply (takes2_i64_alu Machine.SUB [0x48; 0x29; 0xc8]); [|decodes_tac| |simpl; lia|]. Qed.
Lemma emit_i64_and_ok : takes2 true emit_i64_and true Z.land.
Proof. apply takes2_sized. by apply (takes2_i64_alu Machine.AND [0x48; 0x21; 0xc8]); [|decodes_tac| |simpl; lia|]. Qed.
Lemma emit_i64_or_ok : takes2 true emit_i64_or true Z.lor.
Proof. apply takes2_sized. by apply (takes2_i64_alu Machine.OR [0x48; 0x09; 0xc8]); [|decodes_tac| |simpl; lia|]. Qed.
Lemma emit_i64_xor_ok : takes2 true emit_i64_xor true Z.lxor.
Proof. apply takes2_sized. by apply (takes2_i64_alu Machine.XOR [0x48; 0x31; 0xc8]); [|decodes_tac| |simpl; lia|]. Qed.
Lemma emit_i64_rotl_ok : takes2 true emit_i64_rotl true (rotl 64).
Proof.
  apply takes2_sized. apply (takes2_i64_binop [0x48; 0xd3; 0xc0] (Machine.Shift Machine.ROL 64 (Machine.RReg 0) None));
    [decodes_tac|done|done|simpl; lia|].
  intros vs ls a b Ha Hb. rewrite <- exec_rotl by (done || by right).
  apply computes_shift; [by right|scratch_tac|done|]. intros g f [E1 E2]%regs_are_2. done.
Qed.
Lemma emit_i64_rotr_ok : takes2 true emit_i64_rotr true (rotr 64).
Proof.
  apply takes2_sized. apply (takes2_i64_binop [0x48; 0xd3; 0xc8] (Machine.Shift Machine.ROR 64 (Machine.RReg 0) None));
    [decodes_tac|done|done|simpl; lia|].
  intros vs ls a b Ha Hb. rewrite <- exec_rotr by (done || by right).
  apply computes_shift; [by right|scratch_tac|done|]. intros g f [E1 E2]%regs_are_2. done.
Qed.

(** ** Comparisons *)

(** The flags of a comparison, with 0 in the register of the result *)
Definition compared (r w a b : Z) : condition := fun g f => g r = 0 /\ f = Some (Machine.cmp_flags w a b).
Lemma computes_zero vs ls w r l :
  width_ok w -> scratch r -> fresh r l ->
  computes vs ls (Machine.Alu Machine.XOR w (Machine.RReg r) (Machine.RReg r)) (regs_are l) (regs_are ((r, 0) :: l)).
Proof.
  intros Hw Hr Hf. apply (computes_set _ _ _ _ _ r 0); [done|]. intros m _ Hq.
  destruct (exec_alu_set Machine.XOR w r (wrap w (Machine.regs m r)) m Hw ltac:(done)) as (fl & E). exists fl. split.
  - unfold Machine.exec. simpl Machine.get. rewrite E. simpl alu_value. rewrite Z.lxor_nilpotent.
    by rewrite wrap_small by (destruct Hw as [-> | ->]; done).
  - constructor; [apply upd_same|]. unfold fresh, regs_are in *. rewrite List.Forall_forall in *. intros p Hp.
    unfold Machine.upd. rewrite (proj2 (Z.eqb_neq p.1 r)) by (by apply Hf). by apply Hq.
Qed.
Lemma computes_cmp vs ls w ra rb r a b Q :
  width_ok w -> in_u w a -> in_u w b -> (forall g f, Q g f -> g ra = a /\ g rb = b /\ g r = 0) ->
  computes vs ls (Machine.Alu Machine.CMP w (Machine.RReg ra) (Machine.RReg rb)) Q (compared r w a b).
Proof.
  intros Hw Ha Hb H m _ Hq. destruct (H _ _ Hq) as (E1 & E2 & E3).
  exists None, 0, (Some (Machine.cmp_flags w a b)). split; [by left|]. split; [|done].
  unfold Machine.exec, Machine.exec_alu, Machine.get. by rewrite E1, E2, (wrap_small w a), (wrap_small w b).
Qed.
Lemma computes_setcc vs ls c r w a b :
  scratch r -> 0 < w -> in_u w a -> in_u w b -> In c conditions ->
  computes vs ls (Machine.Setcc c r) (compared r w a b) (reg_is r (b2z (cond_test c w a b))).
Proof.
  intros Hr Hw Ha Hb Hc. apply (computes_set _ _ _ _ _ r (b2z (cond_test c w a b))); [done|]. intros m _ [E1 E2].
  exists (Machine.flags m). split; [|apply reg_is_1, upd_same].
  simpl. unfold Machine.holds. rewrite E2. simpl. rewrite cond_cmp by done. simpl. rewrite E1, <- E2.
  by destruct (cond_test c w a b).
Qed.
Lemma b2z_small b : wrap 32 (b2z b) = b2z b.
Proof. by destruct b. Qed.

Lemma emit_i64_relop_ok c :
  In c conditions -> takes2 true (emit_i64_relop (0x90 + c)) false (fun a b => b2z (cond_test c 64 a b)).
Proof.
  intros Hc. take2. pose proof (inv_depth _ _ _ Hi) as Hdep. simpl in Hdep. unfold emit_i64_relop.
  eapply ok_then; [eapply (ok_raw_pop _ _ _ _ 0); [exact Hi|scratch_tac]|lia|]. intros [] s1 H1.
  eapply ok_then; [eapply (ok_raw_pop_next _ _ _ _ _ 1); [exact H1|scratch_tac|by constructor|by constructor]|lia|].
  intros [] s2 H2. rewrite !slot_const in H2.
  eapply ok_then; [eapply (ok_raw_bytes 3); [exact H2|decodes_tac|done|done|done|]|lia|].
  { apply (computes_zero _ _ 64 2); [by right|scratch_tac|]. unfold fresh. repeat constructor; simpl; lia. }
  intros [] s3 H3. eapply ok_then; [eapply (ok_raw_bytes 3); [exact H3|decodes_tac|done|done|done|]|lia|].
  { apply (computes_cmp _ _ 64 1 0 2 a b); [by right|done|done|]. intros g f Hq.
    split; [|split]; eapply regs_are_at; try exact Hq; elem_tac. }
  intros [] s4 H4. eapply ok_then; [eapply (ok_raw_bytes 3 _ (Machine.Setcc c 2)); [exact H4| | |done|done|]|lia|].
  { unfold conditions in Hc. simpl in Hc. repeat (destruct Hc as [<-|Hc]; [decodes_tac|]). done. }
  { unfold conditions in Hc. simpl in Hc. by repeat (destruct Hc as [<-|Hc]; [done|]). }
  { by apply computes_setcc; [scratch_tac|..]. }
  intros [] s5 H5.
  eapply ok_more; [eapply (ok_raw_push _ (const false (wrap 32 (b2z (cond_test c 64 a b)))) _ _ _ 2);
    [exact H5|scratch_tac| |apply (in_u_wrap false)|lia]|lia].
  intros g f Hq%reg_is_1. by rewrite slot_const, b2z_small.
Qed.

(** A comparison of two registers, the condition in a third, which is pushed *)
Lemma ok_condition k c op r w a b vs ls Q s :
  done_to s vs ls Q -> encodes k (Machine.Setcc c r) -> computes vs ls (Machine.Setcc c r) Q (reg_is r (b2z b)) ->
  scratch r -> (length vs < depth)%nat -> w = width false -> a = wrap w (b2z b) ->
  ok 11 (start ← gets code; k;; emit_push (G64 r);; push_recent_op start (condition_op op))
    (fun _ s' => inv s' (const false a :: vs) ls) s.
Proof.
  intros Hs (bs & Hw & Hl & Hd) Hx Hr Hdep -> ->. pose proof (done_inv _ _ _ _ Hs) as Hi. destruct Hs as [He Hs].
  replace 11 with (0 + 11) by lia. apply code_bind; [lia|]. apply code_gets.
  eapply ok_recorded; [exact Hi|exact He|exact Hw|exact Hd|done|done| |done| |done|done|].
  - by rewrite slot_const, b2z_small.
  - rewrite slot_const. apply (in_u_wrap false).
  - intros bs' c' Hc Ha _. split; [simpl|done]. apply arrives_start in Ha. pose proof start_positive. lia.
Qed.
Lemma emit_i32_relop_ok op c :
  c = op - 0x70 -> In c conditions -> takes2 false (emit_i32_relop op) false (fun a b => b2z (cond_test c 32 a b)).
Proof.
  intros -> Hc. take2. pose proof (inv_depth _ _ _ Hi) as Hdep. simpl in Hdep. unfold emit_i32_relop.
  eapply ok_then; [eapply (code_pop _ _ _ _ 0); [exact Hi|scratch_tac|rewrite slot_const; by apply (in_u_64 false)]|lia|].
  intros [] s1 H1.
  eapply ok_then; [eapply (ok_pop_next _ _ _ _ _ 1); [exact H1|scratch_tac|by constructor|by constructor]|lia|].
  intros [] s2 H2. rewrite !slot_const in H2.
  eapply ok_then; [eapply (ok_encodes 10 _ _ _ _ _ _ (Machine.Alu Machine.XOR 32 (Machine.RReg 2) (Machine.RReg 2)));
    [exact H2|encode|done|lia|]|lia|].
  { apply (computes_zero _ _ 32 2); [by left|scratch_tac|]. unfold fresh. repeat constructor; simpl; lia. }
  intros [] s3 H3.
  eapply ok_then; [eapply (ok_encodes 10 _ _ _ _ _ _ (Machine.Alu Machine.CMP 32 (Machine.RReg 1) (Machine.RReg 0)));
    [exact H3|encode|done|lia|]|lia|].
  { apply (computes_cmp _ _ 32 1 0 2 a b); [by left|done|done|]. intros g f Hq.
    split; [|split]; eapply regs_are_at; try exact Hq; elem_tac. }
  intros [] s4 H4. eapply ok_more; [eapply (ok_condition _ (op - 0x70) op 2 32 _ (cond_test (op - 0x70) 32 a b)); [exact H4| | |scratch_tac|lia|done|done]|lia].
  - unfold conditions in Hc. simpl in Hc.
    repeat (destruct Hc as [Hc|Hc]; [assert (op = 0x70 + (op - 0x70)) as -> by lia; rewrite <- Hc; encode|]). done.
  - by apply computes_setcc; [scratch_tac|..].
Qed.
End Compare.
