(* ===== verification/X86Values.v ===== *)
(** * Constants, locals, conversions and tests of the JIT (x86_64.hpp) *)
From S2P Require Import Prelude Allocator Opcodes Types LinearMemory Interpreter InstanceProofs IntegerOps X86 X86Control X86Integer X86Machine X86Encoding X86Frame X86Emit X86Fold X86Ops X86Compare.
Import X86 X86Control X86Integer.

(** Values by their types, and the widths of these *)
Definition value (t n : Z) : operand_stack_elem :=
  if t =? i32 then i32_const_t n else if t =? i64 then i64_const_t n
  else if t =? f32 then f32_const_t n else f64_const_t n.
Definition scalar (t : Z) : Prop := t = i32 \/ t = i64 \/ t = f32 \/ t = f64.
Definition bits_of (t : Z) : Z := if (t =? i32) || (t =? f32) then 32 else 64.

Lemma slot_value t n : slot (value t n) = n.
Proof. unfold value. by destruct (t =? i32), (t =? i64), (t =? f32). Qed.
Lemma bits_width t : width_ok (bits_of t).
Proof. unfold bits_of. destruct (_ || _); [by left|by right]. Qed.
Lemma in_u_64_bits t n : in_u (bits_of t) n -> in_u 64 n.
Proof. unfold in_u. destruct (bits_width t) as [-> | ->]; simpl; lia. Qed.
Lemma const_value w : forall n, const w n = value (if w then i64 else i32) n.
Proof. by destruct w. Qed.

Section Values.
Context `{sys : Sys} `{jit : Jit} {start : Start}.
Implicit Types (vs ls : list operand_stack_elem) (s : t).

(** [k] replaces an operand [a] of type [t] by one of type [u]. *)
Definition takes1 (t : Z) (k : M X86.t unit) (u : Z) (f : Z -> Z) : Prop := forall s vs ls a,
  inv s (value t a :: vs) ls -> in_u (bits_of t) a ->
  ok 64 k (fun _ s' => inv s' (value u (f a) :: vs) ls) s.

(** A slot has no type. *)
Lemma retype_arrives bs a v v' vs ls Q : slot v' = slot v -> arrives bs a (v :: vs) ls Q -> arrives bs a (v' :: vs) ls Q.
Proof. intros E. apply reaches_mono. intros m [Hm Hq]. split; [by eapply frame_retype|done]. Qed.
Lemma retype_inv s v v' vs ls : slot v' = slot v -> inv s (v :: vs) ls -> inv s (v' :: vs) ls.
Proof.
  intros E [[H1 H2] [H3 H4]]. split; [split; [done|by eapply retype_arrives]|]. split; [done|].
  intros Hc. destruct (H4 Hc) as ([Hp HP] & ? & ? & ?). split; [|done]. split; [done|].
  destruct (op_data (recent_ops1 s)); try done.
  - destruct HP as (n & w & vs' & ? & ? & [= <- <-] & ?). exists n, v', vs. by rewrite E.
  - destruct HP as (i & o & w & w' & vs' & [= <- <-] & ? & ? & ? & ? & ? & ?). exists i, o, w, v', vs. by rewrite E.
  - destruct HP as (w & vs' & [= <- <-] & ? & ?). exists v', vs. by rewrite E.
  - destruct HP as (w & vs' & [= <- <-] & ? & ?). exists v', vs. by rewrite E.
Qed.
Lemma takes1_nothing t u : takes1 t (mret tt) u (fun a => a).
Proof.
  intros s vs ls a Hi Ha. eapply ok_more; [apply code_ret; eapply retype_inv; [|exact Hi]; by rewrite !slot_value|done].
Qed.
Lemma takes1_sized t u f n1 n2 k : takes1 t k u f -> takes1 t (variable_size_instr n1 n2 k) u f.
Proof. intros H s vs ls a Hi Ha. apply ok_sized. by apply H. Qed.

(** ** Conversions *)
Lemma emit_i64_extend_u_i32_ok : takes1 i32 emit_i64_extend_u_i32 i64 (fun a => a).
Proof. apply takes1_nothing. Qed.
Lemma emit_i32_wrap_i64_ok : takes1 i64 emit_i32_wrap_i64 i32 (wrap 32).
Proof.
  apply takes1_sized. intros s vs ls a Hi Ha.
  eapply (ok_unary _ (Machine.Mov 32 (Machine.RReg 0) (Machine.RReg 0)) 0 0);
    [exact Hi|scratch_tac|scratch_tac|by rewrite slot_value|rewrite slot_value; apply (in_u_wrap false)|encode|done|].
  rewrite !slot_value. apply (computes_set _ _ _ _ _ 0 (wrap 32 a)); [scratch_tac|]. intros m _ Hq%reg_is_1.
  exists (Machine.flags m). split; [|apply reg_is_1, upd_same].
  simpl. rewrite Hq. by rewrite wrap_wrap by lia.
Qed.

(** The operand on top is rewritten in place: a sign extension and a store. *)
Lemma ok_in_place n ld st i w from v v' vs ls s :
  inv s (v :: vs) ls -> value_ok v -> width_ok w -> (from = 8 \/ from = 16 \/ from = 32) ->
  slot v' = wrap w (sext from (slot v)) -> in_u w (slot v) ->
  i = Machine.Movsx from w 0 (Machine.RMem 4 None 0) -> encodes ld i ->
  encodes st (Machine.Mov w (Machine.RMem 4 None 0) (Machine.RReg 0)) -> n = 20 ->
  ok n (ld;; st) (fun _ s' => inv s' (v' :: vs) ls) s.
Proof.
  intros Hi Hv Hw Hfrom Hv' Hs -> (b1 & W1 & L1 & D1) (b2 & W2 & L2 & D2) ->. pose proof Hi as [He [Hend _]].
  assert (Hsl : in_u 64 (slot v)) by by apply slot_range.
  assert (Hsv : in_u w (slot v')) by (rewrite Hv'; apply wrap_in_u; destruct Hw; lia).
  replace 20 with (10 + 10) by lia. apply code_bind; [lia|].
  eapply code_mono; [eapply (ok_compute 10 _ _ _ _ (reg_is 0 (slot v'))); [exact He|exact Hend|exact W1|exact D1|done|lia|]|lia|].
  { apply (computes_set _ _ _ _ _ 0 (slot v')); [scratch_tac|]. intros m Hm _. exists (Machine.flags m).
    split; [|apply reg_is_1, upd_same].
    assert (Hl : Machine.get from (Machine.RMem 4 None 0) m = wrap from (slot v)).
    { unfold Machine.get. rewrite (top_address m0 sp depth offs geo v vs ls) by done.
      pose proof (fr_stack _ _ _ _ _ _ _ Hm) as [E _].
      assert (Hn : (Machine.bytes_of from <= 8)%nat) by (apply Nat.leb_le; by destruct Hfrom as [-> |[-> | ->]]).
      rewrite load_low, E by (done || apply Hm).
      by destruct Hfrom as [-> |[-> | ->]]. }
    unfold Machine.exec. rewrite Hl, sext_wrap, <- Hv' by (destruct Hfrom as [-> |[-> | ->]]; lia). done. }
  intros [] s1 [He1 Hs1]. unfold stale in Hs1.
  eapply code_mono; [eapply (ok_instr _ _ _ _ _ _ _ (v' :: vs) ls any); [exact He1|lia|exact W2|exact D2|done|]|lia|].
  2: { intros [] s2 [_ H2]. by eapply done_inv. }
  intros m [Hm Hq%reg_is_1]. eexists. split; [done|]. split; [|by constructor].
  simpl Machine.put. rewrite (top_address m0 sp depth offs geo v vs ls) by done. simpl Machine.get.
  rewrite Hq, (wrap_small w) by done. pose proof (fr_stack _ _ _ _ _ _ _ Hm) as [E _].
  apply (frame_store_top m0 sp depth offs geo _ v); [done|destruct Hw as [-> | ->]; (split; [reflexivity|discriminate])|].
  destruct Hw as [-> | ->]; [|by apply load_store_slot].
  apply load_store_low; [apply Hm|by rewrite E|done].
Qed.

Lemma takes1_in_place t from w ld st :
  scalar t -> w = bits_of t -> (from = 8 \/ from = 16 \/ from = 32) ->
  encodes ld (Machine.Movsx from w 0 (Machine.RMem 4 None 0)) ->
  encodes st (Machine.Mov w (Machine.RMem 4 None 0) (Machine.RReg 0)) ->
  takes1 t (ld;; st) t (fun a => wrap w (sext from a)).
Proof.
  intros Ht -> Hf Hl Hs s vs ls a Hi Ha.
  assert (Hv : value_ok (value t a)) by (destruct Ht as [-> |[-> |[-> | ->]]]; exact Ha).
  eapply ok_more; [eapply (ok_in_place 20 _ _ _ (bits_of t) from (value t a)); [exact Hi|exact Hv|apply bits_width|done| | |done|exact Hl|exact Hs|done]|lia];
    by rewrite !slot_value.
Qed.
Lemma emit_i32_extend8_s_ok : takes1 i32 emit_i32_extend8_s i32 (fun a => wrap 32 (sext 8 a)).
Proof. apply takes1_sized, takes1_in_place; try done; [by left|by left|encode|encode]. Qed.
Lemma emit_i32_extend16_s_ok : takes1 i32 emit_i32_extend16_s i32 (fun a => wrap 32 (sext 16 a)).
Proof. apply takes1_sized, takes1_in_place; try done; [by left|by right; left|encode|encode]. Qed.
Lemma emit_i64_extend8_s_ok : takes1 i64 emit_i64_extend8_s i64 (fun a => wrap 64 (sext 8 a)).
Proof. apply takes1_sized, takes1_in_place; try done; [by right; left|by left|encode|encode]. Qed.
Lemma emit_i64_extend16_s_ok : takes1 i64 emit_i64_extend16_s i64 (fun a => wrap 64 (sext 16 a)).
Proof. apply takes1_sized, takes1_in_place; try done; [by right; left|by right; left|encode|encode]. Qed.
Lemma emit_i64_extend32_s_ok : takes1 i64 emit_i64_extend32_s i64 (fun a => wrap 64 (sext 32 a)).
Proof. apply takes1_sized, takes1_in_place; try done; [by right; left|by right; right|encode|encode]. Qed.
Lemma emit_i64_extend_s_i32_ok : takes1 i32 emit_i64_extend_s_i32 i64 (fun a => wrap 64 (sext 32 a)).
Proof.
  assert (H : takes1 i64 emit_i64_extend_s_i32 i64 (fun a => wrap 64 (sext 32 a)))
    by (apply takes1_sized, takes1_in_place; try done; [by right; left|by right; right|encode|encode]).
  intros s vs ls a Hi Ha. apply (H s vs ls a); [by apply (retype_inv _ (value i32 a))|by apply (in_u_64_bits i32)].
Qed.

(** ** Tests for zero *)
Definition tested (r : Z) (z : bool) : condition := fun g f => g r = 0 /\ exists fl, f = Some fl /\ Machine.fz fl = z.
Lemma computes_test vs ls w ra r a Q :
  width_ok w -> in_u w a -> (forall g f, Q g f -> g ra = a /\ g r = 0) ->
  computes vs ls (Machine.Test w (Machine.RReg ra) (Machine.RReg ra)) Q (tested r (a =? 0)).
Proof.
  intros Hw Ha H m _ Hq. destruct (H _ _ Hq) as [E1 E2].
  exists None, 0, (Some (Machine.logic_flags w a)). split; [by left|]. split.
  - unfold Machine.exec, Machine.get. by rewrite E1, (wrap_small w a), Z.land_diag.
  - split; [done|]. by eexists.
Qed.
Lemma computes_setz vs ls r z : scratch r ->
  computes vs ls (Machine.Setcc 4 r) (tested r z) (reg_is r (b2z z)).
Proof.
  intros Hr. apply (computes_set _ _ _ _ _ r (b2z z)); [done|]. intros m _ (E1 & fl & E2 & E3).
  exists (Machine.flags m). split; [|apply reg_is_1, upd_same].
  simpl. unfold Machine.holds. rewrite E2. simpl. rewrite E1, E3, <- E2. by destruct z.
Qed.
Lemma emit_i32_eqz_ok : takes1 i32 emit_i32_eqz i32 (fun a => b2z (a =? 0)).
Proof.
  apply takes1_sized. intros s vs ls a Hi Ha. pose proof (inv_depth _ _ _ Hi) as Hdep. simpl in Hdep.
  eapply ok_then; [eapply (code_pop _ _ _ _ 0); [exact Hi|scratch_tac|rewrite slot_value; by apply (in_u_64_bits i32)]|lia|].
  intros [] s1 H1. rewrite slot_value in H1.
  eapply ok_then; [eapply (ok_encodes 10 _ _ _ _ _ _ (Machine.Alu Machine.XOR 32 (Machine.RReg 1) (Machine.RReg 1)));
    [exact H1|encode|done|lia|]|lia|].
  { apply (computes_zero _ _ 32 1); [by left|scratch_tac|]. unfold fresh. repeat constructor; simpl; lia. }
  intros [] s2 H2.
  eapply ok_then; [eapply (ok_encodes 10 _ _ _ _ _ _ (Machine.Test 32 (Machine.RReg 0) (Machine.RReg 0)));
    [exact H2|encode|done|lia|]|lia|].
  { apply (computes_test _ _ 32 0 1 a); [by left|done|]. intros g f [? ?]%regs_are_2. done. }
  intros [] s3 H3. eapply ok_more; [eapply (ok_condition _ 4 JZ 1 32 _ (a =? 0)); [exact H3| |by apply computes_setz; scratch_tac|scratch_tac|lia|done|by rewrite b2z_small]|lia].
  encode.
Qed.
Lemma emit_i64_eqz_ok : takes1 i64 emit_i64_eqz i32 (fun a => b2z (a =? 0)).
Proof.
  apply takes1_sized. intros s vs ls a Hi Ha. pose proof (inv_depth _ _ _ Hi) as Hdep. simpl in Hdep.
  eapply ok_then; [eapply (ok_raw_pop _ _ _ _ 0); [exact Hi|scratch_tac]|lia|]. intros [] s1 H1. rewrite slot_value in H1.
  eapply ok_then; [eapply (ok_raw_bytes 3); [exact H1|decodes_tac|done|done|done|]|lia|].
  { apply (computes_zero _ _ 64 1); [by right|scratch_tac|]. unfold fresh. repeat constructor; simpl; lia. }
  intros [] s2 H2. eapply ok_then; [eapply (ok_raw_bytes 3); [exact H2|decodes_tac|done|done|done|]|lia|].
  { apply (computes_test _ _ 64 0 1 a); [by right|done|]. intros g f [? ?]%regs_are_2. done. }
  intros [] s3 H3. eapply ok_then; [eapply (ok_raw_bytes 3 _ (Machine.Setcc 4 1)); [exact H3|decodes_tac|done|done|done|by apply computes_setz; scratch_tac]|lia|].
  intros [] s4 H4.
  eapply ok_more; [eapply (ok_raw_push _ (value i32 (b2z (a =? 0))) _ _ _ 1); [exact H4|scratch_tac| | |lia]|lia].
  - intros g f. by rewrite slot_value, reg_is_1.
  - rewrite slot_value. by destruct (a =? 0).
Qed.

(** ** Constants *)
Definition pushes (k : M X86.t unit) (v : operand_stack_elem) : Prop := forall s vs ls,
  inv s vs ls -> (length vs < depth)%nat -> ok 64 k (fun _ s' => inv s' (v :: vs) ls) s.

Lemma computes_mov_imm vs ls w r x Q : width_ok w -> scratch r ->
  computes vs ls (Machine.MovImm w r (sext w x)) Q (reg_is r (wrap w x)).
Proof.
  intros Hw Hr. apply (computes_set _ _ _ _ _ r (wrap w x)); [done|]. intros m _ _. exists (Machine.flags m).
  split; [simpl; by rewrite wrap_sext by (destruct Hw; lia)|apply reg_is_1, upd_same].
Qed.
(** A constant with an entry in the record, [d] *)
Lemma ok_recorded_constant k bs i v vs ls d s :
  inv s vs ls -> (length vs < depth)%nat -> writes k bs -> (length bs <= 10)%nat -> decodes bs i -> is_jump i = false ->
  computes vs ls i any (reg_is 0 (slot v)) -> in_u 64 (slot v) ->
  (d = i32_const_op (slot v) /\ in_u 32 (slot v) \/ d = i64_const_op (slot v)) ->
  ok 11 (k;; emit_push rax;; push_recent_op (code s) d) (fun _ s' => inv s' (v :: vs) ls) s.
Proof.
  intros Hi Hdep Hw Hl Hd Hj Hx Hv Hc.
  eapply (ok_recorded _ _ _ 0); [exact Hi|apply Hi|exact Hw|exact Hd|done|done|exact Hx|scratch_tac|done|done| |].
  - intros a b. by destruct Hc as [[-> _]| ->].
  - intros bs' c Hc' Ha _. split; [apply arrives_start in Ha; pose proof start_positive; simpl; lia|].
    destruct Hc as [[-> H32]| ->]; exists v, vs; (split; [done|]; split; [|done]); symmetry; by apply wrap_small.
Qed.
Lemma emit_i32_const_ok n : in_u 32 n -> pushes (emit_i32_const n) (i32_const_t n).
Proof.
  intros Hn s vs ls Hi Hdep. unfold emit_i32_const. eapply ok_more with (n := 0 + 11); [|lia].
  apply code_bind; [lia|]. apply code_gets.
  assert (H64 : in_u 64 n) by (by apply (in_u_64_bits i32)).
  assert (H : forall k bs i, writes k bs -> (length bs <= 10)%nat -> decodes bs i -> is_jump i = false ->
    computes vs ls i any (reg_is 0 n) ->
    ok 11 ((k;; emit_push rax) ≫= (fun _ => push_recent_op (code s) (i32_const_op n))) (fun _ s' => inv s' (i32_const_t n :: vs) ls) s).
  { intros k bs i Hw Hl Hd Hj Hx. eapply ok_eq; [apply bind_assoc|].
    eapply (ok_recorded_constant _ _ _ (i32_const_t n)); [exact Hi|done|exact Hw|done|exact Hd|done|exact Hx|done|by left]. }
  destruct (Z.eqb_spec n 0) as [->|_].
  - destruct (encodes_alu32 Machine.XOR 0x33 0 0) as (bs & Hw & Hl & Hd); [simpl; auto 10|scratch_tac|scratch_tac|].
    eapply ok_eq; [|eapply (H _ _ _ Hw Hl Hd); [done|]].
    + unfold fixed_size_instr, mbind, M_bind. rewrite release_sized. reflexivity.
    + pose proof (computes_zero vs ls 32 0 [] ltac:(by left) ltac:(scratch_tac) ltac:(by constructor)) as Hz. exact Hz.
  - destruct (writes_mov_imm 32 0 n ltac:(by left) ltac:(scratch_tac)) as (bs & Hw & Hl & Hd).
    eapply ok_eq; [|eapply (H _ _ _ Hw Hl Hd); [done|]].
    + unfold fixed_size_instr, mbind, M_bind. rewrite release_sized. reflexivity.
    + rewrite <- (wrap_small 32 n) at 2 by done. apply computes_mov_imm; [by left|scratch_tac].
Qed.
Lemma emit_i64_const_ok n : in_u 64 n -> pushes (emit_i64_const n) (i64_const_t n).
Proof.
  intros Hn s vs ls Hi Hdep. unfold emit_i64_const. eapply ok_more with (n := 0 + 11); [|lia].
  apply code_bind; [lia|]. apply code_gets, ok_sized.
  destruct (writes_mov_imm 64 0 n ltac:(by right) ltac:(scratch_tac)) as (bs & Hw & Hl & Hd).
  eapply (ok_recorded_constant _ _ _ (i64_const_t n)); [exact Hi|done|exact Hw|done|exact Hd|done| |done|by right].
  simpl slot. rewrite <- (wrap_small 64 n) at 2 by done. apply computes_mov_imm; [by right|scratch_tac].
Qed.
(** A constant that is not recorded *)
Lemma ok_mov_push w n v s vs ls :
  inv s vs ls -> (length vs < depth)%nat -> width_ok w -> in_u w n -> slot v = n ->
  ok 64 (emit_mov_imm n (reg w 0);; emit_push rax) (fun _ s' => inv s' (v :: vs) ls) s.
Proof.
  intros [He [Hend _]] Hdep Hw Hn Hv. destruct (writes_mov_imm w 0 n Hw ltac:(scratch_tac)) as (bs & Hwr & Hl & Hd).
  eapply ok_then; [eapply (ok_compute 10); [exact He|exact Hend|exact Hwr|exact Hd|done|lia|apply computes_mov_imm; [done|scratch_tac]]|lia|].
  intros [] s1 H1. eapply ok_more; [eapply code_push; [exact H1|scratch_tac| | |done]|lia].
  - intros g f Hq%reg_is_1. by rewrite Hq, wrap_small.
  - rewrite Hv. unfold in_u in *. destruct Hw as [-> | ->]; simpl in *; lia.
Qed.
Lemma emit_f32_const_ok n : in_u 32 n -> pushes (emit_f32_const n) (f32_const_t n).
Proof. intros Hn s vs ls Hi Hdep. apply ok_sized. by apply (ok_mov_push 32 n); [..|left| |]. Qed.
Lemma emit_f64_const_ok n : in_u 64 n -> pushes (emit_f64_const n) (f64_const_t n).
Proof. intros Hn s vs ls Hi Hdep. apply ok_sized. by apply (ok_mov_push 64 n); [..|right| |]. Qed.
End Values.

(** * Locals, drop and select *)
Import X86 X86Control X86Integer.

Section Locals.
Context `{sys : Sys} `{jit : Jit} {start : Start}.
Implicit Types (vs ls : list operand_stack_elem) (s : t).

(** The code generator knows where local [i] is. *)
Definition slot_known (s : t) (i : Z) (o : Z) : Prop :=
  0 <= i /\ local_at offs (Z.to_nat i) o /\ get_frame_offset i s = Ret o.

Lemma ok_frame_slot {B} n i o (f : operand -> M t B) (Q : B -> t -> Prop) s :
  slot_known s i o -> ok n (f (Disp 5 o)) Q s -> ok n (a ← frame_slot i; f a) Q s.
Proof.
  intros (_ & Hl & Hg) H. destruct (geo_in _ _ _ _ geo _ _ Hl) as [Ho _]. eapply ok_bind_ret; [|apply same_code_refl|lia|exact H].
  unfold frame_slot, gets, lift, mbind, M_bind. simpl. rewrite Hg. unfold at_disp. simpl. by rewrite sext_small by (done || lia).
Qed.

Lemma emit_get_local_ok i o v type s vs ls :
  inv s vs ls -> (length vs < depth)%nat -> slot_known s i o -> ls !! Z.to_nat i = Some v -> in_u 64 (slot v) -> type <> v128 ->
  ok 64 (emit_get_local i type) (fun _ s' => inv s' (v :: vs) ls) s.
Proof.
  intros Hi Hdep Hk Hv Hs Ht. pose proof Hk as (_ & Hl & _). destruct (geo_in _ _ _ _ geo _ _ Hl) as [Ho _].
  unfold emit_get_local. eapply ok_more with (n := 0 + 11); [|lia]. apply code_bind; [lia|]. apply code_gets, ok_sized.
  eapply ok_frame_slot; [exact Hk|]. rewrite (proj2 (Z.eqb_neq type v128)) by done. simpl negb. cbv iota.
  destruct (encodes_load_local o Ho) as (bs & Hw & Hlen & Hd).
  eapply (ok_recorded _ _ _ 0); [exact Hi|apply Hi|exact Hw|exact Hd|done|done| |scratch_tac|done|done|done|].
  - apply (computes_set _ _ _ _ _ 0 (slot v)); [scratch_tac|]. intros m Hm _. exists (Machine.flags m).
    split; [|apply reg_is_1, upd_same]. unfold Machine.exec.
    rewrite (get_local_64 m0 sp depth offs geo (Z.to_nat i) o v vs ls) by done. rewrite put_reg by (by right).
    by rewrite wrap_small.
  - intros bs' c Hc Ha Ha'. split; [apply arrives_start in Ha; pose proof start_positive; simpl; lia|].
    exists (Z.to_nat i), o, v, v, vs. done.
Qed.

Lemma ok_store_local k w i o v s vs ls :
  done_to s vs ls (reg_is 0 (slot v)) -> local_at offs i o -> encodes k (Machine.Mov w (Machine.RMem 5 None o) (Machine.RReg 0)) ->
  in_u 64 (slot v) ->
  (w = 64 \/ w = 32 /\ in_u 32 (slot v) /\ exists v0, ls !! i = Some v0 /\ in_u 32 (slot v0)) ->
  ok 10 k (fun _ s' => done_to s' vs (<[i := v]> ls) (reg_is 0 (slot v))) s.
Proof.
  intros [He Hs] Hl (bs & Hw & Hlen & Hd) Hv Hcase. unfold stale in Hs.
  eapply code_mono; [eapply (ok_instr _ _ _ _ _ _ _ vs (<[i := v]> ls) (reg_is 0 (slot v))); [exact He|lia|exact Hw|exact Hd|done|]|lia|by intros [] s' [_ ?]].
  intros m [Hm Hq%reg_is_1].
  assert (E : Machine.get w (Machine.RReg 0) m = slot v).
  { simpl. rewrite Hq. apply wrap_small. by destruct Hcase as [-> |(-> & ? & _)]. }
  exists (Machine.store (Machine.bytes_of w) (bp m0 + o) (slot v) m).
  split; [unfold Machine.exec; rewrite E; unfold Machine.put; by rewrite (local_address m0 sp depth offs geo i o m vs ls)|].
  split; [|by apply reg_is_1].
  apply (frame_store m0 sp depth offs geo); [done|done|by destruct Hcase as [-> |[-> _]]|].
  destruct Hcase as [-> |(-> & Hs32 & v0 & Hv0 & H0)]; [by apply load_store_slot|].
  apply load_store_low; [apply Hm|by rewrite (fr_locals _ _ _ _ _ _ _ Hm i o v0)|done].
Qed.

Lemma emit_set_local_ok i o v type s vs ls :
  inv s (v :: vs) ls -> slot_known s i o -> in_u 64 (slot v) -> type <> v128 ->
  ok 64 (emit_set_local i type) (fun _ s' => inv s' vs (<[Z.to_nat i := v]> ls)) s.
Proof.
  intros Hi Hk Hv Ht. pose proof Hk as (_ & Hl & _). destruct (geo_in _ _ _ _ geo _ _ Hl) as [Ho _].
  unfold emit_set_local. apply ok_sized. eapply ok_frame_slot; [exact Hk|].
  rewrite (proj2 (Z.eqb_neq type v128)) by done. simpl negb. cbv iota.
  eapply ok_then; [eapply (code_pop _ _ _ _ 0); [exact Hi|scratch_tac|done]|lia|]. intros [] s1 H1.
  eapply code_mono; [eapply (ok_store_local _ 64); [exact H1|exact Hl|by apply encodes_store_local|done|by left]|lia|].
  intros [] s2 H2. by eapply done_inv.
Qed.
Lemma emit_tee_local_ok i o v v0 type s vs ls :
  inv s (v :: vs) ls -> slot_known s i o -> ls !! Z.to_nat i = Some v0 -> scalar type ->
  in_u (bits_of type) (slot v) -> in_u (bits_of type) (slot v0) ->
  ok 64 (emit_tee_local i type) (fun _ s' => inv s' (v :: vs) (<[Z.to_nat i := v]> ls)) s.
Proof.
  intros Hi Hk Hv0 Ht Hv Hb. pose proof Hk as (_ & Hl & _). destruct (geo_in _ _ _ _ geo _ _ Hl) as [Ho _].
  pose proof (inv_depth _ _ _ Hi) as Hdep. simpl in Hdep. pose proof (in_u_64_bits _ _ Hv) as H64.
  unfold emit_tee_local. apply ok_sized. eapply ok_frame_slot; [exact Hk|].
  replace (negb (type =? v128)) with true by (by destruct Ht as [-> |[-> |[-> | ->]]]).
  eapply ok_then; [eapply (code_pop _ _ _ _ 0); [exact Hi|scratch_tac|done]|lia|]. intros [] s1 H1.
  assert (H : ok 10 (if (type =? i32) || (type =? f32) then emit_mov eax (Disp 5 o) else emit_mov rax (Disp 5 o))
    (fun _ s' => done_to s' vs (<[Z.to_nat i := v]> ls) (reg_is 0 (slot v))) s1).
  { unfold bits_of in *. destruct ((type =? i32) || (type =? f32)).
    - eapply (ok_store_local _ 32); [exact H1|exact Hl|by apply encodes_store_local32|done|right; eauto].
    - eapply (ok_store_local _ 64); [exact H1|exact Hl|by apply encodes_store_local|done|by left]. }
  eapply ok_then; [exact H|lia|]. intros [] s2 H2.
  eapply ok_more; [eapply code_push; [exact H2|scratch_tac| |done|lia]|lia]. intros g f. by apply reg_is_1.
Qed.

Lemma emit_drop_ok v type s vs ls :
  inv s (v :: vs) ls -> in_u 64 (slot v) -> type <> v128 ->
  ok 64 (emit_drop type) (fun _ s' => inv s' vs ls) s.
Proof.
  intros Hi Hv Ht. unfold emit_drop. apply ok_sized. rewrite (proj2 (Z.eqb_neq type v128)) by done.
  eapply code_mono; [eapply (code_pop _ _ _ _ 0); [exact Hi|scratch_tac|done]|lia|]. intros [] s1 H1. by eapply done_inv.
Qed.

(** [select]: the flags of the test decide between %rdx and %rcx. *)
Lemma computes_cmovz vs ls w z v1 v2 :
  width_ok w -> in_u w v1 -> in_u w v2 ->
  computes vs ls (Machine.Cmov 4 w 2 (Machine.RReg 1))
    (fun g f => g 1 = v2 /\ g 2 = v1 /\ exists fl, f = Some fl /\ Machine.fz fl = z)
    (reg_is 2 (if z then v2 else v1)).
Proof.
  intros Hw H1 H2. apply (computes_set _ _ _ _ _ 2 (if z then v2 else v1)); [scratch_tac|].
  intros m _ (E1 & E2 & fl & Ef & Ez). exists (Machine.flags m). split; [|apply reg_is_1, upd_same].
  unfold Machine.exec, Machine.holds. rewrite Ef. simpl. rewrite Ez, E1, E2, <- Ef.
  destruct z; by rewrite wrap_small.
Qed.
Lemma emit_select_ok c v1 v2 type s vs ls :
  inv s (i32_const_t c :: v2 :: v1 :: vs) ls -> scalar type -> in_u 32 c ->
  in_u (bits_of type) (slot v1) -> in_u (bits_of type) (slot v2) ->
  ok 64 (emit_select type) (fun _ s' => inv s' ((if c =? 0 then v2 else v1) :: vs) ls) s.
Proof.
  intros Hi Ht Hc H1 H2. pose proof (inv_depth _ _ _ Hi) as Hdep. simpl in Hdep.
  unfold emit_select. apply ok_sized. replace (type =? v128) with false by (by destruct Ht as [-> |[-> |[-> | ->]]]).
  eapply ok_then; [eapply (code_pop _ _ _ _ 0); [exact Hi|scratch_tac|by apply (in_u_64_bits i32)]|lia|]. intros [] s1 S1.
  eapply ok_then; [eapply (ok_pop_next _ _ _ _ _ 1); [exact S1|scratch_tac|by constructor|by constructor]|lia|]. intros [] s2 S2.
  eapply ok_then; [eapply (ok_pop_next _ _ _ _ _ 2); [exact S2|scratch_tac| |]|lia|].
  { unfold fresh. repeat constructor; simpl; lia. } { unfold fresh. repeat constructor; simpl; lia. }
  intros [] s3 S3. simpl slot in S3 at 1.
  eapply ok_then; [eapply (ok_encodes 10 _ _ _ _
      (fun g f => g 1 = slot v2 /\ g 2 = slot v1 /\ exists fl, f = Some fl /\ Machine.fz fl = (c =? 0))
      _ (Machine.Test 32 (Machine.RReg 0) (Machine.RReg 0)));
    [exact S3|encode|done|lia|]|lia|].
  { intros m _ Hq. exists None, 0, (Some (Machine.logic_flags 32 c)). split; [by left|].
    assert (E0 : Machine.regs m 0 = c) by (eapply regs_are_at; [|exact Hq]; elem_tac).
    split; [unfold Machine.exec, Machine.get; by rewrite E0, (wrap_small 32 c), Z.land_diag|].
    split; [eapply regs_are_at; [|exact Hq]; elem_tac|]. split; [eapply regs_are_at; [|exact Hq]; elem_tac|]. by eexists. }
  intros [] s4 S4.
  assert (H : ok 10 (if (type =? i32) || (type =? f32) then emit CMOVZ [ecx; edx] else emit CMOVZ [rcx; rdx])
    (fun _ s' => done_to s' vs ls (reg_is 2 (slot (if c =? 0 then v2 else v1)))) s4).
  { replace (slot (if c =? 0 then v2 else v1)) with (if c =? 0 then slot v2 else slot v1) by (by destruct (c =? 0)).
    unfold bits_of in *. destruct ((type =? i32) || (type =? f32)).
    - eapply (ok_encodes 10 _ _ _ _ _ _ (Machine.Cmov 4 32 2 (Machine.RReg 1)));
        [exact S4| |done|lia|apply (computes_cmovz _ _ 32); [by left|done|done]]. encode.
    - eapply (ok_encodes 10 _ _ _ _ _ _ (Machine.Cmov 4 64 2 (Machine.RReg 1)));
        [exact S4| |done|lia|apply (computes_cmovz _ _ 64); [by right|done|done]]. encode. }
  eapply ok_then; [exact H|lia|]. intros [] s5 S5.
  eapply ok_more; [eapply code_push; [exact S5|scratch_tac| | |lia]|lia].
  - intros g f. by apply reg_is_1.
  - destruct (c =? 0); by eapply in_u_64_bits.
Qed.
End Locals.
