(* ===== verification/X86Offsets.v ===== *)
(** * The layout of a frame (x86_64.hpp, [function_parameters] and [function_locals])

    The groups of locals with their offsets, and the binary search among them, against
    the flat list of the types of the parameters and locals. *)
From S2P Require Import Prelude Allocator Types Validation Parser Fixtures ValidationClaims X86 X86Control.
Import X86 X86Control.

Definition slot_size (t : Z) : Z := if t =? v128 then 16 else 8.
Definition sum_sizes (types : list Z) : Z := foldr (fun t n => slot_size t + n) 0 types.

(** Where local [i] is, relative to the frame pointer: the last parameter at 16, the
    locals below 0 *)
Definition flat_offset (params locals : list Z) (i : nat) : Z :=
  if (i <? length params)%nat then 16 + sum_sizes (drop (S i) params)
  else - sum_sizes (take (S (i - length params)) locals).

Lemma slot_size_bound t : 8 <= slot_size t <= 16.
Proof. unfold slot_size. destruct (_ =? _); lia. Qed.
Lemma sum_sizes_app l k : sum_sizes (l ++ k) = sum_sizes l + sum_sizes k.
Proof. induction l as [|t l IH]; simpl; [done|]. rewrite IH. lia. Qed.
Lemma sum_sizes_bound l : 8 * Z.of_nat (length l) <= sum_sizes l.
Proof. induction l as [|t l IH]; simpl; [lia|]. pose proof (slot_size_bound t). lia. Qed.
Lemma sum_sizes_reverse l : sum_sizes (reverse l) = sum_sizes l.
Proof. induction l as [|t l IH]; [done|]. rewrite reverse_cons, sum_sizes_app, IH. simpl. lia. Qed.
Lemma sum_sizes_replicate n t : sum_sizes (replicate n t) = Z.of_nat n * slot_size t.
Proof. induction n as [|n IH]; simpl; [lia|]. rewrite IH. lia. Qed.
Lemma sum_sizes_take_S l i t : l !! i = Some t -> sum_sizes (take (S i) l) = sum_sizes (take i l) + slot_size t.
Proof. intros H. rewrite (take_S_r _ _ _ H), sum_sizes_app. simpl. lia. Qed.
Lemma sum_sizes_take_mono l i j : (i <= j)%nat -> sum_sizes (take i l) <= sum_sizes (take j l).
Proof.
  intros H. replace j with (i + (j - i))%nat by lia. rewrite <- take_take_drop, sum_sizes_app.
  pose proof (sum_sizes_bound (take (j - i) (drop i l))). lia.
Qed.

Definition not_implemented : exn := wasm_parse_exception "Sorry, not implemented.".

(** ** Parameters *)
Lemma parameter_offsets_spec types : forall cur, 0 <= cur <= 0x7fffffff + 16 ->
  match parameter_offsets cur types with
  | Ret l => length l = length types /\ forall i, (i < length types)%nat ->
      l !! i = Some (cur + sum_sizes (take i types)) /\ cur + sum_sizes (take i types) <= 0x7fffffff
  | Throw e => e = not_implemented /\ exists i, (i < length types)%nat /\ 0x7fffffff < cur + sum_sizes (take i types)
  | UB _ => False
  end.
Proof.
  induction types as [|t types IH]; intros cur Hc; simpl; [split; [done|]; intros; lia|].
  unfold EOS_VM_ASSERT. destruct (Z.leb_spec cur 0x7fffffff) as [Hle|Hgt]; simpl.
  2: { split; [done|]. exists 0%nat. simpl. lia. }
  pose proof (slot_size_bound t) as Hs. unfold slot_size in Hs.
  rewrite wrap_small by (unfold in_u; lia). fold (slot_size t) in Hs |- *.
  specialize (IH (cur + slot_size t) ltac:(lia)). destruct (parameter_offsets _ _) as [l|e|w]; [| |done]; simpl.
  - destruct IH as [Hl Hi]. split; [by f_equal|]. intros [|i] Hlt; simpl; [by rewrite Z.add_0_r|].
    destruct (Hi i ltac:(lia)) as [H1 H2]. rewrite H1. split; [f_equal; lia|lia].
  - destruct IH as [-> (i & Hi & Hx)]. split; [done|]. exists (S i). simpl. lia.
Qed.

Lemma function_parameters_spec ft l i :
  function_parameters ft = Ret l -> (i < length (param_types ft))%nat ->
  l !! i = Some (16 + sum_sizes (drop (S i) (param_types ft))) /\ 16 + sum_sizes (drop (S i) (param_types ft)) <= 0x7fffffff.
Proof.
  unfold function_parameters. intros H Hi. set (ps := param_types ft) in *.
  pose proof (parameter_offsets_spec (reverse ps) 16 ltac:(lia)) as Hs.
  destruct (parameter_offsets 16 (reverse ps)) as [k|e|w]; [|done|done]. simpl in H. injection H as <-.
  destruct Hs as [Hl Hk]. rewrite length_reverse in *.
  destruct (Hk (length ps - S i)%nat ltac:(lia)) as [H1 H2].
  assert (E : take (length ps - S i) (reverse ps) = reverse (drop (S i) ps)).
  { rewrite <- (take_drop (S i) ps) at 2. rewrite reverse_app, take_app_length'; [done|]. rewrite length_reverse, length_drop. lia. }
  rewrite E, sum_sizes_reverse in *. split; [|done].
  rewrite reverse_lookup by lia. rewrite Hl. exact H1.
Qed.

(** ** Groups of locals *)
Definition group_at (off fo : Z) (entries : list local_entry) (k : nat) (e : local_entry) : local_group :=
  LocalGroup (off + total (take (S k) entries)) (fo - sum_sizes (expand (take (S k) entries))) (slot_size (local_type e)).

Lemma local_groups_spec entries : forall off fo,
  Forall (fun e => in_u 32 (local_count e)) entries -> 0 <= off -> 8 * off <= - fo -> -0x80000000 <= fo <= 0 ->
  match local_groups off fo entries with
  | Ret gs => length gs = length entries /\ -0x80000000 <= fo - sum_sizes (expand entries) /\
      forall k e, entries !! k = Some e -> gs !! k = Some (group_at off fo entries k e)
  | Throw e => e = not_implemented /\ fo - sum_sizes (expand entries) < -0x80000000
  | UB _ => False
  end.
Proof.
  induction entries as [|e entries IH]; intros off fo Hall Ho H8 Hf; simpl local_groups.
  { split; [done|]. split; [simpl; lia|]. by intros k e Hk. }
  inversion Hall as [|? ? He Hall']; subst. unfold in_u in He.
  assert (Et : sum_sizes (expand (e :: entries)) = local_count e * slot_size (local_type e) + sum_sizes (expand entries)).
  { by rewrite expand_cons, sum_sizes_app, sum_sizes_replicate, Z2Nat.id by lia. }
  rewrite Et. pose proof (slot_size_bound (local_type e)) as Hs. pose proof (sum_sizes_bound (expand entries)) as Hb.
  change (if local_type e =? v128 then 16 else 8) with (slot_size (local_type e)).
  unfold EOS_VM_ASSERT. destruct (Z.leb_spec (-0x80000000 + slot_size (local_type e) * local_count e) fo) as [Hle|Hgt]; simpl.
  2: { split; [done|]. lia. }
  set (sz := slot_size (local_type e)) in *.
  assert (Hc : 8 * local_count e <= sz * local_count e) by nia.
  rewrite (wrap_small 32) by (unfold in_u; simpl; lia). rewrite sext_small by (lia || unfold in_s; simpl; lia).
  specialize (IH (off + local_count e) (fo - sz * local_count e) Hall' ltac:(lia) ltac:(lia) ltac:(lia)).
  destruct (local_groups _ _ entries) as [gs|x|w]; [| |done]; simpl.
  - destruct IH as (Hl & Hge & Hk). split; [by f_equal|]. split; [lia|]. intros [|k] x Hx; simpl in Hx |- *.
    + injection Hx as ->. unfold group_at. f_equal. f_equal; simpl take; rewrite expand_cons || unfold total; rewrite ?expand_cons;
        rewrite ?app_nil_r, ?sum_sizes_app, ?sum_sizes_replicate, ?length_app, ?length_replicate; simpl; subst sz; try lia.
    + rewrite (Hk k x Hx). unfold group_at. f_equal. f_equal; simpl take; unfold total; rewrite !expand_cons, ?length_app, ?sum_sizes_app, ?length_replicate, ?sum_sizes_replicate;
        subst sz; lia.
  - destruct IH as [-> Hx]. split; [done|]. lia.
Qed.

(** ** The binary search *)
Lemma partition_point_spec {A} (pred : A -> bool) (l : list A) fuel : forall first len,
  (len <= fuel)%nat -> (first + len <= length l)%nat ->
  let p := partition_point fuel pred l first len in
  (first <= p <= first + len)%nat /\
  (forall q x, p = S q -> (first <= q)%nat -> l !! q = Some x -> pred x = true) /\
  (forall x, (p < first + len)%nat -> l !! p = Some x -> pred x = false).
Proof.
  induction fuel as [|fuel IH]; intros first len Hf Hl; simpl.
  { split; [lia|]. split; [intros; lia|intros; lia]. }
  destruct (Nat.eqb_spec len 0) as [->|Hlen].
  { split; [lia|]. split; [intros; lia|intros; lia]. }
  pose proof (Nat.lt_div2 len ltac:(lia)) as Hh. set (half := Nat.div2 len) in *.
  destruct (lookup_lt_is_Some_2 l (first + half)%nat ltac:(lia)) as [x Hx]. rewrite Hx.
  destruct (pred x) eqn:Hp.
  - destruct (IH (first + half + 1)%nat (len - half - 1)%nat ltac:(lia) ltac:(lia)) as (H1 & H2 & H3).
    split; [lia|]. split.
    + intros q y Hq Hge Hy. destruct (decide (first + half + 1 <= q)%nat); [by apply (H2 q y)|].
      assert (q = first + half)%nat as -> by lia. by simplify_eq.
    + intros y Hlt. apply H3. lia.
  - destruct (IH first half ltac:(lia) ltac:(lia)) as (H1 & H2 & H3).
    split; [lia|]. split; [done|]. intros y Hlt Hy.
    destruct (decide (partition_point fuel pred l first half < first + half)%nat); [by apply H3|].
    assert (partition_point fuel pred l first half = first + half)%nat as E by lia. rewrite E in Hy. by simplify_eq.
Qed.

Lemma total_take_S entries k e : entries !! k = Some e -> 0 <= local_count e ->
  total (take (S k) entries) = total (take k entries) + local_count e /\
  sum_sizes (expand (take (S k) entries)) = sum_sizes (expand (take k entries)) + local_count e * slot_size (local_type e).
Proof.
  intros He Hc. rewrite (take_S_r _ _ _ He). unfold total.
  assert (E : expand (take k entries ++ [e]) = expand (take k entries) ++ replicate (Z.to_nat (local_count e)) (local_type e)).
  { unfold expand. rewrite fmap_app, join_app. simpl. by rewrite app_nil_r. }
  by rewrite E, length_app, sum_sizes_app, sum_sizes_replicate, length_replicate, Nat2Z.inj_add, Z2Nat.id by lia.
Qed.
Lemma expand_take_prefix entries k : exists rest, expand entries = expand (take k entries) ++ rest.
Proof.
  exists (expand (drop k entries)). unfold expand. rewrite <- join_app, <- fmap_app, take_drop. done.
Qed.

Lemma local_offset_spec entries gs i :
  Forall (fun e => in_u 32 (local_count e)) entries -> function_locals entries = Ret gs -> 0 <= i < total entries ->
  local_offset gs i = Ret (- sum_sizes (take (S (Z.to_nat i)) (expand entries))) /\
  -0x80000000 <= - sum_sizes (take (S (Z.to_nat i)) (expand entries)).
Proof.
  intros Hall Hf Hi. unfold function_locals in Hf.
  pose proof (local_groups_spec entries 0 0 Hall ltac:(lia) ltac:(lia) ltac:(lia)) as H. rewrite Hf in H.
  destruct H as (Hlen & Hsize & Hg). unfold local_offset.
  set (p := partition_point (length gs) (fun e => lg_end e <=? i) gs 0 (length gs)).
  destruct (partition_point_spec (fun e => lg_end e <=? i) gs (length gs) 0 (length gs) ltac:(lia) ltac:(lia)) as (H1 & H2 & H3).
  fold p in H1, H2, H3. clearbody p.
  assert (Hp : (p < length entries)%nat).
  { destruct (decide (p < length entries)%nat); [done|]. exfalso.
    assert (p = length entries) as -> by lia. destruct (length entries) as [|k] eqn:En; [apply nil_length_inv in En as ->; unfold total, expand in Hi; simpl in Hi; lia|].
    destruct (lookup_lt_is_Some_2 entries k ltac:(lia)) as [e He]. pose proof (Hg k e He) as Hge.
    specialize (H2 k _ eq_refl ltac:(lia) Hge). unfold group_at in H2. simpl lg_end in H2.
    rewrite take_ge in H2 by lia. lia. }
  destruct (lookup_lt_is_Some_2 entries p Hp) as [e He]. pose proof (Hg p e He) as Hge.
  specialize (H3 _ ltac:(lia) Hge). rewrite Hge. unfold group_at in *. simpl in H3.
  assert (Hce : in_u 32 (local_count e)) by (by eapply Forall_lookup_1 in Hall). unfold in_u in Hce.
  destruct (total_take_S entries p e He ltac:(lia)) as [Et Es]. simpl "+" in *.
  assert (Hlo : total (take p entries) <= i).
  { destruct p as [|q]; [unfold total; simpl; lia|].
    destruct (lookup_lt_is_Some_2 entries q ltac:(lia)) as [e' He']. specialize (H2 q _ eq_refl ltac:(lia) (Hg q e' He')).
    unfold group_at in H2. simpl in H2. lia. }
  destruct (expand_take_prefix entries (S p)) as [rest Er].
  assert (Etake : sum_sizes (take (S (Z.to_nat i)) (expand entries)) =
    sum_sizes (expand (take p entries)) + (i + 1 - total (take p entries)) * slot_size (local_type e)).
  { rewrite Er. rewrite (take_S_r _ _ _ He). unfold expand at 1. rewrite fmap_app, join_app. simpl. rewrite app_nil_r.
    fold (expand (take p entries)). unfold total in *.
    rewrite <- app_assoc, take_app_ge by lia. rewrite take_app_le by (rewrite length_replicate; lia).
    rewrite take_replicate, sum_sizes_app, sum_sizes_replicate. f_equal. f_equal. lia. }
  pose proof (slot_size_bound (local_type e)) as Hs. pose proof (sum_sizes_bound (expand (take p entries))) as Hb1.
  assert (Hle : sum_sizes (take (S (Z.to_nat i)) (expand entries)) <= sum_sizes (expand entries)).
  { rewrite <- (take_ge (expand entries) (length (expand entries))) at 2 by lia.
    apply sum_sizes_take_mono. unfold total in Hi. lia. }
  rewrite Etake in *. set (sz := slot_size (local_type e)) in *. set (tp := total (take p entries)) in *.
  set (sp := sum_sizes (expand (take p entries))) in *. simpl lg_end. simpl lg_end_offset. simpl lg_elem_size.
  assert (Hsum : sp + local_count e * sz <= sum_sizes (expand entries)).
  { rewrite <- Es, Er, sum_sizes_app. pose proof (sum_sizes_bound rest). lia. }
  split; [|lia]. simpl. f_equal. rewrite Et, Es.
  assert (0 <= tp + local_count e - i - 1 < local_count e) by lia. unfold tp in *; clear tp.
  set (tp := total (take p entries)) in *.
  rewrite (wrap_small 32 (0 + _ - _ - _)) by (unfold in_u; lia).
  rewrite (wrap_small 32) by (unfold in_u; nia).
  rewrite sext_small by (lia || unfold in_s; nia). nia.
Qed.

(** ** Both together *)
Lemma flat_offset_spec ft entries s i :
  Forall (fun e => in_u 32 (local_count e)) entries ->
  _ft s = ft -> function_parameters ft = Ret (_params s) -> function_locals entries = Ret (_locals s) ->
  0 <= i < Z.of_nat (length (param_types ft)) + total entries -> i < 2 ^ 32 ->
  get_frame_offset i s = Ret (flat_offset (param_types ft) (expand entries) (Z.to_nat i)) /\
  in_s 32 (flat_offset (param_types ft) (expand entries) (Z.to_nat i)).
Proof.
  intros Hall Hft Hp Hl Hi Hi32. unfold get_frame_offset, flat_offset. rewrite Hft.
  set (n := length (param_types ft)) in *.
  destruct (Z.ltb_spec i (Z.of_nat n)) as [Hlt|Hge].
  - destruct (function_parameters_spec _ _ (Z.to_nat i) Hp ltac:(lia)) as [H1 H2].
    unfold nthZ. rewrite (proj2 (Z.ltb_ge i 0)) by lia. rewrite H1.
    simpl. rewrite (proj2 (Nat.ltb_lt _ _)) by lia.
    pose proof (sum_sizes_bound (drop (S (Z.to_nat i)) (param_types ft))).
    assert (in_s 32 (16 + sum_sizes (drop (S (Z.to_nat i)) (param_types ft)))) by (unfold in_s; lia).
    split; [|done]. by rewrite sext_small by (lia || done).
  - destruct (local_offset_spec entries (_locals s) (i - Z.of_nat n) Hall Hl ltac:(lia)) as [H1 H2].
    rewrite wrap_small by (unfold in_u; lia). rewrite H1.
    rewrite (proj2 (Nat.ltb_ge _ _)) by lia.
    replace (S (Z.to_nat (i - Z.of_nat n))) with (S (Z.to_nat i - n)) in * by lia. split; [done|].
    pose proof (sum_sizes_bound (take (S (Z.to_nat i - n)) (expand entries))). unfold in_s; lia.
Qed.

(** ** The frame of a function *)
Section Layout.
Variables (params locals : list Z).
Abbreviation flat := (flat_offset params locals).
Abbreviation all := (params ++ locals).

(** The slots follow each other, the first local's at the top. *)
Lemma flat_offset_below i j t : (i < j)%nat -> all !! j = Some t -> flat j + slot_size t <= flat i.
Proof.
  intros Hij Ht. unfold flat_offset. pose proof (slot_size_bound t).
  destruct (Nat.ltb_spec j (length params)) as [Hj|Hj]; destruct (Nat.ltb_spec i (length params)) as [Hi|Hi]; try lia.
  - rewrite lookup_app_l in Ht by done. pose proof (drop_S _ _ _ Ht) as E.
    replace (drop j params) with (drop (j - S i) (drop (S i) params)) in E by (rewrite drop_drop; f_equal; lia).
    pose proof (take_drop (j - S i) (drop (S i) params)) as Et. rewrite E in Et.
    rewrite <- Et, sum_sizes_app. simpl. pose proof (sum_sizes_bound (take (j - S i) (drop (S i) params))). lia.
  - rewrite lookup_app_r in Ht by done. pose proof (sum_sizes_take_S _ _ _ Ht).
    pose proof (sum_sizes_bound (drop (S i) params)). pose proof (sum_sizes_bound (take (j - length params) locals)).
    lia.
  - rewrite lookup_app_r in Ht by done. pose proof (sum_sizes_take_S _ _ _ Ht).
    pose proof (sum_sizes_take_mono locals (S (i - length params)) (j - length params) ltac:(lia)).
    lia.
Qed.
(** They are between the locals' end and the parameters'; the saved registers, 16 bytes
    from 0, are not among them. *)
Lemma flat_offset_range i t : all !! i = Some t ->
  - sum_sizes locals <= flat i /\ flat i + slot_size t <= 16 + sum_sizes params /\
  (flat i + slot_size t <= 0 \/ 16 <= flat i).
Proof.
  intros Ht. unfold flat_offset. pose proof (slot_size_bound t).
  pose proof (sum_sizes_bound locals). pose proof (sum_sizes_bound params).
  destruct (Nat.ltb_spec i (length params)) as [Hi|Hi].
  - rewrite lookup_app_l in Ht by done. pose proof (drop_S _ _ _ Ht) as E.
    assert (Es : sum_sizes params = sum_sizes (take i params) + (slot_size t + sum_sizes (drop (S i) params)))
      by (rewrite <- (take_drop i params) at 1; by rewrite sum_sizes_app, E).
    pose proof (sum_sizes_bound (take i params)). pose proof (sum_sizes_bound (drop (S i) params)). lia.
  - rewrite lookup_app_r in Ht by done. pose proof (sum_sizes_take_S _ _ _ Ht).
    pose proof (take_drop (S (i - length params)) locals) as Et.
    assert (E : sum_sizes locals = sum_sizes (take (S (i - length params)) locals) + sum_sizes (drop (S (i - length params)) locals))
      by (by rewrite <- sum_sizes_app, Et).
    pose proof (sum_sizes_bound (take (i - length params) locals)). pose proof (sum_sizes_bound (drop (S (i - length params)) locals)).
    lia.
Qed.
End Layout.

(** C12. [get_frame_offset] gives every parameter and local of a function a slot of its own,
    of the size of its type, at an offset that a 32-bit displacement holds. *)
Theorem frame_layout ft entries s :
  Forall (fun e => in_u 32 (local_count e)) entries -> _ft s = ft ->
  let types := param_types ft ++ expand entries in
  Z.of_nat (length types) < 2 ^ 32 ->
  match function_parameters ft, function_locals entries with
  | Ret ps, Ret gs =>
      _params s = ps -> _locals s = gs ->
      (forall i t, types !! i = Some t -> exists o,
         get_frame_offset (Z.of_nat i) s = Ret o /\ in_s 32 o /\ (o + slot_size t <= 0 \/ 16 <= o) /\
         - sum_sizes (expand entries) <= o /\ o + slot_size t <= 16 + sum_sizes (param_types ft)) /\
      (forall i j t o o', (i < j)%nat -> types !! j = Some t ->
         get_frame_offset (Z.of_nat i) s = Ret o -> get_frame_offset (Z.of_nat j) s = Ret o' -> o' + slot_size t <= o)
  | Throw e, _ => e = not_implemented
  | Ret _, Throw e => e = not_implemented
  | _, _ => False
  end.
Proof.
  intros Hall Hft types Hn. destruct (function_parameters ft) as [ps|e|w] eqn:Ep.
  - destruct (function_locals entries) as [gs|e|w] eqn:El.
    + intros Hps Hgs.
      assert (Hg : forall i t, types !! i = Some t ->
        get_frame_offset (Z.of_nat i) s = Ret (flat_offset (param_types ft) (expand entries) i) /\
        in_s 32 (flat_offset (param_types ft) (expand entries) i)).
      { intros i t Hi. pose proof (lookup_lt_Some _ _ _ Hi) as Hlt. subst types. rewrite length_app in *.
        pose proof (flat_offset_spec ft entries s (Z.of_nat i) Hall Hft) as H. rewrite Nat2Z.id in H.
        apply H; [congruence|congruence|unfold total; lia|lia]. }
      split.
      * intros i t Hi. destruct (Hg i t Hi) as [H1 H2]. pose proof (flat_offset_range _ _ _ _ Hi).
        exists (flat_offset (param_types ft) (expand entries) i). tauto.
      * intros i j t o o' Hij Hj Ho Ho'. destruct (lookup_lt_is_Some_2 types i) as [u Hi].
        { apply lookup_lt_Some in Hj. lia. }
        destruct (Hg i u Hi) as [E _]. destruct (Hg j t Hj) as [E' _]. rewrite E in Ho. rewrite E' in Ho'.
        injection Ho as <-. injection Ho' as <-. by apply flat_offset_below.
    + unfold function_locals in El. pose proof (local_groups_spec entries 0 0 Hall ltac:(lia) ltac:(lia) ltac:(lia)) as H.
      rewrite El in H. apply H.
    + unfold function_locals in El. pose proof (local_groups_spec entries 0 0 Hall ltac:(lia) ltac:(lia) ltac:(lia)) as H.
      by rewrite El in H.
  - unfold function_parameters in Ep. pose proof (parameter_offsets_spec (reverse (param_types ft)) 16 ltac:(lia)) as H.
    destruct (parameter_offsets _ _); [done| |done]. injection Ep as <-. apply H.
  - unfold function_parameters in Ep. pose proof (parameter_offsets_spec (reverse (param_types ft)) 16 ltac:(lia)) as H.
    by destruct (parameter_offsets _ _).
Qed.

(** [i32, v128] and locals [i64, i64, v128] *)
Definition mixed_type : func_type := FuncType func [i32; v128] 0 0.
Definition mixed_locals : list local_entry := [LocalEntry 2 i64; LocalEntry 1 v128].
Definition mixed_generator : X86.t :=
  X86.Make example_module arena_example ∅ 1000 mixed_type [32; 16] [LocalGroup 2 (-16) 8; LocalGroup 3 (-32) 16]
    1000 5000 1000 [] 0 0 0 0 0 3 0 0 no_recent no_recent.
Lemma frame_layout_witness :
  exists o, get_frame_offset 4 mixed_generator = Ret o /\ (o + 16 <= 0 \/ 16 <= o) /\ get_frame_offset 3 mixed_generator = Ret (-16) /\
    o + 16 <= -16.
Proof.
  pose proof (frame_layout mixed_type mixed_locals mixed_generator) as H.
  destruct (H ltac:(repeat constructor; done) eq_refl ltac:(vm_compute; reflexivity) eq_refl eq_refl) as [H1 H2].
  destruct (H1 4%nat v128 eq_refl) as (o & Ho & _ & Hr & _). exists o.
  split; [exact Ho|]. split; [exact Hr|]. split; [reflexivity|].
  exact (H2 3%nat 4%nat v128 (-16) o ltac:(lia) eq_refl eq_refl Ho).
Defined.
