(* ===== verification/X86Straight.v ===== *)
(** * Straight-line code, compiled and interpreted (x86_64.hpp, interpret_visitor.hpp)

    Instructions without jumps, memory or floating-point arithmetic: their types, the
    calls of the writer for them, what they do to operands and locals, and that the
    interpreter does just that. *)
From S2P Require Import Prelude WasmStack Allocator Opcodes Types LinearMemory ExecContext Softfloat Simd OpSigs Interpreter Fixtures ContextProofs InstanceProofs Soundness IntegerOps BulkMemory Writers CodeTyping RunTyping X86Frame X86Values.
Import Op(opcode).

(** ** The instructions *)
Definition numeric_binary (o : Op.numeric_op) : option (bool * (Z -> Z -> Z)) :=
  match o with
  | Op.i32_add => Some (false, Z.add) | Op.i64_add => Some (true, Z.add)
  | Op.i32_sub => Some (false, Z.sub) | Op.i64_sub => Some (true, Z.sub)
  | Op.i32_mul => Some (false, Z.mul) | Op.i64_mul => Some (true, Z.mul)
  | Op.i32_and => Some (false, Z.land) | Op.i64_and => Some (true, Z.land)
  | Op.i32_or => Some (false, Z.lor) | Op.i64_or => Some (true, Z.lor)
  | Op.i32_xor => Some (false, Z.lxor) | Op.i64_xor => Some (true, Z.lxor)
  | Op.i32_shl => Some (false, fun a b => Z.shiftl a (Z.land b 31))
  | Op.i64_shl => Some (true, fun a b => Z.shiftl a (Z.land b 63))
  | Op.i32_shr_s => Some (false, fun a b => Z.shiftr (sext 32 a) (Z.land b 31))
  | Op.i64_shr_s => Some (true, fun a b => Z.shiftr (sext 64 a) (Z.land b 63))
  | Op.i32_shr_u => Some (false, fun a b => Z.shiftr a (Z.land b 31))
  | Op.i64_shr_u => Some (true, fun a b => Z.shiftr a (Z.land b 63))
  | Op.i32_rotl => Some (false, rotl 32) | Op.i64_rotl => Some (true, rotl 64)
  | Op.i32_rotr => Some (false, rotr 32) | Op.i64_rotr => Some (true, rotr 64)
  | _ => None
  end.
Definition comparison_binary (o : Op.comparison_op) : option (bool * (Z -> Z -> bool)) :=
  match o with
  | Op.i32_eq => Some (false, Z.eqb) | Op.i64_eq => Some (true, Z.eqb)
  | Op.i32_ne => Some (false, fun a b => negb (a =? b)) | Op.i64_ne => Some (true, fun a b => negb (a =? b))
  | Op.i32_lt_u => Some (false, Z.ltb) | Op.i64_lt_u => Some (true, Z.ltb)
  | Op.i32_le_u => Some (false, Z.leb) | Op.i64_le_u => Some (true, Z.leb)
  | Op.i32_gt_u => Some (false, Z.gtb) | Op.i64_gt_u => Some (true, Z.gtb)
  | Op.i32_ge_u => Some (false, Z.geb) | Op.i64_ge_u => Some (true, Z.geb)
  | Op.i32_lt_s => Some (false, fun a b => sext 32 a <? sext 32 b)
  | Op.i64_lt_s => Some (true, fun a b => sext 64 a <? sext 64 b)
  | Op.i32_le_s => Some (false, fun a b => sext 32 a <=? sext 32 b)
  | Op.i64_le_s => Some (true, fun a b => sext 64 a <=? sext 64 b)
  | Op.i32_gt_s => Some (false, fun a b => sext 32 a >? sext 32 b)
  | Op.i64_gt_s => Some (true, fun a b => sext 64 a >? sext 64 b)
  | Op.i32_ge_s => Some (false, fun a b => sext 32 a >=? sext 32 b)
  | Op.i64_ge_s => Some (true, fun a b => sext 64 a >=? sext 64 b)
  | _ => None
  end.
(** The width of the operands, that of the result, and the function *)
Definition binary_of (o : opcode) : option (bool * bool * (Z -> Z -> Z)) :=
  match o with
  | Op.NUMERIC o => '(w, f) ← numeric_binary o; Some (w, w, f)
  | Op.COMPARISON o => '(w, f) ← comparison_binary o; Some (w, false, fun a b => b2z (f a b))
  | _ => None
  end.
(** The types of the operand and the result, and the function *)
Definition unary_of (o : opcode) : option (Z * Z * (Z -> Z)) :=
  match o with
  | Op.NUMERIC Op.i32_extend8_s => Some (i32, i32, fun a => wrap 32 (sext 8 a))
  | Op.NUMERIC Op.i32_extend16_s => Some (i32, i32, fun a => wrap 32 (sext 16 a))
  | Op.NUMERIC Op.i64_extend8_s => Some (i64, i64, fun a => wrap 64 (sext 8 a))
  | Op.NUMERIC Op.i64_extend16_s => Some (i64, i64, fun a => wrap 64 (sext 16 a))
  | Op.NUMERIC Op.i64_extend32_s => Some (i64, i64, fun a => wrap 64 (sext 32 a))
  | Op.COMPARISON Op.i32_eqz => Some (i32, i32, fun a => b2z (a =? 0))
  | Op.COMPARISON Op.i64_eqz => Some (i64, i32, fun a => b2z (a =? 0))
  | Op.CONVERSION Op.i32_wrap_i64 => Some (i64, i32, wrap 32)
  | Op.CONVERSION Op.i64_extend_s_i32 => Some (i32, i64, fun a => wrap 64 (sext 32 a))
  | Op.CONVERSION Op.i64_extend_u_i32 => Some (i32, i64, fun a => a)
  | Op.CONVERSION Op.i32_reinterpret_f32 => Some (f32, i32, fun a => a)
  | Op.CONVERSION Op.i64_reinterpret_f64 => Some (f64, i64, fun a => a)
  | Op.CONVERSION Op.f32_reinterpret_i32 => Some (i32, f32, fun a => a)
  | Op.CONVERSION Op.f64_reinterpret_i64 => Some (i64, f64, fun a => a)
  | _ => None
  end.
Definition constant_of (o : opcode) : option operand_stack_elem :=
  match o with
  | Op.I32_CONST n => Some (i32_const_t n) | Op.I64_CONST n => Some (i64_const_t n)
  | Op.F32_CONST n => Some (f32_const_t n) | Op.F64_CONST n => Some (f64_const_t n)
  | _ => None
  end.

(** ** Types *)
Definition integer (w : bool) : Z := if w then i64 else i32.
Definition value_okb (e : operand_stack_elem) : bool :=
  match e with v128_const_t _ => false | _ => (0 <=? slot e) && (slot e <? 2 ^ bits_of (elem_type e)) end.

(** The types of the operands after an instruction, top first; [None] outside the
    fragment *)
Definition next (locals : list Z) (o : opcode) (ts : list Z) : option (list Z) :=
  match binary_of o, unary_of o, constant_of o with
  | Some (w, r, _), _, _ =>
      match ts with
      | u :: t :: ts => if (t =? integer w) && (u =? integer w) then Some (integer r :: ts) else None
      | _ => None
      end
  | None, Some (t, u, _), _ => match ts with t' :: ts => if t' =? t then Some (u :: ts) else None | _ => None end
  | None, None, Some v => if value_okb v then Some (elem_type v :: ts) else None
  | None, None, None =>
      match o, ts with
      | Op.PARAMETRIC Op.drop_, _ :: ts => Some ts
      | Op.PARAMETRIC Op.select_, c :: t2 :: t1 :: ts => if (c =? i32) && (t2 =? t1) then Some (t1 :: ts) else None
      | Op.VARIABLE_ACCESS Op.get_local i, _ => t ← nthZ locals i; Some (t :: ts)
      | Op.VARIABLE_ACCESS Op.set_local i, t :: ts => t' ← nthZ locals i; if t =? t' then Some ts else None
      | Op.VARIABLE_ACCESS Op.tee_local i, t :: ts => t' ← nthZ locals i; if t =? t' then Some (t :: ts) else None
      | _, _ => None
      end
  end.
(** Code with at most [depth] operands throughout *)
Fixpoint straight (locals : list Z) (depth : nat) (l : list opcode) (ts : list Z) : option (list Z) :=
  match l with
  | [] => Some ts
  | o :: l => us ← next locals o ts; if (length us <=? depth)%nat then straight locals depth l us else None
  end.

(** ** The calls of the writer, as [parse_function_body_code] makes them *)
Section Emit.
Context `{wr : Writer W}.
Definition emit_instr (locals ts : list Z) (o : opcode) : M W unit :=
  match o with
  | Op.NUMERIC o => emit_numeric o
  | Op.COMPARISON o => emit_comparison o
  | Op.CONVERSION o => emit_conversion o
  | Op.I32_CONST n => emit_i32_const n
  | Op.I64_CONST n => emit_i64_const n
  | Op.F32_CONST n => emit_f32_const n
  | Op.F64_CONST n => emit_f64_const n
  | Op.PARAMETRIC Op.drop_ => emit_drop (default 0 (ts !! 0%nat))
  | Op.PARAMETRIC Op.select_ => emit_select (default 0 (ts !! 1%nat))
  | Op.VARIABLE_ACCESS Op.get_local i => emit_get_local i (default 0 (nthZ locals i))
  | Op.VARIABLE_ACCESS Op.set_local i => emit_set_local i (default 0 (nthZ locals i))
  | Op.VARIABLE_ACCESS Op.tee_local i => emit_tee_local i (default 0 (nthZ locals i))
  | _ => emit_nop
  end.
Fixpoint emit_code (locals : list Z) (l : list opcode) (ts : list Z) : M W unit :=
  match l with
  | [] => mret tt
  | o :: l => emit_instr locals ts o;; emit_code locals l (default [] (next locals o ts))
  end.

(** [br_table]: the cases in order, each with the operands it drops and the type of its
    result, the default last; and where the targets of the branches are *)
Fixpoint emit_cases (cases : list (Z * Z)) (handler : br_table_parser) : M W (list branch_t) :=
  match cases with
  | [] => mret []
  | [(depth_change, rt)] =>
      r ← emit_default depth_change rt handler;
      mret [r.1]
  | (depth_change, rt) :: cases =>
      r ← emit_case depth_change rt handler;
      branches ← emit_cases cases r.2;
      mret (r.1 :: branches)
  end.
Definition emit_table (cases : list (Z * Z)) : M W (list branch_t) :=
  handler ← emit_br_table (Z.of_nat (length cases) - 1);
  emit_cases cases handler.
Definition fix_branches (fixes : list (branch_t * label_t)) : M W unit := eachM (fun p => fix_branch p.1 p.2) fixes.
(** Straight-line code that ends with [br_table] *)
Definition emit_switch (locals : list Z) (l : list opcode) (ts : list Z) (cases : list (Z * Z)) (targets : list label_t) : M W unit :=
  emit_code locals l ts;;
  branches ← emit_table cases;
  fix_branches (zip branches targets).
End Emit.

(** ** What the instructions do to operands, top first, and locals *)
Definition effect (o : opcode) (vs ls : list operand_stack_elem) : option (list operand_stack_elem * list operand_stack_elem) :=
  match binary_of o, unary_of o, constant_of o with
  | Some (_, r, f), _, _ =>
      match vs with b :: a :: vs => Some (const r (wrap (width r) (f (slot a) (slot b))) :: vs, ls) | _ => None end
  | None, Some (_, u, f), _ => match vs with a :: vs => Some (value u (f (slot a)) :: vs, ls) | _ => None end
  | None, None, Some v => Some (v :: vs, ls)
  | None, None, None =>
      match o, vs with
      | Op.PARAMETRIC Op.drop_, _ :: vs => Some (vs, ls)
      | Op.PARAMETRIC Op.select_, c :: v2 :: v1 :: vs => Some ((if slot c =? 0 then v2 else v1) :: vs, ls)
      | Op.VARIABLE_ACCESS Op.get_local i, _ => v ← nthZ ls i; Some (v :: vs, ls)
      | Op.VARIABLE_ACCESS Op.set_local i, v :: vs => Some (vs, <[Z.to_nat i := v]> ls)
      | Op.VARIABLE_ACCESS Op.tee_local i, v :: vs => Some (v :: vs, <[Z.to_nat i := v]> ls)
      | _, _ => None
      end
  end.

Fixpoint effects (l : list opcode) (vs ls : list operand_stack_elem) : option (list operand_stack_elem * list operand_stack_elem) :=
  match l with [] => Some (vs, ls) | o :: l => '(vs, ls) ← effect o vs ls; effects l vs ls end.

(** ** Typing *)
Lemma integer_bits w : bits_of (integer w) = width w.
Proof. by destruct w. Qed.
Lemma const_type w n : elem_type (const w n) = integer w.
Proof. by destruct w. Qed.
Lemma const_value_ok w n : in_u (width w) n -> value_ok (const w n).
Proof. by destruct w. Qed.
Lemma typed_integer e w : elem_type e = integer w -> value_ok e -> e = const w (slot e) /\ in_u (width w) (slot e).
Proof. destruct e, w; done. Qed.
Lemma typed_scalar e t : scalar t -> elem_type e = t -> value_ok e -> e = value t (slot e) /\ in_u (bits_of t) (slot e).
Proof. intros Ht <-. destruct e; [done..|]. exfalso. by destruct Ht as [H|[H|[H|H]]]. Qed.
Lemma value_okb_ok e : value_okb e = true -> value_ok e /\ scalar (elem_type e).
Proof.
  unfold scalar. destruct e; try done; simpl; intros [H1%Z.leb_le H2%Z.ltb_lt]%andb_true_iff; (split; [split; done|tauto]).
Qed.
Lemma unary_types o t u f : unary_of o = Some (t, u, f) ->
  scalar t /\ scalar u /\ forall a, in_u (bits_of t) a -> in_u (bits_of u) (f a).
Proof.
  unfold scalar. destruct o as [| | | | | | | | | | | |o|o|o| | | | | | | | | | |]; try done;
    destruct o; try done; intros [= <- <- <-];
    (split; [tauto|]; split; [tauto|]; intros a Ha; try exact Ha; try exact (in_u_64_bits i32 _ Ha); try (apply (wrap_in_u 32); lia); try (apply (wrap_in_u 64); lia); by destruct (a =? 0)).
Qed.
Lemma value_typed u n : scalar u -> in_u (bits_of u) n -> elem_type (value u n) = u /\ value_ok (value u n).
Proof. by intros [-> |[-> |[-> | ->]]]. Qed.
Lemma nthZ_typed ls locals i t : typed ls locals -> nthZ locals i = Some t ->
  exists v, nthZ ls i = Some v /\ elem_type v = t /\ value_ok v /\ 0 <= i /\ ls !! Z.to_nat i = Some v.
Proof.
  intros [<- Hv] H. unfold nthZ in *. destruct (Z.ltb_spec i 0); [done|].
  rewrite list_lookup_fmap in H. destruct (ls !! Z.to_nat i) as [v|] eqn:E; [|done]. injection H as <-.
  exists v. split_and!; try done. by eapply Forall_lookup_1.
Qed.
Lemma typed_insert ls locals i v v0 : typed ls locals -> ls !! i = Some v0 -> elem_type v = elem_type v0 -> value_ok v ->
  typed (<[i := v]> ls) locals.
Proof.
  intros [H1 H2] H3 H4 H5. split; [|by apply Forall_insert].
  rewrite list_fmap_insert, H4, <- H1. apply list_insert_id. by rewrite list_lookup_fmap, H3.
Qed.
Lemma typed_push e l t ts : elem_type e = t -> value_ok e -> typed l ts -> typed (e :: l) (t :: ts).
Proof. intros <- He [<- Hl]. split; [done|by constructor]. Qed.

(** Take typed operands apart. *)
Ltac take_typed H e := let Ht := fresh "Hty" in let Hv := fresh "Hok" in
  apply typed_cons_inv in H as (e & ? & -> & Ht & Hv & H).

Lemma effect_typed locals o ts us vs ls :
  next locals o ts = Some us -> typed vs ts -> typed ls locals -> Forall scalar locals -> Forall scalar ts ->
  exists vs' ls', effect o vs ls = Some (vs', ls') /\ typed vs' us /\ typed ls' locals /\ Forall scalar us.
Proof.
  unfold next, effect. intros Hn Hvs Hls Hsl Hst.
  destruct (binary_of o) as [[[w r] f]|].
  { destruct ts as [|u [|t ts]]; try done. take_typed Hvs v2. take_typed Hvs v1.
    destruct (_ && _); [|done]. injection Hn as <-. eexists _, _. split; [done|].
    split; [|split; [done|]].
    - apply typed_push; [apply const_type|apply const_value_ok, wrap_in_u; destruct r; simpl; lia|done].
    - inversion Hst as [|? ? ? Hst']; inversion Hst'; subst. constructor; [|done]. destruct r; unfold scalar, integer; tauto. }
  destruct (unary_of o) as [[[t u] f]|] eqn:Eu.
  { destruct ts as [|t' ts]; [done|]. take_typed Hvs v1. destruct (Z.eqb_spec t' t) as [->|]; [|done]. injection Hn as <-.
    destruct (unary_types _ _ _ _ Eu) as (Ht & Hu & Hf). eexists _, _. split; [done|]. split; [|split; [done|]].
    - destruct (typed_scalar v1 t Ht) as [_ Hb]; [done|done|]. destruct (value_typed u (f (slot v1)) Hu (Hf _ Hb)). by apply typed_push.
    - inversion Hst; subst. by constructor. }
  destruct (constant_of o) as [v|].
  { destruct (value_okb v) eqn:Ev; [|done]. injection Hn as <-. apply value_okb_ok in Ev as [H1 H2].
    eexists _, _. split; [done|]. split; [by apply typed_push|]. split; [done|by constructor]. }
  destruct o as [| | | | |[]|[] i| | | | | | | | | | | | | | | | | | |]; try done.
  - destruct ts as [|t ts]; [done|]. injection Hn as <-. take_typed Hvs v1. inversion Hst; subst. by eexists _, _.
  - destruct ts as [|c [|t2 [|t1 ts]]]; try done. take_typed Hvs v0. take_typed Hvs v2. take_typed Hvs v1.
    destruct (Z.eqb_spec c i32); [|done]. destruct (Z.eqb_spec t2 t1); [|done]. injection Hn as <-.
    eexists _, _. split; [done|]. split; [|split; [done|]].
    + destruct (slot v0 =? 0); apply typed_push; try done. congruence.
    + inversion Hst as [|? ? ? Hst']; inversion Hst'; subst. done.
  - destruct (nthZ locals i) as [t|] eqn:Ei; [|done]. injection Hn as <-.
    destruct (nthZ_typed _ _ _ _ Hls Ei) as (v & Hv & Ht & Hok & _). rewrite Hv. eexists _, _. split; [done|].
    split; [by apply typed_push|]. split; [done|]. constructor; [|done]. unfold nthZ in Ei. destruct (i <? 0); [done|].
    by eapply Forall_lookup_1 in Hsl.
  - destruct ts as [|t ts]; [done|]. destruct (nthZ locals i) as [t'|] eqn:Ei; [|done]. simpl in Hn.
    destruct (Z.eqb_spec t t') as [->|]; [|done]. injection Hn as <-. take_typed Hvs v1. inversion Hst; subst.
    destruct (nthZ_typed _ _ _ _ Hls Ei) as (v & _ & Ht & _ & _ & Hl). eexists _, _. split; [done|]. split; [done|].
    split; [|done]. eapply typed_insert; [done|done|congruence|done].
  - destruct ts as [|t ts]; [done|]. destruct (nthZ locals i) as [t'|] eqn:Ei; [|done]. simpl in Hn.
    destruct (Z.eqb_spec t t') as [->|]; [|done]. injection Hn as <-. take_typed Hvs v1.
    destruct (nthZ_typed _ _ _ _ Hls Ei) as (v & _ & Ht & _ & _ & Hl). eexists _, _. split; [done|].
    split; [by apply typed_push|]. split; [|done]. eapply typed_insert; [done|done|congruence|done].
Qed.

(** ** The interpreter *)
Section Interpreter.
Context `{sys : Sys} `{sf : Softfloat} (m : module) (_rhf : Z -> M ctx unit).
Implicit Types (c : ctx) (vs ls below : list operand_stack_elem).

(** In a function with operands [vs] and locals [ls], on top of [below], at [p] *)
Record in_function c (p : Z) vs ls below : Prop := {
  if_stk : stk c (vs ++ reverse ls ++ below);
  if_pc : pc c = Pc p;
  if_base : _last_op_index c = Z.of_nat (length below)
}.
Definition only_operands c c' : Prop := c' = set_os (_os c') (set_pc (pc c') c).
(** One instruction goes from [vs] and [ls] to [vs'] and [ls']. *)
Definition moves (o : opcode) c p vs' ls' below : Prop :=
  exists c', exec m _rhf o c = (Ret tt, c') /\ in_function c' (p + 1) vs' ls' below /\ only_operands c c'.

Lemma yields_moves o c p vs vs' ls below :
  in_function c p vs ls below -> yields (exec m _rhf o) c p (vs' ++ reverse ls ++ below) -> moves o c p vs' ls below.
Proof.
  intros [_ _ Hb] (os & Hw & Hc & E). eexists. split; [exact E|]. split; [|done]. by constructor.
Qed.
Lemma wp_moves o c p vs' ls' below :
  wp (exec m _rhf o) (fun _ c' => in_function c' (p + 1) vs' ls' below /\ only_operands c c') (fun _ _ => False) c ->
  moves o c p vs' ls' below.
Proof. intros H. apply wp_returns in H as ([] & c' & E & H1 & H2). by exists c'. Qed.

Lemma binop_moves {A B} o (gl : operand_stack_elem -> outcome A) (gr : operand_stack_elem -> outcome B) f c p e2 e1 vs ls below a b r :
  in_function c p (e2 :: e1 :: vs) ls below -> exec m _rhf o = binop gl gr f ->
  gr e2 = Ret b -> gl e1 = Ret a -> f a b = Ret r -> moves o c p (r :: vs) ls below.
Proof.
  intros Hi Ho Hb Ha Hf. pose proof Hi as [Hs Hp _]. eapply yields_moves; [exact Hi|]. rewrite Ho.
  pose proof (binop_yields gl gr f c p e2 e1 (vs ++ reverse ls ++ below) a b Hs Hp Hb Ha) as H. by rewrite Hf in H.
Qed.
Lemma unop_moves {A} o (get : operand_stack_elem -> outcome A) f c p e vs ls below a r :
  in_function c p (e :: vs) ls below -> exec m _rhf o = unop get f -> get e = Ret a -> f a = Ret r ->
  moves o c p (r :: vs) ls below.
Proof.
  intros Hi Ho Ha Hf. pose proof Hi as [Hs Hp _]. eapply yields_moves; [exact Hi|]. rewrite Ho.
  by apply (unop_yields get f c p e (vs ++ reverse ls ++ below) a r).
Qed.

(** The handler of an instruction, by computation *)
Ltac handler_of := lazy beta delta [exec exec_numeric exec_comparison exec_conversion handler alt exec_i32_numeric
  exec_i64_numeric exec_f32_numeric exec_f64_numeric exec_extend exec_i32_comparison exec_i64_comparison exec_trunc
  exec_convert convert_to bin_i32 bin_i64 un_i32 un_i64 compare] iota; reflexivity.

Lemma binary_moves o w r f c p a b vs ls below :
  binary_of o = Some (w, r, f) -> in_function c p (const w b :: const w a :: vs) ls below ->
  moves o c p (const r (wrap (width r) (f a b)) :: vs) ls below.
Proof.
  intros Ho Hi. destruct o as [| | | | | | | | | | | |o|o|o| | | | | | | | | | |]; try discriminate Ho;
    destruct o; try discriminate Ho; injection Ho as <- <- <-;
    (eapply binop_moves; [exact Hi|handler_of|reflexivity..]).
Qed.
Lemma wrap_narrow w v x : 0 <= w <= v -> wrap w (wrap v x) = wrap w x.
Proof.
  intros H. unfold wrap. apply Z.mod_mod_divide.
  exists (2 ^ (v - w)). rewrite <- Z.pow_add_r by lia. f_equal. lia.
Qed.
Lemma wrap_sext_narrow w v x : 0 <= w <= v -> 0 < v -> wrap w (sext v x) = wrap w x.
Proof. intros H Hv. by rewrite <- (wrap_narrow w v), wrap_sext, wrap_narrow by lia. Qed.
Lemma sext_narrow w v x : 0 < w <= v -> sext w (sext v x) = sext w x.
Proof. intros H. by rewrite <- (sext_wrap w), wrap_sext_narrow, sext_wrap by lia. Qed.
Lemma unary_moves o t u f c p a vs ls below :
  unary_of o = Some (t, u, f) -> in_u (bits_of t) a -> in_function c p (value t a :: vs) ls below ->
  moves o c p (value u (f a) :: vs) ls below.
Proof.
  intros Ho Ha Hi. destruct o as [| | | | | | | | | | | |o|o|o| | | | | | | | | | |]; try discriminate Ho;
    destruct o; try discriminate Ho; injection Ho as <- <- <-;
    (eapply unop_moves; [exact Hi|handler_of|reflexivity|]); unfold value; simpl; unfold mk_i32, mk_i64, mk_f32, mk_f64;
    rewrite ?wrap_sext, ?wrap_sext_narrow, ?sext_narrow, ?wrap_small by (lia || exact Ha || exact (in_u_64_bits i32 _ Ha) || by destruct (a =? 0)); reflexivity.
Qed.

(** *** Constants, locals, drop and select *)
Lemma constant_moves o v c p vs ls below :
  constant_of o = Some v -> in_function c p vs ls below -> small (vs ++ reverse ls ++ below) -> moves o c p (v :: vs) ls below.
Proof.
  intros Ho [Hs Hp Hb] Hsm. unfold small in Hsm. apply wp_moves. destruct o; try done; injection Ho as <-; simpl.
  all: apply wp_bind; eapply wp_inc_pc; [exact Hp|]; eapply wp_push; [exact Hs|lia|]; intros os Hw Hc; by split; [constructor|].
Qed.
Lemma local_position c vs ls below i v : _last_op_index c = Z.of_nat (length below) ->
  0 <= i -> ls !! Z.to_nat i = Some v ->
  local_slot c (vs ++ reverse ls ++ below) i = (length vs + (length ls - S (Z.to_nat i)))%nat /\
  0 <= _last_op_index c + i < Z.of_nat (length (vs ++ reverse ls ++ below)).
Proof.
  intros Hb Hi Hl. apply lookup_lt_Some in Hl. unfold local_slot. rewrite Hb, !length_app, length_reverse. lia.
Qed.
Lemma lookup_local vs ls below i v : ls !! i = Some v ->
  (vs ++ reverse ls ++ below) !! (length vs + (length ls - S i))%nat = Some v.
Proof.
  intros Hl. pose proof (lookup_lt_Some _ _ _ Hl) as Hi. rewrite lookup_app_r by lia.
  replace (length vs + _ - _)%nat with (length ls - S i)%nat by lia.
  rewrite lookup_app_l by (rewrite length_reverse; lia). rewrite reverse_lookup by lia.
  by replace (length ls - S (length ls - S i))%nat with i by lia.
Qed.
Lemma insert_local vs ls below i v w : ls !! i = Some w ->
  <[(length vs + (length ls - S i))%nat := v]> (vs ++ reverse ls ++ below) = vs ++ reverse (<[i := v]> ls) ++ below.
Proof.
  intros Hl. pose proof (lookup_lt_Some _ _ _ Hl) as Hi. rewrite insert_app_r. f_equal.
  rewrite insert_app_l by (rewrite length_reverse; lia). f_equal.
  apply list_eq_same_length with (length ls); rewrite ?length_insert, ?length_reverse, ?length_insert; try done.
  intros j x y Hj Hx Hy. rewrite reverse_lookup in Hy by (rewrite length_insert; lia). rewrite length_insert in Hy.
  destruct (decide (j = length ls - S i)%nat) as [->|Hne].
  - rewrite list_lookup_insert_eq in Hx by (rewrite length_reverse; lia).
    replace (length ls - S (length ls - S i))%nat with i in Hy by lia. rewrite list_lookup_insert_eq in Hy by lia. congruence.
  - rewrite list_lookup_insert_ne, reverse_lookup in Hx by lia. rewrite list_lookup_insert_ne in Hy by lia. congruence.
Qed.
Lemma drop_moves c p v vs ls below :
  in_function c p (v :: vs) ls below -> moves (Op.PARAMETRIC Op.drop_) c p vs ls below.
Proof.
  intros [Hs Hp Hb]. apply wp_moves. simpl. apply wp_bind. eapply wp_pop; [exact Hs|]. intros os Hw Hc.
  eapply wp_inc_pc; [exact Hp|]. by split; [constructor|].
Qed.
Lemma select_moves c p n v1 v2 vs ls below :
  in_function c p (i32_const_t n :: v2 :: v1 :: vs) ls below ->
  moves (Op.PARAMETRIC Op.select_) c p ((if n =? 0 then v2 else v1) :: vs) ls below.
Proof.
  intros [Hs Hp Hb]. apply wp_moves. simpl. apply wp_bind. eapply wp_pop; [exact Hs|]. intros os1 Hw1 Hc1.
  apply wp_bind. eapply wp_pop; [split; [exact Hw1|exact Hc1]|]. intros os2 Hw2 Hc2.
  apply wp_bind, wp_lift. simpl. apply wp_bind. destruct (n =? 0).
  - eapply wp_set_top; [split; [exact Hw2|exact Hc2]|]. intros os3 Hw3 Hc3.
    eapply wp_inc_pc; [exact Hp|]. by split; [constructor|].
  - apply wp_ret. eapply wp_inc_pc; [exact Hp|]. by split; [constructor|].
Qed.
Lemma get_local_moves i v c p vs ls below :
  in_function c p vs ls below -> 0 <= i -> ls !! Z.to_nat i = Some v -> small (vs ++ reverse ls ++ below) ->
  moves (Op.VARIABLE_ACCESS Op.get_local i) c p (v :: vs) ls below.
Proof.
  intros [Hs Hp Hb] Hi Hl Hsm. destruct (local_position c vs ls below i v Hb Hi Hl) as [E Hr].
  apply wp_moves. simpl. apply wp_bind. eapply wp_inc_pc; [exact Hp|].
  apply wp_bind. eapply (wp_get_operand i _ v); [exact Hs|exact Hsm|exact Hr| |].
  { change (local_slot (set_pc (Pc (p + 1)) c)) with (local_slot c). rewrite E. by apply lookup_local. }
  unfold small in Hsm. eapply wp_push; [exact Hs|lia|]. intros os Hw Hc. by split; [constructor|].
Qed.
Lemma set_local_wp i v w c p vs ls below Q E :
  in_function c p vs ls below -> 0 <= i -> ls !! Z.to_nat i = Some w -> small (vs ++ reverse ls ++ below) ->
  (forall os, in_function (set_os os c) p vs (<[Z.to_nat i := v]> ls) below -> Q tt (set_os os c)) ->
  wp (set_operand i v) Q E c.
Proof.
  intros [Hs Hp Hb] Hi Hl Hsm HQ. destruct (local_position c vs ls below i w Hb Hi Hl) as [El Hr].
  eapply wp_set_operand; [exact Hs|exact Hsm|exact Hr|]. intros os Hw Hc. apply HQ. constructor; try done.
  split; [exact Hw|]. rewrite El in Hc. simpl. rewrite Hc. by eapply insert_local.
Qed.
Lemma set_local_moves i v w c p vs ls below :
  in_function c p (v :: vs) ls below -> 0 <= i -> ls !! Z.to_nat i = Some w -> small (vs ++ reverse ls ++ below) ->
  moves (Op.VARIABLE_ACCESS Op.set_local i) c p vs (<[Z.to_nat i := v]> ls) below.
Proof.
  intros [Hs Hp Hb] Hi Hl Hsm. apply wp_moves. simpl. apply wp_bind. eapply wp_inc_pc; [exact Hp|].
  apply wp_bind. eapply wp_pop; [exact Hs|]. intros os Hw Hc.
  eapply (set_local_wp i v w _ (p + 1) vs ls below); [by constructor|done|done|done|]. intros os' H. by split.
Qed.
Lemma tee_local_moves i v w c p vs ls below :
  in_function c p (v :: vs) ls below -> 0 <= i -> ls !! Z.to_nat i = Some w -> small (vs ++ reverse ls ++ below) ->
  moves (Op.VARIABLE_ACCESS Op.tee_local i) c p (v :: vs) (<[Z.to_nat i := v]> ls) below.
Proof.
  intros [Hs Hp Hb] Hi Hl Hsm. apply wp_moves. simpl. apply wp_bind. eapply wp_inc_pc; [exact Hp|].
  apply wp_bind. eapply wp_pop; [exact Hs|]. intros os Hw Hc.
  apply wp_bind. eapply (set_local_wp i v w _ (p + 1) vs ls below); [by constructor|done|done|done|]. intros os' [Hs' Hp' Hb'].
  eapply wp_push; [exact Hs'| |].
  - unfold small in Hsm. rewrite !length_app, !length_reverse, length_insert in *. lia.
  - intros os2 Hw2 Hc2. by split; [constructor|].
Qed.

(** The handler of an instruction has its effect. *)
Lemma effect_moves locals o ts us c p vs ls vs' ls' below :
  next locals o ts = Some us -> typed vs ts -> typed ls locals -> Forall scalar ts -> effect o vs ls = Some (vs', ls') ->
  in_function c p vs ls below -> small (vs ++ reverse ls ++ below) -> moves o c p vs' ls' below.
Proof.
  unfold next, effect. intros Hn Hvs Hls Hst He Hi Hsm.
  destruct (binary_of o) as [[[w r] f]|] eqn:Eb.
  { destruct ts as [|u [|t ts]]; try done. take_typed Hvs v2. take_typed Hvs v1.
    destruct (Z.eqb_spec t (integer w)) as [->|]; [|done]. destruct (Z.eqb_spec u (integer w)) as [->|]; [|done].
    injection He as <- <-. destruct (typed_integer v2 w) as [Ex _]; [done|done|]. destruct (typed_integer v1 w) as [Ex0 _]; [done|done|].
    rewrite Ex, Ex0 in Hi. by eapply binary_moves. }
  destruct (unary_of o) as [[[t u] f]|] eqn:Eu.
  { destruct ts as [|t' ts]; [done|]. take_typed Hvs v1. destruct (Z.eqb_spec t' t) as [->|]; [|done]. injection He as <- <-.
    destruct (unary_types _ _ _ _ Eu) as (Ht & _ & _). destruct (typed_scalar v1 t Ht) as [Ex Hb]; [done|done|].
    rewrite Ex in Hi. by eapply unary_moves. }
  destruct (constant_of o) as [v|] eqn:Ec.
  { injection He as <- <-. by eapply constant_moves. }
  destruct o as [| | | | |[]|[] i| | | | | | | | | | | | | | | | | | |]; try done.
  - destruct vs as [|v vs]; [done|]. injection He as <- <-. by eapply drop_moves.
  - destruct ts as [|t [|t2 [|t1 ts]]]; try done. take_typed Hvs v0. take_typed Hvs v2. take_typed Hvs v1. destruct (Z.eqb_spec t i32) as [->|]; [|done].
    injection He as <- <-. destruct v0; try done. by apply select_moves.
  - destruct (nthZ locals i) as [t|] eqn:Ei; [|done].
    destruct (nthZ_typed _ _ _ _ Hls Ei) as (v & Hv & _ & _ & ? & ?). rewrite Hv in He. injection He as <- <-. by apply get_local_moves.
  - destruct ts as [|t ts]; [done|]. destruct (nthZ locals i) as [t'|] eqn:Ei; [|done]. take_typed Hvs v1. injection He as <- <-.
    destruct (nthZ_typed _ _ _ _ Hls Ei) as (v & _ & _ & _ & ? & ?). eapply set_local_moves; [exact Hi|done|done|].
    unfold small in *. simpl in Hsm. lia.
  - destruct ts as [|t ts]; [done|]. destruct (nthZ locals i) as [t'|] eqn:Ei; [|done]. take_typed Hvs v1. injection He as <- <-.
    destruct (nthZ_typed _ _ _ _ Hls Ei) as (v & _ & _ & _ & ? & ?). eapply tee_local_moves; [exact Hi|done|done|].
    unfold small in *. simpl in Hsm. lia.
Qed.

(** *** Code *)
Definition code_at (p : Z) (l : list opcode) : Prop :=
  forall k o, l !! k = Some o -> nthZ (bitcode m) (p + Z.of_nat k) = Some o.
Lemma code_at_cons p o l : code_at p (o :: l) -> nthZ (bitcode m) p = Some o /\ code_at (p + 1) l.
Proof.
  intros H. split; [rewrite <- (Z.add_0_r p); by apply (H 0%nat)|].
  intros k o' Hk. rewrite <- (H (S k) o' Hk). f_equal. lia.
Qed.
Lemma only_operands_trans c c1 c2 : only_operands c c1 -> only_operands c1 c2 -> only_operands c c2.
Proof. unfold only_operands. intros -> H. rewrite H. by destruct c. Qed.

Lemma straight_runs locals depth l : forall ts us c p vs ls below,
  straight locals depth l ts = Some us -> (length ts <= depth)%nat -> typed vs ts -> typed ls locals ->
  Forall scalar locals -> Forall scalar ts -> Z.of_nat (depth + length locals + length below) < 2 ^ 32 ->
  in_function c p vs ls below -> code_at p l ->
  exists vs' ls' c', effects l vs ls = Some (vs', ls') /\ typed vs' us /\ typed ls' locals /\
    runs m _rhf (length l) c c' /\ in_function c' (p + Z.of_nat (length l)) vs' ls' below /\ only_operands c c'.
Proof.
  induction l as [|o l IH]; intros ts us c p vs ls below Hl Hd Hvs Hls Hsl Hst Hsm Hi Hc.
  { injection Hl as <-. exists vs, ls, c. split_and!; try done; [by rewrite Z.add_0_r|by destruct c]. }
  simpl in Hl. destruct (next locals o ts) as [ts1|] eqn:Hn; [|done]. simpl in Hl.
  destruct (Nat.leb_spec (length ts1) depth) as [Hd1|]; [|done].
  destruct (effect_typed _ _ _ _ _ _ Hn Hvs Hls Hsl Hst) as (vs1 & ls1 & He & Hvs1 & Hls1 & Hst1).
  apply code_at_cons in Hc as [Ho Hc].
  destruct (effect_moves _ _ _ _ _ _ _ _ _ _ below Hn Hvs Hls Hst He Hi) as (c1 & E1 & Hi1 & Hc1).
  { unfold small. apply typed_length in Hvs, Hls. rewrite !length_app, length_reverse. lia. }
  destruct (IH _ _ _ _ _ _ below Hl Hd1 Hvs1 Hls1 Hsl Hst1 Hsm Hi1 Hc) as (vs' & ls' & c' & E & ? & ? & Hr & Hi' & Hc').
  exists vs', ls', c'. cbn [effects length]. rewrite He. split; [exact E|]. split; [done|]. split; [done|]. split.
  - eapply runs_S; [|exact Hr]. eapply (dispatch_exec m _rhf c p o (Ret tt)); [|exact E1].
    split; [apply Hi|]. split; [done|]. intros b ->. done.
  - split; [|by eapply only_operands_trans]. by replace (p + Z.of_nat (S (length l))) with (p + 1 + Z.of_nat (length l)) by lia.
Qed.
End Interpreter.
