(* ===== verification/X86Agree.v ===== *)
(** * The compiled code agrees with the interpreter (x86_64.hpp, interpret_visitor.hpp)

    Straight-line code given to both writers: the processor and the interpreter arrive
    at the end with the same operands and locals. *)
From S2P Require Import Prelude WasmStack Allocator Opcodes Types OpSigs Validation Writers WriterLaws ValidationClaims LinearMemory ExecContext Softfloat FloatInstance Simd Interpreter Fixtures ContextProofs InstanceProofs IntegerOps TrackerTypes WriterEffects X86 X86Control X86Integer X86Writer X86Machine X86Encoding BulkMemory RunTyping X86Frame X86Emit X86Fold X86Ops X86Compare X86Values X86Offsets X86Straight.
Import Op(opcode).
Import X86.

Create HintDb x86 discriminated.
#[export] Hint Resolve emit_i32_add_ok emit_i32_sub_ok emit_i32_mul_ok emit_i32_and_ok emit_i32_or_ok emit_i32_xor_ok
  emit_i32_shl_ok emit_i32_shr_s_ok emit_i32_shr_u_ok emit_i32_rotl_ok emit_i32_rotr_ok emit_i64_add_ok emit_i64_sub_ok
  emit_i64_mul_ok emit_i64_and_ok emit_i64_or_ok emit_i64_xor_ok emit_i64_shl_ok emit_i64_shr_s_ok emit_i64_shr_u_ok
  emit_i64_rotl_ok emit_i64_rotr_ok : x86.
#[export] Hint Resolve emit_i32_extend8_s_ok emit_i32_extend16_s_ok emit_i64_extend8_s_ok emit_i64_extend16_s_ok
  emit_i64_extend32_s_ok emit_i32_eqz_ok emit_i64_eqz_ok emit_i32_wrap_i64_ok emit_i64_extend_s_i32_ok
  emit_i64_extend_u_i32_ok : x86.

(** ** The instructions *)
Section Instructions.
Context `{sys : Sys} `{jit : Jit} {start : Start}.
Implicit Types (vs ls : list operand_stack_elem) (s : t).

Lemma takes2_ext (w : bool) k r f g : (forall a b, f a b = g a b) -> takes2 w k r f -> takes2 w k r g.
Proof. intros E H s vs ls a b Hi Ha Hb. rewrite <- E. by apply H. Qed.
Lemma takes2_test (w : bool) k f : takes2 w k false f -> takes2 w k false (fun a b => wrap 32 (f a b)).
Proof. intros H s vs ls a b Hi Ha Hb. simpl width. rewrite wrap_wrap by lia. by apply H. Qed.

Lemma emit_numeric_ok o w f : numeric_binary o = Some (w, f) -> takes2 w (X86Writer.emit_numeric o) w f.
Proof. destruct o; try discriminate 1; intros [= <- <-]; simpl; auto with x86 nocore. Qed.

Definition codes : list Z := [0x72; 0x73; 0x74; 0x75; 0x76; 0x77; 0x7c; 0x7d; 0x7e; 0x7f].
Lemma relop32_ok op : In op codes ->
  takes2 false (fixed_size_instr 10 (X86Integer.emit_i32_relop op)) false (fun a b => b2z (cond_test (op - 0x70) 32 a b)).
Proof.
  intros Hop. apply takes2_sized, emit_i32_relop_ok; [done|]. simpl in Hop. unfold conditions.
  repeat (destruct Hop as [<-|Hop]; [simpl; tauto|]). done.
Qed.
Lemma relop64_ok op : In (op - 0x20) codes ->
  takes2 true (fixed_size_instr 12 (X86Integer.emit_i64_relop op)) false (fun a b => b2z (cond_test (op - 0x90) 64 a b)).
Proof.
  intros Hop. replace op with (0x90 + (op - 0x90)) at 1 by lia. apply takes2_sized, emit_i64_relop_ok.
  unfold codes, conditions in *. simpl in *. lia.
Qed.
Lemma emit_comparison_ok o w f :
  comparison_binary o = Some (w, f) -> takes2 w (X86Writer.emit_comparison o) false (fun a b => b2z (f a b)).
Proof.
  destruct o; try discriminate 1; intros [= <- <-]; simpl;
    first [apply relop32_ok; simpl; tauto|apply relop64_ok; simpl; tauto].
Qed.
Lemma unary_ok o t u f locals ts : unary_of o = Some (t, u, f) -> takes1 t (emit_instr (W := X86.t) locals ts o) u f.
Proof.
  intros Ho. destruct o as [| | | | | | | | | | | |o|o|o| | | | | | | | | | |]; try discriminate Ho;
    destruct o; try discriminate Ho; injection Ho as <- <- <-; simpl;
    first [solve [auto with x86 nocore]|apply takes1_nothing].
Qed.
Lemma binary_ok o w r f locals ts : binary_of o = Some (w, r, f) -> takes2 w (emit_instr (W := X86.t) locals ts o) r f.
Proof.
  intros Ho. destruct o as [| | | | | | | | | | | |o|o|o| | | | | | | | | | |]; try discriminate Ho; simpl in Ho |- *.
  - destruct (comparison_binary o) as [[w' g]|] eqn:E; [|done]. injection Ho as <- <- <-. by apply emit_comparison_ok.
  - destruct (numeric_binary o) as [[w' g]|] eqn:E; [|done]. injection Ho as <- <- <-. by apply emit_numeric_ok.
Qed.
Lemma constant_ok o v locals ts : constant_of o = Some v -> value_ok v -> pushes (emit_instr (W := X86.t) locals ts o) v.
Proof.
  intros Ho Hv. destruct o; try discriminate Ho; injection Ho as <-.
  - by apply emit_i32_const_ok.
  - by apply emit_i64_const_ok.
  - by apply emit_f32_const_ok.
  - by apply emit_f64_const_ok.
Qed.

(** The code generator knows where the locals are. *)
Definition knows (locals : list Z) (s : t) : Prop :=
  forall i, 0 <= i < Z.of_nat (length locals) -> exists o, slot_known s i o.
Lemma knows_same locals s s' : same_frame s s' -> knows locals s -> knows locals s'.
Proof. intros Hs H i Hi. destruct (H i Hi) as (o & ? & ? & Ho). exists o. split_and!; try done. rewrite <- Ho, Hs. by destruct s. Qed.

Lemma typed_slot v t : elem_type v = t -> value_ok v -> in_u 64 (slot v).
Proof. intros _. apply slot_range. Qed.
Lemma scalar_not_v128 t : scalar t -> t <> v128.
Proof. by intros [-> |[-> |[-> | ->]]]. Qed.

(** An instruction's code has its effect. *)
Lemma emit_instr_ok locals o ts us s vs ls vs' ls' :
  next locals o ts = Some us -> typed vs ts -> typed ls locals -> Forall scalar locals -> Forall scalar ts ->
  (length us <= depth)%nat -> effect o vs ls = Some (vs', ls') -> inv s vs ls -> knows locals s ->
  ok 64 (emit_instr (W := X86.t) locals ts o) (fun _ s' => inv s' vs' ls') s.
Proof.
  unfold next, effect. intros Hn Hvs Hls Hsl Hst Hdep He Hi Hk.
  destruct (binary_of o) as [[[w r] f]|] eqn:Eb.
  { destruct ts as [|u [|t ts]]; try done. take_typed Hvs v2. take_typed Hvs v1.
    destruct (Z.eqb_spec t (integer w)) as [->|]; [|done]. destruct (Z.eqb_spec u (integer w)) as [->|]; [|done].
    injection He as <- <-. destruct (typed_integer v2 w) as [E2 H2]; [done|done|]. destruct (typed_integer v1 w) as [E1 H1]; [done|done|].
    apply (binary_ok o w r f _ _ Eb); [congruence|done|done]. }
  destruct (unary_of o) as [[[t u] f]|] eqn:Eu.
  { destruct ts as [|t' ts]; [done|]. take_typed Hvs v1. destruct (Z.eqb_spec t' t) as [->|]; [|done]. injection He as <- <-.
    destruct (unary_types _ _ _ _ Eu) as (Ht & _ & _). destruct (typed_scalar v1 t Ht) as [E1 H1]; [done|done|].
    apply (unary_ok o t u f _ _ Eu); [congruence|done]. }
  destruct (constant_of o) as [v|] eqn:Ec.
  { destruct (value_okb v) eqn:Ev; [|done]. injection Hn as <-. apply value_okb_ok in Ev as [Hv _]. injection He as <- <-.
    apply (constant_ok o v _ _ Ec Hv); [done|]. apply typed_length in Hvs. simpl in Hdep. lia. }
  assert (Hloc : forall i t, nthZ locals i = Some t -> 0 <= i < Z.of_nat (length locals) /\ scalar t).
  { intros i t E. pose proof (nthZ_bounds _ _ _ E). split; [done|]. unfold nthZ in E.
    destruct (i <? 0); [done|]. by eapply Forall_lookup_1 in Hsl. }
  destruct o as [| | | | |[]|[] i| | | | | | | | | | | | | | | | | | |]; try done; cbn [emit_instr].
  - destruct ts as [|t ts]; [done|]. take_typed Hvs v1. injection He as <- <-. inversion Hst; subst.
    eapply emit_drop_ok; [exact Hi|by apply slot_range|by apply scalar_not_v128].
  - destruct ts as [|t [|t2 [|t1 ts]]]; try done. take_typed Hvs v0. take_typed Hvs v2. take_typed Hvs v1.
    destruct (Z.eqb_spec t i32) as [->|]; [|done]. destruct (Z.eqb_spec t2 t1) as [->|]; [|done].
    injection He as <- <-. destruct v0; try done. inversion Hst as [|? ? _ Hst']; inversion Hst' as [|? ? Hs1 _]; subst.
    destruct (typed_scalar v1 _ Hs1) as [_ H1]; [done|done|]. destruct (typed_scalar v2 _ Hs1) as [_ H2]; [done|done|].
    by eapply emit_select_ok.
  - destruct (nthZ locals i) as [t|] eqn:Ei; [|done]. injection Hn as <-. destruct (Hloc _ _ Ei) as [Hb Hs].
    destruct (nthZ_typed _ _ _ _ Hls Ei) as (v & Hv & _ & Hok & _ & Hl). rewrite Hv in He. injection He as <- <-.
    destruct (Hk i Hb) as [off Ho]. eapply emit_get_local_ok; [exact Hi| |exact Ho|exact Hl|by apply slot_range|by apply scalar_not_v128].
    apply typed_length in Hvs. simpl in Hdep. lia.
  - destruct ts as [|t ts]; [done|]. destruct (nthZ locals i) as [t'|] eqn:Ei; [|done]. take_typed Hvs v1. injection He as <- <-.
    destruct (Hloc _ _ Ei) as [Hb Hs]. destruct (Hk i Hb) as [off Ho].
    eapply emit_set_local_ok; [exact Hi|exact Ho|by apply slot_range|by apply scalar_not_v128].
  - destruct ts as [|t ts]; [done|]. destruct (nthZ locals i) as [t'|] eqn:Ei; [|done]. take_typed Hvs v1. simpl in Hn.
    destruct (Z.eqb_spec t t') as [->|]; [|done]. injection He as <- <-.
    destruct (nthZ_typed _ _ _ _ Hls Ei) as (w & _ & Hwt & Hwo & _ & Hl).
    destruct (Hloc _ _ Ei) as [Hb Hs]. destruct (Hk i Hb) as [off Ho].
    destruct (typed_scalar v1 _ Hs) as [_ H1]; [done|done|]. destruct (typed_scalar w _ Hs) as [_ H2]; [done|done|].
    eapply emit_tee_local_ok; [exact Hi|exact Ho|exact Hl|done|done|done].
Qed.

Lemma emit_code_ok locals l : forall ts us s vs ls vs' ls',
  straight locals depth l ts = Some us -> typed vs ts -> typed ls locals -> Forall scalar locals -> Forall scalar ts ->
  effects l vs ls = Some (vs', ls') -> inv s vs ls -> knows locals s ->
  ok (64 * Z.of_nat (length l)) (emit_code (W := X86.t) locals l ts) (fun _ s' => inv s' vs' ls') s.
Proof.
  induction l as [|o l IH]; intros ts us s vs ls vs' ls' Hl Hvs Hls Hsl Hst He Hi Hk.
  { injection He as <- <-. by apply code_ret. }
  simpl in Hl. destruct (next locals o ts) as [ts1|] eqn:Hn; [|done]. simpl in Hl.
  destruct (Nat.leb_spec (length ts1) depth) as [Hd|]; [|done].
  destruct (effect_typed _ _ _ _ _ _ Hn Hvs Hls Hsl Hst) as (vs1 & ls1 & He1 & Hvs1 & Hls1 & Hst1).
  cbn [effects] in He. rewrite He1 in He. simpl in He.
  cbn [emit_code length]. rewrite Hn. cbn [default].
  replace (64 * Z.of_nat (S (length l))) with (64 + 64 * Z.of_nat (length l)) by lia.
  apply code_bind; [lia|]. eapply code_mono; [apply ok_frame; exact (emit_instr_ok _ _ _ _ _ _ _ _ _ Hn Hvs Hls Hsl Hst Hd He1 Hi Hk)|lia|].
  intros [] s1 [Hs Hi1]. eapply IH; try done. by eapply knows_same.
Qed.
End Instructions.

(** ** The frame of a function *)
Section Layout.
Variables (params locals : list Z).
Abbreviation flat := (flat_offset params locals).
Abbreviation all := (params ++ locals).

Definition frame_offsets : list Z := flat <$> seq 0 (length all).
(** The operand stack is below the locals. *)
Definition stack_base (m0 : Machine.t) : Z := bp m0 - sum_sizes locals.
(** The machine's stack has room for the frame and [depth] operands. *)
Record stack_room (depth : nat) (m0 : Machine.t) : Prop := {
  sr_low : 8 * Z.of_nat depth + sum_sizes locals <= bp m0;
  sr_high : bp m0 + 16 + sum_sizes params <= 2 ^ 64
}.
(** [m] has the operands [vs] and the locals [ls], and is like [m0] outside the frame. *)
Definition represents (depth : nat) (m0 : Machine.t) (vs ls : list operand_stack_elem) (m : Machine.t) : Prop :=
  frame m0 (stack_base m0) depth frame_offsets vs ls m.

Lemma frame_offsets_lookup i o : frame_offsets !! i = Some o <-> (i < length all)%nat /\ o = flat i.
Proof.
  unfold frame_offsets. rewrite list_lookup_fmap. split.
  - destruct (seq 0 (length all) !! i) as [k|] eqn:E; [|done]. intros [= <-].
    apply lookup_seq in E as [-> ?]. done.
  - intros [Hi ->]. by rewrite (lookup_seq_lt 0 (length all) i Hi).
Qed.
Lemma function_geometry depth m0 :
  stack_room depth m0 -> (forall i t, all !! i = Some t -> in_s 32 (flat i)) ->
  geometry m0 (stack_base m0) depth frame_offsets.
Proof.
  intros [H1 H2] Hs. pose proof (sum_sizes_bound locals). pose proof (sum_sizes_bound params). unfold stack_base.
  assert (Hin : forall i o, frame_offsets !! i = Some o -> exists t, all !! i = Some t /\ o = flat i).
  { intros i o [Hi ->]%frame_offsets_lookup. destruct (lookup_lt_is_Some_2 all i Hi) as [t Ht]. by exists t. }
  constructor; [unfold in_u; lia|lia|lia| |].
  - intros i o (t & Ht & ->)%Hin. pose proof (flat_offset_range _ _ _ _ Ht). pose proof (slot_size_bound t).
    split; [by eapply Hs|lia].
  - intros i j o o' Hne (t & Ht & ->)%Hin (u & Hu & ->)%Hin.
    pose proof (slot_size_bound t). pose proof (slot_size_bound u). destruct (decide (i < j)%nat).
    + pose proof (flat_offset_below _ _ i j u ltac:(done) Hu). lia.
    + pose proof (flat_offset_below _ _ j i t ltac:(lia) Ht). lia.
Qed.
End Layout.

(** ** Both writers *)
Section Agreement.
Context `{sys : Sys} `{jit : Jit} `{sf : Softfloat} (m : module) (_rhf : Z -> M ctx unit).

(** The interpreter's writer appends the instructions. *)
Lemma bitcode_instr locals ts o us : next locals o ts = Some us ->
  emit_instr (W := BitcodeWriter.t) locals ts o = BitcodeWriter.append o.
Proof.
  unfold next. destruct o as [| | | | |[]|[] i| | | | | | | | | | | | | | | | | | |]; done.
Qed.
Lemma bitcode_cells locals depth l : forall ts us w w',
  straight locals depth l ts = Some us -> 0 <= BitcodeWriter.op_index w ->
  emit_code (W := BitcodeWriter.t) locals l ts w = (Ret tt, w') ->
  (forall j, j < BitcodeWriter.op_index w -> BitcodeLaws.cell w' j = BitcodeLaws.cell w j) /\
  forall k o, l !! k = Some o -> BitcodeLaws.cell w' (BitcodeWriter.op_index w + Z.of_nat k) = Some o.
Proof.
  induction l as [|o l IH]; intros ts us w w' Hl Hw E.
  { injection E as <-. done. }
  simpl in Hl. destruct (next locals o ts) as [ts1|] eqn:Hn; [|done]. simpl in Hl.
  destruct (_ <=? _)%nat; [|done]. cbn [emit_code] in E. rewrite (bitcode_instr _ _ _ _ Hn), Hn in E.
  unfold mbind, M_bind in E. destruct (BitcodeWriter.append o w) as [[[]|e|x] w1] eqn:Ea; [|done|done].
  destruct (append_post o w Hw _ _ Ea) as [Hi _ _ Hc Ho].
  destruct (IH _ _ w1 w' Hl ltac:(lia) E) as [H1 H2]. split.
  - intros j Hj. rewrite H1, Ho by lia. done.
  - intros [|k] o' Hk; simpl in Hk.
    + injection Hk as ->. rewrite Z.add_0_r, H1 by lia. exact Hc.
    + rewrite <- (H2 k o' Hk). f_equal. lia.
Qed.

(** The code generator is in the body of a function of type [ft] with locals [entries],
    behind code that it will not fold into. *)
Record compiling (ft : func_type) (entries : list local_entry) (s : X86.t) : Prop := {
  co_counts : Forall (fun e => in_u 32 (local_count e)) entries;
  co_types : Forall scalar (param_types ft ++ expand entries);
  co_number : Z.of_nat (length (param_types ft ++ expand entries)) < 2 ^ 32;
  co_ft : _ft s = ft;
  co_params : X86Control.function_parameters ft = Ret (_params s);
  co_locals : X86Control.function_locals entries = Ret (_locals s);
  co_code : 0 < code s /\ _code_start s <= code s;
  co_recent : op_end (recent_ops1 s) < code s
}.
Lemma compiling_offsets ft entries s i t : compiling ft entries s ->
  (param_types ft ++ expand entries) !! i = Some t ->
  X86Control.get_frame_offset (Z.of_nat i) s = Ret (flat_offset (param_types ft) (expand entries) i) /\
  in_s 32 (flat_offset (param_types ft) (expand entries) i).
Proof.
  intros [H1 H2 H3 H4 H5 H6 _ _] Hi. apply lookup_lt_Some in Hi. rewrite length_app in *.
  pose proof (flat_offset_spec ft entries s (Z.of_nat i) H1 H4 H5 H6) as H. rewrite Nat2Z.id in H.
  apply H; [unfold total; lia|lia].
Qed.

(** The start of the code of a function's body *)
Definition function_start params locals depth m0 (s : X86.t) (Hgeo : geometry m0 (stack_base locals m0) depth (frame_offsets params locals))
  (Hpos : 0 < code s) (Hrel : validate_jit_size = false) : Start :=
  {| a0 := code s; X86Fold.m0 := m0; sp := stack_base locals m0; X86Fold.depth := depth;
     offs := frame_offsets params locals; geo := Hgeo; start_positive := Hpos; release := Hrel |}.
Lemma compiling_start ft entries depth vs ls (s : X86.t) m0 :
  validate_jit_size = false -> compiling ft entries s ->
  let params := param_types ft in let locals := expand entries in
  stack_room params locals depth m0 -> Machine.rip m0 = code s -> represents params locals depth m0 vs ls m0 ->
  exists Hgeo Hpos Hrel, let st := function_start params locals depth m0 s Hgeo Hpos Hrel in
    inv (start := st) s vs ls /\ knows (start := st) (params ++ locals) s.
Proof.
  intros Hrel Hco params locals Hroom Hrip Hrep.
  assert (Hgeo : geometry m0 (stack_base locals m0) depth (frame_offsets params locals)).
  { apply function_geometry; [done|]. intros i t Hi. by eapply compiling_offsets. }
  pose proof (co_code _ _ _ Hco) as [Hpos Hstart]. exists Hgeo, Hpos, Hrel. split.
  - split; [split; [done|]|].
    + split; [simpl; lia|]. intros bm _. exists 0%nat, m0. split; [done|]. split; [done|]. split; [exact Hrep|by constructor].
    + pose proof (co_recent _ _ _ Hco). split; [lia|]. lia.
  - intros i Hi. destruct (lookup_lt_is_Some_2 (params ++ locals) (Z.to_nat i)) as [t Ht]; [lia|].
    exists (flat_offset params locals (Z.to_nat i)). split; [lia|]. split.
    + apply frame_offsets_lookup. split; [lia|done].
    + rewrite <- (Z2Nat.id i) at 1 by lia. by eapply compiling_offsets.
Qed.

Lemma compiled_agrees ft entries depth l ts us vs ls (s : X86.t) (m0 : Machine.t) :
  validate_jit_size = false -> compiling ft entries s ->
  let params := param_types ft in let locals := expand entries in
  straight (params ++ locals) depth l ts = Some us -> typed vs ts -> typed ls (params ++ locals) -> Forall scalar ts ->
  stack_room params locals depth m0 -> Machine.rip m0 = code s -> represents params locals depth m0 vs ls m0 ->
  forall vs' ls', effects l vs ls = Some (vs', ls') ->
  let k := emit_code (W := X86.t) (params ++ locals) l ts in
  (code s + 64 * Z.of_nat (length l) <= _code_end s -> exists s', k s = (Ret tt, s')) /\
  (forall s', k s = (Ret tt, s') -> code s' <= code s + 64 * Z.of_nat (length l) /\
     forall bm, agrees bm (bytes s') (code s) (code s') ->
       exists n m', Machine.steps bm n m0 = Some m' /\ Machine.rip m' = code s' /\ represents params locals depth m0 vs' ls' m').
Proof.
  intros Hrel Hco params locals Hl Hvs Hls Hst Hroom Hrip Hrep vs' ls' He k.
  destruct (compiling_start _ _ _ _ _ _ _ Hrel Hco Hroom Hrip Hrep) as (Hgeo & Hpos & Hrel' & Hinv & Hk).
  destruct (emit_code_ok (start := function_start params locals depth m0 s Hgeo Hpos Hrel') _ _ _ _ _ _ _ _ _
    Hl Hvs Hls (co_types _ _ _ Hco) Hst He Hinv Hk) as [H1 H2].
  split; [intros Hr; destruct (H1 Hr) as ([] & s' & E); by exists s'|].
  intros s' E. destruct (H2 tt s' E) as (Hc & _ & [[_ [_ Ha]] _]). split; [done|].
  intros bm Hbm. destruct (Ha bm Hbm) as (n & m' & ? & ? & ? & _). by exists n, m'.
Qed.

(** C4. The compiled code and the interpreter agree on straight-line code: constants,
    locals, [drop], [select], and the integer instructions of the types that [next] gives,
    which are all but division, remainder, [clz], [ctz] and [popcnt].  Both writers are
    given the calls for the instructions [l].  With 64 bytes of room for each the code
    generator returns, and uses no more.  The interpreter, at the cells its writer made,
    takes one turn for each instruction and then has operands [vs'] and locals [ls'], and
    nothing else of its context changed; the processor, with the bytes in its memory, runs
    to the end of the code, and has the same operands and locals, other registers than
    %rax, %rcx, %rdx, %rsp and memory outside the frame as they were. *)
Theorem compiled_code_agrees ft entries depth l ts us vs ls below (s : X86.t) (w w' : BitcodeWriter.t) m0 c p :
  let params := param_types ft in let locals := expand entries in
  validate_jit_size = false -> compiling ft entries s ->
  straight (params ++ locals) depth l ts = Some us -> typed vs ts -> typed ls (params ++ locals) -> Forall scalar ts ->
  (length ts <= depth)%nat -> Z.of_nat (depth + length (params ++ locals) + length below) < 2 ^ 32 ->
  stack_room params locals depth m0 -> Machine.rip m0 = code s -> represents params locals depth m0 vs ls m0 ->
  0 <= BitcodeWriter.op_index w -> emit_code (params ++ locals) l ts w = (Ret tt, w') ->
  (forall k, 0 <= k < Z.of_nat (length l) -> nthZ (bitcode m) (p + k) = BitcodeLaws.cell w' (BitcodeWriter.op_index w + k)) ->
  in_function c p vs ls below ->
  exists vs' ls' c',
    typed vs' us /\ typed ls' (params ++ locals) /\
    runs m _rhf (length l) c c' /\ in_function c' (p + Z.of_nat (length l)) vs' ls' below /\ only_operands c c' /\
    (code s + 64 * Z.of_nat (length l) <= _code_end s -> exists s', emit_code (params ++ locals) l ts s = (Ret tt, s')) /\
    (forall s', emit_code (params ++ locals) l ts s = (Ret tt, s') -> code s' <= code s + 64 * Z.of_nat (length l) /\
       forall bm, agrees bm (bytes s') (code s) (code s') ->
         exists n m', Machine.steps bm n m0 = Some m' /\ Machine.rip m' = code s' /\ represents params locals depth m0 vs' ls' m').
Proof.
  intros params locals Hrel Hco Hl Hvs Hls Hst Hd Hsm Hroom Hrip Hrep Hw Ew Hcells Hi.
  destruct (straight_runs m _rhf (params ++ locals) depth l ts us c p vs ls below Hl Hd Hvs Hls (co_types _ _ _ Hco) Hst Hsm Hi)
    as (vs' & ls' & c' & He & ? & ? & ? & ? & ?).
  { destruct (bitcode_cells _ _ _ _ _ _ _ Hl Hw Ew) as [_ Hk]. intros k o Ho.
    rewrite Hcells; [by apply Hk|]. apply lookup_lt_Some in Ho. lia. }
  exists vs', ls', c'. do 5 (split; [done|]).
  exact (compiled_agrees ft entries depth l ts us vs ls s m0 Hrel Hco Hl Hvs Hls Hst Hroom Hrip Hrep vs' ls' He).
Qed.
End Agreement.

(** ** An example: [get_local 0; get_local 1; i32.add] in a function with a local *)
Definition example_jit : Jit := {|
  use_softfloat := true; async_backtrace := false; StackLimitIsBytes := false; validate_jit_size := false;
  has_tzcnt := true; arena := 0; jit_alloc n := Ret 0; address_of _ := 0 |}.
Definition example_code : list opcode := take 3 add_code.
Definition example_generator : X86.t :=
  X86.Make example_module arena_example ∅ 1000 add_type [24; 16] [LocalGroup 1 (-8) 8] 1000 5000 1000 []
    0 0 0 0 0 1 0 0 no_recent no_recent.
Definition example_cells : BitcodeWriter.t :=
  BitcodeWriter.Make arena_example 0 0 (BitcodeWriter.GuardedVector 0 (BitcodeWriter.blank 3)) 0 0 [].
(** %rbp is 8192; the parameters 5 and 7 are in the slots above it. *)
Definition example_machine : Machine.t :=
  Machine.set_reg 4 8184 (Machine.set_reg 5 8192
    (Machine.store 8 8216 5 (Machine.store 8 8208 7 (Machine.Make (fun _ => 0) None ∅ 1000)))).
Definition example_locals : list operand_stack_elem := [i32_const_t 5; i32_const_t 7; i64_const_t 0].

Lemma example_represents : represents [i32; i32] [i64] 10 example_machine [] example_locals example_machine.
Proof.
  constructor; try done.
  - simpl. lia.
  - intros i o v Hl Hv. apply frame_offsets_lookup in Hl as [Hi ->].
    do 3 (destruct i as [|i]; [injection Hv as <-; vm_compute; reflexivity|]). done.
  - unfold example_machine. apply store_bytes_mem_ok, store_bytes_mem_ok.
    intros a. unfold byte, WasmAlloc.byte_at. simpl. rewrite lookup_empty. simpl. lia.
Qed.
Lemma example_compiling : compiling add_type [LocalEntry 1 i64] example_generator.
Proof.
  constructor; try done; try (simpl; lia).
  - repeat constructor; done.
  - change (Forall scalar [i32; i32; i64]). unfold scalar. repeat (constructor; [tauto|]). constructor.
Qed.
Definition example_types : list Z := [i32; i32; i64].
Definition example_ctx0 : ctx := example_ctx 0 (reverse example_locals).
Definition example_bitcode : outcome unit * BitcodeWriter.t :=
  emit_code (wr := bitcode_writer (sys := linux)) example_types example_code [] example_cells.
Lemma compiled_code_agrees_witness :
  exists v ls' s' c' n m',
    runs (sys := linux) (sf := reference_softfloat) example_module no_host 3 example_ctx0 c' /\
    stk c' (v :: reverse ls') /\
    emit_code (wr := x86_writer (sys := linux) (jit := example_jit)) example_types example_code [] example_generator = (Ret tt, s') /\
    Machine.steps (bytes s') n example_machine = Some m' /\ Machine.rip m' = code s' /\
    Machine.load 8 (Machine.regs m' 4) m' = slot v.
Proof.
  destruct (compiled_code_agrees (sys := linux) (jit := example_jit) (sf := reference_softfloat) example_module no_host
    add_type [LocalEntry 1 i64] 10 example_code [] [i32] [] example_locals [] example_generator example_cells
    example_bitcode.2 example_machine example_ctx0 0) as (vs' & ls' & c' & H1 & H2 & H3 & H4 & _ & H5 & H6).
  - reflexivity.
  - exact example_compiling.
  - vm_compute. reflexivity.
  - split; [reflexivity|constructor].
  - split; [reflexivity|]. repeat constructor; discriminate.
  - constructor.
  - simpl. lia.
  - vm_compute. reflexivity.
  - split; vm_compute; discriminate.
  - reflexivity.
  - exact example_represents.
  - simpl. lia.
  - vm_compute. reflexivity.
  - intros k Hk. simpl in Hk. assert (k = 0 \/ k = 1 \/ k = 2) as [-> |[-> | ->]] by lia; vm_compute; reflexivity.
  - constructor; [by apply holding_wf|reflexivity..].
  - apply typed_cons_inv in H1 as (v & k & -> & _ & _ & ->%typed_nil_inv).
    destruct H5 as [s' Es]; [vm_compute; discriminate|].
    destruct (H6 s' Es) as [_ H7]. destruct (H7 (bytes s')) as (n & m' & Hn & Hr & Hf); [intros a _; reflexivity|].
    exists v, ls', s', c', n, m'. split; [exact H3|]. split; [|split; [exact Es|split; [exact Hn|split; [exact Hr|]]]].
    + rewrite <- (app_nil_r (reverse ls')). exact (if_stk _ _ _ _ _ H4).
    + exact (proj1 (fr_stack _ _ _ _ _ _ _ Hf)).
Defined.
