(* ===== verification/X86Branch.v ===== *)
(** * Branches of compiled code (x86_64.hpp)

    A branch is emitted before its target is known, with a field of four bytes that
    [fix_branch] fills.  [goes] says where the processor is after the code so far, an
    address or the target in a field, whatever the fields hold. *)
From S2P Require Import Prelude Allocator Types LinearMemory InstanceProofs IntegerOps X86 X86Control X86Machine X86Encoding X86Frame X86Emit X86Fold X86Ops X86Compare X86Values.
Import X86.

(** ** Fields *)

(** Where a branch with its field at [L] lands *)
Definition landing (bm : gmap Z Z) (L : Z) : Z := L + 4 + sext 32 (le_decode (load_bytes 4 L bm)).
Inductive place : Type := At (a : Z) | Via (L : Z).
Definition rip_of (bm : gmap Z Z) (p : place) : Z := match p with At a => a | Via L => landing bm L end.

(** [a] is not in a field. *)
Definition off_fields (H : list Z) (a : Z) : Prop := Forall (fun L => a < L \/ L + 4 <= a) H.
Fixpoint apart (H : list Z) : Prop :=
  match H with [] => True | L :: H => Forall (fun L' => L' + 4 <= L \/ L + 4 <= L') H /\ apart H end.

Lemma apart_perm H H' : H ≡ₚ H' -> apart H -> apart H'.
Proof.
  induction 1 as [|x l l' Hp IH|x y l|l1 l2 l3 _ IH1 _ IH2]; simpl; [done| | |by auto].
  - intros [H1 H2]. split; [by apply (Forall_Permutation _ _ (fun _ => iff_refl _) _ _ Hp)|by apply IH].
  - rewrite !List.Forall_cons_iff. intros [[H1 H2] [H3 H4]]. split_and!; try done. lia.
Qed.
Lemma off_fields_perm H H' a : H ≡ₚ H' -> off_fields H a -> off_fields H' a.
Proof. intros Hp. by apply (Forall_Permutation _ _ (fun _ => iff_refl _) _ _ Hp). Qed.

Lemma landing_fixed L t bs : in_s 32 (t - (L + 4)) -> landing (put L (le_encode 4 (t - (L + 4))) bs) L = t.
Proof.
  intros Ht. unfold landing. set (d := t - (L + 4)) in *.
  assert (Hb : bytes_ok (le_encode 4 d)).
  { unfold bytes_ok. simpl. unfold le_encode; fold le_encode. simpl. by rewrite !wrap_wrap by lia. }
  pose proof (load_put (le_encode 4 d) L bs Hb) as E. rewrite length_le_encode in E. rewrite E, le_decode_encode.
  change (8 * Z.of_nat 4) with 32. rewrite sext_wrap, sext_small by (lia || done). lia.
Qed.
Lemma put_other L l bs a : a < L \/ L + Z.of_nat (length l) <= a -> put L l bs !! a = bs !! a.
Proof.
  revert L bs. induction l as [|b l IH]; intros L bs Ha; [done|]. simpl in *.
  rewrite IH by lia. apply lookup_insert_ne. lia.
Qed.
Lemma landing_agrees bm bs L : (forall a, L <= a < L + 4 -> bm !! a = bs !! a) -> landing bm L = landing bs L.
Proof. intros H. unfold landing. do 3 f_equal. apply (load_bytes_agrees 4 L bm bs L (L + 4)); [exact H|lia|simpl; lia]. Qed.

Lemma take_disp_exact n l rest : length l = n -> Machine.take_disp n (l ++ rest) = Some (sext (8 * Z.of_nat n) (le_decode l), rest).
Proof.
  intros <-. unfold Machine.take_disp. rewrite length_app, (proj2 (Nat.leb_le _ _)) by lia.
  by rewrite take_app_length, drop_app_length.
Qed.
Lemma decodes_jmp l : length l = 4%nat -> decodes (0xe9 :: l) (Machine.Jmp (sext 32 (le_decode l))).
Proof.
  intros Hl. split; [simpl; lia|]. intros rest. pose proof (take_disp_exact 4 l rest Hl) as H.
  set (r := l ++ rest) in *. change ((0xe9 :: l) ++ rest) with (0xe9 :: r). clearbody r.
  lazy -[Machine.take_disp sext le_decode] in *. by rewrite H.
Qed.
Lemma decodes_jcc c l : In c [2; 3; 4; 5; 6; 7; 12; 13; 14; 15] -> length l = 4%nat ->
  decodes (0x0f :: 0x80 + c :: l) (Machine.Jcc c (sext 32 (le_decode l))).
Proof.
  intros Hc Hl. split; [simpl; lia|]. intros rest. pose proof (take_disp_exact 4 l rest Hl) as H.
  set (r := l ++ rest) in *. change ((0x0f :: 0x80 + c :: l) ++ rest) with (0x0f :: 0x80 + c :: r). clearbody r.
  simpl in Hc. repeat (destruct Hc as [<-|Hc]; [lazy -[Machine.take_disp sext le_decode] in *; by rewrite H|]). done.
Qed.

Section Branch.
Context `{jit : Jit} {start : Start}.
Implicit Types (vs ls : list operand_stack_elem) (s : t) (H : list Z).

(** ** Places *)
Definition agrees_off H (m m' : gmap Z Z) (hi : Z) : Prop := forall a, a0 <= a < hi -> off_fields H a -> m !! a = m' !! a.
(** Whatever the fields [H] hold, the code up to [hi] takes the processor to [p]. *)
Definition goes H (bs : gmap Z Z) (hi : Z) (p : place) vs ls (Q : condition) : Prop :=
  forall bm, agrees_off H bm bs hi ->
    exists n m, Machine.steps bm n m0 = Some m /\ Machine.rip m = rip_of bm p /\ here vs ls Q m.
(** The fields are in the code and do not overlap. *)
Record fields H s : Prop := {
  fi_range : Forall (fun L => a0 <= L /\ L + 4 <= code s) H;
  fi_apart : apart H;
  fi_start : _code_start s <= a0 <= code s;
  fi_segment : _code_segment_base s <= a0
}.
Abbreviation there H s := (goes H (bytes s) (code s)).
(** What the code did it still does. *)
Definition preserves H s H' s' : Prop := forall p vs ls Q, there H s p vs ls Q -> there H' s' p vs ls Q.

Lemma preserves_refl H s : preserves H s H s.
Proof. by intros p vs ls Q. Qed.
Lemma preserves_trans H1 s1 H2 s2 H3 s3 : preserves H1 s1 H2 s2 -> preserves H2 s2 H3 s3 -> preserves H1 s1 H3 s3.
Proof. intros K1 K2 p vs ls Q G. by apply K2, K1. Qed.
Lemma goes_mono H bs hi p vs ls (Q Q' : condition) :
  (forall g f, Q g f -> Q' g f) -> goes H bs hi p vs ls Q -> goes H bs hi p vs ls Q'.
Proof. intros HQ G bm Hbm. destruct (G bm Hbm) as (n & m & ? & ? & ?). exists n, m. split_and!; try done. by eapply here_mono. Qed.
Lemma arrives_there s vs ls Q : arrives (bytes s) (code s) vs ls Q -> there [] s (At (code s)) vs ls Q.
Proof. intros [_ G] bm Hbm. apply G. intros a Ha. apply Hbm; [done|constructor]. Qed.

Lemma goes_weaken H bs hi H' bs' hi' p vs ls Q :
  hi <= hi' -> (forall a, a0 <= a < hi -> off_fields H a -> off_fields H' a /\ bs' !! a = bs !! a) ->
  goes H bs hi p vs ls Q -> goes H' bs' hi' p vs ls Q.
Proof.
  intros Hh Hw G bm Hbm. apply G. intros a Ha Hf. destruct (Hw a Ha Hf) as [H1 <-]. apply Hbm; [lia|done].
Qed.
Lemma fields_below H s a : fields H s -> code s <= a -> off_fields H a.
Proof. intros F Ha. eapply Forall_impl; [|exact (fi_range _ _ F)]. simpl. lia. Qed.

Lemma fields_append H l s : fields H s -> fields H (append l s).
Proof.
  intros [F1 F2 F3 F4]. constructor; simpl; try done; [|lia]. eapply Forall_impl; [|exact F1]. simpl. lia.
Qed.

(** *** The next instruction *)
Lemma agrees_append H H' l s bm : fields H s -> agrees_off H' bm (bytes (append l s)) (code (append l s)) ->
  (forall a, a < code s -> off_fields H a -> off_fields H' a) -> agrees_off H bm (bytes s) (code s).
Proof.
  intros F Hbm Hf a Ha Ho. rewrite Hbm; [|simpl; lia|apply Hf; [lia|done]]. simpl. apply put_other. lia.
Qed.
Lemma step_at bm n m l i :
  Machine.steps bm n m0 = Some m -> load_bytes (length l) (Machine.rip m) bm = l -> decodes l i ->
  Machine.steps bm (n + 1) m0 = Machine.exec i (Machine.set_rip (Machine.rip m + Z.of_nat (length l)) m).
Proof. intros Hn Hl Hd. rewrite (steps_app _ _ _ _ _ Hn). simpl. rewrite (step_decodes bm m l i) by done. by destruct (Machine.exec _ _). Qed.

Lemma goes_next H s l i vs ls Q vs' ls' Q' :
  fields H s -> bytes_ok l -> decodes l i -> is_jump i = false ->
  (forall m, here vs ls Q m -> exists m', Machine.exec i m = Some m' /\ here vs' ls' Q' m') ->
  there H s (At (code s)) vs ls Q -> there H (append l s) (At (code (append l s))) vs' ls' Q'.
Proof.
  intros F Hb Hd Hj Hx G bm Hbm.
  destruct (G bm) as (n & m & Hn & Hr & Hm & Hq); [by eapply agrees_append|]. simpl in Hr.
  destruct (Hx (Machine.set_rip (code s + Z.of_nat (length l)) m)) as (m' & E & Hm'); [split; [by apply frame_set_rip|done]|].
  exists (n + 1)%nat, m'. split; [|split; [by rewrite (exec_rip _ _ _ Hj E)|done]].
  rewrite (step_at bm n m l i), Hr; [done|done| |done]. rewrite Hr.
  rewrite <- (load_put l (code s) (bytes s) Hb) at 2.
  apply (load_bytes_agrees _ _ _ _ (code s) (code s + Z.of_nat (length l))); [|lia|lia].
  intros a Ha. apply Hbm; [simpl; pose proof (fi_start _ _ F); lia|]. eapply fields_below; [done|lia].
Qed.

(** A branch, taken when [b] holds *)
Definition branches (i : Z -> Machine.instr) (b : bool) vs ls (Q : condition) : Prop := forall d m,
  here vs ls Q m -> Machine.exec (i d) m = Some (if b then Machine.set_rip (Machine.rip m + d) m else m).
Lemma goes_branch H s l w i b vs ls Q :
  fields H s -> bytes_ok l -> length w = 4%nat -> (forall x, length x = 4%nat -> decodes (l ++ x) (i (sext 32 (le_decode x)))) ->
  branches i b vs ls Q ->
  let L := code s + Z.of_nat (length l) in let s' := append (l ++ w) s in
  there H s (At (code s)) vs ls Q -> there (L :: H) s' (if b then Via L else At (code s')) vs ls Q.
Proof.
  intros F Hb Hw Hd Hx L s' G bm Hbm.
  destruct (G bm) as (n & m & Hn & Hr & Hm & Hq).
  { eapply agrees_append; [done|done|]. intros a Ha Ho. constructor; [lia|done]. }
  simpl in Hr. set (x := load_bytes 4 L bm).
  assert (Hlx : length x = 4%nat) by apply length_load_bytes.
  specialize (Hd x Hlx).
  assert (Hl : load_bytes (length (l ++ x)) (Machine.rip m) bm = l ++ x).
  { rewrite length_app, load_bytes_app, Hlx, Hr. f_equal.
    rewrite <- (load_put l (code s) (bytes s) Hb) at 2.
    apply (load_bytes_agrees _ _ _ _ (code s) (code s + Z.of_nat (length l))); [|lia|lia].
    intros a Ha. rewrite Hbm; [|simpl; rewrite length_app; pose proof (fi_start _ _ F); lia|].
    - simpl. rewrite put_app. by rewrite put_other by lia.
    - constructor; [lia|]. eapply fields_below; [done|lia]. }
  set (m1 := Machine.set_rip (Machine.rip m + Z.of_nat (length (l ++ x))) m).
  assert (Hm1 : here vs ls Q m1) by (split; [by apply frame_set_rip|done]).
  eexists (n + 1)%nat, _. split; [rewrite (step_at bm n m _ _ Hn Hl Hd); by apply Hx|].
  destruct b; (split; [|split; [|done]]); simpl.
  - rewrite Hr, length_app, Hlx. unfold landing. fold x. unfold L. lia.
  - do 2 apply frame_set_rip. apply Hm.
  - rewrite Hr, !length_app, Hlx, Hw. lia.
  - apply frame_set_rip, Hm.
Qed.
Lemma fields_branch H s l w : fields H s -> length w = 4%nat ->
  fields (code s + Z.of_nat (length l) :: H) (append (l ++ w) s).
Proof.
  intros [F1 F2 F3 F4] Hw. constructor; simpl; rewrite ?length_app, ?Hw; try done; try lia.
  - constructor; [lia|]. eapply Forall_impl; [|exact F1]. simpl. lia.
  - split; [|done]. eapply Forall_impl; [|exact F1]. simpl. lia.
Qed.
Lemma preserves_append H s l : fields H s -> preserves H s H (append l s).
Proof.
  intros F p vs ls Q. apply goes_weaken; [simpl; lia|]. intros a Ha Ho. split; [done|]. simpl. apply put_other. lia.
Qed.
Lemma preserves_branch H s l w L : fields H s -> code s <= L -> preserves H s (L :: H) (append (l ++ w) s).
Proof.
  intros F HL p vs ls Q. apply goes_weaken; [simpl; lia|]. intros a Ha Ho. split; [constructor; [lia|done]|].
  simpl. apply put_other. lia.
Qed.

(** *** Filling a field *)
Lemma preserves_refix H H0 s L t : fields H0 s -> H0 ≡ₚ L :: H ->
  preserves H0 s H0 (set_bytes (put L (le_encode 4 t) (bytes s)) s).
Proof.
  intros F Hp p vs ls Q. apply goes_weaken; [simpl; lia|]. intros a Ha Ho. split; [done|].
  apply (off_fields_perm _ _ _ Hp) in Ho. inversion Ho; subst.
  change (put L (le_encode 4 t) (bytes s) !! a = bytes s !! a). apply put_other. by rewrite length_le_encode.
Qed.
Lemma preserves_fix H H0 s L t : fields H0 s -> H0 ≡ₚ L :: H ->
  preserves H0 s H (set_bytes (put L (le_encode 4 t) (bytes s)) s).
Proof.
  intros F Hp p vs ls Q. apply goes_weaken; [simpl; lia|]. intros a Ha Ho.
  apply (off_fields_perm _ _ _ Hp) in Ho. inversion Ho; subst. split; [done|].
  change (put L (le_encode 4 t) (bytes s) !! a = bytes s !! a). apply put_other. by rewrite length_le_encode.
Qed.
Lemma fields_fix H H0 s L x : fields H0 s -> H0 ≡ₚ L :: H -> fields H (set_bytes x s).
Proof.
  intros [F1 F2 F3 F4] Hp. apply (Forall_Permutation _ _ (fun _ => iff_refl _) _ _ Hp) in F1. apply (apart_perm _ _ Hp) in F2.
  inversion F1; subst. constructor; try done. apply F2.
Qed.
Lemma goes_fix H H0 s L t vs ls Q : fields H0 s -> H0 ≡ₚ L :: H -> in_s 32 (t - (L + 4)) ->
  there H0 s (Via L) vs ls Q -> there H (set_bytes (put L (le_encode 4 (t - (L + 4))) (bytes s)) s) (At t) vs ls Q.
Proof.
  intros F Hp Ht G bm Hbm. destruct (preserves_fix H H0 s L (t - (L + 4)) F Hp _ _ _ _ G bm Hbm) as (n & m & Hn & Hr & Hm).
  exists n, m. split; [done|]. split; [|done]. rewrite Hr. simpl rip_of.
  destruct F as [F1 F2 F3 F4]. apply (Forall_Permutation _ _ (fun _ => iff_refl _) _ _ Hp) in F1. apply (apart_perm _ _ Hp) in F2.
  inversion F1; subst. rewrite <- (landing_fixed L t (bytes s) Ht). apply landing_agrees.
  intros a Ha. apply Hbm; [simpl; lia|]. destruct F2 as [F2 _]. eapply Forall_impl; [|exact F2]. simpl. lia.
Qed.

Lemma fields_code H s : fields H s -> _code_start s <= code s.
Proof. intros F. pose proof (fi_start _ _ F). lia. Qed.

(** ** The writer *)

(** From [s] to [s'] a condition or a new place is reached. *)
Definition moves_on H s H' s' vs ls (Q : condition) p' vs' ls' (Q' : condition) : Prop :=
  there H s (At (code s)) vs ls Q -> there H' s' p' vs' ls' Q'.

Lemma ok_insn H s k l i :
  fields H s -> writes k l -> decodes l i -> is_jump i = false ->
  ok (Z.of_nat (length l)) k (fun _ s' => fields H s' /\ preserves H s H s' /\
    forall vs ls Q vs' ls' Q', (forall m, here vs ls Q m -> exists m', Machine.exec i m = Some m' /\ here vs' ls' Q' m') ->
      moves_on H s H s' vs ls Q (At (code s')) vs' ls' Q') s.
Proof.
  intros F Hw Hd Hj. eapply code_mono; [apply ok_writes; [exact Hw|by eapply fields_code]|lia|]. intros _ s' ->.
  split; [by apply fields_append|]. split; [by apply preserves_append|]. intros vs ls Q vs' ls' Q' Hx. pose proof Hw as [Hb _].
  intros G. by eapply goes_next.
Qed.
Lemma ok_field l s :
  bytes_ok l -> _code_start s <= code s ->
  ok (Z.of_nat (length l) + 4) (emit_bytes l;; emit_branch_target32)
    (fun L s' => L = code s + Z.of_nat (length l) /\ exists w, length w = 4%nat /\ s' = append (l ++ w) s) s.
Proof.
  intros Hb Hs. apply code_bind; [lia|].
  pose proof (writes_bytes l) as Hw. unfold bytes_ok in Hb. rewrite Hb in Hw.
  eapply code_mono; [by apply ok_writes|lia|]. intros _ s1 ->.
  unfold emit_branch_target32. eapply ok_more with (n := 0 + 4); [|lia]. apply code_bind; [lia|]. apply code_gets.
  set (v := wrap 32 _). replace 4 with (4 + 0) at 1 by lia. apply code_bind; [lia|].
  eapply code_mono; [apply ok_writes; [apply writes_operand32|simpl; lia]|by rewrite length_le_encode|].
  intros _ s2 ->. apply code_ret. split; [done|]. exists (le_encode 4 v). split; [apply length_le_encode|apply append_app].
Qed.
Lemma ok_branch H s l i :
  fields H s -> bytes_ok l -> (forall x, length x = 4%nat -> decodes (l ++ x) (i (sext 32 (le_decode x)))) ->
  ok (Z.of_nat (length l) + 4) (emit_bytes l;; emit_branch_target32) (fun L s' =>
    fields (L :: H) s' /\ preserves H s (L :: H) s' /\ forall b vs ls Q, branches i b vs ls Q ->
      moves_on H s (L :: H) s' vs ls Q (if b then Via L else At (code s')) vs ls Q) s.
Proof.
  intros F Hb Hd. eapply code_mono; [apply ok_field; [done|by eapply fields_code]|lia|].
  intros L s' (-> & w & Hw & ->). split; [by apply fields_branch|]. split; [apply preserves_branch; [done|lia]|].
  intros b vs ls Q Hx G. by eapply goes_branch.
Qed.
Lemma ok_jmp H s :
  fields H s -> ok 5 (emit_bytes [0xe9];; emit_branch_target32) (fun L s' =>
    fields (L :: H) s' /\ preserves H s (L :: H) s' /\ forall vs ls Q, moves_on H s (L :: H) s' vs ls Q (Via L) vs ls Q) s.
Proof.
  intros F. eapply code_mono; [apply (ok_branch H s [0xe9] Machine.Jmp F); [done|intros x Hx; by apply decodes_jmp]|done|].
  intros L s' (F' & K & M). split; [done|]. split; [done|]. intros vs ls Q. apply (M true). by intros d m Hm.
Qed.
(** The flags of the condition decide a conditional branch. *)
Definition decides (c : Z) (b : bool) (Q : condition) : Prop :=
  forall g f, Q g f -> exists fl, f = Some fl /\ Machine.cond c fl = Some b.
Lemma ok_jcc H s c :
  fields H s -> In c [2; 3; 4; 5; 6; 7; 12; 13; 14; 15] -> ok 6 (emit_bytes [0x0f; 0x80 + c];; emit_branch_target32) (fun L s' =>
    fields (L :: H) s' /\ preserves H s (L :: H) s' /\ forall b vs ls Q, decides c b Q ->
      moves_on H s (L :: H) s' vs ls Q (if b then Via L else At (code s')) vs ls Q) s.
Proof.
  intros F Hc. eapply code_mono; [apply (ok_branch H s [0x0f; 0x80 + c] (Machine.Jcc c) F); [|intros x Hx; by apply decodes_jcc]|done|].
  { unfold bytes_ok. simpl in Hc. by repeat (destruct Hc as [<-|Hc]; [done|]). }
  intros L s' (F' & K & M). split; [done|]. split; [done|]. intros b vs ls Q HQ. apply M.
  intros d m [_ Hm]. destruct (HQ _ _ Hm) as (fl & Ef & Eb). simpl. unfold Machine.holds. rewrite Ef. simpl. by rewrite Eb.
Qed.
Lemma ok_fix H H0 s L t :
  fields H0 s -> H0 ≡ₚ L :: H -> in_s 32 (t - (L + 4)) -> ok 0 (fix_branch L t) (fun _ s' =>
    code s' = code s /\ fields H0 s' /\ preserves H0 s H0 s' /\ fields H s' /\ preserves H0 s H s' /\
    forall vs ls Q, there H0 s (Via L) vs ls Q -> there H s' (At t) vs ls Q) s.
Proof.
  intros F Hp Ht.
  assert (E : fix_branch L t s = (Ret tt, set_bytes (put L (le_encode 4 (t - (L + 4))) (bytes s)) s)).
  { pose proof (fi_range _ _ F) as F1. apply (Forall_Permutation _ _ (fun _ => iff_refl _) _ _ Hp) in F1. inversion F1; subst.
    pose proof (fi_segment _ _ F). unfold fix_branch, in_s in *. simpl in Ht.
    rewrite (proj2 (Z.ltb_ge _ _)), (proj2 (Z.ltb_ge _ _)) by lia. simpl. unfold overwrite. rewrite length_le_encode.
    rewrite (proj2 (Z.leb_le _ _)), (proj2 (Z.leb_le _ _)) by lia. done. }
  split; [by eexists _, _|]. intros [] s' E'. rewrite E in E'. injection E' as <-.
  split; [simpl; lia|]. split; [by destruct s|]. split; [done|].
  split; [by destruct F; constructor|]. split; [by eapply preserves_refix|]. split; [by eapply fields_fix|].
  split; [by apply preserves_fix|]. intros vs ls Q. by apply goes_fix.
Qed.

(** Code from [s] to [s'] that falls through *)
Record leads H s H' s' vs ls (Q : condition) vs' ls' (Q' : condition) : Prop := {
  le_fields : fields H' s';
  le_keeps : preserves H s H' s';
  le_goes : moves_on H s H' s' vs ls Q (At (code s')) vs' ls' Q'
}.
Lemma leads_trans H s H1 s1 H2 s2 vs ls Q vs1 ls1 Q1 vs2 ls2 Q2 :
  leads H s H1 s1 vs ls Q vs1 ls1 Q1 -> leads H1 s1 H2 s2 vs1 ls1 Q1 vs2 ls2 Q2 -> leads H s H2 s2 vs ls Q vs2 ls2 Q2.
Proof.
  intros [F1 K1 G1] [F2 K2 G2]. constructor; [done|by eapply preserves_trans|]. intros G. by apply G2, G1.
Qed.
Lemma leads_refl H s vs ls (Q Q' : condition) : fields H s -> (forall g f, Q g f -> Q' g f) -> leads H s H s vs ls Q vs ls Q'.
Proof. intros F HQ. constructor; [done|apply preserves_refl|]. intros G. by eapply goes_mono. Qed.
Lemma ok_leads H s k l i vs ls Q vs' ls' Q' :
  fields H s -> writes k l -> decodes l i -> is_jump i = false ->
  (forall m, here vs ls Q m -> exists m', Machine.exec i m = Some m' /\ here vs' ls' Q' m') ->
  ok (Z.of_nat (length l)) k (fun _ s' => leads H s H s' vs ls Q vs' ls' Q') s.
Proof.
  intros F Hw Hd Hj Hx. eapply code_mono; [by eapply ok_insn|lia|]. intros _ s' (F' & K & M). constructor; [done|done|by apply M].
Qed.
End Branch.

(** * Jumps: what a branch drops, and the targets that are filled in *)
Import X86 X86Control.

Section Jumps.
Context `{sys : Sys} `{jit : Jit} {start : Start}.
Implicit Types (vs ls : list operand_stack_elem) (s : t) (H : list Z).
Abbreviation there H s := (goes H (bytes s) (code s)).

(** The operands behind a branch that counts [d] and keeps a result of type [rt] *)
Definition popped (d rt : Z) vs : option (list operand_stack_elem) :=
  if rt =? pseudo then if (0 <=? d) && (d <=? Z.of_nat (length vs)) then Some (drop (Z.to_nat d) vs) else None
  else match vs with
       | v :: _ => if (1 <=? d) && (d <=? Z.of_nat (length vs)) then Some (v :: drop (Z.to_nat d) vs) else None
       | [] => None
       end.
Definition result_type (rt : Z) : Prop := rt = pseudo \/ scalar rt.

Lemma stacked_drop m vs d a : (d <= length vs)%nat -> stacked a vs m -> stacked (a + 8 * Z.of_nat d) (drop d vs) m.
Proof.
  revert d a. induction vs as [|v vs IH]; intros [|d] a Hd F; simpl in Hd; try lia; rewrite ?Z.add_0_r; try done.
  destruct F as [_ F]. replace (a + 8 * Z.of_nat (S d)) with (a + 8 + 8 * Z.of_nat d) by lia. apply IH; [lia|done].
Qed.
Lemma frame_drop vs ls d m : frame m0 sp depth offs vs ls m -> (d <= length vs)%nat ->
  frame m0 sp depth offs (drop d vs) ls (Machine.set_reg 4 (Machine.regs m 4 + 8 * Z.of_nat d) m).
Proof.
  intros [F1 F2 F3 F4 F5 F6 F7] Hd. constructor; try done.
  - rewrite length_drop. simpl. unfold Machine.upd. simpl. lia.
  - rewrite length_drop. lia.
  - change (Machine.regs (Machine.set_reg 4 (Machine.regs m 4 + 8 * Z.of_nat d) m) 4) with (Machine.regs m 4 + 8 * Z.of_nat d).
    apply (stacked_mem _ _ m); [done|]. by apply stacked_drop.
  - intros r Hr H4. simpl. unfold Machine.upd. rewrite (proj2 (Z.eqb_neq r 4)) by done. by apply F5.
Qed.
(** [add $imm, %rsp] *)
Lemma exec_drop vs ls l d m :
  here vs ls (regs_are l) m -> fresh 4 l -> (d <= length vs)%nat -> 8 * Z.of_nat d < 2 ^ 31 ->
  exists m', Machine.exec (Machine.AluImm Machine.ADD 64 (Machine.RReg 4) (8 * Z.of_nat d)) m = Some m' /\
    here (drop d vs) ls (regs_are l) m'.
Proof.
  intros [Hm Hq] Hf Hd H31. pose proof (frame_drop vs ls d m Hm Hd) as Hfr. destruct Hm as [F1 F2 _ _ _ _ _].
  destruct geo as [G1 G2 G3 _ _]. eexists. split; [reflexivity|].
  assert (E : Machine.put 64 (Machine.RReg 4) (wrap 64 (Machine.get 64 (Machine.RReg 4) m + wrap 64 (8 * Z.of_nat d))) m
    = Machine.set_reg 4 (Machine.regs m 4 + 8 * Z.of_nat d) m).
  { unfold Machine.get. rewrite (wrap_small 64 (8 * _)) by (unfold in_u; lia).
    rewrite (wrap_small 64 (Machine.regs m 4)) by (unfold in_u; lia).
    rewrite put_reg by (by right). by rewrite !(wrap_small 64 (Machine.regs m 4 + _)) by (unfold in_u; lia). }
  unfold Machine.exec_alu. rewrite E. split; [by apply frame_set_flags|].
  unfold regs_are, fresh in *. simpl. rewrite List.Forall_forall in *. intros [r x] Hr. simpl.
  unfold Machine.upd. rewrite (proj2 (Z.eqb_neq r 4)) by exact (Hf _ Hr). exact (Hq _ Hr).
Qed.
(** Within seven bytes *)
Definition encodes_in (k : M t unit) (i : Machine.instr) : Prop :=
  exists bs, writes k bs /\ (length bs <= 7)%nat /\ decodes bs i.
Lemma encodes_add_rsp x : encodes_in (emit_add_imm x rsp) (Machine.AluImm Machine.ADD 64 (Machine.RReg 4) (sext 32 x)).
Proof.
  unfold emit_add_imm. pose proof (sext_in_s 32 x ltac:(lia)) as Hx. set (d := sext 32 x) in *. clearbody d.
  unfold emit_imm. destruct ((d <=? 0x7F) && (-0x80 <=? d)) eqn:Hs.
  - assert (Hd : in_s 8 d) by (unfold in_s; simpl; lia).
    assert (Htake : forall rest, Machine.take_disp 1 ([wrap 8 d] ++ rest) = Some (d, rest))
      by (intros rest; by apply (take_disp_encode 1 d); [lia|]).
    eexists; split; [writes_tac|split; [simpl; lia|]]. split; [simpl; lia|]. intros rest. specialize (Htake rest).
    rewrite <- !app_assoc. take_with Htake.
  - assert (Htake : forall rest, Machine.take_disp 4 (le_encode 4 d ++ rest) = Some (d, rest))
      by (intros rest; by apply (take_disp_encode 4 d); [lia|]).
    eexists; split; [writes_tac|split; [simpl; rewrite ?length_le_encode; simpl; lia|]]. split; [simpl; rewrite ?length_le_encode; simpl; lia|].
    intros rest. specialize (Htake rest). rewrite <- !app_assoc. take_with Htake.
Qed.

(** [push %rax] *)
Lemma ok_push_rax H s v vs ls :
  fields H s -> in_u 64 (slot v) -> (length vs < depth)%nat ->
  ok 1 (emit_push rax) (fun _ s' => leads H s H s' vs ls (reg_is 0 (slot v)) (v :: vs) ls any) s.
Proof.
  intros F Hv Hd.
  assert (E : emit_push rax s = (push_code 0;; push_recent_op (code s) (generic_register_push_op rax)) s).
  { unfold emit_push, push_code, gets, mbind, M_bind. simpl num.
    destruct (emit_REX_prefix false false false (bit3 0) s) as [[[]|e|w] s1]; done. }
  eapply ok_eq; [exact E|]. destruct (push_encoding 0 ltac:(scratch_tac)) as (bs & Hw & Hl & Hde).
  replace 1 with (1 + 0) by lia. apply code_bind; [lia|].
  eapply code_mono; [eapply (ok_leads H s _ _ _ vs ls (reg_is 0 (slot v)) (v :: vs) ls any F Hw Hde); [done|]|rewrite Hl; simpl; lia|].
  { intros m [Hm Hq%reg_is_1].
    destruct (exec_push _ _ _ _ geo vs ls v 0 m Hm Hd ltac:(scratch_tac) Hq Hv) as (m' & Ex & Hm' & _).
    exists m'. split; [done|]. split; [done|by constructor]. }
  intros _ s1 [F1 K M]. split; [by eexists _, _|]. intros [] s2 [= <-]. split; [simpl; lia|]. split; [by destruct s1|].
  constructor; [by destruct F1|exact K|exact M].
Qed.
Lemma ok_leads_encodes H s k i vs ls Q vs' ls' Q' : fields H s -> encodes_in k i -> is_jump i = false ->
  (forall m, here vs ls Q m -> exists m', Machine.exec i m = Some m' /\ here vs' ls' Q' m') ->
  ok 7 k (fun _ s' => leads H s H s' vs ls Q vs' ls' Q') s.
Proof. intros F (bs & Hw & Hl & Hd) Hj Hx. eapply ok_more; [by eapply ok_leads|lia]. Qed.

Lemma drop_count d vs : 0 <= d < 2 ^ 28 -> d <= Z.of_nat (length vs) ->
  sext 32 (wrap 32 (d * 8)) = 8 * Z.of_nat (Z.to_nat d) /\ Z.land d 0x70000000 = 0.
Proof.
  intros Hd Hl. split.
  - rewrite Z2Nat.id by lia. rewrite wrap_small by (unfold in_u; lia). rewrite sext_small by (unfold in_s; lia). lia.
  - apply Z.bits_inj'. intros i Hi. rewrite Z.land_spec, Z.bits_0.
    destruct (Z.ltb_spec i 28).
    + change 0x70000000 with (7 * 2 ^ 28). by rewrite Z.mul_pow2_bits_low, andb_false_r.
    + rewrite (in_u_testbit 28 d) by (done || lia). done.
Qed.
Lemma simple_popped d rt vs vs' : result_type rt -> is_simple_multipop d rt = true -> popped d rt vs = Some vs' -> vs' = vs.
Proof.
  intros Hrt. unfold is_simple_multipop, popped. destruct (Z.eqb_spec rt pseudo) as [->|Hp].
  - intros ->%Z.eqb_eq. destruct (_ && _); [|done]. by intros [= <-].
  - destruct Hrt as [?|[-> |[-> |[-> | ->]]]]; [done|..]; simpl; intros ->%Z.eqb_eq;
      (destruct vs as [|v vs]; [done|]); (destruct (_ && _); [|done]); by intros [= <-].
Qed.
Lemma multipop_types rt : result_type rt -> (rt =? v128) = false.
Proof. by intros [-> |[-> |[-> |[-> | ->]]]]. Qed.

Lemma ok_add_rsp H s d vs ls l : fields H s -> fresh 4 l -> 0 <= d < 2 ^ 28 -> d <= Z.of_nat (length vs) ->
  ok 7 (emit_add_imm (wrap 32 (d * 8)) rsp) (fun _ s' => leads H s H s' vs ls (regs_are l) (drop (Z.to_nat d) vs) ls (regs_are l)) s.
Proof.
  intros F Hf Hd Hl. destruct (drop_count d vs Hd Hl) as [E _].
  pose proof (encodes_add_rsp (wrap 32 (d * 8))) as He. rewrite E in He.
  eapply ok_leads_encodes; [done|exact He|done|]. intros m Hm. apply exec_drop; [done|done|lia|lia].
Qed.
Lemma ok_load_top H s v vs ls Q : fields H s -> in_u 64 (slot v) ->
  ok 7 (emit_mov (at_reg rsp) rax) (fun _ s' => leads H s H s' (v :: vs) ls Q (v :: vs) ls (reg_is 0 (slot v))) s.
Proof.
  intros F Hv. eapply (ok_leads_encodes _ _ _ (Machine.Mov 64 (Machine.RReg 0) (Machine.RMem 4 None 0))); [done|encode|done|].
  intros m [Hm _]. eexists. split; [reflexivity|].
  assert (E : Machine.get 64 (Machine.RMem 4 None 0) m = slot v).
  { unfold Machine.get. rewrite (top_address m0 sp depth offs geo v vs ls) by done. by destruct (fr_stack _ _ _ _ _ _ _ Hm). }
  rewrite E, put_reg by (by right). split; [by apply frame_set_reg; [scratch_tac|]|]. apply reg_is_1. simpl.
  rewrite upd_same. by apply wrap_small.
Qed.

(** [emit_multipop] drops the operands of the branch and keeps its result. *)
Lemma ok_multipop H s d rt vs ls (Q : condition) vs' :
  fields H s -> result_type rt -> 0 <= d < 2 ^ 28 -> popped d rt vs = Some vs' -> Forall (fun v => in_u 64 (slot v)) vs ->
  (length vs <= depth)%nat ->
  ok 17 (emit_multipop d rt) (fun _ s' => leads H s H s' vs ls Q vs' ls any) s.
Proof.
  intros F Hrt Hd Hp Hv Hdep. unfold emit_multipop. apply ok_sized. rewrite (multipop_types rt Hrt).
  destruct (is_simple_multipop d rt) eqn:Es; simpl negb; cbv iota.
  { eapply ok_more; [apply code_ret|lia]. rewrite (simple_popped d rt vs vs' Hrt Es Hp). apply leads_refl; [done|]. by constructor. }
  assert (F0 : forall vs ls Q, leads H s H s vs ls Q vs ls any) by (intros; apply leads_refl; [done|by constructor]).
  unfold popped in Hp. destruct (Z.eqb_spec rt pseudo) as [->|Hne]; simpl negb; cbv iota zeta.
  - destruct (Z.leb_spec 0 d), (Z.leb_spec d (Z.of_nat (length vs))); try done. injection Hp as <-.
    destruct (drop_count d vs) as [_ E2]; [lia|lia|]. rewrite E2. simpl Z.eqb. simpl negb. cbv iota.
    eapply ok_eq; [reflexivity|]. change (ok 17 (emit_add_imm (wrap 32 (d * 8)) rsp;; mret tt)
      (fun _ s' => leads H s H s' vs ls Q (drop (Z.to_nat d) vs) ls any) s).
    eapply (ok_then _ 7); [apply (ok_add_rsp H s d vs ls []); [done|apply List.Forall_nil|done|lia]|lia|].
    intros [] s1 L1. eapply ok_more; [apply code_ret|lia]. eapply leads_trans; [apply F0|exact L1].
  - destruct vs as [|v vs]; [done|]. destruct (Z.leb_spec 1 d), (Z.leb_spec d (Z.of_nat (length (v :: vs)))); try done. injection Hp as <-.
    inversion Hv; subst. destruct (drop_count d (v :: vs)) as [_ E2]; [lia|lia|]. rewrite E2. simpl Z.eqb. simpl negb. cbv iota.
    eapply (ok_then _ 7); [by apply (ok_load_top H s v vs ls Q)|lia|]. intros [] s1 L1. pose proof (le_fields _ _ _ _ _ _ _ _ _ _ L1) as F1.
    eapply (ok_then _ 7); [apply (ok_add_rsp H s1 d (v :: vs) ls [(0, slot v)]);
      [done|apply List.Forall_cons; [done|apply List.Forall_nil]|done|lia]|lia|].
    intros [] s2 L2. pose proof (le_fields _ _ _ _ _ _ _ _ _ _ L2) as F2.
    eapply code_mono; [apply (ok_push_rax H s2 v (drop (Z.to_nat d) (v :: vs)) ls); [exact F2|done|]|lia|].
    { rewrite length_drop. simpl length in *. lia. }
    intros [] s3 L3. eapply leads_trans; [|exact L3]. eapply leads_trans; [exact L1|exact L2].
Qed.

(** The targets of branches are filled in. *)
Lemma ok_fixes fixes : forall H s,
  fields H s -> H ≡ₚ fixes.*1 -> (forall L a, In (L, a) fixes -> in_s 32 (a - (L + 4))) ->
  ok 0 (eachM (fun p => fix_branch p.1 p.2) fixes) (fun _ s' => code s' = code s /\ fields [] s' /\ preserves H s [] s' /\
    forall L a vs ls Q, In (L, a) fixes -> there H s (Via L) vs ls Q -> there [] s' (At a) vs ls Q) s.
Proof.
  induction fixes as [|[L a] fixes IH]; intros H s F Hp Hin.
  - simpl in Hp. apply Permutation_nil_r in Hp as ->. apply code_ret. split; [done|]. split; [done|]. split; [apply preserves_refl|done].
  - cbn [eachM]. eapply (ok_then 0 0); [apply (ok_fix fixes.*1 H s L a F Hp); by apply Hin; left|done|].
    intros _ s1 (Ec & _ & _ & F1 & K1 & G1). eapply code_mono; [apply (IH fixes.*1 s1 F1); [done|intros ???; apply Hin; by right]|done|].
    intros _ s2 (Ec2 & F2 & K2 & G2). split; [by rewrite Ec2|]. split; [done|]. split; [by eapply preserves_trans|].
    intros L' a' vs ls Q [[= <- <-]|Hi] G; [by apply K2, G1|]. apply (G2 L' a' vs ls Q Hi). by apply K1.
Qed.
End Jumps.
