(* ===== verification/X86Table.v ===== *)
(** * Branch tables of compiled code (x86_64.hpp)

    [br_table] is compiled to a binary search that is emitted while the cases are read,
    from a stack of ranges.  For every index the processor ends at the branch of its
    case, or of the default, with the operands of that case. *)
From S2P Require Import Prelude Allocator Types Writers LinearMemory InstanceProofs IntegerOps X86 X86Control X86Writer X86Machine X86Encoding X86Frame X86Emit X86Fold X86Ops X86Compare X86Values X86Straight X86Branch.
Import X86 X86Control.

Lemma in_zip {A B} (l : list A) (k : list B) j a b : l !! j = Some a -> k !! j = Some b -> In (a, b) (zip l k).
Proof. intros H1 H2. apply list_elem_of_In, list_elem_of_lookup. exists j. by rewrite lookup_zip_with, H1, H2. Qed.

(** ** The stack of ranges *)

(** Contiguous ranges from [i] to [hi] *)
Fixpoint chain (i hi : Z) (items : list stack_item) : Prop :=
  match items with
  | [] => i = hi
  | it :: items => si_min it = i /\ i < si_max it /\ chain (si_max it) hi items
  end.
Definition labels (items : list stack_item) : list Z := omap branch_target items.
Definition labelled (items : list stack_item) : Prop := Forall (fun it => is_Some (branch_target it)) items.
(** The bytes that the search of the ranges takes at most *)
Definition width (it : stack_item) : Z := si_max it - si_min it.
Fixpoint room (items : list stack_item) : Z :=
  match items with [] => 0 | it :: items => 33 * width it - 11 + room items end.
(** The bytes to reach the first case of a range and to leave it *)
Fixpoint cost (fuel : nat) (w : Z) : Z :=
  match fuel with O => 0 | S fuel => if 1 <? w then 11 + cost fuel (w / 2) else 22 end.

Lemma chain_le i hi items : chain i hi items -> i <= hi.
Proof. revert i. induction items as [|it items IH]; intros i; simpl; [lia|]. intros (_ & H1 & H2%IH). lia. Qed.
Lemma chain_room i hi items : chain i hi items -> 0 <= room items.
Proof.
  revert i. induction items as [|it items IH]; intros i; simpl; [done|]. intros (H0 & H1 & H2%IH). unfold width. lia.
Qed.
Lemma chain_in i hi items it : chain i hi items -> it ∈ items -> i <= si_min it /\ si_min it < si_max it /\ si_max it <= hi.
Proof.
  revert i. induction items as [|x items IH]; intros i; simpl; [by intros _ ?%elem_of_nil|].
  intros (<- & H1 & H2) [->|Hin]%elem_of_cons.
  - apply chain_le in H2. lia.
  - destruct (IH _ H2 Hin). lia.
Qed.
Lemma cost_range f w : 1 <= w <= 2 ^ Z.of_nat f -> 22 <= cost (S f) w <= 33 * w - 11.
Proof.
  revert w. induction f as [|f IH]; intros w Hw.
  - assert (w = 1) as -> by (simpl in Hw; lia). simpl. lia.
  - change (22 <= (if 1 <? w then 11 + cost (S f) (w / 2) else 22) <= 33 * w - 11). destruct (Z.ltb_spec 1 w); [|lia].
    rewrite Nat2Z.inj_succ, Z.pow_succ_r in Hw by lia.
    assert (1 <= w / 2 <= w - 1 /\ w / 2 <= 2 ^ Z.of_nat f) by (split; [split|]; [apply Z.div_le_lower_bound; lia| |apply Z.div_le_upper_bound; lia]; pose proof (Z.div_mod w 2 ltac:(lia)); pose proof (Z.mod_pos_bound w 2 ltac:(lia)); lia).
    pose proof (IH (w / 2) ltac:(lia)). lia.
Qed.

Lemma labels_cons it items :
  labels (it :: items) = match branch_target it with Some L => L :: labels items | None => labels items end.
Proof. done. Qed.
#[local] Arguments labels : simpl never.
#[local] Arguments cost : simpl never.

(** [cmp $x, %eax] *)
Lemma decodes_cmp_eax x : decodes (0x3d :: le_encode 4 x) (Machine.AluImm Machine.CMP 32 (Machine.RReg 0) (sext 32 x)).
Proof.
  split; [rewrite length_cons, length_le_encode; lia|]. intros rest.
  pose proof (take_disp_exact 4 (le_encode 4 x) rest (length_le_encode 4 x)) as H.
  rewrite le_decode_encode in H. change (8 * Z.of_nat 4) with 32 in H. rewrite sext_wrap in H by lia.
  set (r := le_encode 4 x ++ rest) in *. change ((0x3d :: le_encode 4 x) ++ rest) with (0x3d :: r). clearbody r.
  lazy -[Machine.take_disp sext] in *. by rewrite H.
Qed.

Section Table.
Context `{sys : Sys} `{jit : Jit} {start : Start}.
Implicit Types (vs ls : list operand_stack_elem) (s : t) (H bs : list Z).
Abbreviation there H s := (goes H (bytes s) (code s)).

(** The index and the number of cases; the operands, the locals and the operands of the
    case that the index selects *)
Variables (n size : Z) (vs ls taken : list operand_stack_elem).
Hypotheses (n_range : in_u 32 n) (size_range : 0 <= size < 2 ^ 32 - 1)
  (vs_range : Forall (fun v => in_u 64 (slot v)) vs) (vs_depth : (length vs <= depth)%nat).
Definition selected : Z := Z.min n size.

Lemma selected_range : 0 <= selected <= size.
Proof. unfold selected, in_u in *. lia. Qed.

Definition item_place s (it : stack_item) : place :=
  match branch_target it with Some L => Via L | None => At (code s) end.
(** Between two cases: the branches emitted so far are [bs]. *)
Record table H s bs (h : br_table_generator) : Prop := {
  tb_fields : fields H s;
  tb_perm : H ≡ₚ bs ++ labels (stack h);
  tb_count : _i h = Z.of_nat (length bs);
  tb_chain : chain (_i h) (size + 1) (stack h);
  tb_labels : labelled (tail (stack h));
  tb_near : code s + room (stack h) - a0 < 2 ^ 31;
  tb_taken : forall L, bs !! Z.to_nat selected = Some L -> there H s (Via L) taken ls any;
  tb_pending : forall it, it ∈ stack h -> si_min it <= selected < si_max it ->
    there H s (item_place s it) vs ls (reg_is 0 n)
}.
(** A case that the branch can take *)
Definition case_ok (i : Z) (c : Z * Z) : Prop :=
  result_type c.2 /\ 0 <= c.1 < 2 ^ 28 /\
  exists vs', popped c.1 c.2 vs = Some vs' /\ (i = selected -> vs' = taken).

Lemma item_place_labelled s s' it : is_Some (branch_target it) -> item_place s' it = item_place s it.
Proof. intros [L E]. unfold item_place. by rewrite E. Qed.
Lemma labelled_in items it : labelled items -> it ∈ items -> is_Some (branch_target it).
Proof. intros Hl Hin. unfold labelled in Hl. rewrite List.Forall_forall in Hl. apply Hl. by apply list_elem_of_In. Qed.
(** The range [it] is reached at the end of the code, the ranges [rest] at their labels. *)
Record opened H s bs (it : stack_item) (rest : list stack_item) : Prop := {
  op_fields : fields H s;
  op_perm : H ≡ₚ bs ++ labels rest;
  op_labels : labelled rest;
  op_taken : forall L, bs !! Z.to_nat selected = Some L -> there H s (Via L) taken ls any;
  op_here : si_min it <= selected < si_max it -> there H s (At (code s)) vs ls (reg_is 0 n);
  op_rest : forall x, x ∈ rest -> si_min x <= selected < si_max x -> there H s (item_place s x) vs ls (reg_is 0 n)
}.
Lemma opened_preserves H s H' s' bs it rest L :
  opened H s bs it rest -> fields H' s' -> preserves H s H' s' -> bs ++ [L] ++ labels rest ≡ₚ H' ->
  (selected = Z.of_nat (length bs) -> there H' s' (Via L) taken ls any) ->
  forall i, i = Z.of_nat (length (bs ++ [L])) -> chain i (size + 1) rest -> code s' + room rest - a0 < 2 ^ 31 ->
  table H' s' (bs ++ [L]) (Generator i rest).
Proof.
  intros [O1 O2 O3 O4 O5 O6] F K Hp HL i Hi Hc Hr. constructor; try done; simpl.
  - rewrite <- Hp. by rewrite app_assoc.
  - destruct rest; [constructor|]. by inversion O3.
  - intros L' E. apply lookup_app_Some in E as [E|[Hge E]]; [by apply K, O4|].
    assert (El : (Z.to_nat selected - length bs)%nat = 0%nat) by (destruct (Z.to_nat selected - length bs)%nat; done).
    rewrite El in E. injection E as <-. apply HL. pose proof selected_range. lia.
  - intros x Hx Hin. rewrite (item_place_labelled s s' x) by (by apply (labelled_in rest)). apply K. by apply O6.
Qed.

Lemma ok_open H s bs i it rest :
  table H s bs (Generator i (it :: rest)) ->
  ok 0 (match branch_target it with Some label => here ← gets code; fix_branch label here | None => mret tt end)
    (fun _ s1 => code s1 = code s /\ table H s1 bs (Generator i (it :: rest)) /\ exists H1, opened H1 s1 bs it rest) s.
Proof.
  intros T. pose proof T as [F P C Ch Lb N Tk Pe]. simpl in *. destruct (branch_target it) as [L|] eqn:E.
  - eapply ok_more with (n := 0 + 0); [|lia]. apply code_bind; [lia|]. apply code_gets.
    assert (Hp : H ≡ₚ L :: (bs ++ labels rest)).
    { rewrite P, labels_cons, E. by rewrite Permutation_middle. }
    eapply code_mono; [apply (ok_fix (bs ++ labels rest) H s L (code s) F Hp)|lia|].
    + pose proof (fi_range _ _ F) as Fr. apply (Forall_Permutation _ _ (fun _ => iff_refl _) _ _ Hp) in Fr. inversion Fr; subst.
      destruct Ch as (Hi & Hw & Hc%chain_room). unfold width in N. unfold in_s. change (32 - 1) with 31. lia.
    + intros _ s1 (Ec & F0 & K0 & F1 & K1 & G). split; [done|].
      assert (HP : forall x, si_min x <= selected < si_max x -> x ∈ it :: rest -> there H s1 (item_place s1 x) vs ls (reg_is 0 n)).
      { intros x Hr Hx. rewrite (item_place_labelled s s1 x); [by apply K0, Pe|].
        apply elem_of_cons in Hx as [->|Hx]; [by exists L|by apply (labelled_in rest)]. }
      split; [|exists (bs ++ labels rest)]; constructor; simpl; try done; try reflexivity; try lia.
      * intros L' E'. by apply K0, Tk.
      * intros x Hx Hr. by apply HP.
      * intros L' E'. by apply K1, Tk.
      * intros Hr. replace (At (code s1)) with (At (code s)) by (by rewrite Ec). apply G. specialize (Pe it (list_elem_of_here _ _) Hr). unfold item_place in Pe. by rewrite E in Pe.
      * intros x Hx Hr. rewrite (item_place_labelled s s1 x) by (by apply (labelled_in rest)). apply K1, Pe; [by right|done].
  - apply code_ret. split; [done|]. split; [done|]. exists H. constructor; try done.
    + by rewrite P, labels_cons, E.
    + intros Hr. specialize (Pe it (list_elem_of_here _ _) Hr). unfold item_place in Pe. by rewrite E in Pe.
    + intros x Hx. apply Pe. by right.
Qed.

(** *** The comparison with the middle of a range *)
Definition searched (mid : Z) : condition := fun g f => g 0 = n /\ f = Some (Machine.cmp_flags 32 n mid).
Lemma exec_cmp_eax mid m : in_u 32 mid -> here vs ls (reg_is 0 n) m ->
  exists m', Machine.exec (Machine.AluImm Machine.CMP 32 (Machine.RReg 0) (sext 32 mid)) m = Some m' /\ here vs ls (searched mid) m'.
Proof.
  intros Hm [Hf Hq%reg_is_1]. eexists. split; [done|]. split; [by apply frame_set_flags|]. split; [done|].
  simpl. by rewrite Hq, wrap_sext, !wrap_small by (done || lia).
Qed.
Lemma ok_search H s bs it rest mid :
  opened H s bs it rest -> in_u 32 mid ->
  ok 11 (fixed_size_instr 11 (emit_bytes [0x3d];; emit_operand32 mid;; emit_bytes [0x0f; 0x83];; emit_branch_target32))
    (fun L s' => fields (L :: H) s' /\ preserves H s (L :: H) s' /\
      (si_min it <= selected < si_max it -> there (L :: H) s' (if mid <=? n then Via L else At (code s')) vs ls (reg_is 0 n))) s.
Proof.
  intros O Hm. apply ok_sized.
  eapply ok_eq; [instantiate (1 := (emit_bytes [0x3d];; emit_operand32 mid);; emit_bytes [0x0f; 0x80 + 3];; emit_branch_target32)|].
  { unfold mbind, M_bind. destruct (emit_bytes [0x3d] s) as [[[]|e|w] s0]; [|done|done].
    by destruct (emit_operand32 mid s0) as [[[]|e|w] s1]. }
  eapply (ok_then _ 5); [|lia|].
  - apply (ok_leads H s _ (0x3d :: le_encode 4 mid) (Machine.AluImm Machine.CMP 32 (Machine.RReg 0) (sext 32 mid)) vs ls (reg_is 0 n) vs ls (searched mid));
      [apply O| |apply decodes_cmp_eax|done|intros m; by apply exec_cmp_eax].
    change (0x3d :: le_encode 4 mid) with ([0x3d] ++ le_encode 4 mid). apply writes_seq; [by apply writes_bytes|apply writes_operand32].
  - intros [] s1 [F1 K1 G1]. eapply code_mono; [apply (ok_jcc H s1 3 F1); simpl; tauto|lia|].
    intros L s2 (F2 & K2 & G2). split; [done|]. split; [by eapply preserves_trans|]. intros Hr.
    apply (goes_mono _ _ _ _ _ _ (searched mid)); [intros g f [? _]; by apply reg_is_1|].
    apply (G2 (mid <=? n) vs ls (searched mid)); [|by apply G1, (op_here _ _ _ _ _ O)].
    intros g f [_ ->]. eexists. split; [done|]. rewrite cond_cmp; [|lia|done|done|unfold conditions; simpl; tauto].
    simpl. by rewrite Z.geb_leb.
Qed.

(** *** Leaving the search *)

(** Code that leaves the operands of the case, and [jmp] to its target *)
Lemma ok_leave H s bs it rest i l (k : M t unit) vs' :
  opened H s bs it rest -> chain i (size + 1) (it :: rest) -> i = Z.of_nat (length bs) -> width it = 1 ->
  code s + l + room rest - a0 < 2 ^ 31 -> 5 <= l -> (i = selected -> vs' = taken) ->
  ok (l - 5) k (fun _ s' => leads H s H s' vs ls (reg_is 0 n) vs' ls any) s ->
  ok l (k;; emit_bytes [0xe9];; emit_branch_target32)
    (fun L s' => exists H', table H' s' (bs ++ [L]) (Generator (i + 1) rest)) s.
Proof.
  intros O (Hmin & Hw & Hch) Hi Hw1 Hn Hl Hsel Hk.
  eapply code_mono; [apply ok_bound; eapply (ok_then l (l - 5) _ _ _ (fun L s' => exists s1, leads H s H s1 vs ls (reg_is 0 n) vs' ls any /\
    fields (L :: H) s' /\ preserves H s1 (L :: H) s' /\ forall vs ls Q, moves_on H s1 (L :: H) s' vs ls Q (Via L) vs ls Q));
    [exact Hk|lia|]|done|].
  - intros [] s1 L1. eapply code_mono; [apply (ok_jmp H s1 (le_fields _ _ _ _ _ _ _ _ _ _ L1))|lia|].
    intros L s2 J. by exists s1.
  - intros L s2 (Hc & s1 & [F1 K1 G1] & F2 & K2 & G2). exists (L :: H).
    unfold width in Hw1. replace (si_max it) with (i + 1) in Hch by lia.
    eapply opened_preserves; [done|done|by eapply preserves_trans| | | |done|lia].
    + rewrite (op_perm _ _ _ _ _ O). simpl. by rewrite Permutation_middle.
    + intros E. apply G2. rewrite <- Hsel by lia. apply G1, (op_here _ _ _ _ _ O). lia.
    + rewrite length_app. simpl. lia.
Qed.
(** A range that a label reaches, with no operands to drop: the label is the branch. *)
Lemma label_is_branch H s bs i it rest L :
  table H s bs (Generator i (it :: rest)) -> branch_target it = Some L -> width it = 1 -> (i = selected -> vs = taken) ->
  table H s (bs ++ [L]) (Generator (i + 1) rest).
Proof.
  intros [F P C (Hmin & Hmax & Hch) Lb N Tk Pe] E Hw Hsel. unfold width in Hw. simpl in P, C, Lb, Hmin, Hmax, Hch.
  replace (si_max it) with (i + 1) in Hch by lia. constructor; simpl; try done.
  - by rewrite P, labels_cons, E, <- app_assoc.
  - rewrite length_app. simpl. lia.
  - destruct rest; [constructor|]. by inversion Lb.
  - simpl in N. unfold width in N. lia.
  - intros L' E'. apply lookup_app_Some in E' as [E'|[Hge E']]; [by apply Tk|].
    assert (El : (Z.to_nat selected - length bs)%nat = 0%nat) by (destruct (Z.to_nat selected - length bs)%nat; done).
    rewrite El in E'. injection E' as <-. pose proof selected_range. rewrite <- Hsel by lia.
    specialize (Pe it (list_elem_of_here _ _) ltac:(lia)). unfold item_place in Pe. rewrite E in Pe.
    eapply goes_mono; [|exact Pe]. by constructor.
  - intros x Hx Hr. apply Pe; [by right|done].
Qed.
Lemma ok_leaf H s bs i it rest c :
  table H s bs (Generator i (it :: rest)) -> (exists H1, opened H1 s bs it rest) -> width it = 1 -> case_ok i c ->
  ok 22 (variable_size_instr 0 22 (
      assertion (si_min it =? wrap 32 i) "assertion failed: br_table index";;
      if is_simple_multipop c.1 c.2 then
        match branch_target it with
        | Some label => mret label
        | None => emit_bytes [0xe9];; emit_branch_target32
        end
      else emit_multipop c.1 c.2;; emit_bytes [0xe9];; emit_branch_target32))
    (fun L s' => exists H', table H' s' (bs ++ [L]) (Generator (i + 1) rest)) s.
Proof.
  intros T [H1 O] Hw (Hrt & Hd & vs' & Hp & Hsel). pose proof T as [_ _ C Ch _ N _ _]. simpl in C, N.
  pose proof Ch as (Hmin & Hmax & Hrest). pose proof (chain_le _ _ _ Hrest) as Hle.
  simpl in Hmin, Hmax. apply ok_sized. rewrite Hmin, (wrap_small 32 i), Z.eqb_refl by (unfold in_u; lia).
  eapply (ok_then _ 0 _ _ (fun _ s' => s' = s)); [by apply code_ret|lia|]. intros [] s0 ->.
  destruct (is_simple_multipop c.1 c.2) eqn:Es.
  - apply simple_popped in Hp as ->; [|done|done]. destruct (branch_target it) as [L|] eqn:El.
    + eapply ok_more; [apply code_ret|lia]. exists H. by eapply label_is_branch.
    + eapply ok_more; [eapply ok_eq; [instantiate (1 := mret tt;; emit_bytes [0xe9];; emit_branch_target32); done|]|].
      * eapply (ok_leave _ _ _ _ _ _ 5 _ vs O Ch); [done|done|lia|lia|done|].
        apply code_ret, leads_refl; [apply O|by constructor].
      * lia.
  - eapply (ok_leave _ _ _ _ _ _ 22 _ vs' O Ch); [done|done|lia|lia|done|].
    eapply ok_more; [by apply (ok_multipop H1 s c.1 c.2 vs ls _ vs'); [apply O|..]|lia].
Qed.

(** ** The cases *)
Lemma split_table H s bs it rest i mid L s' :
  opened H s bs it rest -> chain i (size + 1) (it :: rest) -> i = Z.of_nat (length bs) -> i < mid < si_max it ->
  code s + room (it :: rest) - a0 < 2 ^ 31 -> code s' <= code s + 11 ->
  fields (L :: H) s' -> preserves H s (L :: H) s' ->
  (si_min it <= selected < si_max it -> there (L :: H) s' (if mid <=? n then Via L else At (code s')) vs ls (reg_is 0 n)) ->
  table (L :: H) s' bs (Generator i (StackItem i mid None :: StackItem mid (si_max it) (Some L) :: rest)).
Proof.
  intros [_ P Lb Tk Hh Re] (Hmin & Hmax & Hch) Hi Hmid Hn Hc F K G. pose proof (chain_le _ _ _ Hch) as Hle. simpl in Hn.
  assert (Hs : mid <= selected <-> mid <= n) by (unfold selected; lia).
  constructor; simpl; try done.
  - rewrite !labels_cons, P. simpl. by rewrite Permutation_middle.
  - repeat split; try done; lia.
  - constructor; [by eexists|done].
  - unfold width in *. simpl. lia.
  - intros L' E. by apply K, Tk.
  - intros x [->|[->|Hx]%elem_of_cons]%elem_of_cons; simpl; intros Hr.
    + unfold item_place. simpl. destruct (Z.leb_spec mid n); [lia|apply G; lia].
    + unfold item_place. simpl. destruct (Z.leb_spec mid n); [apply G; lia|lia].
    + rewrite (item_place_labelled s s' x) by (by apply (labelled_in rest)). by apply K, Re.
Qed.
Lemma cost_S fuel w : cost (S fuel) w = if 1 <? w then 11 + cost fuel (w / 2) else 22.
Proof. done. Qed.
Lemma middle_of_range min max : 0 <= min -> max < 2 ^ 32 -> 1 < max - min ->
  wrap 32 (min + wrap 32 (max - min) / 2) = min + (max - min) / 2 /\ min < min + (max - min) / 2 < max.
Proof.
  intros H1 H2 H3. rewrite (wrap_small 32 (max - min)) by (unfold in_u; lia).
  assert (1 <= (max - min) / 2 < max - min) by (split; [apply Z.div_le_lower_bound|apply Z.div_lt_upper_bound]; lia).
  split; [|lia]. apply wrap_small. unfold in_u. lia.
Qed.
Definition case_done bs i total (r : Z * br_table_generator) s' : Prop :=
  (exists H', table H' s' (bs ++ [r.1]) r.2) /\ _i r.2 = i + 1 /\ room (stack r.2) = total.
(** One turn of the loop, [rec] for the next *)
Lemma ok_case_turn fuel H s bs i it rest c :
  table H s bs (Generator i (it :: rest)) -> case_ok i c -> 0 <= cost fuel (width it / 2) ->
  (1 < width it -> forall H' s' left right, table H' s' bs (Generator i (left :: right :: rest)) -> width left = width it / 2 ->
    room (left :: right :: rest) = room (it :: rest) - 11 ->
    ok (cost fuel (width left)) (emit_case_loop fuel c.1 c.2 (Generator i (left :: right :: rest)))
      (case_done bs i (room (left :: right :: rest) - cost fuel (width left))) s') ->
  ok (cost (S fuel) (width it)) (emit_case_loop (S fuel) c.1 c.2 (Generator i (it :: rest)))
    (case_done bs i (room (it :: rest) - cost (S fuel) (width it))) s.
Proof.
  intros T Hc Hpos Next. pose proof T as [_ _ C Ch _ N _ _]. pose proof Ch as (Hmin & Hmax & Hrest). simpl in C, N, Hmin, Hmax.
  pose proof (chain_le _ _ _ Hrest) as Hle. rewrite cost_S. destruct it as [min max label].
  cbn [emit_case_loop stack]. unfold width in *. simpl si_max in *. simpl si_min in *. subst min.
  replace (1 <? wrap 32 (max - i)) with (1 <? max - i) by (by rewrite wrap_small by (unfold in_u; lia)).
  eapply (ok_then _ 0); [exact (ok_open H s bs i _ rest T)|destruct (1 <? max - i); lia|].
  intros _ s1 (Ec & T1 & H1 & O1). destruct (Z.ltb_spec 1 (max - i)) as [Hw|Hw].
  - destruct (middle_of_range i max) as [-> Hmid]; [lia|lia|done|]. set (mid := i + (max - i) / 2) in *.
    eapply (ok_then _ 11); [apply ok_bound, (ok_search H1 s1 bs _ rest mid O1); unfold in_u; lia|lia|].
    intros L s2 (Hc2 & F2 & K2 & G2).
    pose proof (split_table H1 s1 bs _ rest i mid L s2 O1 Ch C Hmid ltac:(rewrite Ec; exact N) Hc2 F2 K2 G2) as T2.
    assert (Em : (max - i) / 2 = mid - i) by (unfold mid; lia). rewrite Em in *. clearbody mid.
    assert (Hr : room (StackItem i mid None :: StackItem mid max (Some L) :: rest) = room (StackItem i max label :: rest) - 11)
      by (simpl; unfold width; simpl; lia).
    eapply code_mono; [apply (Next Hw (L :: H1) s2 _ _ T2); [simpl; lia|exact Hr]|simpl; lia|].
    intros r s3 (D1 & D2 & D3). split; [done|]. split; [done|]. rewrite D3. simpl in Hr |- *. unfold width in *. simpl in *. lia.
  - eapply (ok_then _ 22); [apply (ok_leaf H s1 bs i _ rest c T1); [by exists H1|unfold width; simpl; lia|done]|lia|].
    intros L s2 T2. eapply ok_more; [apply code_ret|lia]. split; [done|]. split; [done|]. simpl. unfold width. simpl. lia.
Qed.
Lemma ok_case_loop fuel H s bs i it rest c :
  table H s bs (Generator i (it :: rest)) -> case_ok i c -> width it <= 2 ^ Z.of_nat fuel ->
  ok (cost (S fuel) (width it)) (emit_case_loop (S fuel) c.1 c.2 (Generator i (it :: rest)))
    (case_done bs i (room (it :: rest) - cost (S fuel) (width it))) s.
Proof.
  revert H s it rest. induction fuel as [|fuel IH]; intros H s it rest T Hc Hw; apply (ok_case_turn _ H); try done.
  - simpl in Hw. lia.
  - rewrite Nat2Z.inj_succ, Z.pow_succ_r in Hw by lia. destruct T as [_ _ _ (Hmin & Hmax & _) _ _ _ _]. simpl in Hmin, Hmax.
    destruct (Z.le_gt_cases (width it) 1) as [Hs|Hs]; [|].
    { assert (width it = 1) as -> by (unfold width in *; lia). by rewrite cost_S. }
    pose proof (cost_range fuel (width it / 2) ltac:(split; [apply Z.div_le_lower_bound|apply Z.div_le_upper_bound]; lia)). lia.
  - intros Hs H' s' left right T' El _. eapply IH; [exact T'|done|]. rewrite El.
    rewrite Nat2Z.inj_succ, Z.pow_succ_r in Hw by lia. apply Z.div_le_upper_bound; lia.
Qed.
Lemma ok_case H s bs i it rest c :
  table H s bs (Generator i (it :: rest)) -> case_ok i c ->
  ok (cost 33 (width it)) (emit_case c.1 c.2 (Generator i (it :: rest)))
    (case_done bs i (room (it :: rest) - cost 33 (width it))) s.
Proof.
  intros T Hc. eapply ok_case_loop; [exact T|done|]. destruct T as [_ _ C (Hmin & Hmax & Hrest) _ _ _ _]. simpl in C, Hmin, Hmax.
  apply chain_le in Hrest. unfold width. simpl Z.of_nat. lia.
Qed.
(** All branches are emitted: the one of the selected case has its operands. *)
Definition dispatched (branches : list Z) s : Prop :=
  fields branches s /\ exists L, branches !! Z.to_nat selected = Some L /\ there branches s (Via L) taken ls any.
Lemma table_end H s bs i : table H s bs (Generator i []) -> dispatched bs s.
Proof.
  intros [F P C Ch _ _ Tk _]. simpl in C, Ch. unfold labels in P. simpl in P. rewrite app_nil_r in P.
  destruct (lookup_lt_is_Some_2 bs (Z.to_nat selected)) as [L E]; [pose proof selected_range; lia|].
  assert (F' : fields bs s).
  { destruct F as [F1 F2 F3 F4]. constructor; try done; [by apply (Forall_Permutation _ _ (fun _ => iff_refl _) _ _ P) in F1|by eapply apart_perm]. }
  split; [done|]. exists L. split; [done|]. apply Tk in E. revert E. apply goes_weaken; [done|].
  intros a _ Ho. split; [by eapply off_fields_perm|done].
Qed.
Lemma ok_cases cases : forall H s bs h,
  table H s bs h -> cases <> [] -> Z.of_nat (length bs + length cases) = size + 1 ->
  (forall j c, cases !! j = Some c -> case_ok (Z.of_nat (length bs + j)) c) ->
  ok (room (stack h)) (emit_cases (W := t) cases h)
    (fun branches s' => length branches = length cases /\ dispatched (bs ++ branches) s') s.
Proof.
  induction cases as [|c cases IH]; intros H s bs [i items] T Hne Hlen Hc; [done|]. clear Hne.
  pose proof T as [_ _ C Ch _ _ _ _]. simpl in C, Ch. destruct items as [|it rest]; [simpl in Ch, Hlen; lia|].
  assert (Hc0 : case_ok i c) by (rewrite C, <- (Nat.add_0_r (length bs)); by apply Hc).
  pose proof (chain_room _ _ _ (proj2 (proj2 Ch))) as Hroom.
  pose proof (chain_le _ _ _ (proj2 (proj2 Ch))) as Hle. destruct Ch as (Hmin & Hmax & _).
  assert (Hw : 1 <= width it <= 2 ^ 32) by (unfold width; lia).
  pose proof (cost_range 32 (width it) Hw) as Hcost. change (stack (Generator i (it :: rest))) with (it :: rest).
  assert (Hroom' : room (it :: rest) = 33 * width it - 11 + room rest) by done.
  destruct cases as [|c2 cases]; destruct c as [d rt]; cbn [emit_cases Writers.emit_case Writers.emit_default x86_writer].
  - unfold emit_default. eapply (ok_then _ (cost 33 (width it)) _ _
      (fun r s' => exists H1, table H1 s' (bs ++ [r.1]) (Generator (_i r.2) []))); [|lia|].
    + eapply (ok_then _ (cost 33 (width it))); [exact (ok_case H s bs i it rest (d, rt) T Hc0)|lia|].
      intros [L h'] s1 ((H1 & T1) & Ei & _). destruct h' as [i' items']. simpl in Ei, T1, Hlen.
      assert (items' = []) as ->.
      { pose proof (tb_chain _ _ _ _ T1) as Hch. simpl in Hch. destruct items' as [|x items']; [done|].
        apply chain_le in Hch as Hl. destruct Hch as (_ & Hx & Hch). apply chain_le in Hch. lia. }
      rewrite bool_decide_eq_true_2 by done.
      eapply (ok_then _ 0 _ _ (fun _ s' => s' = s1)); [by apply code_ret|lia|]. intros [] s2 ->.
      eapply ok_more; [apply code_ret; by exists H1|lia].
    + intros [L h'] s1 [H1 T1]. eapply ok_more; [apply code_ret|lia]. split; [done|]. by eapply table_end.
  - eapply (ok_then _ (cost 33 (width it))); [exact (ok_case H s bs i it rest (d, rt) T Hc0)|lia|].
    intros [L h'] s1 ((H1 & T1) & Ei & Er). simpl in Ei, T1, Er.
    eapply (ok_then _ (room (stack h'))).
    + apply (IH H1 s1 (bs ++ [L]) h' T1); [done|rewrite length_app; simpl in *; lia|].
      intros j c Hj. replace (length (bs ++ [L]) + j)%nat with (length bs + S j)%nat by (rewrite length_app; simpl; lia).
      by apply Hc.
    + simpl in *. lia.
    + intros branches s2 [El D]. eapply ok_more; [apply code_ret|simpl in *; lia]. simpl. split; [exact (f_equal S El)|].
      by rewrite <- app_assoc in D.
Qed.
End Table.

Section Dispatch.
Context `{sys : Sys} `{jit : Jit} {start : Start}.
Implicit Types (vs ls : list operand_stack_elem) (s : t).

(** The generator starts with one range for all cases. *)
Lemma ok_emit_br_table n size vs ls taken s :
  inv s (const false n :: vs) ls -> in_u 32 n -> 0 <= size < 2 ^ 32 - 1 -> _code_segment_base s <= a0 ->
  code s + 33 * (size + 1) - a0 < 2 ^ 31 ->
  ok 10 (emit_br_table size) (fun h s' => table n size vs ls taken [] s' [] h /\ room (stack h) = 33 * (size + 1) - 11) s.
Proof.
  intros Hi Hn Hsize Hseg Hnear. unfold emit_br_table. rewrite (wrap_small 32 (size + 1)) by (unfold in_u; lia).
  eapply (ok_then _ 10); [|done|].
  - apply ok_frame, ok_bound, (code_pop s (const false n) vs ls 0 Hi); [scratch_tac|rewrite slot_const; by apply (in_u_64 false)].
  - intros [] s1 (Hf & Hc & He & _). eapply ok_more; [apply code_ret|done].
    pose proof (emitted_positive _ _ _ _ He) as [Hst _]. destruct He as [He1 He2]. pose proof (arrives_start _ _ _ _ _ He2) as Ha.
    split; [|simpl; unfold width; simpl; lia]. constructor; simpl; try done.
    + constructor; [constructor|done|done|]. rewrite Hf. done.
    + lia.
    + constructor.
    + unfold width. simpl. lia.
    + intros it [->|[]%elem_of_nil]%elem_of_cons _. apply arrives_there in He2. by rewrite slot_const in He2.
Qed.

(** The operands that the parser has checked for a branch *)
Definition branch_ok vs (c : Z * Z) : Prop := result_type c.2 /\ 0 <= c.1 < 2 ^ 28 /\ is_Some (popped c.1 c.2 vs).

Lemma ok_emit_table n vs ls cases s k c taken :
  let size := Z.of_nat (length cases) in
  inv s (const false n :: vs) ls -> in_u 32 n -> Forall (fun v => in_u 64 (slot v)) vs -> Forall (branch_ok vs) cases ->
  size < 2 ^ 32 -> _code_segment_base s <= a0 -> code s + 33 * size < a0 + 2 ^ 31 ->
  k = Z.min n (size - 1) -> cases !! Z.to_nat k = Some c -> popped c.1 c.2 vs = Some taken ->
  ok (33 * size) (emit_table (W := t) cases)
    (fun branches s' => length branches = length cases /\ dispatched n (size - 1) ls taken branches s') s.
Proof.
  intros size Hi Hn Hv Hc Hsize Hseg Hnear -> Ek Et. unfold emit_table. fold size.
  assert (Hpos : 0 < size) by (apply lookup_lt_Some in Ek; lia).
  assert (Hdep : (length vs <= depth)%nat) by (pose proof (inv_depth _ _ _ Hi) as Hd; simpl in Hd; lia).
  eapply (ok_then _ 10); [apply (ok_emit_br_table n (size - 1) vs ls taken s Hi Hn); [lia|done|lia]|lia|].
  intros h s1 [T Hr]. eapply ok_more; [apply (ok_cases n (size - 1) vs ls taken Hn ltac:(lia) Hv Hdep cases [] s1 [] h T)|lia].
  - intros ->. simpl in size. lia.
  - simpl. lia.
  - intros j x Ej. destruct (Forall_lookup_1 _ _ _ _ Hc Ej) as (H1 & H2 & [vs' H3]). split; [done|]. split; [done|].
    exists vs'. split; [done|]. unfold selected. intros E. replace (Z.to_nat (Z.min n (size - 1))) with j in Ek by (simpl in E; lia).
    congruence.
Qed.

(** With the targets filled in, the processor is at the target of the case with its
    operands. *)
Lemma ok_branch_table s n vs ls cases targets :
  let size := Z.of_nat (length cases) in
  let k := Z.to_nat (Z.min n (size - 1)) in
  inv s (const false n :: vs) ls -> in_u 32 n -> Forall (fun v => in_u 64 (slot v)) vs ->
  0 < size < 2 ^ 32 -> Forall (branch_ok vs) cases -> _code_segment_base s <= a0 -> code s + 33 * size < a0 + 2 ^ 31 ->
  length targets = length cases -> Forall (fun a => code s + 33 * size - 2 ^ 31 <= a < a0 + 2 ^ 31) targets ->
  ok (33 * size) (branches ← emit_table (W := t) cases; fix_branches (W := t) (zip branches targets))
    (fun _ s' => exists c a vs', cases !! k = Some c /\ targets !! k = Some a /\ popped c.1 c.2 vs = Some vs' /\
       forall bm, agrees bm (bytes s') a0 (code s') ->
         exists i m, Machine.steps bm i m0 = Some m /\ Machine.rip m = a /\ frame m0 sp depth offs vs' ls m) s.
Proof.
  intros size k Hi Hn Hv Hsize Hc Hseg Hnear Ht Hnt.
  destruct (lookup_lt_is_Some_2 cases k) as [c Ec]; [unfold k, in_u in *; lia|].
  destruct (lookup_lt_is_Some_2 targets k) as [a Ea]; [unfold k, in_u in *; lia|].
  pose proof (Forall_lookup_1 _ _ _ _ Hc Ec) as (_ & _ & [taken Et]).
  eapply (ok_then _ (33 * size)); [apply ok_bound, (ok_emit_table n vs ls cases s (Z.min n (size - 1)) c taken Hi Hn Hv Hc); done || lia|lia|].
  intros branches s1 (Hcode & Hl & F & L & EL & G). change (list Z) in (type of branches).
  change (@length Z branches = length cases) in Hl. eapply code_mono; [apply (ok_fixes (zip branches targets) branches s1 F)|lia|].
  - by rewrite fst_zip by lia.
  - intros L' a' Hin. pose proof (List.in_combine_l _ _ _ _ Hin) as H1. pose proof (List.in_combine_r _ _ _ _ Hin) as H2.
    pose proof (fi_range _ _ F) as Hf. rewrite List.Forall_forall in Hf, Hnt. specialize (Hf _ H1). specialize (Hnt _ H2).
    unfold in_s. change (32 - 1) with 31. lia.
  - intros _ s2 (_ & _ & _ & G2). exists c, a, taken. do 3 (split; [done|]). intros bm Hbm.
    assert (Hin : In (L, a) (zip branches targets)).
    { by apply (in_zip branches targets k). }
    destruct (G2 L a taken ls any Hin G bm) as (i & m & Hi' & Hr & Hm & _); [intros x Hx _; by apply Hbm|].
    by exists i, m.
Qed.
End Dispatch.
