(* ===== verification/X86Switch.v ===== *)
(** * Compiled and interpreted branch tables (x86_64.hpp, interpret_visitor.hpp)

    Straight-line code that ends with [br_table], given to both writers: the processor
    and the interpreter go to the targets of the same case, with the same operands. *)
From S2P Require Import Prelude WasmStack Allocator Opcodes Types OpSigs Validation Writers WriterLaws ValidationClaims LinearMemory ExecContext Softfloat FloatInstance Simd Interpreter Fixtures ContextProofs InstanceProofs IntegerOps CodeTyping TrackerTypes WriterEffects CompiledJumps X86 X86Control X86Writer X86Machine BulkMemory RunTyping X86Frame X86Emit X86Fold X86Ops X86Values X86Offsets X86Straight X86Agree X86Branch X86Table.
Import Op(opcode).

(** ** The interpreter's writer *)
Section Bitcode.
Context `{sys : Sys}.
Implicit Types (w : BitcodeWriter.t) (table : list Op.elem_t).
Abbreviation cell := BitcodeLaws.cell.
Import BitcodeWriter(AtCase, op_index, tp_instr, tp_i).

(** The immediate of an entry counts what the case drops. *)
Definition entry_of (c : Z * Z) (e : Op.elem_t) : Prop :=
  BitcodeWriter.encode_depth_change c.1 c.2 = Ret (Op.elem_stack_pop e).
(** The table at [i] has got the entries of [cases]. *)
Record tabled i size table cases (bs : list BitcodeWriter.branch) w w' : Prop := {
  ta_index : op_index w' = op_index w;
  ta_frame : frame_of w' = frame_of w;
  ta_cell : exists es, cell w' i = Some (Op.BR_TABLE size (table ++ es)) /\ Forall2 entry_of cases es;
  ta_others k : k <> i -> cell w' k = cell w k;
  ta_branches : bs = AtCase i <$> seqZ (Z.of_nat (length table)) (Z.of_nat (length cases))
}.

Lemma entered_tabled i size table c cases pop bs w w1 w2 :
  cell w i = Some (Op.BR_TABLE size table) -> BitcodeWriter.encode_depth_change c.1 c.2 = Ret pop -> entered_case i pop w w1 ->
  tabled i size (table ++ [Op.Elem 0 pop]) cases bs w1 w2 ->
  tabled i size table (c :: cases) (AtCase i (Z.of_nat (length table)) :: bs) w w2.
Proof.
  intros Hc Hp [E1 E2 _ E4] [T1 T2 (es & T3 & T4) T5 T6]. constructor; [congruence|congruence| |intros k Hk; by rewrite T5, E4|].
  - exists (Op.Elem 0 pop :: es). rewrite T3, <- app_assoc. split; [done|]. by constructor.
  - rewrite T6, length_app. simpl length. rewrite (seqZ_cons (Z.of_nat (length table))) by lia. simpl. f_equal.
    f_equal. f_equal; lia.
Qed.
Lemma cases_tabled i size cases : forall w h table,
  cell w i = Some (Op.BR_TABLE size table) -> tp_instr h = i -> tp_i h = Z.of_nat (length table) ->
  post (emit_cases (W := BitcodeWriter.t) cases h) (fun bs w' => tabled i size table cases bs w w') w.
Proof.
  induction cases as [|[d rt] cases IH]; intros w h table Hc Hh Hn.
  { apply post_ret. constructor; try done. exists []. by rewrite app_nil_r. }
  assert (Hcell : forall pop w1, entered_case i pop w w1 -> cell w1 i = Some (Op.BR_TABLE size (table ++ [Op.Elem 0 pop]))).
  { intros pop w1 E. destruct (ec_cell _ _ _ _ E) as (size' & table' & H1 & H2). rewrite Hc in H1. by injection H1 as <- <-. }
  destruct cases as [|c2 cases].
  - cbn [emit_cases Writers.emit_default bitcode_writer]. apply post_bind. eapply post_mono; [apply emit_default_post|].
    intros [b h'] w1 (Eb & pop & Hp & He). simpl in Eb; subst b; rewrite Hh, Hn in *. apply post_ret.
    apply (entered_tabled i size table (d, rt) [] pop [] w w1 w1 Hc Hp He). constructor; try done.
    exists []. split; [by rewrite app_nil_r, (Hcell pop w1 He)|constructor].
  - cbn [emit_cases Writers.emit_case bitcode_writer]. apply post_bind. eapply post_mono; [apply emit_case_post|].
    intros [b h'] w1 (Eb & H1 & H2 & pop & Hp & He). simpl in H1, H2. simpl in Eb; subst b; rewrite Hh, Hn in *. apply post_bind.
    eapply post_mono; [apply (IH w1 h' (table ++ [Op.Elem 0 pop])); [by apply Hcell|done|rewrite length_app; simpl; lia]|].
    intros bs w2 T. apply post_ret. by eapply (entered_tabled i size table (d, rt)).
Qed.

(** The targets are filled in. *)
Record filled (fixes : list (BitcodeWriter.branch * Z)) w w' : Prop := {
  fd_index : op_index w' = op_index w;
  fd_frame : frame_of w' = frame_of w;
  fd_targets : forall b t, In (b, t) fixes -> target (cell w') b = Some (wrap 32 (BitcodeWriter._base_offset w + t));
  fd_others b : ~ In b fixes.*1 -> target (cell w') b = target (cell w) b;
  fd_cells k o : cell w k = Some o -> exists o', cell w' k = Some o' /\ same_but_target o o'
}.
Lemma fixes_filled fixes : forall w, NoDup fixes.*1 ->
  post (fix_branches (W := BitcodeWriter.t) fixes) (fun _ w' => filled fixes w w') w.
Proof.
  induction fixes as [|[b t] fixes IH]; intros w Hnd.
  { apply post_ret. constructor; try done. intros k o Hk. exists o. split; [done|apply same_but_target_refl]. }
  simpl in Hnd. inversion Hnd as [|? ? Hb Hnd']; subst; clear Hnd. rewrite list_elem_of_In in Hb. cbn [fix_branches eachM]. apply post_bind.
  eapply post_mono; [apply fix_branch_post|]. intros _ w1 [D1 D2 D3 D4 D5]. eapply post_mono; [by apply IH|].
  intros _ w2 [F1 F2 F3 F4 F5]. constructor; [congruence|congruence| | |].
  - intros b' t' [[= <- <-]|Hin]; [by rewrite F4|]. rewrite (F3 b' t' Hin). by rewrite (frame_base _ _ D2).
  - intros b' Hn. simpl in Hn. rewrite F4 by tauto. apply D4. intros ->. tauto.
  - intros k o Hk. destruct (D5 k o Hk) as (o1 & Hk1 & S1). destruct (F5 k o1 Hk1) as (o2 & Hk2 & S2).
    exists o2. split; [done|]. by eapply same_but_target_trans.
Qed.

(** ** The code and the table *)
Lemma code_advances locals depth l : forall ts us w,
  straight locals depth l ts = Some us -> 0 <= op_index w ->
  post (emit_code (W := BitcodeWriter.t) locals l ts)
    (fun _ w' => op_index w' = op_index w + Z.of_nat (length l) /\ frame_of w' = frame_of w) w.
Proof.
  induction l as [|o l IH]; intros ts us w Hl Hw; [apply post_ret; split; [simpl; lia|done]|].
  simpl in Hl. destruct (next locals o ts) as [ts1|] eqn:Hn; [|done]. simpl in Hl. destruct (_ <=? _)%nat; [|done].
  cbn [emit_code]. rewrite (bitcode_instr _ _ _ _ Hn), Hn. apply post_bind. eapply post_mono; [by apply append_post|].
  intros _ w1 [A1 _ A3 _ _]. eapply post_mono; [apply (IH ts1 us w1 Hl); lia|].
  intros _ w2 [H1 H2]. split; [cbn [length]; lia|congruence].
Qed.
(** The cells that [l] and [br_table] make *)
Record switch_code (l : list opcode) (cases : list (Z * Z)) (targets : list Z) w w' : Prop := {
  sw_code k o : l !! k = Some o -> cell w' (op_index w + Z.of_nat k) = Some o;
  sw_table : exists table, cell w' (op_index w + Z.of_nat (length l)) = Some (Op.BR_TABLE (Z.of_nat (length cases) - 1) table) /\
    forall j c t, cases !! j = Some c -> targets !! j = Some t ->
      exists e, table !! j = Some e /\ entry_of c e /\ Op.elem_pc e = wrap 32 (BitcodeWriter._base_offset w + t)
}.
Lemma straight_no_target locals depth l ts us k o o' :
  straight locals depth l ts = Some us -> l !! k = Some o -> same_but_target o o' -> o' = o.
Proof.
  revert ts k. induction l as [|x l IH]; intros ts k Hl Hk; [done|]. simpl in Hl.
  destruct (next locals x ts) as [ts1|] eqn:Hn; [|done]. simpl in Hl. destruct (_ <=? _)%nat; [|done].
  destruct k as [|k]; [|by eapply IH]. injection Hk as ->. by destruct o.
Qed.
Lemma same_table size table o' : same_but_target (Op.BR_TABLE size table) o' ->
  exists table', o' = Op.BR_TABLE size table' /\ forall j e, table !! j = Some e ->
    exists e', table' !! j = Some e' /\ Op.elem_stack_pop e' = Op.elem_stack_pop e.
Proof.
  intros (table' & -> & E). exists table'. split; [done|]. intros j e Hj.
  assert (H : (Op.elem_stack_pop <$> table') !! j = Some (Op.elem_stack_pop e)) by (by rewrite E, list_lookup_fmap, Hj).
  rewrite list_lookup_fmap in H. destruct (table' !! j) as [e'|]; [|done]. injection H as H. by exists e'.
Qed.
Lemma switch_cells locals depth l ts us cases targets w w' :
  straight locals depth l ts = Some us -> 0 <= op_index w -> 0 < Z.of_nat (length cases) < 2 ^ 32 ->
  length targets = length cases ->
  emit_switch (W := BitcodeWriter.t) locals l ts cases targets w = (Ret tt, w') -> switch_code l cases targets w w'.
Proof.
  intros Hl Hw Hsize Ht. unfold emit_switch, emit_table. set (size := Z.of_nat (length cases) - 1) in *.
  revert w'. cut (post (emit_switch (W := BitcodeWriter.t) locals l ts cases targets) (fun _ => switch_code l cases targets w) w).
  { intros H w' E. by apply (H tt w'). }
  unfold emit_switch, emit_table. apply post_bind. intros [] w1 E1.
  destruct (code_advances _ _ _ _ _ _ Hl Hw _ _ E1) as [Hi1 Hf1]. destruct (bitcode_cells _ _ _ _ _ _ _ Hl Hw E1) as [_ Hc1].
  apply post_bind, post_bind. eapply post_mono; [apply (emit_br_table_post size w1); [lia|unfold in_u, size; lia]|].
  intros h w2 (Hh & Hn & [_ R2 R3 R4]). eapply post_mono; [apply (cases_tabled (op_index w1) size cases w2 h [] R2 Hh Hn)|].
  intros bs w3 [T1 T2 (es & T3 & T4) T5 T6]. simpl in T3.
  assert (Hlen : length bs = length cases) by (by rewrite T6, length_fmap, length_seqZ, Nat2Z.id).
  assert (Hfst : (zip bs targets).*1 = bs) by (by rewrite fst_zip by lia).
  eapply post_mono; [apply fixes_filled|].
  { rewrite Hfst, T6. apply NoDup_fmap_2; [by intros ?? [= ]|apply NoDup_seqZ]. }
  intros _ w4 [_ F2 F3 _ F5]. constructor.
  - intros k o Hk. assert (Hlt : op_index w + Z.of_nat k < op_index w1) by (apply lookup_lt_Some in Hk; lia).
    destruct (F5 (op_index w + Z.of_nat k) o) as (o' & E' & S').
    { rewrite T5, R4 by lia. by apply Hc1. }
    rewrite E'. by rewrite (straight_no_target _ _ _ _ _ _ _ _ Hl Hk S').
  - rewrite <- Hi1. destruct (F5 _ _ T3) as (o' & E' & (table' & -> & Hpop)%same_table). exists table'. split; [done|].
    intros j c t Hj Htj. destruct (Forall2_lookup_l _ _ _ _ _ T4 Hj) as (e & He & Hent).
    destruct (Hpop j e He) as (e' & He' & Ep). exists e'. split; [done|]. split; [unfold entry_of in *; by rewrite Ep|].
    assert (Hb : bs !! j = Some (AtCase (op_index w1) (Z.of_nat j))).
    { rewrite T6, list_lookup_fmap, lookup_seqZ_lt by (apply lookup_lt_Some in Hj; lia). done. }
    assert (Hin : In (AtCase (op_index w1) (Z.of_nat j), t) (zip bs targets)).
    { by apply (in_zip bs targets j). }
    specialize (F3 _ _ Hin). simpl in F3. rewrite E', nthZ_lookup, Nat2Z.id, He' in F3 by lia. injection F3 as ->.
    rewrite (frame_base _ _ T2), (frame_base _ _ R3), (frame_base _ _ Hf1). done.
Qed.
End Bitcode.

(** ** The interpreter *)
Section Switch.
Context `{sys : Sys} `{sf : Softfloat} (m : module) (_rhf : Z -> M ctx unit).
Implicit Types (c : ctx) (vs ls below : list operand_stack_elem).

Lemma jump_in_function c p vs ls below d e vs' :
  in_function c p vs ls below -> nthZ (code m) 0 <> None -> small (vs ++ reverse ls ++ below) ->
  entry_of d e -> result_type d.2 -> 0 <= d.1 < 2 ^ 28 -> popped d.1 d.2 vs = Some vs' ->
  exists c', jump m (Op.elem_stack_pop e) (Op.elem_pc e) c = (Ret tt, c') /\ in_function c' (Op.elem_pc e) vs' ls below /\ only_operands c c'.
Proof.
  intros [Hs Hp Hb] Hcode Hsm He Hrt Hd Hpop. apply encoded in He as [Hd31 E]; [|unfold in_u; lia].
  assert (Hlast : forall c', c' = set_pc (Pc (Op.elem_pc e)) (set_os (_os c') c) -> only_operands c c' /\ _last_op_index c' = Z.of_nat (length below)).
  { intros c' ->. by split; [|rewrite <- Hb]. }
  destruct (jump_ok m d.1 (Op.elem_pc e) _ c Hcode ltac:(lia) Hs Hsm) as [J1 J2]. unfold popped in Hpop.
  destruct (d.2 =? pseudo).
  - destruct (Z.leb_spec 0 d.1), (Z.leb_spec d.1 (Z.of_nat (length vs))); try done. injection Hpop as <-.
    destruct J1 as (c' & Ej & Hpc & Hst & Hc'); [rewrite length_app; lia|]. destruct (Hlast c' Hc') as [Ho Hb'].
    exists c'. rewrite E. split; [done|]. split; [|done]. constructor; [|done|done].
    rewrite drop_app_le in Hst by lia. exact Hst.
  - destruct vs as [|v vs]; [done|]. destruct (Z.leb_spec 1 d.1), (Z.leb_spec d.1 (Z.of_nat (length (v :: vs)))); try done. injection Hpop as <-.
    destruct (J2 v (vs ++ reverse ls ++ below) eq_refl) as (c' & Ej & Hpc & Hst & Hc'); [rewrite length_app; lia|].
    destruct (Hlast c' Hc') as [Ho Hb']. exists c'. rewrite E. split; [done|]. split; [|done]. constructor; [|done|done].
    rewrite drop_app_le in Hst by (simpl in *; lia). replace (Z.to_nat d.1) with (S (Z.to_nat (d.1 - 1))) by lia. exact Hst.
Qed.
Lemma table_moves c p n vs ls below size table d e vs' :
  in_function c p (const false n :: vs) ls below -> nthZ (code m) 0 <> None -> in_u 32 n ->
  small (vs ++ reverse ls ++ below) -> nthZ table (Z.min n size) = Some e ->
  entry_of d e -> result_type d.2 -> 0 <= d.1 < 2 ^ 28 -> popped d.1 d.2 vs = Some vs' ->
  exists c', exec m _rhf (Op.BR_TABLE size table) c = (Ret tt, c') /\ in_function c' (Op.elem_pc e) vs' ls below /\ only_operands c c'.
Proof.
  intros [Hs Hp Hb] Hcode Hn Hsm Ht He Hrt Hd Hpop.
  cut (wp (exec m _rhf (Op.BR_TABLE size table)) (fun _ c' => in_function c' (Op.elem_pc e) vs' ls below /\ only_operands c c') (fun _ _ => False) c).
  { intros H%wp_returns. destruct H as ([] & c' & E & H). by exists c'. }
  simpl exec. unfold exec_br_table, pop_ui32. apply wp_bind, wp_bind. eapply (wp_pop (const false n)); [exact Hs|].
  intros os Hw Hc. simpl. eapply wp_lift_Ret; [done|]. apply wp_bind. eapply wp_lift_Ret; [by rewrite Ht|].
  destruct (jump_in_function (set_os os c) p vs ls below d e vs') as (c' & E & Hi' & Ho); [by constructor|done..|].
  unfold wp. rewrite E. split; [done|]. unfold only_operands in *. rewrite Ho. by destruct c.
Qed.

(** ** Both *)

(** A case that validation lets through: it has its operands. *)
Definition case_fits (us : list Z) (d : Z * Z) : Prop :=
  result_type d.2 /\ 0 <= d.1 < 2 ^ 28 /\ (if d.2 =? pseudo then 0 else 1) <= d.1 <= Z.of_nat (length us).
Lemma fits_ok vs d : case_fits (elem_type <$> vs) d -> branch_ok vs d.
Proof.
  intros (H1 & H2 & H3). rewrite length_fmap in H3. split; [done|]. split; [done|]. unfold popped. destruct (d.2 =? pseudo).
  - rewrite (proj2 (Z.leb_le _ _)), (proj2 (Z.leb_le _ _)) by lia. by eexists.
  - destruct vs as [|v vs]; [simpl in H3; lia|]. rewrite (proj2 (Z.leb_le _ _)), (proj2 (Z.leb_le _ _)) by lia. by eexists.
Qed.
Lemma typed_types vs ts : typed vs ts -> elem_type <$> vs = ts.
Proof. by intros []. Qed.
Lemma typed_slots vs ts : typed vs ts -> Forall (fun v => in_u 64 (slot v)) vs.
Proof. intros [_ H]. eapply Forall_impl; [|exact H]. simpl. apply slot_range. Qed.
Lemma typed_index vs us : typed vs (i32 :: us) -> exists n vs', vs = const false n :: vs' /\ in_u 32 n /\ typed vs' us.
Proof.
  intros H. apply typed_cons_inv in H as (v & vs' & -> & Ht & Hv & H). destruct v; try discriminate Ht. by eexists _, vs'.
Qed.

(** The room that the code of [l] and of the cases takes at most *)
Definition switch_room (l : list opcode) (cases : list (Z * Z)) : Z := 64 * Z.of_nat (length l) + 33 * Z.of_nat (length cases).

Lemma ok_switch `{jit : Jit} {st : Start} locals l ts us vs ls n vs1 ls1 cases targets (s : X86.t) :
  let k := Z.to_nat (Z.min n (Z.of_nat (length cases) - 1)) in
  straight locals depth l ts = Some (i32 :: us) -> typed vs ts -> typed ls locals -> Forall scalar locals -> Forall scalar ts ->
  effects l vs ls = Some (const false n :: vs1, ls1) -> in_u 32 n -> typed vs1 us -> inv s vs ls -> knows locals s ->
  0 < Z.of_nat (length cases) < 2 ^ 32 -> Forall (case_fits us) cases -> length targets = length cases ->
  X86._code_segment_base s <= a0 -> X86.code s + switch_room l cases < a0 + 2 ^ 31 ->
  Forall (fun a => X86.code s + switch_room l cases - 2 ^ 31 <= a < a0 + 2 ^ 31) targets ->
  ok (switch_room l cases) (emit_switch (W := X86.t) locals l ts cases targets)
    (fun _ s' => exists (d : Z * Z) (a : Z) vs', cases !! k = Some d /\ targets !! k = Some a /\ popped d.1 d.2 vs1 = Some vs' /\
       forall bm, agrees bm (X86.bytes s') a0 (X86.code s') ->
         exists i m, Machine.steps bm i m0 = Some m /\ Machine.rip m = a /\ frame m0 sp depth offs vs' ls1 m) s.
Proof.
  intros k Hl Hvs Hls Hsl Hst He Hn Hvs1 Hi Hk Hsize Hc Ht Hseg Hnear Hnt. unfold switch_room in *.
  eapply (ok_then _ (64 * Z.of_nat (length l))).
  - apply ok_frame, ok_bound. exact (emit_code_ok _ _ _ _ _ _ _ _ _ Hl Hvs Hls Hsl Hst He Hi Hk).
  - lia.
  - intros _ s1 (Hf & Hcode & Hi1). eapply ok_more; [apply (ok_branch_table s1 n vs1 ls1 cases targets Hi1 Hn)|lia].
    + by eapply typed_slots.
    + done.
    + rewrite <- (typed_types _ _ Hvs1) in Hc. eapply Forall_impl; [|exact Hc]. apply fits_ok.
    + by rewrite Hf.
    + lia.
    + done.
    + eapply Forall_impl; [|exact Hnt]. simpl. lia.
Qed.

Lemma straight_depth locals depth l : forall ts us, straight locals depth l ts = Some us -> (length ts <= depth)%nat -> (length us <= depth)%nat.
Proof.
  induction l as [|o l IH]; intros ts us Hl Hd; [by injection Hl as <-|]. simpl in Hl.
  destruct (next locals o ts) as [ts1|]; [|done]. simpl in Hl. destruct (Nat.leb_spec (length ts1) depth); [by eapply IH|done].
Qed.

Lemma runs_last k c c1 c' : runs m _rhf k c c1 -> dispatch m _rhf c1 = (Ret false, c') -> runs m _rhf (S k) c c'.
Proof.
  intros Hr Hd fuel. replace (S k + fuel)%nat with (k + S fuel)%nat by lia. rewrite (Hr (S fuel)). simpl. by rewrite Hd.
Qed.

(** C5. A branch table selects the same case in both. Both writers are given the calls for
    straight-line code [l] whose last operand is an index [n], and for [br_table] with
    [cases], and then the targets of its branches.  The interpreter takes a turn for each
    instruction; the code generator returns when it has 64 bytes for each instruction
    and 33 for each case, and uses no more.  Both leave [l] with operands
    [const n :: vs1], and both go to the target of case [n], or of the last when there
    are no so many, with the operands of [vs1] that this case keeps. *)
Theorem branch_table_agrees `{jit : Jit} ft entries depth l ts us cases (addresses offsets : list Z) vs ls below (s : X86.t) (w w' : BitcodeWriter.t) m0 c p :
  let params := param_types ft in let locals := expand entries in let size := Z.of_nat (length cases) in
  validate_jit_size = false -> compiling ft entries s -> X86._code_segment_base s <= X86.code s ->
  straight (params ++ locals) depth l ts = Some (i32 :: us) -> typed vs ts -> typed ls (params ++ locals) -> Forall scalar ts ->
  (length ts <= depth)%nat -> Z.of_nat (depth + length (params ++ locals) + length below) < 2 ^ 32 ->
  0 < size < 2 ^ 32 -> Forall (case_fits us) cases -> length addresses = length cases -> length offsets = length cases ->
  switch_room l cases < 2 ^ 31 ->
  Forall (fun a => switch_room l cases - 2 ^ 31 <= a - X86.code s < 2 ^ 31) addresses ->
  stack_room params locals depth m0 -> Machine.rip m0 = X86.code s -> represents params locals depth m0 vs ls m0 ->
  0 <= BitcodeWriter.op_index w -> nthZ (code m) 0 <> None ->
  emit_switch (W := BitcodeWriter.t) (params ++ locals) l ts cases offsets w = (Ret tt, w') ->
  (forall k, 0 <= k <= Z.of_nat (length l) -> nthZ (bitcode m) (p + k) = BitcodeLaws.cell w' (BitcodeWriter.op_index w + k)) ->
  in_function c p vs ls below ->
  exists n vs1 vs' ls' (d : Z * Z) (a t : Z) c', let k := Z.to_nat (Z.min n (size - 1)) in
    effects l vs ls = Some (const false n :: vs1, ls') /\
    cases !! k = Some d /\ addresses !! k = Some a /\ offsets !! k = Some t /\ popped d.1 d.2 vs1 = Some vs' /\
    runs m _rhf (S (length l)) c c' /\ in_function c' (wrap 32 (BitcodeWriter._base_offset w + t)) vs' ls' below /\ only_operands c c' /\
    (X86.code s + switch_room l cases <= X86._code_end s ->
       exists s', emit_switch (W := X86.t) (params ++ locals) l ts cases addresses s = (Ret tt, s')) /\
    (forall s', emit_switch (W := X86.t) (params ++ locals) l ts cases addresses s = (Ret tt, s') ->
       X86.code s' <= X86.code s + switch_room l cases /\
       forall bm, agrees bm (X86.bytes s') (X86.code s) (X86.code s') ->
         exists i m', Machine.steps bm i m0 = Some m' /\ Machine.rip m' = a /\ represents params locals depth m0 vs' ls' m').
Proof.
  intros params locals size Hrel Hco Hseg Hl Hvs Hls Hst Hd Hsm Hsize Hc Hna Hno Hroom Hnear Hsr Hrip Hrep Hw Hcode Ew Hcells Hi.
  destruct (switch_cells _ _ _ _ _ _ _ _ _ Hl Hw Hsize Hno Ew) as [Hsc (table & Htab & Hent)].
  destruct (straight_runs m _rhf (params ++ locals) depth l ts (i32 :: us) c p vs ls below Hl Hd Hvs Hls (co_types _ _ _ Hco) Hst Hsm Hi)
    as (vs2 & ls' & c1 & He & Hvs2 & Hls' & Hr & Hi1 & Ho1).
  { intros k o Ho. rewrite Hcells; [by apply Hsc|]. apply lookup_lt_Some in Ho. lia. }
  destruct (typed_index _ _ Hvs2) as (n & vs1 & -> & Hn & Hvs1).
  set (k := Z.to_nat (Z.min n (size - 1))).
  assert (Hk : (k < length cases)%nat) by (unfold k, in_u in *; lia).
  destruct (lookup_lt_is_Some_2 cases k) as [d Ed]; [lia|]. destruct (lookup_lt_is_Some_2 addresses k) as [a Ea]; [lia|].
  destruct (lookup_lt_is_Some_2 offsets k) as [t Et]; [lia|]. destruct (Hent k d t Ed Et) as (e & Eelem & Hpop & Epc).
  pose proof (Forall_lookup_1 _ _ _ _ Hc Ed) as Hfit. rewrite <- (typed_types _ _ Hvs1) in Hfit.
  destruct (fits_ok _ _ Hfit) as (Hrt & Hdc & [vs' Ep]).
  destruct (table_moves c1 _ n vs1 ls' below (size - 1) table d e vs' Hi1 Hcode Hn) as (c' & E' & Hi' & Ho'); [|rewrite nthZ_lookup; [done|unfold in_u in *; lia]|done..|].
  { pose proof (straight_depth _ _ _ _ _ Hl Hd) as Hdep. apply typed_length in Hvs1, Hls'. simpl in Hdep.
    unfold small. rewrite !length_app, length_reverse. lia. }
  exists n, vs1, vs', ls', d, a, t, c'. simpl. split; [done|]. do 4 (split; [done|]).
  split. { eapply runs_last; [exact Hr|]. eapply (dispatch_exec m _rhf c1 _ _ (Ret tt)); [|exact E'].
    split; [apply Hi1|]. split; [|done]. rewrite Hcells by lia. exact Htab. }
  split; [by rewrite <- Epc|]. split; [by eapply only_operands_trans|].
  destruct (compiling_start _ _ _ _ _ _ _ Hrel Hco Hsr Hrip Hrep) as (Hgeo & Hpos & Hrel' & Hinv & Hknows).
  destruct (ok_switch (st := function_start params locals depth m0 s Hgeo Hpos Hrel') (params ++ locals) l ts us vs ls n vs1 ls' cases addresses s
    Hl Hvs Hls (co_types _ _ _ Hco) Hst He Hn Hvs1 Hinv Hknows Hsize Hc Hna Hseg) as [H1 H2].
  { simpl. lia. }
  { eapply Forall_impl; [|exact Hnear]. simpl. lia. }
  split; [intros Hr'; destruct (H1 Hr') as ([] & s' & E); by exists s'|].
  intros s' E. destruct (H2 tt s' E) as (Hcs & _ & d' & a' & vs2' & Ed' & Ea' & Ep' & Hrun). split; [done|].
  change (cases !! k = Some d') in Ed'. change (addresses !! k = Some a') in Ea'.
  rewrite Ed in Ed'. injection Ed' as <-. rewrite Ea in Ea'. injection Ea' as <-. rewrite Ep in Ep'. by injection Ep' as <-.
Qed.
End Switch.

(** ** An example: [get_local 1; i32.const 1; br_table], whose second case drops the local *)
Definition switch_code_example : list opcode := [Op.VARIABLE_ACCESS Op.get_local 1; Op.I32_CONST 1].
Definition switch_cases : list (Z * Z) := [(0, pseudo); (1, pseudo); (0, pseudo)].
Definition switch_module : module :=
  Module_ (switch_code_example ++ [Op.BR_TABLE 2 [Op.Elem 10 0; Op.Elem 20 1; Op.Elem 30 0]]) Mod.uint32_max [add_type; host_type]
    [ImportEntry [101] [102] Function_ (ImportFunc 1)] [0]
    [Fixtures.example_table] [example_memory] [example_global; constant_global]
    [ExportEntry [97; 100; 100] Function_ 1]
    [example_elem; example_passive_elem] [add_body] [example_data; example_passive] None
    [0] 0 false false None.
Definition switch_cells_example : BitcodeWriter.t :=
  BitcodeWriter.Make arena_example 0 0 (BitcodeWriter.GuardedVector 0 (BitcodeWriter.blank 20)) 0 0 [].
Definition switch_bitcode : outcome unit * BitcodeWriter.t :=
  emit_switch (wr := bitcode_writer (sys := linux)) example_types switch_code_example [] switch_cases [10; 20; 30] switch_cells_example.
Lemma branch_table_agrees_witness :
  exists s' c' i m',
    runs (sys := linux) (sf := reference_softfloat) switch_module no_host 3 example_ctx0 c' /\ pc c' = Pc 20 /\
    emit_switch (wr := x86_writer (sys := linux) (jit := example_jit)) example_types switch_code_example [] switch_cases
      [2000; 3000; 4000] example_generator = (Ret tt, s') /\
    Machine.steps (X86.bytes s') i example_machine = Some m' /\ Machine.rip m' = 3000.
Proof.
  destruct (branch_table_agrees (sys := linux) (jit := example_jit) (sf := reference_softfloat) switch_module no_host
    add_type [LocalEntry 1 i64] 10 switch_code_example [] [i32] switch_cases [2000; 3000; 4000] [10; 20; 30] [] example_locals []
    example_generator switch_cells_example switch_bitcode.2 example_machine example_ctx0 0)
    as (n & vs1 & vs' & ls' & d & a & t & c' & He & Hd & Ha & Ht & _ & Hr & Hi & _ & H1 & H2).
  - reflexivity.
  - exact example_compiling.
  - vm_compute. discriminate.
  - vm_compute. reflexivity.
  - split; [reflexivity|constructor].
  - split; [reflexivity|]. repeat constructor; discriminate.
  - constructor.
  - simpl. lia.
  - vm_compute. reflexivity.
  - split; vm_compute; reflexivity.
  - repeat constructor; vm_compute; discriminate || reflexivity.
  - reflexivity.
  - reflexivity.
  - vm_compute. reflexivity.
  - repeat constructor; vm_compute; discriminate || reflexivity.
  - split; vm_compute; discriminate.
  - reflexivity.
  - exact example_represents.
  - simpl. lia.
  - vm_compute. discriminate.
  - vm_compute. reflexivity.
  - intros k Hk. simpl in Hk. assert (k = 0 \/ k = 1 \/ k = 2) as [-> |[-> | ->]] by lia; vm_compute; reflexivity.
  - constructor; [by apply holding_wf|reflexivity..].
  - vm_compute in He. injection He as <- <- <-. injection Ha as <-. injection Ht as <-.
    destruct H1 as [s' Es]; [vm_compute; discriminate|].
    destruct (H2 s' Es) as [_ H3]. destruct (H3 (X86.bytes s')) as (i & m' & Hn & Hrip & _); [intros x _; reflexivity|].
    exists s', c', i, m'. split; [exact Hr|]. split; [exact (if_pc _ _ _ _ _ Hi)|]. split; [exact Es|]. split; [exact Hn|exact Hrip].
Defined.
